(* ===== verification/_CoqProject ===== *)
-Q . S2P
Prelude.v
Diff.v
Base32.v
Luhn32.v
DeviceId.v
Version.v
Proto.v
Blocks.v
FileInfo.v
Caches.v
FileStore.v
FileMap.v
GenericMap.v
Device.v
Folder.v
Streamer.v
Path.v
Resolver.v
BlockMap.v
UpdateFolder.v
FileIterator.v
Scheduler.v
Watcher.v
ApplyUpdate.v
Advance.v
AdvanceLocal.v
Cluster.v
Changes.v
Trees.v
Removal.v
ClusterUpdate.v
Wire.v
Relay.v
Bep.v
Controller.v
ControllerSample.v
Exchange.v
Conversation.v
Pulling.v
Disk.v
FileIo.v
FileActor.v
DiskFrame.v
Download.v
FileSample.v
Presence.v
Tasks.v
Segments.v
FolderContext.v
LocalKeeper.v
KeeperSample.v
KeeperFrame.v
StackEnds.v
KeeperSteps.v
KeeperLedger.v
KeeperRun.v
Dialer.v
PeerActor.v
PeerFrame.v
PeerStream.v
PeerRun.v
Dns.v
Initiator.v
Database.v
DbActor.v
Persist.v
DbSample.v
RestoreFiles.v
Restore.v
RestoreTree.v
LoadLoop.v
Restart.v
