(* ===== verification/Prelude.v ===== *)
(** * A verification library for syncspirit

    syncspirit (src/) is a continuous file synchronisation program: devices of a cluster share
    folders, announce the files they have to each other in the block exchange protocol, and
    every device decides by version vectors which files of its peers to take over, block by block. It
    is built of actors around one in-memory model of the cluster. This library
    models that core: the model of the cluster, the decisions on versions and conflicts, the
    treatment of index updates, and the text and wire formats, and proves what makes them
    correct.

    ** Parts of the program and the files that model them

    - [Prelude]: machine words with their wrap-around ([u8] ... [u64], [i32]), byte strings, the error
      codes, the result type [res] with its [let*] notation, lemmas on bits, positional notation and
      lists. [res] is [outcome::result] with one more case: [Ub] is a failed [assert], a read outside
      an array or of the dead member of a union, a null pointer. A theorem that ends in [Ok]
      therefore says that no assertion trips.
    - [Base32] (src/utils/base32), [Luhn32] (src/proto/luhn32.cpp), [DeviceId]
      (src/model/device_id): identifiers of devices as texts with check characters.
    - [Version] (src/model/version.cpp): version vectors whose best counter is marked in a bit.
    - [Proto] (src/proto/proto-fwd.hpp): the messages, as records.
    - [Blocks] (src/model/block_info, src/model/misc/file_block): a block, the places it is used at, and
      the 32-bit word that packs its reference count with two flags.
    - [FileInfo] (src/model/file_info.cpp): a file, the array of its blocks and all its operations,
      on a heap of blocks; [FileStore]: the invariant of files and blocks together.
    - [FileMap] ([file_infos_map_t]), [GenericMap] (src/model/misc/map.hpp, any item with N keys by the
      class [Keyed]): containers with several unique keys.
    - [Device] (src/model/device, device_state), [Folder] (src/model/folder, folder_data, folder_info, and
      the announcement, locks and write requests of src/model/cluster.cpp).
    - [Path] (src/model/misc/path.cpp), [Resolver] (src/model/misc/resolver.cpp): what to do with a
      remote file; the platform enters by the class [Platform].
    - [BlockMap] ([block_infos_map_t], src/model/diff/modify/add_blocks.cpp and remove_blocks.cpp,
      src/model/misc/orphaned_blocks.cpp), [UpdateFolder] (src/model/diff/peer/update_folder.cpp:
      checking an index update and turning it into a change), [ApplyUpdate]: what applying it does.
    - [Advance] (src/model/diff/advance): taking over a remote file, a change on the disk, a
      conflict; [AdvanceLocal]: what applying the first two does.
    - [Diff] (src/model/diff: cluster_diff, diff_assembler, apply_controller, iterative_controller): the
      tree of changes and how it is applied, at once or in turns, for any changes by the class
      [DiffOps].
    - [Cluster] (src/model/cluster.h, some_device, pending_folder, ignored_folder): the cluster as a whole;
      [Changes]: what every change of src/model/diff/modify, contact, local, peer and load does to it, an
      instance of [DiffOps]; [Trees]: how those that carry other changes are made; [Removal]: what
      removing a peer or a folder does; [ClusterUpdate] (src/model/diff/peer/cluster_update.cpp): what
      the announcement of a peer changes.
    - [Caches] (src/model/misc: lru_cache, postponed_files, block_iterator), [Streamer]
      (updates_streamer and src/model/remote_view.cpp: which files of this device a peer is sent),
      [FileIterator] (file_iterator: which files of a peer are synchronised next).
    - [Scheduler] (src/net/scheduler.cpp): which folder is scanned when.
    - [Watcher] (src/fs/updates_mediator.cpp, src/fs/platform/watcher_base.cpp): events of the file
      system, without those the program causes, gathered into changes.
    - [Wire], [Relay] (src/proto/relay_support.cpp), [Bep] (src/proto/bep_support.cpp): frames; the
      protobuf and LZ4 libraries enter by the class [Codec], what is relied on by [CodecLaws].
    - [Database] (src/db: the layer over the key-value store, migrations; the store enters by the class
      [Engine] with [EngineLaws]), [DbActor] (src/net/db_actor.cpp: what every change writes, loading in
      portions; the formats of the records enter by [DbCodec]), [DbSample] (a store in memory);
      [Persist], [RestoreFiles], [Restore], [RestoreTree], [LoadLoop], [Restart]: loading what was stored.
    - [Controller] (src/net/controller_actor.cpp): the conversation with one peer. Its handlers act on a
      [world], the actor beside the cluster it shares with other actors; what it sends, to the peer,
      the file system and the other actors, are [effect]s in their order. [Exchange]: what each handler
      does to the requests under way; [Conversation], [Pulling]: whole runs; [ControllerSample]: a peer
      whose file is fetched from announcement to disk.
    - [FileIo] (src/fs/file.cpp, fs_proxy.cpp), [FileActor] (src/fs/file_actor.cpp): the actor that reads and
      writes files, all its commands. They act on [Disk], a model of what the program uses of
      [std::filesystem] and of file streams, in which the class [Faults] decides which operation fails.
      [DiskFrame]: which paths an operation leaves alone; [Download]: a file written block by block;
      [FileSample]: what goes wrong on particular disks.
    - [Presence] (src/presentation): the tree of presences in which the folders of the cluster are shown
      beside what is on the disk; [Tasks] (src/fs/task, fs_slave.cpp, utils.cpp, src/hasher/hasher_plugin.cpp):
      reading directories, removing, renaming, hashing segments; [Segments]: the pieces a file is hashed in.
    - [FolderContext] (src/net/local_keeper/folder_context.cpp, stack_context, folder_slave): the scan of
      one folder, a stack of what is still to be looked at, compared with the presences; [LocalKeeper]
      (src/net/local_keeper.cpp): the actor that scans folders and imports them, with every
      handler. [KeeperSample]: a folder that is scanned, on a disk in memory. [KeeperFrame]: what each
      step of a scan leaves alone; [StackEnds]: the loop over the stack ends; [KeeperSteps]: the steps of
      a handler, [KeeperLedger]: what they keep of the hashes and pieces under way, [KeeperRun]: whole runs.

    - [Dialer] (src/net/dialer_actor.cpp): when peers are dialled or looked up; [Dns] (src/net/resolver_actor.cpp,
      src/utils/dns.cpp): names of hosts, with c-ares by the class [Ares]; [PeerActor] (src/net/peer_actor.cpp): the
      connection with a peer, on a transport; [PeerFrame]: what holds of it always, [PeerStream]: the stream it reads,
      [PeerRun]: the bytes it writes; [Initiator] (src/net/initiator_actor.cpp): how a connection comes about.

    ** How code is modelled

    Pointers to files and blocks are positive numbers, the objects that are alive are finite maps; a
    pointer that is shared in the code is shared in the model, and reference counts are
    kept as the code keeps them, so that the death of a block is modelled and not assumed. An operation takes
    the objects it reads and returns those it changed. Loops are structural recursions on
    what they walk; the few that are not carry fuel: [Base32.encode_loop] has eight rounds per
    byte and [BlockMap.deduce_file] one round more than there are slots, which the theorems on
    them show to be enough; [Resolver.decimal] has twenty rounds, the digits of a 64-bit number;
    [Controller.pull_fuel] has two rounds more than blocks for every queued file, enough by
    [Pulling.pulling_ends]; [DbActor.load_loop] one message more than there are records, enough by
    [Restart.portions_equivalent]; [FolderContext.stack_fuel] has enough rounds by
    [StackEnds.process_stack_ends] for every stack without directories that are confirmed to be deleted,
    and one more for every presence for each of those ([FolderContext.stack_loop] is [None] when they do not suffice, which is neither a
    result nor an assertion that trips); [FolderContext.import_fuel] has enough for every queue on which that
    loop ends, and [StackEnds.import_never_ends] shows one on which it does not. Walks over the presences
    have as many rounds as there are presences, or twice as many where each is met twice. [PeerActor.parse_loop] has a
    round per byte and [Dns.dns_process] one per request, enough by [PeerStream.read_in_any_pieces] and
    [Dns.dns_progress], [Dialer.shutdown_loop] two per entry, enough by [Dialer.redial_spaced].
    Logging and notifications of observers have no effect on the model and are left out.

    ** What the theorems show

    - Files and blocks ([FileStore], [Blocks]): in [wf_store] every slot of a file and every place of a
      block mirror each other and every reference count is exact; assigning, removing, marking,
      updating and destroying keep it, trip no assertion, and free exactly what nobody uses.
    - Index updates ([UpdateFolder], [ApplyUpdate]): which messages are refused and why; what the change
      contains; that applying it to a consistent cluster gives a consistent cluster in which the
      peer's folder has the files of the message with their blocks.
    - Files of this device ([AdvanceLocal]): the copy of a remote file and a change on the disk leave a
      consistent cluster in which the file has the next sequence and is entirely available.
    - Versions and conflicts ([Version], [Resolver]): an edit supersedes what it was made from and
      propagates; when two devices take each other's version, and that otherwise they converge; the guards of [resolve]; the names of
      conflicting copies.
    - Containers ([FileMap], [GenericMap], [Folder]): unique keys, order of sequences, what [put] evicts.
    - Changes ([Diff]): the controller that works in turns refines the one that applies every change as
      a whole, and settles, as long as no interrupt is inside of a change; assembling in batches loses and reorders nothing.
    - The cluster ([Cluster], [Removal]): in [wf_model] files, blocks, folders, devices and offers are
      consistent and keys are made of what they stand for; removing a peer or a folder keeps it and
      removes exactly what belongs to it, down to the blocks nobody else uses.
    - Streams and queues ([Streamer], [FileIterator], [Caches]): a peer is sent exactly what it lacks, in
      order, while files change; the files of a peer come in pull order, none that is locked or needs
      nothing done, and only those are passed over.
    - Scans ([Scheduler], [Watcher]): in every reachable state requests are kept and served, rescans follow their deadlines; own
      operations are masked as often as they were announced and have not expired, events of a file coalesce.
    - Connection states ([Device]): reachable states, the order on them.
    - Formats ([Base32], [Luhn32], [DeviceId], [Path], [Folder], [Device], [Relay], [Bep]): round trips,
      equivalence with reference definitions, the exact errors and the inputs on which the code is undefined.
    - The database ([Restart]): from a database that mirrors a cluster, a cluster is loaded that is
      consistent and that the database mirrors, too; the size of the portions makes no difference.
    - The conversation with a peer ([Conversation], [Pulling]): over any run of events, the reads for the
      peer stay bounded and in order, requests have slots of their own, write requests are given back,
      only data with the announced digest is written; pulling ends.
    - The disk ([Download]): the blocks of a file, written in any order and finished, leave the whole
      content under its name, no temporary file, and everything else as it was.
    - Scans of the local folders ([Segments], [StackEnds], [KeeperRun]): the pieces of a file are disjoint,
      in order and cover it; over any run of events no more hashes are under way than the configuration
      allows; with the last digest a file is announced with the blocks of its content in their order;
      the loop over the stack ends.
    - Connections ([PeerStream], [PeerRun], [Dialer], [Dns], [Initiator]): messages are found in a stream however it is
      cut, bytes are written in their order, peers are dialled not too often, requests for addresses are answered once
      and rightly, a connection is handed over with the device that the handshake showed.
    The conditions of a theorem are in its comment. Examples beside the theorems show where the code does not do what it means to,
    and often what happens when a condition is not met.

    ** What is assumed

    Of libraries only what they document is assumed. The laws of the database engine ([Database.EngineLaws]) are those of a
    transaction in which no call fails: the theorems of [Restart] hold when begin, put, del and commit succeed; when one
    fails, the definitions return its error. A span is a list of bytes: [Bep.parse_bep] takes the header out of the buffer,
    although the code takes it with [subspan] from a view of its first four bytes. What a change that fails
    leaves of the cluster is not known: [Diff.process] goes on with any cluster ([left_behind]).
    Copying memory onto an overlapping place, using an object that was reset and reading outside of an array are
    undefined ([Ub]) where the code does so ([PeerActor.move_rest], [Dns.on_dns_read], [Base32.decode_loop]).

    ** Not modelled, and why

    The other actors (src/net, src/hasher) are mostly input and output over sockets, TLS and timers that
    belong to libraries; the user interfaces are widgets of toolkits; the watchers of the platforms are
    calls of their systems. The configuration is a translation between a TOML library and a record.
    Of the presentation, the removal of presences and the statistics shown in the user interfaces are left
    out. Of the controller, the reference counts that its pointers hold on objects which have left the
    cluster are not followed. What applying the announcement of a peer does is defined in [Changes] and
    has no theorem of its own beside those of [ClusterUpdate]. *)

From stdpp Require Export base gmap list sets strings.
From stdpp Require Import options.
From Stdlib Require Export ZArith Lia.

#[export] Set Default Goal Selector "1".
Open Scope Z_scope.

(** ** Machine integers *)

(** [uN z] is [static_cast<std::uintN_t>(z)]: wrap-around modulo [2^N]. *)
Definition u8 (z : Z) : Z := z mod 2 ^ 8.
Definition u16 (z : Z) : Z := z mod 2 ^ 16.
Definition u32 (z : Z) : Z := z mod 2 ^ 32.
Definition u64 (z : Z) : Z := z mod 2 ^ 64.

(** [static_cast<std::int32_t>(z)]. *)
Definition i32 (z : Z) : Z := if u32 z <? 2 ^ 31 then u32 z else u32 z - 2 ^ 32.

(** Byte strings ([utils::bytes_t], [std::string]) are lists of integers in [0, 256). *)
Abbreviation bytes := (list Z).

Definition is_byte (b : Z) : bool := (0 <=? b) && (b <? 256).
Definition is_bytes (l : bytes) : bool := forallb is_byte l.

(** The character codes of a literal. *)
Definition chars (s : string) : bytes :=
  map (λ a, Z.of_N (Ascii.N_of_ascii a)) (String.list_ascii_of_string s).

(** ** Results of fallible code *)

(** The error codes of [model::error_code_t], [utils::error_code_t] and
    [utils::bep_error_code_t] and [db::error_code] the model returns; [mdbx_error] is a code of the database engine. *)
Inductive error_code :=
| base32_decoding_failure
| malformed_url
| malformed_deviceid
| invalid_device_prefix
| invalid_device_sha256_digest
| invalid_block_key_length
| invalid_block_prefix
| invalid_file_info_key_length
| invalid_file_info_prefix
| invalid_folder_key_length
| invalid_folder_prefix
| invalid_folder_info_key_length
| invalid_folder_info_prefix
| invalid_pending_folder_length
| invalid_ignored_folder_prefix
| folder_does_not_exist
| folder_is_not_shared
| folder_is_already_shared
| no_such_device
| no_such_folder
| cannot_remove_self
| empty_folder_name
| cannot_create_directory
| device_deserialization_failure
| folder_deserialization_failure
| pending_folder_deserialization_failure
| some_device_deserialization_failure
| ignored_folder_deserialization_failure
| invalid_sequence
| mismatch_file_size
| missing_version
| protobuf_err
| lz4_decoding
| wrong_magic
| folder_info_deserialization_failure
| db_version_size_mismatch
| cannot_downgrade_db
| mdbx_error (code : Z).

#[export] Instance error_code_eq_dec : EqDecision error_code.
Proof. solve_decision. Defined.

(** [outcome::result<A>] extended with [Ub]: a failed [assert] or a read outside an array. *)
Inductive res (A : Type) :=
| Ok (a : A)
| Err (e : error_code)
| Ub.
Arguments Ok {A} _.
Arguments Err {A} _.
Arguments Ub {A}.

(** Sequencing: an error or an undefined behaviour aborts the computation. *)
Definition res_bind {A B} (m : res A) (f : A → res B) : res B :=
  match m with Ok a => f a | Err e => Err e | Ub => Ub end.

Declare Scope res_scope.
Delimit Scope res_scope with res.
Open Scope res_scope.

Notation "'let*' x := m 'in' k" := (res_bind m (λ x, k))
  (at level 10, x name, m at level 100, k at level 200) : res_scope.
Notation "'let*' ' p := m 'in' k" := (res_bind m (λ x, match x with p => k end))
  (at level 10, p strict pattern, m at level 100, k at level 200) : res_scope.

(** [assert(b)]. *)
Definition assert (b : bool) : res unit := if b then Ok () else Ub.

Lemma bind_Ok {A B} (f : A → res B) m b :
  res_bind m f = Ok b ↔ ∃ a, m = Ok a ∧ f a = Ok b.
Proof. destruct m; simpl; naive_solver. Qed.

Lemma assert_Ok b u : assert b = Ok u ↔ b = true.
Proof. destruct b, u; simpl; naive_solver. Qed.

(** ** Bit-level lemmas *)

Lemma testbit_high b n i : 0 <= b < 2 ^ n → n <= i → Z.testbit b i = false.
Proof.
  intros [Hb Hlt] Hi.
  destruct (decide (b = 0)) as [->|]; [apply Z.testbit_0_l|].
  apply Z.bits_above_log2; [lia|].
  apply Z.log2_lt_pow2 in Hlt; lia.
Qed.

Lemma land_disjoint q n b : 0 <= n → 0 <= b < 2 ^ n → Z.land (q * 2 ^ n) b = 0.
Proof.
  intros Hn Hb. apply Z.bits_inj'. intros i Hi.
  rewrite Z.land_spec, Z.testbit_0_l.
  destruct (decide (i < n)).
  - by rewrite Z.mul_pow2_bits_low by lia.
  - rewrite (testbit_high b n i) by lia. apply andb_false_r.
Qed.

Lemma lor_disjoint q n b : 0 <= n → 0 <= b < 2 ^ n → Z.lor (q * 2 ^ n) b = q * 2 ^ n + b.
Proof.
  intros Hn Hb. pose proof (land_disjoint q n b Hn Hb) as H0.
  by rewrite Z.add_nocarry_lxor, Z.lxor_lor.
Qed.

(** Selecting a field of [w] bits at position [n] with a mask and a shift. *)
Lemma shiftr_land_mask x w n :
  0 <= w → 0 <= n → Z.shiftr (Z.land x (Z.shiftl (Z.ones w) n)) n = (x / 2 ^ n) mod 2 ^ w.
Proof.
  intros. rewrite Z.shiftr_land, Z.shiftr_shiftl_l, Z.sub_diag, Z.shiftl_0_r by lia.
  by rewrite Z.land_ones, Z.shiftr_div_pow2 by lia.
Qed.

(** Testing a single bit with a mask. *)
Lemma land_pow2 c n : 0 <= n → Z.land c (2 ^ n) = if Z.testbit c n then 2 ^ n else 0.
Proof.
  intros Hn. apply Z.bits_inj'. intros i Hi.
  rewrite Z.land_spec, (Z.pow2_bits_eqb n i Hn).
  destruct (Z.eqb_spec n i) as [<-|Hne].
  - destruct (Z.testbit c n) eqn:E; [|by rewrite Z.testbit_0_l].
    by rewrite Z.pow2_bits_true.
  - rewrite andb_false_r. destruct (Z.testbit c n); [|by rewrite Z.testbit_0_l].
    rewrite Z.pow2_bits_eqb by lia. by destruct (Z.eqb_spec n i).
Qed.

Lemma mask_testbit c n : 0 <= n → negb (Z.land c (2 ^ n) =? 0) = Z.testbit c n.
Proof.
  intros Hn. rewrite land_pow2 by done. destruct (Z.testbit c n); [|done].
  pose proof (Z.pow_pos_nonneg 2 n). destruct (Z.eqb_spec (2 ^ n) 0); [lia|done].
Qed.

(** A word is in range when its high bits are clear. *)
Lemma bits_range c n :
  0 <= n → (∀ i, n <= i → Z.testbit c i = false) → 0 <= c < 2 ^ n.
Proof.
  intros Hn H. assert (c = c mod 2 ^ n) as ->; [|apply Z.mod_pos_bound; lia].
  apply Z.bits_inj'. intros i Hi. destruct (decide (i < n)).
  - by rewrite Z.mod_pow2_bits_low by lia.
  - rewrite Z.mod_pow2_bits_high by lia. apply H. lia.
Qed.

(** [~m] on a word of [w] bits. *)
Lemma flip_bits w m i :
  0 <= w → 0 <= m < 2 ^ w → 0 <= i →
  Z.testbit (2 ^ w - 1 - m) i = (i <? w) && negb (Z.testbit m i).
Proof.
  intros Hw Hm Hi. replace (2 ^ w - 1 - m) with (Z.ldiff (Z.ones w) m).
  - rewrite Z.ldiff_spec. f_equal. destruct (Z.ltb_spec i w).
    + by rewrite Z.ones_spec_low by lia.
    + by rewrite Z.ones_spec_high by lia.
  - rewrite <- Z.sub_nocarry_ldiff.
    + rewrite Z.ones_equiv. lia.
    + apply Z.bits_inj'. intros j Hj. rewrite Z.ldiff_spec, Z.testbit_0_l.
      destruct (decide (j < w)).
      * rewrite Z.ones_spec_low by lia. apply andb_false_r.
      * by rewrite (testbit_high m w) by lia.
Qed.

(** ** Positional notation *)

(** The value of a big-endian digit list in base [b]. *)
Definition be_val (b : Z) (l : list Z) : Z := fold_left (λ acc d, acc * b + d) l 0.

Definition digits (b : Z) (l : list Z) : Prop := Forall (λ d, 0 <= d < b) l.

Lemma be_val_snoc b l d : be_val b (l ++ [d]) = be_val b l * b + d.
Proof. unfold be_val. by rewrite fold_left_app. Qed.

Lemma fold_be_val b l a :
  fold_left (λ acc d, acc * b + d) l a = a * b ^ Z.of_nat (length l) + be_val b l.
Proof.
  unfold be_val. revert a. induction l as [|d l IH]; intros a; cbn [fold_left length].
  - rewrite Z.pow_0_r. lia.
  - rewrite IH, (IH (0 * b + d)), Nat2Z.inj_succ, Z.pow_succ_r by lia. ring.
Qed.

Lemma be_val_cons b d l :
  be_val b (d :: l) = d * b ^ Z.of_nat (length l) + be_val b l.
Proof. unfold be_val at 1. cbn [fold_left]. rewrite fold_be_val. ring. Qed.

Lemma be_val_range b l : 0 < b → digits b l → 0 <= be_val b l < b ^ Z.of_nat (length l).
Proof.
  intros Hb. induction l as [|d l IH]; intros H; [by cbv|].
  apply Forall_cons in H as [Hd Hl]. specialize (IH Hl).
  rewrite be_val_cons. cbn [length]. rewrite Nat2Z.inj_succ, Z.pow_succ_r by lia.
  set (p := b ^ Z.of_nat (length l)) in *. nia.
Qed.

Lemma be_val_inj b l1 l2 :
  0 < b → digits b l1 → digits b l2 → length l1 = length l2 →
  be_val b l1 = be_val b l2 → l1 = l2.
Proof.
  intros Hb H1. revert l2. induction H1 as [|d1 l1 Hd1 Hl1 IH]; intros [|d2 l2] H2 Hlen Hv;
    simplify_eq/=; [done|].
  apply Forall_cons in H2 as [Hd2 Hl2].
  rewrite !be_val_cons, Hlen in Hv.
  pose proof (be_val_range b l1 Hb Hl1) as R1. pose proof (be_val_range b l2 Hb Hl2) as R2.
  rewrite Hlen in R1. set (p := b ^ Z.of_nat (length l2)) in *.
  assert (d1 = d2) as -> by nia. f_equal. apply IH; auto. lia.
Qed.

(** ** Lists *)

Lemma filter_all {A} (P : A → Prop) `{∀ x, Decision (P x)} (l : list A) :
  Forall P l → filter P l = l.
Proof.
  induction 1 as [|x l Hx _ IH]; [done|]. rewrite filter_cons_True by done. by rewrite IH.
Qed.

Lemma filter_none {A} (P : A → Prop) `{∀ x, Decision (P x)} (l : list A) :
  (∀ x, x ∈ l → ¬ P x) → filter P l = [].
Proof.
  intros Hn. induction l as [|x l IH]; [done|]. rewrite filter_cons_False by (apply Hn; left).
  apply IH. intros y Hy. apply Hn. by right.
Qed.

Lemma filter_ext {A} (P Q : A → Prop) `{∀ x, Decision (P x), ∀ x, Decision (Q x)} (l : list A) :
  Forall (λ x, P x ↔ Q x) l → filter P l = filter Q l.
Proof.
  induction 1 as [|x l Hx _ IH]; [done|]. rewrite !filter_cons, IH.
  destruct (decide (P x)), (decide (Q x)); tauto.
Qed.

Lemma Forall_filter {A} (P Q : A → Prop) `{∀ x, Decision (Q x)} (l : list A) :
  Forall P l → Forall P (filter Q l).
Proof.
  induction 1 as [|x l Hx _ IH]; [constructor|]. rewrite filter_cons.
  destruct (decide (Q x)); [by constructor|done].
Qed.

Lemma NoDup_map_filter {A B} (g : A → B) (P : A → Prop) `{∀ x, Decision (P x)} (l : list A) :
  NoDup (map g l) → NoDup (map g (filter P l)).
Proof.
  induction l as [|x l IH]; cbn [map]; [done|]. intros [Hx Hl]%NoDup_cons.
  rewrite filter_cons. destruct (decide (P x)); [|auto]. cbn [map]. apply NoDup_cons. split; [|auto].
  intros (y & Heq & [_ Hy]%list_elem_of_filter)%list_elem_of_fmap. destruct Hx. rewrite Heq.
  by apply list_elem_of_fmap_2.
Qed.

Lemma be_val_app b l1 l2 :
  be_val b (l1 ++ l2) = be_val b l1 * b ^ Z.of_nat (length l2) + be_val b l2.
Proof. unfold be_val at 1. by rewrite fold_left_app, fold_be_val. Qed.

(** Closes [digits b l] for a concrete list. *)
Ltac solve_digits := unfold digits; repeat constructor; lia.

Lemma NoDup_map_inj {A B} (g : A → B) (l : list A) x y :
  NoDup (map g l) → x ∈ l → y ∈ l → g x = g y → x = y.
Proof.
  induction l as [|z l IH]; intros Hnd Hx Hy Hg; [by apply not_elem_of_nil in Hx|].
  cbn [map] in Hnd. apply NoDup_cons in Hnd as [Hz Hnd].
  apply elem_of_cons in Hx as [->|Hx], Hy as [->|Hy]; [done| | |by apply IH].
  - destruct Hz. rewrite Hg. by apply list_elem_of_fmap_2.
  - destruct Hz. rewrite <- Hg. by apply list_elem_of_fmap_2.
Qed.
