(* ===== verification/Diff.v ===== *)
(** * Diff: the tree of changes ([src/model/diff/cluster_diff.cpp]), how changes are chained in
    batches ([diff_assembler.cpp]) and how they are applied, at once ([apply_controller.cpp]) or in
    several turns of an actor ([iterative_controller.cpp]). What a single change does is the class
    [DiffOps]. *)

From S2P Require Import Prelude.

(** A [load::interrupt_t] and a [load::commit_t] are treated on their own by the iterative
    controller. *)
Inductive diff_kind := change | interrupt | commit.

#[export] Instance diff_kind_eq_dec : EqDecision diff_kind.
Proof. solve_decision. Defined.

(** What the [apply_impl] of a change does to the cluster: before its child, between its child and
    its sibling, and after its sibling; [enters] says whether it applies its child at all. *)
Class DiffOps (A S : Type) := {
  kind_of : A → diff_kind;
  enters : A → bool;
  before : A → S → res S;
  after : A → S → res S;
  late : A → S → res S;
  new_interrupt : A;
  new_interrupt_kind : kind_of new_interrupt = interrupt;
}.

(** [cluster_diff_t] with its [child] and [sibling]; [Null] is the null pointer. *)
Inductive diff (A : Type) :=
| Null
| Node (op : A) (child sibling : diff A).
Arguments Null {A}.
Arguments Node {A} op child sibling.

Section diff.
(** [left_behind]: the cluster after a change that failed, which may have been applied in part; nothing is known of it. *)
Context {A S : Type} `{DiffOps A S} (left_behind : diff A → S → S).

(** The number of nodes that follow each other as siblings. *)
Fixpoint chain_length (d : diff A) : nat :=
  match d with Null => 0 | Node _ _ s => Datatypes.S (chain_length s) end.

(** [cluster_diff_t::assign_sibling] on the [i]-th node of a chain; it must not have one. *)
Fixpoint assign_sibling (root : diff A) (i : nat) (sibling : diff A) : res (diff A) :=
  match root, i with
  | Null, _ => Ub
  | Node a c s, 0%nat => match s with Null => Ok (Node a c sibling) | Node _ _ _ => Ub end
  | Node a c s, Datatypes.S i => let* s := assign_sibling s i sibling in Ok (Node a c s)
  end.

(** ** [apply_controller_t] *)

(** [cluster_diff_t::apply] under the plain controller: an interrupt and a commit have the
    default [apply_impl], child and sibling. An error taints the cluster. *)
Fixpoint apply (d : diff A) (s : S) : res S :=
  match d with
  | Null => Ok s
  | Node a c sib =>
      match kind_of a with
      | change =>
          let* s := before a s in
          let* s := if enters a then apply c s else Ok s in
          let* s := after a s in
          let* s := apply sib s in
          late a s
      | _ => let* s := apply c s in apply sib s
      end
  end.

(** ** [iterative_controller_base_t] *)

(** The same under the iterative controller; [rest] is [apply_context_t::diff]. An interrupt
    leaves its sibling there and ends the chain, a commit ends it. *)
Fixpoint apply_part (d : diff A) (s : S) (rest : diff A) : res (S * diff A) :=
  match d with
  | Null => Ok (s, rest)
  | Node a c sib =>
      match kind_of a with
      | change =>
          let* s := before a s in
          let* '(s, rest) := if enters a then apply_part c s rest else Ok (s, rest) in
          let* s := after a s in
          let* '(s, rest) := apply_part sib s rest in
          let* s := late a s in
          Ok (s, rest)
      | interrupt => Ok (s, sib)
      | commit => let* s := before a s in Ok (s, rest)
      end
  end.

(** The state of the controller; [k_resume] is the [model_interrupt_t] message on its way,
    [k_down] that the actor is shutting down. *)
Record controller := mkController {
  k_cluster : S;
  k_interrupted : bool;
  k_resume : option (diff A);
  k_delayed : list (diff A);
  k_down : bool;
}.

(** When the actor is no longer operational only a commit is still of interest. *)
Fixpoint find_commit (d : diff A) : option (diff A) :=
  match d with
  | Null => None
  | Node a c sib => if bool_decide (kind_of a = commit) then Some d else find_commit sib
  end.

(** [process_impl]: an error shuts the actor down, with the cluster that the failed change leaves behind. *)
Definition process (k : controller) (d : diff A) : res controller :=
  let target := if k_down k then default d (find_commit d) else d in
  match apply_part target (k_cluster k) Null with
  | Ub => Ub
  | Err _ => Ok (mkController (left_behind target (k_cluster k)) (k_interrupted k) (k_resume k) (k_delayed k) true)
  | Ok (s, Null) => Ok (mkController s false (k_resume k) (k_delayed k) (k_down k))
  | Ok (s, rest) => Ok (mkController s true (Some rest) (k_delayed k) (k_down k))
  end.

Definition on_model_update (k : controller) (d : diff A) : res controller :=
  if k_interrupted k
  then Ok (mkController (k_cluster k) true (k_resume k) (k_delayed k ++ [d]) (k_down k))
  else process k d.

(** The loop over the delayed updates. *)
Fixpoint apply_delayed (ds : list (diff A)) (k : controller) : res controller :=
  if k_interrupted k then Ok (mkController (k_cluster k) true (k_resume k) ds (k_down k))
  else
    match ds with
    | [] => Ok (mkController (k_cluster k) false (k_resume k) [] (k_down k))
    | d :: ds => let* k := process k d in apply_delayed ds k
    end.

Definition on_model_interrupt (k : controller) (d : diff A) : res controller :=
  let* k := process (mkController (k_cluster k) (k_interrupted k) None (k_delayed k) (k_down k)) d in
  apply_delayed (k_delayed k) k.

(** ** [diff_assember_t] *)

(** [next] is the position of the node that gets the next sibling. *)
Record assembler := mkAssembler {
  a_batch_limit : Z;
  a_left : Z;
  a_total : Z;
  a_root : diff A;
  a_next : option nat;
}.

Definition new_assembler (batch_limit : Z) : res assembler :=
  let* _ := assert (1 <? batch_limit) in
  Ok (mkAssembler batch_limit batch_limit 0 Null None).

Definition push_back (m : assembler) (d : diff A) : res (assembler * bool) :=
  let left := a_left m - 1 in
  let total := a_total m + 1 in
  let* '(root, next) :=
    match a_next m with
    | Some i =>
        let* root := assign_sibling (a_root m) i d in
        Ok (root, (i + chain_length d)%nat)
    | None => Ok (d, 0%nat)
    end in
  if left =? 0 then
    let* root := assign_sibling root next (Node new_interrupt Null Null) in
    Ok (mkAssembler (a_batch_limit m) (a_batch_limit m) total root (Some (Datatypes.S next)), true)
  else Ok (mkAssembler (a_batch_limit m) left total root (Some next), false).

Definition push_front (m : assembler) (d : diff A) : res (assembler * bool) :=
  let left := a_left m - 1 in
  let total := a_total m + 1 in
  let* root := match a_next m with Some _ => assign_sibling d 0 (a_root m) | None => Ok d end in
  if left =? 0 then
    Ok (mkAssembler (a_batch_limit m) (a_batch_limit m) total (Node new_interrupt Null root) (Some 0%nat), true)
  else Ok (mkAssembler (a_batch_limit m) left total root (Some 0%nat), false).

Definition has_diffs (m : assembler) : bool := match a_root m with Null => false | Node _ _ _ => true end.

Definition is_overused (m : assembler) : bool := a_batch_limit m <=? a_total m.

Definition consume (m : assembler) : assembler * diff A :=
  (mkAssembler (a_batch_limit m) (a_batch_limit m) (a_total m) Null None, a_root m).

(** ** Applying in several turns *)

(** No interrupt and no commit anywhere. *)
Fixpoint unstopped (d : diff A) : Prop :=
  match d with
  | Null => True
  | Node a c sib => kind_of a = change ∧ (enters a = true → unstopped c) ∧ unstopped sib
  end.

(** Interrupts only between the changes of the outermost chain, none inside of a change, and no
    change before them that has something to do after its siblings. *)
Fixpoint resumable (d : diff A) : Prop :=
  match d with
  | Null => True
  | Node a c sib =>
      match kind_of a with
      | change => (enters a = true → unstopped c) ∧ (unstopped sib ∨ ∀ s, late a s = Ok s) ∧ resumable sib
      | interrupt => c = Null ∧ resumable sib
      | commit => False
      end
  end.

(** What is left after the first turn. *)
Fixpoint remainder (d : diff A) : diff A :=
  match d with
  | Null => Null
  | Node a _ sib => match kind_of a with interrupt => sib | _ => remainder sib end
  end.

Lemma apply_part_unstopped d : ∀ s rest,
  unstopped d → apply_part d s rest = let* s := apply d s in Ok (s, rest).
Proof.
  induction d as [|a c IHc sib IHs]; intros s rest; cbn [unstopped apply_part apply]; [done|].
  intros (-> & Hc & Hs). destruct (before a s) as [s1| |]; cbn [res_bind]; try done.
  destruct (enters a).
  - rewrite IHc by auto. destruct (apply c s1) as [s2| |]; cbn [res_bind]; try done.
    destruct (after a s2) as [s3| |]; cbn [res_bind]; try done. rewrite IHs by done.
    by destruct (apply sib s3) as [s4| |]; cbn [res_bind]; try done; destruct (late a s4).
  - cbn [res_bind]. destruct (after a s1) as [s3| |]; cbn [res_bind]; try done. rewrite IHs by done.
    by destruct (apply sib s3) as [s4| |]; cbn [res_bind]; try done; destruct (late a s4).
Qed.

Lemma unstopped_remainder d : unstopped d → remainder d = Null.
Proof. induction d as [|a c _ sib IH]; cbn [unstopped remainder]; [done|]. intros (-> & _ & ?). auto. Qed.

Lemma remainder_resumable d : resumable d → resumable (remainder d).
Proof.
  induction d as [|a c _ sib IH]; cbn [resumable remainder]; [done|]. destruct (kind_of a); [|by intros [_ ?]|done].
  intros (_ & _ & ?). auto.
Qed.

Lemma remainder_shorter d : d ≠ Null → (chain_length (remainder d) < chain_length d)%nat.
Proof.
  induction d as [|a c _ sib IH]; cbn [remainder chain_length]; [done|]. intros _.
  destruct sib as [|b c' sib']; [by destruct (kind_of a); cbn; lia|]. specialize (IH ltac:(done)).
  destruct (kind_of a); lia.
Qed.

(** One turn and the remainder do what the whole change does. *)
Lemma apply_turn d : ∀ s, resumable d →
  match apply d s with
  | Ok s' => ∃ s1, apply_part d s Null = Ok (s1, remainder d) ∧ apply (remainder d) s1 = Ok s'
  | _ => True
  end.
Proof.
  induction d as [|a c _ sib IHs]; intros s; cbn [resumable apply apply_part remainder]; [by exists s|].
  destruct (kind_of a) eqn:Ek; [|intros [-> Hs]; cbn; by destruct (apply sib s) eqn:E; [exists s|..]|done].
  intros (Hc & Hl & Hs). destruct (before a s) as [s1| |]; cbn [res_bind]; try done.
  assert (∀ rest, (if enters a then apply_part c s1 rest else Ok (s1, rest)) =
    let* s := (if enters a then apply c s1 else Ok s1) in Ok (s, rest)) as Hch.
  { intros rest. destruct (enters a); [by apply apply_part_unstopped; auto|done]. }
  rewrite Hch. destruct (if enters a then apply c s1 else Ok s1) as [s2| |]; cbn [res_bind]; try done.
  destruct (after a s2) as [s3| |]; cbn [res_bind]; try done.
  destruct (apply sib s3) as [s4| |] eqn:E; cbn [res_bind]; try done.
  destruct (late a s4) as [s'| |] eqn:El; try done. destruct Hl as [Hu|Hl].
  - rewrite apply_part_unstopped by done. rewrite E. cbn [res_bind]. rewrite El. cbn [res_bind].
    rewrite unstopped_remainder by done. by exists s'.
  - specialize (IHs s3 Hs). rewrite E in IHs. destruct IHs as (s5 & -> & Hr). cbn [res_bind]. rewrite Hl.
    cbn [res_bind]. exists s5. split; [done|]. rewrite Hl in El. by injection El as <-.
Qed.

(** The specification: every update is applied as a whole, in the order of arrival. *)
Fixpoint apply_each (ds : list (diff A)) (s : S) : res S :=
  match ds with [] => Ok s | d :: ds => let* s := apply d s in apply_each ds s end.

Lemma apply_each_cons d ds s : apply_each (d :: ds) s = let* s := apply d s in apply_each ds s.
Proof. done. Qed.

Inductive event := Arrives (d : diff A) | Resumes.

(** A message is handled; without a [model_interrupt_t] on its way there is none to handle. *)
Definition handle (k : controller) (ev : event) : res controller :=
  match ev with
  | Arrives d => on_model_update k d
  | Resumes => match k_resume k with Some d => on_model_interrupt k d | None => Ok k end
  end.

Fixpoint handle_all (evs : list event) (k : controller) : res controller :=
  match evs with [] => Ok k | ev :: evs => let* k := handle k ev in handle_all evs k end.

Definition arrived (evs : list event) : list (diff A) :=
  ev ← evs; match ev with Arrives d => [d] | Resumes => [] end.

Definition idle (s : S) : controller := mkController s false None [] false.

(** What the controller still has to do. *)
Definition pending (k : controller) : list (diff A) := option_list (k_resume k) ++ k_delayed k.

Record wf_controller (k : controller) : Prop := {
  kw_up : k_down k = false;
  kw_resume : is_Some (k_resume k) ↔ k_interrupted k = true;
  kw_delayed : k_interrupted k = false → k_delayed k = [];
  kw_pending : Forall resumable (pending k);
  kw_null : k_resume k ≠ Some Null;
}.

Definition work (ds : list (diff A)) : nat := foldr (λ d n, (chain_length d + n)%nat) 0%nat ds.

Lemma work_app ds ds' : work (ds ++ ds') = (work ds + work ds')%nat.
Proof. unfold work. induction ds as [|d ds IH]; cbn [app foldr]; [done|]. rewrite IH. lia. Qed.

Definition message_of (d : diff A) : option (diff A) := match d with Null => None | r => Some r end.

Lemma work_remainder d : (work (option_list (message_of (remainder d))) <= pred (chain_length d))%nat.
Proof.
  destruct d as [|a c sib]; [done|]. pose proof (remainder_shorter (Node a c sib) ltac:(done)).
  destruct (remainder (Node a c sib)) as [|b c' sib']; cbn in *; lia.
Qed.

(** A turn on an idle controller. *)
Lemma process_turn s ds d s1 :
  resumable d → apply d s = Ok s1 →
  ∃ s2, process (mkController s false None ds false) d =
      Ok (mkController s2 (bool_decide (is_Some (message_of (remainder d)))) (message_of (remainder d)) ds false) ∧
    apply (remainder d) s2 = Ok s1.
Proof.
  intros Hd Ha. pose proof (apply_turn d s Hd) as Ht. rewrite Ha in Ht. destruct Ht as (s2 & Hp & Hr).
  exists s2. split; [|done]. unfold process. cbn [k_down k_cluster k_resume k_delayed]. rewrite Hp. by destruct (remainder d).
Qed.

Lemma apply_delayed_spec ds : ∀ s s' r ds0,
  Forall resumable ds → (r = None ∨ ∃ d, r = Some d ∧ d ≠ Null ∧ resumable d) →
  apply_each (option_list r ++ ds) s = Ok s' →
  ∃ k, apply_delayed ds (mkController s (bool_decide (is_Some r)) r ds0 false) = Ok k ∧ wf_controller k ∧
    apply_each (pending k) (k_cluster k) = Ok s' ∧ (work (pending k) <= work (option_list r) + work ds)%nat.
Proof.
  induction ds as [|d ds IH]; intros s s' r ds0 Hds Hr Ha; cbn [apply_delayed].
  - exists (mkController s (bool_decide (is_Some r)) r [] false). cbn [k_interrupted k_cluster k_resume k_down k_delayed].
    split; [by destruct r|]. unfold pending. cbn [k_resume k_delayed k_cluster]. split; [|split; [done|rewrite work_app; cbn; lia]].
    split; cbn [k_down k_resume k_interrupted k_delayed]; try done; unfold pending; cbn [k_resume k_delayed].
    + by rewrite bool_decide_eq_true.
    + destruct Hr as [->|(d & -> & _ & ?)]; by repeat constructor.
    + destruct Hr as [->|(d & -> & ? & _)]; congruence.
  - apply Forall_cons in Hds as [Hd Hds]. cbn [k_interrupted k_cluster k_resume k_down].
    destruct Hr as [->|(d0 & -> & Hd0 & Hrd)].
    + change (apply_each (d :: ds) s = Ok s') in Ha. rewrite apply_each_cons in Ha. apply bind_Ok in Ha as (s1 & H1 & Ha).
      rewrite bool_decide_eq_false_2 by (by intros []). destruct (process_turn s ds0 d s1 Hd H1) as (s2 & -> & Hrem). cbn [res_bind].
      set (r := message_of (remainder d)).
      destruct (IH s2 s' r ds0) as (k & -> & Hw & Hk & Hn); try done.
      * unfold r, message_of. destruct (remainder d) as [|a c sib] eqn:E; [by left|right]. exists (Node a c sib). split_and!; try done.
        rewrite <- E. by apply remainder_resumable.
      * unfold r, message_of. destruct (remainder d) as [|a c sib] eqn:E; cbn [option_list app].
        -- cbn in Hrem. injection Hrem as ->. exact Ha.
        -- change (apply_each (Node a c sib :: ds) s2 = Ok s'). by rewrite apply_each_cons, Hrem.
      * exists k. split_and!; try done. pose proof (work_remainder d). unfold r in Hn.
        change (work (option_list None)) with 0%nat. change (work (d :: ds)) with (chain_length d + work ds)%nat. lia.
    + rewrite bool_decide_eq_true_2 by done. eexists. split; [done|].
      unfold pending. cbn [k_resume k_delayed k_cluster]. split; [|split; [done|rewrite work_app; cbn; lia]].
      split; cbn [k_down k_resume k_interrupted k_delayed]; try done; unfold pending; cbn [k_resume k_delayed].
      * by repeat constructor.
      * congruence.
Qed.

Lemma apply_each_app ds ds' s : apply_each (ds ++ ds') s = let* s := apply_each ds s in apply_each ds' s.
Proof.
  revert s. induction ds as [|d ds IH]; intros s; [done|]. cbn [app]. rewrite !apply_each_cons.
  destruct (apply d s); cbn [res_bind]; [apply IH|done|done].
Qed.

(** One message. *)
Lemma handle_ok k ev s' :
  wf_controller k → Forall resumable (arrived [ev]) →
  apply_each (pending k ++ arrived [ev]) (k_cluster k) = Ok s' →
  ∃ k', handle k ev = Ok k' ∧ wf_controller k' ∧ apply_each (pending k') (k_cluster k') = Ok s' ∧
    (ev = Resumes → k_interrupted k = true → (work (pending k') < work (pending k))%nat).
Proof.
  intros [Hup Hre Hde Hpe Hnu] Hev Ha. destruct k as [s i r ds b]. unfold pending in *. cbn in *. subst b.
  destruct ev as [d|]; cbn [handle arrived mbind list_bind app] in *.
  - unfold on_model_update. cbn [k_interrupted]. destruct i.
    + eexists. split; [done|]. unfold pending. cbn [k_resume k_delayed k_cluster k_down k_interrupted] in *.
      rewrite app_assoc. split_and!; [|done|done]. split; unfold pending; cbn [k_resume k_delayed k_cluster k_down k_interrupted]; try done.
      rewrite app_assoc, Forall_app. done.
    + assert (r = None) as -> by (destruct r; [discriminate (proj1 Hre ltac:(by eexists))|done]). rewrite (Hde eq_refl) in *. apply Forall_cons in Hev as [Hd _].
      change (apply_each [d] s = Ok s') in Ha. rewrite apply_each_cons in Ha. apply bind_Ok in Ha as (s1 & H1 & [= <-]).
      destruct (process_turn s [] d s1 Hd H1) as (s2 & -> & Hrem). eexists. split; [done|].
      pose proof (remainder_resumable d Hd) as Hrr. unfold pending, message_of. cbn [k_resume k_delayed k_cluster].
      destruct (remainder d) as [|a c sib] eqn:E; (split; [split; unfold pending; cbn|split; [|done]]); try done.
      * by repeat constructor.
      * change (apply_each [Node a c sib] s2 = Ok s1). by rewrite apply_each_cons, Hrem.
  - rewrite app_nil_r in Ha. destruct r as [d|]; cbn [k_resume].
    + assert (i = true) as -> by (apply Hre; eauto). apply Forall_cons in Hpe as [Hd Hds].
      change (apply_each (d :: ds) s = Ok s') in Ha. rewrite apply_each_cons in Ha. apply bind_Ok in Ha as (s1 & H1 & Ha).
      unfold on_model_interrupt. cbn [k_cluster k_interrupted k_delayed k_down].
      pose proof (apply_turn d s Hd) as Ht. rewrite H1 in Ht. destruct Ht as (s2 & Hp & Hr).
      assert (process (mkController s true None ds false) d =
        Ok (mkController s2 (bool_decide (is_Some (message_of (remainder d)))) (message_of (remainder d)) ds false)) as ->.
      { unfold process. cbn [k_down k_cluster k_resume k_delayed]. rewrite Hp. by destruct (remainder d). }
      cbn [res_bind k_delayed].
      destruct (apply_delayed_spec ds s2 s' (message_of (remainder d)) ds) as (k & -> & Hw & Hk & Hn); try done.
      * pose proof (remainder_resumable d Hd). destruct (remainder d) as [|a c sib] eqn:E; [by left|right].
        exists (Node a c sib). done.
      * destruct (remainder d) as [|a c sib] eqn:E; [by injection Hr as ->|].
        change (apply_each (Node a c sib :: ds) s2 = Ok s'). by rewrite apply_each_cons, Hr.
      * exists k. split_and!; try done. intros _ _. pose proof (work_remainder d).
        change (work (option_list (Some d) ++ ds)) with (chain_length d + work ds)%nat.
        assert (chain_length d ≠ 0)%nat by (destruct d; [congruence|done]). unfold pending in Hn. lia.
    + eexists. split; [done|]. split_and!; [by split|done|]. intros _ ->. by destruct (proj2 Hre eq_refl).
Qed.

Lemma arrived_cons ev evs : arrived (ev :: evs) = arrived [ev] ++ arrived evs.
Proof. unfold arrived. cbn. by rewrite app_nil_r. Qed.

Lemma handle_all_ok evs : ∀ k s',
  wf_controller k → Forall resumable (arrived evs) →
  apply_each (pending k ++ arrived evs) (k_cluster k) = Ok s' →
  ∃ k', handle_all evs k = Ok k' ∧ wf_controller k' ∧ apply_each (pending k') (k_cluster k') = Ok s'.
Proof.
  induction evs as [|ev evs IH]; intros k s' Hw Hev Ha; cbn [handle_all].
  - exists k. rewrite app_nil_r in Ha. done.
  - rewrite arrived_cons in Hev, Ha. apply Forall_app in Hev as [He Hev]. rewrite app_assoc, apply_each_app in Ha.
    apply bind_Ok in Ha as (s1 & H1 & Ha). destruct (handle_ok k ev s1 Hw He H1) as (k1 & -> & Hw1 & Hk1 & _).
    cbn [res_bind]. apply IH; [done|done|]. by rewrite apply_each_app, Hk1.
Qed.

(** A controller that is not interrupted has nothing left to do. *)
Lemma settled_done k s' :
  wf_controller k → k_interrupted k = false → apply_each (pending k) (k_cluster k) = Ok s' → k_cluster k = s'.
Proof.
  intros [_ Hre Hde _ _] Hi Ha. unfold pending in Ha. rewrite (Hde Hi) in Ha.
  destruct (k_resume k) as [d|]; [|by injection Ha]. rewrite (proj1 Hre ltac:(by eexists)) in Hi. done.
Qed.
End diff.

(** ** Assembling *)

Section assembling.
Context {A S : Type} `{DiffOps A S}.

(** A single change, without interrupts inside and with nothing to do after its siblings. *)
Definition single (d : diff A) : Prop :=
  match d with
  | Node a c Null => kind_of a = change ∧ (enters a = true → unstopped c) ∧ ∀ s, late a s = Ok s
  | _ => False
  end.

(** A change with nothing to do after its siblings, whatever is inside of it. *)
Definition lone (d : diff A) : Prop :=
  match d with Node a c Null => kind_of a = change ∧ ∀ s, late a s = Ok s | _ => False end.

Lemma single_lone d : single d → lone d.
Proof. destruct d as [|a c [|? ? ?]]; try done. by intros (? & _ & ?). Qed.

(** Two chains as one. *)
Fixpoint join (d1 d2 : diff A) : diff A :=
  match d1 with Null => d2 | Node a c sib => Node a c (join sib d2) end.

Lemma join_length d1 d2 : chain_length (join d1 d2) = (chain_length d1 + chain_length d2)%nat.
Proof. induction d1 as [|a c _ sib IH]; cbn; [done|]. by rewrite IH. Qed.

Lemma join_assoc d1 d2 d3 : join (join d1 d2) d3 = join d1 (join d2 d3).
Proof. induction d1 as [|a c _ sib IH]; cbn; [done|]. by rewrite IH. Qed.

Lemma assign_sibling_join root d i :
  chain_length root = Datatypes.S i → assign_sibling root i d = Ok (join root d).
Proof.
  revert i. induction root as [|a c _ sib IH]; intros i Hl; [done|]. cbn [chain_length] in Hl. injection Hl as Hl.
  destruct i as [|i]; cbn [assign_sibling join].
  - by destruct sib.
  - by rewrite IH.
Qed.

Lemma apply_join d1 d2 s : lone d1 → apply (join d1 d2) s = let* s := apply d1 s in apply d2 s.
Proof.
  destruct d1 as [|a c [|? ? ?]]; try done. intros (Hk & Hl). cbn [join apply]. rewrite Hk.
  destruct (before a s) as [s1| |]; cbn [res_bind]; try done.
  destruct (if enters a then apply c s1 else Ok s1) as [s2| |]; cbn [res_bind]; try done.
  destruct (after a s2) as [s3| |]; cbn [res_bind]; try done. rewrite Hl. cbn [res_bind].
  destruct (apply d2 s3) as [s4| |]; cbn [res_bind]; by rewrite ?Hl.
Qed.

(** [push_back] of one after the other. *)
Fixpoint push_all (m : assembler) (ds : list (diff A)) : res assembler :=
  match ds with [] => Ok m | d :: ds => let* '(m, _) := push_back m d in push_all m ds end.

Lemma push_all_cons m d ds : push_all m (d :: ds) = let* '(m, _) := push_back m d in push_all m ds.
Proof. done. Qed.

(** The chain that results: an interrupt after every [left]-th change, and from then on after
    every [limit]-th one. *)
Fixpoint batched (limit left : Z) (ds : list (diff A)) : diff A :=
  match ds with
  | [] => Null
  | d :: ds =>
      if left - 1 =? 0 then join d (Node new_interrupt Null (batched limit limit ds))
      else join d (batched limit (left - 1) ds)
  end.

(** [next] is the last node. *)
Definition wf_assembler (m : assembler (A := A)) : Prop :=
  1 < a_batch_limit m ∧ 0 < a_left m <= a_batch_limit m ∧
  match a_next m with None => a_root m = Null | Some i => chain_length (a_root m) = Datatypes.S i end.

Lemma join_null d : join d Null = d.
Proof. induction d as [|a c _ sib IH]; cbn; [done|]. by rewrite IH. Qed.

Lemma lone_length d : lone d → chain_length d = 1%nat.
Proof. destruct d as [|a c []]; done. Qed.

Lemma push_back_ok m d :
  wf_assembler m → lone d →
  ∃ m' b, push_back m d = Ok (m', b) ∧ wf_assembler m' ∧ a_batch_limit m' = a_batch_limit m ∧ a_total m' = a_total m + 1 ∧
    (a_left m - 1 = 0 → b = true ∧ a_left m' = a_batch_limit m ∧ a_root m' = join (a_root m) (join d (Node new_interrupt Null Null))) ∧
    (a_left m - 1 ≠ 0 → b = false ∧ a_left m' = a_left m - 1 ∧ a_root m' = join (a_root m) d).
Proof.
  intros (Hb & Hl & Hn) Hd. pose proof (lone_length d Hd) as Hdl.
  assert (∃ i, (match a_next m with
    | Some i => let* root := assign_sibling (a_root m) i d in Ok (root, (i + chain_length d)%nat)
    | None => Ok (d, 0%nat) end) = Ok (join (a_root m) d, i) ∧ chain_length (join (a_root m) d) = Datatypes.S i) as (i & Hi & Hli).
  { destruct (a_next m) as [i|].
    - rewrite (assign_sibling_join _ _ _ Hn). cbn [res_bind]. eexists. split; [done|]. rewrite join_length. lia.
    - rewrite Hn. eexists. split; [done|]. cbn. lia. }
  unfold push_back. rewrite Hi. cbn [res_bind]. destruct (Z.eqb_spec (a_left m - 1) 0) as [Hz|Hz].
  - rewrite (assign_sibling_join _ _ _ Hli). cbn [res_bind]. do 2 eexists. split; [done|].
    unfold wf_assembler. cbn [a_root a_batch_limit a_left a_total a_next]. rewrite !join_length in *. cbn [chain_length].
    rewrite join_assoc. split_and!; try lia; done.
  - do 2 eexists. split; [done|]. unfold wf_assembler. cbn [a_root a_batch_limit a_left a_total a_next].
    split_and!; try lia; done.
Qed.

Lemma push_all_ok ds : ∀ m, wf_assembler m → Forall lone ds →
  ∃ m', push_all m ds = Ok m' ∧ wf_assembler m' ∧
    a_root m' = join (a_root m) (batched (a_batch_limit m) (a_left m) ds) ∧
    a_total m' = a_total m + Z.of_nat (length ds).
Proof.
  induction ds as [|d ds IH]; intros m Hw Hs.
  - exists m. cbn [batched]. rewrite join_null. split_and!; [done..|cbn; lia].
  - apply Forall_cons in Hs as [Hd Hs]. destruct (push_back_ok m d Hw Hd) as (m1 & b & Hp & Hw1 & Hb & Ht & H0 & H1).
    destruct (IH m1 Hw1 Hs) as (m' & He & Hw' & Hr & Ht'). exists m'. rewrite push_all_cons, Hp.
    split_and!; [exact He|done| |cbn [length]; lia].
    rewrite Hr, Hb. cbn [batched]. destruct (Z.eqb_spec (a_left m - 1) 0) as [Hz|Hz].
    + destruct (H0 Hz) as (_ & -> & ->). rewrite !join_assoc. done.
    + destruct (H1 Hz) as (_ & -> & ->). by rewrite join_assoc.
Qed.

Lemma batched_apply limit ds : ∀ left s, Forall lone ds → apply (batched limit left ds) s = apply_each ds s.
Proof.
  induction ds as [|d ds IH]; intros left s Hs; [done|]. apply Forall_cons in Hs as [Hd Hs]. cbn [batched]. rewrite apply_each_cons.
  destruct (left - 1 =? 0); rewrite apply_join by done; destruct (apply d s) as [s1| |]; cbn [res_bind]; try done; [|by apply IH].
  cbn [apply]. rewrite new_interrupt_kind. cbn [res_bind]. by apply IH.
Qed.

Lemma batched_resumable limit ds : ∀ left, Forall single ds → resumable (batched limit left ds).
Proof.
  induction ds as [|d ds IH]; intros left Hs; [done|]. apply Forall_cons in Hs as [Hd Hs]. cbn [batched].
  destruct d as [|a c [|? ? ?]]; try done. destruct Hd as (Hk & Hc & Hl).
  destruct (left - 1 =? 0); cbn [join resumable]; rewrite Hk; split_and!; auto.
  rewrite new_interrupt_kind. split; [done|]. by apply IH.
Qed.

(** An assembler that is filled and consumed. *)
Definition assemble (limit : Z) (ds : list (diff A)) : res (diff A) :=
  let* m := new_assembler limit in let* m := push_all m ds in Ok (consume m).2.

Lemma assemble_ok limit ds : 1 < limit → Forall lone ds →
  assemble limit ds = Ok (batched limit limit ds) ∧ ∀ s, apply (batched limit limit ds) s = apply_each ds s.
Proof.
  intros Hl Hs. split; [|intros s; by apply batched_apply]. unfold assemble, new_assembler.
  rewrite (proj2 (Z.ltb_lt 1 limit) Hl). cbn [assert res_bind].
  destruct (push_all_ok ds (mkAssembler limit limit 0 Null None)) as (m & -> & _ & Hr & _); [by split_and!; cbn; try lia|done|].
  cbn [res_bind consume snd]. by rewrite Hr.
Qed.
End assembling.

(** ** The properties *)

Section properties.
Context {A S : Type} `{DiffOps A S} (left_behind : diff A → S → S).

Lemma idle_wf (s : S) : wf_controller (idle (A := A) s).
Proof. split; cbn; done || by split; [intros []|]. Qed.

Lemma settled_resumes n (k : controller (A := A)) :
  wf_controller k → k_interrupted k = false → handle_all left_behind (replicate n Resumes) k = Ok k.
Proof.
  intros Hw Hi. assert (k_resume k = None) as Hr.
  { destruct Hw as [_ Hre _ _ _]. destruct (k_resume k); [|done]. rewrite (proj1 Hre ltac:(by eexists)) in Hi. done. }
  induction n as [|n IH]; cbn [replicate handle_all handle]; [done|]. rewrite Hr. exact IH.
Qed.

Lemma resumes_settle n : ∀ (k : controller (A := A)) (s' : S),
  wf_controller k → apply_each (pending k) (k_cluster k) = Ok s' → (work (pending k) <= n)%nat →
  ∃ k', handle_all left_behind (replicate n Resumes) k = Ok k' ∧ k_interrupted k' = false ∧ k_cluster k' = s'.
Proof.
  induction n as [|n IH]; intros k s' Hw Ha Hn; destruct (k_interrupted k) eqn:Hi.
  - exfalso. destruct Hw as [_ Hre _ _ Hnu]. destruct (proj2 Hre Hi) as [d Hd]. unfold pending in Hn. rewrite Hd in *.
    destruct d; [congruence|]. cbn in Hn. lia.
  - exists k. split_and!; [done|done|by apply settled_done].
  - cbn [replicate handle_all]. destruct (handle_ok left_behind k Resumes s' Hw) as (k1 & -> & Hw1 & Ha1 & Hlt).
    + constructor.
    + by cbn; rewrite app_nil_r.
    + cbn [res_bind]. apply IH; [done|done|]. specialize (Hlt eq_refl Hi). lia.
  - exists k. split_and!; [by apply settled_resumes|done|by apply settled_done].
Qed.

Lemma arrived_resumes n : arrived (A := A) (replicate n Resumes) = [].
Proof. induction n as [|n IH]; [done|]. cbn [replicate]. by rewrite arrived_cons, IH. Qed.

(** C29: the iterative controller refines the one that applies every update as a whole in the order
    of arrival, for updates whose interrupts are between the changes of their outermost chain, none inside of a
    change, and in which no change before an interrupt has something left to do after its siblings. Whatever such updates arrive and
    however their arrival interleaves with the resumption of an interrupted one: when the specification succeeds, so does the
    controller, what is pending completes its cluster to the specified one, and when it is not interrupted nothing is
    pending and the cluster is the specified one. It settles: as many turns as there are nodes in what is
    pending bring it there, and turns that come later change nothing. *)
Theorem controller_refines (s0 s' : S) (evs : list (event (A := A))) :
  Forall resumable (arrived evs) → apply_each (arrived evs) s0 = Ok s' →
  ∃ k, handle_all left_behind evs (idle s0) = Ok k ∧ k_down k = false ∧
    apply_each (pending k) (k_cluster k) = Ok s' ∧
    (k_interrupted k = false → k_cluster k = s' ∧ k_delayed k = []) ∧
    ∃ k', handle_all left_behind (replicate (work (pending k)) Resumes) k = Ok k' ∧ k_interrupted k' = false ∧ k_cluster k' = s'.
Proof.
  intros Hev Ha. destruct (handle_all_ok left_behind evs (idle s0) s' (idle_wf s0) Hev Ha) as (k & Hk & Hw & Hp).
  exists k. pose proof (kw_up k Hw). split_and!; try done.
  - intros Hi. split; [by apply settled_done|by apply kw_delayed].
  - exact (resumes_settle _ k s' Hw Hp (Nat.le_refl _)).
Qed.

(** Batches of changes, with the limits of the assemblers that chain them. *)
Definition fine_batch (b : Z * list (diff A)) : Prop := 1 < b.1 ∧ Forall single b.2.

Definition chained (b : Z * list (diff A)) : diff A := batched b.1 b.1 b.2.

Lemma chained_resumable batches : Forall fine_batch batches → Forall resumable (map chained batches).
Proof. induction 1 as [|[limit ds] batches [_ Hs] _ IH]; cbn [map]; constructor; [by apply batched_resumable|done]. Qed.

Lemma chained_apply batches : ∀ s, Forall fine_batch batches → apply_each (map chained batches) s = apply_each (concat (map snd batches)) s.
Proof.
  induction batches as [|[limit ds] batches IH]; intros s Hb; [done|]. apply Forall_cons in Hb as [[_ Hs] Hb].
  cbn [map concat snd]. rewrite apply_each_cons, apply_each_app. unfold chained at 1. cbn [fst snd].
  rewrite batched_apply by (by eapply Forall_impl; [|apply single_lone]).
  destruct (apply_each ds s); cbn [res_bind]; [by apply IH|done|done].
Qed.

(** C30: assembler and controller together. However many batches of changes are assembled, each with its own batch limit,
    however they arrive at the iterative controller while it is between two turns, and however long it is left
    alone: the batches are made without tripping an assertion, and when the controller has had its turns its cluster is
    the one that all the changes give, applied one by one in the order in which they were pushed: none is lost,
    repeated or reordered. The changes have no interrupt inside and nothing to do after their siblings. *)
Theorem batches_applied (s0 s' : S) (batches : list (Z * list (diff A))) :
  Forall fine_batch batches → apply_each (concat (map snd batches)) s0 = Ok s' →
  ∃ updates, Forall2 (λ b d, assemble b.1 b.2 = Ok d) batches updates ∧
    ∀ evs, arrived evs = updates →
      ∃ k k', handle_all left_behind evs (idle s0) = Ok k ∧ handle_all left_behind (replicate (work (pending k)) Resumes) k = Ok k' ∧
        k_down k' = false ∧ k_interrupted k' = false ∧ k_cluster k' = s'.
Proof.
  intros Hb Ha. exists (map chained batches). split.
  - apply Forall2_fmap_r, Forall_Forall2_diag. eapply Forall_impl; [exact Hb|]. intros [limit ds] [Hl Hs].
    by apply assemble_ok, (Forall_impl _ _ _ Hs single_lone).
  - intros evs He. pose proof (chained_resumable batches Hb) as Hr. rewrite <- chained_apply in Ha by done. rewrite <- He in Hr, Ha.
    destruct (handle_all_ok left_behind evs (idle s0) s' (idle_wf s0) Hr Ha) as (k & Hk & Hw & Hp).
    destruct (resumes_settle _ k s' Hw Hp (Nat.le_refl _)) as (k' & Hk' & Hi & Hs).
    exists k, k'. split_and!; try done.
    destruct (handle_all_ok left_behind (replicate (work (pending k)) Resumes) k s' Hw) as (k2 & Hk2 & Hw2 & _).
    + by rewrite arrived_resumes.
    + by rewrite arrived_resumes, app_nil_r.
    + assert (k2 = k') as -> by congruence. by apply kw_up.
Qed.

(** The assembler chains what is pushed to it without losing or reordering anything, with an
    interrupt after every [batch_limit]-th change. The chain does what the changes do one after
    the other, and the iterative controller can apply it in turns. *)
Theorem assembled_in_order (limit : Z) (ds : list (diff A)) (s : S) :
  1 < limit → Forall single ds →
  ∃ m0 m, new_assembler limit = Ok m0 ∧ push_all m0 ds = Ok m ∧
    (consume m).2 = batched limit limit ds ∧ a_total m = Z.of_nat (length ds) ∧
    apply (consume m).2 s = apply_each ds s ∧ resumable (consume m).2.
Proof.
  intros Hl Hs. pose proof (Forall_impl _ _ _ Hs single_lone) as Hs'. eexists. unfold new_assembler. rewrite (proj2 (Z.ltb_lt 1 limit) Hl). cbn [assert res_bind].
  destruct (push_all_ok ds (mkAssembler limit limit 0 Null None)) as (m & Hm & _ & Hr & Ht); [by split_and!; cbn; try lia|done|].
  exists m. cbn [consume snd a_root a_total a_batch_limit a_left join] in *. rewrite Hr.
  split_and!; [done|done|done|done|by apply batched_apply|by apply batched_resumable].
Qed.
End properties.

(** ** A journal as the cluster *)

(** A change that writes numbers down, before and after its children. *)
Inductive journal_op := Writes (b a : list Z) | Interrupt | Commit.

#[export] Instance journal_ops : DiffOps journal_op (list Z).
Proof.
  refine {| kind_of op := match op with Writes _ _ => change | Interrupt => interrupt | Commit => commit end;
            enters _ := true;
            before op s := match op with Writes b _ => Ok (s ++ b) | _ => Ok s end;
            after op s := match op with Writes _ a => Ok (s ++ a) | _ => Ok s end;
            late _ s := Ok s;
            new_interrupt := Interrupt |}.
  done.
Defined.

Definition jot (n : Z) : diff journal_op := Node (Writes [n] []) Null Null.

Example assembled_in_order_witness :
  ∃ m0 m, new_assembler 2 = Ok m0 ∧ push_all m0 [jot 1; jot 2; jot 3] = Ok m ∧
    (consume m).2 = batched 2 2 [jot 1; jot 2; jot 3] ∧ a_total m = Z.of_nat 3 ∧
    apply (consume m).2 [] = apply_each [jot 1; jot 2; jot 3] [] ∧ resumable (consume m).2.
Proof. apply (assembled_in_order 2 [jot 1; jot 2; jot 3] []); [lia|repeat constructor; by cbn; intuition]. Defined.

(** An interrupt inside of a change: the change is finished ([3]) before the rest of its children
    ([2]), and of two interrupts on the way only the outer rest is resumed. *)
Definition interrupted_inside : diff journal_op :=
  Node (Writes [] [3]) (Node (Writes [1] []) Null (Node Interrupt Null (jot 2))) (jot 4).

Lemma interrupt_inside_reorders :
  apply interrupted_inside [] = Ok [1; 2; 3; 4] ∧
  (let* k := handle_all (λ _ s, s) [Arrives interrupted_inside; Resumes] (idle []) in Ok (k_cluster k)) = Ok [1; 3; 4; 2].
Proof. by vm_compute. Qed.

Definition interrupted_twice : diff journal_op :=
  Node (Writes [] []) (Node (Writes [1] []) Null (Node Interrupt Null (jot 2))) (Node Interrupt Null (jot 4)).

Lemma interrupt_inside_loses :
  apply interrupted_twice [] = Ok [1; 2; 4] ∧
  (let* k := handle_all (λ _ s, s) [Arrives interrupted_twice; Resumes; Resumes] (idle []) in Ok (k_cluster k, k_interrupted k)) =
    Ok ([1; 4], false).
Proof. by vm_compute. Qed.

(** A first diff that has a sibling already: the next one trips the assertion. *)
Lemma push_back_of_a_chain :
  (let* m := new_assembler 256 in push_all m [join (jot 1) (jot 2); jot 3]) = Ub.
Proof. by vm_compute. Qed.

(** While as a later one it does not. *)
Lemma push_back_of_a_later_chain :
  (let* m := new_assembler 256 in let* m := push_all m [jot 3; join (jot 1) (jot 2); jot 4] in apply (consume m).2 []) =
    Ok [3; 1; 2; 4].
Proof. by vm_compute. Qed.
