(* ===== verification/Base32.v ===== *)
(** * Base32: [src/utils/base32.cpp], the alphabet and the bit-shuffling codec
    behind device ids, with its arithmetic specification and round trip. *)

From S2P Require Import Prelude.

(** ** Code *)

(** [base32::in_alphabet], as character codes. *)
Definition in_alphabet : list Z :=
  [65; 66; 67; 68; 69; 70; 71; 72; 73; 74; 75; 76; 77; 78; 79; 80; 81; 82; 83;
   84; 85; 86; 87; 88; 89; 90; 50; 51; 52; 53; 54; 55].

(** [base32::out_alphabet]: 255 entries, [-1] for a character outside the alphabet; there is none for byte 255. *)
Definition out_alphabet : list Z :=
  repeat (-1) 50 ++ [26; 27; 28; 29; 30; 31] ++ repeat (-1) 9 ++
  [0; 1; 2; 3; 4; 5; 6; 7; 8; 9; 10; 11; 12; 13; 14; 15; 16; 17; 18; 19; 20;
   21; 22; 23; 24; 25] ++ repeat (-1) 164.

(** [base32::encoded_size]. *)
Definition encoded_size (dec_len : Z) : Z := (dec_len + 4) / 5 * 8.

(** [base32::decoded_size]. *)
Definition decoded_size (dec_len : Z) : Z := dec_len * 5 / 8.

Definition in_mask : Z := 31.
Definition out_mask : Z := 255.

(** The locals of [base32::encode]; [e_ptr] is what [ptr] still has to read
    ([in_bytes] is its length) and [e_out] the characters written so far. *)
Record enc_state := EncState {
  e_in : Z;
  e_in_bits : Z;
  e_sign_bits : Z;
  e_ptr : bytes;
  e_out : list Z;
}.

(** The lambda [pull_in] of [base32::encode]. *)
Definition pull_in (s : enc_state) : enc_state :=
  match e_ptr s with
  | in_byte :: rest =>
      let in_bits := e_in_bits s + 8 in
      EncState (Z.lor (e_in s) (u32 (Z.shiftl in_byte (16 - in_bits)))) in_bits
        (e_sign_bits s + 8) rest (e_out s)
  | [] => EncState (e_in s) (e_in_bits s) (e_sign_bits s + 8) [] (e_out s)
  end.

(** One iteration of the [while] of [base32::encode]. *)
Definition encode_step (s : enc_state) : enc_state :=
  let shift := 16 - 5 in
  let index := Z.shiftr (Z.land (e_in s) (Z.shiftl in_mask shift)) shift in
  let s := EncState (Z.land (u32 (Z.shiftl (e_in s) 5)) (65535 - 1))
             (e_in_bits s - 5) (e_sign_bits s - 5) (e_ptr s)
             (e_out s ++ [nth (Z.to_nat index) in_alphabet 0]) in
  if (e_sign_bits s <=? 8) && negb (bool_decide (e_ptr s = [])) then pull_in s else s.

Fixpoint encode_loop (fuel : nat) (s : enc_state) : list Z :=
  if negb (bool_decide (e_ptr s = [])) || (0 <? e_in_bits s) then
    match fuel with
    | O => e_out s
    | S fuel => encode_loop fuel (encode_step s)
    end
  else e_out s.

(** [base32::encode]. Every iteration consumes five of the [8 * |input|] bits. *)
Definition encode (input : bytes) : list Z :=
  encode_loop (8 * length input) (pull_in (pull_in (EncState 0 0 0 input []))).

(** The accumulator of [base32::decode]. *)
Record dec_state := DecState {
  d_out : Z;
  d_out_bits : Z;
  d_decoded : bytes;
}.

(** The lambda [push_out] of [base32::decode]. *)
Definition push_out (s : dec_state) : dec_state :=
  if 8 <=? d_out_bits s then
    let shift := d_out_bits s - 8 in
    let value := Z.shiftr (Z.land (d_out s) (Z.shiftl out_mask shift)) shift in
    DecState (Z.land (d_out s) (Z.shiftl 1 shift - 1)) shift (d_decoded s ++ [u8 value])
  else s.

(** [static_cast<std::uint32_t>(in_byte)] for a [char], signed on the supported ABIs:
    a byte above 127 becomes a huge index. *)
Definition char_to_u32 (c : Z) : Z := if c <? 128 then c else u32 (c - 256).

(** The [while (1)] of [base32::decode]: it reads a character before it
    compares [in_idx] with the size, so an empty input is read out of bounds. *)
Fixpoint decode_loop (input : list Z) (s : dec_state) : res dec_state :=
  match input with
  | [] => Ub
  | in_byte :: rest =>
      match out_alphabet !! Z.to_nat (char_to_u32 in_byte) with
      | None => Ub
      | Some quartet =>
          if quartet =? -1 then Err base32_decoding_failure
          else
            let s := push_out (DecState (Z.lor (u32 (Z.shiftl (d_out s) 5)) quartet)
                                 (d_out_bits s + 5) (d_decoded s)) in
            match rest with
            | [] => Ok s
            | _ => decode_loop rest s
            end
      end
  end.

(** [base32::decode]: the buffer has [decoded_size] zero bytes, which the
    decoded bytes overwrite from the start. *)
Definition decode (input : list Z) : res bytes :=
  let* s := decode_loop input (DecState 0 0 []) in
  let sz := Z.to_nat (decoded_size (Z.of_nat (length input))) in
  if (length (d_decoded s) <=? sz)%nat
  then Ok (d_decoded s ++ repeat 0 (sz - length (d_decoded s)))
  else Ub.

(** ** Specification *)

(** The character of a five-bit digit, and a base32 text as digits. *)
Definition b32_char (d : Z) : Z := nth (Z.to_nat d) in_alphabet 0.

(** [text] spells, in base 32 and without padding characters, the number whose
    base-256 digits are [input], shifted left by the [< 5] zero bits that fill
    the last digit. *)
Definition b32_spells (input : bytes) (text : list Z) : Prop :=
  ∃ ds pad,
    text = map b32_char ds ∧ digits 32 ds ∧ 0 <= pad < 5 ∧
    5 * Z.of_nat (length ds) = 8 * Z.of_nat (length input) + pad ∧
    be_val 32 ds = be_val 256 input * 2 ^ pad.

(** ** Encoding *)

Lemma emit_index x : 0 <= x < 2 ^ 16 →
  Z.shiftr (Z.land x (Z.shiftl in_mask (16 - 5))) (16 - 5) = x / 2 ^ 11.
Proof.
  intros Hx. change in_mask with (Z.ones 5). rewrite shiftr_land_mask by lia.
  change (16 - 5) with 11. apply Z.mod_small.
  split; [apply Z.div_pos; lia|]. apply Z.div_lt_upper_bound; lia.
Qed.

Lemma emit_in x : 0 <= x < 2 ^ 16 →
  Z.land (u32 (Z.shiftl x 5)) (65535 - 1) = (x * 32) mod 2 ^ 16.
Proof.
  intros Hx. unfold u32. rewrite Z.shiftl_mul_pow2 by lia.
  rewrite (Z.mod_small (x * 2 ^ 5)) by lia.
  change (65535 - 1) with (Z.shiftl (Z.ones 15) 1).
  replace (x * 2 ^ 5) with (Z.shiftl (x * 16) 1) by (rewrite Z.shiftl_mul_pow2; lia).
  rewrite <- Z.shiftl_land, Z.land_ones, Z.shiftl_mul_pow2 by lia.
  replace (x * 32) with ((x * 16) * 2) by lia.
  change (2 ^ 16) with (2 ^ 15 * 2). rewrite Z.mul_mod_distr_r by lia. done.
Qed.

(** What the loop maintains: [in] holds [in_bits] pending bits, left-aligned in
    16; digits, pending bits and unread bytes together spell the input. *)
Definition enc_inv (n V : Z) (s : enc_state) (ds : list Z) (p : Z) : Prop :=
  e_out s = map b32_char ds ∧ digits 32 ds ∧ digits 256 (e_ptr s) ∧
  0 <= e_in_bits s <= 16 ∧ 0 <= p < 2 ^ e_in_bits s ∧
  e_in s = p * 2 ^ (16 - e_in_bits s) ∧
  5 * Z.of_nat (length ds) + e_in_bits s + 8 * Z.of_nat (length (e_ptr s)) = 8 * n ∧
  V = (be_val 32 ds * 2 ^ e_in_bits s + p) * 2 ^ (8 * Z.of_nat (length (e_ptr s)))
      + be_val 256 (e_ptr s) ∧
  (e_ptr s ≠ [] → e_sign_bits s = e_in_bits s).

Lemma pull_in_inv n V s ds p :
  enc_inv n V s ds p → e_in_bits s <= 8 → ∃ p', enc_inv n V (pull_in s) ds p'.
Proof.
  intros (Hout & Hds & Hptr & Hk & Hp & Hin & Hbits & HV & Hsign) Hk8.
  destruct s as [x k sb [|b r] o]; simpl in *; [exists p; repeat split; simpl; auto; try lia; done|].
  apply Forall_cons in Hptr as [Hb Hr].
  exists (p * 256 + b). unfold pull_in; simpl. unfold enc_inv; simpl.
  assert (Hsh : Z.shiftl b (16 - (k + 8)) = b * 2 ^ (8 - k)).
  { rewrite Z.shiftl_mul_pow2 by lia. do 2 f_equal. lia. }
  assert (H16 : 2 ^ (16 - k) = 256 * 2 ^ (8 - k)).
  { change 256 with (2 ^ 8). rewrite <- Z.pow_add_r by lia. f_equal. lia. }
  assert (Hpos : 0 < 2 ^ (8 - k) <= 2 ^ 8) by (split; [lia | apply Z.pow_le_mono_r; lia]).
  assert (Hk2 : 2 ^ (k + 8) = 2 ^ k * 256) by (rewrite Z.pow_add_r by lia; done).
  rewrite Hk2. split_and!; auto; try lia.
  - rewrite Hsh. unfold u32. rewrite Z.mod_small by nia. rewrite Hin.
    rewrite lor_disjoint by nia. replace (16 - (k + 8)) with (8 - k) by lia. rewrite H16. ring.
  - rewrite be_val_cons in HV. rewrite Nat2Z.inj_succ in HV.
    rewrite HV. replace (8 * Z.succ (Z.of_nat (length r))) with (8 + 8 * Z.of_nat (length r)) by lia.
    rewrite Z.pow_add_r by lia. change 256 with (2 ^ 8) at 1. rewrite <- Z.pow_mul_r by lia.
    change (2 ^ 8) with 256. ring.
  - intros _. rewrite Hsign by done. lia.
Qed.

Lemma b32_out_snoc ds d : map b32_char ds ++ [b32_char d] = map b32_char (ds ++ [d]).
Proof. by rewrite map_app. Qed.

Lemma digits_snoc b l d : digits b l → 0 <= d < b → digits b (l ++ [d]).
Proof. intros. apply Forall_app; auto. Qed.

#[local] Hint Resolve digits_snoc : core.

(** The state after emitting one character and before the refill. *)
Definition emit (s : enc_state) : enc_state :=
  EncState (Z.land (u32 (Z.shiftl (e_in s) 5)) (65535 - 1))
    (e_in_bits s - 5) (e_sign_bits s - 5) (e_ptr s)
    (e_out s ++ [b32_char (Z.shiftr (Z.land (e_in s) (Z.shiftl in_mask 11)) 11)]).

Lemma encode_step_emit s :
  encode_step s =
    if (e_sign_bits (emit s) <=? 8) && negb (bool_decide (e_ptr (emit s) = []))
    then pull_in (emit s) else emit s.
Proof. done. Qed.

(** The pending register as a 16-bit number. *)
Lemma enc_in_range n V s ds p : enc_inv n V s ds p → 0 <= e_in s < 2 ^ 16.
Proof.
  intros (_ & _ & _ & Hk & Hp & -> & _).
  assert (2 ^ 16 = 2 ^ e_in_bits s * 2 ^ (16 - e_in_bits s)) as ->
    by (rewrite <- Z.pow_add_r by lia; f_equal; lia).
  nia.
Qed.

Lemma emit_inv n V s ds p :
  enc_inv n V s ds p → 5 <= e_in_bits s →
  enc_inv n V (emit s) (ds ++ [p / 2 ^ (e_in_bits s - 5)]) (p mod 2 ^ (e_in_bits s - 5)).
Proof.
  intros H Hk5. pose proof (enc_in_range _ _ _ _ _ H) as Hr.
  destruct H as (Hout & Hds & Hptr & Hk & Hp & Hin & Hbits & HV & Hsign).
  set (k := e_in_bits s) in *. set (m := 2 ^ (k - 5)).
  assert (Hm : 0 < m) by (unfold m; lia).
  assert (Hkm : 2 ^ k = 32 * m).
  { unfold m. change 32 with (2 ^ 5). rewrite <- Z.pow_add_r by lia. f_equal. lia. }
  assert (Hpm : p = m * (p / m) + p mod m) by (apply Z.div_mod; lia).
  pose proof (Z.mod_pos_bound p m Hm) as Hmod.
  assert (Hq : 0 <= p / m < 32).
  { split; [apply Z.div_pos; lia | apply Z.div_lt_upper_bound; lia]. }
  assert (Hpow : 2 ^ 16 = 32 * m * 2 ^ (16 - k)).
  { rewrite <- Hkm, <- Z.pow_add_r by lia. f_equal. lia. }
  assert (Hpow5 : 2 ^ (16 - (k - 5)) = 32 * 2 ^ (16 - k)).
  { change 32 with (2 ^ 5). rewrite <- Z.pow_add_r by lia. f_equal. lia. }
  unfold emit, enc_inv; simpl; fold k. fold m.
  change 11 with (16 - 5). rewrite emit_index, emit_in, Hout by done.
  assert (Hidx : e_in s / 2 ^ 11 = p / m).
  { rewrite Hin. change (2 ^ 11) with (2 ^ 16 / 32). rewrite Hpow.
    replace (32 * m * 2 ^ (16 - k)) with (m * 2 ^ (16 - k) * 32) by ring.
    rewrite Z.div_mul by lia. apply Z.div_mul_cancel_r; lia. }
  rewrite Hidx, b32_out_snoc. split_and!; auto; try lia.
  - rewrite Hpow5, Hin, Hpow.
    replace (p * 2 ^ (16 - k) * 32) with (p * (32 * 2 ^ (16 - k))) by ring.
    replace (32 * m * 2 ^ (16 - k)) with (m * (32 * 2 ^ (16 - k))) by ring.
    apply Z.mul_mod_distr_r; lia.
  - rewrite length_app; simpl. lia.
  - rewrite be_val_snoc, HV, Hkm. f_equal. f_equal. rewrite Hpm at 1. ring.
  - intros Hne. rewrite Hsign by done. done.
Qed.

(** The last, partial digit: fewer than five bits are pending and nothing is unread. *)
Lemma emit_last n V s ds p :
  enc_inv n V s ds p → 0 < e_in_bits s < 5 → e_ptr s = [] →
  e_out (emit s) = map b32_char (ds ++ [p * 2 ^ (5 - e_in_bits s)]) ∧
  digits 32 (ds ++ [p * 2 ^ (5 - e_in_bits s)]) ∧
  be_val 32 (ds ++ [p * 2 ^ (5 - e_in_bits s)]) = V * 2 ^ (5 - e_in_bits s).
Proof.
  intros H Hk5 Hnil. pose proof (enc_in_range _ _ _ _ _ H) as Hr.
  destruct H as (Hout & Hds & Hptr & Hk & Hp & Hin & Hbits & HV & Hsign).
  rewrite Hnil in HV. change (be_val 256 []) with 0 in HV. cbn in HV. rewrite Z.mul_1_r, Z.add_0_r in HV.
  set (k := e_in_bits s) in *. set (m := 2 ^ (5 - k)).
  assert (Hkm : 2 ^ k * m = 32).
  { unfold m. rewrite <- Z.pow_add_r by lia. by replace (k + (5 - k)) with 5 by lia. }
  assert (Hidx : e_in s / 2 ^ 11 = p * m).
  { rewrite Hin. replace (16 - k) with ((5 - k) + 11) by lia.
    rewrite Z.pow_add_r, Z.mul_assoc by lia. apply Z.div_mul. lia. }
  assert (0 < m) by (unfold m; lia).
  unfold emit; simpl. change 11 with (16 - 5).
  rewrite emit_index, Hout, Hidx, b32_out_snoc by done. split_and!; auto.
  - apply digits_snoc; auto. split; [nia|].
    rewrite <- Hkm. apply Z.mul_lt_mono_pos_r; lia.
  - rewrite be_val_snoc, HV, <- Hkm. ring.
Qed.

Lemma encode_step_inv n V s ds p :
  enc_inv n V s ds p → (e_ptr s ≠ [] → 9 <= e_in_bits s) → 5 <= e_in_bits s →
  ∃ ds' p', enc_inv n V (encode_step s) ds' p' ∧
    (e_ptr (encode_step s) ≠ [] → 9 <= e_in_bits (encode_step s)) ∧
    e_in_bits (encode_step s) + 8 * Z.of_nat (length (e_ptr (encode_step s)))
      = e_in_bits s + 8 * Z.of_nat (length (e_ptr s)) - 5.
Proof.
  intros H H9 H5. pose proof (emit_inv _ _ _ _ _ H H5) as He.
  assert (Hsign : e_ptr (emit s) ≠ [] → e_sign_bits (emit s) = e_in_bits (emit s)) by apply He.
  rewrite encode_step_emit. destruct (Z.leb_spec (e_sign_bits (emit s)) 8) as [Hs|Hs];
    case_bool_decide as Hnil; cbn [andb negb].
  - do 2 eexists. split; [exact He|]. split; [done|]. simpl. lia.
  - edestruct pull_in_inv as [p' Hp']; [exact He | specialize (Hsign Hnil); lia |].
    do 2 eexists. split; [exact Hp'|]. specialize (Hsign Hnil). specialize (H9 Hnil).
    revert H9 Hs Hsign Hnil. destruct s as [x k sb [|b r] o];
      cbn [emit pull_in e_ptr e_in_bits e_sign_bits length]; [done|]. intros.
    split; [intros _|]; lia.
  - do 2 eexists. split; [exact He|]. split; [done|]. simpl. lia.
  - do 2 eexists. split; [exact He|]. specialize (Hsign Hnil). simpl in *. lia.
Qed.

Lemma encode_loop_done fuel s : e_ptr s = [] → e_in_bits s <= 0 → encode_loop fuel s = e_out s.
Proof.
  intros Hnil Hk. destruct fuel; cbn [encode_loop];
    rewrite Hnil, bool_decide_eq_true_2, (proj2 (Z.ltb_ge _ _)) by done; done.
Qed.

Lemma encode_loop_spells n V fuel s ds p :
  enc_inv n V s ds p → (e_ptr s ≠ [] → 9 <= e_in_bits s) →
  e_in_bits s + 8 * Z.of_nat (length (e_ptr s)) <= Z.of_nat fuel →
  ∃ ds' pad, encode_loop fuel s = map b32_char ds' ∧ digits 32 ds' ∧ 0 <= pad < 5 ∧
    5 * Z.of_nat (length ds') = 8 * n + pad ∧ be_val 32 ds' = V * 2 ^ pad.
Proof.
  revert s ds p. induction fuel as [|fuel IH]; intros s ds p H H9 Hfuel.
  - pose proof H as (Hout & Hds & _ & Hk & Hp & _ & Hbits & HV & _).
    destruct (e_ptr s) as [|] eqn:Hnil; simpl in *; [|lia].
    assert (e_in_bits s = 0) as Hk0 by lia. rewrite Hk0 in *. rewrite Hnil. simpl.
    change (be_val 256 []) with 0 in HV.
    exists ds, 0. split_and!; auto; lia.
  - destruct (decide (5 <= e_in_bits s)) as [H5|H5].
    + edestruct encode_step_inv as (ds' & p' & H' & H9' & Hm); eauto.
      simpl. replace (0 <? e_in_bits s) with true by lia. rewrite orb_true_r.
      eapply IH; eauto. lia.
    + pose proof H as (Hout & Hds & _ & Hk & Hp & _ & Hbits & HV & _).
      destruct (e_ptr s) as [|] eqn:Hnil; [|specialize (H9 ltac:(done)); lia].
      cbn [encode_loop]. rewrite Hnil, bool_decide_eq_true_2 by done. cbn [negb orb].
      destruct (Z.ltb_spec 0 (e_in_bits s)) as [Hpos|Hpos].
      * destruct (emit_last _ _ _ _ _ H ltac:(lia) Hnil) as (Ho & Hd & Hv).
        rewrite encode_step_emit. simpl. rewrite Hnil. simpl. rewrite andb_false_r.
        rewrite encode_loop_done by (simpl; auto; lia).
        do 2 eexists. split; [exact Ho|]. split; [exact Hd|]. split; [|split; [|exact Hv]]; [lia|].
        rewrite length_app. simpl in *. lia.
      * assert (e_in_bits s = 0) as Hk0 by lia. rewrite Hk0 in *. simpl in *.
        change (be_val 256 []) with 0 in HV. exists ds, 0. split_and!; auto; lia.
Qed.

Lemma encode_spells input : digits 256 input → b32_spells input (encode input).
Proof.
  intros Hin. unfold encode, b32_spells.
  set (s0 := EncState 0 0 0 input []).
  assert (H0 : enc_inv (Z.of_nat (length input)) (be_val 256 input) s0 [] 0).
  { unfold enc_inv, s0; simpl. split_and!; auto; try lia; try by constructor. }
  destruct (pull_in_inv _ _ _ _ _ H0) as [p1 H1]; [simpl; lia|].
  assert (Hb1 : e_in_bits (pull_in s0) <= 8) by (unfold s0; destruct input; simpl; lia).
  destruct (pull_in_inv _ _ _ _ _ H1 Hb1) as [p2 H2].
  eapply encode_loop_spells; eauto.
  - unfold s0. destruct input as [|? [|? ?]]; simpl; intros; try done; lia.
  - destruct H2 as (_ & _ & _ & _ & _ & _ & Hb & _). simpl in *. lia.
Qed.

(** ** Decoding *)

Lemma out_in_alphabet d : 0 <= d < 32 →
  out_alphabet !! Z.to_nat (char_to_u32 (b32_char d)) = Some d.
Proof.
  intros Hd. assert (Hn : (Z.to_nat d < 32)%nat) by lia.
  rewrite <- (Z2Nat.id d) by lia. unfold b32_char. rewrite Nat2Z.id.
  generalize dependent (Z.to_nat d). intros n Hn. clear Hd.
  do 32 (destruct n as [|n]; [reflexivity|]). lia.
Qed.

(** [d_out_bits < 8] pending bits; bytes written and pending bits spell the digits read. *)
Definition dec_inv (s : dec_state) (ds : list Z) : Prop :=
  digits 256 (d_decoded s) ∧ 0 <= d_out_bits s < 8 ∧ 0 <= d_out s < 2 ^ d_out_bits s ∧
  8 * Z.of_nat (length (d_decoded s)) + d_out_bits s = 5 * Z.of_nat (length ds) ∧
  be_val 256 (d_decoded s) * 2 ^ d_out_bits s + d_out s = be_val 32 ds.

Lemma decode_digit_inv s ds d :
  dec_inv s ds → 0 <= d < 32 →
  dec_inv (push_out (DecState (Z.lor (u32 (Z.shiftl (d_out s) 5)) d)
                       (d_out_bits s + 5) (d_decoded s))) (ds ++ [d]).
Proof.
  intros (Hd & Hk & Ho & Hlen & HV) Hr. set (k := d_out_bits s) in *. set (o := d_out s) in *.
  assert (Hp7 : 2 ^ k <= 2 ^ 7) by (apply Z.pow_le_mono_r; lia).
  assert (Hlor : Z.lor (u32 (Z.shiftl o 5)) d = o * 32 + d).
  { unfold u32. rewrite Z.shiftl_mul_pow2, Z.mod_small by lia. apply lor_disjoint; lia. }
  rewrite Hlor. unfold push_out; simpl.
  assert (Hk5 : 2 ^ (k + 5) = 2 ^ k * 32) by (rewrite Z.pow_add_r by lia; done).
  destruct (Z.leb_spec 8 (k + 5)) as [H8|H8]; unfold dec_inv; simpl.
  - set (m := 2 ^ (k + 5 - 8)). assert (Hm : 0 < m) by (unfold m; lia).
    assert (Hkm : 2 ^ (k + 5) = m * 256).
    { unfold m. change 256 with (2 ^ 8). rewrite <- Z.pow_add_r by lia. f_equal. lia. }
    set (w := o * 32 + d). assert (Hw : 0 <= w < m * 256) by (unfold w; lia).
    assert (Hq : 0 <= w / m < 256).
    { split; [apply Z.div_pos; lia | apply Z.div_lt_upper_bound; lia]. }
    assert (Hwm : w = m * (w / m) + w mod m) by (apply Z.div_mod; lia).
    pose proof (Z.mod_pos_bound w m Hm) as Hmod.
    replace (Z.land w (Z.shiftl 1 (k + 5 - 8) - 1)) with (w mod m).
    2:{ change (Z.shiftl 1 (k + 5 - 8) - 1) with (Z.pred (Z.shiftl 1 (k + 5 - 8))).
        change (Z.pred (Z.shiftl 1 (k + 5 - 8))) with (Z.ones (k + 5 - 8)).
        rewrite Z.land_ones by lia. done. }
    change out_mask with (Z.ones 8). rewrite shiftr_land_mask by lia. fold m.
    unfold u8. rewrite Z.mod_mod, (Z.mod_small (w / m)) by lia.
    rewrite !length_app, !be_val_snoc; simpl. split_and!; auto; try lia.
  - rewrite !length_app, !be_val_snoc; simpl. split_and!; auto; try lia.
Qed.

Lemma decode_loop_inv ds ds0 s :
  ds ≠ [] → digits 32 ds → dec_inv s ds0 →
  ∃ s', decode_loop (map b32_char ds) s = Ok s' ∧ dec_inv s' (ds0 ++ ds).
Proof.
  intros Hne H. revert ds0 s. induction H as [|d ds Hd Hds IH]; intros ds0 s Hs; [done|].
  cbn [map decode_loop]. rewrite out_in_alphabet by done.
  replace (d =? -1) with false by lia.
  pose proof (decode_digit_inv _ _ _ Hs Hd) as Hs'.
  destruct ds as [|d' ds].
  - cbn [map]. eauto.
  - change (map b32_char (d' :: ds)) with (b32_char d' :: map b32_char ds) at 1.
    destruct (IH ltac:(done) _ _ Hs') as (s' & He & Hi). exists s'. split; [exact He|].
    by rewrite <- app_assoc in Hi.
Qed.

(** Decoding base32 text yields its leading whole bytes. *)
Lemma decode_digits ds :
  ds ≠ [] → digits 32 ds →
  ∃ out, decode (map b32_char ds) = Ok out ∧ digits 256 out ∧
    Z.of_nat (length out) = decoded_size (Z.of_nat (length ds)) ∧
    be_val 256 out = be_val 32 ds / 2 ^ ((5 * Z.of_nat (length ds)) mod 8).
Proof.
  intros Hne Hds.
  assert (H0 : dec_inv (DecState 0 0 []) []).
  { unfold dec_inv; simpl. split_and!; auto; try lia. by constructor. }
  destruct (decode_loop_inv ds [] _ Hne Hds H0) as (s & Hl & Hd & Hk & Ho & Hlen & HV).
  unfold decode. rewrite Hl, length_map. cbn [res_bind]. simpl app in *.
  assert (Hsz : Z.of_nat (length (d_decoded s)) = decoded_size (Z.of_nat (length ds))).
  { unfold decoded_size. replace (Z.of_nat (length ds) * 5)
      with (Z.of_nat (length (d_decoded s)) * 8 + d_out_bits s) by lia.
    rewrite Z.div_add_l, (Z.div_small (d_out_bits s)) by lia. lia. }
  rewrite <- Hsz, Nat2Z.id, Nat.leb_refl, Nat.sub_diag, app_nil_r.
  eexists; split_and!; eauto.
  replace ((5 * Z.of_nat (length ds)) mod 8) with (d_out_bits s).
  2:{ rewrite <- Hlen, Z.add_comm, Z.mul_comm, Z.mod_add, Z.mod_small by lia. done. }
  rewrite <- HV, Z.div_add_l, (Z.div_small (d_out s)) by lia. lia.
Qed.

(** ** Round trip *)

Lemma decode_encode input :
  digits 256 input → input ≠ [] → decode (encode input) = Ok input.
Proof.
  intros Hin Hne.
  destruct (encode_spells input Hin) as (ds & pad & -> & Hds & Hpad & Hlen & Hv).
  assert (0 < length input)%nat by (destruct input; [done | simpl; lia]).
  assert (Hdne : ds ≠ []) by (intros ->; simpl in Hlen; lia).
  destruct (decode_digits ds Hdne Hds) as (out & -> & Ho & Hol & Hov). f_equal.
  assert (length out = length input).
  { apply Nat2Z.inj. rewrite Hol. unfold decoded_size.
    replace (Z.of_nat (length ds) * 5) with (Z.of_nat (length input) * 8 + pad) by lia.
    rewrite Z.div_add_l, (Z.div_small pad) by lia. lia. }
  apply (be_val_inj 256); auto; [lia|].
  rewrite Hov, Hv, Hlen. replace ((8 * Z.of_nat (length input) + pad) mod 8) with pad.
  2:{ rewrite Z.add_comm, Z.mul_comm, Z.mod_add, Z.mod_small by lia. done. }
  apply Z.div_mul. lia.
Qed.

(** ** Derived facts used by the device-id code *)

Lemma encode_length input :
  digits 256 input →
  Z.of_nat (length (encode input)) = (8 * Z.of_nat (length input) + 4) / 5.
Proof.
  intros H. destruct (encode_spells input H) as (ds & pad & -> & _ & Hpad & Hlen & _).
  rewrite length_map. apply Z.div_unique with (4 - pad); lia.
Qed.

Lemma b32_char_not_dash d : 0 <= d < 32 → b32_char d ≠ 45.
Proof.
  intros Hd Hc. pose proof (out_in_alphabet d Hd) as Ho. rewrite Hc in Ho.
  vm_compute in Ho. by simplify_eq.
Qed.

(** The text consists of characters of the alphabet. *)
Definition b32_text (l : list Z) : Prop := ∃ ds, digits 32 ds ∧ l = map b32_char ds.

Lemma encode_text input : digits 256 input → b32_text (encode input).
Proof. intros H. destruct (encode_spells input H) as (ds & ? & -> & ? & _). by exists ds. Qed.

Lemma decode_text l : b32_text l → l ≠ [] → ∃ out, decode l = Ok out.
Proof.
  intros (ds & Hds & ->) Hne. destruct (decode_digits ds) as (out & ? & _); eauto.
  by intros ->.
Qed.

(** ** Properties *)

(** A text is determined by what it spells. *)
Lemma b32_spells_inj input t1 t2 : b32_spells input t1 → b32_spells input t2 → t1 = t2.
Proof.
  intros (ds1 & p1 & -> & Hd1 & Hp1 & Hl1 & Hv1) (ds2 & p2 & -> & Hd2 & Hp2 & Hl2 & Hv2).
  assert (length ds1 = length ds2) by lia. assert (p1 = p2) as -> by lia.
  f_equal. apply (be_val_inj 32); auto; [lia | congruence].
Qed.

(** Groups of five bytes are encoded independently of what follows. *)
Lemma encode_app l1 l2 :
  digits 256 l1 → digits 256 l2 → (length l1 mod 5 = 0)%nat →
  encode (l1 ++ l2) = encode l1 ++ encode l2.
Proof.
  intros H1 H2 Hmod. apply (b32_spells_inj (l1 ++ l2)).
  { apply encode_spells. by apply Forall_app. }
  destruct (encode_spells l1 H1) as (ds1 & p1 & -> & Hd1 & Hp1 & Hl1 & Hv1).
  destruct (encode_spells l2 H2) as (ds2 & p2 & -> & Hd2 & Hp2 & Hl2 & Hv2).
  apply Nat.Lcm0.mod_divide in Hmod as [q Hq]. assert (p1 = 0) as -> by lia.
  exists (ds1 ++ ds2), p2. rewrite map_app, !length_app, !be_val_app, Hv1, Hv2.
  split_and!; auto; [by apply Forall_app | lia.. |].
  change 32 with (2 ^ 5). change 256 with (2 ^ 8). rewrite <- !Z.pow_mul_r by lia.
  replace (5 * Z.of_nat (length ds2)) with (8 * Z.of_nat (length l2) + p2) by lia.
  rewrite Z.pow_add_r by lia. ring.
Qed.

(** The alphabet of RFC 4648, [A] to [Z] and [2] to [7], and the values of its characters. *)
Definition is_b32 (c : Z) : bool := ((65 <=? c) && (c <=? 90)) || ((50 <=? c) && (c <=? 55)).

Definition b32_value (c : Z) : Z := if 65 <=? c then c - 65 else c - 24.

Lemma b32_value_range c : is_b32 c = true → 0 <= b32_value c < 32.
Proof. unfold is_b32, b32_value. destruct (Z.leb_spec 65 c); lia. Qed.

(** A property of the characters of seven bits is decided by evaluation. *)
Lemma all_ascii (f : Z → bool) :
  forallb (λ n, f (Z.of_nat n)) (seq 0 128) = true → ∀ c, 0 <= c < 128 → f c = true.
Proof.
  intros Hf c Hc. rewrite forallb_forall in Hf. specialize (Hf (Z.to_nat c)).
  rewrite Z2Nat.id in Hf by lia. apply Hf, in_seq. lia.
Qed.

Lemma b32_char_value c : is_b32 c = true → b32_char (b32_value c) = c.
Proof.
  intros H. assert (0 <= c < 128) as Hc by (unfold is_b32 in H; lia). apply Z.eqb_eq.
  pose proof (all_ascii (λ c, negb (is_b32 c) || (b32_char (b32_value c) =? c)) eq_refl c Hc) as Ha.
  cbv beta in Ha. by rewrite H in Ha.
Qed.

Lemma not_b32_lookup c : 0 <= c < 128 → is_b32 c = false → out_alphabet !! Z.to_nat (char_to_u32 c) = Some (-1).
Proof.
  intros Hc H. unfold char_to_u32. replace (c <? 128) with true by lia.
  pose proof (all_ascii (λ c, is_b32 c || bool_decide (out_alphabet !! Z.to_nat c = Some (-1))) eq_refl c Hc) as Ha.
  cbv beta in Ha. rewrite H in Ha. by apply bool_decide_eq_true in Ha.
Qed.

Lemma high_lookup c : 128 <= c < 256 → out_alphabet !! Z.to_nat (char_to_u32 c) = None.
Proof.
  intros Hc. unfold char_to_u32, u32. replace (c <? 128) with false by lia.
  replace ((c - 256) mod 2 ^ 32) with (c - 256 + 2 ^ 32) by (rewrite <- (Z.mod_add _ 1), Z.mod_small; lia).
  apply lookup_ge_None_2. change (length out_alphabet) with 255%nat. lia.
Qed.

(** A text of the alphabet, as digits. *)
Lemma b32_text_digits text :
  Forall (λ c, is_b32 c = true) text → digits 32 (map b32_value text) ∧ map b32_char (map b32_value text) = text.
Proof.
  induction 1 as [|c text Hc _ [IH1 IH2]]; cbn [map]; [by repeat constructor|].
  rewrite IH2, b32_char_value by done. split; [|done]. constructor; [by apply b32_value_range|done].
Qed.

(** The first character outside of the alphabet. *)
Lemma b32_split text :
  Forall (λ c, is_b32 c = true) text ∨
  ∃ pre c rest, text = pre ++ c :: rest ∧ Forall (λ c, is_b32 c = true) pre ∧ is_b32 c = false.
Proof.
  induction text as [|c text IH]; [by left|]. destruct (is_b32 c) eqn:Hc.
  - destruct IH as [IH|(pre & c' & rest & -> & Hp & Hc')]; [by left; constructor|right].
    exists (c :: pre), c', rest. split_and!; [done|by constructor|done].
  - right. by exists [], c, text.
Qed.

Lemma decode_loop_stop ds c rest s r :
  digits 32 ds → (∀ s, decode_loop (c :: rest) s = r) →
  decode_loop (map b32_char ds ++ c :: rest) s = r.
Proof.
  intros H Hr. revert s. induction H as [|d ds Hd Hds IH]; intros s; [apply Hr|].
  cbn [map app decode_loop]. rewrite out_in_alphabet by done.
  replace (d =? -1) with false by lia. cbv zeta.
  destruct (map b32_char ds ++ c :: rest) eqn:E; [by destruct (map b32_char ds)|].
  apply IH.
Qed.

(** ** Properties *)

(** For every byte string, [base32::encode] yields the unpadded base32
    (RFC 4648) text of its bits, the last digit filled with fewer than five zero
    bits, and never writes past the [encoded_size] characters it allocates. *)
Theorem base32_encode_spec input :
  digits 256 input →
  b32_spells input (encode input) ∧
  Z.of_nat (length (encode input)) <= encoded_size (Z.of_nat (length input)).
Proof.
  intros H. split; [by apply encode_spells|]. rewrite encode_length by done.
  unfold encoded_size. Z.to_euclidean_division_equations; lia.
Qed.

Example base32_encode_spec_witness :
  b32_spells [102; 111; 111] (encode [102; 111; 111]) ∧ Z.of_nat (length (encode [102; 111; 111])) <= 8.
Proof. apply (base32_encode_spec [102; 111; 111]). solve_digits. Defined.

(** Decoding what [base32::encode] produced gives the bytes back, for every
    non-empty byte string. *)
Theorem base32_roundtrip input :
  digits 256 input → input ≠ [] → decode (encode input) = Ok input.
Proof. apply decode_encode. Qed.

Example base32_roundtrip_witness : decode (encode [0; 255; 7]) = Ok [0; 255; 7].
Proof. apply (base32_roundtrip [0; 255; 7]); [solve_digits | done]. Defined.

(** [text] stops at a character outside of the alphabet that satisfies [P]: everything before it is in the alphabet. *)
Definition stops_at (P : Z → Prop) (text : list Z) : Prop :=
  ∃ pre c rest, text = pre ++ c :: rest ∧ Forall (λ c, is_b32 c = true) pre ∧ is_b32 c = false ∧ P c.

Lemma decode_stops text :
  digits 256 text →
  (stops_at (λ c, c < 128) text → decode text = Err base32_decoding_failure) ∧
  (stops_at (λ c, 128 <= c) text → decode text = Ub).
Proof.
  intros Ht. split; intros (pre & c & rest & -> & Hp & Hn & Hc); apply Forall_app in Ht as [_ [Hr _]%Forall_cons];
    destruct (b32_text_digits pre Hp) as [Hd Heq]; rewrite <- Heq; unfold decode.
  - rewrite (decode_loop_stop _ _ _ _ (Err base32_decoding_failure)); [done..|].
    intros s. cbn [decode_loop]. by rewrite not_b32_lookup by (done || lia).
  - rewrite (decode_loop_stop _ _ _ _ Ub); [done..|]. intros s. cbn [decode_loop]. by rewrite high_lookup by lia.
Qed.

Lemma decode_alphabet text :
  text ≠ [] → Forall (λ c, is_b32 c = true) text →
  ∃ out, decode text = Ok out ∧ digits 256 out ∧
    Z.of_nat (length out) = decoded_size (Z.of_nat (length text)) ∧
    be_val 256 out = be_val 32 (map b32_value text) / 2 ^ ((5 * Z.of_nat (length text)) mod 8).
Proof.
  intros Hne Ht. destruct (b32_text_digits text Ht) as [Hd Heq].
  destruct (decode_digits (map b32_value text)) as (out & Ho); [by destruct text|done|].
  rewrite Heq, length_map in Ho. by exists out.
Qed.

(** Every text has one of four fates. *)
Lemma decode_cases text :
  digits 256 text →
  (text = [] ∧ decode text = Ub) ∨
  (text ≠ [] ∧ Forall (λ c, is_b32 c = true) text ∧ ∃ out, decode text = Ok out) ∨
  (stops_at (λ c, c < 128) text ∧ decode text = Err base32_decoding_failure) ∨
  (stops_at (λ c, 128 <= c) text ∧ decode text = Ub).
Proof.
  intros Ht. destruct (decode_stops text Ht) as [H1 H2]. destruct (decide (text = [])) as [->|Hne]; [by left|right].
  destruct (b32_split text) as [Ha|(pre & c & rest & Heq & Hp & Hc)].
  - left. destruct (decode_alphabet text Hne Ha) as (out & Ho & _). eauto.
  - right. destruct (Z.lt_ge_cases c 128).
    + left. assert (stops_at (λ c, c < 128) text) by (exists pre, c, rest; auto). auto.
    + right. assert (stops_at (λ c, 128 <= c) text) by (exists pre, c, rest; auto). auto.
Qed.

(** C40: what [base32::decode] does with any text of bytes, by the alphabet [A] to [Z] and [2] to [7] of RFC 4648. It
    succeeds exactly on the texts that are not empty and stay in the alphabet, with the whole bytes of the number that
    the text spells in base 32; it reports [base32_decoding_failure] exactly when the first character outside of the alphabet
    has seven bits; and it reads out of bounds exactly on the empty text and when that first character is above 127,
    a negative [char] and so an index far beyond the table. *)
Theorem base32_decode_failures text :
  digits 256 text →
  (∀ out, decode text = Ok out ↔
     text ≠ [] ∧ Forall (λ c, is_b32 c = true) text ∧ digits 256 out ∧
     Z.of_nat (length out) = decoded_size (Z.of_nat (length text)) ∧
     be_val 256 out = be_val 32 (map b32_value text) / 2 ^ ((5 * Z.of_nat (length text)) mod 8)) ∧
  (∀ e, decode text = Err e ↔ e = base32_decoding_failure ∧ stops_at (λ c, c < 128) text) ∧
  (decode text = Ub ↔ text = [] ∨ stops_at (λ c, 128 <= c) text).
Proof.
  intros Ht. destruct (decode_stops text Ht) as [H1 H2]. pose proof (decode_cases text Ht) as Hc. split_and!.
  - intros out. split.
    + intros Ho. destruct Hc as [[_ Hd]|[(Hne & Ha & _)|[[_ Hd]|[_ Hd]]]]; [congruence| |congruence..].
      destruct (decode_alphabet text Hne Ha) as (out' & Ho' & Hr). assert (out' = out) as -> by congruence. by split_and!; try apply Hr.
    + intros (Hne & Ha & Hd & Hl & Hv). destruct (decode_alphabet text Hne Ha) as (out' & -> & Hd' & Hl' & Hv').
      f_equal. apply (be_val_inj 256); auto; [lia|apply Nat2Z.inj; congruence|congruence].
  - intros e. split; [|by intros [-> Hs]; auto].
    intros He. destruct Hc as [[_ Hd]|[(_ & _ & out & Hd)|[[Hs Hd]|[_ Hd]]]]; try congruence. split; [congruence|done].
  - split; [|by intros [->|Hs]; auto].
    intros He. destruct Hc as [[-> _]|[(_ & _ & out & Hd)|[[Hs Hd]|[Hs _]]]]; try congruence; auto.
Qed.

Example base32_decode_failures_witness :
  decode [77; 90; 88; 87] = Ok [102; 111] ∧ decode [65; 66; 49; 67] = Err base32_decoding_failure ∧ decode [65; 200] = Ub.
Proof.
  split_and!.
  - refine (proj2 (proj1 (base32_decode_failures [77; 90; 88; 87] _) [102; 111]) _); [solve_digits|].
    split_and!; [done|by repeat constructor|solve_digits|done|done].
  - refine (proj2 (proj1 (proj2 (base32_decode_failures [65; 66; 49; 67] _)) base32_decoding_failure) _); [solve_digits|].
    split; [done|]. exists [65; 66], 49, [67]. split_and!; [done|by repeat constructor|done|lia].
  - refine (proj2 (proj2 (proj2 (base32_decode_failures [65; 200] _))) _); [solve_digits|].
    right. exists [65], 200, []. split_and!; [done|by repeat constructor|done|lia].
Defined.
