(* ===== verification/Luhn32.v ===== *)
(** * Luhn32: [src/proto/luhn32.cpp], the mod-32 Luhn check character of device ids. *)

From S2P Require Import Prelude Base32.

(** ** Code *)

(** The [for] of [calc]: [factor] alternates between 1 and 2; a character
    outside the alphabet fails the [assert] on the code point. *)
Fixpoint calc_loop (input : list Z) (factor sum : Z) : res Z :=
  match input with
  | [] => Ok sum
  | c :: rest =>
      match out_alphabet !! Z.to_nat (u8 c) with
      | None => Ub
      | Some code_point =>
          let* _ := assert (0 <=? code_point) in
          let addend := factor * code_point in
          let factor := if factor =? 2 then 1 else 2 in
          let addend := Z.quot addend 32 + Z.rem addend 32 in
          calc_loop rest factor (sum + addend)
      end
  end.

(** [calc]: the check character of a piece. *)
Definition calc (input : list Z) : res Z :=
  let* sum := calc_loop input 1 0 in
  let remainder := Z.rem sum 32 in
  let check_char_index := Z.rem (32 - remainder) 32 in
  match in_alphabet !! Z.to_nat check_char_index with
  | Some c => Ok c
  | None => Ub
  end.

(** [luhn32::calculate]. *)
Definition calculate (input : list Z) : res Z := calc input.

(** [luhn32::validate]. *)
Definition validate (input : list Z) : res bool :=
  let length := length input in
  match length with
  | O => Ok false
  | S n =>
      let* c := calc (take n input) in
      Ok (bool_decide (input !! n = Some c))
  end.

(** ** Specification and lemmas *)

(** The weighted digit sum: a doubled digit is folded back into base 32. *)
Definition luhn_addend (factor d : Z) : Z := Z.quot (factor * d) 32 + Z.rem (factor * d) 32.

Fixpoint luhn_sum (factor : Z) (ds : list Z) : Z :=
  match ds with
  | [] => 0
  | d :: ds => luhn_addend factor d + luhn_sum (if factor =? 2 then 1 else 2) ds
  end.

(** The check digit makes the sum a multiple of 32. *)
Definition luhn_check (ds : list Z) : Z := (32 - luhn_sum 1 ds mod 32) mod 32.

Definition luhn_factor (f : Z) : Prop := f = 1 ∨ f = 2.

Lemma luhn_factor_next f : luhn_factor f → luhn_factor (if f =? 2 then 1 else 2).
Proof. intros [-> | ->]; [by right | by left]. Qed.

#[local] Hint Resolve luhn_factor_next : core.

Lemma luhn_addend_nonneg f d : luhn_factor f → 0 <= d < 32 → 0 <= luhn_addend f d.
Proof.
  intros Hf Hd. unfold luhn_addend. assert (0 <= f * d) by (destruct Hf as [-> | ->]; lia).
  pose proof (Z.quot_pos (f * d) 32). pose proof (Z.rem_nonneg (f * d) 32). lia.
Qed.

Lemma luhn_sum_nonneg f ds : luhn_factor f → digits 32 ds → 0 <= luhn_sum f ds.
Proof.
  intros Hf H. revert f Hf. induction H as [|d ds Hd _ IH]; intros f Hf; simpl; [lia|].
  pose proof (luhn_addend_nonneg f d Hf Hd). specialize (IH _ (luhn_factor_next _ Hf)). lia.
Qed.

Lemma u8_b32_char d : 0 <= d < 32 →
  out_alphabet !! Z.to_nat (u8 (b32_char d)) = Some d.
Proof.
  intros Hd. rewrite <- (out_in_alphabet d Hd). do 2 f_equal.
  assert (Hn : (Z.to_nat d < 32)%nat) by lia.
  unfold b32_char. generalize dependent (Z.to_nat d). intros n Hn. clear Hd.
  do 32 (destruct n as [|n]; [reflexivity|]). lia.
Qed.

Lemma calc_loop_digits ds f s :
  luhn_factor f → digits 32 ds → calc_loop (map b32_char ds) f s = Ok (s + luhn_sum f ds).
Proof.
  intros Hf H. revert f s Hf. induction H as [|d ds Hd _ IH]; intros f s Hf.
  - simpl. f_equal. lia.
  - cbn [map calc_loop luhn_sum]. rewrite u8_b32_char by done.
    replace (0 <=? d) with true by lia. cbn [assert res_bind].
    rewrite IH by auto. f_equal. unfold luhn_addend. lia.
Qed.

Lemma luhn_check_range ds : 0 <= luhn_check ds < 32.
Proof. apply Z.mod_pos_bound. lia. Qed.

Lemma in_alphabet_lookup d : 0 <= d < 32 → in_alphabet !! Z.to_nat d = Some (b32_char d).
Proof.
  intros Hd. unfold b32_char. rewrite nth_lookup.
  destruct (lookup_lt_is_Some_2 in_alphabet (Z.to_nat d)) as [c Hc].
  { change (length in_alphabet) with 32%nat. lia. }
  by rewrite Hc.
Qed.

(** On alphabet characters [calc] never trips its assertion. *)
Lemma calc_digits ds : digits 32 ds → calc (map b32_char ds) = Ok (b32_char (luhn_check ds)).
Proof.
  intros H. unfold calc. rewrite calc_loop_digits by (auto; by left). cbn [res_bind].
  pose proof (luhn_sum_nonneg 1 ds (or_introl eq_refl) H) as Hs.
  rewrite Z.add_0_l, (Z.rem_mod_nonneg (luhn_sum 1 ds)) by lia.
  pose proof (Z.mod_pos_bound (luhn_sum 1 ds) 32 ltac:(lia)).
  rewrite Z.rem_mod_nonneg by lia. fold (luhn_check ds).
  by rewrite in_alphabet_lookup by apply luhn_check_range.
Qed.

Lemma b32_char_inj d1 d2 :
  0 <= d1 < 32 → 0 <= d2 < 32 → b32_char d1 = b32_char d2 → d1 = d2.
Proof.
  intros H1 H2 He. pose proof (out_in_alphabet d1 H1) as O1.
  pose proof (out_in_alphabet d2 H2) as O2. rewrite He in O1. congruence.
Qed.

(** A piece followed by a digit is valid exactly when the digit is the check digit. *)
Lemma validate_digits ds c :
  digits 32 ds → 0 <= c < 32 →
  validate (map b32_char (ds ++ [c])) = Ok (bool_decide (c = luhn_check ds)).
Proof.
  intros H Hc. unfold validate. rewrite length_map, length_app, Nat.add_1_r.
  assert (Hn : length ds = length (map b32_char ds)) by by rewrite length_map.
  rewrite map_app, Hn, take_app_length, calc_digits by done. cbn [res_bind].
  rewrite lookup_app_r, Nat.sub_diag by done. cbn [map lookup list_lookup].
  f_equal. apply bool_decide_ext. split.
  - intros ?; simplify_eq. eapply b32_char_inj; eauto using luhn_check_range.
  - by intros ->.
Qed.


Lemma luhn_addend_1 d : 0 <= d < 32 → luhn_addend 1 d = d.
Proof. intros. unfold luhn_addend. rewrite Z.mul_1_l, Z.quot_small, Z.rem_small; lia. Qed.

Lemma luhn_addend_2 d : 0 <= d < 32 → luhn_addend 2 d = if d <? 16 then 2 * d else 2 * d - 31.
Proof.
  intros Hd. unfold luhn_addend. destruct (Z.ltb_spec d 16).
  - rewrite Z.quot_small, Z.rem_small; lia.
  - replace (2 * d) with ((2 * d - 32) + 1 * 32) by lia.
    rewrite Z.quot_add, Z.rem_add, Z.quot_small, Z.rem_small by nia. lia.
Qed.

Lemma luhn_addend_range f d : luhn_factor f → 0 <= d < 32 → 0 <= luhn_addend f d < 32.
Proof.
  intros [-> | ->] Hd; [rewrite luhn_addend_1 by done; lia|].
  rewrite luhn_addend_2 by done. destruct (Z.ltb_spec d 16); lia.
Qed.

Lemma luhn_addend_inj f d d' :
  luhn_factor f → 0 <= d < 32 → 0 <= d' < 32 → luhn_addend f d = luhn_addend f d' → d = d'.
Proof.
  intros [-> | ->] Hd Hd'; [rewrite !luhn_addend_1 by done; done|].
  rewrite !luhn_addend_2 by done. destruct (Z.ltb_spec d 16), (Z.ltb_spec d' 16); lia.
Qed.

(** The sum splits around a segment whose start has a fixed factor. *)
Lemma luhn_sum_split f ds1 :
  luhn_factor f → ∃ A f', luhn_factor f' ∧ ∀ ds, luhn_sum f (ds1 ++ ds) = A + luhn_sum f' ds.
Proof.
  revert f. induction ds1 as [|d ds1 IH]; intros f Hf.
  - exists 0, f. split; [done|]. intros; simpl. lia.
  - destruct (IH _ (luhn_factor_next _ Hf)) as (A & f' & Hf' & H).
    exists (luhn_addend f d + A), f'. split; [done|]. intros ds. simpl. rewrite H. lia.
Qed.

Lemma luhn_check_eq ds ds' :
  luhn_check ds = luhn_check ds' ↔ (luhn_sum 1 ds - luhn_sum 1 ds') mod 32 = 0.
Proof.
  unfold luhn_check. set (a := luhn_sum 1 ds). set (b := luhn_sum 1 ds').
  rewrite (Zminus_mod a b).
  pose proof (Z.mod_pos_bound a 32 ltac:(lia)). pose proof (Z.mod_pos_bound b 32 ltac:(lia)).
  generalize dependent (a mod 32). generalize dependent (b mod 32). clear a b. intros y Hy x Hx.
  split; intros E; Z.to_euclidean_division_equations; lia.
Qed.

Lemma digits_app b l1 l2 : digits b (l1 ++ l2) ↔ digits b l1 ∧ digits b l2.
Proof. apply Forall_app. Qed.

Lemma luhn_substitution ds1 d d' ds2 :
  digits 32 (d :: d' :: ds1 ++ ds2) →
  luhn_check (ds1 ++ d' :: ds2) = luhn_check (ds1 ++ d :: ds2) → d = d'.
Proof.
  intros (Hd & (Hd' & _)%Forall_cons)%Forall_cons.
  destruct (luhn_sum_split 1 ds1 (or_introl eq_refl)) as (A & f & Hf & HA).
  rewrite luhn_check_eq, !HA. cbn [luhn_sum]. intros E.
  pose proof (luhn_addend_range f d Hf Hd). pose proof (luhn_addend_range f d' Hf Hd').
  apply (luhn_addend_inj f); auto.
  Z.to_euclidean_division_equations; lia.
Qed.

Lemma luhn_transposition ds1 a b ds2 :
  digits 32 (a :: b :: ds1 ++ ds2) → a < b →
  luhn_check (ds1 ++ b :: a :: ds2) = luhn_check (ds1 ++ a :: b :: ds2) ↔ a = 0 ∧ b = 31.
Proof.
  intros (Ha & (Hb & _)%Forall_cons)%Forall_cons Hab.
  destruct (luhn_sum_split 1 ds1 (or_introl eq_refl)) as (A & f & Hf & HA).
  rewrite luhn_check_eq, !HA. cbn [luhn_sum].
  set (g := if f =? 2 then 1 else 2). generalize (luhn_sum (if g =? 2 then 1 else 2) ds2). intros r.
  assert (E : (A + (luhn_addend f b + (luhn_addend g a + r)) -
               (A + (luhn_addend f a + (luhn_addend g b + r)))) mod 32 = 0 ↔
              (luhn_addend 2 a - luhn_addend 2 b + (b - a)) mod 32 = 0).
  { unfold g. destruct Hf as [-> | ->]; cbn [Z.eqb Pos.eqb];
      rewrite ?luhn_addend_1 by done;
      generalize (luhn_addend 2 a), (luhn_addend 2 b); intros;
      split; intros; Z.to_euclidean_division_equations; lia. }
  rewrite E, !luhn_addend_2 by done.
  destruct (Z.ltb_spec a 16), (Z.ltb_spec b 16); split; intros;
    Z.to_euclidean_division_equations; lia.
Qed.

(** ** Properties *)

(** On alphabet characters [luhn32::validate] never fails an assertion and
    accepts a piece exactly when its last character is the check character
    [luhn32::calculate] computes; a piece with one character of the payload
    substituted is rejected, and so is one with two adjacent characters swapped
    unless they are the digits 0 and 31 ([A] and [7]). *)
Theorem luhn_validate_spec ds1 a b ds2 c :
  digits 32 (a :: b :: c :: ds1 ++ ds2) →
  calculate (map b32_char (ds1 ++ a :: ds2)) = Ok (b32_char (luhn_check (ds1 ++ a :: ds2))) ∧
  validate (map b32_char ((ds1 ++ a :: ds2) ++ [c]))
    = Ok (bool_decide (c = luhn_check (ds1 ++ a :: ds2))) ∧
  (a ≠ b → validate (map b32_char ((ds1 ++ b :: ds2) ++ [luhn_check (ds1 ++ a :: ds2)])) = Ok false) ∧
  (a < b → validate (map b32_char ((ds1 ++ b :: a :: ds2) ++ [luhn_check (ds1 ++ a :: b :: ds2)]))
    = Ok (bool_decide (a = 0 ∧ b = 31))).
Proof.
  intros Hall. pose proof Hall as (Ha & (Hb & (Hc & Hds)%Forall_cons)%Forall_cons)%Forall_cons.
  apply Forall_app in Hds as [H1 H2].
  assert (Hda : digits 32 (ds1 ++ a :: ds2)) by (apply Forall_app; auto).
  assert (Hdb : digits 32 (ds1 ++ b :: ds2)) by (apply Forall_app; auto).
  assert (Hdba : digits 32 (ds1 ++ b :: a :: ds2)) by (apply Forall_app; auto).
  assert (Hab : digits 32 (a :: b :: ds1 ++ ds2)) by (do 2 (constructor; [done|]); by apply Forall_app).
  split_and!.
  - by apply calc_digits.
  - by apply validate_digits.
  - intros Hne. rewrite validate_digits by auto using luhn_check_range.
    rewrite bool_decide_eq_false_2; [done|]. intros E. apply Hne.
    eapply (luhn_substitution ds1 a b ds2); [done | by symmetry].
  - intros Hlt. rewrite validate_digits by auto using luhn_check_range.
    f_equal. apply bool_decide_ext. rewrite <- (luhn_transposition ds1 a b ds2) by done.
    split; by symmetry.
Qed.

Example luhn_validate_spec_witness :
  validate (map b32_char (([1; 2] ++ 5 :: [9]) ++ [luhn_check ([1; 2] ++ 3 :: [9])])) = Ok false.
Proof.
  refine (proj1 (proj2 (proj2 (luhn_validate_spec [1; 2] 3 5 [9] 0 _))) _); [solve_digits | lia].
Defined.
