(* ===== verification/DeviceId.v ===== *)
(** * DeviceId: [src/model/device_id.cpp], the textual and binary forms of a device id. *)

From S2P Require Import Prelude Base32 Luhn32.

(** ** Code *)

Definition SHA256_B32_SIZE : nat := 52.
Definition CHECK_DIGIT_INT : nat := 13.
Definition LUHN_ITERATIONS : nat := SHA256_B32_SIZE / 13.
Definition LUHNIZED_SIZE : nat := SHA256_B32_SIZE + LUHN_ITERATIONS.
Definition DASH_INT : nat := 7.
Definition DASH_ITERATIONS : nat := LUHNIZED_SIZE / DASH_INT.
Definition DASHED_SIZE : nat := LUHNIZED_SIZE + DASH_ITERATIONS - 1.
Definition digest_length : nat := 32.
Definition dash : Z := 45.

(** [db::prefix::device]. *)
Definition prefix_device : Z := 16.

(** [device_id_t]: [hash] is the key prefix followed by the sha256 digest. *)
Record device_id := DeviceId {
  id_value : list Z;
  id_hash : bytes;
}.

#[export] Instance device_id_eq_dec : EqDecision device_id.
Proof. solve_decision. Defined.

(** The constructor [device_id_t(value, sha256)]. *)
Definition make_device_id (value : list Z) (sha256 : bytes) : res device_id :=
  let* _ := assert (bool_decide (length sha256 = digest_length)) in
  Ok (DeviceId value (prefix_device :: sha256)).

Definition get_sha256 (d : device_id) : bytes := take digest_length (drop 1 (id_hash d)).
Definition get_key (d : device_id) : bytes := id_hash d.
Definition get_short (d : device_id) : list Z := take DASH_INT (id_value d).

(** [device_id_t::get_uint]: the first eight digest bytes, read big-endian. *)
Definition get_uint (d : device_id) : Z := be_val 256 (take 8 (drop 1 (id_hash d))).

Definition matches (d : device_id) (value : Z) : bool := get_uint d =? value.

(** [operator==] compares digests only. *)
Definition device_id_eqb (a b : device_id) : bool := bool_decide (get_sha256 a = get_sha256 b).

(** The luhn loop of [from_sha256]: a check character after every 13 characters. *)
Fixpoint luhnize (iterations : nat) (sha : list Z) : res (list Z) :=
  match iterations with
  | O => Ok []
  | S i =>
      let piece := take CHECK_DIGIT_INT sha in
      let* c := calculate piece in
      let* rest := luhnize i (drop CHECK_DIGIT_INT sha) in
      Ok (piece ++ c :: rest)
  end.

(** The dash loop of [from_sha256]: groups of 7, a dash between two groups. *)
Fixpoint dashed (iterations : nat) (luhn : list Z) : list Z :=
  match iterations with
  | O => []
  | S i =>
      take DASH_INT luhn ++
      (if (0 <? i)%nat then [dash] else []) ++
      dashed i (drop DASH_INT luhn)
  end.

(** [device_id_t::from_sha256]. *)
Definition from_sha256 (sha256 : bytes) : res (option device_id) :=
  let sha256_enc := encode sha256 in
  if bool_decide (length sha256_enc ≠ SHA256_B32_SIZE) then Ok None
  else
    let* luhnized := luhnize LUHN_ITERATIONS sha256_enc in
    let* d := make_device_id (dashed DASH_ITERATIONS luhnized) sha256 in
    Ok (Some d).

(** The in-place compaction of [from_string]: dashes are dropped and the tail
    of the buffer keeps its old characters. *)
Definition remove_dashes (buff : list Z) : list Z :=
  let kept := filter (λ c, c ≠ dash) buff in
  kept ++ drop (length kept) buff.

(** The validation loop of [from_string] over pieces of 13 + 1 characters. *)
Fixpoint validate_pieces (iterations : nat) (buff : list Z) : res bool :=
  match iterations with
  | O => Ok true
  | S i =>
      let* ok := validate (take (CHECK_DIGIT_INT + 1) buff) in
      if ok then validate_pieces i (drop (CHECK_DIGIT_INT + 1) buff) else Ok false
  end.

(** The loop of [from_string] that removes the check digits; [c] counts the
    characters since the last one. *)
Fixpoint strip_check_digits (n : nat) (c : nat) (buff : list Z) : list Z :=
  match n, buff with
  | S n, x :: rest =>
      if (c =? CHECK_DIGIT_INT)%nat then strip_check_digits n 0 rest
      else x :: strip_check_digits n (S c) rest
  | _, _ => []
  end.

(** [device_id_t::from_string]. *)
Definition from_string (value : list Z) : res (option device_id) :=
  if bool_decide (length value ≠ DASHED_SIZE) then Ok None
  else
    let buff := remove_dashes value in
    let* ok := validate_pieces LUHN_ITERATIONS (take LUHNIZED_SIZE buff) in
    if ok then
      match decode (strip_check_digits LUHNIZED_SIZE 0 buff) with
      | Ok sha => let* d := make_device_id value sha in Ok (Some d)
      | Err _ => Ok None
      | Ub => Ub
      end
    else Ok None.

(** The bytes of a 64-bit value in big-endian order. *)
Fixpoint be_bytes (n : nat) (z : Z) : bytes :=
  match n with
  | O => []
  | S n => be_bytes n (z / 256) ++ [z mod 256]
  end.

(** [device_id_t::make_short(uint64_t)]. *)
Definition make_short (value : Z) : list Z :=
  if value =? 0 then []
  else take DASH_INT (encode (take 5 (be_bytes 8 value))).

(** [device_id_t::make_short(bytes_view_t)] on a little-endian host: the eight
    bytes are loaded as an integer, swapped, and re-read from memory, which
    leaves them reversed. *)
Definition make_short_sha (sha_256 : bytes) : list Z :=
  take DASH_INT (encode (take 5 (reverse (take 8 sha_256)))).

Section from_cert.
(** [utils::sha256_digest] (OpenSSL). *)
Context (sha256_digest : bytes → option bytes).

(** [device_id_t::from_cert]. *)
Definition from_cert (data : bytes) : res (option device_id) :=
  match sha256_digest data with
  | None => Ok None
  | Some sha => from_sha256 sha
  end.
End from_cert.

(** ** Lemmas on the loops *)

Lemma strip_piece p x c n rest :
  (length p + c = CHECK_DIGIT_INT)%nat →
  strip_check_digits (length p + S n) c (p ++ x :: rest) = p ++ strip_check_digits n 0 rest.
Proof.
  revert c. induction p as [|y p IH]; intros c Hc; cbn [length Nat.add app strip_check_digits] in *.
  - subst c. done.
  - destruct (Nat.eqb_spec c CHECK_DIGIT_INT); [lia|]. f_equal. apply IH. lia.
Qed.

(** What the luhn loop produces passes validation and loses exactly its check digits. *)
Lemma luhnize_spec k ds tail :
  digits 32 ds → length ds = (13 * k)%nat →
  ∃ out, luhnize k (map b32_char ds) = Ok (map b32_char out) ∧ digits 32 out ∧
    length out = (14 * k)%nat ∧
    validate_pieces k (map b32_char out) = Ok true ∧
    strip_check_digits (14 * k) 0 (map b32_char out ++ tail) = map b32_char ds ∧
    map b32_char out = take 13 (map b32_char ds) ++ drop 13 (map b32_char out).
Proof.
  revert ds. induction k as [|k IH]; intros ds Hds Hlen.
  - exists []. destruct ds; [|done]. split_and!; try done; try by constructor.
  - set (p := take 13 ds). set (r := drop 13 ds).
    assert (Hp : length p = 13%nat) by (unfold p; rewrite length_take; lia).
    assert (Hr : length r = (13 * k)%nat) by (unfold r; rewrite length_drop; lia).
    assert (Hsplit : ds = p ++ r) by (symmetry; apply take_drop).
    rewrite Hsplit in Hds. apply digits_app in Hds as [Hdp Hdr].
    destruct (IH r Hdr Hr) as (out & Hl & Hdo & Hlo & Hv & Hs & _).
    assert (Hmp : length (map b32_char p) = 13%nat) by by rewrite length_map.
    assert (Htp : take 13 (map b32_char ds) = map b32_char p)
      by (rewrite Hsplit, map_app; by apply take_app_length').
    exists (p ++ luhn_check p :: out). cbn [luhnize].
    unfold CHECK_DIGIT_INT at 1 2. rewrite Htp.
    replace (drop 13 (map b32_char ds)) with (map b32_char r)
      by (rewrite Hsplit, map_app; symmetry; by apply drop_app_length').
    unfold calculate. rewrite calc_digits, Hl by done. cbn [res_bind].
    rewrite !map_app. cbn [map]. split_and!.
    + unfold CHECK_DIGIT_INT. by rewrite Htp.
    + apply digits_app. split; [done|]. constructor; [apply luhn_check_range | done].
    + rewrite length_app. cbn [length]. lia.
    + cbn [validate_pieces]. change (CHECK_DIGIT_INT + 1)%nat with 14%nat.
      rewrite (cons_middle _ (map b32_char p)), app_assoc.
      rewrite take_app_length', drop_app_length' by (rewrite length_app; simpl; lia).
      replace (map b32_char p ++ [b32_char (luhn_check p)])
        with (map b32_char (p ++ [luhn_check p])) by by rewrite map_app.
      rewrite validate_digits, bool_decide_eq_true_2 by (auto using luhn_check_range).
      exact Hv.
    + rewrite <- app_assoc. cbn [app].
      replace (14 * S k)%nat with (length (map b32_char p) + S (14 * k))%nat by lia.
      rewrite strip_piece by by rewrite Hmp. rewrite Hs. by rewrite <- map_app, <- Hsplit.
    + by rewrite drop_app_length'.
Qed.

Lemma dashed_spec k l :
  length l = (7 * S k)%nat → Forall (λ c, c ≠ dash) l →
  filter (λ c, c ≠ dash) (dashed (S k) l) = l ∧
  length (dashed (S k) l) = (8 * S k - 1)%nat ∧
  take 7 (dashed (S k) l) = take 7 l.
Proof.
  revert l. induction k as [|k IH]; intros l Hlen Hl.
  - cbn [dashed Nat.ltb Nat.leb]. unfold DASH_INT. rewrite !app_nil_r.
    rewrite !take_ge by lia. split_and!; [by apply filter_all | lia | done].
  - set (p := take 7 l). set (r := drop 7 l).
    assert (Hsplit : l = p ++ r) by (symmetry; apply take_drop).
    assert (Hp : length p = 7%nat) by (unfold p; rewrite length_take; lia).
    assert (Hr : length r = (7 * S k)%nat) by (unfold r; rewrite length_drop; lia).
    rewrite Hsplit in Hl. apply Forall_app in Hl as [Hlp Hlr].
    destruct (IH r Hr Hlr) as (Hf & Hd & _).
    change (dashed (S (S k)) l) with (p ++ [dash] ++ dashed (S k) r).
    rewrite !filter_app, Hf, (filter_all _ p) by done.
    rewrite filter_cons_False by naive_solver. cbn [app]. rewrite filter_nil. cbn [app].
    split_and!; [done | |].
    + rewrite length_app. cbn [length]. rewrite Hd. lia.
    + by rewrite take_app_length'.
Qed.

Lemma be_bytes_be_val l : digits 256 l → be_bytes (length l) (be_val 256 l) = l.
Proof.
  induction l as [|d l IH] using rev_ind; intros H; [done|].
  apply digits_app in H as [Hl Hd]. apply Forall_inv in Hd. simpl in Hd.
  rewrite length_app, Nat.add_1_r, be_val_snoc. cbn [be_bytes].
  rewrite Z.div_add_l, (Z.div_small d 256), Z.add_0_r, IH by (done || lia).
  rewrite Z.add_comm, Z.mod_add, Z.mod_small by lia. done.
Qed.

Lemma from_sha256_length sha :
  digits 256 sha → length (encode sha) = SHA256_B32_SIZE ↔ length sha = digest_length.
Proof.
  intros H. pose proof (encode_length sha H) as E. unfold SHA256_B32_SIZE, digest_length.
  split; intros Hl; rewrite Hl in E; Z.to_euclidean_division_equations; lia.
Qed.

(** Everything [from_sha256] and [from_string] do on a digest. *)
Lemma from_sha256_spec sha :
  digits 256 sha → length sha = digest_length →
  ∃ value, let d := DeviceId value (prefix_device :: sha) in
    from_sha256 sha = Ok (Some d) ∧ from_string value = Ok (Some d) ∧
    length value = DASHED_SIZE ∧ get_short d = take DASH_INT (encode sha).
Proof.
  intros Hsha Hlen. pose proof (proj2 (from_sha256_length sha Hsha) Hlen) as Henc.
  destruct (encode_text sha Hsha) as (ds & Hds & Hds_eq).
  assert (Hdl : length ds = (13 * 4)%nat) by (rewrite Hds_eq, length_map in Henc; done).
  assert (Hout : ∀ tail, ∃ out, luhnize 4 (map b32_char ds) = Ok (map b32_char out) ∧ digits 32 out ∧
    length out = 56%nat ∧ validate_pieces 4 (map b32_char out) = Ok true ∧
    strip_check_digits 56 0 (map b32_char out ++ tail) = map b32_char ds ∧
    map b32_char out = take 13 (map b32_char ds) ++ drop 13 (map b32_char out))
    by (intros; by apply (luhnize_spec 4)).
  destruct (Hout []) as (out & Hl & Hdo & Hlo & Hv & _ & Hpre).
  assert (Hlm : length (map b32_char out) = 56%nat) by by rewrite length_map.
  assert (Hnd : Forall (λ c, c ≠ dash) (map b32_char out)).
  { apply Forall_map. eapply Forall_impl; [exact Hdo|]. intros. by apply b32_char_not_dash. }
  destruct (dashed_spec 7 (map b32_char out) Hlm Hnd) as (Hf & Hld & Ht7).
  assert (Hmk : ∀ v, make_device_id v sha = Ok (DeviceId v (prefix_device :: sha)))
    by (intros; unfold make_device_id; by rewrite bool_decide_eq_true_2).
  exists (dashed DASH_ITERATIONS (map b32_char out)). cbv zeta. split_and!.
  - unfold from_sha256. rewrite bool_decide_eq_false_2 by tauto. rewrite Hds_eq.
    unfold LUHN_ITERATIONS. change (SHA256_B32_SIZE / 13)%nat with 4%nat.
    rewrite Hl. cbn [res_bind]. by rewrite Hmk.
  - unfold from_string. change DASH_ITERATIONS with 8%nat.
    rewrite bool_decide_eq_false_2 by (rewrite Hld; by intros []).
    unfold remove_dashes. rewrite Hf, Hlm.
    destruct (Hout (drop 56 (dashed 8 (map b32_char out)))) as (out' & Hl' & _ & _ & _ & Hs & _).
    rewrite Hl in Hl'. injection Hl' as Hl'. rewrite <- Hl' in Hs.
    change LUHN_ITERATIONS with 4%nat. change LUHNIZED_SIZE with 56%nat.
    rewrite take_app_length' by done. rewrite Hv. cbn [res_bind].
    rewrite Hs, <- Hds_eq, decode_encode by (auto; by intros ->).
    by rewrite Hmk.
  - change DASH_ITERATIONS with 8%nat. by rewrite Hld.
  - cbn [get_short id_value]. unfold get_short, DASH_INT. cbn [id_value]. change DASH_ITERATIONS with 8%nat.
    rewrite Ht7, Hds_eq, Hpre, take_app_le by (rewrite length_take, length_map; lia).
    by rewrite take_take.
Qed.

Lemma make_short_get_uint sha v :
  digits 256 sha → length sha = digest_length →
  let d := DeviceId v (prefix_device :: sha) in
  get_uint d ≠ 0 → make_short (get_uint d) = take DASH_INT (encode sha).
Proof.
  intros Hsha Hlen d Hne. unfold make_short. rewrite (proj2 (Z.eqb_neq _ _) Hne).
  unfold digest_length in Hlen.
  assert (Ht : digits 256 (take 8 sha)) by by apply Forall_take.
  unfold get_uint, d. simpl id_hash. cbn [drop].
  replace 8%nat with (length (take 8 sha)) at 1 by (rewrite length_take; lia).
  rewrite be_bytes_be_val, take_take by done. change (5 `min` 8)%nat with 5%nat.
  rewrite <- (take_drop 5 sha) at 2.
  rewrite encode_app by (first [by apply Forall_take | by apply Forall_drop
    | rewrite length_take; replace (5 `min` length sha)%nat with 5%nat by lia; done]).
  rewrite take_app_le; [done|]. apply Nat2Z.inj_le.
  rewrite encode_length by by apply Forall_take. rewrite length_take.
  replace (5 `min` length sha)%nat with 5%nat by lia. vm_compute. done.
Qed.

(** On alphabet characters the validation loop answers, whatever the answer. *)
Lemma validate_pieces_total k ds :
  digits 32 ds → length ds = (14 * k)%nat → ∃ ok, validate_pieces k (map b32_char ds) = Ok ok.
Proof.
  revert ds. induction k as [|k IH]; intros ds Hds Hlen; [by eexists|].
  cbn [validate_pieces]. change (CHECK_DIGIT_INT + 1)%nat with 14%nat.
  rewrite <- (firstn_skipn 14 ds) in Hds. apply digits_app in Hds as [Ht Hd].
  rewrite firstn_map, skipn_map.
  destruct (take 14 ds) as [|x p _] eqn:E using rev_ind.
  { apply (f_equal length) in E. rewrite length_take in E. cbn [length] in E. lia. }
  apply digits_app in Ht as [Hp Hx]. apply Forall_inv in Hx.
  rewrite validate_digits by done. cbn [res_bind]. case_bool_decide; [|by eexists].
  apply IH; [done|]. rewrite length_drop. lia.
Qed.

Lemma strip_check_digits_digits n c ds :
  digits 32 ds → length ds = n →
  ∃ ds', strip_check_digits n c (map b32_char ds) = map b32_char ds' ∧ digits 32 ds'.
Proof.
  intros H. revert n c. induction H as [|d ds Hd _ IH]; intros [|n] c Hn; simplify_eq/=.
  - exists []. split; [done | by constructor].
  - destruct (c =? CHECK_DIGIT_INT)%nat; [by apply IH|].
    destruct (IH _ (S c) eq_refl) as (ds' & -> & H'). exists (d :: ds'). split; [done | by constructor].
Qed.

Lemma strip_check_digits_app n c l tail :
  length l = n → strip_check_digits n c (l ++ tail) = strip_check_digits n c l.
Proof.
  revert n c. induction l as [|x l IH]; intros [|n] c Hn; simplify_eq/=; [by destruct tail|].
  destruct (c =? CHECK_DIGIT_INT)%nat; rewrite IH by done; done.
Qed.

Lemma strip_check_digits_length ds :
  length ds = LUHNIZED_SIZE →
  length (strip_check_digits LUHNIZED_SIZE 0 (map b32_char ds)) = SHA256_B32_SIZE.
Proof.
  intros H. do 56 (destruct ds as [|? ds]; [done|]). destruct ds; [done|discriminate].
Qed.

(** ** Properties *)

(** C34: every 32-byte digest has a device id: [from_sha256] yields a
    63-character text, [from_string] reads that text back to the very same id,
    the id's key is the digest behind the device prefix, and (unless the first
    eight bytes are zero) the short form of its 64-bit number is the prefix of
    the text. A digest of another length has none. *)
Theorem device_id_roundtrip sha :
  digits 256 sha →
  (length sha = digest_length →
   ∃ d, from_sha256 sha = Ok (Some d) ∧ from_string (id_value d) = Ok (Some d) ∧
     get_sha256 d = sha ∧ get_key d = prefix_device :: sha ∧
     length (id_value d) = DASHED_SIZE ∧
     (get_uint d ≠ 0 → make_short (get_uint d) = get_short d)) ∧
  (length sha ≠ digest_length → from_sha256 sha = Ok None).
Proof.
  intros Hsha. split.
  - intros Hlen. destruct (from_sha256_spec sha Hsha Hlen) as (v & H1 & H2 & H3 & H4).
    eexists; split_and!; eauto.
    + unfold get_sha256. simpl. apply take_ge. rewrite Hlen. done.
    + intros Hne. rewrite H4. by apply make_short_get_uint.
  - intros Hlen. unfold from_sha256.
    by rewrite bool_decide_eq_true_2 by by rewrite from_sha256_length.
Qed.

Example device_id_roundtrip_witness :
  ∃ d, from_sha256 (repeat 7 32) = Ok (Some d) ∧ from_string (id_value d) = Ok (Some d) ∧
     get_sha256 d = repeat 7 32 ∧ get_key d = prefix_device :: repeat 7 32 ∧
     length (id_value d) = DASHED_SIZE ∧
     (get_uint d ≠ 0 → make_short (get_uint d) = get_short d).
Proof. refine (proj1 (device_id_roundtrip (repeat 7 32) _) _); [solve_digits | done]. Defined.

(** A text of the right length whose first 56 non-dash characters are in
    the alphabet is either refused or accepted, without any failed assertion
    or bad read; an accepted id keeps the text as given and is equal (by
    [operator==]) to the canonical id of its digest. *)
Theorem from_string_total value ds tail :
  length value = DASHED_SIZE → filter (λ c, c ≠ dash) value = map b32_char ds ++ tail →
  digits 32 ds → length ds = LUHNIZED_SIZE →
  ∃ r, from_string value = Ok r ∧
    ∀ d, r = Some d → id_value d = value ∧
      ∃ d', from_sha256 (get_sha256 d) = Ok (Some d') ∧ device_id_eqb d d' = true.
Proof.
  intros Hlen Hf Hds Hdl. unfold from_string. rewrite bool_decide_eq_false_2 by tauto.
  unfold remove_dashes. rewrite Hf, <- app_assoc.
  assert (Hm : length (map b32_char ds) = LUHNIZED_SIZE) by by rewrite length_map.
  rewrite take_app_length' by done.
  destruct (validate_pieces_total 4 ds Hds Hdl) as [ok Hok].
  change LUHN_ITERATIONS with 4%nat. rewrite Hok. cbn [res_bind].
  destruct ok; [|eexists; split; [done | discriminate]].
  rewrite strip_check_digits_app by done.
  destruct (strip_check_digits_digits LUHNIZED_SIZE 0 ds Hds Hdl) as (ds' & Hs & Hd').
  pose proof (strip_check_digits_length ds Hdl) as Hl'. rewrite Hs, length_map in Hl'. rewrite Hs.
  destruct (decode_digits ds') as (sha & -> & Hsha & Hshal & _); [by intros -> | done |].
  rewrite Hl' in Hshal. change (decoded_size (Z.of_nat SHA256_B32_SIZE)) with 32 in Hshal.
  unfold make_device_id. rewrite bool_decide_eq_true_2 by (unfold digest_length; lia).
  cbn [assert res_bind]. eexists; split; [done|]. intros d [= <-]. split; [done|].
  assert (Hg : ∀ v, get_sha256 (DeviceId v (prefix_device :: sha)) = sha).
  { intros v. unfold get_sha256. cbn [id_hash drop]. apply take_ge. unfold digest_length. lia. }
  destruct (from_sha256_spec sha Hsha) as (v & H1 & _); [unfold digest_length; lia|].
  exists (DeviceId v (prefix_device :: sha)). rewrite Hg. split; [done|].
  unfold device_id_eqb. rewrite !Hg. by apply bool_decide_eq_true_2.
Qed.

Definition sample_id : list Z :=
  chars "KHQNO2S-5QSILRK-YX4JZZ4-7L77APM-QNVGZJT-EKU7IFI-PNEPBMY-4MXFMQD".

Definition sample_digits : list Z :=
  map (λ c, default 0 (out_alphabet !! Z.to_nat c)) (filter (λ c, c ≠ dash) sample_id).

Example from_string_total_witness :
  ∃ r, from_string sample_id = Ok r ∧
    ∀ d, r = Some d → id_value d = sample_id ∧
      ∃ d', from_sha256 (get_sha256 d) = Ok (Some d') ∧ device_id_eqb d d' = true.
Proof.
  apply (from_string_total sample_id sample_digits []); [vm_compute; reflexivity .. | | reflexivity].
  apply Forall_fold_right. vm_compute. repeat split; discriminate.
Defined.

(** The id of a text, where it has one. *)
Definition id_of (value : list Z) : option device_id :=
  match from_string value with Ok r => r | _ => None end.

(** Dashes are accepted anywhere: two different texts give equal ids. *)
Example from_string_not_canonical :
  let moved := chars "KHQNO2-S5QSILRK-YX4JZZ4-7L77APM-QNVGZJT-EKU7IFI-PNEPBMY-4MXFMQD" in
  moved ≠ sample_id ∧
  (d1 ← id_of sample_id; d2 ← id_of moved; Some (device_id_eqb d1 d2)) = Some true.
Proof. split; [discriminate | vm_compute; reflexivity]. Qed.

(** The short form computed from the digest is not the short form of the id. *)
Example make_short_sha_differs :
  (d ← id_of sample_id; Some (get_short d, make_short_sha (get_sha256 d)))
  = Some (chars "KHQNO2S", chars "XCIIIXL").
Proof. vm_compute. reflexivity. Qed.

(** A character outside the alphabet fails the assertion of the check-digit computation. *)
Example from_string_bad_character :
  from_string (chars "KHQNO2S-5QSILRK-YX4JZZ4-7L77APM-QNVGZJT-EKU7IFI-PNEPBMY-4MXFM0D") = Ub.
Proof. vm_compute. reflexivity. Qed.
