(* ===== verification/Version.v ===== *)
(** * Version: [src/model/version.cpp], the version vector of a file. The best
    (largest) counter of a vector is marked by the top bit of its value. *)

From S2P Require Import Prelude.

(** ** Code *)

(** [proto::Counter]: device number and logical time, both 64-bit. *)
Record counter := Counter {
  c_id : Z;
  c_value : Z;
}.

#[export] Instance counter_eq_dec : EqDecision counter.
Proof. solve_decision. Defined.

(** [proto::Counter()]. *)
Definition counter_zero : counter := Counter 0 0.

Definition BEST_MASK : Z := Z.shiftl 1 63.

(** [~BEST_MASK] on [std::uint64_t]. *)
Definition NOT_BEST_MASK : Z := 2 ^ 64 - 1 - BEST_MASK.

Definition is_best (c : counter) : bool := negb (Z.land (c_value c) BEST_MASK =? 0).
Definition mark_best (c : counter) : counter := Counter (c_id c) (Z.lor (c_value c) BEST_MASK).
Definition strip_best (c : counter) : counter := Counter (c_id c) (Z.land (c_value c) NOT_BEST_MASK).

(** [version_t] owns its counters, [proto::Vector] has the unmarked ones. *)
Abbreviation version := (list counter).
Abbreviation vector := (list counter).

(** The selection loop of [version_t(const proto::Vector &)]. *)
Fixpoint best_loop (i : nat) (l : vector) (best : counter) (best_index : nat) : nat :=
  match l with
  | [] => best_index
  | c :: l =>
      if c_value best <? c_value c then best_loop (S i) l c i
      else best_loop (S i) l best best_index
  end.

(** [version_t::version_t(const proto::Vector &)]. *)
Definition version_of_proto (v : vector) : res version :=
  match v with
  | [] => Ub
  | c0 :: _ => Ok (alter mark_best (best_loop 0 v c0 0) v)
  end.

(** [version_t::to_proto], [version_t::as_proto]. *)
Definition as_proto (cs : version) : vector := map strip_best cs.

(** The inner search of [version_t::update]. *)
Fixpoint find_id (i : nat) (id : Z) (cs : version) : option nat :=
  match cs with
  | [] => None
  | c :: cs => if c_id c =? id then Some i else find_id (S i) id cs
  end.

(** The outer loop of [version_t::update]: [v] and [best_index]. *)
Fixpoint update_loop (all rest : version) (id v : Z) (best_index : option nat) : Z * option nat :=
  match rest with
  | [] => (v, best_index)
  | c :: rest =>
      if is_best c then
        let v := Z.max (u64 (Z.land (c_value c) NOT_BEST_MASK + 1)) v in
        let best_index := match find_id 0 id all with Some i => Some i | None => best_index end in
        update_loop all rest id v best_index
      else update_loop all rest id v best_index
  end.

(** [version_t::update]; [id] is the number of the device and [now] the clock in seconds. *)
Definition update (id now : Z) (cs : version) : version :=
  let '(v, best_index) := update_loop cs cs id now None in
  match best_index with
  | None => cs ++ [Counter id (Z.lor v BEST_MASK)]
  | Some i => alter (λ c, Counter (c_id c) (Z.lor v BEST_MASK)) i cs
  end.

(** [version_t::version_t(const device_t &)]. *)
Definition version_of_device (id now : Z) : version := update id now [].

(** [version_t::get_best]: the last marked counter, without its mark. *)
Definition get_best (cs : version) : counter :=
  fold_left (λ r c, if is_best c then strip_best c else r) cs counter_zero.

(** [version_t::contains]. *)
Definition contains (cs other : version) : bool :=
  let other_best := get_best other in
  let fix go l :=
    match l with
    | [] => false
    | c :: l =>
        if c_id c =? c_id other_best
        then c_value other_best <=? Z.land (c_value c) NOT_BEST_MASK
        else go l
    end in
  go cs.

(** [version_t::identical_to]. *)
Fixpoint identical_loop (p1 p2 : version) : bool :=
  match p1, p2 with
  | c1 :: p1, c2 :: p2 =>
      if (c_id c1 =? c_id c2) &&
         (Z.land (c_value c1) NOT_BEST_MASK =? Z.land (c_value c2) NOT_BEST_MASK)
      then identical_loop p1 p2 else false
  | _, _ => true
  end.

Definition identical_to (cs other : version) : bool :=
  if (length cs =? length other)%nat then identical_loop cs other else false.

Definition counters_size (cs : version) : nat := length cs.

(** [version_t::get_counter]: the assertion admits one index too many. *)
Definition get_counter (cs : version) (index : nat) : res counter :=
  if (index <=? length cs)%nat then
    match cs !! index with Some c => Ok c | None => Ub end
  else Ub.

(** [version_t::get_counters] builds an unmarked copy and returns the member. *)
Definition get_counters (cs : version) : version :=
  let copy := map (λ c, Counter (c_id c) (Z.land (c_value c) NOT_BEST_MASK)) cs in
  cs.

(** ** Lemmas on the mark *)

(** A plain value leaves the mark bit free. *)
Definition plain (c : counter) : Prop := 0 <= c_value c < 2 ^ 63.

Lemma NOT_BEST_MASK_ones : NOT_BEST_MASK = Z.ones 63.
Proof. done. Qed.

Lemma land_not_best v : Z.land v NOT_BEST_MASK = v mod 2 ^ 63.
Proof. rewrite NOT_BEST_MASK_ones. by apply Z.land_ones. Qed.

Lemma lor_best v : 0 <= v < 2 ^ 63 → Z.lor v BEST_MASK = v + 2 ^ 63.
Proof.
  intros H. rewrite Z.lor_comm. change BEST_MASK with (1 * 2 ^ 63).
  rewrite lor_disjoint by lia. lia.
Qed.

Lemma strip_lor_best v : 0 <= v < 2 ^ 63 → Z.land (Z.lor v BEST_MASK) NOT_BEST_MASK = v.
Proof.
  intros H. rewrite lor_best, land_not_best by done.
  rewrite <- (Z.mul_1_l (2 ^ 63)) at 1. by rewrite Z.mod_add, Z.mod_small.
Qed.

Lemma is_best_plain c : plain c → is_best c = false.
Proof.
  intros H. unfold is_best. rewrite Z.land_comm. change BEST_MASK with (1 * 2 ^ 63).
  by rewrite land_disjoint.
Qed.

Lemma is_best_lor id v : is_best (Counter id (Z.lor v BEST_MASK)) = true.
Proof.
  unfold is_best. simpl c_value. rewrite Z.land_lor_distr_l, Z.land_diag.
  destruct (Z.eqb_spec (Z.lor (Z.land v BEST_MASK) BEST_MASK) 0) as [E|]; [|done].
  apply Z.lor_eq_0_iff in E as [_ E]. done.
Qed.

Lemma strip_plain c : plain c → strip_best c = c.
Proof.
  destruct c as [i v]. unfold plain, strip_best. simpl. intros H.
  by rewrite land_not_best, Z.mod_small.
Qed.

Lemma strip_mark c : plain c → strip_best (mark_best c) = c.
Proof. destruct c as [i v]. intros H. unfold strip_best. simpl. by rewrite strip_lor_best. Qed.

Lemma is_best_mark c : is_best (mark_best c) = true.
Proof. apply is_best_lor. Qed.

Lemma strip_plain_all v : Forall plain v → map strip_best v = v.
Proof. induction 1 as [|c v Hc _ IH]; [done|]. simpl. by rewrite strip_plain, IH. Qed.

(** ** The marked vector *)

Lemma best_loop_spec l pre best bi :
  pre !! bi = Some best →
  Forall (λ c, c_value c <= c_value best) pre →
  Forall (λ c, c_value c < c_value best) (take bi pre) →
  ∃ c, (pre ++ l) !! best_loop (length pre) l best bi = Some c ∧
    Forall (λ c', c_value c' <= c_value c) (pre ++ l) ∧
    Forall (λ c', c_value c' < c_value c) (take (best_loop (length pre) l best bi) (pre ++ l)).
Proof.
  revert pre best bi. induction l as [|c l IH]; intros pre best bi Hbi Hle Hlt.
  { rewrite app_nil_r. eauto. }
  cbn [best_loop]. pose proof (lookup_lt_Some _ _ _ Hbi) as Hlen.
  replace (pre ++ c :: l) with ((pre ++ [c]) ++ l) by by rewrite <- app_assoc.
  replace (S (length pre)) with (length (pre ++ [c])) by (rewrite length_app; simpl; lia).
  destruct (Z.ltb_spec (c_value best) (c_value c)); apply IH.
  - by rewrite lookup_app_r, Nat.sub_diag.
  - apply Forall_app; split; [|by repeat constructor].
    eapply Forall_impl; [exact Hle|]. simpl. lia.
  - rewrite take_app_length. eapply Forall_impl; [exact Hle|]. simpl. lia.
  - by rewrite lookup_app_l.
  - apply Forall_app; split; [done|]. repeat constructor. lia.
  - rewrite take_app_le by lia. done.
Qed.

(** The constructor marks the first counter of maximal value and nothing else. *)
Definition marks_best (v : vector) (cs : version) (c : counter) : Prop :=
  ∃ l1 l2, v = l1 ++ c :: l2 ∧ cs = l1 ++ mark_best c :: l2 ∧
    Forall (λ x, c_value x < c_value c) l1 ∧ Forall (λ x, c_value x <= c_value c) l2.

Lemma version_of_proto_marks v :
  v ≠ [] → ∃ cs c, version_of_proto v = Ok cs ∧ marks_best v cs c.
Proof.
  destruct v as [|c0 v]; [done|]. intros _.
  destruct (best_loop_spec v [c0] c0 0) as (c & Hc & Hle & Hlt); [done | by repeat constructor | constructor |].
  simpl length in *. simpl app in *.
  assert (Hb : best_loop 0 (c0 :: v) c0 0 = best_loop 1 v c0 0)
    by (cbn [best_loop]; by rewrite Z.ltb_irrefl).
  cbn [version_of_proto]. rewrite Hb. set (k := best_loop 1 v c0 0) in *.
  do 2 eexists; split; [done|].
  pose proof (take_drop_middle _ _ _ Hc) as Hsplit.
  assert (Hk : (k < length (c0 :: v))%nat) by (by eapply lookup_lt_Some).
  exists (take k (c0 :: v)), (drop (S k) (c0 :: v)). split_and!; [done | | done |].
  - rewrite <- Hsplit at 1. rewrite alter_app_r_alt by (rewrite length_take; lia).
    rewrite length_take, Nat.min_l, Nat.sub_diag by lia. done.
  - by apply Forall_drop.
Qed.

Section marked.
Context (v : vector) (cs : version) (c : counter).
Context (Hplain : Forall plain v) (Hm : marks_best v cs c).

Lemma marked_plain : plain c.
Proof.
  destruct Hm as (l1 & l2 & -> & _). by apply Forall_app in Hplain as [_ [? _]%Forall_cons].
Qed.

Lemma marked_as_proto : as_proto cs = v.
Proof.
  pose proof marked_plain as Hc. destruct Hm as (l1 & l2 & -> & -> & _).
  apply Forall_app in Hplain as [H1 [_ H2]%Forall_cons].
  unfold as_proto. rewrite map_app. cbn [map]. by rewrite !strip_plain_all, strip_mark.
Qed.

Lemma marked_max : Forall (λ x, c_value x <= c_value c) v.
Proof. clear Hplain.
  destruct Hm as (l1 & l2 & -> & _ & Hlt & Hle). apply Forall_app; split.
  - eapply Forall_impl; [exact Hlt|]. simpl. lia.
  - constructor; [lia | done].
Qed.

Lemma marked_elem : c ∈ v.
Proof. clear Hplain. destruct Hm as (l1 & l2 & -> & _). set_solver. Qed.

Lemma fold_best_plain l r :
  Forall plain l → fold_left (λ r c, if is_best c then strip_best c else r) l r = r.
Proof. intros H. revert r. induction H; intros r; [done|]. simpl. by rewrite is_best_plain. Qed.

Lemma marked_get_best : get_best cs = c.
Proof.
  pose proof marked_plain as Hc. destruct Hm as (l1 & l2 & -> & -> & _).
  apply Forall_app in Hplain as [H1 [_ H2]%Forall_cons].
  unfold get_best. rewrite fold_left_app. cbn [fold_left].
  by rewrite is_best_mark, fold_best_plain, strip_mark.
Qed.
End marked.

(** ** Containment *)

(** The first counter of a device. *)
Definition counter_of (id : Z) (v : vector) : option counter :=
  snd <$> list_find (λ c, c_id c = id) v.

Lemma counter_of_cons id c v :
  counter_of id (c :: v) = if c_id c =? id then Some c else counter_of id v.
Proof.
  unfold counter_of. cbn [list_find]. destruct (Z.eqb_spec (c_id c) id).
  - by rewrite decide_True.
  - rewrite decide_False by done. by destruct (list_find _ v) as [[]|].
Qed.

Lemma counter_of_some id v c : counter_of id v = Some c → c ∈ v ∧ c_id c = id.
Proof.
  unfold counter_of. destruct (list_find _ v) as [[i x]|] eqn:E; [|done]. cbn. intros [= ->].
  apply list_find_Some in E as (Hi & Hid & _). split; [by eapply list_elem_of_lookup_2|done].
Qed.

(** [contains] looks at the unmarked counters only. *)
Lemma contains_counter_of cs other :
  contains cs other =
    match counter_of (c_id (get_best other)) (as_proto cs) with
    | Some c => c_value (get_best other) <=? c_value c
    | None => false
    end.
Proof.
  unfold contains, as_proto. generalize (get_best other). intros b.
  induction cs as [|c cs IH]; [done|]. cbn [map]. rewrite counter_of_cons. cbn [strip_best c_id].
  destruct (c_id c =? c_id b); [done|]. exact IH.
Qed.

Lemma identical_to_as_proto cs other : identical_to cs other = true ↔ as_proto cs = as_proto other.
Proof.
  unfold identical_to, as_proto. revert other.
  induction cs as [|c1 cs IH]; intros [|c2 other]; cbn [length map Nat.eqb]; try done.
  cbn [identical_loop]. specialize (IH other).
  destruct (length cs =? length other)%nat.
  - destruct (Z.eqb_spec (c_id c1) (c_id c2)) as [E1|E1]; cbn [andb].
    + destruct (Z.eqb_spec (Z.land (c_value c1) NOT_BEST_MASK) (Z.land (c_value c2) NOT_BEST_MASK))
        as [E2|E2].
      * rewrite IH. assert (strip_best c1 = strip_best c2) as -> by (unfold strip_best; congruence).
        split; congruence.
      * split; [done|]. unfold strip_best. intros; simplify_eq.
    + split; [done|]. unfold strip_best. intros; simplify_eq.
  - split; [done|]. intros [= _ _ E]. by apply IH.
Qed.

(** ** Update *)

(** What an update means on unmarked counters: the device's counter becomes [val]. *)
Definition bump (id val : Z) (v : vector) : vector :=
  match find_id 0 id v with
  | None => v ++ [Counter id val]
  | Some i => alter (λ c, Counter (c_id c) val) i v
  end.

Lemma find_id_map k id cs : find_id k id (map strip_best cs) = find_id k id cs.
Proof. revert k. induction cs as [|c cs IH]; intros k; [done|]. simpl. by rewrite IH. Qed.

Lemma map_strip_alter f g i (cs : version) :
  (∀ c, strip_best (f c) = g (strip_best c)) →
  map strip_best (alter f i cs) = alter g i (map strip_best cs).
Proof.
  intros H. revert i. induction cs as [|c cs IH]; intros [|i]; [done..| |].
  - simpl. by rewrite H.
  - simpl. f_equal. apply IH.
Qed.

Lemma update_loop_plain all l rest id v bi :
  Forall plain l → update_loop all (l ++ rest) id v bi = update_loop all rest id v bi.
Proof. intros H. induction H; [done|]. simpl. by rewrite is_best_plain. Qed.

Lemma update_wire v cs c id now :
  Forall plain v → marks_best v cs c → c_value c + 1 < 2 ^ 63 → 0 <= now < 2 ^ 63 →
  as_proto (update id now cs) = bump id (Z.max (c_value c + 1) now) v.
Proof.
  intros Hp Hm Hc Hnow. pose proof (marked_as_proto _ _ _ Hp Hm) as Has.
  pose proof (marked_plain _ _ _ Hp Hm) as Hpc.
  assert (Hf : find_id 0 id v = find_id 0 id cs) by (rewrite <- Has; apply find_id_map).
  unfold bump, update. rewrite Hf.
  assert (Hl : update_loop cs cs id now None = (Z.max (c_value c + 1) now, find_id 0 id cs)).
  { destruct Hm as (l1 & l2 & -> & Hcs & _). apply Forall_app in Hp as [H1 [_ H2]%Forall_cons].
    rewrite Hcs at 2. rewrite update_loop_plain by done. cbn [update_loop].
    rewrite is_best_mark. cbn [mark_best c_value]. rewrite strip_lor_best by done.
    rewrite <- (app_nil_r l2), update_loop_plain by done. cbn [update_loop].
    unfold u64. rewrite Z.mod_small by (unfold plain in Hpc; lia). f_equal.
    by destruct (find_id 0 id cs). }
  rewrite Hl. unfold as_proto in *. destruct (find_id 0 id cs).
  - rewrite (map_strip_alter _ (λ c', Counter (c_id c') (Z.max (c_value c + 1) now))), Has; [done|].
    intros x. unfold strip_best. simpl. rewrite strip_lor_best by (unfold plain in *; lia). done.
  - rewrite map_app, Has. cbn [map]. unfold strip_best. simpl.
    rewrite strip_lor_best by (unfold plain in *; lia). done.
Qed.

Lemma find_id_spec k id v :
  match find_id k id v with
  | None => Forall (λ c, c_id c ≠ id) v
  | Some i => ∃ l1 c l2, v = l1 ++ c :: l2 ∧ i = (k + length l1)%nat ∧ c_id c = id ∧
                Forall (λ c, c_id c ≠ id) l1
  end.
Proof.
  revert k. induction v as [|c v IH]; intros k; cbn [find_id]; [by constructor|].
  destruct (Z.eqb_spec (c_id c) id) as [E|E].
  - exists [], c, v. split_and!; [done | simpl; lia | done | by constructor].
  - specialize (IH (S k)). destruct (find_id (S k) id v).
    + destruct IH as (l1 & c' & l2 & -> & -> & Hid & Hl). exists (c :: l1), c', l2.
      split_and!; [done | simpl; lia | done | by constructor].
    + by constructor.
Qed.

Lemma bump_split id val v :
  ∃ l1 mid l2, v = l1 ++ mid ++ l2 ∧ bump id val v = l1 ++ Counter id val :: l2 ∧
    Forall (λ c, c_id c ≠ id) l1 ∧ Forall (λ c, c_id c = id) mid.
Proof.
  unfold bump. pose proof (find_id_spec 0 id v) as H. destruct (find_id 0 id v) as [i|].
  - destruct H as (l1 & c & l2 & -> & -> & Hid & Hl). exists l1, [c], l2.
    split_and!; [done | | done | by repeat constructor].
    cbn [Nat.add]. rewrite alter_app_r_alt, Nat.sub_diag by lia. simpl. by rewrite Hid.
  - exists v, [], []. rewrite !app_nil_r. split_and!; [done | done | done | by constructor].
Qed.

Lemma counter_of_app id l1 l2 :
  counter_of id (l1 ++ l2) = match counter_of id l1 with Some c => Some c | None => counter_of id l2 end.
Proof.
  induction l1 as [|c l1 IH]; [done|]. cbn [app]. rewrite !counter_of_cons.
  by destruct (c_id c =? id).
Qed.

Lemma counter_of_none id l : Forall (λ c, c_id c ≠ id) l → counter_of id l = None.
Proof.
  induction 1 as [|c l Hc _ IH]; [done|]. rewrite counter_of_cons, IH.
  by rewrite (proj2 (Z.eqb_neq _ _) Hc).
Qed.

(** The bumped counter and the others. *)
Lemma counter_of_bump id val v id' :
  counter_of id' (bump id val v) =
    if id' =? id then Some (Counter id val) else counter_of id' v.
Proof.
  destruct (bump_split id val v) as (l1 & mid & l2 & -> & -> & H1 & Hmid).
  rewrite !counter_of_app, counter_of_cons. cbn [c_id].
  destruct (Z.eqb_spec id' id) as [->|Hne].
  - by rewrite counter_of_none, Z.eqb_refl.
  - rewrite (proj2 (Z.eqb_neq id id')) by done.
    rewrite (counter_of_none id' mid); [done|].
    eapply Forall_impl; [exact Hmid|]. simpl. congruence.
Qed.

Lemma bump_elem id val v x : x ∈ bump id val v → x ∈ v ∨ x = Counter id val.
Proof.
  destruct (bump_split id val v) as (l1 & mid & l2 & -> & -> & _). set_solver.
Qed.

Lemma counter_of_elem v c : NoDup (map c_id v) → c ∈ v → counter_of (c_id c) v = Some c.
Proof.
  induction v as [|x v IH]; [set_solver|]. cbn [map]. intros [Hx Hnd]%NoDup_cons Hc.
  rewrite counter_of_cons. destruct (Z.eqb_spec (c_id x) (c_id c)) as [E|E].
  - f_equal. apply elem_of_cons in Hc as [->|Hc]; [done|]. exfalso. apply Hx. rewrite E.
    apply list_elem_of_In, in_map, list_elem_of_In, Hc.
  - apply IH; [done|]. set_solver.
Qed.

(** An updated vector, written out and read back. *)
Lemma update_read_back v cs id now :
  v ≠ [] → Forall plain v → NoDup (map c_id v) →
  Forall (λ c, c_value c + 1 < 2 ^ 63) v → 0 <= now < 2 ^ 63 →
  version_of_proto v = Ok cs →
  ∃ cs', version_of_proto (as_proto (update id now cs)) = Ok cs' ∧
    get_best cs' = Counter id (Z.max (c_value (get_best cs) + 1) now) ∧
    Forall (λ c, c_value c < c_value (get_best cs')) v ∧
    contains cs' cs = true ∧ contains cs cs' = false ∧
    ∀ id', id' ≠ id → counter_of id' (as_proto cs') = counter_of id' v.
Proof.
  intros Hne Hp Hnd Hv Hnow Hcs. destruct (version_of_proto_marks v Hne) as (cs0 & c & Hcs0 & Hm).
  rewrite Hcs in Hcs0. injection Hcs0 as <-.
  pose proof (marked_elem _ _ _ Hm) as Hel. pose proof (marked_max _ _ _ Hm) as Hmax.
  pose proof (marked_get_best _ _ _ Hp Hm) as Hbest. pose proof (marked_as_proto _ _ _ Hp Hm) as Has.
  pose proof (proj1 (Forall_forall _ _) Hv c Hel) as Hc. simpl in Hc.
  pose proof (marked_plain _ _ _ Hp Hm) as Hpc. unfold plain in Hpc.
  rewrite (update_wire v cs c id now) by done. set (val := Z.max (c_value c + 1) now).
  assert (Hlt : Forall (λ x, c_value x < val) v).
  { eapply Forall_impl; [exact Hmax|]. simpl. lia. }
  assert (Hpw : Forall plain (bump id val v)).
  { apply Forall_forall. intros x [Hx | ->]%bump_elem; [by eapply Forall_forall|].
    unfold plain; simpl; lia. }
  assert (Hin : counter_of id (bump id val v) = Some (Counter id val))
    by by rewrite counter_of_bump, Z.eqb_refl.
  assert (Hwne : bump id val v ≠ []) by (intros E; by rewrite E in Hin).
  destruct (version_of_proto_marks _ Hwne) as (cs' & c' & Hcs' & Hm').
  pose proof (marked_get_best _ _ _ Hpw Hm') as Hbest'. pose proof (marked_as_proto _ _ _ Hpw Hm') as Has'.
  assert (c' = Counter id val) as ->.
  { pose proof (marked_max _ _ _ Hm') as Hmax'.
    destruct (bump_elem _ _ _ _ (marked_elem _ _ _ Hm')) as [Hv'|]; [|done]. exfalso.
    pose proof (proj1 (Forall_forall _ _) Hlt _ Hv') as H1.
    destruct (bump_split id val v) as (l1 & mid & l2 & _ & Hb & _).
    assert (Hib : Counter id val ∈ bump id val v) by (rewrite Hb; set_solver).
    pose proof (proj1 (Forall_forall _ _) Hmax' _ Hib) as H2. simpl in *. lia. }
  exists cs'. rewrite Hbest, Hbest', Has'. split_and!; try done.
  - rewrite contains_counter_of, Hbest, Has', counter_of_bump.
    destruct (c_id c =? id).
    + simpl. apply Z.leb_le. lia.
    + rewrite counter_of_elem by done. by rewrite Z.leb_refl.
  - rewrite contains_counter_of, Hbest', Has. cbn [c_id c_value].
    destruct (counter_of id v) as [x|] eqn:E; [|done].
    apply Z.leb_gt. unfold counter_of in E.
    destruct (list_find _ v) as [[i x']|] eqn:El; simplify_eq/=.
    apply list_find_Some in El as (Hi & _). apply list_elem_of_lookup_2 in Hi.
    by apply (proj1 (Forall_forall _ _) Hlt).
  - intros id' Hid'. rewrite counter_of_bump. by rewrite (proj2 (Z.eqb_neq _ _) Hid').
Qed.

(** ** Properties *)

(** A vector of the wire with counters below 2^63 survives the mark: the
    version built from it prints the same vector, its best counter is an element
    of maximal value, and [identical_to] compares exactly the printed vectors. *)
Theorem version_proto_roundtrip v :
  v ≠ [] → Forall plain v →
  ∃ cs, version_of_proto v = Ok cs ∧ as_proto cs = v ∧
    get_best cs ∈ v ∧ Forall (λ c, c_value c <= c_value (get_best cs)) v ∧
    ∀ other, identical_to cs other = true ↔ as_proto other = v.
Proof.
  intros Hne Hp. destruct (version_of_proto_marks v Hne) as (cs & c & Hcs & Hm).
  exists cs. rewrite (marked_get_best _ _ _ Hp Hm). pose proof (marked_as_proto _ _ _ Hp Hm) as Has.
  split_and!; eauto using marked_elem, marked_max.
  intros other. rewrite identical_to_as_proto, Has. split; congruence.
Qed.

Example version_proto_roundtrip_witness :
  ∃ cs, version_of_proto [Counter 1 2; Counter 7 10] = Ok cs ∧
    as_proto cs = [Counter 1 2; Counter 7 10] ∧
    get_best cs ∈ [Counter 1 2; Counter 7 10] ∧
    Forall (λ c, c_value c <= c_value (get_best cs)) [Counter 1 2; Counter 7 10] ∧
    ∀ other, identical_to cs other = true ↔ as_proto other = [Counter 1 2; Counter 7 10].
Proof.
  apply (version_proto_roundtrip [Counter 1 2; Counter 7 10]); [done|].
  repeat constructor; simpl; lia.
Defined.

(** A local update supersedes what it updates. The vector of the updated
    version, once read back from the wire, has the device's counter as its best
    one, larger than every earlier counter and not below the clock; it contains
    the old version and is not contained in it; the other devices' counters are
    untouched. *)
Theorem version_update_supersedes v cs id now :
  v ≠ [] → Forall plain v → NoDup (map c_id v) →
  Forall (λ c, c_value c + 1 < 2 ^ 63) v → 0 <= now < 2 ^ 63 →
  version_of_proto v = Ok cs →
  ∃ cs', version_of_proto (as_proto (update id now cs)) = Ok cs' ∧
    get_best cs' = Counter id (Z.max (c_value (get_best cs) + 1) now) ∧
    Forall (λ c, c_value c < c_value (get_best cs')) v ∧
    contains cs' cs = true ∧ contains cs cs' = false ∧
    ∀ id', id' ≠ id → counter_of id' (as_proto cs') = counter_of id' v.
Proof. apply update_read_back. Qed.

Example version_update_supersedes_witness :
  ∃ cs', version_of_proto (as_proto (update 1 50 [Counter 1 2; Counter 7 (10 + 2 ^ 63)])) = Ok cs' ∧
    get_best cs' = Counter 1 50 ∧
    Forall (λ c, c_value c < c_value (get_best cs')) [Counter 1 2; Counter 7 10] ∧
    contains cs' [Counter 1 2; Counter 7 (10 + 2 ^ 63)] = true ∧
    contains [Counter 1 2; Counter 7 (10 + 2 ^ 63)] cs' = false ∧
    ∀ id', id' ≠ 1 → counter_of id' (as_proto cs') = counter_of id' [Counter 1 2; Counter 7 10].
Proof.
  apply (version_update_supersedes [Counter 1 2; Counter 7 10] [Counter 1 2; Counter 7 (10 + 2 ^ 63)] 1 50);
    [done | repeat constructor; simpl; lia | | repeat constructor; simpl; lia | lia | reflexivity].
  simpl. repeat constructor; set_solver.
Defined.

(** [update] leaves the mark of the previous best counter in place, so before
    the vector has been through the wire [get_best] can still answer the old one. *)
Example update_keeps_stale_mark :
  get_best (update 1 50 [Counter 1 2; Counter 7 (10 + 2 ^ 63)]) = Counter 7 10.
Proof. vm_compute. reflexivity. Qed.

(** [get_counters] returns the marked member instead of its unmarked copy. *)
Example get_counters_marked :
  get_counters (version_of_device 7 10) ≠ as_proto (version_of_device 7 10).
Proof. vm_compute. discriminate. Qed.
