(* ===== verification/Proto.v ===== *)
(** * Proto: the messages of [src/proto/proto-fwd.hpp] the model exchanges with
    peers ([proto::]) and with the database ([db::]). *)

From S2P Require Import Prelude Version.

(** [proto::FileInfoType]. *)
Inductive FileInfoType := FILE | DIRECTORY | SYMLINK_FILE | SYMLINK_DIRECTORY | SYMLINK.

#[export] Instance FileInfoType_eq_dec : EqDecision FileInfoType.
Proof. solve_decision. Defined.

(** [proto::Compression]. *)
Inductive Compression := METADATA | NEVER | ALWAYS.

(** [db::FolderType]. *)
Inductive FolderType := send | receive | send_and_receive.

#[export] Instance FolderType_eq_dec : EqDecision FolderType.
Proof. solve_decision. Defined.

(** [db::PullOrder]. *)
Inductive PullOrder := random | alphabetic | smallest | largest | oldest | newest.

#[export] Instance PullOrder_eq_dec : EqDecision PullOrder.
Proof. solve_decision. Defined.

(** [proto::BlockInfo]. *)
Record BlockInfo := mkBlockInfo {
  pb_offset : Z;
  pb_size : Z;
  pb_hash : bytes;
}.

#[export] Instance BlockInfo_eq_dec : EqDecision BlockInfo.
Proof. solve_decision. Defined.

(** [proto::FileInfo]. *)
Record FileInfo := mkFileInfo {
  pf_name : bytes;
  pf_type : FileInfoType;
  pf_size : Z;
  pf_permissions : Z;
  pf_modified_s : Z;
  pf_modified_ns : Z;
  pf_modified_by : Z;
  pf_deleted : bool;
  pf_invalid : bool;
  pf_no_permissions : bool;
  pf_version : vector;
  pf_sequence : Z;
  pf_block_size : Z;
  pf_blocks : list BlockInfo;
  pf_symlink_target : bytes;
}.

(** [db::FileInfo]: as [proto::FileInfo], with the hashes of the blocks only. *)
Record DbFileInfo := mkDbFileInfo {
  df_name : bytes;
  df_type : FileInfoType;
  df_size : Z;
  df_permissions : Z;
  df_modified_s : Z;
  df_modified_ns : Z;
  df_modified_by : Z;
  df_deleted : bool;
  df_invalid : bool;
  df_no_permissions : bool;
  df_version : vector;
  df_sequence : Z;
  df_block_size : Z;
  df_symlink_target : bytes;
  df_blocks : list bytes;
}.

(** [proto::IndexBase]. *)
Record IndexBase := mkIndex {
  ix_folder : bytes;
  ix_files : list FileInfo;
}.

(** [db::Folder]. *)
Record DbFolder := mkDbFolder {
  do_id : bytes;
  do_label : bytes;
  do_ignore_permissions : bool;
  do_ignore_delete : bool;
  do_disable_temp_indexes : bool;
  do_paused : bool;
  do_scheduled : bool;
  do_path : bytes;
  do_folder_type : FolderType;
  do_pull_order : PullOrder;
  do_rescan_interval : Z;
  do_watched : bool;
}.

(** [db::FolderInfo]. *)
Record DbFolderInfo := mkDbFolderInfo {
  di_index_id : Z;
  di_max_sequence : Z;
  di_introducer_device_key : bytes;
}.

(** [db::BlockInfo]. *)
Record DbBlockInfo := mkDbBlockInfo { db_size : Z }.

(** [db::Device]. *)
Record DbDevice := mkDbDevice {
  dd_name : bytes;
  dd_addresses : list bytes;
  dd_compression : Compression;
  dd_cert_name : bytes;
  dd_introducer : bool;
  dd_skip_introduction_removals : bool;
  dd_auto_accept : bool;
  dd_paused : bool;
  dd_last_seen : Z;
}.

(** [proto::Device]. *)
Record PDevice := mkPDevice {
  pd_id : bytes;
  pd_name : bytes;
  pd_addresses : list bytes;
  pd_compression : Compression;
  pd_cert_name : bytes;
  pd_max_sequence : Z;
  pd_introducer : bool;
  pd_index_id : Z;
  pd_skip_introduction_removals : bool;
}.

(** [proto::Folder]. *)
Record PFolder := mkPFolder {
  pl_id : bytes;
  pl_label : bytes;
  pl_read_only : bool;
  pl_ignore_permissions : bool;
  pl_ignore_delete : bool;
  pl_disable_temp_indexes : bool;
  pl_paused : bool;
  pl_devices : list PDevice;
}.

(** [proto::ClusterConfig]. *)
Record ClusterConfig := mkClusterConfig { cc_folders : list PFolder }.

(** [db::PendingFolder], [db::SomeDevice], [db::IgnoredFolder]. *)
Record DbPendingFolder := mkDbPendingFolder {
  dp_folder : DbFolder;
  dp_folder_info : DbFolderInfo;
}.

Record DbSomeDevice := mkDbSomeDevice {
  ds_name : bytes;
  ds_client_name : bytes;
  ds_client_version : bytes;
  ds_address : bytes;
  ds_last_seen : Z;
}.

Record DbIgnoredFolder := mkDbIgnoredFolder { dg_label : bytes }.
