(* ===== verification/Blocks.v ===== *)
(** * Blocks: [src/model/misc/file_block.cpp] and [src/model/block_info.cpp].
    A block knows the places (file, index) it is used at; one place is stored
    inline ([single]), more of them in a vector ([multi]); the reference counter
    shares its word with the lock bit and the bit that tells the two apart. *)

From S2P Require Import Prelude Proto.

(** Heap addresses. *)
Abbreviation block_ptr := positive.
Abbreviation file_ptr := positive.

(** ** [file_block_t] *)

Definition FB_LOCAL_MASK : Z := Z.shiftl 1 31.
Definition FB_INDEX_MASK : Z := 2 ^ 32 - 1 - FB_LOCAL_MASK.

Record file_block := FileBlock {
  fb_block : block_ptr;
  fb_file : file_ptr;
  fb_idx : Z;
}.

#[export] Instance file_block_eq_dec : EqDecision file_block.
Proof. solve_decision. Defined.

(** [file_block_t::matches]. *)
Definition fb_matches (fb : file_block) (block : block_ptr) (file : file_ptr) : bool :=
  bool_decide (fb_block fb = block) && bool_decide (fb_file fb = file).

(** [file_block_t::mark_locally_available]. *)
Definition fb_mark_locally_available (fb : file_block) (value : bool) : file_block :=
  FileBlock (fb_block fb) (fb_file fb)
    (if value then Z.lor (fb_idx fb) FB_LOCAL_MASK else Z.land (fb_idx fb) FB_INDEX_MASK).

(** [file_block_t::is_locally_available]. *)
Definition fb_is_locally_available (fb : file_block) : bool :=
  negb (Z.land (fb_idx fb) FB_LOCAL_MASK =? 0).

(** [file_block_t::block_index]. *)
Definition fb_block_index (fb : file_block) : Z := Z.land (fb_idx fb) FB_INDEX_MASK.

(** ** [block_info_t] *)

Definition digest_length : nat := 32.
Definition LOCK_MASK : Z := Z.shiftl 1 31.
Definition SINGLE_MASK : Z := Z.shiftl 1 30.
Definition COUNTER_MASK : Z := 2 ^ 32 - 1 - Z.lor LOCK_MASK SINGLE_MASK.

(** [db::prefix::block_info]. *)
Definition prefix_block_info : Z := 23.

(** The union [file_blocks_union_t]: which member is alive. *)
Inductive file_blocks_union :=
| Single (single : file_block)
| Multi (multi : list file_block).

Record block_info := mkBlock {
  b_hash : bytes;
  b_union : file_blocks_union;
  b_size : Z;
  b_counter : Z;
}.

(** [counter & SINGLE_MASK]. *)
Definition is_single (b : block_info) : bool := negb (Z.land (b_counter b) SINGLE_MASK =? 0).

Definition set_single (counter : Z) : Z := Z.lor counter SINGLE_MASK.
Definition clear_single (counter : Z) : Z := Z.land counter (2 ^ 32 - 1 - SINGLE_MASK).

(** [block_info_t::make_strict_hash]: the hash zero-padded to [digest_length]. *)
Definition make_strict_hash (hash : bytes) : res bytes :=
  let* _ := assert (bool_decide (length hash <= digest_length)%nat) in
  Ok (hash ++ repeat 0 (digest_length - length hash)).

(** [block_info_t::create(key, db::BlockInfo)]. *)
Definition create_block_db (key : bytes) (data : DbBlockInfo) : res block_info :=
  if bool_decide (length key ≠ digest_length + 1)%nat then Err invalid_block_key_length
  else if bool_decide (head key ≠ Some prefix_block_info) then Err invalid_block_prefix
  else Ok (mkBlock (drop 1 key) (Multi []) (db_size data) 0).

(** [block_info_t::create(proto::BlockInfo)]. *)
Definition create_block (block : BlockInfo) : res block_info :=
  let h := pb_hash block in
  if bool_decide (digest_length < length h)%nat then Err invalid_block_key_length
  else Ok (mkBlock (h ++ repeat 0 (digest_length - length h)) (Multi []) (pb_size block) 0).

(** [file_blocks_iterator_t] run to the end: the places in order. A bit that
    disagrees with the live member of the union reads the wrong member. *)
Definition iterate_blocks (b : block_info) : res (list file_block) :=
  match is_single b, b_union b with
  | true, Single fb => Ok [fb]
  | false, Multi fbs => Ok fbs
  | _, _ => Ub
  end.

(** [file_blocks_iterator_t::get_total]. *)
Definition usages (b : block_info) : res nat :=
  let* fbs := iterate_blocks b in Ok (length fbs).

(** [block_info_t::local_file]: the first locally available place. *)
Definition local_file (b : block_info) : res (option file_block) :=
  let* fbs := iterate_blocks b in
  Ok (head (filter (λ fb, fb_is_locally_available fb = true) fbs)).

(** [file_block_t(block, file, index)]: available as soon as the block is
    available anywhere. *)
Definition make_file_block (block : block_ptr) (b : block_info) (file : file_ptr) (index : Z)
    : res file_block :=
  let* lf := local_file b in
  let block_idx := u32 index in
  Ok (FileBlock block file (match lf with Some _ => Z.lor block_idx FB_LOCAL_MASK | None => block_idx end)).

(** [block_info_t::as_bep]. *)
Definition as_bep (b : block_info) (offset : Z) : BlockInfo := mkBlockInfo offset (b_size b) (b_hash b).

(** [block_info_t::link]. *)
Definition link (this : block_ptr) (b : block_info) (file : file_ptr) (index : Z) : res block_info :=
  match is_single b, b_union b with
  | true, Single first =>
      let b := mkBlock (b_hash b) (Multi [first]) (b_size b) (clear_single (b_counter b)) in
      let* fb := make_file_block this b file index in
      Ok (mkBlock (b_hash b) (Multi ([first] ++ [fb])) (b_size b) (b_counter b))
  | false, Multi [] =>
      let* fb := make_file_block this b file index in
      Ok (mkBlock (b_hash b) (Single fb) (b_size b) (set_single (b_counter b)))
  | false, Multi fbs =>
      let* fb := make_file_block this b file index in
      Ok (mkBlock (b_hash b) (Multi (fbs ++ [fb])) (b_size b) (b_counter b))
  | _, _ => Ub
  end.

(** [block_info_t::unlink]: forgets every place in [file] and returns their indices. *)
Definition unlink (this : block_ptr) (b : block_info) (file : file_ptr)
    : res (block_info * list Z) :=
  let* '(b, r) :=
    match is_single b, b_union b with
    | true, Single fb =>
        if fb_matches fb this file
        then Ok (mkBlock (b_hash b) (Multi []) (b_size b) (clear_single (b_counter b)), [fb_block_index fb])
        else Ok (b, [])
    | false, Multi fbs =>
        let r := map fb_block_index (filter (λ fb, fb_matches fb this file = true) fbs) in
        match filter (λ fb, fb_matches fb this file = false) fbs with
        | [first] => Ok (mkBlock (b_hash b) (Single first) (b_size b) (set_single (b_counter b)), r)
        | fbs => Ok (mkBlock (b_hash b) (Multi fbs) (b_size b) (b_counter b), r)
        end
    | _, _ => Ub
    end in
  let* _ := assert (negb (bool_decide (r = []))) in
  Ok (b, r).

(** The loop of [mark_local_available]: the first matching place. *)
Fixpoint mark_first (this : block_ptr) (file : file_ptr) (fbs : list file_block) : list file_block :=
  match fbs with
  | [] => []
  | fb :: fbs =>
      if fb_matches fb this file then fb_mark_locally_available fb true :: fbs
      else fb :: mark_first this file fbs
  end.

(** [block_info_t::mark_local_available]. *)
Definition block_mark_local_available (this : block_ptr) (b : block_info) (file : file_ptr)
    : res block_info :=
  match is_single b, b_union b with
  | true, Single fb =>
      Ok (mkBlock (b_hash b)
            (Single (if fb_matches fb this file then fb_mark_locally_available fb true else fb))
            (b_size b) (b_counter b))
  | false, Multi fbs => Ok (mkBlock (b_hash b) (Multi (mark_first this file fbs)) (b_size b) (b_counter b))
  | _, _ => Ub
  end.

Definition set_counter (b : block_info) (counter : Z) : block_info :=
  mkBlock (b_hash b) (b_union b) (b_size b) counter.

(** [block_info_t::is_locked], [lock], [unlock]. *)
Definition is_locked (b : block_info) : bool := negb (Z.land (b_counter b) LOCK_MASK =? 0).

Definition lock (b : block_info) : res block_info :=
  let* _ := assert (negb (is_locked b)) in
  Ok (set_counter b (Z.lor (b_counter b) LOCK_MASK)).

Definition unlock (b : block_info) : res block_info :=
  let* _ := assert (is_locked b) in
  Ok (set_counter b (Z.land (b_counter b) (2 ^ 32 - 1 - LOCK_MASK))).

(** [block_info_t::refcouner_inc]. *)
Definition refcouner_inc (b : block_info) : block_info :=
  let save_bits := Z.land (Z.lor LOCK_MASK SINGLE_MASK) (b_counter b) in
  let value := u32 (Z.land COUNTER_MASK (b_counter b) + 1) in
  set_counter b (Z.lor save_bits value).

(** [block_info_t::refcouner_dec]: the new count is returned too. *)
Definition refcouner_dec (b : block_info) : block_info * Z :=
  let save_bits := Z.land (Z.lor LOCK_MASK SINGLE_MASK) (b_counter b) in
  let value := u32 (Z.land COUNTER_MASK (b_counter b) - 1) in
  (set_counter b (Z.lor save_bits value), value).

(** [block_info_t::use_count]. *)
Definition use_count (b : block_info) : Z := Z.land (b_counter b) COUNTER_MASK.
(** ** The packed counter *)

Definition is_word (c : Z) : Prop := 0 <= c < 2 ^ 32.

Lemma is_single_bit b : is_single b = Z.testbit (b_counter b) 30.
Proof. apply (mask_testbit (b_counter b) 30). lia. Qed.

Lemma is_locked_bit b : is_locked b = Z.testbit (b_counter b) 31.
Proof. apply (mask_testbit (b_counter b) 31). lia. Qed.

Lemma use_count_mod b : use_count b = b_counter b mod 2 ^ 30.
Proof. apply (Z.land_ones _ 30). lia. Qed.

Lemma flip_mask_bit n i :
  0 <= n < 32 → 0 <= i → Z.testbit (2 ^ 32 - 1 - Z.shiftl 1 n) i = (i <? 32) && negb (n =? i).
Proof.
  intros Hn Hi. assert (0 <= 2 ^ n < 2 ^ 32) by (split; [|apply Z.pow_lt_mono_r]; lia).
  by rewrite Z.shiftl_1_l, flip_bits, Z.pow2_bits_eqb by lia.
Qed.

Lemma set_mask_bit n c i : 0 <= n → Z.testbit (Z.lor c (Z.shiftl 1 n)) i = Z.testbit c i || (n =? i).
Proof. intros. by rewrite Z.lor_spec, Z.shiftl_1_l, Z.pow2_bits_eqb by lia. Qed.

Lemma set_single_spec c : is_word c →
  is_word (set_single c) ∧ Z.testbit (set_single c) 30 = true ∧
  Z.testbit (set_single c) 31 = Z.testbit c 31 ∧ set_single c mod 2 ^ 30 = c mod 2 ^ 30.
Proof.
  intros Hc. unfold set_single, SINGLE_MASK. split_and!.
  - apply bits_range; [lia|]. intros i Hi. rewrite set_mask_bit by lia.
    rewrite (testbit_high c 32) by (done || lia). destruct (Z.eqb_spec 30 i); [lia|done].
  - rewrite set_mask_bit by lia. apply orb_true_r.
  - rewrite set_mask_bit by lia. apply orb_false_r.
  - apply Z.bits_inj'. intros i Hi. destruct (decide (i < 30)).
    + rewrite !Z.mod_pow2_bits_low, set_mask_bit by lia.
      destruct (Z.eqb_spec 30 i); [lia|apply orb_false_r].
    + by rewrite !Z.mod_pow2_bits_high by lia.
Qed.

Lemma clear_single_spec c : is_word c →
  is_word (clear_single c) ∧ Z.testbit (clear_single c) 30 = false ∧
  Z.testbit (clear_single c) 31 = Z.testbit c 31 ∧ clear_single c mod 2 ^ 30 = c mod 2 ^ 30.
Proof.
  intros Hc. unfold clear_single, SINGLE_MASK.
  assert (∀ i, 0 <= i → Z.testbit (Z.land c (2 ^ 32 - 1 - Z.shiftl 1 30)) i =
    Z.testbit c i && ((i <? 32) && negb (30 =? i))) as Hb.
  { intros i Hi. by rewrite Z.land_spec, flip_mask_bit by lia. }
  split_and!.
  - apply bits_range; [lia|]. intros i Hi. rewrite Hb by lia.
    by rewrite (testbit_high c 32) by (done || lia).
  - rewrite Hb by lia. apply andb_false_r.
  - rewrite Hb by lia. apply andb_true_r.
  - apply Z.bits_inj'. intros i Hi. destruct (decide (i < 30)).
    + rewrite !Z.mod_pow2_bits_low, Hb by lia.
      destruct (Z.ltb_spec i 32), (Z.eqb_spec 30 i); try lia. apply andb_true_r.
    + by rewrite !Z.mod_pow2_bits_high by lia.
Qed.

(** The counting part of the word moves by [v] as long as it stays within its 30 bits. *)
Lemma refcouner_word c v :
  is_word c → 0 <= c mod 2 ^ 30 + v < 2 ^ 30 →
  Z.lor (Z.land (Z.lor LOCK_MASK SINGLE_MASK) c) (u32 (Z.land COUNTER_MASK c + v)) = c + v.
Proof.
  intros Hw Hv. change COUNTER_MASK with (Z.ones 30).
  rewrite (Z.land_comm (Z.ones 30)), Z.land_ones by lia. unfold u32.
  rewrite (Z.mod_small (_ + v)) by lia.
  replace (Z.land (Z.lor LOCK_MASK SINGLE_MASK) c) with (c / 2 ^ 30 * 2 ^ 30).
  - rewrite lor_disjoint by lia. pose proof (Z.div_mod c (2 ^ 30)). lia.
  - change (Z.lor LOCK_MASK SINGLE_MASK) with (Z.shiftl (Z.ones 2) 30).
    apply Z.bits_inj'. intros i Hi.
    rewrite Z.land_spec, Z.shiftl_spec, Z.mul_pow2_bits by lia. destruct (decide (i < 30)).
    + by rewrite !(Z.testbit_neg_r _ (i - 30)) by lia.
    + rewrite Z.div_pow2_bits by lia. replace (i - 30 + 30) with i by lia.
      destruct (decide (i < 32)); [by rewrite Z.ones_spec_low by lia|].
      rewrite Z.ones_spec_high, (testbit_high c 32) by (done || lia). done.
Qed.

Lemma high_bits_eq c d i : c / 2 ^ 30 = d / 2 ^ 30 → 30 <= i → Z.testbit c i = Z.testbit d i.
Proof.
  intros H Hi. replace i with (i - 30 + 30) by lia.
  rewrite <- !Z.div_pow2_bits by lia. by rewrite H.
Qed.

(** ** The union and its invariant *)

(** The places a block is used at, whichever member of the union is alive. *)
Definition places (b : block_info) : list file_block :=
  match b_union b with Single fb => [fb] | Multi fbs => fbs end.

(** What the code keeps true of a block [b] at the address [this]: the [single]
    bit tells which member of the union is alive, a single place is never kept in the
    vector, and every place names the block itself and a 32-bit index. *)
Definition wf_place (this : block_ptr) (fb : file_block) : Prop :=
  fb_block fb = this ∧ is_word (fb_idx fb).

Record wf_block (this : block_ptr) (b : block_info) : Prop := {
  wf_counter : is_word (b_counter b);
  wf_bit : is_single b = true ↔ length (places b) = 1%nat;
  wf_union : match b_union b with Single _ => True | Multi fbs => length fbs ≠ 1%nat end;
  wf_places : Forall (wf_place this) (places b);
}.

(** What [link] and [unlink] leave alone. *)
Definition same_block (b b' : block_info) : Prop :=
  b_hash b' = b_hash b ∧ b_size b' = b_size b ∧
  use_count b' = use_count b ∧ is_locked b' = is_locked b.

Lemma wf_single this b fb :
  wf_block this b → b_union b = Single fb → is_single b = true.
Proof. intros H E. apply (wf_bit _ _ H). unfold places. by rewrite E. Qed.

Lemma wf_multi this b fbs :
  wf_block this b → b_union b = Multi fbs → is_single b = false.
Proof.
  intros H E. pose proof (wf_union _ _ H) as Hu. rewrite E in Hu.
  pose proof (wf_bit _ _ H) as Hb. unfold places in Hb. rewrite E in Hb.
  destruct (is_single b); [|done]. destruct Hu. by apply Hb.
Qed.

Lemma iterate_blocks_places this b : wf_block this b → iterate_blocks b = Ok (places b).
Proof.
  intros H. unfold iterate_blocks, places. destruct (b_union b) eqn:E.
  - by rewrite (wf_single _ _ _ H E).
  - by rewrite (wf_multi _ _ _ H E).
Qed.

(** Is the block available anywhere? *)
Definition available (b : block_info) : bool := existsb fb_is_locally_available (places b).

(** The place [link] makes. *)
Definition linked_place (this : block_ptr) (b : block_info) (file : file_ptr) (index : Z) : file_block :=
  FileBlock this file (if available b then Z.lor (u32 index) FB_LOCAL_MASK else u32 index).

Lemma head_filter_existsb {A} (f : A → bool) (l : list A) :
  match head (filter (λ x, f x = true) l) with Some _ => true | None => false end = existsb f l.
Proof.
  induction l as [|x l IH]; [done|]. rewrite filter_cons. simpl.
  destruct (decide (f x = true)) as [Hx|Hx]; [by rewrite Hx|].
  apply not_true_is_false in Hx. by rewrite Hx, IH.
Qed.

Lemma make_file_block_spec this b file index places_b :
  iterate_blocks b = Ok places_b → places b = places_b →
  make_file_block this b file index = Ok (linked_place this b file index).
Proof.
  intros Hi Hp. unfold make_file_block, local_file, linked_place, available.
  rewrite Hi, Hp. cbn [res_bind]. rewrite <- head_filter_existsb.
  by destruct (head _).
Qed.

Lemma linked_place_wf this b file index : wf_place this (linked_place this b file index).
Proof.
  split; [done|]. unfold linked_place; simpl.
  assert (is_word (u32 index)) as Hu by (apply Z.mod_pos_bound; lia).
  destruct (available b); [|done].
  apply bits_range; [lia|]. intros i Hi. unfold FB_LOCAL_MASK. rewrite set_mask_bit by lia.
  rewrite (testbit_high (u32 index) 32) by (done || lia). destruct (Z.eqb_spec 31 i); [lia|done].
Qed.

Lemma linked_place_bits this b file index :
  0 <= index < 2 ^ 31 →
  fb_block_index (linked_place this b file index) = index ∧
  fb_is_locally_available (linked_place this b file index) = available b.
Proof.
  intros Hi. unfold linked_place, fb_block_index, fb_is_locally_available; cbn [fb_idx].
  unfold u32. rewrite Z.mod_small by lia. split.
  - apply Z.bits_inj'. intros i Hi0. rewrite Z.land_spec. unfold FB_INDEX_MASK, FB_LOCAL_MASK.
    rewrite flip_mask_bit by lia. destruct (decide (i < 31)) as [Hlt|Hge].
    + destruct (Z.ltb_spec i 32), (Z.eqb_spec 31 i); try lia.
      destruct (available b); rewrite ?set_mask_bit by lia.
      * destruct (Z.eqb_spec 31 i); [lia|]. by rewrite orb_false_r, andb_true_r.
      * apply andb_true_r.
    + rewrite (testbit_high index 31) by lia.
      destruct (Z.ltb_spec i 32), (Z.eqb_spec 31 i); try lia; apply andb_false_r.
  - rewrite (mask_testbit _ 31) by lia. destruct (available b).
    + unfold FB_LOCAL_MASK. rewrite set_mask_bit by lia. apply orb_true_r.
    + by apply (testbit_high index 31).
Qed.

(** Rebuilding a block around another list of places, with the [single] bit set to match. *)
Definition with_places (b : block_info) (fbs : list file_block) : block_info :=
  match fbs with
  | [fb] => mkBlock (b_hash b) (Single fb) (b_size b) (set_single (b_counter b))
  | _ => mkBlock (b_hash b) (Multi fbs) (b_size b) (clear_single (b_counter b))
  end.

Lemma with_places_spec this b fbs :
  is_word (b_counter b) → Forall (wf_place this) fbs →
  wf_block this (with_places b fbs) ∧ places (with_places b fbs) = fbs ∧
  same_block b (with_places b fbs).
Proof.
  intros Hc Hfbs. unfold same_block.
  destruct (set_single_spec _ Hc) as (Sw & S30 & S31 & Sm).
  destruct (clear_single_spec _ Hc) as (Cw & C30 & C31 & Cm).
  destruct fbs as [|fb [|fb2 fbs]]; cbn [with_places b_hash b_size]; rewrite !is_locked_bit, !use_count_mod;
    split_and!; try done; constructor; rewrite ?is_single_bit;
    cbn [b_counter places b_union length]; rewrite ?S30, ?C30; try done; split; (done || lia).
Qed.

Lemma set_single_same c : Z.testbit c 30 = true → set_single c = c.
Proof.
  intros H. apply Z.bits_inj'. intros i Hi. unfold set_single, SINGLE_MASK.
  rewrite set_mask_bit by lia. destruct (Z.eqb_spec 30 i); [subst; by rewrite H|apply orb_false_r].
Qed.

Lemma clear_single_same c : is_word c → Z.testbit c 30 = false → clear_single c = c.
Proof.
  intros Hc H. apply Z.bits_inj'. intros i Hi. unfold clear_single, SINGLE_MASK.
  rewrite Z.land_spec, flip_mask_bit by lia. destruct (Z.eqb_spec 30 i); [subst; by rewrite H|].
  destruct (Z.ltb_spec i 32); simpl; [apply andb_true_r|].
  by rewrite (testbit_high c 32) by (done || lia).
Qed.

Lemma with_places_twice b l1 l2 :
  is_word (b_counter b) → with_places (with_places b l1) l2 = with_places b l2.
Proof.
  intros Hw.
  assert (∀ c, (c = set_single (b_counter b) ∨ c = clear_single (b_counter b)) →
    set_single c = set_single (b_counter b) ∧ clear_single c = clear_single (b_counter b)) as Hs.
  { intros c Hc. split; apply Z.bits_inj'; intros i Hi; destruct Hc as [-> | ->];
      unfold set_single, clear_single, SINGLE_MASK;
      rewrite ?set_mask_bit, ?Z.land_spec, ?set_mask_bit, ?Z.land_spec, ?flip_mask_bit by lia;
      destruct (Z.eqb_spec 30 i), (Z.ltb_spec i 32); try lia;
      rewrite ?(testbit_high (b_counter b) 32 i) by (done || lia);
      by destruct (Z.testbit (b_counter b) i). }
  unfold with_places. destruct l1 as [|? [|]], l2 as [|? [|]]; cbn [b_hash b_size b_counter];
    f_equal; apply Hs; auto.
Qed.

(** A well-formed block is determined by its places. *)
Lemma with_places_same this b : wf_block this b → with_places b (places b) = b.
Proof.
  intros H. pose proof (wf_union _ _ H) as Hu. unfold places.
  destruct (b_union b) as [fb|fbs] eqn:E; simpl.
  - pose proof (wf_single _ _ _ H E) as Hb. rewrite is_single_bit in Hb.
    rewrite set_single_same by done. destruct b; simpl in *; by subst.
  - pose proof (wf_multi _ _ _ H E) as Hb. rewrite is_single_bit in Hb.
    unfold with_places. rewrite clear_single_same by (done || apply (wf_counter _ _ H)).
    destruct fbs as [|fb [|]]; destruct b; simpl in *; by subst.
Qed.

Lemma link_eq this b file index :
  wf_block this b →
  link this b file index = Ok (with_places b (places b ++ [linked_place this b file index])).
Proof.
  intros H. pose proof (iterate_blocks_places _ _ H) as Hi.
  pose proof (wf_counter _ _ H) as Hc.
  unfold link. unfold linked_place, available, places in *.
  destruct (b_union b) as [fb|fbs] eqn:E.
  - pose proof (wf_single _ _ _ H E) as Hb. rewrite Hb.
    rewrite (make_file_block_spec _ _ _ _ [fb]); [done| |done].
    unfold iterate_blocks. rewrite is_single_bit. cbn [b_counter b_union].
    destruct (clear_single_spec _ Hc) as (_ & C30 & _). by rewrite C30.
  - pose proof (wf_multi _ _ _ H E) as Hb. rewrite Hb.
    pose proof Hb as Hb'. rewrite is_single_bit in Hb'.
    pose proof (wf_union _ _ H) as Hu. rewrite E in Hu.
    destruct fbs as [|fb [|fb2 fbs]]; [| by destruct Hu |];
      rewrite (make_file_block_spec _ _ _ _ _ Hi) by (unfold places; by rewrite E);
      cbn [res_bind]; unfold linked_place, available, places; rewrite E; cbn [with_places app];
      [done|by rewrite clear_single_same].
Qed.

Lemma fb_matches_this this fb file :
  fb_block fb = this → fb_matches fb this file = bool_decide (fb_file fb = file).
Proof. intros <-. unfold fb_matches. by rewrite bool_decide_eq_true_2 by done. Qed.

(** The places of a block in one file, and those elsewhere. *)
Definition places_in (file : file_ptr) (b : block_info) : list file_block :=
  filter (λ fb, fb_file fb = file) (places b).

Definition places_out (file : file_ptr) (b : block_info) : list file_block :=
  filter (λ fb, fb_file fb ≠ file) (places b).

Lemma filter_matches this file fbs (v : bool) :
  Forall (wf_place this) fbs →
  filter (λ fb, fb_matches fb this file = v) fbs =
  filter (λ fb, bool_decide (fb_file fb = file) = v) fbs.
Proof.
  intros H. apply filter_ext. eapply Forall_impl; [exact H|].
  intros fb [Hb _]. by rewrite fb_matches_this.
Qed.

Lemma filter_in this file b :
  Forall (wf_place this) (places b) →
  filter (λ fb, fb_matches fb this file = true) (places b) = places_in file b.
Proof.
  intros H. rewrite filter_matches by done. apply filter_ext, Forall_forall.
  intros fb _. by rewrite bool_decide_eq_true.
Qed.

Lemma filter_out this file b :
  Forall (wf_place this) (places b) →
  filter (λ fb, fb_matches fb this file = false) (places b) = places_out file b.
Proof.
  intros H. rewrite filter_matches by done. apply filter_ext, Forall_forall.
  intros fb _. by rewrite bool_decide_eq_false.
Qed.

Lemma unlink_eq this b file :
  wf_block this b →
  unlink this b file =
    match places_in file b with
    | [] => Ub
    | fbs => Ok (with_places b (places_out file b), map fb_block_index fbs)
    end.
Proof.
  intros H. pose proof (wf_places _ _ H) as Hp. pose proof (wf_counter _ _ H) as Hc.
  pose proof (filter_in this file b Hp) as Hin. pose proof (filter_out this file b Hp) as Hout.
  unfold unlink. unfold places in Hin, Hout, Hp.
  destruct (b_union b) as [fb|fbs] eqn:E.
  - rewrite (wf_single _ _ _ H E). rewrite filter_cons, filter_nil in Hin, Hout.
    rewrite <- Hin, <- Hout. destruct (fb_matches fb this file); done.
  - pose proof (wf_multi _ _ _ H E) as Hb. rewrite Hb. rewrite is_single_bit in Hb.
    rewrite Hin, Hout. destruct (places_in file b) eqn:Ein.
    + destruct (places_out file b) as [|? [|]]; done.
    + destruct (places_out file b) as [|? [|]]; cbn [res_bind with_places]; rewrite ?clear_single_same by done; done.
Qed.

Lemma places_out_wf this file b : wf_block this b → Forall (wf_place this) (places_out file b).
Proof. intros H. apply Forall_filter, (wf_places _ _ H). Qed.

(** ** Properties *)

(** [link] never misreads the union: on a well-formed block it appends exactly
    one place for the given file and index (available as soon as the block is available in
    any other place), keeps every earlier place in order, and leaves the hash, size,
    reference count and lock untouched; the result is well-formed again. *)
Theorem link_appends_place this b file index :
  wf_block this b → 0 <= index < 2 ^ 31 →
  ∃ b' fb, link this b file index = Ok b' ∧ wf_block this b' ∧ same_block b b' ∧
    places b' = places b ++ [fb] ∧ fb_file fb = file ∧ fb_block_index fb = index ∧
    fb_is_locally_available fb = available b.
Proof.
  intros H Hi. eexists _, _. split; [by apply link_eq|].
  destruct (with_places_spec this b (places b ++ [linked_place this b file index])) as (W & P & S).
  { apply (wf_counter _ _ H). }
  { apply Forall_app_2; [apply (wf_places _ _ H)|]. constructor; [apply linked_place_wf|done]. }
  destruct (linked_place_bits this b file index Hi). by rewrite P.
Qed.

(** A block used once, at index 7 of file 3, marked as available there. *)
Definition sample_block : block_info :=
  mkBlock (repeat 1 32) (Single (FileBlock 5 3 (2 ^ 31 + 7))) 1024 (2 ^ 30 + 1).

Lemma sample_block_wf : wf_block 5 sample_block.
Proof. constructor; [by split|done|done|]. constructor; [|constructor]. by split. Qed.

Example link_appends_place_witness :
  ∃ b' fb, link 5 sample_block 4 2 = Ok b' ∧ wf_block 5 b' ∧ same_block sample_block b' ∧
    places b' = places sample_block ++ [fb] ∧ fb_file fb = 4%positive ∧ fb_block_index fb = 2 ∧
    fb_is_locally_available fb = available sample_block.
Proof. apply (link_appends_place 5 sample_block 4 2 sample_block_wf). lia. Defined.

(** [unlink] forgets exactly the places of the given file and returns their indices, in
    order; the places in other files, the hash, size, count and lock stay, and the result is
    well-formed again (the vector collapses to the inline place when one is left). A block
    that has no place in the file trips the assertion, and only then. *)
Theorem unlink_forgets_file this b file :
  wf_block this b →
  (places_in file b = [] → unlink this b file = Ub) ∧
  (places_in file b ≠ [] →
   ∃ b', unlink this b file = Ok (b', map fb_block_index (places_in file b)) ∧
     wf_block this b' ∧ same_block b b' ∧ places b' = places_out file b).
Proof.
  intros H. rewrite unlink_eq by done. split; intros Hin; [by rewrite Hin|].
  destruct (with_places_spec this b (places_out file b)) as (W & P & S).
  { apply (wf_counter _ _ H). } { by apply places_out_wf. }
  destruct (places_in file b); [done|]. eauto.
Qed.

Example unlink_forgets_file_witness :
  ∃ b', unlink 5 sample_block 3 = Ok (b', [7]) ∧
     wf_block 5 b' ∧ same_block sample_block b' ∧ places b' = [].
Proof. refine (proj2 (unlink_forgets_file 5 sample_block 3 sample_block_wf) _). done. Defined.

(** Linking a block into a file that does not use it and unlinking the file again
    gives the block back, unchanged. *)
Theorem link_unlink_roundtrip this b file index :
  wf_block this b → 0 <= index < 2 ^ 31 → places_in file b = [] →
  (let* b' := link this b file index in unlink this b' file) = Ok (b, [index]).
Proof.
  intros H Hi Hin. rewrite link_eq by done. cbn [res_bind].
  set (fb := linked_place this b file index).
  destruct (with_places_spec this b (places b ++ [fb])) as (W & P & S).
  { apply (wf_counter _ _ H). }
  { apply Forall_app_2; [apply (wf_places _ _ H)|]. constructor; [apply linked_place_wf|done]. }
  rewrite unlink_eq by done. unfold places_in, places_out in *. rewrite P, !filter_app, Hin.
  rewrite (filter_all (λ fb, fb_file fb ≠ file)).
  2: { apply Forall_forall. intros x Hx Hf. by apply (filter_nil_not_elem_of _ _ x Hin Hf). }
  rewrite filter_cons_True, filter_cons_False, !filter_nil by (unfold fb; simpl; tauto).
  cbn [app map]. rewrite app_nil_r, with_places_twice, (with_places_same this) by (done || apply (wf_counter _ _ H)).
  destruct (linked_place_bits this b file index Hi) as [Hidx _]. unfold fb. by rewrite Hidx.
Qed.

Example link_unlink_roundtrip_witness :
  (let* b' := link 5 sample_block 4 2 in unlink 5 b' 4) = Ok (sample_block, [2]).
Proof. apply (link_unlink_roundtrip 5 sample_block 4 2 sample_block_wf); [lia|done]. Defined.

(** The reference count shares a word with the lock and the [single] bit: as long as
    fewer than [2^30 - 1] references are held, taking one adds exactly one to the count,
    dropping it gives the word back, and neither touches the two bits. *)
Theorem refcount_packed b :
  is_word (b_counter b) → use_count b < 2 ^ 30 - 1 →
  use_count (refcouner_inc b) = use_count b + 1 ∧
  is_locked (refcouner_inc b) = is_locked b ∧ is_single (refcouner_inc b) = is_single b ∧
  refcouner_dec (refcouner_inc b) = (b, use_count b).
Proof.
  intros Hw Hc. rewrite use_count_mod in Hc. set (c := b_counter b) in *.
  pose proof (Z.mod_pos_bound c (2 ^ 30)) as Hm. pose proof (Z.div_mod c (2 ^ 30)) as Hdm.
  assert ((c + 1) / 2 ^ 30 = c / 2 ^ 30) as Hq.
  { symmetry. apply (Z.div_unique _ _ _ (c mod 2 ^ 30 + 1)); lia. }
  assert ((c + 1) mod 2 ^ 30 = c mod 2 ^ 30 + 1) as Hr.
  { symmetry. apply (Z.mod_unique _ _ (c / 2 ^ 30)); lia. }
  assert (refcouner_inc b = set_counter b (c + 1)) as ->.
  { unfold refcouner_inc. fold c. by rewrite refcouner_word by (done || lia). }
  rewrite !use_count_mod, !is_locked_bit, !is_single_bit. cbn [set_counter b_counter].
  fold c. split_and!; [done|by apply high_bits_eq|by apply high_bits_eq|].
  unfold refcouner_dec. cbn [set_counter b_counter].
  fold c. rewrite <- (Z.add_opp_r _ 1), refcouner_word.
  - replace (c + 1 + - (1)) with c by lia. change COUNTER_MASK with (Z.ones 30).
    rewrite Z.land_comm, Z.land_ones, Hr by lia. unfold u32.
    replace (c mod 2 ^ 30 + 1 + - (1)) with (c mod 2 ^ 30) by lia.
    rewrite (Z.mod_small _ (2 ^ 32)) by lia. by destruct b.
  - split; [unfold is_word in Hw; lia|].
    pose proof (Z.div_le_upper_bound c (2 ^ 30) 4).
    unfold is_word in Hw.
    assert (c / 2 ^ 30 < 4) by (apply Z.div_lt_upper_bound; lia). lia.
  - lia.
Qed.

Example refcount_packed_witness :
  use_count (refcouner_inc sample_block) = 2 ∧
  is_locked (refcouner_inc sample_block) = false ∧ is_single (refcouner_inc sample_block) = true ∧
  refcouner_dec (refcouner_inc sample_block) = (sample_block, 1).
Proof. apply (refcount_packed sample_block); [by split|done]. Defined.
