(* ===== verification/FileInfo.v ===== *)
(** * FileInfo: [src/model/file_info.cpp]. A file, its metadata and the array of
    its blocks. A slot of the array holds the address of a block and, in the low bit of
    that address, whether the block is on the disk of this device; the block holds the way back
    (see Blocks). The operations change the file and the heap of blocks together. *)

From S2P Require Import Prelude Version Proto Blocks.

(** ** Data *)

(** [file_info_t::flags_t]. *)
Definition f_type_file : Z := Z.shiftl 1 0.
Definition f_type_dir : Z := Z.shiftl 1 1.
Definition f_type_link : Z := Z.shiftl 1 2.
Definition f_deleted : Z := Z.shiftl 1 3.
Definition f_invalid : Z := Z.shiftl 1 4.
Definition f_no_permissions : Z := Z.shiftl 1 5.
Definition f_synchronizing : Z := Z.shiftl 1 6.
Definition f_unreachable : Z := Z.shiftl 1 7.
Definition f_local : Z := Z.shiftl 1 8.
Definition f_available : Z := Z.shiftl 1 9.

(** [flags & f], [flags | f] and [flags & ~f] on [std::uint16_t]. *)
Definition has_flag (flags f : Z) : bool := negb (Z.land flags f =? 0).
Definition set_flag (flags f : Z) : Z := Z.lor flags f.
Definition clear_flag (flags f : Z) : Z := Z.land flags (2 ^ 16 - 1 - f).

(** The six flags that come from the wire: [0b111111]. *)
Definition WIRE_FLAGS : Z := 63.

(** [nullptr], or a block with its [LOCAL_MASK] bit. *)
Abbreviation slot := (option (block_ptr * bool)).

Definition slot_local (s : slot) : bool := match s with Some (_, l) => l | None => false end.
Definition slot_block (s : slot) : option block_ptr := fst <$> s.

(** The union [content_t]: which member is alive. *)
Inductive content :=
| FileContent (blocks : list slot)
| NonFile (symlink_target : bytes).

Record file_info := mkFile {
  f_key : bytes;
  f_name : bytes;
  f_modified_s : Z;
  f_modified_by : Z;
  f_sequence : Z;
  f_permissions : Z;
  f_modified_ns : Z;
  f_content : content;
  f_version : version;
  f_flags : Z;
}.

Definition with_flags (f : file_info) (flags : Z) : file_info :=
  mkFile (f_key f) (f_name f) (f_modified_s f) (f_modified_by f) (f_sequence f)
    (f_permissions f) (f_modified_ns f) (f_content f) (f_version f) flags.

Definition with_content (f : file_info) (c : content) : file_info :=
  mkFile (f_key f) (f_name f) (f_modified_s f) (f_modified_by f) (f_sequence f)
    (f_permissions f) (f_modified_ns f) c (f_version f) (f_flags f).

(** The blocks that are alive, by address. *)
Abbreviation heap := (gmap block_ptr block_info).

Definition deref (h : heap) (p : block_ptr) : res block_info :=
  match h !! p with Some b => Ok b | None => Ub end.

Definition deref_slot (h : heap) (s : slot) : res block_info :=
  match s with Some (p, _) => deref h p | None => Ub end.

(** [content.file.blocks] and [content.non_file.symlink_target]: a read of the member
    that is not alive is undefined. *)
Definition file_blocks (f : file_info) : res (list slot) :=
  match f_content f with FileContent bs => Ok bs | NonFile _ => Ub end.

Definition symlink_target (f : file_info) : res bytes :=
  match f_content f with NonFile t => Ok t | FileContent _ => Ub end.

(** [compact_vector_t::resize]. *)
Definition resize_slots (n : nat) (bs : list slot) : list slot :=
  take n bs ++ repeat None (n - length bs).

(** [intrusive_ptr_add_ref] and [intrusive_ptr_release] on a block. *)
Definition add_ref (h : heap) (p : block_ptr) : res heap :=
  let* b := deref h p in Ok (<[p := refcouner_inc b]> h).

Definition release (h : heap) (p : block_ptr) : res heap :=
  let* b := deref h p in
  let '(b, value) := refcouner_dec b in
  if value =? 0 then Ok (delete p h) else Ok (<[p := b]> h).

(** ** Keys and construction *)

Definition uuid_length : nat := 16.
Definition data_length : nat := 32.

(** [db::prefix::file_info]. *)
Definition prefix_file_info : Z := 19.

(** [file_info_t::decompose_key]. *)
Definition decompose_key (key : bytes) : res (bytes * bytes) :=
  let* _ := assert (length key =? data_length + 1)%nat in
  Ok (take uuid_length (drop 1 key), drop (1 + uuid_length) key).

(** [fill] and [file_info_t::create_key]: the folder info's uuid, then the file's. *)
Definition create_key (uuid fi_uuid : bytes) : bytes := fi_uuid ++ uuid.

(** [file_info_t::get_uuid], [get_full_id], [get_folder_uuid]. *)
Definition get_uuid (f : file_info) : bytes := drop uuid_length (f_key f).
Definition get_full_id (f : file_info) : bytes := f_key f.
Definition get_folder_uuid (f : file_info) : bytes := take uuid_length (f_key f).

(** [file_info_t::as_flags] and [as_type]. *)
Definition as_flags (type : FileInfoType) : Z :=
  match type with
  | DIRECTORY => f_type_dir
  | SYMLINK => f_type_link
  | _ => f_type_file
  end.

Definition as_type (flags : Z) : FileInfoType :=
  if has_flag flags f_type_dir then DIRECTORY
  else if has_flag flags f_type_link then SYMLINK
  else FILE.

Definition is_file (f : file_info) : bool := has_flag (f_flags f) f_type_file.
Definition is_dir (f : file_info) : bool := has_flag (f_flags f) f_type_dir.
Definition is_link (f : file_info) : bool := has_flag (f_flags f) f_type_link.
Definition is_deleted (f : file_info) : bool := has_flag (f_flags f) f_deleted.
Definition is_invalid (f : file_info) : bool := has_flag (f_flags f) f_invalid.
Definition is_unreachable (f : file_info) : bool := has_flag (f_flags f) f_unreachable.
Definition is_local (f : file_info) : bool := has_flag (f_flags f) f_local.
Definition has_no_permissions (f : file_info) : bool := has_flag (f_flags f) f_no_permissions.

(** [file_info_t::get_type]. *)
Definition get_type (f : file_info) : Z := Z.land (f_flags f) 7.

(** The flag assignments shared by the two [fields_update]. *)
Definition wire_flags (flags : Z) (type : FileInfoType) (deleted invalid no_permissions : bool) : Z :=
  let flags := Z.lor (clear_flag flags WIRE_FLAGS) (as_flags type) in
  let flags := if deleted then set_flag flags f_deleted else flags in
  let flags := if invalid then set_flag flags f_invalid else flags in
  if no_permissions then set_flag flags f_no_permissions else flags.

(** A file as its constructors leave it: the key is set, the flags are 0 and no member of
    the content is alive yet; the rest is assigned by [fields_update]. *)
Definition blank_file (key : bytes) : file_info :=
  mkFile key [] 0 0 0 0 0 (NonFile []) [] 0.

(** ** Blocks of a file *)

(** The loop over the indices that [unlink] returned: the slot is cleared, the
    reference of the slot is dropped. *)
Fixpoint clear_slots (block : block_ptr) (indices : list Z) (bs : list slot) (h : heap)
    : res (list slot * heap) :=
  match indices with
  | [] => Ok (bs, h)
  | i :: indices =>
      let* _ := assert (Z.to_nat i <? length bs)%nat in
      let bs := <[Z.to_nat i := None]> bs in
      let* h := release h block in
      clear_slots block indices bs h
  end.

(** [file_info_t::remove_block]. *)
Definition remove_block (this : file_ptr) (f : file_info) (h : heap) (block : option block_ptr)
    : res (file_info * heap) :=
  let* _ := assert (is_file f) in
  match block with
  | None => Ok (f, h)
  | Some p =>
      let* b := deref h p in
      let* '(b, indices) := unlink p b this in
      let* bs := file_blocks f in
      let* '(bs, h) := clear_slots p indices bs (<[p := b]> h) in
      Ok (with_content f (FileContent bs), h)
  end.

(** The loop of [remove_blocks]: slots [i], [i + 1], ... of [todo] are left. *)
Fixpoint remove_blocks_loop (this : file_ptr) (todo i : nat) (f : file_info) (h : heap)
    : res (file_info * heap) :=
  match todo with
  | O => Ok (f, h)
  | S todo =>
      let* bs := file_blocks f in
      let block := match bs !! i with Some s => slot_block s | None => None end in
      let* '(f, h) := remove_block this f h block in
      remove_blocks_loop this todo (S i) f h
  end.

(** [file_info_t::remove_blocks]. *)
Definition remove_blocks (this : file_ptr) (f : file_info) (h : heap) : res (file_info * heap) :=
  if is_file f then
    let* bs := file_blocks f in
    let* '(f, h) := remove_blocks_loop this (length bs) 0 f h in
    Ok (with_flags f (clear_flag (f_flags f) f_available), h)
  else Ok (f, h).

(** [file_info_t::reserve_blocks]. *)
Definition reserve_blocks (this : file_ptr) (f : file_info) (h : heap) (block_count : nat)
    : res (file_info * heap) :=
  let* '(f, h) := remove_blocks this f h in
  let* bs := file_blocks f in
  Ok (with_content f (FileContent (resize_slots block_count bs)), h).

(** [file_info_t::assign_block]. *)
Definition assign_block (this : file_ptr) (f : file_info) (h : heap) (block : block_ptr) (index : nat)
    : res (file_info * heap) :=
  let* bs := file_blocks f in
  let* _ := assert (is_file f) in
  let* _ := assert (index <? length bs)%nat in
  let* _ := assert (bool_decide (bs !! index = Some None)) in
  let f := with_content f (FileContent (<[index := Some (block, false)]> bs)) in
  let* h := add_ref h block in
  let* b := deref h block in
  let* b := link block b this (Z.of_nat index) in
  Ok (f, <[block := b]> h).

(** [file_info_t::~file_info_t]: the block to release is read back from the slot. *)
Fixpoint destroy_slots (indices : list Z) (bs : list slot) (h : heap) : res (list slot * heap) :=
  match indices with
  | [] => Ok (bs, h)
  | i :: indices =>
      match bs !! Z.to_nat i with
      | Some (Some (p, _)) =>
          let* h := release h p in
          destroy_slots indices (<[Z.to_nat i := None]> bs) h
      | _ => Ub
      end
  end.

Fixpoint destroy_loop (this : file_ptr) (todo i : nat) (bs : list slot) (h : heap)
    : res (list slot * heap) :=
  match todo with
  | O => Ok (bs, h)
  | S todo =>
      match bs !! i with
      | Some (Some (p, _)) =>
          let* b := deref h p in
          let* '(b, indices) := unlink p b this in
          let* '(bs, h) := destroy_slots indices bs (<[p := b]> h) in
          destroy_loop this todo (S i) bs h
      | _ => destroy_loop this todo (S i) bs h
      end
  end.

Definition destroy_file (this : file_ptr) (f : file_info) (h : heap) : res heap :=
  if is_file f then
    let* bs := file_blocks f in
    let* '(_, h) := destroy_loop this (length bs) 0 bs h in Ok h
  else Ok h.

(** ** Fields *)

(** The content part of [fields_update]: a file gets as many empty slots as the message
    has blocks, unless it declares no size; anything else gets the link target. *)
Definition content_update (this : file_ptr) (f : file_info) (h : heap)
    (declared_size : Z) (block_count : nat) (link : bytes) : res (file_info * heap) :=
  if is_file f then
    let f := with_content f (FileContent []) in
    let blocks_count := if negb (declared_size =? 0) && is_file f then block_count else 0%nat in
    if bool_decide (blocks_count ≠ 0%nat) then reserve_blocks this f h blocks_count else Ok (f, h)
  else Ok (with_content f (NonFile link), h).

(** [file_info_t::fields_update(const db::FileInfo &, ...)]; the assertion on the name is
    that of [path_cache_t::get_path]. *)
Definition fields_update_db (this : file_ptr) (f : file_info) (h : heap) (source : DbFileInfo)
    : res (file_info * heap) :=
  let flags := wire_flags (f_flags f) (df_type source) (df_deleted source) (df_invalid source)
                 (df_no_permissions source) in
  let* _ := assert (negb (bool_decide (df_name source = []))) in
  let* version := version_of_proto (df_version source) in
  let f := mkFile (f_key f) (df_name source) (df_modified_s source) (df_modified_by source)
             (df_sequence source) (df_permissions source) (u32 (df_modified_ns source))
             (f_content f) version flags in
  content_update this f h (df_size source) (length (df_blocks source)) (df_symlink_target source).

(** [file_info_t::fields_update(const proto::FileInfo &, ...)]. *)
Definition fields_update (this : file_ptr) (f : file_info) (h : heap) (source : FileInfo)
    : res (file_info * heap) :=
  let flags := wire_flags (f_flags f) (pf_type source) (pf_deleted source) (pf_invalid source)
                 (pf_no_permissions source) in
  let* _ := assert (negb (bool_decide (pf_name source = []))) in
  let* version := version_of_proto (pf_version source) in
  let f := mkFile (f_key f) (pf_name source) (pf_modified_s source) (pf_modified_by source)
             (pf_sequence source) (pf_permissions source) (u32 (pf_modified_ns source))
             (f_content f) version flags in
  content_update this f h (pf_size source) (length (pf_blocks source)) (pf_symlink_target source).

(** [file_info_t::create(key, db::FileInfo, folder_info)]; [fi_uuid] is
    [folder_info->get_uuid()]. *)
Definition create_file_db (this : file_ptr) (key : bytes) (data : DbFileInfo) (fi_uuid : bytes) (h : heap)
    : res (file_info * heap) :=
  if negb (length key =? data_length + 1)%nat then Err invalid_file_info_key_length
  else if bool_decide (head key ≠ Some prefix_file_info) then Err invalid_file_info_prefix
  else
    let uuid_from_key := drop 1 key in
    let* _ := assert (bool_decide (take uuid_length uuid_from_key = fi_uuid)) in
    fields_update_db this (blank_file uuid_from_key) h data.

(** [file_info_t::create(uuid, proto::FileInfo, folder_info)]. *)
Definition create_file (this : file_ptr) (uuid : bytes) (info : FileInfo) (fi_uuid : bytes) (h : heap)
    : res (file_info * heap) :=
  fields_update this (blank_file (create_key uuid fi_uuid)) h info.

(** [file_info_t::set_sequence]. *)
Definition set_sequence (f : file_info) (value : Z) : file_info :=
  mkFile (f_key f) (f_name f) (f_modified_s f) (f_modified_by f) value
    (f_permissions f) (f_modified_ns f) (f_content f) (f_version f) (f_flags f).

(** ** Sizes *)

(** [file_info_t::get_block_size]. *)
Definition get_block_size (f : file_info) (h : heap) : res Z :=
  if is_file f then
    let* bs := file_blocks f in
    match bs with
    | [] => Ok 0
    | front :: _ => let* b := deref_slot h front in Ok (i32 (u32 (b_size b)))
    end
  else Ok 0.

(** [file_info_t::get_size]: the product of the two 32-bit operands is a 32-bit one. *)
Definition get_size (f : file_info) (h : heap) : res Z :=
  if is_file f then
    if negb (is_deleted f) && negb (is_invalid f) then
      let* bs := file_blocks f in
      let blocks_count := length bs in
      match last bs, bs with
      | Some back, front :: _ =>
          let* last := deref_slot h back in
          let r := u32 (b_size last) in
          if (1 <? blocks_count)%nat then
            let* first := deref_slot h front in
            Ok (r + u32 (u32 (Z.of_nat blocks_count - 1) * u32 (b_size first)))
          else Ok r
      | _, _ => Ok 0
      end
    else Ok 0
  else Ok 0.

(** [file_info_t::get_block_offset]. *)
Definition get_block_offset (f : file_info) (h : heap) (block_index : Z) : res Z :=
  let* _ := assert (is_file f) in
  let* bs := file_blocks f in
  match bs with
  | [] => Ub
  | front :: _ => let* b := deref_slot h front in Ok (u64 (u32 (b_size b) * block_index))
  end.

(** [file_info_t::expected_meta_size]. *)
Definition expected_meta_size (f : file_info) : res Z :=
  let r := Z.of_nat (length (f_name f)) + 1 + 8 + 4 + 8 + 4 + 8 + 3 + 8 + 4 in
  let r := r + Z.of_nat (counters_size (f_version f)) * 16 in
  if is_file f then
    let* bs := file_blocks f in Ok (r + u32 (Z.of_nat (length bs) * (8 + 4 + 4 + 32)))
  else
    let* t := symlink_target f in Ok (r + Z.of_nat (length t)).

(** ** Messages *)

(** The hashes of the blocks that are set, in order. *)
Fixpoint db_hashes (h : heap) (bs : list slot) : res (list bytes) :=
  match bs with
  | [] => Ok []
  | None :: bs => db_hashes h bs
  | Some (p, _) :: bs =>
      let* b := deref h p in
      let* hs := db_hashes h bs in
      Ok (b_hash b :: hs)
  end.

(** [file_info_t::as_db]; unset message fields are zero. *)
Definition as_db (f : file_info) (h : heap) (include_blocks : bool) : res DbFileInfo :=
  let r := mkDbFileInfo (f_name f) (as_type (f_flags f)) in
  let '(d, i, n) := (is_deleted f, is_invalid f, has_no_permissions f) in
  if is_file f then
    let* size := get_size f h in
    let* block_size := get_block_size f h in
    let* bs := file_blocks f in
    let* hs := if include_blocks then db_hashes h bs else Ok [] in
    Ok (r size (f_permissions f) (f_modified_s f) (i32 (f_modified_ns f)) (f_modified_by f) d i n
          (as_proto (f_version f)) (f_sequence f) block_size [] hs)
  else
    let* link := symlink_target f in
    Ok (r 0 (f_permissions f) (f_modified_s f) (i32 (f_modified_ns f)) (f_modified_by f) d i n
          (as_proto (f_version f)) (f_sequence f) 0 link []).

(** The blocks of [as_proto] with their running offset. *)
Fixpoint bep_blocks (h : heap) (offset : Z) (bs : list slot) : res (list BlockInfo) :=
  match bs with
  | [] => Ok []
  | s :: bs =>
      let* b := deref_slot h s in
      let* l := bep_blocks h (u64 (offset + u32 (b_size b))) bs in
      Ok (as_bep b offset :: l)
  end.

Section messages.
  (** SHA-256 of the empty string, computed at start-up by the crypto library. *)
  Variable empty_digest : bytes.

(** [empty_block]. *)
Definition empty_block : BlockInfo := mkBlockInfo 0 0 empty_digest.

(** [file_info_t::as_proto]. *)
Definition file_as_proto (f : file_info) (h : heap) (include_blocks : bool) : res FileInfo :=
  let r := mkFileInfo (f_name f) (as_type (f_flags f)) in
  let '(d, i, n) := (is_deleted f, is_invalid f, has_no_permissions f) in
  if is_file f then
    let* size := get_size f h in
    let* block_size := get_block_size f h in
    let* bs := file_blocks f in
    let* bl :=
      if include_blocks then
        let* l := bep_blocks h 0 bs in
        Ok (l ++ match bs with [] => if negb (is_deleted f) then [empty_block] else [] | _ => [] end)
      else Ok [] in
    Ok (r size (f_permissions f) (f_modified_s f) (i32 (f_modified_ns f)) (f_modified_by f) d i n
          (as_proto (f_version f)) (f_sequence f) block_size bl [])
  else
    let* link := symlink_target f in
    Ok (r 0 (f_permissions f) (f_modified_s f) (i32 (f_modified_ns f)) (f_modified_by f) d i n
          (as_proto (f_version f)) (f_sequence f) 0 [] link).
End messages.

(** ** Availability and locks *)

(** [file_info_t::mark_unreachable]. *)
Definition mark_unreachable (f : file_info) (value : bool) : file_info :=
  with_flags f (if value then set_flag (f_flags f) f_unreachable
                else clear_flag (f_flags f) f_unreachable).

(** The number of slots with the [LOCAL_MASK] bit. *)
Definition count_local (bs : list slot) : nat := length (filter (λ s, slot_local s = true) bs).

(** [file_info_t::mark_local]. *)
Definition mark_local (f : file_info) (available : bool) : res file_info :=
  if available then
    let f := with_flags f (clear_flag (set_flag (f_flags f) f_local) f_unreachable) in
    if is_file f then
      let* bs := file_blocks f in
      if (length bs =? count_local bs)%nat
      then Ok (with_flags f (set_flag (f_flags f) f_available)) else Ok f
    else Ok (with_flags f (set_flag (f_flags f) f_available))
  else
    let f := with_flags f (clear_flag (f_flags f) f_local) in
    Ok (with_flags f (clear_flag (f_flags f) f_available)).

(** [file_info_t::mark_local_available]. *)
Definition mark_local_available (this : file_ptr) (f : file_info) (h : heap) (block_index : nat)
    : res (file_info * heap) :=
  let* bs := file_blocks f in
  let* _ := assert (block_index <? length bs)%nat in
  match bs !! block_index with
  | Some (Some (p, local)) =>
      let* _ := assert (negb local) in
      let* b := deref h p in
      let* b := block_mark_local_available p b this in
      let h := <[p := b]> h in
      let bs := <[block_index := Some (p, true)]> bs in
      let f := with_content f (FileContent bs) in
      if negb (has_flag (f_flags f) f_available) && (count_local bs =? length bs)%nat
      then Ok (with_flags f (set_flag (f_flags f) f_available), h)
      else Ok (f, h)
  | _ => Ub
  end.

(** [file_info_t::is_locally_available(block_index)]. *)
Definition is_block_locally_available (f : file_info) (block_index : nat) : res bool :=
  let* bs := file_blocks f in
  match bs !! block_index with Some s => Ok (slot_local s) | None => Ub end.

(** [file_info_t::is_locally_available()]. *)
Definition is_locally_available (f : file_info) : res bool :=
  if is_file f then
    if has_flag (f_flags f) f_available then Ok true
    else let* bs := file_blocks f in Ok (bool_decide (bs = []))
  else Ok true.

(** [file_info_t::synchronizing_lock], [synchronizing_unlock], [is_synchronizing]. *)
Definition synchronizing_lock (f : file_info) : file_info :=
  with_flags f (set_flag (f_flags f) f_synchronizing).
Definition synchronizing_unlock (f : file_info) : file_info :=
  with_flags f (clear_flag (f_flags f) f_synchronizing).
Definition is_synchronizing (f : file_info) : bool := has_flag (f_flags f) f_synchronizing.

(** ** [file_info_t::update] *)

(** The hashes of the blocks that have a locally available place in this very file. *)
Fixpoint local_hashes (this : file_ptr) (h : heap) (bs : list slot) : res (list bytes) :=
  match bs with
  | [] => Ok []
  | None :: bs => local_hashes this h bs
  | Some (p, _) :: bs =>
      let* b := deref h p in
      let* fbs := iterate_blocks b in
      let* rest := local_hashes this h bs in
      if existsb (λ fb, fb_is_locally_available fb && bool_decide (fb_file fb = this)) fbs
      then Ok (b_hash b :: rest) else Ok rest
  end.

(** [blocks_copy]: a reference to every block, taken and dropped. *)
Fixpoint add_refs (h : heap) (bs : list slot) : res heap :=
  match bs with
  | [] => Ok h
  | None :: bs => add_refs h bs
  | Some (p, _) :: bs => let* h := add_ref h p in add_refs h bs
  end.

Fixpoint release_all (h : heap) (bs : list slot) : res heap :=
  match bs with
  | [] => Ok h
  | None :: bs => release_all h bs
  | Some (p, _) :: bs => let* h := release h p in release_all h bs
  end.

(** The assignment loop: slots [i], [i + 1], ... take the blocks of [other]. *)
Fixpoint update_loop (this : file_ptr) (hashes : list bytes) (i : nat) (other : list slot)
    (f : file_info) (h : heap) : res (file_info * heap) :=
  match other with
  | [] => Ok (f, h)
  | None :: other => update_loop this hashes (S i) other f h
  | Some (p, _) :: other =>
      let* '(f, h) := assign_block this f h p i in
      let* b := deref h p in
      let* '(f, h) :=
        if bool_decide (b_hash b ∈ hashes) then mark_local_available this f h i else Ok (f, h) in
      update_loop this hashes (S i) other f h
  end.

(** [file_info_t::update]. *)
Definition update_file (this : file_ptr) (f : file_info) (h : heap) (other : file_info)
    : res (file_info * heap) :=
  let prev_symlink := is_link f in
  let new_symlink := is_link other in
  let prev_file := is_file f in
  let new_file := is_file other in
  let* _ := assert (bool_decide (f_name f = f_name other)) in
  let* _ := assert (bool_decide (get_uuid f = get_uuid other) ||
                    identical_to (f_version f) (f_version other)) in
  let f := mkFile (f_key f) (f_name f) (f_modified_s other) (f_modified_by other) (f_sequence other)
             (f_permissions other) (f_modified_ns other) (f_content f) (f_version other) (f_flags f) in
  let* f :=
    if prev_symlink && new_symlink then
      let* _ := symlink_target f in
      let* target := symlink_target other in
      Ok (with_content f (NonFile target))
    else Ok f in
  let* '(f, h, hashes, blocks_copy) :=
    if prev_file then
      let* bs := file_blocks f in
      let* hashes := local_hashes this h bs in
      let* h := add_refs h bs in
      let* '(f, h) := remove_blocks this f h in
      Ok (f, h, hashes, bs)
    else Ok (f, h, [], []) in
  let f := if negb prev_file && new_file then with_content f (FileContent []) else f in
  let f := if prev_file && negb new_file then with_content f (NonFile []) else f in
  let* '(f, h) :=
    if new_file then
      let* other_bs := file_blocks other in
      let* bs := file_blocks f in
      let f := with_content f (FileContent (resize_slots (length other_bs) bs)) in
      update_loop this hashes 0 other_bs f h
    else Ok (f, h) in
  let f := with_flags f (Z.lor (Z.land (f_flags other) WIRE_FLAGS) (clear_flag (f_flags f) WIRE_FLAGS)) in
  let* h := release_all h blocks_copy in
  Ok (f, h).

(** ** Comparison with a message *)

Fixpoint same_hashes (h : heap) (bs : list slot) (blocks : list BlockInfo) : res bool :=
  match bs, blocks with
  | s :: bs, block :: blocks =>
      let* b := deref_slot h s in
      if bool_decide (b_hash b = pb_hash block) then same_hashes h bs blocks else Ok false
  | _, _ => Ok true
  end.

(** [file_info_t::identical_to]. The array is read whatever the type is: on a link or a
    directory the characters of the target are taken for the pointers. *)
Definition file_identical_to (f : file_info) (h : heap) (file : FileInfo) : res bool :=
  let* v := version_of_proto (pf_version file) in
  if identical_to (f_version f) v then
    match f_content f with
    | FileContent bs =>
        if (length (pf_blocks file) =? length bs)%nat then same_hashes h bs (pf_blocks file)
        else Ok false
    | NonFile target =>
        if (length (pf_blocks file) =? length target)%nat then
          match target with [] => Ok true | _ => Ub end
        else Ok false
    end
  else Ok false.

(** [file_info_t::get_link_target]. *)
Definition get_link_target (f : file_info) : res bytes :=
  if is_link f then symlink_target f else Ok [].

(** [file_info_t::identical_by_content_to]. *)
Definition identical_by_content_to (f : file_info) (h : heap) (file : FileInfo) : res bool :=
  let* _ := assert (bool_decide (pf_name file = f_name f)) in
  let sz := pf_size file in
  let* file_size := get_size f h in
  if negb (sz =? file_size) then Ok false
  else
    let main_meta_eq :=
      bool_decide (pf_type file = as_type (f_flags f)) && (pf_modified_s file =? f_modified_s f) &&
      (pf_modified_ns file =? i32 (f_modified_ns f)) && eqb (pf_deleted file) (is_deleted f) &&
      eqb (pf_invalid file) (is_invalid f) in
    if negb main_meta_eq then Ok false
    else
      let* target := get_link_target f in
      if is_link f && bool_decide (pf_symlink_target file ≠ target) then Ok false
      else if negb (has_no_permissions f) && negb (pf_permissions file =? f_permissions f) then Ok false
      else if sz =? 0 then Ok true
      else
        let* block_size := get_block_size f h in
        if negb (pf_block_size file =? block_size) then Ok false else Ok true.

(** ** [file_info_t::blocks_iterator_t] *)

Record blocks_iterator := mkBlocksIterator {
  it_file : option file_info;
  it_next_index : Z;
}.

(** The array the iterator walks: empty unless there is a file of the file type. *)
Definition it_blocks (it : blocks_iterator) : res (list slot) :=
  match it_file it with
  | Some f => if is_file f then file_blocks f else Ok []
  | None => Ok []
  end.

Definition it_is_locally_available (it : blocks_iterator) : res bool :=
  match it_file it with
  | Some f => if is_file f then let* bs := file_blocks f in Ok (forallb slot_local bs) else Ok false
  | None => Ok false
  end.

Definition it_current (it : blocks_iterator) : res (option block_ptr * Z) :=
  let* bs := it_blocks it in
  Ok (match bs !! Z.to_nat (it_next_index it) with Some s => slot_block s | None => None end,
      it_next_index it).

Definition it_next (it : blocks_iterator) : res (option block_ptr * blocks_iterator) :=
  let* bs := it_blocks it in
  match bs !! Z.to_nat (it_next_index it) with
  | Some s => Ok (slot_block s, mkBlocksIterator (it_file it) (u32 (it_next_index it + 1)))
  | None => Ok (None, it)
  end.

Definition it_get_total (it : blocks_iterator) : res Z :=
  let* bs := it_blocks it in Ok (Z.of_nat (length bs)).
