(* ===== verification/Caches.v ===== *)
(** * Caches: the list of recently used items ([src/model/misc/lru_cache.hpp]), the files whose
    blocks are awaited ([src/model/misc/postponed_files.cpp]), the iterator over the blocks a file
    still needs ([src/model/misc/block_iterator.cpp]). *)

From S2P Require Import Prelude Proto Blocks FileInfo.

(** ** [mru_list_t] *)

Section mru.
Context {Item : Type} (get_lru_key : Item → bytes).

(** The sequenced index, the front first; the hashed one makes the keys unique. *)
Record mru_list := mkMru { il : list Item; max_items : nat }.

Definition find_item (l : list Item) (key : bytes) : option Item :=
  head (filter (λ i, get_lru_key i = key) l).

Definition erase_item (l : list Item) (key : bytes) : list Item := filter (λ i, get_lru_key i ≠ key) l.

(** A key that is present keeps its item, which moves to the front. *)
Definition mru_put (m : mru_list) (item : Item) : mru_list :=
  match find_item (il m) (get_lru_key item) with
  | Some old => mkMru (old :: erase_item (il m) (get_lru_key item)) (max_items m)
  | None =>
      let l := item :: il m in
      mkMru (if bool_decide (max_items m < length l)%nat then removelast l else l) (max_items m)
  end.

Definition mru_remove (m : mru_list) (item : Item) : mru_list :=
  match find_item (il m) (get_lru_key item) with
  | Some _ => mkMru (erase_item (il m) (get_lru_key item)) (max_items m)
  | None => m
  end.

Definition mru_get (m : mru_list) (key : bytes) : mru_list * option Item :=
  match find_item (il m) key with
  | Some item => (mkMru (item :: erase_item (il m) key) (max_items m), Some item)
  | None => (m, None)
  end.

Definition mru_clear (m : mru_list) : mru_list := mkMru [] (max_items m).

Definition mru_keys (m : mru_list) : list bytes := map get_lru_key (il m).

Record wf_mru (m : mru_list) : Prop := {
  mru_unique : NoDup (mru_keys m);
  mru_bounded : (length (il m) <= max_items m)%nat;
}.

(** The specification: the history of uses, every key at its last use, without a bound. *)
Definition use (key : bytes) (recent : list bytes) : list bytes := key :: filter (λ k, k ≠ key) recent.

Inductive mru_op := Put (item : Item) | Get (key : bytes).

Definition mru_step (m : mru_list) (op : mru_op) : mru_list :=
  match op with Put item => mru_put m item | Get key => (mru_get m key).1 end.

(** A [get] that misses is not a use. *)
Definition recent_step (bound : nat) (recent : list bytes) (op : mru_op) : list bytes :=
  match op with
  | Put item => use (get_lru_key item) recent
  | Get key => if bool_decide (key ∈ take bound recent) then use key recent else recent
  end.

Lemma find_item_Some l key i : find_item l key = Some i → i ∈ l ∧ get_lru_key i = key.
Proof.
  unfold find_item. intros Hh. assert (i ∈ filter (λ i, get_lru_key i = key) l) as Hi.
  { destruct (filter _ l) as [|j l']; [done|]. cbn in Hh. injection Hh as ->. by left. }
  by apply list_elem_of_filter in Hi as [? ?].
Qed.

Lemma find_item_None l key : find_item l key = None ↔ key ∉ map get_lru_key l.
Proof.
  unfold find_item. split.
  - intros Hh (i & -> & Hi)%list_elem_of_fmap.
    assert (i ∈ filter (λ j, get_lru_key j = get_lru_key i) l) as Hf by (by apply list_elem_of_filter).
    destruct (filter _ l); [by apply not_elem_of_nil in Hf|done].
  - intros Hn. destruct (filter _ l) as [|j l'] eqn:E; [done|]. exfalso. apply Hn.
    assert (j ∈ filter (λ i, get_lru_key i = key) l) as [<- Hj]%list_elem_of_filter by (rewrite E; left).
    by apply list_elem_of_fmap_2.
Qed.

Lemma erase_item_keys l key : map get_lru_key (erase_item l key) = filter (λ k, k ≠ key) (map get_lru_key l).
Proof.
  unfold erase_item. induction l as [|i l IH]; [done|]. cbn [map]. rewrite !filter_cons.
  destruct (decide (get_lru_key i ≠ key)); cbn [map]; by rewrite IH.
Qed.

Lemma filter_absent (key : bytes) (l : list bytes) : key ∉ l → filter (λ k, k ≠ key) l = l.
Proof.
  induction l as [|k l IH]; [done|]. rewrite not_elem_of_cons. intros [Hk Hl]. rewrite filter_cons_True by done. by rewrite IH.
Qed.

Lemma filter_present_length (key : bytes) (l : list bytes) :
  NoDup l → key ∈ l → length (filter (λ k, k ≠ key) l) = pred (length l).
Proof.
  induction 1 as [|k l Hk Hl IH]; [by intros ?%not_elem_of_nil|]. intros [->|Hin]%elem_of_cons.
  - rewrite filter_cons_False by naive_solver. by rewrite filter_absent.
  - rewrite filter_cons_True by congruence. cbn. rewrite IH by done. destruct l; [by apply not_elem_of_nil in Hin|done].
Qed.

(** The bounded history after a use. *)
Lemma take_use n key recent :
  NoDup recent →
  take n (use key recent) =
    if bool_decide (key ∈ take n recent) then key :: filter (λ k, k ≠ key) (take n recent)
    else take n (key :: take n recent).
Proof.
  intros Hnd. rewrite <- (take_drop n recent) in Hnd. apply NoDup_app in Hnd as (Hnt & Hdisj & _).
  unfold use. rewrite <- (take_drop n recent) at 1. rewrite filter_app. case_bool_decide as Hin.
  - rewrite (filter_absent key (drop n recent)) by naive_solver.
    pose proof (filter_present_length key _ Hnt Hin) as Hl. rewrite length_take in Hl.
    destruct n as [|n]; [by apply not_elem_of_nil in Hin|]. cbn [take]. f_equal.
    destruct (decide (S n <= length recent)%nat) as [Hlt|Hlt].
    + apply take_app_length'. rewrite Hl. lia.
    + rewrite (drop_ge recent) by lia. rewrite app_nil_r. apply take_ge. rewrite Hl. lia.
  - rewrite (filter_absent key (take n recent)) by done. destruct n as [|n]; [done|]. cbn [take]. f_equal.
    destruct (decide (S n <= length recent)%nat) as [Hlt|Hlt].
    + rewrite take_app_le; [done|]. rewrite length_take. lia.
    + rewrite (drop_ge recent) by lia. by rewrite filter_nil, app_nil_r.
Qed.

Lemma removelast_length {B} (l : list B) x : removelast (x :: l) = take (length l) (x :: l).
Proof. revert x. induction l as [|y l IH]; intros x; [done|]. change (removelast (x :: y :: l)) with (x :: removelast (y :: l)). by rewrite IH. Qed.

Lemma use_unique key recent : NoDup recent → NoDup (use key recent).
Proof. intros. constructor; [by rewrite list_elem_of_filter; intros [? _]|by apply NoDup_filter]. Qed.

Lemma recent_step_unique n op recent : NoDup recent → NoDup (recent_step n recent op).
Proof. intros. destruct op; cbn [recent_step]; [|case_bool_decide]; try done; by apply use_unique. Qed.

Lemma mru_put_keys m item :
  (length (il m) <= max_items m)%nat →
  mru_keys (mru_put m item) =
    if bool_decide (get_lru_key item ∈ mru_keys m)
    then get_lru_key item :: filter (λ k, k ≠ get_lru_key item) (mru_keys m)
    else take (max_items m) (get_lru_key item :: mru_keys m).
Proof.
  intros Hb. unfold mru_put, mru_keys. destruct (find_item (il m) (get_lru_key item)) as [old|] eqn:E.
  - apply find_item_Some in E as [Hin Hk]. cbn [il map]. rewrite erase_item_keys, Hk, bool_decide_eq_true_2; [done|].
    rewrite <- Hk. by apply list_elem_of_fmap_2.
  - apply find_item_None in E. rewrite (bool_decide_eq_false_2 (get_lru_key item ∈ _)) by done. cbn [il length].
    change (get_lru_key item :: map get_lru_key (il m)) with (map get_lru_key (item :: il m)). case_bool_decide as Hl.
    + rewrite removelast_length, <- firstn_map. do 2 f_equal. lia.
    + symmetry. apply take_ge. rewrite length_map. cbn. lia.
Qed.

Lemma mru_get_keys m key :
  mru_keys (mru_get m key).1 =
    if bool_decide (key ∈ mru_keys m) then key :: filter (λ k, k ≠ key) (mru_keys m) else mru_keys m.
Proof.
  unfold mru_get, mru_keys. destruct (find_item _ _) as [item|] eqn:E.
  - apply find_item_Some in E as [Hin Hk]. cbn [fst il map]. rewrite erase_item_keys, Hk, bool_decide_eq_true_2; [done|].
    rewrite <- Hk. by apply list_elem_of_fmap_2.
  - apply find_item_None in E. by rewrite bool_decide_eq_false_2.
Qed.

Lemma mru_step_max m op : max_items (mru_step m op) = max_items m.
Proof.
  destruct op; cbn [mru_step]; unfold mru_put, mru_get; by destruct (find_item _ _).
Qed.

Lemma mru_step_recent m recent op :
  NoDup recent → mru_keys m = take (max_items m) recent →
  mru_keys (mru_step m op) = take (max_items m) (recent_step (max_items m) recent op).
Proof.
  intros Hnd Hm. assert (length (il m) <= max_items m)%nat as Hb.
  { rewrite <- (length_map get_lru_key). fold (mru_keys m). rewrite Hm, length_take. lia. }
  destruct op as [item|key]; cbn [mru_step recent_step].
  - by rewrite mru_put_keys, take_use, Hm.
  - rewrite mru_get_keys, Hm. case_bool_decide as Hin; [|done]. by rewrite take_use, bool_decide_eq_true_2.
Qed.

Definition mru_run (ops : list mru_op) (max : nat) : mru_list := foldl mru_step (mkMru [] max) ops.
Definition recent_run (ops : list mru_op) (bound : nat) : list bytes := foldl (recent_step bound) [] ops.

Lemma mru_run_max ops max : max_items (mru_run ops max) = max.
Proof.
  induction ops as [|op ops IH] using rev_ind; [done|]. unfold mru_run in *. rewrite foldl_app. cbn [foldl]. by rewrite mru_step_max.
Qed.

Lemma mru_run_recent ops max :
  NoDup (recent_run ops max) ∧ mru_keys (mru_run ops max) = take max (recent_run ops max).
Proof.
  induction ops as [|op ops [IHn IH]] using rev_ind.
  - split; [apply NoDup_nil_2|]. by destruct max.
  - pose proof (mru_run_max ops max) as Hmax. unfold mru_run, recent_run in *. rewrite !foldl_app. cbn [foldl].
    split; [by apply recent_step_unique|]. rewrite (mru_step_recent _ (foldl (recent_step max) [] ops)); [by rewrite Hmax|done|by rewrite Hmax].
Qed.

(** The list of recently used items refines the history of uses cut to [max_items]: after any
    sequence of [put]s and [get]s it holds exactly the [max_items] keys used last, each once, in
    the order of use. *)
Theorem mru_keeps_recent (ops : list mru_op) (max : nat) :
  mru_keys (mru_run ops max) = take max (recent_run ops max) ∧ NoDup (mru_keys (mru_run ops max)) ∧
  (length (il (mru_run ops max)) <= max)%nat.
Proof.
  destruct (mru_run_recent ops max) as [Hn Hk]. rewrite Hk. split_and!; [done| |].
  - eapply sublist_NoDup; [done|]. apply sublist_take.
  - rewrite <- (length_map get_lru_key). fold (mru_keys (mru_run ops max)). rewrite Hk, length_take. lia.
Qed.

Lemma mru_remove_keys m item :
  mru_keys (mru_remove m item) = filter (λ k, k ≠ get_lru_key item) (mru_keys m).
Proof.
  unfold mru_remove, mru_keys. destruct (find_item _ _) eqn:E; [apply erase_item_keys|].
  apply find_item_None in E. by rewrite filter_absent.
Qed.
End mru.

(** ** [postponed_files_t] *)

(** [block_2_files], unique pairs, and [ready]. *)
Record postponed_files := mkPostponed {
  pp_awaits : list (block_ptr * file_ptr);
  pp_ready : gset file_ptr;
}.

Definition postpone (pp : postponed_files) (block : block_ptr) (file : file_ptr) : postponed_files :=
  if bool_decide ((block, file) ∈ pp_awaits pp) then pp
  else mkPostponed (pp_awaits pp ++ [(block, file)]) (pp_ready pp).

(** Any element of the unordered set. *)
Definition get_ready (pp : postponed_files) : option file_ptr * postponed_files :=
  match elements (pp_ready pp) with
  | [] => (None, pp)
  | f :: _ => (Some f, mkPostponed (pp_awaits pp) (pp_ready pp ∖ {[ f ]}))
  end.

Definition forget (pp : postponed_files) (file : file_ptr) : postponed_files :=
  mkPostponed (filter (λ e, e.2 ≠ file) (pp_awaits pp)) (pp_ready pp ∖ {[ file ]}).

(** The size of the range of a file. *)
Definition awaited_blocks (pp : postponed_files) (file : file_ptr) : list (block_ptr * file_ptr) :=
  filter (λ e, e.2 = file) (pp_awaits pp).

(** The loop over the range of the block. *)
Fixpoint advance_loop (range : list (block_ptr * file_ptr)) (pp : postponed_files) : postponed_files :=
  match range with
  | [] => pp
  | e :: range =>
      advance_loop range
        (if bool_decide (length (awaited_blocks pp e.2) = 1%nat)
         then mkPostponed (filter (λ e', e' ≠ e) (pp_awaits pp)) (pp_ready pp ∪ {[ e.2 ]})
         else pp)
  end.

Definition pp_advance (pp : postponed_files) (block : block_ptr) : postponed_files :=
  advance_loop (filter (λ e, e.1 = block) (pp_awaits pp)) pp.

Definition pp_clear (pp : postponed_files) : postponed_files := mkPostponed [] ∅.

Lemma awaited_erase pp e file :
  e.2 ≠ file → filter (λ e', e'.2 = file) (filter (λ e', e' ≠ e) (pp_awaits pp)) = awaited_blocks pp file.
Proof.
  intros Hne. unfold awaited_blocks. induction (pp_awaits pp) as [|e' l IH]; [done|].
  destruct (decide (e' ≠ e)) as [He|He].
  - rewrite (filter_cons_True (λ e', e' ≠ e)) by done. rewrite !filter_cons, IH. done.
  - rewrite (filter_cons_False (λ e', e' ≠ e)) by done. apply dec_stable in He as ->. by rewrite filter_cons_False.
Qed.

(** What the loop does: it erases the entries of its range whose file awaits nothing else. *)
Lemma advance_loop_spec range : ∀ pp,
  NoDup (range.*2) →
  (∀ e, e ∈ pp_awaits (advance_loop range pp) ↔
    e ∈ pp_awaits pp ∧ ¬ (e ∈ range ∧ length (awaited_blocks pp e.2) = 1%nat)) ∧
  (∀ f, f ∈ pp_ready (advance_loop range pp) ↔
    f ∈ pp_ready pp ∨ (f ∈ range.*2 ∧ length (awaited_blocks pp f) = 1%nat)).
Proof.
  induction range as [|e range IH]; intros pp Hnd; cbn [advance_loop].
  - split; intros x; [|rewrite fmap_nil]; rewrite elem_of_nil; naive_solver.
  - rewrite fmap_cons in Hnd |- *. apply NoDup_cons in Hnd as [He Hnd]. case_bool_decide as Hl.
    + set (pp1 := mkPostponed _ _). destruct (IH pp1 Hnd) as [IHa IHr].
      assert (∀ f, f ∈ range.*2 → awaited_blocks pp1 f = awaited_blocks pp f) as Hsame.
      { intros f Hf. unfold awaited_blocks at 1. cbn [pp1 pp_awaits]. apply awaited_erase. intros <-. done. }
      split; intros x.
      * rewrite IHa. cbn [pp1 pp_awaits]. rewrite list_elem_of_filter, elem_of_cons.
        assert (x ∈ range → awaited_blocks pp1 x.2 = awaited_blocks pp x.2) by (intros; apply Hsame; by apply list_elem_of_fmap_2).
        split.
        -- intros [[Hne Hx] Hn]. split; [done|]. intros [[-> |Hin] H1]; [done|]. apply Hn. split; [done|]. by rewrite H.
        -- intros [Hx Hn]. split; [split; [intros ->; apply Hn; auto|done]|]. intros [Hin H1]. apply Hn. rewrite <- H by done. auto.
      * rewrite IHr. cbn [pp1 pp_ready]. rewrite elem_of_union, elem_of_singleton, elem_of_cons. split.
        -- intros [[?| ->]|[Hin H1]]; [by left|right; auto|right]. rewrite <- Hsame by done. auto.
        -- intros [?|[[-> |Hin] H1]]; [by do 2 left|by left; right|right]. by rewrite Hsame.
    + destruct (IH pp Hnd) as [IHa IHr]. split; intros x; rewrite ?IHa, ?IHr, elem_of_cons.
      * naive_solver.
      * naive_solver.
Qed.

Lemma range_files_unique (pp : postponed_files) (block : block_ptr) :
  NoDup (pp_awaits pp) → NoDup ((filter (λ e, e.1 = block) (pp_awaits pp)).*2).
Proof.
  intros Hnd. apply NoDup_fmap_2_strong; [|by apply NoDup_filter].
  intros [b1 f1] [b2 f2] [? _]%list_elem_of_filter [? _]%list_elem_of_filter. cbn in *. congruence.
Qed.

(** A block arrived. A file becomes ready exactly when the block was the only one it awaited, its
    entry is then gone; every other entry stays. *)
Theorem advance_readies (pp : postponed_files) (block : block_ptr) :
  NoDup (pp_awaits pp) →
  (∀ f, f ∈ pp_ready (pp_advance pp block) ↔ f ∈ pp_ready pp ∨ awaited_blocks pp f = [(block, f)]) ∧
  (∀ e, e ∈ pp_awaits (pp_advance pp block) ↔
    e ∈ pp_awaits pp ∧ ¬ (e.1 = block ∧ awaited_blocks pp e.2 = [e])).
Proof.
  intros Hnd. pose proof (range_files_unique pp block Hnd) as Hr. destruct (advance_loop_spec _ pp Hr) as [Ha Hre].
  assert (∀ e, e ∈ pp_awaits pp → length (awaited_blocks pp e.2) = 1%nat ↔ awaited_blocks pp e.2 = [e]) as H1.
  { intros e He. assert (e ∈ awaited_blocks pp e.2) as Hin by (by apply list_elem_of_filter).
    destruct (awaited_blocks pp e.2) as [|e1 [|? ?]]; [by apply not_elem_of_nil in Hin| |done].
    apply list_elem_of_singleton in Hin as ->. done. }
  split.
  - intros f. unfold pp_advance. rewrite Hre. split; (intros [?|Hf]; [by left|right]).
    + destruct Hf as [(e & -> & [Hb He]%list_elem_of_filter)%list_elem_of_fmap Hl]. apply H1 in Hl; [|done].
      rewrite Hl. destruct e. cbn in *. by subst.
    + assert ((block, f) ∈ awaited_blocks pp f) as [_ Hin]%list_elem_of_filter by (rewrite Hf; left).
      split; [|by rewrite Hf]. change f with ((block, f).2). apply list_elem_of_fmap_2. by apply list_elem_of_filter.
  - intros e. unfold pp_advance. rewrite Ha, list_elem_of_filter. split; (intros [He Hn]; split; [done|]); specialize (H1 e He); naive_solver.
Qed.

Example advance_readies_witness :
  let pp := mkPostponed [(5, 1); (6, 2); (5, 2)]%positive ∅ in
  (∀ f, f ∈ pp_ready (pp_advance pp 5) ↔ f ∈ pp_ready pp ∨ awaited_blocks pp f = [(5%positive, f)]) ∧
  (∀ e, e ∈ pp_awaits (pp_advance pp 5) ↔ e ∈ pp_awaits pp ∧ ¬ (e.1 = 5%positive ∧ awaited_blocks pp e.2 = [e])).
Proof. intros pp. apply (advance_readies pp 5). by apply (bool_decide_unpack _); vm_compute. Defined.

(** A file that awaits two blocks never becomes ready: none of the two entries goes. *)
Lemma two_blocks_never_ready :
  let pp := pp_advance (pp_advance (postpone (postpone (mkPostponed [] ∅) 5 1) 6 1) 5) 6 in
  pp_awaits pp = [(5, 1); (6, 1)]%positive ∧ (get_ready pp).1 = None.
Proof. by vm_compute. Qed.

Lemma forget_forgets pp file :
  (file ∉ pp_ready (forget pp file)) ∧ awaited_blocks (forget pp file) file = [] ∧
  (∀ f, f ≠ file → awaited_blocks (forget pp file) f = awaited_blocks pp f).
Proof.
  unfold forget, awaited_blocks. cbn. split_and!; [set_solver| |].
  - induction (pp_awaits pp) as [|e l IH]; [done|]. rewrite !filter_cons. destruct (decide (e.2 ≠ file)); [|done].
    by rewrite filter_cons_False.
  - intros f Hf. rewrite list_filter_filter_l; [done|]. naive_solver.
Qed.

(** ** [blocks_iterator_t] *)

Definition wrong_index : Z := 2 ^ 32 - 1.

Record block_iterator := mkBlockIterator {
  bi_sequence : Z;
  bi_i : Z;
}.

(** The loop of [advance] from a slot on: it stops at a null pointer and at a block that is not
    locally available. *)
Fixpoint skip_local (bs : list slot) (i : Z) : Z :=
  match bs with
  | Some (_, true) :: bs => skip_local bs (i + 1)
  | _ => i
  end.

Definition bi_prepare (f : file_info) (bs : list slot) (i : Z) : Z :=
  if i =? wrong_index then i
  else if is_unreachable f || (Z.of_nat (length bs) <=? i) then wrong_index else i.

Definition bi_advance (f : file_info) (i : Z) : res Z :=
  let* bs := file_blocks f in
  Ok (bi_prepare f bs (skip_local (drop (Z.to_nat i) bs) i)).

Definition new_block_iterator (f : file_info) : res block_iterator :=
  let* bs := file_blocks f in
  if bool_decide (bs = []) then Ok (mkBlockIterator 0 wrong_index)
  else let* i := bi_advance f 0 in Ok (mkBlockIterator (f_sequence f) i).

(** [operator bool]. *)
Definition bi_valid (f : file_info) (it : block_iterator) : bool :=
  negb (bi_i it =? wrong_index) && (f_sequence f =? bi_sequence it).

Definition bi_next (f : file_info) (it : block_iterator) : res (option block_ptr * Z * block_iterator) :=
  let* bs := file_blocks f in
  let idx := bi_i it in
  let* i := bi_advance f (u32 (bi_i it + 1)) in
  match bs !! Z.to_nat idx with
  | Some s => Ok (slot_block s, idx, mkBlockIterator (bi_sequence it) i)
  | None => Ub
  end.

(** The loop of the client, at most [fuel] rounds. *)
Fixpoint bi_drain (fuel : nat) (f : file_info) (it : block_iterator) : res (list (option block_ptr * Z)) :=
  match fuel with
  | 0%nat => Ub
  | S fuel =>
      if bi_valid f it then
        let* '(b, i, it) := bi_next f it in
        let* rest := bi_drain fuel f it in
        Ok ((b, i) :: rest)
      else Ok []
  end.

(** The specification: the slots from [i] on that are not available. *)
Fixpoint needed (bs : list slot) (i : Z) : list (option block_ptr * Z) :=
  match bs with
  | [] => []
  | s :: bs => (if slot_local s then [] else [(slot_block s, i)]) ++ needed bs (i + 1)
  end.

Lemma skip_local_spec bs i :
  (skip_local bs i = i + Z.of_nat (length bs) ∧ needed bs i = []) ∨
  (∃ k s, bs !! k = Some s ∧ skip_local bs i = i + Z.of_nat k ∧
     needed bs i = (slot_block s, i + Z.of_nat k) :: needed (drop (S k) bs) (i + Z.of_nat k + 1)).
Proof.
  revert i. induction bs as [|s bs IH]; intros i; [left; split; [cbn; lia|done]|].
  destruct s as [[b [|]]|].
  - cbn [skip_local needed slot_local app length]. destruct (IH (i + 1)) as [[-> ->]|(k & s & Hk & -> & ->)].
    + left. split; [lia|done].
    + right. exists (S k), s. split; [done|]. replace (i + 1 + Z.of_nat k) with (i + Z.of_nat (S k)) by lia. done.
  - right. exists 0%nat, (Some (b, false)). split; [done|]. cbn. rewrite Z.add_0_r, drop_0. done.
  - right. exists 0%nat, None. split; [done|]. cbn. rewrite Z.add_0_r, drop_0. done.
Qed.

Lemma bi_drain_S fuel f it :
  bi_drain (S fuel) f it =
    if bi_valid f it then
      let* '(b, i, it) := bi_next f it in
      let* rest := bi_drain fuel f it in
      Ok ((b, i) :: rest)
    else Ok [].
Proof. done. Qed.

Lemma bi_drain_spec f bs n : ∀ i it,
  file_blocks f = Ok bs → is_unreachable f = false → Z.of_nat (length bs) < wrong_index →
  bi_sequence it = f_sequence f → 0 <= i <= Z.of_nat (length bs) → (length bs - Z.to_nat i <= n)%nat →
  bi_advance f i = Ok (bi_i it) →
  bi_drain (S n) f it = Ok (needed (drop (Z.to_nat i) bs) i).
Proof.
  induction n as [|n IH]; intros i it Hf Hu Hl Hseq Hi Hn Ha; unfold bi_advance in Ha; rewrite Hf in Ha; cbn [res_bind] in Ha;
    injection Ha as Ha; rewrite bi_drain_S; unfold bi_valid; rewrite <- Ha, Hseq, Z.eqb_refl, andb_true_r; unfold bi_prepare; rewrite Hu; cbn [orb].
  - rewrite drop_ge by lia. cbn [skip_local needed]. destruct (Z.eqb_spec i wrong_index); [lia|].
    rewrite (proj2 (Z.leb_le _ _)) by lia. done.
  - destruct (skip_local_spec (drop (Z.to_nat i) bs) i) as [[Hs ->]|(k & s & Hk & Hs & ->)].
    + rewrite Hs, length_drop. destruct (Z.eqb_spec (i + Z.of_nat (length bs - Z.to_nat i)) wrong_index); [lia|].
      rewrite (proj2 (Z.leb_le _ _)) by lia. done.
    + rewrite lookup_drop in Hk. pose proof (lookup_lt_Some _ _ _ Hk) as Hlt. rewrite Hs.
      destruct (Z.eqb_spec (i + Z.of_nat k) wrong_index); [lia|]. rewrite (proj2 (Z.leb_gt _ _)) by lia.
      destruct (Z.eqb_spec (i + Z.of_nat k) wrong_index); [lia|]. cbn [negb].
      assert (bi_i it = i + Z.of_nat k) as Hit.
      { rewrite <- Ha, Hs. unfold bi_prepare. destruct (Z.eqb_spec (i + Z.of_nat k) wrong_index); [lia|].
        rewrite Hu, (proj2 (Z.leb_gt _ _)) by lia. done. }
      unfold bi_next. rewrite Hf, Hit. cbn [res_bind].
      assert (u32 (i + Z.of_nat k + 1) = i + Z.of_nat k + 1) as -> by (unfold wrong_index, u32 in *; apply Z.mod_small; lia).
      unfold bi_advance at 1. rewrite Hf. cbn [res_bind].
      replace (Z.to_nat (i + Z.of_nat k)) with (Z.to_nat i + k)%nat by lia. rewrite Hk.
      cbn [res_bind]. rewrite (IH (i + Z.of_nat k + 1)); try done; try lia.
      * cbn [res_bind]. rewrite drop_drop. do 3 f_equal. f_equal. lia.
      * unfold bi_advance. by rewrite Hf.
Qed.

(** The iterator over the blocks of a file that does not change terminates and yields exactly
    the blocks that are not available, in order, with their indices. *)
Theorem block_iterator_needed (f : file_info) (bs : list slot) :
  file_blocks f = Ok bs → is_unreachable f = false → Z.of_nat (length bs) < wrong_index →
  (let* it := new_block_iterator f in bi_drain (S (length bs)) f it) = Ok (needed bs 0).
Proof.
  intros Hf Hu Hl. unfold new_block_iterator. rewrite Hf. cbn [res_bind]. case_bool_decide as Hb.
  { subst. cbn [res_bind bi_drain length]. unfold bi_valid. cbn [bi_i]. by rewrite Z.eqb_refl. }
  destruct (bi_advance f 0) as [i| |] eqn:Ha; [|by unfold bi_advance in Ha; rewrite Hf in Ha..].
  cbn [res_bind]. rewrite (bi_drain_spec f bs (length bs) 0); try done; lia.
Qed.

Definition awaiting_file : file_info :=
  with_content (blank_file []) (FileContent [Some (1%positive, true); Some (2%positive, false); Some (1%positive, true); Some (3%positive, false)]).

Example block_iterator_needed_witness :
  (let* it := new_block_iterator awaiting_file in bi_drain 5 awaiting_file it) = Ok [(Some 2%positive, 1); (Some 3%positive, 3)].
Proof. refine (block_iterator_needed awaiting_file _ eq_refl eq_refl _). by vm_compute. Defined.
