(* ===== verification/FileStore.v ===== *)
(** * FileStore: files and blocks together. The invariant that ties the slots of
    the files, the places of the blocks and the reference counts, and the proofs that every
    operation of FileInfo keeps it and never trips an assertion. *)

From S2P Require Import Prelude Version Proto Blocks FileInfo.

(** ** The invariant *)

(** The slots of every file that is alive. *)
Abbreviation slot_map := (gmap file_ptr (list slot)).

Definition slot_at (σ : slot_map) (file : file_ptr) (i : nat) : option block_ptr :=
  bs ← σ !! file; s ← bs !! i; slot_block s.

(** The (file, index) pairs a block is used at. *)
Definition spot (fb : file_block) : file_ptr * nat := (fb_file fb, Z.to_nat (fb_block_index fb)).
Definition spots (b : block_info) : list (file_ptr * nat) := map spot (places b).

(** A live block at the address [p]: its places are exactly the slots that point to it, each
    once, and its reference count is the number of those slots plus the [E] references
    held elsewhere (by the map of blocks, by local variables); the count is positive. *)
Record wf_cell (σ : slot_map) (E : block_ptr → Z) (p : block_ptr) (b : block_info) : Prop := {
  cell_block : wf_block p b;
  cell_nodup : NoDup (spots b);
  cell_spots : ∀ file i, (file, i) ∈ spots b ↔ slot_at σ file i = Some p;
  cell_count : use_count b = Z.of_nat (length (places b)) + E p;
  cell_alive : 0 < use_count b;
}.

(** The heap: every block is fine, and a block that is not alive is not pointed at and has no
    references (no dangling pointers, no leaks). *)
Record wf_heap (σ : slot_map) (E : block_ptr → Z) (h : heap) : Prop := {
  heap_cell : ∀ p b, h !! p = Some b → wf_cell σ E p b;
  heap_dead : ∀ p, h !! p = None → E p = 0 ∧ ∀ file i, slot_at σ file i ≠ Some p;
  heap_extra : ∀ p, 0 <= E p;
}.

(** Reference counts leave room for [n] more references. *)
Definition roomy (n : Z) (h : heap) : Prop :=
  ∀ p b, h !! p = Some b → use_count b + n < 2 ^ 30.

(** [h'] has no block that [h] has not, and those it has keep their hash and size. *)
Definition shrinks (h h' : heap) : Prop :=
  ∀ p b', h' !! p = Some b' → ∃ b, h !! p = Some b ∧ b_hash b' = b_hash b ∧ b_size b' = b_size b.

#[export] Instance shrinks_preorder : PreOrder shrinks.
Proof.
  split; [intros h p b H; eauto|].
  intros h1 h2 h3 H1 H2 p b3 H3. destruct (H2 _ _ H3) as (b2 & Hb2 & -> & ->).
  destruct (H1 _ _ Hb2) as (b1 & ? & -> & ->). eauto.
Qed.

Lemma slot_at_alive σ E h file i p :
  wf_heap σ E h → slot_at σ file i = Some p → ∃ b, h !! p = Some b ∧ wf_cell σ E p b.
Proof.
  intros H Hs. destruct (h !! p) as [b|] eqn:Hb.
  - exists b. split; [done|]. by apply (heap_cell _ _ _ H).
  - destruct (heap_dead _ _ _ H _ Hb) as [_ Hd]. by destruct (Hd file i).
Qed.

(** ** Reference counts *)

Definition count_by (b : block_info) (v : Z) : block_info := set_counter b (b_counter b + v).

Lemma div_shift c v : 0 <= c mod 2 ^ 30 + v < 2 ^ 30 →
  (c + v) / 2 ^ 30 = c / 2 ^ 30 ∧ (c + v) mod 2 ^ 30 = c mod 2 ^ 30 + v.
Proof.
  intros H. pose proof (Z.div_mod c (2 ^ 30)). split; symmetry.
  - apply (Z.div_unique _ _ _ (c mod 2 ^ 30 + v)); lia.
  - apply (Z.mod_unique _ _ (c / 2 ^ 30)); lia.
Qed.

Lemma count_by_spec p b v :
  wf_block p b → 0 <= use_count b + v < 2 ^ 30 →
  wf_block p (count_by b v) ∧ use_count (count_by b v) = use_count b + v.
Proof.
  intros H Hv. rewrite use_count_mod in *. destruct (div_shift _ _ Hv) as [Hq Hr].
  rewrite use_count_mod. cbn [count_by set_counter b_counter]. split; [|done].
  pose proof (wf_counter _ _ H) as Hw. unfold is_word in Hw.
  pose proof (Z.div_mod (b_counter b) (2 ^ 30)) as Hd.
  assert (0 <= b_counter b / 2 ^ 30 < 4) as Hq4.
  { split; [apply Z.div_pos; lia|apply Z.div_lt_upper_bound; lia]. }
  constructor; cbn [count_by set_counter b_counter b_union].
  - unfold is_word. lia.
  - rewrite is_single_bit. cbn [count_by set_counter b_counter].
    rewrite (high_bits_eq _ (b_counter b)), <- is_single_bit by (done || lia).
    apply (wf_bit _ _ H).
  - apply (wf_union _ _ H).
  - apply (wf_places _ _ H).
Qed.

Lemma refcouner_inc_by p b :
  wf_block p b → use_count b + 1 < 2 ^ 30 → refcouner_inc b = count_by b 1.
Proof.
  intros H Hv. rewrite use_count_mod in Hv. pose proof (Z.mod_pos_bound (b_counter b) (2 ^ 30)).
  unfold refcouner_inc, count_by. by rewrite refcouner_word by (apply (wf_counter _ _ H) || lia).
Qed.

Lemma refcouner_dec_by p b :
  wf_block p b → 0 < use_count b → refcouner_dec b = (count_by b (-1), use_count b - 1).
Proof.
  intros H Hv. rewrite use_count_mod in Hv |- *. pose proof (Z.mod_pos_bound (b_counter b) (2 ^ 30)).
  unfold refcouner_dec, count_by. rewrite <- (Z.add_opp_r (Z.land _ _)).
  rewrite refcouner_word by (apply (wf_counter _ _ H) || lia).
  change COUNTER_MASK with (Z.ones 30). rewrite Z.land_comm, Z.land_ones by lia.
  f_equal. unfold u32. rewrite Z.mod_small; lia.
Qed.

(** [E] with [v] more references to [p]. *)
Definition extra_by (E : block_ptr → Z) (p : block_ptr) (v : Z) : block_ptr → Z :=
  λ q, if bool_decide (q = p) then E q + v else E q.

Lemma extra_by_eq E p v : extra_by E p v p = E p + v.
Proof. unfold extra_by. by rewrite bool_decide_eq_true_2. Qed.

Lemma extra_by_ne E p v q : q ≠ p → extra_by E p v q = E q.
Proof. intros H. unfold extra_by. by rewrite bool_decide_eq_false_2. Qed.

Lemma wf_heap_ext σ E E' h : (∀ q, E q = E' q) → wf_heap σ E h → wf_heap σ E' h.
Proof.
  intros HE H. split.
  - intros p b Hb. destruct (heap_cell _ _ _ H _ _ Hb). split; try done. by rewrite <- HE.
  - intros p Hp. rewrite <- HE. by apply (heap_dead _ _ _ H).
  - intros p. rewrite <- HE. apply (heap_extra _ _ _ H).
Qed.

(** Replacing one block, with the slots and the references it accounts for: the other
    blocks must not notice. *)
Lemma wf_heap_insert σ σ' E v h p b :
  wf_heap σ E h → wf_cell σ' (extra_by E p v) p b → 0 <= E p + v →
  (∀ q file i, q ≠ p → slot_at σ' file i = Some q ↔ slot_at σ file i = Some q) →
  wf_heap σ' (extra_by E p v) (<[p := b]> h).
Proof.
  intros H Hb Hv Hσ. split.
  - intros q c Hq. destruct (decide (q = p)) as [->|Hne].
    + rewrite lookup_insert_eq in Hq. by simplify_eq.
    + rewrite lookup_insert_ne in Hq by done. destruct (heap_cell _ _ _ H _ _ Hq).
      split; try done; [|by rewrite extra_by_ne].
      intros file i. by rewrite Hσ.
  - intros q Hq. destruct (decide (q = p)) as [->|Hne]; [by rewrite lookup_insert_eq in Hq|].
    rewrite lookup_insert_ne in Hq by done. rewrite extra_by_ne by done.
    destruct (heap_dead _ _ _ H _ Hq) as [? Hd]. split; [done|]. intros file i. rewrite Hσ by done. apply Hd.
  - intros q. destruct (decide (q = p)) as [->|Hne]; [by rewrite extra_by_eq|].
    rewrite extra_by_ne by done. apply (heap_extra _ _ _ H).
Qed.

Lemma wf_cell_count_by σ E p b v :
  wf_cell σ E p b → 0 < use_count b + v < 2 ^ 30 →
  wf_cell σ (extra_by E p v) p (count_by b v).
Proof.
  intros H Hv. destruct (count_by_spec p b v) as [Hw Hc]; [apply H|lia|].
  destruct H. split; try done.
  - rewrite Hc, cell_count0, extra_by_eq. unfold count_by, places. cbn. lia.
  - lia.
Qed.

Lemma shrinks_insert h p b b' :
  h !! p = Some b → b_hash b' = b_hash b → b_size b' = b_size b → shrinks h (<[p := b']> h).
Proof.
  intros Hb Hh Hs q c Hq. destruct (decide (q = p)) as [->|Hne].
  - rewrite lookup_insert_eq in Hq. simplify_eq. eauto.
  - rewrite lookup_insert_ne in Hq by done. eauto.
Qed.

Lemma roomy_insert n m h p b :
  roomy n h → m <= n → use_count b + m < 2 ^ 30 → roomy m (<[p := b]> h).
Proof.
  intros H Hm Hb q c Hq. destruct (decide (q = p)) as [->|Hne].
  - rewrite lookup_insert_eq in Hq. by simplify_eq.
  - rewrite lookup_insert_ne in Hq by done. specialize (H _ _ Hq). lia.
Qed.

Lemma add_ref_wf σ E h p b n :
  wf_heap σ E h → h !! p = Some b → roomy n h → 0 < n →
  add_ref h p = Ok (<[p := count_by b 1]> h) ∧
  wf_heap σ (extra_by E p 1) (<[p := count_by b 1]> h) ∧
  roomy (n - 1) (<[p := count_by b 1]> h) ∧ shrinks h (<[p := count_by b 1]> h).
Proof.
  intros H Hb Hr Hn. pose proof (heap_cell _ _ _ H _ _ Hb) as Hc. pose proof (cell_block _ _ _ _ Hc) as Hw.
  specialize (Hr _ _ Hb) as Hrb. pose proof (cell_alive _ _ _ _ Hc).
  destruct (count_by_spec p b 1 Hw) as [_ Hu]; [lia|].
  split_and!.
  - unfold add_ref, deref. rewrite Hb. cbn [res_bind]. by rewrite (refcouner_inc_by p) by (done || lia).
  - apply (wf_heap_insert σ); try done.
    + apply wf_cell_count_by; [done|lia].
    + pose proof (heap_extra _ _ _ H p). lia.
  - apply (roomy_insert n); [done|lia|lia].
  - by apply (shrinks_insert _ _ b).
Qed.

Lemma release_wf σ E h p n :
  wf_heap σ E h → 0 < E p → roomy n h → 0 <= n →
  ∃ h', release h p = Ok h' ∧ wf_heap σ (extra_by E p (-1)) h' ∧ roomy n h' ∧ shrinks h h'.
Proof.
  intros H HE Hr Hn. destruct (h !! p) as [b|] eqn:Hb.
  2: { destruct (heap_dead _ _ _ H _ Hb). lia. }
  pose proof (heap_cell _ _ _ H _ _ Hb) as Hc. pose proof (cell_block _ _ _ _ Hc) as Hw.
  pose proof (cell_alive _ _ _ _ Hc) as Ha. pose proof (cell_count _ _ _ _ Hc) as Hcc.
  unfold release, deref. rewrite Hb. cbn [res_bind]. rewrite (refcouner_dec_by p) by done.
  specialize (Hr _ _ Hb) as Hrb.
  destruct (count_by_spec p b (-1) Hw) as [_ Hu]; [lia|].
  destruct (Z.eqb_spec (use_count b - 1) 0) as [E0|Hne]; eexists; (split; [done|]).
  - assert (length (places b) = 0%nat) as Hl by lia. split_and!.
    + split.
      * intros q c Hq. apply lookup_delete_Some in Hq as [Hne Hq].
        destruct (heap_cell _ _ _ H _ _ Hq). split; try done. by rewrite extra_by_ne.
      * intros q Hq. destruct (decide (q = p)) as [->|Hne].
        -- rewrite extra_by_eq. split; [lia|]. intros file i Hs.
           apply (cell_spots _ _ _ _ Hc) in Hs. unfold spots in Hs.
           apply nil_length_inv in Hl. rewrite Hl in Hs. by apply not_elem_of_nil in Hs.
        -- rewrite lookup_delete_ne in Hq by done. rewrite extra_by_ne by done.
           by apply (heap_dead _ _ _ H).
      * intros q. destruct (decide (q = p)) as [->|Hne]; [rewrite extra_by_eq; lia|].
        rewrite extra_by_ne by done. apply (heap_extra _ _ _ H).
    + intros q c Hq. apply lookup_delete_Some in Hq as [_ Hq]. by apply (Hr q).
    + intros q c Hq. apply lookup_delete_Some in Hq as [_ Hq]. eauto.
  - split_and!.
    + apply (wf_heap_insert σ); try done; [apply wf_cell_count_by; [done|lia]|lia].
    + apply (roomy_insert n); [done|lia|lia].
    + by apply (shrinks_insert _ _ b).
Qed.

(** ** Slots *)

Lemma slot_at_insert σ this bs file i :
  slot_at (<[this := bs]> σ) file i =
  if bool_decide (file = this) then s ← bs !! i; slot_block s else slot_at σ file i.
Proof.
  unfold slot_at. case_bool_decide as H; [subst; by rewrite lookup_insert_eq|].
  by rewrite lookup_insert_ne.
Qed.

Lemma slot_at_this (σ : slot_map) (this : file_ptr) (bs : list slot) i :
  σ !! this = Some bs → slot_at σ this i = s ← bs !! i; slot_block s.
Proof. intros H. unfold slot_at. by rewrite H. Qed.

(** Forgetting a block in every slot of a file. *)
Definition clear_block (p : block_ptr) (bs : list slot) : list slot :=
  map (λ s, if bool_decide (slot_block s = Some p) then None else s) bs.

Lemma clear_block_lookup p bs i :
  (s ← clear_block p bs !! i; slot_block s) =
  if bool_decide ((s ← bs !! i; slot_block s) = Some p) then None else s ← bs !! i; slot_block s.
Proof.
  unfold clear_block. change (@map slot slot) with (@fmap list _ slot slot).
  rewrite list_lookup_fmap. destruct (bs !! i) as [s|]; cbn; [|by case_bool_decide].
  by case_bool_decide.
Qed.

(** ** Linking, unlinking and marking one block *)

Lemma link_cell σ E p b this bs i l :
  wf_cell σ E p b → σ !! this = Some bs → bs !! i = Some None → Z.of_nat i < 2 ^ 31 →
  link p b this (Z.of_nat i) = Ok (with_places b (places b ++ [linked_place p b this (Z.of_nat i)])) ∧
  wf_cell (<[this := <[i := Some (p, l)]> bs]> σ) (extra_by E p (-1)) p
    (with_places b (places b ++ [linked_place p b this (Z.of_nat i)])).
Proof.
  intros H Hσ Hi Hr. destruct H as [Hw Hnd Hsp Hct Hal]. split; [by apply link_eq|].
  set (fb := linked_place p b this (Z.of_nat i)).
  destruct (with_places_spec p b (places b ++ [fb])) as (W & P & _ & _ & U & _).
  { apply (wf_counter _ _ Hw). }
  { apply Forall_app_2; [apply (wf_places _ _ Hw)|]. constructor; [apply linked_place_wf|done]. }
  assert (spot fb = (this, i)) as Hfb.
  { unfold spot, fb. destruct (linked_place_bits p b this (Z.of_nat i)) as [-> _]; [lia|].
    by rewrite Nat2Z.id. }
  assert (spots (with_places b (places b ++ [fb])) = spots b ++ [(this, i)]) as S.
  { unfold spots. rewrite P, map_app. cbn [map]. by rewrite Hfb. }
  split; try done.
  - rewrite S. apply NoDup_app. split_and!; [done| |apply NoDup_singleton].
    intros [f j] Hin Heq%list_elem_of_singleton. simplify_eq. apply Hsp in Hin.
    rewrite (slot_at_this _ _ _ _ Hσ), Hi in Hin. done.
  - intros file j. rewrite S, elem_of_app, list_elem_of_singleton, Hsp, slot_at_insert.
    case_bool_decide as Hf.
    + subst file. rewrite (slot_at_this _ _ _ _ Hσ).
      destruct (decide (j = i)) as [->|Hne].
      * rewrite list_lookup_insert_eq by (by eapply lookup_lt_Some). naive_solver.
      * rewrite list_lookup_insert_ne by done. naive_solver.
    + naive_solver.
  - rewrite U, P, length_app, Hct, extra_by_eq. cbn [length]. lia.
  - by rewrite U.
Qed.

Lemma unlink_cell σ E p b this bs i :
  wf_cell σ E p b → σ !! this = Some bs → slot_at σ this i = Some p →
  unlink p b this =
    Ok (with_places b (places_out this b), map fb_block_index (places_in this b)) ∧
  wf_cell (<[this := clear_block p bs]> σ) (extra_by E p (Z.of_nat (length (places_in this b)))) p
    (with_places b (places_out this b)).
Proof.
  intros H Hσ Hi. destruct H as [Hw Hnd Hsp Hct Hal].
  destruct (with_places_spec p b (places_out this b)) as (W & P & _ & _ & U & _).
  { apply (wf_counter _ _ Hw). } { by apply places_out_wf. }
  assert (∀ file j, (file, j) ∈ spots (with_places b (places_out this b)) ↔
            (file, j) ∈ spots b ∧ file ≠ this) as S.
  { intros file j. unfold spots. rewrite P. unfold places_out. rewrite !list_elem_of_fmap.
    setoid_rewrite list_elem_of_filter. unfold spot. naive_solver. }
  split.
  - rewrite unlink_eq by done. destruct (places_in this b) eqn:Hin; [|done].
    apply Hsp in Hi. unfold spots in Hi. apply list_elem_of_fmap in Hi as (fb & Heq & Hfb).
    destruct (filter_nil_not_elem_of _ _ fb Hin); [|done]. unfold spot in Heq. naive_solver.
  - split; try done.
    + unfold spots. rewrite P. unfold places_out.
      by apply NoDup_map_filter.
    + intros file j. rewrite S, Hsp, slot_at_insert. case_bool_decide as Hf.
      * subst file. rewrite clear_block_lookup, (slot_at_this _ _ _ _ Hσ). case_bool_decide; naive_solver.
      * naive_solver.
    + rewrite U, P, Hct, extra_by_eq. unfold places_in, places_out.
      assert (length (places b) = length (filter (λ fb, fb_file fb = this) (places b)) +
         length (filter (λ fb, fb_file fb ≠ this) (places b)))%nat as ->; [|lia].
      rewrite <- length_app. by rewrite filter_app_complement.
    + by rewrite U.
Qed.

Lemma mark_place p fb :
  wf_place p fb → wf_place p (fb_mark_locally_available fb true) ∧
  spot (fb_mark_locally_available fb true) = spot fb.
Proof.
  intros [Hb Hw]. unfold fb_mark_locally_available, spot, fb_block_index, FB_LOCAL_MASK, FB_INDEX_MASK.
  cbn [fb_block fb_file fb_idx]. split; [split; [done|]|].
  - apply bits_range; [lia|]. intros i Hi. cbn [fb_idx]. rewrite set_mask_bit by lia.
    rewrite (testbit_high _ 32) by (done || lia). destruct (Z.eqb_spec 31 i); [lia|done].
  - f_equal. f_equal. apply Z.bits_inj'. intros i Hi. unfold FB_LOCAL_MASK.
    rewrite !Z.land_spec, set_mask_bit, flip_mask_bit by lia.
    destruct (Z.eqb_spec 31 i); [by rewrite !andb_false_r|by rewrite orb_false_r].
Qed.

Lemma mark_first_spec p this fbs :
  Forall (wf_place p) fbs →
  Forall (wf_place p) (mark_first p this fbs) ∧ length (mark_first p this fbs) = length fbs ∧
  map spot (mark_first p this fbs) = map spot fbs.
Proof.
  induction 1 as [|fb fbs Hfb Hfbs (IH1 & IH2 & IH3)]; [done|]. destruct (mark_place p fb Hfb) as [Hm Hs].
  cbn [mark_first]. destruct (fb_matches fb p this); cbn [length map].
  - split_and!; [by constructor|done|by rewrite Hs].
  - split_and!; [by constructor|lia|by rewrite IH3].
Qed.

(** [mark_local_available] touches the availability bits only. *)
Lemma mark_block p b this :
  wf_block p b →
  ∃ b', block_mark_local_available p b this = Ok b' ∧ wf_block p b' ∧ spots b' = spots b ∧
    same_block b b'.
Proof.
  intros H. pose proof (wf_places _ _ H) as Hp. unfold block_mark_local_available.
  pose proof (wf_bit _ _ H) as Hbit. pose proof (wf_union _ _ H) as Hu.
  unfold places in Hp, Hbit. destruct (b_union b) as [fb|fbs] eqn:E.
  - rewrite (wf_single _ _ _ H E). eexists; split; [done|].
    pose proof (Forall_inv Hp) as Hfb. destruct (mark_place p fb Hfb) as [Hm Hs].
    assert (wf_place p (if fb_matches fb p this then fb_mark_locally_available fb true else fb) ∧
      spot (if fb_matches fb p this then fb_mark_locally_available fb true else fb) = spot fb) as [Hm' Hs'].
    { by destruct (fb_matches fb p this). }
    split_and!; [constructor|..]; try done; [apply (wf_counter _ _ H)|by constructor|].
    unfold spots, places. rewrite E. cbn [b_union map]. by rewrite Hs'.
  - rewrite (wf_multi _ _ _ H E). eexists; split; [done|].
    destruct (mark_first_spec p this fbs Hp) as (Hm & Hl & Hs).
    split_and!; [constructor|..]; try done.
    + apply (wf_counter _ _ H).
    + unfold places. cbn [b_union]. by rewrite Hl.
    + cbn [b_union]. by rewrite Hl.
    + unfold spots, places. by rewrite E.
Qed.

(** ** Dropping a block from a file *)

Definition blank_slots (indices : list Z) (bs : list slot) : list slot :=
  fold_left (λ bs i, <[Z.to_nat i := None]> bs) indices bs.

Lemma blank_slots_length indices bs : length (blank_slots indices bs) = length bs.
Proof.
  revert bs. induction indices as [|i indices IH]; intros bs; [done|].
  cbn [blank_slots fold_left]. etrans; [apply IH|]. apply length_insert.
Qed.

Lemma blank_slots_lookup indices bs j :
  blank_slots indices bs !! j =
  if bool_decide (j ∈ map Z.to_nat indices) then bs !! j ≫= (λ _, Some None) else bs !! j.
Proof.
  revert bs. induction indices as [|i indices IH]; intros bs.
  { case_bool_decide as H; [by apply not_elem_of_nil in H|done]. }
  cbn [blank_slots fold_left map]. etrans; [apply IH|].
  destruct (decide (j = Z.to_nat i)) as [->|Hne].
  - rewrite (bool_decide_eq_true_2 (_ ∈ _ :: _)) by left.
    destruct (decide (Z.to_nat i < length bs)%nat).
    + rewrite list_lookup_insert_eq by done.
      destruct (lookup_lt_is_Some_2 bs (Z.to_nat i)) as [x ->]; [done|]. by case_bool_decide.
    + rewrite !lookup_ge_None_2; [by case_bool_decide|lia|rewrite length_insert; lia].
  - rewrite list_lookup_insert_ne by done.
    assert (j ∈ Z.to_nat i :: map Z.to_nat indices ↔ j ∈ map Z.to_nat indices) as Hiff
      by (rewrite elem_of_cons; naive_solver).
    by rewrite (bool_decide_ext _ _ Hiff).
Qed.

(** Dropping [n] references, one by one, while [n] are held. *)
Lemma clear_slots_wf σ E h p indices bs n :
  wf_heap σ E h → Z.of_nat (length indices) <= E p → roomy n h → 0 <= n →
  Forall (λ i, (Z.to_nat i < length bs)%nat) indices →
  ∃ h', clear_slots p indices bs h = Ok (blank_slots indices bs, h') ∧
    wf_heap σ (extra_by E p (- Z.of_nat (length indices))) h' ∧ roomy n h' ∧ shrinks h h'.
Proof.
  revert E h bs. induction indices as [|i indices IH]; intros E h bs H HE Hr Hn Hi.
  - exists h. split_and!; [done| |done|done]. eapply wf_heap_ext; [|exact H].
    intros q. unfold extra_by. case_bool_decide; cbn; lia.
  - apply Forall_cons in Hi as [Hi Hrest]. cbn [length] in HE. cbn [clear_slots].
    apply Nat.ltb_lt in Hi. rewrite Hi. cbn [assert res_bind].
    destruct (release_wf σ E h p n) as (h1 & -> & H1 & Hr1 & Hs1); [done|lia|done|done|].
    cbn [res_bind].
    destruct (IH (extra_by E p (-1)) h1 (<[Z.to_nat i := None]> bs)) as (h' & Heq & Hw & Hr' & Hs'); try done.
    + rewrite extra_by_eq. lia.
    + by rewrite length_insert.
    + exists h'. split_and!; [done| |done|by etrans].
      eapply wf_heap_ext; [|exact Hw]. intros q. unfold extra_by. cbn [length]. case_bool_decide; lia.
Qed.

Lemma spots_in p b this j :
  wf_block p b → (j ∈ map Z.to_nat (map fb_block_index (places_in this b)) ↔ (this, j) ∈ spots b).
Proof.
  intros H. rewrite map_map. unfold spots, places_in. rewrite !list_elem_of_fmap.
  setoid_rewrite list_elem_of_filter. unfold spot. naive_solver.
Qed.

Lemma blank_slots_clear σ E p b this bs :
  wf_cell σ E p b → σ !! this = Some bs →
  blank_slots (map fb_block_index (places_in this b)) bs = clear_block p bs ∧
  Forall (λ i, (Z.to_nat i < length bs)%nat) (map fb_block_index (places_in this b)).
Proof.
  intros H Hσ. pose proof (cell_block _ _ _ _ H) as Hw.
  assert (∀ j, j ∈ map Z.to_nat (map fb_block_index (places_in this b)) ↔
            (s ← bs !! j; slot_block s) = Some p) as Hj.
  { intros j. rewrite (spots_in p) by done. rewrite (cell_spots _ _ _ _ H).
    by rewrite (slot_at_this _ _ _ _ Hσ). }
  split.
  - apply list_eq. intros j. rewrite blank_slots_lookup.
    unfold clear_block. change (@map slot slot) with (@fmap list _ slot slot). rewrite list_lookup_fmap.
    rewrite (bool_decide_ext _ _ (Hj j)). destruct (bs !! j) as [s|]; cbn; [|by case_bool_decide].
    by case_bool_decide.
  - apply Forall_forall. intros i Hi. eapply list_elem_of_fmap_2 in Hi. apply Hj in Hi.
    destruct (bs !! Z.to_nat i) eqn:Hl; [by eapply lookup_lt_Some|done].
Qed.

Lemma remove_block_wf σ E h this f bs i p n :
  wf_heap σ E h → σ !! this = Some bs → f_content f = FileContent bs → is_file f = true →
  slot_at σ this i = Some p → roomy n h → 0 <= n →
  ∃ h', remove_block this f h (Some p) = Ok (with_content f (FileContent (clear_block p bs)), h') ∧
    wf_heap (<[this := clear_block p bs]> σ) E h' ∧ roomy n h' ∧ shrinks h h'.
Proof.
  intros H Hσ Hf Hfile Hi Hr Hn.
  destruct (slot_at_alive _ _ _ _ _ _ H Hi) as (b & Hb & Hc).
  destruct (unlink_cell _ _ _ _ _ _ _ Hc Hσ Hi) as [Hu Hc'].
  destruct (blank_slots_clear _ _ _ _ _ _ Hc Hσ) as [Hbl Hrange].
  set (b' := with_places b (places_out this b)) in *.
  set (idx := map fb_block_index (places_in this b)) in *.
  assert (length idx = length (places_in this b)) as Hlen by apply length_map.
  assert (same_block b b') as (Sh & Ss & Su & _).
  { apply (with_places_spec p b); [apply (wf_counter _ _ (cell_block _ _ _ _ Hc))|].
    by apply places_out_wf, Hc. }
  pose proof (heap_extra _ _ _ H p).
  edestruct (clear_slots_wf (<[this := clear_block p bs]> σ)
    (extra_by E p (Z.of_nat (length idx))) (<[p := b']> h) p idx bs n) as (h' & Heq & Hw & Hr' & Hs').
  - rewrite Hlen. apply (wf_heap_insert σ); try done; [lia|].
    intros q file j Hne. rewrite slot_at_insert. case_bool_decide as Hfile'; [|done]. subst file.
    rewrite clear_block_lookup, (slot_at_this _ _ _ _ Hσ). case_bool_decide; naive_solver.
  - rewrite extra_by_eq. lia.
  - apply (roomy_insert n); [done|done|]. rewrite Su. by apply (Hr p).
  - done.
  - done.
  - exists h'. split_and!.
    + unfold remove_block, deref, file_blocks. rewrite Hfile, Hb, Hf. cbn [assert res_bind].
      rewrite Hu. cbn [res_bind]. rewrite Heq. cbn [res_bind]. by rewrite Hbl.
    + eapply wf_heap_ext; [|exact Hw]. intros q. unfold extra_by. case_bool_decide; lia.
    + done.
    + etrans; [|exact Hs']. by apply (shrinks_insert _ _ b).
Qed.

Lemma remove_blocks_loop_wf E this todo : ∀ i σ h f bs n,
  wf_heap σ E h → σ !! this = Some bs → f_content f = FileContent bs → is_file f = true →
  length bs = (i + todo)%nat → (∀ j, (j < i)%nat → bs !! j = Some None) → roomy n h → 0 <= n →
  ∃ h', remove_blocks_loop this todo i f h =
      Ok (with_content f (FileContent (replicate (length bs) None)), h') ∧
    wf_heap (<[this := replicate (length bs) None]> σ) E h' ∧ roomy n h' ∧ shrinks h h'.
Proof.
  induction todo as [|todo IH]; intros i σ h f bs n H Hσ Hf Hfile Hlen Hclear Hr Hn.
  - assert (bs = replicate (length bs) None) as Hbs.
    { apply list_eq. intros j. destruct (decide (j < length bs)%nat) as [Hj|Hj].
      - rewrite Hclear by lia. symmetry. by apply lookup_replicate_2.
      - rewrite lookup_ge_None_2 by lia. symmetry. apply lookup_ge_None_2. rewrite length_replicate. lia. }
    exists h. rewrite <- Hbs. split_and!; [|by rewrite insert_id|done|done].
    cbn [remove_blocks_loop]. f_equal. f_equal. unfold with_content. rewrite <- Hf. by destruct f.
  - cbn [remove_blocks_loop]. unfold file_blocks. rewrite Hf. cbn [res_bind].
    destruct (lookup_lt_is_Some_2 bs i) as [s Hs]; [lia|]. rewrite Hs.
    destruct s as [[p l]|]; cbn [slot_block fmap option_fmap option_map fst].
    + destruct (remove_block_wf σ E h this f bs i p n) as (h1 & -> & H1 & Hr1 & Hs1); try done.
      { by rewrite (slot_at_this _ _ _ _ Hσ), Hs. }
      cbn [res_bind].
      assert (length (clear_block p bs) = length bs) as Hlc by apply length_map.
      destruct (IH (S i) (<[this := clear_block p bs]> σ) h1 (with_content f (FileContent (clear_block p bs)))
        (clear_block p bs) n) as (h' & -> & H' & Hr' & Hs'); try done.
      * by rewrite lookup_insert_eq.
      * lia.
      * intros j Hj. unfold clear_block. change (@map slot slot) with (@fmap list _ slot slot).
        rewrite list_lookup_fmap. destruct (decide (j = i)) as [->|].
        -- rewrite Hs. cbn. by rewrite bool_decide_eq_true_2.
        -- rewrite Hclear by lia. done.
      * rewrite insert_insert_eq, Hlc in H'. rewrite Hlc. exists h'. split_and!; try done. by etrans.
    + unfold remove_block. rewrite Hfile. cbn [assert res_bind].
      apply IH; try done; [lia|]. intros j Hj. destruct (decide (j = i)) as [->|]; [done|].
      apply Hclear. lia.
Qed.

(** ** Flags *)

Lemma has_flag_bit flags n : 0 <= n → has_flag flags (Z.shiftl 1 n) = Z.testbit flags n.
Proof. intros Hn. unfold has_flag. rewrite Z.shiftl_1_l. by apply mask_testbit. Qed.

Lemma set_flag_bit flags n i :
  0 <= n → Z.testbit (set_flag flags (Z.shiftl 1 n)) i = Z.testbit flags i || (n =? i).
Proof. apply set_mask_bit. Qed.

Lemma clear_flag_bit flags n i :
  0 <= n < 16 → 0 <= i →
  Z.testbit (clear_flag flags (Z.shiftl 1 n)) i = Z.testbit flags i && ((i <? 16) && negb (n =? i)).
Proof.
  intros Hn Hi. assert (0 <= 2 ^ n < 2 ^ 16) by (split; [|apply Z.pow_lt_mono_r]; lia).
  unfold clear_flag. by rewrite Z.land_spec, Z.shiftl_1_l, flip_bits, Z.pow2_bits_eqb by lia.
Qed.

Lemma wire_bit i : 0 <= i → Z.testbit WIRE_FLAGS i = (i <? 6).
Proof.
  intros Hi. change WIRE_FLAGS with (Z.ones 6). destruct (Z.ltb_spec i 6).
  - by rewrite Z.ones_spec_low by lia.
  - by rewrite Z.ones_spec_high by lia.
Qed.

Lemma clear_wire_bit flags i :
  0 <= i → Z.testbit (clear_flag flags WIRE_FLAGS) i = Z.testbit flags i && ((i <? 16) && negb (i <? 6)).
Proof.
  intros Hi. unfold clear_flag. rewrite Z.land_spec, flip_bits, wire_bit by (unfold WIRE_FLAGS; lia). done.
Qed.

Lemma mix_flags_bit new old i :
  0 <= i < 16 →
  Z.testbit (Z.lor (Z.land new WIRE_FLAGS) (clear_flag old WIRE_FLAGS)) i =
  if i <? 6 then Z.testbit new i else Z.testbit old i.
Proof.
  intros Hi. rewrite Z.lor_spec, Z.land_spec, wire_bit, clear_wire_bit by lia.
  destruct (Z.ltb_spec i 16); [|lia]. destruct (i <? 6); cbn [negb andb].
  - by rewrite andb_true_r, andb_false_r, orb_false_r.
  - by rewrite andb_false_r, andb_true_r.
Qed.

(** ** Files *)

Definition slots (f : file_info) : list slot :=
  match f_content f with FileContent bs => bs | NonFile _ => [] end.

(** A file has one type; it tells which member of the content is alive; indices fit in a place. *)
Record wf_file (f : file_info) : Prop := {
  file_type : get_type f ∈ [f_type_file; f_type_dir; f_type_link];
  file_member : if is_file f then ∃ bs, f_content f = FileContent bs else ∃ t, f_content f = NonFile t;
  file_length : Z.of_nat (length (slots f)) < 2 ^ 31;
}.

(** All files and all blocks. *)
Record wf_store (files : gmap file_ptr file_info) (E : block_ptr → Z) (h : heap) : Prop := {
  store_heap : wf_heap (slots <$> files) E h;
  store_files : map_Forall (λ _ f, wf_file f) files;
}.

Lemma wf_file_blocks f : wf_file f → is_file f = true → f_content f = FileContent (slots f).
Proof. intros H Hf. destruct H as [_ Hm _]. rewrite Hf in Hm. destruct Hm as [bs Hbs]. unfold slots. by rewrite Hbs. Qed.

Lemma type_bit f i : 0 <= i < 3 → Z.testbit (get_type f) i = Z.testbit (f_flags f) i.
Proof.
  intros Hi. unfold get_type. change 7 with (Z.ones 3).
  rewrite Z.land_spec, Z.ones_spec_low by lia. apply andb_true_r.
Qed.

Lemma wf_file_not_link f : wf_file f → is_file f = true → is_link f = false.
Proof.
  intros H. unfold is_file, is_link, f_type_file, f_type_link. rewrite !has_flag_bit by lia.
  rewrite <- !type_bit by lia. pose proof (file_type _ H) as Ht.
  rewrite !elem_of_cons, elem_of_nil in Ht. by destruct Ht as [-> | [-> | [-> | []]]].
Qed.

Lemma wf_store_insert files E E' h h' this f :
  wf_store files E h → wf_heap (<[this := slots f]> (slots <$> files)) E' h' → wf_file f →
  wf_store (<[this := f]> files) E' h'.
Proof. intros H Hh Hf. split; [by rewrite fmap_insert|]. apply map_Forall_insert_2; [done|apply H]. Qed.

Lemma assign_block_wf σ E h this f bs i p b n :
  wf_heap σ E h → σ !! this = Some bs → f_content f = FileContent bs → is_file f = true →
  bs !! i = Some None → Z.of_nat i < 2 ^ 31 → h !! p = Some b → roomy n h → 0 < n →
  ∃ h', assign_block this f h p i = Ok (with_content f (FileContent (<[i := Some (p, false)]> bs)), h') ∧
    wf_heap (<[this := <[i := Some (p, false)]> bs]> σ) E h' ∧ roomy (n - 1) h' ∧ shrinks h h'.
Proof.
  intros H Hσ Hf Hfile Hi Hlt Hb Hr Hn.
  destruct (add_ref_wf σ E h p b n H Hb Hr Hn) as (Ha & H1 & Hr1 & Hs1).
  set (h1 := <[p := count_by b 1]> h) in *. set (b1 := count_by b 1) in *.
  assert (h1 !! p = Some b1) as Hb1 by apply lookup_insert_eq.
  pose proof (heap_cell _ _ _ H1 _ _ Hb1) as Hc1.
  destruct (link_cell _ _ _ _ _ _ _ false Hc1 Hσ Hi Hlt) as [Hl Hc2].
  set (b2 := with_places b1 _) in *.
  assert (same_block b1 b2) as (Sh & Ss & Su & _).
  { apply (with_places_spec p b1); [apply (wf_counter _ _ (cell_block _ _ _ _ Hc1))|].
    apply Forall_app_2; [apply (wf_places _ _ (cell_block _ _ _ _ Hc1))|].
    constructor; [apply linked_place_wf|done]. }
  exists (<[p := b2]> h1). split_and!.
  - unfold assign_block, file_blocks. rewrite Hf, Hfile, Ha. cbn [assert res_bind].
    rewrite (proj2 (Nat.ltb_lt _ _)) by (by eapply lookup_lt_Some). cbn [assert res_bind].
    rewrite bool_decide_eq_true_2 by done. cbn [assert res_bind].
    unfold deref. rewrite Hb1. cbn [res_bind]. by rewrite Hl.
  - eapply wf_heap_ext; [|eapply (wf_heap_insert σ _ _ (-1)); [exact H1|exact Hc2|..]].
    + intros q. unfold extra_by. case_bool_decide; lia.
    + rewrite extra_by_eq. pose proof (heap_extra _ _ _ H p). lia.
    + intros q file j Hne. rewrite slot_at_insert. case_bool_decide as Hfe; [|done]. subst file.
      rewrite (slot_at_this _ _ _ _ Hσ). destruct (decide (j = i)) as [->|].
      * rewrite Hi, list_lookup_insert_eq by (by eapply lookup_lt_Some). cbn. naive_solver.
      * by rewrite list_lookup_insert_ne.
  - apply (roomy_insert (n - 1)); [done|lia|]. rewrite Su. by apply (Hr1 p).
  - etrans; [exact Hs1|]. by apply (shrinks_insert _ _ b1).
Qed.

Lemma count_local_all bs : (count_local bs =? length bs)%nat = forallb slot_local bs.
Proof.
  unfold count_local. induction bs as [|s bs IH]; [done|]. rewrite filter_cons. cbn [forallb].
  destruct (slot_local s) eqn:E; cbn [andb].
  - rewrite decide_True by done. cbn [length]. by rewrite <- IH.
  - rewrite decide_False by done. cbn [length]. apply Nat.eqb_neq.
    pose proof (length_filter (λ s, slot_local s = true) bs). lia.
Qed.

(** The [f_available] flag is in step with the slots. *)
Definition avail_ok (f : file_info) (bs : list slot) : Prop :=
  has_flag (f_flags f) f_available = negb (bool_decide (bs = [])) && forallb slot_local bs.

(** Changes of flags the block operations make: at most [f_available]. *)
Definition flags_kept (f f' : file_info) : Prop :=
  ∀ i, 0 <= i < 16 → i ≠ 9 → Z.testbit (f_flags f') i = Z.testbit (f_flags f) i.

(** Everything but the flags and the content. *)
Definition same_meta (f f' : file_info) : Prop :=
  f' = with_flags (with_content f (f_content f')) (f_flags f').

Lemma same_meta_trans f g k : same_meta f g → same_meta g k → same_meta f k.
Proof. unfold same_meta. intros -> ->. done. Qed.

Lemma is_file_kept f f' : flags_kept f f' → is_file f' = is_file f.
Proof. intros H. unfold is_file. unfold f_type_file. rewrite !has_flag_bit by lia. by apply H. Qed.

Lemma mark_local_available_wf σ E h this f bs i p n :
  wf_heap σ E h → σ !! this = Some bs → f_content f = FileContent bs → avail_ok f bs →
  bs !! i = Some (Some (p, false)) → roomy n h →
  ∃ f' h', mark_local_available this f h i = Ok (f', h') ∧
    f_content f' = FileContent (<[i := Some (p, true)]> bs) ∧ same_meta f f' ∧ flags_kept f f' ∧
    avail_ok f' (<[i := Some (p, true)]> bs) ∧
    wf_heap (<[this := <[i := Some (p, true)]> bs]> σ) E h' ∧ roomy n h' ∧ shrinks h h'.
Proof.
  intros H Hσ Hf Hav Hi Hr. set (bs' := <[i := Some (p, true)]> bs).
  pose proof (lookup_lt_Some _ _ _ Hi) as Hlt.
  destruct (slot_at_alive σ E h this i p H) as (b & Hb & Hc).
  { by rewrite (slot_at_this _ _ _ _ Hσ), Hi. }
  destruct (mark_block p b this (cell_block _ _ _ _ Hc)) as (b' & Hm & Hw & Hsp & Sh & Ss & Su & _).
  assert (∀ file j, slot_at (<[this := bs']> σ) file j = slot_at σ file j) as Hslots.
  { intros file j. rewrite slot_at_insert. case_bool_decide as Hfe; [|done]. subst file.
    rewrite (slot_at_this _ _ _ _ Hσ). unfold bs'. destruct (decide (j = i)) as [->|].
    - by rewrite list_lookup_insert_eq, Hi.
    - by rewrite list_lookup_insert_ne. }
  assert (wf_heap (<[this := bs']> σ) E (<[p := b']> h)) as Hheap.
  { eapply wf_heap_ext; [|eapply (wf_heap_insert σ _ E 0); [exact H|..]].
    - intros q. unfold extra_by. case_bool_decide; lia.
    - destruct Hc as [_ Hnd Hspots Hct Hal].
      assert (length (places b') = length (places b)) as Hl.
      { apply (f_equal length) in Hsp. unfold spots in Hsp. by rewrite !length_map in Hsp. }
      split; [done|by rewrite Hsp| |rewrite Su, Hl, extra_by_eq; lia|lia].
      intros file j. by rewrite Hsp, Hspots, Hslots.
    - pose proof (heap_extra _ _ _ H p). lia.
    - intros q file j _. by rewrite Hslots. }
  assert (has_flag (f_flags f) f_available = false) as Hfl.
  { rewrite Hav. apply andb_false_intro2. destruct (forallb slot_local bs) eqn:E'; [|done].
    rewrite forallb_forall in E'. specialize (E' (Some (p, false))). cbn in E'.
    symmetry. apply E', list_elem_of_In. by eapply list_elem_of_lookup_2. }
  assert (bs' ≠ []) as Hne.
  { intros Hnil. apply (f_equal length) in Hnil. unfold bs' in Hnil. rewrite length_insert in Hnil.
    cbn in Hnil. lia. }
  unfold mark_local_available, file_blocks, deref. rewrite Hf. cbn [res_bind].
  rewrite (proj2 (Nat.ltb_lt _ _)), Hi by done. cbn [assert res_bind negb]. rewrite Hb. cbn [res_bind].
  rewrite Hm. cbn [res_bind]. fold bs'. cbn [with_content f_flags]. rewrite Hfl, count_local_all. cbn [negb andb].
  assert (roomy n (<[p := b']> h)) as Hr'.
  { apply (roomy_insert n); [done|lia|]. rewrite Su. by apply (Hr p). }
  assert (shrinks h (<[p := b']> h)) by (by apply (shrinks_insert _ _ b)).
  destruct (forallb slot_local bs') eqn:Hall; do 2 eexists; split_and!; try done.
  - intros j Hj Hj9. cbn [with_flags with_content f_flags]. unfold f_available.
    rewrite set_flag_bit by lia. destruct (Z.eqb_spec 9 j); [lia|apply orb_false_r].
  - unfold avail_ok. rewrite Hall, bool_decide_eq_false_2 by done. cbn [with_flags with_content f_flags].
    unfold f_available. rewrite has_flag_bit, set_flag_bit by lia. apply orb_true_r.
  - unfold avail_ok. rewrite Hall. cbn [with_content f_flags]. by rewrite Hfl, andb_false_r.
Qed.

(** ** The update of a file by another *)

(** The slot [update] makes of a slot of the other file: the same block, available if its
    hash is among those that were available before. *)
Definition taken (h : heap) (hashes : list bytes) (s : slot) : slot :=
  match s with
  | None => None
  | Some (p, _) =>
      Some (p, match h !! p with Some b => bool_decide (b_hash b ∈ hashes) | None => false end)
  end.

Lemma taken_shrinks h h' hashes p l b :
  shrinks h h' → h' !! p = Some b →
  taken h hashes (Some (p, l)) = Some (p, bool_decide (b_hash b ∈ hashes)).
Proof. intros Hs Hb. destruct (Hs _ _ Hb) as (b0 & Hb0 & Hh & _). cbn. by rewrite Hb0, Hh. Qed.

Lemma insert_middle {A} (pre : list A) x y post :
  <[length pre := x]> (pre ++ y :: post) = pre ++ x :: post.
Proof. by rewrite insert_app_r_alt, Nat.sub_diag by lia. Qed.

Lemma lookup_middle {A} (pre : list A) y post : (pre ++ y :: post) !! length pre = Some y.
Proof. by rewrite lookup_app_r, Nat.sub_diag by lia. Qed.

Lemma avail_ok_none f pre post : avail_ok f (pre ++ None :: post) → has_flag (f_flags f) f_available = false.
Proof. intros ->. rewrite forallb_app. cbn. by rewrite !andb_false_r. Qed.

(** One turn of the loop, at a slot that is still empty. *)
Lemma update_step_wf E this hashes h0 pre post p l b σ h f n :
  wf_heap σ E h → σ !! this = Some (pre ++ None :: post) →
  f_content f = FileContent (pre ++ None :: post) → is_file f = true →
  avail_ok f (pre ++ None :: post) → shrinks h0 h → Z.of_nat (length pre) < 2 ^ 31 →
  h !! p = Some b → roomy (n + 1) h → 0 <= n →
  let bs' := pre ++ taken h0 hashes (Some (p, l)) :: post in
  ∃ f1 h1 b1 f2 h2,
    assign_block this f h p (length pre) = Ok (f1, h1) ∧ deref h1 p = Ok b1 ∧
    (if bool_decide (b_hash b1 ∈ hashes)
     then mark_local_available this f1 h1 (length pre) else Ok (f1, h1)) = Ok (f2, h2) ∧
    f_content f2 = FileContent bs' ∧ same_meta f f2 ∧ flags_kept f f2 ∧ avail_ok f2 bs' ∧
    wf_heap (<[this := bs']> σ) E h2 ∧ roomy n h2 ∧ shrinks h h2.
Proof.
  intros H Hσ Hf Hfile Hav Hs0 Hlen Hb Hr Hn.
  destruct (assign_block_wf σ E h this f (pre ++ None :: post) (length pre) p b (n + 1))
    as (h1 & Ha & H1 & Hr1 & Hs1); try done; [apply lookup_middle|lia|].
  replace (n + 1 - 1) with n in Hr1 by lia. rewrite insert_middle in Ha, H1.
  set (bs1 := pre ++ Some (p, false) :: post) in *. set (f1 := with_content f (FileContent bs1)) in *.
  assert (slot_at (<[this := bs1]> σ) this (length pre) = Some p) as Hp1.
  { rewrite (slot_at_this _ this bs1) by apply lookup_insert_eq. unfold bs1. by rewrite lookup_middle. }
  destruct (slot_at_alive _ _ _ _ _ _ H1 Hp1) as (b1 & Hb1 & _).
  intros bs'. unfold bs'. rewrite (taken_shrinks h0 h1 _ p l b1) by (done || by etrans).
  assert (avail_ok f1 bs1) as Hav1.
  { unfold avail_ok. cbn [f1 with_content f_flags]. rewrite (avail_ok_none _ _ _ Hav).
    unfold bs1. rewrite forallb_app. cbn. by rewrite !andb_false_r. }
  exists f1, h1, b1. case_bool_decide.
  - destruct (mark_local_available_wf (<[this := bs1]> σ) E h1 this f1 bs1 (length pre) p n)
      as (f2 & h2 & ? & Hf2 & ? & ? & Hav2 & H2 & Hr2 & ?); try done.
    + apply lookup_insert_eq.
    + apply lookup_middle.
    + unfold bs1 in Hf2, Hav2, H2. rewrite insert_insert_eq, insert_middle in H2.
      rewrite insert_middle in Hf2, Hav2. exists f2, h2.
      split_and!; try done; [unfold deref; by rewrite Hb1|by etrans].
  - exists f1, h1. split_and!; try done. unfold deref. by rewrite Hb1.
Qed.

Lemma update_loop_wf E this hashes h0 other : ∀ pre σ h f,
  wf_heap σ E h → σ !! this = Some (pre ++ replicate (length other) None) →
  f_content f = FileContent (pre ++ replicate (length other) None) → is_file f = true →
  avail_ok f (pre ++ replicate (length other) None) → shrinks h0 h →
  Z.of_nat (length pre + length other) < 2 ^ 31 →
  (∀ p l, Some (p, l) ∈ other → ∃ o j, o ≠ this ∧ slot_at σ o j = Some p) →
  roomy (Z.of_nat (length other)) h →
  ∃ f' h', FileInfo.update_loop this hashes (length pre) other f h = Ok (f', h') ∧
    f_content f' = FileContent (pre ++ map (taken h0 hashes) other) ∧ same_meta f f' ∧ flags_kept f f' ∧
    avail_ok f' (pre ++ map (taken h0 hashes) other) ∧
    wf_heap (<[this := pre ++ map (taken h0 hashes) other]> σ) E h' ∧ shrinks h h' ∧ roomy 0 h'.
Proof.
  induction other as [|s other IH]; intros pre σ h f H Hσ Hf Hfile Hav Hs0 Hlen Hlive Hr.
  { cbn [replicate length map] in *. exists f, h. split_and!; try done.
    - unfold same_meta. by destruct f.
    - by rewrite insert_id. }
  cbn [length replicate] in *. rewrite Nat2Z.inj_succ in Hr.
  destruct s as [[p l]|].
  2: { destruct (IH (pre ++ [None]) σ h f) as (f' & h' & He & Hrest).
    all: rewrite <- ?(app_assoc pre [None]); rewrite ?length_app; cbn [app length]; try done; try lia.
    - intros p l Hin. apply (Hlive p l). by right.
    - intros q b Hq. specialize (Hr _ _ Hq). lia.
    - rewrite length_app, Nat.add_1_r in He. cbn [FileInfo.update_loop]. rewrite He.
      rewrite <- (app_assoc pre [None]) in Hrest. cbn [map taken]. eauto. }
  destruct (Hlive p l) as (o & j & Ho & Hoj); [left|].
  destruct (slot_at_alive _ _ _ _ _ _ H Hoj) as (b & Hb & _).
  destruct (update_step_wf E this hashes h0 pre (replicate (length other) None) p l b σ h f
    (Z.of_nat (length other))) as (f1 & h1 & b1 & f2 & h2 & Ha & Hd & He2 & Hf2 & Hm2 & Hk2 & Hav2 & H2 & Hr2 & Hs2);
    try done; try lia.
  cbn [FileInfo.update_loop]. rewrite Ha. cbn [res_bind]. rewrite Hd. cbn [res_bind].
  rewrite He2. cbn [res_bind map].
  set (t := taken h0 hashes (Some (p, l))) in *.
  destruct (IH (pre ++ [t]) (<[this := pre ++ t :: replicate (length other) None]> σ) h2 f2)
    as (f' & h' & He & Hf' & Hm' & Hk' & Hav' & H' & Hs' & Hr').
  all: rewrite <- ?(app_assoc pre [t]); rewrite ?length_app; cbn [app length]; try done; try lia.
  - apply lookup_insert_eq.
  - by rewrite (is_file_kept _ _ Hk2).
  - by etrans.
  - intros q l' Hin. destruct (Hlive q l') as (o' & j' & ? & ?); [by right|].
    exists o', j'. split; [done|]. rewrite slot_at_insert. by rewrite bool_decide_eq_false_2.
  - rewrite length_app, Nat.add_1_r in He. rewrite <- (app_assoc pre [t]) in Hf', Hav', H'.
    rewrite insert_insert_eq in H'. exists f', h'. split_and!; try done.
    + by eapply same_meta_trans.
    + intros k Hk Hk9. by rewrite Hk', Hk2.
    + by etrans.
Qed.

(** The references that [blocks_copy] holds. *)
Definition refs (bs : list slot) (q : block_ptr) : Z :=
  Z.of_nat (length (filter (λ s, slot_block s = Some q) bs)).

Lemma refs_cons s bs q :
  refs (s :: bs) q = (if bool_decide (slot_block s = Some q) then 1 else 0) + refs bs q.
Proof. unfold refs. rewrite filter_cons. case_bool_decide; case_decide; simplify_eq; cbn [length]; lia. Qed.

Lemma add_refs_wf σ bs n : 0 <= n → ∀ E h,
  wf_heap σ E h → (∀ p l, Some (p, l) ∈ bs → ∃ o j, slot_at σ o j = Some p) →
  roomy (n + Z.of_nat (length bs)) h →
  ∃ h', add_refs h bs = Ok h' ∧ wf_heap σ (λ q, E q + refs bs q) h' ∧ roomy n h' ∧ shrinks h h'.
Proof.
  intros Hn. induction bs as [|s bs IH]; intros E h H Hlive Hr.
  { exists h. split_and!; try done.
    - eapply wf_heap_ext; [|exact H]. intros q. change (refs [] q) with 0. lia.
    - intros q b Hq. specialize (Hr _ _ Hq). cbn [length] in Hr. lia. }
  cbn [length] in Hr. rewrite Nat2Z.inj_succ in Hr.
  assert (∀ p l, Some (p, l) ∈ bs → ∃ o j, slot_at σ o j = Some p) as Hlive'.
  { intros p l Hin. apply (Hlive p l). by right. }
  destruct s as [[p l]|]; cbn [add_refs].
  - destruct (Hlive p l) as (o & j & Hoj); [left|].
    destruct (slot_at_alive _ _ _ _ _ _ H Hoj) as (b & Hb & _).
    destruct (add_ref_wf σ E h p b (n + Z.succ (Z.of_nat (length bs)))) as (-> & H1 & Hr1 & Hs1);
      try done; try lia.
    cbn [res_bind]. edestruct IH as (h' & -> & H' & Hr' & Hs'); [exact H1|done| |].
    { intros q c Hq. specialize (Hr1 _ _ Hq). lia. }
    exists h'. split_and!; try done; [|by etrans]. eapply wf_heap_ext; [|exact H'].
    intros q. rewrite refs_cons. unfold extra_by.
    repeat case_bool_decide; cbn in *; simplify_eq; lia.
  - destruct (IH E h) as (h' & -> & H' & Hr' & Hs'); try done.
    { intros q c Hq. specialize (Hr _ _ Hq). lia. }
    exists h'. split_and!; try done.
Qed.

Lemma release_all_wf σ bs : ∀ E h,
  wf_heap σ (λ q, E q + refs bs q) h → (∀ q, 0 <= E q) → roomy 0 h →
  ∃ h', release_all h bs = Ok h' ∧ wf_heap σ E h' ∧ roomy 0 h' ∧ shrinks h h'.
Proof.
  induction bs as [|s bs IH]; intros E h H HE Hr.
  { exists h. split_and!; try done. eapply wf_heap_ext; [|exact H]. intros q. cbv beta. change (refs [] q) with 0. lia. }
  destruct s as [[p l]|]; cbn [release_all].
  - assert (0 <= refs bs p) by (unfold refs; lia). pose proof (HE p).
    destruct (release_wf σ _ h p 0 H) as (h1 & -> & Hh1 & Hr1 & Hs1); try done.
    { rewrite refs_cons, bool_decide_eq_true_2 by done. lia. }
    cbn [res_bind]. destruct (IH E h1) as (h' & -> & H' & Hr' & Hs'); try done.
    + eapply wf_heap_ext; [|exact Hh1]. intros q. unfold extra_by. rewrite refs_cons.
      repeat case_bool_decide; cbn in *; simplify_eq; lia.
    + exists h'. split_and!; try done. by etrans.
  - apply (IH E); try done.
Qed.

(** A hash that has an available place in [this] among the slots [bs]. *)
Definition local_hash (this : file_ptr) (h : heap) (bs : list slot) (x : bytes) : Prop :=
  ∃ p l b fb, Some (p, l) ∈ bs ∧ h !! p = Some b ∧ b_hash b = x ∧
    fb ∈ places b ∧ fb_file fb = this ∧ fb_is_locally_available fb = true.

Lemma local_hashes_spec σ E h this bs :
  wf_heap σ E h → (∀ p l, Some (p, l) ∈ bs → ∃ o j, slot_at σ o j = Some p) →
  ∃ hs, local_hashes this h bs = Ok hs ∧ ∀ x, x ∈ hs ↔ local_hash this h bs x.
Proof.
  intros H. induction bs as [|s bs IH]; intros Hlive.
  { exists []. split; [done|]. intros x. unfold local_hash. set_solver. }
  destruct IH as (hs & Hhs & Hx). { intros p l Hin. apply (Hlive p l). by right. }
  destruct s as [[p l]|]; cbn [local_hashes].
  - destruct (Hlive p l) as (o & j & Hoj); [left|].
    destruct (slot_at_alive _ _ _ _ _ _ H Hoj) as (b & Hb & Hc).
    unfold deref. rewrite Hb. cbn [res_bind].
    rewrite (iterate_blocks_places p b (cell_block _ _ _ _ Hc)). cbn [res_bind]. rewrite Hhs. cbn [res_bind].
    set (c := existsb _ _). assert (c = true ↔ ∃ fb, fb ∈ places b ∧ fb_file fb = this ∧ fb_is_locally_available fb = true) as Hcs.
    { unfold c. rewrite existsb_exists. setoid_rewrite andb_true_iff. setoid_rewrite bool_decide_eq_true.
      setoid_rewrite <- list_elem_of_In. naive_solver. }
    destruct c.
    + exists (b_hash b :: hs). split; [done|]. intros x. rewrite elem_of_cons, Hx. unfold local_hash.
      setoid_rewrite elem_of_cons. naive_solver.
    + exists hs. split; [done|]. intros x. rewrite Hx. unfold local_hash.
      setoid_rewrite elem_of_cons. naive_solver.
  - exists hs. split; [done|]. intros x. rewrite Hx. unfold local_hash.
    setoid_rewrite elem_of_cons. naive_solver.
Qed.

Lemma remove_blocks_wf σ E h this f bs n :
  wf_heap σ E h → σ !! this = Some bs → f_content f = FileContent bs → is_file f = true →
  roomy n h → 0 <= n →
  ∃ h', remove_blocks this f h =
      Ok (with_flags (with_content f (FileContent (replicate (length bs) None)))
            (clear_flag (f_flags f) f_available), h') ∧
    wf_heap (<[this := replicate (length bs) None]> σ) E h' ∧ roomy n h' ∧ shrinks h h'.
Proof.
  intros H Hσ Hf Hfile Hr Hn.
  destruct (remove_blocks_loop_wf E this (length bs) 0 σ h f bs n) as (h' & He & Hrest); try done; [lia|].
  exists h'. split; [|done]. unfold remove_blocks, file_blocks. rewrite Hfile, Hf. cbn [res_bind].
  by rewrite He.
Qed.

Lemma wf_heap_slots σ σ' E h :
  (∀ file i, slot_at σ' file i = slot_at σ file i) → wf_heap σ E h → wf_heap σ' E h.
Proof.
  intros Hs H. split.
  - intros p b Hb. destruct (heap_cell _ _ _ H _ _ Hb). split; try done. intros file i. by rewrite Hs.
  - intros p Hp. destruct (heap_dead _ _ _ H _ Hp) as [? Hd]. split; [done|]. intros file i. by rewrite Hs.
  - apply (heap_extra _ _ _ H).
Qed.

Lemma resize_none n m : resize_slots n (replicate m None) = replicate n None.
Proof.
  unfold resize_slots. rewrite take_replicate, length_replicate.
  change (@repeat slot None (n - m)) with (repeat (@None (block_ptr * bool)) (n - m)).
  replace (repeat None (n - m)) with (replicate (n - m) (@None (block_ptr * bool))).
  - rewrite <- replicate_add. f_equal. lia.
  - induction (n - m)%nat as [|k IH]; [done|]. cbn. by rewrite IH.
Qed.

(** The metadata [update] copies. *)
Definition updated_meta (f other : file_info) : file_info :=
  mkFile (f_key f) (f_name f) (f_modified_s other) (f_modified_by other) (f_sequence other)
    (f_permissions other) (f_modified_ns other) (f_content f) (f_version other) (f_flags f).

(** The middle of [update]: a file takes over the blocks of another file. *)
Lemma update_blocks_wf σ E h this f o bs obs :
  wf_heap σ E h → σ !! this = Some bs → σ !! o = Some obs → o ≠ this →
  f_content f = FileContent bs → is_file f = true →
  Z.of_nat (length obs) < 2 ^ 31 → roomy (Z.of_nat (length bs + length obs)) h →
  ∃ hs h1 f2 h2 f3 h3 h4,
    local_hashes this h bs = Ok hs ∧ (∀ x, x ∈ hs ↔ local_hash this h bs x) ∧
    add_refs h bs = Ok h1 ∧ remove_blocks this f h1 = Ok (f2, h2) ∧
    f_content f2 = FileContent (replicate (length bs) None) ∧
    FileInfo.update_loop this hs 0 obs (with_content f2 (FileContent (replicate (length obs) None))) h2 = Ok (f3, h3) ∧
    release_all h3 bs = Ok h4 ∧
    f_content f3 = FileContent (map (taken h hs) obs) ∧ same_meta f f3 ∧ flags_kept f f3 ∧
    avail_ok f3 (map (taken h hs) obs) ∧
    wf_heap (<[this := map (taken h hs) obs]> σ) E h4 ∧ shrinks h h4.
Proof.
  intros H Hσ Ho Hne Hf Hfile Hlen Hr. rewrite Nat2Z.inj_add in Hr.
  assert (∀ p l, Some (p, l) ∈ bs → ∃ o j, slot_at σ o j = Some p) as Hlive.
  { intros p l [i Hi]%list_elem_of_lookup. exists this, i. by rewrite (slot_at_this _ _ _ _ Hσ), Hi. }
  destruct (local_hashes_spec σ E h this bs H Hlive) as (hs & Hhs & Hx).
  destruct (add_refs_wf σ bs (Z.of_nat (length obs)) ltac:(lia) E h H Hlive) as (h1 & Ha & H1 & Hr1 & Hs1).
  { intros q b Hq. specialize (Hr _ _ Hq). lia. }
  destruct (remove_blocks_wf σ _ h1 this f bs (Z.of_nat (length obs)) H1 Hσ Hf Hfile Hr1 ltac:(lia))
    as (h2 & Hrm & H2 & Hr2 & Hs2).
  set (f2 := with_flags _ _) in Hrm.
  assert (flags_kept f f2) as Hk2.
  { intros i Hi Hi9. cbn [f2 with_flags f_flags]. unfold f_available. rewrite clear_flag_bit by lia.
    destruct (Z.ltb_spec i 16), (Z.eqb_spec 9 i); try lia. apply andb_true_r. }
  set (σ2 := <[this := replicate (length obs) None]> σ).
  destruct (update_loop_wf (λ q, E q + refs bs q) this hs h obs [] σ2 h2
    (with_content f2 (FileContent (replicate (length obs) None))))
    as (f3 & h3 & Hu & Hf3 & Hm3 & Hk3 & Hav3 & H3 & Hs3 & Hr3); cbn [app]; try done.
  - eapply wf_heap_slots; [|exact H2]. intros file i. unfold σ2. rewrite !slot_at_insert.
    case_bool_decide; [|done].
    destruct (replicate _ _ !! i) eqn:E1 at 1; [apply lookup_replicate in E1 as [-> _]|];
    destruct (replicate _ _ !! i) eqn:E2 at 1; [apply lookup_replicate in E2 as [-> _]| |apply lookup_replicate in E2 as [-> _]|]; done.
  - apply lookup_insert_eq.
  - by rewrite <- (is_file_kept _ _ Hk2) in Hfile.
  - unfold avail_ok. cbn [with_content f2 with_flags f_flags]. unfold f_available.
    rewrite has_flag_bit, clear_flag_bit by lia. cbn [negb andb]. rewrite !andb_false_r.
    by destruct obs.
  - by etrans.
  - intros p l [i Hi]%list_elem_of_lookup. exists o, i. split; [done|]. unfold σ2.
    rewrite slot_at_insert, bool_decide_eq_false_2 by done. by rewrite (slot_at_this _ _ _ _ Ho), Hi.
  - destruct (release_all_wf _ bs E h3 H3) as (h4 & Hrel & H4 & _ & Hs4).
    { apply (heap_extra _ _ _ H). } { done. }
    unfold σ2 in H4. rewrite insert_insert_eq in H4.
    exists hs, h1, f2, h2, f3, h3, h4. split_and!; try done.
    + intros i Hi Hi9. rewrite Hk3, <- Hk2 by done. done.
    + etrans; [exact Hs1|]. etrans; [exact Hs2|]. by etrans.
Qed.

(** The slots after [update]: the blocks of the other file, and which of them are local. *)
Lemma taken_block h hs obs : map slot_block (map (taken h hs) obs) = map slot_block obs.
Proof. rewrite map_map. apply map_ext. by intros [[p l]|]. Qed.

Lemma mixed_file f other : is_file (with_flags f (Z.lor (Z.land (f_flags other) WIRE_FLAGS)
  (clear_flag (f_flags f) WIRE_FLAGS))) = is_file other.
Proof.
  unfold is_file, f_type_file. cbn [with_flags f_flags]. rewrite !has_flag_bit by lia.
  by rewrite mix_flags_bit by lia.
Qed.

Lemma mixed_type f other : get_type (with_flags f (Z.lor (Z.land (f_flags other) WIRE_FLAGS)
  (clear_flag (f_flags f) WIRE_FLAGS))) = get_type other.
Proof.
  apply Z.bits_inj'. intros i Hi. destruct (decide (i < 3)).
  - rewrite !type_bit by lia. cbn [with_flags f_flags]. rewrite mix_flags_bit by lia.
    destruct (Z.ltb_spec i 6); [done|lia].
  - unfold get_type. change 7 with (Z.ones 3). by rewrite !Z.land_spec, !Z.ones_spec_high, !andb_false_r by lia.
Qed.

Section operations.
Context (files : gmap file_ptr file_info) (E : block_ptr → Z) (h : heap).
Context (this : file_ptr) (f : file_info).
Context (Hwf : wf_store files E h) (Hthis : files !! this = Some f) (Hfile : is_file f = true).

Lemma store_slots : (slots <$> files) !! this = Some (slots f).
Proof. by rewrite lookup_fmap, Hthis. Qed.

Lemma store_content : f_content f = FileContent (slots f).
Proof. apply wf_file_blocks; [|done]. by apply (store_files _ _ _ Hwf this). Qed.

Lemma wf_file_content bs' fl :
  Z.of_nat (length bs') < 2 ^ 31 → flags_kept f (with_flags f fl) →
  wf_file (with_flags (with_content f (FileContent bs')) fl).
Proof.
  intros Hlen Hk. pose proof (store_files _ _ _ Hwf this f Hthis) as Hw. split.
  - enough (get_type (with_flags (with_content f (FileContent bs')) fl) = get_type f) as ->; [apply Hw|].
    apply Z.bits_inj'. intros i Hi. destruct (decide (i < 3)).
    + rewrite !type_bit by lia. apply (Hk i); lia.
    + unfold get_type. change 7 with (Z.ones 3). by rewrite !Z.land_spec, !Z.ones_spec_high, !andb_false_r by lia.
  - pose proof (is_file_kept _ _ Hk) as Hi. unfold is_file in Hi |- *. cbn [with_flags with_content f_flags f_content] in *.
    rewrite Hi. unfold is_file in Hfile. rewrite Hfile. eauto.
  - done.
Qed.
End operations.

(** ** Properties *)

(** [assign_block] on an empty slot of a file, for a live block with
    room in its counter, passes its assertions, sets exactly that slot, and keeps the store
    consistent: slots and places mirror each other, reference counts are exact, nothing
    dangles. *)
Theorem assign_block_keeps_store files E h this f p b i :
  wf_store files E h → files !! this = Some f → is_file f = true →
  slots f !! i = Some None → h !! p = Some b → roomy 1 h →
  ∃ f' h', assign_block this f h p i = Ok (f', h') ∧
    slots f' = <[i := Some (p, false)]> (slots f) ∧
    wf_store (<[this := f']> files) E h' ∧ shrinks h h'.
Proof.
  intros Hwf Hthis Hfile Hi Hb Hr.
  pose proof (store_files _ _ _ Hwf this f Hthis) as Hw. pose proof (file_length _ Hw).
  pose proof (lookup_lt_Some _ _ _ Hi).
  destruct (assign_block_wf (slots <$> files) E h this f (slots f) i p b 1) as (h' & He & H' & _ & Hs');
    try done; try apply Hwf; try (by apply store_slots); try (by eapply store_content); try lia.
  do 2 eexists. split_and!; [exact He|done| |done]. eapply wf_store_insert; [done|done|].
  replace (with_content _ _) with (with_flags (with_content f (FileContent (<[i := Some (p, false)]> (slots f)))) (f_flags f)) by done.
  eapply wf_file_content; try done. by rewrite length_insert.
Qed.

(** [remove_blocks] passes its assertions on every consistent store: it
    empties every slot of the file (however often a block repeats in it), unlinks the file from
    every block it used and drops one reference per slot; blocks nobody else uses are
    freed, and the store is consistent again. *)
Theorem remove_blocks_keeps_store files E h this f :
  wf_store files E h → files !! this = Some f → is_file f = true → roomy 0 h →
  ∃ f' h', remove_blocks this f h = Ok (f', h') ∧
    slots f' = replicate (length (slots f)) None ∧ has_flag (f_flags f') f_available = false ∧
    wf_store (<[this := f']> files) E h' ∧ shrinks h h'.
Proof.
  intros Hwf Hthis Hfile Hr.
  pose proof (store_files _ _ _ Hwf this f Hthis) as Hw. pose proof (file_length _ Hw).
  destruct (remove_blocks_wf (slots <$> files) E h this f (slots f) 0) as (h' & He & H' & _ & Hs');
    try done; try apply Hwf; try (by apply store_slots); try (by eapply store_content).
  do 2 eexists. split_and!; [exact He|done| | |done].
  - cbn [with_flags f_flags]. unfold f_available. rewrite has_flag_bit, clear_flag_bit by lia.
    cbn. by rewrite andb_false_r.
  - eapply wf_store_insert; [done|done|]. eapply wf_file_content; try done; [by rewrite length_replicate|].
    intros i Hi Hi9. cbn [with_flags f_flags]. unfold f_available. rewrite clear_flag_bit by lia.
    destruct (Z.ltb_spec i 16), (Z.eqb_spec 9 i); try lia. apply andb_true_r.
Qed.

Lemma update_file_wf files E h this f o other :
  wf_store files E h → files !! this = Some f → files !! o = Some other → o ≠ this →
  is_file f = true → is_file other = true → f_name f = f_name other →
  get_uuid f = get_uuid other ∨ identical_to (f_version f) (f_version other) = true →
  roomy (Z.of_nat (length (slots f) + length (slots other))) h →
  ∃ f' h', update_file this f h other = Ok (f', h') ∧ wf_store (<[this := f']> files) E h' ∧
    f' = with_flags (with_content (updated_meta f other) (f_content f')) (f_flags f') ∧
    map slot_block (slots f') = map slot_block (slots other) ∧
    (∀ p l b, Some (p, l) ∈ slots f' → h !! p = Some b →
       (l = true ↔ local_hash this h (slots f) (b_hash b))) ∧
    is_locally_available f' = Ok (forallb slot_local (slots f')) ∧
    (∀ i, 0 <= i < 9 → Z.testbit (f_flags f') i = Z.testbit (f_flags (if i <? 6 then other else f)) i) ∧
    shrinks h h'.
Proof.
  intros Hwf Hthis Ho Hne Hfile Hofile Hname Hver Hr.
  pose proof (store_files _ _ _ Hwf this f Hthis) as Hw.
  pose proof (store_files _ _ _ Hwf o other Ho) as Hwo.
  pose proof (wf_file_blocks _ Hw Hfile) as Hc. pose proof (wf_file_blocks _ Hwo Hofile) as Hco.
  set (f0 := updated_meta f other).
  destruct (update_blocks_wf (slots <$> files) E h this f0 o (slots f) (slots other))
    as (hs & h1 & f2 & h2 & f3 & h3 & h4 & Hhs & Hx & Ha & Hrm & Hf2 & Hu & Hrel & Hf3 & Hm3 & Hk3 & Hav & H4 & Hs4);
    try done; try apply Hwf; try (by apply store_slots); try (by apply Hwo).
  set (f' := with_flags f3 (Z.lor (Z.land (f_flags other) WIRE_FLAGS) (clear_flag (f_flags f3) WIRE_FLAGS))).
  assert (slots f' = map (taken h hs) (slots other)) as Hsl by (unfold slots, f'; cbn; by rewrite Hf3).
  assert (is_file f' = true) as Hf'file by (unfold f'; by rewrite mixed_file).
  exists f', h4. split_and!.
  - unfold update_file. rewrite (wf_file_not_link _ Hw Hfile), Hfile, Hofile. cbn [andb negb].
    rewrite (bool_decide_eq_true_2 _ Hname). cbn [assert res_bind].
    replace (bool_decide _ || _) with true
      by (destruct Hver as [Hv|Hv]; [by rewrite bool_decide_eq_true_2|by rewrite Hv, orb_true_r]).
    cbn [assert res_bind]. fold (updated_meta f other). fold f0. unfold file_blocks.
    change (f_content f0) with (f_content f). rewrite Hc, Hco. cbn [res_bind]. rewrite Hhs. cbn [res_bind].
    rewrite Ha. cbn [res_bind]. rewrite Hrm. cbn [res_bind]. rewrite Hf2. cbn [res_bind].
    rewrite resize_none, Hu. cbn [res_bind]. by rewrite Hrel.
  - eapply wf_store_insert; [done|by rewrite Hsl|]. split.
    + unfold f'. rewrite mixed_type. apply Hwo.
    + rewrite Hf'file. exists (slots f'). by rewrite Hsl.
    + rewrite Hsl, length_map. apply Hwo.
  - unfold f'. rewrite Hm3. done.
  - rewrite Hsl. apply taken_block.
  - intros p l b Hin Hb. rewrite Hsl in Hin.
    apply list_elem_of_fmap in Hin as ([[p' l']|] & Heq & _); [|done]. cbn in Heq. simplify_eq.
    rewrite Hb, bool_decide_eq_true. apply Hx.
  - unfold is_locally_available. rewrite Hf'file. rewrite Hsl.
    replace (has_flag (f_flags f') f_available) with (has_flag (f_flags f3) f_available).
    + rewrite Hav. unfold file_blocks. cbn [f' with_flags f_content]. rewrite Hf3. cbn [res_bind].
      destruct (slots other); [done|]. cbn [map]. rewrite bool_decide_eq_false_2 by done. cbn [negb andb].
      by destruct (forallb _ _).
    + unfold f_available. rewrite !has_flag_bit by lia. cbn [f' with_flags f_flags].
      by rewrite mix_flags_bit by lia.
  - intros i Hi. cbn [f' with_flags f_flags]. rewrite mix_flags_bit by lia.
    destruct (i <? 6); [done|]. rewrite Hk3 by lia. done.
  - done.
Qed.

(** C25: [update] of a regular file by another record of the same name (the next version, which has its uuid, or a peer's
    record with the identical version), itself a regular file, in a consistent store whose reference counters have
    room for the blocks of both, succeeds: the metadata, the version and the blocks become the other's; a block counts as local
    exactly when its content was local in this file before; the file reports itself available exactly when all its
    blocks are; wire flags come from the other file, local flags stay; the store is consistent. *)
Theorem update_file_spec files E h this f o other :
  wf_store files E h → files !! this = Some f → files !! o = Some other → o ≠ this →
  is_file f = true → is_file other = true → f_name f = f_name other →
  get_uuid f = get_uuid other ∨ identical_to (f_version f) (f_version other) = true →
  roomy (Z.of_nat (length (slots f) + length (slots other))) h →
  ∃ f' h', update_file this f h other = Ok (f', h') ∧ wf_store (<[this := f']> files) E h' ∧
    f' = with_flags (with_content (updated_meta f other) (f_content f')) (f_flags f') ∧
    map slot_block (slots f') = map slot_block (slots other) ∧
    (∀ p l b, Some (p, l) ∈ slots f' → h !! p = Some b →
       (l = true ↔ local_hash this h (slots f) (b_hash b))) ∧
    is_locally_available f' = Ok (forallb slot_local (slots f')) ∧
    (∀ i, 0 <= i < 9 → Z.testbit (f_flags f') i = Z.testbit (f_flags (if i <? 6 then other else f)) i) ∧
    shrinks h h'.
Proof. apply update_file_wf. Qed.

(** ** A concrete store *)

(** Blocks that were just created and are held by the map of blocks only. *)
Lemma fresh_heap_wf σ E h :
  (∀ file i, slot_at σ file i = None) →
  (∀ p b, h !! p = Some b → b_union b = Multi [] ∧ b_counter b = E p ∧ 0 < E p < 2 ^ 30) →
  (∀ p, h !! p = None → E p = 0) → wf_heap σ E h.
Proof.
  intros Hs Hb Hd. split.
  - intros p b Hp. destruct (Hb _ _ Hp) as (Hu & Hc & HE).
    assert (places b = []) as Hpl by (unfold places; by rewrite Hu).
    split; [constructor|..]; unfold spots; rewrite ?Hpl, ?use_count_mod, ?Hc, ?Z.mod_small by lia.
    + unfold is_word. lia.
    + rewrite is_single_bit, Hc, (testbit_high _ 30) by lia. done.
    + by rewrite Hu.
    + constructor.
    + constructor.
    + intros file i. rewrite Hs. split; [by intros ?%not_elem_of_nil|done].
    + cbn [length]. lia.
    + lia.
  - intros p Hp. split; [by apply Hd|]. intros file i. by rewrite Hs.
  - intros p. destruct (h !! p) eqn:Hp; [destruct (Hb _ _ Hp) as (_ & _ & ?); lia|rewrite Hd; [lia|done]].
Qed.

Definition sample_file (n : Z) (bs : list slot) : file_info :=
  mkFile (repeat n 32) (chars "a") n n n 420 0 (FileContent bs) [Counter 1 n] f_type_file.

(** File 1 uses block 5, file 2 uses the blocks 5 and 6; the map of blocks has both. *)
Definition sample_E : block_ptr → Z := λ q, if bool_decide (q = 5%positive ∨ q = 6%positive) then 1 else 0.
Definition sample_heap0 : heap :=
  {[ 5%positive := mkBlock (repeat 1 32) (Multi []) 100 1; 6%positive := mkBlock (repeat 2 32) (Multi []) 50 1 ]}.

Definition heap_of (r : res (file_info * heap)) : heap := match r with Ok (_, h) => h | _ => ∅ end.

Definition sample_heap : heap :=
  let h := heap_of (assign_block 1 (sample_file 1 [None]) sample_heap0 5 0) in
  let h := heap_of (assign_block 2 (sample_file 2 [None; None]) h 5 0) in
  heap_of (assign_block 2 (sample_file 2 [Some (5%positive, false); None]) h 6 1).

Definition sample_files : gmap file_ptr file_info :=
  {[ 1%positive := sample_file 1 [Some (5%positive, false)];
     2%positive := sample_file 2 [Some (5%positive, false); Some (6%positive, false)];
     3%positive := sample_file 3 [None] ]}.

Lemma sample_heap0_wf (σ : slot_map) :
  (∀ file i, slot_at σ file i = None) → wf_heap σ sample_E sample_heap0 ∧ roomy 100 sample_heap0.
Proof.
  intros Hσ.
  assert (∀ p b, sample_heap0 !! p = Some b → b_union b = Multi [] ∧ b_counter b = 1 ∧ sample_E p = 1) as Hb.
  { intros p b Hp. unfold sample_heap0 in Hp. apply lookup_insert_Some in Hp as [[<- <-]|[_ Hp]]; [done|].
    by apply lookup_singleton_Some in Hp as [<- <-]. }
  split.
  - apply fresh_heap_wf; [done| |].
    + intros p b Hp. destruct (Hb _ _ Hp) as (-> & -> & ->). done.
    + intros p Hp. unfold sample_E. rewrite bool_decide_eq_false_2; [done|].
      intros [-> | ->]; vm_compute in Hp; done.
  - intros p b Hp. destruct (Hb _ _ Hp) as (_ & Hc & _). unfold use_count. rewrite Hc. done.
Qed.

Lemma sample_slots_none : ∀ file i,
  slot_at {[1%positive := [None]; 2%positive := [None; None]; 3%positive := [None]]} file i = None.
Proof.
  intros file i. unfold slot_at. rewrite !lookup_insert, lookup_singleton.
  repeat case_decide; cbn; [destruct i as [|[|]]|destruct i as [|[|]]|destruct i as [|[|]]|]; try done.
Qed.

Lemma sample_store_wf : wf_store sample_files sample_E sample_heap ∧ roomy 90 sample_heap.
Proof.
  destruct (sample_heap0_wf _ sample_slots_none) as [H0 R0].
  destruct (assign_block_wf _ sample_E sample_heap0 1 (sample_file 1 [None]) [None] 0 5
    (mkBlock (repeat 1 32) (Multi []) 100 1) 100 H0) as (h1 & E1 & H1 & R1 & S1); try done.
  destruct (slot_at_alive _ _ _ 1 0 5 H1) as (b1 & Hb1 & _); [done|].
  destruct (assign_block_wf _ sample_E h1 2 (sample_file 2 [None; None]) [None; None] 0 5 b1 99 H1)
    as (h2 & E2 & H2 & R2 & S2); try done.
  destruct (h2 !! 6%positive) as [b6|] eqn:Hb6; [|by destruct (heap_dead _ _ _ H2 _ Hb6)].
  destruct (assign_block_wf _ sample_E h2 2 (sample_file 2 [Some (5%positive, false); None])
    [Some (5%positive, false); None] 1 6 b6 98 H2) as (h3 & E3 & H3 & R3 & S3); try done.
  assert (sample_heap = h3) as -> by (unfold sample_heap; rewrite E1; cbn [heap_of]; rewrite E2; cbn [heap_of]; by rewrite E3).
  split; [split|].
  - exact H3.
  - unfold sample_files. repeat (apply map_Forall_insert_2; [|try apply map_Forall_singleton]);
      (split; [by left|by eexists|done]).
  - intros p b Hp. specialize (R3 _ _ Hp). lia.
Qed.

Example assign_block_keeps_store_witness :
  ∃ f' h', assign_block 3 (sample_file 3 [None]) sample_heap 6 0 = Ok (f', h') ∧
    slots f' = [Some (6%positive, false)] ∧
    wf_store (<[3%positive := f']> sample_files) sample_E h' ∧ shrinks sample_heap h'.
Proof.
  destruct sample_store_wf as [H R].
  destruct (sample_heap !! 6%positive) as [b|] eqn:Hb; [|by vm_compute in Hb].
  apply (assign_block_keeps_store sample_files sample_E sample_heap 3 (sample_file 3 [None]) 6 b 0); try done.
  intros q c Hq. specialize (R _ _ Hq). lia.
Defined.

Example remove_blocks_keeps_store_witness :
  let f := sample_file 2 [Some (5%positive, false); Some (6%positive, false)] in
  ∃ f' h', remove_blocks 2 f sample_heap = Ok (f', h') ∧
    slots f' = [None; None] ∧ has_flag (f_flags f') f_available = false ∧
    wf_store (<[2%positive := f']> sample_files) sample_E h' ∧ shrinks sample_heap h'.
Proof.
  destruct sample_store_wf as [H R].
  apply (remove_blocks_keeps_store sample_files sample_E sample_heap 2
    (sample_file 2 [Some (5%positive, false); Some (6%positive, false)])); try done.
  intros q c Hq. specialize (R _ _ Hq). lia.
Defined.

Example update_file_spec_witness :
  let f := sample_file 1 [Some (5%positive, false)] in
  let g := sample_file 3 [None] in
  let other := mkFile (f_key f) (f_name f) 9 9 9 420 0 (f_content g) [Counter 1 9] f_type_file in
  ∃ f' h', update_file 1 f sample_heap other = Ok (f', h') ∧ f_sequence f' = 9 ∧
    map slot_block (slots f') = [None].
Proof.
  intros f g other. destruct sample_store_wf as [[H F] R].
  assert (wf_store (<[3%positive := other]> sample_files) sample_E sample_heap) as Hwf.
  { split; [|apply map_Forall_insert_2; [split; [by left|by eexists|done]|done]].
    rewrite fmap_insert, insert_id; done. }
  destruct (update_file_spec (<[3%positive := other]> sample_files) sample_E sample_heap 1 f 3 other)
    as (f' & h' & He & _ & Hf' & Hb & _); try done; [by left| |].
  - intros q c Hq. specialize (R _ _ Hq). cbn [length slots f other f_content g sample_file]. lia.
  - exists f', h'. split_and!; [done|by rewrite Hf'|exact Hb].
Defined.

(** ** Marks, sizes and destruction *)

(** [mark_local_available] on a slot that holds a block and is not marked
    yet passes its assertions, marks that slot only, leaves links and counts consistent, and
    keeps the file-wide flag in step: the file is available exactly when every slot is. *)
Theorem mark_local_available_keeps_store files E h this f i p :
  wf_store files E h → files !! this = Some f → is_file f = true → avail_ok f (slots f) →
  slots f !! i = Some (Some (p, false)) → roomy 0 h →
  ∃ f' h', mark_local_available this f h i = Ok (f', h') ∧
    slots f' = <[i := Some (p, true)]> (slots f) ∧ avail_ok f' (slots f') ∧
    is_locally_available f' = Ok (forallb slot_local (slots f')) ∧
    wf_store (<[this := f']> files) E h' ∧ shrinks h h'.
Proof.
  intros Hwf Hthis Hfile Hav Hi Hr.
  pose proof (store_files _ _ _ Hwf this f Hthis) as Hw. pose proof (file_length _ Hw).
  destruct (mark_local_available_wf (slots <$> files) E h this f (slots f) i p 0)
    as (f' & h' & He & Hc' & Hm' & Hk' & Hav' & H' & _ & Hs');
    try done; try apply Hwf; try (by apply store_slots); try (by eapply store_content).
  assert (slots f' = <[i := Some (p, true)]> (slots f)) as Hsl by (unfold slots at 1; by rewrite Hc').
  exists f', h'. rewrite Hsl. split_and!; try done.
  - unfold is_locally_available. rewrite (is_file_kept _ _ Hk'), Hfile, Hav'.
    unfold file_blocks. rewrite Hc'. cbn [res_bind]. destruct (<[i := _]> (slots f)); [done|].
    rewrite bool_decide_eq_false_2 by done. cbn [negb andb]. by destruct (forallb _ _).
  - eapply wf_store_insert; [done|by rewrite Hsl|]. rewrite Hm', Hc'.
    eapply wf_file_content; try done. by rewrite length_insert.
Qed.

Example mark_local_available_keeps_store_witness :
  let f := sample_file 1 [Some (5%positive, false)] in
  ∃ f' h', mark_local_available 1 f sample_heap 0 = Ok (f', h') ∧
    slots f' = [Some (5%positive, true)] ∧ avail_ok f' (slots f') ∧
    is_locally_available f' = Ok (forallb slot_local (slots f')) ∧
    wf_store (<[1%positive := f']> sample_files) sample_E h' ∧ shrinks sample_heap h'.
Proof.
  destruct sample_store_wf as [H R].
  apply (mark_local_available_keeps_store sample_files sample_E sample_heap 1
    (sample_file 1 [Some (5%positive, false)]) 0 5); try done.
  intros q c Hq. specialize (R _ _ Hq). lia.
Defined.

Lemma destroy_slots_eq p indices : ∀ bs h,
  NoDup (map Z.to_nat indices) → Forall (λ i, ∃ l, bs !! Z.to_nat i = Some (Some (p, l))) indices →
  destroy_slots indices bs h = clear_slots p indices bs h.
Proof.
  induction indices as [|i indices IH]; intros bs h Hnd Hall; [done|].
  cbn [map] in Hnd. apply NoDup_cons in Hnd as [Hi Hnd]. apply Forall_cons in Hall as [[l Hl] Hall].
  cbn [destroy_slots clear_slots]. rewrite Hl, (proj2 (Nat.ltb_lt _ _)) by (by eapply lookup_lt_Some).
  cbn [assert res_bind]. destruct (release h p) as [h'| |]; cbn [res_bind]; [|done..].
  apply IH; [done|]. apply Forall_forall. intros j Hj. rewrite Forall_forall in Hall.
  destruct (Hall j Hj) as [l' Hl']. exists l'. rewrite list_lookup_insert_ne; [done|].
  intros Heq. apply Hi. rewrite Heq. by apply list_elem_of_fmap_2.
Qed.

Lemma places_in_nodup this b :
  NoDup (spots b) → NoDup (map Z.to_nat (map fb_block_index (places_in this b))).
Proof.
  intros Hnd. apply (NoDup_map_filter _ (λ fb, fb_file fb = this)) in Hnd.
  rewrite map_map. unfold places_in.
  apply (NoDup_fmap_1 (pair this)). change (@fmap list _ nat (file_ptr * nat)) with (@map nat (file_ptr * nat)).
  rewrite map_map. erewrite map_ext_in; [exact Hnd|].
  intros fb Hfb%list_elem_of_In. by apply list_elem_of_filter in Hfb as [<- _].
Qed.

(** The destructor's walk is that of [remove_blocks]. *)
Lemma destroy_loop_eq E this todo : ∀ i σ h f bs n,
  wf_heap σ E h → σ !! this = Some bs → f_content f = FileContent bs → is_file f = true →
  length bs = (i + todo)%nat → roomy n h → 0 <= n →
  destroy_loop this todo i bs h =
    let* '(f', h') := remove_blocks_loop this todo i f h in Ok (slots f', h').
Proof.
  induction todo as [|todo IH]; intros i σ h f bs n H Hσ Hf Hfile Hlen Hr Hn.
  { cbn. unfold slots. by rewrite Hf. }
  cbn [destroy_loop remove_blocks_loop]. unfold file_blocks. rewrite Hf. cbn [res_bind].
  destruct (lookup_lt_is_Some_2 bs i) as [s Hs]; [lia|]. rewrite Hs.
  destruct s as [[p l]|]; cbn [slot_block fmap option_fmap option_map fst].
  - assert (slot_at σ this i = Some p) as Hi by by rewrite (slot_at_this _ _ _ _ Hσ), Hs.
    destruct (slot_at_alive _ _ _ _ _ _ H Hi) as (b & Hb & Hc).
    destruct (unlink_cell _ _ _ _ _ _ _ Hc Hσ Hi) as [Hu _].
    destruct (remove_block_wf σ E h this f bs i p n) as (h1 & He & H1 & Hr1 & _); try done.
    rewrite He. cbn [res_bind]. unfold remove_block, file_blocks, deref in He |- *.
    rewrite Hfile, Hb, Hf in He. cbn [assert res_bind] in He. rewrite Hb. cbn [res_bind].
    rewrite Hu in He |- *. cbn [res_bind] in He |- *.
    rewrite (destroy_slots_eq p).
    + apply bind_Ok in He as ([bs' h'] & -> & [= Heq ->]). cbn [res_bind]. subst bs'.
      eapply IH; try done; [apply lookup_insert_eq|]. unfold clear_block. rewrite length_map. lia.
    + by apply places_in_nodup, Hc.
    + apply Forall_forall. intros j Hj. eapply list_elem_of_fmap_2 in Hj.
      apply (spots_in p) in Hj; [|apply Hc]. apply (cell_spots _ _ _ _ Hc) in Hj.
      rewrite (slot_at_this _ _ _ _ Hσ) in Hj. destruct (bs !! Z.to_nat j) as [[[p' l']|]|]; cbn in Hj; simplify_eq. eauto.
  - unfold remove_block. rewrite Hfile. cbn [assert res_bind]. eapply IH; try done. lia.
Qed.

Lemma destroy_file_wf files E h this f :
  wf_store files E h → files !! this = Some f → roomy 0 h →
  ∃ h', destroy_file this f h = Ok h' ∧ wf_store (delete this files) E h' ∧ shrinks h h'.
Proof.
  intros Hwf Hthis Hr. pose proof (store_files _ _ _ Hwf this f Hthis) as Hw.
  assert (∀ h' : heap, (∀ i, (s ← slots f !! i; slot_block s) = None) → wf_heap (slots <$> files) E h' →
    wf_store (delete this files) E h') as Hdel.
  { intros h' Hn H'. split; [|apply map_Forall_delete, Hwf]. eapply wf_heap_slots; [|exact H'].
    intros file i. rewrite fmap_delete. unfold slot_at. destruct (decide (file = this)) as [->|].
    - rewrite lookup_delete_eq, lookup_fmap, Hthis. cbn. symmetry. apply Hn.
    - by rewrite lookup_delete_ne. }
  unfold destroy_file. destruct (is_file f) eqn:Hfile.
  - pose proof (wf_file_blocks _ Hw Hfile) as Hc. unfold file_blocks. rewrite Hc. cbn [res_bind].
    rewrite (destroy_loop_eq E this (length (slots f)) 0 (slots <$> files) h f (slots f) 0);
      try done; try apply Hwf; try (by apply store_slots).
    destruct (remove_blocks_loop_wf E this (length (slots f)) 0 (slots <$> files) h f (slots f) 0)
      as (h' & -> & H' & _ & Hs'); try done; try apply Hwf; try (by apply store_slots); [lia|].
    cbn [res_bind]. exists h'. split_and!; try done. split; [|apply map_Forall_delete, Hwf].
    eapply wf_heap_slots; [|exact H']. intros file i. rewrite fmap_delete, slot_at_insert.
    case_bool_decide; subst; unfold slot_at.
    + rewrite lookup_delete_eq. cbn. symmetry. destruct (replicate _ _ !! i) eqn:E1; [|done].
      by apply lookup_replicate in E1 as [-> _].
    + by rewrite lookup_delete_ne.
  - exists h. split_and!; [done| |done]. apply Hdel; [|apply Hwf]. intros i.
    pose proof (file_member _ Hw) as Hm. rewrite Hfile in Hm. destruct Hm as [t Ht].
    unfold slots. by rewrite Ht.
Qed.

(** Destroying a file gives every one of its references back: the walk never
    releases a block twice or reads a cleared slot, the store without the file is
    consistent, and blocks that only the file used are freed. *)
Theorem destroy_file_keeps_store files E h this f :
  wf_store files E h → files !! this = Some f → roomy 0 h →
  ∃ h', destroy_file this f h = Ok h' ∧ wf_store (delete this files) E h' ∧ shrinks h h'.
Proof. apply destroy_file_wf. Qed.

Example destroy_file_keeps_store_witness :
  ∃ h', destroy_file 2 (sample_file 2 [Some (5%positive, false); Some (6%positive, false)]) sample_heap = Ok h' ∧
    wf_store (delete 2%positive sample_files) sample_E h' ∧ shrinks sample_heap h'.
Proof.
  destruct sample_store_wf as [H R].
  apply (destroy_file_keeps_store sample_files sample_E sample_heap 2); try done.
  intros q c Hq. specialize (R _ _ Hq). lia.
Defined.
