(* ===== verification/FileMap.v ===== *)
(** * FileMap: [file_infos_map_t] of [src/model/file_info.cpp], a container with
    three unique indices (uuid, name, sequence). An element is stored with the keys it had
    when it was put; the code takes an element out before it changes its keys. The list is in
    the order of the third, ordered index. *)

From S2P Require Import Prelude Blocks FileInfo.
From Stdlib Require Import Sorted.

Record entry := mkEntry {
  e_file : file_ptr;
  e_uuid : bytes;
  e_name : bytes;
  e_seq : Z;
}.

#[export] Instance entry_eq_dec : EqDecision entry.
Proof. solve_decision. Defined.

Abbreviation file_map := (list entry).

(** [file_details::get_uuid], [get_name], [get_sequence] of an item. *)
Definition entry_of (p : file_ptr) (f : file_info) : entry :=
  mkEntry p (get_uuid f) (f_name f) (f_sequence f).

(** Do two elements share a key, and would they exclude each other? *)
Definition collides (a b : entry) : Prop :=
  e_uuid a = e_uuid b ∨ e_name a = e_name b ∨ e_seq a = e_seq b.

#[export] Instance collides_dec a b : Decision (collides a b).
Proof. unfold collides. apply _. Defined.

(** [by_uuid], [by_name], [by_sequence]. *)
Definition by_uuid (m : file_map) (uuid : bytes) : option file_ptr :=
  e_file <$> head (filter (λ e, e_uuid e = uuid) m).
Definition by_name (m : file_map) (name : bytes) : option file_ptr :=
  e_file <$> head (filter (λ e, e_name e = name) m).
Definition by_sequence (m : file_map) (seq : Z) : option file_ptr :=
  e_file <$> head (filter (λ e, e_seq e = seq) m).

(** [range(lower, upper)]: [lower_bound] up to [upper_bound] of the ordered index. *)
Definition range (m : file_map) (lower upper : Z) : list file_ptr :=
  map e_file (filter (λ e, lower <= e_seq e ∧ e_seq e <= upper) m).

(** Linking an element into the ordered index. *)
Fixpoint insert_entry (e : entry) (m : file_map) : file_map :=
  match m with
  | [] => [e]
  | x :: m => if e_seq e <=? e_seq x then e :: x :: m else x :: insert_entry e m
  end.

(** The element that makes an insertion fail: the indices are tried in their order. *)
Definition blocking (m : file_map) (e : entry) : option entry :=
  match head (filter (λ x, e_uuid x = e_uuid e) m) with
  | Some x => Some x
  | None =>
      match head (filter (λ x, e_name x = e_name e) m) with
      | Some x => Some x
      | None => head (filter (λ x, e_seq x = e_seq e) m)
      end
  end.

Definition erase (m : file_map) (x : entry) : file_map := filter (λ y, y ≠ x) m.

(** [multi_index_container::replace]: refused when another element excludes the new one. *)
Definition replace (m : file_map) (x e : entry) : file_map * bool :=
  let m' := erase m x in
  if bool_decide (Forall (λ y, ¬ collides y e) m') then (insert_entry e m', true) else (m, false).

(** One of the three stages of [put]: [emplace], then [replace] what is in the way. *)
Definition put_stage (m : file_map) (e : entry) (can_replace : bool) : file_map * bool :=
  match blocking m e with
  | None => (insert_entry e m, true)
  | Some x => if can_replace then (fst (replace m x e), true) else (m, false)
  end.

(** [file_infos_map_t::put]: the stages for the three indices; the last one gives the result. *)
Definition put (m : file_map) (e : entry) (can_replace : bool) : file_map * bool :=
  let m := fst (put_stage m e can_replace) in
  let m := fst (put_stage m e can_replace) in
  put_stage m e can_replace.

(** [file_infos_map_t::remove]: erased by uuid, by name and by sequence. *)
Definition remove (m : file_map) (e : entry) : file_map :=
  let m := filter (λ x, e_uuid x ≠ e_uuid e) m in
  let m := filter (λ x, e_name x ≠ e_name e) m in
  filter (λ x, e_seq x ≠ e_seq e) m.

(** ** The invariant of the indices *)

(** The keys are unique and the list is in order. *)
Record wf_map (m : file_map) : Prop := {
  map_uuid : NoDup (map e_uuid m);
  map_name : NoDup (map e_name m);
  map_sorted : StronglySorted (λ a b, e_seq a < e_seq b) m;
}.

Lemma insert_entry_perm e m : insert_entry e m ≡ₚ e :: m.
Proof.
  induction m as [|x m IH]; [done|]. cbn. destruct (e_seq e <=? e_seq x); [done|].
  rewrite IH. apply Permutation_swap.
Qed.

Lemma insert_entry_elem x e m : x ∈ insert_entry e m ↔ x = e ∨ x ∈ m.
Proof. rewrite insert_entry_perm. apply elem_of_cons. Qed.

Lemma insert_entry_sorted e m :
  StronglySorted (λ a b, e_seq a < e_seq b) m → Forall (λ x, e_seq x ≠ e_seq e) m →
  StronglySorted (λ a b, e_seq a < e_seq b) (insert_entry e m).
Proof.
  induction 1 as [|x m Hm IH Hx]; intros Hne; cbn; [by repeat constructor|].
  apply Forall_cons in Hne as [Hxe Hne]. destruct (Z.leb_spec (e_seq e) (e_seq x)).
  - constructor; [by constructor|]. constructor; [lia|]. eapply Forall_impl; [exact Hx|]. cbn. lia.
  - constructor; [by apply IH|]. apply Forall_forall. intros y Hy.
    apply insert_entry_elem in Hy as [->|Hy]; [lia|]. rewrite Forall_forall in Hx. by apply Hx.
Qed.

Lemma sorted_filter (P : entry → Prop) `{∀ x, Decision (P x)} m :
  StronglySorted (λ a b, e_seq a < e_seq b) m → StronglySorted (λ a b, e_seq a < e_seq b) (filter P m).
Proof.
  induction 1 as [|x m Hm IH Hx]; [constructor|]. rewrite filter_cons.
  destruct (decide (P x)); [|done]. constructor; [done|]. by apply Forall_filter.
Qed.

Lemma wf_map_filter (P : entry → Prop) `{∀ x, Decision (P x)} m : wf_map m → wf_map (filter P m).
Proof.
  intros [Hu Hn Hs]. split; [by apply NoDup_map_filter|by apply NoDup_map_filter|by apply sorted_filter].
Qed.

Lemma wf_map_insert e m :
  wf_map m → Forall (λ x, ¬ collides x e) m → wf_map (insert_entry e m).
Proof.
  intros [Hu Hn Hs] Hc. rewrite Forall_forall in Hc. unfold collides in Hc. split.
  - rewrite insert_entry_perm. cbn [map]. apply NoDup_cons. split; [|done].
    intros (x & Heq & Hx)%list_elem_of_fmap. apply (Hc x Hx). auto.
  - rewrite insert_entry_perm. cbn [map]. apply NoDup_cons. split; [|done].
    intros (x & Heq & Hx)%list_elem_of_fmap. apply (Hc x Hx). auto.
  - apply insert_entry_sorted; [done|]. apply Forall_forall. intros x Hx Heq. apply (Hc x Hx). auto.
Qed.

(** Keys identify elements. *)
Lemma wf_map_key m a b : wf_map m → a ∈ m → b ∈ m → collides a b → a = b.
Proof.
  intros [Hu Hn Hs] Ha Hb Hc.
  assert (NoDup (map e_seq m)) as Hq.
  { clear -Hs. induction Hs as [|x m Hm IH Hx]; [constructor|]. cbn. apply NoDup_cons. split; [|done].
    intros (y & Heq & Hy)%list_elem_of_fmap. rewrite Forall_forall in Hx. specialize (Hx y Hy). lia. }
  destruct Hc as [Hc|[Hc|Hc]].
  - by apply (NoDup_map_inj e_uuid m).
  - by apply (NoDup_map_inj e_name m).
  - by apply (NoDup_map_inj e_seq m).
Qed.

Lemma head_filter_elem {A} (P : A → Prop) `{∀ x, Decision (P x)} (l : list A) x :
  head (filter P l) = Some x → P x ∧ x ∈ l.
Proof.
  intros Hh. destruct (filter P l) as [|y l'] eqn:E; [done|]. cbn in Hh. simplify_eq.
  apply (list_elem_of_filter P). rewrite E. left.
Qed.

Lemma head_filter_none {A} (P : A → Prop) `{∀ x, Decision (P x)} (l : list A) :
  head (filter P l) = None → Forall (λ x, ¬ P x) l.
Proof.
  intros Hh. destruct (filter P l) as [|y l'] eqn:E; [|done]. apply Forall_forall. intros x Hx HP.
  by apply (filter_nil_not_elem_of _ _ x E HP).
Qed.

Lemma blocking_some m e x : blocking m e = Some x → x ∈ m ∧ collides x e.
Proof.
  unfold blocking, collides. intros Hb.
  destruct (head (filter (λ x, e_uuid x = e_uuid e) m)) eqn:E1; [simplify_eq; apply head_filter_elem in E1; tauto|].
  destruct (head (filter (λ x, e_name x = e_name e) m)) eqn:E2; [simplify_eq; apply head_filter_elem in E2; tauto|].
  apply head_filter_elem in Hb. tauto.
Qed.

Lemma blocking_none m e : blocking m e = None → Forall (λ x, ¬ collides x e) m.
Proof.
  unfold blocking, collides. intros Hb.
  destruct (head (filter (λ x, e_uuid x = e_uuid e) m)) eqn:E1; [done|].
  destruct (head (filter (λ x, e_name x = e_name e) m)) eqn:E2; [done|].
  apply head_filter_none in E1, E2, Hb. rewrite Forall_forall in *. naive_solver.
Qed.

(** ** What [put] does *)

(** An element that excludes every element but at most one. *)
Definition fits (m : file_map) (e : entry) : Prop :=
  ∀ a b, a ∈ m → b ∈ m → collides a e → collides b e → a = b.

Lemma erase_collides m x e :
  fits m e → x ∈ m → collides x e → erase m x = filter (λ y, ¬ collides y e) m.
Proof.
  intros Hf Hx Hc. apply filter_ext, Forall_forall. intros y Hy. split.
  - intros Hne Hcy. destruct Hne. by apply Hf.
  - intros Hn ->. done.
Qed.

(** One stage replaces what is in the way, or changes nothing. *)
Lemma put_stage_fits m e :
  wf_map m → fits m e →
  put_stage m e true = (insert_entry e (filter (λ y, ¬ collides y e) m), true).
Proof.
  intros Hw Hf. unfold put_stage. destruct (blocking m e) as [x|] eqn:Hb.
  - apply blocking_some in Hb as [Hx Hc]. unfold replace. rewrite (erase_collides _ _ e) by done.
    rewrite bool_decide_eq_true_2; [done|]. apply Forall_forall. intros y Hy.
    by apply list_elem_of_filter in Hy as [? _].
  - apply blocking_none in Hb. by rewrite filter_all.
Qed.

Lemma put_stage_refused m e :
  ¬ fits m e → put_stage m e true = (m, true).
Proof.
  intros Hf. unfold put_stage. destruct (blocking m e) as [x|] eqn:Hb.
  - unfold replace. rewrite bool_decide_eq_false_2; [done|]. intros Hall. apply Hf.
    rewrite Forall_forall in Hall. intros a b Ha Hb' Hca Hcb.
    assert (∀ y, y ∈ m → collides y e → y = x) as Hy.
    { intros y Hy Hc. destruct (decide (y = x)); [done|]. exfalso. apply (Hall y); [|done].
      unfold erase. by apply list_elem_of_filter. }
    by rewrite (Hy a), (Hy b).
  - apply blocking_none in Hb. rewrite Forall_forall in Hb. destruct Hf. intros a b Ha Hb' Hca. by destruct (Hb a).
Qed.

Lemma fits_dec m e : fits m e ∨ ¬ fits m e.
Proof.
  destruct (decide (Forall (λ a, Forall (λ b, collides a e → collides b e → a = b) m) m)) as [H|H].
  - left. intros a b Ha Hb. rewrite Forall_forall in H. specialize (H a Ha).
    rewrite Forall_forall in H. by apply H.
  - right. intros Hf. apply H. apply Forall_forall. intros a Ha. apply Forall_forall. intros b Hb. by apply Hf.
Qed.

Lemma collides_refl e : collides e e.
Proof. by left. Qed.

Lemma filter_insert_entry (P : entry → Prop) `{∀ x, Decision (P x)} e m :
  ¬ P e → filter P (insert_entry e m) = filter P m.
Proof.
  intros HP. induction m as [|x m IH]; cbn [insert_entry].
  - by rewrite filter_cons_False.
  - destruct (e_seq e <=? e_seq x); [by rewrite filter_cons_False|]. rewrite !filter_cons. by rewrite IH.
Qed.

(** The map after [put] of an element that fits. *)
Definition put_in (m : file_map) (e : entry) : file_map :=
  insert_entry e (filter (λ y, ¬ collides y e) m).

Lemma put_in_wf m e : wf_map m → wf_map (put_in m e).
Proof.
  intros H. apply wf_map_insert; [by apply wf_map_filter|]. apply Forall_forall. intros y Hy.
  by apply list_elem_of_filter in Hy as [? _].
Qed.

Lemma put_in_elem m e x : x ∈ put_in m e ↔ x = e ∨ (x ∈ m ∧ ¬ collides x e).
Proof. unfold put_in. rewrite insert_entry_elem, list_elem_of_filter. tauto. Qed.

Lemma put_in_again m e : wf_map m → put_stage (put_in m e) e true = (put_in m e, true).
Proof.
  intros H. rewrite put_stage_fits; [|by apply put_in_wf|].
  - unfold put_in. rewrite filter_insert_entry by (intros Hn; apply Hn, collides_refl).
    by rewrite list_filter_filter_l by tauto.
  - intros a b Ha Hb Hca Hcb. rewrite put_in_elem in Ha, Hb. naive_solver.
Qed.

Lemma put_fits m e : wf_map m → fits m e → put m e true = (put_in m e, true).
Proof.
  intros H Hf. unfold put. rewrite (put_stage_fits m e) by done. fold (put_in m e). cbn [fst].
  rewrite put_in_again by done. cbn [fst]. by rewrite put_in_again.
Qed.

Lemma put_refused m e : ¬ fits m e → put m e true = (m, true).
Proof. intros Hf. unfold put. by do 3 (rewrite (put_stage_refused m e Hf); cbn [fst]). Qed.

(** Looking an element up by any of its keys. *)
Lemma lookup_elem m e :
  wf_map m → e ∈ m →
  by_uuid m (e_uuid e) = Some (e_file e) ∧ by_name m (e_name e) = Some (e_file e) ∧
  by_sequence m (e_seq e) = Some (e_file e).
Proof.
  intros H He. unfold by_uuid, by_name, by_sequence.
  assert (∀ (P : entry → Prop) `{∀ x, Decision (P x)}, P e → (∀ x, x ∈ m → P x → collides x e) →
    e_file <$> head (filter P m) = Some (e_file e)) as Hl.
  { intros P HP HPe Hc. destruct (head (filter P m)) as [x|] eqn:Hx.
    - apply head_filter_elem in Hx as [HPx Hx]. by rewrite (wf_map_key m x e H Hx He (Hc x Hx HPx)).
    - apply head_filter_none in Hx. rewrite Forall_forall in Hx. by destruct (Hx e He). }
  split_and!; apply Hl; try done; intros x _ Heq; unfold collides; auto.
Qed.

(** ** Properties *)

(** The three indices stay consistent: [put], with or without replacement, and [remove]
    keep every key unique and the sequence index in order. *)
Theorem file_map_invariant m e r :
  wf_map m → wf_map (fst (put m e r)) ∧ wf_map (remove m e).
Proof.
  intros H. split; [|by repeat apply wf_map_filter]. destruct r.
  - destruct (fits_dec m e) as [Hf|Hf]; [rewrite put_fits by done; by apply put_in_wf|by rewrite put_refused].
  - assert (∀ m, wf_map m → wf_map (fst (put_stage m e false))) as Hs.
    { intros m' Hm'. unfold put_stage. destruct (blocking m' e) eqn:Hb; [done|].
      by apply wf_map_insert, blocking_none. }
    unfold put. by apply Hs, Hs, Hs.
Qed.

(** Two files of a folder. *)
Definition sample_map : file_map :=
  [ mkEntry 1 (chars "u1") (chars "a") 1; mkEntry 2 (chars "u2") (chars "b") 2 ].

Lemma sample_map_wf : wf_map sample_map.
Proof.
  split; [apply (bool_decide_unpack _); by vm_compute|apply (bool_decide_unpack _); by vm_compute|].
  repeat constructor.
Qed.

Example file_map_invariant_witness :
  wf_map (fst (put sample_map (mkEntry 3 (chars "u3") (chars "b") 7) true)) ∧
  wf_map (remove sample_map (mkEntry 3 (chars "u3") (chars "b") 7)).
Proof. apply (file_map_invariant sample_map _ true sample_map_wf). Defined.

(** [put] of a file that excludes at most one stored file replaces that one: the new file
    is found by its uuid, name and sequence, every file that shares no key with it stays, and
    nothing else is in the map. When it excludes two files or more, [put] changes nothing and
    still reports success. [remove] takes out exactly the files that share a key. *)
Theorem file_map_put_spec m e :
  wf_map m →
  (fits m e →
     snd (put m e true) = true ∧
     by_uuid (fst (put m e true)) (e_uuid e) = Some (e_file e) ∧
     by_name (fst (put m e true)) (e_name e) = Some (e_file e) ∧
     by_sequence (fst (put m e true)) (e_seq e) = Some (e_file e) ∧
     (∀ x, x ∈ fst (put m e true) ↔ x = e ∨ (x ∈ m ∧ ¬ collides x e))) ∧
  (¬ fits m e → put m e true = (m, true)) ∧
  (∀ x, x ∈ remove m e ↔ x ∈ m ∧ ¬ collides x e).
Proof.
  intros H. split_and!.
  - intros Hf. rewrite put_fits by done. cbn [fst snd].
    destruct (lookup_elem (put_in m e) e) as (Hu & Hn & Hs); [by apply put_in_wf|apply put_in_elem; by left|].
    split_and!; try done. apply put_in_elem.
  - apply put_refused.
  - intros x. unfold remove. rewrite !list_elem_of_filter. unfold collides. tauto.
Qed.

Example file_map_put_spec_witness :
  by_name (fst (put sample_map (mkEntry 3 (chars "u3") (chars "b") 7) true)) (chars "b") = Some 3%positive.
Proof.
  refine (proj1 (proj2 (proj2 (proj1 (file_map_put_spec sample_map (mkEntry 3 (chars "u3") (chars "b") 7) sample_map_wf) _)))).
  intros a b Ha Hb Hca Hcb. unfold sample_map in Ha, Hb. rewrite !elem_of_cons, elem_of_nil in Ha, Hb.
  unfold collides in Hca, Hcb.
  destruct Ha as [->|[->|[]]], Hb as [->|[->|[]]]; try done; exfalso; vm_compute in Hca, Hcb; naive_solver.
Defined.

(** A file that has the uuid of one stored file and the name of another is silently lost. *)
Example put_loses_file :
  put sample_map (mkEntry 3 (chars "u1") (chars "b") 7) true = (sample_map, true).
Proof. by vm_compute. Qed.

(** [range] lists exactly the files whose sequence lies in the closed interval, in the
    order of their sequences. *)
Theorem file_map_range_spec m lower upper :
  wf_map m →
  ∃ es, range m lower upper = map e_file es ∧ StronglySorted (λ a b, e_seq a < e_seq b) es ∧
    ∀ e, e ∈ es ↔ e ∈ m ∧ lower <= e_seq e <= upper.
Proof.
  intros H. eexists. split_and!; [done|apply sorted_filter, H|].
  intros e. rewrite list_elem_of_filter. tauto.
Qed.

Example file_map_range_spec_witness :
  ∃ es, range sample_map 2 9 = map e_file es ∧ StronglySorted (λ a b, e_seq a < e_seq b) es ∧
    ∀ e, e ∈ es ↔ e ∈ sample_map ∧ 2 <= e_seq e <= 9.
Proof. apply (file_map_range_spec sample_map 2 9 sample_map_wf). Defined.
