(* ===== verification/GenericMap.v ===== *)
(** * GenericMap: [generalized_map_t] of [src/model/misc/map.hpp], the container of
    folders, folder infos and devices: items under [N] unique keys. What an item must provide
    is the class [Keyed] ([get_index<I>] in the code). *)

From S2P Require Import Prelude.

Class Keyed (A : Type) (N : nat) := {
  keys_of : A → list bytes;
  keys_length : ∀ a, length (keys_of a) = N;
}.

Section map.
  Context {A : Type} {N : nat} `{Keyed A N} `{EqDecision A}.

(** The items, in the order they were put. *)
Abbreviation generic_map := (list A).

(** [get_index<I>]. *)
Definition get_index (I : nat) (a : A) : option bytes := keys_of a !! I.

(** Two items that exclude each other: they agree on some index. *)
Definition shares (a b : A) : Prop := Exists (λ I, get_index I a = get_index I b) (seq 0 N).

#[global] Instance shares_dec a b : Decision (shares a b).
Proof. unfold shares. apply _. Defined.

(** [key2item.emplace]. *)
Definition emplace (m : generic_map) (a : A) : generic_map * bool :=
  if decide (Exists (λ x, shares x a) m) then (m, false) else (m ++ [a], true).

(** [generalized_map_t::remove]: erased through each index in turn. *)
Definition gremove (m : generic_map) (a : A) : generic_map :=
  fold_left (λ m I, filter (λ x, get_index I x ≠ get_index I a) m) (seq 0 N) m.

(** [generalized_map_t::put]. *)
Definition gput (m : generic_map) (a : A) (replace : bool) : res (generic_map * bool) :=
  let '(m, inserted) := emplace m a in
  if negb inserted && replace then
    let '(m, inserted) := emplace (gremove m a) a in
    let* _ := assert inserted in Ok (m, inserted)
  else Ok (m, inserted).

(** [generalized_map_t::get<I>]. *)
Definition gget (m : generic_map) (I : nat) (id : bytes) : option A :=
  head (filter (λ x, get_index I x = Some id) m).

(** [generalized_map_t::operator==]: as many items, under the same first keys. *)
Definition gequal (m other : generic_map) : bool :=
  (length m =? length other)%nat &&
  forallb (λ x, match get_index 0 x with
                | Some key => match gget other 0 key with Some _ => true | None => false end
                | None => false end) m.

(** ** Lemmas *)

(** No two stored items exclude each other. *)
Definition wf_gmap (m : generic_map) : Prop :=
  NoDup m ∧ ∀ a b, a ∈ m → b ∈ m → shares a b → a = b.

Lemma shares_alt a b : shares a b ↔ ∃ I, (I < N)%nat ∧ get_index I a = get_index I b.
Proof.
  unfold shares. rewrite Exists_exists. setoid_rewrite elem_of_seq. split.
  - intros (I & HI & Heq). exists I. split; [lia|done].
  - intros (I & HI & Heq). exists I. split; [lia|done].
Qed.

Lemma shares_sym a b : shares a b → shares b a.
Proof. rewrite !shares_alt. naive_solver. Qed.

Lemma gremove_filter m a : gremove m a = filter (λ x, ¬ shares x a) m.
Proof.
  unfold gremove.
  assert (∀ (l : list nat) (m : generic_map), fold_left (λ m I, filter (λ x, get_index I x ≠ get_index I a) m) l m =
    filter (λ x, Forall (λ I, get_index I x ≠ get_index I a) l) m) as Hl.
  { induction l as [|I l IH]; intros m'; cbn [fold_left].
    - symmetry. apply filter_all, Forall_forall. by intros.
    - rewrite IH, list_filter_filter. apply filter_ext, Forall_forall. intros x _.
      rewrite Forall_cons. tauto. }
  rewrite Hl. apply filter_ext, Forall_forall. intros x _.
  rewrite shares_alt, Forall_forall. setoid_rewrite elem_of_seq. split.
  - intros Hx (I & HI & Heq). apply (Hx I); [lia|done].
  - intros Hx I HI Heq. apply Hx. exists I. split; [lia|done].
Qed.

Lemma gremove_elem m a x : x ∈ gremove m a ↔ x ∈ m ∧ ¬ shares x a.
Proof. rewrite gremove_filter, list_elem_of_filter. tauto. Qed.

Lemma gremove_wf m a : wf_gmap m → wf_gmap (gremove m a).
Proof.
  intros [Hnd Hs]. split; [rewrite gremove_filter; by apply NoDup_filter|].
  intros x y. rewrite !gremove_elem. intros [Hx _] [Hy _]. by apply Hs.
Qed.

Lemma emplace_free m a :
  (∀ x, x ∈ m → ¬ shares x a) → emplace m a = (m ++ [a], true).
Proof.
  intros Hf. unfold emplace. rewrite decide_False; [done|].
  rewrite Exists_exists. intros (x & Hx & Hsh). by apply (Hf x).
Qed.

Lemma snoc_wf m a : (0 < N)%nat → wf_gmap m → (∀ x, x ∈ m → ¬ shares x a) → wf_gmap (m ++ [a]).
Proof.
  intros HN [Hnd Hs] Hf.
  assert (shares a a) as Haa by (apply shares_alt; exists 0%nat; done).
  split.
  - apply NoDup_app. split_and!; [done| |apply NoDup_singleton].
    intros x Hx ->%list_elem_of_singleton. by apply (Hf a).
  - intros x y. rewrite !elem_of_app, !list_elem_of_singleton.
    intros [Hx| ->] [Hy| ->] Hsh; [by apply Hs|by destruct (Hf x)|by destruct (Hf y Hy (shares_sym _ _ Hsh))|done].
Qed.

(** The map after a successful [put]. *)
Definition gput_in (m : generic_map) (a : A) : generic_map := gremove m a ++ [a].

Lemma gput_replace m a : gput m a true = Ok (gput_in m a, true).
Proof.
  unfold gput, gput_in. destruct (emplace m a) as [m' r] eqn:E. unfold emplace in E.
  destruct (decide (Exists (λ x, shares x a) m)) as [Hex|Hex]; simplify_eq; cbn [negb andb].
  - rewrite emplace_free; [done|]. intros x Hx. by apply gremove_elem in Hx as [_ ?].
  - rewrite gremove_filter, filter_all; [done|]. apply Forall_forall. intros x Hx Hsh.
    apply Hex, Exists_exists. eauto.
Qed.

Lemma gput_in_wf m a : (0 < N)%nat → wf_gmap m → wf_gmap (gput_in m a).
Proof.
  intros HN Hw. apply snoc_wf; [done|by apply gremove_wf|]. intros x Hx. by apply gremove_elem in Hx as [_ ?].
Qed.

Lemma gput_in_elem m a x : x ∈ gput_in m a ↔ x = a ∨ (x ∈ m ∧ ¬ shares x a).
Proof. unfold gput_in. rewrite elem_of_app, gremove_elem, list_elem_of_singleton. tauto. Qed.

Lemma gget_elem m a I id :
  wf_gmap m → (I < N)%nat → a ∈ m → get_index I a = Some id → gget m I id = Some a.
Proof.
  intros [_ Hs] HI Ha Hid. unfold gget. destruct (filter _ m) as [|x l] eqn:E.
  - by destruct (filter_nil_not_elem_of _ _ a E Hid).
  - cbn. assert (x ∈ filter (λ x, get_index I x = Some id) m) as Hx by (rewrite E; left).
    apply list_elem_of_filter in Hx as [Hx Hxm]. f_equal. apply Hs; [done|done|].
    apply shares_alt. exists I. split; [done|]. by rewrite Hx.
Qed.

Lemma gget_some m I id a : gget m I id = Some a → a ∈ m ∧ get_index I a = Some id.
Proof.
  unfold gget. destruct (filter _ m) as [|x l] eqn:E; [done|]. cbn. intros [= ->].
  assert (a ∈ filter (λ x, get_index I x = Some id) m) as Hx by (rewrite E; left).
  by apply list_elem_of_filter in Hx as [? ?].
Qed.
End map.

(** ** Properties *)

(** [put] with replacement never trips its assertion, keeps all indices unique, evicts
    exactly the items that share a key with the new one (on any index), and afterwards the new
    item is found under each of its keys, while items without a shared key are found as before. *)
Theorem generic_map_put_spec {A N} `{Keyed A N} `{EqDecision A} (m : list A) (a : A) :
  (0 < N)%nat → wf_gmap m →
  ∃ m', gput m a true = Ok (m', true) ∧ wf_gmap m' ∧
    (∀ x, x ∈ m' ↔ x = a ∨ (x ∈ m ∧ ¬ shares x a)) ∧
    (∀ I id, get_index I a = Some id → gget m' I id = Some a) ∧
    (∀ I id x, gget m I id = Some x → ¬ shares x a → gget m' I id = Some x).
Proof.
  intros HN Hw. exists (gput_in m a). split_and!; [apply gput_replace|by apply gput_in_wf|apply gput_in_elem| |].
  - intros I id Hid. apply gget_elem; [by apply gput_in_wf| |apply gput_in_elem; by left|done].
    unfold get_index in Hid. apply lookup_lt_Some in Hid. by rewrite keys_length in Hid.
  - intros I id x Hx Hsh. apply gget_some in Hx as [Hxm Hid].
    apply gget_elem; [by apply gput_in_wf| |apply gput_in_elem; by right|done].
    unfold get_index in Hid. apply lookup_lt_Some in Hid. by rewrite keys_length in Hid.
Qed.

(** An item with two keys. *)
Definition sample_item : Type := bytes * bytes.

#[export] Instance sample_item_eq_dec : EqDecision sample_item.
Proof. unfold sample_item. apply _. Defined.

#[export] Instance sample_keyed : Keyed sample_item 2.
Proof. refine {| keys_of := λ a : sample_item, [a.1; a.2] |}. done. Defined.

(** The new item shares its first key with one stored item and its second with another. *)
Example generic_map_put_spec_witness :
  let m : list sample_item := [(chars "a", chars "x"); (chars "b", chars "y"); (chars "c", chars "z")] in
  let a : sample_item := (chars "a", chars "y") in
  ∃ m', gput m a true = Ok (m', true) ∧ wf_gmap m' ∧
    (∀ x, x ∈ m' ↔ x = a ∨ (x ∈ m ∧ ¬ shares x a)) ∧
    (∀ I id, get_index I a = Some id → gget m' I id = Some a) ∧
    (∀ I id x, gget m I id = Some x → ¬ shares x a → gget m' I id = Some x).
Proof.
  intros m a. apply (generic_map_put_spec m a); [lia|]. split; [apply (bool_decide_unpack _); by vm_compute|].
  intros x y Hx Hy Hsh. unfold m in Hx, Hy. rewrite !elem_of_cons, elem_of_nil in Hx, Hy.
  destruct Hx as [->|[->|[->|[]]]], Hy as [->|[->|[->|[]]]]; try done; exfalso; revert Hsh;
    apply (bool_decide_unpack _); by vm_compute.
Defined.
