(* ===== verification/Device.v ===== *)
(** * Device: [src/model/device_state.cpp] and [src/model/device.cpp]. The
    connection state of a device is a small machine; states of the same token are
    ordered, so that a connection in progress can fall back. *)

From S2P Require Import Prelude Version Proto Base32 Luhn32 DeviceId.

(** ** [device_state_t] *)

Inductive connection_state := offline | unknown | discovering | connecting | connected | online.

#[export] Instance connection_state_eq_dec : EqDecision connection_state.
Proof. solve_decision. Defined.

(** The numeric value of the enumerator. *)
Definition rank (s : connection_state) : Z :=
  match s with
  | offline => 0 | unknown => 1 | discovering => 2 | connecting => 3 | connected => 4 | online => 5
  end.

(** What the code reads of a parsed URL ([boost::urls::url]). *)
Record uri := mkUri {
  u_text : bytes;
  u_scheme : bytes;
  u_port : Z;
}.

#[export] Instance uri_eq_dec : EqDecision uri.
Proof. solve_decision. Defined.

Record device_state := mkState {
  st_token : Z;
  st_connection : connection_state;
  st_url : option uri;
}.

(** [s.find(prefix) == 0]. *)
Fixpoint starts_with (prefix s : bytes) : bool :=
  match prefix, s with
  | [], _ => true
  | a :: prefix, b :: s => (a =? b) && starts_with prefix s
  | _ :: _, [] => false
  end.

Definition is_relay (u : uri) : bool := starts_with (chars "relay") (u_scheme u).
Definition is_tcp (u : uri) : bool := starts_with (chars "tcp") (u_scheme u).

(** [device_state_t::operator<]; both URLs are read when both states are online. *)
Definition state_lt (a b : device_state) : res bool :=
  if decide (st_connection b = st_connection a ∧ st_connection a = online) then
    match st_url a, st_url b with
    | Some lhs, Some rhs =>
        if is_relay lhs && is_tcp rhs then Ok true
        else if is_tcp lhs && is_relay rhs then Ok false
        else Ok (u_port lhs <? u_port rhs)
    | _, _ => Ub
    end
  else Ok (rank (st_connection a) <? rank (st_connection b)).

(** [device_state_t::operator==]. *)
Definition state_eq (a b : device_state) : res bool :=
  if negb (st_token a =? st_token b) || bool_decide (st_connection a ≠ st_connection b) then Ok false
  else if bool_decide (st_connection a ≠ online) then Ok true
  else match st_url a, st_url b with
       | Some _, None | None, Some _ => Ok false
       | Some x, Some y => Ok (bool_decide (u_text x = u_text y))
       | None, None => Ub
       end.

(** [device_state_t::can_roollback_to]. *)
Definition can_roollback_to (s other : device_state) : res bool :=
  if st_token other =? st_token s then state_lt other s else Ok false.

(** [device_state_t::make_offline]: the next token is taken from a global counter. *)
Definition make_offline (next_token_id : Z) : Z * device_state :=
  let next_token_id := u32 (next_token_id + 1) in
  (next_token_id, mkState next_token_id offline None).

Section transitions.
  (** [utils::parse]: the URL parser of Boost. *)
  Variable parse : bytes → option uri.

(** The transitions; each but [offline] asserts the state it leaves. *)
Definition to_offline (s : device_state) : res device_state := Ok (mkState (st_token s) offline None).

Definition to_connecting (s : device_state) : res device_state :=
  let* _ := assert (bool_decide (st_connection s = offline)) in
  Ok (mkState (st_token s) connecting None).

Definition to_connected (s : device_state) : res device_state :=
  let* _ := assert (bool_decide (st_connection s = connecting)) in
  Ok (mkState (st_token s) connected None).

Definition to_discover (s : device_state) : res device_state :=
  let* _ := assert (bool_decide (st_connection s = unknown)) in
  Ok (mkState (st_token s) discovering None).

Definition to_unknown (s : device_state) : res device_state :=
  let* _ := assert (bool_decide (st_connection s = offline)) in
  Ok (mkState (st_token s) unknown None).

Definition to_online (s : device_state) (url : bytes) : res device_state :=
  let* _ := assert (bool_decide (st_connection s = connected)) in
  match parse url with
  | None => Ub
  | Some u =>
      let* _ := assert (is_tcp u || is_relay u) in
      Ok (mkState (st_token s) online (Some u))
  end.

(** [device_state_t::clone]. *)
Definition clone (s : device_state) : device_state := mkState (st_token s) (st_connection s) (st_url s).

(** One step of the machine. *)
Inductive state_step : device_state → device_state → Prop :=
| step_offline s s' : to_offline s = Ok s' → state_step s s'
| step_connecting s s' : to_connecting s = Ok s' → state_step s s'
| step_connected s s' : to_connected s = Ok s' → state_step s s'
| step_discover s s' : to_discover s = Ok s' → state_step s s'
| step_unknown s s' : to_unknown s = Ok s' → state_step s s'
| step_online s url s' : to_online s url = Ok s' → state_step s s'
| step_clone s : state_step s (clone s).

Definition state_steps : device_state → device_state → Prop := rtc state_step.

(** An online state, and no other, has a URL, and it is a direct or a relayed one. *)
Definition wf_state (s : device_state) : Prop :=
  match st_connection s, st_url s with
  | online, Some u => is_tcp u = true ∨ is_relay u = true
  | online, None => False
  | _, None => True
  | _, Some _ => False
  end.

Lemma state_step_inv s s' : state_step s s' → wf_state s → wf_state s' ∧ st_token s' = st_token s.
Proof.
  intros Hst Hw. destruct Hst as [s s' H|s s' H|s s' H|s s' H|s s' H|s url s' H|s]; [..|done];
    unfold to_offline, to_connecting, to_connected, to_discover, to_unknown, to_online in H;
    try (apply bind_Ok in H as (? & _ & H)); try (by simplify_eq/=).
  destruct (parse url) as [u|]; [|done]. apply bind_Ok in H as (v & Hv & H).
  apply assert_Ok in Hv. simplify_eq/=. split; [|done]. unfold wf_state. cbn. by apply orb_true_iff in Hv.
Qed.

Lemma tcp_not_relay u : is_tcp u = true → is_relay u = false.
Proof.
  unfold is_tcp, is_relay. destruct (u_scheme u) as [|a l]; [done|].
  cbn. intros H%andb_true_iff. destruct H as [<-%Z.eqb_eq _]. done.
Qed.

(** The order as a relation on well-formed states: by the rank of the connection, then
    relays before direct connections, then by port. *)
Definition state_key (s : device_state) : Z * Z * Z :=
  match st_url s with
  | Some u => (rank (st_connection s), if is_tcp u then 1 else 0, u_port u)
  | None => (rank (st_connection s), 0, 0)
  end.

Definition key_lt (a b : Z * Z * Z) : bool :=
  let '(a1, a2, a3) := a in let '(b1, b2, b3) := b in
  (a1 <? b1) || ((a1 =? b1) && ((a2 <? b2) || ((a2 =? b2) && (a3 <? b3)))).

Lemma state_lt_key a b : wf_state a → wf_state b → state_lt a b = Ok (key_lt (state_key a) (state_key b)).
Proof.
  intros Ha Hb. unfold state_lt, state_key, wf_state in *.
  destruct a as [ta ca ua], b as [tb cb ub]; cbn [st_connection st_url] in *.
  destruct (decide (cb = ca ∧ ca = online)) as [[-> ->]|Hn].
  - destruct ua as [ua|]; [|done]. destruct ub as [ub|]; [|done].
    pose proof (tcp_not_relay ua) as Ta. pose proof (tcp_not_relay ub) as Tb.
    destruct (is_tcp ua), (is_tcp ub), (is_relay ua), (is_relay ub);
      first [done | by specialize (Ta eq_refl) | by specialize (Tb eq_refl) | by destruct Ha | by destruct Hb].
  - f_equal. destruct ua as [ua|], ub as [ub|], ca, cb; try done; naive_solver.
Qed.
End transitions.

(** ** [device_t] *)

Record device := mkDevice {
  d_id : device_id;
  d_name : bytes;
  d_compression : Compression;
  d_cert_name : option bytes;
  d_uris : list uri;
  d_static_uris : list uri;
  d_introducer : bool;
  d_auto_accept : bool;
  d_paused : bool;
  d_skip_introduction_removals : bool;
  d_state : device_state;
  d_client_name : bytes;
  d_client_version : bytes;
  d_last_seen : Z;
  d_is_local : bool;
}.

(** The loop over the addresses: the first malformed one stops it. *)
Fixpoint parse_addresses (parse : bytes → option uri) (addresses : list bytes) : option (list uri) :=
  match addresses with
  | [] => Some []
  | a :: addresses =>
      match parse a with
      | None => None
      | Some u => (u ::.) <$> parse_addresses parse addresses
      end
  end.

(** [device_t::assign<db::Device>], also [device_t::update]: on a malformed address the other
    fields are assigned already and the device has no addresses left. *)
Definition assign_device (parse : bytes → option uri) (dev : device) (d : DbDevice) : device * res unit :=
  let assigned uris :=
    mkDevice (d_id dev) (dd_name d) (dd_compression d) (Some (dd_cert_name d)) [] uris
      (dd_introducer d) (dd_auto_accept d) (dd_paused d) (dd_skip_introduction_removals d)
      (d_state dev) (d_client_name dev) (d_client_version dev) (dd_last_seen d) (d_is_local dev) in
  match parse_addresses parse (dd_addresses d) with
  | None => (assigned [], Err malformed_url)
  | Some uris => (assigned uris, Ok ())
  end.

(** [device_t::device_t]. *)
Definition make_device (id : device_id) (name cert_name : bytes) (state : device_state) (is_local : bool) : device :=
  mkDevice id name METADATA (Some cert_name) [] [] false false false false state [] [] 0 is_local.

(** [device_t::create(key, db::Device)]. *)
Definition create_device_db (parse : bytes → option uri) (next_token : Z) (key : bytes) (data : DbDevice)
    : res device :=
  match key with
  | [] => Ub
  | prefix :: sha =>
      if negb (prefix =? prefix_device) then Err invalid_device_prefix
      else
        let* id := from_sha256 sha in
        match id with
        | None => Err invalid_device_sha256_digest
        | Some id =>
            let dev := make_device id (dd_name data) (dd_cert_name data) (snd (make_offline next_token)) false in
            let '(dev, ec) := assign_device parse dev data in
            let* _ := ec in Ok dev
        end
  end.

(** [device_t::create(device_id, name, cert_name)]. *)
Definition create_device (next_token : Z) (id : device_id) (name cert_name : bytes) : device :=
  make_device id name cert_name (snd (make_offline next_token)) false.

(** [device_t::serialize]. *)
Definition serialize_device (dev : device) : DbDevice :=
  mkDbDevice (d_name dev) (map u_text (d_static_uris dev)) (d_compression dev)
    (match d_cert_name dev with Some c => c | None => [] end)
    (d_introducer dev) (d_skip_introduction_removals dev) (d_auto_accept dev) (d_paused dev)
    (d_last_seen dev).

(** [device_t::update_state]: contact is recorded when either state is online. *)
Definition update_state (dev : device) (new_state : device_state) (now : Z) : device :=
  let online_now := bool_decide (st_connection new_state = online) || bool_decide (st_connection (d_state dev) = online) in
  mkDevice (d_id dev) (d_name dev) (d_compression dev) (d_cert_name dev) (d_uris dev) (d_static_uris dev)
    (d_introducer dev) (d_auto_accept dev) (d_paused dev) (d_skip_introduction_removals dev)
    new_state (d_client_name dev) (d_client_version dev)
    (if online_now then now else d_last_seen dev) (d_is_local dev).

(** [device_t::update_contact]. *)
Definition update_contact (dev : device) (client_name client_version : bytes) : device :=
  mkDevice (d_id dev) (d_name dev) (d_compression dev) (d_cert_name dev) (d_uris dev) (d_static_uris dev)
    (d_introducer dev) (d_auto_accept dev) (d_paused dev) (d_skip_introduction_removals dev)
    (d_state dev) client_name client_version (d_last_seen dev) (d_is_local dev).

(** [device_t::assign_uris], [set_static_uris], [is_dynamic]. *)
Definition assign_uris (dev : device) (uris : list uri) : device :=
  mkDevice (d_id dev) (d_name dev) (d_compression dev) (d_cert_name dev) uris (d_static_uris dev)
    (d_introducer dev) (d_auto_accept dev) (d_paused dev) (d_skip_introduction_removals dev)
    (d_state dev) (d_client_name dev) (d_client_version dev) (d_last_seen dev) (d_is_local dev).

Definition set_static_uris (dev : device) (uris : list uri) : device :=
  mkDevice (d_id dev) (d_name dev) (d_compression dev) (d_cert_name dev) (d_uris dev) uris
    (d_introducer dev) (d_auto_accept dev) (d_paused dev) (d_skip_introduction_removals dev)
    (d_state dev) (d_client_name dev) (d_client_version dev) (d_last_seen dev) (d_is_local dev).

Definition is_dynamic (dev : device) : bool := bool_decide (d_static_uris dev = []).

(** [device_t::get_key] and its override [local_device_t::get_key]; [local_id] is
    [local_device_id]. *)
Definition device_key (local_id : device_id) (dev : device) : bytes :=
  if d_is_local dev then get_key local_id else get_key (d_id dev).

Lemma parse_addresses_text parse addresses uris :
  (∀ s u, parse s = Some u → u_text u = s) →
  parse_addresses parse addresses = Some uris → map u_text uris = addresses.
Proof.
  intros Hp. revert uris. induction addresses as [|a addresses IH]; intros uris H; cbn in H; [by simplify_eq|].
  destruct (parse a) as [u|] eqn:Hu; [|done]. destruct (parse_addresses parse addresses); [|done].
  cbn in H. simplify_eq. cbn. by rewrite (Hp _ _ Hu), (IH l).
Qed.

Lemma parse_addresses_total parse addresses :
  Forall (λ a, is_Some (parse a)) addresses → is_Some (parse_addresses parse addresses).
Proof.
  induction 1 as [|a addresses [u Hu] _ [us IH]]; [by eexists|]. cbn. rewrite Hu, IH. by eexists.
Qed.

(** ** Properties *)

(** Every state reachable from a fresh offline state through the transitions carries the
    token it started with, and has a (direct or relay) URL exactly when it is online. *)
Theorem device_state_reachable parse counter s :
  state_steps parse (snd (make_offline counter)) s →
  st_token s = u32 (counter + 1) ∧ wf_state s.
Proof.
  intros H. unfold make_offline in H. cbn [snd] in H.
  remember (mkState (u32 (counter + 1)) offline None) as s0 eqn:E.
  assert (wf_state s0 ∧ st_token s0 = u32 (counter + 1)) as [Hw Ht] by (by subst).
  clear E. induction H as [s|s s1 s2 Hst _ IH]; [done|].
  apply state_step_inv in Hst as [Hw1 Ht1]; [|done]. apply IH; [done|by rewrite Ht1].
Qed.

(** A parser that knows one URL. *)
Definition sample_parse (s : bytes) : option uri :=
  if bool_decide (s = chars "tcp://h:7") then Some (mkUri s (chars "tcp") 7) else None.

Example device_state_reachable_witness :
  st_token (mkState 1 online (sample_parse (chars "tcp://h:7"))) = u32 (0 + 1) ∧
  wf_state (mkState 1 online (sample_parse (chars "tcp://h:7"))).
Proof.
  apply (device_state_reachable sample_parse 0).
  apply (rtc_l _ _ (mkState 1 connecting None)); [by apply step_connecting|].
  apply (rtc_l _ _ (mkState 1 connected None)); [by apply step_connected|].
  apply (rtc_l _ _ (mkState 1 online (sample_parse (chars "tcp://h:7")))); [|done].
  by apply step_online with (url := chars "tcp://h:7").
Defined.

(** [operator<] on well-formed states never reads a missing URL and is a strict order:
    irreflexive and transitive; a relay connection is below a direct one, and every
    connection in progress is below an online one. *)
Theorem device_state_order a b c :
  wf_state a → wf_state b → wf_state c →
  state_lt a a = Ok false ∧
  (state_lt a b = Ok true → state_lt b c = Ok true → state_lt a c = Ok true) ∧
  (st_connection b = online → st_connection a ≠ online → state_lt a b = Ok true).
Proof.
  intros Ha Hb Hc. rewrite !state_lt_key by done.
  destruct (state_key a) as [[a1 a2] a3] eqn:Ea, (state_key b) as [[b1 b2] b3] eqn:Eb,
    (state_key c) as [[c1 c2] c3]. cbn [key_lt]. split_and!.
  - f_equal. rewrite !Z.ltb_irrefl. by rewrite !andb_false_r.
  - intros [= Hab] [= Hbc]. f_equal. apply Bool.not_false_is_true. intros Hac. lia.
  - intros Hbo Hao. f_equal. unfold state_key in Ea, Eb. rewrite Hbo in Eb.
    assert (a1 = rank (st_connection a)) as -> by (destruct (st_url a); congruence).
    assert (b1 = 5) as -> by (destruct (st_url b); cbn in Eb; congruence).
    by destruct (st_connection a).
Qed.

Example device_state_order_witness :
  state_lt (mkState 1 connected None) (mkState 1 online (sample_parse (chars "tcp://h:7"))) = Ok true.
Proof.
  refine (proj2 (proj2 (device_state_order (mkState 1 connected None)
    (mkState 1 online (sample_parse (chars "tcp://h:7"))) (mkState 1 offline None) _ _ _)) _ _); try done.
  by left.
Defined.

(** A device loaded from the database writes back exactly what was read, under the key
    it was read from; a key with a wrong prefix, a digest of a wrong length and a malformed
    address are told apart as errors. The URL parser is only required to keep the text. *)
Theorem device_db_roundtrip parse token sha data :
  (∀ s u, parse s = Some u → u_text u = s) → digits 256 sha →
  (length sha = digest_length → Forall (λ a, is_Some (parse a)) (dd_addresses data) →
     ∃ dev, create_device_db parse token (prefix_device :: sha) data = Ok dev ∧
       serialize_device dev = data ∧ (∀ local_id, device_key local_id dev = prefix_device :: sha) ∧
       wf_state (d_state dev)) ∧
  (length sha = digest_length → Exists (λ a, parse a = None) (dd_addresses data) →
     create_device_db parse token (prefix_device :: sha) data = Err malformed_url) ∧
  (length sha ≠ digest_length →
     create_device_db parse token (prefix_device :: sha) data = Err invalid_device_sha256_digest) ∧
  (∀ p, p ≠ prefix_device → create_device_db parse token (p :: sha) data = Err invalid_device_prefix).
Proof.
  intros Hp Hsha. split_and!.
  - intros Hlen Hall. destruct (from_sha256_spec sha Hsha Hlen) as (v & H1 & _).
    destruct (parse_addresses_total _ _ Hall) as [us Hus].
    unfold create_device_db. rewrite Z.eqb_refl. cbn [negb]. rewrite H1. cbn [res_bind].
    unfold assign_device. rewrite Hus. cbn [res_bind]. eexists. split_and!; [done| |done|done].
    unfold serialize_device. cbn. rewrite (parse_addresses_text _ _ _ Hp Hus). by destruct data.
  - intros Hlen Hex. destruct (from_sha256_spec sha Hsha Hlen) as (v & H1 & _).
    unfold create_device_db. rewrite Z.eqb_refl. cbn [negb]. rewrite H1. cbn [res_bind].
    unfold assign_device. destruct (parse_addresses parse (dd_addresses data)) eqn:Hus; [|done].
    exfalso. revert l Hus. induction Hex as [a as' Ha|a as' Hex IH]; intros us Hus; cbn in Hus; [by rewrite Ha in Hus|].
    destruct (parse a); [|done]. destruct (parse_addresses parse as') eqn:E; [|done]. by eapply IH.
  - intros Hlen. unfold create_device_db, from_sha256. rewrite Z.eqb_refl. cbn [negb].
    by rewrite bool_decide_eq_true_2 by by rewrite from_sha256_length.
  - intros p Hne. unfold create_device_db. by rewrite (proj2 (Z.eqb_neq _ _)).
Qed.

Example device_db_roundtrip_witness :
  let data := mkDbDevice (chars "peer") [chars "tcp://h:7"] ALWAYS (chars "cert") true false true false 77 in
  ∃ dev, create_device_db sample_parse 4 (prefix_device :: repeat 7 32) data = Ok dev ∧
    serialize_device dev = data ∧ (∀ local_id, device_key local_id dev = prefix_device :: repeat 7 32) ∧
    wf_state (d_state dev).
Proof.
  intros data. refine (proj1 (device_db_roundtrip sample_parse 4 (repeat 7 32) data _ _) _ _).
  - intros s u. unfold sample_parse. case_bool_decide; [|done]. intros [= <-]. done.
  - solve_digits.
  - done.
  - constructor; [by eexists|constructor].
Defined.
