(* ===== verification/Folder.v ===== *)
(** * Folder: [src/model/folder_data.cpp], [folder_info.cpp], [folder.cpp] and
    the parts of [cluster.cpp] that keep state. A folder is shared with devices; for each of
    them a folder info has the device's files, its index number and its highest sequence. *)

From S2P Require Import Prelude Version Proto Base32 Luhn32 DeviceId Device Blocks FileInfo FileMap GenericMap.

(** ** [folder_data_t] *)

(** Paths are kept as the bytes of their generic form. *)
Record folder_data := mkFolderData {
  fd_id : bytes;
  fd_label : bytes;
  fd_path : bytes;
  fd_folder_type : FolderType;
  fd_rescan_interval : Z;
  fd_pull_order : PullOrder;
  fd_scheduled : bool;
  fd_ignore_permissions : bool;
  fd_ignore_delete : bool;
  fd_disable_temp_indixes : bool;
  fd_paused : bool;
  fd_watched : bool;
}.

(** [folder_data_t::assign_fields]. *)
Definition assign_fields (item : DbFolder) : folder_data :=
  mkFolderData (do_id item) (do_label item) (do_path item) (do_folder_type item)
    (do_rescan_interval item) (do_pull_order item) (do_scheduled item) (do_ignore_permissions item)
    (do_ignore_delete item) (do_disable_temp_indexes item) (do_paused item) (do_watched item).

(** [folder_data_t::serialize]. *)
Definition serialize_folder (fd : folder_data) : DbFolder :=
  mkDbFolder (fd_id fd) (fd_label fd) (fd_ignore_permissions fd) (fd_ignore_delete fd)
    (fd_disable_temp_indixes fd) (fd_paused fd) (fd_scheduled fd) (fd_path fd) (fd_folder_type fd)
    (fd_pull_order fd) (fd_rescan_interval fd) (fd_watched fd).

(** ** [folder_info_t] *)

(** [db::prefix::folder_info] and [db::prefix::folder]. *)
Definition prefix_folder_info : Z := 18.
Definition prefix_folder : Z := 17.

Definition folder_info_data_length : nat := uuid_length * 2 + DeviceId.digest_length + 1.
Definition folder_data_length : nat := uuid_length + 1.

(** The device is known by its digest and its key. *)
Record folder_info := mkFolderInfo {
  fi_key : bytes;
  fi_index : Z;
  fi_max_sequence : Z;
  fi_introducer_device_key : bytes;
  fi_device_sha : bytes;
  fi_device_key : bytes;
  fi_files : file_map;
}.

#[export] Instance folder_info_eq_dec : EqDecision folder_info.
Proof. solve_decision. Defined.

(** [folder_info_t::decomposed_key_t]. *)
Record decomposed_key := mkDecomposed {
  dk_folder_info_id : bytes;
  dk_device_key : bytes;
  dk_folder_key : bytes;
}.

(** [folder_info_t::decompose_key]. *)
Definition fi_decompose_key (key : bytes) : res decomposed_key :=
  let* _ := assert (length key =? folder_info_data_length)%nat in
  let device_key := take DeviceId.digest_length (drop 1 key) in
  let folder_id := take uuid_length (drop (1 + length device_key) key) in
  let folder_info_id := take uuid_length (drop (1 + length device_key + length folder_id) key) in
  let* _ := assert (length device_key =? DeviceId.digest_length)%nat in
  let* _ := assert (length folder_id =? uuid_length)%nat in
  Ok (mkDecomposed folder_info_id (prefix_device :: device_key) (prefix_folder :: folder_id)).

(** The fields that [assign_fields] sets, on a new folder info without files. *)
Definition new_folder_info (key : bytes) (device_sha device_key : bytes) (data : DbFolderInfo) : folder_info :=
  mkFolderInfo key (di_index_id data) (di_max_sequence data) (di_introducer_device_key data)
    device_sha device_key [].

(** [folder_info_t::create(key, ...)]. *)
Definition create_folder_info_db (key : bytes) (data : DbFolderInfo) (device_sha device_key folder_key : bytes)
    : res folder_info :=
  if negb (length key =? folder_info_data_length)%nat then Err invalid_folder_info_key_length
  else if bool_decide (head key ≠ Some prefix_folder_info) then Err invalid_folder_info_prefix
  else
    let* _ := assert (bool_decide (take DeviceId.digest_length (drop 1 key) = drop 1 device_key)) in
    let* _ := assert (bool_decide (take uuid_length (drop (DeviceId.digest_length + 1) key) = drop 1 folder_key)) in
    Ok (new_folder_info key device_sha device_key data).

(** [folder_info_t::create(uuid, ...)]. *)
Definition create_folder_info (uuid : bytes) (data : DbFolderInfo) (device_sha device_key folder_key : bytes)
    : folder_info :=
  new_folder_info (prefix_folder_info :: drop 1 device_key ++ drop 1 folder_key ++ uuid)
    device_sha device_key data.

(** [folder_info_t::get_uuid]. *)
Definition fi_get_uuid (fi : folder_info) : bytes :=
  take uuid_length (drop (1 + DeviceId.digest_length + uuid_length) (fi_key fi)).

(** [folder_info_t::serialize]. *)
Definition serialize_folder_info (fi : folder_info) : DbFolderInfo :=
  mkDbFolderInfo (fi_index fi) (fi_max_sequence fi) (fi_introducer_device_key fi).

Definition with_files (fi : folder_info) (max_sequence : Z) (files : file_map) : folder_info :=
  mkFolderInfo (fi_key fi) (fi_index fi) max_sequence (fi_introducer_device_key fi)
    (fi_device_sha fi) (fi_device_key fi) files.

(** [folder_info_t::add_relaxed]. *)
Definition add_relaxed (fi : folder_info) (e : entry) : folder_info :=
  let files := fst (put (fi_files fi) e true) in
  with_files fi (Z.max (fi_max_sequence fi) (e_seq e)) files.

(** [folder_info_t::add_strict]. *)
Definition add_strict (fi : folder_info) (e : entry) : folder_info * bool :=
  if fi_max_sequence fi <? e_seq e then
    (with_files fi (e_seq e) (fst (put (fi_files fi) e true)), true)
  else (fi, false).

(** [folder_info_t::set_index]: a new index forgets the files. *)
Definition set_index (fi : folder_info) (value : Z) : folder_info :=
  if negb (value =? fi_index fi) then
    mkFolderInfo (fi_key fi) value 0 (fi_introducer_device_key fi) (fi_device_sha fi) (fi_device_key fi) []
  else fi.

(** [get_file_infos().remove(file)]. *)
Definition fi_remove (fi : folder_info) (e : entry) : folder_info :=
  with_files fi (fi_max_sequence fi) (remove (fi_files fi) e).

(** [folder_info_t::is_introduced_by]. *)
Definition is_introduced_by (fi : folder_info) (device : device_id) : bool :=
  bool_decide (fi_introducer_device_key fi = get_key device).

(** [folder_infos_map_t]: by uuid, by device digest, by device key. *)
#[export] Instance folder_info_keyed : Keyed folder_info 3.
Proof. refine {| keys_of := λ fi, [fi_get_uuid fi; fi_device_sha fi; fi_device_key fi] |}. done. Defined.

Definition fi_by_uuid (m : list folder_info) (uuid : bytes) : option folder_info := gget m 0 uuid.
Definition by_device_id (m : list folder_info) (device_id : bytes) : option folder_info := gget m 1 device_id.
Definition by_device_key (m : list folder_info) (device_key : bytes) : option folder_info := gget m 2 device_key.

(** ** [folder_t] *)

Record folder := mkFolder {
  fo_key : bytes;
  fo_data : folder_data;
  fo_scan_start : option Z;
  fo_scan_finish : option Z;
  fo_infos : list folder_info;
  fo_synchronizing : Z;
  fo_suspended : bool;
  fo_suspend_reason : option Z;
}.

Definition new_folder (key : bytes) (data : DbFolder) : folder :=
  mkFolder key (assign_fields data) None None [] 0 false None.

(** [folder_t::create(key, db::Folder)]. *)
Definition create_folder_db (key : bytes) (data : DbFolder) : res folder :=
  if negb (length key =? folder_data_length)%nat then Err invalid_folder_key_length
  else if bool_decide (head key ≠ Some prefix_folder) then Err invalid_folder_prefix
  else Ok (new_folder key data).

(** [folder_t::create(uuid, db::Folder)]. *)
Definition create_folder (uuid : bytes) (data : DbFolder) : folder := new_folder (prefix_folder :: uuid) data.

(** [folder_t::get_uuid]. *)
Definition fo_get_uuid (fo : folder) : bytes := take uuid_length (drop 1 (fo_key fo)).

Definition with_infos (fo : folder) (infos : list folder_info) : folder :=
  mkFolder (fo_key fo) (fo_data fo) (fo_scan_start fo) (fo_scan_finish fo) infos
    (fo_synchronizing fo) (fo_suspended fo) (fo_suspend_reason fo).

(** [folder_t::add]. *)
Definition add_info (fo : folder) (fi : folder_info) : res folder :=
  let* '(infos, _) := gput (fo_infos fo) fi true in Ok (with_infos fo infos).

(** [folder_t::is_shared_with]. *)
Definition is_shared_with (fo : folder) (dev : device) : option folder_info :=
  by_device_id (fo_infos fo) (get_sha256 (d_id dev)).

(** [folder_t::set_scan_start], [set_scan_finish], [is_scanning]. *)
Definition set_scan_start (fo : folder) (value : Z) : folder :=
  mkFolder (fo_key fo) (fo_data fo) (Some value) (fo_scan_finish fo) (fo_infos fo)
    (fo_synchronizing fo) (fo_suspended fo) (fo_suspend_reason fo).

Definition set_scan_finish (fo : folder) (value : Z) : res folder :=
  match fo_scan_start fo with
  | None => Ub
  | Some start =>
      let* _ := assert (start <=? value) in
      Ok (mkFolder (fo_key fo) (fo_data fo) (Some start) (Some value) (fo_infos fo)
            (fo_synchronizing fo) (fo_suspended fo) (fo_suspend_reason fo))
  end.

Definition is_scanning (fo : folder) : bool :=
  match fo_scan_start fo, fo_scan_finish fo with
  | None, _ => false
  | Some _, None => true
  | Some start, Some finish => finish <? start
  end.

(** [folder_t::adjust_synchronization], [is_synchronizing]. *)
Definition adjust_synchronization (fo : folder) (delta : Z) : res folder :=
  let synchronizing := fo_synchronizing fo + delta in
  let* _ := assert (0 <=? synchronizing) in
  Ok (mkFolder (fo_key fo) (fo_data fo) (fo_scan_start fo) (fo_scan_finish fo) (fo_infos fo)
        synchronizing (fo_suspended fo) (fo_suspend_reason fo)).

Definition folder_is_synchronizing (fo : folder) : bool := 0 <? fo_synchronizing fo.

(** [folder_t::mark_suspended]. *)
Definition mark_suspended (fo : folder) (value : bool) (ec : option Z) : res folder :=
  let* _ := assert (negb (negb value && bool_decide (ec ≠ None))) in
  Ok (mkFolder (fo_key fo) (fo_data fo) (fo_scan_start fo) (fo_scan_finish fo) (fo_infos fo)
        (fo_synchronizing fo) value ec).

(** [folder_t::generate]: the announcement of a folder to a device it is shared with;
    [device_of] follows [folder_info_t::get_device]. *)
Definition generate_device (device_of : folder_info → device) (fi : folder_info) : PDevice :=
  let d := device_of fi in
  mkPDevice (get_sha256 (d_id d)) (d_name d) [] (d_compression d)
    (match d_cert_name d with Some cn => cn | None => [] end)
    (fi_max_sequence fi) (d_introducer d) (fi_index fi) (d_skip_introduction_removals d).

Definition generate_folder (device_of : folder_info → device) (fo : folder) (target : device) : option PFolder :=
  match is_shared_with fo target with
  | None => None
  | Some _ =>
      let fd := fo_data fo in
      Some (mkPFolder (fd_id fd) (fd_label fd) (bool_decide (fd_folder_type fd = send))
              (fd_ignore_permissions fd) (fd_ignore_delete fd) true (fd_paused fd)
              (map (generate_device device_of) (fo_infos fo)))
  end.

(** [cluster_t::generate]. *)
Definition generate_cluster (device_of : folder_info → device) (folders : list folder) (target : device)
    : ClusterConfig :=
  mkClusterConfig (omap (λ fo, generate_folder device_of fo target) folders).

(** ** Path locks and write requests of [cluster_t] *)

(** [cluster_t::lock] and the destructor of [path_guard_t]; a path is known by its name. *)
Definition lock_path (locked : gset bytes) (path : bytes) : res (gset bytes) :=
  let* _ := assert (bool_decide (path ∉ locked)) in Ok ({[ path ]} ∪ locked).

Definition unlock_path (locked : gset bytes) (path : bytes) : gset bytes := locked ∖ {[ path ]}.

Definition is_path_locked (locked : gset bytes) (path : bytes) : bool := bool_decide (path ∈ locked).

(** [cluster_t::modify_write_requests]. *)
Definition modify_write_requests (write_requests delta : Z) : res Z :=
  let write_requests := write_requests + delta in
  let* _ := assert (0 <=? write_requests) in Ok write_requests.

(** ** Properties *)

(** A folder loaded from the database keeps its key and writes back what was read; keys
    of another length or with another prefix are refused with their own errors. *)
Theorem folder_db_roundtrip key data :
  match create_folder_db key data with
  | Ok fo => serialize_folder (fo_data fo) = data ∧ fo_key fo = key ∧
             key = prefix_folder :: fo_get_uuid fo ∧ length (fo_get_uuid fo) = uuid_length ∧
             is_scanning fo = false ∧ folder_is_synchronizing fo = false
  | Err e => (e = invalid_folder_key_length ∧ length key ≠ folder_data_length) ∨
             (e = invalid_folder_prefix ∧ length key = folder_data_length ∧ head key ≠ Some prefix_folder)
  | Ub => False
  end.
Proof.
  unfold create_folder_db. destruct (Nat.eqb_spec (length key) folder_data_length) as [Hl|Hl]; cbn [negb].
  - case_bool_decide as Hp; [by right|]. destruct key as [|p key]; [done|]. cbn in Hp.
    destruct (decide (p = prefix_folder)) as [->|]; [|naive_solver].
    cbn in Hl. assert (length key = 16%nat) as Hk by lia.
    unfold new_folder, fo_get_uuid. cbn [fo_data fo_key]. split_and!; try done.
    + by destruct data.
    + f_equal. cbn [skipn]. rewrite ?drop_0. rewrite take_ge; [done|].  by rewrite Hk.
    + cbn [skipn]. rewrite ?drop_0. rewrite length_take, Hk. done.
  - by left.
Qed.

(** Splitting a key back into its parts. *)
Lemma decompose_parts (p : Z) (device folder uuid : bytes) :
  length device = DeviceId.digest_length → length folder = uuid_length → length uuid = uuid_length →
  let key := p :: device ++ folder ++ uuid in
  length key = folder_info_data_length ∧ take DeviceId.digest_length (drop 1 key) = device ∧
  take uuid_length (drop (DeviceId.digest_length + 1) key) = folder ∧
  take uuid_length (drop (1 + DeviceId.digest_length + uuid_length) key) = uuid.
Proof.
  intros Hd Hf Hu key. unfold key. split_and!.
  - cbn. rewrite !length_app, Hd, Hf, Hu. done.
  - cbn [skipn]. rewrite ?drop_0. by rewrite <- Hd, take_app_length.
  - rewrite Nat.add_1_r. cbn [skipn]. rewrite ?drop_0. by rewrite <- Hd, drop_app_length, <- Hf, take_app_length.
  - change (1 + DeviceId.digest_length + uuid_length)%nat with (S (DeviceId.digest_length + uuid_length)).
    cbn [skipn]. rewrite <- drop_drop, <- Hd, drop_app_length, <- Hf, drop_app_length.
    by rewrite Hf, <- Hu, firstn_all.
Qed.

(** The key of a folder info determines, and is determined by, the device, the folder and
    the uuid: creating from the uuid and decomposing, or creating from the stored key, gives
    the same parts back, without tripping an assertion, and the stored fields survive. *)
Theorem folder_info_key_roundtrip uuid data sha device folder :
  length device = DeviceId.digest_length → length folder = uuid_length → length uuid = uuid_length →
  let fi := create_folder_info uuid data sha (prefix_device :: device) (prefix_folder :: folder) in
  fi_decompose_key (fi_key fi) = Ok (mkDecomposed uuid (prefix_device :: device) (prefix_folder :: folder)) ∧
  fi_get_uuid fi = uuid ∧
  create_folder_info_db (fi_key fi) data sha (prefix_device :: device) (prefix_folder :: folder) = Ok fi ∧
  serialize_folder_info fi = data.
Proof.
  intros Hd Hf Hu fi.
  destruct (decompose_parts prefix_folder_info device folder uuid Hd Hf Hu) as (Hl & H1 & H2 & H3).
  set (key := prefix_folder_info :: device ++ folder ++ uuid) in *.
  assert (fi_key fi = key) as Hk by done. split_and!.
  - unfold fi_decompose_key. rewrite Hk, Hl, Nat.eqb_refl. cbn [assert res_bind]. rewrite H1, Hd.
    rewrite (Nat.add_comm 1), H2, Hf, (Nat.add_comm _ 1), H3. done.
  - unfold fi_get_uuid. by rewrite Hk.
  - unfold create_folder_info_db. rewrite Hk, Hl, Nat.eqb_refl. cbn [negb].
    rewrite bool_decide_eq_false_2 by naive_solver.
    change (drop 1 (prefix_device :: device)) with device. change (drop 1 (prefix_folder :: folder)) with folder.
    rewrite H1, bool_decide_eq_true_2 by done.
    cbn [assert res_bind]. rewrite H2, bool_decide_eq_true_2 by done. done.
  - by destruct data.
Qed.

Example folder_info_key_roundtrip_witness :
  let fi := create_folder_info (repeat 3 16) (mkDbFolderInfo 5 6 []) (repeat 1 32)
              (prefix_device :: repeat 1 32) (prefix_folder :: repeat 2 16) in
  fi_decompose_key (fi_key fi) =
    Ok (mkDecomposed (repeat 3 16) (prefix_device :: repeat 1 32) (prefix_folder :: repeat 2 16)).
Proof.
  refine (proj1 (folder_info_key_roundtrip (repeat 3 16) (mkDbFolderInfo 5 6 []) (repeat 1 32)
    (repeat 1 32) (repeat 2 16) _ _ _)); done.
Defined.

(** The files of a folder info are indexed consistently and none is ahead of [max_sequence]. *)
Record wf_folder_info (fi : folder_info) : Prop := {
  fi_map : wf_map (fi_files fi);
  fi_bound : ∀ e, e ∈ fi_files fi → e_seq e <= fi_max_sequence fi;
}.

Lemma put_elem_bound m e x r : wf_map m → x ∈ fst (put m e r) → x = e ∨ x ∈ m.
Proof.
  intros Hw. destruct r.
  - destruct (fits_dec m e) as [Hf|Hf].
    + rewrite put_fits by done. cbn [fst]. rewrite put_in_elem. tauto.
    + rewrite put_refused by done. tauto.
  - assert (∀ m x, x ∈ fst (put_stage m e false) → x = e ∨ x ∈ m) as Hs.
    { intros m' y. unfold put_stage. destruct (blocking m' e); cbn [fst]; [tauto|]. by rewrite insert_entry_elem. }
    unfold put. intros Hx. apply Hs in Hx as [->|Hx]; [tauto|]. apply Hs in Hx as [->|Hx]; [tauto|]. by apply Hs.
Qed.

Lemma put_wf m e : wf_map m → wf_map (fst (put m e true)).
Proof.
  intros Hw. destruct (fits_dec m e) as [Hf|Hf].
  - rewrite put_fits by done. by apply put_in_wf.
  - by rewrite put_refused.
Qed.

(** C39: every operation on the files of a folder info (adding with or without the sequence
    check, removing, a new index) keeps the indices consistent and [max_sequence] an upper
    bound of the sequences; only a new index may lower [max_sequence]. *)
Theorem folder_info_invariant fi e v :
  wf_folder_info fi →
  wf_folder_info (add_relaxed fi e) ∧ wf_folder_info (fst (add_strict fi e)) ∧
  wf_folder_info (fi_remove fi e) ∧ wf_folder_info (set_index fi v) ∧
  fi_max_sequence fi <= fi_max_sequence (add_relaxed fi e) ∧
  fi_max_sequence fi <= fi_max_sequence (fst (add_strict fi e)) ∧
  (v = fi_index fi → set_index fi v = fi).
Proof.
  intros [Hm Hb]. split_and!.
  - split; [by apply put_wf|]. intros x Hx. apply put_elem_bound in Hx as [->|Hx]; [| |done].
    + unfold add_relaxed; cbn [with_files fi_max_sequence]. lia.
    + specialize (Hb x Hx). unfold add_relaxed; cbn [with_files fi_max_sequence]. lia.
  - unfold add_strict. destruct (Z.ltb_spec (fi_max_sequence fi) (e_seq e)); [|by split].
    split; [by apply put_wf|]. intros x Hx. apply put_elem_bound in Hx as [->|Hx]; [| |done].
    + cbn. lia.
    + specialize (Hb x Hx). cbn. lia.
  - split; [by repeat apply wf_map_filter|]. intros x Hx. apply Hb. unfold fi_remove in Hx. cbn in Hx.
    unfold remove in Hx. by rewrite !list_elem_of_filter in Hx; destruct Hx as (_ & _ & _ & ?).
  - unfold set_index. destruct (v =? fi_index fi); [by split|]. split; [repeat constructor|].
    cbn. intros x Hx. by apply not_elem_of_nil in Hx.
  - unfold add_relaxed; cbn [with_files fi_max_sequence]. lia.
  - unfold add_strict. destruct (Z.ltb_spec (fi_max_sequence fi) (e_seq e)); cbn; lia.
  - intros ->. unfold set_index. by rewrite Z.eqb_refl.
Qed.

Definition sample_fi : folder_info :=
  mkFolderInfo [] 9 2 [] (chars "s") (chars "k") sample_map.

Lemma sample_fi_wf : wf_folder_info sample_fi.
Proof.
  split; [apply sample_map_wf|]. intros e He. cbn in He. unfold sample_map in He.
  rewrite !elem_of_cons, elem_of_nil in He. by destruct He as [->|[->|[]]].
Qed.

Example folder_info_invariant_witness :
  wf_folder_info (fst (add_strict sample_fi (mkEntry 3 (chars "u3") (chars "b") 7))).
Proof.
  refine (proj1 (proj2 (folder_info_invariant sample_fi (mkEntry 3 (chars "u3") (chars "b") 7) 4 sample_fi_wf))).
Defined.

(** [add_strict] accepts exactly the files that are ahead of [max_sequence]. An accepted
    file that collides with at most one stored file becomes the latest one: it is found by its
    name and alone has the highest sequence; a refused one leaves the folder info as it was. *)
Theorem add_strict_spec fi e :
  wf_folder_info fi →
  (e_seq e <= fi_max_sequence fi → add_strict fi e = (fi, false)) ∧
  (fi_max_sequence fi < e_seq e → fits (fi_files fi) e →
     let fi' := fst (add_strict fi e) in
     snd (add_strict fi e) = true ∧ fi_max_sequence fi' = e_seq e ∧
     by_name (fi_files fi') (e_name e) = Some (e_file e) ∧
     by_sequence (fi_files fi') (fi_max_sequence fi') = Some (e_file e) ∧
     ∀ x, x ∈ fi_files fi' → x ≠ e → x ∈ fi_files fi ∧ e_seq x < e_seq e).
Proof.
  intros [Hm Hb]. unfold add_strict. split.
  - intros Hle. by destruct (Z.ltb_spec (fi_max_sequence fi) (e_seq e)); [lia|].
  - intros Hlt Hf. destruct (Z.ltb_spec (fi_max_sequence fi) (e_seq e)); [|lia].
    rewrite put_fits by done. cbn [fst snd with_files fi_max_sequence fi_files].
    destruct (lookup_elem (put_in (fi_files fi) e) e) as (_ & Hn & Hs);
      [by apply put_in_wf|apply put_in_elem; by left|].
    split_and!; try done. intros x Hx Hne. apply put_in_elem in Hx as [?|[Hx _]]; [done|].
    split; [done|]. specialize (Hb x Hx). lia.
Qed.

Example add_strict_spec_witness :
  add_strict sample_fi (mkEntry 3 (chars "u3") (chars "b") 2) = (sample_fi, false).
Proof.
  refine (proj1 (add_strict_spec sample_fi (mkEntry 3 (chars "u3") (chars "b") 2) sample_fi_wf) _). done.
Defined.

(** The cluster announcement for a device lists exactly the folders shared with it, in
    order, each with one entry per device that shares it, carrying that device's digest, index
    and highest sequence; nothing is announced to a device that shares nothing. *)
Theorem generate_cluster_spec device_of folders target :
  let r := generate_cluster device_of folders target in
  map pl_id (cc_folders r) =
    map (λ fo, fd_id (fo_data fo)) (filter (λ fo, is_shared_with fo target ≠ None) folders) ∧
  (∀ p, p ∈ cc_folders r → ∃ fo, fo ∈ folders ∧ is_shared_with fo target ≠ None ∧
     map (λ d, (pd_id d, pd_index_id d, pd_max_sequence d)) (pl_devices p) =
     map (λ fi, (get_sha256 (d_id (device_of fi)), fi_index fi, fi_max_sequence fi)) (fo_infos fo)).
Proof.
  unfold generate_cluster. cbn [cc_folders]. split.
  - induction folders as [|fo folders IH]; [done|]. rewrite filter_cons. cbn [omap list_omap].
    unfold generate_folder at 1. destruct (is_shared_with fo target) eqn:E.
    + rewrite decide_True by done. cbn [map]. by rewrite IH.
    + rewrite decide_False by (by intros []). done.
  - intros p (fo & Hfo & Hp)%list_elem_of_omap. exists fo. unfold generate_folder in Hp.
    destruct (is_shared_with fo target) eqn:E; [|done]. injection Hp as <-. split_and!; [done|done|].
    cbn [pl_devices]. rewrite map_map. by apply map_ext.
Qed.
