(* ===== verification/Streamer.v ===== *)
(** * Streamer: [src/model/misc/updates_streamer.cpp] and [src/model/remote_view.cpp]. The files of
    this device go to a peer in the order of their sequences, from the highest sequence the peer has
    announced to know. A folder info is known by its key; the objects are a finite map. *)

From S2P Require Import Prelude Proto DeviceId Device Blocks FileInfo FileMap GenericMap Folder.
From Stdlib Require Import Sorted.

(** ** [remote_view_map_t] *)

Record remote_view := mkRemoteView { rv_index_id : Z; rv_max_sequence : Z }.

(** By folder and device. *)
Abbreviation remote_view_map := (gmap (bytes * bytes) remote_view).

Definition push_view (m : remote_view_map) (device_id folder_id : bytes) (index_id max_sequence : Z) : remote_view_map :=
  <[(folder_id, device_id) := mkRemoteView index_id max_sequence]> m.

Definition get_view (m : remote_view_map) (device_id folder_id : bytes) : option remote_view :=
  m !! (folder_id, device_id).

(** ** [updates_streamer_t] *)

Record streamer := mkStreamer {
  st_seen : list (bytes * Z);
  st_streaming : option (bytes * file_map);
}.

(** [seen_info[key]]: a missing key is added with a zero. *)
Definition seen_get (seen : list (bytes * Z)) (key : bytes) : Z :=
  match filter (λ kv, kv.1 = key) seen with [] => 0 | kv :: _ => kv.2 end.

Fixpoint seen_set (seen : list (bytes * Z)) (key : bytes) (v : Z) : list (bytes * Z) :=
  match seen with
  | [] => [(key, v)]
  | kv :: seen => if bool_decide (kv.1 = key) then (key, v) :: seen else kv :: seen_set seen key v
  end.

(** The files of a range, and a container of its own filled with them. *)
Definition range_entries (m : file_map) (lower upper : Z) : list entry :=
  filter (λ e, lower <= e_seq e ∧ e_seq e <= upper) m.

Definition collect (es : list entry) : file_map := foldl (λ m e, fst (put m e true)) [] es.

(** The loop of [refresh_remote] over the folders. *)
Fixpoint refresh_loop (folders : list folder) (peer : device) (self_sha256 : bytes) (views : remote_view_map)
    (prev_seen seen : list (bytes * Z)) (streaming : option (bytes * file_map)) (streaming_folder : option (folder * folder_info))
    : res (list (bytes * Z) * option (folder * folder_info)) :=
  match folders with
  | [] => Ok (seen, streaming_folder)
  | fo :: folders =>
      if bool_decide (fd_folder_type (fo_data fo) = receive) then
        refresh_loop folders peer self_sha256 views prev_seen seen streaming streaming_folder
      else
        match is_shared_with fo peer with
        | None => refresh_loop folders peer self_sha256 views prev_seen seen streaming streaming_folder
        | Some _ =>
            let local_folder := by_device_id (fo_infos fo) self_sha256 in
            let streaming_folder :=
              match streaming, local_folder with
              | Some (key, _), Some fi => if bool_decide (key = fi_key fi) then Some (fo, fi) else streaming_folder
              | _, _ => streaming_folder
              end in
            match get_view views self_sha256 (fd_id (fo_data fo)) with
            | None => refresh_loop folders peer self_sha256 views prev_seen seen streaming streaming_folder
            | Some view =>
                match local_folder with
                | None => Ub
                | Some fi =>
                    let remote_max := if rv_index_id view =? fi_index fi then rv_max_sequence view else 0 in
                    let s := Z.max remote_max (seen_get prev_seen (fi_key fi)) in
                    refresh_loop folders peer self_sha256 views prev_seen (seen_set seen (fi_key fi) s) streaming streaming_folder
                end
            end
        end
  end.

Definition refresh_remote (folders : list folder) (peer : device) (self_sha256 : bytes) (views : remote_view_map)
    (st : streamer) : res streamer :=
  let* '(seen, streaming_folder) :=
    refresh_loop folders peer self_sha256 views (st_seen st) [] (st_streaming st) None in
  Ok (mkStreamer seen
    match streaming_folder with
    | None => None
    | Some (fo, fi) =>
        match get_view views self_sha256 (fd_id (fo_data fo)) with
        | Some view => if negb (rv_index_id view =? fi_index fi) then None else st_streaming st
        | None => st_streaming st
        end
    end).

(** The constructor. *)
Definition new_streamer (folders : list folder) (peer : device) (self_sha256 : bytes) (views : remote_view_map) : res streamer :=
  refresh_remote folders peer self_sha256 views (mkStreamer [] None).

(** The folder infos, by key; a key that is not there is a dangling pointer. *)
Abbreviation infos := (gmap bytes folder_info).

Definition at_key (fis : infos) (key : bytes) : res folder_info :=
  match fis !! key with Some fi => Ok fi | None => Ub end.

(** What of a folder info is not seen. *)
Definition unseen (fi : folder_info) (seen : Z) : list entry :=
  range_entries (fi_files fi) (seen + 1) (fi_max_sequence fi).

Definition st_on_update (fis : infos) (st : streamer) (file : entry) (key : bytes) : res (streamer * bool) :=
  match st_streaming st with
  | None =>
      if bool_decide (key ∈ (st_seen st).*1) then
        let* fi := at_key fis key in
        Ok (mkStreamer (st_seen st) (Some (key, collect (unseen fi (seen_get (st_seen st) key)))), true)
      else Ok (st, false)
  | Some (k, files) =>
      if bool_decide (k = key) then Ok (mkStreamer (st_seen st) (Some (k, fst (put files file true))), true)
      else Ok (st, false)
  end.

(** The loop over [seen_info]: the first folder that has something. *)
Fixpoint next_loop (fis : infos) (todo seen : list (bytes * Z)) : res (option (entry * bytes * bool) * streamer) :=
  match todo with
  | [] => Ok (None, mkStreamer seen None)
  | (key, s) :: todo =>
      let* fi := at_key fis key in
      if s <? fi_max_sequence fi then
        match unseen fi s with
        | [] => next_loop fis todo seen
        | file :: rest =>
            Ok (Some (file, key, s =? 0),
                mkStreamer (seen_set seen key (e_seq file))
                  (match rest with [] => None | _ => Some (key, collect rest) end))
        end
      else next_loop fis todo seen
  end.

Definition next (fis : infos) (st : streamer) : res (option (entry * bytes * bool) * streamer) :=
  match st_streaming st with
  | Some (key, files) =>
      match files with
      | file :: _ =>
          Ok (Some (file, key, seen_get (st_seen st) key =? 0),
              mkStreamer (seen_set (st_seen st) key (e_seq file)) (Some (key, remove files file)))
      | [] => next_loop fis (st_seen st) (st_seen st)
      end
  | None => next_loop fis (st_seen st) (st_seen st)
  end.

(** ** Sequences *)

Lemma seen_get_cons k v l key : seen_get ((k, v) :: l) key = if decide (k = key) then v else seen_get l key.
Proof. unfold seen_get. rewrite filter_cons. cbn. by destruct (decide (k = key)). Qed.

Lemma seen_get_set l key v key' : seen_get (seen_set l key v) key' = if decide (key = key') then v else seen_get l key'.
Proof.
  induction l as [|[k w] l IH]; cbn [seen_set fst].
  - rewrite seen_get_cons. done.
  - case_bool_decide as Hk.
    + subst. rewrite !seen_get_cons. by destruct (decide (key = key')).
    + rewrite !seen_get_cons, IH. destruct (decide (k = key')); [|done]. destruct (decide (key = key')); congruence.
Qed.

Lemma seen_set_keys l key v : key ∈ l.*1 → (seen_set l key v).*1 = l.*1.
Proof.
  induction l as [|[k w] l IH]; cbn [seen_set fmap list_fmap fst]; [by intros ?%not_elem_of_nil|].
  intros [->|Hin]%elem_of_cons; [by rewrite bool_decide_eq_true_2|]. case_bool_decide; [by subst|]. cbn. by rewrite IH.
Qed.

Lemma insert_last e (m : file_map) : Forall (λ x, e_seq x < e_seq e) m → insert_entry e m = m ++ [e].
Proof.
  induction 1 as [|x m Hx Hm IH]; [done|]. cbn [insert_entry app]. destruct (Z.leb_spec (e_seq e) (e_seq x)); [lia|]. by rewrite IH.
Qed.

(** A file with a new sequence goes to the end. *)
Lemma put_newest m e :
  wf_map m → fits m e → Forall (λ x, e_seq x < e_seq e) m →
  fst (put m e true) = filter (λ x, ¬ collides x e) m ++ [e].
Proof. intros Hw Hf Hlt. rewrite put_fits by done. cbn [fst]. unfold put_in. apply insert_last. by apply Forall_filter. Qed.

(** A container filled from a range holds the range. *)
Lemma collect_app m es : wf_map (m ++ es) → foldl (λ m e, fst (put m e true)) m es = m ++ es.
Proof.
  revert m. induction es as [|e es IH]; intros m Hw; cbn [foldl]; [by rewrite app_nil_r|].
  assert (∀ x, x ∈ m → ¬ collides x e) as Hc.
  { intros x Hx Hc. assert (x = e) as -> by (eapply wf_map_key; [exact Hw|set_solver..|exact Hc]).
    destruct Hw as [Hu _ _]. rewrite map_app in Hu. apply NoDup_app in Hu as (_ & Hd & _).
    apply (Hd (e_uuid e)); [by apply list_elem_of_fmap_2|left]. }
  assert (wf_map m) as Hm.
  { destruct Hw as [Hu Hn Hs]. rewrite map_app in Hu, Hn. apply NoDup_app in Hu as (? & _ & _), Hn as (? & _ & _).
    split; [done..|]. clear -Hs. induction m as [|x m IHm]; [constructor|]. inversion Hs as [|? ? Hs' Hx]; subst.
    constructor; [by apply IHm|]. by apply Forall_app in Hx as [? _]. }
  rewrite put_newest; [|done| |].
  - rewrite filter_all by (by apply Forall_forall). rewrite IH; [by rewrite <- app_assoc|by rewrite <- app_assoc].
  - intros a b Ha _ Hca. by destruct (Hc a Ha).
  - destruct Hw as [_ _ Hs]. clear -Hs. induction m as [|x m IHm]; [done|]. inversion Hs as [|? ? Hs' Hx]; subst.
    constructor; [|by apply IHm]. apply Forall_app in Hx as [_ Hx]. by apply Forall_cons in Hx as [? _].
Qed.

Lemma collect_range m lower upper : wf_map m → collect (range_entries m lower upper) = range_entries m lower upper.
Proof. intros Hw. unfold collect. rewrite collect_app; [done|]. cbn [app]. by apply wf_map_filter. Qed.

(** ** The invariant *)

(** Every seen folder exists and is not seen further than it goes; what is left to stream of a
    folder is what is not seen of it. *)
Record wf_streamer (fis : infos) (st : streamer) : Prop := {
  sw_unique : NoDup (st_seen st).*1;
  sw_known : ∀ key, key ∈ (st_seen st).*1 →
    ∃ fi, fis !! key = Some fi ∧ wf_folder_info fi ∧ 0 <= seen_get (st_seen st) key <= fi_max_sequence fi;
  sw_streaming : ∀ key files, st_streaming st = Some (key, files) →
    key ∈ (st_seen st).*1 ∧ ∀ fi, fis !! key = Some fi → files = unseen fi (seen_get (st_seen st) key);
}.

(** What is left to send of a folder. *)
Definition left_of (fis : infos) (st : streamer) (key : bytes) : list entry :=
  match fis !! key with Some fi => unseen fi (seen_get (st_seen st) key) | None => [] end.

Lemma unseen_elem fi s e : e ∈ unseen fi s ↔ e ∈ fi_files fi ∧ s < e_seq e <= fi_max_sequence fi.
Proof. unfold unseen, range_entries. rewrite list_elem_of_filter. split; intros; split_and!; try tauto; lia. Qed.

Lemma unseen_all fi s : wf_folder_info fi → unseen fi s = filter (λ e, s < e_seq e) (fi_files fi).
Proof.
  intros [_ Hb]. apply filter_ext, Forall_forall. intros e He. specialize (Hb e He). split; intros; [|split]; lia.
Qed.

(** Having seen the first, the others are left. *)
Lemma unseen_next fi s e rest :
  wf_folder_info fi → unseen fi s = e :: rest → unseen fi (e_seq e) = rest ∧ s < e_seq e <= fi_max_sequence fi.
Proof.
  intros Hw Hu. assert (e ∈ unseen fi s) as He by (rewrite Hu; left). apply unseen_elem in He as [Hin Hr].
  split; [|done]. rewrite unseen_all in Hu |- * by done. destruct Hw as [[_ _ Hs] _].
  assert (StronglySorted (λ a b, e_seq a < e_seq b) (e :: rest)) as Hsr by (rewrite <- Hu; by apply sorted_filter).
  inversion Hsr as [|? ? _ Hlt]; subst.
  transitivity (filter (λ x, e_seq e < e_seq x) (e :: rest)).
  - rewrite <- Hu. rewrite list_filter_filter_l; [done|]. intros x Hx. lia.
  - rewrite filter_cons_False by lia. by apply filter_all.
Qed.

Lemma unseen_max fi s : wf_folder_info fi → fi_max_sequence fi <= s → unseen fi s = [].
Proof.
  intros Hw Hs. destruct (unseen fi s) as [|e l] eqn:E; [done|]. exfalso. assert (e ∈ unseen fi s) as He by (rewrite E; left).
  apply unseen_elem in He. lia.
Qed.

Lemma wf_map_tail x m : wf_map (x :: m) → wf_map m.
Proof.
  intros [Hu Hn Hs]. cbn [map] in Hu, Hn. apply NoDup_cons in Hu as [_ ?], Hn as [_ ?].
  inversion Hs; subst. by split.
Qed.

Lemma unseen_wf fi s : wf_folder_info fi → wf_map (unseen fi s).
Proof. intros [Hm _]. by apply wf_map_filter. Qed.

Lemma remove_head x m : wf_map (x :: m) → remove (x :: m) x = m.
Proof.
  intros Hw. assert (Forall (λ y, ¬ collides y x) m) as Hc.
  { apply Forall_forall. intros y Hy Hc. assert (y = x) as -> by (eapply wf_map_key; [exact Hw|by right|by left|done]).
    destruct Hw as [Hu _ _]. cbn in Hu. apply NoDup_cons in Hu as [Hu _]. apply Hu. by apply list_elem_of_fmap_2. }
  unfold remove. rewrite filter_cons_False by naive_solver. rewrite Forall_forall in Hc. unfold collides in Hc.
  assert (∀ y, y ∈ m → e_uuid y ≠ e_uuid x ∧ e_name y ≠ e_name x ∧ e_seq y ≠ e_seq x) as Hne.
  { intros y Hy. specialize (Hc y Hy). tauto. }
  rewrite (filter_all (λ y, e_uuid y ≠ e_uuid x)) by (apply Forall_forall; intros; by apply Hne).
  rewrite (filter_all (λ y, e_name y ≠ e_name x)) by (apply Forall_forall; intros; by apply Hne).
  apply filter_all, Forall_forall. intros; by apply Hne.
Qed.

Lemma wf_seen_set fis st key fi e streaming :
  wf_streamer fis st → key ∈ (st_seen st).*1 → fis !! key = Some fi →
  seen_get (st_seen st) key < e_seq e <= fi_max_sequence fi →
  (∀ k files, streaming = Some (k, files) → k = key ∧ files = unseen fi (e_seq e)) →
  wf_streamer fis (mkStreamer (seen_set (st_seen st) key (e_seq e)) streaming).
Proof.
  intros [Hu Hk _] Hin Hfi Hr Hs. split; cbn [st_seen st_streaming]; rewrite ?seen_set_keys by done; [done| |].
  - intros k Hkin. rewrite seen_get_set. destruct (decide (key = k)) as [<-|]; [|by apply Hk].
    destruct (Hk key Hin) as (fi' & Hfi' & Hw & Hr'). rewrite Hfi in Hfi'. injection Hfi' as <-. exists fi. split_and!; try done; lia.
  - intros k files Hst. destruct (Hs _ _ Hst) as [-> ->]. split; [done|]. intros fi' Hfi'. rewrite Hfi in Hfi'. injection Hfi' as <-.
    rewrite seen_get_set. by rewrite decide_True.
Qed.

(** What a result of [next] means. *)
Definition next_ok (fis : infos) (st : streamer) (r : option (entry * bytes * bool) * streamer) : Prop :=
  wf_streamer fis r.2 ∧ (st_seen r.2).*1 = (st_seen st).*1 ∧
  match r.1 with
  | None => st_seen r.2 = st_seen st ∧ ∀ key, key ∈ (st_seen st).*1 → left_of fis st key = []
  | Some (e, key, initial) =>
      key ∈ (st_seen st).*1 ∧ initial = (seen_get (st_seen st) key =? 0) ∧
      left_of fis st key = e :: left_of fis r.2 key ∧ seen_get (st_seen r.2) key = e_seq e ∧
      ∀ k, k ≠ key → seen_get (st_seen r.2) k = seen_get (st_seen st) k
  end.

(** One file is taken from what is left of a folder. *)
Lemma next_ok_some fis st key fi e rest streaming :
  wf_streamer fis st → key ∈ (st_seen st).*1 → fis !! key = Some fi →
  unseen fi (seen_get (st_seen st) key) = e :: rest →
  (streaming = None ∨ streaming = Some (key, rest)) →
  next_ok fis st (Some (e, key, seen_get (st_seen st) key =? 0), mkStreamer (seen_set (st_seen st) key (e_seq e)) streaming).
Proof.
  intros Hw Hin Hfi Hu Hs. destruct (sw_known _ _ Hw key Hin) as (fi' & Hfi' & Hwfi & _). rewrite Hfi in Hfi'. injection Hfi' as <-.
  destruct (unseen_next fi _ e rest Hwfi Hu) as [Hrest Hr]. unfold next_ok. cbn [fst snd st_seen].
  split; [|split; [by rewrite seen_set_keys|]].
  - eapply wf_seen_set; try done. intros k files ->. destruct Hs as [|Hs]; [done|]. injection Hs as -> ->. done.
  - unfold left_of. cbn [st_seen]. rewrite Hfi, !seen_get_set, decide_True by done. rewrite Hu, Hrest. split_and!; try done.
    intros k Hk. by rewrite seen_get_set, decide_False.
Qed.

Lemma next_loop_ok fis st todo :
  wf_streamer fis st → todo `suffix_of` st_seen st →
  (∀ key, key ∈ (st_seen st).*1 → key ∈ todo.*1 ∨ left_of fis st key = []) →
  ∃ r, next_loop fis todo (st_seen st) = Ok r ∧ next_ok fis st r.
Proof.
  intros Hw. induction todo as [|[key s] todo IH]; intros Hsuf Hdone; cbn [next_loop].
  - eexists. split; [done|]. split; cbn [fst snd st_seen]; [split; cbn; [apply Hw|apply Hw|done]|].
    split_and!; try done. intros key Hk. destruct (Hdone key Hk) as [?%not_elem_of_nil|]; done.
  - assert ((key, s) ∈ st_seen st) as Hin.
    { destruct Hsuf as [pre ->]. rewrite elem_of_app. right. left. }
    assert (key ∈ (st_seen st).*1) as Hkey by (by apply (list_elem_of_fmap_2' fst _ (key, s))).
    assert (seen_get (st_seen st) key = s) as Hs.
    { pose proof (sw_unique _ _ Hw) as Hnd. clear -Hnd Hin. induction (st_seen st) as [|[k v] l IH]; [by apply not_elem_of_nil in Hin|].
      rewrite seen_get_cons. cbn [fmap list_fmap fst] in Hnd. apply NoDup_cons in Hnd as [Hk Hnd].
      apply elem_of_cons in Hin as [[= -> ->]|Hin]; [by rewrite decide_True|]. rewrite decide_False; [by apply IH|].
      intros ->. apply Hk. by apply (list_elem_of_fmap_2' fst _ (key, s)). }
    destruct (sw_known _ _ Hw key Hkey) as (fi & Hfi & Hwfi & Hr). unfold at_key. rewrite Hfi. cbn [res_bind].
    assert (unseen fi s = [] → ∃ r, next_loop fis todo (st_seen st) = Ok r ∧ next_ok fis st r) as Hskip.
    { intros Hu. apply IH.
      - destruct Hsuf as [pre ->]. exists (pre ++ [(key, s)]). by rewrite <- app_assoc.
      - intros k Hk. destruct (Hdone k Hk) as [Hkt|?]; [|by right]. cbn [fmap list_fmap fst] in Hkt.
        apply elem_of_cons in Hkt as [->|?]; [right|by left]. unfold left_of. by rewrite Hfi, Hs. }
    destruct (Z.ltb_spec s (fi_max_sequence fi)) as [Hlt|Hge].
    + destruct (unseen fi s) as [|e rest] eqn:Hu; [by apply Hskip|]. eexists. split; [done|]. rewrite <- Hs.
      apply (next_ok_some fis st key fi e rest); try done; [by rewrite Hs|].
      destruct rest; [by left|right]. do 2 f_equal. unfold collect. apply (collect_app []). cbn [app].
      eapply wf_map_tail. rewrite <- Hu. by apply unseen_wf.
    + apply Hskip. by apply unseen_max.
Qed.

Lemma next_spec fis st : wf_streamer fis st → ∃ r, next fis st = Ok r ∧ next_ok fis st r.
Proof.
  intros Hw. unfold next. destruct (st_streaming st) as [[key files]|] eqn:Est.
  - destruct (sw_streaming _ _ Hw key files Est) as [Hkey Hfiles].
    destruct (sw_known _ _ Hw key Hkey) as (fi & Hfi & Hwfi & Hr). specialize (Hfiles fi Hfi).
    destruct files as [|e rest].
    + apply next_loop_ok; [done|done|by left].
    + eexists. split; [done|]. apply (next_ok_some fis st key fi e rest); try done. right. do 2 f_equal.
      apply remove_head. rewrite Hfiles. by apply unseen_wf.
  - apply next_loop_ok; [done|done|by left].
Qed.

(** ** Updates between *)

(** A file gets a new sequence; it takes the place of at most one file. *)
Record newer (fis : infos) (key : bytes) (fi : folder_info) (e : entry) : Prop := {
  nw_fi : fis !! key = Some fi;
  nw_seq : fi_max_sequence fi < e_seq e;
  nw_fits : fits (fi_files fi) e;
}.

Definition updated (fis : infos) (key : bytes) (fi : folder_info) (e : entry) : infos :=
  <[key := fst (add_strict fi e)]> fis.

Lemma add_strict_files fi e :
  wf_folder_info fi → fi_max_sequence fi < e_seq e → fits (fi_files fi) e →
  fst (add_strict fi e) = with_files fi (e_seq e) (filter (λ x, ¬ collides x e) (fi_files fi) ++ [e]).
Proof.
  intros [Hm Hb] Hlt Hf. unfold add_strict. rewrite (proj2 (Z.ltb_lt _ _)) by done. cbn [fst]. f_equal. apply put_newest; try done.
  apply Forall_forall. intros x Hx. specialize (Hb x Hx). lia.
Qed.

Lemma add_strict_wf fi e : wf_folder_info fi → wf_folder_info (fst (add_strict fi e)).
Proof.
  intros [Hm Hb]. unfold add_strict. destruct (Z.ltb_spec (fi_max_sequence fi) (e_seq e)); [|by split].
  split; [by apply put_wf|]. intros x Hx. apply put_elem_bound in Hx as [->|Hx]; [cbn; lia| |done].
  specialize (Hb x Hx). cbn. lia.
Qed.

(** What is not seen of the folder info after the update. *)
Lemma unseen_updated fi e s :
  wf_folder_info fi → fi_max_sequence fi < e_seq e → fits (fi_files fi) e → s <= fi_max_sequence fi →
  unseen (fst (add_strict fi e)) s = filter (λ x, ¬ collides x e) (unseen fi s) ++ [e].
Proof.
  intros Hw Hlt Hf Hs. rewrite unseen_all by (by apply add_strict_wf). rewrite add_strict_files by done.
  cbn [with_files fi_files]. rewrite filter_app, filter_cons_True, filter_nil by lia. f_equal. rewrite unseen_all by done.
  rewrite !list_filter_filter. apply list_filter_iff. tauto.
Qed.

Lemma unseen_put fi e s :
  wf_folder_info fi → fi_max_sequence fi < e_seq e → fits (fi_files fi) e → s <= fi_max_sequence fi →
  fst (put (unseen fi s) e true) = unseen (fst (add_strict fi e)) s.
Proof.
  intros Hw Hlt Hf Hs. rewrite unseen_updated by done. apply put_newest.
  - by apply unseen_wf.
  - intros a b Ha Hb. apply unseen_elem in Ha as [Ha _], Hb as [Hb _]. by apply Hf.
  - apply Forall_forall. intros x Hx. apply unseen_elem in Hx as [_ ?]. lia.
Qed.

Lemma on_update_ok fis st key fi e :
  wf_streamer fis st → newer fis key fi e →
  ∃ st' b, st_on_update (updated fis key fi e) st e key = Ok (st', b) ∧ wf_streamer (updated fis key fi e) st' ∧
    st_seen st' = st_seen st.
Proof.
  intros Hw [Hfi Hlt Hf]. unfold updated.
  assert (∀ k, k ∈ (st_seen st).*1 → ∃ fi', <[key := fst (add_strict fi e)]> fis !! k = Some fi' ∧ wf_folder_info fi' ∧
    0 <= seen_get (st_seen st) k <= fi_max_sequence fi') as Hk.
  { intros k Hk. destruct (sw_known _ _ Hw k Hk) as (fi' & Hfi' & Hwf & Hr). destruct (decide (key = k)) as [<-|Hne].
    - rewrite lookup_insert_eq. rewrite Hfi in Hfi'. injection Hfi' as <-. eexists. split_and!; [done|by apply add_strict_wf|lia|].
      rewrite add_strict_files by done. cbn. lia.
    - rewrite lookup_insert_ne by done. by exists fi'. }
  assert (∀ streaming, (∀ k files, streaming = Some (k, files) → k ∈ (st_seen st).*1 ∧
    ∀ fi', <[key := fst (add_strict fi e)]> fis !! k = Some fi' → files = unseen fi' (seen_get (st_seen st) k)) →
    wf_streamer (<[key := fst (add_strict fi e)]> fis) (mkStreamer (st_seen st) streaming)) as Hmk.
  { intros streaming Hs. split; cbn [st_seen st_streaming]; [apply Hw|done|done]. }
  unfold st_on_update. destruct st as [seen streaming]. cbn [st_seen st_streaming] in *. destruct streaming as [[k files]|].
  - destruct (sw_streaming _ _ Hw k files eq_refl) as [Hin Hfiles]. cbn [st_seen] in *. case_bool_decide as Hkk.
    + subst k. destruct (sw_known _ _ Hw key Hin) as (fi' & Hfi' & Hwf & Hr). rewrite Hfi in Hfi'. injection Hfi' as <-.
      do 2 eexists. split; [done|]. split; [|done]. apply Hmk. intros k files' [= <- <-]. split; [done|].
      intros fi' Hfi'. rewrite lookup_insert_eq in Hfi'. injection Hfi' as <-. rewrite (Hfiles fi Hfi). apply unseen_put; try done. cbn in Hr. lia.
    + do 2 eexists. split; [done|]. split; [|done]. apply Hmk. intros k' files' [= <- <-]. split; [done|].
      intros fi' Hfi'. rewrite lookup_insert_ne in Hfi' by done. by apply Hfiles.
  - case_bool_decide as Hin.
    + destruct (Hk key Hin) as (fi' & Hfi' & Hwf & Hr). unfold at_key. rewrite Hfi'. cbn [res_bind]. do 2 eexists. split; [done|].
      split; [|done]. apply Hmk. intros k files [= <- <-]. split; [done|]. intros fi2 Hfi2. rewrite Hfi' in Hfi2. injection Hfi2 as <-.
      apply collect_range, Hwf.
    + do 2 eexists. split; [done|]. split; [|done]. by apply Hmk.
Qed.

(** ** Whole runs *)

(** The folder infos, the streamer, what was sent so far. *)
Record world := mkWorld { w_infos : infos; w_streamer : streamer; w_sent : list (bytes * entry) }.

Definition sent_by (r : option (entry * bytes * bool)) : list (bytes * entry) :=
  match r with Some (e, key, _) => [(key, e)] | None => [] end.

(** The actor takes the next file, or a file of this device changed. *)
Inductive stream_step : world → world → Prop :=
| step_next fis st sent r st' :
    next fis st = Ok (r, st') → stream_step (mkWorld fis st sent) (mkWorld fis st' (sent ++ sent_by r))
| step_updated fis st sent key fi e st' b :
    newer fis key fi e → st_on_update (updated fis key fi e) st e key = Ok (st', b) →
    stream_step (mkWorld fis st sent) (mkWorld (updated fis key fi e) st' sent).

Definition sent_of (sent : list (bytes * entry)) (key : bytes) : list entry := (filter (λ ke, ke.1 = key) sent).*2.

(** What holds of a folder throughout: it was sent in the order of sequences and up to where it is seen. *)
Record sent_ok (from : Z) (fi : folder_info) (seen : Z) (sent : list entry) : Prop := {
  so_sorted : StronglySorted (λ a b, e_seq a < e_seq b) sent;
  so_bound : Forall (λ e, from < e_seq e <= seen) sent;
  so_complete : ∀ e, e ∈ fi_files fi → from < e_seq e <= seen → e ∈ sent;
}.

Definition world_ok (st0 : streamer) (w : world) : Prop :=
  wf_streamer (w_infos w) (w_streamer w) ∧ (st_seen (w_streamer w)).*1 = (st_seen st0).*1 ∧
  ∀ key fi, key ∈ (st_seen st0).*1 → w_infos w !! key = Some fi →
    seen_get (st_seen st0) key <= seen_get (st_seen (w_streamer w)) key ∧
    sent_ok (seen_get (st_seen st0) key) fi (seen_get (st_seen (w_streamer w)) key) (sent_of (w_sent w) key).

Lemma sent_of_app sent sent' key : sent_of (sent ++ sent') key = sent_of sent key ++ sent_of sent' key.
Proof. unfold sent_of. by rewrite filter_app, fmap_app. Qed.

Lemma sent_ok_next from fi seen sent e rest :
  wf_folder_info fi → from <= seen → sent_ok from fi seen sent → unseen fi seen = e :: rest → sent_ok from fi (e_seq e) (sent ++ [e]).
Proof.
  intros Hw Hfs [Hs Hb Hc] Hu. destruct (unseen_next fi seen e rest Hw Hu) as [Hrest Hr]. split.
  - clear -Hs Hb Hr. induction Hs as [|x l Hl IH Hx]; cbn [app]; [by repeat constructor|]. apply Forall_cons in Hb as [Hxb Hb].
    constructor; [by apply IH|]. apply Forall_app. split; [done|]. constructor; [lia|constructor].
  - apply Forall_app. split; [|constructor; [lia|constructor]]. eapply Forall_impl; [exact Hb|]. cbn. lia.
  - intros x Hx Hxr. rewrite elem_of_app. destruct (decide (e_seq x <= seen)) as [|Hgt]; [left; apply Hc; [done|lia]|right].
    assert (x ∈ unseen fi seen) as Hxu by (apply unseen_elem; split; [done|lia]). rewrite Hu in Hxu.
    apply elem_of_cons in Hxu as [->|Hxu]; [by left|]. rewrite <- Hrest in Hxu. apply unseen_elem in Hxu. lia.
Qed.

Lemma stream_step_ok st0 w w' : stream_step w w' → world_ok st0 w → world_ok st0 w'.
Proof.
  intros Hstep (Hw & Hkeys & Hok). destruct Hstep as [fis st sent r st' Hn|fis st sent key fi e st' b Hnew Hup]; cbn [w_infos w_streamer w_sent] in *.
  - destruct (next_spec fis st Hw) as (r' & Hr' & Hno). rewrite Hn in Hr'. injection Hr' as <-. destruct Hno as (Hw' & Hk' & Hres).
    cbn [fst snd] in *. split; [done|]. split; [cbn [w_streamer]; congruence|]. intros k fi Hkin Hfi. cbn [w_infos w_streamer w_sent] in *.
    destruct (Hok k fi Hkin Hfi) as [Hle Hso]. rewrite sent_of_app.
    destruct r as [[[e key] initial]|]; cbn [sent_by] in *.
    + destruct Hres as (Hkey & _ & Hleft & Hsk & Hne). destruct (decide (key = k)) as [->|Hkk].
      * change (sent_of [(k, e)] k) with ((filter (λ ke : bytes * entry, ke.1 = k) [(k, e)]).*2). rewrite filter_cons_True by done. cbn [fmap list_fmap snd].
        unfold left_of in Hleft. rewrite Hfi in Hleft. destruct (sw_known _ _ Hw k Hkey) as (fi' & Hfi' & Hwf & _).
        rewrite Hfi in Hfi'. injection Hfi' as <-. rewrite Hsk. destruct (unseen_next _ _ _ _ Hwf Hleft). split; [lia|]. by eapply sent_ok_next.
      * unfold sent_of at 2. rewrite filter_cons_False by done. cbn [fmap list_fmap]. rewrite app_nil_r, Hne by done. done.
    + destruct Hres as [-> _]. cbn. by rewrite app_nil_r.
  - destruct (on_update_ok fis st key fi e Hw Hnew) as (st1 & b1 & H1 & Hw' & Hseen). rewrite Hup in H1. injection H1 as <- <-.
    split; [done|]. cbn [w_infos w_streamer w_sent]. rewrite Hseen. split; [done|]. intros k fi' Hkin Hfi'. unfold updated in Hfi'.
    destruct Hnew as [Hfi Hlt Hf]. destruct (decide (key = k)) as [->|Hkk].
    + rewrite lookup_insert_eq in Hfi'. injection Hfi' as <-. destruct (Hok k fi Hkin Hfi) as [Hle [Hs Hb Hc]]. split; [done|]. split; [done..|].
      rewrite <- Hkeys in Hkin. destruct (sw_known _ _ Hw k Hkin) as (fi'' & Hfi'' & Hwf & Hr). rewrite Hfi in Hfi''. injection Hfi'' as <-.
      intros x Hx Hxr. rewrite add_strict_files in Hx by done. cbn [with_files fi_files] in Hx.
      apply elem_of_app in Hx as [[_ Hx]%list_elem_of_filter| ->%list_elem_of_singleton]; [by apply Hc|lia].
    + rewrite lookup_insert_ne in Hfi' by done. by apply Hok.
Qed.

Lemma world_ok_init fis st : wf_streamer fis st → world_ok st (mkWorld fis st []).
Proof.
  intros Hw. split_and!; try done. cbn [w_infos w_streamer w_sent]. intros key fi Hin Hfi. split; [lia|].
  split; [constructor|constructor|lia].
Qed.

(** C32: a run of the streamer, with files of this device changing in between in any order. Every folder is
    sent in the order of sequences, each version of a file once, never below what the peer had; and
    every file the folder holds that the peer did not have is sent or is still to come. *)
Theorem streamer_in_order (fis fis' : infos) (st st' : streamer) (sent : list (bytes * entry)) (key : bytes) (fi : folder_info) :
  wf_streamer fis st → rtc stream_step (mkWorld fis st []) (mkWorld fis' st' sent) →
  key ∈ (st_seen st).*1 → fis' !! key = Some fi →
  StronglySorted (λ a b, e_seq a < e_seq b) (sent_of sent key) ∧
  Forall (λ e, seen_get (st_seen st) key < e_seq e) (sent_of sent key) ∧
  ∀ e, e ∈ fi_files fi → seen_get (st_seen st) key < e_seq e → e ∈ sent_of sent key ∨ e ∈ left_of fis' st' key.
Proof.
  intros Hw Hrun Hkey Hfi.
  assert (world_ok st (mkWorld fis' st' sent)) as (Hw' & Hk' & Hok).
  { pose proof (world_ok_init fis st Hw) as Hi. remember (mkWorld fis st []) as w eqn:E. clear E. revert Hi.
    induction Hrun as [w|w1 w2 w3 Hstep _ IH]; [done|]. intros Hi. by eapply IH, stream_step_ok. }
  destruct (Hok key fi Hkey Hfi) as [Hle [Hs Hb Hc]]. split_and!; [done|eapply Forall_impl; [exact Hb|cbn; lia]|].
  intros e He Hlt. cbn [w_streamer] in *. destruct (decide (e_seq e <= seen_get (st_seen st') key)); [left; apply Hc; [done|lia]|right].
  unfold left_of. rewrite Hfi. apply unseen_elem. split; [done|]. rewrite <- Hk' in Hkey.
  destruct (sw_known _ _ Hw' key Hkey) as (fi' & Hfi' & [_ Hbound] & _). cbn in Hfi'. rewrite Hfi in Hfi'. injection Hfi' as <-.
  specialize (Hbound e He). lia.
Qed.

(** The actor asks for files until there is none, at most [fuel] times. *)
Fixpoint drain (fuel : nat) (fis : infos) (st : streamer) : res (list (bytes * entry)) :=
  match fuel with
  | 0%nat => Ub
  | S fuel =>
      let* '(r, st) := next fis st in
      match r with
      | None => Ok []
      | Some (e, key, _) => let* rest := drain fuel fis st in Ok ((key, e) :: rest)
      end
  end.

Definition total_left (fis : infos) (st : streamer) (keys : list bytes) : nat :=
  foldr (λ key n, (length (left_of fis st key) + n)%nat) 0%nat keys.

Lemma total_left_next fis st st' keys key e :
  NoDup keys → key ∈ keys → left_of fis st key = e :: left_of fis st' key →
  (∀ k, k ≠ key → left_of fis st' k = left_of fis st k) →
  total_left fis st keys = S (total_left fis st' keys).
Proof.
  intros Hnd Hin Hl Hne. assert (∀ ks, key ∉ ks → total_left fis st' ks = total_left fis st ks) as Hrest.
  { induction ks as [|k ks IH]; [done|]. intros [Hk Hks]%not_elem_of_cons. cbn. rewrite Hne by done. unfold total_left in IH. by rewrite IH. }
  induction Hnd as [|k keys Hk Hnd IH]; [by apply not_elem_of_nil in Hin|].
  apply elem_of_cons in Hin as [<-|Hin].
  - change (length (left_of fis st key) + total_left fis st keys = S (length (left_of fis st' key) + total_left fis st' keys))%nat.
    rewrite Hl, Hrest by done. cbn. lia.
  - change (length (left_of fis st k) + total_left fis st keys = S (length (left_of fis st' k) + total_left fis st' keys))%nat.
    rewrite IH by done. rewrite Hne by (by intros ->). lia.
Qed.

Lemma total_left_zero fis st keys : total_left fis st keys = 0%nat → ∀ key, key ∈ keys → left_of fis st key = [].
Proof.
  induction keys as [|k keys IH]; intros Ht key Hin; [by apply not_elem_of_nil in Hin|].
  change (length (left_of fis st k) + total_left fis st keys = 0)%nat in Ht.
  apply elem_of_cons in Hin as [->|Hin]; [destruct (left_of fis st k); [done|cbn in Ht; lia]|apply IH; [lia|done]].
Qed.

Lemma drain_S fuel fis st :
  drain (S fuel) fis st =
    let* '(r, st) := next fis st in
    match r with
    | None => Ok []
    | Some (e, key, _) => let* rest := drain fuel fis st in Ok ((key, e) :: rest)
    end.
Proof. done. Qed.

Lemma drain_spec fuel : ∀ fis st,
  wf_streamer fis st → (total_left fis st (st_seen st).*1 <= fuel)%nat →
  ∃ sent, drain (S fuel) fis st = Ok sent ∧ ∀ key, key ∈ (st_seen st).*1 → sent_of sent key = left_of fis st key.
Proof.
  induction fuel as [|fuel IH]; intros fis st Hw Ht; rewrite drain_S; destruct (next_spec fis st Hw) as ([r st'] & -> & Hw' & Hk & Hr);
    cbn [res_bind fst snd] in *.
  - destruct r as [[[e key] initial]|].
    + destruct Hr as (Hkey & _ & Hl & _). rewrite (total_left_zero _ _ _ (proj1 (Nat.le_0_r _) Ht) key Hkey) in Hl. done.
    + exists []. split; [done|]. intros key Hin. destruct Hr as [_ Hr]. by rewrite Hr.
  - destruct r as [[[e key] initial]|].
    + destruct Hr as (Hkey & _ & Hl & Hs & Hne).
      assert (∀ k, k ≠ key → left_of fis st' k = left_of fis st k) as Hleft.
      { intros k Hkk. unfold left_of. by rewrite Hne. }
      pose proof (total_left_next fis st st' (st_seen st).*1 key e (sw_unique _ _ Hw) Hkey Hl Hleft) as Htl.
      destruct (IH fis st' Hw') as (sent & -> & Hsent); [rewrite Hk; lia|]. cbn [res_bind]. eexists. split; [done|].
      intros k Hkin. specialize (Hsent k ltac:(by rewrite Hk)). unfold sent_of in *. destruct (decide (key = k)) as [->|Hkk].
      * rewrite filter_cons_True by done. rewrite fmap_cons, Hsent, Hl. done.
      * rewrite filter_cons_False by done. rewrite Hsent. by apply Hleft.
    + exists []. split; [done|]. intros key Hin. destruct Hr as [_ Hr]. by rewrite Hr.
Qed.

(** While no file changes, asking for files ends after as many answers as there are files left, and
    sends exactly the files of every folder that are not seen, in order. *)
Theorem streamer_drains (fis : infos) (st : streamer) :
  wf_streamer fis st →
  ∃ sent, drain (S (total_left fis st (st_seen st).*1)) fis st = Ok sent ∧
    ∀ key fi, key ∈ (st_seen st).*1 → fis !! key = Some fi →
      sent_of sent key = filter (λ e, seen_get (st_seen st) key < e_seq e) (fi_files fi).
Proof.
  intros Hw. destruct (drain_spec _ fis st Hw (Nat.le_refl _)) as (sent & Hd & Hs). exists sent. split; [done|].
  intros key fi Hin Hfi. rewrite Hs by done. unfold left_of. rewrite Hfi. apply unseen_all.
  destruct (sw_known _ _ Hw key Hin) as (fi' & Hfi' & Hwf & _). rewrite Hfi in Hfi'. by injection Hfi' as <-.
Qed.

(** ** From the announcement of the peer *)

Section announced.
Context (fis : infos) (folders : list folder) (peer : device) (self_sha256 : bytes) (views : remote_view_map).

(** A folder that is streamed, with the folder info of this device and the view of the peer. *)
Definition streamed (fo : folder) (fi : folder_info) (view : remote_view) : Prop :=
  fo ∈ folders ∧ fd_folder_type (fo_data fo) ≠ receive ∧ is_Some (is_shared_with fo peer) ∧
  by_device_id (fo_infos fo) self_sha256 = Some fi ∧ get_view views self_sha256 (fd_id (fo_data fo)) = Some view.

Definition known_to_peer (fi : folder_info) (view : remote_view) : Z :=
  if rv_index_id view =? fi_index fi then rv_max_sequence view else 0.

(** This device has its own side of every folder, and the peer does not claim to know more. *)
Definition announced : Prop :=
  ∀ fo, fo ∈ folders → ∃ fi, by_device_id (fo_infos fo) self_sha256 = Some fi ∧ fis !! fi_key fi = Some fi ∧
    wf_folder_info fi ∧ 0 <= fi_max_sequence fi ∧
    ∀ view, get_view views self_sha256 (fd_id (fo_data fo)) = Some view → 0 <= known_to_peer fi view <= fi_max_sequence fi.

Lemma seen_set_unique (l : list (bytes * Z)) key v : NoDup l.*1 → NoDup (seen_set l key v).*1 ∧ ∀ k, k ∈ (seen_set l key v).*1 ↔ k = key ∨ k ∈ l.*1.
Proof.
  intros Hnd. destruct (decide (key ∈ l.*1)) as [Hin|Hni].
  - rewrite seen_set_keys by done. split; [done|]. intros k. split; [by right|]. by intros [->|?].
  - assert (seen_set l key v = l ++ [(key, v)]) as ->.
    { clear Hnd. induction l as [|[k w] l IH]; [done|]. cbn [fmap list_fmap fst] in Hni. apply not_elem_of_cons in Hni as [Hk Hni].
      cbn [seen_set fst]. rewrite bool_decide_eq_false_2 by congruence. by rewrite IH. }
    rewrite fmap_app. cbn [fmap list_fmap fst]. split.
    + apply NoDup_app. split_and!; [done| |apply NoDup_singleton]. intros x Hx ->%list_elem_of_singleton. done.
    + intros k. rewrite elem_of_app, list_elem_of_singleton. tauto.
Qed.

Lemma refresh_loop_ok fos : ∀ seen,
  announced → fos ⊆ folders → NoDup seen.*1 →
  (∀ key, key ∈ seen.*1 → ∃ fo fi view, streamed fo fi view ∧ fi_key fi = key ∧ seen_get seen key = known_to_peer fi view) →
  ∃ seen', refresh_loop fos peer self_sha256 views [] seen None None = Ok (seen', None) ∧ NoDup seen'.*1 ∧
    (∀ key, key ∈ seen'.*1 → ∃ fo fi view, streamed fo fi view ∧ fi_key fi = key ∧ seen_get seen' key = known_to_peer fi view) ∧
    seen.*1 ⊆ seen'.*1 ∧ (∀ fo fi view, fo ∈ fos → streamed fo fi view → fi_key fi ∈ seen'.*1).
Proof.
  induction fos as [|fo fos IH]; intros seen Han Hsub Hnd Hseen; cbn [refresh_loop].
  - exists seen. split_and!; try done. by intros ? ? ? ?%not_elem_of_nil.
  - assert (fo ∈ folders) as Hfo by (apply Hsub; left). assert (fos ⊆ folders) as Hsub' by (intros x Hx; apply Hsub; by right).
    destruct (Han fo Hfo) as (fi & Hfi & _ & _ & _ & Hview).
    assert ((∀ fi' view', ¬ streamed fo fi' view') →
      ∃ seen', refresh_loop fos peer self_sha256 views [] seen None None = Ok (seen', None) ∧ NoDup seen'.*1 ∧
        (∀ key, key ∈ seen'.*1 → ∃ fo fi view, streamed fo fi view ∧ fi_key fi = key ∧ seen_get seen' key = known_to_peer fi view) ∧
        seen.*1 ⊆ seen'.*1 ∧ (∀ fo' fi view, fo' ∈ fo :: fos → streamed fo' fi view → fi_key fi ∈ seen'.*1)) as Hskip.
    { intros Hno. destruct (IH seen Han Hsub' Hnd Hseen) as (seen' & -> & ? & ? & ? & Hc). exists seen'. split_and!; try done.
      intros fo' fi' view' [->|Hin]%elem_of_cons Hst; [by destruct (Hno fi' view')|by eapply Hc]. }
    case_bool_decide as Ht; [apply Hskip; by intros ? ? (_ & ? & _)|].
    destruct (is_shared_with fo peer) eqn:Hsh; [|apply Hskip; intros ? ? (_ & _ & Hs & _); rewrite Hsh in Hs; by destruct Hs].
    destruct (get_view views self_sha256 (fd_id (fo_data fo))) as [view|] eqn:Hgv;
      [|apply Hskip; intros ? ? (_ & _ & _ & _ & Hs); by rewrite Hgv in Hs].
    rewrite Hfi. specialize (Hview view eq_refl). set (s := Z.max _ _).
    assert (s = known_to_peer fi view) as Hs by (unfold s, known_to_peer, seen_get in *; cbn in *; lia).
    assert (streamed fo fi view) as Hst by (repeat split; try done; by rewrite Hsh).
    destruct (seen_set_unique seen (fi_key fi) s Hnd) as [Hnd' Hel].
    destruct (IH (seen_set seen (fi_key fi) s) Han Hsub' Hnd') as (seen' & -> & Hnd2 & Hk2 & Hinc & Hc).
    { intros key Hin. rewrite seen_get_set. destruct (decide (fi_key fi = key)) as [<-|Hne]; [by exists fo, fi, view|].
      apply Hel in Hin as [->|Hin]; [done|]. by apply Hseen. }
    exists seen'. split_and!; try done.
    + intros k Hkin. apply Hinc, Hel. by right.
    + intros fo' fi' view' [->|Hin]%elem_of_cons Hst'; [|by eapply Hc].
      destruct Hst' as (_ & _ & _ & Hfi' & _). rewrite Hfi in Hfi'. injection Hfi' as <-. apply Hinc, Hel. by left.
Qed.

(** A new streamer is consistent and starts every folder at what the peer has announced for its current
    index, or at the beginning when the peer knows another index. *)
Lemma new_streamer_ok :
  announced →
  ∃ st, new_streamer folders peer self_sha256 views = Ok st ∧ wf_streamer fis st ∧
    (∀ key, key ∈ (st_seen st).*1 → ∃ fo fi view, streamed fo fi view ∧ fi_key fi = key ∧ seen_get (st_seen st) key = known_to_peer fi view) ∧
    (∀ fo fi view, streamed fo fi view → fi_key fi ∈ (st_seen st).*1).
Proof.
  intros Han. destruct (refresh_loop_ok folders [] Han ltac:(done) ltac:(constructor)) as (seen & Hr & Hnd & Hk & _ & Hc).
  { by intros ? ?%not_elem_of_nil. }
  unfold new_streamer, refresh_remote. cbn [st_seen st_streaming]. rewrite Hr. cbn [res_bind]. eexists. split; [done|].
  cbn [st_seen]. split; [|split; [done|intros; eapply Hc; [|done]; by match goal with H : streamed _ _ _ |- _ => apply H end]].
  split; cbn [st_seen st_streaming]; [done| |done]. intros key Hin. destruct (Hk key Hin) as (fo & fi & view & Hst & <- & ->).
  destruct Hst as (Hfo & _ & _ & Hfi & Hv). destruct (Han fo Hfo) as (fi' & Hfi' & Hl & Hw & Hm & Hview).
  rewrite Hfi in Hfi'. injection Hfi' as <-. exists fi. split_and!; try done; by apply Hview.
Qed.
End announced.

(** C37: from the announcement of a peer to what is sent to it. The peer gets exactly the files above the
    highest sequence it announced for this index of the folder, in order; all of them when it knows
    another index. *)
Theorem peer_is_brought_up_to_date (fis : infos) (folders : list folder) (peer : device) (self_sha256 : bytes)
    (views : remote_view_map) (fo : folder) (fi : folder_info) (view : remote_view) :
  announced fis folders self_sha256 views → streamed folders peer self_sha256 views fo fi view →
  (∀ fo' fi' view', streamed folders peer self_sha256 views fo' fi' view' → fi_key fi' = fi_key fi → view' = view) →
  ∃ st sent fuel, new_streamer folders peer self_sha256 views = Ok st ∧ drain fuel fis st = Ok sent ∧
    sent_of sent (fi_key fi) = filter (λ e, known_to_peer fi view < e_seq e) (fi_files fi).
Proof.
  intros Han Hst Hone. destruct (new_streamer_ok fis folders peer self_sha256 views Han) as (st & Hn & Hw & Hk & Hc).
  pose proof (Hc _ _ _ Hst) as Hin. destruct (drain_spec _ fis st Hw (Nat.le_refl _)) as (sent & Hd & Hs).
  exists st, sent. eexists. split_and!; [done|exact Hd|]. rewrite Hs by done.
  destruct (sw_known _ _ Hw _ Hin) as (fi1 & Hfi1 & Hwf1 & _). destruct Hst as (Hfo & _ & _ & Hfi & _).
  destruct (Han fo Hfo) as (fi2 & Hfi2 & Hl & Hwf & _). rewrite Hfi in Hfi2. injection Hfi2 as <-.
  unfold left_of. rewrite Hl. rewrite unseen_all by done. destruct (Hk _ Hin) as (fo' & fi' & view' & Hst' & Hkey & ->).
  pose proof Hst' as (Hfo' & _ & _ & Hfi' & _). destruct (Han fo' Hfo') as (fi3 & Hfi3 & Hl3 & _). rewrite Hfi' in Hfi3. injection Hfi3 as <-.
  rewrite Hkey, Hl in Hl3. injection Hl3 as <-. by rewrite (Hone _ _ _ Hst' eq_refl).
Qed.

(** ** A folder with two files *)

Definition s_key : bytes := chars "k".
Definition s_fi : folder_info := mkFolderInfo s_key 9 2 [] (chars "me") (chars "d") sample_map.
Definition s_infos : infos := {[ s_key := s_fi ]}.
Definition s_streamer : streamer := mkStreamer [(s_key, 1)] None.
(** The first file changes. *)
Definition s_edit : entry := mkEntry 1 (chars "u1") (chars "a") 3.

Lemma s_fi_wf : wf_folder_info s_fi.
Proof.
  split; [apply sample_map_wf|]. intros e He. cbn in He. unfold sample_map in He. rewrite !elem_of_cons, elem_of_nil in He.
  by destruct He as [->|[->|[]]].
Qed.

Lemma s_streamer_wf : wf_streamer s_infos s_streamer.
Proof.
  split; [apply NoDup_singleton| |done]. intros key ->%list_elem_of_singleton. exists s_fi. split; [by vm_compute|].
  split; [apply s_fi_wf|by vm_compute].
Qed.

Lemma s_edit_newer : newer s_infos s_key s_fi s_edit.
Proof.
  split; [by vm_compute|by vm_compute|]. intros a b Ha Hb Hca Hcb. cbn in Ha, Hb. unfold sample_map in Ha, Hb.
  rewrite !elem_of_cons, elem_of_nil in Ha, Hb. unfold collides in Hca, Hcb.
  destruct Ha as [->|[->|[]]], Hb as [->|[->|[]]]; try done; exfalso; vm_compute in Hca, Hcb; naive_solver.
Qed.

Definition s_infos' : infos := updated s_infos s_key s_fi s_edit.
Definition s_sent : list (bytes * entry) := [(s_key, mkEntry 2 (chars "u2") (chars "b") 2); (s_key, s_edit)].
Definition s_streamer' : streamer := mkStreamer [(s_key, 3)] None.

Lemma s_run : rtc stream_step (mkWorld s_infos s_streamer []) (mkWorld s_infos' s_streamer' s_sent).
Proof.
  eapply rtc_l; [eapply (step_updated _ _ _ s_key s_fi s_edit); [exact s_edit_newer|vm_compute; reflexivity]|].
  eapply rtc_l; [eapply step_next; vm_compute; reflexivity|].
  eapply rtc_l; [eapply step_next; vm_compute; reflexivity|].
  eapply rtc_l; [eapply step_next; vm_compute; reflexivity|]. apply rtc_refl.
Qed.

Example streamer_in_order_witness :
  ∃ fi, s_infos' !! s_key = Some fi ∧
  StronglySorted (λ a b, e_seq a < e_seq b) (sent_of s_sent s_key) ∧
  Forall (λ e, seen_get (st_seen s_streamer) s_key < e_seq e) (sent_of s_sent s_key) ∧
  ∀ e, e ∈ fi_files fi → seen_get (st_seen s_streamer) s_key < e_seq e →
    e ∈ sent_of s_sent s_key ∨ e ∈ left_of s_infos' s_streamer' s_key.
Proof.
  eexists. split; [vm_compute; reflexivity|].
  apply (streamer_in_order s_infos s_infos' s_streamer s_streamer' s_sent s_key _ s_streamer_wf s_run); [by left|vm_compute; reflexivity].
Defined.

Example streamer_drains_witness :
  ∃ sent, drain (S (total_left s_infos s_streamer (st_seen s_streamer).*1)) s_infos s_streamer = Ok sent ∧
    ∀ key fi, key ∈ (st_seen s_streamer).*1 → s_infos !! key = Some fi →
      sent_of sent key = filter (λ e, seen_get (st_seen s_streamer) key < e_seq e) (fi_files fi).
Proof. exact (streamer_drains s_infos s_streamer s_streamer_wf). Defined.

Definition s_peer : device := make_device (DeviceId.DeviceId (chars "PEER") (prefix_device :: chars "peer")) [] [] (mkState 1 offline None) false.
Definition s_peer_fi : folder_info := mkFolderInfo (chars "p") 4 0 [] (chars "peer") (chars "e") [].
Definition s_folder : folder :=
  mkFolder (chars "F") (mkFolderData (chars "f") [] [] send_and_receive 0 alphabetic false false false false false false)
    None None [s_fi; s_peer_fi] 0 false None.
Definition s_views : remote_view_map := push_view ∅ (chars "me") (chars "f") 9 1.

Example peer_is_brought_up_to_date_witness :
  ∃ st sent fuel, new_streamer [s_folder] s_peer (chars "me") s_views = Ok st ∧ drain fuel s_infos st = Ok sent ∧
    sent_of sent (fi_key s_fi) = filter (λ e, known_to_peer s_fi (mkRemoteView 9 1) < e_seq e) (fi_files s_fi).
Proof.
  apply (peer_is_brought_up_to_date s_infos [s_folder] s_peer (chars "me") s_views s_folder s_fi (mkRemoteView 9 1)).
  - intros fo ->%list_elem_of_singleton. exists s_fi. split; [by vm_compute|]. split; [by vm_compute|]. split; [exact s_fi_wf|].
    split; [by vm_compute|]. intros view Hv. vm_compute in Hv. injection Hv as <-. by vm_compute.
  - split; [by left|]. split; [done|]. split; [by exists s_peer_fi; vm_compute|]. by split; vm_compute.
  - intros fo' fi' view' (->%list_elem_of_singleton & _ & _ & _ & Hv) _. vm_compute in Hv. by injection Hv as <-.
Defined.
