(* ===== verification/Path.v ===== *)
(** * Path: [src/model/misc/path.cpp]. The name of a file with the offsets of its
    components, and the walk over the components. *)

From S2P Require Import Prelude.

Definition slash : Z := 47.

Record path := mkPath {
  p_name : bytes;
  p_pieces : list Z;
}.

(** The maximal runs without a separator, empty runs included. *)
Fixpoint split_runs (acc : bytes) (s : bytes) : list bytes :=
  match s with
  | [] => [rev acc]
  | c :: s => if c =? slash then rev acc :: split_runs [] s else split_runs (c :: acc) s
  end.

(** Iteration over [std::filesystem::path]: the root directory, if there is one, then the
    components; repeated separators count once, a trailing one gives an empty component. *)
Definition path_elements (s : bytes) : list bytes :=
  match s with
  | [] => []
  | c :: _ =>
      let names := filter (λ r, r ≠ []) (split_runs [] s) in
      let trailing := bool_decide (last s = Some slash) && negb (bool_decide (names = [])) in
      (if c =? slash then [[slash]] else []) ++ names ++ (if trailing then [[]] else [])
  end.

(** The loop that records where the components after the first start. *)
Fixpoint piece_offsets (prev : Z) (names : list bytes) : list Z :=
  match names with
  | [] => []
  | n :: names => u32 (prev + 1) :: piece_offsets (prev + Z.of_nat (length n) + 1) names
  end.

(** [path_t::path_t(full_name)]: the first component is read whether it exists or not. *)
Definition make_path (full_name : bytes) : res path :=
  match path_elements full_name with
  | [] => Ub
  | root :: names => Ok (mkPath full_name (piece_offsets (Z.of_nat (length root)) names))
  end.

(** [path_t::get_pieces_size]. *)
Definition get_pieces_size (p : path) : nat :=
  length (p_pieces p) + if bool_decide (p_name p = []) then 0 else 1.

(** [path_t::get_full_name]. *)
Definition get_full_name (p : path) : bytes := p_name p.

(** [path_t::get_parent_name]. *)
Definition get_parent_name (p : path) : bytes :=
  match last (p_pieces p) with
  | Some last_offset => take (Z.to_nat (last_offset - 1)) (p_name p)
  | None => []
  end.

(** [path_t::get_own_name]. *)
Definition get_own_name (p : path) : bytes :=
  match last (p_pieces p) with
  | Some last_offset => drop (Z.to_nat last_offset) (p_name p)
  | None => p_name p
  end.

(** [path_t::contains]: the name is a prefix of the other name. *)
Fixpoint is_prefix (self view : bytes) : bool :=
  match self, view with
  | [], _ => true
  | a :: self, b :: view => (a =? b) && is_prefix self view
  | _ :: _, [] => false
  end.

Definition path_contains (p other : path) : bool := is_prefix (p_name p) (p_name other).

(** [path_t::iterator_t::operator*] at a position. *)
Definition path_deref (p : path) (position : nat) : res bytes :=
  let* _ := assert (position <=? length (p_pieces p))%nat in
  let b := match position with O => 0 | S i => nth i (p_pieces p) 0 end in
  let tail := drop (Z.to_nat b) (p_name p) in
  match p_pieces p !! position with
  | Some next => Ok (take (Z.to_nat (next - 1 - b)) tail)
  | None => Ok tail
  end.

(** The walk from [begin()] to [end()]. *)
Fixpoint path_walk (p : path) (todo position : nat) : res (list bytes) :=
  match todo with
  | O => Ok []
  | S todo =>
      let* view := path_deref p position in
      let* rest := path_walk p todo (S position) in
      Ok (view :: rest)
  end.

Definition path_components (p : path) : res (list bytes) := path_walk p (length (p_pieces p) + 1) 0.

(** ** Lemmas *)

(** A component: not empty, without a separator. *)
Definition component (n : bytes) : Prop := n ≠ [] ∧ slash ∉ n.

(** The relative path of some components. *)
Fixpoint join (n : bytes) (names : list bytes) : bytes :=
  match names with
  | [] => n
  | m :: names => n ++ slash :: join m names
  end.

Lemma split_runs_app acc n s :
  slash ∉ n → split_runs acc (n ++ slash :: s) = (rev acc ++ n) :: split_runs [] s.
Proof.
  revert acc. induction n as [|c n IH]; intros acc Hn; cbn [app split_runs].
  - by rewrite Z.eqb_refl, app_nil_r.
  - rewrite not_elem_of_cons in Hn. destruct Hn as [Hc Hn].
    destruct (Z.eqb_spec c slash); [done|]. rewrite IH by done. cbn [rev]. by rewrite <- app_assoc.
Qed.

Lemma split_runs_last acc n : slash ∉ n → split_runs acc n = [rev acc ++ n].
Proof.
  revert acc. induction n as [|c n IH]; intros acc Hn; cbn [split_runs]; [by rewrite app_nil_r|].
  rewrite not_elem_of_cons in Hn. destruct Hn as [Hc Hn].
  destruct (Z.eqb_spec c slash); [done|]. rewrite IH by done. cbn [rev]. by rewrite <- app_assoc.
Qed.

Lemma split_runs_join n names :
  component n → Forall component names → split_runs [] (join n names) = n :: names.
Proof.
  intros [_ Hn] Hall. revert n Hn. induction Hall as [|m names [_ Hm] Hall IH]; intros n Hn; cbn [join].
  - by rewrite split_runs_last.
  - by rewrite split_runs_app, IH.
Qed.

Lemma join_last n names : component n → Forall component names → last (join n names) ≠ Some slash.
Proof.
  intros Hn Hall. revert n Hn. induction Hall as [|m names Hm Hall IH]; intros n [Hne Hn]; cbn [join].
  - intros Hl. apply Hn. by eapply last_Some_elem_of.
  - rewrite last_app, last_cons. specialize (IH m Hm).
    destruct (last (join m names)) eqn:E; [done|]. apply last_None in E.
    destruct Hm as [Hm _]. by destruct m, names.
Qed.

Lemma path_elements_join n names :
  component n → Forall component names → path_elements (join n names) = n :: names.
Proof.
  intros Hn Hall. pose proof (join_last n names Hn Hall) as Hl.
  pose proof (split_runs_join n names Hn Hall) as Hs. unfold path_elements.
  destruct (join n names) as [|c s] eqn:E.
  { destruct Hn as [Hn _], n, names; done. }
  rewrite Hs, filter_all by (constructor; [apply Hn|]; eapply Forall_impl; [exact Hall|]; by intros x [? _]).
  rewrite (bool_decide_eq_false_2 (last _ = _)) by done. cbn [andb]. rewrite app_nil_r.
  destruct (Z.eqb_spec c slash) as [->|]; [|done]. exfalso.
  destruct Hn as [Hne Hn]. destruct n as [|c n]; [done|].
  assert (c = slash) as ->; [|by apply Hn; left]. destruct names; cbn in E; by simplify_eq.
Qed.

(** Each offset points just after a separator. *)
Lemma piece_offsets_deref names : ∀ pre n,
  Z.of_nat (length (pre ++ join n names)) < 2 ^ 32 →
  let prev := Z.of_nat (length pre + length n) in
  Forall (λ z, 0 <= z) (piece_offsets prev names) ∧
  ∀ i, (i <= length names)%nat →
    let b := match i with O => Z.of_nat (length pre) | S j => nth j (piece_offsets prev names) 0 end in
    let tail := drop (Z.to_nat b) (pre ++ join n names) in
    (match piece_offsets prev names !! i with
     | Some next => take (Z.to_nat (next - 1 - b)) tail
     | None => tail
     end) = nth i (n :: names) [].
Proof.
  induction names as [|m names IH]; intros pre n Hlen prev.
  - split; [constructor|]. intros i Hi. assert (i = 0%nat) as -> by (cbn in Hi; lia). cbn [join nth].
    change (piece_offsets prev [] !! 0%nat) with (@None Z). cbn. by rewrite Nat2Z.id, drop_app_length.
  - cbn [join] in *. assert (Hu : u32 (prev + 1) = prev + 1).
    { unfold u32. apply Z.mod_small. unfold prev. rewrite !length_app in Hlen. cbn [length] in Hlen. lia. }
    specialize (IH (pre ++ n ++ [slash]) m).
    assert (pre ++ n ++ slash :: join m names = (pre ++ n ++ [slash]) ++ join m names) as Heq
      by (by rewrite <- !app_assoc).
    rewrite <- Heq in IH. destruct (IH Hlen) as [IHp IHd]. clear IH.
    assert (Z.of_nat (length (pre ++ n ++ [slash]) + length m) = prev + Z.of_nat (length m) + 1) as Hp.
    { unfold prev. rewrite !length_app. cbn [length]. lia. }
    rewrite Hp in IHp, IHd. cbn [piece_offsets]. rewrite Hu. split.
    { constructor; [unfold prev; lia|done]. }
    intros [|i] Hi.
    + cbn [nth lookup list_lookup]. rewrite Nat2Z.id, drop_app_length.
      replace (Z.to_nat (prev + 1 - 1 - Z.of_nat (length pre))) with (length n) by (unfold prev; lia).
      by rewrite take_app_length.
    + specialize (IHd i). cbn [length] in Hi. specialize (IHd ltac:(lia)). cbn [nth].
      destruct i as [|i]; [|exact IHd].
      replace (Z.of_nat (length (pre ++ n ++ [slash]))) with (prev + 1) in IHd
        by (unfold prev; rewrite !length_app; cbn [length]; lia).
      exact IHd.
Qed.

Lemma piece_offsets_length prev names : length (piece_offsets prev names) = length names.
Proof. revert prev. induction names as [|n names IH]; intros prev; [done|]. cbn. by rewrite IH. Qed.

Lemma path_walk_spec p (names : list bytes) :
  length (p_pieces p) = length names →
  (∀ i, (i <= length names)%nat → ∃ n, path_deref p i = Ok n) →
  ∀ todo i, (i + todo <= length names + 1)%nat →
  ∃ l, path_walk p todo i = Ok l ∧ length l = todo ∧
    ∀ k, (k < todo)%nat → path_deref p (i + k) = Ok (nth k l []).
Proof.
  intros Hlen Hd. induction todo as [|todo IH]; intros i Hi.
  { exists []. split_and!; [done|done|lia]. }
  destruct (Hd i) as [n Hn]; [lia|]. destruct (IH (S i)) as (l & Hl & Hll & Hk); [lia|].
  exists (n :: l). cbn [path_walk]. rewrite Hn. cbn [res_bind]. rewrite Hl. cbn [res_bind].
  split_and!; [done|cbn; lia|]. intros [|k] Hlt; [by rewrite Nat.add_0_r|].
  replace (i + S k)%nat with (S i + k)%nat by lia. apply Hk. lia.
Qed.

Lemma path_deref_spec n names i :
  Z.of_nat (length (join n names)) < 2 ^ 32 → (i <= length names)%nat →
  path_deref (mkPath (join n names) (piece_offsets (Z.of_nat (length n)) names)) i =
    Ok (nth i (n :: names) []).
Proof.
  intros Hlen Hi. destruct (piece_offsets_deref names [] n Hlen) as [_ Hd]. specialize (Hd i Hi).
  cbn [app length Nat.add] in Hd. unfold path_deref. cbn [p_name p_pieces].
  rewrite piece_offsets_length, (proj2 (Nat.leb_le _ _)) by done. cbn [assert res_bind].
  rewrite <- Hd. destruct i; by destruct (piece_offsets _ _ !! _).
Qed.

(** The last offset splits the name at its last separator. *)
Lemma last_piece names : ∀ pre n m,
  Z.of_nat (length (pre ++ join n (names ++ [m]))) < 2 ^ 32 →
  ∃ parent, last (piece_offsets (Z.of_nat (length pre + length n)) (names ++ [m])) =
      Some (Z.of_nat (length pre + length parent) + 1) ∧
    join n (names ++ [m]) = parent ++ slash :: m.
Proof.
  induction names as [|x names IH]; intros pre n m Hlen.
  - exists n. cbn [app join] in *. split; [|done]. cbn [piece_offsets last]. f_equal.
    unfold u32. apply Z.mod_small. rewrite !length_app in Hlen. cbn [length] in Hlen. lia.
  - cbn [app join] in *.
    destruct (IH (pre ++ n ++ [slash]) x m) as (parent & Hl & Hj).
    { rewrite <- !app_assoc. exact Hlen. }
    exists (n ++ slash :: parent). rewrite Hj, <- app_assoc. cbn [app]. split; [|done].
    cbn [piece_offsets]. rewrite last_cons.
    replace (Z.of_nat (length pre + length n) + Z.of_nat (length x) + 1)
      with (Z.of_nat (length (pre ++ n ++ [slash]) + length x)) by (rewrite !length_app; cbn [length]; lia).
    rewrite Hl. f_equal. rewrite !length_app. cbn [length]. lia.
Qed.

(** The own name and the parent of a joined path. *)
Lemma own_name_join n names :
  Z.of_nat (length (join n names)) < 2 ^ 32 →
  let p := mkPath (join n names) (piece_offsets (Z.of_nat (length n)) names) in
  match last names with
  | None => get_own_name p = join n names ∧ get_parent_name p = []
  | Some m => get_own_name p = m ∧ get_parent_name p ++ slash :: m = join n names
  end.
Proof.
  intros Hlen p. destruct names as [|m names _] using rev_ind; [done|]. rewrite last_snoc.
  destruct (last_piece names [] n m Hlen) as (parent & Hl & Hj). cbn [length Nat.add app] in Hl.
  unfold get_own_name, get_parent_name. cbn [p p_pieces p_name]. rewrite Hl, Hj.
  replace (Z.to_nat (Z.of_nat (length parent) + 1)) with (S (length parent)) by lia.
  replace (Z.to_nat (Z.of_nat (length parent) + 1 - 1)) with (length parent) by lia.
  rewrite take_app_length. split; [|done].
  by rewrite (drop_app_ge parent), Nat.sub_succ_l, Nat.sub_diag by lia.
Qed.

(** ** Properties *)

(** For a relative name made of proper components, the recorded offsets are right: the
    walk over the path gives exactly the components in order, the number of pieces is their
    number, the own name is the last component and the parent name is everything before the
    separator in front of it. *)
Theorem path_components_spec n names :
  component n → Forall component names → Z.of_nat (length (join n names)) < 2 ^ 32 →
  ∃ p, make_path (join n names) = Ok p ∧ path_components p = Ok (n :: names) ∧
    get_pieces_size p = S (length names) ∧
    match last names with
    | None => get_own_name p = join n names ∧ get_parent_name p = []
    | Some m => get_own_name p = m ∧ get_parent_name p ++ slash :: m = join n names
    end.
Proof.
  intros Hn Hall Hlen.
  assert (join n names ≠ []) as Hne by (destruct Hn as [Hn _]; by destruct n, names).
  eexists. unfold make_path. rewrite path_elements_join by done. split; [done|].
  set (p := mkPath _ _).
  assert (length (p_pieces p) = length names) as Hpl by apply piece_offsets_length.
  split_and!.
  - unfold path_components. rewrite Hpl.
    destruct (path_walk_spec p names Hpl) with (todo := (length names + 1)%nat) (i := 0%nat) as (l & Hl & Hll & Hk);
      [|lia|].
    { intros i Hi. eexists. by apply path_deref_spec. }
    rewrite Hl. f_equal. apply (nth_ext _ _ [] []); [rewrite Hll; cbn; lia|].
    intros k Hlt. rewrite Hll in Hlt. specialize (Hk k Hlt). cbn [Nat.add] in Hk.
    unfold p in Hk. rewrite path_deref_spec in Hk by (done || lia). by simplify_eq.
  - unfold get_pieces_size. rewrite Hpl. cbn [p p_name]. rewrite bool_decide_eq_false_2 by done. lia.
  - by apply own_name_join.
Qed.

Example path_components_spec_witness :
  ∃ p, make_path (join (chars "a") [chars "bc"; chars "d.txt"]) = Ok p ∧
    path_components p = Ok [chars "a"; chars "bc"; chars "d.txt"] ∧
    get_pieces_size p = 3%nat ∧ get_own_name p = chars "d.txt" ∧
    get_parent_name p ++ slash :: chars "d.txt" = join (chars "a") [chars "bc"; chars "d.txt"].
Proof.
  assert (component (chars "a") ∧ component (chars "bc") ∧ component (chars "d.txt")) as (H1 & H2 & H3).
  { unfold component. split_and!; try done; apply (bool_decide_unpack _); by vm_compute. }
  apply (path_components_spec (chars "a") [chars "bc"; chars "d.txt"]); [done| |done].
  constructor; [done|]. constructor; [done|constructor].
Defined.

(** [contains] does not respect component boundaries. *)
Example contains_sibling :
  path_contains (mkPath (chars "ab") []) (mkPath (chars "abc") []) = true.
Proof. by vm_compute. Qed.
