(* ===== verification/Resolver.v ===== *)
(** * Resolver: [src/model/misc/resolver.cpp]. What to do with a file a peer
    announces: ignore it, copy it, or copy it and keep the local file under another name. *)

From S2P Require Import Prelude Base32 Luhn32 DeviceId Version Proto Blocks FileInfo FileMap Path.

Inductive advance_action := ignore | remote_copy | local_update | resolve_remote_win.

#[export] Instance advance_action_eq_dec : EqDecision advance_action.
Proof. solve_decision. Defined.

(** ** The names of conflicting copies ([file_info_t::make_conflicting_name]) *)

Definition dot : Z := 46.

(** [path::filename] and [path::parent_path] of a name: split at the last separator. *)
Fixpoint split_last (c : Z) (s : bytes) : option (bytes * bytes) :=
  match s with
  | [] => None
  | x :: s =>
      match split_last c s with
      | Some (l, r) => Some (x :: l, r)
      | None => if x =? c then Some ([], s) else None
      end
  end.

(** [path::stem] and [path::extension] of a file name. *)
Definition stem_ext (name : bytes) : bytes * bytes :=
  if bool_decide (name = [dot]) || bool_decide (name = [dot; dot]) then (name, [])
  else match split_last dot name with
       | Some ([], _) | None => (name, [])
       | Some (stem, ext) => (stem, dot :: ext)
       end.

(** Decimal digits of [n], and [{:0w}]. *)
Fixpoint decimal (fuel : nat) (n : Z) (acc : bytes) : bytes :=
  match fuel with
  | O => acc
  | S fuel =>
      let acc := (48 + n mod 10) :: acc in
      if n / 10 =? 0 then acc else decimal fuel (n / 10) acc
  end.

Definition padded (w : nat) (n : Z) : bytes :=
  let d := decimal 20 n [] in repeat 48 (w - length d) ++ d.

Record local_time := mkLocalTime {
  lt_year : Z; lt_month : Z; lt_day : Z; lt_hours : Z; lt_minutes : Z; lt_seconds : Z;
}.

Definition conflict_marker : bytes := chars ".sync-conflict-".

Section conflicts.
  (** The local time of a point in time: the time zone of the machine. *)
  Variable utc_to_local : Z → local_time.

(** [file_info_t::make_conflicting_name]. *)
Definition make_conflicting_name (f : file_info) : bytes :=
  let '(parent, file_name) :=
    match split_last slash (f_name f) with Some (p, n) => (Some p, n) | None => (None, f_name f) end in
  let '(stem, ext) := stem_ext file_name in
  let t := utc_to_local (f_modified_s f) in
  let device_short := make_short (c_id (get_best (f_version f))) in
  let conflicted_name :=
    stem ++ conflict_marker ++
    padded 4 (lt_year t) ++ padded 2 (lt_month t) ++ padded 2 (lt_day t) ++ chars "-" ++
    padded 2 (lt_hours t) ++ padded 2 (lt_minutes t) ++ padded 2 (lt_seconds t) ++ chars "-" ++
    device_short ++ ext in
  match parent with
  | Some p => p ++ slash :: conflicted_name
  | None => conflicted_name
  end.

(** ** Decisions *)

(** [compare_by_version]. *)
Definition compare_by_version (remote local : file_info) : advance_action :=
  let r_v := f_version remote in
  let l_v := f_version local in
  let r_best := get_best r_v in
  let l_best := get_best l_v in
  if c_id r_best =? c_id l_best then
    if c_value r_best <? c_value l_best then ignore
    else if c_value l_best <? c_value r_best then remote_copy
    else ignore
  else
    let r_superior := contains r_v l_v in
    let l_superior := contains l_v r_v in
    let concurrent := negb r_superior && negb l_superior in
    if concurrent && is_deleted remote then ignore
    else if concurrent && is_deleted local then remote_copy
    else if r_superior then remote_copy
    else if l_superior then ignore
    else if f_modified_s local <? f_modified_s remote then resolve_remote_win
    else if f_modified_s remote <? f_modified_s local then ignore
    else if c_id l_best <=? c_id r_best then resolve_remote_win
    else ignore.

(** [compare]. *)
Definition compare (file_1 file_2 : file_info) : Z :=
  if is_deleted file_1 && is_deleted file_2 then 0
  else match compare_by_version file_2 file_1 with ignore => 1 | _ => -1 end.

(** What the decision reads of the folder: for every folder info but the local one, the file
    it has under the remote's name; whether deletions are ignored; and the local names. *)
Record folder_view := mkView {
  v_others : list (option (file_ptr * file_info));
  v_deletion_ignored : bool;
  v_local_files : file_map;
}.

(** Is some other party's version not covered by the remote one? *)
Definition outdated (remote_ptr : file_ptr) (remote : file_info) (others : list (option (file_ptr * file_info))) : bool :=
  existsb (λ o, match o with
                | Some (p, f) => negb (bool_decide (p = remote_ptr)) && negb (contains (f_version remote) (f_version f))
                | None => false
                end) others.

(** [_resolve]. *)
Definition resolve_basic (remote_ptr : file_ptr) (remote : file_info) (local : option file_info)
    (view : folder_view) : advance_action :=
  if is_unreachable remote then ignore
  else if is_invalid remote then ignore
  else if outdated remote_ptr remote (v_others view) then ignore
  else if is_deleted remote && v_deletion_ignored view then ignore
  else match local with
       | None => remote_copy
       | Some local =>
           if negb (is_local local) then ignore
           else if is_deleted remote && is_deleted local then ignore
           else compare_by_version remote local
       end.

(** [s.find(needle) != npos]. *)
Fixpoint occurs (needle s : bytes) : bool :=
  is_prefix needle s || match s with [] => false | _ :: s => occurs needle s end.

(** The answers of [utils::platform_t]. *)
Class Platform := {
  symlinks_supported : bool;
  path_supported : bytes → bool;
}.

(** [resolve]. *)
Definition resolve `{Platform} (remote_ptr : file_ptr) (remote : file_info) (local : option file_info)
    (view : folder_view) : res advance_action :=
  if is_link remote && negb (is_deleted remote) && negb symlinks_supported then Ok ignore
  else if negb (path_supported (f_name remote)) then Ok ignore
  else
    let action := resolve_basic remote_ptr remote local view in
    match action with
    | resolve_remote_win =>
        let* p := make_path (f_name remote) in
        if occurs conflict_marker (get_own_name p) then Ok ignore
        else match local with
             | None => Ub
             | Some local =>
                 match by_name (v_local_files view) (make_conflicting_name local) with
                 | Some _ => Ok ignore
                 | None => Ok resolve_remote_win
                 end
             end
    | action => Ok action
    end.
End conflicts.

(** The platform the project calls POSIX. *)
#[local] Instance posix : Platform := {| symlinks_supported := true; path_supported := λ _, true |}.

(** ** Lemmas on names *)

(** The name of the entry [m] in the directory [dir]. *)
Definition name_of (dir : list bytes) (m : bytes) : bytes :=
  match dir with [] => m | n :: names => join n (names ++ [m]) end.

Lemma join_snoc n names m : join n (names ++ [m]) = join n names ++ slash :: m.
Proof.
  revert n. induction names as [|x names IH]; intros n; [done|]. cbn [app join]. by rewrite IH, <- app_assoc.
Qed.

Lemma split_last_none c s : c ∉ s → split_last c s = None.
Proof.
  induction s as [|x s IH]; intros H; [done|]. rewrite not_elem_of_cons in H. destruct H as [Hx Hs].
  cbn. rewrite IH by done. by destruct (Z.eqb_spec x c).
Qed.

Lemma split_last_app c l r : c ∉ r → split_last c (l ++ c :: r) = Some (l, r).
Proof.
  intros Hr. induction l as [|x l IH]; cbn.
  - rewrite split_last_none by done. by rewrite Z.eqb_refl.
  - by rewrite IH.
Qed.

Lemma split_last_some c s l r : split_last c s = Some (l, r) → s = l ++ c :: r ∧ c ∉ r.
Proof.
  revert l. induction s as [|x s IH]; intros l H; [done|]. cbn in H.
  destruct (split_last c s) as [[l' r']|] eqn:E.
  - simplify_eq. destruct (IH l' eq_refl) as [-> Hr]. done.
  - destruct (Z.eqb_spec x c) as [->|]; [|done]. simplify_eq. split; [done|].
    clear IH. revert E. induction r as [|y r IH]; intros E Hin; [by apply not_elem_of_nil in Hin|].
    cbn in E. destruct (split_last c r) as [[]|] eqn:E'; [done|].
    destruct (Z.eqb_spec y c); [done|]. apply elem_of_cons in Hin as [?|Hin]; [done|]. by apply IH.
Qed.

Lemma stem_ext_app name : fst (stem_ext name) ++ snd (stem_ext name) = name.
Proof.
  unfold stem_ext. destruct (_ || _); [apply app_nil_r|].
  destruct (split_last dot name) as [[[|x l] r]|] eqn:E; cbn; [apply app_nil_r| |apply app_nil_r].
  by apply split_last_some in E as [-> _].
Qed.

Lemma occurs_app needle pre post : occurs needle (pre ++ needle ++ post) = true.
Proof.
  assert (∀ l r, is_prefix l (l ++ r) = true) as Hp.
  { induction l as [|x l IH]; intros r; [done|]. cbn. by rewrite Z.eqb_refl, IH. }
  induction pre as [|x pre IH]; cbn [app].
  - destruct (needle ++ post) eqn:E; cbn [occurs]; rewrite <- E, Hp; done.
  - cbn [occurs]. by rewrite IH, orb_true_r.
Qed.

Lemma decimal_digits fuel n acc :
  Forall (λ c, 48 <= c <= 57) acc → Forall (λ c, 48 <= c <= 57) (decimal fuel n acc) ∧
  (length (decimal fuel n acc) <= fuel + length acc)%nat.
Proof.
  revert n acc. induction fuel as [|fuel IH]; intros n acc Hacc; [by split|]. cbn [decimal].
  assert (Forall (λ c, 48 <= c <= 57) ((48 + n mod 10) :: acc)) as Hc.
  { constructor; [|done]. pose proof (Z.mod_pos_bound n 10). lia. }
  destruct (n / 10 =? 0); [split; [done|cbn [length]; lia]|].
  destruct (IH (n / 10) _ Hc) as [H1 H2]. split; [done|]. cbn [length] in H2. lia.
Qed.

Lemma padded_digits w n :
  Forall (λ c, 48 <= c <= 57) (padded w n) ∧ (length (padded w n) <= w + 20)%nat.
Proof.
  unfold padded. destruct (decimal_digits 20 n []) as [H1 H2]; [constructor|]. split.
  - apply Forall_app. split; [|done]. apply Forall_forall. intros x Hx.
    apply list_elem_of_In, repeat_spec in Hx as ->. lia.
  - rewrite length_app, repeat_length. cbn [length] in H2. lia.
Qed.

(** Slash-free strings that name conflicts: digits, dashes and base32 letters. *)
Lemma padded_no_slash w n : slash ∉ padded w n.
Proof.
  destruct (padded_digits w n) as [H _]. rewrite Forall_forall in H. intros Hin.
  specialize (H _ Hin). unfold slash in H. lia.
Qed.

Lemma make_short_no_slash id : (slash ∉ make_short id) ∧ (length (make_short id) <= 7)%nat.
Proof.
  unfold make_short. destruct (id =? 0); [split; [by apply not_elem_of_nil|cbn; lia]|].
  split; [|rewrite length_take; unfold DASH_INT; lia].
  assert (digits 256 (take 5 (be_bytes 8 id))) as Hd.
  { apply Forall_take. generalize 8%nat as k. intros k. generalize id as z. induction k as [|k IH]; intros z; [constructor|].
    cbn [be_bytes]. apply Forall_app. split; [apply IH|]. constructor; [|constructor].
    apply Z.mod_pos_bound. lia. }
  intros Hin. apply elem_of_take in Hin as (i & Hin & _). apply list_elem_of_lookup_2 in Hin.
  destruct (encode_text _ Hd) as (ds & Hds & Heq). rewrite Heq in Hin.
  apply list_elem_of_fmap in Hin as (d & Hslash & Hdin). unfold digits in Hds. rewrite Forall_forall in Hds.
  specialize (Hds d Hdin). clear -Hslash Hds. unfold b32_char in Hslash.
  assert (∃ k, Z.to_nat d = k ∧ (k < 32)%nat) as (k & Hk & Hlt) by (exists (Z.to_nat d); split; [done|lia]).
  rewrite Hk in Hslash. do 32 (destruct k as [|k]; [by vm_compute in Hslash|]). lia.
Qed.

(** The file name of a conflicting copy. *)
Definition conflict_own (utc_to_local : Z → local_time) (f : file_info) (m : bytes) : bytes :=
  let t := utc_to_local (f_modified_s f) in
  fst (stem_ext m) ++ conflict_marker ++
    padded 4 (lt_year t) ++ padded 2 (lt_month t) ++ padded 2 (lt_day t) ++ chars "-" ++
    padded 2 (lt_hours t) ++ padded 2 (lt_minutes t) ++ padded 2 (lt_seconds t) ++ chars "-" ++
    make_short (c_id (get_best (f_version f))) ++ snd (stem_ext m).

Lemma make_conflicting_name_eq utc f dir m :
  slash ∉ m → f_name f = name_of dir m →
  make_conflicting_name utc f = name_of dir (conflict_own utc f m).
Proof.
  intros Hm Hn. unfold make_conflicting_name. rewrite Hn. unfold name_of. destruct dir as [|n names].
  - rewrite split_last_none by done. cbn. unfold conflict_own. by destruct (stem_ext m).
  - rewrite !join_snoc, split_last_app by done. cbn. unfold conflict_own. by destruct (stem_ext m).
Qed.

Lemma conflict_own_no_slash utc f m : slash ∉ m → slash ∉ conflict_own utc f m.
Proof.
  intros Hm. rewrite <- (stem_ext_app m) in Hm. unfold conflict_own.
  apply not_elem_of_app in Hm as [H1 H2].
  destruct (make_short_no_slash (c_id (get_best (f_version f)))) as [H3 _].
  assert (slash ∉ conflict_marker) as H4 by (apply (bool_decide_unpack _); by vm_compute).
  assert (slash ∉ chars "-") as H5 by (apply (bool_decide_unpack _); by vm_compute).
  repeat (rewrite not_elem_of_app; split); first [done | apply padded_no_slash].
Qed.

Lemma conflict_own_length utc f m : (length (conflict_own utc f m) <= length m + 200)%nat.
Proof.
  unfold conflict_own. set (t := utc (f_modified_s f)).
  assert (length m = (length (fst (stem_ext m)) + length (snd (stem_ext m)))%nat) as Hm
    by (by rewrite <- length_app, stem_ext_app).
  destruct (make_short_no_slash (c_id (get_best (f_version f)))) as [_ H3].
  pose proof (proj2 (padded_digits 4 (lt_year t))). pose proof (proj2 (padded_digits 2 (lt_month t))).
  pose proof (proj2 (padded_digits 2 (lt_day t))). pose proof (proj2 (padded_digits 2 (lt_hours t))).
  pose proof (proj2 (padded_digits 2 (lt_minutes t))). pose proof (proj2 (padded_digits 2 (lt_seconds t))).
  rewrite !length_app, Hm. change (length conflict_marker) with 15%nat. change (length (chars "-")) with 1%nat. lia.
Qed.

Lemma conflict_own_component utc f m : slash ∉ m → component (conflict_own utc f m).
Proof.
  intros Hm. split; [|by apply conflict_own_no_slash]. unfold conflict_own.
  destruct (fst (stem_ext m)); done.
Qed.

Lemma name_of_own dir m :
  Forall component dir → component m → Z.of_nat (length (name_of dir m)) < 2 ^ 32 →
  ∃ p, make_path (name_of dir m) = Ok p ∧ get_own_name p = m.
Proof.
  intros Hdir Hm Hlen. unfold make_path. destruct dir as [|n names]; cbn [name_of] in *.
  - change m with (join m []). rewrite path_elements_join by (done || constructor).
    eexists. split; [done|]. pose proof (own_name_join m [] Hlen) as [H _]. exact H.
  - apply Forall_cons in Hdir as [Hn Hdir].
    rewrite path_elements_join; [|done|apply Forall_app; split; [done|by constructor]].
    eexists. split; [done|]. pose proof (own_name_join n (names ++ [m]) Hlen) as H.
    cbn zeta in H. rewrite last_snoc in H. apply H.
Qed.

(** ** Properties *)

(** The conflicting copy of a file stays in the file's directory, keeps the extension, and
    carries the conflict mark in its own name, so that a later conflict on that copy
    is ignored and never renamed again. *)
Theorem conflict_name_spec utc f dir m `{Platform} remote_ptr remote local view :
  Forall component dir → component m → f_name f = name_of dir m →
  Z.of_nat (length (name_of dir m)) + 200 < 2 ^ 32 →
  ∃ m', make_conflicting_name utc f = name_of dir m' ∧ component m' ∧
    occurs conflict_marker m' = true ∧ snd (stem_ext m) `suffix_of` m' ∧
    (f_name remote = make_conflicting_name utc f →
     resolve utc remote_ptr remote local view ≠ Ok resolve_remote_win).
Proof.
  intros Hdir Hm Hn Hlen. exists (conflict_own utc f m).
  rewrite (make_conflicting_name_eq utc f dir m) by (done || apply Hm).
  pose proof (conflict_own_component utc f m (proj2 Hm)) as Hc.
  assert (occurs conflict_marker (conflict_own utc f m) = true) as Ho by apply occurs_app.
  split_and!; try done.
  - unfold conflict_own. rewrite !app_assoc. eexists. done.
  - intros Hr. unfold resolve. rewrite Hr.
    destruct (_ && _ && _); [done|]. destruct (negb _); [done|].
    destruct (resolve_basic remote_ptr remote local view); try done.
    destruct (name_of_own dir (conflict_own utc f m)) as (p & -> & Hp); try done.
    + pose proof (conflict_own_length utc f m).
      assert (length (name_of dir (conflict_own utc f m)) <= length (name_of dir m) + 200)%nat; [|lia].
      destruct dir; cbn [name_of]; [done|]. rewrite !join_snoc, !length_app. cbn [length]. lia.
    + cbn [res_bind]. by rewrite Hp, Ho.
Qed.

Definition sample_remote (name : bytes) : file_info :=
  mkFile (repeat 9 32) name 77 5 1 420 0 (FileContent []) [Counter 5 (2 ^ 63 + 8)] (f_type_file + f_local).

Example conflict_name_spec_witness :
  ∃ m', make_conflicting_name (λ _, mkLocalTime 2024 1 2 3 4 5) (sample_remote (chars "d/a.txt")) =
      name_of [chars "d"] m' ∧ component m' ∧ occurs conflict_marker m' = true.
Proof.
  destruct (conflict_name_spec (λ _, mkLocalTime 2024 1 2 3 4 5) (sample_remote (chars "d/a.txt")) [chars "d"]
    (chars "a.txt") 1 (sample_remote (chars "d/a.txt")) None (mkView [] false [])) as (m' & H1 & H2 & H3 & _).
  - constructor; [|constructor]. split; [done|]. apply (bool_decide_unpack _). by vm_compute.
  - split; [done|]. apply (bool_decide_unpack _). by vm_compute.
  - by vm_compute.
  - by vm_compute.
  - by exists m'.
Defined.

(** Each side contains the best counter of the other although they differ. *)
Definition mutual (a b : file_info) : Prop :=
  c_id (get_best (f_version a)) ≠ c_id (get_best (f_version b)) ∧
  contains (f_version a) (f_version b) = true ∧ contains (f_version b) (f_version a) = true.

(** C23: two devices compare the same two versions, each from its own side. Both take the other's version (which would swap them) exactly if
    each version contains the best counter of the other although these are of different devices, which happens with versions from
    the wire only in a tie ([mutual_only_on_ties]). And unless the best counters are equal or both files are
    deleted, one of the two takes the other's version: otherwise than in that case they converge. *)
Theorem compare_by_version_converges a b :
  (compare_by_version a b ≠ ignore ∧ compare_by_version b a ≠ ignore ↔ mutual a b) ∧
  (get_best (f_version a) ≠ get_best (f_version b) → is_deleted a && is_deleted b = false →
   compare_by_version a b ≠ ignore ∨ compare_by_version b a ≠ ignore).
Proof.
  unfold mutual, compare_by_version.
  destruct (get_best (f_version a)) as [ia va], (get_best (f_version b)) as [ib vb].
  cbn [c_id c_value] in *. rewrite (Z.eqb_sym ib ia).
  destruct (Z.eqb_spec ia ib) as [->|Hne].
  - destruct (Z.ltb_spec va vb), (Z.ltb_spec vb va); try lia; (split; [naive_solver|]); try (by left); try (by right).
    intros Hne. destruct Hne. f_equal. lia.
  - destruct (contains (f_version a) (f_version b)), (contains (f_version b) (f_version a)); cbn [negb andb]; try (split; naive_solver).
    destruct (is_deleted a) eqn:Da, (is_deleted b) eqn:Db; cbn [andb]; try (split; naive_solver).
    destruct (Z.ltb_spec (f_modified_s a) (f_modified_s b)), (Z.ltb_spec (f_modified_s b) (f_modified_s a)); try lia; try (split; naive_solver).
    destruct (Z.leb_spec ia ib), (Z.leb_spec ib ia); try lia; split; naive_solver.
Qed.

(** Two devices have changed a file without knowing of each other: the one with the older change takes the other's version. *)
Example compare_by_version_converges_witness :
  let a := sample_remote (chars "a") in
  let b := mkFile (repeat 9 32) (chars "a") 99 7 1 420 0 (FileContent []) [Counter 7 (2 ^ 63 + 6)] (f_type_file + f_local) in
  (compare_by_version a b ≠ ignore ∨ compare_by_version b a ≠ ignore) ∧ ¬ (compare_by_version a b ≠ ignore ∧ compare_by_version b a ≠ ignore).
Proof.
  intros a b. destruct (compare_by_version_converges a b) as [Hboth Hone]. split; [by apply Hone|].
  intros Hm. apply Hboth in Hm as (_ & Hab & _). by vm_compute in Hab.
Defined.

(** Versions read from the wire contain each other only in a tie: then the best
    counters have the same value, and each version has the other's best counter. *)
Theorem mutual_only_on_ties va vb a b :
  Forall plain va → Forall plain vb →
  version_of_proto va = Ok (f_version a) → version_of_proto vb = Ok (f_version b) →
  mutual a b → c_value (get_best (f_version a)) = c_value (get_best (f_version b)) ∧
    get_best (f_version a) ∈ vb ∧ get_best (f_version b) ∈ va.
Proof.
  intros Pa Pb Ha Hb (_ & Hab & Hba).
  assert (va ≠ []) as Hva by (by intros ->). assert (vb ≠ []) as Hvb by (by intros ->).
  destruct (version_of_proto_marks va Hva) as (csa & ca & Hcsa & Ma). rewrite Ha in Hcsa. injection Hcsa as <-.
  destruct (version_of_proto_marks vb Hvb) as (csb & cb & Hcsb & Mb). rewrite Hb in Hcsb. injection Hcsb as <-.
  rewrite contains_counter_of in Hab, Hba.
  rewrite (marked_as_proto _ _ _ Pa Ma), (marked_get_best _ _ _ Pb Mb) in Hab.
  rewrite (marked_as_proto _ _ _ Pb Mb), (marked_get_best _ _ _ Pa Ma) in Hba.
  rewrite (marked_get_best _ _ _ Pa Ma), (marked_get_best _ _ _ Pb Mb).
  pose proof (marked_max _ _ _ Ma) as Xa. pose proof (marked_max _ _ _ Mb) as Xb.
  rewrite Forall_forall in Xa, Xb.
  destruct (counter_of (c_id cb) va) as [x|] eqn:Ex; [|done]. apply Z.leb_le in Hab.
  destruct (counter_of (c_id ca) vb) as [y|] eqn:Ey; [|done]. apply Z.leb_le in Hba.
  apply counter_of_some in Ex as [Hx Ix], Ey as [Hy Iy].
  pose proof (Xa x Hx). pose proof (Xb y Hy).
  assert (ca = y) as -> by (destruct ca, y; cbn in *; f_equal; [done|lia]).
  assert (cb = x) as -> by (destruct cb, x; cbn in *; f_equal; [done|lia]).
  split_and!; [lia|done|done].
Qed.

Definition sample_versioned (v : version) : file_info :=
  mkFile (repeat 9 32) (chars "a") 77 5 1 420 0 (FileContent []) v (f_type_file + f_local).

Example mutual_only_on_ties_witness :
  let a := sample_versioned [Counter 1 (2 ^ 63 + 5); Counter 2 5] in
  let b := sample_versioned [Counter 2 (2 ^ 63 + 5); Counter 1 5] in
  c_value (get_best (f_version a)) = c_value (get_best (f_version b)) ∧
    get_best (f_version a) ∈ [Counter 2 5; Counter 1 5] ∧ get_best (f_version b) ∈ [Counter 1 5; Counter 2 5].
Proof.
  intros a b. apply (mutual_only_on_ties [Counter 1 5; Counter 2 5] [Counter 2 5; Counter 1 5] a b).
  - repeat constructor; cbn; lia.
  - repeat constructor; cbn; lia.
  - reflexivity.
  - reflexivity.
  - split_and!; by vm_compute.
Defined.

(** C28: what a device does to a file it edits is picked up by the others: when the remote
    version is the local one updated (on any device) and sent over the wire, the local side
    copies it, whatever the rest of the metadata says; and the device that made the edit
    ignores the old version. *)
Theorem edit_propagates v id now remote local :
  v ≠ [] → Forall plain v → NoDup (map c_id v) →
  Forall (λ c, c_value c + 1 < 2 ^ 63) v → 0 <= now < 2 ^ 63 →
  version_of_proto v = Ok (f_version local) →
  version_of_proto (as_proto (update id now (f_version local))) = Ok (f_version remote) →
  compare_by_version remote local = remote_copy ∧ compare_by_version local remote = ignore.
Proof.
  intros Hne Hp Hnd Hv Hnow Hl Hr.
  destruct (update_read_back v (f_version local) id now Hne Hp Hnd Hv Hnow Hl)
    as (cs' & Hcs' & Hbest & Hlt & Hc1 & Hc2 & _).
  rewrite Hr in Hcs'. injection Hcs' as <-.
  destruct (version_of_proto_marks v Hne) as (cs & c & Hcs & Hm). rewrite Hl in Hcs. injection Hcs as <-.
  pose proof (marked_elem _ _ _ Hm) as Hel. pose proof (marked_get_best _ _ _ Hp Hm) as Hb.
  rewrite Forall_forall in Hlt. specialize (Hlt c Hel). rewrite <- Hb in Hlt.
  unfold compare_by_version. rewrite Hc1, Hc2. rewrite (Z.eqb_sym (c_id (get_best (f_version local)))).
  destruct (c_id (get_best (f_version remote)) =? c_id (get_best (f_version local))).
  - destruct (Z.ltb_spec (c_value (get_best (f_version remote))) (c_value (get_best (f_version local)))),
      (Z.ltb_spec (c_value (get_best (f_version local))) (c_value (get_best (f_version remote)))); try lia. done.
  - done.
Qed.

Example edit_propagates_witness :
  compare_by_version (sample_versioned [Counter 1 (2 ^ 63 + 50); Counter 7 10])
    (sample_versioned [Counter 1 2; Counter 7 (2 ^ 63 + 10)]) = remote_copy ∧
  compare_by_version (sample_versioned [Counter 1 2; Counter 7 (2 ^ 63 + 10)])
    (sample_versioned [Counter 1 (2 ^ 63 + 50); Counter 7 10]) = ignore.
Proof.
  apply (edit_propagates [Counter 1 2; Counter 7 10] 1 50); try done.
  - repeat constructor; cbn; lia.
  - cbn. repeat constructor; set_solver.
  - repeat constructor; cbn; lia.
Defined.

Lemma outdated_spec ptr remote others :
  outdated ptr remote others = false ↔ ∀ p f, Some (p, f) ∈ others → p ≠ ptr → contains (f_version remote) (f_version f) = true.
Proof.
  unfold outdated. rewrite <- not_true_iff_false, existsb_exists. setoid_rewrite <- list_elem_of_In. split.
  - intros Hn p f Hin Hne. apply not_false_is_true. intros Hc. apply Hn. exists (Some (p, f)). split; [done|]. by rewrite bool_decide_eq_false_2, Hc.
  - intros Hall ([[p f]|] & Hin & Hx); [|done]. case_bool_decide as Hp; [done|]. by rewrite (Hall p f Hin Hp) in Hx.
Qed.


