(* ===== verification/BlockMap.v ===== *)
(** * BlockMap: the blocks a cluster knows ([block_infos_map_t] of
    [src/model/block_info.cpp]), the changes that add and remove them
    ([src/model/diff/modify/add_blocks.cpp], [remove_blocks.cpp]) and the search for
    the blocks that no file uses any more ([src/model/misc/orphaned_blocks.cpp]). *)

From S2P Require Import Prelude Proto Blocks FileInfo FileStore.

(** ** [block_infos_map_t] *)

(** One unique index, the hash; an element is a counted reference to a block. *)
Abbreviation block_map := (gmap bytes block_ptr).

Definition by_hash (m : block_map) (hash : bytes) : option block_ptr := m !! hash.

(** [put]: an [emplace], whatever [replace] says. *)
Definition block_put (m : block_map) (h : heap) (item : block_ptr) : res (block_map * heap * bool) :=
  let* b := deref h item in
  match m !! b_hash b with
  | Some _ => Ok (m, h, false)
  | None => let* h := add_ref h item in Ok (<[b_hash b := item]> m, h, true)
  end.

(** [remove]: [nullptr] is dereferenced; the reference of the map is dropped. *)
Definition block_remove (m : block_map) (h : heap) (item : option block_ptr) : res (block_map * heap) :=
  match item with
  | None => Ub
  | Some p =>
      let* b := deref h p in
      match m !! b_hash b with
      | None => Ok (m, h)
      | Some q => let* h := release h q in Ok (delete (b_hash b) m, h)
      end
  end.

(** ** [add_blocks_t] and [remove_blocks_t] *)

(** One round of [add_blocks_t::apply_impl]: the new block is held by the local variable
    [block] until the end of the round. *)
Definition add_block (m : block_map) (h : heap) (b : BlockInfo) : res (block_map * heap) :=
  let* block := create_block b in
  let p := fresh (dom h) in
  let* h := add_ref (<[p := block]> h) p in
  let* '(m, h, _) := block_put m h p in
  let* h := release h p in
  Ok (m, h).

Fixpoint add_blocks (m : block_map) (h : heap) (blocks : list BlockInfo) : res (block_map * heap) :=
  match blocks with
  | [] => Ok (m, h)
  | b :: blocks => let* '(m, h) := add_block m h b in add_blocks m h blocks
  end.

(** One round of [remove_blocks_t::apply_impl]; [b] holds the block meanwhile. *)
Definition drop_block (m : block_map) (h : heap) (hash : bytes) : res (block_map * heap) :=
  let b := by_hash m hash in
  let* h := match b with Some p => add_ref h p | None => Ok h end in
  let* '(m, h) := block_remove m h b in
  let* h := match b with Some p => release h p | None => Ok h end in
  Ok (m, h).

Fixpoint drop_blocks (m : block_map) (h : heap) (keys : list bytes) : res (block_map * heap) :=
  match keys with
  | [] => Ok (m, h)
  | hash :: keys => let* '(m, h) := drop_block m h hash in drop_blocks m h keys
  end.

(** ** [orphaned_blocks_t] *)

(** [record]: the set of files, in the order in which it is enumerated. *)
Definition record (file_for_removal : list file_ptr) (file : file_ptr) : list file_ptr :=
  if bool_decide (file ∈ file_for_removal) then file_for_removal else file_for_removal ++ [file].

(** [--usages] for every place in a file of the set. *)
Definition usages_left (file_for_removal : list file_ptr) (fbs : list file_block) : Z :=
  fold_left (λ usages fb, if bool_decide (fb_file fb ∈ file_for_removal) then usages - 1 else usages)
    fbs (Z.of_nat (length fbs)).

(** The inner loop of [deduce], over the blocks of one file; the loop ends at the first
    [nullptr]. [fuel] bounds the rounds, [Ub] stands for running out of it. *)
Fixpoint deduce_file (fuel : nat) (file_for_removal : list file_ptr) (white_listed : list bytes) (h : heap)
    (it : blocks_iterator) (processed r : list bytes) : res (list bytes * list bytes) :=
  match fuel with
  | O => Ub
  | S fuel =>
      let* '(block, it) := it_next it in
      match block with
      | None => Ok (processed, r)
      | Some p =>
          let* b := deref h p in
          let hash := b_hash b in
          if bool_decide (hash ∈ white_listed) then
            deduce_file fuel file_for_removal white_listed h it processed r
          else if bool_decide (hash ∈ processed) then
            deduce_file fuel file_for_removal white_listed h it processed r
          else
            let* fbs := iterate_blocks b in
            let r := if usages_left file_for_removal fbs =? 0 then r ++ [hash] else r in
            deduce_file fuel file_for_removal white_listed h it (hash :: processed) r
      end
  end.

(** The outer loop, over the files of the set. *)
Fixpoint deduce_loop (file_for_removal todo : list file_ptr) (white_listed : list bytes)
    (files : gmap file_ptr file_info) (h : heap) (processed r : list bytes) : res (list bytes) :=
  match todo with
  | [] => Ok r
  | file :: todo =>
      match files !! file with
      | None => Ub
      | Some f =>
          let* '(processed, r) :=
            if is_file f then
              let* bs := file_blocks f in
              deduce_file (S (length bs)) file_for_removal white_listed h
                (mkBlocksIterator (Some f) 0) processed r
            else Ok (processed, r) in
          deduce_loop file_for_removal todo white_listed files h processed r
      end
  end.

(** [orphaned_blocks_t::deduce]. *)
Definition deduce (file_for_removal : list file_ptr) (white_listed : list bytes)
    (files : gmap file_ptr file_info) (h : heap) : res (list bytes) :=
  deduce_loop file_for_removal file_for_removal white_listed files h [] [].

(** ** The invariant of the map *)

(** The references the map holds: one for every block it has. *)
Definition map_refs (m : block_map) (p : block_ptr) : Z :=
  if bool_decide (map_Exists (λ _ q, q = p) m) then 1 else 0.

(** Every key is the hash of the block it leads to; blocks are held by the slots of the files
    and by the map. *)
Record wf_blocks (σ : slot_map) (m : block_map) (h : heap) : Prop := {
  bm_heap : wf_heap σ (map_refs m) h;
  bm_hash : ∀ hash p, m !! hash = Some p → ∃ b, h !! p = Some b ∧ b_hash b = hash;
}.

Lemma map_refs_some (m : block_map) hash p : m !! hash = Some p → map_refs m p = 1.
Proof.
  intros H. unfold map_refs. rewrite bool_decide_eq_true_2; [done|]. by eapply map_Exists_lookup_2.
Qed.

Lemma map_refs_none (m : block_map) p : (∀ hash, m !! hash ≠ Some p) → map_refs m p = 0.
Proof.
  intros H. unfold map_refs. rewrite bool_decide_eq_false_2; [done|].
  intros (hash & q & Hq & ->)%map_Exists_lookup. by apply (H hash).
Qed.

Lemma map_refs_ext (m m' : block_map) p :
  (map_Exists (λ _ q, q = p) m ↔ map_Exists (λ _ q, q = p) m') → map_refs m p = map_refs m' p.
Proof. intros H. unfold map_refs. by rewrite (bool_decide_ext _ _ H). Qed.

Lemma map_refs_insert (m : block_map) hash p q :
  m !! hash = None → (∀ x, m !! x ≠ Some p) → map_refs (<[hash := p]> m) q = extra_by (map_refs m) p 1 q.
Proof.
  intros Hn Hp. destruct (decide (q = p)) as [->|Hne].
  - rewrite extra_by_eq, (map_refs_none m) by done. rewrite (map_refs_some _ hash); [done|]. apply lookup_insert_eq.
  - rewrite extra_by_ne by done. apply map_refs_ext. rewrite !map_Exists_lookup. split; intros (k & x & Hk & ->).
    + apply lookup_insert_Some in Hk as [[_ ?]|[_ Hk]]; [done|]. eauto.
    + exists k, q. split; [|done]. rewrite lookup_insert_ne; [done|]. intros <-. by rewrite Hn in Hk.
Qed.

Lemma map_refs_delete (m : block_map) hash p q :
  m !! hash = Some p → (∀ x, m !! x = Some p → x = hash) →
  map_refs (delete hash m) q = extra_by (map_refs m) p (-1) q.
Proof.
  intros Hs Hp. destruct (decide (q = p)) as [->|Hne].
  - rewrite extra_by_eq, (map_refs_some m hash) by done. apply map_refs_none.
    intros x [Hne Hx]%lookup_delete_Some. apply Hne. by rewrite (Hp x).
  - rewrite extra_by_ne by done. apply map_refs_ext. rewrite !map_Exists_lookup. split; intros (k & x & Hk & ->).
    + apply lookup_delete_Some in Hk as [_ Hk]. eauto.
    + exists k, q. split; [|done]. rewrite lookup_delete_ne; [done|]. intros <-. by simplify_eq.
Qed.

Lemma wf_blocks_inj σ m h hash hash' p :
  wf_blocks σ m h → m !! hash = Some p → m !! hash' = Some p → hash' = hash.
Proof.
  intros H H1 H2. destruct (bm_hash _ _ _ H _ _ H1) as (b & Hb & <-).
  destruct (bm_hash _ _ _ H _ _ H2) as (b' & Hb' & <-). by simplify_eq.
Qed.

(** ** Room for references *)

(** The slots there are. *)
Definition all_spots (σ : slot_map) : list (file_ptr * nat) :=
  map_to_list σ ≫= λ x, map (pair (fst x)) (seq 0 (length (snd x))).

Definition capacity (σ : slot_map) : nat := length (all_spots σ).

Lemma capacity_new σ p bs : σ !! p = None → capacity (<[p := bs]> σ) = (length bs + capacity σ)%nat.
Proof.
  intros Hp. unfold capacity, all_spots. rewrite map_to_list_insert by done. cbn [mbind list_bind fst snd].
  by rewrite length_app, length_map, length_seq.
Qed.

Lemma capacity_insert (σ : slot_map) (p : file_ptr) (bs bs' : list slot) :
  σ !! p = Some bs → (capacity (<[p := bs']> σ) + length bs = length bs' + capacity σ)%nat.
Proof.
  intros Hp. assert (delete p σ !! p = None) as Hd by apply lookup_delete_eq.
  rewrite <- (insert_delete_id σ p bs Hp) at 2. rewrite <- (insert_delete_eq σ p bs').
  rewrite !capacity_new by done. lia.
Qed.

Lemma capacity_delete (σ : slot_map) (p : file_ptr) (bs : list slot) :
  σ !! p = Some bs → (capacity (delete p σ) + length bs = capacity σ)%nat.
Proof.
  intros Hp. rewrite <- (insert_delete_id σ p bs Hp) at 2. rewrite capacity_new by apply lookup_delete_eq. lia.
Qed.

Lemma capacity_lookup (σ : slot_map) (p : file_ptr) (bs : list slot) :
  σ !! p = Some bs → (length bs <= capacity σ)%nat.
Proof. intros Hp. pose proof (capacity_delete σ p bs Hp). lia. Qed.

(** No block has more places than there are slots: counters cannot overflow while there are
    fewer slots than [2^30]. *)
Lemma wf_heap_roomy σ E h n :
  wf_heap σ E h → (∀ p, E p <= 1) → Z.of_nat (capacity σ) + 1 + n < 2 ^ 30 → roomy n h.
Proof.
  intros H HE Hn p b Hb. destruct (heap_cell _ _ _ H _ _ Hb) as [_ Hnd Hsp Hct _]. specialize (HE p).
  assert (length (spots b) <= capacity σ)%nat as Hl.
  { apply submseteq_length, NoDup_submseteq; [done|]. intros [file i] Hin. apply Hsp in Hin.
    unfold slot_at in Hin. destruct (σ !! file) as [bs|] eqn:Hf; cbn in Hin; [|done].
    destruct (bs !! i) as [s|] eqn:Hi; cbn in Hin; [|done]. unfold all_spots.
    apply list_elem_of_bind. exists (file, bs). split; [|by apply elem_of_map_to_list].
    cbn [fst snd]. apply (list_elem_of_fmap_2 (pair file)), elem_of_seq. apply lookup_lt_Some in Hi. lia. }
  unfold spots in Hl. rewrite length_map in Hl. lia.
Qed.

Lemma map_refs_bound (m : block_map) p : map_refs m p <= 1.
Proof. unfold map_refs. case_bool_decide; lia. Qed.

Lemma wf_blocks_roomy σ m h n : wf_blocks σ m h → Z.of_nat (capacity σ) + 1 + n < 2 ^ 30 → roomy n h.
Proof. intros H Hn. eapply wf_heap_roomy; [apply H|apply map_refs_bound|done]. Qed.

(** ** Adding and removing *)

(** A block that was just created, held by one local reference. *)
Lemma fresh_block_wf σ E h p (b : block_info) :
  wf_heap σ E h → h !! p = None → b_union b = Multi [] → b_counter b = 0 →
  wf_heap σ (extra_by E p 1) (<[p := refcouner_inc b]> h) ∧ use_count (refcouner_inc b) = 1 ∧
  b_hash (refcouner_inc b) = b_hash b.
Proof.
  intros H Hp Hu Hc. destruct (heap_dead _ _ _ H _ Hp) as [HE Hs].
  assert (b_counter (refcouner_inc b) = 1) as Hc1 by (unfold refcouner_inc; cbn [set_counter b_counter]; by rewrite Hc).
  assert (places (refcouner_inc b) = []) as Hpl by (unfold refcouner_inc, places; cbn; by rewrite Hu).
  assert (use_count (refcouner_inc b) = 1) as Hu1 by (unfold use_count; by rewrite Hc1).
  split_and!; [|done|done]. apply (wf_heap_insert σ); try done; [|lia].
  split; [constructor|..]; unfold spots; rewrite ?Hpl, ?Hu1, ?extra_by_eq; try lia.
  - unfold is_word. rewrite Hc1. lia.
  - unfold is_single. by rewrite Hc1.
  - unfold refcouner_inc. cbn [set_counter b_union]. by rewrite Hu.
  - constructor.
  - constructor.
  - intros file i. split; [by intros ?%not_elem_of_nil|]. intros Hf. by destruct (Hs file i).
  - cbn [length]. lia.
Qed.

(** The hash a message's block is known by. *)
Definition strict (b : BlockInfo) : bytes := pb_hash b ++ repeat 0 (Blocks.digest_length - length (pb_hash b)).

(** [h'] keeps the blocks of [h], but for their counters. *)
Definition keeps (h h' : heap) : Prop :=
  ∀ p b, h !! p = Some b → ∃ b', h' !! p = Some b' ∧ b_hash b' = b_hash b.

Lemma add_block_wf σ m h b n :
  wf_blocks σ m h → roomy n h → 2 <= n → 1 + n < 2 ^ 30 →
  (length (pb_hash b) <= Blocks.digest_length)%nat →
  ∃ m' h', add_block m h b = Ok (m', h') ∧ wf_blocks σ m' h' ∧ roomy n h' ∧ keeps h h' ∧
    m ⊆ m' ∧ (∀ hash, is_Some (m' !! hash) ↔ is_Some (m !! hash) ∨ hash = strict b) ∧
    (m !! strict b = None → ∃ p blk, h !! p = None ∧ m' = <[strict b := p]> m ∧ h' = <[p := blk]> h ∧
       b_hash blk = strict b ∧ b_size blk = pb_size b).
Proof.
  intros H Hr Hn Hn2 Hlen. unfold add_block, create_block.
  rewrite bool_decide_eq_false_2 by lia. cbn [res_bind]. fold (strict b).
  set (p := fresh (dom h)). set (blk := mkBlock (strict b) (Multi []) (pb_size b) 0).
  assert (h !! p = None) as Hp by (apply not_elem_of_dom, is_fresh).
  destruct (fresh_block_wf σ (map_refs m) h p blk (bm_heap _ _ _ H) Hp) as (H1 & Hu1 & Hh1); [done|done|].
  unfold add_ref at 1, deref at 1. rewrite lookup_insert_eq. cbn [res_bind].
  rewrite insert_insert_eq. set (b1 := refcouner_inc blk) in *. set (h1 := <[p := b1]> h) in *.
  assert (h1 !! p = Some b1) as Hb1 by apply lookup_insert_eq.
  assert (∀ hash, m !! hash ≠ Some p) as Hnp.
  { intros hash Hm. destruct (bm_hash _ _ _ H _ _ Hm) as (? & ? & _). congruence. }
  assert (roomy n h1) as Hr1 by (apply (roomy_insert n); [done|lia|lia]).
  unfold block_put, deref at 1. rewrite Hb1. cbn [res_bind]. rewrite Hh1. cbn [b_hash blk].
  destruct (m !! strict b) as [q|] eqn:Hm; cbn [res_bind].
  - destruct (release_wf σ _ h1 p n H1) as (h2 & Hrel & H2 & Hr2 & Hs2); try done; try lia.
    { rewrite extra_by_eq. pose proof (heap_extra _ _ _ (bm_heap _ _ _ H) p). lia. }
    rewrite Hrel. cbn [res_bind]. exists m, h2.
    assert (h2 = h) as ->.
    { unfold release, deref in Hrel. rewrite Hb1 in Hrel. cbn [res_bind] in Hrel.
      rewrite (refcouner_dec_by p), Hu1 in Hrel; [|apply (heap_cell _ _ _ H1 _ _ Hb1)|by rewrite Hu1].
      injection Hrel as <-. unfold h1. by rewrite delete_insert_id. }
    split_and!; try done; [intros ? ? ?; eauto|].
    intros hash. split; [tauto|]. intros [?| ->]; [done|]. by rewrite Hm.
  - destruct (add_ref_wf σ _ h1 p b1 n H1 Hb1 Hr1) as (-> & H2 & Hr2 & Hs2); [lia|]. cbn [res_bind].
    set (h2 := <[p := count_by b1 1]> h1) in *.
    destruct (release_wf σ _ h2 p (n - 1) H2) as (h3 & Hrel & H3 & Hr3 & Hs3); try done; try lia.
    { rewrite !extra_by_eq. pose proof (heap_extra _ _ _ (bm_heap _ _ _ H) p). lia. }
    rewrite Hrel. cbn [res_bind]. exists (<[strict b := p]> m), h3.
    assert (wf_block p b1) as Hw1 by apply (heap_cell _ _ _ H1 _ _ Hb1).
    destruct (count_by_spec p b1 1 Hw1) as [Hw2 Hu2]; [lia|].
    assert (h3 = <[p := count_by (count_by b1 1) (-1)]> h) as Hh3.
    { unfold release, deref in Hrel. unfold h2, h1 in Hrel. rewrite !insert_insert_eq, lookup_insert_eq in Hrel.
      cbn [res_bind] in Hrel. rewrite (refcouner_dec_by p) in Hrel; [|done|lia].
      destruct (Z.eqb_spec (use_count (count_by b1 1) - 1) 0); [lia|].
      injection Hrel as <-. by rewrite insert_insert_eq. }
    destruct (count_by_spec p (count_by b1 1) (-1) Hw2) as [_ Hu3]; [lia|].
    assert (wf_heap σ (map_refs (<[strict b := p]> m)) h3) as Hwf3.
    { eapply wf_heap_ext; [|exact H3]. intros q. rewrite map_refs_insert by done.
      unfold extra_by. case_bool_decide; lia. }
    split_and!; try done.
    + split; [done|]. intros hash q Hq. apply lookup_insert_Some in Hq as [[<- <-]|[Hne Hq]].
      * rewrite Hh3, lookup_insert_eq. eexists; split; [done|]. done.
      * destruct (bm_hash _ _ _ H _ _ Hq) as (c & Hcq & <-). exists c. split; [|done].
        rewrite Hh3, lookup_insert_ne; [done|]. intros <-. congruence.
    + rewrite Hh3. apply (roomy_insert n); [done|lia|lia].
    + intros q c Hq. exists c. split; [|done]. rewrite Hh3, lookup_insert_ne; [done|]. intros <-. congruence.
    + by apply insert_subseteq.
    + intros hash. destruct (decide (hash = strict b)) as [->|Hne].
      * rewrite lookup_insert_eq. split; [by right|by eexists].
      * rewrite lookup_insert_ne by done. tauto.
    + intros _. exists p, (count_by (count_by b1 1) (-1)). by split_and!.
Qed.

Lemma keeps_trans h1 h2 h3 : keeps h1 h2 → keeps h2 h3 → keeps h1 h3.
Proof.
  intros H1 H2 p b Hb. destruct (H1 _ _ Hb) as (b2 & Hb2 & <-). destruct (H2 _ _ Hb2) as (b3 & ? & <-). eauto.
Qed.

(** A hash that does not fit stops the additions at its block. *)
Lemma add_block_long m h b :
  (Blocks.digest_length < length (pb_hash b))%nat → add_block m h b = Err invalid_block_key_length.
Proof. intros H. unfold add_block, create_block. by rewrite bool_decide_eq_true_2. Qed.

Lemma drop_block_wf σ m h hash p n :
  wf_blocks σ m h → roomy n h → 1 <= n → m !! hash = Some p →
  ∃ h', drop_block m h hash = Ok (delete hash m, h') ∧ wf_blocks σ (delete hash m) h' ∧ roomy (n - 1) h' ∧ shrinks h h'.
Proof.
  intros H Hr Hn Hm. destruct (bm_hash _ _ _ H _ _ Hm) as (b & Hb & Hh).
  unfold drop_block, by_hash. rewrite Hm.
  destruct (add_ref_wf σ _ h p b n (bm_heap _ _ _ H) Hb Hr) as (-> & H1 & Hr1 & Hs1); [lia|]. cbn [res_bind].
  unfold block_remove, deref at 1. rewrite lookup_insert_eq. cbn [res_bind].
  change (b_hash (count_by b 1)) with (b_hash b). rewrite Hh, Hm. cbn [res_bind].
  destruct (release_wf σ _ _ p (n - 1) H1) as (h2 & -> & H2 & Hr2 & Hs2); try done; [|lia|].
  { rewrite extra_by_eq. pose proof (heap_extra _ _ _ (bm_heap _ _ _ H) p). lia. }
  cbn [res_bind].
  destruct (release_wf σ _ _ p (n - 1) H2) as (h3 & -> & H3 & Hr3 & Hs3); try done; [|lia|].
  { rewrite !extra_by_eq, (map_refs_some m hash) by done. lia. }
  cbn [res_bind]. exists h3. assert (∀ x, m !! x = Some p → x = hash) as Hinj.
  { intros x Hx. by eapply wf_blocks_inj. }
  assert (wf_heap σ (map_refs (delete hash m)) h3) as H4.
  { eapply wf_heap_ext; [|exact H3]. intros q. rewrite (map_refs_delete _ _ p) by done.
    unfold extra_by. case_bool_decide; lia. }
  assert (shrinks h h3) as Hs by (etrans; [exact Hs1|]; by etrans).
  split_and!; try done. split; [done|]. intros k q [Hne Hq]%lookup_delete_Some.
  destruct (h3 !! q) as [c|] eqn:Hc.
  - destruct (Hs _ _ Hc) as (b' & Hb' & Hhc & _). destruct (bm_hash _ _ _ H _ _ Hq) as (b'' & Hb'' & <-).
    exists c. split; [done|]. by simplify_eq.
  - destruct (heap_dead _ _ _ H4 _ Hc) as [H0 _].
    rewrite (map_refs_some _ k) in H0; [done|]. by rewrite lookup_delete_ne.
Qed.

(** ** Properties of the map *)

(** Adding the blocks of a message makes exactly their (padded) hashes known, keeps every
    block that was known (same address) and the reference counts exact, and passes every
    assertion. A hash longer than a digest is the only error. *)
Lemma add_blocks_spec σ blocks : ∀ m h n,
  wf_blocks σ m h → roomy n h → 2 <= n → 1 + n < 2 ^ 30 →
  match add_blocks m h blocks with
  | Ok (m', h') => wf_blocks σ m' h' ∧ roomy n h' ∧ m ⊆ m' ∧ keeps h h' ∧
      (∀ hash, is_Some (m' !! hash) ↔ is_Some (m !! hash) ∨ hash ∈ map strict blocks) ∧
      Forall (λ b, (length (pb_hash b) <= Blocks.digest_length)%nat) blocks
  | Err e => e = invalid_block_key_length ∧
      Exists (λ b, (Blocks.digest_length < length (pb_hash b))%nat) blocks
  | Ub => False
  end.
Proof.
  induction blocks as [|b blocks IH]; intros m h n H Hr Hn Hn2; cbn [add_blocks].
  - split_and!; try done; [intros ? ? ?; eauto|]. intros hash. cbn [map]. rewrite elem_of_nil. tauto.
  - destruct (decide (length (pb_hash b) <= Blocks.digest_length)%nat) as [Hl|Hl].
    2: { rewrite add_block_long by lia. split; [done|]. left. lia. }
    destruct (add_block_wf σ m h b n H Hr Hn Hn2 Hl) as (m1 & h1 & -> & H1 & Hr1 & Hk1 & Hs1 & Hm1 & _). cbn [res_bind].
    specialize (IH m1 h1 n H1 Hr1 Hn Hn2). destruct (add_blocks m1 h1 blocks) as [[m2 h2]|e|].
    + destruct IH as (H2 & Hr2 & Hs2 & Hk2 & Hm2 & Hf). split_and!; try done; [by etrans|by eapply keeps_trans| |by constructor].
      intros hash. rewrite Hm2, Hm1. cbn [map]. rewrite elem_of_cons. tauto.
    + destruct IH as [-> He]. split; [done|by right].
    + done.
Qed.

(** Removing known blocks forgets exactly their hashes and drops one reference each; a
    block that no file uses is freed with it, one that a file still uses stays alive for it. *)
Lemma drop_blocks_spec σ keys : ∀ m h,
  wf_blocks σ m h → (∀ m' h', wf_blocks σ m' h' → roomy 1 h') → NoDup keys →
  (∀ hash, hash ∈ keys → is_Some (m !! hash)) →
  ∃ m' h', drop_blocks m h keys = Ok (m', h') ∧ wf_blocks σ m' h' ∧ shrinks h h' ∧
    (∀ hash, m' !! hash = if bool_decide (hash ∈ keys) then None else m !! hash) ∧
    (∀ hash p, hash ∈ keys → m !! hash = Some p →
       (is_Some (h' !! p) ↔ ∃ file i, slot_at σ file i = Some p)).
Proof.
  intros m h H Hr Hnd Hk.
  assert (∃ m' h', drop_blocks m h keys = Ok (m', h') ∧ wf_blocks σ m' h' ∧ shrinks h h' ∧
    ∀ hash, m' !! hash = if bool_decide (hash ∈ keys) then None else m !! hash) as (m' & h' & He & H' & Hs & Hm').
  { revert m h H Hk. induction Hnd as [|hash keys Hx Hnd IH]; intros m h H Hk; cbn [drop_blocks].
    + exists m, h. split_and!; try done.
    + destruct (Hk hash) as [p Hp]; [by left|].
      destruct (drop_block_wf σ m h hash p 1 H (Hr _ _ H)) as (h1 & -> & H1 & Hr1 & Hs1); [lia|done|]. cbn [res_bind].
      destruct (IH (delete hash m) h1 H1) as (m' & h' & He & H' & Hs & Hm').
      { intros k Hin. rewrite lookup_delete_ne by (intros <-; done). apply Hk. by right. }
      exists m', h'. split_and!; try done; [by etrans|]. intros k. rewrite Hm'.
      destruct (decide (k = hash)) as [->|Hne].
      * rewrite (bool_decide_eq_true_2 (hash ∈ hash :: keys)) by left. rewrite lookup_delete_eq. by case_bool_decide.
      * rewrite lookup_delete_ne by done. rewrite (bool_decide_ext (k ∈ hash :: keys) (k ∈ keys)); [done|].
        rewrite elem_of_cons. tauto. }
  exists m', h'. split_and!; try done. intros hash p Hin Hp.
    assert (map_refs m' p = 0) as H0.
  { apply map_refs_none. intros x. rewrite Hm'. case_bool_decide as Hd; [done|]. intros Hxp.
    apply Hd. by rewrite (wf_blocks_inj _ _ _ _ _ _ H Hp Hxp). }
    split.
  - intros [b Hb]. destruct (heap_cell _ _ _ (bm_heap _ _ _ H') _ _ Hb) as [_ _ Hsp Hct Hal].
    destruct (places b) as [|fb fbs] eqn:Hpl; [cbn in Hct; lia|].
    exists (fb_file fb), (Z.to_nat (fb_block_index fb)). apply Hsp. unfold spots. rewrite Hpl. left.
  - intros (file & i & Hs1). destruct (slot_at_alive _ _ _ _ _ _ (bm_heap _ _ _ H') Hs1) as (b & -> & _). by eexists.
Qed.

(** ** Orphans *)

(** The blocks before the first empty slot. *)
Fixpoint lead (bs : list slot) : list block_ptr :=
  match bs with Some (p, _) :: bs => p :: lead bs | _ => [] end.

Lemma usages_left_count fr fbs :
  usages_left fr fbs = Z.of_nat (length (filter (λ fb, fb_file fb ∉ fr) fbs)).
Proof.
  unfold usages_left. enough (∀ z, fold_left (λ usages fb, if bool_decide (fb_file fb ∈ fr) then usages - 1 else usages)
    fbs (z + Z.of_nat (length fbs)) = z + Z.of_nat (length (filter (λ fb, fb_file fb ∉ fr) fbs))) as H by apply (H 0).
  induction fbs as [|fb fbs IH]; intros z; [done|]. cbn [fold_left length]. rewrite filter_cons.
  case_bool_decide as Hin.
  - rewrite decide_False by tauto. rewrite <- IH. f_equal. lia.
  - rewrite decide_True by tauto. cbn [length]. specialize (IH (z + 1)).
    rewrite !Nat2Z.inj_succ. rewrite <- Z.add_1_l, (Z.add_assoc z 1), IH. lia.
Qed.

Section orphans.
Context (σ : slot_map) (E : block_ptr → Z) (h : heap) (Hwf : wf_heap σ E h).
Context (Hinj : ∀ p q b c, h !! p = Some b → h !! q = Some c → b_hash b = b_hash c → p = q).
Context (fr : list file_ptr) (white : list bytes).

(** No file outside of the set uses the block. *)
Definition orphan (p : block_ptr) : Prop := ∀ o i, slot_at σ o i = Some p → o ∈ fr.

Lemma usages_left_orphan p b :
  h !! p = Some b → iterate_blocks b = Ok (places b) ∧ (usages_left fr (places b) = 0 ↔ orphan p).
Proof.
  intros Hb. destruct (heap_cell _ _ _ Hwf _ _ Hb) as [Hw _ Hsp _ _]. split; [by apply (iterate_blocks_places p)|].
  rewrite usages_left_count. unfold orphan. setoid_rewrite <- Hsp. unfold spots.
  assert (Z.of_nat (length (filter (λ fb, fb_file fb ∉ fr) (places b))) = 0 ↔
    filter (λ fb, fb_file fb ∉ fr) (places b) = []) as ->.
  { rewrite <- length_zero_iff_nil. lia. }
  split.
  - intros Hf o i (fb & Heq & Hfb)%list_elem_of_fmap. destruct (decide (o ∈ fr)); [done|].
    destruct (filter_nil_not_elem_of _ _ fb Hf); [|done]. unfold spot in Heq. by simplify_eq.
  - intros Ho. destruct (filter _ _) as [|fb fbs] eqn:Hf; [done|].
    assert (fb ∈ filter (λ fb, fb_file fb ∉ fr) (places b)) as [Hn Hfb]%list_elem_of_filter by (rewrite Hf; left).
    destruct Hn. apply (Ho _ (Z.to_nat (fb_block_index fb))). by apply (list_elem_of_fmap_2 spot).
Qed.

(** [r] has the orphans among the blocks that were processed. *)
Definition sorted_out (processed r : list bytes) : Prop :=
  NoDup r ∧ ∀ x, x ∈ r ↔ x ∈ processed ∧ ∃ p b, h !! p = Some b ∧ b_hash b = x ∧ orphan p.

(** The hashes a file brings. *)
Definition brings (bs : list slot) (x : bytes) : Prop :=
  (x ∉ white) ∧ ∃ p b, p ∈ lead bs ∧ h !! p = Some b ∧ b_hash b = x.

Lemma deduce_file_spec f bs fuel : ∀ i rest processed r,
  is_file f = true → f_content f = FileContent bs → Z.of_nat (length bs) < 2 ^ 31 →
  drop i bs = rest → (length rest < fuel)%nat → (i <= length bs)%nat →
  (∀ p, p ∈ lead rest → is_Some (h !! p)) → sorted_out processed r →
  ∃ processed' r', deduce_file fuel fr white h (mkBlocksIterator (Some f) (Z.of_nat i)) processed r = Ok (processed', r') ∧
    sorted_out processed' r' ∧ (∀ x, x ∈ processed' ↔ x ∈ processed ∨ brings rest x).
Proof.
  induction fuel as [|fuel IH]; intros i rest processed r Hf Hc Hlen Hd Hfuel Hi Hl Hso; [lia|].
  cbn [deduce_file]. unfold it_next, it_blocks. cbn [it_file it_next_index]. rewrite Hf. unfold file_blocks.
  rewrite Hc, Nat2Z.id. cbn [res_bind].
  assert (bs !! i = head rest) as -> by (rewrite <- Hd, head_lookup, lookup_drop; by rewrite Nat.add_0_r).
  destruct rest as [|[[p l]|] rest]; cbn [head res_bind slot_block fmap option_fmap option_map fst].
  - exists processed, r. split_and!; try done. intros x. unfold brings. cbn [lead]. setoid_rewrite elem_of_nil. naive_solver.
  - assert (drop (S i) bs = rest) as Hd' by (rewrite <- Nat.add_1_r, <- drop_drop, Hd; done).
    assert (i < length bs)%nat as Hi'.
    { pose proof (length_drop bs i) as Hld. rewrite Hd in Hld. cbn [length] in Hld. lia. }
    cbn [length] in Hfuel. cbn [lead] in Hl.
    destruct (Hl p) as [b Hb]; [by left|]. unfold deref. rewrite Hb. cbn [res_bind].
    replace (u32 (Z.of_nat i + 1)) with (Z.of_nat (S i)) by (unfold u32; rewrite Z.mod_small; lia).
    assert (∀ q, q ∈ lead rest → is_Some (h !! q)) as Hl' by (intros q Hq; apply Hl; by right).
    assert (∀ x, brings (Some (p, l) :: rest) x ↔ ((x ∉ white) ∧ x = b_hash b) ∨ brings rest x) as Hbr.
    { intros x. unfold brings. cbn [lead]. setoid_rewrite elem_of_cons. naive_solver. }
    specialize (λ processed r, IH (S i) rest processed r Hf Hc Hlen Hd' ltac:(lia) ltac:(lia) Hl').
    setoid_rewrite Hbr. clear Hbr. repeat case_bool_decide.
    + destruct (IH processed r Hso) as (pr & r' & -> & ? & Hx). exists pr, r'. split_and!; try done.
      intros x. rewrite Hx. naive_solver.
    + destruct (IH processed r Hso) as (pr & r' & -> & ? & Hx). exists pr, r'. split_and!; try done.
      intros x. rewrite Hx. naive_solver.
    + destruct (usages_left_orphan p b Hb) as [-> Hz]. cbn [res_bind].
      edestruct (IH (b_hash b :: processed)) as (pr & r' & -> & ? & Hx); [|exists pr, r'; split_and!; [done|done|]].
      * destruct Hso as [Hnd Hr].
        assert (∀ x, x ∈ (if usages_left fr (places b) =? 0 then r ++ [b_hash b] else r) ↔
          x ∈ r ∨ (x = b_hash b ∧ orphan p)) as Hin.
        { intros x. destruct (Z.eqb_spec (usages_left fr (places b)) 0).
          - rewrite elem_of_app, list_elem_of_singleton. tauto.
          - tauto. }
        split.
        -- destruct (_ =? 0); [|done]. apply NoDup_app. split_and!; [done| |apply NoDup_singleton].
           intros x Hxr ->%list_elem_of_singleton. apply Hr in Hxr. tauto.
        -- intros x. rewrite Hin, Hr, elem_of_cons. split.
           ++ intros [[? ?]|[-> ?]]; [tauto|]. split; [by left|]. eauto.
           ++ intros [[->|?] (q & c & Hq & Hh & Ho)]; [|left; eauto 6]. right. split; [done|].
              by rewrite (Hinj p q b c).
      * intros x. rewrite Hx, elem_of_cons. naive_solver.
  - exists processed, r. split_and!; try done. intros x. unfold brings. cbn [lead]. setoid_rewrite elem_of_nil. naive_solver.
Qed.

(** The files are walked one after the other. *)
Lemma deduce_loop_spec files todo : ∀ processed r,
  σ = slots <$> files → map_Forall (λ _ f, wf_file f) files →
  (∀ file, file ∈ todo → is_Some (files !! file)) → sorted_out processed r →
  ∃ processed' r', deduce_loop fr todo white files h processed r = Ok r' ∧ sorted_out processed' r' ∧
    (∀ x, x ∈ processed' ↔ x ∈ processed ∨
       ∃ file f, file ∈ todo ∧ files !! file = Some f ∧ is_file f = true ∧ brings (slots f) x).
Proof.
  induction todo as [|file todo IH]; intros processed r Hσ Hfiles Hin Hso; cbn [deduce_loop].
  - exists processed, r. split_and!; try done. intros x. setoid_rewrite elem_of_nil. naive_solver.
  - destruct (Hin file) as [f Hf]; [by left|]. rewrite Hf.
    assert (∀ o, o ∈ todo → is_Some (files !! o)) as Hin' by (intros o Ho; apply Hin; by right).
    assert (∀ x, (∃ o f0, o ∈ file :: todo ∧ files !! o = Some f0 ∧ is_file f0 = true ∧ brings (slots f0) x) ↔
      (is_file f = true ∧ brings (slots f) x) ∨
      ∃ o f0, o ∈ todo ∧ files !! o = Some f0 ∧ is_file f0 = true ∧ brings (slots f0) x) as Hsplit.
    { intros x. setoid_rewrite elem_of_cons. naive_solver. }
    setoid_rewrite Hsplit. clear Hsplit. destruct (is_file f) eqn:Hfile.
    + pose proof (Hfiles _ _ Hf) as Hw. pose proof (wf_file_blocks _ Hw Hfile) as Hc.
      unfold file_blocks. rewrite Hc. cbn [res_bind]. change 0 with (Z.of_nat 0).
      destruct (deduce_file_spec f (slots f) (S (length (slots f))) 0 (slots f) processed r)
        as (pr1 & r1 & -> & Hso1 & Hx1); try done; [apply Hw|lia|lia| |].
      { intros p Hp. assert (∃ i, slot_at σ file i = Some p) as [i Hi].
        { rewrite Hσ. setoid_rewrite slot_at_this; [|by rewrite lookup_fmap, Hf].
          clear -Hp. induction (slots f) as [|[[q l]|] bs IHb]; cbn [lead] in Hp; try by apply not_elem_of_nil in Hp.
          apply elem_of_cons in Hp as [->|Hp]; [by exists 0%nat|]. destruct (IHb Hp) as [i Hi]. by exists (S i). }
        destruct (slot_at_alive _ _ _ _ _ _ Hwf Hi) as (b & -> & _). by eexists. }
      cbn [res_bind]. destruct (IH pr1 r1 Hσ Hfiles Hin' Hso1) as (pr2 & r2 & -> & Hso2 & Hx2).
      exists pr2, r2. split_and!; try done. intros x. rewrite Hx2, Hx1. tauto.
    + cbn [res_bind]. destruct (IH processed r Hσ Hfiles Hin' Hso) as (pr2 & r2 & -> & Hso2 & Hx2).
      exists pr2, r2. split_and!; try done. intros x. rewrite Hx2. naive_solver.
Qed.
End orphans.

(** [deduce] finds exactly the orphans: the hashes outside the white list of the blocks that
    the files to be replaced start with and that no other file uses, each once; the result does
    not depend on the order of the files. Block hashes are assumed to identify the live
    blocks. *)
Lemma deduce_spec files E h fr white :
  wf_store files E h →
  (∀ p q b c, h !! p = Some b → h !! q = Some c → b_hash b = b_hash c → p = q) →
  (∀ file, file ∈ fr → is_Some (files !! file)) →
  ∃ r, deduce fr white files h = Ok r ∧ NoDup r ∧
    ∀ x, x ∈ r ↔ (x ∉ white) ∧ ∃ file f p b, file ∈ fr ∧ files !! file = Some f ∧ is_file f = true ∧
      p ∈ lead (slots f) ∧ h !! p = Some b ∧ b_hash b = x ∧ orphan (slots <$> files) fr p.
Proof.
  intros [Hwf Hfiles] Hinj Hin. unfold deduce.
  destruct (deduce_loop_spec _ E h Hwf Hinj fr white files fr [] []) as (pr & r & -> & [Hnd Hr] & Hx); try done.
  { split; [constructor|]. intros x. split; [by intros ?%not_elem_of_nil|]. intros [?%not_elem_of_nil _]; done. }
  exists r. split_and!; [done|done|]. intros x. rewrite Hr, Hx, elem_of_nil. unfold brings. split.
  - intros [[[]|(file & f & ? & ? & ? & ? & p & b & ? & Hb & Hh)] (q & c & Hq & Hc & Ho)].
    split; [done|]. exists file, f, p, b. split_and!; try done. by rewrite (Hinj p q b c) by congruence.
  - intros (? & file & f & p & b & ? & ? & ? & ? & ? & ? & ?). split; [right|]; eauto 12.
Qed.

(** ** Witnesses *)

Definition sample_block_map : block_map := {[ repeat 1 32 := 5%positive; repeat 2 32 := 6%positive ]}.

Lemma sample_block_map_wf : wf_blocks (slots <$> sample_files) sample_block_map sample_heap.
Proof.
  split.
  - destruct sample_store_wf as [[H _] _]. eapply wf_heap_ext; [|exact H]. intros q.
    unfold sample_E, map_refs. erewrite bool_decide_ext; [done|]. unfold sample_block_map. split.
    + intros [-> | ->]; apply map_Exists_lookup; [exists (repeat 1 32)|exists (repeat 2 32)]; eexists; split; done.
    + intros (k & p & Hk & ->)%map_Exists_lookup. apply lookup_insert_Some in Hk as [[_ <-]|[_ Hk]]; [by left|].
      apply lookup_singleton_Some in Hk as [_ <-]. by right.
  - intros k p Hk. unfold sample_block_map in Hk. apply lookup_insert_Some in Hk as [[<- <-]|[_ Hk]].
    + eexists. split; [vm_compute; reflexivity|done].
    + apply lookup_singleton_Some in Hk as [<- <-]. eexists. split; [vm_compute; reflexivity|done].
Qed.

Example add_blocks_spec_witness :
  ∃ m' h', add_blocks sample_block_map sample_heap [mkBlockInfo 0 10 [7]; mkBlockInfo 0 10 (repeat 1 32)] = Ok (m', h') ∧
    wf_blocks (slots <$> sample_files) m' h' ∧ sample_block_map ⊆ m'.
Proof.
  pose proof (add_blocks_spec (slots <$> sample_files)
    [mkBlockInfo 0 10 [7]; mkBlockInfo 0 10 (repeat 1 32)] sample_block_map sample_heap 90 sample_block_map_wf) as H.
  specialize (H (proj2 sample_store_wf) ltac:(lia) ltac:(lia)).
  destruct (add_blocks _ _ _) as [[m' h']|e|] eqn:He.
  - exists m', h'. split_and!; [done|apply H|apply H].
  - destruct H as [_ H]. exfalso. vm_compute in He. done.
  - destruct H.
Defined.

Example drop_blocks_spec_witness :
  ∃ m' h', drop_blocks sample_block_map sample_heap [repeat 1 32] = Ok (m', h') ∧
    wf_blocks (slots <$> sample_files) m' h' ∧ m' !! repeat 1 32 = None ∧ is_Some (h' !! 5%positive).
Proof.
  destruct (drop_blocks_spec (slots <$> sample_files) [repeat 1 32] sample_block_map sample_heap sample_block_map_wf)
    as (m' & h' & He & Hw & _ & Hm & Hl); [|apply NoDup_singleton| |].
  - intros m' h' H'. by apply (wf_blocks_roomy _ _ _ _ H').
  - intros hash ->%list_elem_of_singleton. by eexists.
  - exists m', h'. split_and!; [done|done|by rewrite Hm|]. apply (Hl (repeat 1 32)); [by left|done|].
    by exists 1%positive, 0%nat.
Defined.

Lemma sample_hashes_inj p q b c :
  sample_heap !! p = Some b → sample_heap !! q = Some c → b_hash b = b_hash c → p = q.
Proof.
  assert (map_Forall (λ p b,
    (p = 5%positive ∧ b_hash b = repeat 1 32) ∨ (p = 6%positive ∧ b_hash b = repeat 2 32)) sample_heap) as H.
  { apply (bool_decide_unpack _). vm_compute. exact I. }
  intros Hb Hc. destruct (H _ _ Hb) as [[-> ->]|[-> ->]], (H _ _ Hc) as [[-> ->]|[-> ->]]; done.
Qed.

Example deduce_spec_witness :
  ∃ r, deduce [2%positive] [] sample_files sample_heap = Ok r ∧ r = [repeat 2 32] ∧ NoDup r.
Proof.
  destruct (deduce_spec sample_files sample_E sample_heap [2%positive] []) as (r & He & Hnd & _).
  - apply sample_store_wf.
  - apply sample_hashes_inj.
  - intros file ->%list_elem_of_singleton. by eexists.
  - exists r. split_and!; [done| |done]. vm_compute in He. by injection He as <-.
Defined.
