(* ===== verification/UpdateFolder.v ===== *)
(** * UpdateFolder: [src/model/diff/peer/update_folder.cpp], an index update of a peer. The
    message is checked and turned into a change ([instantiate], [construct]); applying the
    change stores its blocks, drops the orphaned ones and updates the files of the peer. *)

From S2P Require Import Prelude Version Proto Blocks FileInfo FileStore FileMap GenericMap DeviceId Device Folder BlockMap.

(** ** State *)

(** The part of [cluster_t] the change reads and writes: the blocks and the files that are
    alive, and the folders. *)
Record cluster := mkCluster {
  cl_blocks : block_map;
  cl_heap : heap;
  cl_files : gmap file_ptr file_info;
  cl_folders : list folder;
}.

(** [folders_map_t::by_id]. *)
Definition folder_by_id (folders : list folder) (id : bytes) : option folder :=
  head (filter (λ fo, fd_id (fo_data fo) = id) folders).

(** [update_folder_t], with the two changes it carries as children. *)
Record update_folder := mkUpdateFolder {
  uf_folder_id : bytes;
  uf_peer_id : bytes;
  uf_files : list FileInfo;
  uf_uuids : list bytes;
  uf_new_blocks : list BlockInfo;
  uf_removed_blocks : list bytes;
}.

(** ** [instantiate] *)

(** Pass 1: from the last file to the first one, the indices of the files whose name
    was seen. *)
Fixpoint skip_outdated (i : nat) (files : list FileInfo) (seen_file_names : gset bytes)
    (skipp_file_indices : gset nat) : gset nat :=
  match i with
  | O => skipp_file_indices
  | S i =>
      match files !! i with
      | None => skipp_file_indices
      | Some f =>
          if bool_decide (pf_name f ∈ seen_file_names)
          then skip_outdated i files seen_file_names ({[ i ]} ∪ skipp_file_indices)
          else skip_outdated i files ({[ pf_name f ]} ∪ seen_file_names) skipp_file_indices
      end
  end.

(** The loop over the blocks of a file: the sum of the sizes, and the blocks that are neither
    known nor seen in this message. The sum stays within [std::int64_t]: sizes are 32-bit. *)
Fixpoint scan_blocks (known : block_map) (bs : list BlockInfo) (size_by_blocks : Z)
    (unique_new_blocks : list bytes) (new_blocks : list BlockInfo)
    : res (Z * list bytes * list BlockInfo) :=
  match bs with
  | [] => Ok (size_by_blocks, unique_new_blocks, new_blocks)
  | b :: bs =>
      let size_by_blocks := size_by_blocks + pb_size b in
      let* h := make_strict_hash (pb_hash b) in
      match by_hash known h with
      | Some _ => scan_blocks known bs size_by_blocks unique_new_blocks new_blocks
      | None =>
          if bool_decide (h ∈ unique_new_blocks)
          then scan_blocks known bs size_by_blocks unique_new_blocks new_blocks
          else scan_blocks known bs size_by_blocks (h :: unique_new_blocks) (new_blocks ++ [b])
      end
  end.

Definition is_downloadable (f : FileInfo) : bool :=
  negb (pf_deleted f) && negb (pf_invalid f) && bool_decide (pf_type f = FILE).

(** What pass 2 does with one file that is not skipped. *)
Definition process_file (c : cluster) (fi : folder_info) (f : FileInfo)
    (files : list FileInfo) (unique_new_blocks : list bytes) (new_blocks : list BlockInfo)
    : res (list FileInfo * list bytes * list BlockInfo) :=
  let prev_sequence := fi_max_sequence fi in
  let sequence := pf_sequence f in
  if sequence <=? prev_sequence then
    match by_name (fi_files fi) (pf_name f) with
    | None => Err invalid_sequence
    | Some p =>
        match cl_files c !! p with
        | None => Ub
        | Some prev_file =>
            let* same := file_identical_to prev_file (cl_heap c) f in
            if negb same then Err invalid_sequence else Ok (files, unique_new_blocks, new_blocks)
        end
    end
  else if sequence <=? 0 then Err invalid_sequence
  else
    let* '(size_by_blocks, unique_new_blocks, new_blocks) :=
      scan_blocks (cl_blocks c) (pf_blocks f) 0 unique_new_blocks new_blocks in
    if is_downloadable f && negb (pf_size f =? size_by_blocks) then Err mismatch_file_size
    else if bool_decide (length (pf_version f) = 0%nat) then Err missing_version
    else Ok (files ++ [f], unique_new_blocks, new_blocks).

(** Pass 2. *)
Fixpoint process_files (c : cluster) (fi : folder_info) (skipp_file_indices : gset nat) (i : nat)
    (todo : list FileInfo) (files : list FileInfo) (unique_new_blocks : list bytes)
    (new_blocks : list BlockInfo) : res (list FileInfo * list BlockInfo) :=
  match todo with
  | [] => Ok (files, new_blocks)
  | f :: todo =>
      if bool_decide (i ∈ skipp_file_indices) then
        process_files c fi skipp_file_indices (S i) todo files unique_new_blocks new_blocks
      else
        let* '(files, unique_new_blocks, new_blocks) :=
          process_file c fi f files unique_new_blocks new_blocks in
        process_files c fi skipp_file_indices (S i) todo files unique_new_blocks new_blocks
  end.

(** ** [construct] *)

Fixpoint strict_hashes (bs : list BlockInfo) : res (list bytes) :=
  match bs with
  | [] => Ok []
  | b :: bs =>
      let* h := make_strict_hash (pb_hash b) in
      let* hs := strict_hashes bs in
      Ok (h :: hs)
  end.

(** The loop over the files: their hashes are white-listed, a known file keeps its uuid and
    becomes a candidate. [uuids] is the stream of [sequencer.next_uuid()], [n] how many were
    taken from it. *)
Fixpoint construct_loop (c : cluster) (fi : folder_info) (next_uuid : nat → bytes) (n : nat)
    (files : list FileInfo) (uuids : list bytes) (candidates : list file_ptr) (white : list bytes)
    : res (list bytes * list file_ptr * list bytes * nat) :=
  match files with
  | [] => Ok (uuids, candidates, white, n)
  | f :: files =>
      let* hs := strict_hashes (pf_blocks f) in
      match by_name (fi_files fi) (pf_name f) with
      | Some p =>
          match cl_files c !! p with
          | None => Ub
          | Some prev_file =>
              construct_loop c fi next_uuid n files (uuids ++ [get_uuid prev_file])
                (record candidates p) (white ++ hs)
          end
      | None =>
          construct_loop c fi next_uuid (S n) files (uuids ++ [next_uuid n]) candidates (white ++ hs)
      end
  end.

Definition construct (c : cluster) (folder_id : bytes) (fi : folder_info) (peer_id : bytes) (next_uuid : nat → bytes)
    (files : list FileInfo) (new_blocks : list BlockInfo) : res update_folder :=
  let* '(uuids, candidates, white, _) := construct_loop c fi next_uuid 0 files [] [] [] in
  let* orphaned := deduce candidates white (cl_files c) (cl_heap c) in
  let* hs := if bool_decide (orphaned = []) then Ok [] else strict_hashes new_blocks in
  Ok (mkUpdateFolder folder_id peer_id files uuids new_blocks
        (filter (λ x, x ∉ hs) orphaned)).

Definition instantiate (c : cluster) (next_uuid : nat → bytes) (source : bytes) (message : IndexBase)
    : res update_folder :=
  match folder_by_id (cl_folders c) (ix_folder message) with
  | None => Err folder_does_not_exist
  | Some fo =>
      match by_device_id (fo_infos fo) source with
      | None => Err folder_is_not_shared
      | Some fi =>
          let skipped := skip_outdated (length (ix_files message)) (ix_files message) ∅ ∅ in
          let* '(files, new_blocks) := process_files c fi skipped 0 (ix_files message) [] [] [] in
          construct c (fd_id (fo_data fo)) fi source next_uuid files new_blocks
      end
  end.

(** ** [apply_impl] *)

(** The loop that gives a new file its blocks; a block that is not known trips the assertion. *)
Fixpoint load_blocks (known : block_map) (this : file_ptr) (i : nat) (bs : list BlockInfo)
    (f : file_info) (h : heap) : res (file_info * heap) :=
  match bs with
  | [] => Ok (f, h)
  | b :: bs =>
      let* hash := make_strict_hash (pb_hash b) in
      let* block := match by_hash known hash with Some p => Ok p | None => Ub end in
      let* '(f, h) := assign_block this f h block i in
      load_blocks known this (S i) bs f h
  end.

(** The first part of a round: the file of the message as a new [file_info_t]. *)
Definition make_file (known : block_map) (this : file_ptr) (uuid : bytes) (f : FileInfo) (fi_uuid : bytes) (h : heap)
    : res (file_info * heap) :=
  let* '(file, h) := create_file this uuid f fi_uuid h in
  if is_file file && negb (is_deleted file) && negb (pf_size f =? 0)
  then load_blocks known this 0 (pf_blocks f) file h
  else Ok (file, h).

(** Files that no map entry leads to any more go with their last reference. *)
Fixpoint destroy_files (ps : list file_ptr) (files : gmap file_ptr file_info) (h : heap)
    : res (gmap file_ptr file_info * heap) :=
  match ps with
  | [] => Ok (files, h)
  | p :: ps =>
      match files !! p with
      | None => Ub
      | Some f => let* h := destroy_file p f h in destroy_files ps (delete p files) h
      end
  end.

(** The files that lost their entry, and [extra] if it has none. *)
Definition lost_files (before after : file_map) (extra : list file_ptr) : list file_ptr :=
  filter (λ p, p ∉ map e_file after) (map e_file before ++ extra).

Record apply_state := mkApply {
  ap_info : folder_info;
  ap_files : gmap file_ptr file_info;
  ap_heap : heap;
}.

(** [folder_info->add_strict(file)] at the end of a round. *)
Definition store_file (fi : folder_info) (files : gmap file_ptr file_info) (h : heap) (p : file_ptr) (f : file_info)
    : res apply_state :=
  let '(fi', _) := add_strict fi (entry_of p f) in
  let* '(files, h) := destroy_files (lost_files (fi_files fi) (fi_files fi') [p]) (<[p := f]> files) h in
  Ok (mkApply fi' files h).

(** A round of the loop over the files. *)
Definition apply_file (known : block_map) (s : apply_state) (uuid : bytes) (f : FileInfo) : res apply_state :=
  let p := fresh (dom (ap_files s)) in
  let* '(file, h) := make_file known p uuid f (fi_get_uuid (ap_info s)) (ap_heap s) in
  match by_name (fi_files (ap_info s)) (f_name file) with
  | None => store_file (ap_info s) (ap_files s) h p file
  | Some q =>
      match ap_files s !! q with
      | None => Ub
      | Some prev_file =>
          let prev_seq := f_sequence prev_file in
          let new_seq := f_sequence file in
          if prev_seq <? new_seq then
            let fi := fi_remove (ap_info s) (entry_of q prev_file) in
            let* '(prev_file, h) := update_file q prev_file h file in
            let* h := destroy_file p file h in
            store_file fi (ap_files s) h q prev_file
          else if prev_seq =? new_seq then
            let* h := destroy_file p file h in
            Ok (mkApply (ap_info s) (ap_files s) h)
          else store_file (ap_info s) (ap_files s) h p file
      end
  end.

Fixpoint apply_files (known : block_map) (uuids : list bytes) (files : list FileInfo) (s : apply_state)
    : res apply_state :=
  match files, uuids with
  | [], _ => Ok s
  | f :: files, uuid :: uuids => let* s := apply_file known s uuid f in apply_files known uuids files s
  | _ :: _, [] => Ub
  end.

(** Writing the folder info back into its folder. *)
Definition set_info (folder_id peer_id : bytes) (fi : folder_info) (folders : list folder) : list folder :=
  map (λ fo, if bool_decide (fd_id (fo_data fo) = folder_id)
             then with_infos fo (map (λ x, if bool_decide (fi_device_sha x = peer_id) then fi else x) (fo_infos fo))
             else fo) folders.

(** [update_folder_t::apply_impl]: first the children, blocks in, orphans out. *)
Definition apply_update (c : cluster) (d : update_folder) : res cluster :=
  let* '(known, h) := add_blocks (cl_blocks c) (cl_heap c) (uf_new_blocks d) in
  let* '(known, h) := drop_blocks known h (uf_removed_blocks d) in
  match folder_by_id (cl_folders c) (uf_folder_id d) with
  | None => Ub
  | Some fo =>
      match by_device_id (fo_infos fo) (uf_peer_id d) with
      | None => Ub
      | Some fi =>
          let* s := apply_files known (uf_uuids d) (uf_files d) (mkApply fi (cl_files c) h) in
          Ok (mkCluster known (ap_heap s) (ap_files s)
                (set_info (uf_folder_id d) (uf_peer_id d) (ap_info s) (cl_folders c)))
      end
  end.

(** ** Reference definitions *)

(** The last occurrence of every name, in order. *)
Fixpoint latest (files : list FileInfo) : list FileInfo :=
  match files with
  | [] => []
  | f :: files => if bool_decide (pf_name f ∈ map pf_name files) then latest files else f :: latest files
  end.

(** What is asked of a file: one that is not ahead must be known and unchanged; one that
    is ahead must have a positive sequence, a size that its blocks add up to and a version. *)
Definition verdict (c : cluster) (fi : folder_info) (f : FileInfo) : res unit :=
  if pf_sequence f <=? fi_max_sequence fi then
    match by_name (fi_files fi) (pf_name f) with
    | None => Err invalid_sequence
    | Some p =>
        match cl_files c !! p with
        | None => Ub
        | Some prev_file =>
            let* same := file_identical_to prev_file (cl_heap c) f in
            if negb same then Err invalid_sequence else Ok ()
        end
    end
  else if pf_sequence f <=? 0 then Err invalid_sequence
  else if is_downloadable f && negb (pf_size f =? foldr Z.add 0 (map pb_size (pf_blocks f))) then Err mismatch_file_size
  else if bool_decide (pf_version f = []) then Err missing_version
  else Ok ().

(** The first complaint, if any. *)
Fixpoint verdicts (c : cluster) (fi : folder_info) (files : list FileInfo) : res unit :=
  match files with
  | [] => Ok ()
  | f :: files => let* _ := verdict c fi f in verdicts c fi files
  end.

(** The files that are ahead of what is known. *)
Definition ahead (fi : folder_info) (files : list FileInfo) : list FileInfo :=
  filter (λ f, fi_max_sequence fi < pf_sequence f) files.

(** The hashes of the blocks of the files. *)
Definition hashes_of (files : list FileInfo) : list bytes := f ← files; map strict (pf_blocks f).

Definition short_block (b : BlockInfo) : Prop := (length (pb_hash b) <= Blocks.digest_length)%nat.
Definition short_file (f : FileInfo) : Prop := Forall short_block (pf_blocks f).

(** ** Pass 1 *)

Lemma skip_outdated_elem files i : ∀ seen skipped x,
  (i <= length files)%nat →
  x ∈ skip_outdated i files seen skipped ↔ x ∈ skipped ∨
    ((x < i)%nat ∧ ∃ f, files !! x = Some f ∧
       (pf_name f ∈ seen ∨ ∃ j g, (x < j < i)%nat ∧ files !! j = Some g ∧ pf_name g = pf_name f)).
Proof.
  induction i as [|i IH]; intros seen skipped x Hi; cbn [skip_outdated]; [intuition lia|].
  destruct (lookup_lt_is_Some_2 files i) as [f Hf]; [lia|]. rewrite Hf. case_bool_decide as Hs.
  - rewrite IH, elem_of_union, elem_of_singleton by lia. split.
    + intros [[->|?]|(? & g & Hg & [?|(j & k & ? & ? & ?)])]; [|tauto|..].
      * right. split; [lia|]. eauto.
      * right. split; [lia|]. eauto.
      * right. split; [lia|]. exists g. split; [done|]. right. exists j, k. split; [lia|done].
    + intros [?|(? & g & Hg & Hor)]; [tauto|]. destruct (decide (x = i)) as [->|]; [tauto|].
      right. split; [lia|]. exists g. split; [done|]. destruct Hor as [?|(j & k & ? & Hk & Hn)]; [by left|].
      destruct (decide (j = i)) as [->|]; [left|right; exists j, k; split; [lia|done]].
      simplify_eq. by rewrite <- Hn.
  - rewrite IH by lia. split.
    + intros [?|(? & g & Hg & Hor)]; [tauto|]. right. split; [lia|]. exists g. split; [done|].
      destruct Hor as [[Hn%elem_of_singleton|?]%elem_of_union|(j & k & ? & Hk)]; [|by left|].
      * right. exists i, f. split_and!; [lia|lia|done|done].
      * right. exists j, k. split; [lia|done].
    + intros [?|(? & g & Hg & Hor)]; [tauto|]. destruct (decide (x = i)) as [->|].
      * simplify_eq. destruct Hor as [?|(j & k & ? & _)]; [tauto|lia].
      * right. split; [lia|]. exists g. split; [done|]. rewrite elem_of_union, elem_of_singleton.
        destruct Hor as [?|(j & k & ? & Hk & Hn)]; [tauto|]. destruct (decide (j = i)) as [->|].
        -- simplify_eq. rewrite Hn. tauto.
        -- right. exists j, k. split; [lia|done].
Qed.

(** A file is skipped when its name comes again. *)
Lemma skip_outdated_spec pre f post :
  let files := pre ++ f :: post in
  length pre ∈ skip_outdated (length files) files ∅ ∅ ↔ pf_name f ∈ map pf_name post.
Proof.
  intros files. rewrite skip_outdated_elem by done. rewrite elem_of_empty.
  assert (files !! length pre = Some f) as Hf by by apply list_lookup_middle.
  rewrite list_elem_of_fmap. split.
  - intros [[]|(_ & g & Hg & [?%elem_of_empty|(j & k & Hj & Hk & Hn)])]; [done|]. simplify_eq.
    exists k. split; [done|]. unfold files in Hk. rewrite lookup_app_r in Hk by lia.
    destruct (j - length pre)%nat as [|j'] eqn:E; [lia|]. by eapply list_elem_of_lookup_2.
  - intros (g & Hn & [j Hj]%list_elem_of_lookup). right. unfold files at 1. rewrite length_app. cbn [length].
    split; [lia|]. exists f. split; [done|]. right. exists (length pre + S j)%nat, g.
    apply lookup_lt_Some in Hj as Hl. unfold files. rewrite length_app. cbn [length].
    split_and!; [lia|lia| |done]. rewrite lookup_app_r by lia.
    by replace (length pre + S j - length pre)%nat with (S j) by lia.
Qed.

Fixpoint process_all (c : cluster) (fi : folder_info) (todo files : list FileInfo) (unique : list bytes)
    (new_blocks : list BlockInfo) : res (list FileInfo * list BlockInfo) :=
  match todo with
  | [] => Ok (files, new_blocks)
  | f :: todo =>
      let* '(files, unique, new_blocks) := process_file c fi f files unique new_blocks in
      process_all c fi todo files unique new_blocks
  end.

(** The two passes process the last occurrences. *)
Lemma process_files_latest c fi todo : ∀ pre files unique new_blocks,
  process_files c fi (skip_outdated (length (pre ++ todo)) (pre ++ todo) ∅ ∅) (length pre) todo files unique new_blocks =
  process_all c fi (latest todo) files unique new_blocks.
Proof.
  induction todo as [|f todo IH]; intros pre files unique new_blocks; cbn [process_files latest]; [done|].
  rewrite (bool_decide_ext _ _ (skip_outdated_spec pre f todo)).
  specialize (IH (pre ++ [f])). rewrite <- app_assoc in IH. cbn [app] in IH.
  replace (length (pre ++ [f])) with (S (length pre)) in IH by (rewrite length_app; cbn; lia).
  case_bool_decide; [by rewrite IH|]. cbn [process_all].
  destruct (process_file c fi f files unique new_blocks) as [[[? ?] ?]| |]; cbn [res_bind]; [|done..].
  by rewrite IH.
Qed.

(** ** Pass 2 *)

Lemma make_strict_hash_short b : short_block b → make_strict_hash (pb_hash b) = Ok (strict b).
Proof. intros H. unfold make_strict_hash. by rewrite bool_decide_eq_true_2. Qed.

Lemma strict_hashes_short bs : Forall short_block bs → strict_hashes bs = Ok (map strict bs).
Proof.
  induction 1 as [|b bs Hb _ IH]; [done|]. cbn [strict_hashes map].
  rewrite make_strict_hash_short by done. cbn [res_bind]. by rewrite IH.
Qed.

(** The blocks collected so far: each once. *)
Definition collected (unique : list bytes) (new_blocks : list BlockInfo) : Prop :=
  NoDup (map strict new_blocks) ∧ (∀ x, x ∈ unique ↔ x ∈ map strict new_blocks).

Lemma scan_blocks_spec known bs : ∀ z unique new_blocks,
  Forall short_block bs → collected unique new_blocks →
  ∃ unique' new_blocks', scan_blocks known bs z unique new_blocks =
      Ok (z + foldr Z.add 0 (map pb_size bs), unique', new_blocks') ∧
    collected unique' new_blocks' ∧
    (∀ x, x ∈ map strict new_blocks' ↔ x ∈ map strict new_blocks ∨ (known !! x = None ∧ x ∈ map strict bs)) ∧
    (∀ b, b ∈ new_blocks' → b ∈ new_blocks ∨ b ∈ bs).
Proof.
  induction bs as [|b bs IH]; intros z unique new_blocks Hs [Hnd Hu]; cbn [scan_blocks map foldr].
  - exists unique, new_blocks. rewrite Z.add_0_r. split_and!; try done; [|tauto]. intros x. rewrite elem_of_nil. tauto.
  - apply Forall_cons in Hs as [Hb Hs]. rewrite make_strict_hash_short by done. cbn [res_bind].
    rewrite Z.add_assoc. unfold by_hash. setoid_rewrite elem_of_cons.
    destruct (known !! strict b) as [q|] eqn:Hk; [|case_bool_decide as Hin].
    + destruct (IH (z + pb_size b) unique new_blocks Hs) as (u & nb & -> & Hc & Hx & Hin); [done|].
      exists u, nb. split_and!; try done; [|naive_solver]. intros x. rewrite Hx. naive_solver.
    + destruct (IH (z + pb_size b) unique new_blocks Hs) as (u & nb & -> & Hc & Hx & Hin'); [done|].
      exists u, nb. split_and!; try done; [|naive_solver]. intros x. rewrite Hx. apply Hu in Hin. naive_solver.
    + destruct (IH (z + pb_size b) (strict b :: unique) (new_blocks ++ [b]) Hs) as (u & nb & -> & Hc & Hx & Hin').
      { split.
        - rewrite map_app. apply NoDup_app. split_and!; [done| |apply NoDup_singleton].
          intros x Hx ->%list_elem_of_singleton. by apply Hin, Hu.
        - intros x. rewrite map_app, elem_of_app, elem_of_cons, Hu. cbn [map]. rewrite list_elem_of_singleton. tauto. }
      exists u, nb. split_and!; try done.
      * intros x. rewrite Hx, map_app, elem_of_app. cbn [map]. rewrite list_elem_of_singleton. naive_solver.
      * intros y Hy. destruct (Hin' y Hy) as [[?| ->%list_elem_of_singleton]%elem_of_app|?]; tauto.
Qed.

(** One file: the verdict decides; an accepted file that is ahead joins the others. *)
Lemma process_file_spec c fi f files unique new_blocks :
  short_file f → collected unique new_blocks →
  match verdict c fi f with
  | Ok _ => ∃ unique' new_blocks',
      process_file c fi f files unique new_blocks = Ok (files ++ ahead fi [f], unique', new_blocks') ∧
      collected unique' new_blocks' ∧
      (∀ x, x ∈ map strict new_blocks' ↔
         x ∈ map strict new_blocks ∨ (cl_blocks c !! x = None ∧ x ∈ hashes_of (ahead fi [f]))) ∧
      (∀ b, b ∈ new_blocks' → b ∈ new_blocks ∨ b ∈ pf_blocks f)
  | Err e => process_file c fi f files unique new_blocks = Err e
  | Ub => process_file c fi f files unique new_blocks = Ub
  end.
Proof.
  intros Hs Hc. unfold verdict, process_file, ahead. rewrite filter_cons, filter_nil.
  destruct (Z.leb_spec (pf_sequence f) (fi_max_sequence fi)) as [Hle|Hgt].
  - rewrite decide_False by lia. destruct (by_name _ _) as [p|]; [|done].
    destruct (cl_files c !! p) as [pf|]; [|done].
    destruct (file_identical_to pf (cl_heap c) f) as [[]| |]; cbn [res_bind negb]; try done.
    exists unique, new_blocks. rewrite app_nil_r. split_and!; try done; [|tauto].
    intros x. cbn. rewrite elem_of_nil. tauto.
  - rewrite decide_True by lia. destruct (Z.leb_spec (pf_sequence f) 0); [done|].
    destruct (scan_blocks_spec (cl_blocks c) (pf_blocks f) 0 unique new_blocks Hs Hc) as (u & nb & -> & Hc' & Hx & Hin).
    cbn [res_bind]. rewrite Z.add_0_l. destruct (is_downloadable f && _); [done|].
    rewrite (bool_decide_ext (length (pf_version f) = 0%nat) (pf_version f = [])) by apply length_zero_iff_nil.
    case_bool_decide; [done|]. exists u, nb. split_and!; try done. intros x. rewrite Hx.
    unfold hashes_of. cbn. by rewrite app_nil_r.
Qed.

Lemma hashes_of_app l1 l2 : hashes_of (l1 ++ l2) = hashes_of l1 ++ hashes_of l2.
Proof. unfold hashes_of. by rewrite bind_app. Qed.

Lemma process_all_spec c fi todo : ∀ files unique new_blocks,
  Forall short_file todo → collected unique new_blocks →
  match verdicts c fi todo with
  | Ok _ => ∃ new_blocks', process_all c fi todo files unique new_blocks = Ok (files ++ ahead fi todo, new_blocks') ∧
      NoDup (map strict new_blocks') ∧
      (∀ x, x ∈ map strict new_blocks' ↔
         x ∈ map strict new_blocks ∨ (cl_blocks c !! x = None ∧ x ∈ hashes_of (ahead fi todo))) ∧
      (∀ b, b ∈ new_blocks' → b ∈ new_blocks ∨ ∃ f, f ∈ todo ∧ b ∈ pf_blocks f)
  | Err e => process_all c fi todo files unique new_blocks = Err e
  | Ub => process_all c fi todo files unique new_blocks = Ub
  end.
Proof.
  induction todo as [|f todo IH]; intros files unique new_blocks Hs Hc; cbn [verdicts process_all].
  - exists new_blocks. unfold ahead. rewrite filter_nil, app_nil_r. split_and!; try done; [apply Hc| |tauto].
    intros x. cbn. rewrite elem_of_nil. tauto.
  - apply Forall_cons in Hs as [Hf Hs]. pose proof (process_file_spec c fi f files unique new_blocks Hf Hc) as H1.
    destruct (verdict c fi f) as [[]|e|]; cbn [res_bind]; [|by rewrite H1..].
    destruct H1 as (u & nb & -> & Hc1 & Hx1 & Hb1). cbn [res_bind].
    specialize (IH (files ++ ahead fi [f]) u nb Hs Hc1). destruct (verdicts c fi todo) as [[]|e|]; [|done..].
    destruct IH as (nb' & -> & Hnd & Hx & Hb). exists nb'.
    assert (ahead fi (f :: todo) = ahead fi [f] ++ ahead fi todo) as Ha.
    { unfold ahead. by rewrite <- filter_app. }
    rewrite Ha, app_assoc, hashes_of_app. split_and!; try done.
    + intros x. rewrite Hx, Hx1, elem_of_app. tauto.
    + intros b Hb'. setoid_rewrite elem_of_cons. destruct (Hb _ Hb') as [Hb''|?]; [|naive_solver].
      destruct (Hb1 _ Hb''); naive_solver.
Qed.

(** ** [construct] *)

(** A cluster: files and blocks are consistent, every live block is in the map of blocks, the
    entries of the folder infos agree with the files they lead to, folders and their devices
    are told apart by their ids, and a file belongs to one folder info. *)
Record wf_cluster (c : cluster) : Prop := {
  cl_wf_blocks : wf_blocks (slots <$> cl_files c) (cl_blocks c) (cl_heap c);
  cl_wf_files : map_Forall (λ _ f, wf_file f) (cl_files c);
  cl_wf_known : ∀ p b, cl_heap c !! p = Some b → cl_blocks c !! b_hash b = Some p;
  cl_wf_infos : ∀ fo fi, fo ∈ cl_folders c → fi ∈ fo_infos fo →
    wf_folder_info fi ∧ length (fi_get_uuid fi) = uuid_length ∧
    ∀ e, e ∈ fi_files fi → ∃ f, cl_files c !! e_file e = Some f ∧ e = entry_of (e_file e) f;
  cl_wf_ids : NoDup (map (λ fo, fd_id (fo_data fo)) (cl_folders c));
  cl_wf_devices : ∀ fo, fo ∈ cl_folders c → NoDup (map fi_device_sha (fo_infos fo));
  cl_wf_owner : ∀ fo fi e fo' fi' e', fo ∈ cl_folders c → fi ∈ fo_infos fo → e ∈ fi_files fi →
    fo' ∈ cl_folders c → fi' ∈ fo_infos fo' → e' ∈ fi_files fi' → e_file e = e_file e' → fo = fo' ∧ fi = fi';
}.

Lemma record_elem l p q : q ∈ record l p ↔ q ∈ l ∨ q = p.
Proof.
  unfold record. case_bool_decide; [naive_solver|]. rewrite elem_of_app, list_elem_of_singleton. tauto.
Qed.

(** The uuid a file gets: its own if it is known, else a new one. *)
Fixpoint uuids_of (c : cluster) (fi : folder_info) (next_uuid : nat → bytes) (n : nat) (files : list FileInfo) : list bytes :=
  match files with
  | [] => []
  | f :: files =>
      match by_name (fi_files fi) (pf_name f) ≫= λ p, cl_files c !! p with
      | Some prev_file => get_uuid prev_file :: uuids_of c fi next_uuid n files
      | None => next_uuid n :: uuids_of c fi next_uuid (S n) files
      end
  end.

(** The files of the folder that the message replaces. *)
Definition replaced (fi : folder_info) (files : list FileInfo) (p : file_ptr) : Prop :=
  ∃ f, f ∈ files ∧ by_name (fi_files fi) (pf_name f) = Some p.

Lemma by_name_elem m name p : by_name m name = Some p → ∃ e, e ∈ m ∧ e_file e = p ∧ e_name e = name.
Proof.
  unfold by_name. destruct (head _) as [e|] eqn:He; [|done]. intros [= <-].
  apply head_filter_elem in He as [? ?]. eauto.
Qed.

Lemma construct_loop_spec c fi next_uuid files : ∀ n uuids candidates white,
  (∀ e, e ∈ fi_files fi → is_Some (cl_files c !! e_file e)) → Forall short_file files →
  ∃ candidates' n', construct_loop c fi next_uuid n files uuids candidates white =
      Ok (uuids ++ uuids_of c fi next_uuid n files, candidates', white ++ hashes_of files, n') ∧
    (∀ p, p ∈ candidates' ↔ p ∈ candidates ∨ replaced fi files p).
Proof.
  induction files as [|f files IH]; intros n uuids candidates white Hl Hs; cbn [construct_loop uuids_of].
  - exists candidates, n. rewrite !app_nil_r. split; [done|]. intros p. unfold replaced. setoid_rewrite elem_of_nil. naive_solver.
  - apply Forall_cons in Hs as [Hf Hs]. rewrite strict_hashes_short by done. cbn [res_bind].
    assert (∀ p, replaced fi (f :: files) p ↔ by_name (fi_files fi) (pf_name f) = Some p ∨ replaced fi files p) as Hr.
    { intros p. unfold replaced. setoid_rewrite elem_of_cons. naive_solver. }
    setoid_rewrite Hr. change (hashes_of (f :: files)) with (map strict (pf_blocks f) ++ hashes_of files).
    rewrite app_assoc. destruct (by_name _ _) as [p|] eqn:Hn; cbn [mbind option_bind].
    + destruct (by_name_elem _ _ _ Hn) as (e & He & <- & _). destruct (Hl e He) as [pf Hpf]. rewrite Hpf.
      destruct (IH n (uuids ++ [get_uuid pf]) (record candidates (e_file e)) (white ++ map strict (pf_blocks f)) Hl Hs)
        as (cs & n' & -> & Hcs). exists cs, n'. rewrite <- (app_assoc uuids). split; [done|].
      intros q. rewrite Hcs, record_elem. naive_solver.
    + destruct (IH (S n) (uuids ++ [next_uuid n]) candidates (white ++ map strict (pf_blocks f)) Hl Hs)
        as (cs & n' & -> & Hcs). exists cs, n'. rewrite <- (app_assoc uuids). split; [done|].
      intros q. rewrite Hcs. naive_solver.
Qed.

(** A block is orphaned by the update when a replaced file has it, no other file does, and
    the new files do not have it either. *)
Definition orphaned (c : cluster) (fi : folder_info) (files : list FileInfo) (x : bytes) : Prop :=
  (x ∉ hashes_of files) ∧ ∃ file f p, replaced fi files file ∧ cl_files c !! file = Some f ∧
    p ∈ lead (slots f) ∧ cl_blocks c !! x = Some p ∧
    ∀ o i, slot_at (slots <$> cl_files c) o i = Some p → replaced fi files o.

Lemma lead_file f p : p ∈ lead (slots f) → wf_file f → is_file f = true.
Proof.
  intros Hp Hw. destruct (is_file f) eqn:Hf; [done|]. pose proof (file_member _ Hw) as Hm. rewrite Hf in Hm.
  destruct Hm as [t Ht]. unfold slots in Hp. rewrite Ht in Hp. by apply not_elem_of_nil in Hp.
Qed.

Lemma wf_cluster_store c : wf_cluster c → wf_store (cl_files c) (map_refs (cl_blocks c)) (cl_heap c).
Proof. intros H. split; [apply (cl_wf_blocks c H)|apply (cl_wf_files c H)]. Qed.

Lemma wf_cluster_inj c p q b d : wf_cluster c →
  cl_heap c !! p = Some b → cl_heap c !! q = Some d → b_hash b = b_hash d → p = q.
Proof.
  intros H Hb Hd Heq. apply (cl_wf_known c H) in Hb, Hd. rewrite Heq in Hb. by simplify_eq.
Qed.

Lemma construct_spec c folder_id fi peer next_uuid files new_blocks :
  wf_cluster c → (∀ e, e ∈ fi_files fi → is_Some (cl_files c !! e_file e)) →
  Forall short_file files → Forall short_block new_blocks →
  (∀ x, x ∈ map strict new_blocks → cl_blocks c !! x = None) →
  ∃ d, construct c folder_id fi peer next_uuid files new_blocks = Ok d ∧
    uf_folder_id d = folder_id ∧ uf_peer_id d = peer ∧ uf_files d = files ∧ uf_new_blocks d = new_blocks ∧
    uf_uuids d = uuids_of c fi next_uuid 0 files ∧
    NoDup (uf_removed_blocks d) ∧ (∀ x, x ∈ uf_removed_blocks d ↔ orphaned c fi files x).
Proof.
  intros Hwf Hl Hs Hsn Hnew. unfold construct.
  destruct (construct_loop_spec c fi next_uuid files 0 [] [] [] Hl Hs) as (cs & n' & -> & Hcs). cbn [res_bind app].
  destruct (deduce_spec (cl_files c) (map_refs (cl_blocks c)) (cl_heap c) cs (hashes_of files)) as (r & -> & Hnd & Hr).
  - by apply wf_cluster_store.
  - intros p q b d. by apply wf_cluster_inj.
  - intros file [Hf|(f & _ & Hn)]%Hcs; [by apply not_elem_of_nil in Hf|].
    destruct (by_name_elem _ _ _ Hn) as (e & He & <- & _). by apply Hl.
  - cbn [res_bind]. rewrite strict_hashes_short by done.
    assert (∀ file, file ∈ cs ↔ replaced fi files file) as Hcs' by (intros file; rewrite Hcs, elem_of_nil; tauto).
    assert (∀ x, x ∈ r ↔ orphaned c fi files x) as Ho.
    { intros x. rewrite Hr. unfold orphaned, orphan. setoid_rewrite Hcs'. split.
      - intros (? & file & f & p & b & ? & Hf & _ & ? & Hb & <- & Hu). split; [done|]. exists file, f, p.
        split_and!; try done. by apply (cl_wf_known c Hwf).
      - intros (? & file & f & p & ? & Hf & ? & Hx & Hu).
        destruct (bm_hash _ _ _ (cl_wf_blocks c Hwf) _ _ Hx) as (b & Hb & Hh).
        split; [done|]. exists file, f, p, b. split_and!; try done. eapply lead_file; [done|].
        by apply (cl_wf_files c Hwf _ _ Hf). }
    assert (∀ hs : list bytes, (∀ x, x ∈ hs → x ∈ map strict new_blocks) → filter (λ x, x ∉ hs) r = r) as Hfil.
    { intros hs Hhs. apply filter_all, Forall_forall. intros x Hx Hin. apply Hhs, Hnew in Hin.
      apply Ho in Hx as (_ & _ & _ & p & _ & _ & _ & Hk & _). congruence. }
    assert (∀ x, x ∈ ([] : list bytes) → x ∈ map strict new_blocks) as Hnil by (intros x Hx; by apply not_elem_of_nil in Hx).
    case_bool_decide; cbn [res_bind]; rewrite Hfil by done; eexists; split_and!; done.
Qed.

Lemma latest_elem f l : f ∈ latest l → f ∈ l.
Proof.
  induction l as [|g l IH]; [done|]. cbn [latest]. case_bool_decide; rewrite ?elem_of_cons; tauto.
Qed.

Lemma latest_nodup l : NoDup (map pf_name (latest l)).
Proof.
  induction l as [|g l IH]; [constructor|]. cbn [latest]. case_bool_decide as Hn; [done|]. cbn [map].
  apply NoDup_cons. split; [|done]. intros (f & Heq & Hf)%list_elem_of_fmap. apply Hn. rewrite Heq.
  by apply list_elem_of_fmap_2, latest_elem.
Qed.

(** The update of a folder that is shared with the peer. *)
Lemma instantiate_ok c next_uuid source message fo fi :
  wf_cluster c → Forall short_file (ix_files message) →
  folder_by_id (cl_folders c) (ix_folder message) = Some fo → by_device_id (fo_infos fo) source = Some fi →
  let files := latest (ix_files message) in
  match verdicts c fi files with
  | Err e => instantiate c next_uuid source message = Err e
  | Ub => instantiate c next_uuid source message = Ub
  | Ok _ => ∃ d, instantiate c next_uuid source message = Ok d ∧
      uf_folder_id d = ix_folder message ∧ uf_peer_id d = source ∧
      uf_files d = ahead fi files ∧ NoDup (map pf_name (uf_files d)) ∧
      uf_uuids d = uuids_of c fi next_uuid 0 (uf_files d) ∧
      NoDup (map strict (uf_new_blocks d)) ∧
      (∀ x, x ∈ map strict (uf_new_blocks d) ↔ cl_blocks c !! x = None ∧ x ∈ hashes_of (uf_files d)) ∧
      NoDup (uf_removed_blocks d) ∧
      (∀ x, x ∈ uf_removed_blocks d ↔ orphaned c fi (uf_files d) x) ∧
      Forall short_block (uf_new_blocks d)
  end.
Proof.
  intros Hwf Hs Hfo Hfi files. unfold instantiate. rewrite Hfo, Hfi.
  pose proof (process_files_latest c fi (ix_files message) [] [] [] []) as Hl. cbn [app length] in Hl. rewrite Hl. clear Hl.
  assert (Forall short_file (latest (ix_files message))) as Hs'.
  { rewrite Forall_forall in Hs |- *. intros f Hf. by apply Hs, latest_elem. }
  pose proof (process_all_spec c fi (latest (ix_files message)) [] [] [] Hs') as Hp.
  fold files in Hp |- *. destruct (verdicts c fi files) as [[]|e|]; [|rewrite Hp; [done|by split; [constructor|]]..].
  destruct Hp as (nb & -> & Hnd & Hx & Hb); [by split; [constructor|]|]. cbn [app res_bind].
  apply head_filter_elem in Hfo as [Hid Hfo]. apply head_filter_elem in Hfi as [_ Hfi].
  assert (Forall short_block nb) as Hsb.
  { apply Forall_forall. intros b Hin. destruct (Hb b Hin) as [Hn|(f & Hf & Hbf)]; [by apply not_elem_of_nil in Hn|].
    rewrite Forall_forall in Hs'. specialize (Hs' f Hf). unfold short_file in Hs'. rewrite Forall_forall in Hs'. by apply Hs'. }
  destruct (construct_spec c (fd_id (fo_data fo)) fi source next_uuid (ahead fi files) nb)
    as (d & -> & H1 & H2 & H3 & H4 & H5 & H6 & H7); try done.
  - intros e He. destruct (cl_wf_infos c Hwf fo fi Hfo Hfi) as (_ & _ & Hl). destruct (Hl e He) as (f & -> & _). by eexists.
  - by apply Forall_filter.
  - intros x Hin. apply Hx in Hin as [Hn|[? _]]; [by apply not_elem_of_nil in Hn|done].
  - exists d. rewrite H3, H4, H5. split_and!; try done; [by rewrite H1| |].
    + unfold ahead. apply NoDup_map_filter, latest_nodup.
    + intros x. rewrite Hx. cbn [map]. rewrite elem_of_nil. tauto.
Qed.

(** ** Properties *)


(** ** A concrete cluster *)

(** The peer (digest 9...9) has file 2 of the sample store in the folder "f". *)
Definition sample_info : folder_info :=
  mkFolderInfo (prefix_folder_info :: repeat 8 64) 1 2 [] (repeat 9 32) (chars "k")
    [entry_of 2 (sample_file 2 [Some (5%positive, false); Some (6%positive, false)])].

Definition sample_folder : folder :=
  with_infos (create_folder (repeat 4 16)
    (mkDbFolder (chars "f") [] false false false false false [] send_and_receive random 0 false)) [sample_info].

Definition sample_cluster : cluster :=
  mkCluster sample_block_map sample_heap sample_files [sample_folder].

Lemma sample_cluster_wf : wf_cluster sample_cluster.
Proof.
  destruct sample_store_wf as [[_ Hf] _]. split.
  - apply sample_block_map_wf.
  - exact Hf.
  - apply (bool_decide_unpack (map_Forall (λ p b, sample_block_map !! b_hash b = Some p) sample_heap)).
    vm_compute. exact I.
  - intros fo fi ->%list_elem_of_singleton Hfi. apply list_elem_of_singleton in Hfi as ->. split_and!; [split|done|].
    + repeat constructor; by intros ?%not_elem_of_nil.
    + intros e ->%list_elem_of_singleton. done.
    + intros e ->%list_elem_of_singleton. eexists. split; [|done]. done.
  - apply NoDup_singleton.
  - intros fo ->%list_elem_of_singleton. apply NoDup_singleton.
  - intros fo fi e fo' fi' e' ->%list_elem_of_singleton Hfi _ ->%list_elem_of_singleton Hfi' _ _.
    apply list_elem_of_singleton in Hfi as ->, Hfi' as ->. done.
Qed.

(** A version of a file with one block. *)
Definition sample_message_file (name : bytes) (seq : Z) (hash : bytes) : FileInfo :=
  mkFileInfo name FILE 10 420 0 0 1 false false false [Counter 1 seq] seq 10 [mkBlockInfo 0 10 hash] [].

Definition sample_message (files : list FileInfo) : IndexBase := mkIndex (chars "f") files.


(** Files that are not in the order of their sequences: [instantiate] accepts both, but
    [add_strict] raises the bar with the first one and the second one is not stored. *)
Example apply_unordered_loses_file :
  let message := sample_message [sample_message_file (chars "b") 5 [7]; sample_message_file (chars "c") 4 [7]] in
  match instantiate sample_cluster (λ n, repeat (100 + Z.of_nat n) 16) (repeat 9 32) message with
  | Ok d => map pf_name (uf_files d) = [chars "b"; chars "c"] ∧
      match apply_update sample_cluster d with
      | Ok c => map (λ fo, map (λ fi, map e_name (fi_files fi)) (fo_infos fo)) (cl_folders c) =
                  [[[chars "a"; chars "b"]]]
      | _ => False
      end
  | _ => False
  end.
Proof. vm_compute. split; reflexivity. Qed.
