(* ===== verification/FileIterator.v ===== *)
(** * FileIterator: [src/model/misc/file_iterator.cpp], which of the peer's files to synchronise next. Every
    folder shared with the peer has a queue of candidates in the pull order of the folder;
    the folders take turns. Folders and folder infos are known by their keys. *)

From S2P Require Import Prelude Version Proto DeviceId Device Blocks FileInfo FileStore FileMap GenericMap Folder Path.
From S2P Require Import Resolver BlockMap UpdateFolder Streamer.
From Stdlib Require Import Sorted.

(** ** [file_comparator_t] *)

(** [std::lexicographical_compare] of texts, whose characters are signed. *)
Definition signed_char (c : Z) : Z := if c <? 128 then c else c - 256.

Fixpoint lexicographical (l r : bytes) : bool :=
  match l, r with
  | _, [] => false
  | [], _ :: _ => true
  | a :: l, b :: r =>
      if signed_char a <? signed_char b then true
      else if signed_char b <? signed_char a then false
      else lexicographical l r
  end.

(** [iterate_blocks().get_total() == 0]. *)
Definition has_no_blocks (f : file_info) : res bool :=
  let* n := it_get_total (mkBlocksIterator (Some f) 0) in Ok (n =? 0).

Definition file_lt (pull_order : PullOrder) (h : heap) (l r : file_info) : res bool :=
  let* le := has_no_blocks l in
  let* re := has_no_blocks r in
  if le && negb re then Ok true
  else if re && negb le then Ok false
  else
    let* cmp :=
      match pull_order with
      | newest => Ok (f_modified_s r ?= f_modified_s l)
      | oldest => Ok (f_modified_s l ?= f_modified_s r)
      | smallest => let* ls := get_size l h in let* rs := get_size r h in Ok (ls ?= rs)
      | largest => let* ls := get_size l h in let* rs := get_size r h in Ok (rs ?= ls)
      | _ => Ok Eq
      end in
    match cmp with
    | Lt => Ok true
    | Gt => Ok false
    | Eq => Ok (lexicographical (f_name l) (f_name r))
    end.

(** ** The iterator *)

Record folder_iterator := mkFolderIterator {
  it_folder : bytes;
  it_peer_folder : bytes;
  it_order : PullOrder;
  it_queue : list file_ptr;
  it_seen_index : Z;
  it_seen_sequence : Z;
  it_can_receive : bool;
}.

Record file_iterator := mkFileIterator {
  fit_index : nat;
  fit_folders : list folder_iterator;
}.

Definition file_at (cl : cluster) (p : file_ptr) : res file_info :=
  match cl_files cl !! p with Some f => Ok f | None => Ub end.

(** Following a pointer to a folder and to a folder info. *)
Definition folder_at (cl : cluster) (key : bytes) : res folder :=
  match head (filter (λ fo, fo_key fo = key) (cl_folders cl)) with Some fo => Ok fo | None => Ub end.

Definition info_at (fo : folder) (key : bytes) : res folder_info :=
  match head (filter (λ fi, fi_key fi = key) (fo_infos fo)) with Some fi => Ok fi | None => Ub end.

(** [folder_infos.by_device], dereferenced. *)
Definition info_of (fo : folder) (sha : bytes) : res folder_info :=
  match by_device_id (fo_infos fo) sha with Some fi => Ok fi | None => Ub end.

(** [std::set::insert]: before the first element that is not smaller, unless that one is equivalent. *)
Fixpoint enqueue (cl : cluster) (order : PullOrder) (queue : list file_ptr) (p : file_ptr) (f : file_info)
    : res (list file_ptr) :=
  match queue with
  | [] => Ok [p]
  | q :: queue' =>
      let* g := file_at cl q in
      let* smaller := file_lt order (cl_heap cl) g f in
      if smaller then let* queue' := enqueue cl order queue' p f in Ok (q :: queue')
      else let* less := file_lt order (cl_heap cl) f g in Ok (if less then p :: q :: queue' else q :: queue')
  end.

Section iterator.
Context `{Platform} (utc_to_local : Z → local_time) (self_sha256 peer_sha256 : bytes).

(** The part of the folder [resolve] reads. *)
Definition view_of (cl : cluster) (fo : folder) (local_folder : folder_info) (name : bytes) : folder_view :=
  mkView (map (λ fi, p ← by_name (fi_files fi) name; f ← cl_files cl !! p; Some (p, f))
            (filter (λ fi, fi_key fi ≠ fi_key local_folder) (fo_infos fo)))
    (fd_ignore_delete (fo_data fo)) (fi_files local_folder).

(** The local file of the same name, and what to do. *)
Definition resolve_in (cl : cluster) (fo : folder) (local_folder : folder_info) (p : file_ptr) (f : file_info)
    : res (option file_ptr * advance_action) :=
  let local_file := by_name (fi_files local_folder) (f_name f) in
  let* local := match local_file with None => Ok None | Some q => let* g := file_at cl q in Ok (Some g) end in
  let* action := resolve utc_to_local p f local (view_of cl fo local_folder (f_name f)) in
  Ok (local_file, action).

(** The loop of [prepare_folder] and of [populate]. *)
Fixpoint add_candidates (cl : cluster) (fo : folder) (local_folder : folder_info) (order : PullOrder)
    (files queue : list file_ptr) : res (list file_ptr) :=
  match files with
  | [] => Ok queue
  | p :: files =>
      let* f := file_at cl p in
      let* '(_, action) := resolve_in cl fo local_folder p f in
      let* queue := if bool_decide (action ≠ ignore) then enqueue cl order queue p f else Ok queue in
      add_candidates cl fo local_folder order files queue
  end.

Definition prepare_folder (cl : cluster) (fo : folder) (peer_folder : folder_info) : res folder_iterator :=
  let* local_folder := info_of fo self_sha256 in
  let order := fd_pull_order (fo_data fo) in
  if bool_decide (fd_folder_type (fo_data fo) ≠ send) then
    let* queue := add_candidates cl fo local_folder order (map e_file (fi_files peer_folder)) [] in
    Ok (mkFolderIterator (fo_key fo) (fi_key peer_folder) order queue (fi_index peer_folder) (fi_max_sequence peer_folder) true)
  else Ok (mkFolderIterator (fo_key fo) (fi_key peer_folder) order [] 0 0 false).

Fixpoint prepare_all (cl : cluster) (folders : list folder) : res (list folder_iterator) :=
  match folders with
  | [] => Ok []
  | fo :: folders =>
      match by_device_id (fo_infos fo) peer_sha256, by_device_id (fo_infos fo) self_sha256 with
      | Some peer_folder, Some _ =>
          let* it := prepare_folder cl fo peer_folder in
          let* its := prepare_all cl folders in
          Ok (it :: its)
      | _, _ => prepare_all cl folders
      end
  end.

Definition new_file_iterator (cl : cluster) : res file_iterator :=
  let* its := prepare_all cl (cl_folders cl) in Ok (mkFileIterator 0 its).

Record result := mkResult {
  r_peer_file : file_ptr;
  r_peer_folder : bytes;
  r_local_file : option file_ptr;
  r_action : advance_action;
}.

(** The inner loop of [next]: files leave the queue until one is to be synchronised. *)
Fixpoint scan_queue (cl : cluster) (locked : gset bytes) (fo : folder) (local_folder : folder_info) (peer_folder : bytes)
    (queue : list file_ptr) : res (list file_ptr * option result) :=
  match queue with
  | [] => Ok ([], None)
  | p :: queue =>
      let* f := file_at cl p in
      if negb (is_path_locked locked (f_name f)) then
        let* '(local_file, action) := resolve_in cl fo local_folder p f in
        if bool_decide (action ≠ ignore) then Ok (queue, Some (mkResult p peer_folder local_file action))
        else scan_queue cl locked fo local_folder peer_folder queue
      else scan_queue cl locked fo local_folder peer_folder queue
  end.

(** [do_scan]. *)
Definition scannable (views : remote_view_map) (fo : folder) (peer_folder : folder_info) (queue : list file_ptr) : bool :=
  negb (fd_paused (fo_data fo)) && negb (fd_scheduled (fo_data fo)) && negb (fo_suspended fo) && negb (bool_decide (queue = [])) &&
  match get_view views peer_sha256 (fd_id (fo_data fo)) with
  | Some view => rv_max_sequence view <=? fi_max_sequence peer_folder
  | None => false
  end.

Definition with_queue (it : folder_iterator) (queue : list file_ptr) : folder_iterator :=
  mkFolderIterator (it_folder it) (it_peer_folder it) (it_order it) queue (it_seen_index it) (it_seen_sequence it) (it_can_receive it).

(** One round of the outer loop, for one folder. *)
Definition scan_folder (cl : cluster) (views : remote_view_map) (locked : gset bytes) (it : folder_iterator)
    : res (folder_iterator * option result) :=
  let* fo := folder_at cl (it_folder it) in
  let* peer_folder := info_at fo (it_peer_folder it) in
  let* local_folder := info_of fo self_sha256 in
  if scannable views fo peer_folder (it_queue it) then
    let* '(queue, r) := scan_queue cl locked fo local_folder (it_peer_folder it) (it_queue it) in
    Ok (with_queue it queue, r)
  else Ok (it, None).

Fixpoint fit_next_loop (scans : nat) (cl : cluster) (views : remote_view_map) (locked : gset bytes) (fit : file_iterator)
    : res (file_iterator * option result) :=
  match scans with
  | 0%nat => Ok (fit, None)
  | S scans =>
      match fit_folders fit !! fit_index fit with
      | None => Ub
      | Some it =>
          let* '(it, r) := scan_folder cl views locked it in
          let folders := <[fit_index fit := it]> (fit_folders fit) in
          match r with
          | Some r => Ok (mkFileIterator (fit_index fit) folders, Some r)
          | None => fit_next_loop scans cl views locked
                      (mkFileIterator ((fit_index fit + 1) mod length (fit_folders fit)) folders)
          end
      end
  end.

Definition fit_next (cl : cluster) (views : remote_view_map) (locked : gset bytes) (fit : file_iterator)
    : res (file_iterator * option result) :=
  fit_next_loop (length (fit_folders fit)) cl views locked fit.

(** [populate]: the sequence is read before it is reset. *)
Definition populate (cl : cluster) (it : folder_iterator) : res folder_iterator :=
  let* fo := folder_at cl (it_folder it) in
  let* peer_folder := info_at fo (it_peer_folder it) in
  let seen_sequence := it_seen_sequence it in
  let queue := if negb (fi_index peer_folder =? it_seen_index it) then [] else it_queue it in
  let* local_folder := info_of fo self_sha256 in
  let* queue := add_candidates cl fo local_folder (it_order it)
                  (range (fi_files peer_folder) (seen_sequence + 1) (fi_max_sequence peer_folder)) queue in
  Ok (mkFolderIterator (it_folder it) (it_peer_folder it) (it_order it) queue (it_seen_index it)
        (fi_max_sequence peer_folder) (it_can_receive it)).

(** [on_upsert(folder_info)]: the first receiving entry of the folder, or a new one. *)
Fixpoint upsert_first (cl : cluster) (folder : bytes) (its : list folder_iterator) : res (option (list folder_iterator)) :=
  match its with
  | [] => Ok None
  | it :: its =>
      if bool_decide (it_folder it = folder) && it_can_receive it then let* it := populate cl it in Ok (Some (it :: its))
      else let* r := upsert_first cl folder its in Ok ((λ its, it :: its) <$> r)
  end.

Definition on_upsert_info (cl : cluster) (fit : file_iterator) (fo : folder) (peer_folder : folder_info) : res file_iterator :=
  let* r := upsert_first cl (fo_key fo) (fit_folders fit) in
  match r with
  | Some its => Ok (mkFileIterator (fit_index fit) its)
  | None => let* it := prepare_folder cl fo peer_folder in Ok (mkFileIterator (fit_index fit) (fit_folders fit ++ [it]))
  end.

(** The queue in another order. *)
Fixpoint requeue (cl : cluster) (order : PullOrder) (files queue : list file_ptr) : res (list file_ptr) :=
  match files with
  | [] => Ok queue
  | p :: files =>
      let* f := file_at cl p in
      let* queue := enqueue cl order queue p f in
      requeue cl order files queue
  end.

(** [on_upsert(folder)] for one entry of the folder. *)
Definition upsert_entry (cl : cluster) (fo : folder) (it : folder_iterator) : res folder_iterator :=
  let order := fd_pull_order (fo_data fo) in
  let can_receive := bool_decide (fd_folder_type (fo_data fo) ≠ send) in
  let* it :=
    if can_receive then
      if negb (it_can_receive it) then
        populate cl (mkFolderIterator (it_folder it) (it_peer_folder it) (it_order it) (it_queue it) (it_seen_index it) 0 (it_can_receive it))
      else if bool_decide (it_order it ≠ order) then
        let* queue := requeue cl order (it_queue it) [] in
        Ok (mkFolderIterator (it_folder it) (it_peer_folder it) order queue (it_seen_index it) (it_seen_sequence it) (it_can_receive it))
      else Ok it
    else if it_can_receive it then Ok (with_queue it []) else Ok it in
  Ok (mkFolderIterator (it_folder it) (it_peer_folder it) (it_order it) (it_queue it) (it_seen_index it) (it_seen_sequence it) can_receive).

Fixpoint upsert_entries (cl : cluster) (fo : folder) (its : list folder_iterator) : res (list folder_iterator) :=
  match its with
  | [] => Ok []
  | it :: its =>
      let* it := if bool_decide (it_folder it = fo_key fo) then upsert_entry cl fo it else Ok it in
      let* its := upsert_entries cl fo its in
      Ok (it :: its)
  end.

Definition on_upsert_folder (cl : cluster) (fit : file_iterator) (fo : folder) : res file_iterator :=
  let* its := upsert_entries cl fo (fit_folders fit) in Ok (mkFileIterator (fit_index fit) its).

(** [on_remove]: the first entry of the folder info goes. *)
Fixpoint remove_first (peer_folder : bytes) (its : list folder_iterator) : option (list folder_iterator) :=
  match its with
  | [] => None
  | it :: its => if bool_decide (it_peer_folder it = peer_folder) then Some its else (λ its, it :: its) <$> remove_first peer_folder its
  end.

Definition on_remove (fit : file_iterator) (peer_folder : bytes) : file_iterator :=
  match remove_first peer_folder (fit_folders fit) with
  | Some its => mkFileIterator 0 its
  | None => fit
  end.

(** [recheck]: only the first entry of the folder info. *)
Fixpoint recheck_first (cl : cluster) (peer_folder : bytes) (remote : file_ptr) (its : list folder_iterator) : res (list folder_iterator) :=
  match its with
  | [] => Ok []
  | it :: its =>
      if bool_decide (it_peer_folder it = peer_folder) then
        if it_can_receive it then
          let* fo := folder_at cl (it_folder it) in
          let* local_folder := info_of fo self_sha256 in
          let* f := file_at cl remote in
          let* '(_, action) := resolve_in cl fo local_folder remote f in
          let* queue := if bool_decide (action ≠ ignore) then enqueue cl (it_order it) (it_queue it) remote f else Ok (it_queue it) in
          Ok (with_queue it queue :: its)
        else Ok (it :: its)
      else let* its := recheck_first cl peer_folder remote its in Ok (it :: its)
  end.

Definition recheck (cl : cluster) (fit : file_iterator) (peer_folder : bytes) (remote : file_ptr) : res file_iterator :=
  let* its := recheck_first cl peer_folder remote (fit_folders fit) in Ok (mkFileIterator (fit_index fit) its).
End iterator.

(** ** The order of a queue *)

(** What the comparator looks at. *)
Definition order_key (order : PullOrder) (h : heap) (f : file_info) : res (Z * Z * bytes) :=
  let* e := has_no_blocks f in
  let* k :=
    match order with
    | newest => Ok (- f_modified_s f)
    | oldest => Ok (f_modified_s f)
    | smallest => get_size f h
    | largest => let* s := get_size f h in Ok (- s)
    | _ => Ok 0
    end in
  Ok (if e then 0 else 1, k, f_name f).

Definition key_ltb (a b : Z * Z * bytes) : bool :=
  let '(ea, ka, na) := a in
  let '(eb, kb, nb) := b in
  (ea <? eb) || ((ea =? eb) && ((ka <? kb) || ((ka =? kb) && lexicographical na nb))).

Lemma compare_ltb a b : (a ?= b) = if a <? b then Lt else if b <? a then Gt else Eq.
Proof. destruct (Z.compare_spec a b), (Z.ltb_spec a b), (Z.ltb_spec b a); lia || done. Qed.

Lemma file_lt_key order h l r kl kr :
  order_key order h l = Ok kl → order_key order h r = Ok kr → file_lt order h l r = Ok (key_ltb kl kr).
Proof.
  unfold order_key, file_lt. intros (le & -> & (k & Hk & [= <-])%bind_Ok)%bind_Ok (re & -> & (k' & Hk' & [= <-])%bind_Ok)%bind_Ok.
  cbn [res_bind key_ltb]. destruct le, re; cbn [andb negb]; try done.
  all: destruct order; cbn [res_bind] in *; try (injection Hk as <-; injection Hk' as <-).
  all: try (apply bind_Ok in Hk as (s & -> & [= <-]); apply bind_Ok in Hk' as (s' & -> & [= <-])); rewrite ?Hk, ?Hk'; cbn [res_bind].
  all: rewrite ?compare_ltb; cbn; try done.
  all: repeat match goal with |- context [?a <? ?b] => destruct (Z.ltb_spec a b) end; try lia; try done.
  all: repeat match goal with |- context [?a =? ?b] => destruct (Z.eqb_spec a b) end; try lia; done.
Qed.

Lemma signed_char_inj a b : is_byte a = true → is_byte b = true → signed_char a = signed_char b → a = b.
Proof. unfold is_byte, signed_char. destruct (Z.ltb_spec a 128), (Z.ltb_spec b 128); lia. Qed.

Lemma lexicographical_irrefl l : lexicographical l l = false.
Proof. induction l as [|a l IH]; [done|]. cbn. by rewrite Z.ltb_irrefl. Qed.

Lemma lexicographical_trans l : ∀ m r, lexicographical l m = true → lexicographical m r = true → lexicographical l r = true.
Proof.
  induction l as [|a l IH]; intros [|b m] [|c r]; cbn; try done.
  repeat match goal with |- context [?a <? ?b] => destruct (Z.ltb_spec a b) end; try lia; try done. apply IH.
Qed.

Lemma lexicographical_total l : ∀ r, is_bytes l = true → is_bytes r = true →
  lexicographical l r = false → lexicographical r l = false → l = r.
Proof.
  induction l as [|a l IH]; intros [|b r]; cbn; try done.
  intros [Ha Hl]%andb_prop [Hb Hr]%andb_prop. destruct (Z.ltb_spec (signed_char a) (signed_char b)); [done|].
  destruct (Z.ltb_spec (signed_char b) (signed_char a)); [done|]. intros. f_equal; [apply signed_char_inj; [done..|lia]|by apply IH].
Qed.

Lemma key_ltb_irrefl a : key_ltb a a = false.
Proof. destruct a as [[e k] n]. cbn. by rewrite !Z.ltb_irrefl, !Z.eqb_refl, lexicographical_irrefl. Qed.

Lemma key_ltb_spec ea ka na eb kb nb :
  key_ltb (ea, ka, na) (eb, kb, nb) = true ↔ ea < eb ∨ (ea = eb ∧ (ka < kb ∨ (ka = kb ∧ lexicographical na nb = true))).
Proof. cbn. rewrite orb_true_iff, andb_true_iff, orb_true_iff, andb_true_iff, !Z.ltb_lt, !Z.eqb_eq. done. Qed.

Lemma key_ltb_trans a b c : key_ltb a b = true → key_ltb b c = true → key_ltb a c = true.
Proof.
  destruct a as [[ea ka] na], b as [[eb kb] nb], c as [[ec kc] nc]. rewrite !key_ltb_spec.
  intros [?|[-> [?|[-> H1]]]] [?|[-> [?|[-> H2]]]]; try (left; lia); try (right; split; [done|]; left; lia).
  right. split; [done|]. right. split; [done|]. by eapply lexicographical_trans.
Qed.

Lemma key_ltb_total a b :
  is_bytes a.2 = true → is_bytes b.2 = true → key_ltb a b = false → key_ltb b a = false → a = b.
Proof.
  destruct a as [[ea ka] na], b as [[eb kb] nb]. cbn [snd]. intros Ha Hb H1 H2.
  assert (¬ key_ltb (ea, ka, na) (eb, kb, nb) = true) as H1' by congruence.
  assert (¬ key_ltb (eb, kb, nb) (ea, ka, na) = true) as H2' by congruence. rewrite key_ltb_spec in H1', H2'.
  assert (ea = eb) as -> by lia. assert (ka = kb) as -> by lia. f_equal. apply lexicographical_total; [exact Ha|exact Hb| |];
    match goal with |- ?b = false => destruct b eqn:E end; try done; exfalso; [apply H1'|apply H2']; right; split; try done; right; done.
Qed.

(** The comparator of a queue is a strict total order on the files of a folder: irreflexive, transitive,
    and of two files with different names one comes first. Hence the set never takes two files for
    one. Files without blocks come before the others. *)
Theorem comparator_orders (order : PullOrder) (h : heap) (f g k : file_info) :
  is_bytes (f_name f) = true → is_bytes (f_name g) = true →
  (∀ x, x ∈ [f; g; k] → ∃ key, order_key order h x = Ok key) →
  file_lt order h f f = Ok false ∧
  (file_lt order h f g = Ok true → file_lt order h g k = Ok true → file_lt order h f k = Ok true) ∧
  (f_name f ≠ f_name g → file_lt order h f g = Ok true ∨ file_lt order h g f = Ok true) ∧
  (has_no_blocks f = Ok true → has_no_blocks g = Ok false → file_lt order h f g = Ok true).
Proof.
  intros Hf Hg Hk. destruct (Hk f ltac:(set_solver)) as [kf Hkf], (Hk g ltac:(set_solver)) as [kg Hkg], (Hk k ltac:(set_solver)) as [kk Hkk].
  rewrite (file_lt_key order h f g kf kg), (file_lt_key order h g k kg kk), (file_lt_key order h f k kf kk),
    (file_lt_key order h g f kg kf), (file_lt_key order h f f kf kf) by done.
  assert (kf.2 = f_name f ∧ kg.2 = f_name g) as [Hnf Hng].
  { unfold order_key in Hkf, Hkg. apply bind_Ok in Hkf as (? & _ & (? & _ & [= <-])%bind_Ok), Hkg as (? & _ & (? & _ & [= <-])%bind_Ok). done. }
  split_and!.
  - by rewrite key_ltb_irrefl.
  - intros [= H1] [= H2]. by rewrite (key_ltb_trans kf kg kk).
  - intros Hne. destruct (key_ltb kf kg) eqn:E1; [by left|]. destruct (key_ltb kg kf) eqn:E2; [by right|]. exfalso. apply Hne.
    rewrite <- Hnf, <- Hng. f_equal. apply key_ltb_total; congruence.
  - intros He Hne. unfold order_key in Hkf, Hkg. rewrite He in Hkf. rewrite Hne in Hkg. cbn [res_bind] in *.
    apply bind_Ok in Hkf as (? & _ & [= <-]), Hkg as (? & _ & [= <-]). done.
Qed.

(** ** Filling a queue *)

Section queue.
Context (cl : cluster) (order : PullOrder).

(** The key of a file in the store. *)
Definition keyed (p : file_ptr) (k : Z * Z * bytes) : Prop :=
  ∃ f, cl_files cl !! p = Some f ∧ order_key order (cl_heap cl) f = Ok k ∧ is_bytes (f_name f) = true.

Lemma keyed_fun p k k' : keyed p k → keyed p k' → k = k'.
Proof. intros (f & Hf & Hk & _) (f' & Hf' & Hk' & _). congruence. Qed.

Lemma keyed_name p k : keyed p k → is_bytes k.2 = true ∧ ∃ f, cl_files cl !! p = Some f ∧ k.2 = f_name f.
Proof.
  intros (f & Hf & Hk & Hb). unfold order_key in Hk. apply bind_Ok in Hk as (? & _ & (? & _ & [= <-])%bind_Ok). eauto.
Qed.

Definition precedes (p q : file_ptr) : Prop := ∃ kp kq, keyed p kp ∧ keyed q kq ∧ key_ltb kp kq = true.

(** Elements in order, each with a key. *)
Definition wf_queue (queue : list file_ptr) : Prop :=
  StronglySorted precedes queue ∧ Forall (λ p, ∃ k, keyed p k) queue.

Lemma precedes_trans p q r : precedes p q → precedes q r → precedes p r.
Proof.
  intros (kp & kq & Hp & Hq & H1) (kq' & kr & Hq' & Hr & H2). rewrite (keyed_fun _ _ _ Hq' Hq) in H2.
  exists kp, kr. split_and!; [done..|]. by eapply key_ltb_trans.
Qed.

(** Insertion keeps the order, keeps what is there, and adds the file unless one of its name is there. *)
Lemma enqueue_ok queue : ∀ p f,
  wf_queue queue → cl_files cl !! p = Some f → (∃ k, keyed p k) →
  ∃ queue', enqueue cl order queue p f = Ok queue' ∧ wf_queue queue' ∧
    (∀ x, x ∈ queue → x ∈ queue') ∧ (∀ x, x ∈ queue' → x ∈ queue ∨ x = p) ∧
    (p ∈ queue' ∨ ∃ q g, q ∈ queue ∧ cl_files cl !! q = Some g ∧ f_name g = f_name f).
Proof.
  induction queue as [|q queue IH]; intros p f [Hs Hq] Hf [k Hk]; cbn [enqueue].
  - exists [p]. split_and!; [done| |by intros ? ?%not_elem_of_nil|by intros x ->%list_elem_of_singleton; right|by left; left].
    split; [by repeat constructor|]. constructor; [by exists k|constructor].
  - apply Forall_cons in Hq as [[kq Hkq] Hq]. inversion Hs as [|? ? Hs' Hlt]; subst.
    destruct Hkq as (g & Hg & Hgk & Hgb). assert (keyed q kq) as Hkq by (by exists g). unfold file_at. rewrite Hg. cbn [res_bind].
    destruct Hk as (f' & Hf' & Hfk & Hfb). rewrite Hf in Hf'. injection Hf' as <-. assert (keyed p k) as Hk by (by exists f).
    rewrite (file_lt_key order _ g f kq k) by done. cbn [res_bind]. destruct (key_ltb kq k) eqn:E1.
    + destruct (IH p f) as (queue' & -> & [Hs2 Hq2] & Hin & Hout & Hp); [by split|done|by exists k|]. cbn [res_bind].
      exists (q :: queue'). split_and!; [done| | | |].
      * split; [|constructor; [by exists kq|done]]. constructor; [done|]. apply Forall_forall. intros x Hx.
        apply Hout in Hx as [Hx| ->]; [by rewrite Forall_forall in Hlt; apply Hlt|]. by exists kq, k.
      * intros x [->|Hx]%elem_of_cons; [left|right; auto].
      * intros x [->|Hx]%elem_of_cons; [left; left|]. apply Hout in Hx as [?| ->]; [left; by right|by right].
      * destruct Hp as [?|(q' & g' & ? & ?)]; [left; by right|right]. exists q', g'. split; [by right|done].
    + rewrite (file_lt_key order _ f g k kq) by done. cbn [res_bind]. destruct (key_ltb k kq) eqn:E2.
      * exists (p :: q :: queue). split_and!; [done| |set_solver|set_solver|left; left].
        assert (precedes p q) as Hpq by (by exists k, kq). split; [|repeat constructor; eauto].
        constructor; [done|]. constructor; [done|]. eapply Forall_impl; [exact Hlt|]. intros x. by apply precedes_trans.
      * exists (q :: queue). split_and!; [done|split; [done|constructor; eauto]|done|by left|right]. exists q, g.
        split_and!; [left|done|]. destruct (keyed_name _ _ Hkq) as (Hb1 & g' & Hg' & Hn1), (keyed_name _ _ Hk) as (Hb2 & f' & Hf' & Hn2).
        rewrite Hg in Hg'. rewrite Hf in Hf'. injection Hg' as <-. injection Hf' as <-. rewrite <- Hn1, <- Hn2. f_equal.
        by apply key_ltb_total.
Qed.

Context `{Platform} (utc_to_local : Z → local_time) (fo : folder) (local_folder : folder_info).

(** A file [resolve] can be asked about. *)
Definition askable (p : file_ptr) : Prop :=
  ∃ f, cl_files cl !! p = Some f ∧ path_elements (f_name f) ≠ [] ∧
    ∀ q, by_name (fi_files local_folder) (f_name f) = Some q → is_Some (cl_files cl !! q).

(** A file that is to be synchronised. *)
Definition wanted (p : file_ptr) : Prop :=
  ∃ f local_file action, cl_files cl !! p = Some f ∧ resolve_in utc_to_local cl fo local_folder p f = Ok (local_file, action) ∧ action ≠ ignore.

Lemma resolve_total p f local view :
  path_elements (f_name f) ≠ [] → ∃ a, resolve utc_to_local p f local view = Ok a.
Proof.
  intros Hn. unfold resolve. destruct (_ && _ && _); [eauto|]. destruct (negb (path_supported (f_name f))); [eauto|].
  destruct (resolve_basic p f local view) eqn:E; eauto. unfold make_path. destruct (path_elements (f_name f)); [done|]. cbn [res_bind].
  destruct (occurs _ _); [eauto|]. destruct local; [|exfalso; revert E; unfold resolve_basic; repeat case_match; congruence].
  destruct (by_name _ _); eauto.
Qed.

Lemma resolve_in_total p f :
  askable p → cl_files cl !! p = Some f → ∃ r, resolve_in utc_to_local cl fo local_folder p f = Ok r.
Proof.
  intros (f' & Hf' & Hn & Hl) Hf. rewrite Hf in Hf'. injection Hf' as <-. unfold resolve_in.
  destruct (by_name (fi_files local_folder) (f_name f)) as [q|] eqn:E.
  - destruct (Hl q eq_refl) as [g Hg]. unfold file_at. rewrite Hg. cbn [res_bind].
    destruct (resolve_total p f (Some g) (view_of cl fo local_folder (f_name f)) Hn) as [a ->]. eexists. done.
  - cbn [res_bind]. destruct (resolve_total p f None (view_of cl fo local_folder (f_name f)) Hn) as [a ->]. eexists. done.
Qed.

(** Different files have different names. *)
Definition names_differ (ps : list file_ptr) : Prop :=
  ∀ p q f g, p ∈ ps → q ∈ ps → cl_files cl !! p = Some f → cl_files cl !! q = Some g → f_name f = f_name g → p = q.

Lemma add_candidates_ok files : ∀ queue,
  wf_queue queue → Forall askable files → Forall (λ p, ∃ k, keyed p k) files → names_differ (queue ++ files) →
  ∃ queue', add_candidates utc_to_local cl fo local_folder order files queue = Ok queue' ∧ wf_queue queue' ∧
    ∀ x, x ∈ queue' ↔ x ∈ queue ∨ (x ∈ files ∧ wanted x).
Proof.
  induction files as [|p files IH]; intros queue Hw Ha Hk Hnd; cbn [add_candidates].
  - exists queue. split_and!; try done. intros x. rewrite elem_of_nil. tauto.
  - apply Forall_cons in Ha as [Hap Ha], Hk as [Hkp Hk]. pose proof Hap as (f & Hf & _ & _). unfold file_at. rewrite Hf. cbn [res_bind].
    destruct (resolve_in_total p f Hap Hf) as [[lf a] Hr]. rewrite Hr. cbn [res_bind].
    assert (∃ queue1, (if bool_decide (a ≠ ignore) then enqueue cl order queue p f else Ok queue) = Ok queue1 ∧ wf_queue queue1 ∧
      ∀ x, x ∈ queue1 ↔ x ∈ queue ∨ (x = p ∧ wanted x)) as (queue1 & -> & Hw1 & Hx1).
    { case_bool_decide as Hai.
      - destruct (enqueue_ok queue p f Hw Hf Hkp) as (queue1 & -> & Hw1 & Hin & Hout & Hp). exists queue1. split_and!; try done.
        assert (wanted p) as Hwp by (by exists f, lf, a).
        intros x. split; [intros [?| ->]%Hout; auto|]. intros [?|[-> _]]; [auto|]. destruct Hp as [|(q & g & Hq & Hg & Hn)]; [done|].
        rewrite (Hnd p q f g); [auto|set_solver|set_solver|done..].
      - exists queue. split_and!; try done. intros x. split; [auto|]. intros [?|[-> (f' & lf' & a' & Hf' & Hr' & Hi)]]; [done|].
        rewrite Hf in Hf'. injection Hf' as <-. rewrite Hr in Hr'. congruence. }
    cbn [res_bind]. destruct (IH queue1 Hw1 Ha Hk) as (queue' & -> & Hw' & Hx).
    { intros p1 q1 f1 g1 H1 H2. apply Hnd; rewrite elem_of_app in *; rewrite elem_of_cons; rewrite Hx1 in *; naive_solver. }
    exists queue'. split_and!; try done. intros x. rewrite Hx, Hx1, elem_of_cons. naive_solver.
Qed.
End queue.

(** ** Taking the next file *)

Section next.
Context `{Platform} (utc_to_local : Z → local_time) (self_sha256 peer_sha256 : bytes).
Context (cl : cluster) (views : remote_view_map) (locked : gset bytes).

Definition is_locked_file (p : file_ptr) : Prop :=
  ∃ f, cl_files cl !! p = Some f ∧ is_path_locked locked (f_name f) = true.

(** A file that need not be looked at now. *)
Definition skippable (fo : folder) (local_folder : folder_info) (p : file_ptr) : Prop :=
  is_locked_file p ∨ ¬ wanted cl utc_to_local fo local_folder p.

(** What a result promises. *)
Definition result_ok (fo : folder) (local_folder : folder_info) (r : result) : Prop :=
  ∃ f, cl_files cl !! r_peer_file r = Some f ∧ is_path_locked locked (f_name f) = false ∧
    resolve_in utc_to_local cl fo local_folder (r_peer_file r) f = Ok (r_local_file r, r_action r) ∧ r_action r ≠ ignore.

Lemma scan_queue_ok fo local_folder peer_folder queue :
  Forall (askable cl local_folder) queue →
  ∃ queue' r dropped, scan_queue utc_to_local cl locked fo local_folder peer_folder queue = Ok (queue', r) ∧
    Forall (skippable fo local_folder) dropped ∧
    match r with
    | Some r => queue = dropped ++ r_peer_file r :: queue' ∧ r_peer_folder r = peer_folder ∧ result_ok fo local_folder r
    | None => queue = dropped ∧ queue' = []
    end.
Proof.
  induction 1 as [|p queue Hp Hq IH]; cbn [scan_queue].
  - by exists [], None, [].
  - pose proof Hp as (f & Hf & _). unfold file_at. rewrite Hf. cbn [res_bind]. destruct IH as (queue' & r & dropped & IH & Hd & Hr).
    assert (skippable fo local_folder p → ∃ queue1 r1 dropped1,
      scan_queue utc_to_local cl locked fo local_folder peer_folder queue = Ok (queue1, r1) ∧ Forall (skippable fo local_folder) dropped1 ∧
      match r1 with
      | Some r => p :: queue = dropped1 ++ r_peer_file r :: queue1 ∧ r_peer_folder r = peer_folder ∧ result_ok fo local_folder r
      | None => p :: queue = dropped1 ∧ queue1 = []
      end) as Hskip.
    { intros Hsk. exists queue', r, (p :: dropped). split_and!; [done|by constructor|].
      destruct r as [r|]; destruct Hr as [-> ?]; done. }
    destruct (is_path_locked locked (f_name f)) eqn:Hl; cbn [negb]; [apply Hskip; left; by exists f|].
    destruct (resolve_in_total cl utc_to_local fo local_folder p f Hp Hf) as [[lf a] Hres]. rewrite Hres. cbn [res_bind].
    case_bool_decide as Ha.
    + exists queue, (Some (mkResult p peer_folder lf a)), []. split_and!; try done. by exists f.
    + apply Hskip. right. intros (f' & lf' & a' & Hf' & Hr' & Ha'). rewrite Hf in Hf'. injection Hf' as <-. rewrite Hres in Hr'. congruence.
Qed.

(** An entry whose pointers are alive. *)
Definition sane (it : folder_iterator) (fo : folder) (peer_folder local_folder : folder_info) : Prop :=
  folder_at cl (it_folder it) = Ok fo ∧ info_at fo (it_peer_folder it) = Ok peer_folder ∧
  info_of fo self_sha256 = Ok local_folder ∧ Forall (askable cl local_folder) (it_queue it).

Definition all_sane (its : list folder_iterator) : Prop := Forall (λ it, ∃ fo pf lf, sane it fo pf lf) its.

Lemma sane_fun it fo pf lf fo' pf' lf' : sane it fo pf lf → sane it fo' pf' lf' → fo = fo' ∧ pf = pf' ∧ lf = lf'.
Proof. intros (H1 & H2 & H3 & _) (H1' & H2' & H3' & _). rewrite H1 in H1'. injection H1' as <-. rewrite H2 in H2'. rewrite H3 in H3'. by simplify_eq. Qed.

(** An entry before and after: only files at the front leave the queue, and none that is to be synchronised
    but the result. *)
Record kept (it it' : folder_iterator) (r : option result) : Prop := {
  kp_folder : it_folder it' = it_folder it;
  kp_peer : it_peer_folder it' = it_peer_folder it;
  kp_suffix : it_queue it' `suffix_of` it_queue it;
  kp_files : ∀ fo pf lf p, sane it fo pf lf → p ∈ it_queue it →
    p ∈ it_queue it' ∨ skippable fo lf p ∨ r_peer_file <$> r = Some p;
}.

Lemma kept_refl it r : kept it it r.
Proof. split; try done. auto. Qed.

Lemma kept_sane it it' r fo pf lf : kept it it' r → sane it fo pf lf → sane it' fo pf lf.
Proof.
  intros [H1 H2 [l Hl] _] (Hfo & Hpf & Hlf & Hq). unfold sane. rewrite H1, H2. split_and!; try done.
  rewrite Hl in Hq. by apply Forall_app in Hq as [_ ?].
Qed.

Lemma kept_trans it1 it2 it3 r : kept it1 it2 None → kept it2 it3 r → kept it1 it3 r.
Proof.
  intros K1 K2. pose proof K1 as [H1 H2 H3 H4]. pose proof K2 as [H1' H2' H3' H4']. split; [congruence|congruence|by etrans|].
  intros fo pf lf p Hs Hp. destruct (H4 fo pf lf p Hs Hp) as [Hp2|[?|?]]; [|auto|done].
  apply (H4' fo pf lf); [by eapply kept_sane|done].
Qed.

Lemma scannable_suffix fo pf q q' :
  q `suffix_of` q' → scannable peer_sha256 views fo pf q = true → scannable peer_sha256 views fo pf q' = true.
Proof.
  intros [l ->]. unfold scannable. rewrite !andb_true_iff. intros [[[[? ?] ?] Hq] ?]. split_and!; try done.
  apply negb_true_iff, bool_decide_eq_false in Hq. apply negb_true_iff, bool_decide_eq_false. by intros [_ ?]%app_eq_nil.
Qed.

Lemma scan_folder_ok it fo pf lf :
  sane it fo pf lf →
  ∃ it' r, scan_folder utc_to_local self_sha256 peer_sha256 cl views locked it = Ok (it', r) ∧ kept it it' r ∧
    match r with
    | Some r => scannable peer_sha256 views fo pf (it_queue it) = true ∧ r_peer_file r ∈ it_queue it ∧
        r_peer_folder r = it_peer_folder it ∧ result_ok fo lf r
    | None => scannable peer_sha256 views fo pf (it_queue it') = false
    end.
Proof.
  intros Hs. pose proof Hs as (Hfo & Hpe & Hlo & Hq). unfold scan_folder. rewrite Hfo. cbn [res_bind]. rewrite Hpe. cbn [res_bind].
  rewrite Hlo. cbn [res_bind]. destruct (scannable peer_sha256 views fo pf (it_queue it)) eqn:Hsc.
  - destruct (scan_queue_ok fo lf (it_peer_folder it) (it_queue it) Hq) as (queue' & r & dropped & -> & Hd & Hr). cbn [res_bind].
    do 2 eexists. split; [done|]. rewrite Forall_forall in Hd. destruct r as [r|].
    + destruct Hr as (Hqu & Hpf & Hok). split; [|split_and!; try done; rewrite Hqu; set_solver].
      split; cbn [with_queue it_folder it_peer_folder it_queue]; try done.
      * exists (dropped ++ [r_peer_file r]). by rewrite Hqu, <- app_assoc.
      * intros fo' pf' lf' p Hs' Hp. destruct (sane_fun _ _ _ _ _ _ _ Hs Hs') as (<- & <- & <-). rewrite Hqu in Hp.
        apply elem_of_app in Hp as [Hp|[->|Hp]%elem_of_cons]; [right; left; auto|by do 2 right|by left].
    + destruct Hr as [Hqu ->]. split.
      * split; cbn [with_queue it_folder it_peer_folder it_queue]; try done; [apply suffix_nil|].
        intros fo' pf' lf' p Hs' Hp. destruct (sane_fun _ _ _ _ _ _ _ Hs Hs') as (<- & <- & <-). rewrite Hqu in Hp. right. left. auto.
      * cbn [with_queue it_queue]. unfold scannable. rewrite (bool_decide_eq_true_2 ([] = [])) by done. cbn [negb]. by rewrite andb_false_r.
  - do 2 eexists. split; [done|]. split; [apply kept_refl|done].
Qed.

(** The entries [scans] rounds visit from [index] on. *)
Definition visited (n index scans i : nat) : Prop := ∃ j, (j < scans)%nat ∧ i = ((index + j) mod n)%nat.

Lemma all_sane_insert its i it : all_sane its → (∃ fo pf lf, sane it fo pf lf) → all_sane (<[i := it]> its).
Proof. intros. by apply Forall_insert. Qed.

Lemma next_loop_spec scans : ∀ index its,
  all_sane its → (index < length its)%nat →
  ∃ fit r, fit_next_loop utc_to_local self_sha256 peer_sha256 scans cl views locked (mkFileIterator index its) = Ok (fit, r) ∧
    (fit_index fit < length (fit_folders fit))%nat ∧ Forall2 (λ it it', kept it it' r) its (fit_folders fit) ∧
    match r with
    | Some r => ∃ i it fo pf lf, its !! i = Some it ∧ sane it fo pf lf ∧
        scannable peer_sha256 views fo pf (it_queue it) = true ∧ r_peer_file r ∈ it_queue it ∧
        r_peer_folder r = it_peer_folder it ∧ result_ok fo lf r
    | None => ∀ i it fo pf lf, visited (length its) index scans i → fit_folders fit !! i = Some it → sane it fo pf lf →
        scannable peer_sha256 views fo pf (it_queue it) = false
    end.
Proof.
  induction scans as [|scans IH]; intros index its Hall Hidx; cbn [fit_next_loop fit_folders fit_index].
  - do 2 eexists. split; [done|]. cbn [fit_index fit_folders]. split_and!; [done| |intros ? ? ? ? ? (j & ? & _); lia].
    apply Forall_Forall2_diag, Forall_true. intros. apply kept_refl.
  - destruct (lookup_lt_is_Some_2 its index Hidx) as [it Hit]. rewrite Hit.
    assert (∃ fo pf lf, sane it fo pf lf) as (fo & pf & lf & Hs) by (by eapply Forall_lookup_1 in Hall).
    destruct (scan_folder_ok it fo pf lf Hs) as (it1 & r & -> & Hk & Hr). cbn [res_bind].
    assert (∀ r', kept it it1 r' → Forall2 (λ it it', kept it it' r') its (<[index := it1]> its)) as Hins.
    { intros r' Hk'. rewrite <- (list_insert_id its index it Hit) at 1. apply Forall2_insert; [|done].
      apply Forall_Forall2_diag, Forall_true. intros. apply kept_refl. }
    destruct r as [r|].
    + do 2 eexists. split; [done|]. cbn [fit_index fit_folders]. rewrite length_insert. split_and!; [done|by apply Hins|].
      by exists index, it, fo, pf, lf.
    + destruct (IH ((index + 1) mod length its)%nat (<[index := it1]> its)) as (fit & r & -> & Hi & Hf2 & Hres).
      { apply all_sane_insert; [done|]. exists fo, pf, lf. by eapply kept_sane. }
      { rewrite length_insert. apply Nat.mod_upper_bound. lia. }
      exists fit, r. split; [done|]. split; [done|]. specialize (Hins None Hk).
      assert (Forall2 (λ it it', kept it it' r) its (fit_folders fit)) as Hf.
      { clear -Hins Hf2. revert Hins Hf2. generalize (fit_folders fit). generalize (<[index := it1]> its). intros l2 l3 H1.
        revert l3. induction H1 as [|x y l l' Hxy Hl IHl]; intros l3 H2; inversion H2; subst; constructor; eauto using kept_trans. }
      split; [done|]. destruct r as [r|].
      * destruct Hres as (i & it2 & fo2 & pf2 & lf2 & Hit2 & Hs2 & Hsc & Hin & Hpf & Hok).
        destruct (Forall2_lookup_r _ _ _ _ _ Hins Hit2) as (it0 & Hit0 & Hk0). exists i, it0.
        assert (∃ fo pf lf, sane it0 fo pf lf) as (fo3 & pf3 & lf3 & Hs3) by (by eapply Forall_lookup_1 in Hall).
        destruct (sane_fun _ _ _ _ _ _ _ (kept_sane _ _ _ _ _ _ Hk0 Hs3) Hs2) as (<- & <- & <-).
        exists fo3, pf3, lf3. destruct Hk0 as [_ Hkp Hsu _]. split_and!; try done.
        -- by eapply scannable_suffix.
        -- destruct Hsu as [l ->]. rewrite elem_of_app. by right.
        -- congruence.
      * intros i it2 fo2 pf2 lf2 (j & Hj & Hij) Hit2 Hs2. rewrite length_insert in Hres. destruct j as [|j].
        -- rewrite Nat.add_0_r, Nat.mod_small in Hij by done. subst i.
           assert (<[index := it1]> its !! index = Some it1) as Hl by (apply list_lookup_insert_eq; done).
           destruct (Forall2_lookup_l _ _ _ _ _ Hf2 Hl) as (it3 & Hit3 & Hk3). rewrite Hit2 in Hit3. injection Hit3 as <-.
           destruct (sane_fun _ _ _ _ _ _ _ (kept_sane _ _ _ _ _ _ Hk3 (kept_sane _ _ _ _ _ _ Hk Hs)) Hs2) as (<- & <- & <-).
           destruct (scannable peer_sha256 views fo pf (it_queue it2)) eqn:E; [|done].
           rewrite <- Hr. symmetry. eapply scannable_suffix; [|exact E]. apply Hk3.
        -- apply (Hres i it2 fo2 pf2 lf2); [|done|done]. exists j. split; [lia|]. rewrite Nat.Div0.add_mod_idemp_l. rewrite Hij. f_equal. lia.
Qed.
End next.

(** C31: [next] always answers, whatever the state of the queues, locks and announcements. A file it returns
    was in the queue of a folder that may be synchronised, is not locked, and the conflict resolution,
    asked again, says to act on it. When it returns none, every folder is either not ready or has an
    empty queue. In either case a file leaves a queue only as the result, because there is nothing to do for it, or because it is
    locked at that moment: a locked file is taken out of the queue even if it is wanted. *)
Theorem iterator_next_ok `{Platform} (utc_to_local : Z → local_time) (self_sha256 peer_sha256 : bytes) (cl : cluster)
    (views : remote_view_map) (locked : gset bytes) (fit : file_iterator) :
  all_sane self_sha256 cl (fit_folders fit) → (fit_index fit < length (fit_folders fit))%nat →
  ∃ fit' r, fit_next utc_to_local self_sha256 peer_sha256 cl views locked fit = Ok (fit', r) ∧
    (fit_index fit' < length (fit_folders fit'))%nat ∧
    Forall2 (λ it it', kept utc_to_local self_sha256 cl locked it it' r) (fit_folders fit) (fit_folders fit') ∧
    match r with
    | Some r => ∃ i it fo pf lf, fit_folders fit !! i = Some it ∧ sane self_sha256 cl it fo pf lf ∧
        scannable peer_sha256 views fo pf (it_queue it) = true ∧ r_peer_file r ∈ it_queue it ∧
        r_peer_folder r = it_peer_folder it ∧ result_ok utc_to_local cl locked fo lf r
    | None => ∀ it fo pf lf, it ∈ fit_folders fit' → sane self_sha256 cl it fo pf lf →
        scannable peer_sha256 views fo pf (it_queue it) = false
    end.
Proof.
  intros Hall Hidx. destruct fit as [index its]. cbn [fit_folders fit_index] in *. unfold fit_next. cbn [fit_folders].
  destruct (next_loop_spec utc_to_local self_sha256 peer_sha256 cl views locked (length its) index its Hall Hidx)
    as (fit' & r & Hn & Hi & Hf & Hr).
  exists fit', r. split_and!; try done. destruct r as [r|]; [done|]. intros it fo pf lf [i Hit]%list_elem_of_lookup Hs.
  apply (Hr i it fo pf lf); try done. pose proof (Forall2_length _ _ _ Hf) as Hlen. pose proof (lookup_lt_Some _ _ _ Hit) as Hlt.
  exists ((i + (length its - index)) mod length its)%nat. split; [apply Nat.mod_upper_bound; lia|].
  rewrite Nat.Div0.add_mod_idemp_r. replace (index + (i + (length its - index)))%nat with (i + 1 * length its)%nat by lia.
  rewrite Nat.Div0.mod_add, Nat.mod_small by lia. done.
Qed.

(** The queue of a folder that may receive holds, in pull order, exactly the files of the peer that are to be
    synchronised: all of them and no others. *)
Theorem prepared_queue `{Platform} (utc_to_local : Z → local_time) (self_sha256 : bytes) (cl : cluster) (fo : folder)
    (peer_folder local_folder : folder_info) :
  fd_folder_type (fo_data fo) ≠ send → info_of fo self_sha256 = Ok local_folder →
  Forall (askable cl local_folder) (map e_file (fi_files peer_folder)) →
  Forall (λ p, ∃ k, keyed cl (fd_pull_order (fo_data fo)) p k) (map e_file (fi_files peer_folder)) →
  names_differ cl (map e_file (fi_files peer_folder)) →
  ∃ it, prepare_folder utc_to_local self_sha256 cl fo peer_folder = Ok it ∧
    it_seen_index it = fi_index peer_folder ∧ it_seen_sequence it = fi_max_sequence peer_folder ∧
    wf_queue cl (fd_pull_order (fo_data fo)) (it_queue it) ∧
    ∀ p, p ∈ it_queue it ↔ p ∈ map e_file (fi_files peer_folder) ∧ wanted cl utc_to_local fo local_folder p.
Proof.
  intros Ht Hl Ha Hk Hn. unfold prepare_folder. rewrite Hl. cbn [res_bind]. rewrite bool_decide_eq_true_2 by done.
  destruct (add_candidates_ok cl (fd_pull_order (fo_data fo)) utc_to_local fo local_folder (map e_file (fi_files peer_folder)) [])
    as (queue & -> & Hw & Hq); [by repeat constructor|done|done|done|].
  cbn [res_bind]. eexists. split; [done|]. cbn [it_seen_index it_seen_sequence it_queue]. split_and!; try done.
  intros p. rewrite Hq, elem_of_nil. tauto.
Qed.

(** ** A folder of two files *)

#[local] Existing Instance posix.

Definition x_file (name : string) (seq : Z) : file_info :=
  let f := sample_remote (chars name) in
  mkFile (f_key f) (f_name f) (f_modified_s f) (f_modified_by f) seq (f_permissions f) (f_modified_ns f) (f_content f) (f_version f) (f_flags f).
Definition x_local : folder_info := mkFolderInfo (chars "L") 1 0 [] (chars "me") (chars "m") [].
Definition x_peer (index : Z) (files : file_map) (max : Z) : folder_info :=
  mkFolderInfo (chars "P") index max [] (chars "peer") (chars "p") files.
Definition x_folder (type : FolderType) (peer : folder_info) : folder :=
  mkFolder (chars "F") (mkFolderData (chars "f") [] [] type 0 alphabetic false false false false false false) None None [x_local; peer] 0 false None.
Definition x_cluster (type : FolderType) (peer : folder_info) (files : list (file_ptr * file_info)) : cluster :=
  mkCluster ∅ ∅ (list_to_map files) [x_folder type peer].
Definition x_time : Z → local_time := λ _, mkLocalTime 0 0 0 0 0 0.
Definition x_a : entry := mkEntry 1 (chars "1") (chars "a") 1.
Definition x_b : entry := mkEntry 2 (chars "2") (chars "b") 2.
Definition x_files : list (file_ptr * file_info) := [(1%positive, x_file "a" 1); (2%positive, x_file "b" 2)].
Definition x_peer0 : folder_info := x_peer 7 [x_a; x_b] 2.
Definition x_cl : cluster := x_cluster send_and_receive x_peer0 x_files.
Definition x_views : remote_view_map := push_view ∅ (chars "peer") (chars "f") 7 2.

Lemma x_cl_files p f : cl_files x_cl !! p = Some f → (p = 1%positive ∧ f = x_file "a" 1) ∨ (p = 2%positive ∧ f = x_file "b" 2).
Proof.
  intros Hf. change (list_to_map (M := gmap file_ptr file_info) x_files !! p = Some f) in Hf. apply elem_of_list_to_map_2 in Hf. unfold x_files in Hf. rewrite !elem_of_cons, elem_of_nil in Hf.
  destruct Hf as [[= -> ->]|[[= -> ->]|[]]]; auto.
Qed.

Lemma x_askable : Forall (askable x_cl x_local) [1; 2]%positive.
Proof.
  repeat constructor.
  - exists (x_file "a" 1). by split_and!; vm_compute.
  - exists (x_file "b" 2). by split_and!; vm_compute.
Qed.

Example prepared_queue_witness :
  ∃ it, prepare_folder x_time (chars "me") x_cl (x_folder send_and_receive x_peer0) x_peer0 = Ok it ∧
    it_seen_index it = fi_index x_peer0 ∧ it_seen_sequence it = fi_max_sequence x_peer0 ∧
    wf_queue x_cl alphabetic (it_queue it) ∧
    ∀ p, p ∈ it_queue it ↔ p ∈ map e_file (fi_files x_peer0) ∧ wanted x_cl x_time (x_folder send_and_receive x_peer0) x_local p.
Proof.
  apply (prepared_queue x_time (chars "me") x_cl (x_folder send_and_receive x_peer0) x_peer0 x_local); [done|by vm_compute|exact x_askable| |].
  - repeat constructor; eexists; eexists; by split_and!; vm_compute.
  - intros p q f g _ _ [[-> ->]|[-> ->]]%x_cl_files [[-> ->]|[-> ->]]%x_cl_files Hn; vm_compute in Hn; done.
Defined.

Definition x_fit : file_iterator := mkFileIterator 0 [mkFolderIterator (chars "F") (chars "P") alphabetic [1; 2]%positive 7 2 true].

Example iterator_next_ok_witness :
  ∃ fit' r, fit_next x_time (chars "me") (chars "peer") x_cl x_views {[ chars "a" ]} x_fit = Ok (fit', r) ∧
    (fit_index fit' < length (fit_folders fit'))%nat ∧
    Forall2 (λ it it', kept x_time (chars "me") x_cl {[ chars "a" ]} it it' r) (fit_folders x_fit) (fit_folders fit') ∧
    match r with
    | Some r => ∃ i it fo pf lf, fit_folders x_fit !! i = Some it ∧ sane (chars "me") x_cl it fo pf lf ∧
        scannable (chars "peer") x_views fo pf (it_queue it) = true ∧ r_peer_file r ∈ it_queue it ∧
        r_peer_folder r = it_peer_folder it ∧ result_ok x_time x_cl {[ chars "a" ]} fo lf r
    | None => ∀ it fo pf lf, it ∈ fit_folders fit' → sane (chars "me") x_cl it fo pf lf →
        scannable (chars "peer") x_views fo pf (it_queue it) = false
    end.
Proof.
  apply (iterator_next_ok x_time (chars "me") (chars "peer") x_cl x_views {[ chars "a" ]} x_fit).
  - constructor; [|constructor]. exists (x_folder send_and_receive x_peer0), x_peer0, x_local.
    split; [by vm_compute|]. split; [by vm_compute|]. split; [by vm_compute|exact x_askable].
  - cbn. lia.
Defined.

Example comparator_orders_witness :
  file_lt smallest ∅ (x_file "a" 1) (x_file "a" 1) = Ok false ∧
  (file_lt smallest ∅ (x_file "a" 1) (x_file "b" 2) = Ok true → file_lt smallest ∅ (x_file "b" 2) (x_file "c" 2) = Ok true →
    file_lt smallest ∅ (x_file "a" 1) (x_file "c" 2) = Ok true) ∧
  (f_name (x_file "a" 1) ≠ f_name (x_file "b" 2) →
    file_lt smallest ∅ (x_file "a" 1) (x_file "b" 2) = Ok true ∨ file_lt smallest ∅ (x_file "b" 2) (x_file "a" 1) = Ok true) ∧
  (has_no_blocks (x_file "a" 1) = Ok true → has_no_blocks (x_file "b" 2) = Ok false → file_lt smallest ∅ (x_file "a" 1) (x_file "b" 2) = Ok true).
Proof.
  apply comparator_orders; [by vm_compute|by vm_compute|]. intros x Hx. rewrite !elem_of_cons, elem_of_nil in Hx.
  destruct Hx as [->|[->|[->|[]]]]; by eexists; vm_compute.
Defined.

(** ** Where files are lost *)

(** The peer starts anew with another index and sends two files, with sequences 1 and 2: the queue gets none of
    them, as the iterator has seen sequence 2 of the old index. *)
Lemma new_index_is_not_seen :
  let cl := x_cluster send_and_receive (x_peer 8 [x_a; x_b] 2) x_files in
  let it := mkFolderIterator (chars "F") (chars "P") alphabetic [] 7 2 true in
  (let* it := populate x_time (chars "me") cl it in Ok (it_queue it, it_seen_index it)) = Ok ([], 7).
Proof. by vm_compute. Qed.

(** A folder that becomes receiving: the two files of the peer are queued, and the next update of the
    peer (file [c]) clears them away. *)
Definition x_c : entry := mkEntry 3 (chars "3") (chars "c") 3.
Definition x_files' : list (file_ptr * file_info) := x_files ++ [(3%positive, x_file "c" 3)].

Lemma queue_lost_after_type_change :
  let cl0 := x_cluster send x_peer0 x_files in
  let cl1 := x_cluster send_and_receive x_peer0 x_files in
  let peer2 := x_peer 7 [x_a; x_b; x_c] 3 in
  let cl2 := x_cluster send_and_receive peer2 x_files' in
  let queues fit := Ok (map it_queue (fit_folders fit)) in
  (let* fit := new_file_iterator x_time (chars "me") (chars "peer") cl0 in
   let* fit := on_upsert_folder x_time (chars "me") cl1 fit (x_folder send_and_receive x_peer0) in queues fit) = Ok [[1; 2]%positive] ∧
  (let* fit := new_file_iterator x_time (chars "me") (chars "peer") cl0 in
   let* fit := on_upsert_folder x_time (chars "me") cl1 fit (x_folder send_and_receive x_peer0) in
   let* fit := on_upsert_info x_time (chars "me") cl2 fit (x_folder send_and_receive peer2) peer2 in queues fit) = Ok [[3]%positive].
Proof. by vm_compute. Qed.

(** An update of a folder that does not receive adds another entry for it. *)
Lemma second_entry_of_a_folder :
  let cl := x_cluster send x_peer0 x_files in
  (let* fit := new_file_iterator x_time (chars "me") (chars "peer") cl in
   let* fit := on_upsert_info x_time (chars "me") cl fit (x_folder send x_peer0) x_peer0 in Ok (length (fit_folders fit))) = Ok 2%nat.
Proof. by vm_compute. Qed.
