(* ===== verification/Scheduler.v ===== *)
(** * Scheduler: [src/net/scheduler.cpp], which folder is scanned when. Requests wait in a queue while a scan is
    in progress; without requests the folder whose rescan is due first is scanned, now or by a timer.
    Messages and timers go out as actions; the clock and the folders of the cluster are arguments. Times are
    in microseconds. *)

From S2P Require Import Prelude Proto DeviceId Device Blocks FileInfo FileMap GenericMap Folder BlockMap UpdateFolder.

(** ** Comparing directories *)

Inductive subpath_comparison := equal | includes | is_included | no_intersection.

(** The loops over the characters of the shorter one. *)
Fixpoint same_start (a b : bytes) : bool :=
  match a, b with
  | x :: a, y :: b => (x =? y) && same_start a b
  | _, _ => true
  end.

Definition compare_dirs (a b : bytes) : subpath_comparison :=
  if (length a <? length b)%nat then if same_start a b then includes else no_intersection
  else if (length b <? length a)%nat then if same_start a b then is_included else no_intersection
  else if bool_decide (a = b) then equal else no_intersection.

(** ** The actor *)

Record scan_item := mkItem { si_folder_id : bytes; si_sub_dir : bytes }.

#[export] Instance scan_item_eq_dec : EqDecision scan_item.
Proof. solve_decision. Defined.

Record next_schedule := mkSchedule { ns_item : scan_item; ns_interval : Z; ns_at : Z }.

Record scheduler := mkScheduler {
  sc_queue : list scan_item;
  sc_timer_id : option Z;
  sc_schedule : option next_schedule;
  sc_in_progress : bool;
}.

(** A [scan_start_t] for the coordinator, and requests for timers. *)
Inductive action :=
| ScanStart (item : scan_item)
| StartTimer (id interval : Z)
| CancelTimer (id : Z).

Definition second : Z := 1000000.

(** [second_clock::local_time] at a moment. *)
Definition second_clock (now : Z) : Z := now / second * second.

Definition initiate_scan (s : scheduler) (item : scan_item) : scheduler * list action :=
  (mkScheduler (sc_queue s) (sc_timer_id s) (sc_schedule s) true, [ScanStart item]).

(** A request for this folder is dropped. *)
Definition cannot_scan (folders : list folder) (folder_id : bytes) : bool :=
  match folder_by_id folders folder_id with
  | None => true
  | Some fo => folder_is_synchronizing fo || (fo_suspended fo && bool_decide (fo_suspend_reason fo = None))
  end.

(** The first request that can be served, and the queue without it and its repetitions. *)
Fixpoint pop_request (folders : list folder) (queue : list scan_item) : option (scan_item * list scan_item) :=
  match queue with
  | [] => None
  | item :: queue =>
      if cannot_scan folders (si_folder_id item) then pop_request folders queue
      else Some (item, filter (λ i, i ≠ item) queue)
  end.

(** The rescan of a folder, when it has one. *)
Definition rescan_deadline (now : Z) (fo : folder) : option Z :=
  let interval := fd_rescan_interval (fo_data fo) in
  if (interval =? 0) || is_scanning fo || folder_is_synchronizing fo || fo_suspended fo then None
  else Some (match fo_scan_finish fo with None => now | Some prev_scan => prev_scan + interval * second end).

(** The loop over the folders: the earliest deadline, then the shortest interval. *)
Fixpoint select_folder (now : Z) (folders : list folder) (best : option (folder * Z)) : option (folder * Z) :=
  match folders with
  | [] => best
  | fo :: folders =>
      select_folder now folders
        match rescan_deadline now fo with
        | None => best
        | Some d =>
            match best with
            | None => Some (fo, d)
            | Some (fo', d') =>
                if (d <? d') || ((d =? d') && (fd_rescan_interval (fo_data fo) <? fd_rescan_interval (fo_data fo')))
                then Some (fo, d) else best
            end
        end
  end.

Section actor.
Context (folders : list folder) (now : Z) (next_id : Z).

Definition scan_next (s : scheduler) : scheduler * list action * option next_schedule :=
  match pop_request folders (sc_queue s) with
  | Some (item, queue) =>
      (initiate_scan (mkScheduler queue (sc_timer_id s) (sc_schedule s) (sc_in_progress s)) item, None)
  | None =>
      let s := mkScheduler [] (sc_timer_id s) (sc_schedule s) (sc_in_progress s) in
      let clock := second_clock now in
      match select_folder clock folders None with
      | Some (fo, deadline) =>
          let item := mkItem (fd_id (fo_data fo)) [] in
          if deadline <=? clock then (initiate_scan s item, None)
          else (s, [], Some (mkSchedule item (deadline - clock) deadline))
      | None => (s, [], None)
      end
  end.

Definition scan_next_or_schedule (s : scheduler) : res (scheduler * list action) :=
  let '(s, actions, next) := scan_next s in
  match next with
  | None => Ok (s, actions)
  | Some next =>
      let start cancelled :=
        Ok (mkScheduler (sc_queue s) (Some next_id) (Some next) (sc_in_progress s),
            actions ++ cancelled ++ [StartTimer next_id (ns_interval next)]) in
      match sc_timer_id s with
      | Some id =>
          match sc_schedule s with
          | None => Ub
          | Some scheduled => if ns_at next <? ns_at scheduled then start [CancelTimer id] else Ok (s, actions)
          end
      | None => start []
      end
  end.

Definition when_idle (s : scheduler) : res (scheduler * list action) :=
  if sc_in_progress s then Ok (s, []) else scan_next_or_schedule s.

(** The loop of the request over the queue: the first request of the folder decides. [true]: nothing to add. *)
Fixpoint merge_request (item : scan_item) (queue : list scan_item) : list scan_item * bool :=
  match queue with
  | [] => ([], false)
  | i :: queue =>
      if bool_decide (si_folder_id i = si_folder_id item) then
        match compare_dirs (si_sub_dir i) (si_sub_dir item) with
        | equal | includes => (i :: queue, true)
        | is_included => (mkItem (si_folder_id i) (si_sub_dir item) :: queue, true)
        | no_intersection => (i :: queue, false)
        end
      else let '(queue, ignored) := merge_request item queue in (i :: queue, ignored)
  end.

Definition on_scan_request (s : scheduler) (item : scan_item) : res (scheduler * list action) :=
  let '(queue, ignored) := merge_request item (sc_queue s) in
  let s := mkScheduler (if ignored then queue else queue ++ [item]) (sc_timer_id s) (sc_schedule s) (sc_in_progress s) in
  if ignored then Ok (s, []) else when_idle s.

Definition on_scan_finish (s : scheduler) : res (scheduler * list action) :=
  scan_next_or_schedule (mkScheduler (sc_queue s) (sc_timer_id s) (sc_schedule s) false).

(** The item is moved out of the schedule. *)
Definition on_timer (s : scheduler) (cancelled : bool) : res (scheduler * list action) :=
  if cancelled then Ok (mkScheduler (sc_queue s) None (sc_schedule s) (sc_in_progress s), [])
  else
    match sc_schedule s with
    | None => Ub
    | Some (mkSchedule item interval at_) =>
        let s := mkScheduler (sc_queue s) None (Some (mkSchedule (mkItem [] []) interval at_)) (sc_in_progress s) in
        match folder_by_id folders (si_folder_id item) with
        | None => Ok (s, [])
        | Some fo =>
            match fo_scan_finish fo with
            | None => Ok (s, [])
            | Some last_scan =>
                let interval := if fd_rescan_interval (fo_data fo) <=? 0 then 1 else fd_rescan_interval (fo_data fo) in
                if now - last_scan <? interval * second then scan_next_or_schedule s
                else Ok (initiate_scan s item)
            end
        end
    end.

(** What reaches the actor. *)
Inductive sched_event :=
| LocalReady
| FolderUpserted
| ScanRequested (item : scan_item)
| ScanFinished
| SynchronizationFinished
| TimerFired (cancelled : bool).

Definition sched_handle (s : scheduler) (ev : sched_event) : res (scheduler * list action) :=
  match ev with
  | LocalReady => let '(s, actions, _) := scan_next s in Ok (s, actions)
  | FolderUpserted | SynchronizationFinished => when_idle s
  | ScanRequested item => on_scan_request s item
  | ScanFinished => on_scan_finish s
  | TimerFired cancelled => on_timer s cancelled
  end.
End actor.

(** ** Directories that cover others *)

Lemma same_start_prefix a b : (length a <= length b)%nat → same_start a b = true ↔ a `prefix_of` b.
Proof.
  revert b. induction a as [|x a IH]; intros [|y b] Hl; cbn [same_start] in *.
  - split; [intros _; apply prefix_nil|done].
  - split; [intros _; apply prefix_nil|done].
  - cbn in Hl. lia.
  - cbn in Hl. rewrite andb_true_iff, Z.eqb_eq, IH by lia. split.
    + intros [-> Hp]. by apply prefix_cons.
    + intros Hp. split; [by eapply prefix_cons_inv_1|by eapply prefix_cons_inv_2].
Qed.

Lemma same_start_sym a b : same_start a b = same_start b a.
Proof. revert b. induction a as [|x a IH]; intros [|y b]; cbn; [done..|]. by rewrite IH, Z.eqb_sym. Qed.

(** How two directories compare, against the prefix order: exactly one of equal, covering, covered and
    neither. *)
Lemma compare_dirs_spec (a b : bytes) :
  match compare_dirs a b with
  | equal => a = b
  | includes => a `prefix_of` b ∧ a ≠ b
  | is_included => b `prefix_of` a ∧ a ≠ b
  | no_intersection => ¬ a `prefix_of` b ∧ ¬ b `prefix_of` a
  end.
Proof.
  unfold compare_dirs. destruct (Nat.ltb_spec (length a) (length b)) as [Hl|Hl].
  - destruct (same_start a b) eqn:E.
    + apply same_start_prefix in E; [|lia]. split; [done|]. intros ->. lia.
    + split.
      * intros Hp%(same_start_prefix a b); [congruence|lia].
      * intros Hp%prefix_length. lia.
  - destruct (Nat.ltb_spec (length b) (length a)) as [Hl'|Hl'].
    + destruct (same_start a b) eqn:E; rewrite same_start_sym in E.
      * apply same_start_prefix in E; [|lia]. split; [done|]. intros ->. lia.
      * split; [intros Hp%prefix_length; lia|]. intros Hp%(same_start_prefix b a); [congruence|lia].
    + case_bool_decide as He; [done|]. split; intros Hp; apply He; [|symmetry]; apply prefix_length_eq; done || lia.
Qed.

(** A queued request scans what another one asks for. *)
Definition covers (queue : list scan_item) (item : scan_item) : Prop :=
  ∃ i, i ∈ queue ∧ si_folder_id i = si_folder_id item ∧ si_sub_dir i `prefix_of` si_sub_dir item.

Lemma covers_cons i queue item :
  covers (i :: queue) item ↔ (si_folder_id i = si_folder_id item ∧ si_sub_dir i `prefix_of` si_sub_dir item) ∨ covers queue item.
Proof.
  split.
  - intros (x & [->|Hx]%elem_of_cons & Hp); [by left|right; by exists x].
  - intros [Hp|(x & Hx & Hp)]; [exists i|exists x]; split; [left|done|by right|done].
Qed.

Definition with_request (item : scan_item) (queue : list scan_item) : list scan_item :=
  let '(q, ignored) := merge_request item queue in if ignored then q else q ++ [item].

Lemma merge_request_ok item queue :
  covers (with_request item queue) item ∧ ∀ j, covers queue j → covers (with_request item queue) j.
Proof.
  unfold with_request. induction queue as [|i queue [IH1 IH2]]; cbn [merge_request].
  - cbn [app]. split; [exists item; split_and!; [left|done|done]|by intros j (? & ?%not_elem_of_nil & _)].
  - case_bool_decide as Hf.
    + pose proof (compare_dirs_spec (si_sub_dir i) (si_sub_dir item)) as Hc. destruct (compare_dirs _ _).
      * split; [|done]. apply covers_cons. left. by rewrite Hc.
      * split; [|done]. apply covers_cons. left. by destruct Hc.
      * split; [apply covers_cons; left; done|]. intros j. rewrite !covers_cons. cbn. intros [[? Hp]|?]; [left|by right].
        split; [done|]. etrans; [by apply Hc|done].
      * split; [exists item; split_and!; [set_solver|done|done]|]. intros j (x & Hx & ?). exists x. split; [set_solver|done].
    + destruct (merge_request item queue) as [q ignored]. destruct ignored; rewrite <- ?app_comm_cons; (split; [apply covers_cons; by right|]);
        intros j; rewrite !covers_cons; (intros [?|?]; [by left|right; auto]).
Qed.

(** ** The invariant *)

Record wf_scheduler (s : scheduler) : Prop := {
  sw_queue : sc_queue s ≠ [] → sc_in_progress s = true;
  sw_timer : is_Some (sc_timer_id s) → is_Some (sc_schedule s);
}.

Definition starts (actions : list action) : list scan_item :=
  a ← actions; match a with ScanStart item => [item] | _ => [] end.

(** [scan_next] starts a scan, or leaves an empty queue. *)
Lemma scan_next_ok folders now s :
  let '(s', actions, next) := scan_next folders now s in
  sc_timer_id s' = sc_timer_id s ∧ sc_schedule s' = sc_schedule s ∧
  ((∃ item, actions = [ScanStart item] ∧ sc_in_progress s' = true ∧ next = None) ∨
   (actions = [] ∧ sc_queue s' = [] ∧ sc_in_progress s' = sc_in_progress s)).
Proof.
  unfold scan_next. destruct (pop_request folders (sc_queue s)) as [[item queue]|]; cbn.
  - split_and!; try done. left. by exists item.
  - destruct (select_folder _ folders None) as [[fo d]|]; [|by split_and!; try done; right].
    destruct (d <=? _); cbn; (split_and!; try done); [left; eauto|by right].
Qed.

Lemma scan_next_or_schedule_ok folders now next_id s :
  (is_Some (sc_timer_id s) → is_Some (sc_schedule s)) →
  ∃ s' actions, scan_next_or_schedule folders now next_id s = Ok (s', actions) ∧ wf_scheduler s' ∧
    (length (starts actions) <= 1)%nat ∧ (starts actions ≠ [] → sc_in_progress s' = true).
Proof.
  intros Ht. unfold scan_next_or_schedule. pose proof (scan_next_ok folders now s) as Hs. destruct (scan_next folders now s) as [[s' actions] next].
  destruct Hs as (Htid & Hsch & Hs). rewrite <- Htid, <- Hsch in Ht.
  assert (wf_scheduler s') as Hw.
  { split; [|done]. destruct Hs as [(item & _ & -> & _)|(_ & -> & _)]; done. }
  destruct next as [next|].
  - destruct Hs as [(item & _ & _ & [=])|(-> & Hq & Hp)].
    assert (∀ c, wf_scheduler (mkScheduler (sc_queue s') (Some next_id) (Some next) (sc_in_progress s')) ∧
      starts ([] ++ option_list (CancelTimer <$> c) ++ [StartTimer next_id (ns_interval next)]) = []) as Hst.
    { intros c. split; [|by destruct c]. split; cbn; [by rewrite Hq|eauto]. }
    destruct (sc_timer_id s') as [id|].
    + destruct (sc_schedule s') as [sch|]; [|by destruct (Ht ltac:(eauto))]. destruct (ns_at next <? ns_at sch).
      * do 2 eexists. split; [done|]. destruct (Hst (Some id)) as [? Hl]. split; [done|]. change (CancelTimer id :: _) with (option_list (CancelTimer <$> Some id)).
        unfold starts. split; [cbn; lia|done].
      * do 2 eexists. split; [done|]. split_and!; [done|cbn; lia|done].
    + do 2 eexists. split; [done|]. destruct (Hst None) as [? _]. split_and!; [done|cbn; lia|done].
  - do 2 eexists. split; [done|]. split; [done|]. destruct Hs as [(item & -> & -> & _)|(-> & _)]; [|split; [cbn; lia|done]].
    split; [cbn; lia|done].
Qed.

Lemma when_idle_ok folders now next_id s :
  (is_Some (sc_timer_id s) → is_Some (sc_schedule s)) →
  ∃ s' actions, when_idle folders now next_id s = Ok (s', actions) ∧ wf_scheduler s' ∧
    (length (starts actions) <= 1)%nat ∧ (starts actions ≠ [] → sc_in_progress s' = true) ∧
    (sc_in_progress s = true → actions = [] ∧ s' = s).
Proof.
  intros Ht. unfold when_idle. destruct (sc_in_progress s) eqn:Hp.
  - do 2 eexists. split; [done|]. split; [by split|]. cbn. split_and!; [lia|done|done].
  - destruct (scan_next_or_schedule_ok folders now next_id s Ht) as (s' & actions & -> & Hw & Hl & Hst). by exists s', actions.
Qed.

(** One message, when a timer that fires finds a schedule. *)
Lemma sched_handle_ok (folders : list folder) (now next_id : Z) (s : scheduler) (ev : sched_event) :
  wf_scheduler s → (ev = TimerFired false → is_Some (sc_schedule s)) →
  ∃ s' actions, sched_handle folders now next_id s ev = Ok (s', actions) ∧ wf_scheduler s' ∧
    (length (starts actions) <= 1)%nat ∧ (starts actions ≠ [] → sc_in_progress s' = true) ∧
    (sc_in_progress s = true → starts actions ≠ [] → ev = ScanFinished ∨ ev = LocalReady ∨ ev = TimerFired false).
Proof.
  intros [Hq Ht] Hev. destruct ev as [| |item| | |[]]; cbn [sched_handle].
  - pose proof (scan_next_ok folders now s) as Hs. destruct (scan_next folders now s) as [[s' actions] next]. destruct Hs as (Htid & Hsch & Hs).
    exists s', actions. split; [done|]. split; [split; [|by rewrite Htid, Hsch]; destruct Hs as [(item & _ & -> & _)|(_ & -> & _)]; done|].
    destruct Hs as [(item & -> & -> & _)|(-> & _)]; cbn; split_and!; auto; lia.
  - destruct (when_idle_ok folders now next_id s Ht) as (s' & actions & -> & Hw & Hl & Hst & Hp). exists s', actions. split_and!; try done.
    intros [-> _]%Hp. done.
  - unfold on_scan_request. destruct (merge_request item (sc_queue s)) as [q ignored] eqn:E. destruct ignored.
    + do 2 eexists. split; [done|]. cbn. split_and!; try done; [|lia]. split; cbn; [|done]. intros Hne. apply Hq. intros Hn. rewrite Hn in E. injection E as <-. done.
    + destruct (when_idle_ok folders now next_id (mkScheduler (q ++ [item]) (sc_timer_id s) (sc_schedule s) (sc_in_progress s)) Ht)
        as (s' & actions & -> & Hw & Hl & Hst & Hp). exists s', actions. split_and!; try done. intros [-> _]%Hp. done.
  - unfold on_scan_finish. destruct (scan_next_or_schedule_ok folders now next_id (mkScheduler (sc_queue s) (sc_timer_id s) (sc_schedule s) false) Ht)
      as (s' & actions & -> & Hw & Hl & Hst). exists s', actions. split_and!; auto.
  - destruct (when_idle_ok folders now next_id s Ht) as (s' & actions & -> & Hw & Hl & Hst & Hp). exists s', actions. split_and!; try done.
    intros [-> _]%Hp. done.
  - do 2 eexists. split; [done|]. cbn. split_and!; try done; [|lia]. split; cbn; [done|]. by intros [].
  - cbn [on_timer]. destruct (sc_schedule s) as [[item interval at_]|]; [|by destruct (Hev eq_refl)].
    set (s1 := mkScheduler (sc_queue s) None _ (sc_in_progress s)).
    assert (wf_scheduler s1) as Hw1 by (split; [exact Hq|by intros []]).
    assert (∃ s' actions, Ok (s1, []) = Ok (s', actions) ∧ wf_scheduler s' ∧ (length (starts actions) <= 1)%nat ∧
      (starts actions ≠ [] → sc_in_progress s' = true) ∧ (sc_in_progress s = true → starts actions ≠ [] →
        TimerFired false = ScanFinished ∨ TimerFired false = LocalReady ∨ TimerFired false = TimerFired false)) as Hnone.
    { exists s1, []. cbn. split_and!; auto; lia. }
    destruct (folder_by_id folders (si_folder_id item)) as [fo|]; [|done]. destruct (fo_scan_finish fo) as [last|]; [|done].
    destruct (_ <? _).
    + destruct (scan_next_or_schedule_ok folders now next_id s1 (sw_timer _ Hw1)) as (s' & actions & -> & Hw & Hl & Hst). exists s', actions. split_and!; auto.
    + do 2 eexists. split; [done|]. cbn. split_and!; auto. split; cbn; [done|by intros []].
Qed.

(** The timers that are started. *)
Definition timers (actions : list action) : list Z :=
  a ← actions; match a with StartTimer id _ => [id] | _ => [] end.

(** The states that the actor gets to from its start, with the timers that were started and have not fired: messages come at
    any time and in any state of the folders, and a timer fires once, cancelled or not, after it was started. *)
Inductive sched_run : scheduler → list Z → Prop :=
| run_begin : sched_run (mkScheduler [] None None false) []
| run_message folders now next_id s running ev s' actions :
    sched_run s running → (∀ c, ev ≠ TimerFired c) → sched_handle folders now next_id s ev = Ok (s', actions) →
    sched_run s' (running ++ timers actions)
| run_timer folders now next_id s before id after c s' actions :
    sched_run s (before ++ id :: after) → sched_handle folders now next_id s (TimerFired c) = Ok (s', actions) →
    sched_run s' (before ++ after ++ timers actions).

(** A schedule stays, and there is one after a timer was started. *)
Lemma scan_next_or_schedule_keeps folders now next_id s s' actions :
  scan_next_or_schedule folders now next_id s = Ok (s', actions) →
  is_Some (sc_schedule s) ∨ timers actions ≠ [] → is_Some (sc_schedule s').
Proof.
  unfold scan_next_or_schedule. pose proof (scan_next_ok folders now s) as Hs. destruct (scan_next folders now s) as [[s1 a1] next].
  destruct Hs as (_ & Hsch & Hs). assert (timers a1 = []) as Ha by (destruct Hs as [(? & -> & _)|(-> & _)]; done).
  destruct next as [next|].
  - destruct (sc_timer_id s1) as [id|]; [destruct (sc_schedule s1) as [sch|] eqn:E; [destruct (_ <? _)|done]|];
      intros [= <- <-]; cbn [sc_schedule]; rewrite ?E; eauto.
  - intros [= <- <-]. rewrite Hsch, Ha. by intros [?|?].
Qed.

Lemma when_idle_keeps folders now next_id s s' actions :
  when_idle folders now next_id s = Ok (s', actions) →
  is_Some (sc_schedule s) ∨ timers actions ≠ [] → is_Some (sc_schedule s').
Proof.
  unfold when_idle. destruct (sc_in_progress s); [intros [= <- <-]; by intros [?|?]|apply scan_next_or_schedule_keeps].
Qed.

Lemma sched_handle_keeps folders now next_id s ev s' actions :
  sched_handle folders now next_id s ev = Ok (s', actions) →
  is_Some (sc_schedule s) ∨ timers actions ≠ [] → is_Some (sc_schedule s').
Proof.
  destruct ev as [| |item| | |[]]; cbn [sched_handle].
  - pose proof (scan_next_ok folders now s) as Hs. destruct (scan_next folders now s) as [[s1 a1] next]. destruct Hs as (_ & Hsch & Hs).
    intros [= <- <-]. rewrite Hsch. destruct Hs as [(? & -> & _)|(-> & _)]; by intros [?|?].
  - apply when_idle_keeps.
  - unfold on_scan_request. destruct (merge_request _ _) as [q []]; [intros [= <- <-]; by intros [?|?]|].
    intros Hw. exact (when_idle_keeps _ _ _ _ _ _ Hw).
  - intros Hw. exact (scan_next_or_schedule_keeps _ _ _ _ _ _ Hw).
  - apply when_idle_keeps.
  - intros [= <- <-]. by intros [?|?].
  - cbn [on_timer]. destruct (sc_schedule s) as [[item interval at_]|]; [|done].
    destruct (folder_by_id _ _) as [fo|]; [|intros [= <- <-]; eauto]. destruct (fo_scan_finish fo) as [last|]; [|intros [= <- <-]; eauto].
    destruct (_ <? _); [|intros [= <- <-]; cbn; eauto]. intros Hw _. apply (scan_next_or_schedule_keeps _ _ _ _ _ _ Hw). left. cbn; eauto.
Qed.

(** What holds of all of them: the invariant, and a schedule while a timer runs. *)
Lemma sched_run_wf s running : sched_run s running → wf_scheduler s ∧ (running ≠ [] → is_Some (sc_schedule s)).
Proof.
  induction 1 as [|folders now next_id s running ev s' actions _ [Hw Ht] Hev Hh|folders now next_id s before id after c s' actions _ [Hw Ht] Hh].
  - split; [split; [done|by intros []]|done].
  - pose proof (sched_handle_keeps _ _ _ _ _ _ _ Hh) as Hk.
    destruct (sched_handle_ok folders now next_id s ev Hw) as (s1 & a1 & Hh' & Hw' & _); [intros ->; by destruct (Hev false)|].
    rewrite Hh in Hh'. injection Hh' as <- <-. split; [done|]. intros Hne. apply Hk.
    destruct (timers actions); [left; apply Ht; by rewrite app_nil_r in Hne|by right].
  - assert (is_Some (sc_schedule s)) as Hs by (apply Ht; by destruct before).
    destruct (sched_handle_ok folders now next_id s (TimerFired c) Hw) as (s1 & a1 & Hh' & Hw' & _); [done|].
    pose proof (sched_handle_keeps _ _ _ _ _ _ _ Hh) as Hk. rewrite Hh in Hh'. injection Hh' as <- <-. auto.
Qed.

(** C33: in every state that the scheduler gets to from its start, whatever message or timer comes next, in whatever state of
    the folders and at whatever time, it is handled without reading an absent schedule (a timer fires only after the
    actor started it), starts at most one scan, and keeps the invariant: no request waits while no scan is in progress.
    While one is in progress, only its end, the news that the cluster is ready or the timer starts another. *)
Theorem scheduler_invariant (folders : list folder) (now next_id : Z) (s : scheduler) (running : list Z) (ev : sched_event) :
  sched_run s running → (∀ c, ev = TimerFired c → running ≠ []) →
  wf_scheduler s ∧
  ∃ s' actions, sched_handle folders now next_id s ev = Ok (s', actions) ∧ wf_scheduler s' ∧
    (length (starts actions) <= 1)%nat ∧ (starts actions ≠ [] → sc_in_progress s' = true) ∧
    (sc_in_progress s = true → starts actions ≠ [] → ev = ScanFinished ∨ ev = LocalReady ∨ ev = TimerFired false).
Proof.
  intros Hr Hev. destruct (sched_run_wf s running Hr) as [Hw Ht]. split; [done|].
  apply sched_handle_ok; [done|]. intros ->. apply Ht. by apply (Hev false).
Qed.

(** ** Requests are served *)

(** No request is lost. While a scan is in progress, the request and everything that was asked for before is
    covered by the queue; otherwise its scan starts at once, unless the folder is unknown, is being
    synchronised or is suspended by the user. *)
Theorem request_kept (folders : list folder) (now next_id : Z) (s : scheduler) (item : scan_item) :
  wf_scheduler s →
  ∃ s' actions, sched_handle folders now next_id s (ScanRequested item) = Ok (s', actions) ∧
    (sc_in_progress s = true → actions = [] ∧ covers (sc_queue s') item ∧ ∀ j, covers (sc_queue s) j → covers (sc_queue s') j) ∧
    (sc_in_progress s = false → cannot_scan folders (si_folder_id item) = false → actions = [ScanStart item] ∧ sc_queue s' = []).
Proof.
  intros [Hq Ht]. cbn [sched_handle]. unfold on_scan_request. pose proof (merge_request_ok item (sc_queue s)) as [Hc1 Hc2].
  unfold with_request in *. destruct (sc_in_progress s) eqn:Hp.
  - destruct (merge_request item (sc_queue s)) as [q ignored]. destruct ignored; cbn [when_idle sc_in_progress]; do 2 eexists; (split; [done|]); by cbn [sc_queue].
  - assert (sc_queue s = []) as Hn by (destruct (sc_queue s); [done|discriminate Hq; done]). rewrite Hn. cbn [merge_request app].
    unfold when_idle. cbn [sc_in_progress].
    destruct (scan_next_or_schedule_ok folders now next_id (mkScheduler [item] (sc_timer_id s) (sc_schedule s) false) Ht) as (s' & actions & Hs & _).
    exists s', actions. split; [done|]. split; [done|]. intros _ Hc. unfold scan_next_or_schedule, scan_next in Hs. cbn [sc_queue pop_request] in Hs.
    rewrite Hc in Hs. cbn in Hs. by injection Hs as <- <-.
Qed.

(** The scans that the ends of scans start, [n] of them. *)
Fixpoint finishes (folders : list folder) (now next_id : Z) (n : nat) (s : scheduler) : res (list scan_item) :=
  match n with
  | 0%nat => Ok []
  | S n =>
      let* '(s, actions) := sched_handle folders now next_id s ScanFinished in
      let* rest := finishes folders now next_id n s in
      Ok (starts actions ++ rest)
  end.

Lemma finishes_serve folders now next_id n : ∀ s,
  (is_Some (sc_timer_id s) → is_Some (sc_schedule s)) → (length (sc_queue s) <= n)%nat →
  Forall (λ i, cannot_scan folders (si_folder_id i) = false) (sc_queue s) →
  ∃ started, finishes folders now next_id n s = Ok started ∧ ∀ i, i ∈ sc_queue s → i ∈ started.
Proof.
  induction n as [|n IH]; intros s Ht Hl Hc.
  - exists []. split; [done|]. destruct (sc_queue s); [done|cbn in Hl; lia].
  - cbn [finishes sched_handle]. unfold on_scan_finish.
    destruct (scan_next_or_schedule_ok folders now next_id (mkScheduler (sc_queue s) (sc_timer_id s) (sc_schedule s) false) Ht)
      as (s' & actions & Hs & [Hq' Ht'] & _). rewrite Hs. cbn [res_bind].
    unfold scan_next_or_schedule, scan_next in Hs. cbn [sc_queue] in Hs.
    assert (∃ s1 a1, s1 = s' ∧ a1 = actions ∧ (length (sc_queue s1) <= n)%nat ∧
      Forall (λ i, cannot_scan folders (si_folder_id i) = false) (sc_queue s1) ∧
      ∀ i, i ∈ sc_queue s → i ∈ starts a1 ∨ i ∈ sc_queue s1) as (s1 & a1 & -> & -> & Hl1 & Hc1 & Hin).
    { destruct (sc_queue s) as [|item queue] eqn:Eq.
      - exists s', actions. cbn [pop_request] in Hs. assert (sc_queue s' = []) as ->.
        { revert Hs. destruct (select_folder _ folders None) as [[fo d]|]; [destruct (d <=? _)|]; cbn; repeat case_match; intros [= <- <-]; try done. }
        split_and!; try done; [cbn; lia|]. by intros i ?%not_elem_of_nil.
      - apply Forall_cons in Hc as [Hci Hc]. cbn [pop_request] in Hs. rewrite Hci in Hs. cbn in Hs. injection Hs as <- <-.
        do 2 eexists. split_and!; [done|done| | |]; cbn [sc_queue].
        + pose proof (length_filter (λ i, i ≠ item) queue). cbn in Hl. lia.
        + by apply Forall_filter.
        + intros i [->|Hi]%elem_of_cons; [left; left|]. destruct (decide (i = item)) as [->|Hne]; [left; left|right]. by apply list_elem_of_filter. }
    destruct (IH s' Ht' Hl1 Hc1) as (started & -> & Hst). cbn [res_bind]. eexists. split; [done|]. intros i Hi. rewrite elem_of_app.
    destruct (Hin i Hi); auto.
Qed.

(** Every request that waits is served: as many ends of scans as there are requests start a scan of each of
    them, when their folders can be scanned. *)
Theorem waiting_requests_served (folders : list folder) (now next_id : Z) (s : scheduler) :
  wf_scheduler s → Forall (λ i, cannot_scan folders (si_folder_id i) = false) (sc_queue s) →
  ∃ started, finishes folders now next_id (length (sc_queue s)) s = Ok started ∧ ∀ i, i ∈ sc_queue s → i ∈ started.
Proof. intros [_ Ht] Hc. by apply finishes_serve. Qed.

(** ** The next rescan *)

(** A folder that is due no later than another, and not less often. *)
Definition due_before (a b : folder * Z) : Prop :=
  a.2 < b.2 ∨ (a.2 = b.2 ∧ fd_rescan_interval (fo_data a.1) <= fd_rescan_interval (fo_data b.1)).

Lemma due_before_trans a b c : due_before a b → due_before b c → due_before a c.
Proof. unfold due_before. lia. Qed.

Lemma select_folder_ok now folders : ∀ best,
  match select_folder now folders best with
  | None => best = None ∧ Forall (λ fo, rescan_deadline now fo = None) folders
  | Some (fo, d) =>
      (best = Some (fo, d) ∨ (fo ∈ folders ∧ rescan_deadline now fo = Some d)) ∧
      (∀ b, best = Some b → due_before (fo, d) b) ∧
      (∀ fo' d', fo' ∈ folders → rescan_deadline now fo' = Some d' → due_before (fo, d) (fo', d'))
  end.
Proof.
  induction folders as [|fo folders IH]; intros best; cbn [select_folder].
  - destruct best as [[fo d]|]; [|done]. split_and!; [by left| |by intros ? ? ?%not_elem_of_nil]. intros b [= <-]. right. lia.
  - set (best' := match rescan_deadline now fo with None => best | Some _ => _ end). specialize (IH best').
    assert (best' = best ∨ ∃ d, rescan_deadline now fo = Some d ∧ best' = Some (fo, d)) as Hb'.
    { unfold best'. destruct (rescan_deadline now fo) as [d|]; [|by left]. destruct best as [[fo' d']|]; [|by right; eauto].
      destruct (_ || _); [right; eauto|by left]. }
    assert (∀ b, best = Some b → ∃ b', best' = Some b' ∧ due_before b' b) as Hle.
    { intros b ->. unfold best'. destruct (rescan_deadline now fo) as [d|]; [|eexists; split; [done|right; lia]]. destruct b as [fo' d'].
      destruct (Z.ltb_spec d d'); cbn [orb]; [eexists; split; [done|by left]|].
      destruct (Z.eqb_spec d d'); cbn [andb]; [|eexists; split; [done|right; lia]].
      destruct (Z.ltb_spec (fd_rescan_interval (fo_data fo)) (fd_rescan_interval (fo_data fo'))); eexists; (split; [done|]); right; cbn; lia. }
    assert (∀ d, rescan_deadline now fo = Some d → ∃ b', best' = Some b' ∧ due_before b' (fo, d)) as Hthis.
    { intros d Hd. unfold best'. rewrite Hd. destruct best as [[fo' d']|]; [|eexists; split; [done|right; lia]].
      destruct (Z.ltb_spec d d'); cbn [orb]; [eexists; split; [done|right; lia]|].
      destruct (Z.eqb_spec d d'); cbn [andb]; [|eexists; split; [done|left; cbn; lia]].
      destruct (Z.ltb_spec (fd_rescan_interval (fo_data fo)) (fd_rescan_interval (fo_data fo'))); eexists; (split; [done|]); right; cbn; lia. }
    destruct (select_folder now folders best') as [[fo1 d1]|].
    + destruct IH as (Hsrc & Hbest & Hall). split_and!.
      * destruct Hsrc as [Hs|[? ?]]; [|right; split; [by right|done]]. destruct Hb' as [->|(d & Hd & Hb)]; [by left|]. rewrite Hb in Hs.
        injection Hs as <- <-. right. split; [left|done].
      * intros b Hb. destruct (Hle b Hb) as (b' & Hb2 & Hd). eapply due_before_trans; [by apply Hbest|done].
      * intros fo' d' [->|Hin]%elem_of_cons Hd'; [|by apply Hall]. destruct (Hthis d' Hd') as (b' & Hb2 & Hd). eapply due_before_trans; [by apply Hbest|done].
    + destruct IH as [Hn Hall]. destruct Hb' as [Hb|(d & Hd & Hb)]; [|congruence]. split; [congruence|]. constructor; [|done].
      destruct (rescan_deadline now fo) as [d|] eqn:E; [|done]. destruct (Hthis d eq_refl) as (b' & Hb2 & _). congruence.
Qed.

(** Without requests the scheduler follows the deadlines: when some folder has a rescan, the one that is due first
    is scanned if it is due and otherwise scheduled for exactly its deadline; among
    equal deadlines the folder with the shortest interval comes first. *)
Theorem earliest_rescan (folders : list folder) (now : Z) (s : scheduler) :
  pop_request folders (sc_queue s) = None →
  match scan_next folders now s with
  | (_, actions, next) =>
      (Forall (λ fo, rescan_deadline (second_clock now) fo = None) folders ∧ actions = [] ∧ next = None) ∨
      ∃ fo d, fo ∈ folders ∧ rescan_deadline (second_clock now) fo = Some d ∧
        (∀ fo' d', fo' ∈ folders → rescan_deadline (second_clock now) fo' = Some d' → due_before (fo, d) (fo', d')) ∧
        ((d <= second_clock now ∧ actions = [ScanStart (mkItem (fd_id (fo_data fo)) [])] ∧ next = None) ∨
         (second_clock now < d ∧ actions = [] ∧
          next = Some (mkSchedule (mkItem (fd_id (fo_data fo)) []) (d - second_clock now) d)))
  end.
Proof.
  intros Hp. unfold scan_next. rewrite Hp. pose proof (select_folder_ok (second_clock now) folders None) as Hs.
  destruct (select_folder _ folders None) as [[fo d]|].
  - destruct Hs as ([?|[Hin Hd]] & _ & Hall); [done|]. destruct (Z.leb_spec d (second_clock now)); cbn [initiate_scan]; right; exists fo, d; split_and!; auto.
  - destruct Hs as [_ Hall]. by left.
Qed.

(** ** Two folders *)

Definition y_folder (id : string) (interval : Z) (scanned : option Z) : folder :=
  mkFolder (chars id) (mkFolderData (chars id) [] [] send_and_receive interval alphabetic false false false false false false)
    scanned scanned [] 0 false None.
Definition y_folders : list folder := [y_folder "f" 60 (Some 0); y_folder "g" 30 (Some 0)].
Definition y_busy : scheduler := mkScheduler [mkItem (chars "f") (chars "ab"); mkItem (chars "g") []] None None true.

Lemma y_busy_wf : wf_scheduler y_busy.
Proof. split; [done|by intros []]. Qed.

(** A rescan waits for a timer, and a scan that was asked for is in progress. *)
Definition y_waiting : scheduler :=
  mkScheduler [] (Some 1) (Some (mkSchedule (mkItem (chars "g") []) (20 * second) (30 * second))) true.

Lemma y_waiting_run : sched_run y_waiting [1].
Proof.
  set (s1 := mkScheduler [] (Some 1) (sc_schedule y_waiting) false).
  assert (sched_run s1 [1]) as Hs.
  { apply (run_message y_folders (10 * second) 1 _ [] FolderUpserted s1 [StartTimer 1 (20 * second)] run_begin); done. }
  by apply (run_message y_folders (11 * second) 2 s1 [1] (ScanRequested (mkItem (chars "f") [])) _ [ScanStart (mkItem (chars "f") [])] Hs).
Qed.

Example scheduler_invariant_witness :
  wf_scheduler y_waiting ∧
  ∃ s' actions, sched_handle y_folders (31 * second) 2 y_waiting (TimerFired false) = Ok (s', actions) ∧ wf_scheduler s' ∧
    (length (starts actions) <= 1)%nat ∧ (starts actions ≠ [] → sc_in_progress s' = true) ∧
    (sc_in_progress y_waiting = true → starts actions ≠ [] →
       TimerFired false = ScanFinished ∨ TimerFired false = LocalReady ∨ TimerFired false = TimerFired false).
Proof. apply (scheduler_invariant y_folders (31 * second) 2 y_waiting [1] (TimerFired false) y_waiting_run). done. Defined.

Example request_kept_witness :
  ∃ s' actions, sched_handle y_folders 0 1 y_busy (ScanRequested (mkItem (chars "f") (chars "a"))) = Ok (s', actions) ∧
    (sc_in_progress y_busy = true → actions = [] ∧ covers (sc_queue s') (mkItem (chars "f") (chars "a")) ∧
       ∀ j, covers (sc_queue y_busy) j → covers (sc_queue s') j) ∧
    (sc_in_progress y_busy = false → cannot_scan y_folders (chars "f") = false →
       actions = [ScanStart (mkItem (chars "f") (chars "a"))] ∧ sc_queue s' = []).
Proof. exact (request_kept y_folders 0 1 y_busy (mkItem (chars "f") (chars "a")) y_busy_wf). Defined.

Example waiting_requests_served_witness :
  ∃ started, finishes y_folders 0 1 2 y_busy = Ok started ∧ ∀ i, i ∈ sc_queue y_busy → i ∈ started.
Proof. apply (waiting_requests_served y_folders 0 1 y_busy y_busy_wf). repeat constructor. Defined.

Example earliest_rescan_witness :
  match scan_next y_folders (10 * second) (mkScheduler [] None None false) with
  | (_, actions, next) =>
      (Forall (λ fo, rescan_deadline (second_clock (10 * second)) fo = None) y_folders ∧ actions = [] ∧ next = None) ∨
      ∃ fo d, fo ∈ y_folders ∧ rescan_deadline (second_clock (10 * second)) fo = Some d ∧
        (∀ fo' d', fo' ∈ y_folders → rescan_deadline (second_clock (10 * second)) fo' = Some d' → due_before (fo, d) (fo', d')) ∧
        ((d <= second_clock (10 * second) ∧ actions = [ScanStart (mkItem (fd_id (fo_data fo)) [])] ∧ next = None) ∨
         (second_clock (10 * second) < d ∧ actions = [] ∧
          next = Some (mkSchedule (mkItem (fd_id (fo_data fo)) []) (d - second_clock (10 * second)) d)))
  end.
Proof. exact (earliest_rescan y_folders (10 * second) (mkScheduler [] None None false) eq_refl). Defined.

(** ** Where it goes wrong *)

(** A request for the directory [abc] is taken to be covered by one for its sibling [ab]. *)
Lemma sibling_taken_for_child :
  compare_dirs (chars "ab") (chars "abc") = includes ∧
  merge_request (mkItem (chars "f") (chars "abc")) [mkItem (chars "f") (chars "ab")] = ([mkItem (chars "f") (chars "ab")], true).
Proof. by vm_compute. Qed.

(** The timer fires while a scan is in progress, and starts another one. *)
Lemma timer_starts_second_scan :
  let s := mkScheduler [] (Some 1) (Some (mkSchedule (mkItem (chars "g") []) (30 * second) (30 * second))) true in
  (let* '(_, actions) := sched_handle y_folders (31 * second) 2 s (TimerFired false) in Ok actions) = Ok [ScanStart (mkItem (chars "g") [])].
Proof. by vm_compute. Qed.

(** The timer of a folder that is gone: nothing is scanned and no timer is set, although a folder is overdue. *)
Lemma timer_of_removed_folder :
  let s := mkScheduler [] (Some 1) (Some (mkSchedule (mkItem (chars "h") []) (30 * second) (30 * second))) false in
  (let* '(s, actions) := sched_handle y_folders (99 * second) 2 s (TimerFired false) in Ok (sc_timer_id s, actions)) = Ok (None, []) ∧
  rescan_deadline (99 * second) (y_folder "g" 30 (Some 0)) = Some (30 * second).
Proof. by vm_compute. Qed.
