(* ===== verification/Watcher.v ===== *)
(** * Watcher: changes in the file system. [src/fs/updates_mediator.cpp] masks the events the program causes itself;
    [src/fs/platform/watcher_base.cpp] gathers the events of a retention interval, one record per path, and turns
    them into changes. What the disk answers is an argument. Moments are numbers, [None] is
    [not_a_date_time]. *)

From S2P Require Import Prelude Proto.
From stdpp Require Import sorting.
Open Scope Z_scope.

(** ** [src/fs/update_type.hpp], [updates_support.h] *)

Definition CREATED_1 : Z := 1.
Definition CREATED : Z := 2.
Definition DELETED : Z := 4.
Definition META : Z := 8.
Definition CONTENT : Z := 16.

Inductive update_type := created | deleted | meta | content_changed.

#[export] Instance update_type_eq_dec : EqDecision update_type.
Proof. solve_decision. Defined.

Definition type_bits (t : update_type) : Z :=
  match t with created => CREATED | deleted => DELETED | meta => META | content_changed => CONTENT end.

(** [file_update_t] without its path, which is its key. *)
Record file_update := mkUpdate {
  u_prev_path : bytes;
  u_type : Z;
  u_requires_refinement : bool;
}.

Abbreviation file_updates := (gmap bytes file_update).

(** [std::set::emplace]: what is there stays. *)
Definition emplace (m : file_updates) (path : bytes) (u : file_update) : file_updates :=
  match m !! path with Some _ => m | None => <[path := u]> m end.

(** The order of the set: characters as unsigned numbers. *)
Fixpoint path_le (a b : bytes) : bool :=
  match a, b with
  | [], _ => true
  | _ :: _, [] => false
  | x :: a, y :: b => (x <? y) || ((x =? y) && path_le a b)
  end.

Definition before_path (a b : bytes * file_update) : Prop := path_le a.1 b.1 = true.

#[export] Instance before_path_dec a b : Decision (before_path a b).
Proof. unfold before_path. apply _. Defined.

Definition in_order (m : file_updates) : list (bytes * file_update) := merge_sort before_path (map_to_list m).

(** ** [updates_mediator_t] *)

Definition tmp_suffix : bytes := chars ".syncspirit-tmp".

Definition is_temporal (path : bytes) : bool :=
  bool_decide (length tmp_suffix <= length path)%nat &&
  bool_decide (drop (length path - length tmp_suffix) path = tmp_suffix).

(** Counters of masked events by path, with a deadline. *)
Record masks := mkMasks { ma_updates : gmap bytes Z; ma_deadline : option Z }.

Record mediator := mkMediator {
  md_interval : Z;
  md_next : masks;
  md_postponed : masks;
  md_enabled : bool;
}.

Definition new_mediator (interval : Z) (enabled : bool) : mediator :=
  mkMediator interval (mkMasks ∅ None) (mkMasks ∅ None) enabled.

(** The lambda [insert]. *)
Definition add_mask (m : masks) (path : bytes) (counter : Z) : masks :=
  mkMasks (<[path := match ma_updates m !! path with Some c => u32 (c + counter) | None => counter end]> (ma_updates m)) (ma_deadline m).

Definition mask (md : mediator) (path prev_path : bytes) (deadline : Z) : mediator :=
  if negb (md_enabled md) then md
  else if is_temporal path then md
  else
    let insert (m : masks) (counter : Z) :=
      let m := add_mask m path counter in
      if negb (bool_decide (prev_path = [])) && negb (is_temporal prev_path) then add_mask m prev_path counter else m in
    let next := md_next md in
    if bool_decide (ma_deadline next = Some deadline) then
      mkMediator (md_interval md) (insert next 1) (md_postponed md) (md_enabled md)
    else
      match ma_deadline next with
      | None => mkMediator (md_interval md) (insert (mkMasks (ma_updates next) (Some deadline)) 1) (md_postponed md) (md_enabled md)
      | Some next_deadline =>
          let '(counter, next) :=
            match ma_updates next !! path with
            | Some c => (u32 (1 + c), mkMasks (delete path (ma_updates next)) (ma_deadline next))
            | None => (1, next)
            end in
          let target := md_postponed md in
          let target := if bool_decide (ma_updates target = ∅) then mkMasks (ma_updates target) (Some (next_deadline + md_interval md)) else target in
          mkMediator (md_interval md) next (insert target counter) (md_enabled md)
      end.

(** One of the two sets: the number of events, one of which is used up. *)
Definition unmask (m : masks) (path : bytes) : option (Z * masks) :=
  match ma_deadline m, ma_updates m !! path with
  | Some _, Some c =>
      let c' := u32 (c - 1) in
      Some (c, mkMasks (if c' =? 0 then delete path (ma_updates m) else <[path := c']> (ma_updates m)) (ma_deadline m))
  | _, _ => None
  end.

Definition is_masked (md : mediator) (path : bytes) : Z * mediator :=
  match unmask (md_postponed md) path with
  | Some (events, m) => (events, mkMediator (md_interval md) (md_next md) m (md_enabled md))
  | None =>
      match unmask (md_next md) path with
      | Some (events, m) => (events, mkMediator (md_interval md) m (md_postponed md) (md_enabled md))
      | None => (0, md)
      end
  end.

Definition clean_expired (md : mediator) : mediator * bool :=
  (mkMediator (md_interval md) (md_postponed md) (mkMasks ∅ None) (md_enabled md),
   negb (bool_decide (ma_updates (md_postponed md) = ∅))).

Definition enable (md : mediator) (value : bool) : mediator :=
  mkMediator (md_interval md) (md_next md) (md_postponed md) value.

(** ** [folder_update_t] *)

Definition CONTENT_LIKE : Z := Z.lor CONTENT (Z.lor CREATED CREATED_1).

Definition has_bits (t bits : Z) : bool := negb (Z.land t bits =? 0).

(** The set a record was found in, without it; the other set stays. *)
Definition erase_from (in_source : bool) (key : bytes) (target source : file_updates) : file_updates * file_updates :=
  if in_source then (target, delete key source) else (delete key target, source).

(** [update(new_record, it_prev, prev_source)]. *)
Definition merge_update (target source : file_updates) (in_source : bool) (key : bytes) (prev : file_update)
    (path : bytes) (new : file_update) : file_updates * file_updates * bool :=
  if bool_decide (u_type prev = META) && bool_decide (u_type new = META) && bool_decide (u_prev_path prev = path)
  then (target, source, false)
  else
    let split del_path :=
      let '(target, source) := erase_from in_source key target source in
      let target := emplace target del_path (mkUpdate [] DELETED (u_requires_refinement prev)) in
      (emplace target path (mkUpdate [] CREATED_1 (u_requires_refinement new)), source, true) in
    let content_then_meta := has_bits (u_type prev) CONTENT_LIKE && has_bits (u_type new) META in
    if content_then_meta && negb (bool_decide (u_prev_path new = [])) then split (u_prev_path new)
    else
      let type := if content_then_meta then u_type prev else u_type new in
      if has_bits (u_type prev) META && negb (bool_decide (u_prev_path prev = [])) && has_bits type CONTENT_LIKE
      then split (u_prev_path prev)
      else
        let prev_path := if bool_decide (u_prev_path prev = []) then u_prev_path new else u_prev_path prev in
        let type := if has_bits (u_type prev) CREATED_1 then Z.lor type CREATED_1 else type in
        let refinement := u_requires_refinement new || u_requires_refinement prev in
        let '(target, source) := erase_from in_source key target source in
        (emplace target path (mkUpdate prev_path type refinement), source, true).

(** [update(record, prev)]: by path and by previous path, here and then in the other set. *)
Definition update_record (target source : file_updates) (path : bytes) (new : file_update)
    : file_updates * file_updates * bool :=
  match target !! path, target !! u_prev_path new, source !! path, source !! u_prev_path new with
  | Some prev, _, _, _ => merge_update target source false path prev path new
  | None, Some prev, _, _ => merge_update target source false (u_prev_path new) prev path new
  | None, None, Some prev, _ => merge_update target source true path prev path new
  | None, None, None, Some prev => merge_update target source true (u_prev_path new) prev path new
  | None, None, None, None => (emplace target path new, source, true)
  end.

(** [update(relative_path, type, ...)]. *)
Definition update_event (target source : file_updates) (path : bytes) (type : update_type) (prev_path : bytes)
    (requires_refinement : bool) : file_updates * file_updates * bool :=
  update_record target source path
    (mkUpdate prev_path (match type with created => CREATED_1 | t => type_bits t end) requires_refinement).

(** What the disk says of a path; [None] stands for an error. *)
Inductive disk_entry :=
| Regular (permissions size modified_s : Z)
| Directory (permissions : Z)
| Symlink (permissions : Z) (target : bytes)
| OtherType (permissions : Z).

(** [payload::file_info_t]; the constructor asserts that only metadata changes have a previous path. *)
Record file_change := mkChange {
  fc_name : bytes;
  fc_entry : option disk_entry;
  fc_prev_path : bytes;
  fc_reason : update_type;
  fc_requires_refinement : bool;
}.

Definition make_change (name : bytes) (entry : option disk_entry) (prev_path : bytes) (reason : update_type) (refinement : bool)
    : res file_change :=
  let* _ := assert (bool_decide (prev_path = []) || bool_decide (reason = meta)) in
  Ok (mkChange name entry prev_path reason refinement).

Section make.
Context (disk : bytes → option disk_entry) (accept_update : bytes → file_update → disk_entry → bool).

Definition full_name (folder_path path : bytes) : bytes :=
  if bool_decide (path = []) then folder_path else folder_path ++ 47 :: path.

Definition SS_PATH_MAX : Z := 32 * 1024.

(** One round of the loop of [folder_update_t::make]. *)
Definition make_one (folder_path path : bytes) (u : file_update) : res (option file_change) :=
  if has_bits (u_type u) DELETED then
    if has_bits (u_type u) CREATED_1 then Ok None
    else
      let '(name, prev_name) := if bool_decide (u_prev_path u = []) then (path, u_prev_path u) else (u_prev_path u, []) in
      let* c := make_change name None prev_name deleted (u_requires_refinement u) in Ok (Some c)
  else
    match disk (full_name folder_path path) with
    | None => Ok None
    | Some entry =>
        if negb (accept_update path u entry) then Ok None
        else
          match entry with
          | OtherType _ => Ok None
          | _ =>
              let reason :=
                if has_bits (u_type u) (Z.lor CREATED CREATED_1) then created
                else if has_bits (u_type u) CONTENT then content_changed else meta in
              let* c := make_change path (Some entry) (u_prev_path u) reason (u_requires_refinement u) in Ok (Some c)
          end
    end.

Fixpoint make_files (md : mediator) (folder_path : bytes) (updates : list (bytes * file_update)) : res (mediator * list file_change) :=
  match updates with
  | [] => Ok (md, [])
  | (path, u) :: updates =>
      let name := full_name folder_path path in
      let* _ := assert (Z.of_nat (length name) <? SS_PATH_MAX) in
      let '(events, md) := is_masked md name in
      let* change := if negb (events =? 0) then Ok None else make_one folder_path path u in
      let* '(md, changes) := make_files md folder_path updates in
      Ok (md, option_list change ++ changes)
  end.

(** ** [bulk_update_t] *)

Record bulk_update := mkBulk { bu_deadline : option Z; bu_updates : list (bytes * file_updates) }.

(** [prepare], [find]: the first folder of the name. *)
Definition find_folder (bu : bulk_update) (folder_id : bytes) : option file_updates :=
  snd <$> head (filter (λ fu, fu.1 = folder_id) (bu_updates bu)).

Fixpoint set_folder (l : list (bytes * file_updates)) (folder_id : bytes) (m : file_updates) : list (bytes * file_updates) :=
  match l with
  | [] => [(folder_id, m)]
  | fu :: l => if bool_decide (fu.1 = folder_id) then (folder_id, m) :: l else fu :: set_folder l folder_id m
  end.

Definition has_changes (bu : bulk_update) : bool := existsb (λ fu, negb (bool_decide (fu.2 = ∅))) (bu_updates bu).

(** The loop of [make]; [at] throws when the folder is not watched, and [make] is [noexcept]. *)
Fixpoint make_folders (watched_folders : gmap bytes bytes) (md : mediator) (l : list (bytes * file_updates))
    : res (mediator * list (bytes * list file_change)) :=
  match l with
  | [] => Ok (md, [])
  | (folder_id, updates) :: l =>
      match watched_folders !! folder_id with
      | None => Ub
      | Some folder_path =>
          let* '(md, changes) := make_files md folder_path (in_order updates) in
          let* '(md, rest) := make_folders watched_folders md l in
          Ok (md, (if bool_decide (changes = []) then [] else [(folder_id, changes)]) ++ rest)
      end
  end.

Definition bulk_make (watched_folders : gmap bytes bytes) (md : mediator) (bu : bulk_update)
    : res (mediator * bulk_update * list (bytes * list file_change)) :=
  match bu_deadline bu with
  | None => Ok (md, bu, [])
  | Some _ => let* '(md, changes) := make_folders watched_folders md (bu_updates bu) in Ok (md, mkBulk None [], changes)
  end.

(** ** [watcher_base_t] *)

Record watcher := mkWatcher {
  w_retension : Z;
  w_next : bulk_update;
  w_postponed : bulk_update;
}.

(** The boolean: a timer is started. *)
Definition push (w : watcher) (deadline : Z) (folder_id path prev_path : bytes) (type : update_type) (refinement : bool)
    : watcher * bool :=
  let record (target source : bulk_update) : bulk_update * bulk_update :=
    let '(t, s, recorded) :=
      update_event (default ∅ (find_folder target folder_id)) (default ∅ (find_folder source folder_id)) path type prev_path refinement in
    (mkBulk (if recorded && bool_decide (bu_deadline target = None) then Some deadline else bu_deadline target)
       (set_folder (bu_updates target) folder_id t),
     mkBulk (bu_deadline source)
       (match find_folder source folder_id with Some _ => set_folder (bu_updates source) folder_id s | None => bu_updates source end)) in
  let next := w_next w in
  if bool_decide (bu_deadline next = Some deadline) || bool_decide (bu_deadline next = None) then
    let '(next', _) := record next (mkBulk None []) in
    (mkWatcher (w_retension w) next' (w_postponed w), bool_decide (bu_deadline next = None))
  else
    let '(postponed, next') := record (w_postponed w) next in
    (mkWatcher (w_retension w) next' postponed, false).

(** The changes that are sent, and whether another timer is started. *)
Definition on_retension_finish (watched_folders : gmap bytes bytes) (md : mediator) (now : Z) (w : watcher)
    : res (watcher * mediator * list (bytes * list file_change) * bool) :=
  let* '(md, next, changes) := bulk_make watched_folders md (w_next w) in
  if has_changes (w_postponed w) then
    Ok (mkWatcher (w_retension w) (mkBulk (Some (now + w_retension w)) (bu_updates (w_postponed w)))
          (mkBulk (bu_deadline (w_postponed w)) []), md, changes, true)
  else Ok (mkWatcher (w_retension w) next (w_postponed w), md, changes, false).
End make.

(** ** Masks are counted exactly *)

Definition count_of (m : masks) (path : bytes) : Z := default 0 (ma_updates m !! path).

(** How many events of a path are expected. *)
Definition masked (md : mediator) (path : bytes) : Z := count_of (md_next md) path + count_of (md_postponed md) path.

Record wf_masks (m : masks) : Prop := {
  wm_counts : ∀ path c, ma_updates m !! path = Some c → 0 < c < 2 ^ 32;
  wm_deadline : ma_updates m ≠ ∅ → is_Some (ma_deadline m);
}.

Definition wf_mediator (md : mediator) : Prop := wf_masks (md_next md) ∧ wf_masks (md_postponed md).

Lemma count_bounds m path : wf_masks m → 0 <= count_of m path < 2 ^ 32.
Proof.
  intros [Hc _]. unfold count_of. destruct (ma_updates m !! path) as [c|] eqn:E; cbn; [|lia]. specialize (Hc _ _ E). lia.
Qed.

Lemma add_mask_count m path counter path' :
  wf_masks m → 0 < counter → count_of m path + counter < 2 ^ 32 →
  count_of (add_mask m path counter) path' = count_of m path' + if decide (path = path') then counter else 0.
Proof.
  intros Hw Hc Hb. unfold count_of, add_mask in *. cbn [ma_updates]. destruct (decide (path = path')) as [<-|Hne].
  - rewrite lookup_insert_eq. destruct (ma_updates m !! path) as [c|] eqn:E; cbn in *; [|lia].
    pose proof (wm_counts m Hw _ _ E). unfold u32. rewrite Z.mod_small; lia.
  - rewrite lookup_insert_ne by done. lia.
Qed.

Lemma add_mask_wf m path counter d :
  wf_masks m → 0 < counter → count_of m path + counter < 2 ^ 32 → ma_deadline m = Some d → wf_masks (add_mask m path counter).
Proof.
  intros Hw Hc Hb Hd. split; cbn [add_mask ma_updates ma_deadline]; [|by rewrite Hd].
  intros path' c. destruct (decide (path = path')) as [<-|Hne]; [rewrite lookup_insert_eq|rewrite lookup_insert_ne by done; by apply wm_counts].
  intros [= <-]. unfold count_of in Hb. destruct (ma_updates m !! path) as [c|] eqn:E; cbn in Hb; [|lia].
  pose proof (wm_counts m Hw _ _ E). unfold u32. rewrite Z.mod_small; lia.
Qed.

Lemma unmask_spec m path :
  wf_masks m →
  match unmask m path with
  | Some (events, m') => events = count_of m path ∧ 0 < count_of m path ∧ wf_masks m' ∧
      ∀ path', count_of m' path' = count_of m path' - if decide (path = path') then 1 else 0
  | None => count_of m path = 0
  end.
Proof.
  intros Hw. unfold unmask, count_of. destruct (ma_updates m !! path) as [c|] eqn:E.
  - destruct (wm_deadline m Hw) as [d Hd]; [intros Hn; by rewrite Hn in E|]. rewrite Hd. pose proof (wm_counts m Hw _ _ E) as Hc.
    assert (u32 (c - 1) = c - 1) as -> by (unfold u32; apply Z.mod_small; lia). split; [done|]. split; [cbn; lia|].
    destruct (Z.eqb_spec (c - 1) 0) as [Hz|Hz]; (split; [split; cbn [ma_updates ma_deadline]; [|done]|]).
    + intros p c' [_ Hp]%lookup_delete_Some. by eapply wm_counts.
    + intros p. cbn [ma_updates]. destruct (decide (path = p)) as [<-|]; [rewrite lookup_delete_eq, E; cbn; lia|]. rewrite lookup_delete_ne by done. lia.
    + intros p c'. destruct (decide (path = p)) as [<-|]; [rewrite lookup_insert_eq; intros [= <-]; lia|]. rewrite lookup_insert_ne by done. by apply wm_counts.
    + intros p. cbn [ma_updates]. destruct (decide (path = p)) as [<-|]; [rewrite lookup_insert_eq, E; cbn; lia|]. rewrite lookup_insert_ne by done. lia.
  - by destruct (ma_deadline m).
Qed.

(** An announcement names a previous path that is masked as well. *)
Definition renames (prev_path : bytes) : bool := negb (bool_decide (prev_path = [])) && negb (is_temporal prev_path).

(** What an announcement adds to the number of a path. *)
Definition added (path prev_path p : bytes) : Z :=
  (if decide (path = p) then 1 else 0) + (if renames prev_path && bool_decide (prev_path = p) then 1 else 0).

(** It comes when the next expiry has another deadline. *)
Definition is_late (until : option Z) (deadline : Z) : bool :=
  negb (bool_decide (until = None)) && negb (bool_decide (until = Some deadline)).

(** The lambda [insert] for both paths. *)
Definition add_masks (m : masks) (path prev_path : bytes) (counter : Z) : masks :=
  let m := add_mask m path counter in if renames prev_path then add_mask m prev_path counter else m.

Lemma add_masks_spec m path prev counter d :
  wf_masks m → 0 < counter → (renames prev = true → counter = 1) → ma_deadline m = Some d →
  count_of m path + counter + 1 < 2 ^ 32 → count_of m prev + counter + 1 < 2 ^ 32 →
  wf_masks (add_masks m path prev counter) ∧ ma_deadline (add_masks m path prev counter) = Some d ∧
  ∀ p, count_of (add_masks m path prev counter) p =
    count_of m p + added path prev p + if decide (path = p) then counter - 1 else 0.
Proof.
  intros Hw Hc Hr Hd Hb Hb'. unfold add_masks, added.
  pose proof (add_mask_wf m path counter d Hw Hc ltac:(lia) Hd) as Hw1.
  pose proof (add_mask_count m path counter) as Hc1. destruct (renames prev); cbn [andb].
  - rewrite (Hr eq_refl) in *. assert (count_of (add_mask m path 1) prev + 1 < 2 ^ 32) as Hb2 by (rewrite Hc1 by (done || lia); destruct (decide _); lia).
    split; [by eapply add_mask_wf; [|lia| |]|]. split; [done|]. intros p. rewrite add_mask_count, Hc1 by (done || lia).
    destruct (decide (path = p)), (decide (prev = p)) as [Hp|Hp]; rewrite ?(bool_decide_eq_true_2 _ Hp), ?(bool_decide_eq_false_2 _ Hp); lia.
  - split; [done|]. split; [done|]. intros p. rewrite Hc1 by (done || lia). destruct (decide (path = p)); lia.
Qed.

(** The set for what is late gets a deadline with its first mask. *)
Definition postponed_set (md : mediator) : masks :=
  match ma_deadline (md_next md) with
  | Some d => if bool_decide (ma_updates (md_postponed md) = ∅) then mkMasks (ma_updates (md_postponed md)) (Some (d + md_interval md)) else md_postponed md
  | None => md_postponed md
  end.

Lemma mask_eq md path prev deadline :
  md_enabled md = true → is_temporal path = false →
  mask md path prev deadline =
    if is_late (ma_deadline (md_next md)) deadline then
      mkMediator (md_interval md) (mkMasks (delete path (ma_updates (md_next md))) (ma_deadline (md_next md)))
        (add_masks (postponed_set md) path prev (u32 (1 + count_of (md_next md) path))) true
    else mkMediator (md_interval md) (add_masks (mkMasks (ma_updates (md_next md)) (Some deadline)) path prev 1) (md_postponed md) true.
Proof.
  intros He Ht. destruct md as [interval [un dn] postponed en]; cbn in He; subst en. unfold mask. cbn [md_enabled negb]. rewrite Ht.
  unfold is_late, postponed_set, count_of. cbn [md_next md_interval md_postponed ma_deadline ma_updates]. destruct dn as [nd|].
  - rewrite (bool_decide_eq_false_2 (Some nd = None)) by done. cbn [negb andb]. case_bool_decide as Hd; cbn [negb]; [by injection Hd as ->|].
    destruct (un !! path) as [c|] eqn:E; [done|]. by rewrite delete_id.
  - rewrite (bool_decide_eq_true_2 (None = None)), (bool_decide_eq_false_2 (None = Some deadline)) by done. done.
Qed.

Lemma postponed_set_spec md deadline :
  wf_masks (md_postponed md) → is_late (ma_deadline (md_next md)) deadline = true →
  wf_masks (postponed_set md) ∧ (∃ d, ma_deadline (postponed_set md) = Some d) ∧
  ∀ p, count_of (postponed_set md) p = count_of (md_postponed md) p.
Proof.
  intros Hp. unfold postponed_set, is_late. destruct (ma_deadline (md_next md)) as [nd|]; [intros _|by rewrite bool_decide_eq_true_2].
  case_bool_decide as Hem; [split; [split; [apply Hp|done]|split; [by eexists|done]]|].
  split; [done|]. split; [|done]. destruct (wm_deadline _ Hp Hem) as [d ?]. by exists d.
Qed.

Lemma count_delete m path d p : count_of (mkMasks (delete path (ma_updates m)) d) p = if decide (path = p) then 0 else count_of m p.
Proof.
  unfold count_of. cbn [ma_updates]. destruct (decide (path = p)) as [<-|]; [by rewrite lookup_delete_eq|by rewrite lookup_delete_ne].
Qed.

Lemma mask_spec md path prev deadline :
  wf_mediator md → md_enabled md = true → is_temporal path = false → (∀ p, masked md p + 2 < 2 ^ 32) →
  (renames prev = true → is_late (ma_deadline (md_next md)) deadline = true → masked md path = 0) →
  wf_mediator (mask md path prev deadline) ∧ md_enabled (mask md path prev deadline) = true ∧
  (∀ p, masked (mask md path prev deadline) p = masked md p + added path prev p) ∧
  ma_deadline (md_next (mask md path prev deadline)) =
    (if is_late (ma_deadline (md_next md)) deadline then ma_deadline (md_next md) else Some deadline) ∧
  (∀ p, count_of (md_next (mask md path prev deadline)) p =
     if is_late (ma_deadline (md_next md)) deadline then if decide (path = p) then 0 else count_of (md_next md) p
     else count_of (md_next md) p + added path prev p).
Proof.
  intros [Hn Hp] He Ht Hb Hr. rewrite mask_eq by done. unfold masked in *.
  assert (∀ p, 0 <= count_of (md_next md) p ∧ 0 <= count_of (md_postponed md) p) as Hpos.
  { intros p. pose proof (count_bounds _ p Hn). pose proof (count_bounds _ p Hp). lia. }
  pose proof (Hb path) as Hb1. pose proof (Hpos path) as Hp1. pose proof (Hb prev) as Hb2. pose proof (Hpos prev) as Hp2.
  destruct (is_late _ deadline) eqn:El.
  - destruct (postponed_set_spec md deadline Hp El) as (Htw & [d Htd] & Htc).
    assert (u32 (1 + count_of (md_next md) path) = 1 + count_of (md_next md) path) as -> by (unfold u32; apply Z.mod_small; lia).
    assert (renames prev = true → count_of (md_next md) path = 0) as Hz by (intros H; specialize (Hr H eq_refl); lia).
    set (c := count_of (md_next md) path) in *.
    assert (wf_masks (add_masks (postponed_set md) path prev (1 + c)) ∧ ∀ p, count_of (add_masks (postponed_set md) path prev (1 + c)) p =
      count_of (md_postponed md) p + added path prev p + if decide (path = p) then c else 0) as [Hw Hc].
    { destruct (renames prev) eqn:Er.
      - rewrite (Hz eq_refl). destruct (add_masks_spec (postponed_set md) path prev (1 + 0) d) as (Hw & _ & Hc); try (done || rewrite Htc; lia).
        split; [done|]. intros p. rewrite Hc, Htc. destruct (decide _); lia.
      - assert (add_masks (postponed_set md) path prev (1 + c) = add_mask (postponed_set md) path (1 + c)) as -> by (unfold add_masks; by rewrite Er).
        split; [eapply add_mask_wf; [done|lia|rewrite Htc; lia|done]|]. intros p. rewrite add_mask_count, Htc by (done || rewrite ?Htc; lia).
        unfold added. rewrite Er. cbn [andb]. destruct (decide _); lia. }
    split_and!; [split; [|exact Hw]|done| |done|]; cbn [md_next md_postponed].
    + split; cbn [ma_updates ma_deadline]; [intros p c' [_ Hl]%lookup_delete_Some; by apply (wm_counts _ Hn p)|].
      intros _. unfold is_late in El. destruct (ma_deadline (md_next md)); [eauto|by rewrite bool_decide_eq_true_2 in El].
    + intros p. rewrite count_delete, Hc. unfold c. destruct (decide (path = p)) as [<-|]; lia.
    + intros p. by rewrite count_delete.
  - set (m := mkMasks _ (Some deadline)). assert (wf_masks m) as Hm by (split; [apply Hn|done]).
    assert (∀ p, count_of m p = count_of (md_next md) p) as Hmc by done.
    destruct (add_masks_spec m path prev 1 deadline) as (Hw & Hd' & Hc); try (done || rewrite Hmc; lia).
    split_and!; [by split|done| |done|]; intros p; cbn [md_next md_postponed]; rewrite Hc, Hmc; destruct (decide _); lia.
Qed.

Lemma is_masked_spec md path :
  wf_mediator md →
  let '(events, md') := is_masked md path in
  wf_mediator md' ∧ md_enabled md' = md_enabled md ∧ (events ≠ 0 ↔ 0 < masked md path) ∧
  (∀ path', masked md' path' = masked md path' - if decide (path = path') then Z.min 1 (masked md path) else 0) ∧
  ma_deadline (md_next md') = ma_deadline (md_next md) ∧ ∀ p, count_of (md_next md') p <= count_of (md_next md) p.
Proof.
  intros [Hn Hp]. unfold is_masked, masked. pose proof (unmask_spec (md_postponed md) path Hp) as Hup. pose proof (unmask_spec (md_next md) path Hn) as Hun.
  pose proof (count_bounds _ path Hn). pose proof (count_bounds _ path Hp).
  destruct (unmask (md_postponed md) path) as [[ev m]|].
  - destruct Hup as (-> & Hpos & Hw & Hc). split_and!; [by split|done|lia| |done|done]. intros p. cbn [md_next md_postponed]. rewrite Hc. destruct (decide (path = p)) as [<-|]; lia.
  - destruct (unmask (md_next md) path) as [[ev m]|] eqn:Eu.
    + destruct Hun as (-> & Hpos & Hw & Hc). split_and!; [by split|done|lia| | |].
      * intros p. cbn [md_next md_postponed]. rewrite Hc. destruct (decide (path = p)) as [<-|]; lia.
      * unfold unmask in Eu. destruct (ma_deadline (md_next md)) eqn:Ed, (ma_updates (md_next md) !! path); [|done..]. injection Eu as _ <-. by rewrite <- Ed.
      * intros p. cbn [md_next]. rewrite Hc. destruct (decide _); lia.
    + split_and!; [by split|done|lia| |done|done]. intros p. destruct (decide (path = p)); lia.
Qed.

(** What reaches the mediator: an operation of the daemon on a path, from a previous path when it renames, an event of the
    system, and the timer. *)
Inductive mask_op := Masks (path prev_path : bytes) (deadline : Z) | Event (path : bytes) | Expire.

(** The answers: is the event masked? *)
Fixpoint run_masks (ops : list mask_op) (md : mediator) : list bool :=
  match ops with
  | [] => []
  | Masks path prev_path deadline :: ops => run_masks ops (mask md path prev_path deadline)
  | Event path :: ops => let '(events, md) := is_masked md path in negb (events =? 0) :: run_masks ops md
  | Expire :: ops => run_masks ops (clean_expired md).1
  end.

(** The specification: a number per path, the deadline [until] of the next expiry, and the paths [renewed] that were announced
    for after it. An operation counts for its path and for the previous one; an event uses one up; an
    expiry drops some, but none of a renewed path. Nothing is promised after a late rename to a path that has masks. *)
Fixpoint run_counts (ops : list mask_op) (counts : bytes → Z) (until : option Z) (renewed : gset bytes) (answers : list bool) : Prop :=
  match ops with
  | [] => answers = []
  | Masks path prev deadline :: ops =>
      if is_temporal path then run_counts ops counts until renewed answers
      else
        let late := is_late until deadline in
        (renames prev = true → late = true → counts path = 0) →
        run_counts ops (λ p, counts p + added path prev p) (if late then until else Some deadline)
          (if late then {[path]} ∪ renewed else renewed ∖ {[path; prev]}) answers
  | Event path :: ops =>
      ∃ rest, answers = (0 <? counts path) :: rest ∧
        run_counts ops (λ p, counts p - if decide (path = p) then Z.min 1 (counts path) else 0) until renewed rest
  | Expire :: ops =>
      ∃ kept until', (∀ p, 0 <= kept p <= counts p) ∧ (∀ p, p ∈ renewed → kept p = counts p) ∧
        run_counts ops kept until' ∅ answers
  end.

Lemma run_counts_ext ops : ∀ c c' until renewed answers,
  (∀ p, c p = c' p) → run_counts ops c until renewed answers → run_counts ops c' until renewed answers.
Proof.
  induction ops as [|[path prev d|path|] ops IH]; intros c c' until renewed answers Hc; cbn [run_counts]; [done| | |].
  - destruct (is_temporal path); [by apply IH|]. intros H Hr. eapply IH; [|apply H; intros ? ?; rewrite Hc; by apply Hr]. intros p. cbv beta. by rewrite Hc.
  - intros (rest & -> & H). exists rest. split; [by rewrite Hc|]. eapply IH; [|exact H]. intros p. cbv beta. by rewrite !Hc.
  - intros (kept & until' & Hk & Hr & H). exists kept, until'. split_and!; [|intros p Hp; by rewrite <- Hc; apply Hr|done]. intros p. rewrite <- Hc. apply Hk.
Qed.

Lemma mask_ignored md path prev d : is_temporal path = true → mask md path prev d = md.
Proof. intros Ht. unfold mask. rewrite Ht. by destruct (negb _). Qed.

Lemma added_bounds path prev p : 0 <= added path prev p <= 2.
Proof. unfold added. destruct (decide _), (_ && _); lia. Qed.

Lemma masked_nonneg md p : wf_mediator md → 0 <= count_of (md_next md) p ∧ 0 <= masked md p.
Proof. intros [Hn Hp]. pose proof (count_bounds _ p Hn). pose proof (count_bounds _ p Hp). unfold masked. lia. Qed.

Lemma run_masks_counts ops : ∀ md renewed,
  wf_mediator md → md_enabled md = true → (∀ p, p ∈ renewed → count_of (md_next md) p = 0) →
  (∀ p, masked md p + 2 * Z.of_nat (length ops) < 2 ^ 32) →
  run_counts ops (masked md) (ma_deadline (md_next md)) renewed (run_masks ops md).
Proof.
  induction ops as [|[path prev d|path|] ops IH]; intros md renewed Hw He Hr Hb; cbn [run_masks run_counts]; [done| | |]; cbn [length] in Hb.
  - destruct (is_temporal path) eqn:Ht; [rewrite mask_ignored by done; apply IH; try done; intros p; specialize (Hb p); lia|].
    intros Hf. destruct (mask_spec md path prev d Hw He Ht ltac:(intros p; specialize (Hb p); lia) Hf) as (Hw' & He' & Hm & Hd & Hc).
    rewrite <- Hd. eapply run_counts_ext; [exact Hm|]. apply IH; [done|done| |].
    + intros p Hp. rewrite Hc. destruct (is_late _ d).
      * destruct (decide (path = p)); [done|]. apply Hr. set_solver.
      * rewrite Hr by set_solver. unfold added. rewrite decide_False, bool_decide_eq_false_2, andb_false_r by set_solver. done.
    + intros p. rewrite Hm. specialize (Hb p). pose proof (added_bounds path prev p). lia.
  - pose proof (is_masked_spec md path Hw) as Hs. destruct (is_masked md path) as [events md']. destruct Hs as (Hw' & He' & Hev & Hm & Hd & Hn).
    eexists. split; [f_equal|].
    + destruct (Z.eqb_spec events 0), (Z.ltb_spec 0 (masked md path)); try done; exfalso; naive_solver lia.
    + rewrite <- Hd. eapply run_counts_ext; [exact Hm|]. apply IH; [done|congruence| |].
      * intros p Hp%Hr. specialize (Hn p). pose proof (masked_nonneg md' p Hw'). lia.
      * intros p. rewrite Hm. specialize (Hb p). pose proof (masked_nonneg md path Hw). destruct (decide (path = p)); lia.
  - exists (count_of (md_postponed md)), (ma_deadline (md_postponed md)).
    assert (∀ p, 0 <= count_of (md_postponed md) p) as Hp by (intros p; apply count_bounds, Hw).
    split_and!.
    + intros p. pose proof (masked_nonneg md p Hw). specialize (Hp p). unfold masked in *. lia.
    + intros p Hp'%Hr. unfold masked. lia.
    + assert (∀ p, masked (clean_expired md).1 p = count_of (md_postponed md) p) as Hm.
      { intros p. unfold masked. cbn [clean_expired fst md_next md_postponed]. unfold count_of at 2. cbn [ma_updates]. rewrite lookup_empty. cbn. lia. }
      eapply run_counts_ext; [exact Hm|]. apply IH; [split; [apply Hw|by split; cbn]|done|set_solver|].
      intros p. rewrite Hm. specialize (Hb p). pose proof (masked_nonneg md p Hw). unfold masked in *. lia.
Qed.


(** A file that is written twice, the second time after the deadline of the first, one that is renamed, an expiry. *)
Definition w_ops : list mask_op :=
  [Masks (chars "a") [] 1; Masks (chars "a") [] 2; Masks (chars "c") (chars "b") 1; Event (chars "b"); Expire;
   Event (chars "a"); Event (chars "a"); Event (chars "a"); Event (chars "c")].


(** A rename: the previous path gets the masks that the path had before. *)
Lemma rename_masks_too_much :
  let md := mask (mask (mask (new_mediator 5 true) (chars "b") [] 1) (chars "b") [] 1) (chars "b") (chars "a") 2 in
  masked md (chars "a") = 3 ∧ masked md (chars "b") = 3.
Proof. by vm_compute. Qed.

(** ** The assertion on changes *)

(** Only what has no previous path may be new or have new content. *)
Definition update_ok (u : file_update) : Prop := u_prev_path u = [] ∨ has_bits (u_type u) CONTENT_LIKE = false.

Definition updates_ok (m : file_updates) : Prop := map_Forall (λ _, update_ok) m.

Lemma has_bits_sub t a b : Z.land b a = a → has_bits t a = true → has_bits t b = true.
Proof.
  unfold has_bits. rewrite !negb_true_iff, !Z.eqb_neq. intros Hab Ha Hb. apply Ha. by rewrite <- Hab, Z.land_assoc, Hb.
Qed.

Lemma emplace_ok m path u : updates_ok m → update_ok u → updates_ok (emplace m path u).
Proof. intros Hm Hu. unfold emplace. destruct (m !! path); [done|]. by apply map_Forall_insert_2. Qed.

Lemma erase_from_ok in_source key target source :
  updates_ok target → updates_ok source →
  updates_ok (erase_from in_source key target source).1 ∧ updates_ok (erase_from in_source key target source).2.
Proof. intros Ht Hs. destruct in_source; cbn; split; try done; by apply map_Forall_delete. Qed.

(** An event for a path whose record was renamed and then deleted. *)
Definition revives (prev new : file_update) : Prop :=
  u_prev_path prev ≠ [] ∧ has_bits (u_type prev) META = false ∧ has_bits (u_type new) CONTENT_LIKE = true.

Lemma merge_update_ok target source in_source key prev path new :
  updates_ok target → updates_ok source → update_ok prev → (u_prev_path new ≠ [] → u_type new = META) → ¬ revives prev new →
  updates_ok (merge_update target source in_source key prev path new).1.1 ∧
  updates_ok (merge_update target source in_source key prev path new).1.2.
Proof.
  intros Ht Hs Hp Hn Hr. unfold merge_update. destruct (_ && _ && _); [done|].
  destruct (erase_from_ok in_source key target source Ht Hs) as [Het Hes]. destruct (erase_from in_source key target source) as [t s]. cbn [fst snd] in *.
  assert (∀ del, updates_ok (emplace (emplace t del (mkUpdate [] DELETED (u_requires_refinement prev))) path (mkUpdate [] CREATED_1 (u_requires_refinement new)))) as Hsplit.
  { intros del. by do 2 (apply emplace_ok; [|by left]). }
  destruct (_ && negb _) eqn:E1; [split; [apply Hsplit|done]|].
  destruct (_ && _ && has_bits _ CONTENT_LIKE) eqn:E2; [split; [apply Hsplit|done]|]. cbn [fst snd]. split; [|done].
  apply emplace_ok; [done|]. case_bool_decide as Hpp.
  - (* the previous path is that of the event *)
    destruct (decide (u_prev_path new = [])) as [|Hne]; [by left|right]. cbn [u_type]. rewrite (Hn Hne) in *.
    change (has_bits META META) with true in *. rewrite andb_true_r in *. rewrite bool_decide_eq_false_2 in E1 by done. cbn [negb] in E1.
    rewrite ?andb_true_r in E1. rewrite E1. destruct (has_bits (u_type prev) CREATED_1) eqn:E3; [|done].
    by rewrite (has_bits_sub _ CREATED_1 CONTENT_LIKE) in E1.
  - (* that of the record *)
    right. cbn [u_type]. destruct Hp as [?|Hp]; [done|]. rewrite Hp in *. cbn [andb] in *.
    destruct (has_bits (u_type prev) CREATED_1) eqn:E3; [by rewrite (has_bits_sub _ CREATED_1 CONTENT_LIKE) in Hp|].
    destruct (has_bits (u_type new) CONTENT_LIKE) eqn:E4; [|done]. destruct (has_bits (u_type prev) META) eqn:E5; [|by destruct Hr].
    by rewrite andb_true_r in E2.
Qed.

(** Only a metadata change has a previous path. Every event, merged into whatever records are pending, leaves records for which
    the assertion of a change holds, unless it creates or changes a path that was renamed and deleted before; and from
    such records, for any answers of the disk and any masks, the changes are made without tripping it. *)
Theorem changes_respect_assertion (disk : bytes → option disk_entry) (accept : bytes → file_update → disk_entry → bool)
    (md : mediator) (folder_path : bytes) (target source : file_updates) (path prev_path : bytes) (type : update_type) (refinement : bool) :
  updates_ok target → updates_ok source → (prev_path ≠ [] → type = meta) →
  (∀ prev, (prev ∈ [target !! path; target !! prev_path; source !! path; source !! prev_path]) → ∀ u, prev = Some u →
     ¬ revives u (mkUpdate prev_path (match type with created => CREATED_1 | t => type_bits t end) refinement)) →
  let '(target', source', _) := update_event target source path type prev_path refinement in
  updates_ok target' ∧ updates_ok source' ∧
  (map_Forall (λ p _, Z.of_nat (length (full_name folder_path p)) < SS_PATH_MAX) target' →
   ∃ r, make_files disk accept md folder_path (in_order target') = Ok r).
Proof.
  intros Ht Hs Htype Hrev. unfold update_event. set (new := mkUpdate prev_path _ refinement) in *.
  assert (u_prev_path new ≠ [] → u_type new = META) as Hn by (cbn; intros ->%Htype; done).
  assert (updates_ok (update_record target source path new).1.1 ∧ updates_ok (update_record target source path new).1.2) as [Ht' Hs'].
  { unfold update_record. change (u_prev_path new) with prev_path in *.
    destruct (target !! path) as [u|] eqn:E1; [apply merge_update_ok; try done; [by apply (Ht path)|by apply (Hrev (Some u)); [set_solver|]]|].
    destruct (target !! prev_path) as [u|] eqn:E2; [apply merge_update_ok; try done; [by apply (Ht prev_path)|by apply (Hrev (Some u)); [set_solver|]]|].
    destruct (source !! path) as [u|] eqn:E3; [apply merge_update_ok; try done; [by apply (Hs path)|by apply (Hrev (Some u)); [set_solver|]]|].
    destruct (source !! prev_path) as [u|] eqn:E4; [apply merge_update_ok; try done; [by apply (Hs prev_path)|by apply (Hrev (Some u)); [set_solver|]]|].
    split; [|done]. apply emplace_ok; [done|]. destruct (decide (u_prev_path new = [])) as [|Hne]; [by left|right]. by rewrite (Hn Hne). }
  destruct (update_record target source path new) as [[target' source'] b]. cbn [fst snd] in *. split_and!; [done|done|]. intros Hlen.
  assert (∀ l md, Forall (λ pu, target' !! pu.1 = Some pu.2) l → ∃ r, make_files disk accept md folder_path l = Ok r) as Hall.
  { clear md. induction l as [|[p u] l IH]; intros md Hl; cbn [make_files]; [by eexists|]. apply Forall_cons in Hl as [Hpu Hl]. cbn in Hpu.
    rewrite (proj2 (Z.ltb_lt _ _) (Hlen p u Hpu)). cbn [assert res_bind]. destruct (is_masked md (full_name folder_path p)) as [ev md'].
    destruct (IH md' Hl) as [[md'' cs] Hr]. rewrite Hr.
    assert (∃ c, (if negb (ev =? 0) then Ok None else make_one disk accept folder_path p u) = Ok c) as [c ->].
    { destruct (negb (ev =? 0)); [by eexists|]. specialize (Ht' p u Hpu). unfold make_one, make_change.
      destruct (has_bits (u_type u) DELETED).
      - destruct (has_bits (u_type u) CREATED_1); [by eexists|]. case_bool_decide as Hpp.
        + rewrite Hpp. by eexists.
        + by eexists.
      - destruct (disk _) as [entry|]; [|by eexists]. destruct (negb _); [by eexists|].
        assert (bool_decide (u_prev_path u = []) || bool_decide ((if has_bits (u_type u) (Z.lor CREATED CREATED_1) then created
          else if has_bits (u_type u) CONTENT then content_changed else meta) = meta) = true) as Hassert.
        { destruct Ht' as [->|Hc]; [done|]. destruct (has_bits (u_type u) (Z.lor CREATED CREATED_1)) eqn:E1;
            [by rewrite (has_bits_sub _ (Z.lor CREATED CREATED_1) CONTENT_LIKE) in Hc|].
          destruct (has_bits (u_type u) CONTENT) eqn:E2; [by rewrite (has_bits_sub _ CONTENT CONTENT_LIKE) in Hc|]. by rewrite orb_true_r. }
        rewrite Hassert. destruct entry; by eexists. }
    cbn [res_bind]. by eexists. }
  apply Hall. apply Forall_forall. intros [p u] Hin. unfold in_order in Hin. rewrite merge_sort_Permutation in Hin. by apply elem_of_map_to_list in Hin.
Qed.

Example changes_respect_assertion_witness :
  let '(target', source', _) :=
    update_event {[ chars "b" := mkUpdate (chars "a") META false ]} ∅ (chars "b") content_changed [] false in
  updates_ok target' ∧ updates_ok source' ∧
  (map_Forall (λ p _, Z.of_nat (length (full_name (chars "/f") p)) < SS_PATH_MAX) target' →
   ∃ r, make_files (λ _, Some (Regular 420 1 2)) (λ _ _ _, true) (new_mediator 5 true) (chars "/f") (in_order target') = Ok r).
Proof.
  apply (changes_respect_assertion (λ _, Some (Regular 420 1 2)) (λ _ _ _, true) (new_mediator 5 true) (chars "/f")
    {[ chars "b" := mkUpdate (chars "a") META false ]} ∅ (chars "b") [] content_changed false).
  - apply map_Forall_singleton. by right.
  - apply map_Forall_empty.
  - done.
  - intros prev Hin u ->. rewrite !elem_of_cons, elem_of_nil in Hin. vm_compute in Hin.
    destruct Hin as [[= ->]|[[=]|[[=]|[[=]|[]]]]]. by intros (_ & ? & _).
Defined.

(** [a] is renamed to [b], [b] is deleted, and created anew: the assertion trips. *)
Definition renamed_deleted_created : file_updates :=
  let '(m, _, _) := update_event ∅ ∅ (chars "b") meta (chars "a") false in
  let '(m, _, _) := update_event m ∅ (chars "b") deleted [] false in
  let '(m, _, _) := update_event m ∅ (chars "b") created [] false in m.

Lemma rename_delete_create_trips :
  make_files (λ _, Some (Regular 420 1 2)) (λ _ _ _, true) (new_mediator 5 true) (chars "/f") (in_order renamed_deleted_created) = Ub.
Proof. by vm_compute. Qed.

(** The record of the folder itself has the path that records without a previous path look for: it is lost. *)
Lemma root_update_is_lost :
  let '(m, _, _) := update_event ∅ ∅ [] meta [] false in
  let '(m, _, _) := update_event m ∅ (chars "a") content_changed [] false in
  m !! [] = None ∧ m !! chars "a" = Some (mkUpdate [] CONTENT false).
Proof. by vm_compute. Qed.

(** Changes are pending of a folder that is no longer watched. *)
Lemma unwatched_folder_throws :
  let w := mkWatcher 5 (mkBulk None []) (mkBulk None []) in
  let '(w, _) := push w 7 (chars "f") (chars "a") [] content_changed false in
  on_retension_finish (λ _, None) (λ _ _ _, true) ∅ (new_mediator 5 true) 8 w = Ub.
Proof. by vm_compute. Qed.

(** ** Events of one path *)

(** An event without a previous path touches its own record only: it ends in the set of the event, every other
    path keeps its record. *)
Lemma update_event_local target source path type refinement :
  path ≠ [] → target !! [] = None → source !! [] = None →
  (∀ p u, target !! p = Some u ∨ source !! p = Some u → u_prev_path u ≠ path) →
  let '(target', source', recorded) := update_event target source path type [] refinement in
  recorded = true ∧ is_Some (target' !! path) ∧ source' !! [] = None ∧
  ((∀ p u, p = path → (target !! p = Some u ∨ source !! p = Some u) → u_prev_path u = []) →
   target' !! [] = None ∧ ∀ p, p ≠ path → target' !! p = target !! p ∧ source' !! p = source !! p).
Proof.
  intros Hp Ht0 Hs0 Hpp. unfold update_event, update_record. cbn [u_prev_path]. rewrite Ht0, Hs0.
  assert (∀ in_source prev, (if in_source : bool then source else target) !! path = Some prev →
    (in_source = true → target !! path = None) →
    let '(target', source', recorded) := merge_update target source in_source path prev path
      (mkUpdate [] (match type with created => CREATED_1 | t => type_bits t end) refinement) in
    recorded = true ∧ is_Some (target' !! path) ∧ source' !! [] = None ∧
    ((∀ p u, p = path → (target !! p = Some u ∨ source !! p = Some u) → u_prev_path u = []) →
     target' !! [] = None ∧ ∀ p, p ≠ path → target' !! p = target !! p ∧ source' !! p = source !! p)) as Hmerge.
  { intros in_source prev Hprev Hno.
    assert (u_prev_path prev ≠ path) as Hne by (apply (Hpp path); destruct in_source; auto).
    unfold merge_update. rewrite (bool_decide_eq_false_2 (u_prev_path prev = path)) by done. rewrite andb_false_r. cbn [u_prev_path].
    rewrite (bool_decide_eq_true_2 ([] = [])) by done. cbn [negb]. rewrite !andb_false_r.
    assert (∀ t s, (t, s) = erase_from in_source path target source →
      t !! path = None ∧ s !! [] = None ∧ t !! [] = None ∧ ∀ p, p ≠ path → t !! p = target !! p ∧ s !! p = source !! p) as Herase.
    { intros t s. destruct in_source; cbn [erase_from]; intros [= -> ->].
      - split_and!; [by apply Hno|by rewrite lookup_delete_ne by done|done|]. intros p Hpn. by rewrite lookup_delete_ne by done.
      - split_and!; [by rewrite lookup_delete_eq|done|by rewrite lookup_delete_ne by done|]. intros p Hpn. by rewrite lookup_delete_ne by done. }
    destruct (erase_from in_source path target source) as [t s]. destruct (Herase t s eq_refl) as (Htp & Hs & Ht & Hoth).
    assert (∀ u, emplace t path u = <[path := u]> t) as Hem by (intros u; unfold emplace; by rewrite Htp).
    destruct (_ && _ && has_bits _ CONTENT_LIKE) eqn:E2.
    - split_and!; [done| |done|].
      + unfold emplace at 1. destruct (emplace t (u_prev_path prev) _ !! path) eqn:E; [by rewrite E|by rewrite lookup_insert_eq].
      + intros Hnp. rewrite (Hnp path prev eq_refl) in E2; [|destruct in_source; auto].
        rewrite bool_decide_eq_true_2 in E2 by done. cbn [negb] in E2. by rewrite andb_false_r in E2.
    - rewrite Hem. split_and!; [done|by rewrite lookup_insert_eq|done|]. intros _. split; [by rewrite lookup_insert_ne by done|].
      intros p Hpn. rewrite lookup_insert_ne by done. by apply Hoth. }
  destruct (target !! path) as [prev|] eqn:E1; [by apply (Hmerge false prev)|].
  destruct (source !! path) as [prev|] eqn:E3; [by apply (Hmerge true prev)|].
  unfold emplace. rewrite E1. split_and!; [done|by rewrite lookup_insert_eq|done|]. intros _.
  split; [by rewrite lookup_insert_ne by done|]. intros p Hpn. by rewrite lookup_insert_ne by done.
Qed.

(** The events of a path in one interval, the first one first. *)
Definition events_of (path : bytes) (events : list update_type) : file_updates :=
  foldl (λ m t, (update_event m ∅ path t [] false).1.1) ∅ events.

(** How the bits of a record and of an event combine. *)
Definition merged_bits (prev new : Z) : Z :=
  let type := if has_bits prev CONTENT_LIKE && has_bits new META then prev else new in
  if has_bits prev CREATED_1 then Z.lor type CREATED_1 else type.

Definition event_bits (t : update_type) : Z := match t with created => CREATED_1 | t => type_bits t end.

Definition events_bits (events : list update_type) : Z :=
  match events with [] => 0 | t :: events => foldl (λ b t, merged_bits b (event_bits t)) (event_bits t) events end.

Lemma merge_single path b t :
  path ≠ [] →
  (update_event {[ path := mkUpdate [] b false ]} ∅ path t [] false).1.1 = {[ path := mkUpdate [] (merged_bits b (event_bits t)) false ]}.
Proof.
  intros Hp. unfold update_event, update_record. rewrite lookup_singleton_eq. unfold merge_update. cbn [u_prev_path u_type u_requires_refinement].
  rewrite (bool_decide_eq_false_2 ([] = path)) by done. rewrite andb_false_r, (bool_decide_eq_true_2 ([] = [])) by done. cbn [negb].
  rewrite !andb_false_r. cbn [erase_from fst snd andb]. rewrite delete_singleton_eq. unfold emplace. rewrite lookup_empty. cbn [fst snd orb].
  by rewrite insert_empty.
Qed.

Lemma events_of_bits path events :
  path ≠ [] → events ≠ [] → events_of path events = {[ path := mkUpdate [] (events_bits events) false ]}.
Proof.
  intros Hp. induction events as [|t events IH] using rev_ind; [done|]. intros _. unfold events_of. rewrite foldl_app. cbn [foldl].
  destruct events as [|t0 events].
  - cbn [foldl app events_bits]. unfold update_event, update_record. rewrite !lookup_empty. cbn [fst]. unfold emplace. by rewrite lookup_empty.
  - fold (events_of path (t0 :: events)). rewrite IH by done. rewrite merge_single by done. cbn [events_bits app]. by rewrite foldl_app.
Qed.

(** Did an event of the type occur? *)
Definition sees (t : update_type) (events : list update_type) : bool := existsb (λ e, bool_decide (e = t)) events.

Lemma sees_snoc t events e : sees t (events ++ [e]) = sees t events || bool_decide (e = t).
Proof. unfold sees. rewrite existsb_app. cbn [existsb]. by rewrite orb_false_r. Qed.

Definition one_of (b : Z) (l : list Z) : bool := existsb (Z.eqb b) l.

(** What the bits say of the events: which types occurred ([cr], [de], [co]) and which was the last. *)
Definition bits_ok (cr de co : bool) (last : update_type) (b : Z) : bool :=
  one_of b [CREATED_1; DELETED; CREATED_1 + DELETED; META; CONTENT; CREATED_1 + CONTENT] &&
  eqb cr (one_of b [CREATED_1; CREATED_1 + DELETED; CREATED_1 + CONTENT]) &&
  (bool_decide (last = meta) || eqb (bool_decide (last = deleted)) (one_of b [DELETED; CREATED_1 + DELETED])) &&
  (negb (bool_decide (last = content_changed)) || one_of b [CONTENT; CREATED_1 + CONTENT]) &&
  (de || negb (one_of b [DELETED; CREATED_1 + DELETED])) &&
  (de || cr || negb co || (b =? CONTENT)) &&
  (cr || negb (bool_decide (last = created))) && (co || negb (bool_decide (last = content_changed))) &&
  (cr || de || co || (b =? META)).

Lemma bits_ok_step cr de co last b t :
  bits_ok cr de co last b = true →
  bits_ok (cr || bool_decide (t = created)) (de || bool_decide (t = deleted)) (co || bool_decide (t = content_changed)) t
    (merged_bits b (event_bits t)) = true.
Proof.
  intros Hb. assert (one_of b [CREATED_1; DELETED; CREATED_1 + DELETED; META; CONTENT; CREATED_1 + CONTENT] = true) as Hone.
  { unfold bits_ok in Hb. by repeat apply andb_prop in Hb as [Hb _]. }
  unfold one_of in Hone. cbn [existsb] in Hone. rewrite !orb_true_iff, !Z.eqb_eq in Hone.
  destruct Hone as [->|[->|[->|[->|[->|[->|[=]]]]]]]; destruct cr, de, co, last; vm_compute in Hb; try discriminate Hb; by destruct t.
Qed.

Lemma events_bits_ok events last :
  bits_ok (sees created (events ++ [last])) (sees deleted (events ++ [last])) (sees content_changed (events ++ [last])) last
    (events_bits (events ++ [last])) = true.
Proof.
  revert last. induction events as [|t events IH] using rev_ind; intros last; [by destruct last|].
  rewrite !(sees_snoc _ (events ++ [t])).
  assert (events_bits ((events ++ [t]) ++ [last]) = merged_bits (events_bits (events ++ [t])) (event_bits last)) as ->.
  { destruct events as [|e events]; [done|]. cbn [app events_bits]. by rewrite (foldl_app _ (events ++ [t])). }
  eapply bits_ok_step, IH.
Qed.

(** What is sent for the record of a path, when the disk has the file. *)
Definition sent_reason (b : Z) : option update_type :=
  if has_bits b DELETED then if has_bits b CREATED_1 then None else Some deleted
  else Some (if has_bits b (Z.lor CREATED CREATED_1) then created else if has_bits b CONTENT then content_changed else meta).

Lemma make_one_reason disk accept folder_path path b entry :
  disk (full_name folder_path path) = Some entry → accept path (mkUpdate [] b false) entry = true →
  (∀ p, entry ≠ OtherType p) →
  ∃ r, make_one disk accept folder_path path (mkUpdate [] b false) = Ok r ∧ (fc_reason <$> r) = sent_reason b ∧
    ∀ c, r = Some c → fc_name c = path ∧ fc_prev_path c = [].
Proof.
  intros Hd Ha He. unfold make_one, sent_reason. cbn [u_type u_prev_path u_requires_refinement].
  destruct (has_bits b DELETED).
  - destruct (has_bits b CREATED_1); [by eexists|]. rewrite bool_decide_eq_true_2 by done. cbn.
    eexists. split_and!; [done|done|]. by intros c [= <-].
  - rewrite Hd, Ha. cbn [negb]. unfold make_change. rewrite bool_decide_eq_true_2 by done. cbn [orb assert res_bind].
    destruct entry; try (by destruct (He permissions)); (eexists; split_and!; [done|done|]; by intros c [= <-]).
Qed.

(** The events of a file within one interval become one change that tells what happened in sum. A file that was
    created and is gone again is not mentioned; one that is gone is reported as deleted; one that was created and is
    there as created; a change of the content is never reported as one of metadata; and metadata changes alone are. *)
Theorem events_coalesce (disk : bytes → option disk_entry) (accept : bytes → file_update → disk_entry → bool) (folder_path path : bytes)
    (entry : disk_entry) (events : list update_type) (last : update_type) :
  path ≠ [] → disk (full_name folder_path path) = Some entry → (∀ u, accept path u entry = true) → (∀ p, entry ≠ OtherType p) →
  let all := events ++ [last] in
  ∃ u r, events_of path all = {[ path := u ]} ∧ make_one disk accept folder_path path u = Ok r ∧
    (last = deleted → fc_reason <$> r = if sees created all then None else Some deleted) ∧
    (last = created → fc_reason <$> r = Some created) ∧
    (last = content_changed → fc_reason <$> r = Some (if sees created all then created else content_changed)) ∧
    (sees deleted all = false →
       fc_reason <$> r = Some (if sees created all then created else if sees content_changed all then content_changed else meta)).
Proof.
  intros Hp Hd Ha He all. unfold all. rewrite events_of_bits by (done || by intros [_ ?]%app_eq_nil).
  destruct (make_one_reason disk accept folder_path path (events_bits (events ++ [last])) entry Hd (Ha _) He) as (r & Hr & Hreason & _).
  eexists _, r. split; [done|]. split; [done|]. rewrite Hreason. pose proof (events_bits_ok events last) as Hb. revert Hb.
  generalize (sees created (events ++ [last])) (sees deleted (events ++ [last])) (sees content_changed (events ++ [last])) (events_bits (events ++ [last])).
  intros cr de co b Hb. assert (one_of b [CREATED_1; DELETED; CREATED_1 + DELETED; META; CONTENT; CREATED_1 + CONTENT] = true) as Hone.
  { unfold bits_ok in Hb. by repeat apply andb_prop in Hb as [Hb _]. }
  unfold one_of in Hone. cbn [existsb] in Hone. rewrite !orb_true_iff, !Z.eqb_eq in Hone.
  destruct Hone as [->|[->|[->|[->|[->|[->|[=]]]]]]]; destruct cr, de, co, last; vm_compute in Hb; try discriminate Hb;
    split_and!; intros Hx; first [discriminate Hx|vm_compute; reflexivity].
Qed.

Example events_coalesce_witness :
  let all := [created; content_changed; deleted] in
  ∃ u r, events_of (chars "a") all = {[ chars "a" := u ]} ∧
    make_one (λ _, Some (Regular 420 1 2)) (λ _ _ _, true) (chars "/f") (chars "a") u = Ok r ∧
    (deleted = deleted → fc_reason <$> r = if sees created all then None else Some deleted) ∧
    (deleted = created → fc_reason <$> r = Some created) ∧
    (deleted = content_changed → fc_reason <$> r = Some (if sees created all then created else content_changed)) ∧
    (sees deleted all = false →
       fc_reason <$> r = Some (if sees created all then created else if sees content_changed all then content_changed else meta)).
Proof.
  apply (events_coalesce (λ _, Some (Regular 420 1 2)) (λ _ _ _, true) (chars "/f") (chars "a") (Regular 420 1 2) [created; content_changed] deleted);
    [done|done|done|by intros p [=]].
Defined.
