(* ===== verification/ApplyUpdate.v ===== *)
(** * ApplyUpdate: what applying an index update (see UpdateFolder) does to a consistent
    cluster: every file of the update is stored under its name with the metadata and
    the blocks of the message, every other file stays, and the cluster is consistent again. *)

From S2P Require Import Prelude Version Proto Blocks FileInfo FileStore FileMap GenericMap Device Folder BlockMap UpdateFolder.
From Stdlib Require Import Sorted.

(** ** A new file from a message *)

Definition regular (type : FileInfoType) : bool :=
  match type with DIRECTORY | SYMLINK => false | _ => true end.

(** The slots a message asks for. *)
Definition message_slots (f : FileInfo) : nat := if pf_size f =? 0 then 0 else length (pf_blocks f).

(** The file [create] builds. *)
Definition created (uuid fi_uuid : bytes) (f : FileInfo) (v : version) : file_info :=
  mkFile (create_key uuid fi_uuid) (pf_name f) (pf_modified_s f) (pf_modified_by f) (pf_sequence f)
    (pf_permissions f) (u32 (pf_modified_ns f))
    (if regular (pf_type f) then FileContent (replicate (message_slots f) None) else NonFile (pf_symlink_target f))
    v (wire_flags 0 (pf_type f) (pf_deleted f) (pf_invalid f) (pf_no_permissions f)).

Lemma wire_flags_facts type d i np :
  has_flag (wire_flags 0 type d i np) f_type_file = regular type ∧
  has_flag (wire_flags 0 type d i np) f_deleted = d ∧
  clear_flag (wire_flags 0 type d i np) f_available = wire_flags 0 type d i np ∧
  Z.land (wire_flags 0 type d i np) 7 ∈ [f_type_file; f_type_dir; f_type_link].
Proof.
  assert (∀ z, bool_decide (z ∈ [f_type_file; f_type_dir; f_type_link]) = true → z ∈ [f_type_file; f_type_dir; f_type_link])
    as H by (intros z Hz; by apply bool_decide_eq_true in Hz).
  destruct type, d, i, np; (split_and!; [reflexivity..|apply H; reflexivity]).
Qed.

Lemma created_is_file uuid fi_uuid f v : is_file (created uuid fi_uuid f v) = regular (pf_type f).
Proof. apply wire_flags_facts. Qed.

Lemma created_slots uuid fi_uuid f v :
  slots (created uuid fi_uuid f v) = if regular (pf_type f) then replicate (message_slots f) None else [].
Proof. unfold slots, created. cbn [f_content]. by destruct (regular _). Qed.

Lemma repeat_replicate {A} (x : A) n : repeat x n = replicate n x.
Proof. induction n as [|n IH]; [done|]. cbn. by rewrite IH. Qed.

Lemma create_file_eq this uuid fi_uuid f v h :
  pf_name f ≠ [] → version_of_proto (pf_version f) = Ok v →
  create_file this uuid f fi_uuid h = Ok (created uuid fi_uuid f v, h).
Proof.
  intros Hn Hv. unfold create_file, fields_update. rewrite (bool_decide_eq_false_2 _ Hn). cbn [negb assert res_bind].
  rewrite Hv. cbn [res_bind]. unfold content_update, blank_file, is_file. cbn [f_flags f_key f_content with_content].
  destruct (wire_flags_facts (pf_type f) (pf_deleted f) (pf_invalid f) (pf_no_permissions f)) as (Ht & _ & Hc & _).
  rewrite Ht. unfold created, message_slots. destruct (regular (pf_type f)); [|done].
  rewrite andb_true_r. destruct (pf_size f =? 0); cbn [negb]; [done|].
  case_bool_decide as Hl; [|by rewrite Hl].
  unfold reserve_blocks, remove_blocks, is_file. cbn [f_flags with_content]. rewrite Ht. unfold file_blocks. cbn [f_content with_content res_bind length remove_blocks_loop with_flags f_flags].
  rewrite Hc. unfold resize_slots. rewrite take_nil, Nat.sub_0_r. cbn [app].
  by rewrite repeat_replicate.
Qed.

(** A block of the message in the map of blocks. *)
Definition slot_of (known : block_map) (b : BlockInfo) : slot := (λ p, (p, false)) <$> known !! strict b.

Lemma load_blocks_wf known this E bs : ∀ pre σ h f n,
  wf_heap σ E h → σ !! this = Some (pre ++ replicate (length bs) None) →
  f_content f = FileContent (pre ++ replicate (length bs) None) → is_file f = true →
  Z.of_nat (length pre + length bs) < 2 ^ 31 →
  Forall (λ b, short_block b ∧ ∃ p, known !! strict b = Some p ∧ 0 < E p) bs →
  roomy (n + Z.of_nat (length bs)) h → 0 <= n →
  ∃ h', load_blocks known this (length pre) bs f h =
      Ok (with_content f (FileContent (pre ++ map (slot_of known) bs)), h') ∧
    wf_heap (<[this := pre ++ map (slot_of known) bs]> σ) E h' ∧ shrinks h h'.
Proof.
  induction bs as [|b bs IH]; intros pre σ h f n H Hσ Hf Hfile Hlen Hall Hr Hn; cbn [load_blocks map].
  - cbn [length replicate] in Hσ, Hf. exists h. split_and!; [|by rewrite insert_id|done].
    unfold with_content. rewrite <- Hf. by destruct f.
  - apply Forall_cons in Hall as [(Hs & p & Hk & HE) Hall]. cbn [length] in Hlen, Hr.
    rewrite make_strict_hash_short by done. cbn [res_bind]. unfold by_hash. rewrite Hk. cbn [res_bind].
    destruct (h !! p) as [blk|] eqn:Hp; [|destruct (heap_dead _ _ _ H _ Hp); lia].
    cbn [length replicate] in Hσ, Hf.
    destruct (assign_block_wf σ E h this f _ (length pre) p blk (n + Z.of_nat (S (length bs))) H Hσ Hf Hfile)
      as (h1 & -> & H1 & Hr1 & Hs1); try done; [by apply list_lookup_middle|lia|lia|].
    cbn [res_bind]. assert (slot_of known b = Some (p, false)) as Hso by (unfold slot_of; by rewrite Hk).
    assert (<[length pre := Some (p, false)]> (pre ++ (None : slot) :: replicate (length bs) None) =
      (pre ++ [Some (p, false)]) ++ replicate (length bs) None) as Hi.
    { rewrite insert_app_r_alt by lia. rewrite Nat.sub_diag. cbn. by rewrite <- app_assoc. }
    rewrite Hi in H1 |- *.
    destruct (IH (pre ++ [Some (p, false)]) (<[this := (pre ++ [Some (p, false)]) ++ replicate (length bs) None]> σ) h1
      (with_content f (FileContent ((pre ++ [Some (p, false)]) ++ replicate (length bs) None))) n)
      as (h2 & He & H2 & Hs2); try done.
    + apply lookup_insert_eq.
    + rewrite length_app. cbn [length]. lia.
    + intros q c Hq. specialize (Hr1 _ _ Hq). lia.
    + rewrite length_app, Nat.add_1_r in He. rewrite He. exists h2.
      rewrite insert_insert_eq in H2.
      replace (pre ++ slot_of known b :: map (slot_of known) bs) with ((pre ++ [Some (p, false)]) ++ map (slot_of known) bs)
        by (rewrite Hso, <- app_assoc; done).
      split_and!; [done|done|by etrans].
Qed.

(** Blocks are loaded for a regular file that is not deleted and declares a size. *)
Definition loaded (f : FileInfo) : bool :=
  regular (pf_type f) && negb (pf_deleted f) && negb (pf_size f =? 0).

(** What a message must have to be stored: a name, a version, and blocks that are known. *)
Record storable (known : block_map) (f : FileInfo) : Prop := {
  st_name : pf_name f ≠ [];
  st_version : pf_version f ≠ [];
  st_length : Z.of_nat (length (pf_blocks f)) < 2 ^ 31;
  st_blocks : Forall (λ b, short_block b ∧ is_Some (known !! strict b)) (pf_blocks f);
}.

(** The file a round starts with. *)
Definition made (known : block_map) (uuid fi_uuid : bytes) (f : FileInfo) (v : version) : file_info :=
  if loaded f then with_content (created uuid fi_uuid f v) (FileContent (map (slot_of known) (pf_blocks f)))
  else created uuid fi_uuid f v.

Lemma made_length known uuid fi_uuid f v :
  (length (slots (made known uuid fi_uuid f v)) <= length (pf_blocks f))%nat.
Proof.
  unfold made. destruct (loaded f).
  - unfold slots. cbn [with_content f_content]. by rewrite length_map.
  - rewrite created_slots. destruct (regular _); [|cbn; lia]. rewrite length_replicate. unfold message_slots.
    destruct (pf_size f =? 0); lia.
Qed.

Lemma made_is_file known uuid fi_uuid f v : is_file (made known uuid fi_uuid f v) = regular (pf_type f).
Proof. unfold made. destruct (loaded f); apply created_is_file. Qed.

(** The slots of a new file lead to known blocks. *)
Lemma made_known known uuid fi_uuid f v i p :
  (s ← slots (made known uuid fi_uuid f v) !! i; slot_block s) = Some p → ∃ x, known !! x = Some p.
Proof.
  unfold made. destruct (loaded f).
  - unfold slots. cbn [with_content f_content]. change (@map BlockInfo slot) with (@fmap list _ BlockInfo slot).
    rewrite list_lookup_fmap. destruct (pf_blocks f !! i) as [b|]; [|done]. cbn. unfold slot_of.
    destruct (known !! strict b) eqn:Hk; [|done]. cbn. intros [= <-]. eauto.
  - rewrite created_slots. destruct (regular _); [|by destruct i].
    destruct (replicate _ _ !! i) eqn:Hi; [|done]. by apply lookup_replicate in Hi as [-> _].
Qed.

Lemma made_wf_file known uuid fi_uuid f v :
  Z.of_nat (length (pf_blocks f)) < 2 ^ 31 → wf_file (made known uuid fi_uuid f v).
Proof.
  intros Hl. pose proof (made_length known uuid fi_uuid f v). split; [| |lia].
  - unfold made. by destruct (loaded f); apply wire_flags_facts.
  - rewrite made_is_file. unfold made, loaded. destruct (regular (pf_type f)) eqn:Hr; cbn [andb].
    + destruct (negb (pf_deleted f) && negb (pf_size f =? 0)); cbn [with_content f_content]; [by eexists|].
      unfold created. rewrite Hr. by eexists.
    + unfold created. rewrite Hr. by eexists.
Qed.

(** A file without blocks changes nothing for the blocks. *)
Lemma created_heap files E h p uuid fi_uuid f v :
  wf_store files E h → files !! p = None →
  wf_heap (<[p := slots (created uuid fi_uuid f v)]> (slots <$> files)) E h.
Proof.
  intros Hwf Hp. eapply wf_heap_slots; [|apply Hwf]. intros file i. rewrite slot_at_insert. case_bool_decide; [subst|done].
  rewrite created_slots. unfold slot_at. rewrite lookup_fmap, Hp. cbn.
  destruct (regular _); [|done]. destruct (replicate _ _ !! i) eqn:Hi; [|done]. by apply lookup_replicate in Hi as [-> _].
Qed.

Lemma make_file_wf files h known p uuid fi_uuid f v :
  wf_store files (map_refs known) h → files !! p = None → storable known f →
  version_of_proto (pf_version f) = Ok v → roomy (Z.of_nat (length (pf_blocks f))) h →
  ∃ h', make_file known p uuid f fi_uuid h = Ok (made known uuid fi_uuid f v, h') ∧
    wf_store (<[p := made known uuid fi_uuid f v]> files) (map_refs known) h' ∧ shrinks h h'.
Proof.
  intros Hwf Hp [Hn _ Hl Hb] Hv Hr. unfold make_file. rewrite (create_file_eq _ _ _ _ v) by done. cbn [res_bind].
  pose proof (made_wf_file known uuid fi_uuid f v Hl) as Hw.
  pose proof (created_heap files (map_refs known) h p uuid fi_uuid f v Hwf Hp) as Hc.
  assert (is_file (created uuid fi_uuid f v) && negb (is_deleted (created uuid fi_uuid f v)) && negb (pf_size f =? 0) =
    loaded f) as ->.
  { rewrite created_is_file. unfold loaded, is_deleted, created. cbn [f_flags].
    by destruct (wire_flags_facts (pf_type f) (pf_deleted f) (pf_invalid f) (pf_no_permissions f)) as (_ & -> & _). }
  unfold made in Hw |- *. destruct (loaded f) eqn:Hload.
  - apply andb_true_iff in Hload as [[Hreg _]%andb_true_iff Hsz].
    assert (slots (created uuid fi_uuid f v) = replicate (length (pf_blocks f)) None) as Hsl.
    { rewrite created_slots, Hreg. unfold message_slots. by apply negb_true_iff in Hsz as ->. }
    destruct (load_blocks_wf known p (map_refs known) (pf_blocks f) [] _ h (created uuid fi_uuid f v) 0 Hc)
      as (h' & He & H' & Hs'); cbn [app length]; try done.
    + rewrite lookup_insert_eq. by rewrite Hsl.
    + unfold created. cbn [f_content]. rewrite Hreg. unfold message_slots. by apply negb_true_iff in Hsz as ->.
    + by rewrite created_is_file.
    + eapply Forall_impl; [exact Hb|]. intros b [? [q Hq]]. split; [done|]. exists q. split; [done|].
      by rewrite (map_refs_some _ _ _ Hq).
    + exists h'. cbn [length] in He. split_and!; [done| |done]. rewrite insert_insert_eq in H'.
      eapply wf_store_insert; done.
  - exists h. split_and!; [done| |done]. eapply wf_store_insert; done.
Qed.

(** ** Replacing a file by a record of the same kind *)


Lemma non_file_content f : wf_file f → is_file f = false → ∃ t, f_content f = NonFile t.
Proof. intros Hw Hf. pose proof (file_member _ Hw) as Hm. by rewrite Hf in Hm. Qed.

(** What [update] leaves of the record it was given. *)
Record took (prev file f' : file_info) : Prop := {
  took_meta : f' = with_flags (with_content (updated_meta prev file) (f_content f')) (f_flags f');
  took_slots : map slot_block (slots f') = map slot_block (slots file);
  took_flags : ∀ i, 0 <= i < 6 → Z.testbit (f_flags f') i = Z.testbit (f_flags file) i;
  took_avail : is_file file = true → is_locally_available f' = Ok (forallb slot_local (slots f'));
  took_link : is_file file = false → is_link prev = true → is_link file = true → f_content f' = f_content file;
}.

(** [update] between two directories or links touches no block. *)
Lemma update_non_file files E h q prev file :
  wf_store files E h → files !! q = Some prev → wf_file file → is_file prev = false → is_file file = false →
  f_name prev = f_name file → get_uuid prev = get_uuid file →
  ∃ f', update_file q prev h file = Ok (f', h) ∧ wf_store (<[q := f']> files) E h ∧ took prev file f'.
Proof.
  intros Hwf Hq Hwo Hp Hf Hn Hu. pose proof (store_files _ _ _ Hwf q prev Hq) as Hw.
  destruct (non_file_content _ Hw Hp) as [t Ht], (non_file_content _ Hwo Hf) as [t' Ht'].
  set (fl := Z.lor (Z.land (f_flags file) WIRE_FLAGS) (clear_flag (f_flags prev) WIRE_FLAGS)).
  set (c := NonFile (if is_link prev && is_link file then t' else t)).
  set (f' := with_flags (with_content (updated_meta prev file) c) fl).
  assert (slots prev = [] ∧ slots file = []) as [Hsp Hsf] by (unfold slots; by rewrite Ht, Ht').
  exists f'. split_and!.
  - unfold update_file. rewrite Hp, Hf, (bool_decide_eq_true_2 _ Hn), (bool_decide_eq_true_2 _ Hu). cbn [assert res_bind orb negb andb].
    unfold symlink_target. cbn [f_content]. rewrite Ht, Ht'. cbn [res_bind].
    unfold f', c, updated_meta, with_flags, with_content. cbn. destruct (is_link prev && is_link file); cbn; rewrite ?Ht; done.
  - eapply wf_store_insert; [exact Hwf| |].
    + change (slots f') with ([] : list slot). rewrite insert_id; [apply Hwf|]. by rewrite lookup_fmap, Hq, <- Hsp.
    + split; [|rewrite (mixed_file (with_content (updated_meta prev file) c) file : is_file f' = _), Hf; by eexists|done].
      rewrite (mixed_type (with_content (updated_meta prev file) c) file : get_type f' = _). apply Hwo.
  - split; [done|by rewrite Hsf| |by rewrite Hf|intros _ Hl1 Hl2; cbn; unfold c; by rewrite Hl1, Hl2, Ht']. intros i Hi. cbn [f' with_flags f_flags]. unfold fl. rewrite mix_flags_bit by lia.
    by destruct (Z.ltb_spec i 6); [|lia].
Qed.

Lemma update_same_kind files E h q prev p file :
  wf_store files E h → files !! q = Some prev → files !! p = Some file → p ≠ q → is_file prev = is_file file →
  f_name prev = f_name file → get_uuid prev = get_uuid file →
  roomy (Z.of_nat (length (slots prev) + length (slots file))) h →
  ∃ f' h', update_file q prev h file = Ok (f', h') ∧ wf_store (<[q := f']> files) E h' ∧ took prev file f' ∧ shrinks h h'.
Proof.
  intros Hwf Hq Hp Hne Hk Hn Hu Hr. pose proof (store_files _ _ _ Hwf p file Hp) as Hw. destruct (is_file file) eqn:Hf.
  - destruct (update_file_wf files E h q prev p file) as (f' & h' & He & Hw' & Hm & Hb & _ & Hav & Hfl & Hs); try done; [by left|].
    exists f', h'. split_and!; try done. split; try done; [|congruence]. intros i Hi. rewrite Hfl by lia.
    by destruct (Z.ltb_spec i 6); [|lia].
  - destruct (update_non_file files E h q prev file) as (f' & He & Hw' & Ht); try done. by exists f', h.
Qed.

(** ** One round *)

(** The state between two rounds. *)
Record wf_apply (known : block_map) (s : apply_state) : Prop := {
  ap_store : wf_store (ap_files s) (map_refs known) (ap_heap s);
  ap_fi : wf_folder_info (ap_info s);
  ap_entries : ∀ e, e ∈ fi_files (ap_info s) →
    ∃ f, ap_files s !! e_file e = Some f ∧ e = entry_of (e_file e) f;
  ap_uuid : length (fi_get_uuid (ap_info s)) = uuid_length;
}.

(** Storing a file nothing collides with adds its entry and destroys nothing. *)
Lemma store_file_new fi files h p f :
  wf_folder_info fi → fi_max_sequence fi < f_sequence f →
  Forall (λ x, ¬ collides x (entry_of p f)) (fi_files fi) →
  let fi' := with_files fi (f_sequence f) (insert_entry (entry_of p f) (fi_files fi)) in
  store_file fi files h p f = Ok (mkApply fi' (<[p := f]> files) h) ∧ wf_folder_info fi'.
Proof.
  intros [Hm Hb] Hlt Hc. split.
  - unfold store_file, add_strict. change (e_seq (entry_of p f)) with (f_sequence f).
    destruct (Z.ltb_spec (fi_max_sequence fi) (f_sequence f)); [|lia].
    rewrite put_fits; [|done|].
    + unfold put_in. rewrite (filter_all _ _ Hc). cbn [fst with_files fi_files].
      replace (lost_files _ _ _) with ([] : list file_ptr); [done|]. symmetry. unfold lost_files.
      apply filter_none. intros x Hx.
      rewrite elem_of_app, list_elem_of_singleton in Hx.
      assert (x ∈ map e_file (insert_entry (entry_of p f) (fi_files fi))) as Hin; [|tauto].
      apply list_elem_of_fmap. setoid_rewrite insert_entry_elem. destruct Hx as [(y & -> & Hy)%list_elem_of_fmap| ->]; [by eauto|].
      exists (entry_of p f). auto.
    + intros a b Ha _ Hca. rewrite Forall_forall in Hc. by destruct (Hc a Ha).
  - split; [by apply wf_map_insert|]. cbn [with_files fi_files fi_max_sequence]. intros e [->|He]%insert_entry_elem; [done|].
    specialize (Hb e He). lia.
Qed.

Lemma by_name_none m name : by_name m name = None → Forall (λ e, e_name e ≠ name) m.
Proof. unfold by_name. destruct (head _) eqn:He; [done|]. intros _. by apply head_filter_none in He. Qed.

(** The message, as the folder has it afterwards. *)
Record stored (known : block_map) (f : FileInfo) (f' : file_info) : Prop := {
  sd_name : f_name f' = pf_name f;
  sd_sequence : f_sequence f' = pf_sequence f;
  sd_version : version_of_proto (pf_version f) = Ok (f_version f');
  sd_modified : f_modified_s f' = pf_modified_s f ∧ f_modified_ns f' = u32 (pf_modified_ns f) ∧
    f_modified_by f' = pf_modified_by f ∧ f_permissions f' = pf_permissions f;
  sd_flags : ∀ i, 0 <= i < 6 → Z.testbit (f_flags f') i =
    Z.testbit (wire_flags 0 (pf_type f) (pf_deleted f) (pf_invalid f) (pf_no_permissions f)) i;
  sd_blocks : loaded f = true → map slot_block (slots f') = map (λ b, known !! strict b) (pf_blocks f);
  sd_known : ∀ i p, (s ← slots f' !! i; slot_block s) = Some p → ∃ x, known !! x = Some p;
  sd_length : (length (slots f') <= length (pf_blocks f))%nat;
}.

Lemma made_fields known uuid fi_uuid f v :
  made known uuid fi_uuid f v =
    with_content (created uuid fi_uuid f v) (f_content (made known uuid fi_uuid f v)).
Proof. unfold made. by destruct (loaded f). Qed.

Lemma made_blocks known uuid fi_uuid f v :
  loaded f = true → map slot_block (slots (made known uuid fi_uuid f v)) = map (λ b, known !! strict b) (pf_blocks f).
Proof.
  intros H. unfold made. rewrite H. unfold slots. cbn [with_content f_content]. rewrite map_map. apply map_ext.
  intros b. unfold slot_of. by destruct (known !! strict b).
Qed.

Lemma made_stored known uuid fi_uuid f v :
  version_of_proto (pf_version f) = Ok v → stored known f (made known uuid fi_uuid f v).
Proof.
  intros Hv. pose proof (made_fields known uuid fi_uuid f v) as Hm. split.
  1-5: by rewrite Hm.
  - apply made_blocks.
  - apply made_known.
  - apply made_length.
Qed.

Lemma slots_blocks_lookup f i : (s ← slots f !! i; slot_block s) = map slot_block (slots f) !! i ≫= id.
Proof.
  change (@map slot (option block_ptr)) with (@fmap list _ slot (option block_ptr)).
  rewrite list_lookup_fmap. by destruct (slots f !! i).
Qed.

Lemma took_stored known prev f file f' :
  stored known f file → f_name prev = f_name file → took prev file f' → stored known f f'.
Proof.
  intros [H1 H2 H3 H4 H5 H6 H7 H8] Hn [Hm Hs Hf _ _].
  assert (length (slots f') = length (slots file)) as Hl.
  { rewrite <- (length_map slot_block (slots f')), Hs. apply length_map. }
  split.
  - rewrite Hm. cbn. by rewrite Hn.
  - by rewrite Hm.
  - by rewrite Hm.
  - by rewrite Hm.
  - intros i Hi. rewrite Hf by done. by apply H5.
  - intros Hld. rewrite Hs. by apply H6.
  - intros i p. rewrite slots_blocks_lookup, Hs, <- slots_blocks_lookup. apply H7.
  - lia.
Qed.

(** A file fits the folder: a known one keeps its uuid and its kind, a new one brings a new uuid. *)
Definition fits_in (s : apply_state) (uuid : bytes) (f : FileInfo) : Prop :=
  match by_name (fi_files (ap_info s)) (pf_name f) with
  | Some q => ∀ prev, ap_files s !! q = Some prev → get_uuid prev = uuid ∧ is_file prev = regular (pf_type f)
  | None => Forall (λ e, e_uuid e ≠ uuid) (fi_files (ap_info s))
  end.

(** A link takes the target of the message when it was a link before, or is new. *)
Definition link_or_new (s : apply_state) (f : FileInfo) : Prop :=
  ∀ q prev, by_name (fi_files (ap_info s)) (pf_name f) = Some q → ap_files s !! q = Some prev → is_link prev = true.

(** There are fewer slots than references a counter can hold. *)
Definition small (files : gmap file_ptr file_info) (n : nat) : Prop :=
  2 * Z.of_nat (capacity (slots <$> files) + n) + 4 < 2 ^ 30.

(** What a round does. *)
Record round (known : block_map) (s : apply_state) (uuid : bytes) (f : FileInfo) (s' : apply_state)
    (e : entry) (f' : file_info) : Prop := {
  rd_wf : wf_apply known s';
  rd_shrinks : shrinks (ap_heap s) (ap_heap s');
  rd_info : ap_info s' = with_files (ap_info s) (pf_sequence f) (fi_files (ap_info s'));
  rd_entry : e = mkEntry (e_file e) uuid (pf_name f) (pf_sequence f);
  rd_file : ap_files s' !! e_file e = Some f';
  rd_stored : stored known f f';
  rd_link : pf_type f = SYMLINK → link_or_new s f → f_content f' = NonFile (pf_symlink_target f);
  rd_entries : ∀ x, x ∈ fi_files (ap_info s') ↔ x = e ∨ (x ∈ fi_files (ap_info s) ∧ e_name x ≠ pf_name f);
  rd_others : ∀ o, o ≠ e_file e → ap_files s' !! o = ap_files s !! o;
  rd_target : match by_name (fi_files (ap_info s)) (pf_name f) with
              | Some q => e_file e = q | None => ap_files s !! e_file e = None end;
  rd_capacity : (capacity (slots <$> ap_files s') <= capacity (slots <$> ap_files s) + length (pf_blocks f))%nat;
}.

Lemma store_roomy files known h n :
  wf_store files (map_refs known) h → Z.of_nat (capacity (slots <$> files)) + 1 + n < 2 ^ 30 → roomy n h.
Proof. intros [H _] Hn. eapply wf_heap_roomy; [exact H|apply map_refs_bound|done]. Qed.

Lemma made_uuid known uuid fi_uuid f v :
  length fi_uuid = uuid_length → get_uuid (made known uuid fi_uuid f v) = uuid.
Proof.
  intros Hl. rewrite made_fields. unfold get_uuid. cbn [with_content f_key created]. unfold create_key.
  by rewrite <- Hl, drop_app_length.
Qed.

Lemma made_unloaded known uuid fi_uuid f v : loaded f = false → made known uuid fi_uuid f v = created uuid fi_uuid f v.
Proof. intros Hl. unfold made. by rewrite Hl. Qed.

Lemma made_link known uuid fi_uuid f v :
  pf_type f = SYMLINK → is_file (made known uuid fi_uuid f v) = false ∧ is_link (made known uuid fi_uuid f v) = true ∧
    f_content (made known uuid fi_uuid f v) = NonFile (pf_symlink_target f).
Proof.
  intros Ht. rewrite made_is_file. unfold made, loaded, is_link. rewrite Ht. cbn [regular andb created f_flags f_content]. rewrite Ht.
  by destruct (pf_deleted f), (pf_invalid f), (pf_no_permissions f).
Qed.

(** A name the folder does not have. *)
Lemma round_new known s uuid f v :
  wf_apply known s → storable known f → fi_max_sequence (ap_info s) < pf_sequence f →
  version_of_proto (pf_version f) = Ok v → small (ap_files s) (length (pf_blocks f)) →
  by_name (fi_files (ap_info s)) (pf_name f) = None → fits_in s uuid f →
  ∃ s' e f', apply_file known s uuid f = Ok s' ∧ round known s uuid f s' e f'.
Proof.
  intros [Hst Hfi Hen Hul] Hok Hlt Hv Hsm Hn Hfit. unfold fits_in in Hfit. rewrite Hn in Hfit. unfold small in Hsm.
  unfold apply_file. set (p := fresh (dom (ap_files s))).
  assert (ap_files s !! p = None) as Hp by (apply not_elem_of_dom, is_fresh).
  set (file := made known uuid (fi_get_uuid (ap_info s)) f v).
  destruct (make_file_wf (ap_files s) (ap_heap s) known p uuid (fi_get_uuid (ap_info s)) f v) as (h' & -> & Hst' & Hs');
    try done; [eapply store_roomy; [done|lia]|]. fold file in Hst' |- *. cbn [res_bind].
  assert (stored known f file) as Hsd by by apply made_stored.
  assert (entry_of p file = mkEntry p uuid (pf_name f) (pf_sequence f)) as He.
  { unfold entry_of. rewrite (sd_name _ _ _ Hsd), (sd_sequence _ _ _ Hsd). unfold file. by rewrite made_uuid. }
  rewrite (sd_name _ _ _ Hsd), Hn. apply by_name_none in Hn as Hnn. rewrite Forall_forall in Hnn, Hfit.
  destruct (store_file_new (ap_info s) (ap_files s) h' p file) as [-> Hfi']; try done.
  { by rewrite (sd_sequence _ _ _ Hsd). }
  { rewrite He. apply Forall_forall. intros x Hx [Hc|[Hc|Hc]]; cbn in Hc; [by apply (Hfit x)|by apply (Hnn x)|].
    pose proof (fi_bound _ Hfi x Hx). lia. }
  do 3 eexists. split; [done|]. rewrite (sd_sequence _ _ _ Hsd) in Hfi' |- *.
  assert (∀ x, x ∈ fi_files (ap_info s) → e_file x ≠ p) as Hpx.
  { intros x Hx Heq. destruct (Hen x Hx) as (g & Hg & _). congruence. }
  split; cbn [ap_info ap_files ap_heap]; [|done|done|exact He|apply lookup_insert_eq|done|intros Hl _; by apply made_link|..].
  - split; try done. intros e [->|He']%insert_entry_elem; cbn [ap_files].
    + exists file. split; [apply lookup_insert_eq|done].
    + destruct (Hen e He') as (g & Hg & ?). exists g. split; [|done]. rewrite lookup_insert_ne; [done|].
      intros Heq. by apply (Hpx e He').
  - intros x. cbn [with_files fi_files]. rewrite insert_entry_elem. specialize (Hnn x). naive_solver.
  - intros o Ho. by rewrite lookup_insert_ne.
  - by rewrite Hn.
  - rewrite fmap_insert, capacity_new by (by rewrite lookup_fmap, Hp).
    pose proof (made_length known uuid (fi_get_uuid (ap_info s)) f v). fold file in H. lia.
Qed.

Lemma remove_elem m e x : wf_map m → e ∈ m → (x ∈ remove m e ↔ x ∈ m ∧ e_name x ≠ e_name e).
Proof.
  intros Hw He. unfold remove. rewrite !list_elem_of_filter. split; [tauto|]. intros [Hx Hn].
  assert (¬ collides x e) as Hc by (intros Hc; apply Hn; by rewrite (wf_map_key m x e Hw Hx He Hc)).
  unfold collides in Hc. tauto.
Qed.

(** Replacing a known file by a newer record: the temporary file comes and goes. *)
Lemma replace_wf known files h p q prev file n :
  wf_store (<[p := file]> files) (map_refs known) h → files !! p = None → files !! q = Some prev →
  is_file prev = is_file file → f_name prev = f_name file → get_uuid prev = get_uuid file →
  (length (slots file) <= n)%nat → small files n →
  ∃ f' h1 h2, update_file q prev h file = Ok (f', h1) ∧ destroy_file p file h1 = Ok h2 ∧
    wf_store (<[q := f']> files) (map_refs known) h2 ∧ took prev file f' ∧ shrinks h h2 ∧
    (capacity (slots <$> <[q := f']> files) <= capacity (slots <$> files) + n)%nat.
Proof.
  intros Hwf Hp Hq Hk Hn Hu Hl Hsm. unfold small in Hsm. assert (q ≠ p) as Hne by congruence.
  assert ((slots <$> files) !! q = Some (slots prev)) as Hσq by by rewrite lookup_fmap, Hq.
  pose proof (capacity_lookup _ _ _ Hσq) as Hcl.
  assert (capacity (slots <$> <[p := file]> files) = length (slots file) + capacity (slots <$> files))%nat as Hc1.
  { rewrite fmap_insert, capacity_new; [done|]. by rewrite lookup_fmap, Hp. }
  destruct (update_same_kind (<[p := file]> files) (map_refs known) h q prev p file) as (f' & h1 & Hup & H1 & Ht & Hs1); try done.
  { by rewrite lookup_insert_ne. } { apply lookup_insert_eq. } { eapply store_roomy; [done|]. rewrite Hc1. lia. }
  assert (length (slots f') = length (slots file)) as Hlf.
  { rewrite <- (length_map slot_block (slots f')), (took_slots _ _ _ Ht). apply length_map. }
  assert (capacity (slots <$> <[q := f']> (<[p := file]> files)) + length (slots prev) =
    length (slots file) + (length (slots file) + capacity (slots <$> files)))%nat as Hc2.
  { rewrite fmap_insert, <- Hc1, <- Hlf. apply capacity_insert. rewrite lookup_fmap, lookup_insert_ne by done. by rewrite Hq. }
  destruct (destroy_file_wf (<[q := f']> (<[p := file]> files)) (map_refs known) h1 p file) as (h2 & Hd & H2 & Hs2); try done.
  { rewrite lookup_insert_ne by done. apply lookup_insert_eq. } { eapply store_roomy; [done|]. lia. }
  rewrite delete_insert_ne, delete_insert_id in H2 by done.
  exists f', h1, h2. split_and!; try done; [by etrans|].
  pose proof (capacity_insert _ _ _ (slots f') Hσq). rewrite fmap_insert. lia.
Qed.

(** A name the folder has. *)
Lemma round_update known s uuid f v q :
  wf_apply known s → storable known f → fi_max_sequence (ap_info s) < pf_sequence f →
  version_of_proto (pf_version f) = Ok v → small (ap_files s) (length (pf_blocks f)) →
  by_name (fi_files (ap_info s)) (pf_name f) = Some q → fits_in s uuid f →
  ∃ s' e f', apply_file known s uuid f = Ok s' ∧ round known s uuid f s' e f'.
Proof.
  intros [Hst Hfi Hen Hul] Hok Hlt Hv Hsm Hn Hfit. unfold fits_in in Hfit. rewrite Hn in Hfit.
  unfold apply_file. set (p := fresh (dom (ap_files s))).
  assert (ap_files s !! p = None) as Hp by (apply not_elem_of_dom, is_fresh).
  set (file := made known uuid (fi_get_uuid (ap_info s)) f v).
  destruct (make_file_wf (ap_files s) (ap_heap s) known p uuid (fi_get_uuid (ap_info s)) f v) as (h' & -> & Hst' & Hs');
    try done; [eapply store_roomy; [done|unfold small in Hsm; lia]|]. fold file in Hst' |- *. cbn [res_bind].
  assert (stored known f file) as Hsd by by apply made_stored.
  rewrite (sd_name _ _ _ Hsd), Hn. destruct (by_name_elem _ _ _ Hn) as (eq & Heq & Heqf & Heqn).
  destruct (Hen eq Heq) as (prev & Hprev & Heqe). rewrite Heqf in Hprev, Heqe. rewrite Hprev.
  destruct (Hfit prev Hprev) as [Hu Hk].
  assert (f_name prev = pf_name f) as Hnp by (rewrite <- Heqn, Heqe; done).
  assert (f_sequence prev <= fi_max_sequence (ap_info s)) as Hsp.
  { pose proof (fi_bound _ Hfi eq Heq) as Hb. by rewrite Heqe in Hb. }
  rewrite (sd_sequence _ _ _ Hsd). destruct (Z.ltb_spec (f_sequence prev) (pf_sequence f)); [|lia].
  assert (f_name prev = f_name file) as Hnf by (by rewrite (sd_name _ _ _ Hsd)).
  destruct (replace_wf known (ap_files s) h' p q prev file (length (pf_blocks f))) as
    (f' & h1 & h2 & -> & Hd & H2 & Ht & Hs2 & Hcap); try done; [..|apply made_length|].
  { rewrite Hk. unfold file. by rewrite made_is_file. } { unfold file. by rewrite made_uuid. }
  cbn [res_bind]. rewrite Hd. cbn [res_bind].
  assert (stored known f f') as Hsd' by (by eapply took_stored).
  assert (entry_of q f' = mkEntry q uuid (pf_name f) (pf_sequence f)) as He.
  { unfold entry_of. rewrite (sd_name _ _ _ Hsd'), (sd_sequence _ _ _ Hsd'). f_equal. rewrite (took_meta _ _ _ Ht).
    exact Hu. }
  assert (∀ x, x ∈ remove (fi_files (ap_info s)) (entry_of q prev) ↔
    x ∈ fi_files (ap_info s) ∧ e_name x ≠ pf_name f) as Hrem.
  { intros x. rewrite <- Heqe, remove_elem by (apply Hfi || done). by rewrite Heqn. }
  assert (wf_folder_info (fi_remove (ap_info s) (entry_of q prev))) as Hfr.
  { split; [by repeat apply wf_map_filter; apply Hfi|]. intros x [Hx _]%Hrem. by apply (fi_bound _ Hfi). }
  destruct (store_file_new (fi_remove (ap_info s) (entry_of q prev)) (ap_files s) h2 q f') as [-> Hfi']; try done.
  { by rewrite (sd_sequence _ _ _ Hsd'). }
  { rewrite He. apply Forall_forall. intros x [Hx Hxn]%Hrem [Hc|[Hc|Hc]]; cbn in Hc; [|done|].
    - apply Hxn. rewrite <- Heqn. rewrite (wf_map_key _ x eq (fi_map _ Hfi) Hx Heq); [done|]. left. by rewrite Hc, Heqe, <- Hu.
    - pose proof (fi_bound _ Hfi x Hx). lia. }
  do 3 eexists. split; [done|]. rewrite (sd_sequence _ _ _ Hsd') in Hfi' |- *.
  split; cbn [ap_info ap_files ap_heap]; [|by etrans|done|exact He|apply lookup_insert_eq|done|..].
  - split; try done. intros e [->|[He' Hne]%Hrem]%insert_entry_elem; cbn [ap_files].
    + exists f'. split; [apply lookup_insert_eq|done].
    + destruct (Hen e He') as (g & Hg & Heg). exists g. split; [|done]. rewrite lookup_insert_ne; [done|].
      intros Heq'. apply Hne. rewrite <- Heq' in Hg. assert (g = prev) as -> by congruence. by rewrite Heg.
  - intros Hl Hlk. destruct (made_link known uuid (fi_get_uuid (ap_info s)) f v Hl) as (Hl1 & Hl2 & Hl3). fold file in Hl1, Hl2, Hl3.
    rewrite <- Hl3. apply (took_link _ _ _ Ht); try done. by apply (Hlk q).
  - intros x. cbn [fi_remove with_files fi_files]. rewrite insert_entry_elem, Hrem. tauto.
  - intros o Ho. by rewrite lookup_insert_ne.
  - by rewrite Hn.
  - done.
Qed.

Lemma apply_file_round known s uuid f :
  wf_apply known s → storable known f → fi_max_sequence (ap_info s) < pf_sequence f →
  small (ap_files s) (length (pf_blocks f)) → fits_in s uuid f →
  ∃ s' e f', apply_file known s uuid f = Ok s' ∧ round known s uuid f s' e f'.
Proof.
  intros Hwf Hok Hlt Hsm Hfit. destruct (version_of_proto_marks _ (st_version _ _ Hok)) as (v & _ & Hv & _).
  destruct (by_name (fi_files (ap_info s)) (pf_name f)) as [q|] eqn:Hn; [by eapply round_update|by eapply round_new].
Qed.

(** ** All rounds *)

Lemma by_name_iff m name p : wf_map m → (by_name m name = Some p ↔ ∃ e, e ∈ m ∧ e_file e = p ∧ e_name e = name).
Proof.
  intros Hw. split; [apply by_name_elem|]. intros (e & He & <- & <-). by apply lookup_elem.
Qed.

(** Entries that lead to the same file are the same. *)
Lemma entry_file_inj known s x y :
  wf_apply known s → x ∈ fi_files (ap_info s) → y ∈ fi_files (ap_info s) → e_file x = e_file y → x = y.
Proof.
  intros H Hx Hy Heq. destruct (ap_entries _ _ H x Hx) as (f & Hf & Hxe), (ap_entries _ _ H y Hy) as (g & Hg & Hye).
  assert (g = f) as -> by congruence. transitivity (entry_of (e_file x) f); [done|]. by rewrite Heq.
Qed.

(** A round does not disturb the files that are still to come. *)
Lemma round_fits known s uuid f s' e f' uuid2 f2 :
  wf_apply known s → round known s uuid f s' e f' → pf_name f2 ≠ pf_name f → uuid2 ≠ uuid →
  fits_in s uuid2 f2 → fits_in s' uuid2 f2.
Proof.
  intros Hwf Hr Hn Hu Hfit. unfold fits_in in *. pose proof (rd_entries _ _ _ _ _ _ _ Hr) as Hen.
  pose proof (rd_entry _ _ _ _ _ _ _ Hr) as He. pose proof (rd_wf _ _ _ _ _ _ _ Hr) as Hwf'.
  destruct (by_name (fi_files (ap_info s')) (pf_name f2)) as [q|] eqn:Hb.
  - apply by_name_elem in Hb as (x & Hx & <- & Hxn). apply Hen in Hx as Hx'.
    destruct Hx' as [->|[Hxs _]]; [rewrite He in Hxn; done|].
    rewrite (proj2 (by_name_iff _ (pf_name f2) (e_file x) (fi_map _ (ap_fi _ _ Hwf)))) in Hfit by eauto.
    intros prev Hp. apply Hfit. rewrite <- (rd_others _ _ _ _ _ _ _ Hr); [done|]. intros Heq.
    assert (x = e) as -> by (eapply entry_file_inj; [exact Hwf'|done|apply Hen; by left|done]).
    rewrite He in Hxn. done.
  - apply by_name_none in Hb. rewrite Forall_forall in Hb.
    destruct (by_name (fi_files (ap_info s)) (pf_name f2)) as [q|] eqn:Hb2.
    + apply by_name_elem in Hb2 as (x & Hx & _ & Hxn). destruct (Hb x); [|done]. apply Hen. right. by rewrite Hxn.
    + rewrite Forall_forall in Hfit |- *. intros x [->|[Hx _]]%Hen; [rewrite He; by apply not_eq_sym|by apply Hfit].
Qed.

Lemma round_link known s uuid f s' e f' g :
  wf_apply known s → round known s uuid f s' e f' → pf_name g ≠ pf_name f → link_or_new s g → link_or_new s' g.
Proof.
  intros Hwf Hr Hn Hl q prev Hb Hq. pose proof (rd_entries _ _ _ _ _ _ _ Hr) as Hen. pose proof (rd_entry _ _ _ _ _ _ _ Hr) as He.
  apply by_name_elem in Hb as (x & Hx & <- & Hxn). apply Hen in Hx as Hx'. destruct Hx' as [->|[Hxs _]]; [by rewrite He in Hxn|].
  apply (Hl (e_file x)); [apply by_name_iff; [apply Hwf|eauto]|]. rewrite <- (rd_others _ _ _ _ _ _ _ Hr); [done|]. intros Heq.
  assert (x = e) as -> by (eapply entry_file_inj; [apply (rd_wf _ _ _ _ _ _ _ Hr)|done|apply Hen; by left|done]). by rewrite He in Hxn.
Qed.

Definition blocks_in (files : list FileInfo) : nat := foldr (λ f n, (length (pf_blocks f) + n)%nat) 0%nat files.

(** What the rounds do together. *)
Record rounds (known : block_map) (s : apply_state) (files : list FileInfo) (s' : apply_state) : Prop := {
  rs_wf : wf_apply known s';
  rs_shrinks : shrinks (ap_heap s) (ap_heap s');
  rs_info : ap_info s' = with_files (ap_info s) (fi_max_sequence (ap_info s')) (fi_files (ap_info s'));
  rs_stored : ∀ f, f ∈ files → ∃ p f', by_name (fi_files (ap_info s')) (pf_name f) = Some p ∧
    ap_files s' !! p = Some f' ∧ stored known f f' ∧
    (pf_type f = SYMLINK → link_or_new s f → f_content f' = NonFile (pf_symlink_target f));
  rs_kept : ∀ x, e_name x ∉ map pf_name files → (x ∈ fi_files (ap_info s') ↔ x ∈ fi_files (ap_info s));
  rs_entries : ∀ x, x ∈ fi_files (ap_info s') → x ∈ fi_files (ap_info s) ∨
    ap_files s !! e_file x = None ∨ ∃ y, y ∈ fi_files (ap_info s) ∧ e_file y = e_file x;
  rs_frame : ∀ o g, ap_files s !! o = Some g → ap_files s' !! o = Some g ∨
    ∃ x, x ∈ fi_files (ap_info s) ∧ e_file x = o ∧ e_name x ∈ map pf_name files;
  rs_files : ∀ o g, ap_files s' !! o = Some g → (∃ f, f ∈ files ∧ stored known f g) ∨
    (ap_files s !! o = Some g ∧
     ∀ x, x ∈ fi_files (ap_info s) → e_file x = o → e_name x ∉ map pf_name files);
}.

Lemma rounds_nil known s : wf_apply known s → rounds known s [] s.
Proof.
  intros H. split; try done.
  - by destruct (ap_info s).
  - intros f Hf. by apply not_elem_of_nil in Hf.
  - intros x Hx. by left.
  - intros o g Hg. by left.
  - intros o g Hg. right. split; [done|]. intros x _ _. apply not_elem_of_nil.
Qed.

Lemma rounds_cons known s uuid f s1 e f' files s2 :
  wf_apply known s → round known s uuid f s1 e f' → rounds known s1 files s2 →
  pf_name f ∉ map pf_name files → rounds known s (f :: files) s2.
Proof.
  intros Hwf Hr Hs Hnf. pose proof Hr as Hr0. destruct Hr as [Hwf1 Hsh1 Hin1 He Hf' Hsd Hlk Hen Hot Htg _].
  destruct Hs as [Hwf2 Hsh2 Hin2 Hst2 Hk2 Hen2 Hfr2 Hfi2].
  assert (e ∈ fi_files (ap_info s1)) as Hes1 by (apply Hen; by left).
  assert (e_name e = pf_name f) as Hename by by rewrite He.
  assert (ap_files s !! e_file e = None ∨ ∃ y, y ∈ fi_files (ap_info s) ∧ e_file y = e_file e ∧ e_name y = pf_name f) as Hold.
  { destruct (by_name (fi_files (ap_info s)) (pf_name f)) as [q|] eqn:Hb; [right|by left].
    apply by_name_elem in Hb as (y & Hy & Hyq & Hyn). exists y. by rewrite Hyq, Htg. }
  split.
  - done.
  - by etrans.
  - rewrite Hin2, Hin1. done.
  - intros g [->|Hg]%elem_of_cons.
    2: { destruct (Hst2 g Hg) as (p & g' & ? & ? & ? & Hgl). exists p, g'. split_and!; try done. intros Ht Hl. apply Hgl; [done|].
         eapply round_link; [exact Hwf|exact Hr0| |exact Hl]. intros Heq. apply Hnf. rewrite <- Heq. by apply list_elem_of_fmap_2. }
    exists (e_file e), f'.
    assert (e ∈ fi_files (ap_info s2)) as Hes2 by (apply Hk2; [by rewrite Hename|done]).
    split_and!; [apply by_name_iff; [apply Hwf2|by exists e]| |done|done].
    destruct (Hfr2 _ _ Hf') as [?|(x & Hx & Hxe & Hxn)]; [done|].
    rewrite (entry_file_inj _ _ x e Hwf1 Hx Hes1 Hxe), Hename in Hxn. done.
  - intros x Hx. cbn [map] in Hx. rewrite elem_of_cons in Hx. rewrite Hk2 by tauto. rewrite Hen. naive_solver.
  - intros x Hx. destruct (Hen2 x Hx) as [[->|[? _]]%Hen|[Hn|(y & Hy & Hyx)]].
    + right. destruct Hold as [?|(y & ? & ? & _)]; [by left|right; eauto].
    + by left.
    + right. destruct (decide (e_file x = e_file e)) as [Heq|Hne]; [by rewrite Heq, Hf' in Hn|]. left. by rewrite <- Hot.
    + right. apply Hen in Hy as [->|[Hy _]]; [|right; eauto]. rewrite <- Hyx.
      destruct Hold as [?|(z & ? & ? & _)]; [by left|right; eauto].
  - intros o g Hg. destruct (decide (o = e_file e)) as [->|Hne].
    + right. destruct Hold as [?|(y & ? & ? & Hyn)]; [congruence|]. exists y. split_and!; try done. rewrite Hyn. left.
    + rewrite <- Hot in Hg by done. destruct (Hfr2 _ _ Hg) as [?|(x & Hx & Hxo & Hxn)]; [by left|right].
      apply Hen in Hx as [->|[Hx _]]; [done|]. exists x. split_and!; try done. cbn [map]. by right.
  - intros o g Hg. destruct (Hfi2 _ _ Hg) as [(f0 & ? & ?)|[Hg1 Hx1]]; [left; exists f0; split; [by right|done]|].
    destruct (decide (o = e_file e)) as [->|Hne].
    + left. exists f. split; [by left|]. rewrite Hf' in Hg1. by simplify_eq.
    + right. rewrite Hot in Hg1 by done. split; [done|]. intros x Hx Hxo. cbn [map]. rewrite not_elem_of_cons. split.
      * intros Hxn. assert (by_name (fi_files (ap_info s)) (pf_name f) = Some o) as Hb
          by (apply by_name_iff; [apply Hwf|eauto]). rewrite Hb in Htg. done.
      * destruct (decide (e_name x = pf_name f)) as [->|]; [done|]. apply Hx1; [|done]. apply Hen. by right.
Qed.

Lemma apply_files_rounds known files : ∀ uuids s,
  wf_apply known s → length uuids = length files → Forall (storable known) files →
  NoDup (map pf_name files) → NoDup uuids →
  StronglySorted (λ f g, pf_sequence f < pf_sequence g) files →
  Forall (λ f, fi_max_sequence (ap_info s) < pf_sequence f) files →
  Forall2 (fits_in s) uuids files → small (ap_files s) (blocks_in files) →
  ∃ s', apply_files known uuids files s = Ok s' ∧ rounds known s files s'.
Proof.
  induction files as [|f files IH]; intros [|uuid uuids] s Hwf Hlen Hok Hnd Hndu Hso Hmax Hfit Hsm; try done; cbn [apply_files].
  - exists s. split; [done|]. by apply rounds_nil.
  - apply Forall_cons in Hok as [Hf Hok], Hmax as [Hfm Hmax]. apply Forall2_cons in Hfit as [Hff Hfit].
    cbn [map] in Hnd. apply NoDup_cons in Hnd as [Hnf Hnd], Hndu as [Hnu Hndu].
    apply StronglySorted_inv in Hso as [Hso Hsf]. unfold small in Hsm. cbn [blocks_in foldr] in Hsm. fold (blocks_in files) in Hsm.
    destruct (apply_file_round known s uuid f) as (s1 & e & f' & -> & Hr); try done; [unfold small; lia|]. cbn [res_bind].
    pose proof (rd_capacity _ _ _ _ _ _ _ Hr) as Hcap.
    destruct (IH uuids s1) as (s2 & -> & Hs); try done.
    + apply Hr.
    + by injection Hlen.
    + rewrite (rd_info _ _ _ _ _ _ _ Hr). exact Hsf.
    + apply Forall2_same_length_lookup_2; [by injection Hlen|]. intros i u g Hu Hg.
      eapply round_fits; [exact Hwf|exact Hr|..|by eapply Forall2_lookup_lr].
      * intros Heq. apply Hnf. rewrite <- Heq. by eapply list_elem_of_fmap_2, list_elem_of_lookup_2.
      * intros ->. by eapply Hnu, list_elem_of_lookup_2.
    + unfold small. lia.
    + exists s2. split; [done|]. by eapply rounds_cons.
Qed.

(** ** The uuids of an update *)

(** The sequencer never gives a uuid that is in use, nor one twice. *)
Definition fresh_uuids (fi : folder_info) (next_uuid : nat → bytes) : Prop :=
  (∀ m n, next_uuid m = next_uuid n → m = n) ∧ ∀ n e, e ∈ fi_files fi → e_uuid e ≠ next_uuid n.

Section uuids.
Context (c : cluster) (fi : folder_info) (next_uuid : nat → bytes).
Context (Hfi : wf_folder_info fi) (Hfresh : fresh_uuids fi next_uuid).
Context (Hen : ∀ e, e ∈ fi_files fi → ∃ f, cl_files c !! e_file e = Some f ∧ e = entry_of (e_file e) f).

(** The entry of a known name. *)
Lemma known_entry name q :
  by_name (fi_files fi) name = Some q →
  ∃ e prev, e ∈ fi_files fi ∧ e_file e = q ∧ e_name e = name ∧ cl_files c !! q = Some prev ∧ get_uuid prev = e_uuid e.
Proof.
  intros Hb. apply by_name_elem in Hb as (e & He & <- & Hn). destruct (Hen e He) as (prev & Hp & Hee).
  exists e, prev. split_and!; try done. by rewrite Hee.
Qed.

Lemma uuids_of_elem files : ∀ n u, u ∈ uuids_of c fi next_uuid n files →
  (∃ f e, f ∈ files ∧ e ∈ fi_files fi ∧ e_name e = pf_name f ∧ u = e_uuid e) ∨ ∃ m, (n <= m)%nat ∧ u = next_uuid m.
Proof.
  induction files as [|f files IH]; intros n u; cbn [uuids_of]; [by intros ?%not_elem_of_nil|].
  destruct (by_name (fi_files fi) (pf_name f)) as [q|] eqn:Hb; cbn [mbind option_bind].
  - destruct (known_entry _ _ Hb) as (e & prev & He & _ & Hn & Hp & Hu). rewrite Hp.
    intros [->|Hin]%elem_of_cons.
    + left. exists f, e. rewrite Hu. split_and!; try done. by left.
    + destruct (IH _ _ Hin) as [(g & x & ? & ?)|?]; [left; exists g, x; split; [by right|done]|by right].
  - intros [->|Hin]%elem_of_cons; [right; eauto|].
    destruct (IH _ _ Hin) as [(g & x & ? & ?)|(m & ? & ->)]; [left; exists g, x; split; [by right|done]|].
    right. exists m. split; [lia|done].
Qed.

Lemma uuids_of_nodup files : ∀ n, NoDup (map pf_name files) → NoDup (uuids_of c fi next_uuid n files).
Proof.
  destruct Hfresh as [Hinj Hnew]. induction files as [|f files IH]; intros n Hnd; cbn [uuids_of]; [constructor|].
  cbn [map] in Hnd. apply NoDup_cons in Hnd as [Hf Hnd].
  destruct (by_name (fi_files fi) (pf_name f)) as [q|] eqn:Hb; cbn [mbind option_bind].
  - destruct (known_entry _ _ Hb) as (e & prev & He & _ & Hn & Hp & Hu). rewrite Hp. apply NoDup_cons. split; [|by apply IH].
    rewrite Hu. intros [(g & x & Hg & Hx & Hxn & Heq)|(m & _ & Heq)]%uuids_of_elem; [|by apply (Hnew m e)].
    apply Hf. rewrite <- Hn, (wf_map_key _ e x (fi_map _ Hfi) He Hx), Hxn; [by apply list_elem_of_fmap_2|by left].
  - apply NoDup_cons. split; [|by apply IH].
    intros [(g & x & Hg & Hx & Hxn & Heq)|(m & Hm & Heq)]%uuids_of_elem; [by apply (Hnew n x)|].
    apply Hinj in Heq. lia.
Qed.

Lemma uuids_of_length files : ∀ n, length (uuids_of c fi next_uuid n files) = length files.
Proof.
  induction files as [|f files IH]; intros n; cbn [uuids_of]; [done|].
  destruct (_ ≫= _); cbn [length]; by rewrite IH.
Qed.

(** Every file of the update fits the folder. *)
Lemma uuids_of_fits files h : ∀ n,
  (∀ f q prev, f ∈ files → by_name (fi_files fi) (pf_name f) = Some q → cl_files c !! q = Some prev →
     is_file prev = regular (pf_type f)) →
  Forall2 (fits_in (mkApply fi (cl_files c) h)) (uuids_of c fi next_uuid n files) files.
Proof.
  induction files as [|f files IH]; intros n Hk; cbn [uuids_of]; [constructor|].
  assert (∀ g q prev, g ∈ files → by_name (fi_files fi) (pf_name g) = Some q → cl_files c !! q = Some prev →
     is_file prev = regular (pf_type g)) as Hk' by (intros g q prev Hg; apply Hk; by right).
  destruct (by_name (fi_files fi) (pf_name f)) as [q|] eqn:Hb; cbn [mbind option_bind].
  - destruct (known_entry _ _ Hb) as (e & prev & _ & _ & _ & Hp & _). rewrite Hp. constructor; [|by apply IH].
    unfold fits_in. cbn [ap_info ap_files]. rewrite Hb. intros prev' Hp'. simplify_eq. split; [done|].
    eapply Hk; [by left|done|done].
  - constructor; [|by apply IH]. unfold fits_in. cbn [ap_info ap_files]. rewrite Hb. apply Forall_forall. intros e He.
    by apply Hfresh.
Qed.
End uuids.

(** ** The folders after an update *)

Lemma head_filter_unique {A} (P : A → Prop) `{∀ x, Decision (P x)} (l : list A) x :
  x ∈ l → P x → (∀ y, y ∈ l → P y → y = x) → head (filter P l) = Some x.
Proof.
  intros Hx HP Hu. destruct (head (filter P l)) as [y|] eqn:Hh.
  - apply head_filter_elem in Hh as [Hy Hin]. by rewrite (Hu y).
  - apply head_filter_none in Hh. rewrite Forall_forall in Hh. by destruct (Hh x Hx).
Qed.

Section folders.
Context (folders : list folder) (fo : folder) (fi fi2 : folder_info).
Context (Hids : NoDup (map (λ fo, fd_id (fo_data fo)) folders)).
Context (Hdev : ∀ fo, fo ∈ folders → NoDup (map fi_device_sha (fo_infos fo))).
Context (Hfo : fo ∈ folders) (Hfi : fi ∈ fo_infos fo) (Hsha : fi_device_sha fi2 = fi_device_sha fi).

Definition renew_info (x : folder_info) : folder_info := if bool_decide (fi_device_sha x = fi_device_sha fi) then fi2 else x.
Definition renew (x : folder) : folder :=
  if bool_decide (fd_id (fo_data x) = fd_id (fo_data fo)) then with_infos x (map renew_info (fo_infos x)) else x.

Lemma set_info_renew : set_info (fd_id (fo_data fo)) (fi_device_sha fi) fi2 folders = map renew folders.
Proof. done. Qed.

Lemma renew_id x : fd_id (fo_data (renew x)) = fd_id (fo_data x).
Proof. unfold renew. by case_bool_decide. Qed.

Lemma renew_sha x : fi_device_sha (renew_info x) = fi_device_sha x.
Proof. unfold renew_info. case_bool_decide; congruence. Qed.

Lemma renew_ids : map (λ fo, fd_id (fo_data fo)) (map renew folders) = map (λ fo, fd_id (fo_data fo)) folders.
Proof. rewrite map_map. apply map_ext, renew_id. Qed.

Lemma renew_devices x : map fi_device_sha (fo_infos (renew x)) = map fi_device_sha (fo_infos x).
Proof.
  unfold renew. case_bool_decide; [|done]. cbn [with_infos fo_infos]. rewrite map_map. apply map_ext, renew_sha.
Qed.

(** The only info that changes is the peer's. *)
Lemma renew_elem x y :
  x ∈ folders → y ∈ fo_infos (renew x) →
  (x = fo ∧ y = fi2) ∨ (y ∈ fo_infos x ∧ ¬ (x = fo ∧ y = fi)).
Proof.
  intros Hx. unfold renew. case_bool_decide as Hid.
  - rewrite (NoDup_map_inj _ _ x fo Hids Hx Hfo Hid). cbn [with_infos fo_infos].
    intros (z & -> & Hz)%list_elem_of_fmap. unfold renew_info. case_bool_decide as Hs; [by left|]. right.
    split; [done|]. intros [_ ->]. done.
  - intros Hy. right. split; [done|]. intros [-> _]. done.
Qed.

Lemma renew_self : renew fo ∈ map renew folders ∧ fi2 ∈ fo_infos (renew fo) ∧
  folder_by_id (map renew folders) (fd_id (fo_data fo)) = Some (renew fo) ∧
  by_device_id (fo_infos (renew fo)) (fi_device_sha fi) = Some fi2.
Proof.
  assert (renew fo ∈ map renew folders) as H1 by (by apply list_elem_of_fmap_2).
  assert (fi2 ∈ fo_infos (renew fo)) as H2.
  { unfold renew. rewrite bool_decide_eq_true_2 by done. cbn [with_infos fo_infos]. apply list_elem_of_fmap.
    exists fi. split; [|done]. unfold renew_info. by rewrite bool_decide_eq_true_2. }
  split_and!; [done|done|..].
  - apply head_filter_unique; [done|apply renew_id|]. intros y (x & -> & Hx)%list_elem_of_fmap. rewrite renew_id.
    intros Hid. by rewrite (NoDup_map_inj _ _ x fo Hids Hx Hfo Hid).
  - unfold by_device_id, gget. apply head_filter_unique; [done|unfold get_index; cbn; by rewrite Hsha|].
    intros y Hy [= Hys]. apply (NoDup_map_inj fi_device_sha (fo_infos (renew fo))); try done; [|congruence].
    rewrite renew_devices. by apply Hdev.
Qed.
End folders.

(** ** The blocks after the children *)

(** Blocks in, orphans out: the files of the update find all their blocks, and a block that is
    gone from the map is used by replaced files only. *)
Lemma children_wf c fi d :
  wf_cluster c → Forall short_block (uf_new_blocks d) →
  (∀ x, x ∈ map strict (uf_new_blocks d) ↔ cl_blocks c !! x = None ∧ x ∈ hashes_of (uf_files d)) →
  NoDup (uf_removed_blocks d) → (∀ x, x ∈ uf_removed_blocks d ↔ orphaned c fi (uf_files d) x) →
  small (cl_files c) 0 →
  ∃ known1 h1 known h, add_blocks (cl_blocks c) (cl_heap c) (uf_new_blocks d) = Ok (known1, h1) ∧
    drop_blocks known1 h1 (uf_removed_blocks d) = Ok (known, h) ∧
    wf_blocks (slots <$> cl_files c) known h ∧
    (∀ x, x ∈ hashes_of (uf_files d) → is_Some (known !! x)) ∧
    (∀ x p, cl_blocks c !! x = Some p → known !! x = Some p ∨ orphaned c fi (uf_files d) x).
Proof.
  intros Hwf Hsb Hnew Hnd Hrem Hsm. unfold small in Hsm. pose proof (cl_wf_blocks c Hwf) as Hb.
  pose proof (add_blocks_spec (slots <$> cl_files c) (uf_new_blocks d) (cl_blocks c) (cl_heap c) 2 Hb
    ltac:(apply (wf_blocks_roomy _ _ _ _ Hb); lia) ltac:(lia) ltac:(lia)) as Ha.
  destruct (add_blocks _ _ _) as [[known1 h1]|e|].
  2: { destruct Ha as [_ He]. exfalso.
       apply Exists_exists in He as (b & Hin & Hlt). rewrite Forall_forall in Hsb. specialize (Hsb b Hin). unfold short_block in Hsb. lia. }
  2: { by exfalso. }
  destruct Ha as (H1 & _ & Hsub & _ & Hm1 & _).
  destruct (drop_blocks_spec (slots <$> cl_files c) (uf_removed_blocks d) known1 h1 H1) as (known & h & Hd & H2 & _ & Hm2 & _); try done.
  { intros m' h' H'. apply (wf_blocks_roomy _ _ _ _ H'). lia. }
  { intros x (_ & _ & _ & p & _ & _ & _ & Hx & _)%Hrem. exists p. by eapply lookup_weaken. }
  exists known1, h1, known, h. split_and!; try done.
  - intros x Hx. rewrite Hm2, bool_decide_eq_false_2.
    + apply Hm1. destruct (cl_blocks c !! x) eqn:Hc; [left; by eexists|]. right. by apply Hnew.
    + intros [Hn _]%Hrem. done.
  - intros x p Hx. rewrite Hm2. case_bool_decide as Hin; [right; by apply Hrem|left]. by eapply lookup_weaken.
Qed.

(** The initial state of the rounds. *)
Lemma start_wf c fo fi known h :
  wf_cluster c → fo ∈ cl_folders c → fi ∈ fo_infos fo → wf_blocks (slots <$> cl_files c) known h →
  wf_apply known (mkApply fi (cl_files c) h).
Proof.
  intros Hwf Hfo Hfi Hb. destruct (cl_wf_infos c Hwf fo fi Hfo Hfi) as (H1 & H2 & H3). split; try done.
  split; [apply Hb|apply (cl_wf_files c Hwf)].
Qed.

(** ** The cluster after an update *)

Section finish.
Context (c : cluster) (fo : folder) (fi : folder_info) (files : list FileInfo) (known : block_map) (h : heap) (s : apply_state).
Context (Hwf : wf_cluster c) (Hfo : fo ∈ cl_folders c) (Hfi : fi ∈ fo_infos fo).
Context (Hb : wf_blocks (slots <$> cl_files c) known h).
Context (Hold : ∀ x p, cl_blocks c !! x = Some p → known !! x = Some p ∨ orphaned c fi files x).
Context (Hr : rounds known (mkApply fi (cl_files c) h) files s).

Lemma finish_alive x p : known !! x = Some p → ∃ b, ap_heap s !! p = Some b ∧ b_hash b = x.
Proof.
  intros Hx. destruct (ap_heap s !! p) as [b|] eqn:Hp.
  - exists b. split; [done|]. destruct (rs_shrinks _ _ _ _ Hr _ _ Hp) as (b0 & Hb0 & -> & _).
    destruct (bm_hash _ _ _ Hb _ _ Hx) as (b1 & Hb1 & <-). cbn in Hb0. by simplify_eq.
  - destruct (heap_dead _ _ _ (store_heap _ _ _ (ap_store _ _ (rs_wf _ _ _ _ Hr))) _ Hp) as [H0 _].
    by rewrite (map_refs_some _ _ _ Hx) in H0.
Qed.

(** Every block that is alive is known: what the map forgot went with the replaced files. *)
Lemma finish_known p b : ap_heap s !! p = Some b → known !! b_hash b = Some p.
Proof.
  intros Hp. assert (∃ x, known !! x = Some p) as [x Hx]; [|destruct (finish_alive x p Hx) as (b' & Hb' & <-); by simplify_eq].
  destruct (heap_cell _ _ _ (store_heap _ _ _ (ap_store _ _ (rs_wf _ _ _ _ Hr))) _ _ Hp) as [_ _ Hsp Hct Hal].
  destruct (places b) as [|fb fbs] eqn:Hpl.
  - cbn [length] in Hct. unfold map_refs in Hct. case_bool_decide as He; [|lia].
    apply map_Exists_lookup in He as (x & ? & Hx & ->). eauto.
  - assert (spot fb ∈ spots b) as Hin by (unfold spots; rewrite Hpl; left). unfold spot in Hin. apply Hsp in Hin as Hs.
    unfold slot_at in Hs. rewrite lookup_fmap in Hs. destruct (ap_files s !! fb_file fb) as [g|] eqn:Hg; [|done]. cbn in Hs.
    destruct (rs_files _ _ _ _ Hr _ _ Hg) as [(f & _ & Hst)|[Hgc Hnr]]; [by eapply (sd_known _ _ _ Hst)|]. cbn in Hgc, Hnr.
    assert (slot_at (slots <$> cl_files c) (fb_file fb) (Z.to_nat (fb_block_index fb)) = Some p) as Hsc.
    { unfold slot_at. rewrite lookup_fmap, Hgc. exact Hs. }
    destruct (slot_at_alive _ _ _ _ _ _ (bm_heap _ _ _ (cl_wf_blocks c Hwf)) Hsc) as (b0 & Hb0 & _).
    pose proof (cl_wf_known c Hwf _ _ Hb0) as Hk. destruct (Hold _ _ Hk) as [?|(_ & _ & _ & p' & _ & _ & _ & Hk' & Hu)]; [eauto|].
    assert (p' = p) as -> by congruence. destruct (Hu _ _ Hsc) as (f & Hf & Hbn). apply by_name_elem in Hbn as (y & Hy & Hyf & Hyn).
    destruct (Hnr y Hy Hyf). rewrite Hyn. by apply list_elem_of_fmap_2.
Qed.

(** The peer's info, as the update leaves it. *)
Lemma finish_sha : fi_device_sha (ap_info s) = fi_device_sha fi.
Proof. by rewrite (rs_info _ _ _ _ Hr). Qed.

(** A file of another folder info was not touched. *)
Lemma finish_other x y e g : x ∈ cl_folders c → y ∈ fo_infos x → ¬ (x = fo ∧ y = fi) →
  e ∈ fi_files y → cl_files c !! e_file e = Some g →
  ap_files s !! e_file e = Some g ∧ (∀ z, z ∈ fi_files (ap_info s) → e_file z ≠ e_file e).
Proof.
  intros Hx Hy Hn He Hg.
  assert (∀ z, z ∈ fi_files fi → e_file z ≠ e_file e) as Hd.
  { intros z Hz Heq. apply Hn. destruct (cl_wf_owner c Hwf x y e fo fi z); try done; congruence. }
  split.
  - destruct (rs_frame _ _ _ _ Hr _ _ Hg) as [?|(z & Hz & Heq & _)]; [done|]. by destruct (Hd z Hz).
  - intros z Hz Heq. destruct (rs_entries _ _ _ _ Hr z Hz) as [Hz'|[Hz'|(w & Hw & Hwz)]]; cbn in *.
    + by apply (Hd z Hz').
    + rewrite Heq in Hz'. congruence.
    + apply (Hd w Hw). congruence.
Qed.

Lemma finish_wf :
  wf_cluster (mkCluster known (ap_heap s) (ap_files s)
    (set_info (fd_id (fo_data fo)) (fi_device_sha fi) (ap_info s) (cl_folders c))).
Proof.
  pose proof (rs_wf _ _ _ _ Hr) as Hw. rewrite set_info_renew.
  pose proof (cl_wf_ids c Hwf) as Hids. pose proof (renew_elem (cl_folders c) fo fi (ap_info s) Hids Hfo) as Hre.
  split; cbn [cl_blocks cl_heap cl_files cl_folders].
  - split; [apply Hw|]. apply finish_alive.
  - apply (ap_store _ _ Hw).
  - apply finish_known.
  - intros x' y (x & -> & Hx)%list_elem_of_fmap Hy. destruct (Hre x y Hx Hy) as [[-> ->]|[Hyx Hn]].
    + split_and!; apply Hw.
    + destruct (cl_wf_infos c Hwf x y Hx Hyx) as (? & ? & Hen). split_and!; try done. intros e He.
      destruct (Hen e He) as (g & Hg & ?). exists g. split; [|done]. by eapply (finish_other x y).
  - by rewrite renew_ids.
  - intros x' (x & -> & Hx)%list_elem_of_fmap. rewrite renew_devices by apply finish_sha. by apply (cl_wf_devices c Hwf).
  - intros x1 y1 e1 x2 y2 e2 (x & -> & Hx)%list_elem_of_fmap Hy1 He1 (x' & -> & Hx')%list_elem_of_fmap Hy2 He2 Heq.
    destruct (Hre x y1 Hx Hy1) as [[-> ->]|[Hyx Hn]], (Hre x' y2 Hx' Hy2) as [[-> ->]|[Hyx' Hn']]; [done|..].
    + exfalso. destruct (cl_wf_infos c Hwf x' y2 Hx' Hyx') as (_ & _ & Hen). destruct (Hen e2 He2) as (g & Hg & _).
      destruct (finish_other x' y2 e2 g Hx' Hyx' Hn' He2 Hg) as [_ Hd]. by apply (Hd e1 He1).
    + exfalso. destruct (cl_wf_infos c Hwf x y1 Hx Hyx) as (_ & _ & Hen). destruct (Hen e1 He1) as (g & Hg & _).
      destruct (finish_other x y1 e1 g Hx Hyx Hn He1 Hg) as [_ Hd]. by apply (Hd e2 He2).
    + destruct (cl_wf_owner c Hwf x y1 e1 x' y2 e2) as [-> ->]; done.
Qed.
End finish.

Lemma verdicts_elem c fi files f : verdicts c fi files = Ok () → f ∈ files → verdict c fi f = Ok ().
Proof.
  induction files as [|g files IH]; intros H Hf; [by apply not_elem_of_nil in Hf|]. cbn [verdicts] in H.
  apply bind_Ok in H as ([] & Hg & H). apply elem_of_cons in Hf as [->|Hf]; [done|by apply IH].
Qed.

Lemma verdict_version c fi f : verdict c fi f = Ok () → fi_max_sequence fi < pf_sequence f → pf_version f ≠ [].
Proof.
  unfold verdict. intros H Hlt. destruct (Z.leb_spec (pf_sequence f) (fi_max_sequence fi)); [lia|].
  destruct (_ <=? 0); [done|]. destruct (_ && _); [done|]. by case_bool_decide.
Qed.

(** ** Property *)


