(* ===== verification/Advance.v ===== *)
(** * Advance: taking over files ([src/model/diff/advance/]): the copy of a remote file
    ([remote_copy.cpp]), a change on the disk of this device ([local_update.cpp]), a conflict that
    the remote file wins ([remote_win.cpp]) and what they share ([advance.cpp]). *)

From S2P Require Import Prelude Version Proto Blocks FileInfo FileStore FileMap GenericMap Device Folder Resolver BlockMap UpdateFolder.

(** [advance_t], with the two changes of blocks it carries as children. *)
Record advance := mkAdvance {
  av_source : FileInfo;
  av_local : FileInfo;
  av_folder_id : bytes;
  av_peer_id : bytes;
  av_uuid : bytes;
  av_action : advance_action;
  av_new_blocks : list BlockInfo;
  av_orphans : list bytes;
}.

(** A uuid that was never assigned; what [boost::uuids::uuid] starts with since Boost 1.86. *)
Definition nil_uuid : bytes := repeat 0 uuid_length.

Definition set_name_sequence (f : FileInfo) (name : bytes) (sequence : Z) : FileInfo :=
  mkFileInfo name (pf_type f) (pf_size f) (pf_permissions f) (pf_modified_s f) (pf_modified_ns f)
    (pf_modified_by f) (pf_deleted f) (pf_invalid f) (pf_no_permissions f) (pf_version f) sequence
    (pf_block_size f) (pf_blocks f) (pf_symlink_target f).

Definition set_version (f : FileInfo) (v : vector) : FileInfo :=
  mkFileInfo (pf_name f) (pf_type f) (pf_size f) (pf_permissions f) (pf_modified_s f) (pf_modified_ns f)
    (pf_modified_by f) (pf_deleted f) (pf_invalid f) (pf_no_permissions f) v (pf_sequence f)
    (pf_block_size f) (pf_blocks f) (pf_symlink_target f).

Definition set_modified_by (f : FileInfo) (device : Z) : FileInfo :=
  mkFileInfo (pf_name f) (pf_type f) (pf_size f) (pf_permissions f) (pf_modified_s f) (pf_modified_ns f)
    device (pf_deleted f) (pf_invalid f) (pf_no_permissions f) (pf_version f) (pf_sequence f)
    (pf_block_size f) (pf_blocks f) (pf_symlink_target f).

(** The folder info of a device in a folder; a missing one is a null pointer. *)
Definition info_of (c : cluster) (folder_id device : bytes) : res folder_info :=
  match folder_by_id (cl_folders c) folder_id with
  | None => Ub
  | Some fo => match by_device_id (fo_infos fo) device with None => Ub | Some fi => Ok fi end
  end.

(** The local file under a name. *)
Definition file_by_name (c : cluster) (fi : folder_info) (name : bytes) : res (option (file_ptr * file_info)) :=
  match by_name (fi_files fi) name with
  | None => Ok None
  | Some p => match cl_files c !! p with None => Ub | Some f => Ok (Some (p, f)) end
  end.

(** The loop of [initialize] over the blocks: unknown ones are collected, known ones are no
    orphans. *)
Fixpoint collect_blocks (known : block_map) (bs : list BlockInfo) (new_blocks : list BlockInfo) (orphans : list bytes)
    : res (list BlockInfo * list bytes) :=
  match bs with
  | [] => Ok (new_blocks, orphans)
  | b :: bs =>
      let* h := make_strict_hash (pb_hash b) in
      match by_hash known h with
      | None => collect_blocks known bs (new_blocks ++ [b]) orphans
      | Some _ => collect_blocks known bs new_blocks (filter (λ x, x ≠ h) orphans)
      end
  end.

(** [advance_t::initialize]; [n] counts the uuids that were taken from the sequencer. *)
Definition initialize (c : cluster) (self : bytes) (next_uuid : nat → bytes) (n : nat) (folder_id peer_id : bytes)
    (action : advance_action) (disable_blocks_removal : bool) (source : FileInfo) (local_file_name : bytes)
    : res (advance * nat) :=
  let name := if bool_decide (local_file_name = []) then pf_name source else local_file_name in
  let* _ := assert (negb (negb (bool_decide (pf_blocks source = [])) && pf_deleted source)) in
  let* fi := info_of c folder_id self in
  let* local_file := file_by_name c fi name in
  let proto_local := set_name_sequence source name 0 in
  let* '(uuid, orphans, n) :=
    match local_file with
    | None => Ok (next_uuid n, [], S n)
    | Some (p, f) =>
        if disable_blocks_removal then Ok (nil_uuid, [], n)
        else
          let* orphans := deduce [p] [] (cl_files c) (cl_heap c) in
          Ok (get_uuid f, orphans, n)
    end in
  let* '(new_blocks, orphans) :=
    if negb (pf_size proto_local =? 0) then collect_blocks (cl_blocks c) (pf_blocks proto_local) [] orphans
    else Ok ([], orphans) in
  let* _ := assert (bool_decide (new_blocks = []) || bool_decide (action = local_update)) in
  Ok (mkAdvance source proto_local folder_id peer_id uuid action new_blocks orphans, n).

(** The loop of [apply_impl]: the blocks are on the disk of this device. *)
Fixpoint local_blocks (known : block_map) (this : file_ptr) (i : nat) (bs : list BlockInfo)
    (f : file_info) (h : heap) : res (file_info * heap) :=
  match bs with
  | [] => Ok (f, h)
  | b :: bs =>
      let* hash := make_strict_hash (pb_hash b) in
      let* block := match by_hash known hash with Some p => Ok p | None => Ub end in
      let* '(f, h) := assign_block this f h block i in
      let* '(f, h) := mark_local_available this f h i in
      local_blocks known this (S i) bs f h
  end.

(** The rest of [apply_impl], on the folder info of this device. *)
Definition advance_file (known : block_map) (s : apply_state) (uuid : bytes) (f : FileInfo) : res apply_state :=
  let p := fresh (dom (ap_files s)) in
  let prev_file := by_name (fi_files (ap_info s)) (pf_name f) in
  let* '(file, h) := create_file p uuid f (fi_get_uuid (ap_info s)) (ap_heap s) in
  let* '(fi, q, file, h) :=
    match prev_file with
    | None => Ok (ap_info s, p, file, h)
    | Some q =>
        match ap_files s !! q with
        | None => Ub
        | Some prev =>
            let fi := fi_remove (ap_info s) (entry_of q prev) in
            let* '(prev, h) := update_file q prev h file in
            let* h := destroy_file p file h in
            Ok (fi, q, prev, h)
        end
    end in
  let* '(file, h) :=
    if negb (pf_size f =? 0) then local_blocks known q 0 (pf_blocks f) file h else Ok (file, h) in
  let sequence := fi_max_sequence fi + 1 in
  let* file := mark_local file true in
  store_file fi (ap_files s) h q (set_sequence file sequence).

(** [advance_t::apply_impl] without its sibling. *)
Definition apply_advance (c : cluster) (self : bytes) (a : advance) : res cluster :=
  let* '(known, h) := add_blocks (cl_blocks c) (cl_heap c) (av_new_blocks a) in
  let* '(known, h) := drop_blocks known h (av_orphans a) in
  let* fi := info_of c (av_folder_id a) self in
  let* s := advance_file known (mkApply fi (cl_files c) h) (av_uuid a) (av_local a) in
  Ok (mkCluster known (ap_heap s) (ap_files s) (set_info (av_folder_id a) self (ap_info s) (cl_folders c))).

(** ** [remote_copy_t] and [local_update_t] *)

(** Is the folder there, in use, and (for a remote file) shared with the peer? *)
Definition available_folder (c : cluster) (a : advance) (need_peer : bool) : bool :=
  match folder_by_id (cl_folders c) (av_folder_id a) with
  | None => false
  | Some fo =>
      negb (fo_suspended fo) &&
      (negb need_peer || bool_decide (is_Some (by_device_id (fo_infos fo) (av_peer_id a))))
  end.

Definition remote_copy_new (c : cluster) (self : bytes) (next_uuid : nat → bytes) (n : nat) (proto_file : FileInfo)
    (folder_id peer_id : bytes) (disable_blocks_removal : bool) : res (advance * nat) :=
  initialize c self next_uuid n folder_id peer_id remote_copy disable_blocks_removal proto_file [].

Definition remote_copy_apply (c : cluster) (self : bytes) (a : advance) : res cluster :=
  if available_folder c a true then apply_advance c self a else Ok c.

Definition local_update_apply (c : cluster) (self : bytes) (a : advance) : res cluster :=
  if available_folder c a false then apply_advance c self a else Ok c.

(** The comparison of the blocks of a candidate, up to the first [nullptr]. *)
Fixpoint same_blocks (h : heap) (bs : list slot) (blocks : list BlockInfo) : res bool :=
  match bs with
  | Some (p, _) :: bs =>
      match blocks with
      | [] => Ub
      | lb :: blocks =>
          let* pb := deref h p in
          if bool_decide (b_hash pb = pb_hash lb) then same_blocks h bs blocks else Ok false
      end
  | _ => Ok true
  end.

(** Does a peer have what was found on the disk? *)
Definition matches_local (h : heap) (candidate : file_info) (local_file : FileInfo) : res bool :=
  let* size := get_size candidate h in
  if negb (size =? pf_size local_file) then Ok false
  else if (as_flags (pf_type local_file) =? get_type candidate) &&
          Bool.eqb (pf_deleted local_file) (is_deleted candidate) &&
          Bool.eqb (pf_invalid local_file) (is_invalid candidate) &&
          (Bool.eqb (pf_no_permissions local_file) (has_no_permissions candidate) ||
           (pf_permissions local_file =? f_permissions candidate))
  then
    if is_file candidate then
      let* bs := file_blocks candidate in
      if (length bs =? length (pf_blocks local_file))%nat then same_blocks h bs (pf_blocks local_file) else Ok false
    else Ok true
  else Ok false.

(** [local_update_t::get_original]; [compare] never answers more than 1. *)
Fixpoint get_original (c : cluster) (self : bytes) (fis : list folder_info) (local_file : FileInfo)
    (r : option file_info) : res (option file_info) :=
  match fis with
  | [] => Ok r
  | fi :: fis =>
      let* peer_file :=
        if bool_decide (fi_device_sha fi = self) then Ok None
        else
          let* candidate := file_by_name c fi (pf_name local_file) in
          match candidate with
          | None => Ok None
          | Some (_, f) =>
              let* matches := matches_local (cl_heap c) f local_file in
              Ok (if matches then Some f else None)
          end in
      let r :=
        match peer_file, r with
        | None, _ => r
        | Some f, None => Some f
        | Some f, Some g => if 1 <? compare f g then Some f else Some g
        end in
      get_original c self fis local_file r
  end.

(** [local_update_t::local_update_t]; [device] is the short id of this device, [now] its
    clock, [empty_digest] the digest of nothing. *)
Definition local_update_new (empty_digest : bytes) (c : cluster) (self : bytes) (device now : Z)
    (next_uuid : nat → bytes) (n : nat) (proto_file : FileInfo) (folder_id : bytes) (disable_blocks_removal : bool)
    : res (advance * nat) :=
  match folder_by_id (cl_folders c) folder_id with
  | None => Ub
  | Some fo =>
      let* fi := info_of c folder_id self in
      let* _ := assert (negb (bool_decide (pf_name proto_file = []))) in
      let name := pf_name proto_file in
      let* local_file := file_by_name c fi name in
      let* original := get_original c self (fo_infos fo) proto_file None in
      match original with
      | Some f =>
          let* source := file_as_proto empty_digest f (cl_heap c) true in
          initialize c self next_uuid n folder_id self local_update disable_blocks_removal source name
      | None =>
          let* '(a, n) := initialize c self next_uuid n folder_id self local_update disable_blocks_removal
                            (set_modified_by proto_file device) name in
          let '(version, uuid) :=
            match local_file with
            | Some (_, f) =>
                (update device now (f_version f),
                 if disable_blocks_removal then get_uuid f else av_uuid a)
            | None => (version_of_device device now, av_uuid a)
            end in
          Ok (mkAdvance (av_source a) (set_version (av_local a) (as_proto version)) (av_folder_id a)
                (av_peer_id a) uuid (av_action a) (av_new_blocks a) (av_orphans a), n)
      end
  end.

(** ** [remote_win_t] *)

(** The local file becomes a copy under another name; its sibling takes the remote file. *)
Definition remote_win_new (empty_digest : bytes) (conflict_name : file_info → bytes) (c : cluster) (self : bytes)
    (next_uuid : nat → bytes) (n : nat) (proto_file : FileInfo) (folder_id peer_id : bytes)
    : res (advance * advance * nat) :=
  let* fi := info_of c folder_id self in
  let* local_file := file_by_name c fi (pf_name proto_file) in
  match local_file with
  | None => Ub
  | Some (_, f) =>
      let* source := file_as_proto empty_digest f (cl_heap c) true in
      let* '(a, n) := initialize c self next_uuid n folder_id peer_id resolve_remote_win false source (conflict_name f) in
      let* '(sibling, n) := remote_copy_new c self next_uuid n proto_file folder_id peer_id true in
      Ok (a, sibling, n)
  end.

(** [remote_win_t::apply_impl]: the entry of the old file goes first, then the copy and the sibling
    come; the old file itself is held until the end. *)
Definition remote_win_apply (c : cluster) (self : bytes) (a sibling : advance) : res cluster :=
  if available_folder c a true then
    let* fi := info_of c (av_folder_id a) self in
    let* prev := file_by_name c fi (pf_name (av_source a)) in
    match prev with
    | None => Ub
    | Some (p, f) =>
        let fi := fi_remove fi (entry_of p f) in
        let c := mkCluster (cl_blocks c) (cl_heap c) (cl_files c) (set_info (av_folder_id a) self fi (cl_folders c)) in
        let* c := apply_advance c self a in
        let* c := remote_copy_apply c self sibling in
        let* '(files, h) := destroy_files [p] (cl_files c) (cl_heap c) in
        Ok (mkCluster (cl_blocks c) h files (cl_folders c))
    end
  else remote_copy_apply c self sibling.

(** [advance_t::create]: the change for a decision of [resolve], with its sibling if it has one. *)
Definition advance_create (empty_digest : bytes) (conflict_name : file_info → bytes) (c : cluster) (self : bytes)
    (next_uuid : nat → bytes) (n : nat) (action : advance_action) (source : file_info) (folder_id peer_id : bytes)
    : res (advance * option advance * nat) :=
  let* proto_file := file_as_proto empty_digest source (cl_heap c) true in
  if bool_decide (action = remote_copy) then
    let* '(a, n) := remote_copy_new c self next_uuid n proto_file folder_id peer_id false in
    Ok (a, None, n)
  else
    let* _ := assert (bool_decide (action = resolve_remote_win)) in
    let* '(a, sibling, n) := remote_win_new empty_digest conflict_name c self next_uuid n proto_file folder_id peer_id in
    Ok (a, Some sibling, n).

(** ** The uuid of a file that won a conflict *)

(** Two files of this device, both without content. *)
Definition plain_file (n : Z) (name : bytes) : file_info :=
  mkFile (repeat 8 16 ++ repeat n 16) name 0 0 n 420 0 (FileContent []) [Counter 1 n] f_type_file.

Definition conflict_cluster : cluster :=
  mkCluster ∅ ∅ {[ 1%positive := plain_file 1 (chars "a"); 2%positive := plain_file 2 (chars "b") ]}
    [with_infos (create_folder (repeat 4 16)
       (mkDbFolder (chars "f") [] false false false false false [] send_and_receive random 0 false))
       [mkFolderInfo (prefix_folder_info :: repeat 8 64) 1 2 [] (repeat 1 32) (chars "s")
          [entry_of 1 (plain_file 1 (chars "a")); entry_of 2 (plain_file 2 (chars "b"))];
        mkFolderInfo (prefix_folder_info :: repeat 9 64) 1 0 [] (repeat 9 32) (chars "k") []]].

Definition remote_file (name : bytes) : FileInfo :=
  mkFileInfo name FILE 0 420 5 0 2 false false false [Counter 2 7] 3 0 [] [].

(** A conflict on [name], from the change to its application. *)
Definition conflict_on (name : bytes) (n : nat) (c : cluster) : res cluster :=
  let* '(a, sibling, _) := remote_win_new [] (λ f, f_name f ++ chars ".copy") c (repeat 1 32)
                             (λ n, repeat (100 + Z.of_nat n) 16) n (remote_file name) (chars "f") (repeat 9 32) in
  remote_win_apply c (repeat 1 32) a sibling.

(** After a conflict on "a" and one on "b" the remote version of "a" is gone: the copies of
    remote files that win a conflict are made with [disable_blocks_removal] while the local file
    still exists, so no uuid is assigned to them, and the second one evicts the first one. *)
Example conflicts_share_uuid :
  let names r := match r with
    | Ok c => map (λ fo, map (λ fi, map e_name (fi_files fi)) (fo_infos fo)) (cl_folders c)
    | _ => [] end in
  names (conflict_on (chars "a") 0 conflict_cluster) = [[[chars "b"; chars "a.copy"; chars "a"]; []]] ∧
  names (let* c := conflict_on (chars "a") 0 conflict_cluster in conflict_on (chars "b") 1 c) =
    [[[chars "a.copy"; chars "b.copy"; chars "b"]; []]].
Proof. split; vm_compute; reflexivity. Qed.

(** No file that wins a conflict gets a uuid of its own. *)
Lemma remote_win_uuid empty_digest conflict_name c self next_uuid n f folder_id peer_id a sibling n' :
  remote_win_new empty_digest conflict_name c self next_uuid n f folder_id peer_id = Ok (a, sibling, n') →
  av_uuid sibling = nil_uuid.
Proof.
  intros H. unfold remote_win_new in H. apply bind_Ok in H as (fi & Hfi & H). apply bind_Ok in H as (lf & Hlf & H).
  destruct lf as [[p g]|]; [|done]. apply bind_Ok in H as (src & _ & H). apply bind_Ok in H as ([a' n1] & _ & H).
  apply bind_Ok in H as ([s' n2] & Hs & H). injection H as <- <- <-.
  unfold remote_copy_new, initialize in Hs. rewrite (bool_decide_eq_true_2 (([] : bytes) = [])) in Hs by done.
  apply bind_Ok in Hs as (? & _ & Hs). rewrite Hfi in Hs. cbn [res_bind] in Hs. rewrite Hlf in Hs. cbn [res_bind] in Hs.
  apply bind_Ok in Hs as ([nb os] & _ & Hs). apply bind_Ok in Hs as (? & _ & Hs). by injection Hs as <-.
Qed.
