(* ===== verification/AdvanceLocal.v ===== *)
(** * AdvanceLocal: what applying an advance (see Advance) does to the folder of this device: the
    file is stored under its name with the next sequence, all its blocks marked as being on
    the disk, and the cluster is consistent again. *)

From S2P Require Import Prelude Version Proto Blocks FileInfo FileStore FileMap GenericMap Device Folder Resolver BlockMap UpdateFolder ApplyUpdate Advance.

(** ** Blocks on the disk *)

Definition local_slot (known : block_map) (b : BlockInfo) : slot := (λ p, (p, true)) <$> known !! strict b.

Lemma avail_false f pre post s : slot_local s = false → (avail_ok f (pre ++ s :: post) ↔ has_flag (f_flags f) f_available = false).
Proof.
  intros Hs. unfold avail_ok. rewrite forallb_app. cbn [forallb]. rewrite Hs. cbn [andb]. rewrite !andb_false_r.
  done.
Qed.

Lemma local_blocks_wf known this E bs : ∀ pre σ h f n,
  wf_heap σ E h → σ !! this = Some (pre ++ replicate (length bs) None) →
  f_content f = FileContent (pre ++ replicate (length bs) None) → is_file f = true →
  avail_ok f (pre ++ replicate (length bs) None) →
  Z.of_nat (length pre + length bs) < 2 ^ 31 →
  Forall (λ b, short_block b ∧ ∃ p, known !! strict b = Some p ∧ 0 < E p) bs →
  roomy (n + Z.of_nat (length bs)) h → 0 <= n →
  ∃ f' h', local_blocks known this (length pre) bs f h = Ok (f', h') ∧
    f_content f' = FileContent (pre ++ map (local_slot known) bs) ∧ same_meta f f' ∧ flags_kept f f' ∧
    avail_ok f' (pre ++ map (local_slot known) bs) ∧
    wf_heap (<[this := pre ++ map (local_slot known) bs]> σ) E h' ∧ shrinks h h'.
Proof.
  induction bs as [|b bs IH]; intros pre σ h f n H Hσ Hf Hfile Hav Hlen Hall Hr Hn; cbn [local_blocks map].
  - cbn [length replicate] in Hσ, Hf, Hav. exists f, h. split_and!; try done; [|by rewrite insert_id].
    unfold same_meta, with_flags, with_content. by destruct f.
  - apply Forall_cons in Hall as [(Hs & p & Hk & HE) Hall]. cbn [length] in Hlen, Hr.
    rewrite make_strict_hash_short by done. cbn [res_bind]. unfold by_hash. rewrite Hk. cbn [res_bind].
    destruct (h !! p) as [blk|] eqn:Hp; [|destruct (heap_dead _ _ _ H _ Hp); lia].
    cbn [length replicate] in Hσ, Hf, Hav. set (rest := replicate (length bs) (None : slot)) in *.
    destruct (assign_block_wf σ E h this f _ (length pre) p blk (n + Z.of_nat (S (length bs))) H Hσ Hf Hfile)
      as (h1 & -> & H1 & Hr1 & Hs1); try done; [by apply list_lookup_middle|lia|lia|]. cbn [res_bind].
    assert (∀ s t : slot, <[length pre := s]> (pre ++ t :: rest) = pre ++ s :: rest) as Hi.
    { intros s t. rewrite insert_app_r_alt by lia. by rewrite Nat.sub_diag. }
    rewrite Hi in H1 |- *. set (f1 := with_content f _).
    destruct (mark_local_available_wf (<[this := pre ++ Some (p, false) :: rest]> σ) E h1 this f1 (pre ++ Some (p, false) :: rest)
      (length pre) p (n + Z.of_nat (length bs)) H1) as (f2 & h2 & -> & Hf2 & Hm2 & Hk2 & Hav2 & H2 & Hr2 & Hs2); try done.
    + apply lookup_insert_eq.
    + apply avail_false; [done|]. by apply avail_false in Hav.
    + by apply list_lookup_middle.
    + intros q c Hq. specialize (Hr1 _ _ Hq). lia.
    + cbn [res_bind]. rewrite Hi in Hf2, Hav2, H2. rewrite insert_insert_eq in H2.
      destruct (IH (pre ++ [Some (p, true)]) (<[this := pre ++ Some (p, true) :: rest]> σ) h2 f2 n)
        as (f3 & h3 & He & Hf3 & Hm3 & Hk3 & Hav3 & H3 & Hs3); rewrite <- ?app_assoc; try done.
      * by rewrite lookup_insert_eq.
      * by rewrite (is_file_kept _ _ Hk2).
      * rewrite length_app. cbn [length]. lia.
      * rewrite length_app, Nat.add_1_r in He. rewrite He. exists f3, h3.
        assert ((pre ++ [Some (p, true)]) ++ map (local_slot known) bs = pre ++ local_slot known b :: map (local_slot known) bs) as Heq
          by (unfold local_slot at 2; rewrite Hk, <- app_assoc; done).
        rewrite Heq in Hf3, Hav3, H3. rewrite insert_insert_eq in H3.
        split_and!; try done; [by eapply same_meta_trans; [exact Hm2|]|..].
        -- intros i Hi1 Hi2. rewrite Hk3, Hk2 by done. done.
        -- etrans; [exact Hs1|]. by etrans.
Qed.

(** ** The marks of a local file *)

Definition local_flags (flags : Z) : Z := set_flag (clear_flag (set_flag flags f_local) f_unreachable) f_available.

Lemma local_flags_bit flags i : 0 <= i < 16 →
  Z.testbit (local_flags flags) i = (Z.testbit flags i && negb (7 =? i)) || (8 =? i) || (9 =? i).
Proof.
  intros Hi. unfold local_flags, f_local, f_unreachable, f_available.
  rewrite set_flag_bit, clear_flag_bit, set_flag_bit by lia.
  destruct (Z.ltb_spec i 16), (Z.eqb_spec 7 i), (Z.eqb_spec 8 i), (Z.eqb_spec 9 i); try lia;
    by destruct (Z.testbit flags i).
Qed.

Lemma local_flags_is_file f c : is_file (with_flags (with_content f c) (local_flags (f_flags f))) = is_file f.
Proof.
  unfold is_file, f_type_file. cbn [with_flags f_flags]. rewrite !has_flag_bit, local_flags_bit by lia. cbn.
  by rewrite andb_true_r, !orb_false_r.
Qed.

Lemma mark_local_all f bs :
  (is_file f = true → f_content f = FileContent bs ∧ forallb slot_local bs = true) →
  mark_local f true = Ok (with_flags f (local_flags (f_flags f))).
Proof.
  intros Hb. unfold mark_local. set (f1 := with_flags f _).
  assert (is_file f1 = is_file f) as Hf1.
  { unfold is_file, f_type_file, f1, f_local, f_unreachable. cbn [with_flags f_flags].
    rewrite !has_flag_bit, clear_flag_bit, set_flag_bit by lia. cbn. by rewrite andb_true_r, orb_false_r. }
  rewrite Hf1. destruct (is_file f); [|done]. destruct Hb as [Hc Hall]; [done|].
  unfold file_blocks, f1. cbn [with_flags f_content]. rewrite Hc. cbn [res_bind].
  rewrite Nat.eqb_sym, count_local_all, Hall. done.
Qed.

Lemma local_slots_all known bs :
  Forall (λ b, short_block b ∧ is_Some (known !! strict b)) bs → forallb slot_local (map (local_slot known) bs) = true.
Proof.
  induction 1 as [|b bs [_ [p Hp]] _ IH]; [done|]. cbn [map forallb]. unfold local_slot at 1. by rewrite Hp.
Qed.

(** ** Filling a prepared file *)

(** A file that has the metadata of the message and no blocks yet. *)
Record prepared (uuid : bytes) (f : FileInfo) (file : file_info) : Prop := {
  pr_name : f_name file = pf_name f;
  pr_version : version_of_proto (pf_version f) = Ok (f_version file);
  pr_modified : f_modified_s file = pf_modified_s f ∧ f_modified_ns file = u32 (pf_modified_ns f) ∧
    f_modified_by file = pf_modified_by f ∧ f_permissions file = pf_permissions f;
  pr_flags : ∀ i, 0 <= i < 6 → Z.testbit (f_flags file) i =
    Z.testbit (wire_flags 0 (pf_type f) (pf_deleted f) (pf_invalid f) (pf_no_permissions f)) i;
  pr_uuid : get_uuid file = uuid;
  pr_file : is_file file = regular (pf_type f);
  pr_slots : slots file = if regular (pf_type f) then replicate (message_slots f) None else [];
  pr_avail : message_slots f ≠ 0%nat → regular (pf_type f) = true → has_flag (f_flags file) f_available = false;
}.

(** What is asked of a message: no blocks without a size, none for anything but a file. *)
Definition well_sized (f : FileInfo) : Prop :=
  pf_blocks f = [] ∨ (pf_size f ≠ 0 ∧ regular (pf_type f) = true).

Lemma well_sized_slots f : well_sized f → message_slots f = length (pf_blocks f) ∧
  (regular (pf_type f) = false → pf_blocks f = []).
Proof.
  unfold message_slots. intros [->|[Hs Hr]]; [by destruct (pf_size f =? 0)|].
  split; [by destruct (Z.eqb_spec (pf_size f) 0)|congruence].
Qed.

Lemma get_type_kept f f' : (∀ i, 0 <= i < 3 → Z.testbit (f_flags f') i = Z.testbit (f_flags f) i) → get_type f' = get_type f.
Proof.
  intros Hk. apply Z.bits_inj'. intros i Hi. destruct (decide (i < 3)).
  - rewrite !type_bit by lia. apply Hk. lia.
  - unfold get_type. change 7 with (Z.ones 3). by rewrite !Z.land_spec, !Z.ones_spec_high, !andb_false_r by lia.
Qed.

(** The blocks of the message, as the file of this device has them. *)
Lemma fill_wf known files h q uuid f file :
  wf_store (<[q := file]> files) (map_refs known) h → map_Forall (λ _ f, wf_file f) files →
  prepared uuid f file → storable known f → well_sized f → roomy (Z.of_nat (length (pf_blocks f))) h →
  ∃ f' h', (if negb (pf_size f =? 0) then local_blocks known q 0 (pf_blocks f) file h else Ok (file, h)) = Ok (f', h') ∧
    same_meta file f' ∧ flags_kept file f' ∧ slots f' = map (local_slot known) (pf_blocks f) ∧
    (is_file f' = true → f_content f' = FileContent (slots f')) ∧ (is_file file = false → f_content f' = f_content file) ∧
    wf_store (<[q := f']> files) (map_refs known) h' ∧ shrinks h h'.
Proof.
  intros Hwf Hfs Hp Hok Hws Hr. destruct (well_sized_slots f Hws) as [Hms Hnr].
  pose proof (store_files _ _ _ Hwf q file (lookup_insert_eq _ _ _)) as Hw.
  assert (pf_blocks f = [] → slots file = []) as Hnil.
  { intros Hb. rewrite (pr_slots _ _ _ Hp), Hms, Hb. by destruct (regular _). }
  destruct (decide (pf_blocks f = [])) as [Hb|Hb].
  - exists file, h. split_and!; try done.
    + rewrite Hb. by destruct (pf_size f =? 0).
    + unfold same_meta, with_flags, with_content. by destruct file.
    + rewrite Hb. by apply Hnil.
    + by apply wf_file_blocks.
  - destruct Hws as [?|[Hsz Hreg]]; [done|]. destruct (Z.eqb_spec (pf_size f) 0); [done|]. cbn [negb].
    assert (is_file file = true) as Hfile by (by rewrite (pr_file _ _ _ Hp)).
    assert (slots file = replicate (length (pf_blocks f)) None) as Hsl by (rewrite (pr_slots _ _ _ Hp), Hms; by rewrite Hreg).
    pose proof (wf_file_blocks _ Hw Hfile) as Hc.
    destruct (local_blocks_wf known q (map_refs known) (pf_blocks f) [] (slots <$> <[q := file]> files) h file 0)
      as (f' & h' & He & Hf' & Hm & Hk & _ & H' & Hs); cbn [app length]; rewrite <- ?Hsl; try done.
    + apply Hwf.
    + by rewrite fmap_insert, lookup_insert_eq.
    + rewrite Hsl. destruct (pf_blocks f) as [|b bs] eqn:Hbs; [done|]. cbn [length replicate].
      apply (avail_false file []); [done|]. apply (pr_avail _ _ _ Hp); [|done]. by rewrite Hms.
    + apply (st_length _ _ Hok).
    + eapply Forall_impl; [apply (st_blocks _ _ Hok)|]. intros b [? [p Hpb]]. split; [done|]. exists p. split; [done|].
      by rewrite (map_refs_some _ _ _ Hpb).
    + exists f', h'. assert (slots f' = map (local_slot known) (pf_blocks f)) as Hsl' by (unfold slots; by rewrite Hf').
      split_and!; try done; [by rewrite Hsl'|congruence|]. rewrite fmap_insert, insert_insert_eq in H'. cbn [app] in H'.
      split; [by rewrite fmap_insert, Hsl'|].
      apply map_Forall_insert_2; [|done].
      split; [|rewrite (is_file_kept _ _ Hk), Hfile; by eexists|rewrite Hsl', length_map; apply (st_length _ _ Hok)].
      enough (get_type f' = get_type file) as ->; [apply Hw|]. apply get_type_kept. intros i Hi. apply Hk; lia.
Qed.

Lemma local_slots_blocks known bs : map slot_block (map (local_slot known) bs) = map (λ b, known !! strict b) bs.
Proof. rewrite map_map. apply map_ext. intros b. unfold local_slot. by destruct (known !! strict b). Qed.

(** The flags of a local file and its number leave the store as it is. *)
Lemma relabelled files E h q f1 sequence :
  wf_store (<[q := f1]> files) E h → map_Forall (λ _ f, wf_file f) files →
  wf_store (<[q := set_sequence (with_flags f1 (local_flags (f_flags f1))) sequence]> files) E h.
Proof.
  intros Hwf Hfs. pose proof (store_files _ _ _ Hwf q f1 (lookup_insert_eq _ _ _)) as Hw. split.
  - pose proof (store_heap _ _ _ Hwf) as H. rewrite fmap_insert in H |- *. exact H.
  - apply map_Forall_insert_2; [|done]. split.
    + rewrite (get_type_kept f1); [apply Hw|]. intros i Hi. cbn [set_sequence with_flags f_flags]. rewrite local_flags_bit by lia.
      destruct (Z.eqb_spec 7 i), (Z.eqb_spec 8 i), (Z.eqb_spec 9 i); try lia. cbn [negb]. by rewrite andb_true_r, !orb_false_r.
    + pose proof (local_flags_is_file f1 (f_content f1)) as Hi. unfold is_file in Hi |- *. cbn [set_sequence with_flags with_content f_flags f_content] in *.
      rewrite Hi. apply (file_member _ Hw).
    + apply (file_length _ Hw).
Qed.

(** The message with the sequence it gets on this device. *)
Definition numbered (f : FileInfo) (sequence : Z) : FileInfo := set_name_sequence f (pf_name f) sequence.

(** The end of [apply_impl]: fill, mark, number and store. *)
Lemma finish_local known fi files h q uuid f file :
  wf_store (<[q := file]> files) (map_refs known) h → map_Forall (λ _ f, wf_file f) files →
  prepared uuid f file → storable known f → well_sized f → roomy (Z.of_nat (length (pf_blocks f))) h →
  wf_folder_info fi → (∀ x, x ∈ fi_files fi → e_name x ≠ pf_name f ∧ e_uuid x ≠ uuid) →
  let sequence := fi_max_sequence fi + 1 in
  ∃ f' h', (let* '(file, h) :=
        if negb (pf_size f =? 0) then local_blocks known q 0 (pf_blocks f) file h else Ok (file, h) in
      let* file := mark_local file true in
      store_file fi files h q (set_sequence file sequence)) =
      Ok (mkApply (with_files fi sequence (insert_entry (entry_of q f') (fi_files fi))) (<[q := f']> files) h') ∧
    wf_store (<[q := f']> files) (map_refs known) h' ∧ shrinks h h' ∧
    entry_of q f' = mkEntry q uuid (pf_name f) sequence ∧ stored known (numbered f sequence) f' ∧
    wf_folder_info (with_files fi sequence (insert_entry (entry_of q f') (fi_files fi))) ∧
    is_local f' = true ∧ is_locally_available f' = Ok true ∧ (is_file file = false → f_content f' = f_content file).
Proof.
  intros Hwf Hfs Hp Hok Hws Hr Hfi Hnc sequence.
  destruct (fill_wf known files h q uuid f file) as (f1 & h1 & -> & Hm & Hk & Hsl & Hc & Hnc' & Hwf1 & Hs1); try done. cbn [res_bind].
  rewrite (mark_local_all f1 (slots f1)) by (intros Hf1; split; [by apply Hc|rewrite Hsl; apply local_slots_all, Hok]).
  cbn [res_bind]. set (f' := set_sequence _ sequence).
  assert (slots f' = slots f1) as Hsl' by done.
  assert (entry_of q f' = mkEntry q uuid (pf_name f) sequence) as He.
  { unfold entry_of, f', get_uuid. cbn. rewrite Hm. cbn. rewrite (pr_name _ _ _ Hp). f_equal. exact (pr_uuid _ _ _ Hp). }
  assert (∀ i, 0 <= i < 7 → Z.testbit (f_flags f') i = Z.testbit (f_flags file) i) as Hbits.
  { intros i Hi. change (f_flags f') with (local_flags (f_flags f1)). rewrite local_flags_bit by lia.
    destruct (Z.eqb_spec 7 i), (Z.eqb_spec 8 i), (Z.eqb_spec 9 i); try lia. cbn [negb]. rewrite andb_true_r, !orb_false_r.
    apply Hk; lia. }
  destruct (store_file_new fi files h1 q f') as [Hst Hfi']; try done.
  { cbn. unfold sequence. lia. }
  { rewrite He. apply Forall_forall. intros x Hx. destruct (Hnc x Hx). intros [Hcx|[Hcx|Hcx]]; cbn in Hcx; try done.
    pose proof (fi_bound _ Hfi x Hx). unfold sequence in Hcx. lia. }
  exists f', h1. change (f_sequence f') with sequence in Hst, Hfi'. rewrite Hst. split_and!; try done.
  - by apply relabelled.
  - split.
    1-4: unfold f'; rewrite Hm; apply Hp || done.
    + intros i Hi. rewrite Hbits by lia. by apply (pr_flags _ _ _ Hp).
    + intros _. rewrite Hsl', Hsl. apply local_slots_blocks.
    + intros i p. rewrite slots_blocks_lookup, Hsl', Hsl, local_slots_blocks.
      change (@map BlockInfo (option block_ptr)) with (@fmap list _ BlockInfo (option block_ptr)).
      rewrite list_lookup_fmap. destruct (pf_blocks f !! i); [|done]. cbn. eauto.
    + rewrite Hsl', Hsl. by rewrite length_map.
  - unfold is_local, f_local. change (f_flags f') with (local_flags (f_flags f1)). rewrite has_flag_bit, local_flags_bit by lia.
    cbn. by rewrite orb_true_r.
  - unfold is_locally_available. destruct (is_file f'); [|done].
    replace (has_flag (f_flags f') f_available) with true; [done|]. unfold f_available.
    change (f_flags f') with (local_flags (f_flags f1)). rewrite has_flag_bit, local_flags_bit by lia. by rewrite !orb_true_r.
Qed.

(** ** Preparing the file *)

Lemma wire_flags_avail type d i np : has_flag (wire_flags 0 type d i np) f_available = false.
Proof. by destruct type, d, i, np. Qed.

Lemma created_prepared uuid fi_uuid f v :
  version_of_proto (pf_version f) = Ok v → length fi_uuid = uuid_length → prepared uuid f (created uuid fi_uuid f v).
Proof.
  intros Hv Hl. split; try done.
  - unfold get_uuid, created, create_key. cbn [f_key]. by rewrite <- Hl, drop_app_length.
  - apply created_is_file.
  - apply created_slots.
  - intros _ _. apply wire_flags_avail.
Qed.

Lemma created_wf_file uuid fi_uuid f v :
  Z.of_nat (length (pf_blocks f)) < 2 ^ 31 → wf_file (created uuid fi_uuid f v).
Proof.
  intros Hl. split.
  - apply wire_flags_facts.
  - rewrite created_is_file. unfold created. cbn [f_content]. destruct (regular _); by eexists.
  - rewrite created_slots. destruct (regular _); [|cbn; lia]. rewrite length_replicate. unfold message_slots. destruct (pf_size f =? 0); lia.
Qed.

Lemma no_blocks l n : map slot_block l = map slot_block (replicate n (None : slot)) → l = replicate n None.
Proof.
  revert n. induction l as [|s l IH]; intros [|n] H; try done. cbn [replicate map] in *. injection H as Hs H.
  destruct s as [[p b]|]; [done|]. by rewrite (IH n).
Qed.

Lemma created_link uuid fi_uuid f v :
  pf_type f = SYMLINK → is_file (created uuid fi_uuid f v) = false ∧ is_link (created uuid fi_uuid f v) = true ∧
    f_content (created uuid fi_uuid f v) = NonFile (pf_symlink_target f).
Proof. intros Ht. rewrite <- (made_unloaded ∅) by (unfold loaded; by rewrite Ht). by apply made_link. Qed.

Lemma took_is_file prev file f' : took prev file f' → is_file f' = is_file file.
Proof. intros [_ _ Hf _ _]. unfold is_file, f_type_file. rewrite !has_flag_bit by lia. by apply Hf. Qed.

Lemma took_prepared uuid f prev file f' :
  prepared uuid f file → took prev file f' → f_name prev = f_name file → get_uuid prev = uuid → prepared uuid f f'.
Proof.
  intros Hp Ht Hn Hu. pose proof (took_is_file _ _ _ Ht) as Hfile. destruct Ht as [Hm Hs Hf Ha _].
  assert (slots f' = slots file) as Hsl.
  { rewrite (pr_slots _ _ _ Hp) in Hs |- *. destruct (regular _); [by apply no_blocks|]. by apply (no_blocks _ 0). }
  split.
  1-3: rewrite Hm; cbn; rewrite ?Hn; apply Hp.
  - intros i Hi. rewrite Hf by done. by apply (pr_flags _ _ _ Hp).
  - rewrite Hm. exact Hu.
  - rewrite Hfile. apply Hp.
  - rewrite Hsl. apply Hp.
  - intros Hne Hr. rewrite (pr_file _ _ _ Hp), Hr in Ha. specialize (Ha eq_refl).
    rewrite Hsl, (pr_slots _ _ _ Hp), Hr in Ha. unfold is_locally_available in Ha. rewrite Hfile, (pr_file _ _ _ Hp), Hr in Ha.
    destruct (has_flag (f_flags f') f_available); [|done]. by destruct (message_slots f).
Qed.

(** ** A round on the folder of this device *)

Lemma advance_new known s uuid f v :
  wf_apply known s → storable known f → well_sized f → version_of_proto (pf_version f) = Ok v →
  small (ap_files s) (length (pf_blocks f)) → by_name (fi_files (ap_info s)) (pf_name f) = None → fits_in s uuid f →
  ∃ s' e f', advance_file known s uuid f = Ok s' ∧
    round known s uuid (numbered f (fi_max_sequence (ap_info s) + 1)) s' e f' ∧
    is_local f' = true ∧ is_locally_available f' = Ok true.
Proof.
  intros [Hst Hfi Hen Hul] Hok Hws Hv Hsm Hn Hfit. unfold fits_in in Hfit. rewrite Hn in Hfit. unfold small in Hsm.
  unfold advance_file. set (p := fresh (dom (ap_files s))).
  assert (ap_files s !! p = None) as Hp by (apply not_elem_of_dom, is_fresh).
  rewrite (create_file_eq _ _ _ _ v) by (apply Hok || done). cbn [res_bind]. rewrite Hn. cbn [res_bind].
  set (file := created uuid (fi_get_uuid (ap_info s)) f v).
  assert (wf_store (<[p := file]> (ap_files s)) (map_refs known) (ap_heap s)) as Hwf1.
  { eapply wf_store_insert; [exact Hst|by apply created_heap|apply created_wf_file, Hok]. }
  apply by_name_none in Hn as Hnn. rewrite Forall_forall in Hnn, Hfit.
  destruct (finish_local known (ap_info s) (ap_files s) (ap_heap s) p uuid f file) as
    (f' & h' & -> & Hwf' & Hs' & He & Hsd & Hfi' & Hl & Ha & Hct); try done.
  { apply Hst. } { by apply created_prepared. } { eapply store_roomy; [exact Hst|lia]. } { intros x Hx. split; auto. }
  assert (∀ x, x ∈ fi_files (ap_info s) → e_file x ≠ p) as Hpx.
  { intros x Hx Heq. destruct (Hen x Hx) as (g & Hg & _). congruence. }
  do 3 eexists. split; [done|]. split; [|done].
  split; cbn [ap_info ap_files ap_heap]; [|done|done|exact He|apply lookup_insert_eq|done|..].
  - split; try done. intros e [->|He']%insert_entry_elem; cbn [ap_files].
    + exists f'. split; [apply lookup_insert_eq|done].
    + destruct (Hen e He') as (g & Hg & ?). exists g. split; [|done]. rewrite lookup_insert_ne; [done|].
      intros Heq. by apply (Hpx e He').
  - cbn [numbered set_name_sequence pf_type pf_symlink_target]. intros Ht _. destruct (created_link uuid (fi_get_uuid (ap_info s)) f v Ht) as (L1 & _ & L3).
    by rewrite Hct.
  - intros x. cbn [with_files fi_files]. rewrite insert_entry_elem. specialize (Hnn x). naive_solver.
  - intros o Ho. by rewrite lookup_insert_ne.
  - cbn [numbered set_name_sequence pf_name]. by rewrite Hn.
  - rewrite fmap_insert, capacity_new by (by rewrite lookup_fmap, Hp). pose proof (sd_length _ _ _ Hsd) as Hlen. cbn in Hlen.
    cbn [numbered set_name_sequence pf_blocks]. lia.
Qed.

Lemma advance_update known s uuid f v q :
  wf_apply known s → storable known f → well_sized f → version_of_proto (pf_version f) = Ok v →
  small (ap_files s) (length (pf_blocks f)) → by_name (fi_files (ap_info s)) (pf_name f) = Some q → fits_in s uuid f →
  ∃ s' e f', advance_file known s uuid f = Ok s' ∧
    round known s uuid (numbered f (fi_max_sequence (ap_info s) + 1)) s' e f' ∧
    is_local f' = true ∧ is_locally_available f' = Ok true.
Proof.
  intros [Hst Hfi Hen Hul] Hok Hws Hv Hsm Hn Hfit. unfold fits_in in Hfit. rewrite Hn in Hfit.
  unfold advance_file. set (p := fresh (dom (ap_files s))).
  assert (ap_files s !! p = None) as Hp by (apply not_elem_of_dom, is_fresh).
  rewrite (create_file_eq _ _ _ _ v) by (apply Hok || done). cbn [res_bind]. rewrite Hn.
  set (file := created uuid (fi_get_uuid (ap_info s)) f v).
  assert (prepared uuid f file) as Hpr by by apply created_prepared.
  assert (wf_store (<[p := file]> (ap_files s)) (map_refs known) (ap_heap s)) as Hwf1.
  { eapply wf_store_insert; [exact Hst|by apply created_heap|apply created_wf_file, Hok]. }
  destruct (by_name_elem _ _ _ Hn) as (eq & Heq & Heqf & Heqn).
  destruct (Hen eq Heq) as (prev & Hprev & Heqe). rewrite Heqf in Hprev, Heqe. rewrite Hprev.
  destruct (Hfit prev Hprev) as [Hu Hk].
  assert (f_name prev = pf_name f) as Hnp by (rewrite <- Heqn, Heqe; done).
  assert (length (slots file) <= length (pf_blocks f))%nat as Hlf.
  { rewrite (pr_slots _ _ _ Hpr). destruct (regular _); [|cbn; lia]. rewrite length_replicate. unfold message_slots. destruct (pf_size f =? 0); lia. }
  destruct (replace_wf known (ap_files s) (ap_heap s) p q prev file (length (pf_blocks f))) as
    (f1 & h1 & h2 & -> & Hd & H2 & Ht & Hs2 & Hcap); try done.
  { rewrite Hk. by rewrite (pr_file _ _ _ Hpr). } { by rewrite (pr_uuid _ _ _ Hpr). }
  cbn [res_bind]. rewrite Hd. cbn [res_bind].
  assert (∀ x, x ∈ remove (fi_files (ap_info s)) (entry_of q prev) ↔
    x ∈ fi_files (ap_info s) ∧ e_name x ≠ pf_name f) as Hrem.
  { intros x. rewrite <- Heqe, remove_elem by (apply Hfi || done). by rewrite Heqn. }
  set (fi1 := fi_remove (ap_info s) (entry_of q prev)).
  assert (wf_folder_info fi1) as Hfr.
  { split; [by repeat apply wf_map_filter; apply Hfi|]. intros x [Hx _]%Hrem. by apply (fi_bound _ Hfi). }
  destruct (finish_local known fi1 (ap_files s) h2 q uuid f f1) as
    (f' & h' & -> & Hwf' & Hs' & He & Hsd & Hfi' & Hl & Ha & Hct); try done.
  { apply Hst. } { by eapply took_prepared. } { eapply store_roomy; [exact H2|unfold small in Hsm; lia]. }
  { intros x [Hx Hxn]%Hrem. split; [done|]. intros Hxu. apply Hxn. rewrite <- Heqn.
    rewrite (wf_map_key _ x eq (fi_map _ Hfi) Hx Heq); [done|]. left. by rewrite Hxu, Heqe, <- Hu. }
  do 3 eexists. split; [done|]. split; [|done].
  split; cbn [ap_info ap_files ap_heap]; [|by etrans|done|exact He|apply lookup_insert_eq|done|..].
  - split; try done. intros e [->|[He' Hne]%Hrem]%insert_entry_elem; cbn [ap_files].
    + exists f'. split; [apply lookup_insert_eq|done].
    + destruct (Hen e He') as (g & Hg & Heg). exists g. split; [|done]. rewrite lookup_insert_ne; [done|].
      intros Heq'. apply Hne. rewrite <- Heq' in Hg. assert (g = prev) as -> by congruence. by rewrite Heg.
  - cbn [numbered set_name_sequence pf_type pf_symlink_target]. intros Hty Hlk. destruct (created_link uuid (fi_get_uuid (ap_info s)) f v Hty) as (L1 & L2 & L3).
    fold file in L1, L2, L3. rewrite Hct, <- L3; [|by rewrite (took_is_file _ _ _ Ht)]. apply (took_link _ _ _ Ht); try done. by apply (Hlk q).
  - intros x. cbn [fi1 fi_remove with_files fi_files]. rewrite insert_entry_elem, Hrem. tauto.
  - intros o Ho. by rewrite lookup_insert_ne.
  - cbn [numbered set_name_sequence pf_name]. by rewrite Hn.
  - assert ((slots <$> ap_files s) !! q = Some (slots prev)) as Hσ by by rewrite lookup_fmap, Hprev.
    pose proof (capacity_insert _ _ _ (slots f') Hσ). pose proof (sd_length _ _ _ Hsd) as Hlen. cbn in Hlen.
    rewrite fmap_insert. cbn [numbered set_name_sequence pf_blocks]. lia.
Qed.

Lemma advance_round known s uuid f :
  wf_apply known s → storable known f → well_sized f →
  small (ap_files s) (length (pf_blocks f)) → fits_in s uuid f →
  ∃ s' e f', advance_file known s uuid f = Ok s' ∧
    round known s uuid (numbered f (fi_max_sequence (ap_info s) + 1)) s' e f' ∧
    is_local f' = true ∧ is_locally_available f' = Ok true.
Proof.
  intros Hwf Hok Hws Hsm Hfit. destruct (version_of_proto_marks _ (st_version _ _ Hok)) as (v & ? & Hv & _).
  destruct (by_name (fi_files (ap_info s)) (pf_name f)) as [q|] eqn:Hn; [by eapply advance_update|by eapply advance_new].
Qed.

(** ** What [initialize] computes *)

Lemma collect_blocks_spec known bs : ∀ new_blocks orphans,
  Forall short_block bs →
  ∃ orphans', collect_blocks known bs new_blocks orphans =
      Ok (new_blocks ++ filter (λ b, known !! strict b = None) bs, orphans') ∧
    (NoDup orphans → NoDup orphans') ∧
    (∀ x, x ∈ orphans' ↔ x ∈ orphans ∧ ¬ (x ∈ map strict bs ∧ is_Some (known !! x))).
Proof.
  induction bs as [|b bs IH]; intros new_blocks orphans Hs; cbn [collect_blocks map].
  - exists orphans. rewrite filter_nil, app_nil_r. split_and!; try done. intros x. rewrite elem_of_nil. tauto.
  - apply Forall_cons in Hs as [Hb Hs]. rewrite make_strict_hash_short by done. cbn [res_bind]. unfold by_hash.
    setoid_rewrite elem_of_cons. rewrite filter_cons. destruct (known !! strict b) as [p|] eqn:Hk.
    + rewrite decide_False by done.
      destruct (IH new_blocks (filter (λ x, x ≠ strict b) orphans) Hs) as (os & -> & Hnd & Hx). exists os. split_and!; [done|..].
      * intros Ho. by apply Hnd, NoDup_filter.
      * intros x. rewrite Hx, list_elem_of_filter. split; [|intros [? Hn]; split_and!; [|done|tauto]].
        -- intros [[? ?] ?]. split; [done|]. intros [[->|?] ?]; [done|tauto].
        -- intros ->. apply Hn. split; [by left|by eexists].
    + rewrite decide_True by done. destruct (IH (new_blocks ++ [b]) orphans Hs) as (os & -> & Hnd & Hx).
      exists os. rewrite <- app_assoc. split_and!; try done. intros x. rewrite Hx. split; intros [? Hn]; (split; [done|]).
      * intros [[->|?] [? Hsm]]; [congruence|]. apply Hn. split; [done|by eexists].
      * intros [? ?]. apply Hn. tauto.
Qed.

(** The blocks of the file that are not known yet, and what the replaced file leaves behind. *)
Record initialized (c : cluster) (fi : folder_info) (next_uuid : nat → bytes) (n : nat) (a : advance) : Prop := {
  in_uuid : [av_uuid a] = uuids_of c fi next_uuid n [av_local a];
  in_short : Forall short_block (av_new_blocks a);
  in_new : ∀ x, x ∈ map strict (av_new_blocks a) ↔ cl_blocks c !! x = None ∧ x ∈ hashes_of [av_local a];
  in_nodup : NoDup (av_orphans a);
  in_orphans : ∀ x, x ∈ av_orphans a ↔ orphaned c fi [av_local a] x;
}.

Lemma replaced_single fi f p : replaced fi [f] p ↔ by_name (fi_files fi) (pf_name f) = Some p.
Proof. unfold replaced. setoid_rewrite list_elem_of_singleton. naive_solver. Qed.

Lemma hashes_of_single f : hashes_of [f] = map strict (pf_blocks f).
Proof. unfold hashes_of. cbn. by rewrite app_nil_r. Qed.

(** The orphans of one file. *)
Lemma deduce_single c p f : wf_cluster c → cl_files c !! p = Some f →
  ∃ r, deduce [p] [] (cl_files c) (cl_heap c) = Ok r ∧ NoDup r ∧
    ∀ x, x ∈ r ↔ ∃ q, q ∈ lead (slots f) ∧ cl_blocks c !! x = Some q ∧
      ∀ o i, slot_at (slots <$> cl_files c) o i = Some q → o = p.
Proof.
  intros Hwf Hp.
  destruct (deduce_spec (cl_files c) (map_refs (cl_blocks c)) (cl_heap c) [p] []) as (r & -> & Hnd & Hr).
  - by apply wf_cluster_store.
  - intros q q' b d. by apply wf_cluster_inj.
  - intros file ->%list_elem_of_singleton. by eexists.
  - exists r. split_and!; [done|done|]. intros x. rewrite Hr. unfold orphan. setoid_rewrite list_elem_of_singleton. split.
    + intros (_ & file & g & q & b & -> & Hg & _ & ? & Hb & <- & Hu). simplify_eq. exists q. split_and!; try done.
      by apply (cl_wf_known c Hwf).
    + intros (q & Hq & Hx & Hu). destruct (bm_hash _ _ _ (cl_wf_blocks c Hwf) _ _ Hx) as (b & Hb & Hh).
      split; [apply not_elem_of_nil|]. exists p, f, q, b. split_and!; try done. eapply lead_file; [done|].
      by apply (cl_wf_files c Hwf _ _ Hp).
Qed.

Lemma filter_known (known : block_map) bs :
  Forall (λ b, is_Some (known !! strict b)) bs → filter (λ b, known !! strict b = None) bs = [].
Proof.
  induction 1 as [|b bs [p Hp] _ IH]; [done|]. rewrite filter_cons, decide_False by (by rewrite Hp). exact IH.
Qed.

(** A block that only the local file under a name has. *)
Definition left_behind (c : cluster) (fi : folder_info) (name : bytes) (x : bytes) : Prop :=
  ∃ p g q, by_name (fi_files fi) name = Some p ∧ cl_files c !! p = Some g ∧ q ∈ lead (slots g) ∧
    cl_blocks c !! x = Some q ∧ ∀ o i, slot_at (slots <$> cl_files c) o i = Some q → o = p.

Lemma left_behind_orphaned c fi f x :
  left_behind c fi (pf_name f) x ∧ ¬ (x ∈ map strict (pf_blocks f) ∧ is_Some (cl_blocks c !! x)) ↔ orphaned c fi [f] x.
Proof.
  unfold orphaned, left_behind. rewrite hashes_of_single. setoid_rewrite replaced_single. split.
  - intros [(p & g & q & Hn & Hg & Hq & Hk & Hu) Hno]. split; [intros ?; apply Hno; split; [done|by eexists]|].
    exists p, g, q. split_and!; try done. intros o i Ho. by rewrite (Hu o i Ho).
  - intros (Hnx & p & g & q & Hn & Hg & Hq & Hk & Hu). split; [|tauto].
    exists p, g, q. split_and!; try done. intros o i Ho. specialize (Hu o i Ho). congruence.
Qed.

(** The uuid of the file, and what its previous version leaves behind. *)
Lemma initialize_file c fo fi next_uuid n f :
  wf_cluster c → fo ∈ cl_folders c → fi ∈ fo_infos fo →
  ∃ lf uuid os n', file_by_name c fi (pf_name f) = Ok lf ∧
    match lf with
    | None => Ok (next_uuid n, [], S n)
    | Some (p, g) => let* orphans := deduce [p] [] (cl_files c) (cl_heap c) in Ok (get_uuid g, orphans, n)
    end = Ok (uuid, os, n') ∧
    [uuid] = uuids_of c fi next_uuid n [f] ∧ NoDup os ∧ ∀ x, x ∈ os ↔ left_behind c fi (pf_name f) x.
Proof.
  intros Hwf Hfo Hfi. unfold file_by_name, left_behind. cbn [uuids_of].
  destruct (by_name (fi_files fi) (pf_name f)) as [p|] eqn:Hn; cbn [mbind option_bind].
  - destruct (cl_wf_infos c Hwf fo fi Hfo Hfi) as (_ & _ & Hen).
    destruct (by_name_elem _ _ _ Hn) as (e & He & <- & _). destruct (Hen e He) as (g & Hg & _). rewrite Hg.
    destruct (deduce_single c (e_file e) g Hwf Hg) as (r & Hd & Hnd & Hr).
    do 4 eexists. split; [done|]. cbn zeta iota. rewrite Hd. cbn [res_bind].
    split_and!; [done..|]. intros x. rewrite Hr. naive_solver.
  - do 4 eexists. split_and!; [done|done|done|constructor|]. intros x. rewrite elem_of_nil. naive_solver.
Qed.

Lemma initialize_ok c self next_uuid n folder_id peer_id action source name fo fi :
  let f := set_name_sequence source (if bool_decide (name = []) then pf_name source else name) 0 in
  wf_cluster c → folder_by_id (cl_folders c) folder_id = Some fo → by_device_id (fo_infos fo) self = Some fi →
  Forall short_block (pf_blocks f) → well_sized f → (pf_deleted f = true → pf_blocks f = []) →
  (action = local_update ∨ Forall (λ b, is_Some (cl_blocks c !! strict b)) (pf_blocks f)) →
  ∃ a n', initialize c self next_uuid n folder_id peer_id action false source name = Ok (a, n') ∧
    av_local a = f ∧ av_folder_id a = folder_id ∧ av_peer_id a = peer_id ∧ initialized c fi next_uuid n a.
Proof.
  intros f Hwf Hfo Hfi Hs Hws Hdel Hact. unfold initialize. fold f.
  assert (negb (negb (bool_decide (pf_blocks source = [])) && pf_deleted source) = true) as ->.
  { change (pf_blocks source) with (pf_blocks f). change (pf_deleted source) with (pf_deleted f).
    destruct (pf_deleted f); [rewrite Hdel by done; done|by rewrite andb_false_r]. }
  unfold assert at 1, info_of. cbn [res_bind]. rewrite Hfo, Hfi. cbn [res_bind].
  change (if bool_decide (name = []) then pf_name source else name) with (pf_name f).
  assert (filter (λ b, cl_blocks c !! strict b = None) (pf_blocks f) = [] ∨ action = local_update) as Hnb.
  { destruct Hact as [?|Hk]; [by right|left]. by apply filter_known. }
  apply head_filter_elem in Hfo as [_ Hfo]. apply head_filter_elem in Hfi as [_ Hfi].
  destruct (initialize_file c fo fi next_uuid n f Hwf Hfo Hfi) as (lf & uuid & os & n' & -> & He & Hu & Hnd & Hos).
  cbn [res_bind]. rewrite He. cbn [res_bind].
  destruct (collect_blocks_spec (cl_blocks c) (pf_blocks f) [] os Hs) as (os' & Hc & Hnd' & Hx).
  assert ((if negb (pf_size f =? 0) then collect_blocks (cl_blocks c) (pf_blocks f) [] os else Ok ([], os)) =
    Ok (filter (λ b, cl_blocks c !! strict b = None) (pf_blocks f), os')) as ->.
  { rewrite Hc. destruct (Z.eqb_spec (pf_size f) 0) as [Hz|]; [|done]. destruct Hws as [Hb|[? _]]; [|done].
    rewrite Hb in Hc |- *. cbn in Hc. cbn [negb]. by injection Hc as <-. }
  cbn [res_bind].
  assert (assert (bool_decide (filter (λ b, cl_blocks c !! strict b = None) (pf_blocks f) = []) || bool_decide (action = local_update)) = Ok ()) as ->.
  { destruct Hnb as [->| ->]; [done|]. by rewrite (bool_decide_eq_true_2 (local_update = _)), orb_true_r. }
  cbn [res_bind]. do 2 eexists. split_and!; [done..|]. split; cbn [av_uuid av_local av_new_blocks av_orphans].
  - done.
  - by apply Forall_filter.
  - intros x. rewrite hashes_of_single, list_elem_of_fmap. setoid_rewrite list_elem_of_filter. rewrite list_elem_of_fmap. naive_solver.
  - by apply Hnd'.
  - intros x. rewrite Hx, Hos. apply left_behind_orphaned.
Qed.

(** ** Applying the change *)

Lemma orphaned_numbered c fi f sequence x : orphaned c fi [numbered f sequence] x ↔ orphaned c fi [f] x.
Proof. unfold orphaned. by setoid_rewrite replaced_single. Qed.

(** What the folder of this device has afterwards. *)
Record advanced (c c' : cluster) (folder_id self : bytes) (fi : folder_info) (f : FileInfo) : Prop := {
  ad_wf : wf_cluster c';
  ad_file : ∃ fo' fi' p f', folder_by_id (cl_folders c') folder_id = Some fo' ∧ by_device_id (fo_infos fo') self = Some fi' ∧
    by_name (fi_files fi') (pf_name f) = Some p ∧ cl_files c' !! p = Some f' ∧
    stored (cl_blocks c') (numbered f (fi_max_sequence fi + 1)) f' ∧
    fi_max_sequence fi' = fi_max_sequence fi + 1 ∧ is_local f' = true ∧ is_locally_available f' = Ok true ∧
    (pf_type f = SYMLINK → (∀ q prev, by_name (fi_files fi) (pf_name f) = Some q → cl_files c !! q = Some prev → is_link prev = true) →
     f_content f' = NonFile (pf_symlink_target f)) ∧
    ∀ x, e_name x ≠ pf_name f → (x ∈ fi_files fi' ↔ x ∈ fi_files fi);
}.

(** What is asked of the file. *)
Record advanceable (c : cluster) (fi : folder_info) (f : FileInfo) : Prop := {
  aa_name : pf_name f ≠ [];
  aa_length : Z.of_nat (length (pf_blocks f)) < 2 ^ 31;
  aa_short : Forall short_block (pf_blocks f);
  aa_sized : well_sized f;
  aa_deleted : pf_deleted f = true → pf_blocks f = [];
  aa_kind : ∀ q prev, by_name (fi_files fi) (pf_name f) = Some q → cl_files c !! q = Some prev →
    is_file prev = regular (pf_type f);
  aa_small : small (cl_files c) (length (pf_blocks f));
}.

Lemma apply_advance_ok c self fo fi a next_uuid n :
  wf_cluster c → folder_by_id (cl_folders c) (av_folder_id a) = Some fo → by_device_id (fo_infos fo) self = Some fi →
  initialized c fi next_uuid n a → advanceable c fi (av_local a) → pf_version (av_local a) ≠ [] → fresh_uuids fi next_uuid →
  ∃ c', apply_advance c self a = Ok c' ∧ advanced c c' (av_folder_id a) self fi (av_local a).
Proof.
  intros Hwf Hfo Hfi [Hu Hsh Hnew Hnd Hor] [Hnm Hl Hsb Hws _ Hk Hsm] Hv Hfr. set (f := av_local a) in *.
  set (g := numbered f (fi_max_sequence fi + 1)).
  destruct (children_wf c fi (mkUpdateFolder [] [] [g] [] (av_new_blocks a) (av_orphans a)))
    as (known1 & h1 & known & h & Ha & Hd & Hb & Hh & Hold); cbn [uf_files uf_new_blocks uf_removed_blocks] in *; try done.
  { intros x. rewrite Hor. symmetry. apply orphaned_numbered. } { unfold small in *. lia. }
  pose proof Hfo as Hfo'. pose proof Hfi as Hfi'.
  apply head_filter_elem in Hfo as [Hfid Hfo]. apply head_filter_elem in Hfi as [Hsha Hfi]. injection Hsha as Hsha.
  destruct (cl_wf_infos c Hwf fo fi Hfo Hfi) as (Hwfi & _ & Hen).
  assert (wf_apply known (mkApply fi (cl_files c) h)) as Hst by by eapply start_wf.
  destruct (advance_round known (mkApply fi (cl_files c) h) (av_uuid a) f) as (s & e & f' & Hs & Hr & Hlo & Hav); try done.
  { split; try done. apply Forall_forall. intros b Hbf. rewrite Forall_forall in Hsb. split; [by apply Hsb|].
    apply Hh. rewrite hashes_of_single. by apply list_elem_of_fmap_2. }
  { pose proof (uuids_of_fits c fi next_uuid Hfr Hen [f] h n) as Hf2. rewrite <- Hu in Hf2.
    eapply Forall2_cons, Hf2. intros x q prev ->%list_elem_of_singleton. apply Hk. }
  cbn [ap_info] in Hr. fold g in Hr.
  assert (rounds known (mkApply fi (cl_files c) h) [g] s) as Hrs.
  { eapply rounds_cons; [done|done|apply rounds_nil, Hr|apply not_elem_of_nil]. }
  pose proof (finish_sha c fi [g] known h s Hrs) as Hss.
  destruct (renew_self (cl_folders c) fo fi (ap_info s) (cl_wf_ids c Hwf) (cl_wf_devices c Hwf) Hfo Hfi Hss) as (_ & _ & H3 & H4).
  rewrite Hfid in H3. rewrite Hsha in H4.
  eexists. split.
  { unfold apply_advance. rewrite Ha. cbn [res_bind]. rewrite Hd. cbn [res_bind]. unfold info_of. rewrite Hfo', Hfi'.
    cbn [res_bind]. fold f. rewrite Hs. cbn [res_bind]. rewrite <- Hfid, <- Hsha. done. }
  split; [by eapply finish_wf|]. cbn [cl_folders cl_files cl_blocks].
  do 3 eexists. exists f'. split_and!; [rewrite set_info_renew; exact H3|exact H4| |apply Hr|apply Hr|..]; try done.
  - apply by_name_iff; [apply (ap_fi _ _ (rd_wf _ _ _ _ _ _ _ Hr))|]. exists e. split_and!; [|done|].
    + apply (rd_entries _ _ _ _ _ _ _ Hr). by left.
    + by rewrite (rd_entry _ _ _ _ _ _ _ Hr).
  - by rewrite (rd_info _ _ _ _ _ _ _ Hr).
  - intros Ht Hlk. by apply (rd_link _ _ _ _ _ _ _ Hr).
  - intros x Hx. apply (rs_kept _ _ _ _ Hrs). cbn [map]. by rewrite list_elem_of_singleton.
Qed.

(** ** Properties *)

(** C2: the copy of a remote file whose blocks are all known, made and applied on a consistent
    cluster with a folder that is in use and shared with the peer: no assertion is tripped, the
    cluster stays consistent (what only the replaced file used is gone), and the folder of
    this device has the file under its name, with the version, metadata and blocks of the remote
    one and the next sequence number, marked as local and entirely available; its other files
    are kept. *)
Theorem remote_copy_spec c self next_uuid n f folder_id peer_id fo fi :
  wf_cluster c → folder_by_id (cl_folders c) folder_id = Some fo → by_device_id (fo_infos fo) self = Some fi →
  is_Some (by_device_id (fo_infos fo) peer_id) → fo_suspended fo = false →
  advanceable c fi f → pf_version f ≠ [] → fresh_uuids fi next_uuid →
  Forall (λ b, is_Some (cl_blocks c !! strict b)) (pf_blocks f) →
  ∃ a n' c', remote_copy_new c self next_uuid n f folder_id peer_id false = Ok (a, n') ∧
    remote_copy_apply c self a = Ok c' ∧ advanced c c' folder_id self fi f.
Proof.
  intros Hwf Hfo Hfi Hpe Hsu Haa Hv Hfr Hk.
  destruct (initialize_ok c self next_uuid n folder_id peer_id remote_copy f [] fo fi)
    as (a & n' & Ha & Hl & Hid & Hp & Hin); try done; try (by right); try apply Haa.
  assert (av_local a = set_name_sequence f (pf_name f) 0) as Hl' by done.
  destruct (apply_advance_ok c self fo fi a next_uuid n) as (c' & Hc & Had); rewrite ?Hid, ?Hl'; try done; [by destruct Haa|].
  exists a, n', c'. split_and!; [done| |rewrite Hid, Hl' in Had; destruct Had; by split].
  unfold remote_copy_apply, available_folder. rewrite Hid, Hfo, Hp, Hsu, (bool_decide_eq_true_2 _ Hpe). exact Hc.
Qed.

Lemma update_nonempty id now cs : Version.update id now cs ≠ [].
Proof.
  destruct cs as [|c cs]; [done|]. unfold Version.update. destruct (Version.update_loop (c :: cs) (c :: cs) id now None) as [v [[|i]|]]; done.
Qed.

(** C3: a change found on the disk that no peer has: applied on a consistent cluster with a folder
    that is in use, it leaves a consistent one in which the folder of this device has the
    file with its content, as modified by this device, under the version of the previous file
    updated for this device (or a first one), with the next sequence number, local and entirely
    available; blocks that were not known are now. *)
Theorem local_update_spec empty_digest c self device now next_uuid n f folder_id fo fi :
  wf_cluster c → folder_by_id (cl_folders c) folder_id = Some fo → by_device_id (fo_infos fo) self = Some fi →
  fo_suspended fo = false → advanceable c fi f → fresh_uuids fi next_uuid →
  get_original c self (fo_infos fo) f None = Ok None →
  ∃ a n' c' v, local_update_new empty_digest c self device now next_uuid n f folder_id false = Ok (a, n') ∧
    local_update_apply c self a = Ok c' ∧
    v = match by_name (fi_files fi) (pf_name f) ≫= λ p, cl_files c !! p with
        | Some g => update device now (f_version g) | None => version_of_device device now end ∧
    advanced c c' folder_id self fi (set_version (set_modified_by f device) (as_proto v)).
Proof.
  intros Hwf Hfo Hfi Hsu Haa Hfr Ho.
  set (v := match by_name (fi_files fi) (pf_name f) ≫= λ p, cl_files c !! p with
        | Some g => update device now (f_version g) | None => version_of_device device now end).
  destruct (initialize_ok c self next_uuid n folder_id self local_update (set_modified_by f device) (pf_name f) fo fi)
    as (a & n' & Ha & Hl & Hid & Hp & Hin); try done; try (by left); try apply Haa.
  rewrite bool_decide_eq_false_2 in Hl by apply Haa.
  set (a' := mkAdvance (av_source a) (set_version (av_local a) (as_proto v)) (av_folder_id a)
                (av_peer_id a) (av_uuid a) (av_action a) (av_new_blocks a) (av_orphans a)).
  assert (initialized c fi next_uuid n a') as Hin'.
  { destruct Hin as [Hi1 Hi2 Hi3 Hi4 Hi5]. rewrite Hl in Hi1, Hi3, Hi5. split; unfold a'; cbn [av_uuid av_local av_new_blocks av_orphans]; rewrite ?Hl; try done.
    intros x. rewrite Hi5. unfold orphaned. by setoid_rewrite replaced_single. }
  assert (av_local a' = set_version (set_name_sequence (set_modified_by f device) (pf_name f) 0) (as_proto v)) as Hl'
    by (unfold a'; cbn [av_local]; by rewrite Hl).
  assert (as_proto v ≠ []) as Hv.
  { unfold as_proto. intros Hnil%map_eq_nil. revert Hnil. unfold v, version_of_device.
    destruct (by_name _ _ ≫= _); apply update_nonempty. }
  destruct (apply_advance_ok c self fo fi a' next_uuid n) as (c' & Hc & Had); rewrite ?Hl'; try done.
  { unfold a'. cbn [av_folder_id]. by rewrite Hid. } { by destruct Haa. }
  exists a', n', c', v. split_and!; try done.
  - unfold local_update_new, info_of. rewrite Hfo, Hfi. cbn [res_bind]. rewrite bool_decide_eq_false_2 by apply Haa.
    unfold assert. cbn [negb res_bind]. unfold file_by_name. unfold a', v.
    destruct (by_name (fi_files fi) (pf_name f)) as [p|] eqn:Hn; cbn [mbind option_bind].
    + apply head_filter_elem in Hfo as [_ Hfo]. apply head_filter_elem in Hfi as [_ Hfi].
      destruct (cl_wf_infos c Hwf fo fi Hfo Hfi) as (_ & _ & Hen).
      destruct (by_name_elem _ _ _ Hn) as (e & He & <- & _). destruct (Hen e He) as (g & Hg & _). rewrite Hg.
      cbn [res_bind]. rewrite Ho. cbn [res_bind]. rewrite Ha. done.
    + cbn [res_bind]. rewrite Ho. cbn [res_bind]. rewrite Ha. done.
  - unfold local_update_apply, available_folder. change (av_folder_id a') with (av_folder_id a). by rewrite Hid, Hfo, Hsu.
  - rewrite Hl' in Had. unfold a' in Had. cbn [av_folder_id] in Had. rewrite Hid in Had. destruct Had. by split.
Qed.

(** The candidates after the first one never win: [compare] answers at most 1. *)
Lemma get_original_first c self fis f g r : get_original c self fis f (Some g) = Ok r → r = Some g.
Proof.
  revert r. induction fis as [|fi fis IH]; intros r; cbn [get_original]; [congruence|].
  intros H. apply bind_Ok in H as ([f'|] & _ & H); [|by apply IH].
  destruct (Z.ltb_spec 1 (compare f' g)) as [Hlt|]; [|by apply IH].
  exfalso. revert Hlt. unfold compare. destruct (_ && _); [lia|]. destruct (compare_by_version g f'); lia.
Qed.

(** ** A concrete cluster *)

(** This device (digest 1...1) has nothing yet in the folder it shares with the peer. *)
Definition self_info : folder_info :=
  mkFolderInfo (prefix_folder_info :: repeat 7 64) 1 4 [] (repeat 1 32) (chars "s") [].

Definition shared_folder : folder := with_infos sample_folder [self_info; sample_info].

Definition shared_cluster : cluster := mkCluster sample_block_map sample_heap sample_files [shared_folder].

Lemma shared_cluster_wf : wf_cluster shared_cluster.
Proof.
  destruct sample_cluster_wf as [H1 H2 H3 H4 _ _ _]. split; try done.
  - intros fo fi ->%list_elem_of_singleton Hfi. cbn in Hfi. rewrite elem_of_cons, list_elem_of_singleton in Hfi.
    destruct Hfi as [->| ->]; [|by apply (H4 sample_folder); apply list_elem_of_singleton].
    split_and!; [split; [repeat constructor|by intros e He%not_elem_of_nil]|done|by intros e He%not_elem_of_nil].
  - apply NoDup_singleton.
  - intros fo ->%list_elem_of_singleton. cbn. apply NoDup_cons. split; [|apply NoDup_singleton].
    by rewrite list_elem_of_singleton.
  - intros fo fi e fo' fi' e' ->%list_elem_of_singleton Hfi He ->%list_elem_of_singleton Hfi' He' _. split; [done|].
    cbn in Hfi, Hfi'. rewrite elem_of_cons, list_elem_of_singleton in Hfi, Hfi'.
    destruct Hfi as [->| ->]; [by apply not_elem_of_nil in He|]. by destruct Hfi' as [->| ->]; [apply not_elem_of_nil in He'|].
Qed.

Lemma shared_advanceable name seq hash :
  name ≠ [] → (length hash <= Blocks.digest_length)%nat →
  advanceable shared_cluster self_info (sample_message_file name seq hash).
Proof.
  intros Hn Hl. split; try done.
  - apply Forall_cons. by split.
  - right. done.
Qed.

Lemma shared_fresh : fresh_uuids self_info (λ n, [Z.of_nat n]).
Proof. split; [intros m n [= H]; lia|]. by intros n e He%not_elem_of_nil. Qed.

(** The copy of a file of the peer. *)
Example remote_copy_spec_witness :
  ∃ a n' c', remote_copy_new shared_cluster (repeat 1 32) (λ n, [Z.of_nat n]) 0
      (sample_message_file (chars "a") 9 (repeat 1 32)) (chars "f") (repeat 9 32) false = Ok (a, n') ∧
    remote_copy_apply shared_cluster (repeat 1 32) a = Ok c' ∧
    advanced shared_cluster c' (chars "f") (repeat 1 32) self_info (sample_message_file (chars "a") 9 (repeat 1 32)).
Proof.
  apply (remote_copy_spec shared_cluster (repeat 1 32) (λ n, [Z.of_nat n]) 0
    (sample_message_file (chars "a") 9 (repeat 1 32)) (chars "f") (repeat 9 32) shared_folder self_info).
  - apply shared_cluster_wf.
  - vm_compute. reflexivity.
  - vm_compute. reflexivity.
  - exists sample_info. vm_compute. reflexivity.
  - reflexivity.
  - apply shared_advanceable; [done|]. by apply Nat.leb_le.
  - done.
  - apply shared_fresh.
  - repeat constructor. exists 5%positive. vm_compute. reflexivity.
Defined.

(** A new file on the disk, with a block nobody has. *)
Example local_update_spec_witness :
  ∃ a n' c' v, local_update_new [] shared_cluster (repeat 1 32) 77 1000 (λ n, [Z.of_nat n]) 0
      (sample_message_file (chars "new") 0 [7]) (chars "f") false = Ok (a, n') ∧
    local_update_apply shared_cluster (repeat 1 32) a = Ok c' ∧ as_proto v = [Counter 77 1000] ∧
    advanced shared_cluster c' (chars "f") (repeat 1 32) self_info
      (set_version (set_modified_by (sample_message_file (chars "new") 0 [7]) 77) (as_proto v)).
Proof.
  destruct (local_update_spec [] shared_cluster (repeat 1 32) 77 1000 (λ n, [Z.of_nat n]) 0
    (sample_message_file (chars "new") 0 [7]) (chars "f") shared_folder self_info) as (a & n' & c' & v & H1 & H2 & H3 & H4).
  - apply shared_cluster_wf.
  - vm_compute. reflexivity.
  - vm_compute. reflexivity.
  - reflexivity.
  - apply shared_advanceable; [done|]. by apply Nat.leb_le.
  - apply shared_fresh.
  - vm_compute. reflexivity.
  - exists a, n', c', v. split_and!; [exact H1|exact H2| |exact H4]. rewrite H3. vm_compute. reflexivity.
Defined.
