(* ===== verification/Cluster.v ===== *)
(** * Cluster: the whole of [cluster_t] ([src/model/cluster.h]): the folders and files of [UpdateFolder.cluster], the
    devices, and what is known of devices and folders that are not part of the cluster yet
    ([src/model/some_device.cpp], [pending_folder.cpp], [ignored_folder.cpp]). *)

From S2P Require Import Prelude Proto DeviceId Device Blocks FileInfo FileStore FileMap GenericMap Folder.
From S2P Require Import Resolver BlockMap UpdateFolder Streamer FileIterator.

(** What the changes of a cluster ask of other code: the URL parser and its test, the decoders of the database's values, the
    platform, the time zone; [local_id] is [local_device_id], the digest of a constant. *)
Class Environment := {
  env_platform :: Platform;
  local_id : device_id;
  parse_uri : bytes → option uri;
  decode_device : bytes → option DbDevice;
  decode_folder : bytes → option DbFolder;
  decode_pending_folder : bytes → option DbPendingFolder;
  decode_some_device : bytes → option DbSomeDevice;
  decode_ignored_folder : bytes → option DbIgnoredFolder;
  local_zone : Z → local_time;
}.

(** ** Devices of the cluster *)

#[export] Instance device_keyed `{Environment} : Keyed device 2.
Proof. refine {| keys_of := λ d, [device_key local_id d; get_sha256 (d_id d)] |}. done. Defined.

Definition by_sha256 `{Environment} (m : list device) (sha256 : bytes) : option device := gget m 1 sha256.
Definition device_by_key `{Environment} (m : list device) (key : bytes) : option device := gget m 0 key.

(** ** Devices that are pending or ignored: [some_device_t] *)

Definition prefix_ignored_device : Z := 20.
Definition prefix_ignored_folder : Z := 21.
Definition prefix_pending_folder : Z := 22.
Definition prefix_pending_device : Z := 24.

Record some_device := mkSomeDevice {
  sd_key : bytes;
  sd_id : device_id;
  sd_name : bytes;
  sd_client_name : bytes;
  sd_client_version : bytes;
  sd_address : bytes;
  sd_last_seen : Z;
}.

(** [some_device_base_t::assign]. *)
Definition assign_some (key : bytes) (id : device_id) (db : DbSomeDevice) : some_device :=
  mkSomeDevice key id (ds_name db) (ds_client_name db) (ds_client_version db) (ds_address db) (ds_last_seen db).

(** The constructor, for either prefix. *)
Definition create_some (prefix : Z) (id : device_id) (db : DbSomeDevice) : some_device :=
  assign_some (prefix :: get_sha256 id) id db.

Definition serialize_some (sd : some_device) : DbSomeDevice :=
  mkDbSomeDevice (sd_name sd) (sd_client_name sd) (sd_client_version sd) (sd_address sd) (sd_last_seen sd).

#[export] Instance some_device_keyed : Keyed some_device 1.
Proof. refine {| keys_of := λ d, [get_sha256 (sd_id d)] |}. done. Defined.

Definition some_by_sha256 (m : list some_device) (sha256 : bytes) : option some_device := gget m 0 sha256.

(** ** [pending_folder_t]: a folder a peer offers *)

Record pending_folder := mkPendingFolder {
  pn_key : bytes;
  pn_device : device_id;
  pn_data : folder_data;
  pn_index : Z;
  pn_max_sequence : Z;
}.

Definition pending_folder_data_length : nat := uuid_length + DeviceId.digest_length + 1.

(** [pending_folder_t::assign_fields]. *)
Definition assign_pending (key : bytes) (device : device_id) (data : DbPendingFolder) : pending_folder :=
  mkPendingFolder key device (assign_fields (dp_folder data)) (di_index_id (dp_folder_info data))
    (di_max_sequence (dp_folder_info data)).

(** [pending_folder_t::create(key, ...)]. *)
Definition create_pending_db (key : bytes) (data : DbPendingFolder) : res pending_folder :=
  if negb (length key =? pending_folder_data_length)%nat then Err invalid_pending_folder_length
  else if bool_decide (head key ≠ Some prefix_pending_folder) then Err invalid_folder_prefix
  else
    let* device := from_sha256 (drop (uuid_length + 1) key) in
    match device with
    | None => Err malformed_deviceid
    | Some device => Ok (assign_pending key device data)
    end.

(** [pending_folder_t::create(uuid, ...)]. *)
Definition create_pending (uuid : bytes) (data : DbPendingFolder) (device : device_id) : pending_folder :=
  assign_pending (prefix_pending_folder :: uuid ++ get_sha256 device) device data.

(** [pending_folder_t::serialize], onto a new message. *)
Definition serialize_pending (pf : pending_folder) : DbPendingFolder :=
  mkDbPendingFolder (serialize_folder (pn_data pf)) (mkDbFolderInfo (pn_index pf) (pn_max_sequence pf) []).

(** [pending_folder_map_t]: by key and by the id of the folder. *)
#[export] Instance pending_folder_keyed : Keyed pending_folder 2.
Proof. refine {| keys_of := λ pf, [pn_key pf; fd_id (pn_data pf)] |}. done. Defined.

Definition pending_by_key (m : list pending_folder) (key : bytes) : option pending_folder := gget m 0 key.

(** ** [ignored_folder_t] *)

Record ignored_folder := mkIgnoredFolder { if_key : bytes; if_label : bytes }.

(** [ignored_folder_t::create(id, label)]. *)
Definition create_ignored (id label : bytes) : ignored_folder := mkIgnoredFolder (prefix_ignored_folder :: id) label.

(** [ignored_folder_t::create(key, data)]: an empty key is read outside of its bounds. *)
Definition create_ignored_db `{Environment} (key data : bytes) : res ignored_folder :=
  match key with
  | [] => Ub
  | p :: _ =>
      if negb (p =? prefix_ignored_folder) then Err invalid_ignored_folder_prefix
      else
        match decode_ignored_folder data with
        | None => Err ignored_folder_deserialization_failure
        | Some db => Ok (mkIgnoredFolder key (dg_label db))
        end
  end.

#[export] Instance ignored_folder_keyed : Keyed ignored_folder 1.
Proof. refine {| keys_of := λ f, [drop 1 (if_key f)] |}. done. Defined.

(** ** [folders_map_t] *)

#[export] Instance folder_keyed : Keyed folder 2.
Proof. refine {| keys_of := λ fo, [fo_key fo; fd_id (fo_data fo)] |}. done. Defined.

Definition folder_by_key (folders : list folder) (key : bytes) : option folder := gget folders 0 key.

(** ** The cluster *)

(** What hangs on a device object is kept by its digest: its view of the others, its traffic, its iterator. The local device
    [mo_device] is one object with the one of its digest in [mo_devices], once it is there; its digest never changes. *)
Record model := mkModel {
  mo_cluster : cluster;
  mo_device : device;
  mo_devices : list device;
  mo_views : gmap bytes remote_view_map;
  mo_traffic : gmap bytes (Z * Z);
  mo_iterators : gmap bytes file_iterator;
  mo_pending_devices : list some_device;
  mo_ignored_devices : list some_device;
  mo_pending_folders : list pending_folder;
  mo_ignored_folders : list ignored_folder;
  mo_next_token : Z;
}.

Definition self_sha (m : model) : bytes := get_sha256 (d_id (mo_device m)).

Definition with_cluster (m : model) (c : cluster) : model :=
  mkModel c (mo_device m) (mo_devices m) (mo_views m) (mo_traffic m) (mo_iterators m) (mo_pending_devices m)
    (mo_ignored_devices m) (mo_pending_folders m) (mo_ignored_folders m) (mo_next_token m).

Definition with_devices (m : model) (devices : list device) : model :=
  mkModel (mo_cluster m) (mo_device m) devices (mo_views m) (mo_traffic m) (mo_iterators m) (mo_pending_devices m)
    (mo_ignored_devices m) (mo_pending_folders m) (mo_ignored_folders m) (mo_next_token m).

Definition with_views (m : model) (views : gmap bytes remote_view_map) : model :=
  mkModel (mo_cluster m) (mo_device m) (mo_devices m) views (mo_traffic m) (mo_iterators m) (mo_pending_devices m)
    (mo_ignored_devices m) (mo_pending_folders m) (mo_ignored_folders m) (mo_next_token m).

Definition with_traffic (m : model) (traffic : gmap bytes (Z * Z)) : model :=
  mkModel (mo_cluster m) (mo_device m) (mo_devices m) (mo_views m) traffic (mo_iterators m) (mo_pending_devices m)
    (mo_ignored_devices m) (mo_pending_folders m) (mo_ignored_folders m) (mo_next_token m).

Definition with_iterators (m : model) (iterators : gmap bytes file_iterator) : model :=
  mkModel (mo_cluster m) (mo_device m) (mo_devices m) (mo_views m) (mo_traffic m) iterators (mo_pending_devices m)
    (mo_ignored_devices m) (mo_pending_folders m) (mo_ignored_folders m) (mo_next_token m).

Definition with_pending_devices (m : model) (devices : list some_device) : model :=
  mkModel (mo_cluster m) (mo_device m) (mo_devices m) (mo_views m) (mo_traffic m) (mo_iterators m) devices
    (mo_ignored_devices m) (mo_pending_folders m) (mo_ignored_folders m) (mo_next_token m).

Definition with_ignored_devices (m : model) (devices : list some_device) : model :=
  mkModel (mo_cluster m) (mo_device m) (mo_devices m) (mo_views m) (mo_traffic m) (mo_iterators m) (mo_pending_devices m)
    devices (mo_pending_folders m) (mo_ignored_folders m) (mo_next_token m).

Definition with_pending_folders (m : model) (folders : list pending_folder) : model :=
  mkModel (mo_cluster m) (mo_device m) (mo_devices m) (mo_views m) (mo_traffic m) (mo_iterators m) (mo_pending_devices m)
    (mo_ignored_devices m) folders (mo_ignored_folders m) (mo_next_token m).

Definition with_ignored_folders (m : model) (folders : list ignored_folder) : model :=
  mkModel (mo_cluster m) (mo_device m) (mo_devices m) (mo_views m) (mo_traffic m) (mo_iterators m) (mo_pending_devices m)
    (mo_ignored_devices m) (mo_pending_folders m) folders (mo_next_token m).

Definition with_next_token (m : model) (next_token : Z) : model :=
  mkModel (mo_cluster m) (mo_device m) (mo_devices m) (mo_views m) (mo_traffic m) (mo_iterators m) (mo_pending_devices m)
    (mo_ignored_devices m) (mo_pending_folders m) (mo_ignored_folders m) next_token.

(** The files the folders lead to; a file that nothing leads to any more is destroyed. *)
Definition files_in (folders : list folder) : list file_ptr :=
  fo ← folders; fi ← fo_infos fo; map e_file (fi_files fi).

Definition set_folders (c : cluster) (folders : list folder) : res cluster :=
  let* '(files, h) := destroy_files (filter (λ p, p ∉ files_in folders) (files_in (cl_folders c))) (cl_files c) (cl_heap c) in
  Ok (mkCluster (cl_blocks c) h files folders).

(** Writing a folder back under its id. *)
Definition replace_folder (folders : list folder) (id : bytes) (fo : folder) : list folder :=
  map (λ x, if bool_decide (fd_id (fo_data x) = id) then fo else x) folders.

(** ** Properties *)

(** A folder a peer offers is remembered without loss: the key leads back to the device that offers it, and loading
    what was stored gives the same record; bad keys give their errors. *)
Theorem pending_folder_roundtrip (uuid sha256 : bytes) (device : device_id) (data : DbPendingFolder) :
  length uuid = uuid_length → digits 256 sha256 → from_sha256 sha256 = Ok (Some device) →
  let pf := create_pending uuid data device in
  create_pending_db (pn_key pf) (serialize_pending pf) = Ok pf ∧
  pn_data pf = assign_fields (dp_folder data) ∧ pn_index pf = di_index_id (dp_folder_info data).
Proof.
  intros Hu Hb Hd pf.
  assert (length sha256 = DeviceId.digest_length) as Hl.
  { destruct (decide (length sha256 = DeviceId.digest_length)) as [|Hne]; [done|].
    unfold from_sha256 in Hd. by rewrite bool_decide_eq_true_2 in Hd by (by rewrite from_sha256_length). }
  destruct (from_sha256_spec sha256 Hb Hl) as (v & H1 & _ & H3). rewrite Hd in H1. simplify_eq.
  split_and!; [|done..]. unfold create_pending_db, pf, create_pending. cbn [pn_key assign_pending].
  assert (get_sha256 (DeviceId.DeviceId v (prefix_device :: sha256)) = sha256) as Hs.
  { unfold get_sha256. cbn [id_hash skipn]. rewrite ?drop_0. rewrite <- Hl. apply firstn_all. }
  rewrite Hs. cbn [length]. rewrite length_app, Hu, Hl. cbn [negb Nat.eqb]. 
  change (uuid_length + 1)%nat with (S uuid_length). cbn [skipn]. rewrite <- Hu, drop_app_length, Hd. cbn [res_bind].
  rewrite bool_decide_eq_false_2 by (cbn; naive_solver).
  by rewrite Hu.
Qed.

Example pending_folder_roundtrip_witness :
  ∃ device, from_sha256 (repeat 7 32) = Ok (Some device) ∧
    let pf := create_pending (repeat 1 16) (mkDbPendingFolder (mkDbFolder (chars "f") [] false false true false false [] send_and_receive
                random 0 false) (mkDbFolderInfo 5 6 [])) device in
    create_pending_db (pn_key pf) (serialize_pending pf) = Ok pf.
Proof.
  eexists. split; [vm_compute; reflexivity|]. eapply (pending_folder_roundtrip (repeat 1 16) (repeat 7 32)); [done| |vm_compute; reflexivity].
  apply Forall_forall. intros x Hx. apply list_elem_of_In, repeat_spec in Hx. lia.
Defined.

(** Pending folders are unique by the id of the folder: the offer of a second peer takes the place of the one of the first. *)
Example second_offer_evicts :
  let offer uuid sha := create_pending uuid (mkDbPendingFolder (mkDbFolder (chars "f") [] false false true false false [] send_and_receive
                          random 0 false) (mkDbFolderInfo 5 6 [])) (DeviceId.DeviceId [] (prefix_device :: sha)) in
  (let* '(m, _) := gput [] (offer (repeat 1 16) (repeat 7 32)) true in
   let* '(m, _) := gput m (offer (repeat 2 16) (repeat 8 32)) true in Ok m) = Ok [offer (repeat 2 16) (repeat 8 32)].
Proof. by vm_compute. Qed.
