(* ===== verification/Changes.v ===== *)
(** * Changes: what the changes of [src/model/diff] do to the cluster, one definition per [apply_impl], and how they form
    trees: the instance of [DiffOps] that [Diff.apply] runs. *)

From S2P Require Import Prelude Diff Version Proto DeviceId Device Blocks FileInfo FileStore FileMap GenericMap Folder.
From S2P Require Import Resolver BlockMap UpdateFolder Streamer FileIterator Advance Cluster.

Section changes.
Context `{Environment}.

(** Following a pointer that may be null. *)
Definition the {A} (o : option A) : res A := match o with Some a => Ok a | None => Ub end.

Definition folders_of (m : model) : list folder := cl_folders (mo_cluster m).

Definition update_folders (m : model) (folders : list folder) : res model :=
  let* c := set_folders (mo_cluster m) folders in Ok (with_cluster m c).

Definition update_file_of (m : model) (p : file_ptr) (f : file_info) (h : heap) : model :=
  let c := mo_cluster m in with_cluster m (mkCluster (cl_blocks c) h (<[p := f]> (cl_files c)) (cl_folders c)).

(** ** Devices: [modify/], [contact/] *)

Definition add_pending_device_apply (id : device_id) (db : DbSomeDevice) (m : model) : res model :=
  let* '(ds, _) := gput (mo_pending_devices m) (create_some prefix_pending_device id db) true in
  Ok (with_pending_devices m ds).

Definition remove_pending_device_apply (key : bytes) (m : model) : res model :=
  match some_by_sha256 (mo_pending_devices m) (drop 1 key) with
  | None => Err no_such_device
  | Some d => Ok (with_pending_devices m (gremove (mo_pending_devices m) d))
  end.

Definition add_ignored_device_apply (id : device_id) (db : DbSomeDevice) (m : model) : res model :=
  let* '(ds, _) := gput (mo_ignored_devices m) (create_some prefix_ignored_device id db) true in
  Ok (with_ignored_devices m ds).

Definition remove_ignored_device_apply (key : bytes) (m : model) : res model :=
  match some_by_sha256 (mo_ignored_devices m) (drop 1 key) with
  | None => Err no_such_device
  | Some d => Ok (with_ignored_devices m (gremove (mo_ignored_devices m) d))
  end.

(** [prev->assign(db_device)]. *)
Definition reassign (sha256 : bytes) (db : DbSomeDevice) (ds : list some_device) : res (list some_device) :=
  match some_by_sha256 ds sha256 with
  | None => Err no_such_device
  | Some _ => Ok (map (λ d, if bool_decide (get_sha256 (sd_id d) = sha256) then assign_some (sd_key d) (sd_id d) db else d) ds)
  end.

Definition unknown_connected_apply (id : device_id) (db : DbSomeDevice) (m : model) : res model :=
  let* ds := reassign (get_sha256 id) db (mo_pending_devices m) in Ok (with_pending_devices m ds).

Definition ignored_connected_apply (id : device_id) (db : DbSomeDevice) (m : model) : res model :=
  let* ds := reassign (get_sha256 id) db (mo_ignored_devices m) in Ok (with_ignored_devices m ds).

Definition replace_device (ds : list device) (sha256 : bytes) (dev : device) : list device :=
  map (λ d, if bool_decide (get_sha256 (d_id d) = sha256) then dev else d) ds.

(** A device that is not known is created, and takes a token from the global counter. *)
Definition update_peer_apply (item : DbDevice) (peer_id : bytes) (m : model) : res model :=
  match by_sha256 (mo_devices m) peer_id with
  | None =>
      let* device := from_sha256 peer_id in
      match device with
      | None => Err malformed_deviceid
      | Some _ =>
          let* peer := create_device_db parse_uri (mo_next_token m) (prefix_device :: peer_id) item in
          let* '(ds, _) := gput (mo_devices m) peer true in
          Ok (with_next_token (with_devices m ds) (fst (make_offline (mo_next_token m))))
      end
  | Some peer =>
      let '(peer, ec) := assign_device parse_uri peer item in
      let* _ := ec in
      Ok (with_devices m (replace_device (mo_devices m) peer_id peer))
  end.

(** What hangs on the device object goes with it. *)
Definition remove_peer_apply (peer_key : bytes) (m : model) : res model :=
  let sha256 := drop 1 peer_key in
  let* _ := assert (length sha256 =? DeviceId.digest_length)%nat in
  match by_sha256 (mo_devices m) sha256 with
  | None => Err no_such_device
  | Some peer =>
      if bool_decide (get_sha256 (d_id peer) = self_sha m) then Err cannot_remove_self
      else
        let m := with_devices m (gremove (mo_devices m) peer) in
        let m := with_views m (delete sha256 (mo_views m)) in
        let m := with_traffic m (delete sha256 (mo_traffic m)) in
        Ok (with_iterators m (delete sha256 (mo_iterators m)))
  end.

(** [peer_state_t]: only forward, or back within one connection. *)
Definition peer_state_apply (peer_id : bytes) (state : device_state) (client_name client_version : bytes) (now : Z)
    (m : model) : res model :=
  let* peer := the (by_sha256 (mo_devices m) peer_id) in
  let* forward := state_lt (d_state peer) state in
  let* allowed := if forward then Ok true else can_roollback_to (d_state peer) state in
  if allowed then
    let peer := update_state peer state now in
    let peer := if bool_decide (st_connection state = online) then update_contact peer client_name client_version else peer in
    Ok (with_devices m (replace_device (mo_devices m) peer_id peer))
  else Ok m.

(** [update_contact_t]; [known] was found out when it was made. *)
Definition update_contact_apply (known : bool) (id : device_id) (uris : list uri) (m : model) : res model :=
  if known then
    let* dev := the (by_sha256 (mo_devices m) (get_sha256 id)) in
    Ok (with_devices m (replace_device (mo_devices m) (get_sha256 id) (assign_uris dev uris)))
  else Ok m.

(** ** Folders that are offered: [modify/] *)

Record pending_item := mkPendingItem { pi_db : DbPendingFolder; pi_peer_id : bytes; pi_uuid : bytes }.

Fixpoint add_pending_folders_apply (items : list pending_item) (m : model) : res model :=
  match items with
  | [] => Ok m
  | item :: items =>
      let* peer := the (by_sha256 (mo_devices m) (pi_peer_id item)) in
      let* '(pfs, _) := gput (mo_pending_folders m) (create_pending (pi_uuid item) (pi_db item) (d_id peer)) true in
      add_pending_folders_apply items (with_pending_folders m pfs)
  end.

(** An absent key is a null pointer, whose keys are read. *)
Fixpoint remove_pending_folders_apply (keys : list bytes) (m : model) : res model :=
  match keys with
  | [] => Ok m
  | key :: keys =>
      let* pf := the (pending_by_key (mo_pending_folders m) key) in
      remove_pending_folders_apply keys (with_pending_folders m (gremove (mo_pending_folders m) pf))
  end.

(** ** Folders and folder infos: [modify/] *)

Definition suspend_folder_apply (folder_id : bytes) (value : bool) (ec : option Z) (m : model) : res model :=
  match folder_by_id (folders_of m) folder_id with
  | None => Ok m
  | Some fo => let* fo := mark_suspended fo value ec in update_folders m (replace_folder (folders_of m) folder_id fo)
  end.

(** Before the child: the folder is created, or its settings are assigned. *)
Definition upsert_folder_before (uuid : bytes) (db : DbFolder) (m : model) : res model :=
  let folder := create_folder uuid db in
  match folder_by_id (folders_of m) (do_id db) with
  | None => let* '(folders, _) := gput (folders_of m) folder true in update_folders m folders
  | Some fo =>
      update_folders m (replace_folder (folders_of m) (do_id db)
        (mkFolder (fo_key fo) (assign_fields db) (fo_scan_start fo) (fo_scan_finish fo) (fo_infos fo)
           (fo_synchronizing fo) (fo_suspended fo) (fo_suspend_reason fo)))
  end.

(** Telling the iterator of a device. *)
Definition tell_iterator (sha256 : bytes) (f : file_iterator → res file_iterator) (m : model) : res model :=
  match mo_iterators m !! sha256 with
  | None => Ok m
  | Some fit => let* fit := f fit in Ok (with_iterators m (<[sha256 := fit]> (mo_iterators m)))
  end.

(** After the child: the iterators of the other devices the folder is shared with. A folder that was created just now has no
    other folder info than the one of this device, and the loop, which the code then skips, does nothing. *)
Fixpoint upsert_folder_after (folder_id : bytes) (devices : list device) (m : model) : res model :=
  match devices with
  | [] => Ok m
  | dev :: devices =>
      let sha256 := get_sha256 (d_id dev) in
      let* fo := the (folder_by_id (folders_of m) folder_id) in
      let* m :=
        if bool_decide (sha256 ≠ self_sha m) && bool_decide (is_Some (is_shared_with fo dev)) then
          tell_iterator sha256 (λ fit, on_upsert_folder local_zone (self_sha m) (mo_cluster m) fit fo) m
        else Ok m in
      upsert_folder_after folder_id devices m
  end.

Definition upsert_folder_info_apply (uuid device_id introducer_device_key folder_id : bytes) (index_id : Z) (m : model)
    : res model :=
  match by_sha256 (mo_devices m) device_id with
  | None => Err no_such_device
  | Some dev =>
      match folder_by_id (folders_of m) folder_id with
      | None => Err no_such_folder
      | Some fo =>
          let* '(fi, infos) :=
            match by_device_id (fo_infos fo) device_id with
            | Some fi =>
                let fi := set_index fi index_id in
                Ok (fi, map (λ x, if bool_decide (fi_device_sha x = device_id) then fi else x) (fo_infos fo))
            | None =>
                let fi := create_folder_info uuid (mkDbFolderInfo index_id 0 introducer_device_key) (get_sha256 (d_id dev))
                            (device_key local_id dev) (fo_key fo) in
                let* '(infos, _) := gput (fo_infos fo) fi true in
                Ok (fi, infos)
            end in
          let fo := with_infos fo infos in
          let* m := update_folders m (replace_folder (folders_of m) folder_id fo) in
          tell_iterator device_id (λ fit, on_upsert_info local_zone (self_sha m) (mo_cluster m) fit fo fi) m
      end
  end.

(** The loop over the keys. *)
Fixpoint remove_keys (keys : list bytes) (c : cluster) (files : file_map) : res file_map :=
  match keys with
  | [] => Ok files
  | key :: keys =>
      let* '(_, file_id) := decompose_key key in
      let* p := the (by_uuid files file_id) in
      let* f := file_at c p in
      remove_keys keys c (remove files (entry_of p f))
  end.

Definition remove_files_apply (folder_id device_id : bytes) (keys : list bytes) (m : model) : res model :=
  match folder_by_id (folders_of m) folder_id with
  | None => Ok m
  | Some fo =>
      match by_device_id (fo_infos fo) device_id with
      | None => Ok m
      | Some fi =>
          let* files := remove_keys keys (mo_cluster m) (fi_files fi) in
          update_folders m (set_info folder_id device_id (with_files fi (fi_max_sequence fi) files) (folders_of m))
      end
  end.

Fixpoint remove_folder_infos_apply (keys : list bytes) (m : model) : res model :=
  match keys with
  | [] => Ok m
  | key :: keys =>
      let* decomposed := fi_decompose_key key in
      let* fo := the (folder_by_key (folders_of m) (dk_folder_key decomposed)) in
      let* fi := the (by_device_key (fo_infos fo) (dk_device_key decomposed)) in
      let* m :=
        if bool_decide (fi_device_sha fi ≠ self_sha m) then tell_iterator (fi_device_sha fi) (λ fit, Ok (on_remove fit (fi_key fi))) m
        else Ok m in
      let* m := update_folders m (replace_folder (folders_of m) (fd_id (fo_data fo)) (with_infos fo (gremove (fo_infos fo) fi))) in
      remove_folder_infos_apply keys m
  end.

(** A folder that is not there is a null pointer, whose keys are read. *)
Definition remove_folder_apply (folder_id : bytes) (m : model) : res model :=
  let* fo := the (folder_by_id (folders_of m) folder_id) in
  let* fo := mark_suspended fo true None in
  update_folders m (gremove (folders_of m) fo).

(** ** Files and blocks: [modify/], [local/] *)

Definition add_blocks_apply (blocks : list BlockInfo) (m : model) : res model :=
  let c := mo_cluster m in
  let* '(known, h) := add_blocks (cl_blocks c) (cl_heap c) blocks in
  Ok (with_cluster m (mkCluster known h (cl_files c) (cl_folders c))).

Definition remove_blocks_apply (keys : list bytes) (m : model) : res model :=
  let c := mo_cluster m in
  let* '(known, h) := drop_blocks (cl_blocks c) (cl_heap c) keys in
  Ok (with_cluster m (mkCluster known h (cl_files c) (cl_folders c))).

(** The file of a device in a folder, if folder, folder info and file are there. *)
Definition find_file (m : model) (folder_id device_id name : bytes) : res (option (file_ptr * file_info)) :=
  match folder_by_id (folders_of m) folder_id with
  | None => Ok None
  | Some fo =>
      match by_device_id (fo_infos fo) device_id with
      | None => Ok None
      | Some fi => file_by_name (mo_cluster m) fi name
      end
  end.

Definition block_ack_apply (folder_id device_id file_name : bytes) (block_index : nat) (m : model) : res model :=
  let* r := find_file m folder_id device_id file_name in
  match r with
  | None => Ok m
  | Some (p, f) =>
      let* available := is_block_locally_available f block_index in
      if available then Ok m
      else
        let* '(f, h) := mark_local_available p f (cl_heap (mo_cluster m)) block_index in
        Ok (update_file_of m p f h)
  end.

Fixpoint mark_blocks (p : file_ptr) (valid : list bool) (i : nat) (f : file_info) (h : heap) : res (file_info * heap) :=
  match valid with
  | [] => Ok (f, h)
  | v :: valid =>
      let* '(f, h) := if v then mark_local_available p f h i else Ok (f, h) in
      mark_blocks p valid (S i) f h
  end.

Definition blocks_availability_apply (folder_id device_id file_name : bytes) (valid_blocks_map : list bool) (m : model) : res model :=
  let* r := find_file m folder_id device_id file_name in
  let* '(p, f) := the r in
  let* '(f, h) := mark_blocks p valid_blocks_map 0 f (cl_heap (mo_cluster m)) in
  Ok (update_file_of m p f h).

Definition mark_reachable_apply (folder_id device_id file_name : bytes) (reachable : bool) (m : model) : res model :=
  let* _ := the (by_sha256 (mo_devices m) device_id) in
  let* r := find_file m folder_id device_id file_name in
  let* '(p, f) := the r in
  Ok (update_file_of m p (mark_unreachable f (negb reachable)) (cl_heap (mo_cluster m))).

(** The blocks of the file that are not local yet, from [i] on. *)
Fixpoint mark_missing (p : file_ptr) (count i : nat) (f : file_info) (h : heap) : res (file_info * heap) :=
  match count with
  | O => Ok (f, h)
  | S count =>
      let* available := is_block_locally_available f i in
      let* '(f, h) := if available then Ok (f, h) else mark_local_available p f h i in
      mark_missing p count (S i) f h
  end.

(** [file_info_t::recheck]: the iterators of the peers that have a file of this name. *)
Fixpoint recheck_peers (self_info : folder_info) (infos : list folder_info) (name : bytes) (m : model) : res model :=
  match infos with
  | [] => Ok m
  | fi :: infos =>
      let* m :=
        if bool_decide (fi_device_sha fi ≠ fi_device_sha self_info) then
          match by_name (fi_files fi) name with
          | Some peer_file => tell_iterator (fi_device_sha fi) (λ fit, recheck local_zone (self_sha m) (mo_cluster m) fit (fi_key fi) peer_file) m
          | None => Ok m
          end
        else Ok m in
      recheck_peers self_info infos name m
  end.

Definition file_availability_apply (folder_id name : bytes) (v : version) (m : model) : res model :=
  match folder_by_id (folders_of m) folder_id with
  | None => Ok m
  | Some fo =>
      let* fi := the (by_device_id (fo_infos fo) (self_sha m)) in
      let* r := file_by_name (mo_cluster m) fi name in
      let* '(p, f) := the r in
      if identical_to (f_version f) v then
        let* total := it_get_total (mkBlocksIterator (Some f) 0) in
        let* '(f, h) := mark_missing p (Z.to_nat total) 0 f (cl_heap (mo_cluster m)) in
        let* f := mark_local f true in
        recheck_peers fi (fo_infos fo) name (update_file_of m p f h)
      else Ok m
  end.

(** Is the name the directory itself or below it? *)
Definition below (sub_dir name : bytes) : bool :=
  (length sub_dir <=? length name)%nat &&
  (bool_decide (sub_dir = []) ||
   (bool_decide (take (length sub_dir) name = sub_dir) &&
    match drop (length sub_dir) name with [] => true | c :: _ => c =? 47 end)).

Fixpoint unmark_local (sub_dir : bytes) (ps : list file_ptr) (files : gmap file_ptr file_info) : res (gmap file_ptr file_info) :=
  match ps with
  | [] => Ok files
  | p :: ps =>
      let* f := the (files !! p) in
      let* f := if is_local f && below sub_dir (f_name f) then mark_local f false else Ok f in
      unmark_local sub_dir ps (<[p := f]> files)
  end.

Definition scan_start_before (folder_id : bytes) (at_ : Z) (m : model) : res model :=
  let* fo := the (folder_by_id (folders_of m) folder_id) in
  update_folders m (replace_folder (folders_of m) folder_id (set_scan_start fo at_)).

(** After the siblings; the folder is held meanwhile. *)
Definition scan_start_late (folder_id sub_dir : bytes) (m : model) : res model :=
  match folder_by_id (folders_of m) folder_id with
  | None => Ok m
  | Some fo =>
      let c := mo_cluster m in
      let* fi := the (by_device_id (fo_infos fo) (self_sha m)) in
      let* files := unmark_local sub_dir (map e_file (fi_files fi)) (cl_files c) in
      Ok (with_cluster m (mkCluster (cl_blocks c) (cl_heap c) files (cl_folders c)))
  end.

Definition scan_finish_before (folder_id : bytes) (at_ : Z) (m : model) : res model :=
  let* fo := the (folder_by_id (folders_of m) folder_id) in
  let* fo := set_scan_finish fo at_ in
  update_folders m (replace_folder (folders_of m) folder_id fo).

Definition scan_finish_late (folder_id : bytes) (m : model) : res model :=
  match folder_by_id (folders_of m) folder_id with
  | None => Ok m
  | Some fo => let* _ := the (by_device_id (fo_infos fo) (self_sha m)) in Ok m
  end.

Definition synchronization_apply (folder_id : bytes) (delta : Z) (m : model) : res model :=
  match folder_by_id (folders_of m) folder_id with
  | None => Ok m
  | Some fo => let* fo := adjust_synchronization fo delta in update_folders m (replace_folder (folders_of m) folder_id fo)
  end.

(** ** Messages of peers: [peer/] *)

Definition add_traffic (sha256 : bytes) (rx tx : Z) (traffic : gmap bytes (Z * Z)) : gmap bytes (Z * Z) :=
  let '(r, t) := default (0, 0) (traffic !! sha256) in <[sha256 := (u64 (r + rx), u64 (t + tx))]> traffic.

Definition rx_tx_apply (peer_id : bytes) (rx tx : Z) (m : model) : res model :=
  let traffic := match by_sha256 (mo_devices m) peer_id with Some _ => add_traffic peer_id rx tx (mo_traffic m) | None => mo_traffic m end in
  Ok (with_traffic m (add_traffic (self_sha m) rx tx traffic)).

Record view_item := mkViewItem { vi_folder_id : bytes; vi_device_id : device_id; vi_index_id : Z; vi_max_sequence : Z }.

Definition update_remote_views_apply (peer_id : bytes) (items : list view_item) (m : model) : res model :=
  let* _ := the (by_sha256 (mo_devices m) peer_id) in
  let views := default ∅ (mo_views m !! peer_id) in
  let views := fold_left (λ v i, push_view v (get_sha256 (vi_device_id i)) (vi_folder_id i) (vi_index_id i) (vi_max_sequence i)) items views in
  Ok (with_views m (<[peer_id := views]> (mo_views m))).

Definition cluster_update_before (peer_id : bytes) (m : model) : res model :=
  let* _ := the (by_sha256 (mo_devices m) peer_id) in Ok (with_views m (<[peer_id := ∅]> (mo_views m))).

Definition update_folder_apply (d : update_folder) (m : model) : res model :=
  let* c := apply_update (mo_cluster m) d in Ok (with_cluster m c).

(** After the siblings, the iterator of the peer. *)
Definition update_folder_late (d : update_folder) (m : model) : res model :=
  match folder_by_id (folders_of m) (uf_folder_id d) with
  | None => Ok m
  | Some fo =>
      match by_device_id (fo_infos fo) (uf_peer_id d) with
      | None => Ok m
      | Some fi => tell_iterator (uf_peer_id d) (λ fit, on_upsert_info local_zone (self_sha m) (mo_cluster m) fit fo fi) m
      end
  end.

Definition on_cluster (f : cluster → bytes → res cluster) (m : model) : res model :=
  let* c := f (mo_cluster m) (self_sha m) in Ok (with_cluster m c).

(** ** Loading from the database: [load/] *)

Fixpoint load_devices (pairs : list (bytes * bytes)) (m : model) : res model :=
  match pairs with
  | [] => let* _ := the (by_sha256 (mo_devices m) (self_sha m)) in Ok m
  | (key, value) :: pairs =>
      let* '(dev, token) :=
        if bool_decide (key = device_key local_id (mo_device m)) then Ok (mo_device m, mo_next_token m)
        else
          match decode_device value with
          | None => Err device_deserialization_failure
          | Some db =>
              let* dev := create_device_db parse_uri (mo_next_token m) key db in
              Ok (dev, fst (make_offline (mo_next_token m)))
          end in
      let* '(ds, _) := gput (mo_devices m) dev true in
      load_devices pairs (with_next_token (with_devices m ds) token)
  end.

Fixpoint load_folders (pairs : list (bytes * bytes)) (m : model) : res model :=
  match pairs with
  | [] => Ok m
  | (key, value) :: pairs =>
      match decode_folder value with
      | None => Err folder_deserialization_failure
      | Some db =>
          let* fo := create_folder_db key db in
          let* '(folders, _) := gput (folders_of m) fo true in
          let* m := update_folders m folders in
          load_folders pairs m
      end
  end.

Fixpoint load_folder_infos (items : list (bytes * DbFolderInfo)) (m : model) : res model :=
  match items with
  | [] => Ok m
  | (key, db) :: items =>
      let* decomposed := fi_decompose_key key in
      match device_by_key (mo_devices m) (dk_device_key decomposed) with
      | None => Err no_such_device
      | Some dev =>
          match folder_by_key (folders_of m) (dk_folder_key decomposed) with
          | None => Err no_such_folder
          | Some fo =>
              let* fi := create_folder_info_db key db (get_sha256 (d_id dev)) (device_key local_id dev) (fo_key fo) in
              let* '(infos, _) := gput (fo_infos fo) fi true in
              let* m := update_folders m (replace_folder (folders_of m) (fd_id (fo_data fo)) (with_infos fo infos)) in
              load_folder_infos items m
          end
      end
  end.

(** [blocks_map.put(create(...))]; the temporary pointer is given up. *)
Fixpoint load_blocks_db (items : list (bytes * DbBlockInfo)) (known : block_map) (h : heap) : res (block_map * heap) :=
  match items with
  | [] => Ok (known, h)
  | (key, db) :: items =>
      let* block := create_block_db key db in
      let p := fresh (dom h) in
      let* h := add_ref (<[p := block]> h) p in
      let* '(known, h, _) := block_put known h p in
      let* h := release h p in
      load_blocks_db items known h
  end.

Definition load_blocks_apply (items : list (bytes * DbBlockInfo)) (m : model) : res model :=
  let c := mo_cluster m in
  let* '(known, h) := load_blocks_db items (cl_blocks c) (cl_heap c) in
  Ok (with_cluster m (mkCluster known h (cl_files c) (cl_folders c))).

(** The blocks of a stored file. *)
Fixpoint link_blocks (known : block_map) (this : file_ptr) (i : nat) (hashes : list bytes) (f : file_info) (h : heap)
    : res (file_info * heap) :=
  match hashes with
  | [] => Ok (f, h)
  | hash :: hashes =>
      let* block := the (by_hash known hash) in
      let* '(f, h) := assign_block this f h block i in
      link_blocks known this (S i) hashes f h
  end.

(** [all_fi]: the folder info of a uuid; of several, the last one that was found. *)
Definition info_by_uuid (folders : list folder) (uuid : bytes) : option (folder * folder_info) :=
  last (fo ← folders; map (pair fo) (filter (λ fi, fi_get_uuid fi = uuid) (fo_infos fo))).

Fixpoint load_file_infos (items : list (bytes * DbFileInfo)) (m : model) : res model :=
  match items with
  | [] => Ok m
  | (key, db) :: items =>
      let c := mo_cluster m in
      let* '(fo, fi) := the (info_by_uuid (cl_folders c) (take uuid_length (drop 1 key))) in
      let p := fresh (dom (cl_files c)) in
      let* '(f, h) := create_file_db p key db (fi_get_uuid fi) (cl_heap c) in
      let* '(f, h) := link_blocks (cl_blocks c) p 0 (df_blocks db) f h in
      let fi' := add_relaxed fi (entry_of p f) in
      let* '(files, h) := destroy_files (lost_files (fi_files fi) (fi_files fi') [p]) (<[p := f]> (cl_files c)) h in
      load_file_infos items (with_cluster m (mkCluster (cl_blocks c) h files (set_info (fd_id (fo_data fo)) (fi_device_sha fi) fi' (cl_folders c))))
  end.

(** [some_devices_t::apply], for either map. *)
Fixpoint load_some_devices (prefix : Z) (pairs : list (bytes * bytes)) (ds : list some_device) : res (list some_device) :=
  match pairs with
  | [] => Ok ds
  | (key, value) :: pairs =>
      let* id := from_sha256 (take DeviceId.digest_length (drop 1 key)) in
      match id with
      | None => Err malformed_deviceid
      | Some id =>
          match decode_some_device value with
          | None => Err some_device_deserialization_failure
          | Some db =>
              let* '(ds, _) := gput ds (create_some prefix id db) true in
              load_some_devices prefix pairs ds
          end
      end
  end.

Definition load_pending_devices (pairs : list (bytes * bytes)) (m : model) : res model :=
  let* ds := load_some_devices prefix_pending_device pairs (mo_pending_devices m) in Ok (with_pending_devices m ds).

Definition load_ignored_devices (pairs : list (bytes * bytes)) (m : model) : res model :=
  let* ds := load_some_devices prefix_ignored_device pairs (mo_ignored_devices m) in Ok (with_ignored_devices m ds).

Fixpoint load_pending_folders (pairs : list (bytes * bytes)) (m : model) : res model :=
  match pairs with
  | [] => Ok m
  | (key, value) :: pairs =>
      match decode_pending_folder value with
      | None => Err pending_folder_deserialization_failure
      | Some db =>
          let* pf := create_pending_db key db in
          let* '(pfs, _) := gput (mo_pending_folders m) pf true in
          load_pending_folders pairs (with_pending_folders m pfs)
      end
  end.

Fixpoint load_ignored_folders (pairs : list (bytes * bytes)) (m : model) : res model :=
  match pairs with
  | [] => Ok m
  | (key, value) :: pairs =>
      let* f := create_ignored_db key value in
      let* '(fs, _) := gput (mo_ignored_folders m) f true in
      load_ignored_folders pairs (with_ignored_folders m fs)
  end.

(** ** The tree of changes *)

Inductive op :=
| AddPendingDevice (id : device_id) (db : DbSomeDevice)
| RemovePendingDevice (key : bytes)
| AddIgnoredDevice (id : device_id) (db : DbSomeDevice)
| RemoveIgnoredDevice (key : bytes)
| UnknownConnected (id : device_id) (db : DbSomeDevice)
| IgnoredConnected (id : device_id) (db : DbSomeDevice)
| UpdatePeer (item : DbDevice) (peer_id : bytes)
| RemovePeer (peer_key : bytes)
| PeerState (has_been_online : bool) (peer_id : bytes) (state : device_state) (client_name client_version : bytes) (now : Z)
| UpdateContact (known : bool) (id : device_id) (uris : list uri)
| AddPendingFolders (items : list pending_item)
| RemovePendingFolders (keys : list bytes)
| SuspendFolder (folder_id : bytes) (value : bool) (ec : option Z)
| UpsertFolder (uuid : bytes) (db : DbFolder)
| UpsertFolderInfo (uuid device_id introducer_device_key folder_id : bytes) (index_id : Z)
| ShareFolder (peer_id folder_id : bytes)
| UnshareFolder (peer_id : bytes)
| RemoveFiles (folder_id device_id : bytes) (keys : list bytes)
| ResetFolderInfos
| RemoveFolderInfos (keys : list bytes)
| RemoveFolder (folder_id folder_key : bytes)
| AddBlocks (blocks : list BlockInfo)
| RemoveBlocks (keys : list bytes)
| BlockAck (folder_id device_id file_name block_hash : bytes) (block_index : nat) (unlock_block : bool)
| BlocksAvailability (folder_id device_id file_name : bytes) (valid_blocks_map : list bool)
| MarkReachable (folder_id device_id file_name : bytes) (reachable : bool)
| FileAvailability (folder_id name : bytes) (v : version)
| ScanStart (folder_id sub_dir : bytes) (at_ : Z)
| ScanFinish (folder_id : bytes) (at_ : Z)
| SynchronizationStart (folder_id : bytes)
| SynchronizationFinish (folder_id : bytes)
| RxTx (peer_id : bytes) (rx tx : Z)
| UpdateRemoteViews (peer_id : bytes) (items : list view_item)
| ClusterUpdate (peer_id : bytes)
| UpdateFolder (d : update_folder)
| RemoteCopy (a : advance)
| LocalUpdate (a : advance)
| RemoteWin (a sibling : advance)
| LoadDevices (pairs : list (bytes * bytes))
| LoadFolders (pairs : list (bytes * bytes))
| LoadFolderInfos (items : list (bytes * DbFolderInfo))
| LoadBlocks (items : list (bytes * DbBlockInfo))
| LoadFileInfos (items : list (bytes * DbFileInfo))
| LoadPendingDevices (pairs : list (bytes * bytes))
| LoadIgnoredDevices (pairs : list (bytes * bytes))
| LoadPendingFolders (pairs : list (bytes * bytes))
| LoadIgnoredFolders (pairs : list (bytes * bytes))
| RemoveCorruptedFiles (keys : list bytes)
| LoadCluster
| Interrupt
| Commit.

Definition op_kind (o : op) : diff_kind :=
  match o with Interrupt => interrupt | Commit => commit | _ => change end.

(** Does [apply_impl] go into the child? *)
Definition op_enters (o : op) : bool :=
  match o with
  | AddIgnoredDevice _ _ | UpdatePeer _ _ | RemovePeer _ | PeerState _ _ _ _ _ _ | SuspendFolder _ _ _ | UpsertFolder _ _
  | ShareFolder _ _ | UnshareFolder _ | RemoveFiles _ _ _ | ResetFolderInfos | RemoveFolderInfos _ | RemoveFolder _ _
  | ClusterUpdate _ | RemoveCorruptedFiles _ | LoadCluster => true
  | _ => false
  end.

(** What is done before the child, if any. *)
Definition op_before (o : op) (m : model) : res model :=
  match o with
  | AddPendingDevice id db => add_pending_device_apply id db m
  | RemovePendingDevice key => remove_pending_device_apply key m
  | RemoveIgnoredDevice key => remove_ignored_device_apply key m
  | UnknownConnected id db => unknown_connected_apply id db m
  | IgnoredConnected id db => ignored_connected_apply id db m
  | PeerState _ peer_id state name v now => peer_state_apply peer_id state name v now m
  | UpdateContact known id uris => update_contact_apply known id uris m
  | AddPendingFolders items => add_pending_folders_apply items m
  | RemovePendingFolders keys => remove_pending_folders_apply keys m
  | SuspendFolder id value ec => suspend_folder_apply id value ec m
  | UpsertFolder uuid db => upsert_folder_before uuid db m
  | UpsertFolderInfo uuid device_id key folder_id index_id => upsert_folder_info_apply uuid device_id key folder_id index_id m
  | AddBlocks blocks => add_blocks_apply blocks m
  | RemoveBlocks keys => remove_blocks_apply keys m
  | BlockAck folder_id device_id name _ i _ => block_ack_apply folder_id device_id name i m
  | BlocksAvailability folder_id device_id name valid => blocks_availability_apply folder_id device_id name valid m
  | MarkReachable folder_id device_id name r => mark_reachable_apply folder_id device_id name r m
  | FileAvailability folder_id name v => file_availability_apply folder_id name v m
  | ScanStart folder_id _ at_ => scan_start_before folder_id at_ m
  | ScanFinish folder_id at_ => scan_finish_before folder_id at_ m
  | SynchronizationStart folder_id => synchronization_apply folder_id 1 m
  | SynchronizationFinish folder_id => synchronization_apply folder_id (-1) m
  | RxTx peer_id rx tx => rx_tx_apply peer_id rx tx m
  | UpdateRemoteViews peer_id items => update_remote_views_apply peer_id items m
  | ClusterUpdate peer_id => cluster_update_before peer_id m
  | UpdateFolder d => update_folder_apply d m
  | RemoteCopy a => on_cluster (λ c self, remote_copy_apply c self a) m
  | LocalUpdate a => on_cluster (λ c self, local_update_apply c self a) m
  | RemoteWin a sibling => on_cluster (λ c self, remote_win_apply c self a sibling) m
  | LoadDevices pairs => load_devices pairs m
  | LoadFolders pairs => load_folders pairs m
  | LoadFolderInfos items => load_folder_infos items m
  | LoadBlocks items => load_blocks_apply items m
  | LoadFileInfos items => load_file_infos items m
  | LoadPendingDevices pairs => load_pending_devices pairs m
  | LoadIgnoredDevices pairs => load_ignored_devices pairs m
  | LoadPendingFolders pairs => load_pending_folders pairs m
  | LoadIgnoredFolders pairs => load_ignored_folders pairs m
  | _ => Ok m
  end.

(** What is done between the child and the sibling. *)
Definition op_after (o : op) (m : model) : res model :=
  match o with
  | AddIgnoredDevice id db => add_ignored_device_apply id db m
  | UpdatePeer item peer_id => update_peer_apply item peer_id m
  | RemovePeer key => remove_peer_apply key m
  | UpsertFolder _ db => upsert_folder_after (do_id db) (mo_devices m) m
  | RemoveFiles folder_id device_id keys => remove_files_apply folder_id device_id keys m
  | RemoveFolderInfos keys => remove_folder_infos_apply keys m
  | RemoveFolder folder_id _ => remove_folder_apply folder_id m
  | _ => Ok m
  end.

(** What is done after the sibling. *)
Definition op_late (o : op) (m : model) : res model :=
  match o with
  | ScanStart folder_id sub_dir _ => scan_start_late folder_id sub_dir m
  | ScanFinish folder_id _ => scan_finish_late folder_id m
  | UpdateFolder d => update_folder_late d m
  | _ => Ok m
  end.

#[export] Instance change_ops : DiffOps op model := {|
  kind_of := op_kind;
  enters := op_enters;
  before := op_before;
  after := op_after;
  late := op_late;
  new_interrupt := Interrupt;
  new_interrupt_kind := eq_refl;
|}.
End changes.
