(* ===== verification/Trees.v ===== *)
(** * Trees: how the changes of [src/model/diff/modify] are made, the constructors and [create] functions: which children a
    change carries. [orphaned_blocks_t] is the list of files recorded in it; a constructor that is handed one by its maker
    (the pointer [orphaned_blocks_]) adds to it, one that is not looks for orphans itself. *)

From S2P Require Import Prelude Diff Version Proto DeviceId Device Blocks FileInfo FileStore FileMap GenericMap Folder.
From S2P Require Import Resolver BlockMap UpdateFolder Streamer FileIterator Advance Cluster Changes.

(** [constants::diffs_batch]. *)
Definition diffs_batch : Z := 256.

(** [sequencer_t]: two streams of numbers, drawn from with one counter. *)
Record sequencer := mkSequencer { sq_uuid : nat → bytes; sq_uint64 : nat → Z }.

Definition leaf (o : op) : diff op := Node o Null Null.

Section trees.
Context `{Environment}.

(** ** Removing files *)

(** The keys of the files of a map. *)
Fixpoint file_keys (c : cluster) (files : file_map) : res (list bytes) :=
  match files with
  | [] => Ok []
  | e :: files =>
      let* f := file_at c (e_file e) in
      let* keys := file_keys c files in
      Ok ((prefix_file_info :: get_full_id f) :: keys)
  end.

(** When the orphans are the constructor's own: the change that removes them, unless there are none. *)
Definition remove_orphans (c : cluster) (orphaned_blocks : list file_ptr) : res (list (diff op)) :=
  let* keys := deduce orphaned_blocks [] (cl_files c) (cl_heap c) in
  Ok (if bool_decide (keys = []) then [] else [leaf (RemoveBlocks keys)]).

Definition own_orphans (c : cluster) (shared : option (list file_ptr)) (orphaned_blocks : list file_ptr) : res (list (diff op)) :=
  match shared with Some _ => Ok [] | None => remove_orphans c orphaned_blocks end.

Definition new_remove_files (c : cluster) (fo : folder) (fi : folder_info) (shared : option (list file_ptr))
    : res (diff op * list file_ptr) :=
  let orphaned_blocks := fold_left record (map e_file (fi_files fi)) (default [] shared) in
  let* keys := file_keys c (fi_files fi) in
  let* removed := own_orphans c shared orphaned_blocks in
  Ok (Node (RemoveFiles (fd_id (fo_data fo)) (fi_device_sha fi) keys) (default Null (head removed)) Null, orphaned_blocks).

(** The loop of [reset_folder_infos_t]. *)
Fixpoint reset_loop (c : cluster) (infos : list (folder * folder_info)) (orphaned_blocks : list file_ptr)
    : res (list (diff op) * list file_ptr) :=
  match infos with
  | [] => Ok ([], orphaned_blocks)
  | (fo, fi) :: infos =>
      if bool_decide (fi_files fi = []) then reset_loop c infos orphaned_blocks
      else
        let* '(d, orphaned_blocks) := new_remove_files c fo fi (Some orphaned_blocks) in
        let* '(ds, orphaned_blocks) := reset_loop c infos orphaned_blocks in
        Ok (d :: ds, orphaned_blocks)
  end.

Definition new_reset_folder_infos (c : cluster) (infos : list (folder * folder_info)) (shared : option (list file_ptr))
    : res (diff op * list file_ptr) :=
  let* '(ds, orphaned_blocks) := reset_loop c infos (default [] shared) in
  let* removed := own_orphans c shared orphaned_blocks in
  let* child := assemble diffs_batch (ds ++ removed) in
  Ok (Node ResetFolderInfos child Null, orphaned_blocks).

(** The keys are a set; those of different folder infos differ. *)
Definition new_remove_folder_infos (c : cluster) (infos : list (folder * folder_info)) (shared : option (list file_ptr))
    : res (diff op * list file_ptr) :=
  let keys := remove_dups (map (λ x, fi_key x.2) infos) in
  let* '(child, orphaned_blocks) := new_reset_folder_infos c infos shared in
  Ok (Node (RemoveFolderInfos keys) child Null, orphaned_blocks).

Definition new_unshare_folder (c : cluster) (fo : folder) (fi : folder_info) (shared : option (list file_ptr))
    : res (diff op * list file_ptr) :=
  let* '(d, orphaned_blocks) := new_remove_folder_infos c [(fo, fi)] (Some (default [] shared)) in
  let* removed := own_orphans c shared orphaned_blocks in
  let* child := assemble diffs_batch (d :: removed) in
  Ok (Node (UnshareFolder (fi_device_sha fi)) child Null, orphaned_blocks).

(** One [unshare_folder_t] after the other, with one set of orphans. *)
Fixpoint unshare_loop (c : cluster) (infos : list (folder * folder_info)) (orphaned_blocks : list file_ptr)
    : res (list (diff op) * list file_ptr) :=
  match infos with
  | [] => Ok ([], orphaned_blocks)
  | (fo, fi) :: infos =>
      let* '(d, orphaned_blocks) := new_unshare_folder c fo fi (Some orphaned_blocks) in
      let* '(ds, orphaned_blocks) := unshare_loop c infos orphaned_blocks in
      Ok (d :: ds, orphaned_blocks)
  end.

(** The offer that is left of a peer's folder info when its folder is removed. *)
Definition offer_of (fo : folder) (fi : folder_info) (uuid : bytes) : pending_item :=
  let fd := fo_data fo in
  mkPendingItem
    (mkDbPendingFolder
       (mkDbFolder (fd_id fd) (fd_label fd) (fd_ignore_permissions fd) (fd_ignore_delete fd) (fd_disable_temp_indixes fd)
          (fd_paused fd) (fd_scheduled fd) (fd_path fd) (fd_folder_type fd) (fd_pull_order fd) 0 false)
       (mkDbFolderInfo (fi_index fi) (fi_max_sequence fi) []))
    (fi_device_sha fi) uuid.

Fixpoint offers_of (self_sha256 : bytes) (fo : folder) (infos : list folder_info) (sq : sequencer) (n : nat) : list pending_item * nat :=
  match infos with
  | [] => ([], n)
  | fi :: infos =>
      if bool_decide (fi_device_sha fi ≠ self_sha256) && negb (fi_index fi =? 0) then
        let '(items, n') := offers_of self_sha256 fo infos sq (S n) in (offer_of fo fi (sq_uuid sq n) :: items, n')
      else offers_of self_sha256 fo infos sq n
  end.

Definition new_remove_folder (m : model) (sq : sequencer) (n : nat) (fo : folder) : res (diff op * nat) :=
  let c := mo_cluster m in
  let* '(ds, orphaned_blocks) := unshare_loop c (map (pair fo) (fo_infos fo)) [] in
  let '(pending, n) := offers_of (self_sha m) fo (fo_infos fo) sq n in
  let* removed := remove_orphans c orphaned_blocks in
  let* child := assemble diffs_batch (ds ++ removed ++ (if bool_decide (length pending = 0%nat) then [] else [leaf (AddPendingFolders pending)])) in
  Ok (Node (RemoveFolder (fd_id (fo_data fo)) (fo_key fo)) child Null, n).

(** The folder infos of a peer. *)
Definition shared_with (folders : list folder) (sha256 : bytes) : list (folder * folder_info) :=
  omap (λ fo, pair fo <$> by_device_id (fo_infos fo) sha256) folders.

Definition new_remove_peer (m : model) (peer : device) : res (diff op) :=
  let c := mo_cluster m in
  let sha256 := get_sha256 (d_id peer) in
  let keys := map pn_key (filter (λ pf, get_sha256 (pn_device pf) = sha256) (mo_pending_folders m)) in
  let* '(ds, orphaned_blocks) := unshare_loop c (shared_with (cl_folders c) sha256) [] in
  let* removed := remove_orphans c orphaned_blocks in
  let* child := assemble diffs_batch ((if bool_decide (keys = []) then [] else [leaf (RemovePendingFolders keys)]) ++ ds ++ removed) in
  Ok (Node (RemovePeer (device_key local_id peer)) child Null).

(** ** Adding and sharing *)

Definition new_add_ignored_device (m : model) (id : device_id) (db : DbSomeDevice) : diff op :=
  Node (AddIgnoredDevice id db)
    (match some_by_sha256 (mo_pending_devices m) (get_sha256 id) with Some peer => leaf (RemovePendingDevice (sd_key peer)) | None => Null end) Null.

Definition new_update_peer (m : model) (db : DbDevice) (id : device_id) : res (diff op) :=
  let sha256 := get_sha256 id in
  let pending := match some_by_sha256 (mo_pending_devices m) sha256 with Some d => [leaf (RemovePendingDevice (sd_key d))] | None => [] end in
  let ignored := match some_by_sha256 (mo_ignored_devices m) sha256 with Some d => [leaf (RemoveIgnoredDevice (sd_key d))] | None => [] end in
  let* child := assemble diffs_batch (pending ++ ignored) in
  Ok (Node (UpdatePeer db sha256) child Null).

(** [upsert_folder_t::create]: an existing folder keeps its uuid; temporary indices are switched off. *)
Definition new_upsert_folder (m : model) (sq : sequencer) (n : nat) (db : DbFolder) (index_id : Z) : diff op * nat :=
  let prev_folder := folder_by_id (folders_of m) (do_id db) in
  let folder_info := prev_folder ≫= λ fo, by_device_id (fo_infos fo) (self_sha m) in
  let '(uuid, n) := match prev_folder with Some fo => (fo_get_uuid fo, n) | None => (sq_uuid sq n, S n) end in
  let '(index_id, n) := if index_id =? 0 then (sq_uint64 sq n, S n) else (index_id, n) in
  let db := mkDbFolder (do_id db) (do_label db) (do_ignore_permissions db) (do_ignore_delete db) true (do_paused db) (do_scheduled db)
              (do_path db) (do_folder_type db) (do_pull_order db) (do_rescan_interval db) (do_watched db) in
  match folder_info with
  | Some _ => (leaf (UpsertFolder uuid db), n)
  | None =>
      (Node (UpsertFolder uuid db)
         (leaf (UpsertFolderInfo (sq_uuid sq n) (self_sha m) (get_key (d_id (mo_device m))) (do_id db) index_id)) Null, S n)
  end.

(** [share_folder_t::create]: the offer of the peer, if there is one, tells the index and is taken up. *)
Definition new_share_folder (m : model) (sq : sequencer) (n : nat) (peer : device) (introducer : device_id) (fo : folder)
    : res (diff op * nat) :=
  let sha256 := get_sha256 (d_id peer) in
  match by_device_id (fo_infos fo) sha256 with
  | Some _ => Err folder_is_already_shared
  | None =>
      let offer := head (filter (λ pf, get_sha256 (pn_device pf) = sha256 ∧ fd_id (pn_data pf) = fd_id (fo_data fo)) (mo_pending_folders m)) in
      let index := match offer with Some pf => pn_index pf | None => 0 end in
      let taken := match offer with Some pf => [leaf (RemovePendingFolders [pn_key pf])] | None => [] end in
      let* child := assemble diffs_batch
        (leaf (UpsertFolderInfo (sq_uuid sq n) sha256 (get_key introducer) (fd_id (fo_data fo)) index) :: taken) in
      Ok (Node (ShareFolder sha256 (fd_id (fo_data fo))) child Null, S n)
  end.

(** [peer_state_t::create]: no change when the peer is not known or the state would go back. *)
Definition new_peer_state (m : model) (peer_id : bytes) (state : device_state) (client_name client_version : bytes) (now : Z)
    : res (diff op) :=
  match by_sha256 (mo_devices m) peer_id with
  | None => Ok Null
  | Some peer =>
      let* forward := state_lt (d_state peer) state in
      let* allowed := if forward then Ok true else can_roollback_to (d_state peer) state in
      let has_been_online := bool_decide (st_connection (d_state peer) = online) && negb (bool_decide (st_connection state = online)) in
      Ok (if allowed then leaf (PeerState has_been_online peer_id state client_name client_version now) else Null)
  end.
End trees.
