(* ===== verification/Removal.v ===== *)
(** * Removal: what removing a peer and removing a folder do to the cluster: the trees of [Trees], applied as [Diff.apply]
    does, to a consistent cluster. *)

From S2P Require Import Prelude Diff Version Proto DeviceId Device Blocks FileInfo FileStore FileMap GenericMap Folder.
From S2P Require Import Resolver BlockMap UpdateFolder ApplyUpdate Streamer FileIterator Advance Cluster Changes Trees.

(** ** Files that go *)

Lemma capacity_filter (σ : slot_map) (p : file_ptr) : (capacity (delete p σ) <= capacity σ)%nat.
Proof.
  destruct (σ !! p) as [bs|] eqn:Hp; [pose proof (capacity_delete σ p bs Hp); lia|]. by rewrite delete_id.
Qed.

Lemma destroy_files_wf known ps : ∀ files h,
  wf_store files (map_refs known) h → NoDup ps → (∀ p, p ∈ ps → is_Some (files !! p)) →
  Z.of_nat (capacity (slots <$> files)) + 2 < 2 ^ 30 →
  ∃ files' h', destroy_files ps files h = Ok (files', h') ∧ wf_store files' (map_refs known) h' ∧ shrinks h h' ∧
    (∀ p, files' !! p = if bool_decide (p ∈ ps) then None else files !! p) ∧
    (capacity (slots <$> files') <= capacity (slots <$> files))%nat.
Proof.
  induction ps as [|p ps IH]; intros files h Hwf Hnd Hin Hc; cbn [destroy_files].
  - exists files, h. by split_and!.
  - apply NoDup_cons in Hnd as [Hp Hnd]. destruct (Hin p) as [f Hf]; [by left|]. rewrite Hf.
    destruct (destroy_file_wf files (map_refs known) h p f Hwf Hf) as (h1 & -> & H1 & Hs1).
    { eapply store_roomy; [done|lia]. }
    cbn [res_bind]. pose proof (capacity_filter (slots <$> files) p) as Hcd. rewrite <- fmap_delete in Hcd.
    destruct (IH (delete p files) h1 H1 Hnd) as (files' & h' & -> & H' & Hs' & Hl & Hc').
    { intros q Hq. rewrite lookup_delete_ne by (intros ->; done). apply Hin. by right. }
    { lia. }
    exists files', h'. split_and!; [done|done|by etrans| |lia]. intros q. rewrite Hl.
    destruct (decide (q = p)) as [->|Hne].
    + rewrite (bool_decide_eq_true_2 (p ∈ p :: ps)) by left. rewrite lookup_delete_eq. by case_bool_decide.
    + rewrite lookup_delete_ne by done. apply (f_equal (λ b : bool, if b then None else files !! q)), bool_decide_ext.
      rewrite elem_of_cons. tauto.
Qed.

(** ** Folder infos that lose their files, or go *)

Definition emptied (fi : folder_info) : folder_info := with_files fi (fi_max_sequence fi) [].

Definition refolder (g : folder → folder_info → option folder_info) (folders : list folder) : list folder :=
  map (λ fo, with_infos fo (omap (g fo) (fo_infos fo))) folders.

(** A folder info stays as it is, loses its files, or goes. *)
Definition thins (g : folder → folder_info → option folder_info) : Prop :=
  ∀ fo fi fi', g fo fi = Some fi' → fi' = fi ∨ fi' = emptied fi.

Lemma refolder_elem g folders fo' fi' :
  fo' ∈ refolder g folders → fi' ∈ fo_infos fo' →
  ∃ fo fi, fo ∈ folders ∧ fi ∈ fo_infos fo ∧ g fo fi = Some fi' ∧ fo' = with_infos fo (omap (g fo) (fo_infos fo)).
Proof.
  intros (fo & -> & Hfo)%list_elem_of_fmap (fi & Hfi & Hg)%list_elem_of_omap. by exists fo, fi.
Qed.

Lemma files_in_elem folders p :
  p ∈ files_in folders ↔ ∃ fo fi e, fo ∈ folders ∧ fi ∈ fo_infos fo ∧ e ∈ fi_files fi ∧ p = e_file e.
Proof.
  unfold files_in. rewrite list_elem_of_bind. setoid_rewrite list_elem_of_bind. setoid_rewrite list_elem_of_fmap. naive_solver.
Qed.

Lemma NoDup_bind {A B} (f : A → list B) (l : list A) :
  NoDup l → (∀ x, x ∈ l → NoDup (f x)) → (∀ x y b, x ∈ l → y ∈ l → b ∈ f x → b ∈ f y → x = y) → NoDup (l ≫= f).
Proof.
  induction 1 as [|x l Hx Hnd IH]; intros Hf Hd; cbn [mbind list_bind]; [constructor|].
  apply NoDup_app. split_and!; [apply Hf; left| |apply IH].
  - intros b Hb (y & Hby & Hy)%list_elem_of_bind. assert (x = y) as <-; [|done].
    apply (Hd x y b); [by left|by right|done|done].
  - intros y Hy. apply Hf. by right.
  - intros y z b Hy Hz. apply Hd; by right.
Qed.

Lemma fi_files_nodup c fo fi :
  wf_cluster c → fo ∈ cl_folders c → fi ∈ fo_infos fo → NoDup (map e_file (fi_files fi)).
Proof.
  intros Hwf Hfo Hfi. destruct (cl_wf_infos c Hwf fo fi Hfo Hfi) as ([Hm _] & _ & Hent).
  apply NoDup_fmap_2_strong; [|eapply NoDup_fmap_1, (map_uuid _ Hm)]. intros a b Ha Hb Heq.
  destruct (Hent a Ha) as (f & Hf & ->), (Hent b Hb) as (g & Hg & ->). cbn in Heq. rewrite Heq in Hf. cbn in Hf, Hg. congruence.
Qed.

Lemma files_in_nodup c : wf_cluster c → NoDup (files_in (cl_folders c)).
Proof.
  intros Hwf. unfold files_in. apply NoDup_bind; [eapply NoDup_fmap_1, (cl_wf_ids c Hwf)| |].
  - intros fo Hfo. apply NoDup_bind; [eapply NoDup_fmap_1, (cl_wf_devices c Hwf fo Hfo)|intros fi Hfi; by eapply fi_files_nodup|].
    intros fi fi' p Hfi Hfi' (e & -> & He)%list_elem_of_fmap (e' & Heq & He')%list_elem_of_fmap.
    by destruct (cl_wf_owner c Hwf fo fi e fo fi' e').
  - intros fo fo' p Hfo Hfo' (fi & (e & -> & He)%list_elem_of_fmap & Hfi)%list_elem_of_bind
      (fi' & (e' & Heq & He')%list_elem_of_fmap & Hfi')%list_elem_of_bind.
    by destruct (cl_wf_owner c Hwf fo fi e fo' fi' e').
Qed.

Lemma wf_blocks_shrinks σ known h h' :
  (∀ hash p, known !! hash = Some p → ∃ b, h !! p = Some b ∧ b_hash b = hash) →
  wf_heap σ (map_refs known) h' → shrinks h h' → wf_blocks σ known h'.
Proof.
  intros Hk Hh Hs. split; [done|]. intros hash p Hp. destruct (h' !! p) as [b'|] eqn:Hb'.
  - exists b'. split; [done|]. destruct (Hs p b' Hb') as (b & Hb & -> & _). destruct (Hk hash p Hp) as (b2 & Hb2 & <-). by simplify_eq.
  - destruct (heap_dead _ _ _ Hh p Hb') as [H0 _]. rewrite (map_refs_some _ _ _ Hp) in H0. done.
Qed.

(** What changed in the files and blocks of a cluster. *)
Record shed (c c' : cluster) (gone : file_ptr → Prop) : Prop := {
  sh_wf : wf_cluster c';
  sh_blocks : cl_blocks c' = cl_blocks c;
  sh_heap : shrinks (cl_heap c) (cl_heap c');
  sh_gone : ∀ p, gone p → cl_files c' !! p = None;
  sh_kept : ∀ p, ¬ gone p → cl_files c' !! p = cl_files c !! p;
  sh_capacity : (capacity (slots <$> cl_files c') <= capacity (slots <$> cl_files c))%nat;
}.

Lemma set_folders_shed c folders :
  wf_cluster c → Z.of_nat (capacity (slots <$> cl_files c)) + 2 < 2 ^ 30 →
  NoDup (map (λ fo, fd_id (fo_data fo)) folders) →
  (∀ fo, fo ∈ folders → NoDup (map fi_device_sha (fo_infos fo))) →
  (∀ fo' fi', fo' ∈ folders → fi' ∈ fo_infos fo' → ∃ fo fi, fo ∈ cl_folders c ∧ fi ∈ fo_infos fo ∧ (fi' = fi ∨ fi' = emptied fi) ∧
     ∀ fo2 e, fo2 ∈ folders → fi' ∈ fo_infos fo2 → e ∈ fi_files fi' → fo2 = fo') →
  ∃ c', set_folders c folders = Ok c' ∧ cl_folders c' = folders ∧
    shed c c' (λ p, p ∈ files_in (cl_folders c) ∧ p ∉ files_in folders).
Proof.
  intros Hwf Hc Hids Hdev Hinf. unfold set_folders.
  destruct (destroy_files_wf (cl_blocks c) (filter (λ p, p ∉ files_in folders) (files_in (cl_folders c))) (cl_files c) (cl_heap c))
    as (files' & h' & -> & H' & Hs & Hl & Hcap); [by apply wf_cluster_store|by apply NoDup_filter, files_in_nodup| |done|].
  { intros p [_ (fo & fi & e & Hfo & Hfi & He & ->)%files_in_elem]%list_elem_of_filter.
    destruct (cl_wf_infos c Hwf fo fi Hfo Hfi) as (_ & _ & Hent). destruct (Hent e He) as (f & -> & _). done. }
  cbn [res_bind]. eexists. split; [done|]. split; [done|].
  assert (∀ p, files' !! p = if bool_decide (p ∈ files_in (cl_folders c) ∧ p ∉ files_in folders) then None else cl_files c !! p) as Hl'.
  { intros p. rewrite Hl. apply (f_equal (λ b : bool, if b then None else cl_files c !! p)), bool_decide_ext.
    rewrite list_elem_of_filter. tauto. }
  assert (∀ p f, files' !! p = Some f → cl_files c !! p = Some f) as Hsub.
  { intros p f. rewrite Hl'. by case_bool_decide. }
  assert (∀ fo' fi' e, fo' ∈ folders → fi' ∈ fo_infos fo' → e ∈ fi_files fi' →
    ∃ fo, fo ∈ cl_folders c ∧ fi' ∈ fo_infos fo ∧ ∀ fo2, fo2 ∈ folders → fi' ∈ fo_infos fo2 → fo2 = fo') as Hold.
  { intros fo' fi' e Hfo' Hfi' He. destruct (Hinf fo' fi' Hfo' Hfi') as (fo & fi & Hfo & Hfi & [->| ->] & Hu); [|by apply elem_of_nil in He].
    exists fo. split_and!; [done|done|]. intros fo2 H2 Hi2. by apply (Hu fo2 e). }
  split; cbn; try done; [|intros p Hp; by rewrite Hl', bool_decide_eq_true_2|intros p Hp; by rewrite Hl', bool_decide_eq_false_2].
  split; cbn; try done.
  - eapply wf_blocks_shrinks; [apply (bm_hash _ _ _ (cl_wf_blocks c Hwf))|apply H'|done].
  - apply H'.
  - intros p b (b0 & Hb0 & Hh & _)%Hs. rewrite Hh. by apply (cl_wf_known c Hwf).
  - intros fo' fi' Hfo' Hfi'. destruct (Hinf fo' fi' Hfo' Hfi') as (fo & fi & Hfo & Hfi & Hcase & _).
    destruct (cl_wf_infos c Hwf fo fi Hfo Hfi) as (Hw & Hu & Hent). destruct Hcase as [->| ->].
    + split_and!; [done|done|]. intros e He. destruct (Hent e He) as (f & Hf & Heq). exists f. split; [|done].
      rewrite Hl', bool_decide_eq_false_2; [done|]. intros [_ Hn]. apply Hn. apply files_in_elem. by exists fo', fi, e.
    + split_and!; [|done|by intros e He%elem_of_nil]. split; [|by intros e He%elem_of_nil]. split; constructor.
  - intros fo1 fi1 e1 fo2 fi2 e2 H1 Hi1 He1 H2 Hi2 He2 Heq.
    destruct (Hold fo1 fi1 e1 H1 Hi1 He1) as (o1 & Ho1 & Hoi1 & Hu1), (Hold fo2 fi2 e2 H2 Hi2 He2) as (o2 & Ho2 & Hoi2 & Hu2).
    destruct (cl_wf_owner c Hwf o1 fi1 e1 o2 fi2 e2) as [-> ->]; try done. split; [|done]. symmetry. by apply Hu1.
Qed.

Lemma omap_devices g fo : thins g → NoDup (map fi_device_sha (fo_infos fo)) → NoDup (map fi_device_sha (omap (g fo) (fo_infos fo))).
Proof.
  intros Hg. induction (fo_infos fo) as [|fi infos IH]; [done|]. cbn [map]. intros [Hx Hnd]%NoDup_cons.
  cbn [omap list_omap]. destruct (g fo fi) as [fi'|] eqn:E; [|by apply IH]. cbn [map]. apply NoDup_cons. split; [|by apply IH].
  intros (y & Hy & (z & Hz & Hgz)%list_elem_of_omap)%list_elem_of_fmap. apply Hx.
  apply list_elem_of_fmap. exists z. split; [|done]. destruct (Hg _ _ _ E) as [->| ->], (Hg _ _ _ Hgz) as [->| ->]; done.
Qed.

Lemma refolder_shed c g :
  wf_cluster c → thins g → Z.of_nat (capacity (slots <$> cl_files c)) + 2 < 2 ^ 30 →
  ∃ c', set_folders c (refolder g (cl_folders c)) = Ok c' ∧ cl_folders c' = refolder g (cl_folders c) ∧
    shed c c' (λ p, p ∈ files_in (cl_folders c) ∧ p ∉ files_in (refolder g (cl_folders c))).
Proof.
  intros Hwf Hg Hc. apply set_folders_shed; [done|done|..].
  - unfold refolder. rewrite map_map. exact (cl_wf_ids c Hwf).
  - intros fo' (fo & -> & Hfo)%list_elem_of_fmap. cbn. apply omap_devices, (cl_wf_devices c Hwf); done.
  - intros fo' fi' H1 H2. destruct (refolder_elem g _ fo' fi' H1 H2) as (fo & fi & Hfo & Hfi & Heq & ->).
    exists fo, fi. split_and!; [done|done|by apply (Hg fo)|]. intros fo2 e H3 H4 He.
    destruct (refolder_elem g _ fo2 fi' H3 H4) as (o2 & i2 & Ho2 & Hi2 & Heq2 & ->).
    destruct (Hg _ _ _ Heq) as [->| ->]; [|by apply elem_of_nil in He].
    destruct (Hg _ _ _ Heq2) as [->| ->]; [|by apply elem_of_nil in He].
    by destruct (cl_wf_owner c Hwf fo i2 e o2 i2 e) as [-> _].
Qed.

(** The files that go are those of the folder infos that are not kept as they are. *)
Lemma refolder_gone c g p :
  wf_cluster c → thins g →
  (p ∈ files_in (cl_folders c) ∧ p ∉ files_in (refolder g (cl_folders c))) ↔
  ∃ fo fi, fo ∈ cl_folders c ∧ fi ∈ fo_infos fo ∧ g fo fi ≠ Some fi ∧ p ∈ map e_file (fi_files fi).
Proof.
  intros Hwf Hg. rewrite !files_in_elem. split.
  - intros [(fo & fi & e & Hfo & Hfi & He & ->) Hn]. exists fo, fi. split_and!; [done|done| |by apply list_elem_of_fmap_2].
    intros Hgf. apply Hn. exists (with_infos fo (omap (g fo) (fo_infos fo))), fi, e.
    split_and!; [apply list_elem_of_fmap; by exists fo| |done|done]. apply list_elem_of_omap. by exists fi.
  - intros (fo & fi & Hfo & Hfi & Hgf & (e & -> & He)%list_elem_of_fmap). split; [by exists fo, fi, e|].
    intros (fo' & fi' & e' & Hfo' & Hfi' & He' & Heq). destruct (refolder_elem g _ _ _ Hfo' Hfi') as (o & i & Ho & Hi & Hgi & _).
    destruct (Hg _ _ _ Hgi) as [->| ->]; [|by apply elem_of_nil in He'].
    by destruct (cl_wf_owner c Hwf fo fi e o i e') as [-> ->].
Qed.

Lemma shed_ext c c' (P Q : file_ptr → Prop) : (∀ p, P p ↔ Q p) → shed c c' P → shed c c' Q.
Proof. intros HPQ []. split; try done; intros p Hp; [apply sh_gone0|apply sh_kept0]; naive_solver. Qed.

Lemma shed_trans c1 c2 c3 (P Q : file_ptr → Prop) : (∀ p, Decision (P p)) → (∀ p, Decision (Q p)) →
  shed c1 c2 P → shed c2 c3 Q → shed c1 c3 (λ p, P p ∨ Q p).
Proof.
  intros DP DQ H1 H2. split; [apply H2|by rewrite (sh_blocks _ _ _ H2), (sh_blocks _ _ _ H1)| | | |].
  - etrans; [apply H1|apply H2].
  - intros p Hp. destruct (decide (Q p)) as [HQ|HQ]; [by apply (sh_gone _ _ _ H2)|].
    rewrite (sh_kept _ _ _ H2) by done. apply (sh_gone _ _ _ H1). tauto.
  - intros p Hp. rewrite (sh_kept _ _ _ H2), (sh_kept _ _ _ H1) by tauto. done.
  - etrans; [apply H2|apply H1].
Qed.

Lemma wf_gmap_omap {A N} `{Keyed A N} (f : A → option A) (l : list A) :
  (0 < N)%nat → (∀ x y, f x = Some y → keys_of y = keys_of x) → wf_gmap l → wf_gmap (omap f l).
Proof.
  intros HN Hf [Hnd Hs].
  assert (∀ x y x' y', x ∈ l → y ∈ l → f x = Some x' → f y = Some y' → shares x' y' → x = y) as Hxy.
  { intros x y x' y' Hx Hy Hfx Hfy Hsh. apply Hs; [done|done|]. apply shares_alt in Hsh as (I & HI & Heq). apply shares_alt.
    exists I. split; [done|]. unfold get_index in *. by rewrite (Hf _ _ Hfx), (Hf _ _ Hfy) in Heq. }
  split.
  - clear Hs. induction Hnd as [|x l Hx Hnd IH]; [constructor|]. cbn [omap list_omap].
    assert (NoDup (omap f l)) as Hl.
    { apply IH. intros a b a' b' Ha Hb. apply Hxy; by right. }
    destruct (f x) as [x'|] eqn:E; [|done]. apply NoDup_cons. split; [|done].
    intros (y & Hy & Hfy)%list_elem_of_omap. assert (x = y) as <-; [|done].
    apply (Hxy x y x' x'); [by left|by right|done|done|]. apply shares_alt. by exists 0%nat.
  - intros a b (x & Hx & Hfx)%list_elem_of_omap (y & Hy & Hfy)%list_elem_of_omap Hsh.
    rewrite (Hxy x y a b) in Hfx by done. congruence.
Qed.

Lemma omap_Some {A B} (f : A → B) (l : list A) : omap (λ x, Some (f x)) l = map f l.
Proof. induction l as [|x l IH]; [done|]. cbn. by rewrite IH. Qed.

(** ** Forgetting folder infos *)

Section removal.
Context `{Environment}.

(** The parts of the key of a folder info. *)
Definition keyed_info (fo : folder) (fi : folder_info) : Prop :=
  ∃ device folder uuid, length device = DeviceId.digest_length ∧ length folder = uuid_length ∧ length uuid = uuid_length ∧
    fo_key fo = prefix_folder :: folder ∧ fi_device_key fi = prefix_device :: device ∧
    fi_key fi = prefix_folder_info :: device ++ folder ++ uuid.

(** The invariant of the whole: files and blocks are consistent, every container is unique in its keys, and keys are
    made of what they stand for. *)
Record wf_model (m : model) : Prop := {
  mw_cluster : wf_cluster (mo_cluster m);
  mw_folders : wf_gmap (folders_of m);
  mw_infos : ∀ fo, fo ∈ folders_of m → wf_gmap (fo_infos fo);
  mw_keys : ∀ fo fi, fo ∈ folders_of m → fi ∈ fo_infos fo → keyed_info fo fi;
  mw_files : ∀ p f, cl_files (mo_cluster m) !! p = Some f → length (f_key f) = data_length;
  mw_devices : wf_gmap (mo_devices m);
  mw_pending : wf_gmap (mo_pending_folders m);
}.

(** The folder infos of [R], by folder and device, are gone. *)
Definition forgotten (R : list (bytes * bytes)) (fo : folder) (fi : folder_info) : option folder_info :=
  if bool_decide ((fd_id (fo_data fo), fi_device_sha fi) ∈ R) then None else Some fi.

Definition forget (R : list (bytes * bytes)) (folders : list folder) : list folder := refolder (forgotten R) folders.

Lemma forgotten_thins R : thins (forgotten R).
Proof. intros fo fi fi'. unfold forgotten. case_bool_decide; [done|]. intros [= ->]. by left. Qed.

Lemma with_infos_id fo : with_infos fo (fo_infos fo) = fo.
Proof. by destruct fo. Qed.

Lemma omap_forgotten R fo (l : list folder_info) : omap (forgotten R fo) l = filter (λ fi, (fd_id (fo_data fo), fi_device_sha fi) ∉ R) l.
Proof.
  induction l as [|fi l IH]; [done|]. cbn [omap list_omap]. rewrite filter_cons, IH. unfold forgotten.
  case_bool_decide as Hin; [by rewrite decide_False by tauto|by rewrite decide_True].
Qed.

Lemma forget_eq R folders :
  forget R folders = map (λ fo, with_infos fo (filter (λ fi, (fd_id (fo_data fo), fi_device_sha fi) ∉ R) (fo_infos fo))) folders.
Proof. unfold forget, refolder. apply map_ext. intros fo. by rewrite omap_forgotten. Qed.

Lemma forget_cons a R folders : forget (a :: R) folders = forget R (forget [a] folders).
Proof.
  rewrite !forget_eq, map_map. apply map_ext. intros fo. cbn [with_infos fo_infos fo_data]. unfold with_infos. cbn. f_equal.
  rewrite list_filter_filter. apply filter_ext, Forall_forall. intros fi _. rewrite elem_of_cons, list_elem_of_singleton. tauto.
Qed.

Lemma forget_nil folders : forget [] folders = folders.
Proof.
  rewrite forget_eq. rewrite <- (map_id folders) at 2. apply map_ext. intros fo. rewrite filter_all; [apply with_infos_id|].
  apply Forall_forall. intros fi _. apply not_elem_of_nil.
Qed.

Lemma forgotten_elem R fo x : x ∈ omap (forgotten R fo) (fo_infos fo) ↔ x ∈ fo_infos fo ∧ (fd_id (fo_data fo), fi_device_sha x) ∉ R.
Proof. rewrite omap_forgotten, list_elem_of_filter. tauto. Qed.

Lemma keyed_decompose fo fi : keyed_info fo fi →
  ∃ uuid, fi_decompose_key (fi_key fi) = Ok (mkDecomposed uuid (fi_device_key fi) (fo_key fo)).
Proof.
  intros (device & folder & uuid & Hd & Hf & Hu & Hfk & Hdk & Hk). exists uuid. rewrite Hk, Hfk, Hdk.
  destruct (decompose_parts prefix_folder_info device folder uuid Hd Hf Hu) as (Hl & H1 & H2 & H3).
  unfold fi_decompose_key. rewrite Hl, Nat.eqb_refl. cbn [assert res_bind]. rewrite H1, Hd.
  rewrite (Nat.add_comm 1), H2, Hf, (Nat.add_comm _ 1), H3. done.
Qed.

Lemma folder_shares m fo fo' : wf_model m → fo ∈ folders_of m → fo' ∈ folders_of m → fd_id (fo_data fo) = fd_id (fo_data fo') → fo = fo'.
Proof. intros Hm Hfo Hfo' Heq. by apply (NoDup_map_inj _ _ _ _ (cl_wf_ids _ (mw_cluster m Hm)) Hfo Hfo'). Qed.

Lemma info_shares m fo fi fi' : wf_model m → fo ∈ folders_of m → fi ∈ fo_infos fo → fi' ∈ fo_infos fo →
  fi_device_sha fi = fi_device_sha fi' → fi = fi'.
Proof. intros Hm Hfo Hi Hi' Heq. by apply (NoDup_map_inj _ _ _ _ (cl_wf_devices _ (mw_cluster m Hm) fo Hfo) Hi Hi'). Qed.

Lemma folder_by_id_in m fo : wf_model m → fo ∈ folders_of m → folder_by_id (folders_of m) (fd_id (fo_data fo)) = Some fo.
Proof.
  intros Hm Hfo. unfold folder_by_id. destruct (filter _ (folders_of m)) as [|x l] eqn:E.
  - by destruct (filter_nil_not_elem_of _ _ fo E).
  - assert (x ∈ filter (λ fo', fd_id (fo_data fo') = fd_id (fo_data fo)) (folders_of m)) as [Hx Hin]%list_elem_of_filter by (rewrite E; left).
    cbn. f_equal. by apply (folder_shares m).
Qed.

Lemma by_device_in m fo fi : wf_model m → fo ∈ folders_of m → fi ∈ fo_infos fo → by_device_id (fo_infos fo) (fi_device_sha fi) = Some fi.
Proof. intros Hm Hfo Hfi. by apply gget_elem; [apply (mw_infos m Hm)|lia|..]. Qed.

Lemma refolder_model m c' g P :
  wf_model m → thins g → cl_folders c' = refolder g (folders_of m) → shed (mo_cluster m) c' P →
  (∀ p, Decision (P p)) → wf_model (with_cluster m c').
Proof.
  intros Hm Hg Hfo Hs DP.
  assert (∀ fo fi fi', g fo fi = Some fi' → keys_of fi' = keys_of fi ∧ fi_key fi' = fi_key fi) as Hk.
  { intros fo fi fi' Hgi. by destruct (Hg _ _ _ Hgi) as [->| ->]. }
  split; cbn [mo_cluster with_cluster folders_of mo_devices mo_pending_folders]; unfold folders_of; cbn; rewrite ?Hfo; try apply Hm; [apply Hs|..].
  - unfold refolder. rewrite <- omap_Some. apply wf_gmap_omap; [lia| |apply (mw_folders m Hm)]. by intros fo fo' [= <-].
  - intros fo' (fo & -> & Hin)%list_elem_of_fmap. cbn. apply wf_gmap_omap; [lia|intros x y Hxy; by apply Hk in Hxy as [? _]|by apply Hm].
  - intros fo' fi' H1 H2. destruct (refolder_elem g _ _ _ H1 H2) as (fo & fi & Hin & Hfi & Hgi & ->).
    destruct (mw_keys m Hm fo fi Hin Hfi) as (d & f & u & ? & ? & ? & ? & ? & ?). exists d, f, u.
    destruct (Hk _ _ _ Hgi) as [Hks ->]. injection Hks as _ _ ->. by split_and!.
  - intros p f Hf. destruct (decide (P p)) as [HP|HP]; [by rewrite (sh_gone _ _ _ Hs) in Hf|].
    rewrite (sh_kept _ _ _ Hs) in Hf by done. by eapply (mw_files m Hm).
Qed.

(** ** Taking the files out of a folder info *)

(** The keys a tree was made with, of files that are still there. *)
Definition keys_for (c : cluster) (files : file_map) (keys : list bytes) : Prop :=
  Forall2 (λ e key, ∃ f, cl_files c !! e_file e = Some f ∧ key = prefix_file_info :: f_key f) files keys.

Lemma keys_for_kept c c' files keys :
  (∀ e, e ∈ files → cl_files c' !! e_file e = cl_files c !! e_file e) → keys_for c files keys → keys_for c' files keys.
Proof.
  intros Heq Hk. induction Hk as [|e key files keys (f & Hf & ->) _ IH]; [constructor|]. constructor.
  - exists f. by rewrite Heq by left.
  - apply IH. intros x Hx. apply Heq. by right.
Qed.

Lemma remove_keys_all c files keys :
  wf_map files → (∀ e, e ∈ files → ∃ f, cl_files c !! e_file e = Some f ∧ e = entry_of (e_file e) f) →
  (∀ p f, cl_files c !! p = Some f → length (f_key f) = data_length) →
  keys_for c files keys → remove_keys keys c files = Ok [].
Proof.
  intros Hw Hent Hlen Hk. induction Hk as [|e key files keys (f & Hf & ->) _ IH]; [done|].
  destruct (Hent e) as (f' & Hf' & He); [by left|]. rewrite Hf in Hf'. injection Hf' as <-. cbn [remove_keys].
  assert (by_uuid (e :: files) (drop (1 + uuid_length) (prefix_file_info :: f_key f)) = Some (e_file e)) as Hby.
  { unfold by_uuid. rewrite filter_cons_True; [done|]. rewrite He. done. }
  unfold decompose_key. rewrite (proj2 (Nat.eqb_eq _ _)) by (cbn [length]; rewrite (Hlen _ _ Hf); lia).
  cbn [assert res_bind]. rewrite Hby. cbn [the res_bind]. unfold file_at. rewrite Hf. cbn [res_bind].
  rewrite <- He, remove_head by done. apply IH; [by apply wf_map_tail in Hw|]. intros x Hx. apply Hent. by right.
Qed.

(** The folder info of a device in a folder without files. *)
Definition blanked (id sha256 : bytes) (fo : folder) (fi : folder_info) : option folder_info :=
  Some (if bool_decide (fd_id (fo_data fo) = id ∧ fi_device_sha fi = sha256) then emptied fi else fi).

Lemma blanked_thins id sha256 : thins (blanked id sha256).
Proof. intros fo fi fi'. unfold blanked. case_bool_decide; intros [= <-]; [by right|by left]. Qed.

Lemma set_info_blanked m fo fi : wf_model m → fo ∈ folders_of m → fi ∈ fo_infos fo →
  set_info (fd_id (fo_data fo)) (fi_device_sha fi) (emptied fi) (folders_of m) =
  refolder (blanked (fd_id (fo_data fo)) (fi_device_sha fi)) (folders_of m).
Proof.
  intros Hm Hfo Hfi. unfold set_info, refolder. apply map_ext_in. intros x Hx%list_elem_of_In. unfold blanked. rewrite omap_Some.
  case_bool_decide as Hid.
  - rewrite (folder_shares m x fo) by done. f_equal. apply map_ext_in. intros y Hy%list_elem_of_In. case_bool_decide as Hs.
    + rewrite bool_decide_eq_true_2 by done. by rewrite (info_shares m fo y fi).
    + by rewrite bool_decide_eq_false_2 by tauto.
  - rewrite <- (with_infos_id x) at 1. f_equal. rewrite <- (map_id (fo_infos x)) at 1. apply map_ext. intros y.
    by rewrite bool_decide_eq_false_2 by tauto.
Qed.

Lemma remove_files_step m fo fi keys :
  wf_model m → small (cl_files (mo_cluster m)) 0 → fo ∈ folders_of m → fi ∈ fo_infos fo → keys_for (mo_cluster m) (fi_files fi) keys →
  ∃ c', remove_files_apply (fd_id (fo_data fo)) (fi_device_sha fi) keys m = Ok (with_cluster m c') ∧
    cl_folders c' = refolder (blanked (fd_id (fo_data fo)) (fi_device_sha fi)) (folders_of m) ∧
    shed (mo_cluster m) c' (λ p, p ∈ map e_file (fi_files fi)) ∧ wf_model (with_cluster m c').
Proof.
  intros Hm Hsm Hfo Hfi Hk. unfold remove_files_apply. rewrite (folder_by_id_in m) by done. rewrite (by_device_in m) by done.
  destruct (cl_wf_infos _ (mw_cluster m Hm) fo fi Hfo Hfi) as ([Hw _] & _ & Hent).
  rewrite (remove_keys_all _ _ _ Hw Hent (mw_files m Hm) Hk). cbn [res_bind]. fold (emptied fi).
  rewrite (set_info_blanked m) by done. unfold update_folders.
  destruct (refolder_shed (mo_cluster m) (blanked (fd_id (fo_data fo)) (fi_device_sha fi))) as (c' & Hc & Hf & Hs);
    [apply Hm|apply blanked_thins|unfold small in Hsm; lia|].
  unfold folders_of. rewrite Hc. cbn [res_bind]. exists c'.
  assert (shed (mo_cluster m) c' (λ p, p ∈ map e_file (fi_files fi))) as Hs'.
  { eapply shed_ext; [|exact Hs]. intros p. cbn. rewrite refolder_gone by (apply Hm || apply blanked_thins). split.
    - intros (o & i & Ho & Hi & Hb & Hp). unfold blanked in Hb. case_bool_decide as Hcase; [|done].
      destruct Hcase as [Hid Hsha]. rewrite (folder_shares m o fo) in Hi by done. by rewrite <- (info_shares m fo i fi).
    - intros Hp. exists fo, fi. split_and!; [done|done| |done]. unfold blanked. rewrite bool_decide_eq_true_2 by done.
      intros [= Heq]. rewrite <- Heq in Hp. by apply elem_of_nil in Hp. }
  split_and!; [done|done|done|]. eapply refolder_model; [done|apply blanked_thins|exact Hf|exact Hs'|apply _].
Qed.

(** ** Taking a folder info out of its folder *)

Lemma replace_forget m fo fi : wf_model m → fo ∈ folders_of m → fi ∈ fo_infos fo →
  replace_folder (folders_of m) (fd_id (fo_data fo)) (with_infos fo (gremove (fo_infos fo) fi)) =
  forget [(fd_id (fo_data fo), fi_device_sha fi)] (folders_of m).
Proof.
  intros Hm Hfo Hfi. rewrite forget_eq. unfold replace_folder. apply map_ext_in. intros x Hx%list_elem_of_In. case_bool_decide as Hid.
  - rewrite (folder_shares m x fo) by done. f_equal. rewrite gremove_filter. apply filter_ext, Forall_forall. intros y Hy.
    rewrite list_elem_of_singleton. destruct (mw_infos m Hm fo Hfo) as [_ Hs]. split.
    + intros Hn [= Heq]. apply Hn. apply shares_alt. exists 1%nat. split; [lia|]. cbn. by rewrite Heq.
    + intros Hn Hsh. apply Hn. by rewrite (Hs y fi).
  - rewrite filter_all; [by rewrite with_infos_id|]. apply Forall_forall. intros y _. rewrite list_elem_of_singleton. naive_solver.
Qed.

(** The iterators after a folder info is gone. *)
Definition iterators_without (m : model) (fi : folder_info) : gmap bytes file_iterator :=
  if bool_decide (fi_device_sha fi ≠ self_sha m) then alter (λ fit, on_remove fit (fi_key fi)) (fi_device_sha fi) (mo_iterators m)
  else mo_iterators m.

Lemma with_iterators_id m : with_iterators m (mo_iterators m) = m.
Proof. by destruct m. Qed.

Lemma tell_removed m fi :
  (if bool_decide (fi_device_sha fi ≠ self_sha m)
   then tell_iterator (fi_device_sha fi) (λ fit, Ok (on_remove fit (fi_key fi))) m else Ok m) =
  Ok (with_iterators m (iterators_without m fi)).
Proof.
  unfold iterators_without, tell_iterator. case_bool_decide; [|by rewrite with_iterators_id].
  destruct (mo_iterators m !! fi_device_sha fi) as [fit|] eqn:E; cbn [res_bind].
  - f_equal. f_equal. apply map_eq. intros k. destruct (decide (k = fi_device_sha fi)) as [->|].
    + by rewrite lookup_insert_eq, lookup_alter_eq, E.
    + by rewrite lookup_insert_ne, lookup_alter_ne.
  - rewrite <- (with_iterators_id m) at 1. f_equal. f_equal. apply map_eq. intros k. destruct (decide (k = fi_device_sha fi)) as [->|].
    + by rewrite lookup_alter_eq, E.
    + by rewrite lookup_alter_ne.
Qed.

Lemma wf_model_iterators m its : wf_model m → wf_model (with_iterators m its).
Proof. by intros []. Qed.

Lemma remove_info_step m fo fi :
  wf_model m → small (cl_files (mo_cluster m)) 0 → fo ∈ folders_of m → fi ∈ fo_infos fo →
  ∃ c', remove_folder_infos_apply [fi_key fi] m = Ok (with_cluster (with_iterators m (iterators_without m fi)) c') ∧
    cl_folders c' = forget [(fd_id (fo_data fo), fi_device_sha fi)] (folders_of m) ∧
    shed (mo_cluster m) c' (λ p, p ∈ map e_file (fi_files fi)) ∧
    wf_model (with_cluster (with_iterators m (iterators_without m fi)) c').
Proof.
  intros Hm Hsm Hfo Hfi. cbn [remove_folder_infos_apply]. destruct (keyed_decompose fo fi (mw_keys m Hm fo fi Hfo Hfi)) as [uuid ->].
  cbn [res_bind dk_folder_key dk_device_key].
  assert (folder_by_key (folders_of m) (fo_key fo) = Some fo) as -> by (by apply gget_elem; [apply (mw_folders m Hm)|lia|..]).
  assert (by_device_key (fo_infos fo) (fi_device_key fi) = Some fi) as Hdk by (by apply gget_elem; [apply (mw_infos m Hm)|lia|..]).
  cbn [the res_bind]. rewrite Hdk. cbn [the res_bind]. rewrite tell_removed. cbn [res_bind].
  set (m1 := with_iterators m (iterators_without m fi)).
  assert (folders_of m1 = folders_of m) as -> by done. rewrite (replace_forget m) by done. unfold update_folders.
  change (mo_cluster m1) with (mo_cluster m).
  destruct (refolder_shed (mo_cluster m) (forgotten [(fd_id (fo_data fo), fi_device_sha fi)])) as (c' & Hc & Hf & Hs);
    [apply Hm|apply forgotten_thins|unfold small in Hsm; lia|].
  unfold folders_of, forget. rewrite Hc. cbn [res_bind]. exists c'.
  assert (shed (mo_cluster m) c' (λ p, p ∈ map e_file (fi_files fi))) as Hs'.
  { eapply shed_ext; [|exact Hs]. intros p. cbn. rewrite refolder_gone by (apply Hm || apply forgotten_thins). split.
    - intros (o & i & Ho & Hi & Hb & Hp). unfold forgotten in Hb. case_bool_decide as Hcase; [|done].
      apply list_elem_of_singleton in Hcase as [= Hid Hsha]. rewrite (folder_shares m o fo) in Hi by done. by rewrite <- (info_shares m fo i fi).
    - intros Hp. exists fo, fi. split_and!; [done|done| |done]. unfold forgotten. by rewrite bool_decide_eq_true_2 by left. }
  split_and!; [done|done|done|].
  apply (refolder_model m1 c' (forgotten [(fd_id (fo_data fo), fi_device_sha fi)]) _ (wf_model_iterators m _ Hm) (forgotten_thins _) Hf Hs' _).
Qed.

(** ** Unsharing *)

(** The tree of [unshare_folder_t], under a set of orphans that is shared. *)
Definition removes_files (fo : folder) (fi : folder_info) (keys : list bytes) : list (diff op) :=
  if bool_decide (fi_files fi = []) then [] else [Node (RemoveFiles (fd_id (fo_data fo)) (fi_device_sha fi) keys) Null Null].

Definition unshare_tree (fo : folder) (fi : folder_info) (keys : list bytes) : diff op :=
  Node (UnshareFolder (fi_device_sha fi))
    (batched diffs_batch diffs_batch
       [Node (RemoveFolderInfos [fi_key fi]) (Node ResetFolderInfos (batched diffs_batch diffs_batch (removes_files fo fi keys)) Null) Null]) Null.

Lemma file_keys_ok c files : (∀ e, e ∈ files → is_Some (cl_files c !! e_file e)) → ∃ keys, file_keys c files = Ok keys ∧ keys_for c files keys.
Proof.
  induction files as [|e files IH]; intros Hin; [by exists []; split; constructor|]. cbn [file_keys]. unfold file_at at 1.
  destruct (Hin e) as [f Hf]; [by left|]. rewrite Hf. cbn [res_bind].
  destruct IH as (keys & -> & Hk); [intros x Hx; apply Hin; by right|]. cbn [res_bind]. eexists. split; [done|]. constructor; [by exists f|done].
Qed.

Lemma lone_change (o : op) (c : diff op) : op_kind o = change → (∀ m, op_late o m = Ok m) → lone (Node o c Null).
Proof. done. Qed.

Lemma assemble_batch (ds : list (diff op)) : Forall lone ds → assemble diffs_batch ds = Ok (batched diffs_batch diffs_batch ds).
Proof. intros Hl. by apply assemble_ok. Qed.

Lemma new_unshare_ok c fo fi set :
  (∀ e, e ∈ fi_files fi → is_Some (cl_files c !! e_file e)) →
  ∃ keys, keys_for c (fi_files fi) keys ∧
    new_unshare_folder c fo fi (Some set) = Ok (unshare_tree fo fi keys, fold_left record (map e_file (fi_files fi)) set).
Proof.
  intros Hin. destruct (file_keys_ok c (fi_files fi) Hin) as (keys & Hk & Hkf). exists keys. split; [done|].
  unfold new_unshare_folder, new_remove_folder_infos, new_reset_folder_infos. change (default [] (Some (default [] (Some set)))) with set.
  assert (reset_loop c [(fo, fi)] set = Ok (removes_files fo fi keys, fold_left record (map e_file (fi_files fi)) set)) as Hr.
  { cbn [reset_loop]. unfold removes_files. case_bool_decide as Hnil; [by rewrite Hnil|].
    unfold new_remove_files. rewrite Hk. done. }
  rewrite Hr. cbn [res_bind own_orphans]. rewrite app_nil_r.
  rewrite assemble_batch by (unfold removes_files; case_bool_decide; repeat constructor). cbn [res_bind].
  rewrite assemble_batch by (repeat constructor). done.
Qed.

Lemma bind_ret {A} (r : res A) : (let* x := r in Ok x) = r.
Proof. by destruct r. Qed.

Lemma apply_node (o : op) (c : diff op) m : lone (Node o c Null) →
  apply (Node o c Null) m =
  let* m := op_before o m in let* m := if op_enters o then apply c m else Ok m in op_after o m.
Proof.
  intros [Hk Hl]. cbn [apply]. rewrite Hk. cbn [before enters after late change_ops]. destruct (op_before o m) as [m1| |]; cbn [res_bind]; try done.
  destruct (if op_enters o then apply c m1 else Ok m1) as [m2| |]; cbn [res_bind]; try done.
  destruct (op_after o m2) as [m3| |]; cbn [res_bind]; try done. apply Hl.
Qed.

Lemma apply_batch (ds : list (diff op)) m : Forall lone ds → apply (batched diffs_batch diffs_batch ds) m = apply_each ds m.
Proof. intros Hl. by apply batched_apply. Qed.

Lemma unshare_tree_apply fo fi keys m :
  apply (unshare_tree fo fi keys) m =
  let* m := if bool_decide (fi_files fi = []) then Ok m else remove_files_apply (fd_id (fo_data fo)) (fi_device_sha fi) keys m in
  remove_folder_infos_apply [fi_key fi] m.
Proof.
  unfold unshare_tree. rewrite apply_node by done. cbn [op_before op_enters op_after res_bind]. rewrite bind_ret.
  rewrite apply_batch by (repeat constructor). rewrite apply_each_cons.
  rewrite (apply_node (RemoveFolderInfos _)) by done. cbn [op_before op_enters op_after res_bind].
  rewrite (apply_node ResetFolderInfos) by done. cbn [op_before op_enters op_after res_bind]. rewrite bind_ret.
  rewrite apply_batch by (unfold removes_files; case_bool_decide; repeat constructor).
  change (apply_each []) with (λ s : model, Ok s). cbn beta. rewrite bind_ret. unfold removes_files. case_bool_decide; [done|].
  rewrite apply_each_cons, (apply_node (RemoveFiles _ _ _)) by done. cbn [op_before op_enters op_after res_bind apply apply_each].
  by rewrite bind_ret.
Qed.

Lemma forget_blanked id sha256 folders : forget [(id, sha256)] (refolder (blanked id sha256) folders) = forget [(id, sha256)] folders.
Proof.
  rewrite !forget_eq. unfold refolder. rewrite map_map. apply map_ext. intros fo. unfold with_infos. cbn. f_equal. unfold blanked. rewrite omap_Some.
  induction (fo_infos fo) as [|fi l IH]; [done|]. cbn [map]. rewrite !filter_cons, IH. case_bool_decide as Hb.
  - destruct Hb as [-> <-]. rewrite !decide_False; [done|..]; intros Hn; apply Hn; left.
  - done.
Qed.

(** One folder info is unshared: its files and the folder info itself are gone. *)
Lemma unshare_step m fo fo0 fi keys :
  wf_model m → small (cl_files (mo_cluster m)) 0 → fo ∈ folders_of m → fi ∈ fo_infos fo → keys_for (mo_cluster m) (fi_files fi) keys →
  fd_id (fo_data fo0) = fd_id (fo_data fo) →
  ∃ c', apply (unshare_tree fo0 fi keys) m = Ok (with_cluster (with_iterators m (iterators_without m fi)) c') ∧
    cl_folders c' = forget [(fd_id (fo_data fo), fi_device_sha fi)] (folders_of m) ∧
    shed (mo_cluster m) c' (λ p, p ∈ map e_file (fi_files fi)) ∧
    wf_model (with_cluster (with_iterators m (iterators_without m fi)) c').
Proof.
  intros Hm Hsm Hfo Hfi Hk Hid. rewrite unshare_tree_apply, Hid. case_bool_decide as Hnil; cbn [res_bind]; [by apply remove_info_step|].
  destruct (remove_files_step m fo fi keys Hm Hsm Hfo Hfi Hk) as (c1 & -> & Hf1 & Hs1 & Hm1). cbn [res_bind].
  set (fo1 := with_infos fo (omap (blanked (fd_id (fo_data fo)) (fi_device_sha fi) fo) (fo_infos fo))).
  destruct (remove_info_step (with_cluster m c1) fo1 (emptied fi)) as (c' & He & Hf' & Hs' & Hm').
  - done.
  - unfold small in *. pose proof (sh_capacity _ _ _ Hs1). cbn [mo_cluster with_cluster]. lia.
  - unfold folders_of. cbn [mo_cluster with_cluster]. rewrite Hf1. apply list_elem_of_fmap. by exists fo.
  - cbn. apply list_elem_of_omap. exists fi. split; [done|]. unfold blanked. by rewrite bool_decide_eq_true_2.
  - cbn [emptied with_files fi_key] in He. exists c'.
    assert (with_cluster (with_iterators (with_cluster m c1) (iterators_without (with_cluster m c1) (emptied fi))) c' =
            with_cluster (with_iterators m (iterators_without m fi)) c') as Heq by done.
    rewrite <- Heq. split_and!; [exact He| | |exact Hm'].
    + rewrite Hf'. unfold folders_of at 1. cbn [mo_cluster with_cluster]. rewrite Hf1. apply forget_blanked.
    + eapply shed_ext; [|apply (shed_trans _ _ _ _ _ _ _ Hs1 Hs')]; [|apply _..].
      intros p. cbn. rewrite elem_of_nil. tauto.
Qed.

Definition place_of (x : folder * folder_info) : bytes * bytes := (fd_id (fo_data x.1), fi_device_sha x.2).
Definition files_of (L : list (folder * folder_info)) : list file_ptr := x ← L; map e_file (fi_files x.2).

Definition unshare_trees (L : list (folder * folder_info)) (ks : list (list bytes)) : list (diff op) :=
  zip_with (λ x keys, unshare_tree x.1 x.2 keys) L ks.

Lemma unshare_loop_ok c L : ∀ set,
  (∀ x e, x ∈ L → e ∈ fi_files x.2 → is_Some (cl_files c !! e_file e)) →
  ∃ ks, Forall2 (λ x keys, keys_for c (fi_files x.2) keys) L ks ∧
    unshare_loop c L set = Ok (unshare_trees L ks, fold_left record (files_of L) set).
Proof.
  induction L as [|[fo fi] L IH]; intros set Hin; [by exists []|]. cbn [unshare_loop].
  destruct (new_unshare_ok c fo fi set) as (keys & Hk & ->); [intros e He; apply (Hin (fo, fi) e); [by left|done]|]. cbn [res_bind].
  destruct (IH (fold_left record (map e_file (fi_files fi)) set)) as (ks & Hks & ->); [intros x e Hx; apply Hin; by right|]. cbn [res_bind].
  exists (keys :: ks). split; [by constructor|]. unfold files_of. cbn [mbind list_bind]. by rewrite fold_left_app.
Qed.

(** Where the folder infos that are to be unshared are. *)
Definition located (m : model) (L : list (folder * folder_info)) : Prop :=
  ∀ x, x ∈ L → ∃ fo, fo ∈ folders_of m ∧ fd_id (fo_data fo) = fd_id (fo_data x.1) ∧ x.2 ∈ fo_infos fo.

Lemma located_next m m' fo fi x L :
  wf_model m → located m ((fo, fi) :: L) → NoDup (map place_of ((fo, fi) :: L)) → x ∈ L →
  folders_of m' = forget [place_of (fo, fi)] (folders_of m) →
  (∃ fo', fo' ∈ folders_of m' ∧ fd_id (fo_data fo') = fd_id (fo_data x.1) ∧ x.2 ∈ fo_infos fo') ∧
  ∀ e, e ∈ fi_files x.2 → e_file e ∉ map e_file (fi_files fi).
Proof.
  intros Hm Hloc Hnd Hx Hf. cbn [map] in Hnd. apply NoDup_cons in Hnd as [Hn _].
  destruct (Hloc x) as (fo2 & Hfo2 & Hid2 & Hfi2); [by right|]. destruct (Hloc (fo, fi)) as (fo1 & Hfo1 & Hid1 & Hfi1); [by left|].
  cbn [fst snd] in *. assert (place_of (fo, fi) ≠ place_of x) as Hne.
  { intros Heq. apply Hn. rewrite Heq. by apply list_elem_of_fmap_2. }
  split.
  - exists (with_infos fo2 (omap (forgotten [place_of (fo, fi)] fo2) (fo_infos fo2))). split_and!; [|done|].
    + rewrite Hf. apply list_elem_of_fmap. by exists fo2.
    + cbn. apply forgotten_elem. split; [done|]. intros Heq%list_elem_of_singleton. apply Hne. rewrite <- Heq. unfold place_of. by rewrite Hid2.
  - intros e He (e' & Heq & He')%list_elem_of_fmap.
    destruct (cl_wf_owner _ (mw_cluster m Hm) fo2 x.2 e fo1 fi e') as [Ho Hi]; try done.
    apply Hne. unfold place_of. cbn. by rewrite <- Hid1, <- Hid2, Ho, Hi.
Qed.

Lemma unshare_all L : ∀ ks m,
  wf_model m → small (cl_files (mo_cluster m)) 0 → located m L → NoDup (map place_of L) →
  Forall2 (λ x keys, keys_for (mo_cluster m) (fi_files x.2) keys) L ks →
  ∃ c' its, apply_each (unshare_trees L ks) m = Ok (with_cluster (with_iterators m its) c') ∧
    cl_folders c' = forget (map place_of L) (folders_of m) ∧
    shed (mo_cluster m) c' (λ p, p ∈ files_of L) ∧ wf_model (with_cluster (with_iterators m its) c') ∧
    ∀ sha256, (∀ x, x ∈ L → fi_device_sha x.2 ≠ sha256) → its !! sha256 = mo_iterators m !! sha256.
Proof.
  induction L as [|[fo fi] L IH]; intros ks m Hm Hsm Hloc Hnd Hks; inversion Hks as [|x keys L' ks' Hk Hks' E1 E2]; subst.
  - exists (mo_cluster m), (mo_iterators m). cbn [map]. rewrite forget_nil, with_iterators_id.
    assert (with_cluster m (mo_cluster m) = m) as -> by (by destruct m). split_and!; try done. split; try done; [apply Hm|].
    intros p Hp. by apply elem_of_nil in Hp.
  - destruct (Hloc (fo, fi)) as (fo1 & Hfo1 & Hid & Hfi1); [by left|]. cbn [fst snd] in *.
    destruct (unshare_step m fo1 fo fi keys Hm Hsm Hfo1 Hfi1 Hk) as (c1 & He1 & Hf1 & Hs1 & Hm1); [done|].
    set (m1 := with_cluster (with_iterators m (iterators_without m fi)) c1) in *.
    assert (folders_of m1 = forget [place_of (fo, fi)] (folders_of m)) as Hfo.
    { change (folders_of m1) with (cl_folders c1). rewrite Hf1, Hid. done. }
    assert (∀ x, x ∈ L → _) as Hnext by (intros x Hx; exact (located_next m m1 fo fi x L Hm Hloc Hnd Hx Hfo)).
    cbn [map] in Hnd. pose proof (proj1 (NoDup_cons _ _) Hnd) as [_ Hnd'].
    destruct (IH ks' m1) as (c' & its & He & Hf & Hs & Hm' & Hit); try done.
    + unfold small in *. pose proof (sh_capacity _ _ _ Hs1). cbn [mo_cluster m1 with_cluster with_iterators]. lia.
    + intros x Hx. apply (proj1 (Hnext x Hx)).
    + apply Forall2_same_length_lookup_2; [by eapply Forall2_length|]. intros i x ks0 Hx Hk0.
      pose proof (Forall2_lookup_lr _ _ _ _ _ _ Hks' Hx Hk0) as Hkf. apply list_elem_of_lookup_2 in Hx.
      eapply keys_for_kept; [|exact Hkf]. intros e He'. apply (sh_kept _ _ _ Hs1). by apply (proj2 (Hnext x Hx)).
    + exists c', its. unfold unshare_trees in *. cbn [zip_with]. rewrite apply_each_cons. cbn [fst snd]. rewrite He1. cbn [res_bind]. fold m1.
      split_and!.
      * exact He.
      * rewrite Hf, Hfo. cbn [map]. symmetry. apply forget_cons.
      * unfold files_of. cbn [mbind list_bind snd]. eapply shed_ext; [|apply (shed_trans _ _ _ _ _ _ _ Hs1 Hs)]; [|apply _..].
        intros p. cbn. rewrite elem_of_app. done.
      * exact Hm'.
      * intros sha256 Hn. rewrite Hit by (intros x Hx; apply Hn; by right). cbn [mo_iterators m1 with_cluster with_iterators].
        unfold iterators_without. case_bool_decide; [|done]. apply lookup_alter_ne. apply (Hn (fo, fi)). by left.
Qed.

(** ** Orphaned blocks *)

(** The blocks that only the files that go used. *)
Definition left_over (c : cluster) (gone : list file_ptr) (x : bytes) : Prop :=
  ∃ file f p b, file ∈ gone ∧ cl_files c !! file = Some f ∧ is_file f = true ∧ p ∈ lead (slots f) ∧ cl_heap c !! p = Some b ∧
    b_hash b = x ∧ orphan (slots <$> cl_files c) gone p.

Lemma fold_record l : ∀ set p, p ∈ fold_left record l set ↔ p ∈ set ∨ p ∈ l.
Proof.
  induction l as [|q l IH]; intros set p; cbn [fold_left]; [rewrite elem_of_nil; tauto|]. rewrite IH, record_elem, elem_of_cons. tauto.
Qed.

Lemma remove_orphans_ok c L :
  wf_cluster c → (∀ p, p ∈ files_of L → is_Some (cl_files c !! p)) →
  ∃ r, remove_orphans c (fold_left record (files_of L) []) = Ok (if bool_decide (r = []) then [] else [leaf (RemoveBlocks r)]) ∧
    NoDup r ∧ ∀ x, x ∈ r ↔ left_over c (files_of L) x.
Proof.
  intros Hwf Hin. unfold remove_orphans.
  assert (∀ p, p ∈ fold_left record (files_of L) [] ↔ p ∈ files_of L) as Hset by (intros p; rewrite fold_record, elem_of_nil; tauto).
  destruct (deduce_spec (cl_files c) (map_refs (cl_blocks c)) (cl_heap c) (fold_left record (files_of L) []) [])
    as (r & -> & Hnd & Hr); [by apply wf_cluster_store|intros p q b d; by apply wf_cluster_inj|intros p Hp%Hset; by apply Hin|].
  cbn [res_bind]. exists r. split_and!; [done|done|]. intros x. rewrite Hr. unfold left_over.
  split; [intros [_ (file & f & p & b & H1 & H2 & H3 & H4 & H5 & H6 & H7)]|intros (file & f & p & b & H1 & H2 & H3 & H4 & H5 & H6 & H7); split; [apply not_elem_of_nil|]];
    exists file, f, p, b; split_and!; try done; try (by apply Hset); intros o i Ho; apply Hset; by apply (H7 o i).
Qed.

(** The orphans of the files that are gone go, and the cluster is consistent again. *)
Lemma drop_left_over c c' L r :
  wf_cluster c → small (cl_files c) 0 → shed c c' (λ p, p ∈ files_of L) → NoDup r → (∀ x, x ∈ r ↔ left_over c (files_of L) x) →
  ∃ known h, drop_blocks (cl_blocks c') (cl_heap c') r = Ok (known, h) ∧
    wf_cluster (mkCluster known h (cl_files c') (cl_folders c')) ∧ shrinks (cl_heap c) h ∧
    ∀ x, known !! x = if bool_decide (x ∈ r) then None else cl_blocks c !! x.
Proof.
  intros Hwf Hsm Hs Hnd Hr. pose proof (sh_wf _ _ _ Hs) as Hwf'.
  destruct (drop_blocks_spec (slots <$> cl_files c') r (cl_blocks c') (cl_heap c')) as (known & h & He & Hb & Hsh & Hk & Hal); [apply Hwf'| |done| |].
  { intros m' h' Hw. apply (wf_blocks_roomy _ _ _ _ Hw). unfold small in Hsm. pose proof (sh_capacity _ _ _ Hs). lia. }
  { intros x (file & f & p & b & _ & _ & _ & _ & Hp & <- & _)%Hr. rewrite (sh_blocks _ _ _ Hs). exists p. by apply (cl_wf_known c Hwf). }
  exists known, h. rewrite (sh_blocks _ _ _ Hs) in Hk. split_and!; [done| |etrans; [apply Hs|done]|done].
  split; cbn; try apply Hwf'; [done|]. intros p b Hp. destruct (Hsh p b Hp) as (b' & Hp' & Hh & _).
  pose proof (cl_wf_known c' Hwf' p b' Hp') as Hkn. rewrite (sh_blocks _ _ _ Hs) in Hkn. rewrite Hk, Hh. case_bool_decide as Hin; [|done]. exfalso.
  rewrite (sh_blocks _ _ _ Hs) in Hal. destruct (proj1 (Hal _ p Hin Hkn)) as (file & i & Hslot); [by exists b|].
  apply Hr in Hin as (file' & f' & q & b2 & _ & _ & _ & _ & Hq & Hbq & Ho).
  assert (q = p) as ->. { apply (cl_wf_known c Hwf) in Hq. rewrite Hbq in Hq. congruence. }
  assert (file ∈ files_of L) as Hfile.
  { apply (Ho file i). unfold slot_at in *. rewrite lookup_fmap in *. destruct (decide (file ∈ files_of L)) as [Hg|Hg].
    - by rewrite (sh_gone _ _ _ Hs file Hg) in Hslot.
    - by rewrite (sh_kept _ _ _ Hs file Hg) in Hslot. }
  unfold slot_at in Hslot. rewrite lookup_fmap, (sh_gone _ _ _ Hs file Hfile) in Hslot. done.
Qed.

(** ** Removing a peer *)

Lemma apply_leaves (b : bool) (o : op) m : op_kind o = change → op_enters o = false → (∀ m, op_after o m = Ok m) → (∀ m, op_late o m = Ok m) →
  (b = true → op_before o m = Ok m) → apply_each (if b then [] else [leaf o]) m = op_before o m.
Proof.
  intros Hk He Ha Hl Hb. destruct b; [by rewrite Hb|]. rewrite apply_each_cons. unfold leaf. rewrite apply_node by done.
  destruct (op_before o m) as [m1| |]; cbn [res_bind]; try done. rewrite He. cbn [res_bind]. by rewrite Ha.
Qed.

(** The orphans of what was unshared go. *)
Lemma orphans_step m0 m L r :
  wf_model m0 → small (cl_files (mo_cluster m0)) 0 → wf_model m → shed (mo_cluster m0) (mo_cluster m) (λ p, p ∈ files_of L) →
  NoDup r → (∀ x, x ∈ r ↔ left_over (mo_cluster m0) (files_of L) x) →
  ∃ known h, remove_blocks_apply r m = Ok (with_cluster m (mkCluster known h (cl_files (mo_cluster m)) (folders_of m))) ∧
    wf_model (with_cluster m (mkCluster known h (cl_files (mo_cluster m)) (folders_of m))) ∧
    ∀ x p, known !! x = Some p ↔ cl_blocks (mo_cluster m0) !! x = Some p ∧ ¬ left_over (mo_cluster m0) (files_of L) x.
Proof.
  intros Hm0 Hsm Hm Hs Hnd Hr. destruct (drop_left_over _ _ L r (mw_cluster m0 Hm0) Hsm Hs Hnd Hr) as (known & h & He & Hw & _ & Hk).
  exists known, h. unfold remove_blocks_apply. rewrite He. cbn [res_bind]. split_and!; [done| |].
  - destruct Hm. split; done.
  - intros x p. rewrite Hk. case_bool_decide as Hin; rewrite Hr in Hin; naive_solver.
Qed.

Lemma remove_pending_all Q : ∀ m,
  wf_gmap (mo_pending_folders m) → NoDup Q → (∀ pf, pf ∈ Q → pf ∈ mo_pending_folders m) →
  ∃ pfs, remove_pending_folders_apply (map pn_key Q) m = Ok (with_pending_folders m pfs) ∧
    pfs = filter (λ pf, pn_key pf ∉ map pn_key Q) (mo_pending_folders m).
Proof.
  induction Q as [|pf Q IH]; intros m Hw Hnd Hin.
  - eexists. split; [|done]. cbn [map]. rewrite filter_all; [by destruct m|]. apply Forall_forall. intros x _. apply not_elem_of_nil.
  - apply NoDup_cons in Hnd as [Hn Hnd]. cbn [map remove_pending_folders_apply].
    assert (pending_by_key (mo_pending_folders m) (pn_key pf) = Some pf) as ->.
    { apply gget_elem; [done|lia|apply Hin; by left|done]. }
    cbn [the res_bind]. destruct Hw as [Hnd' Hs].
    destruct (IH (with_pending_folders m (gremove (mo_pending_folders m) pf))) as (pfs & -> & ->).
    + by apply gremove_wf.
    + done.
    + intros x Hx. apply gremove_elem. split; [apply Hin; by right|]. intros Hsh.
      apply Hn. rewrite <- (Hs x pf); [done|apply Hin; by right|apply Hin; by left|done].
    + eexists. split; [done|]. cbn [mo_pending_folders with_pending_folders]. rewrite gremove_filter, list_filter_filter.
      apply filter_ext, Forall_forall. intros x Hx. rewrite elem_of_cons. split.
      * intros [Hk Hns] [Heq|?]; [|done]. apply Hns, shares_alt. exists 0%nat. split; [lia|]. cbn. by rewrite Heq.
      * intros Hk. split; [tauto|]. intros Hsh. apply Hk. left. rewrite (Hs x pf); [done|done|apply Hin; by left|done].
Qed.

Lemma shared_with_elem m sha256 x : wf_model m →
  x ∈ shared_with (folders_of m) sha256 ↔ x.1 ∈ folders_of m ∧ x.2 ∈ fo_infos x.1 ∧ fi_device_sha x.2 = sha256.
Proof.
  intros Hm. unfold shared_with. rewrite list_elem_of_omap. split.
  - intros (fo & Hfo & Hx). destruct (by_device_id (fo_infos fo) sha256) as [fi|] eqn:E; [|done]. cbn in Hx. simplify_eq. cbn.
    apply gget_some in E as [Hfi [= Hs]]. done.
  - intros (Hfo & Hfi & <-). exists x.1. split; [done|]. rewrite (by_device_in m) by done. by destruct x.
Qed.

Lemma shared_with_places m sha256 : wf_model m → NoDup (map place_of (shared_with (folders_of m) sha256)).
Proof.
  intros Hm. unfold shared_with. pose proof (cl_wf_ids _ (mw_cluster m Hm)) as Hids. unfold folders_of.
  induction (cl_folders (mo_cluster m)) as [|fo l IH]; [constructor|]. cbn [map] in Hids. apply NoDup_cons in Hids as [Hn Hids].
  cbn [omap list_omap]. destruct (by_device_id (fo_infos fo) sha256) as [fi|]; cbn; [|by apply IH]. apply NoDup_cons. split; [|by apply IH].
  intros (x & Hx & (fo' & Hfo' & Hfx)%list_elem_of_omap)%list_elem_of_fmap. apply Hn.
  destruct (by_device_id (fo_infos fo') sha256) as [fi'|]; [|done]. cbn in Hfx. injection Hfx as <-.
  pose proof (f_equal fst Hx) as Hid. cbn in Hid. rewrite Hid. apply list_elem_of_fmap. by exists fo'.
Qed.

Lemma forget_peer m sha256 : wf_model m →
  forget (map place_of (shared_with (folders_of m) sha256)) (folders_of m) =
  map (λ fo, with_infos fo (filter (λ fi, fi_device_sha fi ≠ sha256) (fo_infos fo))) (folders_of m).
Proof.
  intros Hm. rewrite forget_eq. apply map_ext_in. intros fo Hfo%list_elem_of_In. f_equal. apply filter_ext, Forall_forall. intros fi Hfi. split.
  - intros Hn Hs. apply Hn. apply list_elem_of_fmap. exists (fo, fi). split; [done|]. by apply shared_with_elem.
  - intros Hs (x & Hx & Hin)%list_elem_of_fmap. apply Hs. apply (shared_with_elem m) in Hin as (_ & _ & <-); [|done].
    by apply (f_equal snd) in Hx.
Qed.

(** What is left of a cluster without some folder infos. *)
Record stripped (m m' : model) (L : list (folder * folder_info)) : Prop := {
  sp_wf : wf_model m';
  sp_files : ∀ p f, cl_files (mo_cluster m') !! p = Some f ↔ cl_files (mo_cluster m) !! p = Some f ∧ p ∉ files_of L;
  sp_blocks : ∀ x p, cl_blocks (mo_cluster m') !! x = Some p ↔
    cl_blocks (mo_cluster m) !! x = Some p ∧ ¬ left_over (mo_cluster m) (files_of L) x;
  sp_capacity : (capacity (slots <$> cl_files (mo_cluster m')) <= capacity (slots <$> cl_files (mo_cluster m)))%nat;
  sp_iterators : ∀ sha256, (∀ x, x ∈ L → fi_device_sha x.2 ≠ sha256) → mo_iterators m' !! sha256 = mo_iterators m !! sha256;
}.

Lemma remove_no_blocks m : remove_blocks_apply [] m = Ok m.
Proof. unfold remove_blocks_apply. cbn. destruct m as [[]]. done. Qed.

Lemma wf_gmap_filter {A N} `{Keyed A N} (P : A → Prop) `{∀ x, Decision (P x)} (l : list A) : wf_gmap l → wf_gmap (filter P l).
Proof. intros [Hnd Hs]. split; [by apply NoDup_filter|]. intros a b [_ Ha]%list_elem_of_filter [_ Hb]%list_elem_of_filter. by apply Hs. Qed.

Lemma unshare_trees_lone L ks : Forall lone (unshare_trees L ks).
Proof. revert ks. induction L as [|x L IH]; intros [|k ks]; constructor; [done|apply IH]. Qed.

(** The unsharing of several folder infos together, and of the blocks only they used. *)
Lemma strip_ok m L :
  wf_model m → small (cl_files (mo_cluster m)) 0 → located m L → NoDup (map place_of L) →
  ∃ trees set removed, unshare_loop (mo_cluster m) L [] = Ok (trees, set) ∧ remove_orphans (mo_cluster m) set = Ok removed ∧
    Forall lone (trees ++ removed) ∧
    ∀ m1, mo_cluster m1 = mo_cluster m → mo_iterators m1 = mo_iterators m → wf_model m1 →
      ∃ c' its, apply_each (trees ++ removed) m1 = Ok (with_cluster (with_iterators m1 its) c') ∧
        cl_folders c' = forget (map place_of L) (folders_of m) ∧ stripped m (with_cluster (with_iterators m1 its) c') L.
Proof.
  intros Hm Hsm Hloc Hnd.
  assert (∀ x e, x ∈ L → e ∈ fi_files x.2 → is_Some (cl_files (mo_cluster m) !! e_file e)) as Hal.
  { intros x e Hx He. destruct (Hloc x Hx) as (fo & Hfo & _ & Hfi).
    destruct (cl_wf_infos _ (mw_cluster m Hm) fo x.2 Hfo Hfi) as (_ & _ & Hent). destruct (Hent e He) as (f & -> & _). done. }
  destruct (unshare_loop_ok (mo_cluster m) L [] Hal) as (ks & Hks & Hloop).
  destruct (remove_orphans_ok (mo_cluster m) L (mw_cluster m Hm)) as (r & Hro & Hndr & Hr).
  { intros p (x & (e & -> & He)%list_elem_of_fmap & Hx)%list_elem_of_bind. by eapply Hal. }
  do 3 eexists. split_and!; [exact Hloop|exact Hro|apply Forall_app; split; [apply unshare_trees_lone|case_bool_decide; repeat constructor]|].
  intros m1 Hc Hit Hm1.
  destruct (unshare_all L ks m1) as (c1 & its & He & Hf & Hs & Hw & Hi); [done|by rewrite Hc|intros x Hx; unfold folders_of; rewrite Hc; by apply Hloc|done|by rewrite Hc|].
  rewrite Hc in Hs. set (m2 := with_cluster (with_iterators m1 its) c1) in *.
  destruct (orphans_step m m2 L r Hm Hsm Hw Hs Hndr Hr) as (known & h & Hb & Hw' & Hk).
  eexists _, its. rewrite apply_each_app, He. cbn [res_bind]. rewrite apply_leaves; try done; [|intros ->%bool_decide_eq_true; apply remove_no_blocks].
  split_and!; [exact Hb|cbn; unfold folders_of in Hf; rewrite Hc in Hf; exact Hf|]. split; [exact Hw'|..].
  - intros p f. cbn. destruct (decide (p ∈ files_of L)) as [Hg|Hg]; [rewrite (sh_gone _ _ _ Hs p Hg)|rewrite (sh_kept _ _ _ Hs p Hg)]; naive_solver.
  - exact Hk.
  - exact (sh_capacity _ _ _ Hs).
  - intros sha256 Hn. cbn. rewrite <- Hit. by apply Hi.
Qed.

Lemma pending_without m sha256 : wf_model m →
  filter (λ pf, pn_key pf ∉ map pn_key (filter (λ pf, get_sha256 (pn_device pf) = sha256) (mo_pending_folders m))) (mo_pending_folders m) =
  filter (λ pf, get_sha256 (pn_device pf) ≠ sha256) (mo_pending_folders m).
Proof.
  intros Hm. apply filter_ext, Forall_forall. intros pf Hpf. destruct (mw_pending m Hm) as [_ Hs]. split.
  - intros Hn Heq. apply Hn. apply list_elem_of_fmap. exists pf. split; [done|]. by apply list_elem_of_filter.
  - intros Hn (q & Hk & [Hq Hin]%list_elem_of_filter)%list_elem_of_fmap. apply Hn. rewrite (Hs pf q); [done|done|done|].
    apply shares_alt. exists 0%nat. split; [lia|]. cbn. by rewrite Hk.
Qed.

Lemma device_other m peer x : wf_model m → peer ∈ mo_devices m → x ∈ mo_devices m →
  ¬ shares x peer ↔ get_sha256 (d_id x) ≠ get_sha256 (d_id peer).
Proof.
  intros Hm Hp Hx. destruct (mw_devices m Hm) as [_ Hs]. split.
  - intros Hn Heq. apply Hn, shares_alt. exists 1%nat. split; [lia|]. unfold get_index. cbn [keys_of device_keyed lookup list_lookup].  by rewrite Heq.
  - intros Hn Hsh. by rewrite (Hs x peer) in Hn.
Qed.

(** C26: removing a peer, made from and applied to a consistent cluster, succeeds and leaves a consistent one: no folder info, offer, device, view,
    iterator or file of the peer is left, no block that only its files used; everything else is as it was. *)
Theorem remove_peer_spec (m : model) (peer : device) :
  wf_model m → small (cl_files (mo_cluster m)) 0 → peer ∈ mo_devices m → get_sha256 (d_id peer) ≠ self_sha m →
  device_key local_id peer = prefix_device :: get_sha256 (d_id peer) → length (get_sha256 (d_id peer)) = DeviceId.digest_length →
  let sha256 := get_sha256 (d_id peer) in
  let L := shared_with (folders_of m) sha256 in
  ∃ d m', new_remove_peer m peer = Ok d ∧ apply d m = Ok m' ∧ wf_model m' ∧
    folders_of m' = map (λ fo, with_infos fo (filter (λ fi, fi_device_sha fi ≠ sha256) (fo_infos fo))) (folders_of m) ∧
    mo_devices m' = filter (λ dev, get_sha256 (d_id dev) ≠ sha256) (mo_devices m) ∧
    mo_pending_folders m' = filter (λ pf, get_sha256 (pn_device pf) ≠ sha256) (mo_pending_folders m) ∧
    mo_views m' = delete sha256 (mo_views m) ∧ mo_iterators m' = delete sha256 (mo_iterators m) ∧
    (∀ p f, cl_files (mo_cluster m') !! p = Some f ↔ cl_files (mo_cluster m) !! p = Some f ∧ p ∉ files_of L) ∧
    (∀ x p, cl_blocks (mo_cluster m') !! x = Some p ↔
       cl_blocks (mo_cluster m) !! x = Some p ∧ ¬ left_over (mo_cluster m) (files_of L) x).
Proof.
  intros Hm Hsm Hpeer Hself Hkey Hlen sha256 L.
  set (Q := filter (λ pf, get_sha256 (pn_device pf) = sha256) (mo_pending_folders m)).
  destruct (strip_ok m L Hm Hsm) as (trees & set & removed & Hloop & Hro & Hlone & Hstrip).
  { intros x Hx. apply (shared_with_elem m) in Hx as (Hfo & Hfi & _); [|done]. by exists x.1. }
  { by apply shared_with_places. }
  destruct (remove_pending_all Q m (mw_pending m Hm)) as (pfs & Hp & Hpfs);
    [apply NoDup_filter; by destruct (mw_pending m Hm)|by intros pf [_ ?]%list_elem_of_filter|].
  set (m1 := with_pending_folders m pfs) in *.
  assert (wf_model m1) as Hm1.
  { destruct Hm. split; try done. cbn. rewrite Hpfs. by apply wf_gmap_filter. }
  destruct (Hstrip m1 eq_refl eq_refl Hm1) as (c' & its & He & Hf & [Hw Hfiles Hblocks _ Hits]).
  set (m2 := with_cluster (with_iterators m1 its) c') in *.
  assert (mo_pending_folders m2 = filter (λ pf, get_sha256 (pn_device pf) ≠ sha256) (mo_pending_folders m)) as Hpend.
  { cbn. rewrite Hpfs. by apply pending_without. }
  assert (folders_of m2 = map (λ fo, with_infos fo (filter (λ fi, fi_device_sha fi ≠ sha256) (fo_infos fo))) (folders_of m)) as Hfold.
  { change (folders_of m2) with (cl_folders c'). rewrite Hf. by apply forget_peer. }
  assert (by_sha256 (mo_devices m2) sha256 = Some peer) as Hby by (apply gget_elem; [apply Hm|lia|done|done]).
  eexists _, _. split_and!.
  - unfold new_remove_peer. unfold folders_of in L. fold sha256 L Q. rewrite Hloop. cbn [res_bind]. rewrite Hro. cbn [res_bind].
    rewrite assemble_batch; [done|]. apply Forall_app. split; [case_bool_decide; repeat constructor|exact Hlone].
  - rewrite apply_node by done. cbn [op_before op_enters op_after res_bind].
    rewrite apply_batch by (apply Forall_app; split; [case_bool_decide; repeat constructor|exact Hlone]).
    rewrite apply_each_app, apply_leaves; try done.
    2:{ intros Hnil%bool_decide_eq_true. cbn [op_before]. rewrite Hnil in Hp |- *. done. }
    cbn [op_before]. rewrite Hp. cbn [res_bind]. rewrite He. cbn [res_bind]. unfold remove_peer_apply.
    rewrite Hkey. change (drop 1 (prefix_device :: get_sha256 (d_id peer))) with sha256.
    assert ((length sha256 =? DeviceId.digest_length)%nat = true) as -> by (by apply Nat.eqb_eq). cbn [assert res_bind]. rewrite Hby, bool_decide_eq_false_2 by done. reflexivity.
  - destruct Hw. split; try done. change (wf_gmap (gremove (mo_devices m) peer)). apply gremove_wf, Hm.
  - exact Hfold.
  - change (gremove (mo_devices m) peer = filter (λ dev, get_sha256 (d_id dev) ≠ sha256) (mo_devices m)). rewrite gremove_filter.
    apply filter_ext, Forall_forall. intros x Hx. by apply (device_other m).
  - exact Hpend.
  - done.
  - apply map_eq. intros k. cbn. destruct (decide (k = sha256)) as [->|Hne]; [by rewrite !lookup_delete_eq|].
    rewrite !lookup_delete_ne by done. apply Hits. intros x Hx. apply (shared_with_elem m) in Hx as (_ & _ & Hx); [|done]. congruence.
  - exact Hfiles.
  - exact Hblocks.
Qed.

(** ** Removing a folder *)

Definition all_infos (fo : folder) : list (folder * folder_info) := map (pair fo) (fo_infos fo).

Lemma all_infos_located m fo : wf_model m → fo ∈ folders_of m → located m (all_infos fo) ∧ NoDup (map place_of (all_infos fo)).
Proof.
  intros Hm Hfo. split.
  - intros x (fi & -> & Hfi)%list_elem_of_fmap. by exists fo.
  - unfold all_infos. rewrite map_map. pose proof (cl_wf_devices _ (mw_cluster m Hm) fo Hfo) as Hnd. revert Hnd.
    induction (fo_infos fo) as [|fi l IH]; [constructor|]. cbn [map]. intros [Hn Hnd]%NoDup_cons. apply NoDup_cons. split; [|by apply IH].
    intros (y & Hy & Hin)%list_elem_of_fmap. apply Hn. apply (f_equal snd) in Hy. cbn in Hy. rewrite Hy. by apply list_elem_of_fmap_2.
Qed.

Lemma forget_folder m fo : wf_model m → fo ∈ folders_of m →
  forget (map place_of (all_infos fo)) (folders_of m) =
  map (λ x, if bool_decide (fd_id (fo_data x) = fd_id (fo_data fo)) then with_infos fo [] else x) (folders_of m).
Proof.
  intros Hm Hfo. rewrite forget_eq. apply map_ext_in. intros x Hx%list_elem_of_In. case_bool_decide as Hid.
  - rewrite (folder_shares m x fo) by done. f_equal. apply filter_none. intros fi Hfi Hn. apply Hn. apply list_elem_of_fmap.
    exists (fo, fi). split; [done|]. by apply list_elem_of_fmap_2.
  - rewrite filter_all; [apply with_infos_id|]. apply Forall_forall. intros fi _ (y & Hy & (z & -> & _)%list_elem_of_fmap)%list_elem_of_fmap.
    apply (f_equal fst) in Hy. done.
Qed.

(** The offers a folder leaves behind. *)
Definition offers (m : model) (fo : folder) (pf : pending_folder) : Prop :=
  ∃ fi dev, fi ∈ fo_infos fo ∧ fi_device_sha fi ≠ self_sha m ∧ fi_index fi ≠ 0 ∧ by_sha256 (mo_devices m) (fi_device_sha fi) = Some dev ∧
    pn_device pf = d_id dev ∧ pn_index pf = fi_index fi ∧ fd_id (pn_data pf) = fd_id (fo_data fo).

Lemma offers_of_elem self fo sq l : ∀ n item, item ∈ (offers_of self fo l sq n).1 →
  ∃ fi uuid, fi ∈ l ∧ fi_device_sha fi ≠ self ∧ fi_index fi ≠ 0 ∧ item = offer_of fo fi uuid.
Proof.
  induction l as [|fi l IH]; intros n item; cbn [offers_of]; [by intros ?%elem_of_nil|].
  case_bool_decide as Hs; cbn [andb].
  - destruct (Z.eqb_spec (fi_index fi) 0) as [Hz|Hz]; cbn [negb].
    + intros Hi. destruct (IH n item Hi) as (x & u & Hx & ?). exists x, u. split; [by right|done].
    + destruct (offers_of self fo l sq (S n)) as [items n'] eqn:E. cbn [fst]. intros [->|Hi]%elem_of_cons.
      * exists fi, (sq_uuid sq n). split_and!; [by left|done|done|done].
      * destruct (IH (S n) item) as (x & u & Hx & ?); [by rewrite E|]. exists x, u. split; [by right|done].
  - intros Hi. destruct (IH n item Hi) as (x & u & Hx & ?). exists x, u. split; [by right|done].
Qed.

Lemma offers_of_some self fo sq l fi : ∀ n, fi ∈ l → fi_device_sha fi ≠ self → fi_index fi ≠ 0 → (offers_of self fo l sq n).1 ≠ [].
Proof.
  induction l as [|x l IH]; intros n Hfi Hs Hi; [by apply elem_of_nil in Hfi|]. cbn [offers_of].
  apply elem_of_cons in Hfi as [<-|Hfi].
  - rewrite bool_decide_eq_true_2 by done. rewrite (proj2 (Z.eqb_neq _ _) Hi). cbn [andb negb]. by destruct (offers_of self fo l sq (S n)).
  - destruct (bool_decide (fi_device_sha x ≠ self) && negb (fi_index x =? 0)); [by destruct (offers_of self fo l sq (S n))|by apply IH].
Qed.

Lemma add_pending_all m0 fo items : ∀ m,
  mo_devices m = mo_devices m0 → self_sha m = self_sha m0 → wf_gmap (mo_pending_folders m) →
  (∀ fi, fi ∈ fo_infos fo → is_Some (by_sha256 (mo_devices m0) (fi_device_sha fi))) →
  (∀ item, item ∈ items → ∃ fi uuid, fi ∈ fo_infos fo ∧ fi_device_sha fi ≠ self_sha m0 ∧ fi_index fi ≠ 0 ∧ item = offer_of fo fi uuid) →
  ∃ pfs, add_pending_folders_apply items m = Ok (with_pending_folders m pfs) ∧ wf_gmap pfs ∧
    (∀ pf, pf ∈ pfs → pf ∈ mo_pending_folders m ∨ offers m0 fo pf) ∧ (items ≠ [] → ∃ pf, pf ∈ pfs ∧ offers m0 fo pf) ∧
    (items = [] → pfs = mo_pending_folders m).
Proof.
  induction items as [|item items IH]; intros m Hd Hself Hw Hdev Hit.
  - exists (mo_pending_folders m). split_and!; [by destruct m|done|by left|done|done].
  - destruct (Hit item) as (fi & uuid & Hfi & Hs & Hi & ->); [by left|]. destruct (Hdev fi Hfi) as [dev Hby].
    cbn [add_pending_folders_apply pi_peer_id offer_of]. rewrite Hd, Hby. cbn [the res_bind]. rewrite gput_replace. cbn [res_bind].
    match goal with |- context [gput_in _ ?x] => set (new := x) end.
    assert (offers m0 fo new) as Hnew by (exists fi, dev; by split_and!).
    destruct (IH (with_pending_folders m (gput_in (mo_pending_folders m) new))) as (pfs & -> & Hw' & Hsub & Hne & Hnil); try done.
    { apply gput_in_wf; [lia|done]. }
    { intros x Hx. apply Hit. by right. }
    exists pfs. split_and!; [done|done| | |done].
    + intros pf [Hpf|Hpf]%Hsub; [|by right]. apply gput_in_elem in Hpf as [->|[? _]]; [by right|by left].
    + intros _. destruct items as [|item items]; [|by apply Hne].
      exists new. split; [|done]. rewrite Hnil by done. apply gput_in_elem. by left.
Qed.

Lemma wf_model_filter m c' (P : folder → Prop) `{∀ x, Decision (P x)} (gone : file_ptr → Prop) `{∀ p, Decision (gone p)} :
  wf_model m → cl_folders c' = filter P (folders_of m) → shed (mo_cluster m) c' gone → wf_model (with_cluster m c').
Proof.
  intros Hm Hf Hs. assert (∀ fo, fo ∈ folders_of (with_cluster m c') → fo ∈ folders_of m) as Hsub.
  { intros fo. change (folders_of (with_cluster m c')) with (cl_folders c'). rewrite Hf. by intros [_ ?]%list_elem_of_filter. }
  split; try apply Hm; try (by intros; eapply Hm; eauto); [apply Hs| |].
  - change (folders_of (with_cluster m c')) with (cl_folders c'). rewrite Hf. apply wf_gmap_filter, Hm.
  - intros p f Hp. change (cl_files c' !! p = Some f) in Hp. destruct (decide (gone p)) as [Hg|Hg]; [by rewrite (sh_gone _ _ _ Hs p Hg) in Hp|].
    rewrite (sh_kept _ _ _ Hs p Hg) in Hp. by eapply (mw_files m Hm).
Qed.

(** A folder without folder infos goes without a trace. *)
Lemma remove_empty_folder m fo :
  wf_model m → small (cl_files (mo_cluster m)) 0 → fo ∈ folders_of m → fo_infos fo = [] →
  ∃ c', remove_folder_apply (fd_id (fo_data fo)) m = Ok (with_cluster m c') ∧ wf_model (with_cluster m c') ∧
    cl_folders c' = filter (λ x, fd_id (fo_data x) ≠ fd_id (fo_data fo)) (folders_of m) ∧
    cl_files c' = cl_files (mo_cluster m) ∧ cl_blocks c' = cl_blocks (mo_cluster m).
Proof.
  intros Hm Hsm Hfo Hnil. unfold remove_folder_apply. rewrite (folder_by_id_in m) by done. cbn [the res_bind mark_suspended negb andb assert].
  match goal with |- context [gremove _ ?x] => set (fo' := x) end.
  assert (gremove (folders_of m) fo' = filter (λ x, fd_id (fo_data x) ≠ fd_id (fo_data fo)) (folders_of m)) as Hg.
  { rewrite gremove_filter. apply filter_ext, Forall_forall. intros x Hx. destruct (mw_folders m Hm) as [_ Hs]. split.
    - intros Hn Heq. apply Hn, shares_alt. exists 1%nat. split; [lia|]. cbn. by rewrite Heq.
    - intros Hn Hsh. rewrite (Hs x fo) in Hn; [done|done|done|]. apply shares_alt in Hsh as (I & HI & Heq). apply shares_alt. by exists I. }
  rewrite Hg. unfold update_folders.
  destruct (set_folders_shed (mo_cluster m) (filter (λ x, fd_id (fo_data x) ≠ fd_id (fo_data fo)) (folders_of m))) as (c' & -> & Hf & Hs).
  - apply Hm.
  - unfold small in Hsm. lia.
  - apply NoDup_map_filter, (cl_wf_ids _ (mw_cluster m Hm)).
  - intros x [_ Hx]%list_elem_of_filter. by apply (cl_wf_devices _ (mw_cluster m Hm)).
  - intros x fi [_ Hx]%list_elem_of_filter Hfi. exists x, fi. split_and!; [done|done|by left|].
    intros x2 e [_ Hx2]%list_elem_of_filter Hfi2 He. by destruct (cl_wf_owner _ (mw_cluster m Hm) x2 fi e x fi e).
  - cbn [res_bind]. exists c'. split_and!; [done|exact (wf_model_filter m c' _ _ Hm Hf Hs)|done| |by rewrite (sh_blocks _ _ _ Hs)].
    apply map_eq. intros p. apply (sh_kept _ _ _ Hs). intros [(x & fi & e & Hx & Hfi & He & ->)%files_in_elem Hn]. apply Hn. apply files_in_elem.
    exists x, fi, e. split_and!; try done. apply list_elem_of_filter. split; [|done]. intros Hid.
    rewrite (folder_shares m x fo) in Hfi by done. rewrite Hnil in Hfi. by apply elem_of_nil in Hfi.
Qed.

Lemma filter_replaced (l : list folder) (fo : folder) id : fd_id (fo_data fo) = id →
  filter (λ x, fd_id (fo_data x) ≠ id) (map (λ x, if bool_decide (fd_id (fo_data x) = id) then fo else x) l) =
  filter (λ x, fd_id (fo_data x) ≠ id) l.
Proof.
  intros Hid. induction l as [|x l IH]; [done|]. cbn [map]. rewrite !filter_cons, IH. case_bool_decide as Hx; [|done].
  by rewrite !decide_False by tauto.
Qed.

(** C27: removing a folder, made from and applied to a consistent cluster, succeeds and leaves a consistent one without the folder, its files, and the
    blocks that only they used; if a peer had the folder, it is pending again with an index that peer announced. *)
Theorem remove_folder_spec (m : model) (sq : sequencer) (n : nat) (fo : folder) :
  wf_model m → small (cl_files (mo_cluster m)) 0 → fo ∈ folders_of m →
  (∀ fi, fi ∈ fo_infos fo → is_Some (by_sha256 (mo_devices m) (fi_device_sha fi))) →
  ∃ d n' m', new_remove_folder m sq n fo = Ok (d, n') ∧ apply d m = Ok m' ∧ wf_model m' ∧
    folders_of m' = filter (λ x, fd_id (fo_data x) ≠ fd_id (fo_data fo)) (folders_of m) ∧ mo_devices m' = mo_devices m ∧
    (∀ p f, cl_files (mo_cluster m') !! p = Some f ↔ cl_files (mo_cluster m) !! p = Some f ∧ p ∉ files_of (all_infos fo)) ∧
    (∀ x p, cl_blocks (mo_cluster m') !! x = Some p ↔
       cl_blocks (mo_cluster m) !! x = Some p ∧ ¬ left_over (mo_cluster m) (files_of (all_infos fo)) x) ∧
    (∀ pf, pf ∈ mo_pending_folders m' → pf ∈ mo_pending_folders m ∨ offers m fo pf) ∧
    (∀ fi, fi ∈ fo_infos fo → fi_device_sha fi ≠ self_sha m → fi_index fi ≠ 0 → ∃ pf, pf ∈ mo_pending_folders m' ∧ offers m fo pf).
Proof.
  intros Hm Hsm Hfo Hdev. destruct (all_infos_located m fo Hm Hfo) as [Hloc Hnd].
  destruct (strip_ok m (all_infos fo) Hm Hsm Hloc Hnd) as (trees & set & removed & Hloop & Hro & Hlone & Hstrip).
  destruct (Hstrip m eq_refl eq_refl Hm) as (c1 & its & He & Hf & [Hw Hfiles Hblocks Hcap _]).
  set (m1 := with_cluster (with_iterators m its) c1) in *.
  destruct (offers_of (self_sha m) fo (fo_infos fo) sq n) as [items n'] eqn:Hoff.
  destruct (add_pending_all m fo items m1) as (pfs & Hadd & Hwp & Hsub & Hne & Hnil); [done|done|apply Hm|done| |].
  { intros item Hi. apply (offers_of_elem (self_sha m) fo sq (fo_infos fo) n). by rewrite Hoff. }
  set (m2 := with_pending_folders m1 pfs) in *.
  assert (wf_model m2) as Hm2 by (destruct Hw; by split).
  assert (folders_of m2 = map (λ x, if bool_decide (fd_id (fo_data x) = fd_id (fo_data fo)) then with_infos fo [] else x) (folders_of m)) as Hfold.
  { change (folders_of m2) with (cl_folders c1). rewrite Hf. by apply forget_folder. }
  destruct (remove_empty_folder m2 (with_infos fo [])) as (c' & Hr & Hw' & Hf' & Hfiles' & Hblocks'); [done| | |done|].
  { unfold small in *. change (cl_files (mo_cluster m2)) with (cl_files (mo_cluster m1)). lia. }
  { rewrite Hfold. apply list_elem_of_fmap. exists fo. by rewrite bool_decide_eq_true_2. }
  eexists _, n', _. split_and!.
  - unfold new_remove_folder. change (map (pair fo) (fo_infos fo)) with (all_infos fo). rewrite Hloop. cbn [res_bind]. rewrite Hoff, Hro. cbn [res_bind].
    rewrite assemble_batch; [done|]. rewrite app_assoc. apply Forall_app. split; [exact Hlone|case_bool_decide; repeat constructor].
  - rewrite apply_node by done. cbn [op_before op_enters op_after res_bind].
    rewrite apply_batch by (rewrite app_assoc; apply Forall_app; split; [exact Hlone|case_bool_decide; repeat constructor]).
    rewrite app_assoc, apply_each_app, He. cbn [res_bind]. rewrite apply_leaves; try done.
    2:{ intros Hlen%bool_decide_eq_true%nil_length_inv. cbn [op_before]. by rewrite Hlen. }
    cbn [op_before]. rewrite Hadd. cbn [res_bind]. exact Hr.
  - exact Hw'.
  - change (cl_folders c' = filter (λ x, fd_id (fo_data x) ≠ fd_id (fo_data fo)) (folders_of m)). rewrite Hf', Hfold. by apply filter_replaced.
  - done.
  - intros p f. change (cl_files c' !! p = Some f ↔ cl_files (mo_cluster m) !! p = Some f ∧ p ∉ files_of (all_infos fo)). rewrite Hfiles'. apply Hfiles.
  - intros x p. change (cl_blocks c' !! x = Some p ↔ cl_blocks (mo_cluster m) !! x = Some p ∧ ¬ left_over (mo_cluster m) (files_of (all_infos fo)) x).
    rewrite Hblocks'. apply Hblocks.
  - exact Hsub.
  - intros fi Hfi Hs Hi. apply Hne. pose proof (offers_of_some (self_sha m) fo sq (fo_infos fo) fi n Hfi Hs Hi) as Hx. by rewrite Hoff in Hx.
Qed.
End removal.

(** ** A concrete cluster *)

#[local] Instance r_environment : Environment := {|
  env_platform := posix;
  local_id := DeviceId.DeviceId [] (prefix_device :: repeat 255 32);
  parse_uri := sample_parse;
  decode_device := λ _, None;
  decode_folder := λ _, None;
  decode_pending_folder := λ _, None;
  decode_some_device := λ _, None;
  decode_ignored_folder := λ _, None;
  local_zone := λ _, mkLocalTime 0 0 0 0 0 0;
|}.

Definition r_device (d : Z) (is_local : bool) : device :=
  make_device (DeviceId.DeviceId [d] (prefix_device :: repeat d 32)) [] [] (mkState d offline None) is_local.

(** This device (digest 1...1) and a peer (9...9) that has file 2 of the sample store. *)
Definition r_self_info : folder_info :=
  mkFolderInfo (prefix_folder_info :: repeat 255 32 ++ repeat 4 16 ++ repeat 7 16) 1 4 [] (repeat 1 32) (prefix_device :: repeat 255 32) [].

Definition r_peer_info : folder_info :=
  mkFolderInfo (prefix_folder_info :: repeat 9 32 ++ repeat 4 16 ++ repeat 8 16) 5 2 [] (repeat 9 32) (prefix_device :: repeat 9 32)
    [entry_of 2 (sample_file 2 [Some (5%positive, false); Some (6%positive, false)])].

Definition r_folder : folder := with_infos sample_folder [r_self_info; r_peer_info].

Definition r_model : model :=
  mkModel (mkCluster sample_block_map sample_heap sample_files [r_folder]) (r_device 1 true) [r_device 1 true; r_device 9 false] ∅ ∅ ∅ [] []
    [create_pending (repeat 3 16) (mkDbPendingFolder (mkDbFolder (chars "g") [] false false false false false [] send_and_receive random 0 false)
       (mkDbFolderInfo 1 1 [])) (DeviceId.DeviceId [9] (prefix_device :: repeat 9 32))] [] 2.

Lemma wf_gmap_two {A N} `{Keyed A N} (a b : A) : ¬ shares a b → a ≠ b → wf_gmap [a; b].
Proof.
  intros Hn Hne. split.
  - apply NoDup_cons. split; [|apply NoDup_singleton]. by intros ?%list_elem_of_singleton.
  - intros x y. rewrite !elem_of_cons, !elem_of_nil. intros [->|[->|[]]] [->|[->|[]]] Hsh; try done. by apply shares_sym in Hsh.
Qed.

Lemma wf_gmap_one {A N} `{Keyed A N} (a : A) : wf_gmap [a].
Proof. split; [apply NoDup_singleton|]. by intros x y ->%list_elem_of_singleton ->%list_elem_of_singleton. Qed.

Lemma r_infos fi : fi ∈ fo_infos r_folder → fi = r_self_info ∨ fi = r_peer_info.
Proof. cbn. rewrite elem_of_cons, list_elem_of_singleton. tauto. Qed.

Lemma r_cluster_wf : wf_cluster (mo_cluster r_model).
Proof.
  destruct sample_cluster_wf as [H1 H2 H3 _ _ _ _]. split; try done.
  - intros fo fi ->%list_elem_of_singleton [->| ->]%r_infos.
    + split_and!; [split; [repeat constructor|by intros e He%not_elem_of_nil]|done|by intros e He%not_elem_of_nil].
    + split_and!; [split|done|].
      * repeat constructor; by intros ?%not_elem_of_nil.
      * by intros e ->%list_elem_of_singleton.
      * intros e ->%list_elem_of_singleton. by eexists.
  - apply NoDup_singleton.
  - intros fo ->%list_elem_of_singleton. cbn. apply NoDup_cons. split; [|apply NoDup_singleton]. by rewrite list_elem_of_singleton.
  - intros fo fi e fo' fi' e' ->%list_elem_of_singleton Hfi He ->%list_elem_of_singleton Hfi' He' _. split; [done|].
    apply r_infos in Hfi as [->| ->]; [by apply not_elem_of_nil in He|]. by apply r_infos in Hfi' as [->| ->]; [apply not_elem_of_nil in He'|].
Qed.

Lemma r_model_wf : wf_model r_model.
Proof.
  split.
  - apply r_cluster_wf.
  - apply wf_gmap_one.
  - intros fo ->%list_elem_of_singleton. apply wf_gmap_two; [|done]. intros (I & HI & Heq)%shares_alt. destruct I as [|[|[|I]]]; [by vm_compute in Heq..|lia].
  - intros fo fi ->%list_elem_of_singleton [->| ->]%r_infos; [exists (repeat 255 32), (repeat 4 16), (repeat 7 16)|exists (repeat 9 32), (repeat 4 16), (repeat 8 16)]; by split_and!.
  - intros p f Hp. apply (bool_decide_unpack (map_Forall (λ _ f, length (f_key f) = data_length) sample_files) ltac:(vm_compute; exact I) p f Hp).
  - apply wf_gmap_two; [|done]. intros (I & HI & Heq)%shares_alt. destruct I as [|[|I]]; [by vm_compute in Heq..|lia].
  - apply wf_gmap_one.
Qed.

Lemma r_small : small (cl_files (mo_cluster r_model)) 0.
Proof. unfold small. vm_compute. done. Qed.

(** The peer goes: the block that only its file used goes with it, the other one, which file 1 uses, stays. *)
Example remove_peer_spec_witness :
  ∃ d m', new_remove_peer r_model (r_device 9 false) = Ok d ∧ apply d r_model = Ok m' ∧ wf_model m' ∧
    folders_of m' = [with_infos r_folder [r_self_info]] ∧ mo_pending_folders m' = [] ∧
    cl_blocks (mo_cluster m') !! repeat 1 32 = Some 5%positive.
Proof.
  destruct (remove_peer_spec r_model (r_device 9 false)) as (d & m' & Hd & Ha & Hw & Hf & _ & Hp & _ & _ & _ & Hb).
  - apply r_model_wf.
  - apply r_small.
  - right. by left.
  - done.
  - done.
  - done.
  - exists d, m'. split_and!; [done|done|done|by rewrite Hf|by rewrite Hp|].
    apply Hb. split; [done|]. intros (file & f & p & b & _ & _ & _ & _ & Hp' & Hh & Ho).
    assert (p = 5%positive) as ->.
    { apply (cl_wf_known _ r_cluster_wf) in Hp'. rewrite Hh in Hp'. vm_compute in Hp'. congruence. }
    specialize (Ho 1%positive 0%nat eq_refl). vm_compute in Ho. by apply list_elem_of_singleton in Ho.
Defined.

Example remove_folder_spec_witness :
  ∃ d n' m', new_remove_folder r_model (mkSequencer (λ n, repeat (Z.of_nat n) 16) (λ n, Z.of_nat n)) 0 r_folder = Ok (d, n') ∧
    apply d r_model = Ok m' ∧ wf_model m' ∧ folders_of m' = [] ∧ ∃ pf, pf ∈ mo_pending_folders m' ∧ offers r_model r_folder pf.
Proof.
  destruct (remove_folder_spec r_model (mkSequencer (λ n, repeat (Z.of_nat n) 16) (λ n, Z.of_nat n)) 0 r_folder)
    as (d & n' & m' & Hd & Ha & Hw & Hf & _ & _ & _ & _ & Ho).
  - apply r_model_wf.
  - apply r_small.
  - by left.
  - intros fi [->| ->]%r_infos; by eexists.
  - exists d, n', m'. split_and!; [done|done|done|by rewrite Hf|]. apply (Ho r_peer_info); [right; by left|done|done].
Defined.

(** ** Updates in turns *)

(** The traffic of the peer and the start of a synchronisation in one batch, the removal of the peer in another. *)
Definition r_traffic (rx tx : Z) : diff op := Node (RxTx (repeat 9 32) rx tx) Null Null.

Definition r_removal : diff op := match new_remove_peer r_model (r_device 9 false) with Ok d => d | _ => Null end.

Definition r_batches : list (Z * list (diff op)) :=
  [(2, [r_traffic 10 20; Node (SynchronizationStart (fd_id (fo_data r_folder))) Null Null; r_traffic 1 2]); (3, [r_removal])].

Definition r_left : model := match apply_each (concat (map snd r_batches)) r_model with Ok m => m | _ => r_model end.

Lemma r_batches_fine : Forall fine_batch r_batches.
Proof.
  by repeat constructor.
Qed.

Lemma r_batches_apply : apply_each (concat (map snd r_batches)) r_model = Ok r_left.
Proof. by vm_compute. Qed.

Example controller_refines_witness :
  ∃ k, handle_all (λ _ m, m) [Arrives (chained (2, [r_traffic 10 20; r_traffic 3 4; r_traffic 1 2])); Arrives (chained (3, [r_removal]))]
      (idle r_model) = Ok k ∧
    k_down k = false ∧ k_interrupted k = true ∧
    ∃ k', handle_all (λ _ m, m) (replicate (work (pending k)) Resumes) k = Ok k' ∧ k_interrupted k' = false ∧
      mo_devices (k_cluster k') = [r_device 1 true] ∧ folders_of (k_cluster k') = [with_infos r_folder [r_self_info]].
Proof.
  set (evs := [Arrives _; Arrives _]).
  destruct (apply_each (arrived evs) r_model) as [m'| |] eqn:Hm; [|by vm_compute in Hm..].
  destruct (controller_refines (λ _ m, m) r_model m' evs) as (k & Hk & Hd & _ & _ & k' & Hk' & Hi & Hc).
  - apply (chained_resumable [(2, [r_traffic 10 20; r_traffic 3 4; r_traffic 1 2]); (3, [r_removal])]). repeat constructor; try done.
  - done.
  - exists k. split_and!; [done|done|vm_compute in Hk; by injection Hk as <-|]. exists k'. rewrite Hc.
    split_and!; [done|done|..]; vm_compute in Hm; by injection Hm as <-.
Defined.

Example batches_applied_witness :
  ∃ updates, Forall2 (λ b d, assemble b.1 b.2 = Ok d) r_batches updates ∧
    ∀ evs, arrived evs = updates →
      ∃ k k', handle_all (λ _ m, m) evs (idle r_model) = Ok k ∧ handle_all (λ _ m, m) (replicate (work (pending k)) Resumes) k = Ok k' ∧
        k_down k' = false ∧ k_interrupted k' = false ∧ k_cluster k' = r_left.
Proof. exact (batches_applied (λ _ m, m) r_model r_left r_batches r_batches_fine r_batches_apply). Defined.
