(* ===== verification/ClusterUpdate.v ===== *)
(** * ClusterUpdate: [src/model/diff/peer/cluster_update.cpp], what a peer's announcement of its folders changes here: which folders
    are offered, which indices are new and have their files forgotten, what is no longer shared, and whom an introducer introduces. *)

From S2P Require Import Prelude Diff Version Proto DeviceId Device Blocks FileInfo FileStore FileMap GenericMap Folder.
From S2P Require Import Resolver BlockMap UpdateFolder ApplyUpdate Streamer FileIterator Advance Cluster Changes Trees Removal.

(** [default_path / label]: an absolute path replaces what is before it. *)
Definition path_append (p q : bytes) : bytes :=
  match q with
  | 47 :: _ => q
  | _ => if bool_decide (p = []) || bool_decide (last p = Some 47) then p ++ q else p ++ 47 :: q
  end.

(** What the constructor gathers. *)
Record gathered := mkGathered {
  ga_seen : list (bytes * bytes);
  ga_pending : list pending_item;
  ga_views : list view_item;
  ga_reset : list (folder * folder_info);
  ga_removed_pending : list bytes;
  ga_confirmed_pending : list bytes;
  ga_confirmed : list bytes;
  ga_seen_devices : list bytes;
  ga_processed : list bytes;
  ga_introduced : list (DbDevice * device_id);
  ga_infos : list (bytes * Z * device_id);
  ga_folders : list DbFolder;
  ga_uuids : nat;
}.

Definition gathered0 (n : nat) : gathered := mkGathered [] [] [] [] [] [] [] [] [] [] [] [] n.

(** [emplace] into a set. *)
Definition add_to {A} `{EqDecision A} (x : A) (l : list A) : list A := if bool_decide (x ∈ l) then l else l ++ [x].

Section update.
Context `{Environment} (create_directories : bytes → bool) (default_path : bytes) (sq : sequencer) (m : model) (source : device).

Definition source_sha : bytes := get_sha256 (d_id source).

(** ** The lambdas of the constructor *)

(** The loop of [add_pending]: the offers of the peer for this folder; [true] when one of them is up to date. *)
Fixpoint known_offer (f : PFolder) (d : PDevice) (pfs : list pending_folder) (g : gathered) : gathered * bool :=
  match pfs with
  | [] => (g, false)
  | uf :: pfs =>
      if bool_decide (get_sha256 (pn_device uf) = source_sha) && bool_decide (fd_id (pn_data uf) = pl_id f) then
        let g := mkGathered (ga_seen g) (ga_pending g) (ga_views g) (ga_reset g) (ga_removed_pending g)
                   (add_to (pn_key uf) (ga_confirmed_pending g)) (ga_confirmed g) (ga_seen_devices g) (ga_processed g) (ga_introduced g)
                   (ga_infos g) (ga_folders g) (ga_uuids g) in
        if (pn_index uf =? pd_index_id d) && (pn_max_sequence uf =? pd_max_sequence d) then (g, true)
        else
          known_offer f d pfs
            (mkGathered (ga_seen g) (ga_pending g) (ga_views g) (ga_reset g) (add_to (pn_key uf) (ga_removed_pending g))
               (ga_confirmed_pending g) (ga_confirmed g) (ga_seen_devices g) (ga_processed g) (ga_introduced g)
               (ga_infos g) (ga_folders g) (ga_uuids g))
      else known_offer f d pfs g
  end.

Definition offered_folder (f : PFolder) (d : PDevice) : DbPendingFolder :=
  mkDbPendingFolder
    (mkDbFolder (pl_id f) (pl_label f) (pl_ignore_permissions f) (pl_ignore_delete f) (pl_disable_temp_indexes f) (pl_paused f) false []
       send_and_receive random 0 false)
    (mkDbFolderInfo (pd_index_id d) (pd_max_sequence d) []).

Definition add_pending (f : PFolder) (d : PDevice) (g : gathered) : gathered :=
  let '(g, actual) := known_offer f d (mo_pending_folders m) g in
  if actual then g
  else
    mkGathered (ga_seen g) (ga_pending g ++ [mkPendingItem (offered_folder f d) source_sha (sq_uuid sq (ga_uuids g))]) (ga_views g)
      (ga_reset g) (ga_removed_pending g) (ga_confirmed_pending g) (ga_confirmed g) (ga_seen_devices g) (ga_processed g) (ga_introduced g)
      (ga_infos g) (ga_folders g) (S (ga_uuids g)).

(** [add_folder_info], also [upsert_folder_info]. *)
Definition add_folder_info (folder_id : bytes) (index_id : Z) (id : device_id) (g : gathered) : gathered :=
  mkGathered (ga_seen g) (ga_pending g) (ga_views g) (ga_reset g) (ga_removed_pending g) (ga_confirmed_pending g) (ga_confirmed g)
    (ga_seen_devices g) (ga_processed g) (ga_introduced g) (ga_infos g ++ [(folder_id, index_id, id)]) (ga_folders g) (ga_uuids g).

Definition try_make_path (label : bytes) : res bytes :=
  if bool_decide (label = []) then Err empty_folder_name
  else let path := path_append default_path label in if create_directories path then Ok path else Err cannot_create_directory.

(** An auto-accepted folder is created under its label, or else under its id. *)
Definition add_folder (f : PFolder) (g : gathered) : res gathered :=
  let* path := match try_make_path (pl_label f) with Ok path => Ok path | _ => try_make_path (pl_id f) end in
  let db := mkDbFolder (pl_id f) (pl_label f) (pl_ignore_permissions f) (pl_ignore_delete f) (pl_disable_temp_indexes f) (pl_paused f) false path
              send_and_receive random 3600 false in
  Ok (mkGathered (ga_seen g) (ga_pending g) (ga_views g) (ga_reset g) (ga_removed_pending g) (ga_confirmed_pending g) (ga_confirmed g)
        (ga_seen_devices g) (ga_processed g) (ga_introduced g) (ga_infos g) (ga_folders g ++ [db]) (ga_uuids g)).

(** The addresses of an introduced device. *)
Fixpoint introduced_addresses (addresses : list bytes) : res (list bytes) :=
  match addresses with
  | [] => Ok []
  | a :: addresses =>
      if bool_decide (a = chars "dynamic") then introduced_addresses addresses
      else
        match parse_uri a with
        | None => Err malformed_url
        | Some _ => let* rest := introduced_addresses addresses in Ok (a :: rest)
        end
  end.

Definition introduce_device (folder_id : bytes) (d : PDevice) (id : device_id) (g : gathered) : res gathered :=
  let* g :=
    if bool_decide (pd_id d ∈ ga_processed g) then Ok g
    else
      let* addresses := introduced_addresses (pd_addresses d) in
      let db := mkDbDevice (pd_name d) addresses (pd_compression d) [] (pd_introducer d) (pd_skip_introduction_removals d) false false 0 in
      Ok (mkGathered (ga_seen g) (ga_pending g) (ga_views g) (ga_reset g) (ga_removed_pending g) (ga_confirmed_pending g) (ga_confirmed g)
            (add_to (pd_id d) (ga_seen_devices g)) (add_to (pd_id d) (ga_processed g)) (ga_introduced g ++ [(db, id)]) (ga_infos g)
            (ga_folders g) (ga_uuids g)) in
  Ok (add_folder_info folder_id (pd_index_id d) id g).

Definition is_shared_with_source (folder_id : bytes) (g : gathered) : bool :=
  match folder_by_id (folders_of m) folder_id with
  | Some fo => bool_decide (is_Some (by_device_id (fo_infos fo) source_sha))
  | None => false
  end || existsb (λ db, bool_decide (do_id db = folder_id)) (ga_folders g).

(** ** The passes over the message *)

(** Noting that a folder was announced for a device. *)
Definition note_seen (folder_id sha256 : bytes) (g : gathered) : gathered :=
  mkGathered ((folder_id, sha256) :: ga_seen g) (ga_pending g) (ga_views g) (ga_reset g) (ga_removed_pending g) (ga_confirmed_pending g)
    (ga_confirmed g) (ga_seen_devices g) (ga_processed g) (ga_introduced g) (ga_infos g) (ga_folders g) (ga_uuids g).

Definition note_device (sha256 : bytes) (g : gathered) : gathered :=
  mkGathered (ga_seen g) (ga_pending g) (ga_views g) (ga_reset g) (ga_removed_pending g) (ga_confirmed_pending g) (ga_confirmed g)
    (add_to sha256 (ga_seen_devices g)) (ga_processed g) (ga_introduced g) (ga_infos g) (ga_folders g) (ga_uuids g).

Definition note_view (v : view_item) (g : gathered) : gathered :=
  mkGathered (ga_seen g) (ga_pending g) (ga_views g ++ [v]) (ga_reset g) (ga_removed_pending g) (ga_confirmed_pending g) (ga_confirmed g)
    (ga_seen_devices g) (ga_processed g) (ga_introduced g) (ga_infos g) (ga_folders g) (ga_uuids g).

Definition note_confirmed (key : bytes) (g : gathered) : gathered :=
  mkGathered (ga_seen g) (ga_pending g) (ga_views g) (ga_reset g) (ga_removed_pending g) (ga_confirmed_pending g) (add_to key (ga_confirmed g))
    (ga_seen_devices g) (ga_processed g) (ga_introduced g) (ga_infos g) (ga_folders g) (ga_uuids g).

(** [reset_folders.emplace], by uuid. *)
Definition note_reset (fo : folder) (fi : folder_info) (g : gathered) : gathered :=
  mkGathered (ga_seen g) (ga_pending g) (ga_views g)
    (if bool_decide (fi_get_uuid fi ∈ map (λ x, fi_get_uuid x.2) (ga_reset g)) then ga_reset g else ga_reset g ++ [(fo, fi)])
    (ga_removed_pending g) (ga_confirmed_pending g) (ga_confirmed g)
    (ga_seen_devices g) (ga_processed g) (ga_introduced g) (ga_infos g) (ga_folders g) (ga_uuids g).

Definition info_in (folder_id sha256 : bytes) : option (folder * folder_info) :=
  fo ← folder_by_id (folders_of m) folder_id; fi ← by_device_id (fo_infos fo) sha256; Some (fo, fi).

(** The 1st pass, for the source and this device: one device of one folder. *)
Definition first_pass (f : PFolder) (d : PDevice) (g : gathered) : res gathered :=
  let* id := from_sha256 (pd_id d) in
  match id with
  | None => Err malformed_url
  | Some id =>
      if bool_decide ((pl_id f, pd_id d) ∈ ga_seen g) then Ok g
      else
        let g := note_seen (pl_id f) (pd_id d) g in
        match by_sha256 (mo_devices m) (pd_id d) with
        | None => Ok g
        | Some _ =>
            let g := note_device (pd_id d) g in
            let is_self := bool_decide (pd_id d = self_sha m) in
            if bool_decide (pd_id d ≠ source_sha) && negb is_self then Ok g
            else
              let g := note_view (mkViewItem (pl_id f) id (pd_index_id d) (pd_max_sequence d)) g in
              if is_self then Ok g
              else
                match info_in (pl_id f) (pd_id d) with
                | None =>
                    if d_auto_accept source then
                      let* g := match folder_by_id (folders_of m) (pl_id f) with None => add_folder f g | Some _ => Ok g end in
                      Ok (add_folder_info (pl_id f) (pd_index_id d) id g)
                    else Ok (add_pending f d g)
                | Some (fo, fi) =>
                    let g :=
                      if pd_index_id d =? fi_index fi then g
                      else add_folder_info (fd_id (fo_data fo)) (pd_index_id d) id (note_reset fo fi g) in
                    Ok (note_confirmed (fi_key fi) g)
                end
        end
  end.

(** The 2nd pass, for all other devices. *)
Definition second_pass (f : PFolder) (d : PDevice) (g : gathered) : res gathered :=
  if bool_decide (pd_id d = source_sha) || bool_decide (pd_id d = self_sha m) then Ok g
  else
    let* id := from_sha256 (pd_id d) in
    let* id := the id in
    match by_sha256 (mo_devices m) (pd_id d) with
    | None =>
        if d_introducer source && is_shared_with_source (pl_id f) g then introduce_device (pl_id f) d id g else Ok g
    | Some _ =>
        let g := note_device (pd_id d) g in
        match info_in (pl_id f) (pd_id d) with
        | None => Ok (if d_introducer source then add_folder_info (pl_id f) (pd_index_id d) id g else g)
        | Some (_, fi) => Ok (note_confirmed (fi_key fi) g)
        end
    end.

Fixpoint pass_devices (step : PFolder → PDevice → gathered → res gathered) (f : PFolder) (ds : list PDevice) (g : gathered) : res gathered :=
  match ds with [] => Ok g | d :: ds => let* g := step f d g in pass_devices step f ds g end.

Fixpoint pass_folders (step : PFolder → PDevice → gathered → res gathered) (fs : list PFolder) (g : gathered) : res gathered :=
  match fs with [] => Ok g | f :: fs => let* g := pass_devices step f (pl_devices f) g in pass_folders step fs g end.

(** ** What is no longer announced *)

(** Offers of the peer that it did not repeat. *)
Definition withdrawn (g : gathered) : list bytes :=
  map pn_key (filter (λ uf, get_sha256 (pn_device uf) = source_sha ∧ pn_key uf ∉ ga_confirmed_pending g) (mo_pending_folders m)).

(** Folders of the peer that it did not announce. *)
Definition unannounced (g : gathered) : list (folder * folder_info) :=
  filter (λ x, (fi_key x.2 ∉ ga_confirmed g) ∧ fi_max_sequence x.2 ≠ 0) (shared_with (folders_of m) source_sha).

(** Folder infos the peer introduced and did not announce. *)
Definition unintroduced (g : gathered) : list (folder * folder_info) :=
  fo ← folders_of m; fi ← fo_infos fo;
  if is_introduced_by fi (d_id source) && bool_decide (fi_key fi ∉ ga_confirmed g) &&
     bool_decide (fi_get_uuid fi ∉ map (λ x, fi_get_uuid x.2) (unannounced g)) then [(fo, fi)] else [].

(** The devices, and the folder infos of devices that were announced elsewhere, that an introduction is taken back for. *)
Definition removed_introduced (g : gathered) : list bytes * list (folder * folder_info) :=
  if d_skip_introduction_removals source then ([], [])
  else
    (remove_dups (map (λ x, fi_device_sha x.2) (filter (λ x, fi_device_sha x.2 ∉ ga_seen_devices g) (unintroduced g))),
     filter (λ x, fi_device_sha x.2 ∈ ga_seen_devices g) (unintroduced g)).

(** ** The change *)

Fixpoint make_folders (dbs : list DbFolder) (n : nat) : list (diff op) * nat :=
  match dbs with
  | [] => ([], n)
  | db :: dbs => let '(d, n) := new_upsert_folder m sq n db 0 in let '(ds, n) := make_folders dbs n in (d :: ds, n)
  end.

Fixpoint make_removed_peers (shas : list bytes) : res (list (diff op)) :=
  match shas with
  | [] => Ok []
  | sha256 :: shas =>
      let* peer := the (by_sha256 (mo_devices m) sha256) in
      let* d := new_remove_peer m peer in
      let* ds := make_removed_peers shas in
      Ok (d :: ds)
  end.

Fixpoint make_introduced (introduced : list (DbDevice * device_id)) : res (list (diff op)) :=
  match introduced with
  | [] => Ok []
  | (db, id) :: introduced =>
      let* d := new_update_peer m db id in
      let* ds := make_introduced introduced in
      Ok (d :: ds)
  end.

Fixpoint make_infos (infos : list (bytes * Z * device_id)) (n : nat) : list (diff op) :=
  match infos with
  | [] => []
  | (folder_id, index_id, id) :: infos =>
      leaf (UpsertFolderInfo (sq_uuid sq n) (get_sha256 id) (get_key (d_id source)) folder_id index_id) :: make_infos infos (S n)
  end.

(** [upsert_folder_info_t(original, 0)]. *)
Definition reshare (x : folder * folder_info) : diff op :=
  leaf (UpsertFolderInfo (fi_get_uuid x.2) (fi_device_sha x.2) (fi_introducer_device_key x.2) (fd_id (fo_data x.1)) 0).

(** With one set of orphans for what is reset and what is removed. *)
Definition make_removed (reset removed : list (folder * folder_info)) (c : cluster) : res (list (diff op) * list (diff op) * list (diff op)) :=
  let* '(resets, set) :=
    if bool_decide (length reset = 0%nat) then Ok ([], [])
    else let* '(d, set) := new_reset_folder_infos c reset (Some []) in Ok ([d], set) in
  let* '(removals, set) :=
    if bool_decide (length removed = 0%nat) then Ok ([], set)
    else let* '(d, set) := new_remove_folder_infos c removed (Some set) in Ok ([d], set) in
  let* blocks := remove_orphans c set in
  Ok (resets, removals, blocks).

Definition new_cluster_update (message : ClusterConfig) (n : nat) : res (diff op) :=
  let* g := pass_folders first_pass (cc_folders message) (gathered0 n) in
  let* g := pass_folders second_pass (cc_folders message) g in
  let removed_pending := remove_dups (ga_removed_pending g ++ withdrawn g) in
  let '(devices, removed) := removed_introduced g in
  let '(folders, n) := make_folders (ga_folders g) (ga_uuids g) in
  let* peers := make_removed_peers devices in
  let* '(resets, removals, blocks) := make_removed (ga_reset g) (unannounced g ++ removed) (mo_cluster m) in
  let* introduced := make_introduced (ga_introduced g) in
  let* child := assemble diffs_batch
    (folders ++ resets ++ peers ++ removals ++ blocks ++
     (if bool_decide (removed_pending = []) then [] else [leaf (RemovePendingFolders removed_pending)]) ++
     map reshare (unannounced g) ++
     (if bool_decide (length (ga_pending g) = 0%nat) then [] else [leaf (AddPendingFolders (ga_pending g))]) ++
     (if bool_decide (length (ga_views g) = 0%nat) then [] else [leaf (UpdateRemoteViews source_sha (ga_views g))]) ++
     introduced ++ make_infos (ga_infos g) n) in
  Ok (Node (ClusterUpdate source_sha) child Null).
End update.

(** ** Concrete announcements *)

#[local] Existing Instance r_environment.

Definition u_sequencer : sequencer := mkSequencer (λ n, repeat (Z.of_nat n) 16) (λ n, Z.of_nat n).

Definition u_device (d index_id max_sequence : Z) : PDevice := mkPDevice (repeat d 32) [] [] METADATA [] max_sequence false index_id false.

Definition u_folder (id label : bytes) (devices : list PDevice) : PFolder := mkPFolder id label false false false false false devices.

(** The peer of [r_model], as an introducer, or as one whose folders are accepted. *)
Definition u_source (introducer auto_accept : bool) : device :=
  mkDevice (DeviceId.DeviceId [9] (prefix_device :: repeat 9 32)) [] METADATA (Some []) [] [] introducer auto_accept false false
    (mkState 9 offline None) [] [] 0 false.

Definition u_model (introducer auto_accept : bool) : model :=
  with_devices r_model [r_device 1 true; u_source introducer auto_accept; r_device 8 false].

(** A device that is known, announced by an introducer for a folder that is not here, makes the whole change fail. *)
Example introduced_to_unknown_folder :
  let m := u_model true false in
  (let* d := new_cluster_update (λ _, true) [] u_sequencer m (u_source true false)
       (mkClusterConfig [u_folder (chars "h") [] [u_device 9 3 4; u_device 8 5 6]]) 0 in
   apply d m) = Err no_such_folder.
Proof. by vm_compute. Qed.

(** The label of a folder that is accepted automatically is appended to the default path as it is: an absolute one replaces it. *)
Example accepted_folder_escapes :
  let m := u_model false true in
  (let* d := new_cluster_update (λ _, true) (chars "/home/sync") u_sequencer m (u_source false true)
       (mkClusterConfig [u_folder (chars "h") (chars "/etc") [u_device 9 3 4]]) 0 in
   let* m := apply d m in
   let* fo := the (folder_by_id (folders_of m) (chars "h")) in Ok (fd_path (fo_data fo))) = Ok (chars "/etc").
Proof. by vm_compute. Qed.

(** A folder of the peer that is announced with another index loses its files and takes the index. *)
Example announced_with_new_index :
  let m := u_model false false in
  (let* d := new_cluster_update (λ _, true) [] u_sequencer m (u_source false false)
       (mkClusterConfig [u_folder (fd_id (fo_data r_folder)) [] [u_device 9 77 4]]) 0 in
   let* m := apply d m in
   let* fo := the (folder_by_id (folders_of m) (fd_id (fo_data r_folder))) in
   let* fi := the (by_device_id (fo_infos fo) (repeat 9 32)) in
   Ok (fi_index fi, fi_max_sequence fi, fi_files fi, cl_files (mo_cluster m) !! 2%positive)) = Ok (77, 0, [], None).
Proof. vm_compute. reflexivity. Qed.
