(* ===== verification/Wire.v ===== *)
(** * Wire: the big-endian words of the network formats ([boost::endian] as
    [src/proto/relay_support.cpp] and [src/proto/bep_support.cpp] use it). *)

From S2P Require Import Prelude.

(** [native_to_big] of a 16-bit and of a 32-bit word, as bytes in memory. *)
Definition be16 (v : Z) : bytes := [(v / 2 ^ 8) mod 2 ^ 8; v mod 2 ^ 8].
Definition be32 (v : Z) : bytes :=
  [(v / 2 ^ 24) mod 2 ^ 8; (v / 2 ^ 16) mod 2 ^ 8; (v / 2 ^ 8) mod 2 ^ 8; v mod 2 ^ 8].

(** [big_to_native] of the first bytes of a buffer; a read past its end is undefined. *)
Definition read16 (data : bytes) : res Z :=
  match data with a :: b :: _ => Ok (a * 2 ^ 8 + b) | _ => Ub end.
Definition read32 (data : bytes) : res Z :=
  match data with a :: b :: c :: d :: _ => Ok (a * 2 ^ 24 + b * 2 ^ 16 + c * 2 ^ 8 + d) | _ => Ub end.

Lemma read16_be16 v rest : 0 <= v < 2 ^ 16 → read16 (be16 v ++ rest) = Ok v.
Proof.
  intros H. cbn [be16 app read16]. f_equal. rewrite (Z.mod_small (v / 2 ^ 8)).
  - rewrite Z.mul_comm. symmetry. apply Z.div_mod. lia.
  - split; [apply Z.div_pos; lia|apply Z.div_lt_upper_bound; lia].
Qed.

Lemma read32_be32 v rest : 0 <= v < 2 ^ 32 → read32 (be32 v ++ rest) = Ok v.
Proof.
  intros H. cbn [be32 app read32]. f_equal.
  rewrite (Z.mod_small (v / 2 ^ 24)) by (split; [apply Z.div_pos; lia|apply Z.div_lt_upper_bound; lia]).
  replace (v / 2 ^ 24) with (v / 2 ^ 16 / 2 ^ 8) by (by rewrite Z.div_div by lia).
  replace (v / 2 ^ 16) with (v / 2 ^ 8 / 2 ^ 8) by (by rewrite Z.div_div by lia).
  pose proof (Z.div_mod v (2 ^ 8)). pose proof (Z.div_mod (v / 2 ^ 8) (2 ^ 8)).
  pose proof (Z.div_mod (v / 2 ^ 8 / 2 ^ 8) (2 ^ 8)). lia.
Qed.

Lemma length_be16 v : length (be16 v) = 2%nat.
Proof. done. Qed.

Lemma length_be32 v : length (be32 v) = 4%nat.
Proof. done. Qed.

Lemma read32_short data : (length data < 4)%nat → read32 data = Ub.
Proof. destruct data as [|a [|b [|c [|d data]]]]; cbn; intros; try done; lia. Qed.

Lemma read32_long data : (4 <= length data)%nat → ∃ v, read32 data = Ok v.
Proof. destruct data as [|a [|b [|c [|d data]]]]; cbn; intros; try lia. eauto. Qed.
