(* ===== verification/Relay.v ===== *)
(** * Relay: the messages of the relay protocol ([src/proto/relay_support.cpp]): a header of
    magic, type and length in front of the payload. *)

From S2P Require Import Prelude Wire.

(** ** Data *)

(** [message_t]; an IPv4 address is its 32-bit number. *)
Inductive message :=
| ping
| pong
| join_relay_request
| join_session_request (key : bytes)
| response (code : Z) (details : bytes)
| connect_request (device_id : bytes)
| session_invitation (from key : bytes) (address : option Z) (port : Z) (server_socket : bool).

(** [parse_result_t]. *)
Inductive parse_result :=
| incomplete
| protocol_error
| wrapped_message (length : Z) (m : message).

Definition header_sz : nat := 12.
Definition max_packet_sz : Z := 1400.
Definition magic : Z := 2658778176.

(** [type_t] of a message. *)
Definition type_of (m : message) : Z :=
  match m with
  | ping => 0
  | pong => 1
  | join_relay_request => 2
  | join_session_request _ => 3
  | response _ _ => 4
  | connect_request _ => 5
  | session_invitation _ _ _ _ _ => 6
  end.

Definition type_LAST : Z := 6.

(** ** Output *)

Definition size (l : bytes) : Z := Z.of_nat (length l).

(** [serialize_header]. *)
Definition serialize_header (type payload_sz : Z) : bytes := be32 magic ++ be32 type ++ be32 (u32 payload_sz).

(** What [serialize] writes after the header. *)
Definition payload (m : message) : bytes :=
  match m with
  | ping | pong | join_relay_request => []
  | join_session_request key => be32 (u32 (size key)) ++ key
  | response code details => be32 code ++ be32 (u32 (size details)) ++ details
  | connect_request device_id => be32 (u32 (size device_id)) ++ device_id
  | session_invitation from key address port server_socket =>
      let address := match address with Some a => be32 a | None => be32 0 end in
      be32 (u32 (size from)) ++ from ++ be32 (u32 (size key)) ++ key ++ be32 (u32 (size address)) ++ address ++
      be32 port ++ be32 (if server_socket then 1 else 0)
  end.

(** The declared size of the payload; for an invitation it counts four bytes more than are
    written, [resize] leaves zeros there. *)
Definition payload_sz (m : message) : Z :=
  match m with
  | ping | pong | join_relay_request => 0
  | join_session_request key => 4 + size key
  | response _ details => 4 + 4 + size details
  | connect_request device_id => 4 + size device_id
  | session_invitation from key _ _ _ => 4 * 6 + size from + size key + 4
  end.

(** [serialize]: the buffer is resized to the declared size, then written. *)
Definition serialize (m : message) : bytes :=
  serialize_header (type_of m) (payload_sz m) ++ payload m ++
  repeat 0 (Z.to_nat (payload_sz m) - length (payload m)).

(** ** Input *)

Definition parse_join_session_request (data : bytes) : res parse_result :=
  if size data <? 4 then Ok protocol_error
  else
    let* sz := read32 data in
    if size data <? sz + 4 then Ok protocol_error
    else Ok (wrapped_message (Z.of_nat header_sz + size data) (join_session_request (drop 4 data))).

Definition parse_response (data : bytes) : res parse_result :=
  if size data <? 4 * 2 then Ok protocol_error
  else
    let* code := read32 data in
    let* sz := read32 (drop 4 data) in
    if size data <? sz + 4 * 2 then Ok protocol_error
    else Ok (wrapped_message (Z.of_nat header_sz + size data) (response code (take (Z.to_nat sz) (drop 8 data)))).

Definition parse_connect_request (data : bytes) : res parse_result :=
  if size data <? 4 then Ok protocol_error
  else
    let* sz := read32 data in
    if negb (sz + 4 =? size data) then Ok protocol_error
    else Ok (wrapped_message (Z.of_nat header_sz + size data) (connect_request (drop 4 data))).

(** A length and as many bytes; [None] when the data are too short. *)
Definition read_block (data : bytes) : res (option (bytes * bytes)) :=
  if size data <? 4 then Ok None
  else
    let* sz := read32 data in
    let data := drop 4 data in
    if size data <? sz then Ok None
    else Ok (Some (take (Z.to_nat sz) data, drop (Z.to_nat sz) data)).

Definition read_word (data : bytes) : res (option (Z * bytes)) :=
  if size data <? 4 then Ok None
  else let* v := read32 data in Ok (Some (v, drop 4 data)).

Definition parse_session_invitation (orig : bytes) : res parse_result :=
  let* b := read_block orig in
  match b with
  | None => Ok protocol_error
  | Some (from, data) =>
      let* b := read_block data in
      match b with
      | None => Ok protocol_error
      | Some (key, data) =>
          let* b := read_block data in
          match b with
          | None => Ok protocol_error
          | Some (addr, data) =>
              let* ip :=
                if (length addr =? 4)%nat then
                  let* number := read32 addr in
                  Ok (if number =? 0 then None else Some number)
                else Ok None in
              let* b := read_word data in
              match b with
              | None => Ok protocol_error
              | Some (port, data) =>
                  let* b := read_word data in
                  match b with
                  | None => Ok protocol_error
                  | Some (server_socket, _) =>
                      Ok (wrapped_message (Z.of_nat header_sz + size orig)
                            (session_invitation from key ip port (negb (server_socket =? 0))))
                  end
              end
          end
      end
  end.

(** [parse]: the tail that is handed on is all that was received. *)
Definition parse (data : bytes) : res parse_result :=
  if (length data <? header_sz)%nat then Ok incomplete
  else
    let* m := read32 data in
    if negb (m =? magic) then Ok protocol_error
    else
      let* type := read32 (drop 4 data) in
      if type_LAST <? type then Ok protocol_error
      else
        let* sz := read32 (drop 8 data) in
        if max_packet_sz <? sz then Ok protocol_error
        else if size data <? Z.of_nat header_sz + sz then Ok incomplete
        else
          let tail := drop header_sz data in
          match type with
          | 0 => Ok (wrapped_message (Z.of_nat header_sz) ping)
          | 1 => Ok (wrapped_message (Z.of_nat header_sz) pong)
          | 2 => Ok (wrapped_message (Z.of_nat header_sz) join_relay_request)
          | 3 => parse_join_session_request tail
          | 4 => parse_response tail
          | 5 => parse_connect_request tail
          | 6 => parse_session_invitation tail
          | _ => Ok protocol_error
          end.

(** [*s - '0'] on a (signed) [char]. *)
Definition digit_of (c : Z) : Z := (if c <? 128 then c else c - 256) - 48.

(** The accumulation loops of [parse_interval]; leaving the range of [int] is undefined. *)
Fixpoint number (acc : Z) (s : bytes) : res Z :=
  match s with
  | [] => Ok acc
  | c :: s =>
      let acc := acc * 10 + digit_of c in
      if (- 2 ^ 31 <=? acc) && (acc <? 2 ^ 31) then number acc s else Ub
  end.

(** The text before a character, and whether it is there. *)
Fixpoint until (c : Z) (s : bytes) : bytes * option bytes :=
  match s with
  | [] => ([], None)
  | x :: s => if x =? c then ([], Some s) else let '(a, b) := until c s in (x :: a, b)
  end.

(** [parse_interval], in seconds. Without the letter the number before it is not read. *)
Definition parse_interval (s : bytes) : res Z :=
  let '(mins, rest) := match until 109 s with (m, Some rest) => (m, rest) | (_, None) => ([], []) end in
  let* mins := number 0 mins in
  let secs := match until 115 rest with (x, Some _) => x | (_, None) => [] end in
  let* secs := number 0 secs in
  let mins := if (mins =? 0) && (secs =? 0) then 1 else mins in
  Ok (mins * 60 + secs).

(** ** Properties *)

(** Messages that fit: words in range, and a payload no longer than a packet. *)
Definition sendable (m : message) : Prop :=
  payload_sz m <= max_packet_sz ∧
  match m with
  | response code _ => 0 <= code < 2 ^ 32
  | session_invitation _ _ address port _ => 0 <= port < 2 ^ 32 ∧ from_option (λ a, 0 <= a < 2 ^ 32) True address
  | _ => True
  end.

(** The address 0.0.0.0 stands for none. *)
Definition received (m : message) : message :=
  match m with
  | session_invitation from key (Some 0) port server_socket => session_invitation from key None port server_socket
  | _ => m
  end.

Lemma payload_length m : payload_sz m = size (payload m) + match m with session_invitation _ _ _ _ _ => 4 | _ => 0 end.
Proof.
  destruct m as [| | |key|code details|id|from key a port s]; cbn [payload_sz payload]; unfold size;
    rewrite ?length_app, ?length_be32; cbn [length]; try lia.
  destruct a; rewrite ?length_app, ?length_be32; lia.
Qed.

Lemma serialize_length m : size (serialize m) = Z.of_nat header_sz + payload_sz m.
Proof.
  pose proof (payload_length m) as H. unfold serialize, size, serialize_header in *.
  rewrite !length_app, !length_be32, repeat_length. destruct m; unfold header_sz; cbn [length] in *; lia.
Qed.

Lemma size_app l1 l2 : size (l1 ++ l2) = size l1 + size l2.
Proof. unfold size. rewrite length_app. lia. Qed.

Lemma size_nonneg l : 0 <= size l.
Proof. unfold size. lia. Qed.

(** The header of what was received is read back, whatever follows. *)
Lemma parse_header type sz tail :
  0 <= type <= type_LAST → 0 <= sz <= max_packet_sz →
  parse (serialize_header type sz ++ tail) =
    if size tail <? sz then Ok incomplete
    else match type with
         | 0 => Ok (wrapped_message (Z.of_nat header_sz) ping)
         | 1 => Ok (wrapped_message (Z.of_nat header_sz) pong)
         | 2 => Ok (wrapped_message (Z.of_nat header_sz) join_relay_request)
         | 3 => parse_join_session_request tail
         | 4 => parse_response tail
         | 5 => parse_connect_request tail
         | 6 => parse_session_invitation tail
         | _ => Ok protocol_error
         end.
Proof.
  unfold type_LAST, max_packet_sz. intros Ht Hs. unfold parse, serialize_header, u32. rewrite Z.mod_small by lia. rewrite <- !app_assoc.
  replace (length _ <? header_sz)%nat with false by (symmetry; apply Nat.ltb_ge; rewrite !length_app, !length_be32; unfold header_sz; lia).
  rewrite read32_be32 by done. cbn [res_bind]. rewrite Z.eqb_refl. cbn [negb].
  change (drop 4 (be32 magic ++ be32 type ++ be32 sz ++ tail)) with (be32 type ++ be32 sz ++ tail).
  change (drop 8 (be32 magic ++ be32 type ++ be32 sz ++ tail)) with (be32 sz ++ tail).
  change (drop header_sz (be32 magic ++ be32 type ++ be32 sz ++ tail)) with tail.
  rewrite read32_be32 by lia. cbn [res_bind]. unfold type_LAST. destruct (Z.ltb_spec 6 type); [lia|].
  rewrite read32_be32 by lia. cbn [res_bind]. unfold max_packet_sz. destruct (Z.ltb_spec 1400 sz); [lia|].
  rewrite !size_app. unfold size at 1 2 3. rewrite !length_be32. unfold header_sz.
  destruct (Z.ltb_spec (size tail) sz), (Z.ltb_spec (Z.of_nat 4 + (Z.of_nat 4 + (Z.of_nat 4 + size tail))) (Z.of_nat 12 + sz)); try lia; done.
Qed.

Lemma read_block_app l tail : size l < 2 ^ 32 → read_block (be32 (u32 (size l)) ++ l ++ tail) = Ok (Some (l, tail)).
Proof.
  intros Hl. pose proof (size_nonneg l). pose proof (size_nonneg tail). unfold read_block, u32. rewrite Z.mod_small by lia.
  rewrite !size_app. unfold size at 1. rewrite length_be32. destruct (Z.ltb_spec (Z.of_nat 4 + (size l + size tail)) 4); [lia|].
  rewrite read32_be32 by lia. cbn [res_bind]. change (drop 4 (be32 (size l) ++ l ++ tail)) with (l ++ tail).
  rewrite size_app. destruct (Z.ltb_spec (size l + size tail) (size l)); [lia|].
  unfold size. rewrite Nat2Z.id. by rewrite take_app_length, drop_app_length.
Qed.

Lemma read_word_app v tail : 0 <= v < 2 ^ 32 → read_word (be32 v ++ tail) = Ok (Some (v, tail)).
Proof.
  intros Hv. pose proof (size_nonneg tail). unfold read_word. rewrite size_app. unfold size at 1. rewrite length_be32.
  destruct (Z.ltb_spec (Z.of_nat 4 + size tail) 4); [lia|]. by rewrite read32_be32.
Qed.

Lemma type_of_range m : 0 <= type_of m <= type_LAST.
Proof. unfold type_LAST. by destruct m. Qed.

Lemma payload_sz_nonneg m : 0 <= payload_sz m.
Proof. destruct m; cbn [payload_sz]; unfold size; lia. Qed.

(** The invitation, field by field; what follows the last word is ignored. *)
Lemma parse_session_invitation_app from key a port s tail :
  sendable (session_invitation from key a port s) →
  let data := payload (session_invitation from key a port s) ++ tail in
  parse_session_invitation data =
    Ok (wrapped_message (Z.of_nat header_sz + size data) (received (session_invitation from key a port s))).
Proof.
  intros (Hsz & Hp & Ha) data. cbn [payload_sz] in Hsz. unfold max_packet_sz in Hsz.
  pose proof (size_nonneg from). pose proof (size_nonneg key).
  set (addr := match a with Some a => be32 a | None => be32 0 end).
  assert (data = be32 (u32 (size from)) ++ from ++ be32 (u32 (size key)) ++ key ++ be32 (u32 (size addr)) ++ addr ++
    be32 port ++ be32 (if s then 1 else 0) ++ tail) as Hd by (unfold data; cbn [payload]; by rewrite <- !app_assoc).
  assert (size addr = 4) as Haddr by (unfold addr; by destruct a).
  unfold parse_session_invitation. rewrite Hd at 1. rewrite read_block_app by lia. cbn [res_bind].
  rewrite read_block_app by lia. cbn [res_bind]. rewrite read_block_app by lia. cbn [res_bind].
  replace (length addr =? 4)%nat with true by (symmetry; apply Nat.eqb_eq; unfold size in Haddr; lia).
  assert (read32 addr = Ok (default 0 a)) as ->.
  { unfold addr. destruct a as [a|]; cbn [default] in *; [|done]. rewrite <- (app_nil_r (be32 a)). by apply read32_be32. }
  cbn [res_bind]. rewrite read_word_app by done. cbn [res_bind]. rewrite read_word_app by (by destruct s). cbn [res_bind].
  f_equal. f_equal. unfold received. destruct a as [[|a|a]|]; cbn [default from_option id] in *; try (by destruct s).
Qed.

(** What follows the header has the declared size. *)
Definition tail_of (m : message) : bytes := payload m ++ repeat 0 (Z.to_nat (payload_sz m) - length (payload m)).

Lemma tail_size m : size (tail_of m) = payload_sz m.
Proof.
  pose proof (serialize_length m) as Hl. unfold serialize in Hl. fold (tail_of m) in Hl. rewrite size_app in Hl.
  change (size (serialize_header (type_of m) (payload_sz m))) with (Z.of_nat header_sz) in Hl. lia.
Qed.

Lemma tail_payload m : match m with session_invitation _ _ _ _ _ => True | _ => tail_of m = payload m end.
Proof.
  pose proof (payload_length m) as Hp. unfold tail_of. destruct m; try done; unfold size in Hp.
  all: replace (_ - _)%nat with 0%nat by lia; by rewrite app_nil_r.
Qed.

(** Each parser on the tail of its message. *)
Lemma parse_tail m :
  sendable m →
  match m with
  | join_session_request _ => parse_join_session_request (tail_of m)
  | response _ _ => parse_response (tail_of m)
  | connect_request _ => parse_connect_request (tail_of m)
  | session_invitation _ _ _ _ _ => parse_session_invitation (tail_of m)
  | _ => Ok (wrapped_message (Z.of_nat header_sz + payload_sz m) (received m))
  end = Ok (wrapped_message (Z.of_nat header_sz + payload_sz m) (received m)).
Proof.
  intros Hm. pose proof (proj1 Hm) as Hsz. unfold max_packet_sz in Hsz. pose proof (tail_size m) as Ht. pose proof (tail_payload m) as Hp.
  destruct m as [| | |key|code details|id|from key a port s]; try done; try rewrite Hp in *.
  - pose proof (size_nonneg key). cbn [payload payload_sz received] in *.
    unfold parse_join_session_request. rewrite Ht. destruct (Z.ltb_spec (4 + size key) 4); [lia|].
    unfold u32 at 1. rewrite Z.mod_small by lia. rewrite read32_be32 by lia. cbn [res_bind].
    destruct (Z.ltb_spec (4 + size key) (size key + 4)); [lia|]. done.
  - pose proof (size_nonneg details). cbn [payload payload_sz received] in *.
    unfold parse_response. rewrite Ht. destruct (Z.ltb_spec (4 + 4 + size details) (4 * 2)); [lia|].
    rewrite read32_be32 by apply Hm. cbn [res_bind]. unfold u32. rewrite !Z.mod_small by lia.
    change (drop 4 (be32 code ++ be32 (size details) ++ details)) with (be32 (size details) ++ details).
    change (drop 8 (be32 code ++ be32 (size details) ++ details)) with details.
    rewrite read32_be32 by lia. cbn [res_bind]. destruct (Z.ltb_spec (4 + 4 + size details) (size details + 4 * 2)); [lia|].
    replace (Z.to_nat (size details)) with (length details) by (unfold size; lia). by rewrite firstn_all.
  - pose proof (size_nonneg id). cbn [payload payload_sz received] in *.
    unfold parse_connect_request. rewrite Ht. destruct (Z.ltb_spec (4 + size id) 4); [lia|].
    unfold u32 at 1. rewrite Z.mod_small by lia. rewrite read32_be32 by lia. cbn [res_bind].
    destruct (Z.eqb_spec (size id + 4) (4 + size id)); [|lia]. done.
  - unfold tail_of in Ht |- *. rewrite parse_session_invitation_app by done. by rewrite Ht.
Qed.

(** A relay message that fits a packet survives the wire: parsing what [serialize] wrote gives
    the message and the number of bytes back (the address 0.0.0.0 comes back as none), and every
    proper prefix is reported as incomplete, never as an error or as another message. *)
Theorem relay_roundtrip m :
  sendable m →
  parse (serialize m) = Ok (wrapped_message (size (serialize m)) (received m)) ∧
  (∀ n, (n < length (serialize m))%nat → parse (take n (serialize m)) = Ok incomplete).
Proof.
  intros Hm. pose proof (proj1 Hm) as Hsz. pose proof (payload_sz_nonneg m) as H0. pose proof (type_of_range m) as Ht.
  unfold serialize. fold (tail_of m). set (hd := serialize_header (type_of m) (payload_sz m)).
  assert (length hd = header_sz) as Hhd by done. split.
  - rewrite size_app, tail_size. change (size hd) with (Z.of_nat header_sz). unfold hd.
    rewrite parse_header, tail_size, Z.ltb_irrefl by done. pose proof (parse_tail m Hm) as Hp. by destruct m.
  - intros n Hn. destruct (decide (n < header_sz)%nat) as [Hlt|Hge].
    + unfold parse. rewrite (proj2 (Nat.ltb_lt _ _)); [done|]. rewrite length_take. lia.
    + rewrite take_app_ge, Hhd by lia. unfold hd. rewrite parse_header by done. rewrite length_app, Hhd in Hn.
      replace (size (take (n - header_sz) (tail_of m)) <? payload_sz m) with true; [done|]. symmetry. apply Z.ltb_lt.
      rewrite <- (tail_size m). unfold size. rewrite length_take. lia.
Qed.

Example relay_roundtrip_witness :
  let m := session_invitation (repeat 7 32) (chars "key") (Some 2130706433) 22000 true in
  parse (serialize m) = Ok (wrapped_message (size (serialize m)) m).
Proof. refine (proj1 (relay_roundtrip _ _)). split; [done|]. split; [lia|]. cbn. lia. Defined.

(** Two messages in one buffer: [parse] hands the whole rest to the parser of the first one. A
    connect request is refused, the key of a session request swallows the next message. *)
Example parse_pipelined :
  parse (serialize (connect_request [1; 2]) ++ serialize ping) = Ok protocol_error ∧
  parse (serialize (join_session_request [1; 2]) ++ serialize ping) =
    Ok (wrapped_message 30 (join_session_request ([1; 2] ++ serialize ping))).
Proof. split; vm_compute; reflexivity. Qed.

(** An interval without minutes is read as one minute. *)
Example parse_interval_seconds :
  parse_interval (chars "1m30s") = Ok 90 ∧ parse_interval (chars "30s") = Ok 60.
Proof. split; vm_compute; reflexivity. Qed.
