(* ===== verification/Bep.v ===== *)
(** * Bep: the frames of the block exchange protocol ([src/proto/bep_support.cpp]). The encoding of
    the messages themselves (protobuf) and the compression (LZ4) are libraries: they enter as an
    interface with the laws the code relies on. *)

From S2P Require Import Prelude Proto Wire.

(** [proto::MessageType] and [proto::MessageCompression]. *)
Inductive MessageType :=
| CLUSTER_CONFIG | INDEX | INDEX_UPDATE | REQUEST | RESPONSE | DOWNLOAD_PROGRESS | PING | CLOSE | HELLO | UNKNOWN.

#[export] Instance MessageType_eq_dec : EqDecision MessageType.
Proof. solve_decision. Defined.

Inductive MessageCompression := NONE | LZ4.

#[export] Instance MessageCompression_eq_dec : EqDecision MessageCompression.
Proof. solve_decision. Defined.

#[export] Instance Compression_eq_dec : EqDecision Compression.
Proof. solve_decision. Defined.

(** [constants::bep_magic], as bytes on the wire. *)
Definition bep_magic : Z := 782752011.
Definition bep_magic_bytes : bytes := be32 bep_magic.

Definition compression_threshold : Z := 128.

(** [proto::Announce]. *)
Record Announce := mkAnnounce {
  an_id : bytes;
  an_addresses : list bytes;
  an_instance_id : Z;
}.

(** ** The libraries *)

(** [proto::encode], [proto::decode] ([None] when bytes are left over) for the messages that
    travel in frames, for the header, for the greeting and for the announcement; LZ4. *)
Class Codec := {
  body : Type;
  kind : body → MessageType;
  encode : body → bytes;
  decode : MessageType → bytes → option body;
  encode_header : MessageType → MessageCompression → bytes;
  decode_header : bytes → option (MessageType * MessageCompression);
  hello : Type;
  default_hello : hello;
  encode_hello : hello → bytes;
  decode_hello : bytes → option hello;
  encode_announce : Announce → bytes;
  decode_announce : bytes → option Announce;
  LZ4_compress : bytes → bytes;
  LZ4_decompress_safe : bytes → Z → option bytes;
}.

(** What is documented of them: decoding reverses encoding, the header of a frame is a few
    bytes, and decompression into a buffer of the original size reverses compression. *)
Class CodecLaws `{Codec} := {
  kind_framed : ∀ b, kind b ≠ HELLO ∧ kind b ≠ UNKNOWN;
  decode_encode : ∀ b, decode (kind b) (encode b) = Some b;
  decode_encode_header : ∀ t c, decode_header (encode_header t c) = Some (t, c);
  header_length : ∀ t c, (length (encode_header t c) < 256)%nat;
  decode_encode_hello : ∀ m, decode_hello (encode_hello m) = Some m;
  decode_encode_announce : ∀ m, decode_announce (encode_announce m) = Some m;
  decompress_compress : ∀ l, LZ4_decompress_safe (LZ4_compress l) (Z.of_nat (length l)) = Some l;
  compress_nonempty : ∀ l, LZ4_compress l ≠ [];
}.

Section frames.
Context `{Codec}.

(** [message::wrapped_message_t]; an incomplete input gives an empty greeting and 0 bytes. *)
Inductive bep_message :=
| MHello (m : hello)
| MBody (m : body).

Definition nothing : bep_message * Z := (MHello default_hello, 0).

(** ** Frames *)

(** The compression [serialize] applies. *)
Definition applied_compression (t : MessageType) (message_sz : Z) (compression : Compression) : MessageCompression :=
  if (compression_threshold <? message_sz) && negb (bool_decide (compression = NEVER)) then
    if bool_decide (t = RESPONSE) then
      if bool_decide (compression = ALWAYS) then LZ4 else NONE
    else LZ4
  else NONE.

(** [serialize]. *)
Definition serialize (m : body) (compression : Compression) : res bytes :=
  let raw := encode m in
  let message_sz := Z.of_nat (length raw) in
  let applied := applied_compression (kind m) message_sz compression in
  let header := encode_header (kind m) applied in
  let header_sz_16 := be16 (u16 (Z.of_nat (length header))) in
  match applied with
  | NONE => Ok (header_sz_16 ++ header ++ be32 (u32 message_sz) ++ raw)
  | LZ4 =>
      let compressed := LZ4_compress raw in
      let* _ := assert (negb (bool_decide (compressed = []))) in
      let uncompressed_sz := be32 (u32 message_sz) in
      let message_sz := Z.of_nat (length compressed) + 4 in
      Ok (header_sz_16 ++ header ++ be32 (u32 message_sz) ++ uncompressed_sz ++ compressed)
  end.

(** [parse<T>], through the switch on the type: [std::abort] on the types without a frame. *)
Definition parse_msg (t : MessageType) (buff : bytes) (consumed : Z) : res (bep_message * Z) :=
  if bool_decide (t = HELLO) || bool_decide (t = UNKNOWN) then Ub
  else
    match decode t buff with
    | None => Err protobuf_err
    | Some m => Ok (MBody m, consumed + Z.of_nat (length buff))
    end.

(** [parse_hello], on what follows the magic: a declared size below what there is counts as
    incomplete, one above it makes the decoder read past the end. *)
Definition parse_hello (buff : bytes) : res (bep_message * Z) :=
  let* msg_sz := read16 buff in
  let src := drop 2 buff in
  if msg_sz <? Z.of_nat (length src) then Ok nothing
  else
    let* _ := assert (msg_sz <=? Z.of_nat (length src)) in
    match decode_hello (take (Z.to_nat msg_sz) src) with
    | None => Err protobuf_err
    | Some m => Ok (MHello m, msg_sz + 6)
    end.

(** The payload of a frame, compressed or not; [ptr] is the input from the payload on. A compressed
    payload shorter than its size field makes the block size wrap. *)
Definition parse_payload (type : MessageType) (compression : MessageCompression) (ptr : bytes)
    (message_sz consumed : Z) : res (bep_message * Z) :=
  match compression with
  | NONE => parse_msg type (take (Z.to_nat message_sz) ptr) consumed
  | LZ4 =>
      let* uncompr_sz := read32 ptr in
      let* _ := assert (4 <=? message_sz) in
      let block_sz := message_sz - 4 in
      match LZ4_decompress_safe (take (Z.to_nat block_sz) (drop 4 ptr)) uncompr_sz with
      | None => Err lz4_decoding
      | Some msg_bytes =>
          let* '(parsed, _) := parse_msg type msg_bytes 0 in
          Ok (parsed, consumed + message_sz)
      end
  end.

(** [parse_bep]. The size of the payload is read without a check that it has arrived. The header is taken with [subspan] out of a view of
    the first four bytes, beyond whose end it usually reaches; [subspan] does not check and the buffer goes on there, so that the
    model takes it from the buffer. *)
Definition parse_bep (buff : bytes) : res (bep_message * Z) :=
  let sz := Z.of_nat (length buff) in
  if sz <? 4 then Ok nothing
  else if bool_decide (take 4 buff = bep_magic_bytes) then parse_hello (drop 4 buff)
  else
    let* header_sz := read16 buff in
    if sz <? 2 + header_sz then Ok nothing
    else
      match decode_header (take (Z.to_nat header_sz) (drop 2 buff)) with
      | None => Err protobuf_err
      | Some (type, compression) =>
          let ptr := drop (Z.to_nat (2 + header_sz)) buff in
          let* message_sz := read32 ptr in
          let ptr := drop 4 ptr in
          if Z.of_nat (length ptr) <? message_sz then Ok nothing
          else parse_payload type compression ptr message_sz (2 + header_sz + 4)
      end.

(** ** Greetings and announcements *)

(** [make_hello_message], for the greeting that was filled in. *)
Definition make_hello_message (m : hello) : bytes :=
  let raw := encode_hello m in
  bep_magic_bytes ++ be16 (u16 (Z.of_nat (length raw))) ++ raw.

(** [make_announce_message], into a buffer of [buff_sz] bytes: the assertion forgets the magic, a
    write past the end is undefined. *)
Definition make_announce_message (buff_sz : Z) (device_id : bytes) (uris : list bytes) (instance : Z) : res bytes :=
  let raw := encode_announce (mkAnnounce device_id uris instance) in
  let msg_sz := Z.of_nat (length raw) in
  let* _ := assert (msg_sz <=? buff_sz) in
  if buff_sz <? msg_sz + 4 then Ub else Ok (bep_magic_bytes ++ raw).

(** [parse_announce]. *)
Definition parse_announce (buff : bytes) : res Announce :=
  if Z.of_nat (length buff) <=? 4 then Err wrong_magic
  else
    let* m := read32 buff in
    if negb (m =? bep_magic) then Err wrong_magic
    else
      match decode_announce (drop 4 buff) with
      | None => Err protobuf_err
      | Some msg => Ok msg
      end.
End frames.

(** ** Properties *)

Section laws.
Context `{CodecLaws}.

Lemma parse_msg_encode m consumed :
  parse_msg (kind m) (encode m) consumed = Ok (MBody m, consumed + Z.of_nat (length (encode m))).
Proof.
  destruct (kind_framed m) as [H1 H2]. unfold parse_msg. rewrite !bool_decide_eq_false_2 by done. cbn [orb].
  by rewrite decode_encode.
Qed.

(** A frame is not a greeting: its header is short. *)
Lemma frame_not_magic t c rest : take 4 (be16 (Z.of_nat (length (encode_header t c))) ++ rest) ≠ bep_magic_bytes.
Proof.
  pose proof (header_length t c) as Hl. cbn [be16 app take]. rewrite Z.div_small by lia. by intros [=].
Qed.

(** The head of a frame is read back, up to its payload. *)
Lemma parse_bep_head t c message_sz tail :
  0 <= message_sz < 2 ^ 32 → message_sz <= Z.of_nat (length tail) →
  parse_bep (be16 (u16 (Z.of_nat (length (encode_header t c)))) ++ encode_header t c ++ be32 message_sz ++ tail) =
    parse_payload t c tail message_sz (2 + Z.of_nat (length (encode_header t c)) + 4).
Proof.
  intros Hsz Hlen. pose proof (header_length t c) as Hh. set (hd := encode_header t c) in *.
  unfold u16. rewrite Z.mod_small by lia. unfold parse_bep.
  rewrite !length_app, length_be16, length_be32.
  destruct (Z.ltb_spec (Z.of_nat (2 + (length hd + (4 + length tail)))) 4); [lia|].
  rewrite bool_decide_eq_false_2 by apply frame_not_magic. rewrite read16_be16 by lia. cbn [res_bind].
  destruct (Z.ltb_spec (Z.of_nat (2 + (length hd + (4 + length tail)))) (2 + Z.of_nat (length hd))); [lia|].
  change (drop 2 (be16 (Z.of_nat (length hd)) ++ hd ++ be32 message_sz ++ tail)) with (hd ++ be32 message_sz ++ tail).
  rewrite Nat2Z.id, take_app_length. unfold hd at 1. rewrite decode_encode_header. fold hd.
  replace (Z.to_nat (2 + Z.of_nat (length hd))) with (2 + length hd)%nat by lia. rewrite <- drop_drop.
  change (drop 2 (be16 (Z.of_nat (length hd)) ++ hd ++ be32 message_sz ++ tail)) with (hd ++ be32 message_sz ++ tail).
  rewrite drop_app_length, read32_be32 by done. cbn [res_bind].
  change (drop 4 (be32 message_sz ++ tail)) with tail. by destruct (Z.ltb_spec (Z.of_nat (length tail)) message_sz); [lia|].
Qed.

(** A frame is read back, whatever follows it. *)
Lemma frame_parses m compression rest :
  Z.of_nat (length (encode m)) < 2 ^ 31 → Z.of_nat (length (LZ4_compress (encode m))) < 2 ^ 31 →
  ∃ frame, serialize m compression = Ok frame ∧
    parse_bep (frame ++ rest) = Ok (MBody m, Z.of_nat (length frame)).
Proof.
  intros Hl Hc. unfold serialize. set (a := applied_compression _ _ _). unfold u32.
  rewrite (Z.mod_small (Z.of_nat (length (encode m)))) by lia. destruct a.
  - eexists. split; [done|]. rewrite <- !app_assoc, parse_bep_head by (rewrite ?length_app; lia).
    cbn [parse_payload]. rewrite Nat2Z.id, take_app_length, parse_msg_encode. f_equal. f_equal.
    rewrite !length_app, length_be16, length_be32. lia.
  - rewrite bool_decide_eq_false_2 by apply compress_nonempty. cbn [negb assert res_bind].
    set (z := LZ4_compress (encode m)) in *. rewrite Z.mod_small by lia.
    eexists. split; [done|]. rewrite <- !app_assoc, parse_bep_head by (rewrite ?length_app, ?length_be32; lia).
    cbn [parse_payload]. rewrite read32_be32 by lia. cbn [res_bind].
    destruct (Z.leb_spec 4 (Z.of_nat (length z) + 4)); [|lia]. cbn [assert res_bind].
    change (drop 4 (be32 (Z.of_nat (length (encode m))) ++ z ++ rest)) with (z ++ rest).
    replace (Z.to_nat (Z.of_nat (length z) + 4 - 4)) with (length z) by lia. rewrite take_app_length. unfold z at 1.
    rewrite decompress_compress, parse_msg_encode. cbn [res_bind]. f_equal. f_equal.
    rewrite !length_app, length_be16, !length_be32. lia.
Qed.

(** C35: a message survives the wire, whatever compression the connection asks for and whatever
    follows it in the buffer: parsing the frame gives the message back and consumes exactly the
    frame. *)
Theorem bep_roundtrip m compression rest :
  Z.of_nat (length (encode m)) < 2 ^ 31 → Z.of_nat (length (LZ4_compress (encode m))) < 2 ^ 31 →
  ∃ frame, serialize m compression = Ok frame ∧
    parse_bep (frame ++ rest) = Ok (MBody m, Z.of_nat (length frame)).
Proof. apply frame_parses. Qed.

(** A greeting is understood only when it arrives alone and whole: with anything behind it
    nothing is consumed, and cut short (after its size) the decoder reads past the end of the
    buffer. The test of the size is the wrong way round. *)
Theorem hello_only_alone m rest n :
  Z.of_nat (length (encode_hello m)) < 2 ^ 16 →
  let frame := make_hello_message m in
  parse_bep frame = Ok (MHello m, Z.of_nat (length frame)) ∧
  (rest ≠ [] → parse_bep (frame ++ rest) = Ok nothing) ∧
  ((4 <= n < length frame)%nat → parse_bep (take n frame) = Ub).
Proof.
  intros Hl frame. unfold frame, make_hello_message, u16. rewrite Z.mod_small by lia. set (raw := encode_hello m) in *.
  assert (∀ tail, parse_bep (bep_magic_bytes ++ tail) = parse_hello tail) as Hm.
  { intros tail. unfold parse_bep. rewrite length_app. destruct (Z.ltb_spec (Z.of_nat (length bep_magic_bytes + length tail)) 4) as [Hlt|].
    - change (length bep_magic_bytes) with 4%nat in Hlt. lia.
    - rewrite bool_decide_eq_true_2; done. }
  assert (∀ tail, parse_hello (be16 (Z.of_nat (length raw)) ++ tail) =
    if Z.of_nat (length raw) <? Z.of_nat (length tail) then Ok nothing
    else let* _ := assert (Z.of_nat (length raw) <=? Z.of_nat (length tail)) in
         match decode_hello (take (length raw) tail) with
         | None => Err protobuf_err | Some m => Ok (MHello m, Z.of_nat (length raw) + 6) end) as Hh.
  { intros tail. unfold parse_hello. rewrite read16_be16 by lia. cbn [res_bind].
    change (drop 2 (be16 (Z.of_nat (length raw)) ++ tail)) with tail. by rewrite Nat2Z.id. }
  split_and!.
  - rewrite Hm, Hh, Z.ltb_irrefl, Z.leb_refl. cbn [assert res_bind]. rewrite firstn_all. unfold raw at 1.
    rewrite decode_encode_hello. f_equal. f_equal. rewrite !length_app. change (length bep_magic_bytes) with 4%nat. rewrite length_be16. lia.
  - intros Hr. rewrite <- !app_assoc, Hm, Hh. rewrite length_app. destruct rest as [|r rest]; [done|]. cbn [length].
    by destruct (Z.ltb_spec (Z.of_nat (length raw)) (Z.of_nat (length raw + S (length rest)))); [|lia].
  - rewrite !length_app, length_be16. change (length bep_magic_bytes) with 4%nat. intros Hn.
    rewrite take_app_ge by (change (length bep_magic_bytes) with 4%nat; lia). change (length bep_magic_bytes) with 4%nat. rewrite Hm.
    destruct (decide (n < 6)%nat) as [Hlt|Hge].
    + assert (n = 4 ∨ n = 5)%nat as [-> | ->] by lia; done.
    + rewrite take_app_ge by (rewrite length_be16; lia). rewrite length_be16, Hh, length_take.
      destruct (Z.ltb_spec (Z.of_nat (length raw)) (Z.of_nat (Nat.min (n - 4 - 2) (length raw)))); [lia|].
      destruct (Z.leb_spec (Z.of_nat (length raw)) (Z.of_nat (Nat.min (n - 4 - 2) (length raw)))); [lia|]. done.
Qed.

(** An announcement is read back; the buffer must have room for the magic, too. *)
Lemma announce_roundtrip buff_sz id uris instance :
  let raw := encode_announce (mkAnnounce id uris instance) in
  raw ≠ [] → Z.of_nat (length raw) + 4 <= buff_sz →
  ∃ packet, make_announce_message buff_sz id uris instance = Ok packet ∧
    parse_announce packet = Ok (mkAnnounce id uris instance).
Proof.
  intros raw Hne Hsz. unfold make_announce_message. fold raw.
  destruct (Z.leb_spec (Z.of_nat (length raw)) buff_sz); [|lia]. cbn [assert res_bind].
  destruct (Z.ltb_spec buff_sz (Z.of_nat (length raw) + 4)); [lia|]. eexists. split; [done|].
  unfold parse_announce. rewrite length_app. change (length bep_magic_bytes) with 4%nat.
  destruct raw as [|x raw'] eqn:Hr; [done|]. cbn [length]. destruct (Z.leb_spec (Z.of_nat (4 + S (length raw'))) 4); [lia|].
  unfold bep_magic_bytes. rewrite read32_be32 by done. cbn [res_bind]. rewrite Z.eqb_refl. cbn [negb].
  change (drop 4 (be32 bep_magic ++ x :: raw')) with (x :: raw'). rewrite <- Hr. unfold raw. by rewrite decode_encode_announce.
Qed.
End laws.

(** ** A concrete codec *)

Definition type_code (t : MessageType) : Z :=
  match t with
  | CLUSTER_CONFIG => 0 | INDEX => 1 | INDEX_UPDATE => 2 | REQUEST => 3 | RESPONSE => 4
  | DOWNLOAD_PROGRESS => 5 | PING => 6 | CLOSE => 7 | HELLO => 8 | UNKNOWN => 9
  end.

Definition type_of_code (z : Z) : MessageType :=
  match z with
  | 0 => CLUSTER_CONFIG | 1 => INDEX | 2 => INDEX_UPDATE | 3 => REQUEST | 4 => RESPONSE
  | 5 => DOWNLOAD_PROGRESS | 6 => PING | 7 => CLOSE | 8 => HELLO | _ => UNKNOWN
  end.

(** Texts with their lengths in front. *)
Fixpoint split_sized (fuel : nat) (l : bytes) : list bytes :=
  match fuel, l with
  | S fuel, n :: l => take (Z.to_nat n) l :: split_sized fuel (drop (Z.to_nat n) l)
  | _, _ => []
  end.

Lemma split_sized_join ls : ∀ fuel,
  (length (ls ≫= λ a : bytes, Z.of_nat (length a) :: a) <= fuel)%nat →
  split_sized fuel (ls ≫= λ a, Z.of_nat (length a) :: a) = ls.
Proof.
  induction ls as [|a ls IH]; intros [|fuel] Hf; cbn [mbind list_bind app length] in *; try done; [lia|].
  cbn [split_sized]. rewrite Nat2Z.id, take_app_length, drop_app_length. f_equal. apply IH.
  rewrite length_app in Hf. lia.
Qed.

(** Messages are responses and indices with raw bytes, compression puts a zero in front. *)
#[local] Instance sample_codec : Codec := {|
  body := bool * bytes;
  kind := λ b, if fst b then RESPONSE else INDEX;
  encode := snd;
  decode := λ t l, Some (bool_decide (t = RESPONSE), l);
  encode_header := λ t c, [type_code t; if bool_decide (c = LZ4) then 1 else 0];
  decode_header := λ l, match l with [t; c] => Some (type_of_code t, if c =? 1 then LZ4 else NONE) | _ => None end;
  hello := bytes;
  default_hello := [];
  encode_hello := λ m, m;
  decode_hello := Some;
  encode_announce := λ m, an_instance_id m :: Z.of_nat (length (an_id m)) :: an_id m ++
    (an_addresses m ≫= λ a, Z.of_nat (length a) :: a);
  decode_announce := λ l, match l with
    | z :: n :: l => Some (mkAnnounce (take (Z.to_nat n) l) (split_sized (length l) (drop (Z.to_nat n) l)) z)
    | _ => None end;
  LZ4_compress := λ l, 0 :: l;
  LZ4_decompress_safe := λ l n, if Z.of_nat (length (tail l)) =? n then Some (tail l) else None;
|}.

#[local] Instance sample_laws : CodecLaws.
Proof.
  split; cbn.
  - by intros [[] l].
  - by intros [[] l].
  - by intros [] [].
  - intros t c. lia.
  - done.
  - intros [id addresses z]. cbn. rewrite Nat2Z.id, take_app_length, drop_app_length, split_sized_join; [done|].
    rewrite length_app. lia.
  - intros l. by rewrite Z.eqb_refl.
  - done.
Qed.

Example bep_roundtrip_witness :
  ∃ frame, serialize (true, repeat 5 300) ALWAYS = Ok frame ∧
    parse_bep (frame ++ [1; 2; 3]) = Ok (MBody (true, repeat 5 300), Z.of_nat (length frame)).
Proof.
  apply (bep_roundtrip (H0 := sample_laws) (true, repeat 5 300) ALWAYS [1; 2; 3]); cbn [encode LZ4_compress sample_codec snd length]; rewrite repeat_length; lia.
Defined.

Example hello_only_alone_witness :
  parse_bep (make_hello_message (chars "me")) = Ok (MHello (chars "me"), 8) ∧
  parse_bep (make_hello_message (chars "me") ++ [1]) = Ok nothing ∧
  parse_bep (take 7 (make_hello_message (chars "me"))) = Ub.
Proof.
  destruct (hello_only_alone (H0 := sample_laws) (chars "me") [1] 7) as (H1 & H2 & H3); [cbn; lia|].
  split_and!; [exact H1|by apply H2|apply H3; cbn; lia].
Defined.

(** A frame cut between its header and the size of its payload: the size is read from behind the
    buffer. *)
Example parse_bep_short : parse_bep [0; 2; 1; 0; 0; 0] = Ub.
Proof. reflexivity. Qed.

(** The assertion on the buffer of an announcement lets four bytes too few pass. *)
Example make_announce_overflow : make_announce_message 4 [1; 2] [] 7 = Ub.
Proof. reflexivity. Qed.
