(* ===== verification/Controller.v ===== *)
(** * Controller: [src/net/controller_actor.cpp]: the actor that talks to one peer once it is online. It sends the cluster
    configuration and index updates, asks for the blocks of the files that are to be synchronised, has them hashed and
    written, answers requests for blocks, and follows every change of the cluster. *)

From S2P Require Import Prelude Diff Version Proto DeviceId Device Blocks FileInfo FileStore FileMap GenericMap Folder.
From S2P Require Import Resolver BlockMap UpdateFolder ApplyUpdate Caches Streamer FileIterator Advance Cluster Changes Trees ClusterUpdate Wire Bep.

(** ** Messages of the protocol *)

Record Request := mkRequest {
  rq_id : Z;
  rq_folder : bytes;
  rq_name : bytes;
  rq_offset : Z;
  rq_size : Z;
  rq_hash : bytes;
}.

Record Response := mkResponse {
  rp_id : Z;
  rp_data : bytes;
  rp_code : Z;
}.

(** [proto::ErrorCode]. *)
Definition NO_BEP_ERROR : Z := 0.
Definition GENERIC : Z := 1.
Definition NO_SUCH_FILE : Z := 2.

(** What is forwarded from the peer, and what is sent to it. *)
Inductive peer_message :=
| MClusterConfig (m : ClusterConfig)
| MIndex (m : IndexBase)
| MIndexUpdate (m : IndexBase)
| MRequest (m : Request)
| MResponse (m : Response).

(** ** Requests to the file system: [fs/messages.h] *)

(** [file_context_t]. *)
Record file_context := mkFileContext {
  fc_file : file_ptr;
  fc_folder_id : bytes;
  fc_peer_id : bytes;
  fc_action : advance_action;
}.

(** [block_ack_context_t]; what is read of it later never changes. *)
Record block_ack_context := mkAckContext {
  ac_folder_id : bytes;
  ac_device_id : bytes;
  ac_name : bytes;
  ac_hash : bytes;
  ac_index : Z;
}.

(** [peer_request_context_t]. *)
Record peer_request := mkPeerRequest {
  pr_request : Request;
  pr_sequence : Z;
  pr_block_index : Z;
}.

Inductive io_command :=
| block_request (context : Request) (path : bytes) (offset block_size : Z)
| remote_copy_file (context : file_context) (folder_id path conflict_path : bytes) (type : FileInfoType) (size permissions modified_s : Z)
    (symlink_target : bytes) (deleted no_permissions : bool)
| finish_file (context : file_context) (folder_id path conflict_path : bytes) (file_size modified_s permissions : Z) (no_permissions : bool)
| append_block (context : block_ack_context) (folder_id path data : bytes) (offset file_size : Z)
| clone_block (context : block_ack_context) (folder_id path : bytes) (target_offset target_size : Z) (source : bytes) (source_offset block_size : Z)
| update_meta (context : file_context) (folder_id path : bytes) (modified_s permissions : Z) (no_permissions : bool).

(** ** What the controller keeps *)

(** [folder_synchronization_t]: the blocks that are being fetched, with the count of their guard. *)
Record folder_sync := mkFolderSync {
  fs_blocks : gmap bytes (block_ptr * nat);
  fs_synchronizing : bool;
}.

(** [file_info_t::guard_t]; [forget] drops the folder info. *)
Record guard := mkGuard {
  gd_finished : bool;
  gd_file : file_ptr;
  gd_path : bytes;
  gd_info : option (bytes * bytes);
}.

(** [blocks_iterator_t] with its source, which never changes its full id, the id of the source folder and the device. *)
Record block_source := mkBlockSource {
  bs_file : file_ptr;
  bs_id : bytes;
  bs_folder_id : bytes;
  bs_device_id : bytes;
  bs_it : block_iterator;
}.

Record controller_config := mkControllerConfig {
  cc_blocks_max_requested : nat;
  cc_outgoing_buffer_max : Z;
  cc_advances_per_iteration : Z;
}.

Record controller := mkController {
  ct_peer_state : device_state;
  ct_peer_address : bool;
  ct_operational : bool;
  ct_shutdown : bool;
  ct_outgoing_buffer : Z;
  ct_rx : Z;
  ct_tx : Z;
  ct_request_pool : Z;
  ct_streamer : option streamer;
  ct_file_iterator : bool;
  ct_block_iterator : option block_source;
  ct_sync_folders : list (bytes * bytes * folder_sync);
  ct_sync_files : list (bytes * guard);
  ct_postponed : postponed_files;
  ct_write_queue : list io_command;
  ct_read_queue : list io_command;
  ct_requests : list (option peer_request);
  ct_requests_next : nat;
  ct_fs_requests : Z;
  ct_hashing : Z;
  ct_peer_linked : bool;
  ct_announced : bool;
}.

(** What leaves the actor. *)
Inductive effect :=
| SendIo (commands : list io_command)
| SendUpdate (changes : diff op)
| SendPeer (messages : list peer_message)
| CalcDigest (data : bytes) (block_index : Z) (context : peer_request)
| ControllerUp
| ControllerPredown (announced : bool)
| ControllerDown.

(** [stack_context_t] and [update_context_t]; [cx_data] are the messages whose frames make up [peer_data]. *)
Record context := mkContext {
  cx_io : list io_command;
  cx_diffs : assembler (A := op);
  cx_data : list peer_message;
  cx_size : Z;
  cx_locked : list block_ptr;
  cx_from_self : bool;
  cx_config_sent : bool;
}.

(** The cluster is shared with other actors, with its locked paths and its write requests; [wd_calls] counts the changes
    that were made, each of which takes its uuids from a stream of its own. *)
Record world := mkWorld {
  wd_model : model;
  wd_locked : gset bytes;
  wd_write_requests : Z;
  wd_calls : nat;
  wd_ctl : controller;
  wd_out : list effect;
}.

Definition set_model (w : world) (m : model) : world := mkWorld m (wd_locked w) (wd_write_requests w) (wd_calls w) (wd_ctl w) (wd_out w).
Definition set_locked (w : world) (l : gset bytes) : world := mkWorld (wd_model w) l (wd_write_requests w) (wd_calls w) (wd_ctl w) (wd_out w).
Definition set_write_requests (w : world) (n : Z) : world := mkWorld (wd_model w) (wd_locked w) n (wd_calls w) (wd_ctl w) (wd_out w).
Definition next_call (w : world) : world := mkWorld (wd_model w) (wd_locked w) (wd_write_requests w) (S (wd_calls w)) (wd_ctl w) (wd_out w).
Definition set_ctl (w : world) (c : controller) : world := mkWorld (wd_model w) (wd_locked w) (wd_write_requests w) (wd_calls w) c (wd_out w).
Definition emit (w : world) (e : effect) : world := mkWorld (wd_model w) (wd_locked w) (wd_write_requests w) (wd_calls w) (wd_ctl w) (wd_out w ++ [e]).

Definition push_io (cx : context) (c : io_command) : context :=
  mkContext (cx_io cx ++ [c]) (cx_diffs cx) (cx_data cx) (cx_size cx) (cx_locked cx) (cx_from_self cx) (cx_config_sent cx).
Definition set_diffs (cx : context) (a : assembler) : context :=
  mkContext (cx_io cx) a (cx_data cx) (cx_size cx) (cx_locked cx) (cx_from_self cx) (cx_config_sent cx).
Definition push_message (cx : context) (d : peer_message) (size : Z) : context :=
  mkContext (cx_io cx) (cx_diffs cx) (cx_data cx ++ [d]) (cx_size cx + size) (cx_locked cx) (cx_from_self cx) (cx_config_sent cx).
Definition note_locked (cx : context) (p : block_ptr) : context :=
  mkContext (cx_io cx) (cx_diffs cx) (cx_data cx) (cx_size cx) (p :: cx_locked cx) (cx_from_self cx) (cx_config_sent cx).
Definition note_config_sent (cx : context)  : context :=
  mkContext (cx_io cx) (cx_diffs cx) (cx_data cx) (cx_size cx) (cx_locked cx) (cx_from_self cx) true.

(** Setting one field of the controller. *)
Definition set_peer_address (w : world) (x : bool) : world :=
  let c := wd_ctl w in
  set_ctl w (mkController (ct_peer_state c) x (ct_operational c) (ct_shutdown c) (ct_outgoing_buffer c) (ct_rx c) (ct_tx c) (ct_request_pool c) (ct_streamer c) (ct_file_iterator c) (ct_block_iterator c) (ct_sync_folders c) (ct_sync_files c) (ct_postponed c) (ct_write_queue c) (ct_read_queue c) (ct_requests c) (ct_requests_next c) (ct_fs_requests c) (ct_hashing c) (ct_peer_linked c) (ct_announced c)).
Definition set_operational (w : world) (x : bool) : world :=
  let c := wd_ctl w in
  set_ctl w (mkController (ct_peer_state c) (ct_peer_address c) x (ct_shutdown c) (ct_outgoing_buffer c) (ct_rx c) (ct_tx c) (ct_request_pool c) (ct_streamer c) (ct_file_iterator c) (ct_block_iterator c) (ct_sync_folders c) (ct_sync_files c) (ct_postponed c) (ct_write_queue c) (ct_read_queue c) (ct_requests c) (ct_requests_next c) (ct_fs_requests c) (ct_hashing c) (ct_peer_linked c) (ct_announced c)).
Definition set_shutdown (w : world) (x : bool) : world :=
  let c := wd_ctl w in
  set_ctl w (mkController (ct_peer_state c) (ct_peer_address c) (ct_operational c) x (ct_outgoing_buffer c) (ct_rx c) (ct_tx c) (ct_request_pool c) (ct_streamer c) (ct_file_iterator c) (ct_block_iterator c) (ct_sync_folders c) (ct_sync_files c) (ct_postponed c) (ct_write_queue c) (ct_read_queue c) (ct_requests c) (ct_requests_next c) (ct_fs_requests c) (ct_hashing c) (ct_peer_linked c) (ct_announced c)).
Definition set_outgoing_buffer (w : world) (x : Z) : world :=
  let c := wd_ctl w in
  set_ctl w (mkController (ct_peer_state c) (ct_peer_address c) (ct_operational c) (ct_shutdown c) x (ct_rx c) (ct_tx c) (ct_request_pool c) (ct_streamer c) (ct_file_iterator c) (ct_block_iterator c) (ct_sync_folders c) (ct_sync_files c) (ct_postponed c) (ct_write_queue c) (ct_read_queue c) (ct_requests c) (ct_requests_next c) (ct_fs_requests c) (ct_hashing c) (ct_peer_linked c) (ct_announced c)).
Definition set_rx (w : world) (x : Z) : world :=
  let c := wd_ctl w in
  set_ctl w (mkController (ct_peer_state c) (ct_peer_address c) (ct_operational c) (ct_shutdown c) (ct_outgoing_buffer c) x (ct_tx c) (ct_request_pool c) (ct_streamer c) (ct_file_iterator c) (ct_block_iterator c) (ct_sync_folders c) (ct_sync_files c) (ct_postponed c) (ct_write_queue c) (ct_read_queue c) (ct_requests c) (ct_requests_next c) (ct_fs_requests c) (ct_hashing c) (ct_peer_linked c) (ct_announced c)).
Definition set_tx (w : world) (x : Z) : world :=
  let c := wd_ctl w in
  set_ctl w (mkController (ct_peer_state c) (ct_peer_address c) (ct_operational c) (ct_shutdown c) (ct_outgoing_buffer c) (ct_rx c) x (ct_request_pool c) (ct_streamer c) (ct_file_iterator c) (ct_block_iterator c) (ct_sync_folders c) (ct_sync_files c) (ct_postponed c) (ct_write_queue c) (ct_read_queue c) (ct_requests c) (ct_requests_next c) (ct_fs_requests c) (ct_hashing c) (ct_peer_linked c) (ct_announced c)).
Definition set_request_pool (w : world) (x : Z) : world :=
  let c := wd_ctl w in
  set_ctl w (mkController (ct_peer_state c) (ct_peer_address c) (ct_operational c) (ct_shutdown c) (ct_outgoing_buffer c) (ct_rx c) (ct_tx c) x (ct_streamer c) (ct_file_iterator c) (ct_block_iterator c) (ct_sync_folders c) (ct_sync_files c) (ct_postponed c) (ct_write_queue c) (ct_read_queue c) (ct_requests c) (ct_requests_next c) (ct_fs_requests c) (ct_hashing c) (ct_peer_linked c) (ct_announced c)).
Definition set_streamer (w : world) (x : option streamer) : world :=
  let c := wd_ctl w in
  set_ctl w (mkController (ct_peer_state c) (ct_peer_address c) (ct_operational c) (ct_shutdown c) (ct_outgoing_buffer c) (ct_rx c) (ct_tx c) (ct_request_pool c) x (ct_file_iterator c) (ct_block_iterator c) (ct_sync_folders c) (ct_sync_files c) (ct_postponed c) (ct_write_queue c) (ct_read_queue c) (ct_requests c) (ct_requests_next c) (ct_fs_requests c) (ct_hashing c) (ct_peer_linked c) (ct_announced c)).
Definition set_file_iterator (w : world) (x : bool) : world :=
  let c := wd_ctl w in
  set_ctl w (mkController (ct_peer_state c) (ct_peer_address c) (ct_operational c) (ct_shutdown c) (ct_outgoing_buffer c) (ct_rx c) (ct_tx c) (ct_request_pool c) (ct_streamer c) x (ct_block_iterator c) (ct_sync_folders c) (ct_sync_files c) (ct_postponed c) (ct_write_queue c) (ct_read_queue c) (ct_requests c) (ct_requests_next c) (ct_fs_requests c) (ct_hashing c) (ct_peer_linked c) (ct_announced c)).
Definition set_block_iterator (w : world) (x : option block_source) : world :=
  let c := wd_ctl w in
  set_ctl w (mkController (ct_peer_state c) (ct_peer_address c) (ct_operational c) (ct_shutdown c) (ct_outgoing_buffer c) (ct_rx c) (ct_tx c) (ct_request_pool c) (ct_streamer c) (ct_file_iterator c) x (ct_sync_folders c) (ct_sync_files c) (ct_postponed c) (ct_write_queue c) (ct_read_queue c) (ct_requests c) (ct_requests_next c) (ct_fs_requests c) (ct_hashing c) (ct_peer_linked c) (ct_announced c)).
Definition set_sync_folders (w : world) (x : list (bytes * bytes * folder_sync)) : world :=
  let c := wd_ctl w in
  set_ctl w (mkController (ct_peer_state c) (ct_peer_address c) (ct_operational c) (ct_shutdown c) (ct_outgoing_buffer c) (ct_rx c) (ct_tx c) (ct_request_pool c) (ct_streamer c) (ct_file_iterator c) (ct_block_iterator c) x (ct_sync_files c) (ct_postponed c) (ct_write_queue c) (ct_read_queue c) (ct_requests c) (ct_requests_next c) (ct_fs_requests c) (ct_hashing c) (ct_peer_linked c) (ct_announced c)).
Definition set_sync_files (w : world) (x : list (bytes * guard)) : world :=
  let c := wd_ctl w in
  set_ctl w (mkController (ct_peer_state c) (ct_peer_address c) (ct_operational c) (ct_shutdown c) (ct_outgoing_buffer c) (ct_rx c) (ct_tx c) (ct_request_pool c) (ct_streamer c) (ct_file_iterator c) (ct_block_iterator c) (ct_sync_folders c) x (ct_postponed c) (ct_write_queue c) (ct_read_queue c) (ct_requests c) (ct_requests_next c) (ct_fs_requests c) (ct_hashing c) (ct_peer_linked c) (ct_announced c)).
Definition set_postponed (w : world) (x : postponed_files) : world :=
  let c := wd_ctl w in
  set_ctl w (mkController (ct_peer_state c) (ct_peer_address c) (ct_operational c) (ct_shutdown c) (ct_outgoing_buffer c) (ct_rx c) (ct_tx c) (ct_request_pool c) (ct_streamer c) (ct_file_iterator c) (ct_block_iterator c) (ct_sync_folders c) (ct_sync_files c) x (ct_write_queue c) (ct_read_queue c) (ct_requests c) (ct_requests_next c) (ct_fs_requests c) (ct_hashing c) (ct_peer_linked c) (ct_announced c)).
Definition set_write_queue (w : world) (x : list io_command) : world :=
  let c := wd_ctl w in
  set_ctl w (mkController (ct_peer_state c) (ct_peer_address c) (ct_operational c) (ct_shutdown c) (ct_outgoing_buffer c) (ct_rx c) (ct_tx c) (ct_request_pool c) (ct_streamer c) (ct_file_iterator c) (ct_block_iterator c) (ct_sync_folders c) (ct_sync_files c) (ct_postponed c) x (ct_read_queue c) (ct_requests c) (ct_requests_next c) (ct_fs_requests c) (ct_hashing c) (ct_peer_linked c) (ct_announced c)).
Definition set_read_queue (w : world) (x : list io_command) : world :=
  let c := wd_ctl w in
  set_ctl w (mkController (ct_peer_state c) (ct_peer_address c) (ct_operational c) (ct_shutdown c) (ct_outgoing_buffer c) (ct_rx c) (ct_tx c) (ct_request_pool c) (ct_streamer c) (ct_file_iterator c) (ct_block_iterator c) (ct_sync_folders c) (ct_sync_files c) (ct_postponed c) (ct_write_queue c) x (ct_requests c) (ct_requests_next c) (ct_fs_requests c) (ct_hashing c) (ct_peer_linked c) (ct_announced c)).
Definition set_requests (w : world) (x : list (option peer_request)) : world :=
  let c := wd_ctl w in
  set_ctl w (mkController (ct_peer_state c) (ct_peer_address c) (ct_operational c) (ct_shutdown c) (ct_outgoing_buffer c) (ct_rx c) (ct_tx c) (ct_request_pool c) (ct_streamer c) (ct_file_iterator c) (ct_block_iterator c) (ct_sync_folders c) (ct_sync_files c) (ct_postponed c) (ct_write_queue c) (ct_read_queue c) x (ct_requests_next c) (ct_fs_requests c) (ct_hashing c) (ct_peer_linked c) (ct_announced c)).
Definition set_requests_next (w : world) (x : nat) : world :=
  let c := wd_ctl w in
  set_ctl w (mkController (ct_peer_state c) (ct_peer_address c) (ct_operational c) (ct_shutdown c) (ct_outgoing_buffer c) (ct_rx c) (ct_tx c) (ct_request_pool c) (ct_streamer c) (ct_file_iterator c) (ct_block_iterator c) (ct_sync_folders c) (ct_sync_files c) (ct_postponed c) (ct_write_queue c) (ct_read_queue c) (ct_requests c) x (ct_fs_requests c) (ct_hashing c) (ct_peer_linked c) (ct_announced c)).
Definition set_fs_requests (w : world) (x : Z) : world :=
  let c := wd_ctl w in
  set_ctl w (mkController (ct_peer_state c) (ct_peer_address c) (ct_operational c) (ct_shutdown c) (ct_outgoing_buffer c) (ct_rx c) (ct_tx c) (ct_request_pool c) (ct_streamer c) (ct_file_iterator c) (ct_block_iterator c) (ct_sync_folders c) (ct_sync_files c) (ct_postponed c) (ct_write_queue c) (ct_read_queue c) (ct_requests c) (ct_requests_next c) x (ct_hashing c) (ct_peer_linked c) (ct_announced c)).
Definition set_hashing (w : world) (x : Z) : world :=
  let c := wd_ctl w in
  set_ctl w (mkController (ct_peer_state c) (ct_peer_address c) (ct_operational c) (ct_shutdown c) (ct_outgoing_buffer c) (ct_rx c) (ct_tx c) (ct_request_pool c) (ct_streamer c) (ct_file_iterator c) (ct_block_iterator c) (ct_sync_folders c) (ct_sync_files c) (ct_postponed c) (ct_write_queue c) (ct_read_queue c) (ct_requests c) (ct_requests_next c) (ct_fs_requests c) x (ct_peer_linked c) (ct_announced c)).
Definition set_peer_linked (w : world) (x : bool) : world :=
  let c := wd_ctl w in
  set_ctl w (mkController (ct_peer_state c) (ct_peer_address c) (ct_operational c) (ct_shutdown c) (ct_outgoing_buffer c) (ct_rx c) (ct_tx c) (ct_request_pool c) (ct_streamer c) (ct_file_iterator c) (ct_block_iterator c) (ct_sync_folders c) (ct_sync_files c) (ct_postponed c) (ct_write_queue c) (ct_read_queue c) (ct_requests c) (ct_requests_next c) (ct_fs_requests c) (ct_hashing c) x (ct_announced c)).
Definition set_announced (w : world) (x : bool) : world :=
  let c := wd_ctl w in
  set_ctl w (mkController (ct_peer_state c) (ct_peer_address c) (ct_operational c) (ct_shutdown c) (ct_outgoing_buffer c) (ct_rx c) (ct_tx c) (ct_request_pool c) (ct_streamer c) (ct_file_iterator c) (ct_block_iterator c) (ct_sync_folders c) (ct_sync_files c) (ct_postponed c) (ct_write_queue c) (ct_read_queue c) (ct_requests c) (ct_requests_next c) (ct_fs_requests c) (ct_hashing c) (ct_peer_linked c) x).

(** ** What the actor asks of other code *)

(** The platform, the file system, the encoding of messages, the presentation layer (is there one file of this name, whatever
    the case of its letters?) and the sequencer: every change that is created takes its identifiers from a stream of its own. *)
Class Surroundings := {
  sr_environment :: Environment;
  sr_codec :: Codec;
  to_body : peer_message → body;
  permissions_supported : bytes → bool;
  create_directories : bytes → bool;
  is_unique : model → file_ptr → bool;
  empty_digest : bytes;
  streams : nat → sequencer;
}.

(** [constants::tx_blocks_max_factor]. *)
Definition tx_blocks_max_factor : Z := 3.

Section controller.
Context `{Surroundings} (cfg : controller_config) (peer_sha default_path : bytes).

Definition new_context (from_self : bool) : context :=
  mkContext [] (mkAssembler diffs_batch diffs_batch 0 Null None) [] 0 [] from_self false.

Definition push_change (cx : context) (d : diff op) : res context :=
  let* '(a, _) := push_back (cx_diffs cx) d in Ok (set_diffs cx a).

(** [peer]; what the actor holds after it left the cluster is not followed. *)
Definition peer_of (m : model) : res device := the (by_sha256 (mo_devices m) peer_sha).

Definition views_of (m : model) : remote_view_map := default ∅ (mo_views m !! peer_sha).

Definition heap_of_model (m : model) : heap := cl_heap (mo_cluster m).

Definition set_file (w : world) (p : file_ptr) (f : file_info) : world :=
  set_model w (update_file_of (wd_model w) p f (heap_of_model (wd_model w))).

Definition set_block (w : world) (p : block_ptr) (b : block_info) : world :=
  let c := mo_cluster (wd_model w) in
  set_model w (with_cluster (wd_model w) (mkCluster (cl_blocks c) (<[p := b]> (cl_heap c)) (cl_files c) (cl_folders c))).

(** [serialize] and the push of its bytes. *)
Definition push_data (cx : context) (d : peer_message) (compression : Compression) : res context :=
  let* frame := serialize (to_body d) compression in
  Ok (push_message cx d (Z.of_nat (length frame))).

(** [do_shutdown]: the state changes when the message arrives. *)
Definition do_shutdown (w : world) : world := set_shutdown w true.

Definition folder_with_id (m : model) (id : bytes) : res folder := the (folder_by_id (folders_of m) id).

(** The folder info with this key, and its folder. *)
Definition info_with_key (m : model) (key : bytes) : res (folder * folder_info) :=
  the (head (fo ← folders_of m; fi ← filter (λ fi, fi_key fi = key) (fo_infos fo); [(fo, fi)])).

(** The loop over the folders that looks for a folder info with this uuid. *)
Fixpoint info_with_uuid (folders : list folder) (uuid : bytes) : option (folder * folder_info) :=
  match folders with
  | [] => None
  | fo :: folders =>
      match fi_by_uuid (fo_infos fo) uuid with
      | Some fi => Some (fo, fi)
      | None => info_with_uuid folders uuid
      end
  end.

(** [file_info_t::get_path]. *)
Definition get_path (fo : folder) (f : file_info) : bytes := path_append (fd_path (fo_data fo)) (f_name f).

(** [stack_context_t::lock_block] and [is_locked]. *)
Definition lock_block (w : world) (cx : context) (p : block_ptr) : res (world * context) :=
  let* b := deref (heap_of_model (wd_model w)) p in
  let* b := lock b in
  Ok (set_block w p b, note_locked cx p).

Definition context_is_locked (w : world) (cx : context) (p : block_ptr) : res bool :=
  let* b := deref (heap_of_model (wd_model w)) p in
  Ok (bool_decide (p ∈ cx_locked cx) || is_locked b).

(** [push_checked]: blocks are written as long as there are write requests left; then they wait. *)
Definition push_checked (w : world) (cx : context) (c : io_command) : res (world * context) :=
  if ct_operational (wd_ctl w) then
    if negb (wd_write_requests w =? 0) then
      let* n := modify_write_requests (wd_write_requests w) (-1) in
      Ok (set_write_requests w n, push_io cx c)
    else Ok (set_write_queue w (ct_write_queue (wd_ctl w) ++ [c]), cx)
  else Ok (w, cx).

(** [stack_context_t::mark_unreachable]. *)
Definition context_mark_unreachable (w : world) (cx : context) (name folder_id : bytes) : res (world * context) :=
  match folder_by_id (folders_of (wd_model w)) folder_id with
  | None => Ok (w, cx)
  | Some fo =>
      match by_device_id (fo_infos fo) peer_sha with
      | None => Ok (w, cx)
      | Some fi =>
          let* r := file_by_name (mo_cluster (wd_model w)) fi name in
          match r with
          | Some (p, f) =>
              if negb (is_unreachable f) then
                let* cx := push_change cx (leaf (MarkReachable (fd_id (fo_data fo)) (fi_device_sha fi) (f_name f) false)) in
                Ok (set_file w p (mark_unreachable f true), cx)
              else Ok (w, cx)
          | None => Ok (w, cx)
          end
      end
  end.

(** [stack_context_t::ack_block]. *)
Definition ack_block (cx : context) (c : block_ack_context) (unlock_block : bool) : res context :=
  push_change cx (leaf (BlockAck (ac_folder_id c) (ac_device_id c) (ac_name c) (ac_hash c) (Z.to_nat (ac_index c)) unlock_block)).

(** The loops of [~stack_context_t] over the two queues. *)
Fixpoint take_writes (requests_left : Z) (queue : list io_command) : list io_command * list io_command :=
  match queue with
  | [] => ([], [])
  | c :: rest =>
      if 0 <? requests_left then
        let '(sent, kept) := take_writes (requests_left - 1) rest in (c :: sent, kept)
      else ([], queue)
  end.

Fixpoint take_reads (max tx : Z) (queue : list io_command) : list io_command * list io_command * Z :=
  match queue with
  | [] => ([], [], tx)
  | c :: rest =>
      if tx <=? max then
        let '(sent, kept, tx) := take_reads max (u64 (tx + 1)) rest in (c :: sent, kept, tx)
      else ([], queue, tx)
  end.

Definition max_block_read : Z := Z.of_nat (cc_blocks_max_requested cfg) * tx_blocks_max_factor.

(** [~stack_context_t]. *)
Definition flush_io (w : world) (cx : context) : res world :=
  if ct_operational (wd_ctl w) then
    let '(writes, write_queue) := take_writes (wd_write_requests w) (ct_write_queue (wd_ctl w)) in
    let* n := modify_write_requests (wd_write_requests w) (- Z.of_nat (length writes)) in
    let w := set_write_queue (set_write_requests w n) write_queue in
    let '(reads, read_queue, tx) := take_reads max_block_read (ct_tx (wd_ctl w)) (ct_read_queue (wd_ctl w)) in
    let w := set_read_queue (set_tx w tx) read_queue in
    let commands := cx_io cx ++ writes ++ reads in
    if bool_decide (commands = []) then Ok w
    else Ok (set_fs_requests (emit w (SendIo commands)) (ct_fs_requests (wd_ctl w) + 1))
  else Ok w.

Definition flush (w : world) (cx : context) : res world :=
  let* w := flush_io w cx in
  let w := if has_diffs (cx_diffs cx) then emit w (SendUpdate (a_root (cx_diffs cx))) else w in
  if bool_decide (cx_data cx = []) then Ok w
  else if ct_peer_address (wd_ctl w) then
    Ok (emit (set_outgoing_buffer w (u32 (ct_outgoing_buffer (wd_ctl w) + u32 (cx_size cx)))) (SendPeer (cx_data cx)))
  else Ok w.

(** ** The folders and the files that are being synchronised *)

(** [get_sync_info] of a folder object: the entry is made if there is none. *)
Definition no_sync : folder_sync := mkFolderSync ∅ false.

Definition sync_of_key (l : list (bytes * bytes * folder_sync)) (key : bytes) : folder_sync :=
  match head (filter (λ e, e.1.1 = key) l) with Some e => e.2 | None => no_sync end.

Fixpoint sync_set_key (l : list (bytes * bytes * folder_sync)) (key id : bytes) (s : folder_sync) : list (bytes * bytes * folder_sync) :=
  match l with
  | [] => [(key, id, s)]
  | e :: l => if bool_decide (e.1.1 = key) then (e.1, s) :: l else e :: sync_set_key l key id s
  end.

(** [start_fetching], with [start_sync]. *)
Definition start_fetching (s : folder_sync) (folder_id : bytes) (p : block_ptr) (hash : bytes) (cx : context)
    : res (folder_sync * context) :=
  let* '(cx, synchronizing) :=
    if bool_decide (fs_blocks s = ∅) && negb (fs_synchronizing s) then
      let* cx := push_change cx (leaf (SynchronizationStart folder_id)) in Ok (cx, true)
    else Ok (cx, fs_synchronizing s) in
  let blocks :=
    match fs_blocks s !! hash with
    | None => <[hash := (p, 1%nat)]> (fs_blocks s)
    | Some (q, n) => <[hash := (q, S n)]> (fs_blocks s)
    end in
  Ok (mkFolderSync blocks synchronizing, cx).

(** [finish_fetching], with [finish_sync]; the block must be there. *)
Definition finish_fetching (s : folder_sync) (folder_id hash : bytes) (cx : context) : res (block_ptr * folder_sync * context) :=
  let* '(p, n) := the (fs_blocks s !! hash) in
  let blocks := if bool_decide (n = 1%nat) then delete hash (fs_blocks s) else <[hash := (p, (n - 1)%nat)]> (fs_blocks s) in
  if bool_decide (blocks = ∅) && fs_synchronizing s then
    let* cx := push_change cx (leaf (SynchronizationFinish folder_id)) in
    Ok (p, mkFolderSync blocks false, cx)
  else Ok (p, mkFolderSync blocks (fs_synchronizing s), cx).

Definition acquire_block (w : world) (cx : context) (p : block_ptr) (fo : folder) : res (world * context) :=
  let* b := deref (heap_of_model (wd_model w)) p in
  let id := fd_id (fo_data fo) in
  let l := ct_sync_folders (wd_ctl w) in
  let* '(s, cx) := start_fetching (sync_of_key l (fo_key fo)) id p (b_hash b) cx in
  Ok (set_sync_folders w (sync_set_key l (fo_key fo) id s), cx).

(** [release_block], with [get_sync_info(std::string_view)], which asserts that the folder is there. *)
Definition release_block (w : world) (cx : context) (folder_id hash : bytes) : res (block_ptr * world * context) :=
  let l := ct_sync_folders (wd_ctl w) in
  let* '(key, id, s) := the (head (filter (λ e, e.1.2 = folder_id) l)) in
  let* '(p, s, cx) := finish_fetching s id hash cx in
  let w := set_sync_folders w (sync_set_key l key id s) in
  Ok (p, set_postponed w (pp_advance (ct_postponed (wd_ctl w)) p), cx).

(** [file_info_t::guard_t::guard_t]: the file is marked and its path is locked. *)
Definition new_guard (w : world) (p : file_ptr) (f : file_info) (folder_id device_id : bytes) : res (world * guard) :=
  let w := set_file w p (synchronizing_lock f) in
  let* locked := lock_path (wd_locked w) (f_name f) in
  Ok (set_locked w locked, mkGuard false p (f_name f) (Some (folder_id, device_id))).

(** [~guard_t]: the mark goes, the iterators of the other peers look at the file again, and the path is unlocked; the mark of a
    file that left the cluster is of no interest. *)
Definition release_guard (w : world) (g : guard) : res world :=
  let w :=
    match cl_files (mo_cluster (wd_model w)) !! gd_file g with
    | Some f => set_file w (gd_file g) (synchronizing_unlock f)
    | None => w
    end in
  let* m :=
    match gd_info g with
    | None => Ok (wd_model w)
    | Some (folder_id, device_id) =>
        let* fo := folder_with_id (wd_model w) folder_id in
        let* fi := the (by_device_id (fo_infos fo) device_id) in
        recheck_peers fi (fo_infos fo) (gd_path g) (wd_model w)
    end in
  Ok (set_locked (set_model w m) (unlock_path (wd_locked w) (gd_path g))).

Definition guard_of (l : list (bytes * guard)) (id : bytes) : option guard := snd <$> head (filter (λ e, e.1 = id) l).

Definition without_guard (l : list (bytes * guard)) (id : bytes) : list (bytes * guard) := filter (λ e, e.1 ≠ id) l.

(** Is the file the source of the current iterator over blocks? *)
Definition is_requesting (c : controller) (p : file_ptr) : bool :=
  match ct_block_iterator c with Some s => bool_decide (bs_file s = p) | None => false end.

(** [cancel_sync]. *)
Definition cancel_sync (w : world) (p : file_ptr) : res world :=
  let w := if is_requesting (wd_ctl w) p then set_block_iterator w None else w in
  let* f := file_at (mo_cluster (wd_model w)) p in
  let w := set_postponed w (forget (ct_postponed (wd_ctl w)) p) in
  match guard_of (ct_sync_files (wd_ctl w)) (get_full_id f) with
  | Some g =>
      release_guard (set_sync_files w (without_guard (ct_sync_files (wd_ctl w)) (get_full_id f))) g
  | None => Ok w
  end.

(** ** Requests to the file system *)

(** Are the permissions of the peer's file left alone? *)
Definition no_permissions (fo : folder) (f : file_info) : bool :=
  negb (permissions_supported (get_path fo f)) || fd_ignore_permissions (fo_data fo) || has_no_permissions f.

Definition is_advance (action : advance_action) : bool :=
  bool_decide (action = remote_copy) || bool_decide (action = resolve_remote_win).

(** The path of the local copy when the remote file wins; there must be a local file then. *)
Definition conflict_path (fo : folder) (local_file : option file_info) (action : advance_action) : res bytes :=
  if bool_decide (action = resolve_remote_win) then
    let* f := the local_file in Ok (path_append (fd_path (fo_data fo)) (make_conflicting_name local_zone f))
  else Ok [].

Definition io_advance (m : model) (action : advance_action) (p : file_ptr) (f : file_info) (fo : folder) (local_file : option file_info)
    (cx : context) : res context :=
  let* _ := assert (is_advance action) in
  let* conflict := conflict_path fo local_file action in
  let* size := get_size f (heap_of_model m) in
  let* target := get_link_target f in
  let id := fd_id (fo_data fo) in
  Ok (push_io cx (remote_copy_file (mkFileContext p id peer_sha action) id (get_path fo f) conflict (as_type (get_type f)) size
        (f_permissions f) (f_modified_s f) target (is_deleted f) (no_permissions fo f))).

Definition io_finish_file (m : model) (local_file : option file_info) (p : file_ptr) (f : file_info) (fo : folder)
    (action : advance_action) (cx : context) : res context :=
  let* _ := assert (is_advance action) in
  let* size := get_size f (heap_of_model m) in
  let* conflict := conflict_path fo local_file action in
  let id := fd_id (fo_data fo) in
  Ok (push_io cx (finish_file (mkFileContext p id peer_sha action) id (get_path fo f) conflict size (f_modified_s f) (f_permissions f)
        (no_permissions fo f))).

Definition io_update_meta (p : file_ptr) (f : file_info) (fo : folder) (action : advance_action) (cx : context) : context :=
  let id := fd_id (fo_data fo) in
  push_io cx (update_meta (mkFileContext p id peer_sha action) id (get_path fo f) (f_modified_s f) (f_permissions f) (no_permissions fo f)).

(** [peer_file.iterate_blocks(block_index).next()]: a null pointer past the end. *)
Definition block_at (f : file_info) (index : Z) : res (option block_ptr) :=
  let* '(p, _) := it_next (mkBlocksIterator (Some f) index) in Ok p.

Definition io_append_block (w : world) (cx : context) (f : file_info) (fo : folder) (index : Z) (data : bytes) : res (world * context) :=
  let h := heap_of_model (wd_model w) in
  let* size := get_size f h in
  let* p := block_at f index in
  let* p := the p in
  let* b := deref h p in
  let* offset := get_block_offset f h index in
  let id := fd_id (fo_data fo) in
  push_checked w cx (append_block (mkAckContext id peer_sha (f_name f) (b_hash b) index) id (get_path fo f) data offset size).

(** The loop that looks for a local place of the block: the first one whose folder info is known. *)
Fixpoint clone_source (m : model) (fbs : list file_block) : res (option (file_block * file_info * folder)) :=
  match fbs with
  | [] => Ok None
  | fb :: fbs =>
      if fb_is_locally_available fb then
        let* src := file_at (mo_cluster m) (fb_file fb) in
        match info_with_uuid (folders_of m) (get_folder_uuid src) with
        | Some (fo, _) => Ok (Some (fb, src, fo))
        | None => clone_source m fbs
        end
      else clone_source m fbs
  end.

Definition io_clone_block (w : world) (cx : context) (p : block_ptr) (target : file_info) (index : Z) (fo : folder) (target_fi : folder_info)
    : res (world * context) :=
  let m := wd_model w in
  let h := heap_of_model m in
  let* b := deref h p in
  let* fbs := iterate_blocks b in
  let* r := clone_source m fbs in
  let* '(fb, src, src_fo) := the r in
  let* source_offset := get_block_offset src h (fb_block_index fb) in
  let* target_offset := get_block_offset target h index in
  let* target_sz := get_size target h in
  let* q := block_at src (fb_block_index fb) in
  let* q := the q in
  let* src_block := deref h q in
  let id := fd_id (fo_data fo) in
  push_checked w cx (clone_block (mkAckContext id (fi_device_sha target_fi) (f_name target) (b_hash b) index) id (get_path fo target)
    target_offset target_sz (get_path src_fo src) source_offset (b_size src_block)).

Definition io_make_request_block (f : file_info) (fo : folder) (req : Request) : io_command :=
  block_request req (get_path fo f) (u64 (rq_offset req)) (u64 (rq_size req)).

(** ** Asking for blocks *)

(** The loop of [preprocess_block] over the slots of requests, at most [i] rounds. *)
Fixpoint find_slot (i : nat) (requests : list (option peer_request)) (request_id next : nat) : res (nat * nat) :=
  match i with
  | O => Ok (request_id, next)
  | S i =>
      let after := if (cc_blocks_max_requested cfg <=? request_id + 1)%nat then 0%nat else (request_id + 1)%nat in
      match requests !! request_id with
      | None => Ub
      | Some None => Ok (request_id, after)
      | Some (Some _) => find_slot i requests after next
      end
  end.

(** The request of a block: it takes a slot, and the size of the block from the pool. *)
Definition request_block (w : world) (cx : context) (p : block_ptr) (b : block_info) (f : file_info) (index : Z) (fo : folder)
    : res (world * context) :=
  let* '(w, cx) := lock_block w cx p in
  let c := wd_ctl w in
  let* '(request_id, next) := find_slot (cc_blocks_max_requested cfg) (ct_requests c) (ct_requests_next c) (ct_requests_next c) in
  let* _ := assert (next <? cc_blocks_max_requested cfg)%nat in
  let* _ := assert (match ct_requests c !! request_id with Some None => true | _ => false end) in
  let* offset := get_block_offset f (heap_of_model (wd_model w)) index in
  let* peer := peer_of (wd_model w) in
  let req := mkRequest (i32 (Z.of_nat request_id)) (fd_id (fo_data fo)) (f_name f) (i32 offset) (i32 (b_size b)) (b_hash b) in
  let* cx := push_data cx (MRequest req) (d_compression peer) in
  let w := set_requests (set_requests_next w next) (<[request_id := Some (mkPeerRequest req (f_sequence f) index)]> (ct_requests c)) in
  Ok (set_request_pool (set_rx w (u64 (ct_rx c + 1))) (ct_request_pool c - u32 (b_size b)), cx).

(** [preprocess_block]: a block that some local file has is cloned, any other one is asked for. *)
Definition preprocess_block (w : world) (cx : context) (p : block_ptr) (file : file_ptr) (index : Z) (fo : folder)
    : res (world * context) :=
  if negb (ct_peer_address (wd_ctl w)) then Ok (w, cx)
  else
    let m := wd_model w in
    let* f := file_at (mo_cluster m) file in
    let* b := deref (heap_of_model m) p in
    let* fb := make_file_block p b file index in
    let* '(w, cx) := acquire_block w cx p fo in
    if fb_is_locally_available fb then
      let* target_fi := the (fi_by_uuid (fo_infos fo) (get_folder_uuid f)) in
      io_clone_block w cx p f (fb_block_index fb) fo target_fi
    else request_block w cx p b f (fb_block_index fb) fo.

(** ** Which difference there is to the local file: [compare_with_local] *)

Inductive local_difference := LDcontent | LDtrivial_io | LDmeta | LDunflushed | LDversion.

#[export] Instance local_difference_eq_dec : EqDecision local_difference.
Proof. solve_decision. Defined.

Definition compare_meta (peer_file local_file : file_info) : local_difference :=
  if negb (f_modified_s local_file =? f_modified_s peer_file) then LDmeta
  else if negb (has_no_permissions local_file) && negb (has_no_permissions peer_file)
          && negb (f_permissions local_file =? f_permissions peer_file) then LDmeta
  else LDversion.

(** The loop over the blocks of both files; a null pointer ends either of them. *)
Fixpoint content_match (h : heap) (peer_blocks local_blocks : list slot) : res bool :=
  match peer_blocks with
  | Some (p, _) :: peer_blocks =>
      match local_blocks with
      | Some (q, _) :: local_blocks =>
          let* b := deref h p in
          let* c := deref h q in
          if bool_decide (b_hash c = b_hash b) then content_match h peer_blocks local_blocks else Ok false
      | _ => Ok false
      end
  | _ => Ok (match local_blocks with Some _ :: _ => false | _ => true end)
  end.

Definition compare_with_local (h : heap) (peer_file : file_info) (local_file : option file_info) : res local_difference :=
  let* peer_size := get_block_size peer_file h in
  let otherwise := let* available := is_locally_available peer_file in Ok (if available : bool then LDunflushed else LDcontent) in
  match local_file with
  | None => if peer_size =? 0 then Ok LDtrivial_io else otherwise
  | Some local_file =>
      if peer_size =? 0 then
        let* local_size := get_block_size local_file h in
        if negb (local_size =? 0) then Ok LDtrivial_io else Ok (compare_meta peer_file local_file)
      else
        let* peer_blocks := it_blocks (mkBlocksIterator (Some peer_file) 0) in
        let* local_blocks := it_blocks (mkBlocksIterator (Some local_file) 0) in
        let* same := content_match h peer_blocks local_blocks in
        if same : bool then Ok (compare_meta peer_file local_file) else otherwise
  end.

(** ** [pull_next] *)

Definition can_pull_more (w : world) (advances : Z) : bool :=
  let c := wd_ctl w in
  negb ((Z.of_nat (cc_blocks_max_requested cfg) <=? ct_rx c) || (ct_request_pool c <? 0) || negb (ct_operational c)
        || (wd_write_requests w =? 0) || (cc_advances_per_iteration cfg <? advances)).

(** [advance_t::create]. *)
Definition create_advance (w : world) (action : advance_action) (f : file_info) (folder_id : bytes) : res (world * diff op) :=
  let m := wd_model w in
  let* '(a, sibling, _) :=
    advance_create empty_digest (make_conflicting_name local_zone) (mo_cluster m) (self_sha m) (sq_uuid (streams (wd_calls w))) 0
      action f folder_id peer_sha in
  Ok (next_call w, leaf (match sibling with None => RemoteCopy a | Some s => RemoteWin a s end)).

(** A round with a current file: its next block, or its end. *)
Definition pull_block (w : world) (cx : context) (s : block_source) : res (world * context) :=
  let* f := file_at (mo_cluster (wd_model w)) (bs_file s) in
  if bi_valid f (bs_it s) then
    let* '(p, index, it) := bi_next f (bs_it s) in
    let w := set_block_iterator w (Some (mkBlockSource (bs_file s) (bs_id s) (bs_folder_id s) (bs_device_id s) it)) in
    let* p := the p in
    let* fo := folder_with_id (wd_model w) (bs_folder_id s) in
    let* locked := context_is_locked w cx p in
    if negb locked then preprocess_block w cx p (bs_file s) index fo
    else Ok (set_postponed w (postpone (ct_postponed (wd_ctl w)) p (bs_file s)), cx)
  else Ok (set_block_iterator w None, cx).

(** A file whose blocks are no longer locked: is there something to fetch? *)
Definition pull_ready (w : world) : res (world * bool) :=
  let '(ready, pp) := get_ready (ct_postponed (wd_ctl w)) in
  let w := set_postponed w pp in
  match ready with
  | None => Ok (w, false)
  | Some p =>
      let* f := file_at (mo_cluster (wd_model w)) p in
      match info_with_uuid (folders_of (wd_model w)) (get_folder_uuid f) with
      | None => Ok (w, false)
      | Some (fo, fi) =>
          let* it := new_block_iterator f in
          if bi_valid f it then
            Ok (set_block_iterator w (Some (mkBlockSource p (get_full_id f) (fd_id (fo_data fo)) (fi_device_sha fi) it)), true)
          else Ok (w, false)
      end
  end.

Definition add_guard (w : world) (p : file_ptr) (f : file_info) (fo : folder) : res world :=
  let* '(w, g) := new_guard w p f (fd_id (fo_data fo)) peer_sha in
  Ok (set_sync_files w (ct_sync_files (wd_ctl w) ++ [(get_full_id f, g)])).

(** What is done with a file that is to be synchronised; the number of advances goes up for all but the content. *)
Definition pull_file (w : world) (cx : context) (r : result) (advances : Z) : res (world * context * Z) :=
  let m := wd_model w in
  let* f := file_at (mo_cluster m) (r_peer_file r) in
  let* '(fo, fi) := info_with_key m (r_peer_folder r) in
  let* local := match r_local_file r with None => Ok None | Some q => let* g := file_at (mo_cluster m) q in Ok (Some g) end in
  if bool_decide (is_Some (guard_of (ct_sync_files (wd_ctl w)) (get_full_id f))) then Ok (w, cx, advances)
  else if negb (is_unique m (r_peer_file r)) then Ok (w, cx, advances)
  else
    let* ld := compare_with_local (heap_of_model m) f local in
    match ld with
    | LDcontent =>
        let* it := new_block_iterator f in
        if bi_valid f it then
          let w := set_block_iterator w (Some (mkBlockSource (r_peer_file r) (get_full_id f) (fd_id (fo_data fo)) (fi_device_sha fi) it)) in
          let* w := add_guard w (r_peer_file r) f fo in
          Ok (w, cx, advances)
        else Ok (w, cx, advances)
    | LDtrivial_io =>
        let* cx := io_advance m (r_action r) (r_peer_file r) f fo local cx in
        Ok (w, cx, advances + 1)
    | LDunflushed =>
        let* w := add_guard w (r_peer_file r) f fo in
        let* cx := io_finish_file m local (r_peer_file r) f fo (r_action r) cx in
        Ok (w, cx, advances + 1)
    | LDmeta =>
        let* w := add_guard w (r_peer_file r) f fo in
        Ok (w, io_update_meta (r_peer_file r) f fo (r_action r) cx, advances + 1)
    | LDversion =>
        let* '(w, d) := create_advance w (r_action r) f (fd_id (fo_data fo)) in
        let* cx := push_change cx d in
        Ok (w, cx, advances + 1)
    end.

(** One round of the loop; [true] when there is another one. *)
Definition pull_round (w : world) (cx : context) (advances : Z) : res (world * context * Z * bool) :=
  match ct_block_iterator (wd_ctl w) with
  | Some s => let* '(w, cx) := pull_block w cx s in Ok (w, cx, advances, true)
  | None =>
      let* '(w, found) := pull_ready w in
      if found : bool then Ok (w, cx, advances, true)
      else
        let m := wd_model w in
        let* fit := the (mo_iterators m !! peer_sha) in
        let* '(fit, r) := fit_next local_zone (self_sha m) peer_sha (mo_cluster m) (views_of m) (wd_locked w) fit in
        let w := set_model w (with_iterators m (<[peer_sha := fit]> (mo_iterators m))) in
        match r with
        | None => Ok (w, cx, advances, false)
        | Some r => let* '(w, cx, advances) := pull_file w cx r advances in Ok (w, cx, advances, true)
        end
  end.

(** The loop, at most [fuel] rounds: [None] when they were not enough. *)
Fixpoint pull_loop (fuel : nat) (w : world) (cx : context) (advances : Z) : option (res (world * context)) :=
  match fuel with
  | O => None
  | S fuel =>
      if can_pull_more w advances then
        match pull_round w cx advances with
        | Ok (w, cx, advances, true) => pull_loop fuel w cx advances
        | Ok (w, cx, _, false) => Some (Ok (w, cx))
        | Err e => Some (Err e)
        | Ub => Some Ub
        end
      else Some (Ok (w, cx))
  end.

(** The files that are queued or ready, and the rounds each of them may take: one to find it, one for each of its blocks and
    one for the end of its iterator. *)
Definition queued (m : model) : nat :=
  match mo_iterators m !! peer_sha with
  | Some fit => list_sum (map (λ it, length (it_queue it)) (fit_folders fit))
  | None => 0%nat
  end.

Definition most_blocks (m : model) : nat :=
  foldr Nat.max 0%nat (map (λ pf, length (slots pf.2)) (map_to_list (cl_files (mo_cluster m)))).

Definition blocks_left (m : model) (s : block_source) : nat :=
  match cl_files (mo_cluster m) !! bs_file s with
  | Some f => if bi_valid f (bs_it s) then (length (slots f) - Z.to_nat (bi_i (bs_it s)))%nat else 0%nat
  | None => 0%nat
  end.

Definition pull_fuel (w : world) : nat :=
  let m := wd_model w in
  let c := wd_ctl w in
  ((queued m + size (pp_ready (ct_postponed c))) * (most_blocks m + 2)
   + match ct_block_iterator c with Some s => blocks_left m s + 1 | None => 0 end + 1)%nat.

Definition pull_next (w : world) (cx : context) : res (world * context) :=
  if ct_file_iterator (wd_ctl w) then
    match pull_loop (pull_fuel w) w cx 0 with Some r => r | None => Ub end
  else Ok (w, cx).

(** ** Sending what this device has *)

Definition infos_of (m : model) : infos :=
  list_to_map (map (λ fi, (fi_key fi, fi)) (folders_of m ≫= fo_infos)).

(** [get_update] and [add_files]: one message for each folder, upgraded to a full index by the first file of it. *)
Fixpoint add_update (updates : list (bytes * list FileInfo * bool)) (key : bytes) (f : FileInfo) (first : bool)
    : list (bytes * list FileInfo * bool) :=
  match updates with
  | [] => [(key, [f], first)]
  | u :: updates =>
      if bool_decide (u.1.1 = key) then (key, u.1.2 ++ [f], u.2 || first) :: updates
      else u :: add_update updates key f first
  end.

Fixpoint push_loop (fuel : nat) (m : model) (limit expected_sz : Z) (st : streamer) (updates : list (bytes * list FileInfo * bool))
    : option (res (streamer * list (bytes * list FileInfo * bool))) :=
  match fuel with
  | O => None
  | S fuel =>
      if expected_sz <? limit then
        match next (infos_of m) st with
        | Ok (Some (e, key, first), st) =>
            match
              (let* f := file_at (mo_cluster m) (e_file e) in
               let* size := expected_meta_size f in
               let* p := file_as_proto empty_digest f (heap_of_model m) true in
               Ok (size, p))
            with
            | Ok (size, p) => push_loop fuel m limit (u32 (expected_sz + size)) st (add_update updates key p first)
            | Err e => Some (Err e)
            | Ub => Some Ub
            end
        | Ok (None, st) => Some (Ok (st, updates))
        | Err e => Some (Err e)
        | Ub => Some Ub
        end
      else Some (Ok (st, updates))
  end.

Fixpoint push_updates (m : model) (compression : Compression) (updates : list (bytes * list FileInfo * bool)) (cx : context) : res context :=
  match updates with
  | [] => Ok cx
  | (key, files, first) :: updates =>
      let* '(fo, _) := info_with_key m key in
      let message := mkIndex (fd_id (fo_data fo)) files in
      let* cx :=
        if first : bool then push_data cx (MIndex message) NEVER else push_data cx (MIndexUpdate message) compression in
      push_updates m compression updates cx
  end.

(** The room in the buffer is a difference of two 32-bit numbers. *)
Definition room (c : controller) : Z := u32 (cc_outgoing_buffer_max cfg - ct_outgoing_buffer c).

Definition push_pending (w : world) (cx : context) : res (world * context) :=
  let m := wd_model w in
  match ct_streamer (wd_ctl w) with
  | Some st =>
      if ct_peer_address (wd_ctl w) then
        let* '(st, updates) :=
          match push_loop (S (total_left (infos_of m) st (st_seen st).*1)) m (room (wd_ctl w)) 0 st [] with
          | Some r => r
          | None => Ub
          end in
        let* peer := peer_of m in
        let* cx := push_updates m (d_compression peer) updates cx in
        Ok (set_streamer w (Some st), cx)
      else Ok (w, cx)
  | None => Ok (w, cx)
  end.

(** The loop of [send_new_indices]. *)
Fixpoint new_indices (m : model) (peer : device) (folders : list folder) (st : streamer) : res streamer :=
  match folders with
  | [] => Ok st
  | fo :: folders =>
      let* st :=
        match is_shared_with fo peer, get_view (views_of m) (self_sha m) (fd_id (fo_data fo)) with
        | Some _, Some view =>
            let* fi := the (by_device_id (fo_infos fo) (self_sha m)) in
            if negb (rv_index_id view =? fi_index fi) then refresh_remote (folders_of m) peer (self_sha m) (views_of m) st else Ok st
        | _, _ => Ok st
        end in
      new_indices m peer folders st
  end.

Definition send_new_indices (w : world) : res world :=
  match ct_streamer (wd_ctl w) with
  | Some st =>
      if ct_peer_address (wd_ctl w) then
        let* peer := peer_of (wd_model w) in
        let* st := new_indices (wd_model w) peer (folders_of (wd_model w)) st in
        Ok (set_streamer w (Some st))
      else Ok w
  | None => Ok w
  end.

(** The device of a folder info. *)
Definition device_of_info (m : model) (fi : folder_info) : device :=
  default (mo_device m) (by_sha256 (mo_devices m) (fi_device_sha fi)).

Definition send_cluster_config (w : world) (cx : context) : res (world * context) :=
  let m := wd_model w in
  let* peer := peer_of m in
  let* cx := push_data cx (MClusterConfig (generate_cluster (device_of_info m) (folders_of m) peer)) (d_compression peer) in
  let* w := send_new_indices w in
  Ok (w, cx).

(** ** Start and end of the actor *)

Definition on_start (w : world) : res world :=
  let* peer := peer_of (wd_model w) in
  let* better := state_lt (ct_peer_state (wd_ctl w)) (d_state peer) in
  if better : bool then Ok (do_shutdown w)
  else
    let w := emit w ControllerUp in
    let* '(w, cx) := send_cluster_config w (new_context false) in
    flush (set_announced (set_peer_linked w true) true) cx.

(** [shutdown_start]: the timer is set when requests to the file system are under way. *)
Definition shutdown_start (w : world) : world :=
  set_operational (emit w (ControllerPredown (ct_announced (wd_ctl w)))) false.

(** [~folder_synchronization_t]: the guards give the locks back. *)
Fixpoint unlock_blocks (ps : list block_ptr) (w : world) : res world :=
  match ps with
  | [] => Ok w
  | p :: ps =>
      let* b := deref (heap_of_model (wd_model w)) p in
      let* w := if is_locked b then let* b := unlock b in Ok (set_block w p b) else Ok w in
      unlock_blocks ps w
  end.

Fixpoint drop_sync_folders (l : list (bytes * bytes * folder_sync)) (w : world) : res world :=
  match l with
  | [] => Ok w
  | (key, id, s) :: l =>
      let* w :=
        if bool_decide (fs_blocks s = ∅) then Ok w
        else
          let* fo := the (folder_by_key (folders_of (wd_model w)) key) in
          if fo_suspended fo then Ok w
          else
            let w := if fs_synchronizing s then emit w (SendUpdate (leaf (SynchronizationFinish id))) else w in
            unlock_blocks (map (λ e, e.2.1) (map_to_list (fs_blocks s))) w in
      drop_sync_folders l w
  end.

Fixpoint release_guards (l : list (bytes * guard)) (w : world) : res world :=
  match l with
  | [] => Ok w
  | (_, g) :: l => let* w := release_guard w g in release_guards l w
  end.

Definition shutdown_finish (w : world) : res world :=
  let m := wd_model w in
  let* _ := assert (bool_decide (ct_file_iterator (wd_ctl w) = bool_decide (is_Some (mo_iterators m !! peer_sha)))) in
  let w := set_file_iterator (set_model w (with_iterators m (delete peer_sha (mo_iterators m)))) false in
  let* w := drop_sync_folders (ct_sync_folders (wd_ctl w)) (set_sync_folders w []) in
  let w := set_postponed w (pp_clear (ct_postponed (wd_ctl w))) in
  let* w := release_guards (ct_sync_files (wd_ctl w)) (set_sync_files w []) in
  Ok (if ct_announced (wd_ctl w) then emit w ControllerDown else w).

Definition on_fs_predown (w : world) : world := do_shutdown w.

(** [on_fs_ack_timer]: the requests that are under way are forgotten. *)
Definition on_fs_ack_timer (w : world) (cancelled : bool) : res world :=
  if negb cancelled && negb (ct_fs_requests (wd_ctl w) =? 0) then
    let* n := modify_write_requests (wd_write_requests w) (i32 (ct_fs_requests (wd_ctl w))) in
    Ok (set_write_requests (set_fs_requests w 0) n)
  else Ok w.

(** [same_peer]: is it this peer's connection that is down? *)
Definition on_peer_down (w : world) (same_peer : bool) : world :=
  if same_peer then
    do_shutdown (if ct_peer_linked (wd_ctl w) then set_peer_address (set_peer_linked w false) false else w)
  else w.

Definition on_tx_signal (w : world) : res world :=
  let* '(w, cx) := push_pending w (new_context false) in
  flush w cx.

(** ** Answers of the file system *)

(** What a finished command brings: the data of a read; [None] on an error. *)
Definition postprocess_block_request (w : world) (cx : context) (req : Request) (result : option bytes) : res (world * context) :=
  let w := set_tx w (u64 (ct_tx (wd_ctl w) - 1)) in
  if negb (ct_peer_address (wd_ctl w)) then Ok (w, cx)
  else
    let* peer := peer_of (wd_model w) in
    let reply :=
      match result with
      | None => mkResponse (rq_id req) [] GENERIC
      | Some data => mkResponse (rq_id req) data NO_BEP_ERROR
      end in
    let* cx := push_data cx (MResponse reply) (d_compression peer) in
    Ok (w, cx).

(** [remote_copy_t], [finish_file_t] and [update_meta_t]: the file is taken over, or marked. *)
Definition postprocess_file (w : world) (cx : context) (c : file_context) (ok : bool) : res (world * context) :=
  let* f := file_at (mo_cluster (wd_model w)) (fc_file c) in
  if ok then
    let* '(w, d) := create_advance w (fc_action c) f (fc_folder_id c) in
    let* cx := push_change cx d in
    Ok (w, cx)
  else context_mark_unreachable w cx (f_name f) (fc_folder_id c).

(** [append_block_t] and [clone_block_t]. *)
Definition postprocess_block (w : world) (cx : context) (c : block_ack_context) (ok unlock_block : bool) : res (world * context) :=
  if ok then
    let* cx := ack_block cx c unlock_block in Ok (w, cx)
  else context_mark_unreachable w cx (ac_name c) (ac_folder_id c).

Definition give_back_write (w : world) : res world :=
  let* n := modify_write_requests (wd_write_requests w) 1 in Ok (set_write_requests w n).

(** An error of anything but a read shuts the actor down. *)
Definition note_failure (w : world) (ok : bool) : world := if ok then w else do_shutdown w.

Definition postprocess_io (w : world) (cx : context) (cmd : io_command) (result : option bytes) : res (world * context) :=
  let ok := bool_decide (is_Some result) in
  match cmd with
  | block_request req _ _ _ => postprocess_block_request w cx req result
  | remote_copy_file c _ _ _ _ _ _ _ _ _ _ | finish_file c _ _ _ _ _ _ _ | update_meta c _ _ _ _ _ =>
      let* '(w, cx) := postprocess_file w cx c ok in Ok (note_failure w ok, cx)
  | append_block c _ _ _ _ _ =>
      let* w := give_back_write w in
      let* '(w, cx) := postprocess_block w cx c ok true in Ok (note_failure w ok, cx)
  | clone_block c _ _ _ _ _ _ _ =>
      let* w := give_back_write w in
      let* '(w, cx) := postprocess_block w cx c ok false in Ok (note_failure w ok, cx)
  end.

Fixpoint postprocess_all (cmds : list (io_command * option bytes)) (w : world) (cx : context) : res (world * context) :=
  match cmds with
  | [] => Ok (w, cx)
  | (cmd, result) :: cmds =>
      let* '(w, cx) := postprocess_io w cx cmd result in postprocess_all cmds w cx
  end.

Definition on_postprocess_io (w : world) (cmds : list (io_command * option bytes)) : res world :=
  let w := set_fs_requests w (ct_fs_requests (wd_ctl w) - 1) in
  let* '(w, cx) := postprocess_all cmds w (new_context false) in
  let* '(w, cx) := pull_next w cx in
  flush w cx.

(** ** Messages of the peer *)

Definition on_cluster_config (w : world) (cx : context) (message : ClusterConfig) : res (world * context) :=
  let m := wd_model w in
  let* peer := peer_of m in
  match new_cluster_update create_directories default_path (streams (wd_calls w)) m peer message 0 with
  | Ok d => let* cx := push_change cx d in Ok (next_call w, cx)
  | Err _ => Ok (do_shutdown (next_call w), cx)
  | Ub => Ub
  end.

(** [Index] and [IndexUpdate] are treated alike. *)
Definition on_index (w : world) (cx : context) (message : IndexBase) : res (world * context) :=
  match instantiate (mo_cluster (wd_model w)) (sq_uuid (streams (wd_calls w))) peer_sha message with
  | Ok d => let* cx := push_change cx (leaf (UpdateFolder d)) in Ok (next_call w, cx)
  | Err _ => Ok (do_shutdown (next_call w), cx)
  | Ub => Ub
  end.

(** What a request is about: a local file, or the code of the refusal. *)
Definition requested_file (m : model) (req : Request) : res (folder * file_info + Z) :=
  match folder_by_id (folders_of m) (rq_folder req) with
  | None => Ok (inr NO_SUCH_FILE)
  | Some fo =>
      if fo_suspended fo then Ok (inr GENERIC)
      else
        match by_device_id (fo_infos fo) peer_sha with
        | None => Ok (inr NO_SUCH_FILE)
        | Some _ =>
            let* fi := the (by_device_id (fo_infos fo) (self_sha m)) in
            let* r := file_by_name (mo_cluster m) fi (rq_name req) in
            match r with
            | None => Ok (inr NO_SUCH_FILE)
            | Some (_, f) => Ok (if is_file f then inl (fo, f) else inr GENERIC)
            end
        end
  end.

Definition on_request (w : world) (cx : context) (req : Request) : res (world * context) :=
  let* r := requested_file (wd_model w) req in
  match r with
  | inr code =>
      if ct_peer_address (wd_ctl w) then
        let* peer := peer_of (wd_model w) in
        let* cx := push_data cx (MResponse (mkResponse (rq_id req) [] code)) (d_compression peer) in
        Ok (w, cx)
      else Ok (w, cx)
  | inl (fo, f) =>
      let cmd := io_make_request_block f fo req in
      if max_block_read <? ct_tx (wd_ctl w) then Ok (set_read_queue w (ct_read_queue (wd_ctl w) ++ [cmd]), cx)
      else Ok (set_tx w (u64 (ct_tx (wd_ctl w) + 1)), push_io cx cmd)
  end.

(** The file of a request that was made, if it is still the one that was asked about, with its first place of the block. *)
Definition asked_file (m : model) (pr : peer_request) : res (option (file_ptr * file_info * folder * block_info * file_block)) :=
  let req := pr_request pr in
  match folder_by_id (folders_of m) (rq_folder req) with
  | None => Ok None
  | Some fo =>
      if fo_suspended fo then Ok None
      else
        match by_device_id (fo_infos fo) peer_sha with
        | None => Ok None
        | Some fi =>
            let* r := file_by_name (mo_cluster m) fi (rq_name req) in
            let* '(p, f) := the r in
            if f_sequence f =? pr_sequence pr then
              let* q := block_at f (pr_block_index pr) in
              let* q := the q in
              let* b := deref (heap_of_model m) q in
              let* fbs := iterate_blocks b in
              match head (filter (λ fb, fb_file fb = p) fbs) with
              | Some fb => Ok (Some (p, f, fo, b, fb))
              | None => Ok None
              end
            else Ok None
        end
  end.

(** An answer for the slot, once it is taken from it: the data goes to the hasher, an error marks the file. [inner] is the
    second context of the handler; [release] tells whether the block is given up. *)
Definition take_answer (w : world) (pr : peer_request) (message : Response) : res (world * context * bool * bool) :=
  let req := pr_request pr in
  let inner := new_context false in
  let* asked := asked_file (wd_model w) pr in
  if negb (ct_operational (wd_ctl w)) then Ok (w, inner, false, true)
  else
    match asked with
    | None => Ok (w, inner, true, true)
    | Some (p, f, fo, b, fb) =>
        if negb (rp_code message =? 0) then
          if negb (is_unreachable f) then
            let* '(w, inner) := context_mark_unreachable w inner (rq_name req) (rq_folder req) in
            let* w := cancel_sync w p in
            Ok (w, inner, true, true)
          else Ok (w, inner, true, true)
        else
          let w := set_request_pool w (ct_request_pool (wd_ctl w) + u32 (b_size b)) in
          let w := emit w (CalcDigest (rp_data message) (fb_block_index fb) pr) in
          Ok (set_hashing w (ct_hashing (wd_ctl w) + 1), inner, true, false)
    end.

Definition on_response (w : world) (cx : context) (message : Response) : res (world * context) :=
  let w := set_rx w (u64 (ct_rx (wd_ctl w) - 1)) in
  let c := wd_ctl w in
  let request_id := rp_id message in
  if (i32 (Z.of_nat (length (ct_requests c))) <? request_id) || (request_id <? 0) then Ok (do_shutdown w, cx)
  else
    let* slot := the (ct_requests c !! Z.to_nat request_id) in
    match slot with
    | None => Ok (do_shutdown w, cx)
    | Some pr =>
        let w := set_requests w (<[Z.to_nat request_id := None]> (ct_requests c)) in
        let w := set_requests_next w (Z.to_nat request_id) in
        let* '(w, inner, try_next, do_release) := take_answer w pr message in
        let* '(w, cx) := if try_next : bool then pull_next w cx else Ok (w, cx) in
        let* '(w, cx) :=
          if do_release : bool then
            let* '(_, w, cx) := release_block w cx (rq_folder (pr_request pr)) (rq_hash (pr_request pr)) in Ok (w, cx)
          else Ok (w, cx) in
        let* w := flush w inner in
        Ok (w, cx)
    end.

Definition on_message (w : world) (cx : context) (message : peer_message) : res (world * context) :=
  match message with
  | MClusterConfig message => on_cluster_config w cx message
  | MIndex message | MIndexUpdate message => on_index w cx message
  | MRequest req => on_request w cx req
  | MResponse message => on_response w cx message
  end.

Fixpoint on_messages (messages : list peer_message) (w : world) (cx : context) : res (world * context) :=
  match messages with
  | [] => Ok (w, cx)
  | message :: messages => let* '(w, cx) := on_message w cx message in on_messages messages w cx
  end.

Definition on_forward (w : world) (messages : list peer_message) : res world :=
  if ct_operational (wd_ctl w) then
    let* '(w, cx) := on_messages messages w (new_context false) in
    flush w cx
  else Ok w.

(** ** The digest of a block *)

(** Whether the block is given up and whether more is pulled. *)
Definition check_digest (w : world) (cx : context) (pr : peer_request) (data : bytes) (digest : option bytes)
    : res (world * context * option file_ptr * bool * bool) :=
  let req := pr_request pr in
  let* asked := asked_file (wd_model w) pr in
  let file := match asked with Some (p, _, _, _, _) => Some p | None => None end in
  if negb (ct_operational (wd_ctl w)) then Ok (w, cx, file, true, false)
  else
    match asked with
    | None => Ok (w, cx, None, true, false)
    | Some (p, f, fo, b, fb) =>
        if negb (ct_peer_address (wd_ctl w)) then Ok (w, cx, file, true, false)
        else if bool_decide (digest ≠ Some (b_hash b)) then
          let* '(w, cx) :=
            if negb (is_unreachable f) then context_mark_unreachable w cx (rq_name req) (rq_folder req) else Ok (w, cx) in
          Ok (w, cx, file, true, true)
        else if fb_is_locally_available fb then Ok (w, cx, file, true, true)
        else
          let* '(w, cx) := io_append_block w cx f fo (fb_block_index fb) data in
          Ok (w, cx, file, false, false)
    end.

Definition on_digest (w : world) (pr : peer_request) (data : bytes) (digest : option bytes) : res world :=
  let w := set_hashing w (ct_hashing (wd_ctl w) - 1) in
  let* '(w, cx, file, do_release, try_next) := check_digest w (new_context false) pr data digest in
  let* '(w, cx) :=
    if do_release : bool then
      let* '(_, w, cx) := release_block w cx (rq_folder (pr_request pr)) (rq_hash (pr_request pr)) in
      let* w := match file with Some p => cancel_sync w p | None => Ok w end in
      Ok (w, cx)
    else Ok (w, cx) in
  let* '(w, cx) := if try_next : bool then pull_next w cx else Ok (w, cx) in
  flush w cx.

(** ** Changes of the cluster *)

(** The visitor of [update_folder_t]: files that the peer announced anew are no longer fetched. *)
Fixpoint cancel_files (names : list bytes) (fi : folder_info) (w : world) : res world :=
  match names with
  | [] => Ok w
  | name :: names =>
      let* p := the (by_name (fi_files fi) name) in
      let* w := cancel_sync w p in
      cancel_files names fi w
  end.

Definition visit_update_folder (w : world) (cx : context) (d : update_folder) : res world :=
  if cx_from_self cx then
    let* fo := folder_with_id (wd_model w) (uf_folder_id d) in
    let* fi := the (by_device_id (fo_infos fo) peer_sha) in
    cancel_files (map pf_name (uf_files d)) fi w
  else Ok w.

(** [updates_streamer->on_update], if there is a streamer. *)
Definition stream_update (w : world) (p : file_ptr) (f : file_info) (fi : folder_info) : res world :=
  match ct_streamer (wd_ctl w) with
  | Some st =>
      let* '(st, _) := st_on_update (infos_of (wd_model w)) st (entry_of p f) (fi_key fi) in
      Ok (set_streamer w (Some st))
  | None => Ok w
  end.

(** The part of the visitor of [advance_t] about the file of the peer. *)
Definition visit_peer_file (w : world) (fo : folder) (local_folder : option folder_info) (a : advance)
    : res (world * option (file_ptr * file_info)) :=
  match by_device_id (fo_infos fo) (av_peer_id a) with
  | None => Ok (w, None)
  | Some peer_folder =>
      let* file := file_by_name (mo_cluster (wd_model w)) peer_folder (pf_name (av_source a)) in
      match file with
      | None => Ok (w, None)
      | Some (p, f) =>
          if bool_decide (av_peer_id a = peer_sha) then
            let* lf := the local_folder in
            let* local_file := file_by_name (mo_cluster (wd_model w)) lf (pf_name (av_source a)) in
            let* total := it_get_total (mkBlocksIterator (Some f) 0) in
            let* w := if is_file f && negb (total =? 0) then cancel_sync w p else Ok w in
            Ok (w, local_file)
          else Ok (w, None)
      end
  end.

Definition visit_advance (w : world) (a : advance) : res world :=
  match folder_by_id (folders_of (wd_model w)) (av_folder_id a) with
  | None => Ok w
  | Some fo =>
      if fo_suspended fo then Ok w
      else
        let self := self_sha (wd_model w) in
        let local_folder := by_device_id (fo_infos fo) self in
        let* '(w, local_file) := visit_peer_file w fo local_folder a in
        let* local_file :=
          if bool_decide (av_peer_id a = self) then
            let* lf := the local_folder in
            let* r := file_by_name (mo_cluster (wd_model w)) lf (pf_name (av_local a)) in
            let* r := the r in Ok (Some r)
          else Ok local_file in
        match local_file with
        | Some (p, f) => let* lf := the local_folder in stream_update w p f lf
        | None => Ok w
        end
  end.

Definition visit_peer_state (w : world) (peer_id : bytes) (state : device_state) : res world :=
  if bool_decide (peer_id = peer_sha) then
    let* better := state_lt (ct_peer_state (wd_ctl w)) state in
    Ok (if better : bool then do_shutdown w else w)
  else Ok w.

Definition visit_upsert_folder (w : world) (folder_id : bytes) : res world :=
  let m := wd_model w in
  let* fo := folder_with_id m folder_id in
  let* peer := peer_of m in
  match is_shared_with fo peer, ct_streamer (wd_ctl w) with
  | Some _, Some st =>
      let* st := refresh_remote (folders_of m) peer (self_sha m) (views_of m) st in
      Ok (set_streamer w (Some st))
  | _, _ => Ok w
  end.

(** The announcement is sent once for a whole change. *)
Definition announce_once (w : world) (cx : context) : res (world * context) :=
  if cx_config_sent cx then Ok (w, cx) else send_cluster_config w (note_config_sent cx).

Definition visit_upsert_folder_info (w : world) (cx : context) (device_id : bytes) : res (world * context) :=
  if bool_decide (device_id = peer_sha) then announce_once w cx else Ok (w, cx).

(** The loop over the removed files; a guard that is dropped here does not look at the folder again. *)
Fixpoint forget_files (keys : list bytes) (w : world) : res world :=
  match keys with
  | [] => Ok w
  | key :: keys =>
      let full_id := drop 1 key in
      let w :=
        match ct_block_iterator (wd_ctl w) with
        | Some s => if bool_decide (bs_id s = full_id) then set_block_iterator w None else w
        | None => w
        end in
      let* w :=
        match guard_of (ct_sync_files (wd_ctl w)) full_id with
        | Some g =>
            release_guard (set_sync_files w (without_guard (ct_sync_files (wd_ctl w)) full_id))
              (mkGuard (gd_finished g) (gd_file g) (gd_path g) None)
        | None => Ok w
        end in
      forget_files keys w
  end.

Definition visit_remove_files (w : world) (device_id : bytes) (keys : list bytes) : res world :=
  if bool_decide (device_id = peer_sha) then forget_files keys w else Ok w.

(** The loop over the removed folder infos: of this peer or of this device? *)
Fixpoint own_removed (m : model) (keys : list bytes) : res bool :=
  match keys with
  | [] => Ok false
  | key :: keys =>
      let* decomposed := fi_decompose_key key in
      if bool_decide (dk_device_key decomposed = prefix_device :: peer_sha)
         || bool_decide (dk_device_key decomposed = device_key local_id (mo_device m)) then Ok true
      else own_removed m keys
  end.

Definition visit_remove_folder_infos (w : world) (cx : context) (keys : list bytes) : res (world * context) :=
  let* own := own_removed (wd_model w) keys in
  if own : bool then announce_once w cx else Ok (w, cx).

Definition visit_mark_reachable (w : world) (cx : context) (folder_id device_id file_name : bytes) : res world :=
  let m := wd_model w in
  let* fo := folder_with_id m folder_id in
  let* _ := the (by_sha256 (mo_devices m) device_id) in
  let* fi := the (by_device_id (fo_infos fo) device_id) in
  let* r := file_by_name (mo_cluster m) fi file_name in
  let* w := if cx_from_self cx then let* '(p, _) := the r in cancel_sync w p else Ok w in
  if bool_decide (device_id = self_sha m) && bool_decide (is_Some (ct_streamer (wd_ctl w))) then
    let* '(p, _) := the r in
    let* f := file_at (mo_cluster (wd_model w)) p in
    stream_update w p f fi
  else Ok w.

(** The last block of a file that is being synchronised is there: the file is finished, once. *)
Definition finish_synced (w : world) (cx : context) (folder_id file_name : bytes) : res (world * context) :=
  let m := wd_model w in
  match folder_by_id (folders_of m) folder_id with
  | None => Ok (w, cx)
  | Some fo =>
      match by_device_id (fo_infos fo) peer_sha with
      | None => Ok (w, cx)
      | Some fi =>
          let* r := file_by_name (mo_cluster m) fi file_name in
          match r with
          | None => Ok (w, cx)
          | Some (p, f) =>
              let* available := is_locally_available f in
              match by_device_id (fo_infos fo) (self_sha m), guard_of (ct_sync_files (wd_ctl w)) (get_full_id f) with
              | Some local_fi, Some g =>
                  if available && negb (gd_finished g) then
                    let w :=
                      set_sync_files w
                        (map (λ e, if bool_decide (e.1 = get_full_id f)
                                   then (e.1, mkGuard true (gd_file e.2) (gd_path e.2) (gd_info e.2)) else e)
                           (ct_sync_files (wd_ctl w))) in
                    let* '(local_ptr, action) := resolve_in local_zone (mo_cluster m) fo local_fi p f in
                    let* local := match local_ptr with None => Ok None | Some q => let* g := file_at (mo_cluster m) q in Ok (Some g) end in
                    if bool_decide (action = ignore) then Ok (w, cx)
                    else let* cx := io_finish_file m local p f fo action cx in Ok (w, cx)
                  else Ok (w, cx)
              | _, _ => Ok (w, cx)
              end
          end
      end
  end.

Definition visit_block_ack (w : world) (cx : context) (folder_id device_id file_name block_hash : bytes) (unlock_block : bool)
    : res (world * context) :=
  if bool_decide (device_id = peer_sha) then
    let* '(w, cx) := finish_synced w cx folder_id file_name in
    let* '(p, w, cx) := release_block w cx folder_id block_hash in
    if unlock_block then
      let* b := deref (heap_of_model (wd_model w)) p in
      let* b := unlock b in
      Ok (set_block w p b, cx)
    else Ok (w, cx)
  else Ok (w, cx).

Definition visit_remove_peer (w : world) (peer_key : bytes) : world :=
  if bool_decide (drop 1 peer_key = peer_sha) then do_shutdown w else w.

(** The visitors that act before the rest of the change is visited. *)
Definition visit_op (o : op) (w : world) (cx : context) : res (world * context) :=
  match o with
  | UpdateFolder d => let* w := visit_update_folder w cx d in Ok (w, cx)
  | RemoteCopy a | LocalUpdate a => let* w := visit_advance w a in Ok (w, cx)
  | RemoteWin a sibling => let* w := visit_advance w a in let* w := visit_advance w sibling in Ok (w, cx)
  | PeerState _ peer_id state _ _ _ => let* w := visit_peer_state w peer_id state in Ok (w, cx)
  | UpsertFolder _ db => let* w := visit_upsert_folder w (do_id db) in Ok (w, cx)
  | UpsertFolderInfo _ device_id _ _ _ => visit_upsert_folder_info w cx device_id
  | RemoveFiles _ device_id keys => let* w := visit_remove_files w device_id keys in Ok (w, cx)
  | RemoveFolderInfos keys => visit_remove_folder_infos w cx keys
  | MarkReachable folder_id device_id name _ => let* w := visit_mark_reachable w cx folder_id device_id name in Ok (w, cx)
  | BlockAck folder_id device_id name hash _ unlock_block => visit_block_ack w cx folder_id device_id name hash unlock_block
  | RemovePeer key => Ok (visit_remove_peer w key, cx)
  | _ => Ok (w, cx)
  end.

(** The announcement of this peer was taken in: updates are streamed, and its files are iterated. *)
Definition visit_cluster_update (w : world) (cx : context) : res world :=
  if cx_from_self cx then
    let m := wd_model w in
    let* peer := peer_of m in
    let* st := new_streamer (folders_of m) peer (self_sha m) (views_of m) in
    let* w := send_new_indices (set_streamer w (Some st)) in
    if ct_file_iterator (wd_ctl w) then Ok w
    else
      let* _ := assert (bool_decide (mo_iterators m !! peer_sha = None)) in
      let* fit := new_file_iterator local_zone (self_sha m) peer_sha (mo_cluster m) in
      Ok (set_file_iterator (set_model w (with_iterators m (<[peer_sha := fit]> (mo_iterators m)))) true)
  else Ok w.

(** [cluster_diff_t::visit] with this visitor; the one of [cluster_update_t] acts at the end. *)
Fixpoint visit_diff (d : diff op) (w : world) (cx : context) : res (world * context) :=
  match d with
  | Null => Ok (w, cx)
  | Node o child sibling =>
      let* '(w, cx) := visit_op o w cx in
      let* '(w, cx) := visit_diff child w cx in
      let* '(w, cx) := visit_diff sibling w cx in
      match o with
      | ClusterUpdate _ => let* w := visit_cluster_update w cx in Ok (w, cx)
      | _ => Ok (w, cx)
      end
  end.

Definition visit (w : world) (d : diff op) (from_self : bool) : res world :=
  match visit_diff d w (new_context from_self) with
  | Ok (w, cx) =>
      let* '(w, cx) := pull_next w cx in
      let* '(w, cx) := push_pending w cx in
      flush w cx
  | Err _ => Ok (do_shutdown w)
  | Ub => Ub
  end.

(** ** The actor *)

(** What reaches the actor; [Outside] is what other actors did to the cluster in between. *)
Inductive event :=
| Starts
| PeerDown (same_peer : bool)
| Forwarded (messages : list peer_message)
| TxSignal
| IoDone (commands : list (io_command * option bytes))
| Digested (request : peer_request) (data : bytes) (digest : option bytes)
| Updated (d : diff op) (from_self : bool)
| FsPredown
| ShutdownStarts
| FsAckTimer (cancelled : bool)
| ShutdownFinishes
| Outside (m : model) (locked : gset bytes) (write_requests : Z).

Definition handle_event (e : event) (w : world) : res world :=
  match e with
  | Starts => on_start w
  | PeerDown same_peer => Ok (on_peer_down w same_peer)
  | Forwarded messages => on_forward w messages
  | TxSignal => on_tx_signal w
  | IoDone commands => on_postprocess_io w commands
  | Digested request data digest => on_digest w request data digest
  | Updated d from_self => visit w d from_self
  | FsPredown => Ok (on_fs_predown w)
  | ShutdownStarts => Ok (shutdown_start w)
  | FsAckTimer cancelled => on_fs_ack_timer w cancelled
  | ShutdownFinishes => shutdown_finish w
  | Outside m locked write_requests => Ok (set_write_requests (set_locked (set_model w m) locked) write_requests)
  end.

(** The constructor. *)
Definition new_controller (state : device_state) (request_pool : Z) : controller :=
  mkController state true true false 0 0 0 request_pool None false None [] [] (mkPostponed [] ∅) [] []
    (replicate (cc_blocks_max_requested cfg) None) 0 0 0 false false.
End controller.
