(* ===== verification/ControllerSample.v ===== *)
(** * ControllerSample: a small cluster and the surroundings of a [Controller], on which its properties are tried out. *)

From S2P Require Import Prelude Diff Version Proto DeviceId Device Blocks FileInfo FileStore FileMap GenericMap Folder.
From S2P Require Import Resolver BlockMap UpdateFolder ApplyUpdate Caches Streamer FileIterator Advance Cluster Changes Trees Removal ClusterUpdate Wire Bep Controller.

#[local] Existing Instance r_environment.

(** Messages are framed without their contents; nothing is compressed. *)
#[local] Instance c_codec : Codec := {|
  body := peer_message;
  kind := λ m, match m with MClusterConfig _ => CLUSTER_CONFIG | MIndex _ => INDEX | MIndexUpdate _ => INDEX_UPDATE | MRequest _ => REQUEST | MResponse _ => RESPONSE end;
  encode := λ _, [];
  decode := λ _ _, None;
  encode_header := λ _ _, [0; 0];
  decode_header := λ _, None;
  hello := unit;
  default_hello := ();
  encode_hello := λ _, [];
  decode_hello := λ _, None;
  encode_announce := λ _, [];
  decode_announce := λ _, None;
  LZ4_compress := λ l, 0 :: l;
  LZ4_decompress_safe := λ _ _, None;
|}.

#[local] Instance c_surroundings : Surroundings := {|
  sr_environment := r_environment;
  sr_codec := c_codec;
  to_body := λ m, m;
  permissions_supported := λ _, true;
  create_directories := λ _, true;
  is_unique := λ _ _, true;
  empty_digest := repeat 227 32;
  streams := λ n, u_sequencer;
|}.

(** Two requests at a time. *)
Definition c_config : controller_config := mkControllerConfig 2 1000 10.

Definition c_peer : bytes := repeat 9 32.

(** The model of [r_model], in which the peer's view of its own folder is known; this device has file 1 of the sample store, under
    another name than the peer's file 2. *)
Definition c_local_file : file_info :=
  mkFile (repeat 7 16 ++ repeat 1 16) (chars "b") 1 1 1 420 0 (FileContent [Some (5%positive, false)]) [Counter 1 1] f_type_file.

Definition c_self_info : folder_info :=
  mkFolderInfo (fi_key r_self_info) 1 4 [] (repeat 1 32) (prefix_device :: repeat 255 32) [entry_of 1 c_local_file].

Definition c_model : model :=
  with_views
    (with_cluster r_model
      (mkCluster sample_block_map sample_heap (<[1%positive := c_local_file]> sample_files) [with_infos sample_folder [c_self_info; r_peer_info]]))
    {[ c_peer := push_view ∅ c_peer (chars "f") 5 2 ]}.

Definition c_world (writes : Z) : world :=
  mkWorld c_model ∅ writes 0 (new_controller c_config (mkState 9 online None) 10000) [].

Definition c_handle (e : event) (w : world) : world :=
  match handle_event c_config c_peer [] e w with Ok w => w | _ => w end.

Lemma c_handled e w : match handle_event c_config c_peer [] e w with Ok _ => true | _ => false end = true → handle_event c_config c_peer [] e w = Ok (c_handle e w).
Proof. unfold c_handle. by destruct (handle_event _ _ _ e w). Qed.

(** The announcement of the peer is taken in: the actor asks for the two blocks of its file. *)
Definition c_announced : event := Updated (leaf (ClusterUpdate c_peer)) true.

Definition c_asking : world := c_handle c_announced (c_world 5).

Example asks_for_blocks :
  map (option_map (λ pr, (rq_id (pr_request pr), pr_block_index pr))) (ct_requests (wd_ctl c_asking)) = [Some (0, 0); Some (1, 1)].
Proof. vm_compute. reflexivity. Qed.

(** ** A whole file *)

(** The other side answers: the peer sends every block it is asked for, the hasher finds the announced digest, the file system carries
    everything out, and the changes are applied and shown to the actor. *)
Definition c_answers (e : effect) (w : world) : list event :=
  match e with
  | SendPeer ms => ms ≫= λ m, match m with MRequest req => [Forwarded [MResponse (mkResponse (rq_id req) (repeat 7 8) NO_BEP_ERROR)]] | _ => [] end
  | CalcDigest data _ pr => [Digested pr data (Some (rq_hash (pr_request pr)))]
  | SendIo cs => [IoDone (map (λ c, (c, Some [])) cs)]
  | SendUpdate d =>
      match apply d (wd_model w) with
      | Ok m => [Outside m (wd_locked w) (wd_write_requests w); Updated d true]
      | _ => []
      end
  | _ => []
  end.

(** The effects are answered in their order. *)
Fixpoint c_drive (fuel k : nat) (w : world) : res world :=
  match fuel with
  | O => Ok w
  | S fuel =>
      match wd_out w !! k with
      | None => Ok w
      | Some e =>
          let* w := foldl (λ r e, let* w := r in handle_event c_config c_peer [] e w) (Ok w) (c_answers e w) in
          c_drive fuel (S k) w
      end
  end.

(** The file of the peer is fetched: its two blocks are written, the file is finished, and this device has it. At the end no slot,
    no lock, no guard and no write request is held, and the folder is not synchronizing any more. *)
Example fetches_file :
  (let* w := c_drive 20 0 c_asking in
   let* fo := the (folder_by_id (folders_of (wd_model w)) (chars "f")) in
   let* fi := the (by_device_id (fo_infos fo) (repeat 1 32)) in
   let c := wd_ctl w in
   Ok (map e_name (fi_files fi), (wd_out w ≫= λ e, match e with SendIo cs => cs ≫= λ c, match c with append_block _ _ _ _ off _ => [off] | _ => [] end | _ => [] end), ct_requests c, ct_rx c, ct_request_pool c, wd_write_requests w,
       ct_sync_files c, elements (wd_locked w), fo_synchronizing fo, map (λ pb, is_locked pb.2) (map_to_list (cl_heap (mo_cluster (wd_model w))))))
  = Ok ([chars "b"; chars "a"], [0; 100], [None; None], 0, 10000, 5, [], [], 0, [false; false]).
Proof. vm_compute. reflexivity. Qed.

(** ** What is left behind *)

(** A block the peer refuses stays locked, and its size is not given back to the pool of requests. *)
Example refused_block_stays_locked :
  let w := c_handle (Forwarded [MResponse (mkResponse 0 [] GENERIC)]) c_asking in
  (ct_request_pool (wd_ctl w), is_locked <$> cl_heap (mo_cluster (wd_model w)) !! 5%positive, ct_rx (wd_ctl w)) = (9850, Some true, 1).
Proof. vm_compute. reflexivity. Qed.

(** The number after the last slot passes the check of an answer's number: the slot that is read is not there. *)
Example answer_past_last_slot : handle_event c_config c_peer [] (Forwarded [MResponse (mkResponse 2 [] NO_BEP_ERROR)]) c_asking = Ub.
Proof. vm_compute. reflexivity. Qed.

(** The peer's file is gone when an answer arrives: its null pointer is followed. *)
Example answer_for_removed_file :
  (let* m := apply (leaf (RemoveFiles (chars "f") c_peer [prefix_file_info :: repeat 2 32])) (wd_model c_asking) in
   let* w := handle_event c_config c_peer [] (Outside m ∅ 5) c_asking in
   handle_event c_config c_peer [] (Forwarded [MResponse (mkResponse 0 [] NO_BEP_ERROR)]) w) = Ub.
Proof. vm_compute. reflexivity. Qed.

(** The peer asks nine times for the first block of this device's file: seven reads are sent, two wait. *)
Definition c_request (id : Z) : Request := mkRequest id (chars "f") (chars "b") 0 100 (repeat 1 32).
Definition c_requests : list peer_message := map (λ i, MRequest (c_request (Z.of_nat i))) (seq 0 9).
Definition c_busy : world := c_handle (Forwarded c_requests) (c_world 5).

Example busy_reads :
  (ct_tx (wd_ctl c_busy), length (ct_read_queue (wd_ctl c_busy)), length (wd_out c_busy)) = (7, 2%nat, 1%nat).
Proof. vm_compute. reflexivity. Qed.

(** The requests to the file system are given up when the actor ends: every message counts as a write, and there are more write
    requests than at the start. *)
Example given_up_reads_count_as_writes :
  wd_write_requests (c_handle (FsAckTimer false) (c_handle ShutdownStarts c_busy)) = 6.
Proof. vm_compute. reflexivity. Qed.

(** The first block arrived; then it was hashed and is being written. *)
Definition c_first_request : peer_request :=
  mkPeerRequest (mkRequest 0 (chars "f") (chars "a") 0 100 (repeat 1 32)) 2 0.
Definition c_received : world := c_handle (Forwarded [MResponse (mkResponse 0 [1; 2] NO_BEP_ERROR)]) c_asking.
Definition c_writing : world := c_handle (Digested c_first_request [1; 2] (Some (repeat 1 32))) c_received.

Example writing_block : (wd_write_requests c_writing, ct_rx (wd_ctl c_writing), ct_requests (wd_ctl c_writing) !! 0%nat) = (4, 1, Some None).
Proof. vm_compute. reflexivity. Qed.
