(* ===== verification/Exchange.v ===== *)
(** * Exchange: what the [Controller] keeps track of while it exchanges blocks with its peer: the slots of its own requests, the
    reads it has asked the file system for on behalf of the peer, and the write requests it borrows from the cluster. *)

From S2P Require Import Prelude Diff Version Proto DeviceId Device Blocks FileInfo FileStore FileMap GenericMap Folder.
From S2P Require Import Resolver BlockMap UpdateFolder ApplyUpdate Caches Streamer FileIterator Advance Cluster Changes Trees ClusterUpdate Wire Bep Controller.

(** ** Results *)

(** What holds of the result, if there is one. *)
Definition ends {A} (r : res A) (Q : A → Prop) : Prop := ∀ a, r = Ok a → Q a.

Lemma ends_Ok {A} (a : A) (Q : A → Prop) : Q a → ends (Ok a) Q.
Proof. intros HQ b [=<-]. done. Qed.

Lemma ends_Err {A} e (Q : A → Prop) : ends (Err e) Q.
Proof. by intros a [=]. Qed.

Lemma ends_Ub {A} (Q : A → Prop) : ends Ub Q.
Proof. by intros a [=]. Qed.

Lemma ends_bind {A B} (m : res A) (f : A → res B) (Q : B → Prop) :
  (∀ a, m = Ok a → ends (f a) Q) → ends (res_bind m f) Q.
Proof. destruct m as [a|e|]; intros Hf b Hb; [|done..]. by apply (Hf a). Qed.

(** One step through the code of a handler. *)
Ltac ends_step :=
  match goal with
  | |- ends (res_bind _ _) _ => apply ends_bind; intros ? ?
  | |- ends (Ok _) _ => apply ends_Ok
  | |- ends (Err _) _ => apply ends_Err
  | |- ends Ub _ => apply ends_Ub
  | |- ends (match ?x with _ => _ end) _ => destruct x eqn:?
  | |- ends (let _ := _ in _) _ => cbv zeta
  end.
Ltac ends_all := repeat (ends_step; try progress cbv beta iota zeta).

(** The same for an equation of a part of it. *)
Ltac binds :=
  repeat match goal with
    | E : res_bind _ _ = Ok _ |- _ => apply bind_Ok in E as (? & ? & E)
    | E : Ok _ = Ok _ |- _ => injection E; clear E; intros; subst
    end.

(** Reading the fields of a world that was written to. *)
Ltac fields :=
  cbn [set_model set_locked set_write_requests next_call set_ctl emit do_shutdown fst snd
       set_peer_address set_operational set_shutdown set_outgoing_buffer set_rx set_tx set_request_pool set_streamer set_file_iterator set_block_iterator set_sync_folders set_sync_files set_postponed set_write_queue set_read_queue set_requests set_requests_next set_fs_requests set_hashing set_peer_linked set_announced
       ct_peer_address ct_operational ct_shutdown ct_outgoing_buffer ct_rx ct_tx ct_request_pool ct_streamer ct_file_iterator ct_block_iterator ct_sync_folders ct_sync_files ct_postponed ct_write_queue ct_read_queue ct_requests ct_requests_next ct_fs_requests ct_hashing ct_peer_linked ct_announced
       wd_model wd_locked wd_write_requests wd_calls wd_ctl wd_out
       push_io set_diffs push_message note_locked note_config_sent cx_io cx_diffs cx_data cx_from_self cx_config_sent] in *.

(** ** What most of the code leaves alone *)

(** The fields the exchange is about. *)
Definition core (w : world) :=
  let c := wd_ctl w in
  (ct_requests c, ct_requests_next c, ct_rx c, ct_tx c, ct_read_queue c, ct_write_queue c,
   (ct_operational c, ct_shutdown c, ct_peer_address c, wd_write_requests w, wd_out w)).

Section still.
Context `{Surroundings} (cfg : controller_config) (peer_sha default_path : bytes).

Definition still (w w' : world) : Prop := core w' = core w.

(** A context that collected no commands, and perhaps more messages for the peer. *)
Definition grows (cx cx' : context) : Prop := cx_io cx' = cx_io cx ∧ cx_data cx `prefix_of` cx_data cx'.

#[local] Instance grows_preorder : PreOrder grows.
Proof. split; [by split|]. intros c1 c2 c3 [? ?] [? ?]. split; [congruence|by etrans]. Qed.

Lemma lock_block_still w cx p : ends (lock_block w cx p) (λ r, still w r.1 ∧ grows cx r.2).
Proof. unfold lock_block. ends_all. by split. Qed.

Lemma push_change_still cx d : ends (push_change cx d) (λ cx', grows cx cx').
Proof. unfold push_change. ends_all. by split. Qed.

Lemma push_data_still cx d compression : ends (push_data cx d compression) (λ cx', grows cx cx').
Proof. unfold push_data. ends_all. split; [done|by apply prefix_app_r]. Qed.

Lemma mark_unreachable_still w cx name id :
  ends (context_mark_unreachable peer_sha w cx name id) (λ r, still w r.1 ∧ grows cx r.2).
Proof. unfold context_mark_unreachable. ends_all; try done. split; [done|by eapply push_change_still]. Qed.

Lemma start_fetching_still s id p hash cx : ends (start_fetching s id p hash cx) (λ r, grows cx r.2).
Proof.
  unfold start_fetching. ends_all.
  all: destruct (bool_decide _ && _) in *; binds; cbn; first [done|by eapply push_change_still].
Qed.

Lemma acquire_block_still w cx p fo : ends (acquire_block w cx p fo) (λ r, still w r.1 ∧ grows cx r.2).
Proof. unfold acquire_block. ends_all. split; [done|]. by eapply (start_fetching_still _ _ _ _ _ (_, _)). Qed.

Lemma finish_fetching_still s id hash cx : ends (finish_fetching s id hash cx) (λ r, grows cx r.2).
Proof. unfold finish_fetching. ends_all; [|done]. cbn. by eapply push_change_still. Qed.

Lemma release_block_still w cx id hash : ends (release_block w cx id hash) (λ r, still w r.1.2 ∧ grows cx r.2).
Proof. unfold release_block. ends_all. split; [done|]. by eapply (finish_fetching_still _ _ _ _ (_, _, _)). Qed.

Lemma release_guard_still w g : ends (release_guard w g) (still w).
Proof. unfold release_guard. ends_all. by destruct (cl_files _ !! _). Qed.

Lemma cancel_sync_still w p : ends (cancel_sync w p) (still w).
Proof.
  unfold cancel_sync. ends_all.
  - intros w' Hw'. apply release_guard_still in Hw'. unfold still in *. rewrite Hw'. by destruct (is_requesting _ _).
  - by destruct (is_requesting _ _).
Qed.

Lemma add_guard_still w p f fo : ends (add_guard peer_sha w p f fo) (still w).
Proof. unfold add_guard, new_guard. ends_all. binds. done. Qed.

(** ** Slots of requests *)

Definition occupied (rs : list (option peer_request)) : nat := length (filter is_Some rs).

(** The slots: as many as configured, as many in use as are counted, each with a request of its own number. *)
Record slots_ok (c : controller) : Prop := {
  so_length : length (ct_requests c) = cc_blocks_max_requested cfg;
  so_next : (ct_requests_next c < cc_blocks_max_requested cfg)%nat;
  so_rx : ct_rx c = Z.of_nat (occupied (ct_requests c));
  so_ids : ∀ i pr, ct_requests c !! i = Some (Some pr) → rq_id (pr_request pr) = Z.of_nat i;
}.

Lemma slots_same c c' :
  ct_requests c' = ct_requests c → ct_requests_next c' = ct_requests_next c → ct_rx c' = ct_rx c → slots_ok c → slots_ok c'.
Proof. intros E1 E2 E3 [Hl Hn Hr Hi]. split; by rewrite ?E1, ?E2, ?E3. Qed.

Lemma occupied_le rs : (occupied rs <= length rs)%nat.
Proof. apply length_filter. Qed.

Lemma occupied_cons r rs : occupied (r :: rs) = ((if r is Some _ then 1 else 0) + occupied rs)%nat.
Proof. unfold occupied. rewrite filter_cons. destruct r as [pr|]; [by rewrite decide_True by by eexists|]. by rewrite decide_False by by intros [? [=]]. Qed.

Lemma occupied_insert rs i pr : rs !! i = Some None → occupied (<[i := Some pr]> rs) = S (occupied rs).
Proof.
  revert i. induction rs as [|r rs IH]; intros [|i] Hi; try done.
  - injection Hi as ->. change (<[0%nat := Some pr]> (None :: rs)) with (Some pr :: rs). by rewrite !occupied_cons.
  - change (<[S i := Some pr]> (r :: rs)) with (r :: <[i := Some pr]> rs). rewrite !occupied_cons, IH by done. lia.
Qed.

Lemma occupied_clear rs i pr : rs !! i = Some (Some pr) → occupied rs = S (occupied (<[i := None]> rs)).
Proof.
  revert i. induction rs as [|r rs IH]; intros [|i] Hi; try done.
  - injection Hi as ->. change (<[0%nat := None]> (Some pr :: rs)) with (None :: rs). by rewrite !occupied_cons.
  - change (<[S i := None]> (r :: rs)) with (r :: <[i := None]> rs). rewrite !occupied_cons, (IH i) by done. lia.
Qed.

Lemma occupied_none rs : (occupied rs < length rs)%nat → ∃ i, rs !! i = Some None.
Proof.
  induction rs as [|[pr|] rs IH]; [cbn; lia| |by exists 0%nat].
  rewrite occupied_cons. cbn [length]. intros Hlt. destruct IH as [i Hi]; [lia|]. by exists (S i).
Qed.

(** ** Reads and writes *)

Definition is_read (c : io_command) : bool := match c with block_request _ _ _ _ => true | _ => false end.
Definition is_write (c : io_command) : bool := match c with append_block _ _ _ _ _ _ | clone_block _ _ _ _ _ _ _ _ => true | _ => false end.

Definition reads (l : list io_command) : list io_command := filter (λ c, is_read c = true) l.
Definition writes (l : list io_command) : Z := Z.of_nat (length (filter (λ c, is_write c = true) l)).

Lemma reads_app l1 l2 : reads (l1 ++ l2) = reads l1 ++ reads l2.
Proof. apply filter_app. Qed.

Lemma writes_app l1 l2 : writes (l1 ++ l2) = writes l1 + writes l2.
Proof. unfold writes. rewrite filter_app, length_app. lia. Qed.

Lemma writes_nonneg l : 0 <= writes l.
Proof. unfold writes. lia. Qed.

Lemma reads_all l : Forall (λ c, is_read c = true) l → reads l = l ∧ writes l = 0.
Proof.
  induction 1 as [|c l Hc _ [IHr IHw]]; [done|]. unfold reads, writes in *. rewrite !filter_cons, (decide_True _ _ Hc), IHr. split; [done|].
  rewrite decide_False; [done|]. by destruct c.
Qed.

Lemma writes_all l : Forall (λ c, is_write c = true) l → reads l = [] ∧ writes l = Z.of_nat (length l).
Proof.
  induction 1 as [|c l Hc _ [IHr IHw]]; [done|]. unfold reads, writes in *. rewrite !filter_cons, (decide_True _ _ Hc). rewrite IHr.
  split; [rewrite decide_False; [done|by destruct c]|]. cbn [length]. lia.
Qed.

(** What a part of a handler may do: take slots, use up write requests and collect commands. *)
Record moves (w : world) (cx : context) (w' : world) (cx' : context) : Prop := {
  mv_tx : ct_tx (wd_ctl w') = ct_tx (wd_ctl w);
  mv_reads : reads (cx_io cx') = reads (cx_io cx);
  mv_read_queue : ct_read_queue (wd_ctl w') = ct_read_queue (wd_ctl w);
  mv_credit : wd_write_requests w' + writes (cx_io cx') = wd_write_requests w + writes (cx_io cx);
  mv_write_queue : Forall (λ c, is_write c = true) (ct_write_queue (wd_ctl w)) → Forall (λ c, is_write c = true) (ct_write_queue (wd_ctl w'));
  mv_data : cx_data cx `prefix_of` cx_data cx';
  mv_idle : ct_operational (wd_ctl w) = false → writes (cx_io cx') = writes (cx_io cx);
  mv_out : wd_out w' = wd_out w;
  mv_operational : ct_operational (wd_ctl w') = ct_operational (wd_ctl w);
  mv_address : ct_peer_address (wd_ctl w') = ct_peer_address (wd_ctl w);
  mv_shutdown : ct_shutdown (wd_ctl w') = false → ct_shutdown (wd_ctl w) = false;
  mv_slots : ct_shutdown (wd_ctl w') = false → slots_ok (wd_ctl w) → slots_ok (wd_ctl w');
}.

Lemma moves_refl w cx : moves w cx w cx.
Proof. by split. Qed.

Lemma moves_trans w1 c1 w2 c2 w3 c3 : moves w1 c1 w2 c2 → moves w2 c2 w3 c3 → moves w1 c1 w3 c3.
Proof. intros [] []. split; first [congruence|lia|solve [auto]|by etrans|intros Ho; rewrite mv_idle1; [auto|congruence]]. Qed.

Lemma still_moves w cx w' cx' : still w w' → grows cx cx' → moves w cx w' cx'.
Proof.
  unfold still, core. intros [= E1 E2 E3 E4 E5 E6 E7 E8 E9 E10 E11] [Hio Hdata].
  split; rewrite ?E4, ?E5, ?E6, ?E7, ?E8, ?E9, ?E10, ?E11, ?Hio; try done.
  intros _. by apply slots_same.
Qed.

(** A part that only changes what is outside of the exchange. *)
Lemma then_still w cx w1 cx1 w2 cx2 : moves w cx w1 cx1 → still w1 w2 → grows cx1 cx2 → moves w cx w2 cx2.
Proof. intros Hm Hs Hio. eapply moves_trans; [exact Hm|by apply still_moves]. Qed.

(** A command that neither reads nor writes blocks. *)
Lemma moves_command w cx c : is_read c = false → is_write c = false → moves w cx w (push_io cx c).
Proof.
  intros Hr Hw. split; try done; cbn.
  - rewrite reads_app. unfold reads at 2. rewrite filter_cons_False by (by rewrite Hr). apply app_nil_r.
  - rewrite writes_app. unfold writes at 2. rewrite filter_cons_False by (by rewrite Hw). cbn. lia.
  - intros _. rewrite writes_app. unfold writes at 2. rewrite filter_cons_False by (by rewrite Hw). cbn. lia.
Qed.

Lemma push_checked_moves w cx c : is_write c = true → is_read c = false → ends (push_checked w cx c) (λ r, moves w cx r.1 r.2).
Proof.
  intros Hw Hr. unfold push_checked, modify_write_requests. ends_all; binds; [| |by apply moves_refl].
  - split; try done; cbn.
    + rewrite reads_app. unfold reads at 2. rewrite filter_cons_False by (by rewrite Hr). apply app_nil_r.
    + rewrite writes_app. unfold writes at 2. rewrite filter_cons_True by done. cbn. lia.
    + congruence.
  - split; try done; cbn; [|by intros _ []]. intros Hq. apply Forall_app. auto.
Qed.

(** ** The parts of the handlers *)

Lemma io_advance_moves m action p f fo local w cx : ends (io_advance peer_sha m action p f fo local cx) (λ cx', moves w cx w cx').
Proof. unfold io_advance. ends_all. by apply moves_command. Qed.

Lemma io_finish_file_moves m local p f fo action w cx : ends (io_finish_file peer_sha m local p f fo action cx) (λ cx', moves w cx w cx').
Proof. unfold io_finish_file. ends_all. by apply moves_command. Qed.

Lemma io_append_block_moves w cx f fo index data : ends (io_append_block peer_sha w cx f fo index data) (λ r, moves w cx r.1 r.2).
Proof. unfold io_append_block. ends_all. by apply push_checked_moves. Qed.

Lemma io_clone_block_moves w cx p target index fo fi : ends (io_clone_block w cx p target index fo fi) (λ r, moves w cx r.1 r.2).
Proof. unfold io_clone_block. ends_all. by apply push_checked_moves. Qed.

Hypothesis Hmax : Z.of_nat (cc_blocks_max_requested cfg) < 2 ^ 31.

Lemma request_block_moves w cx p b f index fo : ends (request_block cfg peer_sha w cx p b f index fo) (λ r, moves w cx r.1 r.2).
Proof.
  unfold request_block. ends_all. apply lock_block_still in H0 as [Hs Hio]. apply push_data_still in H6 as [H6 Hdata].
  apply assert_Ok in H2, H3. apply Nat.ltb_lt in H2. cbn [fst snd] in *.
  eapply (moves_trans _ _ w0 c); [by apply still_moves|]. split; try done; cbn; rewrite ?H6; try done.
  intros _ [Hl Hn Hr Hi]. set (rs := ct_requests (wd_ctl w0)) in *. destruct (rs !! n) as [[?|]|] eqn:Hslot; try done.
  assert (n < length rs)%nat as Hlt by (by eapply lookup_lt_Some).
  split; fields; fold rs.
  - by rewrite length_insert.
  - done.
  - rewrite occupied_insert, Hr by done. pose proof (occupied_le rs). unfold u64. rewrite Z.mod_small; lia.
  - intros i pr. destruct (decide (i = n)) as [->|Hne].
    + rewrite list_lookup_insert_eq by done. intros [= <-]. cbn. unfold i32, u32. rewrite Z.mod_small by lia. by destruct (Z.ltb_spec (Z.of_nat n) (2 ^ 31)); [|lia].
    + rewrite list_lookup_insert_ne by done. apply Hi.
Qed.

Lemma preprocess_block_moves w cx p file index fo : ends (preprocess_block cfg peer_sha w cx p file index fo) (λ r, moves w cx r.1 r.2).
Proof.
  unfold preprocess_block. ends_all; [apply moves_refl| |].
  all: apply acquire_block_still in H3 as [Hs Hio]; intros [w' cx'] Hr; eapply moves_trans; [by apply still_moves|].
  - by eapply io_clone_block_moves in Hr.
  - by eapply request_block_moves in Hr.
Qed.

Lemma pull_block_moves w cx s : ends (pull_block cfg peer_sha w cx s) (λ r, moves w cx r.1 r.2).
Proof.
  unfold pull_block. ends_all; try by apply still_moves.
  intros [w' cx'] Hr. apply preprocess_block_moves in Hr. eapply moves_trans; [|exact Hr]. by apply still_moves.
Qed.

Lemma pull_ready_still w : ends (pull_ready w) (λ r, still w r.1).
Proof. unfold pull_ready. ends_all; done. Qed.

Lemma create_advance_still w action f id : ends (create_advance peer_sha w action f id) (λ r, still w r.1).
Proof. unfold create_advance. ends_all; done. Qed.

Lemma pull_file_moves w cx r advances : ends (pull_file peer_sha w cx r advances) (λ r, moves w cx r.1.1 r.1.2).
Proof.
  unfold pull_file. ends_all; fields; try apply moves_refl.
  - apply add_guard_still in H5. by apply still_moves.
  - by eapply io_advance_moves in H4.
  - apply add_guard_still in H4. eapply moves_trans; [by apply still_moves|]. by apply moves_command.
  - apply add_guard_still in H4. eapply moves_trans; [by apply still_moves|]. by eapply io_finish_file_moves in H5.
  - apply create_advance_still in H4. apply push_change_still in H5. by apply still_moves.
Qed.

Lemma pull_round_moves w cx advances : ends (pull_round cfg peer_sha w cx advances) (λ r, moves w cx r.1.1.1 r.1.1.2).
Proof.
  unfold pull_round. ends_all; fields.
  - by apply pull_block_moves in H0.
  - apply pull_ready_still in H0. by apply still_moves.
  - apply pull_ready_still in H0. apply pull_file_moves in H3. eapply moves_trans; [|exact H3]. by apply still_moves.
  - apply pull_ready_still in H0. by apply still_moves.
Qed.

Lemma pull_loop_moves fuel : ∀ w cx advances r, pull_loop cfg peer_sha fuel w cx advances = Some r → ends r (λ r, moves w cx r.1 r.2).
Proof.
  induction fuel as [|fuel IH]; intros w cx advances r; [done|]. cbn [pull_loop].
  destruct (can_pull_more _ _ _); [|intros [= <-]; apply ends_Ok, moves_refl].
  destruct (pull_round _ _ _ _ _) as [[[[w' cx'] advances'] []]|e|] eqn:Hr; [| |intros [= <-]; apply ends_Err|intros [= <-]; apply ends_Ub].
  - intros Hl. apply pull_round_moves in Hr. apply IH in Hl. intros [w2 cx2] E. specialize (Hl _ E). by eapply moves_trans.
  - intros [= <-]. apply ends_Ok. by apply pull_round_moves in Hr.
Qed.

Lemma pull_next_moves w cx : ends (pull_next cfg peer_sha w cx) (λ r, moves w cx r.1 r.2).
Proof.
  unfold pull_next. destruct (ct_file_iterator _); [|apply ends_Ok, moves_refl].
  destruct (pull_loop _ _ _ _ _ _) eqn:Hl; [by eapply pull_loop_moves|apply ends_Ub].
Qed.

Lemma push_updates_still m compression updates : ∀ cx, ends (push_updates m compression updates cx) (λ cx', grows cx cx').
Proof.
  induction updates as [|[[key files] first] updates IH]; intros cx; cbn [push_updates]; ends_all; [done|].
  intros cx' Hcx'. apply IH in Hcx'. etrans; [|exact Hcx']. destruct first; by apply push_data_still in H1.
Qed.

Lemma push_pending_moves w cx : ends (push_pending cfg peer_sha w cx) (λ r, moves w cx r.1 r.2).
Proof. unfold push_pending. ends_all; try apply moves_refl. apply push_updates_still in H2. by apply still_moves. Qed.

Lemma send_new_indices_still w : ends (send_new_indices peer_sha w) (still w).
Proof. unfold send_new_indices. ends_all; done. Qed.

Lemma send_cluster_config_moves w cx : ends (send_cluster_config peer_sha w cx) (λ r, moves w cx r.1 r.2).
Proof. unfold send_cluster_config. ends_all. apply send_new_indices_still in H2. apply push_data_still in H1. by apply still_moves. Qed.

(** ** The visitors *)

Lemma cancel_files_still fi names : ∀ w, ends (cancel_files names fi w) (still w).
Proof.
  induction names as [|name names IH]; intros w; cbn [cancel_files]; ends_all; [done|].
  intros w' Hw'. apply IH in Hw'. apply cancel_sync_still in H1. unfold still in *. congruence.
Qed.

Lemma stream_update_still w p f fi : ends (stream_update w p f fi) (still w).
Proof. unfold stream_update. ends_all; done. Qed.

Lemma visit_peer_file_still w fo local a : ends (visit_peer_file peer_sha w fo local a) (λ r, still w r.1).
Proof.
  unfold visit_peer_file. ends_all; try done. fields. destruct (_ && _); [by apply cancel_sync_still in H4|].
  by injection H4 as <-.
Qed.

Lemma visit_advance_still w a : ends (visit_advance peer_sha w a) (still w).
Proof.
  unfold visit_advance. ends_all; try done.
  - apply visit_peer_file_still in H0. intros w' Hw'. apply stream_update_still in Hw'. unfold still in *. fields. congruence.
  - by apply visit_peer_file_still in H0.
Qed.

Lemma forget_files_still keys : ∀ w, ends (forget_files keys w) (still w).
Proof.
  induction keys as [|key keys IH]; intros w; cbn [forget_files]; [by apply ends_Ok|]. cbv zeta.
  set (w1 := match ct_block_iterator (wd_ctl w) with Some s => if bool_decide (bs_id s = drop 1 key) then set_block_iterator w None else w | None => w end).
  assert (still w w1) as H1. { unfold w1. destruct (ct_block_iterator _); [|done]. by case_bool_decide. }
  apply ends_bind. intros w2 H2. intros w3 H3. apply IH in H3.
  assert (still w1 w2) as H4. { destruct (guard_of _ _); [by apply release_guard_still in H2|by injection H2 as <-]. }
  unfold still in *. congruence.
Qed.

Lemma announce_once_moves w cx : ends (announce_once peer_sha w cx) (λ r, moves w cx r.1 r.2).
Proof.
  unfold announce_once. ends_all; [apply moves_refl|]. intros [w' cx'] Hr. apply send_cluster_config_moves in Hr.
  eapply moves_trans; [|exact Hr]. by apply still_moves.
Qed.

Lemma visit_mark_reachable_still w cx id device name : ends (visit_mark_reachable w cx id device name) (still w).
Proof.
  unfold visit_mark_reachable. ends_all.
  all: assert (still w a3) as Hs by (destruct (cx_from_self cx); binds; [case_match; by apply cancel_sync_still in H4|done]).
  - intros w' Hw'. apply stream_update_still in Hw'. unfold still in *. congruence.
  - done.
Qed.

Lemma finish_synced_moves w cx id name : ends (finish_synced peer_sha w cx id name) (λ r, moves w cx r.1 r.2).
Proof.
  unfold finish_synced. ends_all; try apply moves_refl; [by apply still_moves|].
  eapply moves_trans; [|by eapply io_finish_file_moves in H4]. by apply still_moves.
Qed.

Lemma visit_block_ack_moves w cx id device name hash unlock_block :
  ends (visit_block_ack peer_sha w cx id device name hash unlock_block) (λ r, moves w cx r.1 r.2).
Proof.
  unfold visit_block_ack. ends_all; try apply moves_refl.
  all: apply finish_synced_moves in H0; apply release_block_still in H1 as [Hs Hio]; eapply then_still; [exact H0| |exact Hio].
  all: unfold still in *; fields; by rewrite <- Hs.
Qed.

(** A part that may ask for the end of the actor. *)
Lemma moves_shutdown w cx : moves w cx (do_shutdown w) cx.
Proof. split; try done. Qed.

Lemma visit_op_moves o w cx : ends (visit_op peer_sha o w cx) (λ r, moves w cx r.1 r.2).
Proof.
  destruct o; cbn [visit_op]; try by apply ends_Ok, moves_refl.
  - (* RemovePeer *) apply ends_Ok. unfold visit_remove_peer. case_bool_decide; [apply moves_shutdown|apply moves_refl].
  - (* PeerState *) apply ends_bind. intros w'. unfold visit_peer_state. case_bool_decide; intros; binds; apply ends_Ok; [|apply moves_refl].
    case_match; [apply moves_shutdown|apply moves_refl].
  - (* UpsertFolder *) apply ends_bind. unfold visit_upsert_folder. intros w'. intros. binds. apply ends_Ok.
    repeat (case_match; binds); by apply still_moves.
  - (* UpsertFolderInfo *) unfold visit_upsert_folder_info. case_bool_decide; [apply announce_once_moves|apply ends_Ok, moves_refl].
  - (* RemoveFiles *) apply ends_bind. intros w' Hw'. apply ends_Ok, still_moves; [|done]. unfold visit_remove_files in Hw'.
    case_bool_decide; [by apply forget_files_still in Hw'|by injection Hw' as <-].
  - (* RemoveFolderInfos *) unfold visit_remove_folder_infos. apply ends_bind. intros [] _; [apply announce_once_moves|apply ends_Ok, moves_refl].
  - (* BlockAck *) apply visit_block_ack_moves.
  - (* MarkReachable *) apply ends_bind. intros w' Hw'. apply visit_mark_reachable_still in Hw'. by apply ends_Ok, still_moves.
  - (* UpdateFolder *) apply ends_bind. intros w' Hw'. apply ends_Ok, still_moves; [|done]. unfold visit_update_folder in Hw'.
    destruct (cx_from_self cx); binds; [by apply cancel_files_still in Hw'|done].
  - (* RemoteCopy *) apply ends_bind. intros w' Hw'. apply visit_advance_still in Hw'. by apply ends_Ok, still_moves.
  - (* LocalUpdate *) apply ends_bind. intros w' Hw'. apply visit_advance_still in Hw'. by apply ends_Ok, still_moves.
  - (* RemoteWin *) apply ends_bind. intros w1 H1. apply ends_bind. intros w2 H2. apply visit_advance_still in H1, H2.
    apply ends_Ok, still_moves; [|done]. unfold still in *. fields. congruence.
Qed.

Lemma visit_cluster_update_still w cx : ends (visit_cluster_update peer_sha w cx) (still w).
Proof. unfold visit_cluster_update. ends_all; try done; apply send_new_indices_still in H2; done. Qed.

Lemma visit_diff_moves d : ∀ w cx, ends (visit_diff peer_sha d w cx) (λ r, moves w cx r.1 r.2).
Proof.
  induction d as [|o c IHc sib IHs]; intros w cx; cbn [visit_diff]; [apply ends_Ok, moves_refl|].
  apply ends_bind. intros [w1 cx1] H1. apply ends_bind. intros [w2 cx2] H2. apply ends_bind. intros [w3 cx3] H3.
  apply visit_op_moves in H1. apply IHc in H2. apply IHs in H3. fields.
  assert (moves w cx w3 cx3) as Hm by (eapply moves_trans; [exact H1|by eapply moves_trans]).
  destruct o; try by apply ends_Ok. apply ends_bind. intros w4 H4. apply visit_cluster_update_still in H4.
  apply ends_Ok. by eapply then_still.
Qed.

(** ** The end of a handler *)

(** The commands in what was sent. *)
Definition sent (out : list effect) : list io_command := out ≫= λ e, match e with SendIo cs => cs | _ => [] end.

Definition reads_in (out : list effect) : Z := Z.of_nat (length (reads (sent out))).
Definition writes_in (out : list effect) : Z := writes (sent out).

Lemma reads_in_nil : reads_in [] = 0.
Proof. done. Qed.

Lemma writes_in_nil : writes_in [] = 0.
Proof. done. Qed.

Lemma sent_app o1 o2 : sent (o1 ++ o2) = sent o1 ++ sent o2.
Proof. apply bind_app. Qed.

Lemma take_writes_spec q : ∀ n ws q', take_writes n q = (ws, q') → q = ws ++ q' ∧ Z.of_nat (length ws) <= Z.max 0 n.
Proof.
  induction q as [|c q IH]; intros n ws q'; cbn [take_writes]; [intros [= <- <-]; cbn; split; [done|lia]|].
  destruct (Z.ltb_spec 0 n); [|intros [= <- <-]; cbn; split; [done|lia]].
  destruct (take_writes (n - 1) q) as [ws1 q1] eqn:E. intros [= <- <-]. apply IH in E as [-> Hl]. cbn [length app]. split; [done|lia].
Qed.

Lemma take_reads_spec max q : max < 2 ^ 64 - 1 → ∀ tx rs q' tx', 0 <= tx → take_reads max tx q = (rs, q', tx') →
  q = rs ++ q' ∧ tx' = tx + Z.of_nat (length rs) ∧ tx' <= Z.max tx (max + 1) ∧ (q' ≠ [] → max < tx').
Proof.
  intros Hb. induction q as [|c q IH]; intros tx rs q' tx' Hp; cbn [take_reads]; [intros [= <- <- <-]; cbn; split_and!; try done; lia|].
  destruct (Z.leb_spec tx max); [|intros [= <- <- <-]; cbn; split_and!; try done; lia].
  destruct (take_reads max (u64 (tx + 1)) q) as [[rs1 q1] tx1] eqn:E. intros [= <- <- <-].
  unfold u64 in E. rewrite Z.mod_small in E by lia. apply IH in E as (-> & -> & Hle & Hq); [|lia].
  cbn [length app]. split_and!; try done; lia.
Qed.

(** Between two events: [n] reads are under way; all that may be read is asked for; and the slots are in order unless the actor is
    on its way down. *)
Record books (w : world) (n : Z) : Prop := {
  bk_tx : ct_tx (wd_ctl w) = n;
  bk_le : 0 <= n <= max_block_read cfg + 1;
  bk_tight : ct_operational (wd_ctl w) = true → ct_read_queue (wd_ctl w) ≠ [] → max_block_read cfg < n;
  bk_reads : Forall (λ c, is_read c = true) (ct_read_queue (wd_ctl w));
  bk_writes : Forall (λ c, is_write c = true) (ct_write_queue (wd_ctl w));
  bk_slots : ct_shutdown (wd_ctl w) = false → slots_ok (wd_ctl w);
}.

(** The same in the middle of a handler. *)
Record inside (w : world) (cx : context) (n : Z) : Prop := {
  in_nonneg : 0 <= n;
  in_tx : ct_tx (wd_ctl w) = n + Z.of_nat (length (reads (cx_io cx)));
  in_le : ct_tx (wd_ctl w) <= max_block_read cfg + 1;
  in_reads : Forall (λ c, is_read c = true) (ct_read_queue (wd_ctl w));
  in_writes : Forall (λ c, is_write c = true) (ct_write_queue (wd_ctl w));
  in_idle : ct_operational (wd_ctl w) = false → reads (cx_io cx) = [] ∧ writes (cx_io cx) = 0;
  in_slots : ct_shutdown (wd_ctl w) = false → slots_ok (wd_ctl w);
}.

Lemma books_inside w n from_self : books w n → inside w (new_context from_self) n.
Proof. intros [Ht Hle _ Hr Hw Hs]. split; try done; cbn; lia. Qed.

Lemma inside_moves w cx w' cx' n : moves w cx w' cx' → inside w cx n → inside w' cx' n.
Proof.
  intros [] []. split; try done; try congruence; [auto|rewrite mv_operational0|auto].
  intros Ho. destruct in_idle0 as [Hr Hw]; [done|]. rewrite mv_reads0. split; [done|]. rewrite mv_idle0; done.
Qed.

Lemma max_block_read_small : 0 <= max_block_read cfg < 2 ^ 64 - 1.
Proof. unfold max_block_read, tx_blocks_max_factor. lia. Qed.

(** What is sent at the end of a handler, and what waits on. *)
Record flushed (w : world) (cx : context) (w' : world) (ws rs : list io_command) : Prop := {
  fl_writes : ct_write_queue (wd_ctl w) = ws ++ ct_write_queue (wd_ctl w');
  fl_reads : ct_read_queue (wd_ctl w) = rs ++ ct_read_queue (wd_ctl w');
  fl_credit : wd_write_requests w' = wd_write_requests w - Z.of_nat (length ws);
  fl_tx : ct_tx (wd_ctl w') = ct_tx (wd_ctl w) + Z.of_nat (length rs);
  fl_le : ct_tx (wd_ctl w') <= Z.max (ct_tx (wd_ctl w)) (max_block_read cfg + 1);
  fl_tight : ct_read_queue (wd_ctl w') ≠ [] → max_block_read cfg < ct_tx (wd_ctl w');
  fl_rest : (ct_requests (wd_ctl w'), ct_requests_next (wd_ctl w'), ct_rx (wd_ctl w'), ct_operational (wd_ctl w'), ct_shutdown (wd_ctl w'), ct_peer_address (wd_ctl w'))
    = (ct_requests (wd_ctl w), ct_requests_next (wd_ctl w), ct_rx (wd_ctl w), ct_operational (wd_ctl w), ct_shutdown (wd_ctl w), ct_peer_address (wd_ctl w));
  fl_out : ∃ new, wd_out w' = wd_out w ++ new ∧ sent new = cx_io cx ++ ws ++ rs;
}.

Lemma flush_io_operational w cx w' :
  0 <= ct_tx (wd_ctl w) → ct_operational (wd_ctl w) = true → flush_io cfg w cx = Ok w' → ∃ ws rs, flushed w cx w' ws rs.
Proof.
  intros Htx Hop. unfold flush_io. rewrite Hop. destruct (take_writes _ _) as [ws wq] eqn:Ew. apply take_writes_spec in Ew as [Hwq Hws].
  intros (z & Hz & E)%bind_Ok. unfold modify_write_requests in Hz. binds. fields.
  destruct (take_reads _ _ _) as [[rs rq] tx] eqn:Er. apply take_reads_spec in Er as (Hrq & Htx' & Hle & Ht); [|apply max_block_read_small|done].
  exists ws, rs. case_bool_decide as Hnil; binds.
  - split; fields; try done; try lia. exists []. by rewrite app_nil_r, Hnil.
  - split; fields; try done; try lia. eexists. split; [done|]. cbn. by rewrite app_nil_r.
Qed.

Lemma flush_operational w cx w' :
  0 <= ct_tx (wd_ctl w) → ct_operational (wd_ctl w) = true → flush cfg w cx = Ok w' → ∃ ws rs, flushed w cx w' ws rs.
Proof.
  intros Htx Hop. unfold flush. intros (w1 & (ws & rs & Hf)%flush_io_operational & E)%bind_Ok; [|done..]. exists ws, rs.
  destruct Hf as [? ? ? ? ? ? ? (new & Hnew & Hsent)].
  repeat case_match; binds; split; fields; try done; rewrite ?Hnew, <- ?app_assoc; eexists; (split; [reflexivity|]);
    by rewrite ?sent_app, ?Hsent, ?app_nil_r.
Qed.

(** A handler that was entered in order leaves the actor in order. *)
Lemma flush_books w cx w' n : inside w cx n → flush cfg w cx = Ok w' →
  ∃ new, wd_out w' = wd_out w ++ new ∧ books w' (n + reads_in new) ∧
    wd_write_requests w' + writes_in new = wd_write_requests w + writes (cx_io cx) ∧
    ct_operational (wd_ctl w') = ct_operational (wd_ctl w).
Proof.
  intros [Hn Htx Hle Hr Hw Hidle Hs] Hf. destruct (ct_operational (wd_ctl w)) eqn:Hop.
  - apply flush_operational in Hf as (ws & rs & [Fw Fr Fc Ft Fl Ftight [= F1 F2 F3 F4 F5 F6] (new & Hout & Hsent)]); [|lia|done].
    exists new. split; [done|]. rewrite Fr in Hr. rewrite Fw in Hw. apply Forall_app in Hr as [Hrs Hrq], Hw as [Hws Hwq].
    apply reads_all in Hrs as [Er1 Er2]. apply writes_all in Hws as [Ew1 Ew2]. unfold reads_in, writes_in.
    rewrite Hsent, !reads_app, !writes_app, Er1, Er2, Ew1, Ew2, !length_app. cbn [length].
    split; [|split; [lia|congruence]]. split; try done; try lia.
    + intros _ Hq. specialize (Ftight Hq). lia.
    + rewrite F5. intros Hd. by apply (slots_same (wd_ctl w)), Hs.
  - destruct Hidle as [Hir Hiw]; [done|]. rewrite Hir in Htx. cbn in Htx.
    unfold flush, flush_io in Hf. rewrite Hop in Hf. cbn [res_bind] in Hf.
    assert (∃ new, wd_out w' = wd_out w ++ new ∧ sent new = [] ∧ still w (mkWorld (wd_model w') (wd_locked w') (wd_write_requests w') (wd_calls w') (wd_ctl w') (wd_out w)))
      as (new & Hout & Hsent & Hcore).
    { repeat case_match; binds; fields; rewrite <- ?app_assoc; eexists; (split; [first [reflexivity|symmetry; apply app_nil_r]|done]). }
    exists new. split; [done|]. unfold reads_in, writes_in. rewrite Hsent, Hiw. unfold still, core in Hcore. fields.
    injection Hcore as E1 E2 E3 E4 E5 E6 E7 E8 E9 E10. split; [|split; [rewrite E10; unfold writes; cbn; lia|congruence]]. split; rewrite ?E4, ?E5, ?E6, ?E7, ?E8; try done; cbn; try lia; [congruence|].
    intros Hd. by apply (slots_same (wd_ctl w)), Hs.
Qed.

(** ** The messages of the peer *)

(** What a message may do: [new] is sent in between. *)
Definition advances (w : world) (cx : context) (n : Z) (w' : world) (cx' : context) : Prop :=
  ∃ new, wd_out w' = wd_out w ++ new ∧ inside w' cx' (n + reads_in new) ∧
    wd_write_requests w' + writes (cx_io cx') + writes_in new = wd_write_requests w + writes (cx_io cx) ∧
    ct_operational (wd_ctl w') = ct_operational (wd_ctl w).

Lemma moves_advances w cx w' cx' n : moves w cx w' cx' → inside w cx n → advances w cx n w' cx'.
Proof.
  intros Hm Hi. exists []. rewrite app_nil_r, reads_in_nil, writes_in_nil, Z.add_0_r.
  split_and!; [by destruct Hm|by eapply inside_moves|destruct Hm; lia|by destruct Hm].
Qed.

Lemma advances_trans w cx n w1 cx1 w2 cx2 :
  advances w cx n w1 cx1 → (∀ n, inside w1 cx1 n → advances w1 cx1 n w2 cx2) → advances w cx n w2 cx2.
Proof.
  intros (new & Ho & Hi & Hc & Hop) H2. destruct (H2 _ Hi) as (new2 & Ho2 & Hi2 & Hc2 & Hop2). exists (new ++ new2).
  unfold reads_in, writes_in in *. rewrite sent_app, reads_app, writes_app, length_app.
  split_and!; [by rewrite Ho2, Ho, app_assoc| |lia|congruence]. by replace (n + _) with (n + Z.of_nat (length (reads (sent new))) + Z.of_nat (length (reads (sent new2)))) by lia.
Qed.

Lemma on_cluster_config_moves w cx message : ends (on_cluster_config peer_sha default_path w cx message) (λ r, moves w cx r.1 r.2).
Proof.
  unfold on_cluster_config. ends_all; [|by apply (moves_trans _ _ (next_call w) cx); [apply still_moves|apply moves_shutdown]].
  apply push_change_still in H1. by apply still_moves.
Qed.

Lemma on_index_moves w cx message : ends (on_index peer_sha w cx message) (λ r, moves w cx r.1 r.2).
Proof.
  unfold on_index. ends_all; [|by apply (moves_trans _ _ (next_call w) cx); [apply still_moves|apply moves_shutdown]].
  apply push_change_still in H0. by apply still_moves.
Qed.

Lemma on_request_advances w cx req n :
  ct_operational (wd_ctl w) = true → inside w cx n → ends (on_request cfg peer_sha w cx req) (λ r, advances w cx n r.1 r.2).
Proof.
  intros Hop Hi. unfold on_request. ends_all; try by apply moves_advances; [apply moves_refl|].
  - (* queued *) exists []. rewrite app_nil_r, reads_in_nil, writes_in_nil, Z.add_0_r. destruct Hi. fields.
    split_and!; try done; [|lia]. split; fields; try done;
      [apply Forall_app; split; [done|by constructor]|intros Hd; by apply (slots_same (wd_ctl w)), in_slots0].
  - (* sent *) exists []. rewrite app_nil_r, reads_in_nil, writes_in_nil, Z.add_0_r. destruct Hi. fields. apply Z.ltb_ge in Heqb. pose proof max_block_read_small.
    unfold u64. rewrite Z.mod_small by lia.
    split_and!; try done; [|rewrite writes_app; change (writes [io_make_request_block f0 f req]) with 0; lia].
    split; fields; try done; [rewrite reads_app, length_app; change (length (reads [io_make_request_block f0 f req])) with 1%nat; lia|lia|congruence|].
    intros Hd. by apply (slots_same (wd_ctl w)), in_slots0.
  - apply push_data_still in H2. apply moves_advances; [by apply still_moves|done].
Qed.

(** An answer that was asked for gives its slot back. *)
Lemma slots_answer w pr id :
  ct_requests (wd_ctl w) !! id = Some (Some pr) → slots_ok (wd_ctl w) →
  slots_ok (wd_ctl (set_requests_next (set_requests (set_rx w (u64 (ct_rx (wd_ctl w) - 1))) (<[id := None]> (ct_requests (wd_ctl w)))) id)).
Proof.
  intros Hid [Hl Hn Hr Hi]. assert (id < length (ct_requests (wd_ctl w)))%nat as Hlt by (by eapply lookup_lt_Some).
  split; fields.
  - by rewrite length_insert.
  - lia.
  - pose proof (occupied_clear _ _ _ Hid). pose proof (occupied_le (ct_requests (wd_ctl w))). unfold u64. rewrite Z.mod_small; lia.
  - intros i p. destruct (decide (i = id)) as [->|Hne]; [by rewrite list_lookup_insert_eq|]. rewrite list_lookup_insert_ne by done. apply Hi.
Qed.

(** Taking an answer: the hasher may be given work. *)
Lemma take_answer_spec w pr message :
  ends (take_answer peer_sha w pr message) (λ r, ∃ new, wd_out r.1.1.1 = wd_out w ++ new ∧ sent new = [] ∧ cx_io r.1.1.2 = [] ∧
    still w (mkWorld (wd_model r.1.1.1) (wd_locked r.1.1.1) (wd_write_requests r.1.1.1) (wd_calls r.1.1.1) (wd_ctl r.1.1.1) (wd_out w))).
Proof.
  unfold take_answer. ends_all; fields; try by (exists []; rewrite app_nil_r).
  - apply mark_unreachable_still in H1 as [Hs [Hio _]]. apply cancel_sync_still in H2. exists []. rewrite app_nil_r. fields.
    unfold still, core in *. fields. injection Hs; injection H2; intros. split_and!; first [done|congruence].
  - eexists. by split; [reflexivity|].
Qed.

(** Only the slots may have changed. *)
Lemma inside_slots w w' cx n :
  ct_tx (wd_ctl w') = ct_tx (wd_ctl w) → ct_read_queue (wd_ctl w') = ct_read_queue (wd_ctl w) →
  ct_write_queue (wd_ctl w') = ct_write_queue (wd_ctl w) → ct_operational (wd_ctl w') = ct_operational (wd_ctl w) →
  (ct_shutdown (wd_ctl w') = false → slots_ok (wd_ctl w')) → inside w cx n → inside w' cx n.
Proof. intros E1 E2 E3 E4 Hs []. split; by rewrite ?E1, ?E2, ?E3, ?E4. Qed.

(** With nothing collected, a context is as good as a new one. *)
Lemma inside_inner w cx inner n : cx_io inner = [] → inside w cx n → inside w inner (n + Z.of_nat (length (reads (cx_io cx)))).
Proof. intros Hin []. split; rewrite ?Hin; cbn; try done; lia. Qed.

Lemma flush_inner w cx inner w' n :
  ct_operational (wd_ctl w) = true → cx_io inner = [] → inside w cx n → flush cfg w inner = Ok w' → advances w cx n w' cx.
Proof.
  intros Hop Hin Hi Hf. pose proof (inside_inner _ _ _ _ Hin Hi) as Hi2. destruct (flush_books _ _ _ _ Hi2 Hf) as (new & Ho & [] & Hc & Hop').
  exists new. rewrite Hin in Hc. change (writes []) with 0 in Hc. destruct Hi. split_and!; [done| |lia|done].
  assert (0 <= reads_in new) by (unfold reads_in; lia). split; try done; try lia. congruence.
Qed.

Lemma take_answer_advances w cx pr message n :
  inside w cx n → ends (take_answer peer_sha w pr message) (λ r, advances w cx n r.1.1.1 cx ∧ cx_io r.1.1.2 = []).
Proof.
  intros Hi r Hr. apply take_answer_spec in Hr as (new & Ho & Hs & Hin & Hst). split; [|done]. exists new.
  unfold reads_in, writes_in. rewrite Hs. unfold still, core in Hst. fields. injection Hst as E1 E2 E3 E4 E5 E6 E7 E8 E9 E10.
  split_and!; [done| |rewrite E10; change (writes []) with 0; lia|done]. change (Z.of_nat (length (reads []))) with 0. rewrite Z.add_0_r.
  apply (inside_slots w); try done. rewrite E8. intros Hd. by apply (slots_same (wd_ctl w)), (in_slots _ _ _ Hi).
Qed.

Lemma advances_operational w cx n w' cx' : advances w cx n w' cx' → ct_operational (wd_ctl w') = ct_operational (wd_ctl w).
Proof. by intros (new & _ & _ & _ & ?). Qed.

Lemma on_response_advances w cx message n :
  ct_operational (wd_ctl w) = true → inside w cx n → ends (on_response cfg peer_sha w cx message) (λ r, advances w cx n r.1 r.2).
Proof.
  intros Hop Hi. unfold on_response. cbv zeta. set (w0 := set_rx w _).
  assert (advances w cx n (do_shutdown w0) cx) as Hdown.
  { exists []. rewrite app_nil_r, reads_in_nil, writes_in_nil, Z.add_0_r. split_and!; [done| |unfold w0; fields; lia|done]. by apply (inside_slots w). }
  destruct (_ || _); [by apply ends_Ok|]. apply ends_bind. intros [pr|] Hpr; [|by apply ends_Ok].
  set (w1 := set_requests_next _ _). assert (inside w1 cx n) as Hi1.
  { apply (inside_slots w); try done. intros Hd. apply (slots_answer w pr); [|by apply (in_slots _ _ _ Hi)].
    unfold the in Hpr. case_match; naive_solver. }
  apply ends_bind. intros [[[w2 inner] try_next] do_release] H2. apply (take_answer_advances _ cx _ _ n) in H2 as [H2 Hin]; [|done]. fields.
  apply ends_bind. intros [w3 cx3] H3. apply ends_bind. intros [w4 cx4] H4. apply ends_bind. intros w5 H5. apply ends_Ok. fields.
  assert (moves w2 cx w3 cx3) as M3 by (destruct try_next; [by apply pull_next_moves in H3|injection H3 as <- <-; apply moves_refl]).
  assert (moves w3 cx3 w4 cx4) as M4.
  { destruct do_release; binds; [|apply moves_refl]. case_match. case_match. binds. match goal with E : release_block _ _ _ _ = _ |- _ => apply release_block_still in E as [? ?] end.
    by apply still_moves. }
  assert (advances w1 cx n w4 cx4) as H14 by (eapply advances_trans; [exact H2|intros n' Hn'; apply moves_advances; [by eapply moves_trans|done]]).
  assert (advances w1 cx n w5 cx4) as (new & Ho & H15).
  { eapply advances_trans; [exact H14|]. intros n' Hn'. apply (flush_inner _ _ inner); try done. by rewrite (advances_operational _ _ _ _ _ H14). }
  by exists new.
Qed.

Lemma on_message_advances w cx message n :
  ct_operational (wd_ctl w) = true → inside w cx n → ends (on_message cfg peer_sha default_path w cx message) (λ r, advances w cx n r.1 r.2).
Proof.
  intros Hop Hi. destruct message as [m|m|m|m|m]; cbn [on_message];
    [|intros r Hr; apply moves_advances; [by eapply on_index_moves in Hr|done]..|by apply on_request_advances|by apply on_response_advances].
  intros r Hr. apply moves_advances; [by apply on_cluster_config_moves in Hr|done].
Qed.

Lemma on_messages_advances messages : ∀ w cx n,
  ct_operational (wd_ctl w) = true → inside w cx n → ends (on_messages cfg peer_sha default_path messages w cx) (λ r, advances w cx n r.1 r.2).
Proof.
  induction messages as [|message messages IH]; intros w cx n Hop Hi; cbn [on_messages].
  - apply ends_Ok, moves_advances; [apply moves_refl|done].
  - apply ends_bind. intros [w1 cx1] H1. apply (on_message_advances _ _ _ n) in H1; [|done..]. fields. intros [w2 cx2] H2.
    eapply advances_trans; [exact H1|]. intros n' Hn'. apply (IH _ _ n') in H2; [done| |done]. by rewrite (advances_operational _ _ _ _ _ H1).
Qed.

(** ** The answers of the file system *)

Lemma postprocess_file_moves w cx c ok : ends (postprocess_file peer_sha w cx c ok) (λ r, moves w cx r.1 r.2).
Proof.
  unfold postprocess_file. ends_all.
  - apply create_advance_still in H1. apply push_change_still in H2. by apply still_moves.
  - intros r Hr. apply mark_unreachable_still in Hr as [? ?]. by apply still_moves.
Qed.

Lemma postprocess_block_moves w cx c ok unlock_block : ends (postprocess_block peer_sha w cx c ok unlock_block) (λ r, moves w cx r.1 r.2).
Proof.
  unfold postprocess_block, ack_block. ends_all.
  - apply push_change_still in H0. by apply still_moves.
  - intros r Hr. apply mark_unreachable_still in Hr as [? ?]. by apply still_moves.
Qed.

Lemma note_failure_moves w cx ok : moves w cx (note_failure w ok) cx.
Proof. destruct ok; [apply moves_refl|apply moves_shutdown]. Qed.

(** The number of reads and of writes that are done. *)
Definition is_one (b : bool) : Z := if b then 1 else 0.

(** A finished command: a read leaves, a write is given back. *)
Lemma postprocess_io_inside w cx cmd result n :
  inside w cx n → is_one (is_read cmd) <= n →
  ends (postprocess_io peer_sha w cx cmd result) (λ r, inside r.1 r.2 (n - is_one (is_read cmd)) ∧ wd_out r.1 = wd_out w ∧
    wd_write_requests r.1 + writes (cx_io r.2) = wd_write_requests w + writes (cx_io cx) + is_one (is_write cmd) ∧
    ct_operational (wd_ctl r.1) = ct_operational (wd_ctl w)).
Proof.
  intros Hi Hn.
  assert (∀ w' cx', moves w cx w' cx' → inside w' cx' (n - 0) ∧ wd_out w' = wd_out w ∧
    wd_write_requests w' + writes (cx_io cx') = wd_write_requests w + writes (cx_io cx) + 0 ∧ ct_operational (wd_ctl w') = ct_operational (wd_ctl w)) as Hmoves.
  { intros w' cx' Hm. rewrite Z.sub_0_r. split; [by eapply inside_moves|]. destruct Hm. split_and!; [done|lia|done]. }
  assert (∀ w1 w2 cx2, give_back_write w = Ok w1 → moves w1 cx w2 cx2 → inside w2 cx2 (n - 0) ∧ wd_out w2 = wd_out w ∧
    wd_write_requests w2 + writes (cx_io cx2) = wd_write_requests w + writes (cx_io cx) + 1 ∧ ct_operational (wd_ctl w2) = ct_operational (wd_ctl w)) as Hgive.
  { intros w1 w2 cx2 H1 H2. unfold give_back_write, modify_write_requests in H1. binds. rewrite Z.sub_0_r.
    split; [eapply inside_moves; [done|]; apply (inside_slots w); try done; apply (in_slots _ _ _ Hi)|]. destruct H2. fields. split_and!; [done|lia|done]. }
  destruct cmd; cbn [postprocess_io is_read is_write is_one] in *.
  1: { unfold postprocess_block_request. cbv zeta.
    assert (∀ cx', cx_io cx' = cx_io cx → inside (set_tx w (u64 (ct_tx (wd_ctl w) - 1))) cx' (n - 1)) as Hr.
    { intros cx' Hio. destruct Hi. pose proof max_block_read_small. unfold u64. rewrite Z.mod_small by lia.
      split; fields; rewrite ?Hio; try done; try lia. intros Hd. by apply (slots_same (wd_ctl w)), in_slots0. }
    ends_all; fields; [split_and!; [by apply Hr|done|lia|done]|]. apply push_data_still in H1 as [H1 _]. rewrite H1. split_and!; [by apply Hr|done|lia|done]. }
  all: ends_all; fields.
  all: try (match goal with E : postprocess_file _ _ _ _ _ = Ok _ |- _ => apply postprocess_file_moves in E; fields end;
            apply Hmoves; eapply moves_trans; [done|apply note_failure_moves]).
  all: match goal with E : postprocess_block _ _ _ _ _ _ = Ok _, G : give_back_write _ = Ok _ |- _ =>
         apply postprocess_block_moves in E; fields; apply (Hgive _ _ _ G); eapply moves_trans; [exact E|apply note_failure_moves] end.
Qed.

Definition reads_of (cmds : list (io_command * option bytes)) : Z := Z.of_nat (length (reads cmds.*1)).
Definition writes_of (cmds : list (io_command * option bytes)) : Z := writes cmds.*1.

Lemma reads_of_cons cmd result cmds : reads_of ((cmd, result) :: cmds) = is_one (is_read cmd) + reads_of cmds.
Proof. unfold reads_of, reads. rewrite fmap_cons, filter_cons. cbn [fst]. destruct (is_read cmd); cbn [is_one]; [rewrite decide_True by done|rewrite decide_False by done]; cbn [length]; lia. Qed.

Lemma writes_of_cons cmd result cmds : writes_of ((cmd, result) :: cmds) = is_one (is_write cmd) + writes_of cmds.
Proof. unfold writes_of, writes. rewrite fmap_cons, filter_cons. cbn [fst]. destruct (is_write cmd); cbn [is_one]; [rewrite decide_True by done|rewrite decide_False by done]; cbn [length]; lia. Qed.

Lemma postprocess_all_inside cmds : ∀ w cx n,
  inside w cx n → reads_of cmds <= n →
  ends (postprocess_all peer_sha cmds w cx) (λ r, inside r.1 r.2 (n - reads_of cmds) ∧ wd_out r.1 = wd_out w ∧
    wd_write_requests r.1 + writes (cx_io r.2) = wd_write_requests w + writes (cx_io cx) + writes_of cmds ∧
    ct_operational (wd_ctl r.1) = ct_operational (wd_ctl w)).
Proof.
  induction cmds as [|[cmd result] cmds IH]; intros w cx n Hi Hn; cbn [postprocess_all].
  - apply ends_Ok. change (reads_of []) with 0. change (writes_of []) with 0. rewrite Z.sub_0_r. split_and!; [done|done|fields; lia|done].
  - rewrite reads_of_cons, writes_of_cons in *. assert (0 <= reads_of cmds) by (unfold reads_of; lia).
    apply ends_bind. intros [w1 cx1] H1. apply (postprocess_io_inside _ _ _ _ n) in H1 as (Hi1 & Ho1 & Hc1 & Hop1); [|done|lia]. fields.
    intros r Hr. apply (IH _ _ (n - is_one (is_read cmd))) in Hr as (Hi2 & Ho2 & Hc2 & Hop2); [|done|lia].
    replace (n - (_ + _)) with (n - is_one (is_read cmd) - reads_of cmds) by lia. split_and!; [done|congruence|lia|congruence].
Qed.

(** ** Events *)

Definition reads_done (e : event) : Z := match e with IoDone cmds => reads_of cmds | _ => 0 end.
Definition writes_done (e : event) : Z := match e with IoDone cmds => writes_of cmds | _ => 0 end.

(** Events that do not change the number of write requests on their own account. *)
Definition conserving (w : world) (e : event) : Prop :=
  match e with
  | Outside _ _ n => n = wd_write_requests w
  | FsAckTimer cancelled => cancelled = true ∨ ct_fs_requests (wd_ctl w) = 0
  | _ => True
  end.

Definition event_ok (e : event) (w : world) (n : Z) (w' : world) : Prop :=
  ∃ new, wd_out w' = wd_out w ++ new ∧ books w' (n - reads_done e + reads_in new) ∧
    (conserving w e → wd_write_requests w' + writes_in new = wd_write_requests w + writes_done e).

(** An event that sends no commands. *)
Lemma event_quiet e w w' n new :
  reads_done e = 0 → writes_done e = 0 → wd_out w' = wd_out w ++ new → sent new = [] →
  ct_tx (wd_ctl w') = ct_tx (wd_ctl w) → ct_read_queue (wd_ctl w') = ct_read_queue (wd_ctl w) →
  ct_write_queue (wd_ctl w') = ct_write_queue (wd_ctl w) →
  (ct_operational (wd_ctl w') = true → ct_operational (wd_ctl w) = true) →
  (ct_shutdown (wd_ctl w') = false → slots_ok (wd_ctl w) → slots_ok (wd_ctl w')) →
  (ct_shutdown (wd_ctl w') = false → ct_shutdown (wd_ctl w) = false) →
  (conserving w e → wd_write_requests w' = wd_write_requests w) →
  books w n → event_ok e w n w'.
Proof.
  intros Hr Hw Ho Hs E1 E2 E3 E4 E5 E6 Hc []. exists new. unfold reads_in, writes_in. rewrite Hr, Hw, Hs. cbn [length reads].
  split; [done|]. change (Z.of_nat (length (reads []))) with 0. rewrite Z.sub_0_r, Z.add_0_r.
  split; [split; rewrite ?E1, ?E2, ?E3; auto|]. intros Hcon. rewrite Hc by done. change (writes []) with 0. lia.
Qed.

(** An event whose handler ends by sending what it collected. *)
Lemma event_flush e w w1 cx1 w' n new :
  wd_out w1 = wd_out w ++ new → inside w1 cx1 (n - reads_done e + reads_in new) → flush cfg w1 cx1 = Ok w' →
  wd_write_requests w1 + writes (cx_io cx1) + writes_in new = wd_write_requests w + writes_done e → event_ok e w n w'.
Proof.
  intros Ho Hi Hf Hc. destruct (flush_books _ _ _ _ Hi Hf) as (new2 & Ho2 & Hb & Hc2 & _). exists (new ++ new2).
  unfold reads_in, writes_in in *. rewrite sent_app, reads_app, writes_app, length_app. split_and!; [by rewrite Ho2, Ho, app_assoc| |lia].
  by replace (n - reads_done e + _) with (n - reads_done e + Z.of_nat (length (reads (sent new))) + Z.of_nat (length (reads (sent new2)))) by lia.
Qed.

(** The same when the handler only moved, from a world that differs in what the exchange is not about. *)
Lemma event_moves e w w0 cx0 w1 cx1 w' n :
  reads_done e = 0 → writes_done e = 0 → still w w0 → cx_io cx0 = [] → cx_data cx0 = [] → moves w0 cx0 w1 cx1 → flush cfg w1 cx1 = Ok w' → books w n → event_ok e w n w'.
Proof.
  intros Hr Hw Hs Hio Hdata Hm Hf Hb. assert (inside w1 cx1 n) as Hi.
  { eapply inside_moves; [|apply (books_inside _ _ false Hb)]. eapply moves_trans; [apply still_moves; [exact Hs|split; [exact Hio|by rewrite Hdata]]|exact Hm]. }
  unfold still, core in Hs. fields. injection Hs as _ _ _ _ _ _ _ _ _ E10 E11.
  eapply (event_flush _ _ _ _ _ _ []); [|..|exact Hf|].
  - rewrite (mv_out _ _ _ _ Hm), app_nil_r. done.
  - by rewrite Hr, Z.sub_0_r, reads_in_nil, Z.add_0_r.
  - rewrite writes_in_nil, Hw. pose proof (mv_credit _ _ _ _ Hm) as Hc. rewrite Hio in Hc. change (writes []) with 0 in Hc. lia.
Qed.

Lemma unlock_blocks_still ps : ∀ w, ends (unlock_blocks ps w) (still w).
Proof.
  induction ps as [|p ps IH]; intros w; cbn [unlock_blocks]; ends_all; [done|]. intros w' Hw'. apply IH in Hw'.
  assert (still w a0) as H2 by (destruct (is_locked a); binds; done). unfold still in *. congruence.
Qed.

(** The output of a world set aside. *)
Definition with_out (w : world) (out : list effect) : world :=
  mkWorld (wd_model w) (wd_locked w) (wd_write_requests w) (wd_calls w) (wd_ctl w) out.

Definition quiet (w w' : world) : Prop := ∃ new, wd_out w' = wd_out w ++ new ∧ sent new = [] ∧ still w (with_out w' (wd_out w)).

Lemma quiet_trans w1 w2 w3 : quiet w1 w2 → quiet w2 w3 → quiet w1 w3.
Proof.
  intros (n1 & O1 & S1 & H1) (n2 & O2 & S2 & H2). exists (n1 ++ n2). rewrite O2, O1, app_assoc, sent_app, S1, S2. split_and!; [done..|].
  unfold still, core, with_out in *. fields. congruence.
Qed.

Lemma still_quiet w w' : still w w' → quiet w w'.
Proof.
  intros Hs. exists []. rewrite app_nil_r. unfold still, core, with_out in *. fields. injection Hs. intros. split_and!; first [done|congruence].
Qed.

Lemma emit_quiet w e : (match e with SendIo _ => False | _ => True end) → quiet w (emit w e).
Proof. intros He. exists [e]. split_and!; [done|by destruct e|done]. Qed.

Lemma drop_sync_folders_quiet l : ∀ w, ends (drop_sync_folders l w) (quiet w).
Proof.
  induction l as [|[[key id] s] l IH]; intros w; cbn [drop_sync_folders]; ends_all; [by apply still_quiet|].
  intros w' Hw'. apply IH in Hw'. eapply quiet_trans; [|exact Hw'].
  case_bool_decide; binds; [by apply still_quiet|]. case_match; binds; [by apply still_quiet|].
  apply unlock_blocks_still in H0. apply still_quiet in H0. eapply quiet_trans; [|exact H0].
  case_match; [by apply emit_quiet|by apply still_quiet].
Qed.

Lemma release_guards_still l : ∀ w, ends (release_guards l w) (still w).
Proof.
  induction l as [|[id g] l IH]; intros w; cbn [release_guards]; ends_all; [done|]. intros w' Hw'. apply IH in Hw'.
  apply release_guard_still in H0. unfold still in *. congruence.
Qed.

Lemma shutdown_finish_quiet w : ends (shutdown_finish peer_sha w) (quiet w).
Proof.
  unfold shutdown_finish. cbv zeta. apply ends_bind. intros _ _. apply ends_bind. intros w1 H1. apply ends_bind. intros w2 H2. apply ends_Ok.
  apply drop_sync_folders_quiet in H1. apply release_guards_still, still_quiet in H2.
  assert (quiet w w2) as Hq. { eapply quiet_trans; [|eapply quiet_trans; [exact H1|]; eapply quiet_trans; [|exact H2]]; by apply still_quiet. }
  case_match; [|done]. eapply quiet_trans; [exact Hq|by apply emit_quiet].
Qed.

Lemma check_digest_moves w cx pr data digest : ends (check_digest peer_sha w cx pr data digest) (λ r, moves w cx r.1.1.1.1 r.1.1.1.2).
Proof.
  unfold check_digest. ends_all; fields; try apply moves_refl.
  - case_match; binds; [|apply moves_refl]. match goal with E : context_mark_unreachable _ _ _ _ _ = Ok _ |- _ => apply mark_unreachable_still in E as [? ?] end.
    by apply still_moves.
  - by apply io_append_block_moves in H1.
Qed.

Lemma on_digest_ok w pr data digest w' n :
  books w n → on_digest cfg peer_sha w pr data digest = Ok w' → event_ok (Digested pr data digest) w n w'.
Proof.
  intros Hb. unfold on_digest. cbv zeta. set (w0 := set_hashing w _).
  intros ([[[[w1 cx1] file] do_release] try_next] & H1 & ([w2 cx2] & H2 & ([w3 cx3] & H3 & Hf)%bind_Ok)%bind_Ok)%bind_Ok.
  apply check_digest_moves in H1. fields.
  assert (moves w1 cx1 w2 cx2) as M2.
  { destruct do_release; binds; [|apply moves_refl]. repeat case_match; binds.
    all: match goal with E : release_block _ _ _ _ = Ok _ |- _ => apply release_block_still in E as [S1 S2] end; fields.
    all: try match goal with E : cancel_sync _ _ = Ok _ |- _ => apply cancel_sync_still in E end.
    all: apply still_moves; [unfold still in *; congruence|done]. }
  assert (moves w2 cx2 w3 cx3) as M3 by (destruct try_next; [by apply pull_next_moves in H3|injection H3 as <- <-; apply moves_refl]).
  eapply (event_moves _ w w0 (new_context false)); [done..| |exact Hf|exact Hb].
  eapply moves_trans; [exact H1|]. by eapply moves_trans.
Qed.

Lemma visit_ok w d from_self w' n : books w n → visit cfg peer_sha w d from_self = Ok w' → event_ok (Updated d from_self) w n w'.
Proof.
  intros Hb. unfold visit. destruct (visit_diff _ _ _ _) as [[w1 cx1]|e|] eqn:H1; [| |done].
  - intros ([w2 cx2] & H2 & ([w3 cx3] & H3 & Hf)%bind_Ok)%bind_Ok.
    apply visit_diff_moves in H1. apply pull_next_moves in H2. apply push_pending_moves in H3. fields.
    eapply (event_moves _ w w (new_context from_self)); [done..| |exact Hf|exact Hb].
    eapply moves_trans; [exact H1|]. by eapply moves_trans.
  - intros [= <-]. by apply (event_quiet _ _ _ _ []); rewrite ?app_nil_r.
Qed.

Lemma on_postprocess_io_ok w cmds w' n :
  books w n → reads_of cmds <= n → on_postprocess_io cfg peer_sha w cmds = Ok w' → event_ok (IoDone cmds) w n w'.
Proof.
  intros Hb Hn. unfold on_postprocess_io. cbv zeta. intros ([w1 cx1] & H1 & ([w2 cx2] & H2 & Hf)%bind_Ok)%bind_Ok.
  apply (postprocess_all_inside _ _ _ n) in H1 as (Hi & Ho & Hc & Hop); [|eapply inside_moves; [by apply (still_moves w (new_context false))|by apply books_inside]|done].
  apply pull_next_moves in H2. fields. eapply (event_flush _ _ _ _ _ _ []); [| |exact Hf|].
  - by rewrite (mv_out _ _ _ _ H2), Ho, app_nil_r.
  - rewrite reads_in_nil, Z.add_0_r. by eapply inside_moves.
  - rewrite writes_in_nil. pose proof (mv_credit _ _ _ _ H2). change (writes (cx_io (new_context false))) with 0 in Hc. cbn [writes_done]. lia.
Qed.

Lemma on_forward_ok w messages w' n : books w n → on_forward cfg peer_sha default_path w messages = Ok w' → event_ok (Forwarded messages) w n w'.
Proof.
  intros Hb. unfold on_forward. destruct (ct_operational (wd_ctl w)) eqn:Hop.
  - intros ([w1 cx1] & H1 & Hf)%bind_Ok. apply (on_messages_advances _ _ _ n) in H1 as (new & Ho & Hi & Hc & _); [|done|by apply books_inside].
    fields. eapply (event_flush _ _ _ _ _ _ new); [done| |exact Hf|cbn [writes_done]; change (writes (cx_io (new_context false))) with 0 in Hc; lia].
    cbn [reads_done]. by rewrite Z.sub_0_r.
  - intros [= <-]. by apply (event_quiet _ _ _ _ []); rewrite ?app_nil_r.
Qed.

Lemma on_start_ok w w' n : books w n → on_start cfg peer_sha w = Ok w' → event_ok Starts w n w'.
Proof.
  intros Hb. unfold on_start. intros (peer & _ & (better & _ & E)%bind_Ok)%bind_Ok. destruct better.
  - injection E as <-. by apply (event_quiet _ _ _ _ []); rewrite ?app_nil_r.
  - apply bind_Ok in E as ([w1 cx1] & H1 & Hf). apply send_cluster_config_moves in H1. fields.
    eapply (event_flush _ _ _ _ _ _ [ControllerUp]); [| |exact Hf|].
    + fields. by rewrite (mv_out _ _ _ _ H1).
    + cbn [reads_done]. rewrite Z.sub_0_r. change (reads_in [ControllerUp]) with 0. rewrite Z.add_0_r.
      apply (inside_slots w1); try done; [|eapply inside_moves; [exact H1|]; apply (inside_slots w); try done; [intros Hd; by apply (slots_same (wd_ctl w)), (bk_slots _ _ Hb)|by apply books_inside]].
      fields. intros Hd. apply (slots_same (wd_ctl w1)); [done..|]. apply (mv_slots _ _ _ _ H1 Hd). apply (slots_same (wd_ctl w)); [done..|].
      apply (bk_slots _ _ Hb). by apply (mv_shutdown _ _ _ _ H1).
    + change (writes_in [ControllerUp]) with 0. pose proof (mv_credit _ _ _ _ H1) as Hc. change (writes (cx_io (new_context false))) with 0 in Hc. fields. cbn [writes_done]. lia.
Qed.

Lemma quiet_ok e w w' n : reads_done e = 0 → writes_done e = 0 → quiet w w' → books w n → event_ok e w n w'.
Proof.
  intros Hr Hw (new & Ho & Hs & Hst) Hb. unfold still, core, with_out in Hst. fields. injection Hst as E1 E2 E3 E4 E5 E6 E7 E8 E9 E10.
  apply (event_quiet _ _ _ _ new); try done; [by rewrite E7| |by rewrite E8]. intros _. by apply slots_same.
Qed.

(** Every event keeps the books. *)
Lemma handle_event_ok e w w' n :
  books w n → reads_done e <= n → handle_event cfg peer_sha default_path e w = Ok w' → event_ok e w n w'.
Proof.
  intros Hb Hn. destruct e; cbn [handle_event].
  - by apply on_start_ok.
  - intros [= <-]. unfold on_peer_down. destruct same_peer; [|by apply quiet_ok; [..|apply still_quiet|]].
    destruct (ct_peer_linked _); by apply (event_quiet _ _ _ _ []); rewrite ?app_nil_r.
  - by apply on_forward_ok.
  - unfold on_tx_signal. intros ([w1 cx1] & H1 & Hf)%bind_Ok. apply push_pending_moves in H1. fields.
    by eapply (event_moves _ w w (new_context false)).
  - by apply on_postprocess_io_ok.
  - by apply on_digest_ok.
  - by apply visit_ok.
  - intros [= <-]. by apply (event_quiet _ _ _ _ []); rewrite ?app_nil_r.
  - intros [= <-]. apply (event_quiet _ _ _ _ [ControllerPredown (ct_announced (wd_ctl w))]); try done. intros _. by apply slots_same.
  - unfold on_fs_ack_timer. destruct (_ && _) eqn:Ht; intros; binds.
    + apply (event_quiet _ _ _ _ []); rewrite ?app_nil_r; try done; [intros _; by apply slots_same|].
      intros [->|Hz]; [done|]. rewrite Hz in Ht. by rewrite andb_false_r in Ht.
    + by apply quiet_ok; [..|apply still_quiet|].
  - intros Hw'. apply shutdown_finish_quiet in Hw'. by apply quiet_ok.
  - intros [= <-]. by apply (event_quiet _ _ _ _ []); rewrite ?app_nil_r.
Qed.
End still.
