(* ===== verification/Conversation.v ===== *)
(** * Conversation: properties of the [Controller] over whole runs: its requests and their slots, the reads for the peer, the
    write requests it borrows, the order in which the peer is served, and the blocks that are written. *)

From S2P Require Import Prelude Diff Version Proto DeviceId Device Blocks FileInfo FileStore FileMap GenericMap Folder.
From S2P Require Import Resolver BlockMap UpdateFolder ApplyUpdate Caches Streamer FileIterator Advance Cluster Changes Trees Removal ClusterUpdate Wire Bep Controller ControllerSample Exchange.

Section conversation.
Context `{Surroundings} (cfg : controller_config) (peer_sha default_path : bytes).
Context (Hmax : Z.of_nat (cc_blocks_max_requested cfg) < 2 ^ 31).

(** ** Serving the peer in order *)

Definition requests_in (messages : list peer_message) : list Request :=
  omap (λ m, match m with MRequest req => Some req | _ => None end) messages.

Definition context_of (c : io_command) : option Request := match c with block_request req _ _ _ => Some req | _ => None end.

(** What was sent to the peer. *)
Definition said (out : list effect) : list peer_message := out ≫= λ e, match e with SendPeer ms => ms | _ => [] end.

(** Nothing waits while there is room. *)
Definition tight (w : world) : Prop := ct_read_queue (wd_ctl w) ≠ [] → max_block_read cfg < ct_tx (wd_ctl w).

Definition refusal (req : Request) (m : peer_message) : Prop :=
  ∃ code, m = MResponse (mkResponse (rq_id req) [] code) ∧ code ≠ NO_BEP_ERROR.

(** What the messages do to the requests of the peer: those that are [accepted] come after the earlier ones, in their order; any
    other one is refused. *)
Record served (w : world) (cx : context) (asked : list Request) (w' : world) (cx' : context) : Prop := {
  sv_address : ct_peer_address (wd_ctl w') = ct_peer_address (wd_ctl w);
  sv_operational : ct_operational (wd_ctl w') = ct_operational (wd_ctl w);
  sv_data : cx_data cx `prefix_of` cx_data cx';
  sv_out : ∃ new, wd_out w' = wd_out w ++ new ∧ reads (sent new) = [];
  sv_tight : tight w → tight w';
  sv_order : ∃ accepted,
    reads (cx_io cx') ++ ct_read_queue (wd_ctl w') = reads (cx_io cx) ++ ct_read_queue (wd_ctl w) ++ accepted ∧
    omap context_of accepted `sublist_of` asked ∧
    ∀ req, req ∈ asked → req ∈ omap context_of accepted ∨
      (ct_peer_address (wd_ctl w) = true → ∃ m, m ∈ cx_data cx' ∧ refusal req m);
}.

Lemma moves_served w cx w' cx' : moves cfg w cx w' cx' → served w cx [] w' cx'.
Proof.
  intros []. split; try done.
  - exists []. by rewrite app_nil_r.
  - unfold tight. by rewrite mv_read_queue, mv_tx.
  - exists []. rewrite mv_reads, mv_read_queue, app_nil_r. split_and!; [done..|]. by intros req ?%elem_of_nil.
Qed.

Lemma served_trans w1 c1 a1 w2 c2 a2 w3 c3 :
  tight w1 → served w1 c1 a1 w2 c2 → (tight w2 → served w2 c2 a2 w3 c3) → served w1 c1 (a1 ++ a2) w3 c3.
Proof.
  intros Ht [Ha1 Hop1 Hd1 (n1 & Ho1 & Hs1) Ht1 (acc1 & E1 & S1 & A1)] H2.
  destruct (H2 (Ht1 Ht)) as [Ha2 Hop2 Hd2 (n2 & Ho2 & Hs2) Ht2 (acc2 & E2 & S2 & A2)].
  split; [congruence|congruence|by etrans| |auto|].
  - exists (n1 ++ n2). rewrite Ho2, Ho1, app_assoc, sent_app, reads_app, Hs1, Hs2. done.
  - exists (acc1 ++ acc2). rewrite E2, app_assoc, E1, <- !app_assoc, omap_app. split_and!; [done|by apply sublist_app|].
    intros req Hreq. rewrite elem_of_app in *. destruct Hreq as [Hreq|Hreq].
    + destruct (A1 _ Hreq) as [?|Hr]; [by left; left|]. right. intros Hadr. destruct (Hr Hadr) as (m & Hm & Href). exists m. split; [|done].
      destruct Hd2 as [l ->]. apply elem_of_app. by left.
    + destruct (A2 _ Hreq) as [?|Hr]; [by left; right|]. right. intros Hadr. apply Hr. congruence.
Qed.

Lemma on_request_served w cx req : tight w → ends (on_request cfg peer_sha w cx req) (λ r, served w cx [req] r.1 r.2).
Proof.
  intros Ht. unfold on_request. apply ends_bind. intros [[fo f]|code] Hr.
  - destruct (Z.ltb_spec (max_block_read cfg) (ct_tx (wd_ctl w))) as [Hlt|Hge]; apply ends_Ok; fields.
    + split; fields; try done; [by exists []; rewrite app_nil_r|by intros _ _|].
      exists [io_make_request_block f fo req]. split_and!; [done|done|]. intros r ->%list_elem_of_singleton. left. by left.
    + assert (ct_read_queue (wd_ctl w) = []) as Hq.
      { destruct (ct_read_queue (wd_ctl w)) eqn:E; [done|]. unfold tight in Ht. rewrite E in Ht. specialize (Ht ltac:(done)). lia. }
      split; fields; try done; [by exists []; rewrite app_nil_r|intros _; unfold tight; fields; by rewrite Hq|].
      exists [io_make_request_block f fo req]. rewrite Hq, reads_app, app_nil_r. split_and!; [done|done|].
      intros r ->%list_elem_of_singleton. left. by left.
  - assert (code ≠ NO_BEP_ERROR) as Hcode.
    { unfold requested_file in Hr. repeat (case_match; binds; try done); simplify_eq; done. }
    destruct (ct_peer_address (wd_ctl w)) eqn:Ha.
    + apply ends_bind. intros peer _. apply ends_bind. intros cx' Hp. apply ends_Ok. fields.
      unfold push_data in Hp. binds. fields. split; fields; try done; [by apply prefix_app_r|by exists []; rewrite app_nil_r|].
      exists []. rewrite app_nil_r. split_and!; [done|apply sublist_nil_l|]. intros r ->%list_elem_of_singleton. right. intros _.
      eexists. split; [apply elem_of_app; right; by left|]. by exists code.
    + apply ends_Ok. fields. split; try done; [by exists []; rewrite app_nil_r|]. exists []. rewrite app_nil_r.
      split_and!; [done|apply sublist_nil_l|]. intros r _. right. by rewrite Ha.
Qed.

(** An answer of the peer: what is sent in between serves no requests, as there is no room. *)
Lemma flush_inner_served w cx inner w' n :
  ct_operational (wd_ctl w) = true → cx_io inner = [] → inside cfg w cx n → flush cfg w inner = Ok w' → tight w → served w cx [] w' cx.
Proof.
  intros Hop Hin Hi Hf Ht. pose proof (in_tx _ _ _ _ Hi). pose proof (in_nonneg _ _ _ _ Hi).
  pose proof Hf as Hf2. apply (flush_operational cfg Hmax) in Hf as (ws & rs & [Fw Fr Fc Ft Fl Ftight [= F1 F2 F3 F4 F5 F6] (new & Hout & Hsent)]); [|lia|done].
  assert (rs = []) as ->.
  { destruct rs as [|r rs]; [done|]. unfold tight in Ht. rewrite Fr in Ht. specialize (Ht ltac:(done)). cbn [length] in *. lia. }
  cbn [app] in Fr. rewrite Hin in Hsent. cbn [app] in Hsent. rewrite app_nil_r in Hsent.
  pose proof (in_writes _ _ _ _ Hi) as Hw. rewrite Fw in Hw. apply Forall_app in Hw as [Hw _]. apply writes_all in Hw as [Hw _].
  split; [done|done|done|by exists new; rewrite Hsent|by intros _ ?; apply Ftight|].
  exists []. rewrite Fr, app_nil_r. split_and!; [done..|]. by intros req ?%elem_of_nil.
Qed.

(** A world in which the requests of the peer are as they were. *)
Lemma same_served w cx w' new :
  wd_out w' = wd_out w ++ new → sent new = [] → ct_peer_address (wd_ctl w') = ct_peer_address (wd_ctl w) →
  ct_operational (wd_ctl w') = ct_operational (wd_ctl w) → ct_read_queue (wd_ctl w') = ct_read_queue (wd_ctl w) →
  ct_tx (wd_ctl w') = ct_tx (wd_ctl w) → served w cx [] w' cx.
Proof.
  intros Ho Hs Ha Hop Hq Ht. split; try done.
  - exists new. by rewrite Hs.
  - unfold tight. by rewrite Hq, Ht.
  - exists []. rewrite Hq, app_nil_r. split_and!; [done..|]. by intros req ?%elem_of_nil.
Qed.

Lemma on_response_served w cx message n :
  ct_operational (wd_ctl w) = true → inside cfg w cx n → tight w → ends (on_response cfg peer_sha w cx message) (λ r, served w cx [] r.1 r.2).
Proof.
  intros Hop Hi Ht. unfold on_response. cbv zeta. set (w0 := set_rx w _).
  assert (served w cx [] (do_shutdown w0) cx) as Hdown by (apply (same_served _ _ _ []); rewrite ?app_nil_r; done).
  destruct (_ || _); [by apply ends_Ok|]. apply ends_bind. intros [pr|] Hpr; [|by apply ends_Ok].
  set (w1 := set_requests_next _ _). assert (inside cfg w1 cx n) as Hi1.
  { apply (inside_slots cfg w); try done. intros Hd. apply (slots_answer cfg Hmax w pr); [|by apply (in_slots _ _ _ _ Hi)].
    unfold the in Hpr. case_match; naive_solver. }
  assert (served w cx [] w1 cx) as S1 by (apply (same_served _ _ _ []); rewrite ?app_nil_r; done).
  apply ends_bind. intros [[[w2 inner] try_next] do_release] H2. pose proof H2 as A2.
  apply (take_answer_advances cfg _ _ cx _ _ n) in A2 as [(new2 & Ho2 & Hi2 & _ & Hop2) Hin]; [|done].
  apply take_answer_spec in H2 as (new & Ho & Hs & _ & Hst). unfold still, core in Hst. fields. injection Hst as _ _ _ E4 E5 _ E7 _ E9 _.
  assert (served w1 cx [] w2 cx) as S2 by (by apply (same_served _ _ _ new)).
  apply ends_bind. intros [w3 cx3] H3. apply ends_bind. intros [w4 cx4] H4. apply ends_bind. intros w5 H5. apply ends_Ok. fields.
  assert (moves cfg w2 cx w4 cx4) as M4.
  { eapply (moves_trans cfg _ _ w3 cx3).
    - destruct try_next; [by apply (pull_next_moves cfg _ Hmax) in H3|injection H3 as <- <-; apply moves_refl].
    - destruct do_release; binds; [|apply moves_refl]. case_match. case_match. binds.
      match goal with E : release_block _ _ _ _ = _ |- _ => apply release_block_still in E as [? ?] end. by apply still_moves. }
  apply (served_trans _ _ [] w1 cx); [done|done|]. intros Ht1. apply (served_trans _ _ [] w2 cx); [done|done|]. intros Ht2.
  apply (served_trans _ _ [] w4 cx4); [done|by apply moves_served|]. intros Ht4.
  apply (flush_inner_served _ _ inner _ (n + reads_in new2)); try done; [|by eapply inside_moves].
  by rewrite (mv_operational _ _ _ _ _ M4), E7.
Qed.

Lemma on_message_served w cx message n :
  ct_operational (wd_ctl w) = true → inside cfg w cx n → tight w →
  ends (on_message cfg peer_sha default_path w cx message) (λ r, served w cx (requests_in [message]) r.1 r.2).
Proof.
  intros Hop Hi Ht. destruct message as [m|m|m|m|m]; cbn [on_message].
  - intros r Hr. apply moves_served. by apply (on_cluster_config_moves cfg) in Hr.
  - intros r Hr. apply moves_served. by apply (on_index_moves cfg) in Hr.
  - intros r Hr. apply moves_served. by apply (on_index_moves cfg) in Hr.
  - by apply on_request_served.
  - by eapply on_response_served.
Qed.

Lemma on_messages_served messages : ∀ w cx n,
  ct_operational (wd_ctl w) = true → inside cfg w cx n → tight w →
  ends (on_messages cfg peer_sha default_path messages w cx) (λ r, served w cx (requests_in messages) r.1 r.2).
Proof.
  induction messages as [|message messages IH]; intros w cx n Hop Hi Ht; cbn [on_messages].
  - apply ends_Ok, moves_served, moves_refl.
  - apply ends_bind. intros [w1 cx1] H1. pose proof H1 as S1. apply (on_message_advances cfg _ _ Hmax _ _ _ n) in H1 as (new & _ & Hi1 & _ & Hop1); [|done..].
    apply (on_message_served _ _ _ n) in S1; [|done..]. fields. intros [w2 cx2] H2.
    change (requests_in (message :: messages)) with (requests_in ([message] ++ messages)). unfold requests_in. rewrite omap_app.
    apply (served_trans _ _ _ w1 cx1); [done|done|]. intros Ht1. apply (IH _ _ (n + reads_in new)) in H2; [done|by rewrite Hop1|done|done].
Qed.

Lemma said_app o1 o2 : said (o1 ++ o2) = said o1 ++ said o2.
Proof. apply bind_app. Qed.

(** What was collected for the peer is sent to it. *)
Lemma flush_said w cx w' new m :
  flush cfg w cx = Ok w' → wd_out w' = wd_out w ++ new → ct_peer_address (wd_ctl w) = true → m ∈ cx_data cx → m ∈ said new.
Proof.
  unfold flush. intros (w1 & H1 & E)%bind_Ok Ho Ha Hm. case_bool_decide as Hnil; [by rewrite Hnil in Hm; apply elem_of_nil in Hm|].
  assert (∃ n1, wd_out w1 = wd_out w ++ n1 ∧ ct_peer_address (wd_ctl w1) = ct_peer_address (wd_ctl w)) as (n1 & O1 & A1).
  { unfold flush_io, modify_write_requests in H1. repeat (case_match; binds); fields.
    all: first [by eexists|by exists []; rewrite app_nil_r]. }
  assert (∃ n2, new = n2 ++ [SendPeer (cx_data cx)]) as [n2 ->].
  { destruct (has_diffs (cx_diffs cx)); fields; rewrite A1, Ha in E; binds; fields; rewrite O1, <- !app_assoc in Ho; apply app_inv_head in Ho; subst new.
    - exists (n1 ++ [SendUpdate (a_root (cx_diffs cx))]). by rewrite <- app_assoc.
    - by exists n1. }
  rewrite said_app. apply elem_of_app. right. cbn. by rewrite app_nil_r.
Qed.

(** C9: the peer is served in the order of its requests. The reads that are sent for a batch of messages, followed by those that
    wait, are the ones that waited before and then the requests that were accepted, in their order; every other request is
    answered with an error as long as there is a connection. *)
Theorem served_in_order (w : world) (n : Z) (messages : list peer_message) (w' : world) :
  books cfg w n → ct_operational (wd_ctl w) = true → handle_event cfg peer_sha default_path (Forwarded messages) w = Ok w' →
  ∃ new accepted, wd_out w' = wd_out w ++ new ∧
    reads (sent new) ++ ct_read_queue (wd_ctl w') = ct_read_queue (wd_ctl w) ++ accepted ∧
    omap context_of accepted `sublist_of` requests_in messages ∧
    ∀ req, req ∈ requests_in messages → req ∈ omap context_of accepted ∨
      (ct_peer_address (wd_ctl w) = true → ∃ m, m ∈ said new ∧ refusal req m).
Proof.
  intros Hb Hop. cbn [handle_event]. unfold on_forward. rewrite Hop. intros ([w1 cx1] & H1 & Hf)%bind_Ok.
  assert (tight w) as Ht. { intros Hq. rewrite (bk_tx _ _ _ Hb). by apply (bk_tight _ _ _ Hb). }
  pose proof (books_inside _ _ _ false Hb) as Hi. pose proof H1 as S1.
  apply (on_messages_advances cfg _ _ Hmax _ _ _ n) in H1 as (new1 & Ho1 & Hi1 & _ & Hop1); [|done..].
  apply (on_messages_served _ _ _ n) in S1 as [Ha _ _ (new & Ho & Hs) _ (acc & E & Hsub & Hans)]; [|done..]. fields.
  pose proof (in_tx _ _ _ _ Hi1). pose proof (in_nonneg _ _ _ _ Hi1). pose proof Hf as Hf2.
  apply (flush_operational cfg Hmax) in Hf as (ws & rs & [Fw Fr _ _ _ _ _ (new2 & Hout & Hsent)]); [|lia|by rewrite Hop1].
  exists (new ++ new2), acc. split; [by rewrite Hout, Ho, app_assoc|]. rewrite sent_app, reads_app, Hs, Hsent, !reads_app.
  pose proof (in_writes _ _ _ _ Hi1) as Hw. rewrite Fw in Hw. apply Forall_app in Hw as [[Hw _]%writes_all _]. rewrite Hw.
  pose proof (in_reads _ _ _ _ Hi1) as Hr. rewrite Fr in Hr. apply Forall_app in Hr as [[Hr _]%reads_all _]. rewrite Hr.
  cbn [app]. rewrite <- app_assoc, <- Fr, E. split_and!; [done|done|]. intros req Hreq. destruct (Hans req Hreq) as [?|Href]; [by left|right].
  intros Hadr. destruct (Href Hadr) as (m & Hm & Hrf). exists m. split; [|done]. rewrite said_app. apply elem_of_app. right.
  eapply flush_said; [exact Hf2|exact Hout|by rewrite Ha|exact Hm].
Qed.

(** ** Runs *)

(** The messages to the file system in what was sent. *)
Definition io_messages (out : list effect) : list (list io_command) := omap (λ e, match e with SendIo cs => Some cs | _ => None end) out.

Lemma io_messages_sent out : concat (io_messages out) = sent out.
Proof.
  induction out as [|e out IH]; [done|]. unfold io_messages, sent in *. destruct e; cbn [omap list_omap mbind list_bind concat]; by rewrite ?IH.
Qed.

(** The states the actor goes through from [w0] on; [under] are the messages the file system has not answered yet. It answers
    each of them once; any other event may come at any time. [ok] restricts the events. *)
Inductive run (ok : world → event → Prop) (w0 : world) : world → list (list io_command) → Prop :=
| run_start : run ok w0 w0 []
| run_io w before cmds after w' new :
    run ok w0 w (before ++ cmds.*1 :: after) → ok w (IoDone cmds) →
    handle_event cfg peer_sha default_path (IoDone cmds) w = Ok w' → wd_out w' = wd_out w ++ new →
    run ok w0 w' (before ++ after ++ io_messages new)
| run_event w under e w' new :
    run ok w0 w under → (∀ cmds, e ≠ IoDone cmds) → ok w e →
    handle_event cfg peer_sha default_path e w = Ok w' → wd_out w' = wd_out w ++ new →
    run ok w0 w' (under ++ io_messages new).

(** The actor as it is made. *)
Definition fresh (w : world) : Prop := ∃ state pool, wd_ctl w = new_controller cfg state pool.

Lemma occupied_empty n : occupied (replicate n None) = 0%nat.
Proof. induction n as [|n IH]; [done|]. cbn [replicate]. by rewrite occupied_cons, IH. Qed.

Lemma fresh_books w : (0 < cc_blocks_max_requested cfg)%nat → fresh w → books cfg w 0.
Proof.
  intros Hpos (state & pool & Hw). pose proof (max_block_read_small cfg Hmax). split; rewrite ?Hw; unfold new_controller; fields; try done; [lia|].
  intros _. split; fields; [apply length_replicate|done|by rewrite occupied_empty|].
  intros i pr Hi. by apply lookup_replicate in Hi as [[=] _].
Qed.

Lemma run_books ok w0 w under :
  (0 < cc_blocks_max_requested cfg)%nat → fresh w0 → run ok w0 w under → books cfg w (Z.of_nat (length (reads (concat under)))).
Proof.
  intros Hpos Hf. induction 1 as [|w before cmds after w' new _ IH _ He Ho|w under e w' new _ IH Hne _ He Ho].
  - by apply fresh_books.
  - rewrite concat_app, reads_app, length_app in IH. cbn [concat] in IH. rewrite reads_app, length_app in IH.
    apply (handle_event_ok cfg _ _ Hmax _ _ _ _ IH) in He as (new' & Ho' & Hb & _); [|cbn [reads_done]; unfold reads_of; lia].
    rewrite Ho in Ho'. apply app_inv_head in Ho' as <-. cbn [reads_done] in Hb. unfold reads_of, reads_in in Hb.
    rewrite !concat_app, !reads_app, !length_app, io_messages_sent. by replace (Z.of_nat _) with (Z.of_nat (length (reads (concat before)) + (length (reads cmds.*1) + length (reads (concat after)))) - Z.of_nat (length (reads cmds.*1)) + Z.of_nat (length (reads (sent new)))) by lia.
  - assert (reads_done e = 0) as Hr by (destruct e; try done; by destruct (Hne commands)).
    apply (handle_event_ok cfg _ _ Hmax _ _ _ _ IH) in He as (new' & Ho' & Hb & _); [|rewrite Hr; lia].
    rewrite Ho in Ho'. apply app_inv_head in Ho' as <-. rewrite Hr in Hb. unfold reads_in in Hb.
    rewrite concat_app, reads_app, length_app, io_messages_sent. by replace (Z.of_nat _) with (Z.of_nat (length (reads (concat under))) - 0 + Z.of_nat (length (reads (sent new)))) by lia.
Qed.

(** The search for a slot goes around once. *)
Lemma find_slot_ok rs i : length rs = cc_blocks_max_requested cfg → ∀ k next,
  (k < cc_blocks_max_requested cfg)%nat → (∃ j, (j < i)%nat ∧ rs !! ((k + j) mod cc_blocks_max_requested cfg)%nat = Some None) →
  ∃ id after, find_slot cfg i rs k next = Ok (id, after) ∧ rs !! id = Some None ∧ (after < cc_blocks_max_requested cfg)%nat.
Proof.
  intros Hl. set (n := cc_blocks_max_requested cfg) in *. induction i as [|i IH]; intros k next Hk (j & Hj & Hslot); [lia|]. cbn [find_slot]. fold n.
  destruct (lookup_lt_is_Some_2 rs k) as [slot Hs]; [by rewrite Hl|]. rewrite Hs.
  set (after := if (n <=? k + 1)%nat then 0%nat else (k + 1)%nat). assert (after < n)%nat as Hafter by (unfold after; destruct (Nat.leb_spec n (k + 1)); lia).
  destruct slot as [pr|]; [|by exists k, after].
  apply IH; [done|]. destruct j as [|j]; [rewrite Nat.add_0_r, Nat.mod_small in Hslot by done; congruence|]. exists j. split; [lia|].
  rewrite <- Hslot. f_equal. unfold after. destruct (Nat.leb_spec n (k + 1)).
  - replace (k + S j)%nat with (j + 1 * n)%nat by lia. by rewrite Nat.Div0.mod_add.
  - f_equal. lia.
Qed.

(** C7: whatever the peer, the file system and other parts of the program do, and in any order: the reads that are counted are those
    under way, at most one more than three times the number of slots; more requests of the peer wait only when it is exceeded; and
    as long as the actor is not asked to end, the requests to the peer are those in the slots, each in the one of its number. *)
Theorem exchange_bounded (w0 w : world) (under : list (list io_command)) :
  (0 < cc_blocks_max_requested cfg)%nat → fresh w0 → run (λ _ _, True) w0 w under →
  ct_tx (wd_ctl w) = Z.of_nat (length (reads (concat under))) ∧
  ct_tx (wd_ctl w) <= 3 * Z.of_nat (cc_blocks_max_requested cfg) + 1 ∧
  (ct_operational (wd_ctl w) = true → ct_read_queue (wd_ctl w) ≠ [] → 3 * Z.of_nat (cc_blocks_max_requested cfg) < ct_tx (wd_ctl w)) ∧
  (ct_shutdown (wd_ctl w) = false →
    length (ct_requests (wd_ctl w)) = cc_blocks_max_requested cfg ∧
    ct_rx (wd_ctl w) = Z.of_nat (occupied (ct_requests (wd_ctl w))) ∧
    ∀ i pr, ct_requests (wd_ctl w) !! i = Some (Some pr) → rq_id (pr_request pr) = Z.of_nat i).
Proof.
  intros Hpos Hf Hr. destruct (run_books _ _ _ _ Hpos Hf Hr) as [Htx Hle Ht _ _ Hs]. unfold max_block_read, tx_blocks_max_factor in *.
  split_and!; [done|lia|intros Hop Hq; specialize (Ht Hop Hq); lia|]. intros Hd. by destruct (Hs Hd).
Qed.

(** C10: a request always finds a free slot. When the actor may pull more, the search of [preprocess_block] ends at a slot that holds no
    request, its assertions hold, and the number of the slot is the number of no other request. *)
Theorem request_finds_slot (w0 w : world) (under : list (list io_command)) (advances : Z) :
  (0 < cc_blocks_max_requested cfg)%nat → fresh w0 → run (λ _ _, True) w0 w under →
  ct_shutdown (wd_ctl w) = false → can_pull_more cfg w advances = true →
  let c := wd_ctl w in
  ∃ id next, find_slot cfg (cc_blocks_max_requested cfg) (ct_requests c) (ct_requests_next c) (ct_requests_next c) = Ok (id, next) ∧
    (next < cc_blocks_max_requested cfg)%nat ∧ ct_requests c !! id = Some None ∧
    ∀ i pr, ct_requests c !! i = Some (Some pr) → rq_id (pr_request pr) ≠ i32 (Z.of_nat id).
Proof.
  intros Hpos Hf Hr Hd Hcan c. destruct (bk_slots _ _ _ (run_books _ _ _ _ Hpos Hf Hr) Hd) as [Hl Hn Hrx Hids]. fold c in Hl, Hn, Hrx, Hids.
  unfold can_pull_more in Hcan. rewrite negb_true_iff, !orb_false_iff, Z.leb_gt in Hcan. destruct Hcan as ((((Hroom & _) & _) & _) & _). fold c in Hroom.
  destruct (occupied_none (ct_requests c)) as [i Hi]; [lia|]. assert (i < length (ct_requests c))%nat as Hlt by (by eapply lookup_lt_Some).
  destruct (find_slot_ok (ct_requests c) (cc_blocks_max_requested cfg) Hl (ct_requests_next c) (ct_requests_next c) Hn) as (id & next & E & Hid & Hnext).
  { rewrite Hl in Hlt. destruct (decide (ct_requests_next c <= i)%nat) as [Hle|Hgt].
    - exists (i - ct_requests_next c)%nat. split; [lia|]. rewrite Nat.mod_small by lia. by replace (ct_requests_next c + _)%nat with i by lia.
    - exists (cc_blocks_max_requested cfg - ct_requests_next c + i)%nat. split; [lia|].
      replace (ct_requests_next c + _)%nat with (i + 1 * cc_blocks_max_requested cfg)%nat by lia. by rewrite Nat.Div0.mod_add, Nat.mod_small by lia. }
  exists id, next. split_and!; [done..|]. intros k pr Hk. rewrite (Hids _ _ Hk). apply lookup_lt_Some in Hid as Hidlt.
  unfold i32, u32. rewrite Z.mod_small by lia. destruct (Z.ltb_spec (Z.of_nat id) (2 ^ 31)); [|lia]. intros Heq. assert (k = id) by lia. congruence.
Qed.

(** C8: write requests are borrowed and given back. Along any run in which nobody else takes any and no request to the file system is
    given up, those that are left and the writes under way add up to the number at the start. *)
Theorem write_requests_conserved (w0 w : world) (under : list (list io_command)) :
  (0 < cc_blocks_max_requested cfg)%nat → fresh w0 → run conserving w0 w under →
  wd_write_requests w + writes (concat under) = wd_write_requests w0.
Proof.
  intros Hpos Hf. induction 1 as [|w before cmds after w' new Hr IH Hok He Ho|w under e w' new Hr IH Hne Hok He Ho].
  - change (writes (concat [])) with 0. lia.
  - pose proof (run_books _ _ _ _ Hpos Hf Hr) as Hb. rewrite concat_app, reads_app, length_app in Hb. cbn [concat] in Hb. rewrite reads_app, length_app in Hb.
    apply (handle_event_ok cfg _ _ Hmax _ _ _ _ Hb) in He as (new' & Ho' & _ & Hc); [|cbn [reads_done]; unfold reads_of; lia].
    rewrite Ho in Ho'. apply app_inv_head in Ho' as <-. specialize (Hc Hok). cbn [writes_done] in Hc. unfold writes_of, writes_in in Hc.
    rewrite !concat_app, !writes_app in *. cbn [concat] in IH. rewrite writes_app, io_messages_sent in *. lia.
  - pose proof (run_books _ _ _ _ Hpos Hf Hr) as Hb.
    assert (reads_done e = 0 ∧ writes_done e = 0) as [Hre Hwe] by (destruct e; try done; by destruct (Hne commands)).
    apply (handle_event_ok cfg _ _ Hmax _ _ _ _ Hb) in He as (new' & Ho' & _ & Hc); [|rewrite Hre; lia].
    rewrite Ho in Ho'. apply app_inv_head in Ho' as <-. specialize (Hc Hok). rewrite Hwe in Hc. unfold writes_in in Hc.
    rewrite concat_app, writes_app, io_messages_sent. lia.
Qed.

(** ** What is written *)

(** A file is still the one a request is about: the peer has it under the name, in a folder that is in use, with the sequence number
    it had at the time of the request. *)
Definition still_asked (m : model) (pr : peer_request) (fo : folder) (p : file_ptr) (f : file_info) : Prop :=
  ∃ fi, folder_by_id (folders_of m) (rq_folder (pr_request pr)) = Some fo ∧ fo_suspended fo = false ∧
    by_device_id (fo_infos fo) peer_sha = Some fi ∧ by_name (fi_files fi) (rq_name (pr_request pr)) = Some p ∧
    cl_files (mo_cluster m) !! p = Some f ∧ f_sequence f = pr_sequence pr.

(** The file that was asked about, in a cluster that is in order. *)
Lemma asked_file_spec m pr p f fo b fb : wf_cluster (mo_cluster m) →
  asked_file peer_sha m pr = Ok (Some (p, f, fo, b, fb)) →
  cl_files (mo_cluster m) !! p = Some f ∧ f_name f = rq_name (pr_request pr) ∧ fd_id (fo_data fo) = rq_folder (pr_request pr) ∧
  still_asked m pr fo p f ∧
  ∃ q, heap_of_model m !! q = Some b ∧ slot_at (slots <$> cl_files (mo_cluster m)) p (Z.to_nat (fb_block_index fb)) = Some q ∧
    block_at f (pr_block_index pr) = Ok (Some q).
Proof.
  intros Hwf. unfold asked_file, folders_of. destruct (folder_by_id _ _) as [fo'|] eqn:Hfo; [|done]. destruct (fo_suspended fo') eqn:Hsus; [done|].
  destruct (by_device_id _ _) as [fi|] eqn:Hfi; [|done]. intros (r & Hr & E)%bind_Ok. unfold file_by_name in Hr.
  destruct (by_name (fi_files fi) _) as [p'|] eqn:Hn; [|binds; done]. case_match eqn:Hp; [|done]. binds. unfold the in *. binds.
  case_match; [|done]. binds. case_match; [|done]. binds. case_match; binds; [|done].
  match goal with E : deref _ _ = Ok _ |- _ => unfold deref in E; case_match eqn:Hq; [|done]; injection E as <- end.
  assert (still_asked m pr fo p f) as Hask by (exists fi; split_and!; try done; by apply Z.eqb_eq).
  unfold folder_by_id in Hfo. apply head_Some_elem_of, list_elem_of_filter in Hfo as [Hid Hfo].
  unfold by_device_id, gget in Hfi. apply head_Some_elem_of, list_elem_of_filter in Hfi as [_ Hfi].
  apply by_name_elem in Hn as (e & He & Hfile & Hname). destruct (cl_wf_infos _ Hwf _ _ Hfo Hfi) as (_ & _ & Hinfos).
  destruct (Hinfos e He) as (f' & Hf' & Hee). rewrite Hfile, Hp in Hf'. injection Hf' as <-.
  match goal with E : head _ = Some fb |- _ => apply head_Some_elem_of, list_elem_of_filter in E as [Hfb Hin] end.
  split_and!; [done|by rewrite <- Hname, Hee|done|done|]. eexists. split_and!; [exact Hq| |by match goal with E : block_at _ _ = Ok _ |- _ => rewrite E end].
  apply (cell_spots _ _ _ _ (heap_cell _ _ _ (bm_heap _ _ _ (cl_wf_blocks _ Hwf)) _ _ Hq)).
  apply list_elem_of_fmap. exists fb. unfold spot. rewrite Hfb. split; [done|].
  match goal with E : iterate_blocks _ = Ok _ |- _ => unfold iterate_blocks in E; unfold places end. repeat case_match; try done; by binds.
Qed.

(** C6: only blocks that were verified are written. When the digest of a block arrives, a command to write it is issued only if the file
    is still the one that was asked about: the peer has it under the name of the request, with the sequence it had then, in a folder that
    is in use; and the digest is the hash the peer announced for the block at the index of the request; the data that was hashed is
    written to the path of this file, at the offset of a place of this block in it. *)
Theorem only_verified_written (w : world) (pr : peer_request) (data : bytes) (digest : option bytes)
    (w' : world) (cx' : context) (file : option file_ptr) (release more : bool) (c : io_command) :
  wf_cluster (mo_cluster (wd_model w)) →
  check_digest peer_sha w (new_context false) pr data digest = Ok (w', cx', file, release, more) →
  c ∈ cx_io cx' ∨ c ∈ ct_write_queue (wd_ctl w') ∧ c ∉ ct_write_queue (wd_ctl w) →
  let h := heap_of_model (wd_model w) in
  ∃ fo p f q b i offset size,
    file = Some p ∧ still_asked (wd_model w) pr fo p f ∧ block_at f (pr_block_index pr) = Ok (Some q) ∧
    slot_at (slots <$> cl_files (mo_cluster (wd_model w))) p (Z.to_nat i) = Some q ∧ h !! q = Some b ∧ digest = Some (b_hash b) ∧
    get_block_offset f h i = Ok offset ∧ get_size f h = Ok size ∧
    c = append_block (mkAckContext (rq_folder (pr_request pr)) peer_sha (rq_name (pr_request pr)) (b_hash b) i)
          (rq_folder (pr_request pr)) (get_path fo f) data offset size.
Proof.
  intros Hwf E Hc h. unfold check_digest in E. cbv zeta in E. apply bind_Ok in E as (asked & Ha & E).
  assert (∀ w1 cx1, still w w1 → cx_io cx1 = [] → (c ∈ cx_io cx1 ∨ c ∈ ct_write_queue (wd_ctl w1) ∧ c ∉ ct_write_queue (wd_ctl w)) → False) as Hnone.
  { intros w1 cx1 Hs Hio. assert (ct_write_queue (wd_ctl w1) = ct_write_queue (wd_ctl w)) as E6 by (unfold still, core in Hs; congruence).
    rewrite Hio, E6. intros [?%elem_of_nil|[]]; done. }
  destruct (ct_operational (wd_ctl w)) eqn:Hop; cbn [negb] in E; [|binds; exfalso; exact (Hnone _ (new_context false) eq_refl eq_refl Hc)].
  destruct asked as [[[[[p f] fo] b] fb]|]; [|binds; exfalso; exact (Hnone _ (new_context false) eq_refl eq_refl Hc)].
  destruct (ct_peer_address (wd_ctl w)); cbn [negb] in E; [|binds; exfalso; exact (Hnone _ (new_context false) eq_refl eq_refl Hc)]. case_bool_decide as Hd.
  { exfalso. destruct (negb (is_unreachable f)); binds; [|exact (Hnone _ (new_context false) eq_refl eq_refl Hc)]. case_match. binds.
    match goal with E : context_mark_unreachable _ _ _ _ _ = Ok _ |- _ => apply mark_unreachable_still in E as [Hs [Hio _]] end.
    exact (Hnone _ _ Hs Hio Hc). }
  destruct (fb_is_locally_available fb); [binds; exfalso; exact (Hnone _ (new_context false) eq_refl eq_refl Hc)|].
  destruct (asked_file_spec _ _ _ _ _ _ _ Hwf Ha) as (Hp & Hname & Hid & Hask & q & Hq & Hslot & Hasked).
  apply bind_Ok in E as ([w1 cx1] & E1 & E). injection E as <- <- <- <- <-. unfold io_append_block in E1. cbv zeta in E1.
  apply bind_Ok in E1 as (size & Hsize & (q1 & Hat & (q2 & Hthe & (b1 & Hb1 & (offset & Hoff & E1)%bind_Ok)%bind_Ok)%bind_Ok)%bind_Ok).
  assert (q2 = q) as ->.
  { unfold block_at, it_next, it_blocks in Hat. cbn [it_file it_next_index] in Hat. unfold slot_at in Hslot. rewrite lookup_fmap, Hp in Hslot. cbn in Hslot.
    unfold slots, file_blocks in *. destruct (is_file f); [|cbn in Hat; injection Hat as <-; discriminate Hthe].
    destruct (f_content f) as [bs|]; cbn [res_bind] in Hat; [|done]. destruct (bs !! Z.to_nat (fb_block_index fb)) as [s|]; [|done].
    cbn in Hslot. cbn [res_bind] in Hat. injection Hat as <-. rewrite Hslot in Hthe. by injection Hthe as <-. }
  unfold deref in Hb1. fold h in Hq, Hb1. rewrite Hq in Hb1. injection Hb1 as <-.
  exists fo, p, f, q, b, (fb_block_index fb), offset, size. split_and!; try done.
  rewrite Hname, Hid in E1. unfold push_checked in E1. rewrite Hop in E1.
  destruct (negb _); binds; fields.
  - destruct Hc as [Hc|[? []]]; [|done]. cbn in Hc. apply list_elem_of_singleton in Hc. by rewrite Hc.
  - destruct Hc as [Hc%elem_of_nil|[Hc Hnc]]; [done|]. apply elem_of_app in Hc as [Hc|Hc%list_elem_of_singleton]; [done|]. by rewrite Hc.
Qed.
End conversation.

(** ** Witnesses *)

#[local] Existing Instance r_environment.
#[local] Existing Instance c_codec.
#[local] Existing Instance c_surroundings.

Lemma c_fresh n : fresh c_config (c_world n).
Proof. by exists (mkState 9 online None), 10000. Qed.

Lemma c_max : Z.of_nat (cc_blocks_max_requested c_config) < 2 ^ 31.
Proof. done. Qed.

Example served_in_order_witness :
  ct_operational (wd_ctl (c_world 5)) = true ∧
  ∃ new accepted, wd_out c_busy = wd_out (c_world 5) ++ new ∧ length (reads (sent new)) = 7%nat ∧
    reads (sent new) ++ ct_read_queue (wd_ctl c_busy) = accepted ∧ omap context_of accepted = map (λ i, c_request (Z.of_nat i)) (seq 0 9).
Proof.
  split; [done|].
  destruct (served_in_order c_config c_peer [] c_max (c_world 5) 0 c_requests c_busy) as (new & accepted & Ho & Hq & _ & _).
  - apply (fresh_books c_config c_max); [by vm_compute; lia|apply c_fresh].
  - done.
  - apply c_handled. by vm_compute.
  - assert (new = wd_out c_busy) as -> by (rewrite Ho; done). change (ct_read_queue (wd_ctl (c_world 5)) ++ accepted) with accepted in Hq.
    exists (wd_out c_busy), accepted. split_and!; [done|by vm_compute|done|]. rewrite <- Hq. by vm_compute.
Defined.

Lemma c_run_busy ok : ok (c_world 5) (Forwarded c_requests) → run c_config c_peer [] ok (c_world 5) c_busy (io_messages (wd_out c_busy)).
Proof.
  intros Hok. eapply (run_event c_config c_peer [] ok (c_world 5) (c_world 5) [] (Forwarded c_requests)); [apply run_start|done|done|apply c_handled; by vm_compute|done].
Qed.

Example exchange_bounded_witness :
  ct_tx (wd_ctl c_busy) = Z.of_nat (length (reads (concat (io_messages (wd_out c_busy))))) ∧ ct_tx (wd_ctl c_busy) = 7 ∧
  ct_read_queue (wd_ctl c_busy) ≠ [] ∧ 6 < ct_tx (wd_ctl c_busy).
Proof.
  destruct (exchange_bounded c_config c_peer [] c_max (c_world 5) c_busy (io_messages (wd_out c_busy))) as (Htx & _ & Ht & _).
  - by vm_compute; lia.
  - apply c_fresh.
  - by apply c_run_busy.
  - split; [exact Htx|]. split; [by vm_compute|]. split; [by vm_compute|]. apply Ht; by vm_compute.
Defined.

Lemma c_run_writing ok :
  (∀ w e, ok w e) ∨ ok = conserving →
  run c_config c_peer [] ok (c_world 5) c_received [] ∧ ∃ under, run c_config c_peer [] ok (c_world 5) c_writing under ∧ writes (concat under) = 1.
Proof.
  intros Hok.
  assert (run c_config c_peer [] ok (c_world 5) c_asking ([] ++ io_messages (wd_out c_asking))) as R1.
  { eapply (run_event c_config c_peer [] ok _ (c_world 5) [] c_announced); [apply run_start|done|destruct Hok as [?| ->]; done|apply c_handled; by vm_compute|done]. }
  assert (∃ new, wd_out c_received = wd_out c_asking ++ new ∧ io_messages new = []) as (new & Ho & Hn).
  { exists (drop (length (wd_out c_asking)) (wd_out c_received)). split; by vm_compute. }
  assert (run c_config c_peer [] ok (c_world 5) c_received (([] ++ io_messages (wd_out c_asking)) ++ io_messages new)) as R2.
  { eapply (run_event c_config c_peer [] ok _ c_asking _ (Forwarded [MResponse (mkResponse 0 [1; 2] NO_BEP_ERROR)]));
      [exact R1|done|destruct Hok as [?| ->]; done|apply c_handled; by vm_compute|done]. }
  rewrite Hn in R2. assert (([] ++ io_messages (wd_out c_asking)) ++ [] = []) as Ha by by vm_compute. rewrite Ha in R2.
  split; [exact R2|]. exists ([] ++ io_messages (drop (length (wd_out c_received)) (wd_out c_writing))). split; [|by vm_compute].
  eapply (run_event c_config c_peer [] ok _ c_received [] (Digested c_first_request [1; 2] (Some (repeat 1 32))));
    [exact R2|done|destruct Hok as [?| ->]; done|apply c_handled; by vm_compute|by vm_compute].
Qed.

Example request_finds_slot_witness :
  can_pull_more c_config c_received 0 = true ∧
  ∃ id next, find_slot c_config 2 (ct_requests (wd_ctl c_received)) (ct_requests_next (wd_ctl c_received)) (ct_requests_next (wd_ctl c_received)) = Ok (id, next) ∧
    ct_requests (wd_ctl c_received) !! id = Some None.
Proof.
  split; [by vm_compute|].
  destruct (request_finds_slot c_config c_peer [] c_max (c_world 5) c_received [] 0) as (id & next & E & _ & Hid & _).
  - by vm_compute; lia.
  - apply c_fresh.
  - apply c_run_writing. by left.
  - by vm_compute.
  - by vm_compute.
  - exists id, next. split; [exact E|exact Hid].
Defined.

Example write_requests_conserved_witness :
  ∃ under, wd_write_requests c_writing = 4 ∧ writes (concat under) = 1 ∧ wd_write_requests c_writing + writes (concat under) = 5.
Proof.
  destruct (c_run_writing conserving) as (_ & under & Hr & Hw); [by right|]. exists under. split; [by vm_compute|]. split; [done|].
  apply (write_requests_conserved c_config c_peer [] c_max (c_world 5) c_writing under); [by vm_compute; lia|apply c_fresh|exact Hr].
Defined.

(** The world of [r_model], in which the peer's file has the blocks 5 and 6. *)
Definition v_world : world := mkWorld r_model ∅ 5 0 (new_controller c_config (mkState 9 online None) 10000) [].
Definition v_request : peer_request := mkPeerRequest (mkRequest 1 (chars "f") (chars "a") 100 50 (repeat 2 32)) 2 1.
Definition v_write : io_command :=
  append_block (mkAckContext (chars "f") c_peer (chars "a") (repeat 2 32) 1) (chars "f") (chars "a") [3; 4] 100 150.

Example only_verified_written_witness :
  ∃ w' cx', check_digest c_peer v_world (new_context false) v_request [3; 4] (Some (repeat 2 32)) = Ok (w', cx', Some 2%positive, false, false) ∧
    v_write ∈ cx_io cx' ∧ ∃ p q b, p = 2%positive ∧ q = 6%positive ∧ cl_heap (mo_cluster r_model) !! q = Some b ∧ Some (repeat 2 32) = Some (b_hash b).
Proof.
  destruct (check_digest c_peer v_world (new_context false) v_request [3; 4] (Some (repeat 2 32))) as [[[[[w' cx'] file] release] more]|e|] eqn:E;
    [|by vm_compute in E..].
  assert (file = Some 2%positive ∧ release = false ∧ more = false ∧ cx_io cx' = [v_write]) as (-> & -> & -> & Hio) by (vm_compute in E; injection E as <- <- <- <- <-; by vm_compute).
  exists w', cx'. split; [done|]. split; [rewrite Hio; by left|].
  destruct (only_verified_written c_peer v_world v_request [3; 4] (Some (repeat 2 32)) w' cx' (Some 2%positive) false false v_write)
    as (fo & p & f & q & b & i & offset & size & Hp & Hf & _ & Hs & Hq & Hd & _ & _ & Hc).
  - apply r_cluster_wf.
  - exact E.
  - left. rewrite Hio. by left.
  - exists p, q, b. injection Hp as <-. unfold v_write in Hc. injection Hc as _ <- _ _ _. vm_compute in Hs. injection Hs as <-. done.
Defined.
