(* ===== verification/Pulling.v ===== *)
(** * Pulling: the loop of [pull_next] of the [Controller] ends. Every round uses up a block of the current file, the current file
    itself, a file that became ready, or a file of the queues of the file iterator. *)

From S2P Require Import Prelude Diff Version Proto DeviceId Device Blocks FileInfo FileStore FileMap GenericMap Folder.
From S2P Require Import Resolver BlockMap UpdateFolder ApplyUpdate Caches Streamer FileIterator Advance Cluster Changes Trees Removal ClusterUpdate Wire Bep Controller ControllerSample Exchange.

(** ** The queues of the file iterator *)

Definition queue_total (its : list folder_iterator) : nat := list_sum (map (λ it, length (it_queue it)) its).

Lemma queue_total_insert its : ∀ i it it', its !! i = Some it →
  (queue_total (<[i := it']> its) + length (it_queue it) = queue_total its + length (it_queue it'))%nat.
Proof.
  induction its as [|x its IH]; intros [|i] it it' Hi; try done.
  - injection Hi as ->. change (<[0%nat := it']> (it :: its)) with (it' :: its). unfold queue_total. cbn [map list_sum foldr]. lia.
  - change (<[S i := it']> (x :: its)) with (x :: <[i := it']> its). specialize (IH i it it' Hi). unfold queue_total in *. cbn [map list_sum foldr] in *. unfold list_sum in *. lia.
Qed.

Section queues.
Context `{Platform} (utc_to_local : Z → local_time) (self_sha256 peer_sha256 : bytes).

Lemma scan_queue_shorter cl locked fo local peer queue : ends (scan_queue utc_to_local cl locked fo local peer queue)
  (λ r, (length r.1 + (if r.2 is Some _ then 1 else 0) <= length queue)%nat).
Proof.
  induction queue as [|p queue IH]; cbn [scan_queue]; [by apply ends_Ok|]. ends_all; cbn [fst snd length]; try lia.
  all: intros r Hr; apply IH in Hr; lia.
Qed.

Lemma scan_folder_shorter cl views locked it : ends (scan_folder utc_to_local self_sha256 peer_sha256 cl views locked it)
  (λ r, (length (it_queue r.1) + (if r.2 is Some _ then 1 else 0) <= length (it_queue it))%nat).
Proof.
  unfold scan_folder. ends_all; cbn [fst snd]; [|lia]. by apply scan_queue_shorter in H3.
Qed.

Lemma fit_next_shorter cl views locked scans : ∀ fit, ends (fit_next_loop utc_to_local self_sha256 peer_sha256 scans cl views locked fit)
  (λ r, (queue_total (fit_folders r.1) + (if r.2 is Some _ then 1 else 0) <= queue_total (fit_folders fit))%nat).
Proof.
  induction scans as [|scans IH]; intros fit; cbn [fit_next_loop]; [apply ends_Ok; cbn; lia|].
  destruct (fit_folders fit !! fit_index fit) as [it|] eqn:Hit; [|apply ends_Ub].
  apply ends_bind. intros [it' r] Hs. apply scan_folder_shorter in Hs. pose proof (queue_total_insert _ _ _ it' Hit) as Hq. cbn [fst snd] in *.
  destruct r as [r|].
  - apply ends_Ok. cbn [fst snd fit_folders]. lia.
  - intros res Hres. apply IH in Hres. cbn [fit_folders] in Hres. lia.
Qed.
End queues.

Section pulling.
Context `{Surroundings} (cfg : controller_config) (peer_sha : bytes).

(** ** What the loop works off *)

(** The blocks and the sequence of every file never change in the loop. *)
Definition layout (m : model) : gmap file_ptr (list slot * Z) := (λ f, (slots f, f_sequence f)) <$> cl_files (mo_cluster m).

Definition shape (w : world) :=
  (layout (wd_model w), mo_iterators (wd_model w), pp_ready (ct_postponed (wd_ctl w)), ct_block_iterator (wd_ctl w)).

Lemma set_file_layout w p f f' :
  cl_files (mo_cluster (wd_model w)) !! p = Some f → slots f' = slots f → f_sequence f' = f_sequence f →
  layout (wd_model (set_file w p f')) = layout (wd_model w).
Proof.
  intros Hp Hs Hq. unfold layout. cbn. rewrite fmap_insert, Hs, Hq. apply insert_id. by rewrite lookup_fmap, Hp.
Qed.

Lemma lock_block_shape w cx p : ends (lock_block w cx p) (λ r, shape r.1 = shape w).
Proof. unfold lock_block. ends_all. done. Qed.

Lemma acquire_block_shape w cx p fo : ends (acquire_block w cx p fo) (λ r, shape r.1 = shape w).
Proof. unfold acquire_block. ends_all. done. Qed.

Lemma push_checked_shape w cx c : ends (push_checked w cx c) (λ r, shape r.1 = shape w).
Proof. unfold push_checked. ends_all; done. Qed.

Lemma preprocess_block_shape w cx p file index fo : ends (preprocess_block cfg peer_sha w cx p file index fo) (λ r, shape r.1 = shape w).
Proof.
  unfold preprocess_block. ends_all; [done| |]; apply acquire_block_shape in H3; rewrite <- H3; cbn [fst].
  - unfold io_clone_block. ends_all. apply push_checked_shape.
  - unfold request_block. ends_all. apply lock_block_shape in H4. by rewrite <- H4.
Qed.

Lemma add_guard_shape w p f fo : cl_files (mo_cluster (wd_model w)) !! p = Some f → ends (add_guard peer_sha w p f fo) (λ w', shape w' = shape w).
Proof.
  intros Hp. unfold add_guard, new_guard. ends_all. binds. unfold shape. cbn [wd_model set_locked set_sync_files set_ctl].
  pose proof (set_file_layout w p f (synchronizing_lock f) Hp) as Hl. by rewrite <- Hl.
Qed.

(** The rounds that are left when no file has more than [most] blocks. *)
Definition rounds_left (most : nat) (w : world) : nat :=
  let m := wd_model w in
  let c := wd_ctl w in
  ((queued peer_sha m + size (pp_ready (ct_postponed c))) * (most + 2)
   + match ct_block_iterator c with Some s => blocks_left m s + 1 | None => 0 end)%nat.

(** No file has more than [most] blocks, and the current iterator is a 32-bit number. *)
Record bounded (most : nat) (w : world) : Prop := {
  bo_small : Z.of_nat most < wrong_index;
  bo_slots : ∀ p bs seq, layout (wd_model w) !! p = Some (bs, seq) → (length bs <= most)%nat;
  bo_iterator : ∀ s, ct_block_iterator (wd_ctl w) = Some s → 0 <= bi_i (bs_it s) <= wrong_index;
}.

Lemma blocks_left_layout m s : blocks_left m s =
  match layout m !! bs_file s with
  | Some (bs, seq) => if negb (bi_i (bs_it s) =? wrong_index) && (seq =? bi_sequence (bs_it s)) then (length bs - Z.to_nat (bi_i (bs_it s)))%nat else 0%nat
  | None => 0%nat
  end.
Proof.
  unfold blocks_left, layout, bi_valid. rewrite lookup_fmap. destruct (cl_files (mo_cluster m) !! bs_file s); cbn [fmap option_fmap option_map]; done.
Qed.

Lemma shape_rounds most w w' : shape w' = shape w → rounds_left most w' = rounds_left most w.
Proof.
  unfold shape. intros [= E1 E2 E3 E4]. unfold rounds_left, queued. rewrite E2, E3, E4.
  destruct (ct_block_iterator (wd_ctl w)); [by rewrite !blocks_left_layout, E1|done].
Qed.

Lemma shape_bounded most w w' : shape w' = shape w → bounded most w → bounded most w'.
Proof. unfold shape. intros [= E1 E2 E3 E4] []. split; rewrite ?E1, ?E4; done. Qed.

Lemma skip_local_le bs : ∀ i, i <= skip_local bs i.
Proof. induction bs as [|[[p []]|] bs IH]; intros i; cbn [skip_local]; try lia. specialize (IH (i + 1)). lia. Qed.

Lemma bi_advance_spec f i : ends (bi_advance f i) (λ j, j = wrong_index ∨ (i <= j ∧ j < Z.of_nat (length (slots f)))).
Proof.
  unfold bi_advance, bi_prepare, file_blocks, slots. destruct (f_content f) as [blocks|]; [|apply ends_Ub]. apply ends_Ok. pose proof (skip_local_le (drop (Z.to_nat i) blocks) i) as Hle.
  destruct (Z.eqb_spec (skip_local (drop (Z.to_nat i) blocks) i) wrong_index); [by left|].
  destruct (is_unreachable f || _) eqn:E; [by left|]. apply orb_false_iff in E as [_ E]. apply Z.leb_gt in E. right. lia.
Qed.

(** The iterator of a file: how many rounds it takes. *)
Definition source_ok (most : nat) (w : world) (s : block_source) : Prop :=
  0 <= bi_i (bs_it s) <= wrong_index ∧ (blocks_left (wd_model w) s <= most)%nat.

Lemma new_block_iterator_range f : Z.of_nat (length (slots f)) < wrong_index → ends (new_block_iterator f) (λ it, 0 <= bi_i it <= wrong_index).
Proof.
  intros Hl. unfold new_block_iterator. ends_all; [by unfold wrong_index; cbn|]. apply bi_advance_spec in H1. cbn [bi_i]. unfold wrong_index in *. lia.
Qed.

Lemma blocks_left_most most w s : bounded most w → (blocks_left (wd_model w) s <= most)%nat.
Proof.
  intros Hb. rewrite blocks_left_layout. destruct (layout _ !! _) as [[bs seq]|] eqn:E; [|lia].
  apply (bo_slots _ _ Hb) in E. destruct (_ && _); lia.
Qed.

(** A round with a current file. *)
Lemma pull_block_less most w cx s : bounded most w → ct_block_iterator (wd_ctl w) = Some s →
  ends (pull_block cfg peer_sha w cx s) (λ r, (rounds_left most r.1 < rounds_left most w)%nat ∧ bounded most r.1).
Proof.
  intros Hb Hs. unfold pull_block. apply ends_bind. intros f Hf. unfold file_at in Hf. case_match eqn:Hp; [|done]. injection Hf as <-.
  assert (layout (wd_model w) !! bs_file s = Some (slots f0, f_sequence f0)) as Hl by (unfold layout; by rewrite lookup_fmap, Hp).
  destruct (bi_valid f0 (bs_it s)) eqn:Hv.
  - apply ends_bind. intros [[p index] it] Hnext. set (w1 := set_block_iterator w _).
    assert ((rounds_left most w1 < rounds_left most w)%nat ∧ bounded most w1) as [Hless Hb1].
    { unfold bi_next in Hnext. binds. case_match eqn:Hbs; [|done]. binds. pose proof (bo_slots _ _ Hb _ _ _ Hl) as Hlen.
      pose proof (bo_small _ _ Hb) as Hsmall. pose proof (bo_iterator _ _ Hb _ Hs) as Hi.
      assert (slots f0 = x) as Hx by (unfold file_blocks in *; unfold slots; case_match; congruence). rewrite Hx in Hlen.
      apply lookup_lt_Some in Hbs as Hlt. unfold bi_valid in Hv. apply andb_true_iff in Hv as [Hne Hseq]. apply negb_true_iff, Z.eqb_neq in Hne.
      assert (u32 (bi_i (bs_it s) + 1) = bi_i (bs_it s) + 1) as Hu by (unfold u32, wrong_index in *; rewrite Z.mod_small; lia).
      match goal with E : bi_advance _ _ = Ok _ |- _ => rewrite Hu in E; apply bi_advance_spec in E as Hadv end. rewrite Hx in Hadv.
      split.
      - unfold rounds_left, w1. fields. rewrite Hs, !blocks_left_layout. fields. cbn [bs_file bs_it bi_i bi_sequence].
        rewrite Hl, Hx, Hseq, (proj2 (Z.eqb_neq _ _) Hne). cbn [negb andb]. destruct (negb _ && _) eqn:E2; [|lia].
        apply andb_true_iff in E2 as [E2 _]. apply negb_true_iff, Z.eqb_neq in E2. lia.
      - split; [done|by apply (bo_slots _ _ Hb)|]. intros s'. unfold w1. fields. intros [= <-]. cbn [bs_it bi_i]. unfold wrong_index in *. lia. }
    apply ends_bind. intros q Hq. apply ends_bind. intros fo Hfo. apply ends_bind. intros locked Hlocked. destruct (negb locked).
    + intros [w2 cx2] H2. apply preprocess_block_shape in H2. cbn [fst] in *. rewrite (shape_rounds most w1) by done. split; [done|by eapply shape_bounded].
    + apply ends_Ok. cbn [fst]. assert (shape (set_postponed w1 (postpone (ct_postponed (wd_ctl w1)) q (bs_file s))) = shape w1) as H2.
      { unfold shape, postpone. fields. by case_bool_decide. }
      rewrite (shape_rounds most w1) by done. split; [done|by eapply shape_bounded].
  - apply ends_Ok. cbn [fst]. split; [unfold rounds_left; fields; rewrite Hs; lia|]. split; [apply (bo_small _ _ Hb)|by apply (bo_slots _ _ Hb)|done].
Qed.

(** A file that became ready. *)
Lemma pull_ready_less most w : bounded most w → ct_block_iterator (wd_ctl w) = None →
  ends (pull_ready w) (λ r, bounded most r.1 ∧ (rounds_left most r.1 + (if r.2 then 1 else 0) <= rounds_left most w)%nat ∧
    (r.2 = false → ct_block_iterator (wd_ctl r.1) = None)).
Proof.
  intros Hb Hn. unfold pull_ready, get_ready. destruct (elements (pp_ready (ct_postponed (wd_ctl w)))) as [|p ps] eqn:He.
  - apply ends_Ok. cbn [fst snd]. split_and!; [by apply (shape_bounded most w)|rewrite (shape_rounds most w) by done; lia|done].
  - set (w1 := set_postponed w _). assert (p ∈ pp_ready (ct_postponed (wd_ctl w))) as Hp by (apply elem_of_elements; rewrite He; by left).
    assert (rounds_left most w1 + (most + 2) <= rounds_left most w)%nat as Hless.
    { unfold rounds_left, w1. fields. rewrite Hn. cbn [pp_ready]. rewrite size_difference by set_solver. rewrite size_singleton.
      assert (size (pp_ready (ct_postponed (wd_ctl w))) ≠ 0%nat) by (intros Hz; apply size_empty_inv in Hz; set_solver). nia. }
    assert (bounded most w1) as Hb1 by (split; [apply (bo_small _ _ Hb)|apply (bo_slots _ _ Hb)|unfold w1; fields; by rewrite Hn]).
    assert (ct_block_iterator (wd_ctl w1) = None) as Hn1 by done.
    apply ends_bind. intros f Hf. destruct (info_with_uuid _ _) as [[fo fi]|]; [|apply ends_Ok; cbn [fst snd]; split_and!; [done|lia|done]].
    apply ends_bind. intros it Hit. destruct (bi_valid f it); apply ends_Ok; cbn [fst snd]; [|split_and!; [done|lia|done]].
    set (w2 := set_block_iterator w1 _). assert (bounded most w2) as Hb2.
    { split; [apply (bo_small _ _ Hb)|apply (bo_slots _ _ Hb)|]. intros s. unfold w2. fields. intros [= <-]. cbn [bs_it].
      apply new_block_iterator_range in Hit; [done|]. unfold file_at in Hf. case_match eqn:Hpf; [|done]. injection Hf as <-.
      assert (layout (wd_model w1) !! p = Some (slots f0, f_sequence f0)) as Hl by (unfold layout; by rewrite lookup_fmap, Hpf).
      apply (bo_slots _ _ Hb1) in Hl. pose proof (bo_small _ _ Hb). lia. }
    split_and!; [done| |done]. enough (rounds_left most w2 <= rounds_left most w1 + (most + 1))%nat by lia.
    unfold rounds_left. rewrite Hn1. unfold w2. fields. pose proof (blocks_left_most most w2 (mkBlockSource p (get_full_id f) (fd_id (fo_data fo)) (fi_device_sha fi) it) Hb2) as Hm.
    unfold w2 in Hm. fields. lia.
Qed.

(** A current file is put in place. *)
Lemma set_iterator_rounds most w p f fid did it :
  bounded most w → ct_block_iterator (wd_ctl w) = None → cl_files (mo_cluster (wd_model w)) !! p = Some f → new_block_iterator f = Ok it →
  let w' := set_block_iterator w (Some (mkBlockSource p (get_full_id f) fid did it)) in
  bounded most w' ∧ (rounds_left most w' <= rounds_left most w + (most + 1))%nat.
Proof.
  intros Hb Hn Hp Hit w'. assert (layout (wd_model w) !! p = Some (slots f, f_sequence f)) as Hl by (unfold layout; by rewrite lookup_fmap, Hp).
  apply (bo_slots _ _ Hb) in Hl. pose proof (bo_small _ _ Hb) as Hsmall. apply new_block_iterator_range in Hit as Hr; [|lia].
  assert (bounded most w') as Hb'.
  { split; [done|apply (bo_slots _ _ Hb)|]. intros s. unfold w'. fields. by intros [= <-]. }
  split; [done|]. pose proof (blocks_left_most most w' (mkBlockSource p (get_full_id f) fid did it) Hb') as Hm.
  unfold rounds_left. rewrite Hn. unfold w' in *. fields. lia.
Qed.

(** A file of the queues. *)
Lemma pull_file_rounds most w cx r advances : bounded most w → ct_block_iterator (wd_ctl w) = None →
  ends (pull_file peer_sha w cx r advances) (λ x, bounded most x.1.1 ∧ (rounds_left most x.1.1 <= rounds_left most w + (most + 1))%nat).
Proof.
  intros Hb Hn. unfold pull_file. apply ends_bind. intros f Hf. unfold file_at in Hf. case_match eqn:Hp; [|done]. injection Hf as <-.
  assert (∀ w', shape w' = shape w → bounded most w' ∧ (rounds_left most w' <= rounds_left most w + (most + 1))%nat) as Hsame.
  { intros w' Hw'. split; [by eapply shape_bounded|]. rewrite (shape_rounds most w) by done. lia. }
  ends_all; cbn [fst]; try by apply Hsame.
  - match goal with E : add_guard _ _ _ _ _ = Ok _ |- _ => apply add_guard_shape in E as Hg; [|done] end.
    destruct (set_iterator_rounds most w (r_peer_file r) f0 (fd_id (fo_data f)) (fi_device_sha f1) a2) as [Hb2 Hr2]; [done..|].
    split; [by eapply shape_bounded|]. by rewrite (shape_rounds most _ _ Hg).
  - apply Hsame. match goal with E : add_guard _ _ _ _ _ = Ok _ |- _ => by eapply add_guard_shape in E end.
  - apply Hsame. match goal with E : add_guard _ _ _ _ _ = Ok _ |- _ => by eapply add_guard_shape in E end.
  - apply Hsame. match goal with E : create_advance _ _ _ _ _ = Ok _ |- _ => unfold create_advance in E end. binds. repeat case_match; by binds.
Qed.

(** One round uses something up. *)
Lemma pull_round_less most w cx advances : bounded most w →
  ends (pull_round cfg peer_sha w cx advances) (λ x, x.2 = true → bounded most x.1.1.1 ∧ (rounds_left most x.1.1.1 < rounds_left most w)%nat).
Proof.
  intros Hb. unfold pull_round. destruct (ct_block_iterator (wd_ctl w)) as [s|] eqn:Hs.
  - apply ends_bind. intros [w1 cx1] H1. apply ends_Ok. cbn [fst snd]. intros _. apply (pull_block_less most) in H1 as [? ?]; done.
  - apply ends_bind. intros [w1 found] H1. apply (pull_ready_less most) in H1 as (Hb1 & Hr1 & Hn1); [|done..]. cbn [fst snd] in *. destruct found.
    + apply ends_Ok. cbn [fst snd]. intros _. split; [done|lia].
    + specialize (Hn1 eq_refl). cbv zeta. apply ends_bind. intros fit Hfit. apply ends_bind. intros [fit' r] Hnext.
      unfold fit_next in Hnext. apply fit_next_shorter in Hnext. cbn [fst snd] in Hnext. set (w2 := set_model w1 _).
      assert (bounded most w2) as Hb2 by (split; [apply (bo_small _ _ Hb1)|apply (bo_slots _ _ Hb1)|apply (bo_iterator _ _ Hb1)]).
      destruct r as [r|]; [|by apply ends_Ok]. apply ends_bind. intros [[w3 cx3] advances3] H3. apply ends_Ok. cbn [fst snd]. intros _.
      apply (pull_file_rounds most) in H3 as [Hb3 Hr3]; [|done|done]. cbn [fst] in *. split; [done|].
      assert (rounds_left most w2 + (most + 2) <= rounds_left most w1)%nat; [|lia].
      unfold rounds_left, queued, w2. fields. rewrite Hn1. cbn [mo_iterators with_iterators]. rewrite lookup_insert_eq.
      unfold the in Hfit. case_match eqn:Hold; [|done]. injection Hfit as <-. unfold queue_total in Hnext. nia.
Qed.

Lemma pull_loop_ends most fuel : ∀ w cx advances,
  bounded most w → (rounds_left most w < fuel)%nat → is_Some (pull_loop cfg peer_sha fuel w cx advances).
Proof.
  induction fuel as [|fuel IH]; intros w cx advances Hb Hf; [lia|]. cbn [pull_loop]. destruct (can_pull_more _ _ _); [|by eexists].
  destruct (pull_round _ _ _ _ _) as [[[[w1 cx1] a1] []]|e|] eqn:Hr; [|by eexists..].
  destruct (pull_round_less most w cx advances Hb _ Hr eq_refl) as [Hb1 Hr1]. cbn [fst] in *. apply IH; [done|lia].
Qed.

Lemma most_blocks_spec m p f : cl_files (mo_cluster m) !! p = Some f → (length (slots f) <= most_blocks m)%nat.
Proof.
  intros Hp%elem_of_map_to_list. unfold most_blocks. induction (map_to_list (cl_files (mo_cluster m))) as [|x l IH]; [by apply elem_of_nil in Hp|].
  apply elem_of_cons in Hp as [<-|Hp]; cbn [map foldr]; [cbn [snd]; lia|]. specialize (IH Hp). lia.
Qed.

(** C11: pulling ends. The loop of [pull_next] stops after a number of rounds that is known beforehand: each file that is queued or
    ready takes at most two more rounds than it has blocks. Files have fewer than [2 ^ 32 - 1] blocks, the largest index of the
    iterator over blocks. *)
Theorem pulling_ends (w : world) (cx : context) (advances : Z) :
  Z.of_nat (most_blocks (wd_model w)) < wrong_index →
  (∀ s, ct_block_iterator (wd_ctl w) = Some s → 0 <= bi_i (bs_it s) <= wrong_index) →
  is_Some (pull_loop cfg peer_sha (pull_fuel peer_sha w) w cx advances).
Proof.
  intros Hm Hi. apply (pull_loop_ends (most_blocks (wd_model w))).
  - split; [done| |done]. intros p bs seq. unfold layout. rewrite lookup_fmap, fmap_Some. intros (f & Hp & [= -> ->]). by eapply most_blocks_spec.
  - unfold rounds_left, pull_fuel. lia.
Qed.
End pulling.

#[local] Existing Instance r_environment.
#[local] Existing Instance c_codec.
#[local] Existing Instance c_surroundings.

(** The files of the peer are queued, nothing is pulled yet. *)
Definition p_world : world :=
  match new_file_iterator local_zone (self_sha c_model) c_peer (mo_cluster c_model) with
  | Ok fit => set_file_iterator (set_model (c_world 5) (with_iterators c_model {[ c_peer := fit ]})) true
  | _ => c_world 5
  end.

Example pulling_ends_witness :
  queued c_peer (wd_model p_world) = 1%nat ∧ pull_fuel c_peer p_world = 5%nat ∧
  is_Some (pull_loop c_config c_peer 5 p_world (new_context false) 0).
Proof.
  split; [by vm_compute|]. split; [by vm_compute|]. apply (pulling_ends c_config c_peer p_world (new_context false) 0).
  - by vm_compute.
  - intros s Hs. by vm_compute in Hs.
Defined.
