(* ===== verification/Disk.v ===== *)
(** * Disk: what the program uses of [std::filesystem] and of file streams on POSIX. A name leads to a node, so that an open
    stream follows its file through renames; a final link is followed, links among the directories of a path are not. Any call can
    fail: [fault] says when and with which error, and how much of a failing write reaches the disk. *)

From S2P Require Import Prelude.
From S2P Require Path.
From S2P Require ClusterUpdate.

Abbreviation slash := Path.slash.

Definition i64 (z : Z) : Z := if u64 z <? 2 ^ 63 then u64 z else u64 z - 2 ^ 64.

(** ** Paths *)

Fixpoint drop_while (f : Z → bool) (l : bytes) : bytes :=
  match l with
  | [] => []
  | x :: r => if f x then drop_while f r else l
  end.

(** [path::parent_path]. *)
Definition parent_path (p : bytes) : bytes :=
  let dir := drop_while (λ x, negb (x =? slash)) (rev p) in
  match drop_while (λ x, x =? slash) dir, dir with
  | [], [] => []
  | [], _ => [slash]
  | d, _ => rev d
  end.

(** Is [q] inside the directory [p]? *)
Definition inside_of (p q : bytes) : bool := bool_decide ((p ++ [slash]) `prefix_of` q).

(** ** Nodes *)

Inductive kind :=
| KFile (data : bytes)
| KDir
| KLink (target : bytes).

Record inode := mkInode { in_kind : kind; in_time : Z; in_perms : Z }.

Record disk := mkDisk {
  dk_names : gmap bytes positive;
  dk_nodes : gmap positive inode;
  dk_calls : nat;
}.

Definition node_at (d : disk) (p : bytes) : option inode := dk_names d !! p ≫= λ i, dk_nodes d !! i.

Definition is_directory (n : inode) : bool := match in_kind n with KDir => true | _ => false end.

(** The name behind a chain of at most [n] links. *)
Fixpoint follow (n : nat) (d : disk) (p : bytes) : option bytes :=
  match n with
  | O => None
  | S n =>
      match node_at d p with
      | Some (mkInode (KLink target) _ _) => follow n d (ClusterUpdate.path_append (parent_path p) target)
      | _ => Some p
      end
  end.

(** The number of links Linux follows. *)
Definition max_links : nat := 40.

Definition stat (d : disk) (p : bytes) : option inode := follow max_links d p ≫= node_at d.

Definition exists_path (d : disk) (p : bytes) : bool := match stat d p with Some _ => true | None => false end.

Definition is_symlink (d : disk) (p : bytes) : bool :=
  match node_at d p with Some (mkInode (KLink _) _ _) => true | _ => false end.

Definition read_symlink (d : disk) (p : bytes) : bytes :=
  match node_at d p with Some (mkInode (KLink target) _ _) => target | _ => [] end.

(** The directory a new name is put in must be there; a path without directory is one of the current directory. *)
Definition parent_ok (d : disk) (p : bytes) : bool :=
  match parent_path p with
  | [] => true
  | q => match stat d q with Some n => is_directory n | None => false end
  end.

Definition set_node (d : disk) (i : positive) (n : inode) : disk := mkDisk (dk_names d) (<[i := n]> (dk_nodes d)) (dk_calls d).

Definition set_kind (n : inode) (k : kind) : inode := mkInode k (in_time n) (in_perms n).

Definition add_node (d : disk) (p : bytes) (k : kind) : disk :=
  let i := fresh (dom (dk_nodes d)) in
  mkDisk (<[p := i]> (dk_names d)) (<[i := mkInode k 0 0]> (dk_nodes d)) (dk_calls d).

(** ** Calls *)

Definition ENOENT : Z := 2.
Definition EIO : Z := 5.
Definition EEXIST : Z := 17.
Definition ENOTDIR : Z := 20.
Definition EISDIR : Z := 21.
Definition EINVAL : Z := 22.
Definition ENOTEMPTY : Z := 39.
Definition ELOOP : Z := 40.
Definition ENOTSUP : Z := 95.

(** The outcome of a call: the error or what it returns, and the disk in either case. *)
Definition outcome (A : Type) : Type := disk * (Z + A).

Class Faults := {
  fault : nat → option Z;
  written : nat → nat;
}.

(** No call fails for reasons of its own. *)
Definition no_faults : Faults := {| fault := λ _, None; written := λ _, 0%nat |}.

Definition tick (d : disk) : disk := mkDisk (dk_names d) (dk_nodes d) (S (dk_calls d)).

Section calls.
Context `{Faults}.

Definition call {A} (d : disk) (f : disk → outcome A) : outcome A :=
  match fault (dk_calls d) with
  | Some e => (tick d, inl e)
  | None => f (tick d)
  end.

Fixpoint make_directories (n : nat) (d : disk) (p : bytes) : option disk :=
  match n with
  | O => None
  | S n =>
      match p, stat d p with
      | [], _ => Some d
      | _, Some node => if is_directory node then Some d else None
      | _, None =>
          d ← make_directories n d (parent_path p);
          if bool_decide (dk_names d !! p = None) then Some (add_node d p KDir) else None
      end
  end.

Definition create_directories (d : disk) (p : bytes) : outcome unit :=
  call d (λ d,
    match p with
    | [] => (d, inl EINVAL)
    | _ =>
        match make_directories (S (length p)) d p with
        | Some d => (d, inr ())
        | None => (d, inl ENOTDIR)
        end
    end).

Definition resize_file (d : disk) (p : bytes) (size : Z) : outcome unit :=
  call d (λ d,
    match follow max_links d p with
    | None => (d, inl ELOOP)
    | Some q =>
        match dk_names d !! q with
        | None => (d, inl ENOENT)
        | Some i =>
            match dk_nodes d !! i with
            | Some n =>
                match in_kind n with
                | KFile data => if size <? 2 ^ 63 then (set_node d i (set_kind n (KFile (resize (Z.to_nat size) 0 data))), inr ()) else (d, inl EINVAL)
                | _ => (d, inl EISDIR)
                end
            | None => (d, inl ENOENT)
            end
        end
    end).

(** [rename(2)]: the target is replaced, a directory only when it is empty and the source is one, too; what is below a directory
    moves along. *)
Definition moved (from to : bytes) (names : gmap bytes positive) : gmap bytes positive :=
  list_to_map (map (λ x, (to ++ drop (length from) x.1, x.2)) (map_to_list (filter (λ x, inside_of from x.1 = true) names))).

Definition move_names (d : disk) (from to : bytes) (i : positive) : disk :=
  let rest := filter (λ x, x.1 ≠ from ∧ inside_of from x.1 = false) (dk_names d) in
  mkDisk (<[to := i]> (moved from to (dk_names d) ∪ rest)) (dk_nodes d) (dk_calls d).

Definition has_children (d : disk) (p : bytes) : bool := negb (bool_decide (filter (λ x, inside_of p x.1 = true) (dk_names d) = ∅)).

Definition rename (d : disk) (from to : bytes) : outcome unit :=
  call d (λ d,
    match dk_names d !! from with
    | None => (d, inl ENOENT)
    | Some i =>
        if bool_decide (from = to) then (d, inr ())
        else if inside_of from to then (d, inl EINVAL)
        else if negb (parent_ok d to) then (d, inl ENOENT)
        else
          let dir := match dk_nodes d !! i with Some n => is_directory n | None => false end in
          match node_at d to with
          | None => (move_names d from to i, inr ())
          | Some n =>
              if is_directory n then
                if negb dir then (d, inl EISDIR)
                else if has_children d to then (d, inl ENOTEMPTY)
                else (move_names d from to i, inr ())
              else if dir then (d, inl ENOTDIR)
              else (move_names d from to i, inr ())
          end
    end).

Definition remove_all (d : disk) (p : bytes) : outcome unit :=
  call d (λ d, (mkDisk (filter (λ x, x.1 ≠ p ∧ inside_of p x.1 = false) (dk_names d)) (dk_nodes d) (dk_calls d), inr ())).

(** [bfs::remove]: a directory that is not empty stays. *)
Definition remove_one (d : disk) (p : bytes) : outcome unit :=
  call d (λ d,
    match node_at d p with
    | Some n => if is_directory n && has_children d p then (d, inl ENOTEMPTY) else (mkDisk (delete p (dk_names d)) (dk_nodes d) (dk_calls d), inr ())
    | None => (d, inr ())
    end).

Definition last_write_time (d : disk) (p : bytes) (time : Z) : outcome unit :=
  call d (λ d,
    match follow max_links d p ≫= λ q, dk_names d !! q with
    | Some i =>
        match dk_nodes d !! i with
        | Some n => (set_node d i (mkInode (in_kind n) time (in_perms n)), inr ())
        | None => (d, inl ENOENT)
        end
    | None => (d, inl ENOENT)
    end).

(** [bfs::permissions] with [nofollow]: not for links. *)
Definition permissions (d : disk) (p : bytes) (perms : Z) : outcome unit :=
  call d (λ d,
    match dk_names d !! p with
    | Some i =>
        match dk_nodes d !! i with
        | Some n =>
            match in_kind n with
            | KLink _ => (d, inl ENOTSUP)
            | _ => (set_node d i (mkInode (in_kind n) (in_time n) perms), inr ())
            end
        | None => (d, inl ENOENT)
        end
    | None => (d, inl ENOENT)
    end).

Definition create_symlink (d : disk) (target p : bytes) : outcome unit :=
  call d (λ d,
    match dk_names d !! p with
    | Some _ => (d, inl EEXIST)
    | None => if parent_ok d p then (add_node d p (KLink target), inr ()) else (d, inl ENOENT)
    end).

(** ** Streams *)

(** A binary [std::fstream] that is flushed after every write: reading and writing share one position, and once an operation has
    failed all others fail. *)
Record stream := mkStream { sm_node : positive; sm_pos : Z; sm_good : bool }.

(** Opening with [in], [in | out] or, with [trunc], [in | out | trunc]. *)
Definition open_stream (d : disk) (p : bytes) (trunc : bool) : outcome stream :=
  call d (λ d,
    match follow max_links d p with
    | None => (d, inl ELOOP)
    | Some q =>
        match dk_names d !! q with
        | Some i =>
            match dk_nodes d !! i with
            | Some n =>
                match in_kind n with
                | KFile _ => (if trunc then set_node d i (set_kind n (KFile [])) else d, inr (mkStream i 0 true))
                | _ => (d, inl EISDIR)
                end
            | None => (d, inl ENOENT)
            end
        | None =>
            if trunc && parent_ok d q then (add_node d q (KFile []), inr (mkStream (fresh (dom (dk_nodes d))) 0 true)) else (d, inl ENOENT)
        end
    end).

(** [tellg], [tellp]. *)
Definition tell (s : stream) : Z := if sm_good s then sm_pos s else -1.

Definition broken (s : stream) : stream := mkStream (sm_node s) (sm_pos s) false.

(** [seekp(offset, beg)]; the stream says whether it went well. *)
Definition seek (s : stream) (offset : Z) : stream :=
  if sm_good s then if 0 <=? offset then mkStream (sm_node s) offset true else broken s else s.

Definition data_of (d : disk) (s : stream) : bytes :=
  match dk_nodes d !! sm_node s with Some (mkInode (KFile data) _ _) => data | _ => [] end.

(** [read]: fewer bytes than asked for break the stream. *)
Definition read_stream (d : disk) (s : stream) (size : Z) : disk * stream * bytes :=
  if negb (sm_good s) then (d, s, [])
  else
    match fault (dk_calls d) with
    | Some _ => (tick d, broken s, [])
    | None =>
        let data := data_of d s in
        if sm_pos s + size <=? Z.of_nat (length data)
        then (tick d, mkStream (sm_node s) (sm_pos s + size) true, take (Z.to_nat size) (drop (Z.to_nat (sm_pos s)) data))
        else (tick d, broken s, [])
    end.

(** [data] replaces what is at [pos]; a gap before it is filled with zeros. *)
Definition splice (old : bytes) (pos : nat) (data : bytes) : bytes := resize pos 0 old ++ data ++ drop (pos + length data) old.

Definition put_data (d : disk) (s : stream) (data : bytes) : disk :=
  match dk_nodes d !! sm_node s with
  | Some (mkInode (KFile old) time perms) =>
      match data with
      | [] => d
      | _ => set_node d (sm_node s) (mkInode (KFile (splice old (Z.to_nat (sm_pos s)) data)) time perms)
      end
  | _ => d
  end.

(** [write]. *)
Definition write_stream (d : disk) (s : stream) (data : bytes) : disk * stream :=
  if negb (sm_good s) then (d, s)
  else
    match fault (dk_calls d) with
    | Some _ => (put_data (tick d) s (take (written (dk_calls d)) data), broken s)
    | None => (put_data (tick d) s data, mkStream (sm_node s) (sm_pos s + Z.of_nat (length data)) true)
    end.

(** [flush]. *)
Definition flush_stream (d : disk) (s : stream) : disk * stream :=
  if negb (sm_good s) then (d, s)
  else match fault (dk_calls d) with Some _ => (tick d, broken s) | None => (tick d, s) end.
End calls.
