(* ===== verification/FileIo.v ===== *)
(** * FileIo: [src/fs/fs_proxy.cpp], calls to the file system that announce the events they cause to the mediator, and
    [src/fs/file.cpp], files that are open. (Without kqueue.) *)

From S2P Require Import Prelude Watcher Disk.

(** ** [fs_proxy_t] *)

Record fs_proxy := mkProxy {
  px_disk : disk;
  px_mediator : mediator;
  px_deadline : Z;
  px_updates : Z;
}.

Definition with_disk (px : fs_proxy) (d : disk) : fs_proxy := mkProxy d (px_mediator px) (px_deadline px) (px_updates px).

(** [updates_mediator.mask(path, prev_path, deadline)]. *)
Definition masking (px : fs_proxy) (path prev_path : bytes) : fs_proxy :=
  mkProxy (px_disk px) (mask (px_mediator px) path prev_path (px_deadline px)) (px_deadline px) (px_updates px).

(** And [++mediator_updates]. *)
Definition announce (px : fs_proxy) (path prev_path : bytes) : fs_proxy :=
  let px := masking px path prev_path in mkProxy (px_disk px) (px_mediator px) (px_deadline px) (px_updates px + 1).

(** A call whose success is announced. *)
Definition announced {A} (px : fs_proxy) (path prev_path : bytes) (r : outcome A) : fs_proxy * (Z + A) :=
  let px := with_disk px r.1 in
  match r.2 with
  | inl e => (px, inl e)
  | inr a => (announce px path prev_path, inr a)
  end.

(** [static_cast<uint64_t>(stat_info.st_size)]. *)
Definition node_size (n : inode) : Z := match in_kind n with KFile data => Z.of_nat (length data) | _ => 0 end.

Definition make_temporal (path : bytes) : bytes := path ++ tmp_suffix.

Section io.
Context `{Faults}.

(** Creates a file that is not there; a stream that is not used is closed. *)
Definition create_missing (px : fs_proxy) (path : bytes) (st : option inode) : fs_proxy * (Z + unit) :=
  match st with
  | None => let '(px, r) := announced px path [] (open_stream (px_disk px) path true) in (px, match r with inl e => inl e | inr _ => inr () end)
  | Some _ => (px, inr ())
  end.

(** The part of [open_write] under [need_resize]. *)
Definition set_size (px : fs_proxy) (path : bytes) (st : option inode) (file_size : Z) : fs_proxy * (Z + unit) :=
  let '(px, r) := create_missing px path st in
  match r with
  | inl e => (px, inl e)
  | inr _ => announced px path [] (resize_file (px_disk px) path file_size)
  end.

Definition proxy_open_write (px : fs_proxy) (path : bytes) (file_size : Z) : fs_proxy * (Z + stream) :=
  let st := stat (px_disk px) path in
  let need_resize := match st with Some n => node_size n =? file_size | None => true end in
  let '(px, r) := if need_resize then set_size px path st file_size else (px, inr ()) in
  match r with
  | inl e => (px, inl e)
  | inr _ => let '(d, r) := open_stream (px_disk px) path false in (with_disk px d, r)
  end.

Definition proxy_rename (px : fs_proxy) (from to : bytes) : fs_proxy * (Z + unit) :=
  announced px to from (rename (px_disk px) from to).

Definition proxy_last_write_time (px : fs_proxy) (path : bytes) (modification_s : Z) : fs_proxy * (Z + unit) :=
  announced px path [] (last_write_time (px_disk px) path modification_s).

Definition proxy_remove (px : fs_proxy) (path : bytes) : fs_proxy * (Z + unit) :=
  announced px path [] (remove_all (px_disk px) path).

Definition remove_file (px : fs_proxy) (path : bytes) : fs_proxy * (Z + unit) :=
  announced px path [] (remove_one (px_disk px) path).

Definition proxy_write (px : fs_proxy) (path : bytes) (s : stream) (data : bytes) : fs_proxy * stream * (Z + unit) :=
  let '(d, s) := write_stream (px_disk px) s data in
  let px := with_disk px d in
  if negb (sm_good s) then (px, s, inl EIO)
  else
    let px := masking px path [] in
    let '(d, s) := flush_stream (px_disk px) s in
    let px := with_disk px d in
    if negb (sm_good s) then (px, s, inl EIO) else (masking px path [], s, inr ()).

Definition set_perms (px : fs_proxy) (path : bytes) (perms : Z) : fs_proxy * (Z + unit) :=
  announced px path [] (permissions (px_disk px) path perms).

Definition create_link (px : fs_proxy) (target path : bytes) : fs_proxy * (Z + unit) :=
  announced px path [] (create_symlink (px_disk px) target path).

Definition proxy_create_directories (px : fs_proxy) (path : bytes) : fs_proxy * (Z + unit) :=
  announced px path [] (create_directories (px_disk px) path).

(** ** [file_t] *)

(** The backend of a file is reset when it is closed. The path in the model is not kept: [operator=] leaves it behind, and
    [close] does not need it. *)
Record open_file := mkOpenFile {
  of_backend : option stream;
  of_path : bytes;
  of_size : Z;
}.

Definition with_backend (f : open_file) (s : stream) : open_file := mkOpenFile (Some s) (of_path f) (of_size f).

Definition file_open_write (px : fs_proxy) (model_path : bytes) (file_size : Z) : fs_proxy * (Z + open_file) :=
  let path := if 0 <? file_size then make_temporal model_path else model_path in
  let '(px, r) := proxy_open_write px path file_size in
  match r with
  | inl e => (px, inl e)
  | inr s => (px, inr (mkOpenFile (Some s) path file_size))
  end.

Definition file_open_read (px : fs_proxy) (path : bytes) : fs_proxy * (Z + open_file) :=
  let '(d, r) := open_stream (px_disk px) path false in
  match r with
  | inl e => (with_disk px d, inl e)
  | inr s => (with_disk px d, inr (mkOpenFile (Some s) path 0))
  end.

(** [close], with a proxy; the name is changed when another one is given. *)
Definition file_close (px : fs_proxy) (f : open_file) (modification_s : Z) (local_name : bytes) : res (fs_proxy * (Z + unit)) :=
  let* _ := assert (match of_backend f with Some _ => negb (of_size f =? 0) | None => false end) in
  let '(px, r) := if bool_decide (local_name = []) then (px, inr ()) else proxy_rename px (of_path f) local_name in
  match r with
  | inl e => Ok (px, inl e)
  | inr _ =>
      if modification_s =? 0 then Ok (px, inr ())
      else Ok (proxy_last_write_time px (if bool_decide (local_name = []) then of_path f else local_name) modification_s)
  end.

(** [utils::bytes_t::resize] throws for more than [PTRDIFF_MAX] bytes, and nobody catches it. *)
Definition max_size : Z := 2 ^ 63 - 1.

Definition file_read (px : fs_proxy) (f : open_file) (offset size : Z) : res (fs_proxy * open_file * (Z + bytes)) :=
  let* s := match of_backend f with Some s => Ok s | None => Ub end in
  let s := if tell s =? i64 offset then s else seek s (i64 offset) in
  if negb (tell s =? i64 offset) then Ok (px, with_backend f s, inl EIO)
  else
    let* _ := assert (size <=? max_size) in
    let '(d, s, data) := read_stream (px_disk px) s size in
    Ok (with_disk px d, with_backend f s, if sm_good s then inr data else inl EIO).

Definition file_write (px : fs_proxy) (f : open_file) (offset : Z) (data : bytes) : res (fs_proxy * open_file * (Z + unit)) :=
  let* _ := assert (u64 (offset + Z.of_nat (length data)) <=? of_size f) in
  let* s := match of_backend f with Some s => Ok s | None => Ub end in
  if tell s =? i64 offset then
    let '(px, s, r) := proxy_write px (of_path f) s data in Ok (px, with_backend f s, r)
  else if tell s =? -1 then Ok (px, f, inl EIO)
  else
    let s := seek s (i64 offset) in
    if negb (sm_good s) then Ok (px, with_backend f s, inl EIO)
    else let '(px, s, r) := proxy_write px (of_path f) s data in Ok (px, with_backend f s, r).
End io.
