(* ===== verification/FileActor.v ===== *)
(** * FileActor: [src/fs/file_actor.cpp]: the actor that carries out the commands of the controllers on the disk. The files a
    controller is writing stay open in a cache of its own until they are finished or the controller goes down. *)

From S2P Require Import Prelude Proto Resolver Cluster Wire Bep Controller Watcher Disk FileIo.

(** What goes wrong: an error of the system or [utils::error_code_t::flush_non_opened]. *)
Inductive io_error :=
| Errno (code : Z)
| flush_non_opened.

Abbreviation file_cache := (gmap bytes open_file).

Record file_actor := mkFileActor {
  fa_disk : disk;
  fa_mediator : mediator;
  fa_context_cache : gmap Z file_cache;
  fa_expiration_timer : bool;
  fa_services : Z;
}.

(** [process_context_t], with the cache of its key. *)
Record process_context := mkProcess {
  pc_proxy : fs_proxy;
  pc_cache : file_cache;
}.

Definition set_proxy (pc : process_context) (px : fs_proxy) : process_context := mkProcess px (pc_cache pc).

Definition keep_open (pc : process_context) (px : fs_proxy) (path : bytes) (f : open_file) : process_context :=
  mkProcess px (<[path := f]> (pc_cache pc)).

Definition on_disk (pc : process_context) : disk := px_disk (pc_proxy pc).

(** A command carried out: the context, and its result; nothing is returned but by [block_request]. *)
Definition processed : Type := process_context * (io_error + bytes).

Definition done (pc : process_context) (r : Z + unit) : processed :=
  (pc, match r with inl e => inl (Errno e) | inr _ => inr [] end).

(** Goes on after a call of the proxy that went well. *)
Definition after_call (pc : process_context) (r : fs_proxy * (Z + unit)) (next : process_context → processed) : processed :=
  let pc := set_proxy pc r.1 in
  match r.2 with
  | inl e => (pc, inl (Errno e))
  | inr _ => next pc
  end.

Section actor.
Context `{Faults, Surroundings} (watched_folders : gmap bytes bytes) (retension : Z).

(** ** Files *)

Definition open_file_rw (pc : process_context) (path : bytes) (file_size : Z) : process_context * (Z + open_file) :=
  match pc_cache pc !! path with
  | Some f => (pc, inr f)
  | None =>
      let parent := parent_path path in
      let '(d, r) := if exists_path (on_disk pc) parent then (on_disk pc, inr ()) else Disk.create_directories (on_disk pc) parent in
      let px := with_disk (pc_proxy pc) d in
      match r with
      | inl e => (set_proxy pc px, inl e)
      | inr _ =>
          let '(px, r) := file_open_write px path file_size in
          match r with
          | inl e => (set_proxy pc px, inl e)
          | inr f => (keep_open pc px path f, inr f)
          end
      end
  end.

(** Reading from a file that may be open. *)
Definition read_from (pc : process_context) (path : bytes) (offset size : Z) : res (process_context * (Z + bytes)) :=
  match pc_cache pc !! path with
  | Some f =>
      let* '(px, f, r) := file_read (pc_proxy pc) f offset size in
      Ok (keep_open pc px path f, r)
  | None =>
      let '(px, r) := file_open_read (pc_proxy pc) path in
      match r with
      | inl e => Ok (set_proxy pc px, inl e)
      | inr f => let* '(px, _, r) := file_read px f offset size in Ok (set_proxy pc px, r)
      end
  end.

(** Writing to a file that is open. *)
Definition write_to (pc : process_context) (path : bytes) (offset : Z) (data : bytes) : res processed :=
  match pc_cache pc !! path with
  | Some f =>
      let* '(px, f, r) := file_write (pc_proxy pc) f offset data in
      Ok (done (keep_open pc px path f) r)
  | None => Ub
  end.

(** ** Commands *)

Definition process_block_request (pc : process_context) (path : bytes) (offset block_size : Z) : res processed :=
  let* '(pc, r) := read_from pc path offset block_size in
  Ok (pc, match r with inl e => inl (Errno e) | inr data => inr data end).

Definition process_append_block (pc : process_context) (path data : bytes) (offset file_size : Z) : res processed :=
  let '(pc, r) := open_file_rw pc path file_size in
  match r with
  | inl e => Ok (pc, inl (Errno e))
  | inr _ => write_to pc path offset data
  end.

Definition process_clone_block (pc : process_context) (path : bytes) (target_offset target_size : Z) (source : bytes)
    (source_offset block_size : Z) : res processed :=
  let '(pc, r) := open_file_rw pc path target_size in
  match r with
  | inl e => Ok (pc, inl (Errno e))
  | inr _ =>
      let* '(pc, r) := read_from pc source source_offset block_size in
      match r with
      | inl e => Ok (pc, inl (Errno e))
      | inr data => write_to pc path target_offset data
      end
  end.

(** The file that is finished: an open one, or what is left of it on the disk. *)
Definition reopen (pc : process_context) (path : bytes) (file_size : Z) : process_context * (io_error + open_file) :=
  match pc_cache pc !! path with
  | Some f => (pc, inr f)
  | None =>
      if negb (exists_path (on_disk pc) (make_temporal path)) then (pc, inl flush_non_opened)
      else
        let '(px, r) := file_open_write (pc_proxy pc) path file_size in
        match r with
        | inl e => (set_proxy pc px, inl (Errno e))
        | inr f => (keep_open pc px path f, inr f)
        end
  end.

(** Moves a local file out of the way of the remote one. *)
Definition move_away (pc : process_context) (path conflict_path : bytes) (next : process_context → processed) : processed :=
  if bool_decide (conflict_path = []) then next pc else after_call pc (proxy_rename (pc_proxy pc) path conflict_path) next.

Definition process_finish_file (pc : process_context) (path conflict_path : bytes) (file_size modification_s perms : Z) (no_perms : bool)
    : res processed :=
  let '(pc, r) := reopen pc path file_size in
  match r with
  | inl e => Ok (pc, inl e)
  | inr backend =>
      let '(px, r) :=
        if bool_decide (conflict_path = []) then (pc_proxy pc, inr ()) else proxy_rename (pc_proxy pc) path conflict_path in
      let pc := set_proxy pc px in
      match r with
      | inl e => Ok (pc, inl (Errno e))
      | inr _ =>
          let pc := mkProcess px (delete path (pc_cache pc)) in
          let* r := file_close px backend modification_s path in
          Ok (after_call pc r (λ pc,
            if no_perms then (pc, inr [])
            else after_call pc (set_perms (pc_proxy pc) path perms) (λ pc, (pc, inr []))))
      end
  end.

(** Makes a file, a directory or a link; are the permissions to be set? *)
Definition make_entry (pc : process_context) (path : bytes) (type : FileInfoType) (size modification_s : Z) (target : bytes) (no_perms : bool)
    (next : bool → process_context → processed) : processed :=
  let perms := negb no_perms && permissions_supported path in
  match type with
  | FILE =>
      let '(px, r) := proxy_open_write (pc_proxy pc) path size in
      match r with
      | inl e => (set_proxy pc px, inl (Errno e))
      | inr _ => after_call (set_proxy pc px) (proxy_last_write_time px path modification_s) (next perms)
      end
  | DIRECTORY => after_call pc (proxy_create_directories (pc_proxy pc) path) (next perms)
  | SYMLINK =>
      let d := on_disk pc in
      if symlinks_supported && (negb (exists_path d path) || negb (is_symlink d path) || negb (bool_decide (read_symlink d path = target)))
      then after_call pc (create_link (pc_proxy pc) target path) (next false)
      else next false pc
  | _ => next false pc
  end.

(** The entry with its permissions. *)
Definition make_whole (path : bytes) (type : FileInfoType) (size perms modification_s : Z) (target : bytes) (no_perms : bool)
    (pc : process_context) : processed :=
  make_entry pc path type size modification_s target no_perms (λ set pc,
    if set then after_call pc (set_perms (pc_proxy pc) path perms) (λ pc, (pc, inr [])) else (pc, inr [])).

(** What follows when a local file is out of the way. *)
Definition copy_entry (path : bytes) (type : FileInfoType) (size perms modification_s : Z) (target : bytes) (deleted no_perms : bool)
    (pc : process_context) : processed :=
  let make := make_whole path type size perms modification_s target no_perms in
  if deleted then
    if exists_path (on_disk pc) path then after_call pc (proxy_remove (pc_proxy pc) path) (λ pc, (pc, inr [])) else (pc, inr [])
  else if exists_path (on_disk pc) (parent_path path) then make pc
  else after_call pc (proxy_create_directories (pc_proxy pc) (parent_path path)) make.

Definition process_remote_copy (pc : process_context) (path conflict_path : bytes) (type : FileInfoType) (size perms modification_s : Z)
    (target : bytes) (deleted no_perms : bool) : processed :=
  move_away pc path conflict_path (copy_entry path type size perms modification_s target deleted no_perms).

Definition touch (path : bytes) (modification_s : Z) (pc : process_context) : processed :=
  let '(px, r) := proxy_last_write_time (pc_proxy pc) path modification_s in done (set_proxy pc px) r.

Definition process_update_meta (pc : process_context) (path : bytes) (modification_s perms : Z) (no_perms : bool) : processed :=
  if negb no_perms && permissions_supported path then after_call pc (set_perms (pc_proxy pc) path perms) (touch path modification_s)
  else touch path modification_s pc.

Definition process (pc : process_context) (cmd : io_command) : res processed :=
  match cmd with
  | block_request _ path offset block_size => process_block_request pc path offset block_size
  | remote_copy_file _ _ path conflict_path type size perms modified_s target del no_perms =>
      Ok (process_remote_copy pc path conflict_path type size perms modified_s target del no_perms)
  | finish_file _ _ path conflict_path file_size modified_s perms no_perms =>
      process_finish_file pc path conflict_path file_size modified_s perms no_perms
  | append_block _ _ path data offset file_size => process_append_block pc path data offset file_size
  | clone_block _ _ path target_offset target_size source source_offset block_size =>
      process_clone_block pc path target_offset target_size source source_offset block_size
  | update_meta _ _ path modified_s perms no_perms => Ok (process_update_meta pc path modified_s perms no_perms)
  end.

(** [cmd.folder_id]; requests of blocks have none. *)
Definition command_folder (cmd : io_command) : bytes :=
  match cmd with
  | block_request _ _ _ _ => []
  | remote_copy_file _ id _ _ _ _ _ _ _ _ _ | finish_file _ id _ _ _ _ _ _ | append_block _ id _ _ _ _
  | clone_block _ id _ _ _ _ _ _ | update_meta _ id _ _ _ _ => id
  end.

Definition enable_masks (pc : process_context) (id : bytes) : process_context :=
  let px := pc_proxy pc in
  set_proxy pc (mkProxy (px_disk px) (enable (px_mediator px) (bool_decide (is_Some (watched_folders !! id)))) (px_deadline px) (px_updates px)).

Fixpoint process_all (pc : process_context) (cmds : list io_command) : res (process_context * list (io_command * (io_error + bytes))) :=
  match cmds with
  | [] => Ok (pc, [])
  | cmd :: cmds =>
      let* '(pc, r) := process (enable_masks pc (command_folder cmd)) cmd in
      let* '(pc, rs) := process_all pc cmds in
      Ok (pc, (cmd, r) :: rs)
  end.

(** ** Messages *)

Definition cache_of (a : file_actor) (key : Z) : file_cache := default ∅ (fa_context_cache a !! key).

(** The commands of the controller [key], with their results. *)
Definition on_io_commands (a : file_actor) (now key : Z) (cmds : list io_command)
    : res (file_actor * list (io_command * (io_error + bytes))) :=
  let px := mkProxy (fa_disk a) (fa_mediator a) (now + retension) 0 in
  let* '(pc, rs) := process_all (mkProcess px (cache_of a key)) cmds in
  let px := pc_proxy pc in
  Ok (mkFileActor (px_disk px) (px_mediator px) (<[key := pc_cache pc]> (fa_context_cache a))
        (fa_expiration_timer a || negb (px_updates px =? 0)) (fa_services a), rs).

Definition on_retension_finish (a : file_actor) (cancelled : bool) : file_actor :=
  if cancelled then mkFileActor (fa_disk a) (fa_mediator a) (fa_context_cache a) false (fa_services a)
  else
    let '(md, do_respawn) := clean_expired (fa_mediator a) in
    mkFileActor (fa_disk a) md (fa_context_cache a) do_respawn (fa_services a).

Definition with_services (a : file_actor) (n : Z) : file_actor :=
  mkFileActor (fa_disk a) (fa_mediator a) (fa_context_cache a) (fa_expiration_timer a) n.

Definition on_controller_up (a : file_actor) : file_actor := with_services a (fa_services a + 1).

Definition on_controller_predown (a : file_actor) (key : Z) (started : bool) : file_actor :=
  if started then
    mkFileActor (fa_disk a) (fa_mediator a) (delete key (fa_context_cache a)) (fa_expiration_timer a) (fa_services a - 1)
  else a.

Definition on_service_lock (a : file_actor) (mine : bool) : file_actor := if mine then with_services a (fa_services a + 1) else a.

Definition on_service_unlock (a : file_actor) (mine : bool) : file_actor := if mine then with_services a (fa_services a - 1) else a.

Definition on_create_dir (a : file_actor) (path : bytes) : file_actor * (Z + unit) :=
  let '(d, r) := Disk.create_directories (fa_disk a) path in
  (mkFileActor d (fa_mediator a) (fa_context_cache a) (fa_expiration_timer a) (fa_services a), r).

(** [shutdown_finish]. *)
Definition drop_caches (a : file_actor) : file_actor := mkFileActor (fa_disk a) (fa_mediator a) ∅ (fa_expiration_timer a) (fa_services a).

(** Everything the actor is sent. *)
Inductive fs_event :=
| IoCommands (now key : Z) (cmds : list io_command)
| RetensionFinish (cancelled : bool)
| ControllerIsUp
| ControllerPredowns (key : Z) (started : bool)
| ServiceLock (mine : bool)
| ServiceUnlock (mine : bool)
| CreateDir (path : bytes)
| ShutDown.

(** The actor after an event, and the commands that were carried out. *)
Definition fs_handle (e : fs_event) (a : file_actor) : res (file_actor * list (io_command * (io_error + bytes))) :=
  match e with
  | IoCommands now key cmds => on_io_commands a now key cmds
  | RetensionFinish cancelled => Ok (on_retension_finish a cancelled, [])
  | ControllerIsUp => Ok (on_controller_up a, [])
  | ControllerPredowns key started => Ok (on_controller_predown a key started, [])
  | ServiceLock mine => Ok (on_service_lock a mine, [])
  | ServiceUnlock mine => Ok (on_service_unlock a mine, [])
  | CreateDir path => Ok ((on_create_dir a path).1, [])
  | ShutDown => Ok (drop_caches a, [])
  end.
End actor.
