(* ===== verification/DiskFrame.v ===== *)
(** * DiskFrame: a file on the disk that other calls leave alone: which calls of [Disk] and of the proxy in [FileIo] do. *)

From S2P Require Import Prelude Watcher Disk FileIo.

(** ** Splicing *)

Lemma splice_length old pos data : data ≠ [] → length (splice old pos data) = Nat.max (pos + length data) (length old).
Proof.
  intros Hd. unfold splice. rewrite !length_app, length_resize, length_drop. destruct data; [done|]. cbn [length]. lia.
Qed.

Lemma splice_lookup_new old pos data x : (pos <= x < pos + length data)%nat → splice old pos data !! x = data !! (x - pos)%nat.
Proof.
  intros Hx. unfold splice. rewrite lookup_app_r by (rewrite length_resize; lia). rewrite length_resize. rewrite lookup_app_l by lia. done.
Qed.

Lemma splice_lookup_old old pos data x :
  (x < length old)%nat → ¬ (pos <= x < pos + length data)%nat → splice old pos data !! x = old !! x.
Proof.
  intros Hl Hx. unfold splice. destruct (decide (x < pos)%nat) as [Hp|Hp].
  - rewrite lookup_app_l by (rewrite length_resize; lia). by rewrite lookup_resize by lia.
  - rewrite lookup_app_r by (rewrite length_resize; lia). rewrite length_resize. rewrite lookup_app_r by lia. rewrite lookup_drop. f_equal. lia.
Qed.

(** ** Directories of a path *)

Lemma drop_while_spec f l : ∃ a, l = a ++ drop_while f l ∧ Forall (λ x, f x = true) a ∧ (∀ x r, drop_while f l = x :: r → f x = false).
Proof.
  induction l as [|x l (a & Hl & Ha & Hh)]; [by exists []|]. cbn [drop_while]. destruct (f x) eqn:Ef.
  - exists (x :: a). split_and!; [by rewrite Hl at 1|by constructor|done].
  - exists []. split_and!; [done|done|]. by intros y r [= <- _].
Qed.

Lemma parent_path_spec p : parent_path p = [] ∨ parent_path p = [slash] ∨ ∃ r, p = parent_path p ++ slash :: r.
Proof.
  unfold parent_path. destruct (drop_while_spec (λ x, negb (x =? slash)) (rev p)) as (a & Ha & _ & Hd). set (dir := drop_while _ _) in *.
  destruct (drop_while_spec (λ x, x =? slash) dir) as (b & Hb & Hs & Hn). set (d := drop_while _ dir) in *. clearbody dir d.
  destruct d as [|y d]; [destruct dir; auto|]. right. right. destruct b as [|z b _] using rev_ind.
  - specialize (Hd y d Hb). specialize (Hn y d eq_refl). by rewrite Hn in Hd.
  - apply Forall_app in Hs as [_ Hz]. apply Forall_singleton, Z.eqb_eq in Hz. subst z dir. exists (rev b ++ rev a).
    rewrite <- (rev_involutive p), Ha, !rev_app_distr. cbn [rev app]. by rewrite <- !app_assoc.
Qed.

(** ** One name that nothing else touches *)

Section calm.
Context (tmp : bytes).

(** The target of a link that leads to [tmp] from no directory. *)
Definition harmless (t : bytes) : Prop := ∀ dir, ClusterUpdate.path_append dir t ≠ tmp.

(** Only [tmp] leads to its node, by names or links, and every name has a node. *)
Record apart (d : disk) : Prop := {
  ap_names : ∀ q i, dk_names d !! q = Some i → dk_names d !! tmp = Some i → q = tmp;
  ap_links : ∀ i n t, dk_nodes d !! i = Some n → in_kind n = KLink t → harmless t;
  ap_nodes : ∀ q i, dk_names d !! q = Some i → is_Some (dk_nodes d !! i);
}.

(** From [d] to [d'] the file [tmp] is as it was, and nodes that are open stay. *)
Record calm (d d' : disk) : Prop := {
  ca_apart : apart d';
  ca_name : dk_names d' !! tmp = dk_names d !! tmp;
  ca_node : ∀ i, dk_names d !! tmp = Some i → dk_nodes d' !! i = dk_nodes d !! i;
  ca_grows : ∀ i, is_Some (dk_nodes d !! i) → is_Some (dk_nodes d' !! i);
}.

Lemma calm_refl d : apart d → calm d d.
Proof. by split. Qed.

Lemma calm_trans d1 d2 d3 : calm d1 d2 → calm d2 d3 → calm d1 d3.
Proof.
  intros [A1 N1 I1 G1] [A2 N2 I2 G2]. split; [done|congruence| |auto]. intros i Hi. rewrite I2 by congruence. by apply I1.
Qed.

Lemma follow_apart d n : apart d → ∀ q, follow n d q = Some tmp → q = tmp.
Proof.
  intros [_ Al _]. induction n as [|n IH]; intros q Hq; [done|]. cbn [follow] in Hq.
  destruct (node_at d q) as [[[| |t] ? ?]|] eqn:En; try by injection Hq. apply IH in Hq.
  unfold node_at in En. apply bind_Some in En as (i & _ & En). by apply (Al i _ t En eq_refl) in Hq.
Qed.

Lemma tick_calm d : apart d → calm d (tick d).
Proof. intros []. by split. Qed.

(** Another node changes, and does not become a link. *)
Lemma set_node_calm d i n n' :
  apart d → dk_nodes d !! i = Some n → dk_names d !! tmp ≠ Some i → (∀ t, in_kind n' = KLink t → in_kind n = KLink t) → calm d (set_node d i n').
Proof.
  intros [An Al Aw] Hi Ht Hk.
  split; cbn [set_node dk_names dk_nodes]; [split; cbn [set_node dk_names dk_nodes]; [done| |]|done| |].
  - intros j m t. rewrite lookup_insert_Some. intros [[<- <-]|[_ Hj]] Hm; [|by eapply Al]. apply (Al i n); [done|by apply Hk].
  - intros q j Hq. destruct (decide (j = i)) as [->|Hj]; [rewrite lookup_insert_eq; by eexists|rewrite lookup_insert_ne by done; eauto].
  - intros j Hj. rewrite lookup_insert_ne; [done|congruence].
  - intros j Hj. destruct (decide (j = i)) as [->|Hji]; [rewrite lookup_insert_eq; by eexists|by rewrite lookup_insert_ne].
Qed.

Lemma fresh_node d : dk_nodes d !! fresh (dom (dk_nodes d)) = None.
Proof. apply not_elem_of_dom, is_fresh. Qed.

Lemma add_node_apart d p k : apart d → (∀ t, k = KLink t → harmless t) → apart (add_node d p k).
Proof.
  intros [An Al Aw] Hk. split.
  - intros q i. unfold add_node. cbn [dk_names]. rewrite !lookup_insert_Some. intros [[-> <-]|[Hq Eq]] [[-> Hi]|[Ht Et]]; try done; try by eapply An.
    + destruct (Aw _ _ Et) as [? Hi]. by rewrite fresh_node in Hi.
    + destruct (Aw _ _ Eq) as [? Hi']. rewrite <- Hi in Hi'. by rewrite fresh_node in Hi'.
  - intros i n t. unfold add_node. cbn [dk_nodes]. rewrite lookup_insert_Some. intros [[<- <-]|[_ Hi]] Hn; [by apply Hk|by eapply Al].
  - intros q i. unfold add_node. cbn [dk_names dk_nodes]. destruct (decide (i = fresh (dom (dk_nodes d)))) as [->|Hi].
    + rewrite lookup_insert_eq. by eexists.
    + rewrite lookup_insert_Some. intros [[_ ?]|[_ Hq]]; [congruence|]. rewrite lookup_insert_ne by done. eauto.
Qed.

(** A new name that is not [tmp]; a new link does not lead to it. *)
Lemma add_node_calm d p k : apart d → p ≠ tmp → (∀ t, k = KLink t → harmless t) → calm d (add_node d p k).
Proof.
  intros Ha Hne Hk. split; [by apply add_node_apart|unfold add_node; cbn [dk_names]; by rewrite lookup_insert_ne| |].
  - intros i Hi. unfold add_node. cbn [dk_nodes]. rewrite lookup_insert_ne; [done|]. intros <-. destruct (ap_nodes _ Ha _ _ Hi) as [? Hj].
    by rewrite fresh_node in Hj.
  - intros i [n Hi]. unfold add_node. cbn [dk_nodes]. rewrite lookup_insert_ne; [by eexists|]. intros <-. by rewrite fresh_node in Hi.
Qed.

(** Names go, or come from elsewhere; that of [tmp] stays. *)
Lemma names_calm d names :
  apart d → names !! tmp = dk_names d !! tmp →
  (∀ q i, names !! q = Some i → ∃ q', dk_names d !! q' = Some i ∧ (q' = tmp → q = tmp)) →
  calm d (mkDisk names (dk_nodes d) (dk_calls d)).
Proof.
  intros [An Al Aw] Ht Hn. split; [split; cbn [dk_names dk_nodes]|done|done|done].
  - intros q i Hq Hi. destruct (Hn _ _ Hq) as (q' & Hq' & Hqq). apply Hqq. apply (An q' i); [done|congruence].
  - done.
  - intros q i Hq. destruct (Hn _ _ Hq) as (q' & Hq' & _). eauto.
Qed.

(** Neither [tmp] nor below it; neither [tmp] nor above it. *)
Definition not_below (q : bytes) : Prop := q ≠ tmp ∧ inside_of tmp q = false.
Definition not_above (q : bytes) : Prop := q ≠ tmp ∧ inside_of q tmp = false.

Context (Htmp : tmp ≠ [] ∧ tmp ≠ [slash]).

Lemma not_below_parent q : not_below q → not_below (parent_path q).
Proof.
  unfold not_below, inside_of. rewrite !bool_decide_eq_false. intros [Hq Hi]. destruct (parent_path_spec q) as [->|[->|[r Hr]]].
  - split; [naive_solver|]. intros [l Hl]. by destruct tmp.
  - split; [naive_solver|]. intros [l Hl]. destruct tmp as [|x [|y t]]; naive_solver.
  - split; [intros Ht|intros [l Hl]]; apply Hi; rewrite Hr.
    + rewrite Ht. exists r. by rewrite <- app_assoc.
    + rewrite Hl. exists (l ++ slash :: r). by rewrite <- !app_assoc.
Qed.

Section calls.
Context `{Faults}.

(** Whatever the outcome of a call is. *)
Lemma call_calm {A} d (f : disk → outcome A) : apart d → (∀ d, apart d → calm d (f d).1) → calm d (call d f).1.
Proof.
  intros Ha Hf. unfold call. destruct (fault _); [by apply tick_calm|]. eapply calm_trans; [by apply tick_calm|]. apply Hf, tick_calm, Ha.
Qed.

Lemma make_directories_calm n : ∀ d p d', apart d → not_below p → make_directories n d p = Some d' → calm d d'.
Proof.
  induction n as [|n IH]; intros d p d' Ha Hp; [done|]. cbn [make_directories]. destruct p as [|x p]; [intros [= <-]; by apply calm_refl|].
  destruct (stat d (x :: p)) as [node|]; [destruct (is_directory node); [|done]; intros [= <-]; by apply calm_refl|].
  intros (d1 & H1 & H2)%bind_Some. apply IH in H1; [|done|by apply not_below_parent]. case_bool_decide; [|done]. injection H2 as <-.
  eapply calm_trans; [exact H1|]. apply add_node_calm; [apply H1|apply Hp|done].
Qed.

Lemma create_directories_calm d p : apart d → not_below p → calm d (Disk.create_directories d p).1.
Proof.
  intros Ha Hp. apply call_calm; [done|]. clear d Ha. intros d Ha. destruct p as [|x p]; [by apply calm_refl|].
  destruct (make_directories _ d _) eqn:E; cbn [fst]; [|by apply calm_refl]. by eapply make_directories_calm.
Qed.

(** What [p] leads to, by links, is not [tmp]. *)
Lemma follow_name d n p q i : apart d → p ≠ tmp → follow n d p = Some q → dk_names d !! q = Some i → dk_names d !! tmp ≠ Some i.
Proof. intros Ha Hp Hq Hi Ht. pose proof (ap_names _ Ha _ _ Hi Ht) as ->. by apply (follow_apart d n Ha) in Hq. Qed.

Lemma resize_file_calm d p size : apart d → p ≠ tmp → calm d (resize_file d p size).1.
Proof.
  intros Ha Hp. apply call_calm; [done|]. clear d Ha. intros d Ha. destruct (follow _ d p) as [q|] eqn:Eq; [|by apply calm_refl].
  destruct (dk_names d !! q) as [i|] eqn:Ei; [|by apply calm_refl]. destruct (dk_nodes d !! i) as [n|] eqn:En; [|by apply calm_refl].
  destruct (in_kind n) eqn:Ek; [|by apply calm_refl..]. destruct (_ <? _); [|by apply calm_refl]. apply (set_node_calm d i n); try done. by eapply follow_name.
Qed.

Lemma last_write_time_calm d p time : apart d → p ≠ tmp → calm d (last_write_time d p time).1.
Proof.
  intros Ha Hp. apply call_calm; [done|]. clear d Ha. intros d Ha. destruct (follow _ d p) as [q|] eqn:Eq; cbn; [|by apply calm_refl].
  destruct (dk_names d !! q) as [i|] eqn:Ei; [|by apply calm_refl]. destruct (dk_nodes d !! i) as [n|] eqn:En; [|by apply calm_refl].
  apply (set_node_calm d i n); try done. by eapply follow_name.
Qed.

Lemma permissions_calm d p perms : apart d → p ≠ tmp → calm d (permissions d p perms).1.
Proof.
  intros Ha Hp. apply call_calm; [done|]. clear d Ha. intros d Ha.
  destruct (dk_names d !! p) as [i|] eqn:Ei; [|by apply calm_refl]. destruct (dk_nodes d !! i) as [n|] eqn:En; [|by apply calm_refl].
  destruct (in_kind n) eqn:Ek; [| |by apply calm_refl]; apply (set_node_calm d i n); try done; cbn [in_kind]; try congruence;
    intros Ht; by apply Hp, (ap_names _ Ha p i).
Qed.

Lemma create_symlink_calm d target p : apart d → p ≠ tmp → harmless target → calm d (create_symlink d target p).1.
Proof.
  intros Ha Hp Ht. apply call_calm; [done|]. clear d Ha. intros d Ha. destruct (dk_names d !! p); [by apply calm_refl|].
  destruct (parent_ok d p); [|by apply calm_refl]. apply add_node_calm; try done. by intros t [= ->].
Qed.

Lemma open_stream_calm d p trunc : apart d → p ≠ tmp → calm d (open_stream d p trunc).1.
Proof.
  intros Ha Hp. apply call_calm; [done|]. clear d Ha. intros d Ha. destruct (follow _ d p) as [q|] eqn:Eq; [|by apply calm_refl].
  destruct (dk_names d !! q) as [i|] eqn:Ei.
  - destruct (dk_nodes d !! i) as [n|] eqn:En; [|by apply calm_refl]. destruct (in_kind n) eqn:Ek; [|by apply calm_refl..].
    destruct trunc; [|by apply calm_refl]. apply (set_node_calm d i n); try done. by eapply follow_name.
  - destruct (_ && _); [|by apply calm_refl]. apply add_node_calm; try done. intros ->. by apply (follow_apart d _ Ha) in Eq.
Qed.

Lemma open_stream_pos d p trunc d' s : open_stream d p trunc = (d', inr s) → sm_pos s = 0.
Proof. unfold open_stream, call. intros Ho. repeat (case_match; try discriminate Ho); by injection Ho as <- <-. Qed.

(** Opening a file that is there changes nothing. *)
Lemma open_existing_calm d p : apart d → calm d (open_stream d p false).1.
Proof.
  intros Ha. apply call_calm; [done|]. clear d Ha. intros d Ha. destruct (follow _ d p) as [q|]; [|by apply calm_refl].
  destruct (dk_names d !! q) as [i|]; [|by apply calm_refl].
  destruct (dk_nodes d !! i) as [n|]; [|by apply calm_refl]. destruct (in_kind n); by apply calm_refl.
Qed.

Lemma remove_all_calm d p : apart d → not_above p → calm d (remove_all d p).1.
Proof.
  intros Ha [Hp Hi]. apply call_calm; [done|]. clear d Ha. intros d Ha. apply names_calm; [done| |].
  - destruct (dk_names d !! tmp) as [i|] eqn:Et.
    + apply map_lookup_filter_Some. by split.
    + apply map_lookup_filter_None. by left.
  - intros q i [Hq _]%map_lookup_filter_Some. by exists q.
Qed.

Lemma moved_elem from to names q i : moved from to names !! q = Some i → ∃ q', names !! q' = Some i ∧ inside_of from q' = true ∧ q = to ++ drop (length from) q'.
Proof.
  intros Hq%elem_of_list_to_map_2. apply list_elem_of_fmap in Hq as ([q' i'] & [= -> ->] & Hq). apply elem_of_map_to_list in Hq.
  apply map_lookup_filter_Some in Hq as [Hq Hi]. by exists q'.
Qed.

Lemma inside_moved from to q : inside_of from q = true → inside_of to (to ++ drop (length from) q) = true.
Proof.
  unfold inside_of. rewrite !bool_decide_eq_true. intros [r ->]. exists r. rewrite <- !app_assoc. by rewrite drop_app_length.
Qed.

Lemma move_names_calm d from to i :
  apart d → dk_names d !! from = Some i → not_above from → not_above to → calm d (move_names d from to i).
Proof.
  intros Ha Hf [Hf1 Hf2] [Ht1 Ht2]. apply names_calm; [done| |].
  - rewrite lookup_insert_ne by done. destruct (moved from to (dk_names d) !! tmp) as [j|] eqn:Em.
    { apply moved_elem in Em as (q & _ & Hq & Heq). pose proof (inside_moved from to q Hq) as Hin. rewrite <- Heq in Hin. congruence. }
    rewrite lookup_union_r by done. destruct (dk_names d !! tmp) as [j|] eqn:Et.
    + apply map_lookup_filter_Some. by split.
    + apply map_lookup_filter_None. by left.
  - intros q j. rewrite lookup_insert_Some. intros [[<- <-]|[Hq Hj]]; [by exists from|]. apply lookup_union_Some_raw in Hj as [Hj|[_ Hj]].
    + apply moved_elem in Hj as (q' & Hq' & Hin & ->). exists q'. split; [done|]. intros ->. congruence.
    + apply map_lookup_filter_Some in Hj as [Hj _]. by exists q.
Qed.

Lemma rename_calm d from to : apart d → not_above from → not_above to → calm d (rename d from to).1.
Proof.
  intros Ha Hf Ht. apply call_calm; [done|]. clear d Ha. intros d Ha. destruct (dk_names d !! from) as [i|] eqn:Ei; [|by apply calm_refl].
  destruct (bool_decide _); [by apply calm_refl|]. destruct (inside_of from to); [by apply calm_refl|]. destruct (negb _); [by apply calm_refl|].
  cbv zeta. destruct (match dk_nodes d !! i with Some n => is_directory n | None => false end);
    (destruct (node_at d to) as [n|]; [destruct (is_directory n); [destruct (has_children d to)|]|]); cbn [negb fst];
    try (by apply calm_refl); by apply move_names_calm.
Qed.
(** ** Streams *)

(** A stream that is not one of [tmp]. *)
Definition elsewhere (d : disk) (s : stream) : Prop := is_Some (dk_nodes d !! sm_node s) ∧ dk_names d !! tmp ≠ Some (sm_node s).

Lemma elsewhere_calm d d' s : calm d d' → elsewhere d s → elsewhere d' s.
Proof. intros [_ N _ G] [Hn Ht]. split; [by apply G|by rewrite N]. Qed.

Lemma open_stream_elsewhere d p trunc s :
  apart d → p ≠ tmp → (open_stream d p trunc).2 = inr s → elsewhere (open_stream d p trunc).1 s.
Proof.
  intros Ha Hp. unfold open_stream, call. destruct (fault _); [done|]. assert (apart (tick d)) as Ha' by by apply tick_calm. revert Ha'.
  generalize (tick d). clear d Ha. intros d Ha.
  destruct (follow _ d p) as [q|] eqn:Eq; [|done]. destruct (dk_names d !! q) as [i|] eqn:Ei.
  - destruct (dk_nodes d !! i) as [n|] eqn:En; [|done]. destruct (in_kind n); [|done..]. cbn [fst snd]. intros [= <-].
    pose proof (follow_name _ _ _ _ _ Ha Hp Eq Ei). destruct trunc; (split; [|done]); cbn [sm_node set_node dk_nodes];
      rewrite ?lookup_insert_eq, ?En; by eexists.
  - destruct (trunc && parent_ok d q); [|done]. cbn [fst snd]. intros [= <-]. split; cbn [sm_node add_node dk_nodes dk_names].
    + rewrite lookup_insert_eq. by eexists.
    + rewrite lookup_insert_ne by (intros ->; by apply (follow_apart d _ Ha) in Eq). intros Ht. destruct (ap_nodes _ Ha _ _ Ht) as [? Hi].
      by rewrite fresh_node in Hi.
Qed.

Lemma read_stream_calm d s size :
  apart d → calm d (read_stream d s size).1.1 ∧ sm_node (read_stream d s size).1.2 = sm_node s.
Proof.
  intros Ha. unfold read_stream. destruct (negb _); [by split; [apply calm_refl|]|]. destruct (fault _); [by split; [apply tick_calm|]|].
  destruct (_ <=? _); by split; [apply tick_calm|].
Qed.

Lemma put_data_calm d s data : apart d → elsewhere d s → calm d (put_data d s data).
Proof.
  intros Ha [[n Hn] Ht]. unfold put_data. rewrite Hn. destruct n as [[old| |] time perms]; [|by apply calm_refl..].
  destruct data; [by apply calm_refl|]. by eapply set_node_calm.
Qed.

Lemma write_stream_calm d s data :
  apart d → elsewhere d s → calm d (write_stream d s data).1 ∧ sm_node (write_stream d s data).2 = sm_node s.
Proof.
  intros Ha Hs. unfold write_stream. destruct (negb _); [by split; [apply calm_refl|]|].
  assert (calm d (tick d)) as Ht by by apply tick_calm.
  destruct (fault _); (split; [|done]); (eapply calm_trans; [exact Ht|]); apply put_data_calm; try apply Ht; by eapply elsewhere_calm.
Qed.

Lemma flush_stream_calm d s : apart d → calm d (flush_stream d s).1 ∧ sm_node (flush_stream d s).2 = sm_node s.
Proof. intros Ha. unfold flush_stream. destruct (negb _); [by split; [apply calm_refl|]|]. destruct (fault _); by split; [apply tick_calm|]. Qed.

Lemma seek_node s offset : sm_node (seek s offset) = sm_node s.
Proof. unfold seek. destruct (sm_good s), (0 <=? offset); done. Qed.

(** ** The proxy *)

Lemma announced_disk {A} px p q (r : outcome A) : px_disk (announced px p q r).1 = r.1.
Proof. unfold announced. by destruct r as [d []]. Qed.

Lemma announced_result {A} px p q (r : outcome A) : (announced px p q r).2 = r.2.
Proof. unfold announced. by destruct r as [d []]. Qed.

Lemma create_missing_calm px p st : apart (px_disk px) → p ≠ tmp → calm (px_disk px) (px_disk (create_missing px p st).1).
Proof.
  intros Ha Hp. unfold create_missing. destruct st; [by apply calm_refl|]. pose proof (announced_disk px p [] (open_stream (px_disk px) p true)) as Hd.
  destruct (announced _ _ _ _) as [px1 r]. cbn [fst] in *. rewrite Hd. by apply open_stream_calm.
Qed.

Lemma set_size_calm px p st size : apart (px_disk px) → p ≠ tmp → calm (px_disk px) (px_disk (set_size px p st size).1).
Proof.
  intros Ha Hp. unfold set_size. pose proof (create_missing_calm px p st Ha Hp) as H1. destruct (create_missing _ _ _) as [px1 [e|]]; [done|].
  cbn [fst] in H1. rewrite announced_disk. eapply calm_trans; [exact H1|]. apply resize_file_calm; [apply H1|done].
Qed.

Lemma proxy_open_write_calm px p size :
  apart (px_disk px) → p ≠ tmp → let r := proxy_open_write px p size in
  calm (px_disk px) (px_disk r.1) ∧ ∀ s, r.2 = inr s → elsewhere (px_disk r.1) s.
Proof.
  intros Ha Hp. unfold proxy_open_write. set (need := match _ with Some n => _ | None => true end).
  assert (calm (px_disk px) (px_disk (if need then set_size px p (stat (px_disk px) p) size else (px, inr ())).1)) as H1.
  { destruct need; [by apply set_size_calm|by apply calm_refl]. }
  destruct (if need then _ else _) as [px1 [e|[]]]; cbn [fst] in H1; [done|]. cbv zeta.
  pose proof (open_stream_calm (px_disk px1) p false ltac:(apply H1) Hp) as H2.
  pose proof (λ s, open_stream_elsewhere (px_disk px1) p false s ltac:(apply H1) Hp) as H3.
  destruct (open_stream _ _ _) as [d r]. cbn [fst snd with_disk px_disk] in *. split; [by eapply calm_trans|done].
Qed.

Lemma proxy_open_write_pos px p size s : (proxy_open_write px p size).2 = inr s → sm_pos s = 0.
Proof.
  unfold proxy_open_write. cbv zeta. set (first := if _ : bool then _ else _). destruct first as [px1 [e|[]]]; [done|]. destruct (open_stream _ _ _) as [d r] eqn:Eo. cbn [snd]. intros ->.
  by apply open_stream_pos in Eo.
Qed.

Lemma proxy_write_calm px p s data :
  apart (px_disk px) → elsewhere (px_disk px) s → let r := proxy_write px p s data in
  calm (px_disk px) (px_disk r.1.1) ∧ sm_node r.1.2 = sm_node s.
Proof.
  intros Ha Hs. unfold proxy_write. destruct (write_stream_calm (px_disk px) s data Ha Hs) as [H1 N1].
  destruct (write_stream _ _ _) as [d s1]. cbn [fst snd] in H1, N1. cbv zeta. destruct (negb (sm_good s1)); [by cbn|]. cbn [masking with_disk px_disk].
  destruct (flush_stream_calm d s1 ltac:(apply H1)) as [H2 N2]. destruct (flush_stream _ _) as [d2 s2]. cbn [fst snd] in H2, N2.
  destruct (negb (sm_good s2)); cbn [fst snd masking with_disk px_disk]; (split; [by eapply calm_trans|congruence]).
Qed.
End calls.
End calm.
