(* ===== verification/Download.v ===== *)
(** * Download: what becomes of a file whose blocks arrive in any order, among any other commands: [FileActor] assembles it. *)

From S2P Require Import Prelude Proto Resolver Cluster Wire Bep Controller ControllerSample Watcher Disk FileIo FileActor DiskFrame.

(** ** A download *)

Section download.
Context `{Faults, Surroundings} (path content : bytes).

Abbreviation tmp := (make_temporal path).
Abbreviation whole := (Z.of_nat (length content)).

Lemma tmp_long : tmp ≠ [] ∧ tmp ≠ [slash].
Proof. unfold make_temporal. split; intros E; apply (f_equal length) in E; rewrite length_app in E; vm_compute (length tmp_suffix) in E; cbn [length] in E; lia. Qed.

Lemma temporal_inj p q : make_temporal p = make_temporal q → p = q.
Proof. apply app_inv_tail. Qed.

Lemma path_apart : not_below tmp path ∧ not_above tmp path.
Proof.
  assert (path ≠ tmp) as Hne.
  { intros E. apply (f_equal length) in E. unfold make_temporal in E. rewrite length_app in E. vm_compute (length tmp_suffix) in E. lia. }
  split; (split; [done|]); unfold inside_of; apply bool_decide_eq_false.
  - intros [l E]. apply (f_equal length) in E. unfold make_temporal in E. rewrite !length_app in E. vm_compute (length tmp_suffix) in E. lia.
  - unfold make_temporal. intros [l E]. rewrite <- app_assoc in E. apply app_inv_head in E. by vm_compute (tmp_suffix) in E.
Qed.

(** What has arrived: the bytes of [W] are those of the content. *)
Record partial (W : nat → Prop) (d : disk) : Prop := {
  pt_data : ∀ i, dk_names d !! tmp = Some i → ∃ data time perms, dk_nodes d !! i = Some (mkInode (KFile data) time perms) ∧
    (length data <= length content)%nat ∧ ∀ x, W x → data !! x = content !! x;
  pt_none : dk_names d !! tmp = None → ∀ x, ¬ W x;
}.

(** A file that is open: the one for [path] is [tmp], any other one is another file. *)
Definition file_ok (d : disk) (q : bytes) (f : open_file) : Prop :=
  ∃ s, of_backend f = Some s ∧ 0 <= sm_pos s ∧
    if bool_decide (q = path) then of_path f = tmp ∧ of_size f = whole ∧ dk_names d !! tmp = Some (sm_node s)
    else elsewhere tmp d s ∧ not_above tmp (of_path f).

Definition cache_ok (d : disk) (c : file_cache) : Prop := map_Forall (file_ok d) c.

(** The disk as the actor changes it: [tmp] may be new. *)
Record evolves (d d' : disk) : Prop := {
  ev_apart : apart tmp d';
  ev_name : ∀ i, dk_names d !! tmp = Some i → dk_names d' !! tmp = Some i;
  ev_new : ∀ i, dk_names d !! tmp = None → dk_names d' !! tmp = Some i → dk_nodes d !! i = None;
  ev_grows : ∀ i, is_Some (dk_nodes d !! i) → is_Some (dk_nodes d' !! i);
}.

Lemma calm_evolves d d' : calm tmp d d' → evolves d d'.
Proof. intros []. split; try done; intros; congruence. Qed.

Lemma evolves_trans d1 d2 d3 : evolves d1 d2 → evolves d2 d3 → evolves d1 d3.
Proof.
  intros [A1 N1 W1 G1] [A2 N2 W2 G2]. split; [done|auto| |auto]. intros i Hn Hi. destruct (dk_names d2 !! tmp) as [j|] eqn:E.
  - apply W1; [done|]. rewrite (N2 _ eq_refl) in Hi. by injection Hi as ->.
  - specialize (W2 i eq_refl Hi). destruct (dk_nodes d1 !! i) eqn:En; [|done]. destruct (G1 i); [by eexists|congruence].
Qed.

Lemma file_ok_evolves d d' q f : evolves d d' → file_ok d q f → file_ok d' q f.
Proof.
  intros [_ N W G] (s & Hs & Hp & Hf). exists s. split; [done|]. split; [done|]. case_bool_decide; [naive_solver|]. destruct Hf as [[Hn Ht] Ho].
  split; [|done]. split; [by apply G|]. intros Ht'. destruct (dk_names d !! tmp) as [i|] eqn:E.
  - rewrite (N _ eq_refl) in Ht'. congruence.
  - specialize (W _ eq_refl Ht'). rewrite W in Hn. by destruct Hn.
Qed.

Lemma cache_ok_evolves d d' c : evolves d d' → cache_ok d c → cache_ok d' c.
Proof. intros He Hc q f Hq. eapply file_ok_evolves; [done|]. by apply Hc. Qed.

Lemma partial_calm W d d' : calm tmp d d' → partial W d → partial W d'.
Proof.
  intros [_ N I _] [Pd Pn]. split; rewrite N; [|done]. intros i Hi. rewrite (I _ Hi). eauto.
Qed.

(** The state of a controller's commands. *)
Record state_ok (W : nat → Prop) (pc : process_context) : Prop := {
  so_apart : apart tmp (on_disk pc);
  so_cache : cache_ok (on_disk pc) (pc_cache pc);
  so_partial : partial W (on_disk pc);
}.

(** What a command does: [W'] has arrived after it. *)
Definition advances (W' : nat → Prop) (pc pc' : process_context) : Prop := evolves (on_disk pc) (on_disk pc') ∧ state_ok W' pc'.

Lemma writing_trans W1 W2 pc1 pc2 pc3 : advances W1 pc1 pc2 → advances W2 pc2 pc3 → advances W2 pc1 pc3.
Proof. intros [E1 _] [E2 S2]. split; [by eapply evolves_trans|done]. Qed.

Lemma partial_weaken (W W' : nat → Prop) d : (∀ x, W x → W' x) → partial W' d → partial W d.
Proof. intros HW [Pd Pn]. split; [|intros Ht x Hx; by apply (Pn Ht x), HW]. intros i Hi. destruct (Pd i Hi) as (data & time & perms & ? & ? & Hd). eauto 8. Qed.

Lemma advances_weaken (W W' : nat → Prop) pc pc' : (∀ x, W x → W' x) → advances W' pc pc' → advances W pc pc'.
Proof. intros HW [E [Sa Sc Sp]]. split; [done|]. split; [done..|by eapply partial_weaken]. Qed.

(** Other files change, and what is open stays. *)
Lemma calm_advances W pc px :
  state_ok W pc → calm tmp (on_disk pc) (px_disk px) → advances W pc (set_proxy pc px).
Proof.
  intros [Sa Sc Sp] Hc. pose proof (calm_evolves _ _ Hc) as He. split; [done|]. split; [apply Hc|by eapply cache_ok_evolves|by eapply partial_calm].
Qed.

Lemma calm_advances_open W pc px p f :
  state_ok W pc → calm tmp (on_disk pc) (px_disk px) → file_ok (px_disk px) p f → advances W pc (keep_open pc px p f).
Proof.
  intros [Sa Sc Sp] Hc Hf. pose proof (calm_evolves _ _ Hc) as He. split; [done|]. split; [apply Hc| |by eapply partial_calm].
  apply map_Forall_insert_2; [done|]. by eapply cache_ok_evolves.
Qed.
(** ** Reading *)

Lemma read_stream_spec d st sz :
  0 <= sm_pos st → 0 <= sz →
  0 <= sm_pos (read_stream d st sz).1.2 ∧ (sm_good (read_stream d st sz).1.2 = true → length (read_stream d st sz).2 = Z.to_nat sz).
Proof.
  intros Hp Hsz. unfold read_stream. destruct (negb (sm_good st)) eqn:Eg; [apply negb_true_iff in Eg; cbn; by rewrite Eg|].
  destruct (fault _); [done|]. destruct (Z.leb_spec (sm_pos st + sz) (Z.of_nat (length (data_of d st)))); [|done]. cbn [fst snd sm_pos].
  split; [lia|]. intros _. rewrite length_take, length_drop. lia.
Qed.

Lemma seek_pos s offset : 0 <= sm_pos s → 0 <= sm_pos (seek s offset).
Proof. unfold seek. destruct (sm_good s); [|done]. by destruct (Z.leb_spec 0 offset). Qed.

Lemma file_read_spec px f offset sz px' f' r :
  apart tmp (px_disk px) → 0 <= sz → (∀ s, of_backend f = Some s → 0 <= sm_pos s) → file_read px f offset sz = Ok (px', f', r) →
  calm tmp (px_disk px) (px_disk px') ∧ (∃ s s', of_backend f = Some s ∧ f' = with_backend f s' ∧ sm_node s' = sm_node s ∧ 0 <= sm_pos s') ∧
  ∀ data, r = inr data → length data = Z.to_nat sz.
Proof.
  intros Ha Hsz Hpos. unfold file_read. intros (s & Hs & Hr)%bind_Ok. destruct (of_backend f) as [st|] eqn:Eb; [|done]. injection Hs as ->.
  specialize (Hpos s eq_refl). set (s1 := if tell s =? i64 offset then s else seek s (i64 offset)) in *.
  assert (sm_node s1 = sm_node s) as N1 by (unfold s1; destruct (_ =? _); [done|apply seek_node]).
  assert (0 <= sm_pos s1) as P1 by (unfold s1; destruct (_ =? _); [done|by apply seek_pos]). cbv zeta in Hr.
  destruct (negb _); [injection Hr as <- <- <-; split_and!; [by apply calm_refl|eauto 8|done]|].
  apply bind_Ok in Hr as (u & _ & Hr). destruct (read_stream_calm tmp (px_disk px) s1 sz Ha) as [Hc N2].
  destruct (read_stream_spec (px_disk px) s1 sz P1 Hsz) as [P2 Hl]. destruct (read_stream _ _ _) as [[d s2] data]. cbn [fst snd] in *.
  injection Hr as <- <- <-. split_and!; [done|exists s, s2; split_and!; [done|done|congruence|done]|]. intros dt. destruct (sm_good s2); [|done].
  intros [= <-]. by apply Hl.
Qed.

Lemma file_ok_backend d q f s s' :
  of_backend f = Some s → sm_node s' = sm_node s → 0 <= sm_pos s' → file_ok d q f → file_ok d q (with_backend f s').
Proof.
  intros Hs Hn Hp (t & Ht & _ & Hf). exists s'. split; [done|]. split; [done|]. assert (t = s) as -> by congruence. unfold elsewhere in *. rewrite Hn. done.
Qed.

Lemma file_ok_pos d q f s : file_ok d q f → of_backend f = Some s → 0 <= sm_pos s.
Proof. intros (t & Ht & Hp & _) Hs. congruence. Qed.

Lemma read_from_advances W pc p offset sz pc' r :
  state_ok W pc → 0 <= sz → read_from pc p offset sz = Ok (pc', r) →
  advances W pc pc' ∧ (∀ data, r = inr data → length data = Z.to_nat sz) ∧ dom (pc_cache pc') = dom (pc_cache pc).
Proof.
  intros Hs Hsz. unfold read_from. destruct (pc_cache pc !! p) as [f|] eqn:Ef.
  - pose proof (so_cache _ _ Hs p f Ef) as Hf. intros ([[px f1] r1] & Hr & [= <- <-])%bind_Ok.
    apply file_read_spec in Hr as (Hc & (s & s' & Hb & -> & Hn & Hp) & Hl); [|apply Hs|done|intros s; by eapply file_ok_pos].
    split_and!; [|done|unfold keep_open; cbn [pc_cache]; rewrite dom_insert_L; apply elem_of_dom_2 in Ef; set_solver].
    apply calm_advances_open; [done|done|]. eapply file_ok_backend; [done..|]. eapply file_ok_evolves; [by apply calm_evolves|done].
  - unfold file_open_read. pose proof (open_existing_calm tmp (px_disk (pc_proxy pc)) p (so_apart _ _ Hs)) as H1.
    destruct (open_stream _ _ _) as [d [e|st]] eqn:Eo; cbn [fst] in H1.
    + intros [= <- <-]. split_and!; [by apply calm_advances|done|done].
    + intros ([[px f1] r1] & Hr & [= <- <-])%bind_Ok. apply file_read_spec in Hr as (Hc & _ & Hl); [|apply H1|done|].
      * split_and!; [|done|done]. apply calm_advances; [done|]. by eapply calm_trans.
      * cbn [of_backend]. intros s [= <-]. by apply open_stream_pos in Eo as ->.
Qed.
(** ** Writing *)

(** [data] is what the content has at [pos]. *)
Definition agrees (pos : nat) (data : bytes) : Prop := ∀ k x, data !! k = Some x → content !! (pos + k)%nat = Some x.

Lemma agrees_take pos data n : agrees pos data → agrees pos (take n data).
Proof. intros Hd k x. rewrite lookup_take_Some. intros [Hk _]. by apply Hd. Qed.

Lemma agrees_length pos data : agrees pos data → data ≠ [] → (pos + length data <= length content)%nat.
Proof.
  intros Hd Hne. destruct (lookup_lt_is_Some_2 data (length data - 1)) as [x Hx]; [destruct data; [done|]; cbn [length]; lia|].
  apply Hd, lookup_lt_Some in Hx. destruct data; [done|]. cbn [length] in *. lia.
Qed.

Definition span (pos : nat) (data : bytes) (x : nat) : Prop := (pos <= x < pos + length data)%nat.

Lemma put_data_target W d s data :
  apart tmp d → partial W d → dk_names d !! tmp = Some (sm_node s) → agrees (Z.to_nat (sm_pos s)) data →
  evolves d (put_data d s data) ∧ partial (λ x, W x ∨ span (Z.to_nat (sm_pos s)) data x) (put_data d s data) ∧
  dk_names (put_data d s data) = dk_names d.
Proof.
  intros [An Al Aw] [Pd Pn] Ht Hd. destruct (Pd _ Ht) as (old & time & perms & Hi & Hl & Hw). unfold put_data. rewrite Hi.
  set (pos := Z.to_nat (sm_pos s)) in *. destruct data as [|z data].
  { split_and!; [by apply calm_evolves, calm_refl| |done]. eapply partial_weaken; [|by split]. intros x [?|[? ?]]; [done|]. cbn [length] in *. lia. }
  set (all := z :: data) in *. pose proof (agrees_length _ _ Hd ltac:(done)) as Hb. set (d' := set_node _ _ _).
  assert (∀ x, W x ∨ span pos all x → splice old pos all !! x = content !! x) as Hnew.
  { intros x Hx. destruct (decide (span pos all x)) as [Hr|Hr].
    - rewrite splice_lookup_new by done. destruct (lookup_lt_is_Some_2 all (x - pos)) as [y Hy]; [unfold span in Hr; lia|].
      rewrite Hy. symmetry. apply Hd in Hy. by replace (pos + (x - pos))%nat with x in Hy by (unfold span in Hr; lia).
    - destruct Hx as [Hx|]; [|done]. destruct (decide (x < length old)%nat) as [Hxl|Hxl]; [rewrite splice_lookup_old by done; by apply Hw|].
      specialize (Hw x Hx). rewrite lookup_ge_None_2 in Hw by lia. symmetry in Hw. rewrite Hw. apply lookup_ge_None in Hw. apply lookup_ge_None.
      rewrite splice_length by done. lia. }
  split_and!; [split; cbn [d' set_node dk_names dk_nodes]| |done].
  - split; cbn [d' set_node dk_names dk_nodes]; [done| |].
    + intros i n t. rewrite lookup_insert_Some. intros [[<- <-]|[_ Hn]]; [done|by eapply Al].
    + intros q i Hq. destruct (decide (i = sm_node s)) as [->|Hne]; [rewrite lookup_insert_eq; by eexists|rewrite lookup_insert_ne by done; eauto].
  - done.
  - intros i Hn. congruence.
  - intros i Hn. destruct (decide (i = sm_node s)) as [->|Hne]; [rewrite lookup_insert_eq; by eexists|by rewrite lookup_insert_ne].
  - split; cbn [d' set_node dk_names dk_nodes].
    + intros i Hi2. rewrite Ht in Hi2. injection Hi2 as <-. rewrite lookup_insert_eq. exists (splice old pos all), time, perms.
      split; [done|]. split; [rewrite splice_length by done; lia|done].
    + intros Hn. congruence.
Qed.

Lemma tick_target W d : apart tmp d → partial W d → apart tmp (tick d) ∧ partial W (tick d) ∧ evolves d (tick d).
Proof. intros Ha Hp. pose proof (tick_calm tmp d Ha) as Hc. split_and!; [apply Hc|by eapply partial_calm|by apply calm_evolves]. Qed.

(** A write to the file: all of it, or a part when it fails. *)
Lemma write_stream_target W d s data :
  apart tmp d → partial W d → dk_names d !! tmp = Some (sm_node s) → 0 <= sm_pos s → agrees (Z.to_nat (sm_pos s)) data →
  let r := write_stream d s data in
  evolves d r.1 ∧ partial (λ x, W x ∨ (sm_good r.2 = true ∧ span (Z.to_nat (sm_pos s)) data x)) r.1 ∧ sm_node r.2 = sm_node s ∧ 0 <= sm_pos r.2.
Proof.
  intros Ha Hp Ht Hpos Hd. destruct (tick_target W d Ha Hp) as (Ha' & Hp' & He'). unfold write_stream. destruct (negb (sm_good s)) eqn:Eg.
  - apply negb_true_iff in Eg. cbn [fst snd]. rewrite Eg. split_and!; [by apply calm_evolves, calm_refl| |done|done].
    eapply partial_weaken; [|exact Hp]. intros x [|[? _]]; done.
  - destruct (fault _); cbn [fst snd sm_good sm_node sm_pos broken].
    + destruct (put_data_target W (tick d) s (take (written (dk_calls d)) data) Ha' Hp' Ht (agrees_take _ _ _ Hd)) as (He & Hp2 & _).
      split_and!; [by eapply evolves_trans| |done|done]. eapply partial_weaken; [|exact Hp2]. intros x [|[? _]]; [by left|done].
    + destruct (put_data_target W (tick d) s data Ha' Hp' Ht Hd) as (He & Hp2 & _).
      split_and!; [by eapply evolves_trans| |done|lia]. eapply partial_weaken; [|exact Hp2]. intros x [|[_ ?]]; [by left|by right].
Qed.

Lemma proxy_write_target W px p s data :
  apart tmp (px_disk px) → partial W (px_disk px) → dk_names (px_disk px) !! tmp = Some (sm_node s) → 0 <= sm_pos s →
  agrees (Z.to_nat (sm_pos s)) data → let r := proxy_write px p s data in
  evolves (px_disk px) (px_disk r.1.1) ∧ partial (λ x, W x ∨ (r.2 = inr () ∧ span (Z.to_nat (sm_pos s)) data x)) (px_disk r.1.1) ∧
  sm_node r.1.2 = sm_node s ∧ 0 <= sm_pos r.1.2.
Proof.
  intros Ha Hp Ht Hpos Hd. unfold proxy_write. destruct (write_stream_target W (px_disk px) s data Ha Hp Ht Hpos Hd) as (He & Hp1 & Hn & Hs).
  destruct (write_stream _ _ _) as [d s1]. cbn [fst snd] in *. cbv zeta. destruct (sm_good s1) eqn:Eg; cbn [negb].
  - cbn [masking with_disk px_disk]. destruct (flush_stream_calm tmp d s1 ltac:(apply He)) as [Hc Hn2].
    assert (0 <= sm_pos (flush_stream d s1).2) as Hs2 by (unfold flush_stream; destruct (negb _); [done|]; by destruct (fault (dk_calls d))).
    destruct (flush_stream d s1) as [d2 s2]. cbn [fst snd] in *. pose proof (partial_calm _ _ _ Hc Hp1) as Hp2.
    pose proof (evolves_trans _ _ _ He (calm_evolves _ _ Hc)) as He2.
    destruct (sm_good s2); cbn [negb fst snd masking with_disk px_disk]; (split_and!; [done| |congruence|done]); eapply partial_weaken; try exact Hp2; naive_solver.
  - cbn [fst snd with_disk px_disk]. split_and!; [done| |done|done]. eapply partial_weaken; [|exact Hp1]. naive_solver.
Qed.
Lemma proxy_write_pos px p s data : 0 <= sm_pos s → 0 <= sm_pos (proxy_write px p s data).1.2.
Proof.
  intros Hs. unfold proxy_write.
  assert (0 <= sm_pos (write_stream (px_disk px) s data).2) as Hw.
  { unfold write_stream. destruct (negb _); [done|]. destruct (fault _); [done|]. cbn [snd sm_pos]. lia. }
  destruct (write_stream _ _ _) as [d s1]. cbn [snd] in Hw. cbv zeta. destruct (negb (sm_good s1)); [done|].
  assert (0 <= sm_pos (flush_stream (px_disk (masking (with_disk px d) p [])) s1).2) as Hf.
  { unfold flush_stream. destruct (negb _); [done|]. by destruct (fault _). }
  destruct (flush_stream _ _) as [d2 s2]. by destruct (negb (sm_good s2)).
Qed.

(** [file_write] to a file that is open: it fails at once, or the proxy writes where [offset] says. *)
Lemma file_write_seeks px f offset data r s : of_backend f = Some s → 0 <= sm_pos s → file_write px f offset data = Ok r →
  (∃ s1, sm_node s1 = sm_node s ∧ 0 <= sm_pos s1 ∧ r = (px, with_backend f s1, inl EIO)) ∨
  ∃ s1, sm_node s1 = sm_node s ∧ 0 <= sm_pos s1 ∧ (0 <= offset < 2 ^ 63 → sm_pos s1 = offset) ∧
    r = ((proxy_write px (of_path f) s1 data).1.1, with_backend f (proxy_write px (of_path f) s1 data).1.2, (proxy_write px (of_path f) s1 data).2).
Proof.
  intros Eb Hp. unfold file_write. intros (u & _ & Hr)%bind_Ok. rewrite Eb in Hr. cbn [res_bind] in Hr.
  assert (0 <= offset < 2 ^ 63 → i64 offset = offset) as Hi. { intros Ho. unfold i64, u64. rewrite Z.mod_small by lia. destruct (Z.ltb_spec offset (2 ^ 63)); lia. }
  destruct (Z.eqb_spec (tell s) (i64 offset)) as [Et|Et].
  - right. exists s. split_and!; [done|done| |destruct (proxy_write _ _ _ _) as [[px1 s1] r1]; by injection Hr as <-].
    intros Ho. rewrite Hi in Et by done. unfold tell in Et. destruct (sm_good s); lia.
  - destruct (Z.eqb_spec (tell s) (-1)).
    { left. exists s. injection Hr as <-. split_and!; [done|done|]. unfold with_backend. rewrite <- Eb. by destruct f. }
    destruct (negb (sm_good (seek s (i64 offset)))) eqn:Es.
    { left. exists (seek s (i64 offset)). injection Hr as <-. split_and!; [apply seek_node|by apply seek_pos|done]. }
    right. exists (seek s (i64 offset)). split_and!; [apply seek_node|by apply seek_pos| |destruct (proxy_write _ _ _ _) as [[px1 s1] r1]; by injection Hr as <-].
    intros Ho. rewrite Hi in Es |- * by done. revert Es. unfold seek. destruct (Z.leb_spec 0 offset); [|lia]. destruct (sm_good s) eqn:Eg; [done|]. by rewrite Eg.
Qed.

(** [write_to] to another file. *)
Lemma write_to_other W pc p offset data pc' r : state_ok W pc → p ≠ path → write_to pc p offset data = Ok (pc', r) → advances W pc pc'.
Proof.
  intros Hs Hp. unfold write_to. destruct (pc_cache pc !! p) as [f|] eqn:Ef; [|done]. intros ([[px f1] r1] & Hw & [= <- _])%bind_Ok.
  pose proof (so_cache _ _ Hs p f Ef) as Hf. pose proof Hf as (s & Hb & Hpos & Ho2). rewrite bool_decide_eq_false_2 in Ho2 by done. destruct Ho2 as [He Ha].
  apply (file_write_seeks _ _ _ _ _ s) in Hw as [(s1 & Hn & Hp1 & [= -> -> _])|(s1 & Hn & Hp1 & _ & [= -> -> _])]; [| |done..].
  - apply calm_advances_open; [done|apply calm_refl, Hs|by eapply file_ok_backend].
  - destruct (proxy_write_calm tmp (pc_proxy pc) (of_path f) s1 data (so_apart _ _ Hs)) as [Hc Hn1]; [unfold elsewhere; by rewrite Hn|].
    apply calm_advances_open; [done|done|]. eapply file_ok_backend; [done|congruence|by apply proxy_write_pos|]. eapply file_ok_evolves; [by apply calm_evolves|done].
Qed.

(** [write_to] to the file: what was written has arrived. *)
Lemma write_to_target W pc offset data pc' r :
  state_ok W pc → 0 <= offset < 2 ^ 63 → agrees (Z.to_nat offset) data → write_to pc path offset data = Ok (pc', r) →
  advances (λ x, W x ∨ (r = inr [] ∧ span (Z.to_nat offset) data x)) pc pc'.
Proof.
  intros Hs Ho Hd. unfold write_to. destruct (pc_cache pc !! path) as [f|] eqn:Ef; [|done]. intros ([[px f1] r1] & Hw & [= <- <-])%bind_Ok.
  pose proof (so_cache _ _ Hs path f Ef) as Hf. pose proof Hf as (s & Hb & Hpos & Hi). rewrite bool_decide_eq_true_2 in Hi by done. destruct Hi as (Hp & Hz & Ht).
  apply (file_write_seeks _ _ _ _ _ s) in Hw as [(s1 & Hn & Hp1 & [= -> -> ->])|(s1 & Hn & Hp1 & Hoff & [= -> -> ->])]; [| |done..].
  - eapply advances_weaken; [|apply calm_advances_open; [done|apply calm_refl, Hs|by eapply file_ok_backend]]. naive_solver.
  - rewrite <- (Hoff Ho) in Hd. destruct (proxy_write_target W (pc_proxy pc) (of_path f) s1 data (so_apart _ _ Hs) (so_partial _ _ Hs)) as (He & Hp2 & Hn2 & Hs2);
      [by rewrite Hn|done|done|]. rewrite (Hoff Ho) in Hp2. split; [done|]. split; cbn [keep_open on_disk pc_proxy pc_cache].
    + apply He.
    + apply map_Forall_insert_2; [|by eapply cache_ok_evolves; [|apply Hs]].
      eapply file_ok_backend; [done|congruence|done|by eapply file_ok_evolves].
    + eapply partial_weaken; [|exact Hp2]. intros x [|[Hr ?]]; [by left|right]. split; [|done]. by destruct (proxy_write _ _ _ _) as [[] [|[]]].
Qed.
(** ** Opening *)

Lemma follow_tmp W d n : partial W d → follow (S n) d tmp = Some tmp.
Proof.
  intros [Pd _]. cbn [follow]. unfold node_at. destruct (dk_names d !! tmp) as [i|] eqn:Ei; [|done]. cbn.
  by destruct (Pd _ eq_refl) as (data & time & perms & -> & _).
Qed.

Lemma stat_tmp W d : partial W d → stat d tmp = dk_names d !! tmp ≫= λ i, dk_nodes d !! i.
Proof. intros Hp. unfold stat. change max_links with (S 39). by rewrite (follow_tmp W). Qed.

(** A call on the file itself. *)
Lemma call_target {A} W d (f : disk → outcome A) :
  apart tmp d → partial W d → (∀ d, apart tmp d → partial W d → evolves d (f d).1 ∧ partial W (f d).1) →
  evolves d (call d f).1 ∧ partial W (call d f).1.
Proof.
  intros Ha Hp Hf. destruct (tick_target W d Ha Hp) as (Ha' & Hp' & He). unfold call. destruct (fault _); [done|].
  destruct (Hf _ Ha' Hp') as [He2 Hp2]. split; [by eapply evolves_trans|done].
Qed.

(** The node of the file changes. *)
Lemma set_node_target W d i data data' time perms time' perms' :
  apart tmp d → partial W d → dk_names d !! tmp = Some i → dk_nodes d !! i = Some (mkInode (KFile data) time perms) →
  (length data' <= length content)%nat → (∀ x, W x → data' !! x = content !! x) →
  evolves d (set_node d i (mkInode (KFile data') time' perms')) ∧ partial W (set_node d i (mkInode (KFile data') time' perms')).
Proof.
  intros [An Al Aw] Hp Ht Hi Hl Hw. split; [split; cbn [set_node dk_names dk_nodes]; [split; cbn [set_node dk_names dk_nodes]; [done| |]|done| |]|].
  - intros j n t. rewrite lookup_insert_Some. intros [[<- <-]|[_ Hn]]; [done|by eapply Al].
  - intros q j Hq. destruct (decide (j = i)) as [->|Hne]; [rewrite lookup_insert_eq; by eexists|rewrite lookup_insert_ne by done; eauto].
  - intros j Hn. congruence.
  - intros j Hn. destruct (decide (j = i)) as [->|Hne]; [rewrite lookup_insert_eq; by eexists|by rewrite lookup_insert_ne].
  - split; cbn [set_node dk_names dk_nodes]; [|congruence]. intros j Hj. rewrite Ht in Hj. injection Hj as <-. rewrite lookup_insert_eq. eauto 8.
Qed.

Lemma resize_target W d : apart tmp d → partial W d → evolves d (resize_file d tmp whole).1 ∧ partial W (resize_file d tmp whole).1.
Proof.
  intros Ha Hp. apply call_target; [done..|]. clear d Ha Hp. intros d Ha Hp. change max_links with (S 39). rewrite (follow_tmp W) by done.
  assert (evolves d d) as Hr by by apply calm_evolves, calm_refl.
  destruct (dk_names d !! tmp) as [i|] eqn:Ei; [|done]. destruct (pt_data _ _ Hp _ Ei) as (data & time & perms & Hi & Hl & Hw). rewrite Hi. cbn [in_kind].
  destruct (_ <? _); [|done]. cbn [fst set_kind in_time in_perms]. rewrite Nat2Z.id. apply (set_node_target W d i data _ time perms); try done.
  - rewrite length_resize. lia.
  - intros x Hx. specialize (Hw x Hx). destruct (decide (x < length content)%nat) as [Hlt|Hge].
    + destruct (lookup_lt_is_Some_2 content x Hlt) as [y Hy]. rewrite Hy in *. apply lookup_lt_Some in Hw as Hlt'. by rewrite lookup_resize by lia.
    + rewrite !lookup_ge_None_2; [done|lia|rewrite length_resize; lia].
Qed.

Lemma create_target W d :
  apart tmp d → partial W d → dk_names d !! tmp = None → evolves d (open_stream d tmp true).1 ∧ partial W (open_stream d tmp true).1.
Proof.
  intros Ha Hp Hn. assert (evolves d (tick d) ∧ partial W (tick d)) as [He Hp'] by (destruct (tick_target W d Ha Hp) as (_ & ? & ?); done).
  unfold open_stream, call. destruct (fault _); [done|]. revert He Hp'. change (dk_names d) with (dk_names (tick d)) in Hn. revert Hn.
  generalize (tick d). intros d' Hn He Hp'. pose proof (ev_apart _ _ He) as Ha'. change max_links with (S 39). rewrite (follow_tmp W) by done. rewrite Hn.
  destruct (true && parent_ok d' tmp); [|done]. cbn [fst]. split.
  - eapply evolves_trans; [exact He|]. split; [by apply add_node_apart| | |].
    + intros i Hi. congruence.
    + intros i _. unfold add_node. cbn [dk_names]. rewrite lookup_insert_eq. intros [= <-]. apply fresh_node.
    + intros i [n Hi]. unfold add_node. cbn [dk_nodes]. rewrite lookup_insert_ne; [by eexists|]. intros <-. by rewrite fresh_node in Hi.
  - split; unfold add_node; cbn [dk_names dk_nodes]; rewrite lookup_insert_eq; [|done]. intros i [= <-]. rewrite lookup_insert_eq. exists [], 0, 0.
    split; [done|]. split; [cbn; lia|]. intros x Hx. by apply (pt_none _ _ Hp' Hn) in Hx.
Qed.

Lemma set_size_target W px :
  apart tmp (px_disk px) → partial W (px_disk px) → let r := set_size px tmp (stat (px_disk px) tmp) whole in
  evolves (px_disk px) (px_disk r.1) ∧ partial W (px_disk r.1).
Proof.
  intros Ha Hp. unfold set_size, create_missing. rewrite (stat_tmp W) by done. destruct (dk_names (px_disk px) !! tmp) as [i|] eqn:Ei; cbn.
  - destruct (pt_data _ _ Hp _ Ei) as (data & time & perms & -> & _). rewrite announced_disk. by apply resize_target.
  - destruct (create_target W (px_disk px) Ha Hp Ei) as [He Hp1]. pose proof (announced_disk px tmp [] (open_stream (px_disk px) tmp true)) as Hd.
    destruct (announced _ _ _ _) as [px1 [e|st]]; cbn [fst] in Hd; rewrite <- Hd in He, Hp1; cbn [fst]; [done|].
    rewrite announced_disk. destruct (resize_target W (px_disk px1) ltac:(apply He) Hp1) as [He2 Hp2]. split; [by eapply evolves_trans|done].
Qed.

Lemma proxy_open_target W px :
  apart tmp (px_disk px) → partial W (px_disk px) → let r := proxy_open_write px tmp whole in
  evolves (px_disk px) (px_disk r.1) ∧ partial W (px_disk r.1) ∧
  ∀ s, r.2 = inr s → dk_names (px_disk r.1) !! tmp = Some (sm_node s) ∧ sm_pos s = 0.
Proof.
  intros Ha Hp. unfold proxy_open_write. set (need := match _ with Some n => _ | None => true end).
  assert (evolves (px_disk px) (px_disk (if need then set_size px tmp (stat (px_disk px) tmp) whole else (px, inr ())).1) ∧
    partial W (px_disk (if need then set_size px tmp (stat (px_disk px) tmp) whole else (px, inr ())).1)) as [H1 P1].
  { destruct need; [by apply set_size_target|]. split; [by apply calm_evolves, calm_refl|done]. }
  destruct (if need then _ else _) as [px1 [e|[]]]; cbn [fst] in H1, P1; [done|]. cbv zeta.
  pose proof (open_existing_calm tmp (px_disk px1) tmp ltac:(apply H1)) as H2.
  destruct (open_stream _ _ _) as [d r] eqn:Eo. cbn [fst snd with_disk px_disk] in *.
  split_and!; [eapply evolves_trans; [exact H1|by apply calm_evolves]|by eapply partial_calm|]. intros s ->. split; [|by eapply open_stream_pos].
  rewrite (ca_name _ _ _ H2). unfold open_stream, call in Eo. destruct (fault _); [done|]. change max_links with (S 39) in Eo.
  rewrite (follow_tmp W) in Eo by (eapply partial_calm; [apply tick_calm, H1|done]). cbn [tick dk_names dk_nodes] in Eo.
  destruct (dk_names (px_disk px1) !! tmp) as [i|]; [|done]. destruct (dk_nodes (px_disk px1) !! i) as [n|]; [|done]. destruct (in_kind n); [|done..].
  by injection Eo as _ <-.
Qed.
Context (Hsize : 0 < whole).

Lemma open_target W px :
  apart tmp (px_disk px) → partial W (px_disk px) → let r := file_open_write px path whole in
  evolves (px_disk px) (px_disk r.1) ∧ partial W (px_disk r.1) ∧ ∀ f, r.2 = inr f → file_ok (px_disk r.1) path f.
Proof.
  intros Ha Hp. unfold file_open_write. destruct (Z.ltb_spec 0 whole); [|lia]. destruct (proxy_open_target W px Ha Hp) as (He & Hp1 & Hs).
  destruct (proxy_open_write px tmp whole) as [px1 [e|st]]; cbn [fst snd] in *; (split_and!; [done|done|]); [done|].
  intros f [= <-]. destruct (Hs st eq_refl) as [Ht Hz]. exists st. split; [done|]. split; [lia|]. by rewrite bool_decide_eq_true_2.
Qed.

(** A path whose temporary file is another one, that is not in the way of [tmp]. *)
Definition other (p : bytes) : Prop := p ≠ path ∧ not_below tmp p ∧ not_above tmp (make_temporal p).

Lemma open_other px p sz :
  apart tmp (px_disk px) → other p → 0 < sz → let r := file_open_write px p sz in
  calm tmp (px_disk px) (px_disk r.1) ∧ ∀ f, r.2 = inr f → file_ok (px_disk r.1) p f.
Proof.
  intros Ha (Hp & Hb & Ht) Hz. unfold file_open_write. destruct (Z.ltb_spec 0 sz); [|lia].
  destruct (proxy_open_write_calm tmp px (make_temporal p) sz Ha) as [Hc Hs]; [intros E; by apply temporal_inj in E|].
  pose proof (proxy_open_write_pos px (make_temporal p) sz) as Hpos.
  destruct (proxy_open_write px (make_temporal p) sz) as [px1 [e|st]]; cbn [fst snd] in *; (split; [done|]); [done|].
  intros f [= <-]. exists st. split; [done|]. split; [by rewrite (Hpos st eq_refl)|]. rewrite bool_decide_eq_false_2 by done. split; [by apply Hs|done].
Qed.

(** Directories are made for it. *)
Lemma parent_made pc W p :
  state_ok W pc → not_below tmp p →
  calm tmp (on_disk pc) (if exists_path (on_disk pc) (parent_path p) then (on_disk pc, inr ()) else Disk.create_directories (on_disk pc) (parent_path p)).1.
Proof.
  intros Hs Hp. destruct (exists_path _ _); [apply calm_refl, Hs|]. apply create_directories_calm; [apply tmp_long|apply Hs|]. apply not_below_parent; [apply tmp_long|done].
Qed.

Lemma open_file_rw_advances W pc p sz :
  state_ok W pc → (p = path → sz = whole) → (p ≠ path → other p ∧ 0 < sz) → advances W pc (open_file_rw pc p sz).1.
Proof.
  intros Hs Hp Ho. unfold open_file_rw. destruct (pc_cache pc !! p) as [f|]; [split; [apply calm_evolves, calm_refl, Hs|done]|].
  assert (not_below tmp p) as Hb by (destruct (decide (p = path)) as [->|Hne]; [apply path_apart|by apply Ho]).
  pose proof (parent_made pc W p Hs Hb) as H1. cbv zeta. destruct (if exists_path _ _ then _ else _) as [d [e|[]]]; cbn [fst] in H1; [by apply calm_advances|].
  set (px := with_disk (pc_proxy pc) d). assert (advances W pc (set_proxy pc px)) as [E1 S1] by by apply calm_advances.
  destruct (decide (p = path)) as [->|Hne].
  - rewrite (Hp eq_refl). destruct (open_target W px (so_apart _ _ S1) (so_partial _ _ S1)) as (E2 & P2 & F2).
    destruct (file_open_write px path whole) as [px2 [e|f]]; cbn [fst snd] in *; (split; [by eapply evolves_trans|]); (split; [apply E2| |done]).
    + eapply cache_ok_evolves; [exact E2|apply S1].
    + apply map_Forall_insert_2; [by apply F2|]. eapply cache_ok_evolves; [exact E2|apply S1].
  - destruct (Ho Hne) as [Hop Hz]. destruct (open_other px p sz (so_apart _ _ S1) Hop Hz) as [C2 F2].
    destruct (file_open_write px p sz) as [px2 [e|f]]; cbn [fst snd] in *.
    + apply (writing_trans W W _ (set_proxy pc px)); [by split|]. by apply (calm_advances W (set_proxy pc px)).
    + apply (writing_trans W W _ (set_proxy pc px)); [by split|]. apply (calm_advances_open W (set_proxy pc px)); [done|done|by apply F2].
Qed.
(** ** Commands *)

Lemma advances_refl W pc : state_ok W pc → advances W pc pc.
Proof. intros Hs. split; [apply calm_evolves, calm_refl, Hs|done]. Qed.

Lemma after_call_advances W pc r next :
  state_ok W pc → calm tmp (on_disk pc) (px_disk r.1) → (∀ pc', state_ok W pc' → advances W pc' (next pc').1) → advances W pc (after_call pc r next).1.
Proof.
  intros Hs Hc Hn. pose proof (calm_advances W pc r.1 Hs Hc) as Ha. unfold after_call. destruct r as [px [e|[]]]; cbn [fst snd] in *; [done|].
  eapply writing_trans; [exact Ha|]. apply Hn, Ha.
Qed.

(** A name that commands may take: not that of the file, nor above or below it. *)
Definition clear (p : bytes) : Prop := not_below tmp p ∧ not_above tmp p.

Lemma make_entry_advances W pc p type sz time target no_perms next :
  state_ok W pc → clear p → harmless tmp target → (∀ set pc', state_ok W pc' → advances W pc' (next set pc').1) →
  advances W pc (make_entry pc p type sz time target no_perms next).1.
Proof.
  intros Hs [Hb Ha] Ht Hn. unfold make_entry. destruct type; try by apply Hn.
  - destruct (proxy_open_write_calm tmp (pc_proxy pc) p sz (so_apart _ _ Hs)) as [Hc _]; [apply Hb|].
    pose proof (calm_advances W pc _ Hs Hc) as Hadv. destruct (proxy_open_write _ _ _) as [px [e|st]]; cbn [fst] in *; [done|].
    eapply writing_trans; [exact Hadv|]. apply after_call_advances; [apply Hadv| |by apply Hn].
    cbn [set_proxy on_disk pc_proxy]. unfold proxy_last_write_time. rewrite announced_disk. apply last_write_time_calm; [apply Hc|apply Hb].
  - apply after_call_advances; [done| |by apply Hn]. unfold proxy_create_directories. rewrite announced_disk.
    apply create_directories_calm; [apply tmp_long|apply Hs|done].
  - cbv zeta. destruct (_ && _); [|by apply Hn]. apply after_call_advances; [done| |by apply Hn]. unfold create_link. rewrite announced_disk.
    apply create_symlink_calm; [apply Hs|apply Hb|done].
Qed.

Lemma set_perms_advances W pc p perms next :
  state_ok W pc → p ≠ tmp → (∀ pc', state_ok W pc' → advances W pc' (next pc').1) → advances W pc (after_call pc (set_perms (pc_proxy pc) p perms) next).1.
Proof.
  intros Hs Hp Hn. apply after_call_advances; [done| |done]. unfold set_perms. rewrite announced_disk. apply permissions_calm; [apply Hs|done].
Qed.

Definition clear_conflict (conflict : bytes) : Prop := conflict = [] ∨ not_above tmp conflict.

Lemma make_whole_advances W pc p type sz perms time target no_perms :
  state_ok W pc → clear p → harmless tmp target → advances W pc (make_whole p type sz perms time target no_perms pc).1.
Proof.
  intros Hs Hp Ht. apply make_entry_advances; [done..|]. intros [] pc' Hs'; [|by apply advances_refl].
  apply set_perms_advances; [done|apply Hp|]. intros. by apply advances_refl.
Qed.

Lemma copy_entry_advances W pc p type sz perms time target del no_perms :
  state_ok W pc → clear p → harmless tmp target → advances W pc (copy_entry p type sz perms time target del no_perms pc).1.
Proof.
  intros Hs Hp Ht. unfold copy_entry. cbv zeta. destruct del.
  - destruct (exists_path _ _); [|by apply advances_refl]. apply after_call_advances; [done| |intros; by apply advances_refl].
    unfold proxy_remove. rewrite announced_disk. apply remove_all_calm; [apply Hs|apply Hp].
  - destruct (exists_path _ _); [by apply make_whole_advances|]. apply after_call_advances; [done| |intros; by apply make_whole_advances].
    unfold proxy_create_directories. rewrite announced_disk. apply create_directories_calm; [apply tmp_long|apply Hs|].
    apply not_below_parent; [apply tmp_long|apply Hp].
Qed.

Lemma remote_copy_advances W pc p conflict type sz perms time target del no_perms :
  state_ok W pc → clear p → clear_conflict conflict → harmless tmp target →
  advances W pc (process_remote_copy pc p conflict type sz perms time target del no_perms).1.
Proof.
  intros Hs Hp Hc Ht. unfold process_remote_copy, move_away. destruct (bool_decide _) eqn:Ec; [by apply copy_entry_advances|].
  apply bool_decide_eq_false in Ec. apply after_call_advances; [done| |intros; by apply copy_entry_advances].
  unfold proxy_rename. rewrite announced_disk. apply rename_calm; [apply Hs|apply Hp|]. by destruct Hc.
Qed.

Lemma update_meta_advances W pc p time perms no_perms :
  state_ok W pc → p ≠ tmp → advances W pc (process_update_meta pc p time perms no_perms).1.
Proof.
  intros Hs Hp. unfold process_update_meta. assert (∀ pc, state_ok W pc → advances W pc (touch p time pc).1) as Ht.
  { clear pc Hs. intros pc Hs. unfold touch, proxy_last_write_time.
    pose proof (announced_disk (pc_proxy pc) p [] (last_write_time (px_disk (pc_proxy pc)) p time)) as Hd.
    destruct (announced _ _ _ _) as [px r]. cbn [fst] in Hd. unfold done. cbn [fst]. apply calm_advances; [done|]. rewrite Hd.
    apply last_write_time_calm; [apply Hs|done]. }
  destruct (_ && _); [by apply set_perms_advances|by apply Ht].
Qed.
(** Finishing another file. *)
Lemma reopen_other W pc p sz :
  state_ok W pc → other p → 0 < sz → let r := reopen pc p sz in
  advances W pc r.1 ∧ ∀ f, r.2 = inr f → file_ok (on_disk r.1) p f.
Proof.
  intros Hs Ho Hz. unfold reopen. destruct (pc_cache pc !! p) as [f|] eqn:Ef.
  { cbn [fst snd]. split; [by apply advances_refl|]. intros f' [= <-]. by apply (so_cache _ _ Hs). }
  destruct (negb _); [by split; [apply advances_refl|]|]. destruct (open_other (pc_proxy pc) p sz (so_apart _ _ Hs) Ho Hz) as [Hc Hf].
  destruct (file_open_write _ _ _) as [px [e|f]]; cbn [fst snd] in *.
  - by split; [apply calm_advances|].
  - split; [apply calm_advances_open; [done|done|by apply Hf]|]. intros f' [= <-]. by apply Hf.
Qed.

Lemma forget_advances W pc p : state_ok W pc → advances W pc (mkProcess (pc_proxy pc) (delete p (pc_cache pc))).
Proof.
  intros [Sa Sc Sp]. split; [by apply calm_evolves, calm_refl|]. split; [done| |done]. by apply map_Forall_delete.
Qed.

Lemma file_close_calm px f time name r :
  apart tmp (px_disk px) → not_above tmp (of_path f) → not_above tmp name → file_close px f time name = Ok r → calm tmp (px_disk px) (px_disk r.1).
Proof.
  intros Ha Hf Hn. unfold file_close. intros (u & _ & Hr)%bind_Ok.
  assert (calm tmp (px_disk px) (px_disk (if bool_decide (name = []) then (px, inr ()) else proxy_rename px (of_path f) name).1)) as H1.
  { destruct (bool_decide _); [by apply calm_refl|]. unfold proxy_rename. rewrite announced_disk. by apply rename_calm. }
  destruct (if bool_decide _ then _ else _) as [px1 [e|[]]]; cbn [fst] in H1; [by injection Hr as <-|].
  destruct (_ =? _); injection Hr as <-; [done|]. eapply calm_trans; [exact H1|]. unfold proxy_last_write_time. rewrite announced_disk.
  apply last_write_time_calm; [apply H1|]. destruct (bool_decide _); [apply Hf|apply Hn].
Qed.

Lemma finish_other_advances W pc p conflict sz time perms no_perms r :
  state_ok W pc → other p → not_above tmp p → 0 < sz → clear_conflict conflict →
  process_finish_file pc p conflict sz time perms no_perms = Ok r → advances W pc r.1.
Proof.
  intros Hs Ho Hp Hz Hc. unfold process_finish_file. destruct (reopen_other W pc p sz Hs Ho Hz) as [A1 F1].
  destruct (reopen pc p sz) as [pc1 [e|f]]; cbn [fst snd] in A1, F1; [by intros [= <-]|]. specialize (F1 f eq_refl).
  assert (calm tmp (on_disk pc1) (px_disk (if bool_decide (conflict = []) then (pc_proxy pc1, inr ()) else proxy_rename (pc_proxy pc1) p conflict).1)) as H2.
  { destruct (bool_decide _) eqn:Ec; [apply calm_refl, A1|]. apply bool_decide_eq_false in Ec. unfold proxy_rename. rewrite announced_disk.
    apply rename_calm; [apply A1|done|]. by destruct Hc. }
  destruct (if bool_decide _ then _ else _) as [px2 r2]; cbn [fst] in H2. cbv zeta.
  assert (advances W pc1 (set_proxy pc1 px2)) as A2 by (apply calm_advances; [apply A1|done]).
  destruct r2 as [e|[]]; [intros [= <-]; by eapply writing_trans|]. intros (r3 & Hcl & [= <-])%bind_Ok. eapply writing_trans; [exact A1|].
  eapply writing_trans; [exact A2|]. eapply writing_trans; [apply (forget_advances W (set_proxy pc1 px2) p), A2|].
  destruct F1 as (s & _ & _ & Hs2). rewrite bool_decide_eq_false_2 in Hs2 by apply Ho. destruct Hs2 as [_ Hof].
  apply file_close_calm in Hcl; [|apply A2|done|done]. apply after_call_advances; [apply (forget_advances W (set_proxy pc1 px2) p), A2|done|].
  intros pc' Hs'. destruct no_perms; [by apply advances_refl|]. apply set_perms_advances; [done|apply Hp|]. intros. by apply advances_refl.
Qed.
(** ** Commands that may come while the file arrives *)

(** Those for [path] bring parts of the content, whether sent by the peer or read from another file; all others concern other
    files: they neither name the file, nor move or remove a directory above it, nor make a link to it. *)
Definition honest (pc : process_context) (cmd : io_command) : Prop :=
  match cmd with
  | block_request _ _ _ block_size => 0 <= block_size
  | append_block _ _ p data offset file_size =>
      if bool_decide (p = path) then file_size = whole ∧ 0 <= offset < 2 ^ 63 ∧ agrees (Z.to_nat offset) data else other p ∧ 0 < file_size
  | clone_block _ _ p offset file_size source source_offset block_size =>
      0 <= block_size ∧
      if bool_decide (p = path) then
        file_size = whole ∧ 0 <= offset < 2 ^ 63 ∧
        ∀ pc' data, read_from (open_file_rw pc path whole).1 source source_offset block_size = Ok (pc', inr data) → agrees (Z.to_nat offset) data
      else other p ∧ 0 < file_size
  | finish_file _ _ p conflict file_size _ _ _ => other p ∧ not_above tmp p ∧ 0 < file_size ∧ clear_conflict conflict
  | remote_copy_file _ _ p conflict _ _ _ _ target _ _ => clear p ∧ clear_conflict conflict ∧ harmless tmp target
  | update_meta _ _ p _ _ _ => p ≠ tmp
  end.

(** The bytes of the file a command has written. *)
Definition wrote (cmd : io_command) (r : io_error + bytes) (x : nat) : Prop :=
  match cmd, r with
  | append_block _ _ p data offset _, inr _ => p = path ∧ span (Z.to_nat offset) data x
  | clone_block _ _ p offset _ _ _ block_size, inr _ => p = path ∧ (Z.to_nat offset <= x < Z.to_nat offset + Z.to_nat block_size)%nat
  | _, _ => False
  end.

Lemma done_ok pc (r : Z + unit) x : (done pc r).2 = inr x → x = [].
Proof. destruct r; [done|]. by intros [= <-]. Qed.

Lemma write_to_result pc p offset data pc' x : write_to pc p offset data = Ok (pc', inr x) → x = [].
Proof.
  unfold write_to. destruct (pc_cache pc !! p); [|done]. intros ([[px f] r] & _ & Hd)%bind_Ok. injection Hd as Hd. apply (done_ok (keep_open pc px p f) r). by rewrite Hd.
Qed.

Lemma append_advances W pc c id p data offset sz pc' r :
  state_ok W pc → honest pc (append_block c id p data offset sz) → process_append_block pc p data offset sz = Ok (pc', r) →
  advances (λ x, W x ∨ wrote (append_block c id p data offset sz) r x) pc pc'.
Proof.
  intros Hs Hh. cbn [honest] in Hh. unfold process_append_block. assert (advances W pc (open_file_rw pc p sz).1) as Ho.
  { apply open_file_rw_advances; [done|..]; intros Hp; [rewrite bool_decide_eq_true_2 in Hh by done|rewrite bool_decide_eq_false_2 in Hh by done]; naive_solver. }
  destruct (open_file_rw pc p sz) as [pc1 [e|f]]; cbn [fst] in Ho.
  { intros [= <- <-]. eapply advances_weaken; [|exact Ho]. cbn [wrote]. naive_solver. }
  intros Hw. eapply writing_trans; [exact Ho|]. destruct (decide (p = path)) as [->|Hp].
  - rewrite bool_decide_eq_true_2 in Hh by done. destruct Hh as (-> & Hoff & Ha). pose proof (λ x, write_to_result pc1 path offset data pc' x) as Hx.
    apply (write_to_target W) in Hw as Hw'; [|apply Ho|done|done]. eapply advances_weaken; [|exact Hw']. intros x [?|Hx2]; [by left|right].
    cbn [wrote] in Hx2. destruct r as [|l]; [done|]. rewrite (Hx l Hw). naive_solver.
  - eapply advances_weaken; [|eapply write_to_other; [apply Ho|done|exact Hw]]. cbn [wrote]. destruct r; naive_solver.
Qed.

Lemma clone_advances W pc c id p offset sz source source_offset bsz pc' r :
  state_ok W pc → honest pc (clone_block c id p offset sz source source_offset bsz) →
  process_clone_block pc p offset sz source source_offset bsz = Ok (pc', r) →
  advances (λ x, W x ∨ wrote (clone_block c id p offset sz source source_offset bsz) r x) pc pc'.
Proof.
  intros Hs Hh. cbn [honest] in Hh. destruct Hh as [Hb Hh]. unfold process_clone_block. assert (advances W pc (open_file_rw pc p sz).1) as Ho.
  { apply open_file_rw_advances; [done|..]; intros Hp; [rewrite bool_decide_eq_true_2 in Hh by done|rewrite bool_decide_eq_false_2 in Hh by done]; naive_solver. }
  assert (p = path → ∀ pc' data, read_from (open_file_rw pc p sz).1 source source_offset bsz = Ok (pc', inr data) → 0 <= offset < 2 ^ 63 ∧ agrees (Z.to_nat offset) data) as Hread.
  { intros ->. rewrite bool_decide_eq_true_2 in Hh by done. destruct Hh as (-> & ? & Hr). naive_solver. }
  destruct (open_file_rw pc p sz) as [pc1 [e|f]]; cbn [fst] in Ho, Hread.
  { intros [= <- <-]. eapply advances_weaken; [|exact Ho]. cbn [wrote]. naive_solver. }
  intros ([pc2 r2] & Hr & Hw)%bind_Ok. eapply writing_trans; [exact Ho|]. pose proof Hr as Hr'.
  apply (read_from_advances W) in Hr' as (A2 & Hl & _); [|apply Ho|done]. destruct r2 as [e|data].
  { injection Hw as <- <-. eapply advances_weaken; [|exact A2]. cbn [wrote]. naive_solver. }
  specialize (Hl data eq_refl). eapply writing_trans; [exact A2|]. destruct (decide (p = path)) as [->|Hp].
  - destruct (Hread eq_refl _ _ Hr) as [Hoff Ha]. pose proof (λ x, write_to_result pc2 path offset data pc' x) as Hx.
    apply (write_to_target W) in Hw as Hw'; [|apply A2|done|done]. eapply advances_weaken; [|exact Hw']. intros x [?|Hx2]; [by left|right].
    cbn [wrote] in Hx2. destruct r as [|l]; [done|]. rewrite (Hx l Hw). unfold span. rewrite Hl. naive_solver.
  - eapply advances_weaken; [|eapply write_to_other; [apply A2|done|exact Hw]]. cbn [wrote]. destruct r; naive_solver.
Qed.

Lemma process_advances W pc cmd pc' r :
  state_ok W pc → honest pc cmd → process pc cmd = Ok (pc', r) → advances (λ x, W x ∨ wrote cmd r x) pc pc'.
Proof.
  intros Hs Hh. assert (∀ W', W' = W → (∀ x, ¬ wrote cmd r x) → advances W' pc pc' → advances (λ x, W x ∨ wrote cmd r x) pc pc') as Hnone.
  { intros W' -> Hn. apply advances_weaken. intros x [|Hx]; [done|by apply Hn in Hx]. }
  destruct cmd as [req q off bs|c id q conf ty sz pm ms tg dl np|c id q conf sz ms pm np|c id q data off sz|c id q off sz src soff bs|c id q ms pm np];
    cbn [process honest] in *.
  - intros Hp. apply (Hnone W); [done|intros x Hx; destruct r; exact Hx|]. unfold process_block_request in Hp. apply bind_Ok in Hp as ([pc1 r1] & Hr & [= <- _]).
    by apply (read_from_advances W) in Hr as [? _].
  - intros [= Hp]. apply (Hnone W); [done|intros x Hx; destruct r; exact Hx|].
    assert (advances W pc (process_remote_copy pc q conf ty sz pm ms tg dl np).1) as Ha by (apply remote_copy_advances; naive_solver). by rewrite Hp in Ha.
  - intros Hp. apply (Hnone W); [done|intros x Hx; destruct r; exact Hx|]. destruct Hh as (? & ? & ? & ?). by eapply (finish_other_advances W) in Hp.
  - by apply append_advances.
  - by apply clone_advances.
  - intros [= Hp]. apply (Hnone W); [done|intros x Hx; destruct r; exact Hx|].
    assert (advances W pc (process_update_meta pc q ms pm np).1) as Ha by by apply update_meta_advances. by rewrite Hp in Ha.
Qed.
(** ** Finishing the file *)

(** All of it has arrived. *)
Lemma partial_full W d : partial W d → (∀ x, (x < length content)%nat → W x) →
  ∃ i time perms, dk_names d !! tmp = Some i ∧ dk_nodes d !! i = Some (mkInode (KFile content) time perms).
Proof.
  intros [Pd Pn] Hw. destruct (dk_names d !! tmp) as [i|] eqn:Ei; [|exfalso; apply (Pn eq_refl 0%nat), Hw; lia].
  destruct (Pd i eq_refl) as (data & time & perms & Hi & Hl & Hd). exists i, time, perms. split; [done|]. rewrite Hi. do 3 f_equal. apply list_eq. intros x.
  destruct (decide (x < length content)%nat) as [Hx|Hx]; [by apply Hd, Hw|]. rewrite !lookup_ge_None_2; [done|lia|lia].
Qed.

Lemma reopen_target W pc :
  state_ok W pc → let r := reopen pc path whole in advances W pc r.1 ∧ ∀ f, r.2 = inr f → file_ok (on_disk r.1) path f.
Proof.
  intros Hs. unfold reopen. destruct (pc_cache pc !! path) as [f|] eqn:Ef.
  { cbn [fst snd]. split; [by apply advances_refl|]. intros f' [= <-]. by apply (so_cache _ _ Hs). }
  destruct (negb _); [by split; [apply advances_refl|]|]. destruct (open_target W (pc_proxy pc) (so_apart _ _ Hs) (so_partial _ _ Hs)) as (He & Hp & Hf).
  destruct (file_open_write _ _ _) as [px [e|f]]; cbn [fst snd] in *.
  - split; [|done]. split; [done|]. split; [apply He|eapply cache_ok_evolves; [exact He|apply Hs]|done].
  - split; [|intros f' [= <-]; by apply Hf]. split; [done|]. split; [apply He| |done]. apply map_Forall_insert_2; [by apply Hf|].
    eapply cache_ok_evolves; [exact He|apply Hs].
Qed.

(** A rename that goes well: the node has the new name and no longer the old one. *)
Lemma rename_ok d from to :
  (rename d from to).2 = inr () → from ≠ to →
  ∃ i, dk_names d !! from = Some i ∧ dk_names (rename d from to).1 !! to = Some i ∧ dk_nodes (rename d from to).1 = dk_nodes d ∧
    (inside_of to from = false → dk_names (rename d from to).1 !! from = None) ∧ inside_of from to = false ∧
    ∀ q, q ≠ from → q ≠ to → inside_of from q = false → inside_of to q = false → dk_names (rename d from to).1 !! q = dk_names d !! q.
Proof.
  unfold rename, call. destruct (fault _); [done|]. cbn [tick dk_names]. destruct (dk_names d !! from) as [i|] eqn:Ei; [|done].
  intros Hr Hne. rewrite bool_decide_eq_false_2 in Hr |- * by done. destruct (inside_of from to) eqn:Ein; [done|].
  destruct (negb (parent_ok (tick d) to)); [done|]. cbv zeta in *. exists i.
  assert (∀ r : outcome unit, r.2 = inr () → r = (move_names (tick d) from to i, inr ()) →
    Some i = Some i ∧ dk_names r.1 !! to = Some i ∧ dk_nodes r.1 = dk_nodes d ∧ (inside_of to from = false → dk_names r.1 !! from = None) ∧ false = false ∧
    ∀ q, q ≠ from → q ≠ to → inside_of from q = false → inside_of to q = false → dk_names r.1 !! q = dk_names d !! q) as Hgo.
  { intros r _ ->. cbn [fst move_names dk_names dk_nodes tick]. rewrite lookup_insert_eq. split_and!; try done.
    - intros Hto. rewrite lookup_insert_ne by done. destruct (moved from to (dk_names d) !! from) as [j|] eqn:Em.
      + apply moved_elem in Em as (q & _ & Hq & Heq). pose proof (inside_moved from to q Hq) as Hin. rewrite <- Heq in Hin. congruence.
      + rewrite lookup_union_r by done. apply map_lookup_filter_None. right. intros j _. cbn. naive_solver.
    - intros q Hq1 Hq2 Hq3 Hq4. rewrite lookup_insert_ne by done. destruct (moved from to (dk_names d) !! q) as [j|] eqn:Em.
      + apply moved_elem in Em as (q' & _ & Hq & ->). rewrite (inside_moved from to q' Hq) in Hq4. done.
      + rewrite lookup_union_r by done. destruct (dk_names d !! q) as [j|] eqn:Eq.
        * by apply map_lookup_filter_Some.
        * apply map_lookup_filter_None. by left. }
  destruct (node_at (tick d) to) as [n|]; [|by apply Hgo].
  destruct (is_directory n); destruct (match dk_nodes (tick d) !! i with Some n => is_directory n | None => false end); cbn [negb] in *; try done; try by apply Hgo.
  destruct (has_children (tick d) to); [done|by apply Hgo].
Qed.

(** The calls of a file that is there. *)
Lemma last_write_time_ok d p time i data t perms :
  dk_names d !! p = Some i → dk_nodes d !! i = Some (mkInode (KFile data) t perms) → (last_write_time d p time).2 = inr () →
  (last_write_time d p time).1 = set_node (tick d) i (mkInode (KFile data) time perms).
Proof.
  intros Hp Hi. unfold last_write_time, call. destruct (fault _); [done|]. intros _. change max_links with (S 39). cbn [follow]. unfold node_at.
  cbn [tick dk_names dk_nodes]. rewrite Hp. cbn. rewrite Hi. cbn. rewrite Hp, Hi. done.
Qed.

Lemma permissions_ok d p perms i data t perms' :
  dk_names d !! p = Some i → dk_nodes d !! i = Some (mkInode (KFile data) t perms') → (permissions d p perms).2 = inr () →
  (permissions d p perms).1 = set_node (tick d) i (mkInode (KFile data) t perms).
Proof.
  intros Hp Hi. unfold permissions, call. destruct (fault _); [done|]. intros _. cbn [tick dk_names dk_nodes]. by rewrite Hp, Hi.
Qed.

(** Opening the file leaves all others as they are. *)
Definition leaves (d d' : disk) : Prop := ∀ q, q ≠ tmp → node_at d' q = node_at d q.

Lemma create_leaves W d : apart tmp d → partial W d → dk_names d !! tmp = None → leaves d (open_stream d tmp true).1.
Proof.
  intros Ha Hp Hn. unfold open_stream, call. destruct (fault _); [done|]. change max_links with (S 39).
  rewrite (follow_tmp W) by (eapply partial_calm; [by apply tick_calm|done]). cbn [tick dk_names]. rewrite Hn. destruct (true && _); [|done].
  intros q Hq. unfold node_at, add_node. cbn [fst tick dk_names dk_nodes]. rewrite lookup_insert_ne by done. destruct (dk_names d !! q) as [i|] eqn:Ei; [|done]. cbn.
  rewrite lookup_insert_ne; [done|]. intros <-. destruct (ap_nodes _ _ Ha _ _ Ei) as [? Hi]. by rewrite fresh_node in Hi.
Qed.

Lemma resize_leaves W d : apart tmp d → partial W d → leaves d (resize_file d tmp whole).1.
Proof.
  intros Ha Hp. unfold resize_file, call. destruct (fault _); [done|]. change max_links with (S 39).
  rewrite (follow_tmp W) by (eapply partial_calm; [by apply tick_calm|done]). cbn [tick dk_names dk_nodes].
  destruct (dk_names d !! tmp) as [i|] eqn:Ei; [|done]. destruct (dk_nodes d !! i) as [n|]; [|done]. destruct (in_kind n); [|done..].
  destruct (_ <? _); [|done]. intros q Hq. unfold node_at, set_node. cbn [fst tick dk_names dk_nodes]. destruct (dk_names d !! q) as [j|] eqn:Ej; [|done]. cbn.
  rewrite lookup_insert_ne; [done|]. intros <-. by apply Hq, (ap_names _ _ Ha q i).
Qed.

Lemma open_existing_leaves d p : leaves d (open_stream d p false).1.
Proof. unfold open_stream, call. repeat case_match; done. Qed.

Lemma open_target_leaves W px : apart tmp (px_disk px) → partial W (px_disk px) → leaves (px_disk px) (px_disk (file_open_write px path whole).1).
Proof.
  intros Ha Hp. unfold file_open_write. destruct (Z.ltb_spec 0 whole) as [_|]; [|lia].
  assert (leaves (px_disk px) (px_disk (proxy_open_write px tmp whole).1)) as Hl; [|by destruct (proxy_open_write px tmp whole) as [px1 []]].
  unfold proxy_open_write. set (need := match _ with Some n => _ | None => true end).
  assert (leaves (px_disk px) (px_disk (if need then set_size px tmp (stat (px_disk px) tmp) whole else (px, inr ())).1)) as N1.
  { destruct need; [|done]. unfold set_size, create_missing. rewrite (stat_tmp W) by done. destruct (dk_names (px_disk px) !! tmp) as [i|] eqn:Ei; cbn.
    - destruct (pt_data _ _ Hp _ Ei) as (data & time & perms & -> & _). rewrite announced_disk. by eapply resize_leaves.
    - pose proof (create_leaves W _ Ha Hp Ei) as Hc. destruct (create_target W (px_disk px) Ha Hp Ei) as [He Hp1].
      pose proof (announced_disk px tmp [] (open_stream (px_disk px) tmp true)) as Hd.
      destruct (announced _ _ _ _) as [px1 [e|st]]; cbn [fst] in Hd; rewrite <- Hd in Hc, He, Hp1; cbn [fst]; [done|].
      rewrite announced_disk. intros q Hq. rewrite (resize_leaves W (px_disk px1) ltac:(apply He) Hp1 q Hq). by apply Hc. }
  destruct (if need then _ else _) as [px1 [e|[]]]; cbn [fst] in N1; [done|]. pose proof (open_existing_leaves (px_disk px1) tmp) as H2.
  destruct (open_stream _ _ _) as [d r]. cbn [fst with_disk px_disk] in *. intros q Hq. by rewrite H2, N1.
Qed.

Lemma reopen_leaves W pc : state_ok W pc → leaves (on_disk pc) (on_disk (reopen pc path whole).1).
Proof.
  intros Hs. unfold reopen. destruct (pc_cache pc !! path); [done|]. destruct (negb _); [done|].
  pose proof (open_target_leaves W (pc_proxy pc) (so_apart _ _ Hs) (so_partial _ _ Hs)) as Hl. by destruct (file_open_write _ _ _) as [px []].
Qed.

(** What the file is in the end; a local file that was in its place has the name for conflicts. *)
Record finished (d d' : disk) (conflict : bytes) (time perms : Z) (no_perms : bool) : Prop := {
  fn_content : ∃ n, node_at d' path = Some n ∧ in_kind n = KFile content ∧ (time ≠ 0 → in_time n = time) ∧ (no_perms = false → in_perms n = perms);
  fn_tmp : dk_names d' !! tmp = None;
  fn_conflict : conflict ≠ [] → is_Some (node_at d path) ∧ node_at d' conflict = node_at d path;
}.

(** The file has its name: from then on only its time and its permissions change. *)
Definition placed (d0 d : disk) (conflict : bytes) (time perms : Z) : Prop :=
  ∃ i, dk_names d !! path = Some i ∧ dk_nodes d !! i = Some (mkInode (KFile content) time perms) ∧ dk_names d !! tmp = None ∧
    (conflict ≠ [] → ∃ j n, node_at d0 path = Some n ∧ dk_names d !! conflict = Some j ∧ dk_nodes d !! j = Some n ∧ j ≠ i).

Lemma placed_finished d0 d conflict t p time perms no_perms :
  placed d0 d conflict t p → (time ≠ 0 → t = time) → (no_perms = false → p = perms) → finished d0 d conflict time perms no_perms.
Proof.
  intros (i & Hp & Hi & Ht & Hc) Htime Hperms. split; [|done|].
  - eexists. unfold node_at. rewrite Hp. cbn. split; [exact Hi|]. by split_and!.
  - intros Hne. destruct (Hc Hne) as (j & n & Hn & Hj & Hnode & _). rewrite Hn. split; [by eexists|]. unfold node_at. by rewrite Hj.
Qed.

Lemma placed_changes d0 d conflict t p t' p' i :
  placed d0 d conflict t p → dk_names d !! path = Some i → placed d0 (set_node (tick d) i (mkInode (KFile content) t' p')) conflict t' p'.
Proof.
  intros (i' & Hp & Hi & Ht & Hc) Hp'. rewrite Hp in Hp'. injection Hp' as <-. exists i'. cbn [set_node tick dk_names dk_nodes]. rewrite lookup_insert_eq. split_and!; try done.
  intros Hne. destruct (Hc Hne) as (j & n & ? & ? & ? & ?). exists j, n. by rewrite lookup_insert_ne.
Qed.

Lemma placed_time d0 px conflict t p time :
  placed d0 (px_disk px) conflict t p → (proxy_last_write_time px path time).2 = inr () → placed d0 (px_disk (proxy_last_write_time px path time).1) conflict time p.
Proof.
  unfold proxy_last_write_time. rewrite announced_result, announced_disk. intros Hp Hr. pose proof Hp as (i & Hi & Hn & _).
  rewrite (last_write_time_ok _ _ _ _ _ _ _ Hi Hn Hr). by eapply placed_changes.
Qed.

Lemma placed_perms d0 px conflict t p perms :
  placed d0 (px_disk px) conflict t p → (set_perms px path perms).2 = inr () → placed d0 (px_disk (set_perms px path perms).1) conflict t perms.
Proof.
  unfold set_perms. rewrite announced_result, announced_disk. intros Hp Hr. pose proof Hp as (i & Hi & Hn & _).
  rewrite (permissions_ok _ _ _ _ _ _ _ Hi Hn Hr). by eapply placed_changes.
Qed.

(** The two renames. *)
Lemma rename_places d0 d d1 conflict i t p :
  leaves d0 d → dk_names d !! tmp = Some i → dk_nodes d !! i = Some (mkInode (KFile content) t p) → apart tmp d →
  (conflict ≠ [] → clear conflict ∧ conflict ≠ path) →
  (if bool_decide (conflict = []) then (d, inr ()) else rename d path conflict) = (d1, inr ()) → (rename d1 tmp path).2 = inr () →
  placed d0 (rename d1 tmp path).1 conflict t p.
Proof.
  intros Hl Hi Hn Ha Hconf H1 H2. destruct path_apart as [[Pne Pb] [_ Pa]].
  assert (dk_names d1 !! tmp = Some i ∧ dk_nodes d1 = dk_nodes d ∧ (conflict ≠ [] → inside_of path conflict = false ∧
    ∃ j n, node_at d0 path = Some n ∧ dk_names d1 !! conflict = Some j ∧ dk_nodes d !! j = Some n ∧ j ≠ i)) as (Hi1 & Hn1 & Hc1).
  { case_bool_decide as Ec; [by injection H1 as <-|]. destruct (Hconf Ec) as [[[Cne Cb] [_ Ca]] Cp].
    destruct (rename_ok d path conflict) as (j & Hj & Hj' & Hnodes & _ & Hin & Hrest); [by rewrite H1|done|]. rewrite H1 in Hj', Hnodes, Hrest. cbn [fst] in *.
    split; [by rewrite Hrest|]. split; [done|]. intros _. split; [done|]. destruct (ap_nodes _ _ Ha _ _ Hj) as [n Hnj]. exists j, n. split_and!; try done.
    - rewrite <- Hl by done. unfold node_at. by rewrite Hj.
    - intros ->. by apply Pne, (ap_names _ _ Ha path i). }
  destruct (rename_ok d1 tmp path H2) as (i' & Hi' & Hp' & Hnodes & Htmp & _ & Hrest); [done|]. rewrite Hi1 in Hi'. injection Hi' as <-.
  exists i. rewrite Hnodes, Hn1. split_and!; [done|done|by apply Htmp|]. intros Hne. destruct (Hc1 Hne) as (Hin & j & n & ? & ? & ? & ?).
  destruct (Hconf Hne) as [[[Cne Cb] _] Cp]. exists j, n. split_and!; try done. by rewrite Hrest.
Qed.
Lemma finish_target W pc conflict time perms no_perms pc' r :
  state_ok W pc → (∀ x, (x < length content)%nat → W x) → (conflict ≠ [] → clear conflict ∧ conflict ≠ path) → path ≠ [] →
  process_finish_file pc path conflict whole time perms no_perms = Ok (pc', inr r) →
  finished (on_disk pc) (on_disk pc') conflict time perms no_perms ∧ pc_cache pc' !! path = None.
Proof.
  intros Hs Hw Hconf Hpath. unfold process_finish_file. destruct (reopen_target W pc Hs) as [[E1 S1] F1]. pose proof (reopen_leaves W pc Hs) as Hl.
  destruct (reopen pc path whole) as [pc1 [e|f]]; [done|]. cbn [fst snd] in *. specialize (F1 f eq_refl). destruct F1 as (s & _ & _ & Hf).
  rewrite bool_decide_eq_true_2 in Hf by done. destruct Hf as (Hof & _ & _). destruct (partial_full W _ (so_partial _ _ S1) Hw) as (i & t & p & Hi & Hn).
  assert ((if bool_decide (conflict = []) then (pc_proxy pc1, inr ()) else proxy_rename (pc_proxy pc1) path conflict).2 =
    (if bool_decide (conflict = []) then (on_disk pc1, inr ()) else rename (on_disk pc1) path conflict).2 ∧
    px_disk (if bool_decide (conflict = []) then (pc_proxy pc1, inr ()) else proxy_rename (pc_proxy pc1) path conflict).1 =
    (if bool_decide (conflict = []) then (on_disk pc1, inr ()) else rename (on_disk pc1) path conflict).1) as [Hr1 Hd1].
  { destruct (bool_decide _); [done|]. unfold proxy_rename. by rewrite announced_result, announced_disk. }
  destruct (if bool_decide _ then (pc_proxy pc1, _) else _) as [px2 r2]. cbn [fst snd] in Hr1, Hd1. cbv zeta. destruct r2 as [e|[]]; [done|].
  intros (r3 & Hcl & Hfin)%bind_Ok. unfold file_close in Hcl. apply bind_Ok in Hcl as (u & _ & Hcl). rewrite (bool_decide_eq_false_2 (path = [])), Hof in Hcl by done.
  pose proof (rename_places (on_disk pc) (on_disk pc1) (px_disk px2) conflict i t p Hl Hi Hn (so_apart _ _ S1) Hconf) as Hpl.
  assert (proxy_rename px2 tmp path = ((proxy_rename px2 tmp path).1, (proxy_rename px2 tmp path).2)) as Epr by (by destruct (proxy_rename _ _ _)).
  assert ((proxy_rename px2 tmp path).2 = inr () → placed (on_disk pc) (px_disk (proxy_rename px2 tmp path).1) conflict t p) as Hplaced.
  { unfold proxy_rename. rewrite announced_result, announced_disk. apply Hpl. rewrite Hd1. destruct (if bool_decide _ then _ else _) as [d1 q]. cbn in Hr1 |- *. by rewrite <- Hr1. }
  destruct (proxy_rename px2 tmp path) as [px3 [e|[]]]; cbn [fst snd] in *; [injection Hcl as <-; done|]. specialize (Hplaced eq_refl).
  assert (∀ t', (time ≠ 0 → t' = time) → ∀ px4, placed (on_disk pc) (px_disk px4) conflict t' p → r3 = (px4, inr ()) →
    finished (on_disk pc) (on_disk pc') conflict time perms no_perms ∧ pc_cache pc' !! path = None) as Hend.
  { intros t' Ht' px4 Hp4 ->. injection Hfin as Hfin. cbn [after_call fst snd] in Hfin. destruct no_perms; [injection Hfin as <- _; cbn; split; [by eapply placed_finished|apply lookup_delete_eq]|].
    unfold after_call in Hfin. cbn [set_proxy pc_proxy pc_cache] in Hfin. pose proof (placed_perms _ _ _ _ _ perms Hp4) as Hp5.
    destruct (set_perms px4 path perms) as [px5 [e|[]]]; cbn [fst snd] in *; [done|]. injection Hfin as <- _. cbn. specialize (Hp5 eq_refl).
    split; [by eapply placed_finished|apply lookup_delete_eq]. }
  destruct (Z.eqb_spec time 0) as [->|Hne]; injection Hcl as <-; [by apply (Hend t ltac:(done) px3)|].
  pose proof (placed_time _ _ _ _ _ time Hplaced) as Hpt. destruct (proxy_last_write_time px3 path time) as [px4 [e|[]]]; cbn [fst snd] in *; [done|].
  by apply (Hend time ltac:(done) px4 (Hpt eq_refl)).
Qed.
(** ** Whole runs *)

Context (watched_folders : gmap bytes bytes) (retension : Z).

(** Every command is honest when it is its turn. *)
Fixpoint honest_all (pc : process_context) (cmds : list io_command) : Prop :=
  match cmds with
  | [] => True
  | cmd :: cmds =>
      let pc := enable_masks watched_folders pc (command_folder cmd) in
      honest pc cmd ∧ ∀ pc' r, process pc cmd = Ok (pc', r) → honest_all pc' cmds
  end.

(** The byte [x] has been written by one of the commands. *)
Definition arrived (trace : list (io_command * (io_error + bytes))) (x : nat) : Prop := ∃ cmd r, (cmd, r) ∈ trace ∧ wrote cmd r x.

Lemma process_all_advances cmds : ∀ W pc pc' rs,
  state_ok W pc → honest_all pc cmds → process_all watched_folders pc cmds = Ok (pc', rs) → advances (λ x, W x ∨ arrived rs x) pc pc'.
Proof.
  induction cmds as [|cmd cmds IH]; intros W pc pc' rs Hs Hh Hp.
  - injection Hp as <- <-. eapply advances_weaken; [|by apply advances_refl]. intros x [|(? & ? & Hin & _)]; [done|]. by apply elem_of_nil in Hin.
  - cbn [process_all honest_all] in *. set (pc0 := enable_masks watched_folders pc (command_folder cmd)) in *. destruct Hh as [Hh Hnext].
    apply bind_Ok in Hp as ([pc1 r1] & Hp1 & Hp). apply bind_Ok in Hp as ([pc2 rs2] & Hp2 & [= <- <-]).
    assert (state_ok W pc0) as Hs0 by by destruct Hs. assert (advances W pc pc0) as A0 by (split; [apply calm_evolves, calm_refl, Hs|done]).
    pose proof (process_advances W pc0 cmd pc1 r1 Hs0 Hh Hp1) as A1. specialize (IH _ pc1 pc2 rs2 (proj2 A1) (Hnext _ _ Hp1) Hp2).
    eapply writing_trans; [exact A0|]. eapply writing_trans; [exact A1|]. eapply advances_weaken; [|exact IH].
    intros x [|(c & r & [[= -> ->]|Hin]%elem_of_cons & Hx)]; [by left; left|by left; right|right; by exists c, r].
Qed.

Definition context_of (a : file_actor) (now key : Z) : process_context :=
  mkProcess (mkProxy (fa_disk a) (fa_mediator a) (now + retension) 0) (cache_of a key).

(** The actor while the file arrives. *)
Record receiving (W : nat → Prop) (a : file_actor) : Prop := {
  rc_apart : apart tmp (fa_disk a);
  rc_caches : ∀ key, cache_ok (fa_disk a) (cache_of a key);
  rc_partial : partial W (fa_disk a);
}.

Lemma receiving_context W a now key : receiving W a → state_ok W (context_of a now key).
Proof. intros [Ra Rc Rp]. split; [done|apply Rc|done]. Qed.

Lemma io_receiving W a now key cmds a' rs :
  receiving W a → honest_all (context_of a now key) cmds → on_io_commands watched_folders retension a now key cmds = Ok (a', rs) →
  receiving (λ x, W x ∨ arrived rs x) a'.
Proof.
  intros Hr Hh. unfold on_io_commands. intros ([pc rs'] & Hp & [= <- <-])%bind_Ok.
  apply (process_all_advances cmds W (context_of a now key)) in Hp as [He [Sa Sc Sp]]; [|by apply receiving_context|done].
  split; cbn [fa_disk]; [done| |done]. intros key'. unfold cache_of. cbn [fa_context_cache]. destruct (decide (key' = key)) as [->|Hne].
  - by rewrite lookup_insert_eq.
  - rewrite lookup_insert_ne by done. eapply cache_ok_evolves; [exact He|]. apply (rc_caches _ _ Hr key').
Qed.

(** What may happen: commands that are honest, directories made elsewhere, anything else. *)
Definition honest_event (e : fs_event) (a : file_actor) : Prop :=
  match e with
  | IoCommands now key cmds => honest_all (context_of a now key) cmds
  | CreateDir p => not_below tmp p
  | _ => True
  end.

Lemma cache_ok_empty d : cache_ok d ∅.
Proof. apply map_Forall_empty. Qed.

Lemma receiving_same W a a' : fa_disk a' = fa_disk a → fa_context_cache a' = fa_context_cache a → receiving W a → receiving W a'.
Proof. intros Hd Hc [Ra Rc Rp]. split; rewrite Hd; [done| |done]. intros key. unfold cache_of. rewrite Hc. apply Rc. Qed.

Lemma event_receiving W e a a' rs :
  receiving W a → honest_event e a → fs_handle watched_folders retension e a = Ok (a', rs) → receiving (λ x, W x ∨ arrived rs x) a'.
Proof.
  assert (∀ a', receiving W a' → receiving (λ x, W x ∨ arrived [] x) a') as Hnone.
  { intros b []. split; [done..|]. eapply partial_weaken; [|done]. intros x [|(? & ? & Hin & _)]; [done|]. by apply elem_of_nil in Hin. }
  intros Hr Hh. pose proof Hr as [Ra Rc Rp]. destruct e; cbn [fs_handle honest_event] in *; try (intros [= <- <-]; apply Hnone).
  - by apply io_receiving.
  - apply (receiving_same W a); [| |done]; unfold on_retension_finish; destruct cancelled; try done; by destruct (clean_expired _).
  - by apply (receiving_same W a).
  - unfold on_controller_predown. destruct started; [|done]. split; [done| |done]. intros key'. unfold cache_of. cbn [fa_context_cache].
    destruct (decide (key' = key)) as [->|Hne]; [rewrite lookup_delete_eq; apply cache_ok_empty|rewrite lookup_delete_ne by done; apply Rc].
  - by apply (receiving_same W a); [destruct mine..|].
  - by apply (receiving_same W a); [destruct mine..|].
  - unfold on_create_dir. pose proof (create_directories_calm tmp tmp_long (fa_disk a) path0 Ra Hh) as Hc. destruct (Disk.create_directories _ _) as [d r]. cbn [fst] in *.
    split; cbn [fa_disk]; [apply Hc| |by eapply partial_calm]. intros key. eapply cache_ok_evolves; [by apply calm_evolves|apply Rc].
  - split; [done| |done]. intros key. apply cache_ok_empty.
Qed.

Inductive session (a0 : file_actor) : file_actor → list (io_command * (io_error + bytes)) → Prop :=
| session_start : session a0 a0 []
| session_step a trace e a' rs :
    session a0 a trace → honest_event e a → fs_handle watched_folders retension e a = Ok (a', rs) → session a0 a' (trace ++ rs).

Lemma session_receiving a0 a trace : receiving (λ _, False) a0 → session a0 a trace → receiving (arrived trace) a.
Proof.
  intros Hstart. induction 1 as [|a trace e a' rs _ IH Hh He].
  - destruct Hstart. split; [done..|]. eapply partial_weaken; [|done]. intros x (? & ? & Hin & _). by apply elem_of_nil in Hin.
  - pose proof (event_receiving _ e a a' rs IH Hh He) as []. split; [done..|]. eapply partial_weaken; [|done].
    intros x (c & r & [Hin|Hin]%elem_of_app & Hx); [left|right]; by exists c, r.
Qed.

(** C5: a file arrives as it was announced. However its blocks are appended or copied from other files, in any order, more than once,
    by any controllers whose connections come and go, among commands for other files, with calls that fail at any time: when
    every byte has been written by a command that succeeded and the file is finished, the file under its name has exactly the
    announced content, time and permissions, its temporary file is gone, and a local file that was in its place has the name for
    conflicts. (The temporary file that is there at the start, if any, is not longer than the content.) *)
Theorem download_complete (a0 a : file_actor) (trace : list (io_command * (io_error + bytes))) (now key : Z) (c : file_context)
    (id conflict : bytes) (time perms : Z) (no_perms : bool) (a' : file_actor) (r : bytes) :
  let finish := finish_file c id path conflict whole time perms no_perms in
  path ≠ [] → receiving (λ _, False) a0 → session a0 a trace → (∀ x, (x < length content)%nat → arrived trace x) →
  (conflict ≠ [] → clear conflict ∧ conflict ≠ path) →
  on_io_commands watched_folders retension a now key [finish] = Ok (a', [(finish, inr r)]) →
  finished (fa_disk a) (fa_disk a') conflict time perms no_perms ∧ cache_of a' key !! path = None.
Proof.
  intros finish Hpath Hstart Hs Hall Hconf. apply (session_receiving a0 a trace Hstart) in Hs. unfold on_io_commands. cbn [process_all command_folder finish process].
  intros Hr. apply bind_Ok in Hr as ([pc rs] & Hp & Hr). apply bind_Ok in Hp as ([pc1 r1] & Hp & Hp2). injection Hp2 as -> <-. injection Hr as <- ->.
  apply (finish_target (arrived trace)) in Hp as [Hf Hc]; [|by destruct (receiving_context _ _ now key Hs); split|done..]. split; [done|]. unfold cache_of. cbn [fa_context_cache]. by rewrite lookup_insert_eq.
Qed.
End download.

(** ** A file that replaces a local one *)

#[local] Existing Instance c_surroundings.

(** The very first call fails. *)
#[local] Instance f_faults : Faults := {| fault := λ n, match n with O => Some EIO | _ => None end; written := λ _, 0%nat |}.

Definition f_path : bytes := chars "/s/a".
Definition f_other : bytes := chars "/s/sub/b".
Definition f_conflict : bytes := chars "/s/a.sync-conflict".
Definition f_content : bytes := [1; 2; 3; 4].

Definition f_disk : disk :=
  mkDisk {[ [slash] := 1%positive; chars "/s" := 2%positive; f_path := 3%positive ]}
    {[ 1%positive := mkInode KDir 0 493; 2%positive := mkInode KDir 0 493; 3%positive := mkInode (KFile [9; 9]) 100 420 ]} 0.

Definition f_actor : file_actor := mkFileActor f_disk (new_mediator 10 false) ∅ false 0.

Definition f_ack (index : Z) : block_ack_context := mkAckContext (chars "f") [] (chars "a") [] index.

Definition f_append (offset : Z) (data : bytes) : io_command := append_block (f_ack offset) (chars "f") f_path data offset 4.

(** The first command fails, the second brings the end, one more is for another file; the controller goes down and its successor
    gets the rest. *)
Definition f_events : list fs_event :=
  [IoCommands 1 7 [f_append 0 [1; 2]; f_append 2 [3; 4]; append_block (f_ack 0) (chars "f") f_other [5] 0 1]; ControllerPredowns 7 true;
   IoCommands 2 8 [f_append 0 [1; 2]]].

Fixpoint f_run (es : list fs_event) (a : file_actor) (trace : list (io_command * (io_error + bytes))) : res (file_actor * list (io_command * (io_error + bytes))) :=
  match es with
  | [] => Ok (a, trace)
  | e :: es => let* '(a, rs) := fs_handle ∅ 5 e a in f_run es a (trace ++ rs)
  end.

Definition f_received : file_actor := match f_run f_events f_actor [] with Ok (a, _) => a | _ => f_actor end.
Definition f_trace : list (io_command * (io_error + bytes)) := match f_run f_events f_actor [] with Ok (_, t) => t | _ => [] end.

Lemma f_run_session es : ∀ a trace a' trace',
  session f_path f_content ∅ 5 f_actor a trace → (∀ a, Forall (λ e, honest_event f_path f_content ∅ 5 e a) es) → f_run es a trace = Ok (a', trace') →
  session f_path f_content ∅ 5 f_actor a' trace'.
Proof.
  induction es as [|e es IH]; intros a trace a' trace' Hs Hh Hr; [by injection Hr as <- <-|]. cbn [f_run] in Hr. apply bind_Ok in Hr as ([a1 rs] & He & Hr).
  eapply IH; [|intros b; by specialize (Hh b); apply Forall_cons in Hh as [_ ?]|exact Hr]. eapply session_step; [exact Hs| |exact He].
  specialize (Hh a). by apply Forall_cons in Hh as [? _].
Qed.

Lemma f_receiving : receiving f_path f_content (λ _, False) f_actor.
Proof.
  split.
  - split.
    + intros q i _ Ht. by vm_compute in Ht.
    + intros i n t Hi Hk. pose proof (bool_decide_unpack (map_Forall (λ _ n, match in_kind n with KLink _ => true | _ => false end = false) (dk_nodes f_disk))
        ltac:(vm_compute; exact I) i n Hi) as Hl. cbn beta in Hl. by rewrite Hk in Hl.
    + apply (bool_decide_unpack (map_Forall (λ _ i, is_Some (dk_nodes f_disk !! i)) (dk_names f_disk))). vm_compute. exact I.
  - intros key. apply cache_ok_empty.
  - split; [|intros _ x []]. intros i Hi. by vm_compute in Hi.
Qed.

Lemma f_other_ok : other f_path f_other.
Proof. unfold other, not_below, not_above. split_and!; try done; by vm_compute. Qed.

Lemma f_append_honest pc offset data :
  0 <= offset < 2 ^ 63 → agrees f_content (Z.to_nat offset) data → honest f_path f_content pc (f_append offset data).
Proof. intros Ho Ha. cbn [f_append honest]. rewrite bool_decide_eq_true_2 by done. done. Qed.

Lemma f_honest a : Forall (λ e, honest_event f_path f_content ∅ 5 e a) f_events.
Proof.
  assert (∀ pc, honest f_path f_content pc (f_append 0 [1; 2])) as H1.
  { intros pc. apply f_append_honest; [lia|]. intros [|[|k]] x Hx; by (vm_compute in Hx |- *; congruence). }
  assert (∀ pc, honest f_path f_content pc (f_append 2 [3; 4])) as H2.
  { intros pc. apply f_append_honest; [lia|]. intros [|[|k]] x Hx; by (vm_compute in Hx |- *; congruence). }
  repeat apply Forall_cons_2; [|done| |done]; cbn [honest_event honest_all].
  - split; [apply H1|]. intros pc' r _. split; [apply H2|]. intros pc2 r2 _. split; [|done]. cbn [honest]. rewrite bool_decide_eq_false_2 by done.
    split; [apply f_other_ok|done].
  - split; [apply H1|done].
Qed.

Example download_complete_witness :
  ∃ a' r n, let finish := finish_file (mkFileContext 1 [] [] resolve_remote_win) (chars "f") f_path f_conflict 4 77 436 false in
    on_io_commands ∅ 5 f_received 3 8 [finish] = Ok (a', [(finish, inr r)]) ∧
    node_at (fa_disk a') f_path = Some n ∧ in_kind n = KFile [1; 2; 3; 4] ∧ in_time n = 77 ∧ in_perms n = 436 ∧
    node_at (fa_disk a') f_conflict = Some (mkInode (KFile [9; 9]) 100 420).
Proof.
  set (finish := finish_file _ _ _ _ _ _ _ _).
  destruct (on_io_commands ∅ 5 f_received 3 8 [finish]) as [[a' rs]| |] eqn:E; [|by vm_compute in E..].
  assert (rs = [(finish, inr [])]) as -> by (vm_compute in E; injection E as _ <-; reflexivity).
  destruct (download_complete f_path f_content ltac:(vm_compute; reflexivity) ∅ 5 f_actor f_received f_trace 3 8
    (mkFileContext 1 [] [] resolve_remote_win) (chars "f") f_conflict 77 436 false a' []) as [[(n & Hn & Hk & Ht & Hp) _ Hc] _].
  - done.
  - apply f_receiving.
  - apply (f_run_session f_events f_actor []); [constructor|apply f_honest|]. vm_compute. reflexivity.
  - intros x Hx. assert (x = 0 ∨ x = 1 ∨ x = 2 ∨ x = 3)%nat as Hx4 by (cbn in Hx; lia). unfold arrived.
    destruct Hx4 as [->|[->|[->| ->]]]; [exists (f_append 0 [1; 2]), (inr [])..|exists (f_append 2 [3; 4]), (inr [])|exists (f_append 2 [3; 4]), (inr [])];
      (split; [vm_compute; repeat (first [left; reflexivity|right])|split; [done|vm_compute; lia]]).
  - intros _. split; [|done]. unfold clear, not_below, not_above. split_and!; try done; by vm_compute.
  - exact E.
  - exists a', [], n. split; [exact E|]. split_and!; [done|done|by apply Ht|by apply Hp|]. destruct (Hc ltac:(done)) as [_ ->]. by vm_compute.
Defined.
