(* ===== verification/FileSample.v ===== *)
(** * FileSample: commands of [FileActor] that do not do what they mean to. *)

From S2P Require Import Prelude Proto Resolver Cluster Wire Bep Controller ControllerSample Watcher Disk FileIo FileActor Download.

#[local] Existing Instance c_surroundings.
#[local] Existing Instance no_faults.

Definition g_run (d : disk) (cmds : list io_command) : option (disk * list (io_error + bytes)) :=
  match on_io_commands ∅ 5 (mkFileActor d (new_mediator 10 false) ∅ false 0) 1 7 cmds with
  | Ok (a, rs) => Some (fa_disk a, map snd rs)
  | _ => None
  end.

Definition g_add (d : disk) (p : bytes) (k : kind) : disk := add_node d p k.

Definition g_context : file_context := mkFileContext 1 [] [] remote_copy.

Definition g_copy (p : bytes) (type : FileInfoType) (target : bytes) (del : bool) : io_command :=
  remote_copy_file g_context (chars "f") p [] type 0 420 77 target del true.

(** A file of a peer that has become empty: [open_write] resizes an existing file only when it has the right size already, so the
    local file keeps its content, and the command succeeds. *)
Example emptied_file_keeps_content :
  ∃ d n, g_run f_disk [g_copy f_path FILE [] false] = Some (d, [inr []]) ∧ node_at d f_path = Some n ∧ in_kind n = KFile [9; 9].
Proof. do 2 eexists. vm_compute. split_and!; reflexivity. Qed.

(** A longer temporary file that was left behind: the file that is finished has its tail. *)
Example stale_temporary_keeps_tail :
  ∃ d n, g_run (g_add f_disk (make_temporal f_path) (KFile [8; 8; 8; 8; 8; 8]))
      [f_append 0 [1; 2; 3; 4]; finish_file g_context (chars "f") f_path [] 4 77 436 false] = Some (d, [inr []; inr []]) ∧
    node_at d f_path = Some n ∧ in_kind n = KFile [1; 2; 3; 4; 8; 8].
Proof. do 2 eexists. vm_compute. split_and!; reflexivity. Qed.

(** A request of the peer for bytes behind the end of a file that is being fetched from it breaks the stream: nothing more can be
    written to it. *)
Example bad_read_breaks_download :
  ∃ d, g_run f_disk [f_append 0 [1; 2]; block_request (mkRequest 0 [] [] 4 1 []) f_path 4 1; f_append 2 [3; 4]] =
    Some (d, [inr []; inl (Errno EIO); inl (Errno EIO)]).
Proof. eexists. vm_compute. reflexivity. Qed.

(** A request of the peer for a negative number of bytes: the size is made unsigned, and the exception of [resize] ends the program. *)
Example negative_size_terminates : g_run f_disk [block_request (mkRequest 0 [] [] 0 (-1) []) f_path 0 (u64 (-1))] = None.
Proof. by vm_compute. Qed.

(** A link that gets another target can not be made, as the old one is there. *)
Example changed_link_fails :
  ∃ d, g_run (g_add f_disk (chars "/s/l") (KLink f_path)) [g_copy (chars "/s/l") SYMLINK (chars "/s/other") false] = Some (d, [inl (Errno EEXIST)]).
Proof. eexists. vm_compute. reflexivity. Qed.

(** A link that leads nowhere is taken for one that does not exist: it is not removed. *)
Example dangling_link_stays :
  ∃ d n, g_run (g_add f_disk (chars "/s/l") (KLink (chars "/s/none"))) [g_copy (chars "/s/l") SYMLINK [] true] = Some (d, [inr []]) ∧
    node_at d (chars "/s/l") = Some n.
Proof. do 2 eexists. vm_compute. split; reflexivity. Qed.
