(* ===== verification/Presence.v ===== *)
(** * Presence: [src/presentation]: the tree of all files of a folder, whoever has them. An entity is a name in the folder; a
    presence is what one device has under it. The user interface shows them, and scans walk over them. *)

From S2P Require Import Prelude Version Proto Path Blocks FileInfo FileStore FileMap GenericMap Folder.
From S2P Require Import Resolver BlockMap UpdateFolder FileIterator Advance Cluster Changes Watcher.
From stdpp Require Import sorting.
Open Scope Z_scope.

(** ** [statistics.h] *)

Record stats := mkStats { st_size : Z; st_entities : Z; st_cluster : Z; st_local : Z }.

#[export] Instance stats_eq_dec : EqDecision stats.
Proof. solve_decision. Defined.

Definition no_stats : stats := mkStats 0 0 0 0.
Definition stats_add (a b : stats) : stats :=
  mkStats (st_size a + st_size b) (st_entities a + st_entities b) (st_cluster a + st_cluster b) (st_local a + st_local b).
Definition stats_neg (a : stats) : stats := mkStats (- st_size a) (- st_entities a) (- st_cluster a) (- st_local a).

(** ** [presence_t::features_t] *)

Definition F_folder : Z := 1.
Definition F_file : Z := 2.
Definition F_directory : Z := 4.
Definition F_missing : Z := 8.
Definition F_cluster : Z := 16.
Definition F_peer : Z := 32.
Definition F_local : Z := 64.
Definition F_deleted : Z := 128.
Definition F_symblink : Z := 512.
Definition F_unreachable : Z := 1024.

Definition has (features bits : Z) : bool := negb (Z.land features bits =? 0).

(** ** The objects *)

(** [presence_t]; [pn_file] is the file of a [cluster_file_presence_t]. *)
Record presence := mkPresence {
  pn_entity : positive;
  pn_parent : option positive;
  pn_device : option bytes;
  pn_children : list positive;
  pn_features : Z;
  pn_generation : Z;
  pn_stats : stats;
  pn_own : stats;
  pn_file : option file_ptr;
}.

(** [entity_t]; the children are ordered by their own names. *)
Record entity := mkEntity {
  en_path : path;
  en_parent : option positive;
  en_children : list positive;
  en_presences : list positive;
  en_best : option positive;
  en_size : Z;
  en_entities : Z;
  en_generation : Z;
}.

(** All of them, with the augmentations of files, folders and folder infos, and the entities of each folder entity that have no
    parent yet. *)
Record presentation := mkPresentation {
  ps_entities : gmap positive entity;
  ps_presences : gmap positive presence;
  ps_of_file : gmap file_ptr positive;
  ps_of_folder : gmap bytes positive;
  ps_of_info : gmap (bytes * bytes) positive;
  ps_orphans : gmap positive (list positive);
}.

Definition no_presentation : presentation := mkPresentation ∅ ∅ ∅ ∅ ∅ ∅.

Definition entity_at (v : presentation) (e : positive) : res entity := the (ps_entities v !! e).
Definition presence_at (v : presentation) (p : positive) : res presence := the (ps_presences v !! p).

Definition put_entity (v : presentation) (e : positive) (x : entity) : presentation :=
  mkPresentation (<[e := x]> (ps_entities v)) (ps_presences v) (ps_of_file v) (ps_of_folder v) (ps_of_info v) (ps_orphans v).
Definition put_presence (v : presentation) (p : positive) (x : presence) : presentation :=
  mkPresentation (ps_entities v) (<[p := x]> (ps_presences v)) (ps_of_file v) (ps_of_folder v) (ps_of_info v) (ps_orphans v).
Definition augment_file (v : presentation) (f : file_ptr) (p : positive) : presentation :=
  mkPresentation (ps_entities v) (ps_presences v) (<[f := p]> (ps_of_file v)) (ps_of_folder v) (ps_of_info v) (ps_orphans v).
Definition augment_folder (v : presentation) (id : bytes) (e : positive) : presentation :=
  mkPresentation (ps_entities v) (ps_presences v) (ps_of_file v) (<[id := e]> (ps_of_folder v)) (ps_of_info v) (ps_orphans v).
Definition augment_info (v : presentation) (id device : bytes) (p : positive) : presentation :=
  mkPresentation (ps_entities v) (ps_presences v) (ps_of_file v) (ps_of_folder v) (<[(id, device) := p]> (ps_of_info v)) (ps_orphans v).
Definition put_orphans (v : presentation) (root : positive) (l : list positive) : presentation :=
  mkPresentation (ps_entities v) (ps_presences v) (ps_of_file v) (ps_of_folder v) (ps_of_info v) (<[root := l]> (ps_orphans v)).

Definition orphans_of (v : presentation) (root : positive) : list positive := default [] (ps_orphans v !! root).

Definition presence_with_parent (p : presence) (x : option positive) : presence :=
  mkPresence (pn_entity p) x (pn_device p) (pn_children p) (pn_features p) (pn_generation p) (pn_stats p) (pn_own p) (pn_file p).
Definition presence_with_children (p : presence) (x : list positive) : presence :=
  mkPresence (pn_entity p) (pn_parent p) (pn_device p) x (pn_features p) (pn_generation p) (pn_stats p) (pn_own p) (pn_file p).
Definition presence_with_features (p : presence) (x : Z) : presence :=
  mkPresence (pn_entity p) (pn_parent p) (pn_device p) (pn_children p) x (pn_generation p) (pn_stats p) (pn_own p) (pn_file p).
Definition presence_with_generation (p : presence) (x : Z) : presence :=
  mkPresence (pn_entity p) (pn_parent p) (pn_device p) (pn_children p) (pn_features p) x (pn_stats p) (pn_own p) (pn_file p).
Definition presence_with_stats (p : presence) (x : stats) : presence :=
  mkPresence (pn_entity p) (pn_parent p) (pn_device p) (pn_children p) (pn_features p) (pn_generation p) x (pn_own p) (pn_file p).
Definition presence_with_own (p : presence) (x : stats) : presence :=
  mkPresence (pn_entity p) (pn_parent p) (pn_device p) (pn_children p) (pn_features p) (pn_generation p) (pn_stats p) x (pn_file p).

Definition entity_with_parent (e : entity) (x : option positive) : entity :=
  mkEntity (en_path e) x (en_children e) (en_presences e) (en_best e) (en_size e) (en_entities e) (en_generation e).
Definition entity_with_children (e : entity) (x : list positive) : entity :=
  mkEntity (en_path e) (en_parent e) x (en_presences e) (en_best e) (en_size e) (en_entities e) (en_generation e).
Definition entity_with_presences (e : entity) (x : list positive) : entity :=
  mkEntity (en_path e) (en_parent e) (en_children e) x (en_best e) (en_size e) (en_entities e) (en_generation e).
Definition entity_with_best (e : entity) (x : option positive) : entity :=
  mkEntity (en_path e) (en_parent e) (en_children e) (en_presences e) x (en_size e) (en_entities e) (en_generation e).
Definition entity_with_generation (e : entity) (x : Z) : entity :=
  mkEntity (en_path e) (en_parent e) (en_children e) (en_presences e) (en_best e) (en_size e) (en_entities e) x.
Definition entity_with_stats (e : entity) (size entities : Z) : entity :=
  mkEntity (en_path e) (en_parent e) (en_children e) (en_presences e) (en_best e) size entities (en_generation e).

(** ** Looking around *)

Definition own_name (e : entity) : bytes := get_own_name (en_path e).

(** [entity_t::get_presence]: the presence of the device, or else the last one that has no device. *)
Fixpoint find_presence (v : presentation) (device : bytes) (l : list positive) (r : option positive) : res (option positive) :=
  match l with
  | [] => Ok r
  | p :: l =>
      let* x := presence_at v p in
      if bool_decide (pn_device x = Some device) then Ok (Some p)
      else find_presence v device l (match pn_device x with None => Some p | Some _ => r end)
  end.

Definition get_presence (v : presentation) (e : positive) (device : bytes) : res (option positive) :=
  let* x := entity_at v e in find_presence v device (en_presences x) None.

(** What [child_comparator_t] reads of a presence: a missing one is as the best one of its entity. *)
Definition rank (v : presentation) (p : positive) : res (bool * bytes) :=
  let* x := presence_at v p in
  let* x :=
    if has (pn_features x) F_missing then
      let* e := entity_at v (pn_entity x) in
      let* best := the (en_best e) in
      presence_at v best
    else Ok x in
  let* e := entity_at v (pn_entity x) in
  Ok (has (pn_features x) F_directory, own_name e).

(** [std::string_view::operator<]. *)
Definition name_lt (a b : bytes) : bool := negb (path_le b a).

(** [child_comparator_t]: directories first, then by name. *)
Definition rank_lt (l r : bool * bytes) : bool :=
  if l.1 && negb r.1 then true else if negb l.1 && r.1 then false else name_lt l.2 r.2.

Definition rank_le (l r : (bool * bytes) * positive) : Prop := rank_lt r.1 l.1 = false.

#[export] Instance rank_le_dec l r : Decision (rank_le l r).
Proof. unfold rank_le. apply _. Defined.

Fixpoint mapm {A B} (f : A → res B) (l : list A) : res (list B) :=
  match l with
  | [] => Ok []
  | x :: l => let* y := f x in let* ys := mapm f l in Ok (y :: ys)
  end.

(** The presences of the device (or the missing ones) under the children of an entity that have a best presence. *)
Fixpoint child_presences (v : presentation) (device : bytes) (l : list positive) : res (list ((bool * bytes) * positive)) :=
  match l with
  | [] => Ok []
  | c :: l =>
      let* o := get_presence v c device in
      let* p := the o in
      let* x := presence_at v p in
      let* e := entity_at v (pn_entity x) in
      match en_best e with
      | Some _ => let* r := rank v p in let* rest := child_presences v device l in Ok ((r, p) :: rest)
      | None => child_presences v device l
      end
  end.

(** [presence_t::get_children]: the list is made anew when its length is not that of the children of the entity. The presence
    of a folder info or of a file has a device. *)
Definition get_children (v : presentation) (p : positive) : res (presentation * list positive) :=
  let* x := presence_at v p in
  let* e := entity_at v (pn_entity x) in
  if (length (pn_children x) =? length (en_children e))%nat then Ok (v, pn_children x)
  else
    let* device := the (pn_device x) in
    let* l := child_presences v device (en_children e) in
    let l := snd <$> merge_sort rank_le l in
    Ok (put_presence v p (presence_with_children x l), l).

(** [std::lower_bound] with this comparator. *)
Fixpoint bound_loop (fuel : nat) (v : presentation) (l : list positive) (key : bool * bytes) (first len : nat) : res nat :=
  match fuel with
  | O => Ok first
  | S fuel =>
      if (len =? 0)%nat then Ok first
      else
        let half := Nat.div2 len in
        let* p := the (l !! (first + half)%nat) in
        let* r := rank v p in
        if rank_lt r key then bound_loop fuel v l key (first + half + 1) (len - half - 1)
        else bound_loop fuel v l key first half
  end.

(** [presence_t::get_child]. *)
Definition get_child (v : presentation) (p : positive) (name : bytes) (is_dir : bool) : res (presentation * option positive) :=
  let* '(v, l) := get_children v p in
  let* i := bound_loop (length l) v l (is_dir, name) 0 (length l) in
  match l !! i with
  | None => Ok (v, None)
  | Some c =>
      let* x := presence_at v c in
      let* e := entity_at v (pn_entity x) in
      let found := bool_decide (own_name e = name) && eqb (has (pn_features x) F_directory) is_dir && negb (has (pn_features x) F_missing) in
      Ok (v, if found then Some c else None)
  end.

(** [cluster_file_presence_t::get_file_info]: only the presence of a file has one. *)
Definition file_of_presence (m : model) (v : presentation) (p : positive) : res (file_ptr * file_info) :=
  let* x := presence_at v p in
  let* f := the (pn_file x) in
  let* file := file_at (mo_cluster m) f in
  Ok (f, file).

(** [cluster_file_presence_t::get_folder]: the topmost parent; its own parent is read without a test. *)
Fixpoint top_of (fuel : nat) (v : presentation) (p : positive) : res positive :=
  match fuel with
  | O => Ub
  | S fuel =>
      let* x := presence_at v p in
      match pn_parent x with Some q => top_of fuel v q | None => Ok p end
  end.

Definition get_folder (v : presentation) (p : positive) : res positive :=
  let* x := presence_at v p in
  let* q := the (pn_parent x) in
  let* top := top_of (S (size (ps_presences v))) v q in
  let* t := presence_at v top in
  let* _ := assert (has (pn_features t) F_folder) in
  Ok top.

(** ** Statistics *)

Definition put_stats (v : presentation) (p : positive) (x : presence) (diff : stats) (generation : Z) : res presentation :=
  let g := u32 (pn_generation x - 1) in
  let fine s := (0 <=? st_size s) && (0 <=? st_entities s) && ((0 <=? st_cluster s) || negb (g =? generation)) in
  let* _ := assert (fine (pn_stats x)) in
  let s := stats_add (pn_stats x) diff in
  let* _ := assert (fine s) in
  Ok (put_presence v p (presence_with_stats (presence_with_generation x g) s)).

(** The presence of the device among those of an entity. *)
Fixpoint presence_of_device (v : presentation) (device : bytes) (l : list positive) : res (option positive) :=
  match l with
  | [] => Ok None
  | p :: l =>
      let* x := presence_at v p in
      if bool_decide (pn_device x = Some device) then Ok (Some p) else presence_of_device v device l
  end.

(** [entity_t::push_stats]: from the entity up to the root. *)
Fixpoint push_stats (fuel : nat) (v : presentation) (e : option positive) (diff : stats) (source : option bytes) (best : bool) (p : option positive)
    : res presentation :=
  match fuel, e with
  | _, None => Ok v
  | O, Some _ => Ub
  | S fuel, Some e =>
      let* x := entity_at v e in
      let* x :=
        if best then
          let* _ := assert ((0 <=? en_size x) && (0 <=? en_entities x)) in
          let x := entity_with_stats x (en_size x + st_size diff) (en_entities x + st_entities diff) in
          let* _ := assert ((0 <=? en_size x) && (0 <=? en_entities x)) in
          Ok (entity_with_generation x (u32 (en_generation x + 1)))
        else Ok x in
      let v := put_entity v e x in
      match source with
      | None => push_stats fuel v (en_parent x) diff source best p
      | Some device =>
          let* p := match p with Some _ => Ok p | None => presence_of_device v device (en_presences x) end in
          match p with
          | None => Ok v
          | Some p =>
              let* y := presence_at v p in
              let* v := put_stats v p y diff (en_generation x) in
              push_stats fuel v (en_parent x) diff source best (pn_parent y)
          end
      end
  end.

Definition depth (v : presentation) : nat := S (size (ps_entities v)).

Section files.
Context (m : model).

(** The best version of an entity, as [sync_with_entity] looks for it. *)
Definition best_version (v : presentation) (e : entity) : res counter :=
  match en_best e with
  | Some b =>
      if bool_decide (b ∈ en_presences e) then
        let* x := presence_at v b in
        if has (pn_features x) F_cluster then let* '(_, f) := file_of_presence m v b in Ok (get_best (f_version f)) else Ok counter_zero
      else Ok counter_zero
  | None => Ok counter_zero
  end.

(** [presence_t::sync_with_entity]: how many entries below are the best ones of the cluster. *)
Fixpoint sync_with_entity (fuel : nat) (v : presentation) (p : positive) : res presentation :=
  match fuel with
  | O => Ub
  | S fuel =>
      let* x := presence_at v p in
      let* e := entity_at v (pn_entity x) in
      if negb (pn_generation x =? en_generation e) && has (pn_features x) (Z.lor F_cluster F_folder) then
        let s := pn_stats x in
        let v := put_presence v p (presence_with_stats (presence_with_generation x (en_generation e)) (mkStats (st_size s) (st_entities s) 0 (st_local s))) in
        let* device := the (pn_device x) in
        let* v :=
          (fix children v l {struct l} :=
             match l with
             | [] => Ok v
             | c :: l =>
                 let* o := get_presence v c device in
                 let* q := the o in
                 let* y := presence_at v q in
                 if has (pn_features y) F_cluster then
                   let* v := sync_with_entity fuel v q in
                   let* y := presence_at v q in
                   let* x := presence_at v p in
                   children (put_presence v p (presence_with_stats x (stats_add (pn_stats x) (mkStats 0 0 (st_cluster (pn_stats y)) 0)))) l
                 else children v l
             end) v (en_children e) in
        if has (pn_features x) (Z.lor F_file F_directory) then
          let* best := best_version v e in
          let* _ := assert (has (pn_features x) F_cluster) in
          let* '(_, f) := file_of_presence m v p in
          if bool_decide (get_best (f_version f) = best) then
            let* x := presence_at v p in
            Ok (put_presence v p (presence_with_stats x (stats_add (pn_stats x) (mkStats 0 0 1 0))))
          else Ok v
        else Ok v
      else Ok v
  end.

(** [get_stats]. *)
Definition get_stats (v : presentation) (p : positive) : res (presentation * stats) :=
  let* v := sync_with_entity (depth v) v p in
  let* x := presence_at v p in
  Ok (v, pn_stats x).

(** [presence_t::set_parent]: the presences of the same device below that have no parent yet follow. *)
Fixpoint set_parent (fuel : nat) (v : presentation) (p : positive) (parent_entity : option positive) (parent : option positive) : res presentation :=
  match fuel with
  | O => Ub
  | S fuel =>
      let* x := presence_at v p in
      match parent_entity, pn_device x with
      | Some pe, Some device =>
          let* parent := match parent with Some _ => Ok parent | None => get_presence v pe device end in
          match parent with
          | None => Ok v
          | Some q =>
              let* y := presence_at v q in
              if bool_decide (pn_device y = Some device) then
                let v := put_presence v p (presence_with_parent x (Some q)) in
                let* '(v, s) := get_stats v p in
                let* v := push_stats (depth v) v (Some pe) s (Some device) false None in
                let* e := entity_at v (pn_entity x) in
                (fix children v l {struct l} :=
                   match l with
                   | [] => Ok v
                   | c :: l =>
                       let* ce := entity_at v c in
                       let* o := presence_of_device v device (en_presences ce) in
                       match o with
                       | None => children v l
                       | Some cp =>
                           let* cx := presence_at v cp in
                           match pn_parent cx with
                           | Some _ => children v l
                           | None => let* v := set_parent fuel v cp (Some (pn_entity x)) (Some p) in children v l
                           end
                       end
                   end) v (en_children e)
              else Ok v
          end
      | _, _ => Ok v
      end
  end.

(** ** The best presence of an entity *)

(** [determine_best] of a presence, virtual. *)
Definition determine_best (v : presentation) (this other : positive) : res positive :=
  let* x := presence_at v this in
  match pn_file x with
  | None => Ok other
  | Some _ =>
      let* y := presence_at v other in
      if negb (has (pn_features y) F_cluster) then Ok this
      else
        let* '(_, f) := file_of_presence m v this in
        let* '(_, g) := file_of_presence m v other in
        Ok (if 0 <=? compare f g then this else other)
  end.

Fixpoint best_of (v : presentation) (l : list positive) (best : option positive) : res (option positive) :=
  match l with
  | [] => Ok best
  | p :: l =>
      let* x := presence_at v p in
      match pn_device x with
      | None => best_of v l best
      | Some _ =>
          let* best := match best with None => Ok p | Some b => determine_best v p b end in
          best_of v l (Some best)
      end
  end.

(** [entity_t::recalc_best]: a root has none. *)
Definition recalc_best (v : presentation) (e : positive) : res (presentation * option positive) :=
  let* x := entity_at v e in
  let* best := match en_parent x with Some _ => best_of v (en_presences x) None | None => Ok None end in
  Ok (put_entity v e (entity_with_best x best), best).

Definition own_stats (v : presentation) (p : positive) : res stats := let* x := presence_at v p in Ok (pn_own x).

(** [entity_t::commit]: from the leaves up, in all entities or in those the device has a presence in. *)
Fixpoint commit (fuel : nat) (v : presentation) (e : positive) (device : option bytes) : res presentation :=
  match fuel with
  | O => Ub
  | S fuel =>
      let* x := entity_at v e in
      let* recurse :=
        match device with
        | None => Ok true
        | Some d => let* o := presence_of_device v d (en_presences x) in Ok (match o with Some _ => true | None => false end)
        end in
      if negb recurse then Ok v
      else
        let* v :=
          (fix children v l {struct l} :=
             match l with [] => Ok v | c :: l => let* v := commit fuel v c device in children v l end) v (en_children x) in
        let* x := entity_at v e in
        let* diff := match en_best x with Some b => let* s := own_stats v b in Ok (stats_neg s) | None => Ok no_stats end in
        let* '(v, best) := recalc_best v e in
        let* v :=
          match best with
          | Some b =>
              let* s := own_stats v b in
              push_stats (depth v) v (Some e) (stats_add diff s) None true None
          | None => Ok v
          end in
        let* x := entity_at v e in
        Ok (put_entity v e (entity_with_generation x (u32 (en_generation x + 1))))
  end.

(** ** Presences of files *)

(** [cluster_file_presence_t::refresh_features]. *)
Definition file_features (default_features : Z) (f : file_info) : Z :=
  let features := Z.lor default_features F_cluster in
  let features := Z.lor features (if is_dir f then F_directory else F_file) in
  let features := if is_deleted f then Z.lor features F_deleted else features in
  let features := if is_link f then Z.lor features F_symblink else features in
  if is_unreachable f then Z.lor features F_unreachable else features.

(** [cluster_file_presence_t::refresh_own_stats]. *)
Definition refresh_own_stats (features : Z) (f : file_info) : res stats :=
  let* sz := get_size f (cl_heap (mo_cluster m)) in
  let* available := is_locally_available f in
  Ok (mkStats sz 1 0 (if has features F_local && (is_local f && available) then 1 else 0)).

(** [local_file_presence_t] and [peer_file_presence_t]. *)
Definition new_file_presence (v : presentation) (e : positive) (p : file_ptr) (f : file_info) (device : bytes) : res (presentation * positive) :=
  let default_features := if bool_decide (device = self_sha m) then F_local else F_peer in
  let features := file_features default_features f in
  let* s := refresh_own_stats features f in
  let id := fresh (dom (ps_presences v)) in
  let x := mkPresence e None (Some device) [] features 0 s s (Some p) in
  Ok (augment_file (put_presence v id x) p id, id).

(** The walk that makes the presences above stale. *)
Fixpoint outdate_parents (fuel : nat) (v : presentation) (p : option positive) : res presentation :=
  match fuel, p with
  | _, None => Ok v
  | O, Some _ => Ub
  | S fuel, Some p =>
      let* x := presence_at v p in
      outdate_parents fuel (put_presence v p (presence_with_generation x (u32 (pn_generation x - 1)))) (pn_parent x)
  end.

(** [file_entity_t::on_insert]. *)
Definition file_on_insert (v : presentation) (e : positive) (p : file_ptr) (f : file_info) (device : bytes) : res presentation :=
  let* x := entity_at v e in
  let* o := presence_of_device v device (en_presences x) in
  match o with
  | Some _ => Ok v
  | None =>
      let* '(v, id) := new_file_presence v e p f device in
      let v := put_entity v e (entity_with_presences x (en_presences x ++ [id])) in
      let* v := set_parent (depth v) v id (en_parent x) None in
      let* y := presence_at v id in
      match pn_parent y with
      | None => Ok v
      | Some q =>
          let* z := presence_at v q in
          let v := put_presence v q (presence_with_children z []) in
          outdate_parents (depth v) v (Some q)
      end
  end.

(** The files of this name in the folder infos. *)
Fixpoint files_named (infos : list folder_info) (name : bytes) : res (list (file_ptr * file_info * bytes)) :=
  match infos with
  | [] => Ok []
  | fi :: infos =>
      let* o := file_by_name (mo_cluster m) fi name in
      let* rest := files_named infos name in
      Ok (match o with Some (p, f) => (p, f, fi_device_sha fi) :: rest | None => rest end)
  end.

Fixpoint insert_files (v : presentation) (e : positive) (l : list (file_ptr * file_info * bytes)) : res presentation :=
  match l with
  | [] => Ok v
  | (p, f, device) :: l => let* v := file_on_insert v e p f device in insert_files v e l
  end.

(** [file_entity_t::file_entity_t], with its [missing_file_presence_t]. *)
Definition new_file_entity (v : presentation) (name : bytes) (infos : list folder_info) : res (presentation * positive) :=
  let* pa := make_path name in
  let* l := files_named infos name in
  let e := fresh (dom (ps_entities v)) in
  let missing := fresh (dom (ps_presences v)) in
  let v := put_presence v missing (mkPresence e None None [] (Z.lor F_missing F_file) 0 no_stats no_stats None) in
  let v := put_entity v e (mkEntity pa None [] [missing] None 0 0 0) in
  let* v := insert_files v e l in
  Ok (v, e).

(** [entity_t::children], a set ordered by own names: the place of a new child. *)
Fixpoint insert_child (v : presentation) (name : bytes) (c : positive) (l : list positive) : res (list positive) :=
  match l with
  | [] => Ok [c]
  | d :: rest =>
      let* x := entity_at v d in
      if name_lt (own_name x) name then let* rest := insert_child v name c rest in Ok (d :: rest)
      else if bool_decide (own_name x = name) then Ok l
      else Ok (c :: l)
  end.

Fixpoint set_parents (v : presentation) (l : list positive) (parent : positive) : res presentation :=
  match l with
  | [] => Ok v
  | p :: l => let* v := set_parent (depth v) v p (Some parent) None in set_parents v l parent
  end.

(** [entity_t::add_child], with [entity_t::set_parent]. *)
Definition add_child (v : presentation) (e c : positive) : res presentation :=
  let* y := entity_at v c in
  let* x := entity_at v e in
  let* l := insert_child v (own_name y) c (en_children x) in
  let v := put_entity v e (entity_with_children x l) in
  let* y := entity_at v c in
  let v := put_entity v c (entity_with_parent y (Some e)) in
  set_parents v (en_presences y) e.

(** ** The entity of a folder *)

(** [process]: the names of the files of a folder info that are not there yet. *)
Fixpoint new_names (l : list file_ptr) (names : list bytes) : res (list bytes) :=
  match l with
  | [] => Ok names
  | p :: l =>
      let* f := file_at (mo_cluster m) p in
      new_names l (if bool_decide (f_name f ∈ names) then names else names ++ [f_name f])
  end.

Fixpoint names_of_infos (infos : list folder_info) (names : list bytes) : res (list bytes) :=
  match infos with
  | [] => Ok names
  | fi :: infos => let* names := new_names (map e_file (fi_files fi)) names in names_of_infos infos names
  end.

Definition name_le (a b : bytes) : Prop := path_le a b = true.

#[export] Instance name_le_dec a b : Decision (name_le a b).
Proof. unfold name_le. apply _. Defined.

(** [process_files]: the entities come ordered by their full names, so that parents precede their children; those without one
    are orphans. Making an entity changes nothing but its own files, so each is made in its turn. *)
Fixpoint process_files (v : presentation) (root : positive) (infos : list folder_info) (names : list bytes) (made : gmap bytes positive)
    : res presentation :=
  match names with
  | [] => Ok v
  | name :: names =>
      let* '(v, e) := new_file_entity v name infos in
      let* x := entity_at v e in
      let parent :=
        if (get_pieces_size (en_path x) =? 1)%nat then Some root else made !! get_parent_name (en_path x) in
      let* v :=
        match parent with
        | Some pe => add_child v pe e
        | None => Ok (put_orphans v root (orphans_of v root ++ [e]))
        end in
      process_files v root infos names (<[name := e]> made)
  end.

(** [folder_presence_t]. *)
Definition new_folder_presence (v : presentation) (root : positive) (id : bytes) (fi : folder_info) : res presentation :=
  let features := Z.lor F_folder (if bool_decide (fi_device_sha fi = self_sha m) then F_local else F_peer) in
  let p := fresh (dom (ps_presences v)) in
  let v := put_presence v p (mkPresence root None (Some (fi_device_sha fi)) [] features 0 no_stats no_stats None) in
  let v := augment_info v id (fi_device_sha fi) p in
  let* x := entity_at v root in
  Ok (put_entity v root (entity_with_presences x (en_presences x ++ [p]))).

Fixpoint new_folder_presences (v : presentation) (root : positive) (id : bytes) (infos : list folder_info) : res presentation :=
  match infos with
  | [] => Ok v
  | fi :: infos => let* v := new_folder_presence v root id fi in new_folder_presences v root id infos
  end.

(** [folder_entity_t::folder_entity_t]. *)
Definition new_folder_entity (v : presentation) (fo : folder) : res (presentation * positive) :=
  let root := fresh (dom (ps_entities v)) in
  let v := put_entity v root (mkEntity (mkPath [] []) None [] [] None 0 0 0) in
  let v := augment_folder v (fd_id (fo_data fo)) root in
  let* v := new_folder_presences v root (fd_id (fo_data fo)) (fo_infos fo) in
  let* names := names_of_infos (fo_infos fo) [] in
  let* v := process_files v root (fo_infos fo) (merge_sort name_le names) ∅ in
  let* v := commit (depth v) v root None in
  Ok (v, root).

(** [folder_entity_t::on_insert] of a folder info. *)
Definition insert_folder_info (v : presentation) (root : positive) (fo : folder) (fi : folder_info) : res presentation :=
  let* x := entity_at v root in
  let* o := presence_of_device v (fi_device_sha fi) (en_presences x) in
  match o with
  | Some _ => Ok v
  | None =>
      let* v := new_folder_presence v root (fd_id (fo_data fo)) fi in
      let* names := names_of_infos [fi] [] in
      let* v := process_files v root (fo_infos fo) (merge_sort name_le names) ∅ in
      commit (depth v) v root (Some (fi_device_sha fi))
  end.

(** The child of this name. *)
Fixpoint child_named (v : presentation) (name : bytes) (l : list positive) : res (option positive) :=
  match l with
  | [] => Ok None
  | c :: l => let* x := entity_at v c in if bool_decide (own_name x = name) then Ok (Some c) else child_named v name l
  end.

(** The walk from the root along the pieces of the path: where it ends, and how many pieces it went. *)
Fixpoint walk_down (v : presentation) (e : positive) (pieces : list bytes) (i : nat) : res (positive * nat) :=
  match pieces with
  | [] => Ok (e, i)
  | piece :: pieces =>
      let* x := entity_at v e in
      let* o := child_named v piece (en_children x) in
      match o with Some c => walk_down v c pieces (S i) | None => Ok (e, i) end
  end.

(** Which orphans have this parent name. *)
Fixpoint split_orphans (v : presentation) (name : bytes) (l : list positive) : res (list positive * list positive) :=
  match l with
  | [] => Ok ([], [])
  | o :: l =>
      let* x := entity_at v o in
      let* '(mine, others) := split_orphans v name l in
      Ok (if bool_decide (get_parent_name (en_path x) = name) then (o :: mine, others) else (mine, o :: others))
  end.

Fixpoint add_children (v : presentation) (e : positive) (l : list positive) : res presentation :=
  match l with
  | [] => Ok v
  | c :: l => let* v := add_child v e c in add_children v e l
  end.

(** [orphans_t::reap_children]: breadth first. *)
Fixpoint reap_children (fuel : nat) (v : presentation) (root : positive) (queue : list positive) : res presentation :=
  match fuel, queue with
  | _, [] => Ok v
  | O, _ :: _ => Ub
  | S fuel, item :: queue =>
      let* x := entity_at v item in
      let* '(mine, others) := split_orphans v (get_full_name (en_path x)) (orphans_of v root) in
      let* v := add_children v item mine in
      reap_children fuel (put_orphans v root others) root (queue ++ mine)
  end.

Fixpoint orphan_named (v : presentation) (name : bytes) (l : list positive) : res (option positive) :=
  match l with
  | [] => Ok None
  | o :: l => let* x := entity_at v o in if bool_decide (get_full_name (en_path x) = name) then Ok (Some o) else orphan_named v name l
  end.

(** [folder_entity_t::on_insert] of a file. *)
Definition insert_file (v : presentation) (root : positive) (fo : folder) (p : file_ptr) (device : bytes) : res presentation :=
  let* f := file_at (mo_cluster m) p in
  let* pa := make_path (f_name f) in
  let* pieces := path_components pa in
  let* '(e, i) := walk_down v root pieces 0 in
  if (i + 1 =? get_pieces_size pa)%nat then
    let* '(v, c) := new_file_entity v (f_name f) (fo_infos fo) in
    let* v := add_child v e c in
    let* v := reap_children (S (length (orphans_of v root))) v root [c] in
    let* v := commit (depth v) v c (Some device) in
    let* '(v, _) := recalc_best v root in
    Ok v
  else if (i =? get_pieces_size pa)%nat then
    let* v := file_on_insert v e p f device in
    commit (depth v) v e (Some device)
  else
    let* o := orphan_named v (f_name f) (orphans_of v root) in
    match o with
    | Some c => file_on_insert v c p f device
    | None =>
        let* '(v, c) := new_file_entity v (f_name f) (fo_infos fo) in
        Ok (put_orphans v root (orphans_of v root ++ [c]))
    end.

(** [cluster_file_presence_t::on_update]: the file has changed. *)
Definition update_presence (v : presentation) (p : positive) : res presentation :=
  let* x := presence_at v p in
  let* device := the (pn_device x) in
  let* '(_, f) := file_of_presence m v p in
  let features := file_features (if bool_decide (device = self_sha m) then F_local else F_peer) f in
  let v := put_presence v p (presence_with_features x features) in
  let* now := refresh_own_stats features f in
  let diff := stats_add now (stats_neg (pn_own x)) in
  let* e := entity_at v (pn_entity x) in
  let '(size, entities) := (en_size e, en_entities e) in
  let* '(v, best) := recalc_best v (pn_entity x) in
  let* best := the best in
  let* b := presence_at v best in
  let mine := bool_decide (pn_device b = Some device) in
  let best_changed := negb (bool_decide (en_best e = Some best)) && mine in
  let* v := push_stats (depth v) v (Some (pn_entity x)) diff (Some device) (negb best_changed && mine) None in
  let* x := presence_at v p in
  let v := put_presence v p (presence_with_own x (stats_add (pn_own x) diff)) in
  if best_changed then
    let* _ := assert (bool_decide (best = p)) in
    let* '(v, s) := get_stats v p in
    push_stats (depth v) v (Some (pn_entity x)) (stats_add s (mkStats (- size) (- entities) 0 0)) None true None
  else Ok v.
End files.
