(* ===== verification/Tasks.v ===== *)
(** * Tasks: what the local keeper has the file system do and hash: [src/net/local_keeper/child_info.cpp, hash_base.cpp and the
    headers beside them], [src/fs/task], [fs_slave.cpp], [utils.cpp], [src/hasher/hasher_plugin.cpp], and [file_actor_t::on_exec]. *)

From S2P Require Import Prelude Version Proto Path Blocks FileInfo FileMap GenericMap Folder Resolver BlockMap UpdateFolder Advance.
From S2P Require Import ClusterUpdate Watcher Disk FileIo FileActor Presence.
From stdpp Require Import sorting.
Open Scope Z_scope.

(** ** [src/fs/utils.cpp] *)

Definition block_sizes : list Z := map (λ i, 2 ^ i * 1024) [7; 8; 9; 10; 11; 12; 13; 14].

Definition max_blocks_count : Z := 2000.

Fixpoint first_fitting (sz : Z) (l : list Z) : Z :=
  match l with
  | [] => 0
  | bs :: l => if sz <=? bs * max_blocks_count then if sz <? bs then sz else bs else first_fitting sz l
  end.

(** [get_block_size]: the number of blocks and their size. *)
Definition divide (sz prev_size : Z) : Z * Z :=
  let bs := if (131072 <=? sz) && existsb (Z.eqb prev_size) block_sizes then prev_size else 0 in
  let bs := if bs =? 0 then first_fitting sz block_sizes else bs in
  let bs := if (bs =? 0) && negb (sz =? 0) then default 0 (last block_sizes) else bs in
  let count :=
    if bs =? 0 then 0
    else let count := i32 (Z.quot sz bs) in if count * bs <? sz then count + 1 else count in
  (count, i32 bs).

(** The elements the two paths begin with are dropped. *)
Fixpoint drop_common (p root : list bytes) : list bytes :=
  match p, root with
  | x :: p', y :: root' => if bool_decide (x = y) then drop_common p' root' else p
  | _, _ => p
  end.

Definition relativize (path root : bytes) : bytes :=
  foldl path_append [] (drop_common (path_elements path) (path_elements root)).

(** [path::filename], [path::stem]. *)
Definition filename (p : bytes) : bytes :=
  match last (path_elements p) with
  | Some x => if bool_decide (x = [slash]) then [] else x
  | None => []
  end.

Definition stem (p : bytes) : bytes := (stem_ext (filename p)).1.

(** ** What is found in a directory: [scan_dir_t::child_info_t] *)

Inductive file_type := TRegular | TDirectory | TSymlink.

(** [dc_type] is missing where [symlink_status] failed; sizes and times are zero where they are not read. *)
Record dir_child := mkDirChild {
  dc_path : bytes;
  dc_target : bytes;
  dc_type : option file_type;
  dc_perms : Z;
  dc_time : Z;
  dc_size : Z;
  dc_ec : option Z;
}.

Definition is_dir_child (c : dir_child) : bool := match dc_type c with Some TDirectory => true | _ => false end.

(** ** [child_info_t] *)

Record child_info := mkChild {
  ci_path : bytes;
  ci_link_target : bytes;
  ci_time : Z;
  ci_size : Z;
  ci_type : FileInfoType;
  ci_perms : Z;
  ci_self : option positive;
  ci_parent : option positive;
  ci_generation : Z;
}.

Definition child_of_dir (c : dir_child) (self parent : option positive) (generation : Z) : res child_info :=
  let* _ := assert (negb (bool_decide (dc_path c = []))) in
  let type := match dc_type c with Some TDirectory => DIRECTORY | Some TSymlink => SYMLINK | _ => FILE end in
  Ok (mkChild (dc_path c) (dc_target c) (dc_time c) (dc_size c) type (u32 (dc_perms c)) self parent generation).

Definition child_of_info (f : FileInfo) (path : bytes) (self parent : option positive) (generation : Z) : child_info :=
  mkChild path (pf_symlink_target f) (pf_modified_s f) (u64 (pf_size f)) (pf_type f) (pf_permissions f) self parent generation.

(** [child_info_t::serialize]. *)
Definition serialize_child (c : child_info) (folder_path : bytes) (blocks : list BlockInfo) (ignore_permissions : bool) : res FileInfo :=
  let name := relativize (ci_path c) folder_path in
  let* '(block_size, size, blocks) :=
    if ci_size c =? 0 then Ok (0, 0, [])
    else match blocks with front :: _ => Ok (pb_size front, ci_size c, blocks) | [] => Ub end in
  let link := bool_decide (ci_type c = SYMLINK) in
  Ok (mkFileInfo name (ci_type c) size (if ignore_permissions then 438 else ci_perms c) (ci_time c) 0 0 false false
        (ignore_permissions || link) [] 0 block_size blocks (if link then ci_link_target c else [])).

(** [child_info_t::fetch_model]. *)
Definition fetch_model (c : cluster) (folder_path : bytes) (fi : folder_info) (i : child_info) : res (option (file_ptr * file_info)) :=
  file_by_name c fi (relativize (ci_path i) folder_path).

(** ** [hash_base_t] *)

Record hash_base := mkHash {
  hb_info : child_info;
  hb_block_size : Z;
  hb_total : Z;
  hb_unprocessed : Z;
  hb_unhashed : Z;
  hb_errored : Z;
  hb_blocks : list BlockInfo;
  hb_action : advance_action;
  hb_incomplete : bool;
}.

Definition no_block : BlockInfo := mkBlockInfo 0 0 [].

(** [std::vector::resize] of a negative number does not return. *)
Definition sized_blocks (n : Z) (l : list BlockInfo) : res (list BlockInfo) :=
  let* _ := assert (0 <=? n) in Ok (resize (Z.to_nat n) no_block l).

(** [hash_base_t::hash_base_t]. *)
Definition new_hash (c : child_info) (block_size : Z) : res hash_base :=
  let* '(count, size) :=
    if block_size =? 0 then Ok (divide (i64 (ci_size c)) 0)
    else
      let count := ci_size c / u64 block_size in
      let* _ := assert (negb (count =? 0)) in
      let count := if negb (ci_size c mod count =? 0) then count + 1 else count in
      Ok (i32 count, block_size) in
  let* blocks := sized_blocks count [] in
  Ok (mkHash c size count count count 0 blocks ignore false).

Definition with_self (c : child_info) (self : option positive) : child_info :=
  mkChild (ci_path c) (ci_link_target c) (ci_time c) (ci_size c) (ci_type c) (ci_perms c) self (ci_parent c) (ci_generation c).

(** What [file_info_t::blocks_iterator_t] goes over. *)
Definition all_slots (f : file_info) : res (list slot) := if is_file f then file_blocks f else Ok [].

(** [hash_incomplete_file_t::hash_incomplete_file_t]: the blocks are those of the file of the peer. *)
Definition new_hash_incomplete (cl : cluster) (c : child_info) (presence : positive) (f : file_info) (action : advance_action) : res hash_base :=
  let* b := new_hash c 0 in
  let* block_size := FileInfo.get_block_size f (cl_heap cl) in
  let* bs := all_slots f in
  let total := Z.of_nat (length bs) in
  let* blocks := sized_blocks total (hb_blocks b) in
  Ok (mkHash (with_self c (Some presence)) block_size total total total 0 blocks action true).

Definition with_unprocessed (b : hash_base) (n : Z) : hash_base :=
  mkHash (hb_info b) (hb_block_size b) (hb_total b) n (hb_unhashed b) (hb_errored b) (hb_blocks b) (hb_action b) (hb_incomplete b).

(** [hash_base_t::commit_error]: have all blocks that were asked for failed? *)
Definition commit_error (b : hash_base) (delta : Z) : hash_base * bool :=
  let errored := hb_errored b + delta in
  (mkHash (hb_info b) (hb_block_size b) (hb_total b) (hb_unprocessed b) (hb_unhashed b) errored (hb_blocks b) (hb_action b) (hb_incomplete b),
   errored + hb_unprocessed b =? hb_unhashed b).

(** ** [src/fs/task] *)

(** Codes that are not of the system. *)
Definition ec_no_action : Z := -1.
Definition ec_concurrent_file_modification : Z := -2.

(** [scan_dir_t]. *)
Record scan_task := mkScan {
  sd_path : bytes;
  sd_presence : option positive;
  sd_single_child : bytes;
  sd_notify : bool;
  sd_recurse : bool;
  sd_refine : bool;
  sd_ec : option Z;
  sd_children : list dir_child;
}.

Definition new_scan (path : bytes) (presence : option positive) (single_child : bytes) (notify recurse refine : bool) : scan_task :=
  mkScan path presence single_child notify recurse refine (Some ec_no_action) [].

(** [hash_context_t]: the slave, the folder context and the file, each an object. *)
Record hash_context := mkHashContext { hc_slave : positive; hc_folder : positive; hc_file : positive }.

(** [segment_iterator_t]. *)
Record segment := mkSegment {
  sg_context : hash_context;
  sg_path : bytes;
  sg_offset : Z;
  sg_block_index : Z;
  sg_block_count : Z;
  sg_block_size : Z;
  sg_last_block_size : Z;
  sg_time : Z;
  sg_ec : option Z;
  sg_current_block : Z;
}.

(** [rehashed_incomplete_t]. *)
Record rehashed := mkRehashed { rh_info : child_info; rh_blocks : list BlockInfo; rh_action : advance_action }.

Inductive task :=
| ScanDir (t : scan_task)
| Segment (t : segment)
| RemoveFile (path : bytes) (ec : option Z)
| RenameFile (path new_name : bytes) (modification_s : Z) (item : rehashed) (ec : option Z)
| Noop.

(** A request to a hasher. *)
Record digest_request := mkDigestRequest { dg_data : bytes; dg_index : Z; dg_context : hash_context }.

Section tasks.
Context `{Faults}.

(** *** Calls of [std::filesystem] *)

(** [directory_iterator]: the entries of a directory, in no particular order. *)
Definition list_dir (d : disk) (p : bytes) : outcome (list bytes) :=
  call d (λ d,
    match follow max_links d p with
    | None => (d, inl ELOOP)
    | Some q =>
        match node_at d q with
        | Some (mkInode KDir _ _) =>
            (d, inr (path_append p ∘ filename <$> filter (λ x, parent_path x = q ∧ x ≠ q) (map_to_list (dk_names d)).*1))
        | Some _ => (d, inl ENOTDIR)
        | None => (d, inl ENOENT)
        end
    end).

Definition symlink_status (d : disk) (p : bytes) : outcome (file_type * Z) :=
  call d (λ d,
    match node_at d p with
    | Some n => (d, inr (match in_kind n with KFile _ => TRegular | KDir => TDirectory | KLink _ => TSymlink end, in_perms n))
    | None => (d, inl ENOENT)
    end).

Definition get_last_write_time (d : disk) (p : bytes) : outcome Z :=
  call d (λ d, match stat d p with Some n => (d, inr (in_time n)) | None => (d, inl ENOENT) end).

Definition get_file_size (d : disk) (p : bytes) : outcome Z :=
  call d (λ d,
    match stat d p with
    | Some (mkInode (KFile data) _ _) => (d, inr (Z.of_nat (length data)))
    | Some _ => (d, inl EISDIR)
    | None => (d, inl ENOENT)
    end).

Definition get_symlink (d : disk) (p : bytes) : outcome bytes :=
  call d (λ d, match node_at d p with Some (mkInode (KLink target) _ _) => (d, inr target) | _ => (d, inl EINVAL) end).

(** *** [scan_dir_t::process] *)

(** One entry. *)
Definition examine (d : disk) (p : bytes) : disk * dir_child :=
  let '(d, r) := symlink_status d p in
  match r with
  | inl e => (d, mkDirChild p [] None 0 0 0 (Some e))
  | inr (type, perms) =>
      let child time size target ec := mkDirChild p target (Some type) perms time size ec in
      match type with
      | TSymlink =>
          let '(d, r) := get_symlink d p in
          (d, match r with inl e => child 0 0 [] (Some e) | inr target => child 0 0 target None end)
      | _ =>
          let '(d, r) := get_last_write_time d p in
          match r with
          | inl e => (d, child 0 0 [] (Some e))
          | inr time =>
              match type with
              | TRegular =>
                  let '(d, r) := get_file_size d p in
                  (d, match r with inl e => child time (2 ^ 64 - 1) [] (Some e) | inr size => child time size [] None end)
              | _ => (d, child time 0 [] None)
              end
          end
      end
  end.

Fixpoint examine_all (d : disk) (single_child : bytes) (l : list bytes) : disk * list dir_child :=
  match l with
  | [] => (d, [])
  | p :: l =>
      if negb (bool_decide (single_child = [])) && negb (bool_decide (filename single_child = filename p)) then examine_all d single_child l
      else
        let '(d, c) := examine d p in
        let '(d, cs) := examine_all d single_child l in
        (d, c :: cs)
  end.

(** [comparator_t]: directories come last, names backwards; the stack reverses it. *)
Definition child_lt (l r : dir_child) : bool :=
  if xorb (is_dir_child l) (is_dir_child r) then negb (is_dir_child l)
  else name_lt (filename (dc_path r)) (filename (dc_path l)).

Definition child_le (l r : dir_child) : Prop := child_lt r l = false.

#[export] Instance child_le_dec l r : Decision (child_le l r).
Proof. unfold child_le. apply _. Defined.

(** [ec] is the one of the last call: what an entry left in it stays. *)
Definition last_error (ec : option Z) (cs : list dir_child) : option Z :=
  match last cs with Some c => dc_ec c | None => ec end.

(** The watcher is told of the directory when it could be listed. *)
Definition process_scan (px : fs_proxy) (t : scan_task) : fs_proxy * scan_task * bool :=
  let '(d, r) := list_dir (px_disk px) (sd_path t) in
  let with_result ec cs := mkScan (sd_path t) (sd_presence t) (sd_single_child t) (sd_notify t) (sd_recurse t) (sd_refine t) ec cs in
  match r with
  | inl e => (with_disk px d, with_result (Some e) (sd_children t), false)
  | inr l =>
      let '(d, cs) := examine_all d (sd_single_child t) l in
      (with_disk px d, with_result (last_error None cs) (merge_sort child_le (sd_children t ++ cs)), sd_notify t)
  end.

(** *** [segment_iterator_t::process] *)

Definition with_progress (t : segment) (ec : option Z) (current : Z) : segment :=
  mkSegment (sg_context t) (sg_path t) (sg_offset t) (sg_block_index t) (sg_block_count t) (sg_block_size t) (sg_last_block_size t)
    (sg_time t) ec current.

(** The loop that reads the blocks, from the [j]-th on; it ends at the first one that cannot be read. *)
Fixpoint read_blocks (todo : nat) (j : Z) (px : fs_proxy) (f : open_file) (t : segment) : res (fs_proxy * segment * list bytes) :=
  match todo with
  | O => Ok (px, t, [])
  | S todo =>
      let bs := if j + 1 =? sg_block_count t then sg_last_block_size t else sg_block_size t in
      let* '(px, f, r) := file_read px f (sg_offset t + sg_block_size t * j) bs in
      let t := with_progress t None (sg_current_block t + 1) in
      match r with
      | inl e => Ok (px, with_progress t (Some e) (sg_current_block t), [])
      | inr data =>
          let* '(px, t, rest) := read_blocks todo (j + 1) px f t in
          Ok (px, t, data :: rest)
      end
  end.

(** The digests are asked for when every block was read. *)
Fixpoint digests_of (i : Z) (context : hash_context) (chunks : list bytes) : list digest_request :=
  match chunks with
  | [] => []
  | c :: chunks => mkDigestRequest c i context :: digests_of (i + 1) context chunks
  end.

Definition process_segment (px : fs_proxy) (t : segment) : res (fs_proxy * segment * list digest_request) :=
  let* _ := assert (match sg_ec t with None => true | Some _ => false end) in
  let '(px, r) := file_open_read px (sg_path t) in
  match r with
  | inl e => Ok (px, with_progress t (Some e) (sg_current_block t), [])
  | inr f =>
      let '(d, r) := get_last_write_time (px_disk px) (sg_path t) in
      let px := with_disk px d in
      match r with
      | inl e => Ok (px, with_progress t (Some e) (sg_current_block t), [])
      | inr modified =>
          if negb (modified =? sg_time t) then Ok (px, with_progress t (Some ec_concurrent_file_modification) (sg_current_block t), [])
          else
            let* '(px, t, chunks) := read_blocks (Z.to_nat (sg_block_count t)) 0 px f t in
            Ok (px, t, match sg_ec t with Some _ => [] | None => digests_of (sg_block_index t) (sg_context t) chunks end)
      end
  end.

(** [remove_file_t::process], [rename_file_t::process]. *)
Definition process_rename (px : fs_proxy) (path new_name : bytes) (modification_s : Z) : fs_proxy * option Z * bool :=
  let new_path := path_append (parent_path path) new_name in
  let '(px, r) := proxy_rename px path new_path in
  match r with
  | inl e => (px, Some e, false)
  | inr _ =>
      let '(px, r) := proxy_last_write_time px new_path modification_s in
      (px, match r with inl e => Some e | inr _ => None end, true)
  end.

(** *** [fs_slave_t::exec] *)

(** What a slave has done: the disk, the tasks with their results, the requests to the hashers, the directories the watcher is
    told of, and whether something was changed. *)
Record executed := mkExecuted {
  ex_proxy : fs_proxy;
  ex_tasks : list task;
  ex_digests : list digest_request;
  ex_notified : list scan_task;
  ex_updated : bool;
}.

Definition process_task (px : fs_proxy) (t : task) : res executed :=
  match t with
  | ScanDir s =>
      let '(px, s, notify) := process_scan px s in
      Ok (mkExecuted px [ScanDir s] [] (if notify then [s] else []) false)
  | Segment s => let* '(px, s, ds) := process_segment px s in Ok (mkExecuted px [Segment s] ds [] false)
  | RemoveFile path ec =>
      let '(px, r) := remove_file px path in
      match r with
      | inl e => Ok (mkExecuted px [RemoveFile path (Some e)] [] [] false)
      | inr _ => Ok (mkExecuted px [RemoveFile path None] [] [] true)
      end
  | RenameFile path new_name modification_s item ec =>
      let '(px, ec, updated) := process_rename px path new_name modification_s in
      Ok (mkExecuted px [RenameFile path new_name modification_s item ec] [] [] updated)
  | Noop => Ok (mkExecuted px [Noop] [] [] false)
  end.

Fixpoint exec_loop (px : fs_proxy) (ts : list task) : res executed :=
  match ts with
  | [] => Ok (mkExecuted px [] [] [] false)
  | t :: ts =>
      let* x := process_task px t in
      let* y := exec_loop (ex_proxy x) ts in
      Ok (mkExecuted (ex_proxy y) (ex_tasks x ++ ex_tasks y) (ex_digests x ++ ex_digests y) (ex_notified x ++ ex_notified y)
            (ex_updated x || ex_updated y))
  end.

Definition exec (px : fs_proxy) (ts : list task) : res executed :=
  let* _ := assert (negb (bool_decide (ts = []))) in exec_loop px ts.

(** [file_actor_t::on_exec]. *)
Definition on_exec (retension : Z) (a : file_actor) (now : Z) (ts : list task) : res (file_actor * executed) :=
  let* x := exec (mkProxy (fa_disk a) (fa_mediator a) (now + retension) 0) ts in
  let px := ex_proxy x in
  Ok (mkFileActor (px_disk px) (px_mediator px) (fa_context_cache a) (fa_expiration_timer a || ex_updated x) (fa_services a), x).
End tasks.

(** ** [hasher_plugin_t::calc_digest]: which hasher gets the next block *)

Record hasher_plugin := mkHasherPlugin { hp_usages : list Z; hp_min_usage : Z }.

(** The loop over the hashers: every usage is lowered by the least one of the last time, and the first of the least is chosen. *)
Fixpoint lower_usages (i : nat) (min_usage : Z) (l : list Z) (best : option nat) (min_value : Z) : list Z * option nat * Z :=
  match l with
  | [] => ([], best, min_value)
  | val :: l =>
      let val := val - min_usage in
      let '(best, min_value) := if val <? min_value then (Some i, val) else (best, min_value) in
      let '(l, best, min_value) := lower_usages (S i) min_usage l best min_value in
      (val :: l, best, min_value)
  end.

Definition calc_digest (p : hasher_plugin) (size : Z) : res (hasher_plugin * nat) :=
  let* _ := assert (negb (bool_decide (hp_usages p = []))) in
  if (1 <? length (hp_usages p))%nat then
    let '(l, best, min_value) := lower_usages 0 (hp_min_usage p) (hp_usages p) None (2 ^ 31 - 1) in
    let* i := match best with Some i => Ok i | None => Ub end in
    Ok (mkHasherPlugin (alter (λ u, u + i32 size) i l) min_value, i)
  else Ok (p, 0%nat).
