(* ===== verification/Segments.v ===== *)
(** * Segments: how a file is cut into blocks, and what the tasks that read them come back with. *)

From S2P Require Import Prelude Proto Path Blocks FileInfo Resolver Watcher Disk FileIo FileActor Presence Tasks.

(** ** Pieces of a file *)

(** What a file of a path had in it at a time. *)
Abbreviation contents := (bytes → Z → bytes).

(** The number of bytes that are read for the [j]-th block of [total]. *)
Definition piece_size (i : child_info) (block_size total j : Z) : Z :=
  if (j + 1 =? total) && (1 <? total) then i32 (ci_size i - block_size * (total - 1)) else block_size.

Definition piece (content : contents) (i : child_info) (block_size total j : Z) : bytes :=
  take (Z.to_nat (piece_size i block_size total j)) (drop (Z.to_nat (j * block_size)) (content (ci_path i) (ci_time i))).

(** What is announced of it. *)
Definition piece_block (sha : bytes → bytes) (content : contents) (i : child_info) (block_size total j : Z) : BlockInfo :=
  let p := piece content i block_size total j in mkBlockInfo (j * block_size) (i32 (Z.of_nat (length p))) (sha p).

(** ** [get_block_size] *)

(** The size of a block for a file that is not empty. *)
Lemma fitting_size sz bs :
  0 < sz → bs = (if first_fitting sz block_sizes =? 0 then 2 ^ 24 else first_fitting sz block_sizes) →
  0 < bs <= 2 ^ 24 ∧ bs <= sz ∧ (if sz <=? 2000 * 2 ^ 24 then sz <= 2000 * bs else bs = 2 ^ 24).
Proof.
  intros Hsz ->. change block_sizes with [131072; 262144; 524288; 1048576; 2097152; 4194304; 8388608; 16777216].
  cbn [first_fitting]. change (2 ^ 24) with 16777216. unfold max_blocks_count. repeat case_match; lia.
Qed.

Lemma i32_small z : 0 <= z < 2 ^ 31 → i32 z = z.
Proof. intros Hz. unfold i32, u32. rewrite Z.mod_small by lia. case_match; lia. Qed.

(** The blocks a file is cut into cover it, none of them is empty, and there are at most 2000 of them as long as blocks of 16 MiB do. *)
Lemma divide_spec sz count bs :
  0 < sz < 2 ^ 54 → divide sz 0 = (count, bs) →
  0 < bs <= 2 ^ 24 ∧ 0 < count < 2 ^ 31 ∧ (count - 1) * bs < sz <= count * bs ∧ (count = 1 → bs = sz) ∧
  (sz <= max_blocks_count * 2 ^ 24 → count <= max_blocks_count).
Proof.
  intros Hsz. unfold divide. replace (existsb (Z.eqb 0) block_sizes) with false by done. rewrite andb_false_r. cbn [Z.eqb].
  replace (negb (sz =? 0)) with true by lia. rewrite andb_true_r. change (default 0 (last block_sizes)) with (2 ^ 24).
  set (b := if first_fitting sz block_sizes =? 0 then 2 ^ 24 else first_fitting sz block_sizes). destruct (fitting_size sz b) as (H1 & H2 & H3); [lia|done|]. clearbody b.
  replace (b =? 0) with false by lia. rewrite Z.quot_div_nonneg by lia. pose proof (Z.div_mod sz b ltac:(lia)) as Hd.
  pose proof (Z.mod_pos_bound sz b ltac:(lia)) as Hm. set (q := sz / b) in *. clearbody q.
  assert (0 < q < 2 ^ 31 - 1) as Hq by (destruct (sz <=? 2000 * 2 ^ 24); nia). rewrite (i32_small q), (i32_small b) by lia.
  unfold max_blocks_count. intros Hc. destruct (q * b <? sz) eqn:E; simplify_eq; (split_and!; [lia|lia|lia|lia|nia|nia|nia|]); intros; destruct (sz <=? 2000 * 2 ^ 24) eqn:E2; nia.
Qed.

(** ** The pieces together *)

Lemma join_front (data : bytes) bs n : ∀ j,
  0 <= bs → 0 <= j →
  mjoin ((λ x, take (Z.to_nat bs) (drop (Z.to_nat (x * bs)) data)) <$> seqZ j (Z.of_nat n)) = take (n * Z.to_nat bs) (drop (Z.to_nat (j * bs)) data).
Proof.
  induction n as [|n IH]; intros j Hb Hj; [done|]. rewrite seqZ_cons by lia. cbn [fmap list_fmap mjoin list_join].
  replace (Z.pred (Z.of_nat (S n))) with (Z.of_nat n) by lia. unfold fmap in IH. rewrite IH by lia.
  replace (Z.to_nat (Z.succ j * bs)) with (Z.to_nat (j * bs) + Z.to_nat bs)%nat by nia. rewrite <- drop_drop. apply take_take_drop.
Qed.

(** The last piece is all that is left. *)
Lemma pieces_joined content i bs total (data := content (ci_path i) (ci_time i)) :
  0 < bs → 1 < total → (total - 1) * bs <= ci_size i → ci_size i - bs * (total - 1) < 2 ^ 31 → Z.of_nat (length data) = ci_size i →
  mjoin (piece content i bs total <$> seqZ 0 total) = data.
Proof.
  intros Hb Ht Hle Hlast Hl. replace total with ((total - 1) + 1) at 2 by lia. rewrite seqZ_app by lia. rewrite fmap_app, join_app.
  assert (piece content i bs total <$> seqZ 0 (total - 1) =
    (λ x, take (Z.to_nat bs) (drop (Z.to_nat (x * bs)) data)) <$> seqZ 0 (Z.of_nat (Z.to_nat (total - 1)))) as ->.
  { rewrite Z2Nat.id by lia. apply list_fmap_ext. intros n x (-> & Hx)%lookup_seqZ. unfold piece, piece_size. by replace (0 + Z.of_nat n + 1 =? total) with false by lia. }
  rewrite join_front by lia. change (seqZ (0 + (total - 1)) 1) with [0 + (total - 1)]. cbn [fmap list_fmap mjoin list_join].
  rewrite app_nil_r, drop_0. unfold piece, piece_size. fold data. replace (0 + (total - 1) + 1 =? total) with true by lia.
  replace (1 <? total) with true by lia. cbn [andb]. rewrite i32_small by lia.
  replace (Z.to_nat (total - 1) * Z.to_nat bs)%nat with (Z.to_nat ((0 + (total - 1)) * bs)) by nia.
  rewrite (take_ge (drop _ _)); [apply take_drop|]. rewrite length_drop. nia.
Qed.

Lemma one_piece content i bs : piece content i bs 1 <$> seqZ 0 1 = [take (Z.to_nat bs) (content (ci_path i) (ci_time i))].
Proof. reflexivity. Qed.

Lemma take_all_iff {A} (l : list A) n : take n l = l ↔ (length l <= n)%nat.
Proof. split; [|apply take_ge]. intros Ht. rewrite <- Ht, length_take. lia. Qed.

(** C14: a file that is hashed for the first time is read whole, with the block size that is found for it or with the one a peer uses: the
    pieces it is cut into, one after the other, make up what it had in it when it was found, except when a block size was
    taken over that the file exceeds by less than a second block; then its end is not read. *)
Theorem pieces_cover content i block_size h :
  0 < ci_size i < 2 ^ 54 → 0 <= block_size <= 2 ^ 24 → (block_size = 0 ∨ ci_size i < block_size * (2 ^ 31 - 1)) →
  new_hash i block_size = Ok h → Z.of_nat (length (content (ci_path i) (ci_time i))) = ci_size i →
  mjoin (piece content i (hb_block_size h) (hb_total h) <$> seqZ 0 (hb_total h)) = content (ci_path i) (ci_time i) ↔
  block_size = 0 ∨ ci_size i <= block_size ∨ 2 * block_size <= ci_size i.
Proof.
  intros Hs Hbs Hfew Hn Hl. unfold new_hash in Hn. destruct (block_size =? 0) eqn:E0.
  - apply Z.eqb_eq in E0 as ->. split; [by left|]. intros _. destruct (divide (i64 (ci_size i)) 0) as [count bs] eqn:Ed. cbn [res_bind] in Hn.
    apply bind_Ok in Hn as (blocks & _ & [= <-]). cbn [hb_block_size hb_total].
    replace (i64 (ci_size i)) with (ci_size i) in Ed by (unfold i64, u64; rewrite Z.mod_small by lia; case_match; lia).
    apply divide_spec in Ed as (Hb & Hc & Hcov & H1 & _); [|lia]. destruct (decide (count = 1)) as [->|]; [|apply pieces_joined; nia].
    rewrite one_piece. cbn [mjoin list_join]. rewrite app_nil_r, take_all_iff. lia.
  - replace (u64 block_size) with block_size in Hn by (unfold u64; by rewrite Z.mod_small by lia). set (q := ci_size i / block_size) in Hn.
    pose proof (Z.div_mod (ci_size i) block_size ltac:(lia)) as Hd. pose proof (Z.mod_pos_bound (ci_size i) block_size ltac:(lia)) as Hm.
    fold q in Hd. assert (0 <= q < 2 ^ 31 - 1) as Hqr.
    { split; [apply Z.div_pos; lia|]. destruct Hfew as [?|Hfew]; [lia|]. apply Z.div_lt_upper_bound; lia. }
    clearbody q. apply bind_Ok in Hn as ([count bs] & Hn & (blocks & _ & [= <-])%bind_Ok). cbn [hb_block_size hb_total].
    apply bind_Ok in Hn as (u & Hq%assert_Ok & [= <- <-]). apply negb_true_iff, Z.eqb_neq in Hq.
    set (total := if negb (ci_size i mod q =? 0) then q + 1 else q). assert (q <= total <= q + 1) as Ht by (unfold total; destruct (negb _); lia).
    rewrite i32_small by lia. destruct (decide (q = 1)) as [->|]; [|split; [nia|intros _; apply pieces_joined; nia]].
    assert (total = 1) as -> by (unfold total; by rewrite Z.mod_1_r).
    rewrite one_piece. cbn [mjoin list_join]. rewrite app_nil_r, take_all_iff. lia.
Qed.

Example pieces_cover_witness :
  let i := mkChild [97] [] 7 131073 FILE 420 None None 1 in
  let content : contents := λ _ _, repeat 7 (Z.to_nat 131073) in
  mjoin (piece content i 131072 2 <$> [0; 1]) = content [97] 7 ∧ mjoin (piece content i 131072 1 <$> [0]) ≠ content [97] 7.
Proof.
  intros i content. assert (Z.of_nat (length (content [97] 7)) = 131073) as Hl by (unfold content; rewrite repeat_length; reflexivity). split.
  - apply (pieces_cover content i 0 (mkHash i 131072 2 2 2 0 [no_block; no_block] ignore false)); [cbn; lia|lia|by left|vm_compute; reflexivity|done|by left].
  - pose proof (pieces_cover content i 131072 (mkHash i 131072 1 1 1 0 [no_block] ignore false)) as Hp. cbn [hb_block_size hb_total] in Hp.
    intros Hc. apply Hp in Hc; [|cbn; lia|lia|right; cbn; lia|vm_compute; reflexivity|done]. cbn in Hc. lia.
Defined.

(** ** Tasks *)

Section reading.
Context `{FD : Faults}.

(** The same files. *)
Definition same_files (d d' : disk) : Prop := dk_names d' = dk_names d ∧ dk_nodes d' = dk_nodes d.

Lemma node_at_same d d' p : same_files d d' → node_at d' p = node_at d p.
Proof. intros [Hn Hd]. unfold node_at. by rewrite Hn, Hd. Qed.

Lemma follow_same d d' n : same_files d d' → ∀ p, follow n d' p = follow n d p.
Proof.
  intros Hs. induction n as [|n IH]; intros p; [done|]. cbn [follow]. rewrite (node_at_same d) by done.
  destruct (node_at d p) as [[[] ? ?]|]; auto.
Qed.

Lemma stat_same d d' p : same_files d d' → stat d' p = stat d p.
Proof.
  intros Hs. unfold stat. rewrite (follow_same d) by done. destruct (follow max_links d p) as [q|]; [|done]. cbn. by apply node_at_same.
Qed.

Lemma segment_read_spec px f s offset size px' f' r :
  of_backend f = Some s → file_read px f offset size = Ok (px', f', r) →
  same_files (px_disk px) (px_disk px') ∧ (∃ s', of_backend f' = Some s' ∧ sm_node s' = sm_node s) ∧
  ∀ data, r = inr data → data = take (Z.to_nat size) (drop (Z.to_nat (i64 offset)) (data_of (px_disk px) s)).
Proof.
  intros Hf. unfold file_read. rewrite Hf. cbn [res_bind]. set (s1 := if tell s =? i64 offset then s else seek s (i64 offset)).
  assert (sm_node s1 = sm_node s) as Hn.
  { unfold s1, seek. by repeat case_match. }
  destruct (tell s1 =? i64 offset) eqn:Ep; cbn [negb].
  - intros (u & _ & Hr)%bind_Ok. destruct (read_stream (px_disk px) s1 size) as [[d s2] data] eqn:Er. injection Hr as <- <- <-.
    unfold read_stream in Er. unfold tell in Ep. destruct (sm_good s1) eqn:Eg; cbn [negb] in Er.
    + assert (same_files (px_disk px) (tick (px_disk px))) as Ht by done.
      destruct (fault _); [injection Er as <- <- <-; split_and!; [done|by eexists|done]|].
      case_match; injection Er as <- <- <-; (split_and!; [done|by eexists|cbn; try done]).
      intros ? [= <-]. unfold data_of. rewrite Hn. by replace (sm_pos s1) with (i64 offset) by lia.
    + injection Er as <- <- <-. split_and!; [done|by eexists|by rewrite Eg].
  - intros [= <- <- <-]. split_and!; [done|by eexists|done].
Qed.

(** The [j]-th block of a segment. *)
Definition chunk (t : segment) (data : bytes) (j : Z) : bytes :=
  take (Z.to_nat (if j + 1 =? sg_block_count t then sg_last_block_size t else sg_block_size t))
    (drop (Z.to_nat (i64 (sg_offset t + sg_block_size t * j))) data).

Lemma read_blocks_spec todo : ∀ j px f s t px' t' chunks,
  of_backend f = Some s → sg_ec t = None → read_blocks todo j px f t = Ok (px', t', chunks) →
  ∃ ec current, t' = with_progress t ec current ∧ sg_current_block t <= current <= sg_current_block t + Z.of_nat todo ∧
    (ec = None → chunks = chunk t (data_of (px_disk px) s) <$> seqZ j (Z.of_nat todo)).
Proof.
  induction todo as [|todo IH]; intros j px f s t px' t' chunks Hf He Hr; cbn [read_blocks] in Hr.
  { injection Hr as <- <- <-. exists None, (sg_current_block t). split_and!; [|lia|lia|done]. destruct t. cbn in *. by subst. }
  apply bind_Ok in Hr as ([[px1 f1] r] & H1 & Hr). apply (segment_read_spec _ _ s) in H1 as ([Hn Hd] & (s1 & Hf1 & Hs1) & Hdata); [|done].
  destruct r as [e|data].
  - injection Hr as <- <- <-. eexists (Some e), _. split_and!; [done|cbn; lia|cbn; lia|done].
  - apply bind_Ok in Hr as ([[px2 t2] rest] & H2 & [= <- <- <-]). eapply IH in H2 as (ec & current & -> & Hc & Hrest); [|done|done].
    exists ec, current. split_and!; [done|cbn in Hc; lia|cbn in Hc; lia|]. intros Hec. rewrite (Hrest Hec).
    rewrite (seqZ_cons j) by lia. cbn. rewrite (Hdata data) by done. f_equal.
    replace (Z.pred (Z.of_nat (S todo))) with (Z.of_nat todo) by lia. replace (Z.succ j) with (j + 1) by lia.
    apply list_fmap_ext. intros n x _. unfold chunk. cbn. unfold data_of. by rewrite Hs1, Hd.
Qed.

(** The files of a disk are those that were promised: a file that is changed gets another time. *)
Definition told (content : contents) (d : disk) : Prop :=
  ∀ p n data, stat d p = Some n → in_kind n = KFile data → data = content p (in_time n).

Lemma digests_of_fmap context : ∀ l i j (g : Z → bytes),
  l = g <$> seqZ j (Z.of_nat (length l)) →
  digests_of i context l = (λ x, mkDigestRequest (g x) (i - j + x) context) <$> seqZ j (Z.of_nat (length l)).
Proof.
  induction l as [|c l IH]; intros i j g Hl; [done|]. cbn [length] in *. rewrite (seqZ_cons j) in * by lia. cbn in Hl. injection Hl as -> Hl.
  replace (Z.pred (Z.of_nat (S (length l)))) with (Z.of_nat (length l)) in * by lia. cbn [digests_of]. cbn. f_equal; [f_equal; lia|].
  rewrite (IH (i + 1) (Z.succ j) g Hl). apply list_fmap_ext. intros n x _. f_equal. lia.
Qed.

(** The time is that of the file that was opened. *)
Lemma open_read_spec content px path px1 f :
  told content (px_disk px) → file_open_read px path = (px1, inr f) →
  ∃ s n, of_backend f = Some s ∧ same_files (px_disk px) (px_disk px1) ∧ stat (px_disk px) path = Some n ∧
    data_of (px_disk px1) s = content path (in_time n).
Proof.
  intros Ht. unfold file_open_read, open_stream, call. destruct (fault _); [done|]. destruct (follow max_links (tick (px_disk px)) path) as [q|] eqn:Ef; [|done].
  destruct (dk_names (tick (px_disk px)) !! q) as [i|] eqn:Eq; [|done]. destruct (dk_nodes (tick (px_disk px)) !! i) as [n|] eqn:Ei; [|done].
  destruct (in_kind n) as [data| |target] eqn:Ek; [|done|done]. intros [= <- <-].
  assert (stat (px_disk px) path = Some n) as Hn.
  { unfold stat. rewrite (follow_same (px_disk px)) in Ef by done. rewrite Ef. cbn. unfold node_at. cbn in Eq. rewrite Eq. done. }
  exists (mkStream i 0 true), n. split_and!; [done|done|done|]. rewrite <- (Ht path n data Hn Ek).
  unfold data_of. cbn. cbn in Ei. rewrite Ei. destruct n. cbn in Ek. by rewrite Ek.
Qed.

(** A segment comes back with the digests of its blocks asked for, or without any. *)
Lemma process_segment_spec content px t px' t' ds :
  told content (px_disk px) → 0 <= sg_block_count t → process_segment px t = Ok (px', t', ds) →
  ∃ ec current, t' = with_progress t ec current ∧ sg_current_block t <= current <= sg_current_block t + sg_block_count t ∧
    ds = match ec with
         | Some _ => []
         | None => (λ j, mkDigestRequest (chunk t (content (sg_path t) (sg_time t)) j) (sg_block_index t + j) (sg_context t)) <$> seqZ 0 (sg_block_count t)
         end.
Proof.
  intros Ht Hc. unfold process_segment. intros (u & Hec%assert_Ok & Hp)%bind_Ok.
  assert (∀ px1 e, Ok (px1, with_progress t (Some e) (sg_current_block t), []) = Ok (px', t', ds) → ∃ ec current,
    t' = with_progress t ec current ∧ sg_current_block t <= current <= sg_current_block t + sg_block_count t ∧ ds = match ec with Some _ => [] | None =>
      (λ j, mkDigestRequest (chunk t (content (sg_path t) (sg_time t)) j) (sg_block_index t + j) (sg_context t)) <$> seqZ 0 (sg_block_count t) end) as Hfail.
  { intros px1 e [= <- <- <-]. exists (Some e), (sg_current_block t). split_and!; [done|lia|lia|done]. }
  destruct (file_open_read px (sg_path t)) as [px1 [e|f]] eqn:Eo; [by eapply Hfail|].
  destruct (open_read_spec _ _ _ _ _ Ht Eo) as (s & n & Hf & [Hnm Hnd] & Hst & Hdata).
  destruct (get_last_write_time (px_disk px1) (sg_path t)) as [d r] eqn:Eg. destruct r as [e|modified]; [by eapply Hfail|].
  assert (modified = in_time n ∧ dk_nodes d = dk_nodes (px_disk px1)) as [-> Hd].
  { unfold get_last_write_time, call in Eg. destruct (fault _); [done|].
    assert (stat (tick (px_disk px1)) (sg_path t) = Some n) as Hs.
    { rewrite <- Hst. by apply stat_same. }
    rewrite Hs in Eg. by injection Eg as <- <-. }
  destruct (in_time n =? sg_time t) eqn:Et; cbn [negb] in Hp; [|by eapply Hfail].
  apply bind_Ok in Hp as ([[px2 t2] chunks] & Hr & [= <- <- <-]). destruct (sg_ec t) eqn:Ee; [done|].
  eapply read_blocks_spec in Hr as (ec & current & -> & Hcur & Hch); [|done|done].
  exists ec, current. split_and!; [done|lia|lia|]. cbn. destruct ec as [e|]; [done|]. rewrite Z2Nat.id in Hch by lia.
  specialize (Hch eq_refl). assert (Z.of_nat (length chunks) = sg_block_count t) as Hl.
  { rewrite Hch, length_fmap, length_seqZ. lia. }
  rewrite <- Hl in Hch. rewrite (digests_of_fmap _ _ _ 0 _ Hch), Hl. apply list_fmap_ext. intros i x _. f_equal; [|lia].
  unfold chunk, data_of. cbn. rewrite Hd. fold (data_of (px_disk px1) s). rewrite Hdata. by replace (sg_time t) with (in_time n) by lia.
Qed.
End reading.
