(* ===== verification/FolderContext.v ===== *)
(** * FolderContext: [src/net/local_keeper/folder_context.cpp]: the scan of one folder. A stack of items is worked off; some need the
    file system or the hashers, whose answers put new items on it. *)

From S2P Require Import Prelude Diff Version Proto DeviceId Device Path Blocks FileInfo FileStore FileMap GenericMap Folder.
From S2P Require Import Resolver BlockMap UpdateFolder FileIterator Advance Cluster Changes Trees ClusterUpdate Controller.
From S2P Require Import Watcher Disk FileIo FileActor Presence Tasks.

(** ** [stack.h] *)

(** [unscanned_dir_t]. *)
Record unscanned := mkUnscanned {
  ud_path : bytes;
  ud_presence : option positive;
  ud_single_child : bytes;
  ud_generation : Z;
  ud_recurse : bool;
  ud_refine : bool;
}.

(** [stack_item_t]; files that are hashed are objects of their own. *)
Inductive stack_item :=
| UnscannedDir (d : unscanned)
| Unexamined (i : child_info) (recurse recurse_children refine : bool)
| Incomplete (i : child_info)
| CompleteScan (partial : bool)
| ChildReady (i : child_info) (blocks : list BlockInfo)
| UndoChildReady (path : bytes)
| HashNew (h : positive)
| HashExisting (h : positive)
| HashIncomplete (h : positive)
| RehashedIncomplete (r : rehashed)
| AbortHashing (path : bytes)
| RemovedDir (presence : positive)
| ConfirmedDeleted (presence : positive)
| SuspendScan (ec : Z)
| UnsuspendScan.

(** [folder_context_t]; the folder it scans is the one with this id. *)
Record folder_context := mkFolderContext {
  fx_folder_id : bytes;
  fx_stack : list stack_item;
  fx_pending : list task;
  fx_ignore_permissions : bool;
  fx_in_progress : Z;
  fx_hashing : Z;
  fx_io_generation : Z;
  fx_scan_generation : gmap bytes Z;
  fx_hashing_files : gmap bytes Z;
}.

(** [stack_context_t]: what one handler of the actor gathers: changes, with the number of those made so far; the hashes that may still
    be asked for; the clock, read once. Beside it, the files being hashed and the presentation, whose lists are made when read. *)
Record stack_context := mkStackContext {
  sc_diffs : assembler (A := op);
  sc_pool : Z;
  sc_now : Z;
  sc_calls : nat;
  sc_slave : positive;
  sc_hashes : gmap positive hash_base;
  sc_view : presentation;
}.

Definition with_diffs (s : stack_context) (a : assembler) : stack_context :=
  mkStackContext a (sc_pool s) (sc_now s) (sc_calls s) (sc_slave s) (sc_hashes s) (sc_view s).
Definition with_pool (s : stack_context) (n : Z) : stack_context :=
  mkStackContext (sc_diffs s) n (sc_now s) (sc_calls s) (sc_slave s) (sc_hashes s) (sc_view s).
Definition with_now (s : stack_context) (n : Z) : stack_context :=
  mkStackContext (sc_diffs s) (sc_pool s) n (sc_calls s) (sc_slave s) (sc_hashes s) (sc_view s).
Definition count_call (s : stack_context) : stack_context :=
  mkStackContext (sc_diffs s) (sc_pool s) (sc_now s) (S (sc_calls s)) (sc_slave s) (sc_hashes s) (sc_view s).
Definition with_slave (s : stack_context) (p : positive) : stack_context :=
  mkStackContext (sc_diffs s) (sc_pool s) (sc_now s) (sc_calls s) p (sc_hashes s) (sc_view s).
Definition put_hash (s : stack_context) (p : positive) (h : hash_base) : stack_context :=
  mkStackContext (sc_diffs s) (sc_pool s) (sc_now s) (sc_calls s) (sc_slave s) (<[p := h]> (sc_hashes s)) (sc_view s).
Definition with_view (s : stack_context) (v : presentation) : stack_context :=
  mkStackContext (sc_diffs s) (sc_pool s) (sc_now s) (sc_calls s) (sc_slave s) (sc_hashes s) v.

Definition with_stack (c : folder_context) (l : list stack_item) : folder_context :=
  mkFolderContext (fx_folder_id c) l (fx_pending c) (fx_ignore_permissions c) (fx_in_progress c) (fx_hashing c) (fx_io_generation c)
    (fx_scan_generation c) (fx_hashing_files c).
Definition with_pending (c : folder_context) (l : list task) : folder_context :=
  mkFolderContext (fx_folder_id c) (fx_stack c) l (fx_ignore_permissions c) (fx_in_progress c) (fx_hashing c) (fx_io_generation c)
    (fx_scan_generation c) (fx_hashing_files c).
Definition with_in_progress (c : folder_context) (n : Z) : folder_context :=
  mkFolderContext (fx_folder_id c) (fx_stack c) (fx_pending c) (fx_ignore_permissions c) n (fx_hashing c) (fx_io_generation c)
    (fx_scan_generation c) (fx_hashing_files c).
Definition with_hashing (c : folder_context) (n : Z) (files : gmap bytes Z) : folder_context :=
  mkFolderContext (fx_folder_id c) (fx_stack c) (fx_pending c) (fx_ignore_permissions c) (fx_in_progress c) n (fx_io_generation c)
    (fx_scan_generation c) files.
Definition with_generation (c : folder_context) (n : Z) (scans : gmap bytes Z) : folder_context :=
  mkFolderContext (fx_folder_id c) (fx_stack c) (fx_pending c) (fx_ignore_permissions c) (fx_in_progress c) (fx_hashing c) n
    scans (fx_hashing_files c).

(** [push]. *)
Definition push_task (c : folder_context) (t : task) : folder_context := with_pending c (fx_pending c ++ [t]).

Definition push_item (c : folder_context) (i : stack_item) : folder_context := with_stack c (i :: fx_stack c).

Definition has_no_tasks (c : folder_context) : bool := bool_decide (fx_pending c = []).

(** [is_done]. *)
Definition is_done (c : folder_context) : bool :=
  (fx_in_progress c =? 0) && (fx_hashing c =? 0) && bool_decide (fx_stack c = []) && bool_decide (fx_pending c = []).

(** [bfs::path::operator==]. *)
Definition same_path (a b : bytes) : bool := bool_decide (path_elements a = path_elements b).

(** [constants::tmp_min_age]. *)
Definition tmp_min_age : Z := 10.

Definition delete_proto (f : FileInfo) : FileInfo :=
  mkFileInfo (pf_name f) (pf_type f) (pf_size f) (pf_permissions f) (pf_modified_s f) (pf_modified_ns f) (pf_modified_by f) true
    (pf_invalid f) (pf_no_permissions f) (pf_version f) (pf_sequence f) (pf_block_size f) (pf_blocks f) (pf_symlink_target f).

(** What [process] of an item leaves: the context, with the stack below the item; what was pushed above it; and the answer, by which
    the item goes ([0], [1]) or stays ([-1]), and the next one is tried ([1]) or not. *)
Record step := mkStep {
  sp_folder : folder_context;
  sp_stack : stack_context;
  sp_pushed : list stack_item;
  sp_answer : Z;
}.

Section context.
(** The cluster does not change while a handler runs; [clock] is the time; [busy]: is a task at the file system; [scan_watches]: does
    the watcher need to be told of the directories; [utf8_valid] is [utils::is_utf8_valid]; [this]: the context itself. *)
Context `{Surroundings} (m : model) (clock : Z) (busy scan_watches : bool) (utf8_valid : bytes → bool) (this : positive).

Definition cluster_of : cluster := mo_cluster m.

Definition local_device : Z := get_uint (d_id (mo_device m)).

Definition folder_of (c : folder_context) : res folder := the (folder_by_id (folders_of m) (fx_folder_id c)).

Definition local_info (c : folder_context) : res folder_info :=
  let* fo := folder_of c in the (by_device_id (fo_infos fo) (self_sha m)).

Definition folder_path (fo : folder) : bytes := fd_path (fo_data fo).

(** [ctx.push_back]. *)
Definition push_diff (s : stack_context) (d : diff op) : res stack_context :=
  let* '(a, _) := push_back (sc_diffs s) d in Ok (with_diffs s a).

(** A new [local_update_t]. *)
Definition new_update (s : stack_context) (f : FileInfo) (folder_id : bytes) (disable_blocks_removal : bool) : res (stack_context * diff op) :=
  let* '(a, _) := local_update_new empty_digest cluster_of (self_sha m) local_device clock (sq_uuid (streams (sc_calls s))) 0 f folder_id
                    disable_blocks_removal in
  Ok (count_call s, leaf (LocalUpdate a)).

Definition push_update (s : stack_context) (f : FileInfo) (folder_id : bytes) : res stack_context :=
  let* '(s, d) := new_update s f folder_id false in push_diff s d.

(** [get_now]. *)
Definition get_now (s : stack_context) : stack_context * Z :=
  if sc_now s =? 0 then (with_now s clock, clock) else (s, sc_now s).

Definition children_of (s : stack_context) (p : positive) : res (stack_context * list positive) :=
  let* '(v, l) := get_children (sc_view s) p in Ok (with_view s v, l).

Definition features_of (s : stack_context) (p : positive) : res Z := let* x := presence_at (sc_view s) p in Ok (pn_features x).

Definition file_of (s : stack_context) (p : positive) : res (file_ptr * file_info) := file_of_presence m (sc_view s) p.

Definition availability (fo : folder) (f : file_info) : diff op := leaf (FileAvailability (fd_id (fo_data fo)) (f_name f) (f_version f)).

Definition unreachable (c : folder_context) (f : file_info) : diff op := leaf (MarkReachable (fx_folder_id c) (self_sha m) (f_name f) false).

(** ** Items of the stack *)

Definition process_complete_scan (c : folder_context) (s : stack_context) : res step :=
  let nothing_left := has_no_tasks c && negb busy && (fx_hashing c =? 0) in
  if nothing_left then
    let* fo := folder_of c in
    let* s := push_diff s (leaf (ScanFinish (fd_id (fo_data fo)) clock)) in
    Ok (mkStep c s [] 1)
  else Ok (mkStep c s [] (-1)).

Definition process_unscanned (c : folder_context) (s : stack_context) (d : unscanned) : res step :=
  let skip_scan := match fx_scan_generation c !! ud_path d with Some g => ud_generation d <? g | None => false end in
  if negb skip_scan then
    let* fo := folder_of c in
    let notify := scan_watches && fd_watched (fo_data fo) in
    let t := new_scan (ud_path d) (ud_presence d) (ud_single_child d) notify (ud_recurse d) (ud_refine d) in
    Ok (mkStep (push_task c (ScanDir t)) s [] 0)
  else Ok (mkStep c s [] 1).

(** The block size of the best file of this name, if it is of the same size. *)
Fixpoint best_block_size (s : stack_context) (infos : list folder_info) (name : bytes) (size : Z) : res Z :=
  match infos with
  | [] => Ok 0
  | fi :: infos =>
      let* o := file_by_name cluster_of fi name in
      match o with
      | None => best_block_size s infos name size
      | Some (p, _) =>
          let* q := the (ps_of_file (sc_view s) !! p) in
          let* x := presence_at (sc_view s) q in
          let* e := entity_at (sc_view s) (pn_entity x) in
          match en_best e with
          | None => best_block_size s infos name size
          | Some b =>
              let* features := features_of s b in
              if has features F_cluster then
                let* '(_, f) := file_of s b in
                let* sz := FileInfo.get_size f (cl_heap cluster_of) in
                if is_file f && (u64 sz =? size) then FileInfo.get_block_size f (cl_heap cluster_of)
                else best_block_size s infos name size
              else best_block_size s infos name size
          end
      end
  end.

Definition add_hash (s : stack_context) (h : hash_base) : stack_context * positive :=
  let p := fresh (dom (sc_hashes s)) in (put_hash s p h, p).

Definition process_unexamined (c : folder_context) (s : stack_context) (i : child_info) (recurse recurse_children refine : bool) : res step :=
  let* fo := folder_of c in
  let* fi := local_info c in
  let* file := fetch_model cluster_of (folder_path fo) fi i in
  let known := match file with Some _ => true | None => false end in
  match ci_type i with
  | DIRECTORY =>
      let ready := if same_path (ci_path i) (folder_path fo) then [] else [ChildReady i []] in
      let scan := if recurse || negb known
                  then [UnscannedDir (mkUnscanned (ci_path i) (ci_self i) [] (ci_generation i) recurse_children refine)] else [] in
      Ok (mkStep c s (scan ++ ready) 1)
  | SYMLINK => Ok (mkStep c s [ChildReady i []] 1)
  | FILE =>
      let '(s, young) :=
        if is_temporal (ci_path i) then let '(s, now) := get_now s in (s, now - ci_time i <? tmp_min_age) else (s, false) in
      if young then Ok (mkStep c s [] 1)
      else if (ci_size i =? 0) || known then Ok (mkStep c s [ChildReady i []] 1)
      else
        match fx_hashing_files c !! ci_path i with
        | Some _ => Ok (mkStep c s [] 1)
        | None =>
            let* block_size := best_block_size s (fo_infos fo) (relativize (ci_path i) (folder_path fo)) (ci_size i) in
            let* h := new_hash i block_size in
            let '(s, p) := add_hash s h in
            Ok (mkStep c s [HashNew p] 1)
        end
  | _ => Ub
  end.

(** Everything below is dropped but the last item. *)
Definition process_suspend (c : folder_context) (s : stack_context) (ec : Z) : res step :=
  let* fo := folder_of c in
  let* s := push_diff s (leaf (SuspendFolder (fd_id (fo_data fo)) true (Some ec))) in
  Ok (mkStep (with_stack c (option_list (last (fx_stack c)))) s [] 1).

Definition process_unsuspend (c : folder_context) (s : stack_context) : res step :=
  let* fo := folder_of c in
  let* s := push_diff s (leaf (SuspendFolder (fd_id (fo_data fo)) false None)) in
  Ok (mkStep c s [] 1).

(** Is the file as the model has it? *)
Definition matches_model (c : folder_context) (i : child_info) (f : file_info) : res bool :=
  let modification_match := match ci_type i with SYMLINK | DIRECTORY => true | _ => ci_time i =? f_modified_s f end in
  if modification_match && bool_decide (ci_type i = as_type (f_flags f)) &&
     ((fx_ignore_permissions c || has_no_permissions f) || (ci_perms i =? f_permissions f)) then
    match ci_type i with
    | SYMLINK => let* t := get_link_target f in Ok (bool_decide (t = ci_link_target i))
    | _ => let* sz := FileInfo.get_size f (cl_heap cluster_of) in Ok (u64 sz =? ci_size i)
    end
  else Ok false.

Inductive verdict := Nothing | EmitHashing | EmitUpdate | EmitAvailability (f : file_info).

Definition judge_child (c : folder_context) (i : child_info) (blocks : list BlockInfo) (file : option (file_ptr * file_info)) : res verdict :=
  let emit := if negb (ci_size i =? 0) && bool_decide (blocks = []) then EmitHashing else EmitUpdate in
  match file with
  | None => Ok emit
  | Some (_, f) =>
      if is_deleted f then Ok emit
      else
        let* same := matches_model c i f in
        Ok (if same then if is_local f then Nothing else EmitAvailability f else emit)
  end.

Definition process_child_ready (c : folder_context) (s : stack_context) (i : child_info) (blocks : list BlockInfo) : res step :=
  let* fo := folder_of c in
  let* fi := local_info c in
  let* file := fetch_model cluster_of (folder_path fo) fi i in
  let* v := judge_child c i blocks file in
  match v with
  | Nothing => Ok (mkStep c s [] 1)
  | EmitAvailability f => let* s := push_diff s (availability fo f) in Ok (mkStep c s [] 1)
  | EmitHashing =>
      let* h := new_hash i 0 in
      let '(s, p) := add_hash s h in
      Ok (mkStep c s [HashExisting p] 1)
  | EmitUpdate =>
      let* f := serialize_child i (folder_path fo) blocks (fx_ignore_permissions c) in
      let* s := push_update s f (fd_id (fo_data fo)) in
      Ok (mkStep c s [] 1)
  end.

(** The first [child_ready_t] of this path goes. *)
Fixpoint drop_ready (path : bytes) (l : list stack_item) : list stack_item :=
  match l with
  | [] => []
  | ChildReady i b :: l => if same_path (ci_path i) path then l else ChildReady i b :: drop_ready path l
  | x :: l => x :: drop_ready path l
  end.

Definition process_undo (c : folder_context) (s : stack_context) (path : bytes) : res step :=
  Ok (mkStep (with_stack c (drop_ready path (fx_stack c))) s [] 1).

(** [schedule_hash]. *)
Definition schedule_hash (c : folder_context) (s : stack_context) (p : positive) : res step :=
  let* h := the (sc_hashes s !! p) in
  if negb (hb_errored h =? 0) then Ok (mkStep c s [] 1)
  else if sc_pool s =? 0 then Ok (mkStep c s [] (-1))
  else
    let first_block := hb_total h - hb_unprocessed h in
    let max_blocks := Z.min (sc_pool s) (hb_unprocessed h) in
    let last_block_sz :=
      if (hb_unprocessed h =? max_blocks) && (1 <? hb_total h)
      then i32 (ci_size (hb_info h) - hb_block_size h * (hb_total h - 1)) else hb_block_size h in
    let* _ := assert (0 <? last_block_sz) in
    let* _ := assert (0 <? max_blocks) in
    let t := mkSegment (mkHashContext (sc_slave s) this p) (ci_path (hb_info h)) (first_block * hb_block_size h) first_block max_blocks
               (hb_block_size h) last_block_sz (ci_time (hb_info h)) None 0 in
    let left := hb_unprocessed h - max_blocks in
    let s := put_hash (with_pool s (sc_pool s - max_blocks)) p (with_unprocessed h left) in
    Ok (mkStep (push_task c (Segment t)) s [] (if left =? 0 then 0 else -1)).

(** The children of a presence that are local, before those that are queued. *)
Fixpoint local_only (s : stack_context) (l : list positive) : res (list positive) :=
  match l with
  | [] => Ok []
  | c :: l =>
      let* f := features_of s c in
      let* rest := local_only s l in
      Ok (if has f F_local then c :: rest else rest)
  end.

(** The loop of [removed_dir_t]: children before their directory. *)
Fixpoint remove_loop (fuel : nat) (folder_id : bytes) (s : stack_context) (queue : list positive) (processed : gset positive) : res stack_context :=
  match fuel, queue with
  | _, [] => Ok s
  | O, _ :: _ => Ub
  | S fuel, item :: rest =>
      let* f := features_of s item in
      let* '(s, children, processed) :=
        if has f (Z.lor F_local F_directory) then
          if bool_decide (item ∈ processed) then Ok (s, [], processed ∖ {[ item ]})
          else
            let* '(s, l) := children_of s item in
            Ok (s, l, if bool_decide (l = []) then processed else processed ∪ {[ item ]})
        else Ok (s, [], processed) in
      if bool_decide (children = []) then
        let* '(_, file) := file_of s item in
        let* data := file_as_proto empty_digest file (cl_heap cluster_of) false in
        let* s := push_update s (delete_proto data) folder_id in
        remove_loop fuel folder_id s rest processed
      else
        let* l := local_only s children in
        remove_loop fuel folder_id s (l ++ queue) processed
  end.

(** Every presence is met twice at most. *)
Definition remove_fuel (s : stack_context) : nat := 2 * size (ps_presences (sc_view s)) + 1.

Definition process_removed_dir (c : folder_context) (s : stack_context) (presence : positive) : res step :=
  let* fo := folder_of c in
  let* s := remove_loop (remove_fuel s) (fd_id (fo_data fo)) s [presence] ∅ in
  Ok (mkStep c s [] 1).

Fixpoint confirm_children (fo : folder) (s : stack_context) (l : list positive) : res (stack_context * list stack_item) :=
  match l with
  | [] => Ok (s, [])
  | p :: l =>
      let* f := features_of s p in
      if has f F_local then
        if has f F_directory then let* '(s, dirs) := confirm_children fo s l in Ok (s, ConfirmedDeleted p :: dirs)
        else
          let* '(_, file) := file_of s p in
          let* s := push_diff s (availability fo file) in
          confirm_children fo s l
      else confirm_children fo s l
  end.

Definition process_confirmed_deleted (c : folder_context) (s : stack_context) (presence : positive) : res step :=
  let* fo := folder_of c in
  let* '(_, dir) := file_of s presence in
  let* s := push_diff s (availability fo dir) in
  let* '(s, l) := children_of s presence in
  let* '(s, dirs) := confirm_children fo s l in
  Ok (mkStep c s dirs 1).

(** *** Temporary files *)

(** The best presence of the name without the suffix, if it is not one of this device. *)
Definition candidate (s : stack_context) (i : child_info) : res (option positive) :=
  match ci_parent i with
  | None => Ok None
  | Some parent =>
      let* x := presence_at (sc_view s) parent in
      let* e := entity_at (sc_view s) (pn_entity x) in
      let* o := child_named (sc_view s) (stem (ci_path i)) (en_children e) in
      match o with
      | None => Ok None
      | Some c =>
          let* ce := entity_at (sc_view s) c in
          match en_best ce with
          | None => Ok None
          | Some b =>
              let* y := presence_at (sc_view s) b in
              Ok (if bool_decide (pn_device y = Some (self_sha m)) then None else Some b)
          end
      end
  end.

(** The local file of an entity. *)
Definition local_file_of (s : stack_context) (presence : positive) : res (option file_info) :=
  let* x := presence_at (sc_view s) presence in
  let* o := get_presence (sc_view s) (pn_entity x) (self_sha m) in
  let* p := the o in
  let* features := features_of s p in
  if has features F_cluster then let* '(_, f) := file_of s p in Ok (Some f) else Ok None.

Inductive temporary_fate := Leave | Remove | Rehash (presence : positive) (f : file_info) (action : advance_action).

Definition judge_temporary (c : folder_context) (s : stack_context) (i : child_info) : res temporary_fate :=
  let* o := candidate s i in
  match o with
  | None => Ok Remove
  | Some b =>
      let* '(p, f) := file_of s b in
      let* sz := FileInfo.get_size f (cl_heap cluster_of) in
      if negb (u64 sz =? ci_size i) then Ok Remove
      else if is_synchronizing f then Ok Leave
      else
        let* fo := folder_of c in
        let* fi := local_info c in
        let* local := local_file_of s b in
        let* action := resolve local_zone p f local (view_of cluster_of fo fi (f_name f)) in
        Ok (if bool_decide (action = ignore) then Remove else Rehash b f action)
  end.

Definition process_incomplete (c : folder_context) (s : stack_context) (i : child_info) : res step :=
  let '(s, now) := get_now s in
  if now - ci_time i <? tmp_min_age then Ok (mkStep c s [] 1)
  else
    let* fate := judge_temporary c s i in
    match fate with
    | Leave => Ok (mkStep c s [] 1)
    | Remove => Ok (mkStep (push_task c (RemoveFile (ci_path i) None)) s [] 1)
    | Rehash b f action =>
        let* h := new_hash_incomplete cluster_of i b f action in
        let '(s, p) := add_hash s h in
        Ok (mkStep c s [HashIncomplete p] 1)
    end.

(** Which blocks of a rehashed file are those of the peer's. *)
Fixpoint valid_blocks (slots : list slot) (blocks : list BlockInfo) : res (list bool) :=
  match slots, blocks with
  | s :: slots, b :: blocks =>
      let* x := deref_slot (cl_heap cluster_of) s in
      let* rest := valid_blocks slots blocks in
      Ok (bool_decide (b_hash x = pb_hash b) :: rest)
  | _, _ => Ok []
  end.

(** The name a complete file gets; for the one of a conflict, the name is made of the peer's file. *)
Definition final_name (s : stack_context) (presence : positive) (f : file_info) (action : advance_action) : res bytes :=
  if bool_decide (action = remote_copy) then let* p := make_path (f_name f) in Ok (get_own_name p)
  else
    let* _ := assert (bool_decide (action = resolve_remote_win)) in
    let* x := presence_at (sc_view s) presence in
    let* o := get_presence (sc_view s) (pn_entity x) (self_sha m) in
    let* p := the o in
    let* features := features_of s p in
    let* _ := assert (has features F_cluster) in
    Ok (filename (make_conflicting_name local_zone f)).

Definition process_rehashed (c : folder_context) (s : stack_context) (r : rehashed) : res step :=
  let i := rh_info r in
  let* presence := the (ci_self i) in
  let* '(_, f) := file_of s presence in
  let* slots := all_slots f in
  let removal := mkStep (push_task c (RemoveFile (ci_path i) None)) s [] 1 in
  if negb (length slots =? length (rh_blocks r))%nat then Ok removal
  else
    let* valid := valid_blocks slots (rh_blocks r) in
    if forallb id valid then
      let* name := final_name s presence f (rh_action r) in
      Ok (mkStep (push_task c (RenameFile (ci_path i) name (f_modified_s f) r None)) s [] 1)
    else if existsb id valid then
      let* _ := get_folder (sc_view s) presence in
      let* x := presence_at (sc_view s) presence in
      let* device := the (pn_device x) in
      let* available := is_locally_available f in
      let* _ := assert (negb available) in
      let* s := push_diff s (leaf (BlocksAvailability (fx_folder_id c) device (f_name f) valid)) in
      Ok (mkStep c s [] 1)
    else Ok removal.

(** [begin()++] is the item itself: it is erased here and, unless it was the last one, once more by [process_stack]. *)
Definition process_abort (c : folder_context) (s : stack_context) : res step :=
  if bool_decide (fx_stack c = []) then Ok (mkStep c s [] 1) else Ub.

Definition process_item (c : folder_context) (s : stack_context) (i : stack_item) : res step :=
  match i with
  | UnscannedDir d => process_unscanned c s d
  | Unexamined i recurse recurse_children refine => process_unexamined c s i recurse recurse_children refine
  | Incomplete i => process_incomplete c s i
  | CompleteScan _ => process_complete_scan c s
  | ChildReady i blocks => process_child_ready c s i blocks
  | UndoChildReady path => process_undo c s path
  | HashNew p | HashExisting p | HashIncomplete p => schedule_hash c s p
  | RehashedIncomplete r => process_rehashed c s r
  | AbortHashing _ => process_abort c s
  | RemovedDir p => process_removed_dir c s p
  | ConfirmedDeleted p => process_confirmed_deleted c s p
  | SuspendScan ec => process_suspend c s ec
  | UnsuspendScan => process_unsuspend c s
  end.

(** [process_stack]: ends with the stack, at an item that waits, or when many changes have gathered; [None] when the fuel does not
    suffice. *)
Fixpoint stack_loop (fuel : nat) (c : folder_context) (s : stack_context) : option (res (folder_context * stack_context)) :=
  match fx_stack c with
  | [] => Some (Ok (c, s))
  | i :: rest =>
      match fuel with
      | O => None
      | S fuel =>
          match process_item (with_stack c rest) s i with
          | Ok st =>
              let below := fx_stack (sp_folder st) in
              let c := with_stack (sp_folder st) (sp_pushed st ++ if sp_answer st <? 0 then i :: below else below) in
              let s := sp_stack st in
              if 0 <? sp_answer st then
                if is_overused (sc_diffs s) && negb (bool_decide (fx_stack c = [])) && has_no_tasks c then Some (Ok (push_task c Noop, s))
                else stack_loop fuel c s
              else Some (Ok (c, s))
          | Err e => Some (Err e)
          | Ub => Some Ub
          end
      end
  end.

(** How many items may come of one: a directory, the scan of it and the file itself; a directory that is gone, all that is below. *)
Definition item_weight (s : stack_context) (i : stack_item) : nat :=
  match i with
  | Unexamined _ _ _ _ => 4
  | ChildReady _ _ => 2
  | Incomplete _ => 2
  | ConfirmedDeleted _ => S (size (ps_presences (sc_view s)))
  | _ => 1
  end.

Definition stack_fuel (c : folder_context) (s : stack_context) : nat := sum_list (item_weight s <$> fx_stack c).

Definition process_stack (c : folder_context) (s : stack_context) : res (folder_context * stack_context * bool) :=
  let* '(c, s) := match stack_loop (stack_fuel c s) c s with Some r => r | None => Ub end in
  Ok (c, s, negb (has_no_tasks c)).

(** ** What comes back from the file system *)

(** [ensure_folder_existance]. *)
Definition ensure_folder_existance (c : folder_context) : folder_context * bool :=
  match folder_by_id (folders_of m) (fx_folder_id c) with
  | Some _ => (c, true)
  | None => (with_pending (with_stack c []) [], false)
  end.

(** The loop of [handle_scan_error] over the presences, breadth first. *)
Fixpoint unreachable_loop (fuel : nat) (c : folder_context) (s : stack_context) (queue : list positive) : res stack_context :=
  match fuel, queue with
  | _, [] => Ok s
  | O, _ :: _ => Ub
  | S fuel, p :: queue =>
      let* '(_, f) := file_of s p in
      let* s := push_diff s (unreachable c f) in
      let* '(s, l) := children_of s p in
      let* l := local_only s l in
      unreachable_loop fuel c s (queue ++ l)
  end.

Definition handle_scan_error (c : folder_context) (s : stack_context) (t : scan_task) : res (folder_context * stack_context) :=
  let* s :=
    match sd_presence t with
    | None => Ok s
    | Some p =>
        let* features := features_of s p in
        if has features F_local then unreachable_loop (S (size (ps_presences (sc_view s)))) c s [p] else Ok s
    end in
  Ok (push_item c (UndoChildReady (sd_path t)), s).

(** [presentation::get_child]. *)
Definition child_presence (s : stack_context) (parent : option positive) (name : bytes) (is_dir : bool) : res (stack_context * option positive) :=
  match parent with
  | None => Ok (s, None)
  | Some p => let* '(v, o) := get_child (sc_view s) p name is_dir in Ok (with_view s v, o)
  end.

Definition presence_name (s : stack_context) (p : positive) : res bytes :=
  let* x := presence_at (sc_view s) p in
  let* e := entity_at (sc_view s) (pn_entity x) in
  Ok (own_name e).

(** The entries of the directory are put on the stack; the names the folder knows are noted. *)
Fixpoint stack_entries (c : folder_context) (s : stack_context) (t : scan_task) (l : list dir_child) (checked : gset bytes)
    : res (folder_context * stack_context * gset bytes) :=
  match l with
  | [] => Ok (c, s, checked)
  | x :: l =>
      let name := filename (dc_path x) in
      if negb (utf8_valid name) then stack_entries c s t l checked
      else
        let* '(s, presence) := child_presence s (sd_presence t) name (is_dir_child x) in
        let* checked :=
          match presence with Some p => let* n := presence_name s p in Ok (checked ∪ {[ n ]}) | None => Ok checked end in
        match dc_ec x with
        | Some _ => stack_entries c s t l checked
        | None =>
            let* i := child_of_dir x presence (sd_presence t) (fx_io_generation c) in
            let item := if is_temporal (dc_path x) then Incomplete i else Unexamined i (sd_recurse t) (sd_recurse t) (sd_refine t) in
            stack_entries (push_item c item) s t l checked
        end
  end.

(** The local files of the directory that were not found in it. *)
Fixpoint check_missing (folder_id : bytes) (s : stack_context) (t : scan_task) (l : list positive) (checked : gset bytes) (dirs : list stack_item)
    : res (stack_context * gset bytes * list stack_item) :=
  match l with
  | [] => Ok (s, checked, dirs)
  | p :: l =>
      let* features := features_of s p in
      let* name := presence_name s p in
      if negb (has features F_local) || bool_decide (name ∈ checked) then check_missing folder_id s t l checked dirs
      else
        let checked := checked ∪ {[ name ]} in
        if negb (bool_decide (sd_single_child t = [])) && negb (bool_decide (sd_single_child t = name)) then
          check_missing folder_id s t l checked dirs
        else if has features F_deleted then check_missing folder_id s t l checked (dirs ++ [ConfirmedDeleted p])
        else if has features F_directory then check_missing folder_id s t l checked (dirs ++ [RemovedDir p])
        else
          let* '(_, f) := file_of s p in
          let* data := file_as_proto empty_digest f (cl_heap cluster_of) false in
          let* s := push_update s (delete_proto data) folder_id in
          check_missing folder_id s t l checked dirs
  end.

(** The entities of the directory that are unknown here and deleted elsewhere. *)
Fixpoint deleted_entities (s : stack_context) (l : list positive) (checked : gset bytes) : res (list positive) :=
  match l with
  | [] => Ok []
  | e :: l =>
      let* x := entity_at (sc_view s) e in
      let* rest := deleted_entities s l checked in
      if bool_decide (own_name x ∈ checked) then Ok rest
      else
        let* b := the (en_best x) in
        let* features := features_of s b in
        Ok (if has features F_deleted then e :: rest else rest)
  end.

(** The loop that takes them over: the first of the queue is looked at, the last is removed. *)
Fixpoint import_deleted (fuel : nat) (folder_id : bytes) (s : stack_context) (queue : list positive) : option (res stack_context) :=
  match queue with
  | [] => Some (Ok s)
  | e :: _ =>
      match fuel with
      | O => None
      | S fuel =>
          let r :=
            let* x := entity_at (sc_view s) e in
            let* b := the (en_best x) in
            let* '(_, f) := file_of s b in
            let* data := file_as_proto empty_digest f (cl_heap cluster_of) true in
            let* s := push_update s data folder_id in
            let* features := features_of s b in
            Ok (s, if has features F_directory && has features F_deleted then en_children x else []) in
          match r with
          | Ok (s, l) => import_deleted fuel folder_id s (removelast queue ++ l)
          | Err err => Some (Err err)
          | Ub => Some Ub
          end
      end
  end.

(** The [child_ready_t] that was on top comes before what was pushed. *)
Definition raise_ready (before : list stack_item) (l : list stack_item) : list stack_item :=
  match before with
  | ChildReady i b :: rest => ChildReady i b :: take (length l - length before) l ++ rest
  | _ => l
  end.

(** Enough for every queue the loop comes to an end with: twice the number of entities. *)
Definition import_fuel (s : stack_context) : nat := 2 * size (ps_entities (sc_view s)) + 1.

(** What was found: the entries, then what is missing, then what is deleted elsewhere. *)
Definition compare_directory (c : folder_context) (s : stack_context) (folder_id : bytes) (t : scan_task) : res (folder_context * stack_context) :=
  let* '(c, s, checked) := stack_entries c s t (sd_children t) ∅ in
  match sd_presence t with
  | None => Ok (c, s)
  | Some p =>
      let* '(s, l) := children_of s p in
      let* '(s, checked, dirs) := check_missing folder_id s t l checked [] in
      let* x := presence_at (sc_view s) p in
      let* e := entity_at (sc_view s) (pn_entity x) in
      let* queue := deleted_entities s (en_children e) checked in
      let* s := match import_deleted (import_fuel s) folder_id s queue with Some r => r | None => Ub end in
      Ok (with_stack c (dirs ++ fx_stack c), s)
  end.

(** The directory itself cannot be read: when a single child of it was looked for, its parent is scanned for it. *)
Definition scan_failed (c : folder_context) (s : stack_context) (t : scan_task) (e : Z) : res (folder_context * stack_context) :=
  if bool_decide (sd_single_child t = []) || negb (e =? ENOENT) then handle_scan_error c s t
  else
    let* p := the (sd_presence t) in
    let* '(_, f) := file_of s p in
    let* x := presence_at (sc_view s) p in
    let* pa := make_path (f_name f) in
    Ok (push_task c (ScanDir (new_scan (parent_path (sd_path t)) (pn_parent x) (get_own_name pa) false false false)), s).

Definition post_scan (c : folder_context) (s : stack_context) (t : scan_task) : res (folder_context * stack_context) :=
  let g := u64 (fx_io_generation c + 1) in
  let c := with_generation c g (<[sd_path t := g]> (fx_scan_generation c)) in
  let* fo := folder_of c in
  let is_root := same_path (sd_path t) (folder_path fo) && bool_decide (sd_single_child t = []) in
  match is_root, sd_ec t with
  | true, Some e => Ok (push_item c (SuspendScan e), s)
  | false, Some e => scan_failed c s t e
  | _, None =>
      let c := if is_root && fo_suspended fo then push_item c UnsuspendScan else c in
      let before := fx_stack c in
      let* '(c, s) := compare_directory c s (fd_id (fo_data fo)) t in
      Ok (with_stack c (raise_ready before (fx_stack c)), s)
  end.

(** One block of a file less is being hashed. *)
Definition forget_hashing (files : gmap bytes Z) (path : bytes) (n : Z) : res (gmap bytes Z) :=
  let* k := the (files !! path) in
  Ok (if k - n =? 0 then delete path files else <[path := k - n]> files).

Definition post_segment (c : folder_context) (s : stack_context) (t : segment) : res (folder_context * stack_context) :=
  let c := with_generation c (u64 (fx_io_generation c + 1)) (fx_scan_generation c) in
  match sg_ec t with
  | None => Ok (c, s)
  | Some _ =>
      let delta := sg_block_count t - sg_current_block t in
      let s := with_pool s (sc_pool s + delta) in
      let* h := the (sc_hashes s !! hc_file (sg_context t)) in
      let* files := forget_hashing (fx_hashing_files c) (sg_path t) (sg_block_count t) in
      let c := with_hashing c (fx_hashing c - sg_block_count t) files in
      let '(h, all_failed) := commit_error h delta in
      let s := put_hash s (hc_file (sg_context t)) h in
      if all_failed then
        let* local :=
          match ci_self (hb_info h) with
          | None => Ok None
          | Some p => let* features := features_of s p in Ok (if has features F_local then Some p else None)
          end in
        match local with
        | Some p => let* '(_, f) := file_of s p in let* s := push_diff s (unreachable c f) in Ok (c, s)
        | None => Ok (if hb_incomplete h then push_task c (RemoveFile (sg_path t) None) else c, s)
        end
      else Ok (c, s)
  end.

Definition post_rename (c : folder_context) (s : stack_context) (path : bytes) (item : rehashed) (ec : option Z) : res (folder_context * stack_context) :=
  match ec with
  | Some _ => Ok (push_task c (RemoveFile path None), s)
  | None =>
      let* presence := the (ci_self (rh_info item)) in
      let* '(_, f) := file_of s presence in
      let* _ := get_folder (sc_view s) presence in
      let* x := presence_at (sc_view s) presence in
      let* device := the (pn_device x) in
      let* '(a, sibling, _) :=
        advance_create empty_digest (make_conflicting_name local_zone) cluster_of (self_sha m) (sq_uuid (streams (sc_calls s))) 0
          (rh_action item) f (fx_folder_id c) device in
      let* s := push_diff (count_call s) (leaf (match sibling with None => RemoteCopy a | Some b => RemoteWin a b end)) in
      Ok (c, s)
  end.

Definition post_task (c : folder_context) (s : stack_context) (t : task) : res (folder_context * stack_context) :=
  match t with
  | ScanDir t => post_scan c s t
  | Segment t => post_segment c s t
  | RemoveFile _ _ => Ok (c, s)
  | RenameFile path _ _ item ec => post_rename c s path item ec
  | Noop => Ok (c, s)
  end.

Fixpoint post_tasks (c : folder_context) (s : stack_context) (ts : list task) : res (folder_context * stack_context) :=
  match ts with
  | [] => Ok (c, s)
  | t :: ts => let* '(c, s) := post_task c s t in post_tasks c s ts
  end.

(** [post_process] of the tasks a slave has carried out. *)
Definition post_process (c : folder_context) (s : stack_context) (ts : list task) : res (folder_context * stack_context) :=
  let '(c, there) := ensure_folder_existance c in
  if there then
    let* _ := assert (0 <? fx_in_progress c) in
    post_tasks (with_in_progress c (fx_in_progress c - 1)) s ts
  else Ok (c, s).

(** The block of a digest that has arrived; the product of two 32-bit numbers must be one. *)
Definition note_digest (h : hash_base) (index size : Z) (hash : bytes) : res (list BlockInfo) :=
  let offset := index * hb_block_size h in
  let* _ := assert (bool_decide (i32 offset = offset)) in
  let* _ := assert ((0 <=? index) && (index <? Z.of_nat (length (hb_blocks h)))) in
  Ok (<[Z.to_nat index := mkBlockInfo offset (i32 size) hash]> (hb_blocks h)).

(** [post_process] of a digest; an error is [None]. *)
Definition post_digest (c : folder_context) (s : stack_context) (p : positive) (index size : Z) (result : option bytes)
    : res (folder_context * stack_context) :=
  let '(c, there) := ensure_folder_existance c in
  if negb there then Ok (c, s)
  else
    let* h := the (sc_hashes s !! p) in
    let* _ := assert (0 <? fx_hashing c) in
    let* files := forget_hashing (fx_hashing_files c) (ci_path (hb_info h)) 1 in
    let c := with_hashing c (fx_hashing c - 1) files in
    let* '(errored, blocks) :=
      match result with
      | None => Ok (hb_errored h + 1, hb_blocks h)
      | Some hash => let* blocks := note_digest h index size hash in Ok (hb_errored h, blocks)
      end in
    let unhashed := hb_unhashed h - 1 in
    let finished := unhashed =? 0 in
    let h := mkHash (hb_info h) (hb_block_size h) (hb_total h) (hb_unprocessed h) unhashed errored (if finished then [] else blocks)
               (hb_action h) (hb_incomplete h) in
    let c :=
      if finished then
        push_item c (if negb (errored =? 0) then AbortHashing (ci_path (hb_info h))
                     else if hb_incomplete h then RehashedIncomplete (mkRehashed (hb_info h) blocks (hb_action h))
                     else ChildReady (hb_info h) blocks)
      else c in
    Ok (c, with_pool (put_hash s p h) (sc_pool s + 1)).

(** [pop_task]. *)
Definition pop_task (c : folder_context) : res (folder_context * task) :=
  match fx_pending c with
  | [] => Ub
  | t :: rest =>
      let c := with_pending c rest in
      let c :=
        match t with
        | Segment t =>
            with_hashing c (fx_hashing c + sg_block_count t)
              (<[sg_path t := default 0 (fx_hashing_files c !! sg_path t) + sg_block_count t]> (fx_hashing_files c))
        | _ => c
        end in
      Ok (with_in_progress c (fx_in_progress c + 1), t)
  end.

(** ** Making a context *)

Definition new_folder_context (folder_id : bytes) (stack : list stack_item) (initial_path : bytes) : res folder_context :=
  let* fo := the (folder_by_id (folders_of m) folder_id) in
  Ok (mkFolderContext folder_id stack [] (fd_ignore_permissions (fo_data fo) || negb (permissions_supported initial_path)) 0 0 0 ∅ ∅).

(** The walk to the start directory. *)
Fixpoint descend (v : presentation) (p : positive) (names : list bytes) : res (presentation * option positive) :=
  match names with
  | [] => Ok (v, Some p)
  | name :: names =>
      let* '(v, o) := get_child v p name true in
      match o with Some q => descend v q names | None => Ok (v, None) end
  end.

(** Up to the first parent that is not deleted: it, and what is below it on the way. *)
Fixpoint climb (fuel : nat) (v : presentation) (p : positive) (parent : option positive) : res (positive * option positive) :=
  match fuel with
  | O => Ub
  | S fuel =>
      match parent with
      | None => Ok (p, None)
      | Some q =>
          let* x := presence_at v q in
          if has (pn_features x) F_deleted then climb fuel v q (pn_parent x) else Ok (p, Some q)
      end
  end.

(** [make_context] of a scan; the path is moved away before the context is made with it. *)
Definition make_context (v : presentation) (folder_id start_subdir : bytes) (recurse : bool) : res (presentation * option folder_context) :=
  let* fo := the (folder_by_id (folders_of m) folder_id) in
  let* root_entity := the (ps_of_folder v !! folder_id) in
  let* o := get_presence v root_entity (self_sha m) in
  let* root := the o in
  let* '(v, o) := descend v root (filename <$> path_elements start_subdir) in
  match o with
  | None => Ok (v, None)
  | Some presence =>
      let* '(path, child, presence) :=
        if bool_decide (presence = root) then Ok (folder_path fo, [], presence)
        else
          let* x := presence_at v presence in
          let* '(presence, parent) := climb (S (size (ps_presences v))) v presence (pn_parent x) in
          let* parent := the parent in
          let* path :=
            if bool_decide (parent = root) then Ok (folder_path fo)
            else let* '(_, f) := file_of_presence m v parent in Ok (path_append (folder_path fo) (f_name f)) in
          let* x := presence_at v presence in
          let* e := entity_at v (pn_entity x) in
          Ok (path, own_name e, parent) in
      let stack := [UnscannedDir (mkUnscanned path (Some presence) child 0 recurse false); CompleteScan (negb (bool_decide (child = [])))] in
      let* c := new_folder_context folder_id stack [] in
      Ok (v, Some c)
  end.
End context.

(** [consume], [adjust_generation]. *)
Definition consume_context (c previous : folder_context) : folder_context :=
  with_generation c (fx_io_generation previous) (fx_scan_generation previous).

Definition adjust_item (generation : Z) (i : stack_item) : stack_item :=
  match i with
  | Unexamined c recurse recurse_children refine =>
      Unexamined (mkChild (ci_path c) (ci_link_target c) (ci_time c) (ci_size c) (ci_type c) (ci_perms c) (ci_self c) (ci_parent c) generation)
        recurse recurse_children refine
  | i => i
  end.

Definition adjust_generation (c : folder_context) (generation : Z) : folder_context :=
  with_stack c (adjust_item generation <$> fx_stack c).
