(* ===== verification/LocalKeeper.v ===== *)
(** * LocalKeeper: [src/net/local_keeper.cpp] and [local_keeper/folder_slave.cpp]: the actor that finds out what has changed on the
    disk, by scanning folders and by following the events of the watcher. *)

From S2P Require Import Prelude Diff Version Proto DeviceId Device Path Blocks FileInfo FileStore FileMap GenericMap Folder.
From S2P Require Import Resolver BlockMap UpdateFolder FileIterator Advance Cluster Changes Trees ClusterUpdate Controller.
From S2P Require Import Watcher Disk FileIo FileActor Presence Tasks FolderContext.

(** ** [folder_slave_t] *)

(** The contexts it works off, one after the other, and the tasks for the file system. *)
Record folder_slave := mkSlave {
  sv_contexts : list positive;
  sv_tasks_in : list task;
}.

(** What leaves the actor. *)
Inductive keeper_effect :=
| SendSlave (slave : positive) (tasks : list task)
| SendChanges (changes : diff op)
| MakeDir (path folder_id : bytes)
| WatchFolder (path folder_id : bytes)
| UnwatchFolder (folder_id : bytes)
| LocalUp
| LockFs
| UnlockFs
| LockWatcher
| UnlockWatcher.

(** The actor: the addresses it has found, whether it is operational; slaves, contexts and files being hashed are objects that are
    shared with messages under way. *)
Record keeper := mkKeeper {
  lk_cluster : bool;
  lk_fs_addr : bool;
  lk_watcher_addr : bool;
  lk_operational : bool;
  lk_hashes_left : Z;
  lk_fs_tasks : Z;
  lk_delayed : list positive;
  lk_just_created : gset bytes;
  lk_started_watching : bool;
  lk_local_ready : bool;
  lk_watched : gset bytes;
  lk_slaves : gmap positive folder_slave;
  lk_contexts : gmap positive folder_context;
  lk_hashes : gmap positive hash_base;
  lk_view : presentation;
  lk_calls : nat;
  lk_out : list keeper_effect;
}.

Definition emit (k : keeper) (e : keeper_effect) : keeper :=
  mkKeeper (lk_cluster k) (lk_fs_addr k) (lk_watcher_addr k) (lk_operational k) (lk_hashes_left k) (lk_fs_tasks k) (lk_delayed k)
    (lk_just_created k) (lk_started_watching k) (lk_local_ready k) (lk_watched k) (lk_slaves k) (lk_contexts k) (lk_hashes k)
    (lk_view k) (lk_calls k) (lk_out k ++ [e]).
Definition set_fs_tasks (k : keeper) (n : Z) : keeper :=
  mkKeeper (lk_cluster k) (lk_fs_addr k) (lk_watcher_addr k) (lk_operational k) (lk_hashes_left k) n (lk_delayed k)
    (lk_just_created k) (lk_started_watching k) (lk_local_ready k) (lk_watched k) (lk_slaves k) (lk_contexts k) (lk_hashes k)
    (lk_view k) (lk_calls k) (lk_out k).
Definition set_delayed (k : keeper) (l : list positive) : keeper :=
  mkKeeper (lk_cluster k) (lk_fs_addr k) (lk_watcher_addr k) (lk_operational k) (lk_hashes_left k) (lk_fs_tasks k) l
    (lk_just_created k) (lk_started_watching k) (lk_local_ready k) (lk_watched k) (lk_slaves k) (lk_contexts k) (lk_hashes k)
    (lk_view k) (lk_calls k) (lk_out k).
Definition set_just_created (k : keeper) (x : gset bytes) : keeper :=
  mkKeeper (lk_cluster k) (lk_fs_addr k) (lk_watcher_addr k) (lk_operational k) (lk_hashes_left k) (lk_fs_tasks k) (lk_delayed k)
    x (lk_started_watching k) (lk_local_ready k) (lk_watched k) (lk_slaves k) (lk_contexts k) (lk_hashes k)
    (lk_view k) (lk_calls k) (lk_out k).
Definition set_flags (k : keeper) (has_cluster started local_ready : bool) : keeper :=
  mkKeeper has_cluster (lk_fs_addr k) (lk_watcher_addr k) (lk_operational k) (lk_hashes_left k) (lk_fs_tasks k) (lk_delayed k)
    (lk_just_created k) started local_ready (lk_watched k) (lk_slaves k) (lk_contexts k) (lk_hashes k)
    (lk_view k) (lk_calls k) (lk_out k).
Definition set_watched (k : keeper) (x : gset bytes) : keeper :=
  mkKeeper (lk_cluster k) (lk_fs_addr k) (lk_watcher_addr k) (lk_operational k) (lk_hashes_left k) (lk_fs_tasks k) (lk_delayed k)
    (lk_just_created k) (lk_started_watching k) (lk_local_ready k) x (lk_slaves k) (lk_contexts k) (lk_hashes k)
    (lk_view k) (lk_calls k) (lk_out k).
Definition set_slave (k : keeper) (p : positive) (x : folder_slave) : keeper :=
  mkKeeper (lk_cluster k) (lk_fs_addr k) (lk_watcher_addr k) (lk_operational k) (lk_hashes_left k) (lk_fs_tasks k) (lk_delayed k)
    (lk_just_created k) (lk_started_watching k) (lk_local_ready k) (lk_watched k) (<[p := x]> (lk_slaves k)) (lk_contexts k) (lk_hashes k)
    (lk_view k) (lk_calls k) (lk_out k).
Definition set_contexts (k : keeper) (x : gmap positive folder_context) : keeper :=
  mkKeeper (lk_cluster k) (lk_fs_addr k) (lk_watcher_addr k) (lk_operational k) (lk_hashes_left k) (lk_fs_tasks k) (lk_delayed k)
    (lk_just_created k) (lk_started_watching k) (lk_local_ready k) (lk_watched k) (lk_slaves k) x (lk_hashes k)
    (lk_view k) (lk_calls k) (lk_out k).

(** What a handler takes over from its stack context. *)
Definition take_back (k : keeper) (s : stack_context) : keeper :=
  mkKeeper (lk_cluster k) (lk_fs_addr k) (lk_watcher_addr k) (lk_operational k) (sc_pool s) (lk_fs_tasks k) (lk_delayed k)
    (lk_just_created k) (lk_started_watching k) (lk_local_ready k) (lk_watched k) (lk_slaves k) (lk_contexts k) (sc_hashes s)
    (sc_view s) (sc_calls s) (lk_out k).

(** [lc_context_t]: the contexts that were made, and the names of files that were renamed by the events before. *)
Record lc_context := mkLcContext {
  lc_stack : stack_context;
  lc_new_contexts : list positive;
  lc_name_2_file : list (bytes * file_ptr);
  lc_file_2_name : gmap file_ptr bytes;
}.

Definition with_lc_stack (x : lc_context) (s : stack_context) : lc_context := mkLcContext s (lc_new_contexts x) (lc_name_2_file x) (lc_file_2_name x).

Inductive watcher_impl := no_watcher | inotify | kqueue | other_watcher.

#[export] Instance watcher_impl_eq_dec : EqDecision watcher_impl.
Proof. solve_decision. Defined.

Section keeper.
Context `{Surroundings} (utf8_valid : bytes → bool) (impl : watcher_impl) (m : model) (clock : Z).

Definition watching : bool := negb (bool_decide (impl = no_watcher)).

Definition scan_watches : bool := bool_decide (impl = inotify) || bool_decide (impl = kqueue).

Definition busy (k : keeper) : bool := negb (lk_fs_tasks k =? 0).

(** *** The operations of a slave *)

Definition context_at (k : keeper) (p : positive) : res folder_context := the (lk_contexts k !! p).

Definition put_context (k : keeper) (p : positive) (c : folder_context) : keeper := set_contexts k (<[p := c]> (lk_contexts k)).

(** [folder_slave_t::push]: items that wait to be examined get the generation of the context that is worked off. *)
Fixpoint adjust_contexts (generation : Z) (l : list positive) (k : keeper) : res keeper :=
  match l with
  | [] => Ok k
  | p :: l =>
      let* c := context_at k p in
      adjust_contexts generation l (if generation =? 0 then k else put_context k p (adjust_generation c generation))
  end.

Definition push_contexts (k : keeper) (slave : positive) (l : list positive) : res keeper :=
  let* sv := the (lk_slaves k !! slave) in
  let* generation := match sv_contexts sv with [] => Ok 0 | p :: _ => let* c := context_at k p in Ok (fx_io_generation c) end in
  let* k := adjust_contexts generation l k in
  Ok (set_slave k slave (mkSlave (sv_contexts sv ++ l) (sv_tasks_in sv))).

(** [prepare_task]. *)
Definition prepare_task (k : keeper) (slave : positive) : res keeper :=
  let* sv := the (lk_slaves k !! slave) in
  match sv_contexts sv with
  | [] => Ub
  | p :: _ =>
      let* c := context_at k p in
      let* '(c, t) := pop_task c in
      Ok (set_slave (put_context k p c) slave (mkSlave (sv_contexts sv) (sv_tasks_in sv ++ [t])))
  end.

(** [pop_context]. *)
Definition pop_context (k : keeper) (slave : positive) : res keeper :=
  let* sv := the (lk_slaves k !! slave) in
  let* k :=
    match sv_contexts sv with
    | p :: q :: _ =>
        let* c := context_at k p in
        let* d := context_at k q in
        Ok (put_context k q (consume_context d c))
    | _ => Ok k
    end in
  Ok (set_slave k slave (mkSlave (tail (sv_contexts sv)) (sv_tasks_in sv))).

Definition process_context (k : keeper) (s : stack_context) (p : positive) : res (keeper * stack_context * bool) :=
  let* c := context_at k p in
  let* '(c, s, pending) := process_stack m clock (busy k) scan_watches p c s in
  Ok (put_context k p c, s, pending).

Definition pop_if_done (k : keeper) (slave p : positive) (more : bool) : res (keeper * bool) :=
  let* c := context_at k p in
  if is_done c && more then let* k := pop_context k slave in Ok (k, true) else Ok (k, false).

(** The loop over the contexts: the next one is begun when one is done. *)
Fixpoint work_off (fuel : nat) (k : keeper) (s : stack_context) (slave : positive) (pending : bool) : res (keeper * stack_context * bool) :=
  let* sv := the (lk_slaves k !! slave) in
  match sv_contexts sv with
  | [] => Ok (k, s, pending)
  | p :: _ =>
      if pending then Ok (k, s, pending)
      else
        match fuel with
        | O => Ub
        | S fuel =>
            let* '(k, s, pending) := process_context k s p in
            let* '(k, popped) := pop_if_done k slave p true in
            if popped then work_off fuel k s slave pending else Ok (k, s, pending)
        end
  end.

Definition contexts_of (k : keeper) (slave : positive) : nat :=
  match lk_slaves k !! slave with Some sv => length (sv_contexts sv) | None => 0 end.

(** The first context, and then the others. *)
Definition process_slave (k : keeper) (s : stack_context) (slave : positive) : res (keeper * stack_context * bool) :=
  let* sv := the (lk_slaves k !! slave) in
  let s := with_slave s slave in
  match sv_contexts sv with
  | [] => Ub
  | p :: _ =>
      let* '(k, s, pending) := process_context k s p in
      let* '(k, _) := pop_if_done k slave p (negb pending) in
      work_off (contexts_of k slave) k s slave pending
  end.

(** [post_process] of the tasks that were carried out, which are those of the first context. *)
Definition slave_post_process (k : keeper) (s : stack_context) (slave : positive) (ts : list task) : res (keeper * stack_context * bool) :=
  let* sv := the (lk_slaves k !! slave) in
  let s := with_slave s slave in
  match sv_contexts sv with
  | [] => Ub
  | p :: _ =>
      let* c := context_at k p in
      let* '(c, s) := post_process m clock utf8_valid c s ts in
      process_slave (put_context k p c) s slave
  end.

(** [post_process] of a digest. *)
Definition slave_post_digest (k : keeper) (s : stack_context) (hc : hash_context) (index size : Z) (result : option bytes)
    : res (keeper * stack_context * bool) :=
  let s := with_slave s (hc_slave hc) in
  let* c := context_at k (hc_folder hc) in
  let* '(c, s) := post_digest m c s (hc_file hc) index size result in
  let k := put_context k (hc_folder hc) c in
  work_off (contexts_of k (hc_slave hc)) k s (hc_slave hc) false.

(** *** [lc_context_t] *)

Definition new_stack (k : keeper) : stack_context :=
  mkStackContext (mkAssembler diffs_batch diffs_batch 0 Null None) (lk_hashes_left k) 0 (lk_calls k) 1 (lk_hashes k) (lk_view k).

Definition new_lc (k : keeper) : lc_context := mkLcContext (new_stack k) [] [] ∅.

(** With a slave, the contexts that were delayed are given to it. *)
Definition hand_over_delayed (k : keeper) (slave : positive) : res keeper :=
  match lk_delayed k with
  | [] => Ok k
  | l => let* k := push_contexts k slave l in Ok (set_delayed k [])
  end.

(** Sending a slave to the file system. *)
Definition send_slave (k : keeper) (slave : positive) : res keeper :=
  let* k := prepare_task k slave in
  let* sv := the (lk_slaves k !! slave) in
  let k := set_slave k slave (mkSlave (sv_contexts sv) []) in
  Ok (set_fs_tasks (emit k (SendSlave slave (sv_tasks_in sv))) (lk_fs_tasks k + 1)).

(** [~lc_context_t]: new contexts get a slave if none is at the file system, or else wait. *)
Definition finish (k : keeper) (s : stack_context) (new_contexts : list positive) : res keeper :=
  let* '(k, s) :=
    match new_contexts with
    | [] => Ok (k, s)
    | _ =>
        if busy k then Ok (set_delayed k (lk_delayed k ++ new_contexts), s)
        else
          let slave := fresh (dom (lk_slaves k)) in
          let* k := push_contexts (set_slave k slave (mkSlave [] [])) slave new_contexts in
          let* '(k, s, pending) := process_slave k s slave in
          let* k := if pending then send_slave k slave else Ok k in
          Ok (k, s)
    end in
  let k := if has_diffs (sc_diffs s) then emit k (SendChanges (a_root (sc_diffs s))) else k in
  Ok (take_back k s).

Definition add_context (k : keeper) (c : folder_context) : keeper * positive :=
  let p := fresh (dom (lk_contexts k)) in (put_context k p c, p).

(** ** Messages *)

(** [on_post_process]: a slave comes back with its tasks; [failed] if they were not carried out. *)
Definition on_post_process (k : keeper) (slave : positive) (failed : bool) (ts : list task) : res keeper :=
  let k := set_fs_tasks k (lk_fs_tasks k - 1) in
  let* _ := assert (0 <=? lk_fs_tasks k) in
  if lk_operational k then
    let* k := hand_over_delayed k slave in
    let* '(k, s, pending) := slave_post_process k (new_stack k) slave ts in
    let* k :=
      if pending && (lk_fs_tasks k =? 0) && negb failed then send_slave k slave else Ok k in
    finish k s []
  else Ok k.

(** [on_digest]. *)
Definition on_digest (k : keeper) (hc : hash_context) (index size : Z) (result : option bytes) : res keeper :=
  if lk_operational k then
    let* k := hand_over_delayed k (hc_slave hc) in
    let* '(k, s, pending) := slave_post_digest k (new_stack k) hc index size result in
    let* k := if pending && (lk_fs_tasks k =? 0) then send_slave k (hc_slave hc) else Ok k in
    finish k s []
  else Ok k.

Definition on_create_dir (k : keeper) (folder_id : bytes) (ec : option Z) : keeper :=
  match folder_by_id (folders_of m) folder_id with
  | None => k
  | Some fo =>
      match ec with
      | Some e => emit k (SendChanges (leaf (SuspendFolder folder_id true (Some e))))
      | None => if fd_watched (fo_data fo) && watching then emit k (WatchFolder (folder_path fo) folder_id) else k
      end
  end.

Definition on_watch_dir (k : keeper) (folder_id : bytes) (ec : option Z) : keeper :=
  match ec with Some _ => k | None => set_watched k (lk_watched k ∪ {[ folder_id ]}) end.

Definition on_unwatch_dir (k : keeper) (folder_id : bytes) : keeper := set_watched k (lk_watched k ∖ {[ folder_id ]}).

(** [try_start_watching]. *)
Definition try_start_watching (k : keeper) : keeper :=
  if watching && negb (lk_started_watching k) && lk_cluster k && lk_fs_addr k && lk_watcher_addr k then
    foldl (λ k fo, emit k (WatchFolder (folder_path fo) (fd_id (fo_data fo))))
      (set_flags k (lk_cluster k) true (lk_local_ready k)) (filter (λ fo, fd_watched (fo_data fo) = true) (folders_of m))
  else k.

Definition on_local_ready (k : keeper) : keeper :=
  let k := set_flags k (lk_cluster k) (lk_started_watching k) true in
  let k := if lk_fs_addr k then emit k LockFs else k in
  let k := if lk_watcher_addr k then emit k LockWatcher else k in
  try_start_watching k.

Definition on_thread_ready (k : keeper) (same_thread : bool) : keeper :=
  if same_thread then set_flags k true (lk_started_watching k) (lk_local_ready k) else k.

Definition shutdown_start (k : keeper) : keeper :=
  if lk_local_ready k then
    let k := if lk_fs_addr k then emit k UnlockFs else k in
    if lk_watcher_addr k then emit k UnlockWatcher else k
  else k.

(** ** Changes of the cluster *)

Definition full_path (fo : folder) (name : bytes) : bytes := folder_path fo ++ slash :: name.

Definition visit_local_update (k : keeper) (a : advance) : res keeper :=
  if bool_decide (lk_just_created k = ∅) then Ok k
  else
    let* fo := the (folder_by_id (folders_of m) (av_folder_id a)) in
    Ok (set_just_created k (lk_just_created k ∖ {[ full_path fo (pf_name (av_local a)) ]})).

Definition visit_scan_start (k : keeper) (folder_id sub_dir : bytes) : res keeper :=
  let* fo := the (folder_by_id (folders_of m) folder_id) in
  let paused := fo_suspended fo && match fo_suspend_reason fo with None => true | Some _ => false end in
  if paused || negb (lk_operational k) then Ok k
  else
    let* '(v, o) := make_context m (lk_view k) folder_id sub_dir true in
    let k := take_back k (with_view (new_stack k) v) in
    match o with
    | None => Ok (emit k (SendChanges (leaf (ScanFinish folder_id clock))))
    | Some c => let '(k, p) := add_context k c in finish k (new_stack k) [p]
    end.

(** [is_new]: the change carries the folder info of this device, which every known folder has. *)
Definition visit_upsert_folder (k : keeper) (folder_id : bytes) (is_new : bool) : res keeper :=
  let* fo := the (folder_by_id (folders_of m) folder_id) in
  if is_new then Ok (emit k (MakeDir (folder_path fo) folder_id))
  else if watching then
    let watched := bool_decide (folder_id ∈ lk_watched k) in
    if fd_watched (fo_data fo) then Ok (if watched then k else emit k (WatchFolder (folder_path fo) folder_id))
    else Ok (if watched then emit k (UnwatchFolder folder_id) else k)
  else Ok k.

Definition visit_remove_folder (k : keeper) (folder_id : bytes) : keeper :=
  if watching && bool_decide (folder_id ∈ lk_watched k) then emit k (UnwatchFolder folder_id) else k.

Definition visit_op (o : op) (is_new : bool) (k : keeper) : res keeper :=
  match o with
  | LocalUpdate a => visit_local_update k a
  | ScanStart folder_id sub_dir _ => visit_scan_start k folder_id sub_dir
  | UpsertFolder _ db => visit_upsert_folder k (do_id db) is_new
  | RemoveFolder folder_id _ => Ok (visit_remove_folder k folder_id)
  | _ => Ok k
  end.

(** [visit]. *)
Fixpoint visit_diff (d : diff op) (k : keeper) : res keeper :=
  match d with
  | Null => Ok k
  | Node o child sibling =>
      let* k := visit_op o (match child with Null => false | _ => true end) k in
      let* k := visit_diff child k in
      visit_diff sibling k
  end.

(** ** Events of the watcher *)

(** The [proto::FileInfo] of an event. *)
Definition change_info (c : file_change) : FileInfo :=
  let info type size permissions modified_s deleted target :=
    mkFileInfo (fc_name c) type size permissions modified_s 0 0 deleted false false [] 0 0 [] target in
  match fc_entry c with
  | None => info FILE 0 0 0 true []
  | Some (Regular permissions size modified_s) => info FILE size (u32 permissions) modified_s false []
  | Some (Directory permissions) => info DIRECTORY 0 (u32 permissions) 0 false []
  | Some (Symlink permissions target) => info SYMLINK 0 (u32 permissions) 0 false target
  | Some (OtherType permissions) => info FILE 0 (u32 permissions) 0 false []
  end.

(** The metadata of a file that is deleted are kept. *)
Definition migrate (f : file_info) (i : FileInfo) : FileInfo :=
  mkFileInfo (pf_name i) (as_type (f_flags f)) (pf_size i) (pf_permissions i) (f_modified_s f) (f_modified_ns f) (pf_modified_by i)
    (pf_deleted i) (pf_invalid i) (pf_no_permissions i) (pf_version i) (pf_sequence i) (pf_block_size i) (pf_blocks i) (pf_symlink_target i).

Definition rename_proto (i : FileInfo) (name : bytes) : FileInfo :=
  mkFileInfo name (pf_type i) (pf_size i) (pf_permissions i) (pf_modified_s i) (pf_modified_ns i) (pf_modified_by i)
    (pf_deleted i) (pf_invalid i) (pf_no_permissions i) (pf_version i) (pf_sequence i) (pf_block_size i) (pf_blocks i) (pf_symlink_target i).

(** *** [handle_rename] *)

(** The children of a renamed directory that are there. *)
Fixpoint files_present (s : stack_context) (l : list positive) : res (list file_ptr) :=
  match l with
  | [] => Ok []
  | p :: l =>
      let* f := features_of s p in
      let* rest := files_present s l in
      if negb (has f F_deleted) && negb (has f F_missing) && has f F_local then let* '(q, _) := file_of m s p in Ok (q :: rest)
      else Ok rest
  end.

(** One file gets its new name, and its old one is deleted; the deletions are gathered in reverse order. *)
Definition rename_one (k : keeper) (x : lc_context) (fo : folder) (prev_name new_name : bytes) (deletions : assembler (A := op)) (p : file_ptr)
    : res (keeper * lc_context * assembler (A := op) * list file_ptr) :=
  let* f := file_at (mo_cluster m) p in
  let p_name := default (f_name f) (lc_file_2_name x !! p) in
  let* _ := assert (length prev_name <=? length p_name)%nat in
  let sub_name := new_name ++ drop (length prev_name) p_name in
  let folder_id := fd_id (fo_data fo) in
  let* added := file_as_proto empty_digest f (cl_heap (mo_cluster m)) true in
  let* removed := file_as_proto empty_digest f (cl_heap (mo_cluster m)) false in
  let* '(s, d) := new_update m clock (lc_stack x) (rename_proto added sub_name) folder_id false in
  let* s := push_diff s d in
  let* '(s, d) := new_update m clock s (delete_proto (rename_proto removed p_name)) folder_id true in
  let* '(deletions, _) := push_front deletions d in
  let names := if bool_decide (sub_name ∈ (lc_name_2_file x).*1) then lc_name_2_file x else lc_name_2_file x ++ [(sub_name, p)] in
  let x := mkLcContext s (lc_new_contexts x) names (<[p := sub_name]> (lc_file_2_name x)) in
  if is_dir f then
    let k := set_just_created k (lk_just_created k ∪ {[ full_path fo sub_name ]}) in
    let* q := the (ps_of_file (sc_view s) !! p) in
    let* '(s, l) := children_of s q in
    let* files := files_present s l in
    Ok (k, with_lc_stack x s, deletions, files)
  else Ok (k, x, deletions, []).

Fixpoint rename_loop (fuel : nat) (k : keeper) (x : lc_context) (fo : folder) (prev_name new_name : bytes) (deletions : assembler (A := op))
    (queue : list file_ptr) : res (keeper * lc_context * assembler (A := op)) :=
  match fuel, queue with
  | _, [] => Ok (k, x, deletions)
  | O, _ :: _ => Ub
  | S fuel, p :: queue =>
      let* '(k, x, deletions, files) := rename_one k x fo prev_name new_name deletions p in
      rename_loop fuel k x fo prev_name new_name deletions (queue ++ files)
  end.

(** The file with the old name, or the one that got it before. *)
Definition find_renamed (x : lc_context) (fi : folder_info) (prev_name : bytes) : option file_ptr :=
  match by_name (fi_files fi) prev_name with
  | Some p => Some p
  | None => snd <$> head (filter (λ n, n.1 = prev_name) (lc_name_2_file x))
  end.

Definition handle_rename (k : keeper) (x : lc_context) (fo : folder) (fi : folder_info) (prev_name new_name : bytes) : res (keeper * lc_context) :=
  match find_renamed x fi prev_name with
  | None => Ok (k, x)
  | Some p =>
      let fuel := S (size (ps_presences (sc_view (lc_stack x)))) in
      let* '(k, x, deletions) := rename_loop fuel k x fo prev_name new_name (mkAssembler diffs_batch diffs_batch 0 Null None) [p] in
      if has_diffs deletions then
        let* s := push_diff (lc_stack x) (a_root deletions) in Ok (k, with_lc_stack x s)
      else Ok (k, x)
  end.

(** *** [on_changes] *)

(** [immediate_update]. *)
Definition immediate_update (k : keeper) (x : lc_context) (fo : folder) (fi : folder_info) (c : file_change) : res (keeper * lc_context) :=
  let i := change_info c in
  let* o := file_by_name (mo_cluster m) fi (fc_name c) in
  let* '(i, update) :=
    match o with
    | None => Ok (i, true)
    | Some (_, f) =>
        if pf_deleted i then Ok (migrate f i, true)
        else let* same := identical_by_content_to f (cl_heap (mo_cluster m)) i in Ok (i, negb same)
    end in
  if negb update then Ok (k, x)
  else if bool_decide (fc_reason c = meta) && negb (bool_decide (fc_prev_path c = [])) then
    handle_rename k x fo fi (fc_prev_path c) (fc_name c)
  else
    let k :=
      if bool_decide (pf_type i = DIRECTORY) && bool_decide (fc_reason c = created)
      then set_just_created k (lk_just_created k ∪ {[ full_path fo (fc_name c) ]}) else k in
    let* s := push_update m clock (lc_stack x) i (fd_id (fo_data fo)) in
    Ok (k, with_lc_stack x s).

(** [delayed_update]: the file is examined as those that a scan finds. *)
Definition delayed_update (fo : folder) (folder_presence : positive) (c : file_change) (self parent : option positive) (recurse_children : bool)
    : stack_item :=
  let path := if bool_decide (fc_name c = []) then folder_path fo else path_append (folder_path fo) (fc_name c) in
  let parent := match parent with Some p => Some p | None => Some folder_presence end in
  Unexamined (child_of_info (change_info c) path self parent 0) true recurse_children (fc_requires_refinement c).

(** [handle_delete]: a directory may have come back meanwhile, and its parent is scanned for it. *)
Definition handle_delete (k : keeper) (x : lc_context) (fo : folder) (fi : folder_info) (c : file_change) : res (keeper * lc_context * list stack_item) :=
  let* o := file_by_name (mo_cluster m) fi (fc_name c) in
  match o with
  | None => Ok (k, x, [])
  | Some (p, f) =>
      if is_deleted f then Ok (k, x, [])
      else if is_dir f && fc_requires_refinement c then
        let v := sc_view (lc_stack x) in
        let* q := the (ps_of_file v !! p) in
        let* y := presence_at v q in
        match pn_parent y with
        | None => Ok (k, x, [])
        | Some parent =>
            let* z := presence_at v parent in
            let* pe := entity_at v (pn_entity z) in
            let* e := entity_at v (pn_entity y) in
            let path := path_append (folder_path fo) (get_full_name (en_path pe)) in
            Ok (k, x, [UnscannedDir (mkUnscanned path (Some parent) (own_name e) 0 true (fc_requires_refinement c))])
        end
      else let* '(k, x) := immediate_update k x fo fi c in Ok (k, x, [])
  end.

(** [check_validity]. *)
Definition check_validity (c : file_change) : bool :=
  let link := pf_symlink_target (change_info c) in
  utf8_valid (fc_name c) && negb (is_temporal (fc_name c)) && (bool_decide (link = []) || utf8_valid link).

(** [get_relation]: the presences of the file and of its directory, and whether the directory is known. *)
Definition get_relation (k : keeper) (v : presentation) (fo : folder) (fi : folder_info) (folder_presence : positive) (name : bytes)
    : res (option positive * option positive * bool) :=
  if bool_decide (name = []) then Ok (None, None, true)
  else
    let known (self parent : option positive) := (self, parent, match parent with Some _ => true | None => false end) in
    match by_name (fi_files fi) name with
    | Some p =>
        let* q := the (ps_of_file v !! p) in
        let* y := presence_at v q in
        Ok (known (Some q) (pn_parent y))
    | None =>
        match split_last slash name with
        | None => Ok (known None (Some folder_presence))
        | Some (sub_dir, _) =>
            let* o := file_by_name (mo_cluster m) fi sub_dir in
            match o with
            | Some (p, f) => if is_local f then let* q := the (ps_of_file v !! p) in Ok (known None (Some q)) else Ok (known None None)
            | None => Ok (if bool_decide (full_path fo sub_dir ∈ lk_just_created k) then (None, None, true) else known None None)
            end
        end
    end.

(** One event. *)
Definition on_event (k : keeper) (x : lc_context) (fo : folder) (fi : folder_info) (folder_presence : positive) (c : file_change)
    : res (keeper * lc_context * list stack_item) :=
  if negb (check_validity c) then Ok (k, x, [])
  else
    let* '(self, parent, ok) := get_relation k (sc_view (lc_stack x)) fo fi folder_presence (fc_name c) in
    if negb ok then Ok (k, x, [])
    else
      match fc_reason c with
      | created =>
          if bool_decide (pf_type (change_info c) = DIRECTORY) && negb (fc_requires_refinement c) then
            let* '(k, x) := immediate_update k x fo fi c in Ok (k, x, [])
          else Ok (k, x, [delayed_update fo folder_presence c self parent true])
      | meta => let* '(k, x) := immediate_update k x fo fi c in Ok (k, x, [])
      | deleted => handle_delete k x fo fi c
      | content_changed => Ok (k, x, [delayed_update fo folder_presence c self parent false])
      end.

Fixpoint on_events (k : keeper) (x : lc_context) (fo : folder) (fi : folder_info) (folder_presence : positive) (cs : list file_change)
    : res (keeper * lc_context * list stack_item) :=
  match cs with
  | [] => Ok (k, x, [])
  | c :: cs =>
      let* '(k, x, items) := on_event k x fo fi folder_presence c in
      let* '(k, x, rest) := on_events k x fo fi folder_presence cs in
      Ok (k, x, items ++ rest)
  end.

(** [on_changes]: what is to be examined gets a context of its own. *)
Definition on_changes (k : keeper) (x : lc_context) (fo : folder) (fi : folder_info) (cs : list file_change) : res (keeper * lc_context) :=
  let* p := the (ps_of_info (sc_view (lc_stack x)) !! (fd_id (fo_data fo), self_sha m)) in
  let* '(k, x, items) := on_events k x fo fi p cs in
  if bool_decide (items = []) then Ok (k, x)
  else
    let* c := new_folder_context m (fd_id (fo_data fo)) items [] in
    let '(k, q) := add_context k c in
    Ok (k, mkLcContext (lc_stack x) (lc_new_contexts x ++ [q]) (lc_name_2_file x) (lc_file_2_name x)).

Fixpoint on_folders (k : keeper) (x : lc_context) (l : list (bytes * list file_change)) : res (keeper * lc_context) :=
  match l with
  | [] => Ok (k, x)
  | (folder_id, cs) :: l =>
      match folder_by_id (folders_of m) folder_id with
      | None => on_folders k x l
      | Some fo =>
          let* fi := the (by_device_id (fo_infos fo) (self_sha m)) in
          let* '(k, x) := on_changes k x fo fi cs in
          on_folders k x l
      end
  end.

(** [on_change]. *)
Definition on_change (k : keeper) (l : list (bytes * list file_change)) : res keeper :=
  let* '(k, x) := on_folders k (new_lc k) l in
  finish k (lc_stack x) (lc_new_contexts x).

(** ** Everything the actor is sent *)

Inductive keeper_event :=
| SlaveReturned (slave : positive) (failed : bool) (ts : list task)
| Digest (context : hash_context) (index size : Z) (result : option bytes)
| DirCreated (folder_id : bytes) (ec : option Z)
| DirWatched (folder_id : bytes) (ec : option Z)
| DirUnwatched (folder_id : bytes)
| FolderChanges (l : list (bytes * list file_change))
| LocalReady
| ThreadReady (same_thread : bool)
| Changed (d : diff op).

Definition keeper_handle (k : keeper) (e : keeper_event) : res keeper :=
  match e with
  | SlaveReturned slave failed ts => on_post_process k slave failed ts
  | Digest hc index size result => on_digest k hc index size result
  | DirCreated folder_id ec => Ok (on_create_dir k folder_id ec)
  | DirWatched folder_id ec => Ok (on_watch_dir k folder_id ec)
  | DirUnwatched folder_id => Ok (on_unwatch_dir k folder_id)
  | FolderChanges l => on_change k l
  | LocalReady => Ok (on_local_ready k)
  | ThreadReady same_thread => Ok (on_thread_ready k same_thread)
  | Changed d => visit_diff d k
  end.
End keeper.
