(* ===== verification/KeeperSample.v ===== *)
(** * KeeperSample: a folder on a small disk, on which the [LocalKeeper] is tried out, and what goes wrong with it. *)

From S2P Require Import Prelude Diff Version Proto DeviceId Device Path Blocks FileInfo FileStore FileMap GenericMap Folder.
From S2P Require Import Resolver BlockMap UpdateFolder ApplyUpdate FileIterator Advance Cluster Changes Trees Removal ClusterUpdate Controller ControllerSample.
From S2P Require Import Watcher Disk FileIo FileActor Presence Tasks FolderContext LocalKeeper.

#[local] Existing Instance c_surroundings.

(** A folder at [/s] of this device and of a peer; files and infos are given. *)
Definition k_folder (id path : bytes) (infos : list folder_info) : folder :=
  with_infos (create_folder (repeat 4 16) (mkDbFolder id [] false false false false false path send_and_receive random 0 false)) infos.

Definition k_self (files : list (file_ptr * file_info)) : folder_info :=
  mkFolderInfo (fi_key r_self_info) 1 4 [] (repeat 1 32) (prefix_device :: repeat 255 32) (map (λ x, entry_of x.1 x.2) files).

Definition k_peer (files : list (file_ptr * file_info)) : folder_info :=
  mkFolderInfo (fi_key r_peer_info) 1 4 [] (repeat 9 32) (prefix_device :: repeat 9 32) (map (λ x, entry_of x.1 x.2) files).

Definition k_model (local remote : list (file_ptr * file_info)) : model :=
  with_cluster r_model (mkCluster ∅ ∅ (list_to_map (local ++ remote)) [k_folder (chars "f") (chars "/s") [k_self local; k_peer remote]]).

Definition k_view (m : model) : presentation :=
  match folders_of m with
  | fo :: _ => match new_folder_entity m no_presentation fo with Ok (v, _) => v | _ => no_presentation end
  | [] => no_presentation
  end.

Definition k_keeper (m : model) (hashes : Z) : keeper :=
  mkKeeper true true false true hashes 0 [] ∅ false true ∅ ∅ ∅ ∅ (k_view m) 0 [].

(** A hash that is easy to tell apart. *)
Definition k_hash (data : bytes) : bytes := repeat (default 0 (head data)) 32.

Definition k_handle (m : model) (k : keeper) (e : keeper_event) : res keeper := keeper_handle (λ _, true) no_watcher m 1000 k e.

(** The file system and the hashers answer the effects in their order. *)
Fixpoint k_drive `{FD : Faults} (fuel n : nat) (m : model) (px : fs_proxy) (k : keeper) : res keeper :=
  match fuel with
  | O => Ok k
  | S fuel =>
      match lk_out k !! n with
      | None => Ok k
      | Some (SendSlave slave ts) =>
          let* x := exec px ts in
          let* k := k_handle m k (SlaveReturned slave false (ex_tasks x)) in
          let* k := foldl (λ r d, let* k := r in k_handle m k (LocalKeeper.Digest (dg_context d) (dg_index d) (Z.of_nat (length (dg_data d))) (Some (k_hash (dg_data d)))))
                      (Ok k) (ex_digests x) in
          k_drive fuel (S n) m (ex_proxy x) k
      | Some _ => k_drive fuel (S n) m px k
      end
  end.

Definition k_proxy (d : disk) : fs_proxy := mkProxy d (new_mediator 10 false) 0 0.

Definition k_scan : keeper_event := Changed (leaf (ScanStart (chars "f") [] 0)).

(** The changes that were sent: new versions of files, with their blocks, and others. *)
Fixpoint k_ops (d : diff op) : list op := match d with Null => [] | Node o c s => o :: k_ops c ++ k_ops s end.

Inductive k_said :=
| Announced (name : bytes) (del : bool) (size : Z) (blocks : list (Z * Z * Z))
| Finished (folder_id : bytes)
| Said (o : op).

Definition k_brief (o : op) : k_said :=
  match o with
  | LocalUpdate a => Announced (pf_name (av_local a)) (pf_deleted (av_local a)) (pf_size (av_local a))
                       (map (λ b, (pb_offset b, pb_size b, default 0 (head (pb_hash b)))) (pf_blocks (av_local a)))
  | ScanFinish id _ => Finished id
  | o => Said o
  end.

Definition k_saying (k : keeper) : list k_said := lk_out k ≫= λ e, match e with SendChanges d => map k_brief (k_ops d) | _ => [] end.

Definition k_run `{FD : Faults} (m : model) (d : disk) (hashes : Z) (e : keeper_event) : res (list k_said * Z) :=
  let* k := k_handle m (k_keeper m hashes) e in
  let* k := k_drive 50 0 m (k_proxy d) k in
  Ok (k_saying k, lk_hashes_left k).

(** ** A scan *)

Definition k_disk (files : list (bytes * inode)) : disk :=
  foldl (λ d x, let i := fresh (dom (dk_nodes d)) in mkDisk (<[x.1 := i]> (dk_names d)) (<[i := x.2]> (dk_nodes d)) (dk_calls d))
    (mkDisk ∅ ∅ 0) ((chars "/s", mkInode KDir 0 493) :: files).

Definition k_local (name : bytes) (flags : Z) : file_info :=
  mkFile (repeat 7 16 ++ repeat 1 16) name 5 1 1 420 0 (if has_flag flags f_type_file then FileContent [] else NonFile []) [Counter 1 1]
    (Z.lor flags f_local).

#[local] Existing Instance no_faults.

(** A scan finds the new files and the new directory, and that a file is gone; every hash is given back. *)
Example scan_sample :
  k_run (k_model [(1%positive, k_local (chars "gone") f_type_file)] [])
    (k_disk [(chars "/s/b", mkInode (KFile [1; 2; 3]) 7 420); (chars "/s/d", mkInode KDir 7 493); (chars "/s/d/a", mkInode (KFile [5]) 7 420)])
    2 k_scan
  = Ok ([Announced (chars "gone") true 0 []; Announced (chars "d") false 0 []; Announced (chars "d/a") false 1 [(0, 1, 5)];
         Announced (chars "b") false 3 [(0, 3, 1)]; Finished (chars "f")], 2).
Proof. vm_compute. reflexivity. Qed.

(** ** What goes wrong *)

(** A file that can be opened but not read: of the hashes that were taken for it, those for the blocks up to the failing one are never
    given back. One such file of one block, and no other file is hashed any more. *)
Example unreadable_file_takes_hashes :
  k_run (FD := {| fault := λ n, if (n =? 9)%nat then Some EIO else None; written := λ _, 0%nat |}) (k_model [] [])
    (k_disk [(chars "/s/a", mkInode (KFile [1]) 7 420); (chars "/s/b", mkInode (KFile [2]) 7 420)]) 1 k_scan
  = Ok ([], 0).
Proof. vm_compute. reflexivity. Qed.

(** A new file of which a peer has one of the same size, in blocks of 100 and 50 bytes: the number of blocks is the size modulo the
    number of whole blocks, where the size of a block is meant. Only the first block is read and announced. *)
Definition k_blocks (m : model) : model :=
  with_cluster m (mkCluster sample_block_map sample_heap (cl_files (mo_cluster m)) (cl_folders (mo_cluster m))).

Definition k_remote (name : bytes) (flags : Z) : file_info :=
  mkFile (repeat 7 16 ++ repeat 9 16) name 5 1 1 420 0
    (if has_flag flags f_type_file then FileContent [Some (5%positive, false); Some (6%positive, false)] else NonFile []) [Counter 9 1] flags.

Example second_block_forgotten :
  k_run (k_blocks (k_model [] [(2%positive, k_remote (chars "a") f_type_file)])) (k_disk [(chars "/s/a", mkInode (KFile (repeat 1 150)) 7 420)]) 5 k_scan
  = Ok ([Announced (chars "a") false 150 [(0, 100, 1)]; Finished (chars "f")], 5).
Proof. vm_compute. reflexivity. Qed.

(** Two files a peer has deleted and this device never had: the first one of the queue is taken and the last one is removed, so that
    the first is announced twice and the second is not. *)
Example deleted_file_forgotten :
  k_run (k_model [] [(1%positive, k_local (chars "d") (Z.lor f_type_file f_deleted)); (2%positive, k_local (chars "e") (Z.lor f_type_file f_deleted))])
    (k_disk []) 5 k_scan
  = Ok ([Announced (chars "d") true 0 []; Announced (chars "d") true 0 []; Finished (chars "f")], 5).
Proof. vm_compute. reflexivity. Qed.

(** The folder is gone from the disk, and a directory of it is scanned: the parent of the root is looked for in a presence that has no
    file. *)
Example scan_without_root_crashes :
  k_run (k_model [(1%positive, k_local (chars "d") f_type_dir)] []) (mkDisk ∅ ∅ 0) 5 (Changed (leaf (ScanStart (chars "f") (chars "d") 0))) = Ub.
Proof. vm_compute. reflexivity. Qed.

(** The entry that is listed last vanishes before it is looked at: its error becomes the one of the directory, and the folder is
    suspended. *)
Example vanished_file_suspends :
  k_run (FD := {| fault := λ n, if (n =? 4)%nat then Some ENOENT else None; written := λ _, 0%nat |}) (k_model [] [])
    (k_disk [(chars "/s/a", mkInode (KFile [1]) 7 420); (chars "/s/b", mkInode (KFile [2]) 7 420)]) 5 k_scan
  = Ok ([Said (SuspendFolder (chars "f") true (Some ENOENT)); Finished (chars "f")], 5).
Proof. vm_compute. reflexivity. Qed.

(** A temporary file that is complete, and whose file won over the local one: it gets the name of the conflicting copy, while the change
    that follows gives the local file that name, and the one of the peer the file's. *)
Example winner_gets_conflicting_name :
  let file id name v flags := mkFile (repeat 7 16 ++ repeat id 16) name 5 1 1 420 0 (FileContent [Some (5%positive, false)]) v flags in
  let m := k_blocks (k_model [(1%positive, file 1 (chars "a") [mark_best (Counter 1 1)] (Z.lor f_type_file f_local))]
                       [(2%positive, file 9 (chars "a") [mark_best (Counter 9 7)] f_type_file)]) in
  let d := k_disk [(chars "/s/a", mkInode (KFile (repeat 2 100)) 5 420); (chars "/s/a.syncspirit-tmp", mkInode (KFile (repeat 1 100)) 5 420)] in
  ∃ k name a b, (let* k := k_handle m (k_keeper m 5) k_scan in k_drive 50 0 m (k_proxy d) k) = Ok k ∧
    (lk_out k ≫= λ e, match e with SendSlave _ [RenameFile p n _ _ _] => [(p, n)] | _ => [] end) = [(chars "/s/a.syncspirit-tmp", name)] ∧
    k_saying k = [Said (RemoteWin a b); Finished (chars "f")] ∧
    pf_name (av_local a) = name ∧ pf_version (av_local a) = [Counter 1 1] ∧ pf_name (av_local b) = chars "a" ∧ pf_version (av_local b) = [Counter 9 7].
Proof. do 4 eexists. vm_compute. split_and!; reflexivity. Qed.

(** ** Two scans at once *)

(** A folder of two files is scanned with one hash at a time, and another folder meanwhile: when the digest of the first file arrives,
    the second one could be read, but the file system is busy with the other folder. Nobody comes back to it: the second file is not
    announced, the scan does not finish, and the hash it has taken is lost. *)
Definition k_two : model :=
  with_cluster r_model
    (mkCluster ∅ ∅ ∅ [k_folder (chars "f") (chars "/s") [k_self []];
       with_infos (create_folder (repeat 5 16) (mkDbFolder (chars "g") [] false false false false false (chars "/t") send_and_receive random 0 false))
         [k_self []]]).

Definition k_two_view : presentation :=
  foldl (λ v fo, match new_folder_entity k_two v fo with Ok (v, _) => v | _ => v end) no_presentation (folders_of k_two).

Definition k_two_disk : disk :=
  k_disk [(chars "/s/a", mkInode (KFile [1]) 7 420); (chars "/s/b", mkInode (KFile [2]) 7 420); (chars "/t", mkInode KDir 0 493)].

(** What is sent to the file system by the [n]-th effect, carried out. *)
Definition k_exec (k : keeper) (n : nat) : res (positive * executed) :=
  match lk_out k !! n with
  | Some (SendSlave slave ts) => let* x := exec (k_proxy k_two_disk) ts in Ok (slave, x)
  | _ => Ub
  end.

Definition k_interleaved : res keeper :=
  let* k := k_handle k_two (mkKeeper true true false true 1 0 [] ∅ false true ∅ ∅ ∅ ∅ k_two_view 0 []) k_scan in
  let* '(slave, listed) := k_exec k 0 in
  let* k := k_handle k_two k (SlaveReturned slave false (ex_tasks listed)) in
  let* '(slave, read) := k_exec k 1 in
  let* k := k_handle k_two k (SlaveReturned slave false (ex_tasks read)) in
  let* k := k_handle k_two k (Changed (leaf (ScanStart (chars "g") [] 0))) in
  let* '(other, listed) := k_exec k 2 in
  let* d := the (head (ex_digests read)) in
  let* k := k_handle k_two k (LocalKeeper.Digest (dg_context d) (dg_index d) 1 (Some (k_hash (dg_data d)))) in
  k_handle k_two k (SlaveReturned other false (ex_tasks listed)).

Example second_scan_stops_first :
  ∃ k, k_interleaved = Ok k ∧
    k_saying k = [Announced (chars "a") false 1 [(0, 1, 1)]; Finished (chars "g")] ∧
    lk_fs_tasks k = 0 ∧ lk_hashes_left k = 0 ∧
    length (lk_out k ≫= λ e, match e with SendSlave p _ => [p] | _ => [] end) = 3%nat.
Proof. eexists. vm_compute. split_and!; reflexivity. Qed.
