(* ===== verification/KeeperFrame.v ===== *)
(** * KeeperFrame: what the operations of a [FolderContext] leave alone, and which hashes they take and give back. *)

From S2P Require Import Prelude Diff Version Proto DeviceId Device Path Blocks FileInfo FileStore FileMap GenericMap Folder.
From S2P Require Import Resolver BlockMap UpdateFolder FileIterator Advance Cluster Changes Trees ClusterUpdate Controller.
From S2P Require Import Watcher Disk FileIo FileActor Presence Tasks FolderContext.

(** The blocks a task is to have hashed. *)
Definition task_blocks (t : task) : Z := match t with Segment t => sg_block_count t | _ => 0 end.

Definition claims (ts : list task) : Z := foldr (λ t n, task_blocks t + n) 0 ts.

Lemma claims_app l l' : claims (l ++ l') = claims l + claims l'.
Proof. induction l as [|t l IH]; simpl; lia. Qed.

(** Everything but a segment. *)
Definition light (t : task) : Prop := match t with Segment _ => False | _ => True end.

(** Nothing is taken, nothing given back, and the files being hashed stay as they are. *)
Record quiet (s s' : stack_context) : Prop := {
  qu_pool : sc_pool s' = sc_pool s;
  qu_hashes : sc_hashes s' = sc_hashes s;
  qu_slave : sc_slave s' = sc_slave s;
}.

#[export] Instance quiet_refl : Reflexive quiet.
Proof. by intros s. Qed.

#[export] Instance quiet_trans : Transitive quiet.
Proof. intros s1 s2 s3 [] []. split; congruence. Qed.

Create HintDb frame.
#[export] Hint Resolve quiet_refl : frame.

(** Takes a computation that went well apart. *)
Ltac unbind H :=
  repeat match type of H with
         | res_bind _ _ = Ok _ => let x := fresh "x" in let E := fresh "E" in apply bind_Ok in H as (x & E & H); try (destruct x as [[]]); simpl in H
         end.

Section frame.
Context `{Surroundings} (m : model) (clock : Z) (busy scan_watches : bool) (utf8_valid : bytes → bool) (this : positive).

Lemma push_diff_quiet s d s' : push_diff s d = Ok s' → quiet s s'.
Proof. unfold push_diff. intros ([a b] & _ & [= <-])%bind_Ok. by split. Qed.

Lemma new_update_quiet s f id b s' d : new_update m clock s f id b = Ok (s', d) → quiet s s'.
Proof. unfold new_update. intros ([a n] & _ & [= <- <-])%bind_Ok. by split. Qed.

Lemma push_update_quiet s f id s' : push_update m clock s f id = Ok s' → quiet s s'.
Proof.
  unfold push_update. intros ([s1 d] & H1 & H2)%bind_Ok. apply new_update_quiet in H1. apply push_diff_quiet in H2. by transitivity s1.
Qed.

Lemma get_now_quiet s s' n : get_now clock s = (s', n) → quiet s s'.
Proof. unfold get_now. case_match; intros [= <- <-]; by split. Qed.

Lemma children_of_quiet s p s' l : children_of s p = Ok (s', l) → quiet s s'.
Proof. unfold children_of. intros ([v l'] & _ & [= <- <-])%bind_Ok. by split. Qed.

Lemma child_presence_quiet s o name b s' r : child_presence s o name b = Ok (s', r) → quiet s s'.
Proof. unfold child_presence. destruct o; [intros ([v r'] & _ & [= <- <-])%bind_Ok|intros [= <- <-]]; by split. Qed.

Hint Resolve push_diff_quiet new_update_quiet push_update_quiet get_now_quiet children_of_quiet child_presence_quiet : frame.

Lemma remove_loop_quiet fuel id : ∀ s queue processed s', remove_loop m clock fuel id s queue processed = Ok s' → quiet s s'.
Proof.
  induction fuel as [|fuel IH]; intros s [|p queue] processed s' Hr; cbn [remove_loop] in Hr; simplify_eq; try reflexivity.
  apply bind_Ok in Hr as (f & _ & Hr). apply bind_Ok in Hr as ([[s1 l] pr] & H1 & Hr).
  assert (quiet s s1) as Hq.
  { destruct (has f _); [|by simplify_eq]. destruct (bool_decide (p ∈ processed)); [by simplify_eq|].
    apply bind_Ok in H1 as ([s2 l2] & Hc & H1). simplify_eq. eauto with frame. }
  case_bool_decide.
  - apply bind_Ok in Hr as ([q file] & _ & Hr). apply bind_Ok in Hr as (data & _ & Hr). apply bind_Ok in Hr as (s2 & H2 & Hr).
    transitivity s1; [done|]. transitivity s2; [eauto with frame|by eapply IH].
  - apply bind_Ok in Hr as (l' & _ & Hr). transitivity s1; [done|by eapply IH].
Qed.

Lemma confirm_children_quiet fo : ∀ l s s' dirs,
  confirm_children m fo s l = Ok (s', dirs) → quiet s s' ∧ Forall (λ i, ∃ p, i = ConfirmedDeleted p) dirs.
Proof.
  induction l as [|p l IH]; intros s s' dirs Hc; cbn [confirm_children] in Hc; [by injection Hc as <- <-|].
  apply bind_Ok in Hc as (f & _ & Hc). destruct (has f F_local); [|by apply IH]. destruct (has f F_directory).
  - apply bind_Ok in Hc as ([s1 d1] & H1 & [= <- <-]). apply IH in H1 as [Hq Hd]. split; [done|]. constructor; [by eexists|done].
  - apply bind_Ok in Hc as ([q file] & _ & Hc). apply bind_Ok in Hc as (s1 & H1%push_diff_quiet & Hc). apply IH in Hc as [Hq Hd].
    split; [by transitivity s1|done].
Qed.

Lemma unreachable_loop_quiet fuel c : ∀ s queue s', unreachable_loop m fuel c s queue = Ok s' → quiet s s'.
Proof.
  induction fuel as [|fuel IH]; intros s [|p queue] s' Hr; cbn [unreachable_loop] in Hr; simplify_eq; try reflexivity.
  apply bind_Ok in Hr as ([q file] & _ & Hr). apply bind_Ok in Hr as (s1 & H1 & Hr). apply bind_Ok in Hr as ([s2 l] & H2 & Hr).
  apply bind_Ok in Hr as (l' & _ & Hr). transitivity s1; [eauto with frame|]. transitivity s2; [eauto with frame|by eapply IH].
Qed.

Lemma import_deleted_quiet fuel id : ∀ s queue s', import_deleted m clock fuel id s queue = Some (Ok s') → quiet s s'.
Proof.
  induction fuel as [|fuel IH]; intros s [|e queue] s' Hr; cbn [import_deleted] in Hr; simplify_eq; try reflexivity.
  case_match eqn:Em; simplify_eq. destruct a as [s1 l]. transitivity s1; [|by eapply IH].
  apply bind_Ok in Em as (x & _ & Em). apply bind_Ok in Em as (b & _ & Em). apply bind_Ok in Em as ([q f] & _ & Em).
  apply bind_Ok in Em as (data & _ & Em). apply bind_Ok in Em as (s2 & H2 & Em). apply bind_Ok in Em as (features & _ & [= <- <-]).
  eauto with frame.
Qed.

Lemma check_missing_quiet id t : ∀ l s checked dirs s' checked' dirs',
  check_missing m clock id s t l checked dirs = Ok (s', checked', dirs') →
  quiet s s' ∧ ∃ more, dirs' = dirs ++ more ∧ Forall (λ i, (∃ p, i = ConfirmedDeleted p) ∨ ∃ p, i = RemovedDir p) more.
Proof.
  induction l as [|p l IH]; intros s checked dirs s' checked' dirs' Hc; cbn [check_missing] in Hc.
  { injection Hc as <- <- <-. split; [reflexivity|]. exists []. by rewrite app_nil_r. }
  apply bind_Ok in Hc as (f & _ & Hc). apply bind_Ok in Hc as (name & _ & Hc).
  assert (∀ i more, (∃ p, i = ConfirmedDeleted p) ∨ (∃ p, i = RemovedDir p) →
    dirs' = (dirs ++ [i]) ++ more ∧ Forall (λ i, (∃ p, i = ConfirmedDeleted p) ∨ ∃ p, i = RemovedDir p) more →
    ∃ more, dirs' = dirs ++ more ∧ Forall (λ i, (∃ p, i = ConfirmedDeleted p) ∨ ∃ p, i = RemovedDir p) more) as Hadd.
  { intros i more Hi [-> Hm]. exists (i :: more). rewrite <- app_assoc. split; [done|by constructor]. }
  repeat (case_match; [by eapply IH in Hc|]).
  destruct (has f F_deleted); [eapply IH in Hc as (Hq & more & Hm); eauto|].
  destruct (has f F_directory); [eapply IH in Hc as (Hq & more & Hm); eauto|].
  apply bind_Ok in Hc as ([q file] & _ & Hc). apply bind_Ok in Hc as (data & _ & Hc). apply bind_Ok in Hc as (s1 & Hu%push_update_quiet & Hc).
  eapply IH in Hc as (Hq & Hm). split; [by transitivity s1|done].
Qed.

(** ** The stack *)

(** Items that carry no hashes. *)
Definition plain (i : stack_item) : Prop :=
  match i with
  | ChildReady _ blocks => blocks = []
  | HashNew _ | HashExisting _ | HashIncomplete _ | RehashedIncomplete _ | AbortHashing _ => False
  | _ => True
  end.

(** Whatever is on the second stack was on the first, or is plain. *)
Definition grown (l l' : list stack_item) : Prop := ∀ i, i ∈ l' → plain i ∨ i ∈ l.

Lemma grown_refl l : grown l l.
Proof. by right. Qed.

Lemma grown_trans l1 l2 l3 : grown l1 l2 → grown l2 l3 → grown l1 l3.
Proof. intros H1 H2 i [?| Hi]%H2; [by left|]. by apply H1. Qed.

Lemma grown_app l l' : Forall plain l' → grown l (l' ++ l).
Proof. intros Hl i [Hi|Hi]%elem_of_app; [left; by eapply Forall_forall in Hl|by right]. Qed.

(** What a context has under way at the hashers stays. *)
Record kept (c c' : folder_context) : Prop := {
  ke_id : fx_folder_id c' = fx_folder_id c;
  ke_hashing : fx_hashing c' = fx_hashing c;
  ke_files : fx_hashing_files c' = fx_hashing_files c;
}.

#[export] Instance kept_refl : Reflexive kept.
Proof. by intros c. Qed.

#[export] Instance kept_trans : Transitive kept.
Proof. intros c1 c2 c3 [] []. split; congruence. Qed.

Lemma kept_stack c c' l : kept c c' → kept c (with_stack c' l).
Proof. intros []. by split. Qed.

Lemma kept_pending c c' l : kept c c' → kept c (with_pending c' l).
Proof. intros []. by split. Qed.

Hint Resolve kept_stack kept_pending kept_refl grown_refl : frame.

Lemma stack_entries_frame t : ∀ l c s checked c' s' checked',
  stack_entries utf8_valid c s t l checked = Ok (c', s', checked') →
  quiet s s' ∧ kept c c' ∧ fx_pending c' = fx_pending c ∧ grown (fx_stack c) (fx_stack c') ∧ ∃ new, fx_stack c' = new ++ fx_stack c.
Proof.
  induction l as [|x l IH]; intros c s checked c' s' checked' He; cbn [stack_entries] in He.
  { injection He as <- <- <-. split_and!; [reflexivity|reflexivity|done|apply grown_refl|by exists []]. }
  destruct (utf8_valid _); cbn [negb] in He; [|by eapply IH].
  apply bind_Ok in He as ([s1 presence] & Hs1%child_presence_quiet & He). apply bind_Ok in He as (checked1 & _ & He).
  destruct (dc_ec x).
  { apply IH in He as (Hq & Hrest). split; [by transitivity s1|done]. }
  apply bind_Ok in He as (i & _ & He). set (item := if is_temporal _ then _ else _) in He.
  apply IH in He as (Hq & Hk & Hp & Hg & new & Hn). split_and!.
  - by transitivity s1.
  - by transitivity (push_item c item).
  - done.
  - eapply grown_trans; [|exact Hg]. apply (grown_app _ [item]). constructor; [|done]. unfold item. by case_match.
  - exists (new ++ [item]). by rewrite Hn, <- app_assoc.
Qed.

(** The item a scan was made for is moved to the top. *)
Lemma raise_ready_elem new before i : i ∈ raise_ready before (new ++ before) ↔ i ∈ new ++ before.
Proof.
  unfold raise_ready. destruct before as [|[] rest]; try done.
  assert (length (new ++ ChildReady i0 blocks :: rest) - length (ChildReady i0 blocks :: rest) = length new)%nat as ->
    by (rewrite length_app; lia).
  rewrite take_app_length. rewrite !elem_of_cons, !elem_of_app, elem_of_cons. tauto.
Qed.

Lemma compare_directory_frame c s id t c' s' :
  compare_directory m clock utf8_valid c s id t = Ok (c', s') →
  quiet s s' ∧ kept c c' ∧ fx_pending c' = fx_pending c ∧ grown (fx_stack c) (fx_stack c') ∧ ∃ new, fx_stack c' = new ++ fx_stack c.
Proof.
  unfold compare_directory. intros ([[c1 s1] checked] & (Hq & Hk & Hp & Hg & new & Hn)%stack_entries_frame & Hc)%bind_Ok.
  destruct (sd_presence t) as [p|]; [|simplify_eq; eauto 10].
  apply bind_Ok in Hc as ([s2 l] & Hs2%children_of_quiet & Hc).
  apply bind_Ok in Hc as ([[s3 checked3] dirs] & (Hs3 & more & -> & Hm)%check_missing_quiet & Hc).
  apply bind_Ok in Hc as (x & _ & Hc). apply bind_Ok in Hc as (e & _ & Hc). apply bind_Ok in Hc as (queue & _ & Hc).
  apply bind_Ok in Hc as (s4 & Hs4 & Hc). injection Hc as <- <-.
  assert (quiet s3 s4) by (case_match; [subst; by eapply import_deleted_quiet|done]). split_and!.
  - transitivity s1; [done|]. transitivity s2; [done|]. by transitivity s3.
  - by apply kept_stack.
  - done.
  - eapply grown_trans; [exact Hg|]. apply grown_app. eapply Forall_impl; [exact Hm|]. by intros i [[q ->]|[q ->]].
  - exists (more ++ new). cbn. by rewrite Hn, <- app_assoc.
Qed.

Lemma handle_scan_error_frame c s t c' s' : handle_scan_error m c s t = Ok (c', s') → quiet s s' ∧ c' = push_item c (UndoChildReady (sd_path t)).
Proof.
  unfold handle_scan_error. intros (s1 & Hs & [= <- <-])%bind_Ok. split; [|done]. destruct (sd_presence t) as [p|]; [|by injection Hs as <-].
  apply bind_Ok in Hs as (f & _ & Hs). case_match; [by eapply unreachable_loop_quiet|by injection Hs as <-].
Qed.

(** What a task that comes back leaves of a context that is not hashing. *)
Record posted (c : folder_context) (s : stack_context) (c' : folder_context) (s' : stack_context) : Prop := {
  po_quiet : quiet s s';
  po_kept : kept c c';
  po_grown : grown (fx_stack c) (fx_stack c');
  po_pending : ∃ ts, fx_pending c' = fx_pending c ++ ts ∧ Forall light ts;
}.

Lemma posted_same c s c' s' : quiet s s' → kept c c' → grown (fx_stack c) (fx_stack c') → fx_pending c' = fx_pending c → posted c s c' s'.
Proof. intros Hq Hk Hg Hp. split; [done|done|done|]. exists []. by rewrite Hp, app_nil_r. Qed.

Lemma posted_push c s s' i : quiet s s' → plain i → posted c s (push_item c i) s'.
Proof. intros Hq Hi. apply posted_same; [done|by apply kept_stack|apply (grown_app _ [i]); by constructor|done]. Qed.

Lemma posted_task c s s' t : quiet s s' → light t → posted c s (push_task c t) s'.
Proof. intros Hq Ht. split; [done|by apply kept_pending|apply grown_refl|]. exists [t]. split; [done|by constructor]. Qed.

Lemma scan_failed_frame c s t e c' s' : scan_failed m c s t e = Ok (c', s') → posted c s c' s'.
Proof.
  unfold scan_failed. destruct (_ || _).
  - intros [Hq ->]%handle_scan_error_frame. by apply posted_push.
  - intros (p & _ & Hp)%bind_Ok. apply bind_Ok in Hp as ([q f] & _ & Hp). apply bind_Ok in Hp as (x & _ & Hp).
    apply bind_Ok in Hp as (pa & _ & [= <- <-]). by apply posted_task.
Qed.

(** What comes of the scan of a directory. *)
Lemma post_scan_frame c s t c' s' : post_scan m clock utf8_valid c s t = Ok (c', s') → posted c s c' s'.
Proof.
  unfold post_scan. set (c1 := with_generation _ _ _). assert (∀ c' s', posted c1 s c' s' → posted c s c' s') as Hc1.
  { intros ?? [? [] ? ?]. split; [done|by split|done|done]. }
  intros (fo & _ & Hp)%bind_Ok. apply Hc1. clearbody c1. clear Hc1 c. rename c1 into c.
  destruct (_ && _) eqn:Er, (sd_ec t) as [e|]; [|..].
  - injection Hp as <- <-. by apply posted_push.
  - apply bind_Ok in Hp as ([c2 s2] & Hc & [= <- <-]). cbn [andb] in Hc. set (c3 := if fo_suspended fo then _ else _) in Hc.
    assert (posted c s c3 s) as [_ Hk3 Hg3 (ts & Hp3 & Hts)]
      by (unfold c3; destruct (fo_suspended fo); [by apply posted_push|by apply posted_same; [..|apply grown_refl|]]).
    apply compare_directory_frame in Hc as (Hq & Hk & Hpe & Hg & new & Hn).
    split; [done|apply kept_stack; by transitivity c3| |exists ts; split; [|done]; cbn; by rewrite Hpe].
    intros i Hin. cbn in Hin. rewrite Hn in Hin. apply raise_ready_elem in Hin. rewrite <- Hn in Hin. by eapply grown_trans.
  - by eapply scan_failed_frame.
  - apply bind_Ok in Hp as ([c2 s2] & Hc & [= <- <-]). apply compare_directory_frame in Hc as (Hq & Hk & Hpe & Hg & new & Hn).
    apply posted_same; [done|by apply kept_stack| |done].
    intros i Hin. cbn in Hin. rewrite Hn in Hin. apply raise_ready_elem in Hin. rewrite <- Hn in Hin. by apply Hg.
Qed.

Lemma post_rename_frame c s path item ec c' s' : post_rename m c s path item ec = Ok (c', s') → posted c s c' s'.
Proof.
  unfold post_rename. destruct ec; [intros [= <- <-]; by apply posted_task|]. intros (p & _ & Hp)%bind_Ok.
  apply bind_Ok in Hp as ([q f] & _ & Hp). apply bind_Ok in Hp as (top & _ & Hp). apply bind_Ok in Hp as (x & _ & Hp).
  apply bind_Ok in Hp as (device & _ & Hp). apply bind_Ok in Hp as ([[a b] n] & _ & Hp). apply bind_Ok in Hp as (s1 & Hs%push_diff_quiet & [= <- <-]).
  apply posted_same; [|done|apply grown_refl|done]. destruct Hs. by split.
Qed.

(** ** Items *)

(** A file nothing is hashed of yet. *)
Record newly (h : hash_base) : Prop := {
  nw_total : 0 <= hb_total h;
  nw_unprocessed : hb_unprocessed h = hb_total h;
  nw_unhashed : hb_unhashed h = hb_total h;
  nw_errored : hb_errored h = 0;
  nw_blocks : length (hb_blocks h) = Z.to_nat (hb_total h);
}.

Lemma sized_blocks_length n l l' : sized_blocks n l = Ok l' → 0 <= n ∧ length l' = Z.to_nat n.
Proof. unfold sized_blocks. intros (u & Hn%assert_Ok & [= <-])%bind_Ok. rewrite length_resize. split; [lia|done]. Qed.

Lemma new_hash_newly i bs h : new_hash i bs = Ok h → newly h.
Proof.
  unfold new_hash. intros ([count size] & _ & Hn)%bind_Ok. apply bind_Ok in Hn as (blocks & [Hc Hl]%sized_blocks_length & [= <-]). by split.
Qed.

Lemma new_hash_incomplete_newly cl i p f a h : new_hash_incomplete cl i p f a = Ok h → newly h.
Proof.
  unfold new_hash_incomplete. intros (b & _ & Hn)%bind_Ok. apply bind_Ok in Hn as (bs & _ & Hn). apply bind_Ok in Hn as (slots & _ & Hn).
  apply bind_Ok in Hn as (blocks & [Hc Hl]%sized_blocks_length & [= <-]). by split.
Qed.

(** The segment of [n] blocks that [schedule_hash] makes of a file. *)
Definition segment_of (slave p : positive) (h : hash_base) (n : Z) : segment :=
  let first := hb_total h - hb_unprocessed h in
  mkSegment (mkHashContext slave this p) (ci_path (hb_info h)) (first * hb_block_size h) first n (hb_block_size h)
    (if (hb_unprocessed h =? n) && (1 <? hb_total h) then i32 (ci_size (hb_info h) - hb_block_size h * (hb_total h - 1)) else hb_block_size h)
    (ci_time (hb_info h)) None 0.

(** What working on an item does: nothing to the hashes, a new file to be hashed, or blocks that are asked for. *)
Inductive worked (c : folder_context) (s : stack_context) (st : step) : Prop :=
| worked_plain :
    quiet s (sp_stack st) → kept c (sp_folder st) → grown (fx_stack c) (sp_pushed st ++ fx_stack (sp_folder st)) →
    (∃ ts, fx_pending (sp_folder st) = fx_pending c ++ ts ∧ Forall light ts) → worked c s st
| worked_new s1 p h :
    quiet s s1 → sc_hashes s !! p = None → newly h → sp_stack st = put_hash s1 p h → sp_folder st = c →
    sp_pushed st = [HashNew p] ∨ sp_pushed st = [HashExisting p] ∨ sp_pushed st = [HashIncomplete p] → worked c s st
| worked_schedule p h n :
    sc_hashes s !! p = Some h → hb_errored h = 0 → n = Z.min (sc_pool s) (hb_unprocessed h) → 0 < n →
    sp_stack st = put_hash (with_pool s (sc_pool s - n)) p (with_unprocessed h (hb_unprocessed h - n)) →
    sp_folder st = push_task c (Segment (segment_of (sc_slave s) p h n)) → sp_pushed st = [] → worked c s st.

Lemma worked_same c s st : quiet s (sp_stack st) → sp_folder st = c → Forall plain (sp_pushed st) → worked c s st.
Proof.
  intros Hq Hc Hp. apply worked_plain; rewrite ?Hc; [done|done|by apply grown_app|]. exists []. by rewrite app_nil_r.
Qed.

Lemma worked_task c s st t : quiet s (sp_stack st) → sp_folder st = push_task c t → light t → Forall plain (sp_pushed st) → worked c s st.
Proof.
  intros Hq Hc Ht Hp. apply worked_plain; rewrite ?Hc; [done|by apply kept_pending|by apply grown_app|]. exists [t]. split; [done|by constructor].
Qed.

Lemma worked_drop c s st l : quiet s (sp_stack st) → sp_folder st = with_stack c l → (∀ i, i ∈ l → i ∈ fx_stack c) → sp_pushed st = [] → worked c s st.
Proof.
  intros Hq Hc Hl Hp. apply worked_plain; rewrite ?Hc, ?Hp; [done|by apply kept_stack| |exists []; by rewrite app_nil_r].
  intros i Hi. right. by apply Hl.
Qed.

Lemma worked_hash c s s1 h i j :
  quiet s s1 → newly h → i = HashNew ∨ i = HashExisting ∨ i = HashIncomplete → add_hash s1 h = j → worked c s (mkStep c j.1 [i j.2] 1).
Proof.
  intros Hq Hh Hi <-. unfold add_hash. cbn. apply (worked_new c s _ s1 (fresh (dom (sc_hashes s1))) h); try done.
  - rewrite <- (qu_hashes _ _ Hq). apply not_elem_of_dom, is_fresh.
  - destruct Hi as [->|[->| ->]]; auto.
Qed.

Lemma process_unexamined_worked c s i recurse recurse_children refine st :
  process_unexamined m clock c s i recurse recurse_children refine = Ok st → worked c s st.
Proof.
  unfold process_unexamined. intros (fo & _ & Hp)%bind_Ok. apply bind_Ok in Hp as (fi & _ & Hp). apply bind_Ok in Hp as (file & _ & Hp).
  destruct (ci_type i); simplify_eq.
  - destruct (if is_temporal _ then _ else _) as [s1 young] eqn:En.
    assert (quiet s s1) as Hq.
    { destruct (is_temporal _); [|by simplify_eq]. destruct (get_now _ _) as [s2 now] eqn:E2. apply get_now_quiet in E2. by simplify_eq. }
    destruct young; [injection Hp as <-; by apply worked_same|].
    destruct (_ || _); [injection Hp as <-; apply worked_same; [done|done|by constructor]|].
    destruct (fx_hashing_files c !! _); [injection Hp as <-; by apply worked_same|].
    apply bind_Ok in Hp as (bs & _ & Hp). apply bind_Ok in Hp as (h & Hh%new_hash_newly & Hp).
    destruct (add_hash s1 h) as [s2 p] eqn:Ea. injection Hp as <-. eapply (worked_hash c s s1 h HashNew (s2, p)); eauto.
  - apply worked_same; [done|done|]. apply Forall_app. split; case_match; repeat constructor.
  - apply worked_same; [done|done|repeat constructor].
Qed.

Lemma process_child_ready_worked c s i blocks st : process_child_ready m clock c s i blocks = Ok st → worked c s st.
Proof.
  unfold process_child_ready. intros (fo & _ & Hp)%bind_Ok. apply bind_Ok in Hp as (fi & _ & Hp). apply bind_Ok in Hp as (file & _ & Hp).
  apply bind_Ok in Hp as ([| | |f] & _ & Hp).
  - injection Hp as <-. by apply worked_same.
  - apply bind_Ok in Hp as (h & Hh%new_hash_newly & Hp). destruct (add_hash s h) as [s2 p] eqn:Ea. injection Hp as <-.
    eapply (worked_hash c s s h HashExisting (s2, p)); eauto. reflexivity.
  - apply bind_Ok in Hp as (d & _ & Hp). apply bind_Ok in Hp as (s1 & Hs%push_update_quiet & [= <-]). by apply worked_same.
  - apply bind_Ok in Hp as (s1 & Hs%push_diff_quiet & [= <-]). by apply worked_same.
Qed.

Lemma schedule_hash_worked c s p st : schedule_hash this c s p = Ok st → worked c s st.
Proof.
  unfold schedule_hash. intros (h & Hh & Hp)%bind_Ok. destruct (sc_hashes s !! p) as [h'|] eqn:El; [|done]. injection Hh as ->.
  destruct (hb_errored h =? 0) eqn:Ee; cbn [negb] in Hp; [|injection Hp as <-; by apply worked_same].
  destruct (sc_pool s =? 0); [injection Hp as <-; by apply worked_same|].
  apply bind_Ok in Hp as (u & _ & Hp). apply bind_Ok in Hp as (u' & Hn%assert_Ok & [= <-]).
  eapply worked_schedule; [done|lia|done|lia|done|done|done].
Qed.

Lemma process_incomplete_worked c s i st : process_incomplete m clock c s i = Ok st → worked c s st.
Proof.
  unfold process_incomplete. destruct (get_now clock s) as [s1 now] eqn:En. apply get_now_quiet in En.
  destruct (_ <? _); [intros [= <-]; by apply worked_same|]. intros ([| |b f action] & _ & Hp)%bind_Ok; simplify_eq.
  - by apply worked_same.
  - by eapply worked_task.
  - apply bind_Ok in Hp as (h & Hh%new_hash_incomplete_newly & Hp). destruct (add_hash s1 h) as [s2 p] eqn:Ea. injection Hp as <-.
    eapply (worked_hash c s s1 h HashIncomplete (s2, p)); eauto.
Qed.

Lemma process_rehashed_worked c s r st : process_rehashed m c s r = Ok st → worked c s st.
Proof.
  unfold process_rehashed. intros (p & _ & Hp)%bind_Ok. apply bind_Ok in Hp as ([q f] & _ & Hp). apply bind_Ok in Hp as (slots & _ & Hp).
  destruct (_ =? _)%nat; cbn [negb] in Hp; [|injection Hp as <-; by eapply worked_task]. apply bind_Ok in Hp as (valid & _ & Hp).
  destruct (forallb id valid).
  { apply bind_Ok in Hp as (name & _ & [= <-]). by eapply worked_task. }
  destruct (existsb id valid); [|injection Hp as <-; by eapply worked_task].
  apply bind_Ok in Hp as (top & _ & Hp). apply bind_Ok in Hp as (x & _ & Hp). apply bind_Ok in Hp as (device & _ & Hp).
  apply bind_Ok in Hp as (available & _ & Hp). apply bind_Ok in Hp as (u & _ & Hp). apply bind_Ok in Hp as (s1 & Hs%push_diff_quiet & [= <-]).
  by apply worked_same.
Qed.

Lemma drop_ready_elem path l i : i ∈ drop_ready path l → i ∈ l.
Proof.
  induction l as [|x l IH]; [done|]. rewrite elem_of_cons. destruct x; cbn [drop_ready]; try (rewrite elem_of_cons; by intros [?|?%IH]; auto).
  destruct (same_path _ _); [by right|]. rewrite elem_of_cons. by intros [?|?%IH]; auto.
Qed.

(** Every item. *)
Lemma process_item_worked c s i st : process_item m clock busy scan_watches this c s i = Ok st → worked c s st.
Proof.
  destruct i; cbn [process_item].
  - unfold process_unscanned. destruct (match _ with Some _ => _ | None => _ end); cbn [negb]; [intros [= <-]; by apply worked_same|].
    intros (fo & _ & [= <-])%bind_Ok. by eapply worked_task.
  - apply process_unexamined_worked.
  - apply process_incomplete_worked.
  - unfold process_complete_scan. destruct (_ && _); [|intros [= <-]; by apply worked_same].
    intros (fo & _ & (s1 & Hs%push_diff_quiet & [= <-])%bind_Ok)%bind_Ok. by apply worked_same.
  - apply process_child_ready_worked.
  - intros [= <-]. eapply worked_drop; [done|done| |done]. apply drop_ready_elem.
  - apply schedule_hash_worked.
  - apply schedule_hash_worked.
  - apply schedule_hash_worked.
  - apply process_rehashed_worked.
  - unfold process_abort. case_bool_decide; [|done]. intros [= <-]. by apply worked_same.
  - unfold process_removed_dir. intros (fo & _ & (s1 & Hs%remove_loop_quiet & [= <-])%bind_Ok)%bind_Ok. by apply worked_same.
  - unfold process_confirmed_deleted. intros (fo & _ & Hp)%bind_Ok. apply bind_Ok in Hp as ([q f] & _ & Hp).
    apply bind_Ok in Hp as (s1 & Hs1%push_diff_quiet & Hp). apply bind_Ok in Hp as ([s2 l] & Hs2%children_of_quiet & Hp).
    apply bind_Ok in Hp as ([s3 dirs] & [Hs3 Hd]%confirm_children_quiet & [= <-]). apply worked_same; [|done|].
    + transitivity s1; [done|]. by transitivity s2.
    + eapply Forall_impl; [exact Hd|]. by intros i [q' ->].
  - unfold process_suspend. intros (fo & _ & (s1 & Hs%push_diff_quiet & [= <-])%bind_Ok)%bind_Ok. eapply worked_drop; [done|done| |done].
    intros i Hi. destruct (last (fx_stack c)) as [x|] eqn:El; [|by apply not_elem_of_nil in Hi]. cbn in Hi. apply list_elem_of_singleton in Hi as ->.
    apply last_Some in El as [l' ->]. apply elem_of_app. right. by apply list_elem_of_singleton.
  - unfold process_unsuspend. intros (fo & _ & (s1 & Hs%push_diff_quiet & [= <-])%bind_Ok)%bind_Ok. by apply worked_same.
Qed.
End frame.

#[export] Hint Resolve push_diff_quiet new_update_quiet push_update_quiet get_now_quiet children_of_quiet child_presence_quiet : frame.
#[export] Hint Resolve remove_loop_quiet unreachable_loop_quiet import_deleted_quiet : frame.
