(* ===== verification/StackEnds.v ===== *)
(** * StackEnds: the loop over the stack of a [FolderContext] ends: whatever an item is worked off into is lighter than the item. The
    one over the entries that are deleted elsewhere does not always. *)

From S2P Require Import Prelude Diff Version Proto DeviceId Device Path Blocks FileInfo FileStore FileMap GenericMap Folder.
From S2P Require Import Resolver BlockMap UpdateFolder FileIterator Advance Cluster Changes Trees ClusterUpdate Controller.
From S2P Require Import Watcher Disk FileIo FileActor Presence Tasks FolderContext LocalKeeper KeeperFrame ControllerSample KeeperSample.

(** Items that are worked off alone; a directory that is confirmed to be deleted is followed by all directories below it. *)
Definition settled (i : stack_item) : Prop := match i with ConfirmedDeleted _ => False | _ => True end.

Definition weight (i : stack_item) : nat :=
  match i with Unexamined _ _ _ _ => 4 | ChildReady _ _ => 2 | Incomplete _ => 2 | _ => 1 end.

Definition burden (l : list stack_item) : nat := sum_list (weight <$> l).

Lemma burden_app l l' : burden (l ++ l') = (burden l + burden l')%nat.
Proof. unfold burden. rewrite fmap_app. apply sum_list_with_app. Qed.

Lemma burden_sublist l l' : sublist l l' → (burden l <= burden l')%nat.
Proof. unfold burden. induction 1; cbn in *; lia. Qed.

Lemma Forall_sublist {A} (P : A → Prop) l l' : sublist l l' → Forall P l' → Forall P l.
Proof. induction 1; intros Hf; [done|apply Forall_cons in Hf as [??]; constructor; auto|apply Forall_cons in Hf as [??]; auto]. Qed.

Lemma weight_pos i : (0 < weight i)%nat.
Proof. destruct i; cbn; lia. Qed.

Lemma stack_fuel_burden c s : Forall settled (fx_stack c) → stack_fuel c s = burden (fx_stack c).
Proof.
  unfold stack_fuel, burden. intros Hs. f_equal. apply list_fmap_ext. intros n i Hi. pose proof (Forall_lookup_1 _ _ _ _ Hs Hi). by destruct i.
Qed.

(** An item is worked off into lighter ones. *)
Record lighter (c : folder_context) (i : stack_item) (st : step) : Prop := {
  li_pushed : (burden (sp_pushed st) < weight i)%nat;
  li_settled : Forall settled (sp_pushed st);
  li_below : sublist (fx_stack (sp_folder st)) (fx_stack c);
}.

Section ends.
Context `{Surroundings} (m : model) (clock : Z) (busy scan_watches : bool) (this : positive).

Lemma lighter_nothing c i st : sp_pushed st = [] → sublist (fx_stack (sp_folder st)) (fx_stack c) → lighter c i st.
Proof. intros Hp Hb. split; rewrite ?Hp; [apply weight_pos|done|done]. Qed.

Lemma drop_ready_sublist path l : sublist (drop_ready path l) l.
Proof.
  induction l as [|i l IH]; [done|]. destruct i; cbn [drop_ready]; try by apply sublist_skip. case_match; [by apply sublist_cons|by apply sublist_skip].
Qed.

Lemma last_sublist {A} (l : list A) : sublist (option_list (last l)) l.
Proof.
  destruct (last l) as [x|] eqn:El; [|apply sublist_nil_l]. apply last_Some in El as [l' ->]. cbn. by apply sublist_inserts_l.
Qed.

Lemma process_unexamined_lighter c s i recurse recurse_children refine st :
  process_unexamined m clock c s i recurse recurse_children refine = Ok st → lighter c (Unexamined i recurse recurse_children refine) st.
Proof.
  unfold process_unexamined. intros (fo & _ & Hp)%bind_Ok. apply bind_Ok in Hp as (fi & _ & Hp). apply bind_Ok in Hp as (file & _ & Hp).
  destruct (ci_type i); simplify_eq.
  - destruct (if is_temporal _ then _ else _) as [s1 young]. destruct young; [injection Hp as <-; by apply lighter_nothing|].
    destruct (_ || _); [injection Hp as <-; split; cbn; [lia|by constructor|done]|].
    destruct (fx_hashing_files c !! _); [injection Hp as <-; by apply lighter_nothing|].
    apply bind_Ok in Hp as (bs & _ & Hp). apply bind_Ok in Hp as (h & _ & Hp). destruct (add_hash s1 h) as [s2 p]. injection Hp as <-.
    split; cbn; [lia|by constructor|done].
  - split; [|apply Forall_app; split; case_match; repeat constructor|done]. cbn [sp_pushed]. rewrite burden_app. destruct (_ || _), (same_path _ _); cbn; lia.
  - split; cbn; [lia|by constructor|done].
Qed.

Lemma process_child_ready_lighter c s i blocks st : process_child_ready m clock c s i blocks = Ok st → lighter c (ChildReady i blocks) st.
Proof.
  unfold process_child_ready. intros (fo & _ & Hp)%bind_Ok. apply bind_Ok in Hp as (fi & _ & Hp). apply bind_Ok in Hp as (file & _ & Hp).
  apply bind_Ok in Hp as ([| | |f] & _ & Hp).
  - injection Hp as <-. by apply lighter_nothing.
  - apply bind_Ok in Hp as (h & _ & Hp). destruct (add_hash s h) as [s2 p]. injection Hp as <-. split; cbn; [lia|by constructor|done].
  - apply bind_Ok in Hp as (d & _ & Hp). apply bind_Ok in Hp as (s1 & _ & [= <-]). by apply lighter_nothing.
  - apply bind_Ok in Hp as (s1 & _ & [= <-]). by apply lighter_nothing.
Qed.

Lemma process_incomplete_lighter c s i st : process_incomplete m clock c s i = Ok st → lighter c (Incomplete i) st.
Proof.
  unfold process_incomplete. destruct (get_now clock s) as [s1 now]. destruct (_ <? _); [intros [= <-]; by apply lighter_nothing|].
  intros ([| |b f action] & _ & Hp)%bind_Ok; simplify_eq; [by apply lighter_nothing|by apply lighter_nothing|].
  apply bind_Ok in Hp as (h & _ & Hp). destruct (add_hash s1 h) as [s2 p]. injection Hp as <-. split; cbn; [lia|by constructor|done].
Qed.

Lemma schedule_hash_lighter c s p i st : schedule_hash this c s p = Ok st → lighter c i st.
Proof.
  unfold schedule_hash. intros (h & _ & Hp)%bind_Ok. destruct (negb _); [injection Hp as <-; by apply lighter_nothing|].
  destruct (_ =? _); [injection Hp as <-; by apply lighter_nothing|].
  apply bind_Ok in Hp as (u & _ & Hp). apply bind_Ok in Hp as (u' & _ & [= <-]). by apply lighter_nothing.
Qed.

Lemma process_rehashed_lighter c s r i st : process_rehashed m c s r = Ok st → lighter c i st.
Proof.
  unfold process_rehashed. intros (p & _ & Hp)%bind_Ok. apply bind_Ok in Hp as ([q f] & _ & Hp). apply bind_Ok in Hp as (slots & _ & Hp).
  destruct (negb _); [injection Hp as <-; by apply lighter_nothing|]. apply bind_Ok in Hp as (valid & _ & Hp).
  destruct (forallb id valid); [apply bind_Ok in Hp as (name & _ & [= <-]); by apply lighter_nothing|].
  destruct (existsb id valid); [|injection Hp as <-; by apply lighter_nothing].
  apply bind_Ok in Hp as (top & _ & Hp). apply bind_Ok in Hp as (x & _ & Hp). apply bind_Ok in Hp as (device & _ & Hp).
  apply bind_Ok in Hp as (available & _ & Hp). apply bind_Ok in Hp as (u & _ & Hp). apply bind_Ok in Hp as (s1 & _ & [= <-]).
  by apply lighter_nothing.
Qed.

(** Every item. *)
Lemma process_item_lighter c s i st : settled i → process_item m clock busy scan_watches this c s i = Ok st → lighter c i st.
Proof.
  intros Hi. destruct i; try done; cbn [process_item].
  - unfold process_unscanned. destruct (match _ with Some _ => _ | None => _ end); cbn [negb]; [intros [= <-]; by apply lighter_nothing|].
    intros (fo & _ & [= <-])%bind_Ok. by apply lighter_nothing.
  - apply process_unexamined_lighter.
  - apply process_incomplete_lighter.
  - unfold process_complete_scan. destruct (_ && _); [|intros [= <-]; by apply lighter_nothing].
    intros (fo & _ & (s1 & _ & [= <-])%bind_Ok)%bind_Ok. by apply lighter_nothing.
  - apply process_child_ready_lighter.
  - intros [= <-]. apply lighter_nothing; [done|]. apply drop_ready_sublist.
  - apply schedule_hash_lighter.
  - apply schedule_hash_lighter.
  - apply schedule_hash_lighter.
  - apply process_rehashed_lighter.
  - unfold process_abort. case_bool_decide; [|done]. intros [= <-]. by apply lighter_nothing.
  - unfold process_removed_dir. intros (fo & _ & (s1 & _ & [= <-])%bind_Ok)%bind_Ok. by apply lighter_nothing.
  - unfold process_suspend. intros (fo & _ & (s1 & _ & [= <-])%bind_Ok)%bind_Ok. apply lighter_nothing; [done|]. apply last_sublist.
  - unfold process_unsuspend. intros (fo & _ & (s1 & _ & [= <-])%bind_Ok)%bind_Ok. by apply lighter_nothing.
Qed.

(** With as much fuel as the stack weighs the loop does not run out of it. *)
Lemma stack_loop_ends n : ∀ c s, Forall settled (fx_stack c) → (burden (fx_stack c) <= n)%nat →
  ∃ r, ∀ n', (burden (fx_stack c) <= n')%nat → stack_loop m clock busy scan_watches this n' c s = Some r.
Proof.
  induction n as [|n IH]; intros c s Hs Hn.
  all: destruct (fx_stack c) as [|i rest] eqn:Es; [eexists; intros [|n'] _; cbn [stack_loop]; by rewrite Es|].
  all: pose proof (weight_pos i); change (burden (i :: rest)) with (weight i + burden rest)%nat in *.
  { lia. }
  apply Forall_cons in Hs as [Hi Hrest].
  destruct (process_item m clock busy scan_watches this (with_stack c rest) s i) as [st|e|] eqn:Ep.
  2, 3: eexists; intros n' Hn'; destruct n' as [|n']; [lia|]; cbn [stack_loop]; by rewrite Es, Ep.
  apply process_item_lighter in Ep as Hl; [|done]. destruct Hl as [Hp Hset Hb]. cbn in Hb. destruct (0 <? sp_answer st) eqn:Ea.
  2: { eexists; intros n' Hn'; destruct n' as [|n']; [lia|]; cbn [stack_loop]; by rewrite Es, Ep, Ea. }
  assert ((sp_answer st <? 0) = false) as Ea' by lia.
  set (c1 := with_stack (sp_folder st) (sp_pushed st ++ fx_stack (sp_folder st))).
  destruct (is_overused (sc_diffs (sp_stack st)) && negb (bool_decide (fx_stack c1 = [])) && has_no_tasks c1) eqn:Eo.
  { eexists; intros n' Hn'; destruct n' as [|n']; [lia|]; cbn [stack_loop]; rewrite Es, Ep; cbv zeta; rewrite Ea, Ea'; fold c1; by rewrite Eo. }
  pose proof (burden_sublist _ _ Hb). assert (burden (fx_stack c1) < weight i + burden rest)%nat as Hless by (cbn [c1 fx_stack with_stack]; rewrite burden_app; lia).
  destruct (IH c1 (sp_stack st)) as [r Hr]; [|lia|].
  - cbn [c1 fx_stack with_stack]. apply Forall_app. split; [done|]. by eapply Forall_sublist.
  - exists r. intros n' Hn'. destruct n' as [|n']; [lia|]. cbn [stack_loop]. rewrite Es, Ep. cbv zeta. rewrite Ea, Ea'. fold c1. rewrite Eo. apply Hr. lia.
Qed.

(** C15: the loop over the stack ends: as long as no directory that was confirmed to be deleted waits on the stack, an item that is worked off, with the
    next one tried, leaves lighter ones only, so that the loop comes to its outcome within as many rounds as the stack weighs, and any larger number
    gives the same. *)
Theorem process_stack_ends c s :
  Forall settled (fx_stack c) →
  ∃ r, (∀ n, (stack_fuel c s <= n)%nat → stack_loop m clock busy scan_watches this n c s = Some r) ∧
    process_stack m clock busy scan_watches this c s = (let* '(c, s) := r in Ok (c, s, negb (has_no_tasks c))).
Proof.
  intros Hs. pose proof (stack_fuel_burden c s Hs) as Hf. destruct (stack_loop_ends (burden (fx_stack c)) c s Hs) as [r Hr]; [done|].
  exists r. split; [intros n Hn; apply Hr; lia|]. unfold process_stack. by rewrite Hr by lia.
Qed.

(** ** Entries that are deleted elsewhere *)

Lemma push_update_view s f id s' : push_update m clock s f id = Ok s' → sc_view s' = sc_view s.
Proof.
  unfold push_update, new_update, push_diff. intros ([s1 d] & H1 & H2)%bind_Ok. apply bind_Ok in H1 as ([a n] & _ & [= <- <-]).
  by apply bind_Ok in H2 as ([b c] & _ & [= <-]).
Qed.

(** When the first of several entries that are deleted elsewhere is a directory with entries below it, the loop never comes to its
    end, however long it runs: the directory stays the first of the queue, and its entries are added again and again. *)
Theorem import_never_ends fuel id s e x b y rest s' :
  entity_at (sc_view s) e = Ok x → en_best x = Some b → presence_at (sc_view s) b = Ok y →
  has (pn_features y) F_directory = true → has (pn_features y) F_deleted = true → en_children x ≠ [] → rest ≠ [] →
  import_deleted m clock fuel id s (e :: rest) ≠ Some (Ok s').
Proof.
  intros Hx Hb Hy Hdir Hdel Hc. revert s rest Hx Hy. induction fuel as [|fuel IH]; intros s rest Hx Hy Hrest; cbn [import_deleted]; [done|].
  rewrite Hx. cbn [res_bind]. rewrite Hb. cbn [the res_bind].
  destruct (file_of m s b) as [[q f]| |]; cbn [res_bind]; try done.
  destruct (file_as_proto _ _ _ _) as [data| |]; cbn [res_bind]; try done.
  destruct (push_update m clock s data id) as [s1| |] eqn:Ep; cbn [res_bind]; try done. apply push_update_view in Ep.
  unfold features_of. rewrite Ep, Hy. cbn [res_bind]. rewrite Hdir, Hdel. cbn [andb].
  destruct rest as [|r rest]; [done|]. change (removelast (e :: r :: rest)) with (e :: removelast (r :: rest)). cbn [app].
  apply IH; [by rewrite Ep|by rewrite Ep|]. intros [_ ?]%app_nil. by apply Hc.
Qed.
End ends.

(** ** Samples *)

#[local] Existing Instance c_surroundings.

Definition e_context : folder_context :=
  let i name type := mkChild (chars "/s" ++ slash :: name) [] 7 3 type 420 None None 1 in
  mkFolderContext (chars "f") [Unexamined (i (chars "a") FILE) true true false; Unexamined (i (chars "d") DIRECTORY) true true false; CompleteScan false]
    [] false 0 0 1 ∅ ∅.

Example process_stack_ends_witness :
  let m := k_model [] [] in
  let s := new_stack (k_keeper m 5) in
  ∃ c s', stack_loop m 1000 false false 1%positive 100 e_context s = Some (Ok (c, s')) ∧
    process_stack m 1000 false false 1%positive e_context s = Ok (c, s', true).
Proof.
  intros m s. destruct (process_stack_ends m 1000 false false 1%positive e_context s) as (r & Hr & Hp); [by repeat constructor|].
  specialize (Hr 100%nat ltac:(vm_compute; lia)). pose proof Hr as Hv. vm_compute in Hv. injection Hv as <-.
  do 2 eexists. split; [exact Hr|]. rewrite Hp. reflexivity.
Defined.

(** A peer has deleted a directory with a file in it, and another file. *)
Definition e_model : model :=
  k_model [] [(1%positive, k_remote (chars "d") (Z.lor f_type_dir f_deleted)); (2%positive, k_remote (chars "d/x") (Z.lor f_type_dir f_deleted));
              (3%positive, k_remote (chars "e") (Z.lor f_type_dir f_deleted))].

Definition e_stack : stack_context := new_stack (k_keeper e_model 5).

Definition e_queue : res (list positive) :=
  let* r := the (ps_of_folder (sc_view e_stack) !! chars "f") in let* x := entity_at (sc_view e_stack) r in deleted_entities e_stack (en_children x) ∅.

Example import_never_ends_witness :
  e_queue = Ok [2%positive; 4%positive] ∧ ¬ ∃ fuel s', import_deleted e_model 1000 fuel (chars "f") e_stack [2%positive; 4%positive] = Some (Ok s').
Proof.
  split; [vm_compute; reflexivity|]. intros (fuel & s' & He). revert He.
  eapply (import_never_ends e_model 1000 fuel (chars "f") e_stack 2%positive); [vm_compute; reflexivity..|vm_compute; done|done].
Defined.
