(* ===== verification/KeeperSteps.v ===== *)
(** * KeeperSteps: the [LocalKeeper] as a machine of few kinds of steps. What matters for the hashing of files is the contexts, the files
    being hashed, the hashes that are left and what is sent to the file system; whatever the actor is sent, it goes through steps
    that put plain items on a stack, begin the hashing of a file, ask for some of its blocks, or send a task. *)

From S2P Require Import Prelude Diff Version Proto DeviceId Device Path Blocks FileInfo FileStore FileMap GenericMap Folder.
From S2P Require Import Resolver BlockMap UpdateFolder FileIterator Advance Cluster Changes Trees ClusterUpdate Controller.
From S2P Require Import Watcher Disk FileIo FileActor Presence Tasks FolderContext LocalKeeper KeeperFrame.
From stdpp Require Import relations.
Open Scope Z_scope.

Record core := mkCore {
  co_contexts : gmap positive folder_context;
  co_hashes : gmap positive hash_base;
  co_pool : Z;
  co_sent : list (positive * list task);
}.

Definition slaves_sent (l : list keeper_effect) : list (positive * list task) :=
  l ≫= λ e, match e with SendSlave p ts => [(p, ts)] | _ => [] end.

(** The core of the actor while a handler runs. *)
Definition core_of (k : keeper) (s : stack_context) : core := mkCore (lk_contexts k) (sc_hashes s) (sc_pool s) (slaves_sent (lk_out k)).

(** The core between two messages. *)
Definition idle_core (k : keeper) : core := mkCore (lk_contexts k) (lk_hashes k) (lk_hashes_left k) (slaves_sent (lk_out k)).

(** A context in which nothing has been done. *)
Record unused (c : folder_context) : Prop := {
  un_stack : Forall plain (fx_stack c);
  un_pending : fx_pending c = [];
  un_hashing : fx_hashing c = 0;
  un_files : fx_hashing_files c = ∅;
}.

Definition hash_item (q : positive) (i : stack_item) : Prop := i = HashNew q ∨ i = HashExisting q ∨ i = HashIncomplete q.

Inductive core_step : core → core → Prop :=
| step_plain p c c' ts M H n o :
    M !! p = Some c → kept c c' → grown (fx_stack c) (fx_stack c') →
    fx_pending c' = fx_pending c ++ ts → Forall light ts →
    core_step (mkCore M H n o) (mkCore (<[p := c']> M) H n o)
| step_drop p c c' M H n o :
    M !! p = Some c → kept c c' → fx_stack c' = [] → fx_pending c' = [] →
    core_step (mkCore M H n o) (mkCore (<[p := c']> M) H n o)
| step_hash p c c' q h M H n o :
    M !! p = Some c → kept c c' → H !! q = None → newly h → fx_pending c' = fx_pending c →
    (∀ i, i ∈ fx_stack c' → plain i ∨ i ∈ fx_stack c ∨ hash_item q i) →
    core_step (mkCore M H n o) (mkCore (<[p := c']> M) (<[q := h]> H) n o)
| step_schedule p c c' q h k slave M H n o :
    M !! p = Some c → kept c c' → grown (fx_stack c) (fx_stack c') → H !! q = Some h → hb_errored h = 0 →
    k = Z.min n (hb_unprocessed h) → 0 < k →
    fx_pending c' = fx_pending c ++ [Segment (segment_of p slave q h k)] →
    core_step (mkCore M H n o) (mkCore (<[p := c']> M) (<[q := with_unprocessed h (hb_unprocessed h - k)]> H) (n - k) o)
| step_send p c c' t slave M H n o :
    M !! p = Some c → pop_task c = Ok (c', t) →
    core_step (mkCore M H n o) (mkCore (<[p := c']> M) H n (o ++ [(slave, [t])]))
| step_context p c M H n o :
    M !! p = None → unused c → core_step (mkCore M H n o) (mkCore (<[p := c]> M) H n o).

Abbreviation steps := (rtc core_step).

(** ** Answers *)

(** A segment that could not be read, and a digest. *)
Inductive answer :=
| Failed (t : segment)
| Digested (q : positive) (index size : Z) (result : option bytes).

(** A file one more block of which was hashed, and what is put on the stack. *)
Definition digested (h : hash_base) (index size : Z) (result : option bytes) (h' : hash_base) (pushed : list stack_item) : Prop :=
  ∃ errored blocks,
    match result with
    | None => errored = hb_errored h + 1 ∧ blocks = hb_blocks h
    | Some hash => errored = hb_errored h ∧ note_digest h index size hash = Ok blocks
    end ∧
    let finished := hb_unhashed h - 1 =? 0 in
    h' = mkHash (hb_info h) (hb_block_size h) (hb_total h) (hb_unprocessed h) (hb_unhashed h - 1) errored (if finished then [] else blocks)
           (hb_action h) (hb_incomplete h) ∧
    pushed =
      if finished then
        [if negb (errored =? 0) then AbortHashing (ci_path (hb_info h))
         else if hb_incomplete h then RehashedIncomplete (mkRehashed (hb_info h) blocks (hb_action h))
         else ChildReady (hb_info h) blocks]
      else [].

Inductive answer_step : answer → core → core → Prop :=
| answer_failed p c c' h t ts M H n o :
    M !! p = Some c → H !! hc_file (sg_context t) = Some h → fx_folder_id c' = fx_folder_id c →
    fx_stack c' = fx_stack c → fx_pending c' = fx_pending c ++ ts → Forall light ts →
    answer_step (Failed t) (mkCore M H n o)
      (mkCore (<[p := c']> M) (<[hc_file (sg_context t) := (commit_error h (sg_block_count t - sg_current_block t)).1]> H)
         (n + (sg_block_count t - sg_current_block t)) o)
| answer_digested p c c' q h h' pushed index size result M H n o :
    M !! p = Some c → H !! q = Some h → digested h index size result h' pushed →
    fx_folder_id c' = fx_folder_id c → fx_stack c' = pushed ++ fx_stack c → fx_pending c' = fx_pending c →
    answer_step (Digested q index size result) (mkCore M H n o) (mkCore (<[p := c']> M) (<[q := h']> H) (n + 1) o).

(** Steps with answers between them. *)
Inductive trail : list answer → core → core → Prop :=
| trail_nil x y : steps x y → trail [] x y
| trail_cons a l x y y' z : steps x y → answer_step a y y' → trail l y' z → trail (a :: l) x z.

Lemma trail_steps_l l x y z : steps x y → trail l y z → trail l x z.
Proof. intros Hx Hy. destruct Hy; [apply trail_nil|eapply trail_cons; [|done|done]]; by etrans. Qed.

Lemma trail_steps_r l x y z : trail l x y → steps y z → trail l x z.
Proof. induction 1; intros Hz; [apply trail_nil; by etrans|]. eapply trail_cons; [done|done|auto]. Qed.

(** The segments of returned tasks that failed. *)
Definition failed (ts : list task) : list answer :=
  ts ≫= λ t, match t with Segment t => match sg_ec t with Some _ => [Failed t] | None => [] end | _ => [] end.

Lemma slaves_sent_app l l' : slaves_sent (l ++ l') = slaves_sent l ++ slaves_sent l'.
Proof. apply bind_app. Qed.

Section steps.
Context `{Surroundings} (utf8_valid : bytes → bool) (impl : watcher_impl) (m : model) (clock : Z).

(** ** One context *)

(** An item is worked on. *)
Lemma process_item_steps busy p c s i rest M o st :
  fx_stack c = i :: rest → M !! p = Some c →
  process_item m clock busy (scan_watches impl) p (with_stack c rest) s i = Ok st →
  let below := fx_stack (sp_folder st) in
  let c' := with_stack (sp_folder st) (sp_pushed st ++ if sp_answer st <? 0 then i :: below else below) in
  core_step (mkCore M (sc_hashes s) (sc_pool s) o) (mkCore (<[p := c']> M) (sc_hashes (sp_stack st)) (sc_pool (sp_stack st)) o).
Proof.
  intros Hst Hp Hi below c'.
  assert (∀ j, j ∈ fx_stack c' → j ∈ sp_pushed st ++ below ∨ j = i) as Hc'.
  { intros j. cbn. rewrite elem_of_app. case_match; rewrite ?elem_of_cons, ?elem_of_app; tauto. }
  assert (∀ j, j ∈ rest → j ∈ fx_stack c) as Hrest by (intros j Hj; rewrite Hst; by right).
  assert (i ∈ fx_stack c) as Hin by (rewrite Hst; left).
  apply process_item_worked in Hi as [Hq Hk Hg (ts & Hts & Hf)|s1 q h Hq Hf Hn Hs Hc Hpu|q h n Hh He Hn H0 Hs Hc Hpu].
  - rewrite (qu_hashes _ _ Hq), (qu_pool _ _ Hq). eapply (step_plain p c _ ts); [done| | |done|done].
    + destruct Hk. by split.
    + intros j [Hj| ->]%Hc'; [|by right]. destruct (Hg j Hj) as [?|?]; [by left|right; by apply Hrest].
  - rewrite Hs. cbn. rewrite (qu_hashes _ _ Hq), (qu_pool _ _ Hq). eapply (step_hash p c _ q h); [done| |done|done| |].
    + unfold c'. rewrite Hc. by split.
    + unfold c'. by rewrite Hc.
    + intros j [Hj| ->]%Hc'; [|by right; left]. unfold below in Hj. rewrite Hc in Hj. cbn in Hj. apply elem_of_app in Hj as [Hj|Hj].
      * right. right. unfold hash_item. destruct Hpu as [Hpu|[Hpu|Hpu]]; rewrite Hpu in Hj; apply list_elem_of_singleton in Hj; auto.
      * right. left. by apply Hrest.
  - rewrite Hs. cbn. eapply (step_schedule p c _ q h n (sc_slave s)); [done| | |done|done|done|done|].
    + unfold c'. rewrite Hc. by split.
    + intros j [Hj| ->]%Hc'; [|by right]. unfold below in Hj. rewrite Hc, Hpu in Hj. cbn in Hj. right. by apply Hrest.
    + unfold c'. by rewrite Hc.
Qed.

Lemma plain_task_steps p c t M H' n o :
  M !! p = Some c → light t → core_step (mkCore M H' n o) (mkCore (<[p := push_task c t]> M) H' n o).
Proof.
  intros Hp Ht. eapply (step_plain p c _ [t]); [done|by apply kept_pending|apply grown_refl|done|by constructor].
Qed.

Lemma stack_loop_steps busy p fuel : ∀ c s M o c' s',
  M !! p = Some c → stack_loop m clock busy (scan_watches impl) p fuel c s = Some (Ok (c', s')) →
  steps (mkCore M (sc_hashes s) (sc_pool s) o) (mkCore (<[p := c']> M) (sc_hashes s') (sc_pool s') o).
Proof.
  induction fuel as [|fuel IH]; intros c s M o c' s' Hp Hl; cbn [stack_loop] in Hl; destruct (fx_stack c) as [|i rest] eqn:Es; try done.
  1, 2: injection Hl as <- <-; rewrite insert_id by done; apply rtc_refl.
  destruct (process_item m clock busy (scan_watches impl) p (with_stack c rest) s i) as [st|e|] eqn:Hi; [|done..]. pose proof (process_item_steps busy p c s i rest M o st Es Hp Hi) as Hstep. cbv zeta in Hstep.
  set (c1 := with_stack (sp_folder st) _) in *. eapply rtc_l; [exact Hstep|].
  destruct (0 <? sp_answer st); [|injection Hl as <- <-; apply rtc_refl].
  destruct (_ && _).
  - injection Hl as <- <-. apply rtc_once.
    replace (<[p := push_task c1 Noop]> M) with (<[p := push_task c1 Noop]> (<[p := c1]> M)) by apply insert_insert_eq.
    apply plain_task_steps; [by rewrite lookup_insert_eq|done].
  - apply (IH _ _ (<[p := c1]> M) o) in Hl; [|apply lookup_insert_eq]. by rewrite insert_insert_eq in Hl.
Qed.

(** ** Slaves *)

(** Lists of tasks that wait are sent at once, so that none are left between two messages. *)
Definition tidy (k : keeper) : Prop := map_Forall (λ _ sv, sv_tasks_in sv = []) (lk_slaves k).

(** A part of a handler. *)
Record handled (k : keeper) (s : stack_context) (k' : keeper) (s' : stack_context) : Prop := {
  ha_steps : steps (core_of k s) (core_of k' s');
  ha_tidy : tidy k → tidy k';
  ha_out : ∃ new, lk_out k' = lk_out k ++ new;
}.

Lemma handled_refl k s : handled k s k s.
Proof. split; [apply rtc_refl|done|]. exists []. by rewrite app_nil_r. Qed.

Lemma handled_trans k1 s1 k2 s2 k3 s3 : handled k1 s1 k2 s2 → handled k2 s2 k3 s3 → handled k1 s1 k3 s3.
Proof.
  intros [H1 T1 [n1 O1]] [H2 T2 [n2 O2]]. split; [by etrans|auto|]. exists (n1 ++ n2). by rewrite O2, O1, app_assoc.
Qed.

(** Nothing of the core changes. *)
Lemma handled_same k s k' s' :
  lk_contexts k' = lk_contexts k → lk_slaves k' = lk_slaves k → lk_out k' = lk_out k →
  sc_pool s' = sc_pool s → sc_hashes s' = sc_hashes s → handled k s k' s'.
Proof.
  intros Hc Hs Ho Hp Hh. split.
  - unfold core_of. rewrite Hc, Ho, Hp, Hh. apply rtc_refl.
  - unfold tidy. by rewrite Hs.
  - exists []. by rewrite Ho, app_nil_r.
Qed.

Lemma handled_emit k s e : (∀ p ts, e ≠ SendSlave p ts) → handled k s (emit k e) s.
Proof.
  intros He. split; [|done|by exists [e]]. unfold core_of. cbn. rewrite slaves_sent_app.
  assert (slaves_sent [e] = []) as -> by (destruct e; try done; by edestruct He). rewrite app_nil_r. apply rtc_refl.
Qed.

Lemma set_slave_handled k s p sv : (tidy k → sv_tasks_in sv = []) → handled k s (set_slave k p sv) s.
Proof.
  intros Hsv. split; [apply rtc_refl| |exists []; by rewrite app_nil_r]. intros Ht. unfold tidy. cbn. apply map_Forall_insert_2; [by apply Hsv|done].
Qed.

Lemma tidy_lookup k p sv : tidy k → lk_slaves k !! p = Some sv → sv_tasks_in sv = [].
Proof. intros Ht. apply (map_Forall_lookup_1 _ _ _ _ Ht). Qed.

(** One context changes by a step. *)
Lemma context_step_handled k s p c c' s' :
  lk_contexts k !! p = Some c →
  (∀ M o, M !! p = Some c → steps (mkCore M (sc_hashes s) (sc_pool s) o) (mkCore (<[p := c']> M) (sc_hashes s') (sc_pool s') o)) →
  handled k s (put_context k p c') s'.
Proof. intros Hp Hst. split; [by apply Hst|done|]. exists []. by rewrite app_nil_r. Qed.

Lemma regenerated_handled k s p c g scans l :
  lk_contexts k !! p = Some c → grown (fx_stack c) l → handled k s (put_context k p (with_stack (with_generation c g scans) l)) s.
Proof.
  intros Hp Hl. apply (context_step_handled k s p c); [done|]. intros M o HM. apply rtc_once.
  by eapply (step_plain p c _ []); [done|split| |cbn; by rewrite app_nil_r|].
Qed.

Lemma process_context_handled k s p k' s' b : process_context impl m clock k s p = Ok (k', s', b) → handled k s k' s'.
Proof.
  unfold process_context, context_at. intros (c & Hc & Hp)%bind_Ok. destruct (lk_contexts k !! p) as [c0|] eqn:Ec; [|done]. injection Hc as ->.
  apply bind_Ok in Hp as ([[c1 s1] pending] & Hp & [= <- <- <-]). unfold process_stack in Hp. apply bind_Ok in Hp as ([c2 s2] & Hl & [= <- <- <-]).
  destruct (stack_loop _ _ _ _ _ _ _ _) as [r|] eqn:Hloop; [subst r|done].
  apply (context_step_handled k s p c); [done|]. intros M o HM. by eapply stack_loop_steps.
Qed.

Lemma adjust_grown g l : grown l (adjust_item g <$> l).
Proof. intros i (j & -> & Hj)%list_elem_of_fmap. destruct j; try by right. by left. Qed.

Lemma adjust_contexts_handled g s : ∀ l k k', adjust_contexts g l k = Ok k' → handled k s k' s ∧ lk_slaves k' = lk_slaves k.
Proof.
  induction l as [|p l IH]; intros k k' Ha; cbn [adjust_contexts] in Ha; [injection Ha as <-; split; [apply handled_refl|done]|].
  apply bind_Ok in Ha as (c & Hc & Ha). unfold context_at in Hc. destruct (lk_contexts k !! p) as [c0|] eqn:Ec; [|done]. injection Hc as ->.
  apply IH in Ha as [Hh Hs]. destruct (g =? 0); [done|]. split; [|done]. eapply handled_trans; [|exact Hh].
  apply (context_step_handled k s p c); [done|]. intros M o HM. apply rtc_once.
  by eapply (step_plain p c _ []); [done|split|apply adjust_grown|cbn; by rewrite app_nil_r|].
Qed.

Lemma push_contexts_handled k s slave l k' : push_contexts k slave l = Ok k' → handled k s k' s.
Proof.
  unfold push_contexts. intros (sv & Hsv & Hp)%bind_Ok. destruct (lk_slaves k !! slave) as [sv0|] eqn:Es; [|done]. injection Hsv as ->.
  apply bind_Ok in Hp as (g & _ & Hp). apply bind_Ok in Hp as (k1 & [Ha Hs]%(adjust_contexts_handled g s) & [= <-]).
  eapply handled_trans; [exact Ha|]. apply set_slave_handled. intros Ht. cbn. eapply tidy_lookup; [exact Ht|]. by rewrite Hs.
Qed.

Lemma pop_context_handled k s slave k' : pop_context k slave = Ok k' → handled k s k' s.
Proof.
  unfold pop_context. intros (sv & Hsv & Hp)%bind_Ok. destruct (lk_slaves k !! slave) as [sv0|] eqn:Es; [|done]. injection Hsv as ->.
  apply bind_Ok in Hp as (k1 & Hk & [= <-]).
  assert (handled k s k1 s ∧ lk_slaves k1 = lk_slaves k) as [Hh Hs].
  { destruct (sv_contexts sv) as [|p [|q l]]; try (injection Hk as <-; split; [apply handled_refl|done]).
    apply bind_Ok in Hk as (c & _ & Hk). apply bind_Ok in Hk as (d & Hd & [= <-]). unfold context_at in Hd.
    destruct (lk_contexts k !! q) as [d0|] eqn:Ed; [|done]. injection Hd as ->. split; [|done].
    apply (context_step_handled k s q d); [done|]. intros M o HM. apply rtc_once.
    by eapply (step_plain q d _ []); [done|split|apply grown_refl|cbn; by rewrite app_nil_r|]. }
  eapply handled_trans; [exact Hh|]. apply set_slave_handled. intros Ht. cbn. eapply tidy_lookup; [exact Ht|]. by rewrite Hs.
Qed.

Lemma pop_if_done_handled k s slave p b k' r : pop_if_done k slave p b = Ok (k', r) → handled k s k' s.
Proof.
  unfold pop_if_done. intros (c & _ & Hp)%bind_Ok. destruct (_ && _); [|injection Hp as <- <-; apply handled_refl].
  apply bind_Ok in Hp as (k1 & Hk & [= <- <-]). by eapply pop_context_handled.
Qed.

Lemma work_off_handled slave fuel : ∀ k s pending k' s' r, work_off impl m clock fuel k s slave pending = Ok (k', s', r) → handled k s k' s'.
Proof.
  induction fuel as [|fuel IH]; intros k s pending k' s' r Hw; cbn [work_off] in Hw; apply bind_Ok in Hw as (sv & _ & Hw);
    destruct (sv_contexts sv) as [|p l]; try (injection Hw as <- <- <-; apply handled_refl);
    destruct pending; try done; try (injection Hw as <- <- <-; apply handled_refl).
  apply bind_Ok in Hw as ([[k1 s1] pending] & Hp & Hw). apply bind_Ok in Hw as ([k2 popped] & Hpop & Hw).
  apply process_context_handled in Hp. apply (pop_if_done_handled _ s1) in Hpop.
  eapply handled_trans; [exact Hp|]. eapply handled_trans; [exact Hpop|].
  destruct popped; [by eapply IH|]. injection Hw as <- <- <-. apply handled_refl.
Qed.

Lemma with_slave_handled k s p : handled k s k (with_slave s p).
Proof. split; [apply rtc_refl|done|]. exists []. by rewrite app_nil_r. Qed.

Lemma process_slave_handled k s slave k' s' r : process_slave impl m clock k s slave = Ok (k', s', r) → handled k s k' s'.
Proof.
  unfold process_slave. intros (sv & _ & Hp)%bind_Ok. destruct (sv_contexts sv) as [|p l]; [done|].
  apply bind_Ok in Hp as ([[k1 s1] pending] & H1%process_context_handled & Hp). apply bind_Ok in Hp as ([k2 popped] & H2 & Hp).
  apply (pop_if_done_handled _ s1) in H2. apply work_off_handled in Hp.
  eapply handled_trans; [apply with_slave_handled|]. eapply handled_trans; [exact H1|]. by eapply handled_trans.
Qed.

(** A slave is sent with the first task of its first context. *)
Lemma send_slave_handled k s slave k' : tidy k → send_slave k slave = Ok k' → handled k s k' s.
Proof.
  unfold send_slave, prepare_task. intros Ht (k1 & Hk & Hp)%bind_Ok. apply bind_Ok in Hk as (sv & Hsv & Hk).
  destruct (lk_slaves k !! slave) as [sv0|] eqn:Es; [|done]. injection Hsv as ->. destruct (sv_contexts sv) as [|p l] eqn:El; [done|].
  apply bind_Ok in Hk as (c & Hc & Hk). unfold context_at in Hc. destruct (lk_contexts k !! p) as [c0|] eqn:Ec; [|done]. injection Hc as ->.
  apply bind_Ok in Hk as ([c' t] & Hpop & [= <-]). cbn in Hp. rewrite lookup_insert_eq in Hp. cbn in Hp. injection Hp as <-.
  rewrite (tidy_lookup _ _ _ Ht Es). split.
  - unfold core_of. cbn. rewrite slaves_sent_app. apply rtc_once. by eapply step_send.
  - intros _. unfold tidy. cbn. rewrite insert_insert_eq. by apply map_Forall_insert_2.
  - by eexists.
Qed.

Lemma hand_over_delayed_handled k s slave k' : hand_over_delayed k slave = Ok k' → handled k s k' s.
Proof.
  unfold hand_over_delayed. destruct (lk_delayed k) eqn:Ed; [intros [= <-]; apply handled_refl|].
  intros (k1 & H1%(push_contexts_handled _ s) & [= <-])%bind_Ok. eapply handled_trans; [exact H1|]. by apply handled_same.
Qed.

(** ** What comes back *)

Lemma posted_steps p c s c' s' M o :
  M !! p = Some c → posted c s c' s' → core_step (mkCore M (sc_hashes s) (sc_pool s) o) (mkCore (<[p := c']> M) (sc_hashes s') (sc_pool s') o).
Proof.
  intros Hp [[Hpool Hh _] Hk Hg (ts & Hts & Hf)]. rewrite Hpool, Hh. by eapply (step_plain p c _ ts).
Qed.

Lemma post_segment_path p c s t c' s' M o :
  M !! p = Some c → post_segment m c s t = Ok (c', s') →
  trail (failed [Segment t]) (mkCore M (sc_hashes s) (sc_pool s) o) (mkCore (<[p := c']> M) (sc_hashes s') (sc_pool s') o).
Proof.
  intros Hp. unfold post_segment. destruct (sg_ec t) as [e|] eqn:Ee.
  - assert (failed [Segment t] = [Failed t]) as -> by (unfold failed; cbn; by rewrite Ee).
    intros (h & Hh & Hf)%bind_Ok. cbn [sc_hashes with_pool] in Hh. destruct (sc_hashes s !! hc_file (sg_context t)) as [h0|] eqn:El; [|done]. injection Hh as ->.
    apply bind_Ok in Hf as (files & _ & Hf). destruct (commit_error h _) as [h1 all_failed] eqn:Ec.
    assert (h1 = (commit_error h (sg_block_count t - sg_current_block t)).1) as Hh1 by by rewrite Ec.
    assert (∀ c2 s2 ts, fx_folder_id c2 = fx_folder_id c → fx_stack c2 = fx_stack c → fx_pending c2 = fx_pending c ++ ts → Forall light ts →
      sc_hashes s2 = <[hc_file (sg_context t) := h1]> (sc_hashes s) → sc_pool s2 = sc_pool s + (sg_block_count t - sg_current_block t) →
      trail [Failed t] (mkCore M (sc_hashes s) (sc_pool s) o) (mkCore (<[p := c2]> M) (sc_hashes s2) (sc_pool s2) o)) as Hdone.
    { intros c2 s2 ts H1 H2 H3 H4 -> ->. eapply trail_cons; [apply rtc_refl| |apply trail_nil, rtc_refl]. rewrite Hh1. by eapply answer_failed. }
    destruct all_failed; [|injection Hf as Ec' Es'; apply (Hdone c' s' []); rewrite <- ?Ec', <- ?Es'; [..|cbn; by rewrite app_nil_r| | |]; done].
    apply bind_Ok in Hf as ([q|] & _ & Hf).
    + apply bind_Ok in Hf as ([x f] & _ & Hf). apply bind_Ok in Hf as (s1 & [Hs1 Hs2 _]%push_diff_quiet & Hf).
      injection Hf as Ec' Es'. apply (Hdone c' s' []); rewrite <- ?Ec', <- ?Es'; [done|done|cbn; by rewrite app_nil_r|done|by rewrite Hs2|by rewrite Hs1].
    + injection Hf as Ec' Es'.
      destruct (hb_incomplete h1); [apply (Hdone c' s' [RemoveFile (sg_path t) None])|apply (Hdone c' s' [])]; rewrite <- ?Ec', <- ?Es'; try done.
      * by constructor.
      * cbn. by rewrite app_nil_r.
  - assert (failed [Segment t] = []) as -> by (unfold failed; cbn; by rewrite Ee).
    intros [= <- <-]. apply trail_nil, rtc_once. by eapply (step_plain p c _ []); [done|split|apply grown_refl|cbn; by rewrite app_nil_r|].
Qed.

Lemma post_task_path p c s t c' s' M o :
  M !! p = Some c → post_task m clock utf8_valid c s t = Ok (c', s') →
  trail (failed [t]) (mkCore M (sc_hashes s) (sc_pool s) o) (mkCore (<[p := c']> M) (sc_hashes s') (sc_pool s') o).
Proof.
  intros Hp Ht. destruct t; cbn [post_task] in Ht.
  - apply trail_nil, rtc_once. apply (posted_steps p c); [done|]. by eapply post_scan_frame.
  - by eapply post_segment_path.
  - injection Ht as <- <-. rewrite insert_id by done. apply trail_nil, rtc_refl.
  - apply trail_nil, rtc_once. apply (posted_steps p c); [done|]. by eapply post_rename_frame.
  - injection Ht as <- <-. rewrite insert_id by done. apply trail_nil, rtc_refl.
Qed.

Lemma trail_app l l' x y z : trail l x y → trail l' y z → trail (l ++ l') x z.
Proof. induction 1; intros Hz; [by eapply trail_steps_l|]. cbn. eapply trail_cons; [done|done|auto]. Qed.

Lemma post_tasks_path p : ∀ ts c s c' s' M o,
  M !! p = Some c → post_tasks m clock utf8_valid c s ts = Ok (c', s') →
  trail (failed ts) (mkCore M (sc_hashes s) (sc_pool s) o) (mkCore (<[p := c']> M) (sc_hashes s') (sc_pool s') o).
Proof.
  induction ts as [|t ts IH]; intros c s c' s' M o Hp Ht; cbn [post_tasks] in Ht.
  { injection Ht as <- <-. rewrite insert_id by done. apply trail_nil, rtc_refl. }
  apply bind_Ok in Ht as ([c1 s1] & H1 & Ht). change (t :: ts) with ([t] ++ ts). unfold failed. rewrite bind_app.
  eapply trail_app; [by eapply post_task_path|]. eapply (IH c1 s1 _ _ (<[p := c1]> M) o) in Ht; [|apply lookup_insert_eq].
  by rewrite insert_insert_eq in Ht.
Qed.

(** Is the folder of a context there? *)
Definition folder_there (c : folder_context) : bool := match folder_by_id (folders_of m) (fx_folder_id c) with Some _ => true | None => false end.

Lemma ensure_spec c : ensure_folder_existance m c = if folder_there c then (c, true) else (with_pending (with_stack c []) [], false).
Proof. unfold ensure_folder_existance, folder_there. by destruct (folder_by_id _ _). Qed.

Lemma drop_steps p c M H' n o : M !! p = Some c → core_step (mkCore M H' n o) (mkCore (<[p := with_pending (with_stack c []) []]> M) H' n o).
Proof. intros Hp. by eapply (step_drop p c). Qed.

Lemma post_process_path p c s ts c' s' M o :
  M !! p = Some c → post_process m clock utf8_valid c s ts = Ok (c', s') →
  trail (if folder_there c then failed ts else []) (mkCore M (sc_hashes s) (sc_pool s) o) (mkCore (<[p := c']> M) (sc_hashes s') (sc_pool s') o).
Proof.
  intros Hp. unfold post_process. rewrite ensure_spec. destruct (folder_there c).
  - intros (u & _ & Ht)%bind_Ok. set (c1 := with_in_progress c _) in Ht. eapply trail_steps_l.
    + apply rtc_once. by eapply (step_plain p c c1 []); [done|split|apply grown_refl|cbn; by rewrite app_nil_r|].
    + eapply (post_tasks_path p ts c1 s _ _ (<[p := c1]> M) o) in Ht; [|apply lookup_insert_eq]. by rewrite insert_insert_eq in Ht.
  - intros [= <- <-]. apply trail_nil, rtc_once. by apply drop_steps.
Qed.

Lemma post_digest_path p c s q index size result c' s' M o :
  M !! p = Some c → post_digest m c s q index size result = Ok (c', s') →
  trail (if folder_there c then [Digested q index size result] else [])
    (mkCore M (sc_hashes s) (sc_pool s) o) (mkCore (<[p := c']> M) (sc_hashes s') (sc_pool s') o).
Proof.
  intros Hp. unfold post_digest. rewrite ensure_spec. destruct (folder_there c); cbn [negb]; [|intros [= <- <-]; apply trail_nil, rtc_once; by apply drop_steps].
  intros (h & Hh & Hd)%bind_Ok. destruct (sc_hashes s !! q) as [h0|] eqn:Eq; [|done]. injection Hh as ->.
  apply bind_Ok in Hd as (u & _ & Hd). apply bind_Ok in Hd as (files & _ & Hd). apply bind_Ok in Hd as ([errored blocks] & Hr & [= <- <-]).
  eapply trail_cons; [apply rtc_refl| |apply trail_nil, rtc_refl]. cbn [sc_hashes sc_pool with_pool put_hash].
  eapply (answer_digested p c _ q h); [done|done| | | |].
  - exists errored, blocks. split; [|cbv zeta; by split]. destruct result; [|by injection Hr as <- <-].
    apply bind_Ok in Hr as (bl & Hn & [= <- <-]). done.
  - by destruct (_ =? 0).
  - by destruct (_ =? 0).
  - by destruct (_ =? 0).
Qed.

(** ** Messages *)

(** A part of a handler that takes answers. *)
Definition answered (l : list answer) (k : keeper) (s : stack_context) (k' : keeper) (s' : stack_context) : Prop :=
  trail l (core_of k s) (core_of k' s') ∧ (tidy k → tidy k').

Lemma handled_answered k s k' s' : handled k s k' s' → answered [] k s k' s'.
Proof. intros [Hs Ht]. split; [by apply trail_nil|done]. Qed.

Lemma answered_l l k1 s1 k2 s2 k3 s3 : handled k1 s1 k2 s2 → answered l k2 s2 k3 s3 → answered l k1 s1 k3 s3.
Proof. intros [Hs Ht] [Hp Ht']. split; [by eapply trail_steps_l|auto]. Qed.

Lemma answered_r l k1 s1 k2 s2 k3 s3 : answered l k1 s1 k2 s2 → handled k2 s2 k3 s3 → answered l k1 s1 k3 s3.
Proof. intros [Hp Ht'] [Hs Ht]. split; [by eapply trail_steps_r|auto]. Qed.

Lemma slave_post_process_answered k s slave ts k' s' r :
  slave_post_process utf8_valid impl m clock k s slave ts = Ok (k', s', r) → ∃ l, (l = failed ts ∨ l = []) ∧ answered l k s k' s'.
Proof.
  unfold slave_post_process. intros (sv & _ & Hp)%bind_Ok. destruct (sv_contexts sv) as [|p cs]; [done|].
  apply bind_Ok in Hp as (c & Hc & Hp). unfold context_at in Hc. destruct (lk_contexts k !! p) as [c0|] eqn:Ec; [|done]. injection Hc as ->.
  apply bind_Ok in Hp as ([c1 s1] & H1 & Hp%process_slave_handled).
  exists (if folder_there c then failed ts else []). split; [case_match; auto|].
  eapply answered_r; [|exact Hp]. split; [|done].
  exact (post_process_path p c (with_slave s slave) ts c1 s1 (lk_contexts k) (slaves_sent (lk_out k)) Ec H1).
Qed.

Lemma slave_post_digest_answered k s hc index size result k' s' r :
  slave_post_digest impl m clock k s hc index size result = Ok (k', s', r) →
  ∃ l, (l = [Digested (hc_file hc) index size result] ∨ l = []) ∧ answered l k s k' s'.
Proof.
  unfold slave_post_digest. intros (c & Hc & Hp)%bind_Ok. unfold context_at in Hc.
  destruct (lk_contexts k !! hc_folder hc) as [c0|] eqn:Ec; [|done]. injection Hc as ->.
  apply bind_Ok in Hp as ([c1 s1] & H1 & Hp%work_off_handled).
  exists (if folder_there c then [Digested (hc_file hc) index size result] else []). split; [case_match; auto|].
  eapply answered_r; [|exact Hp]. split; [|done].
  exact (post_digest_path (hc_folder hc) c (with_slave s (hc_slave hc)) (hc_file hc) index size result c1 s1 (lk_contexts k)
           (slaves_sent (lk_out k)) Ec H1).
Qed.

(** Whatever ends a message. *)
Lemma finish_handled k s l k' : tidy k → finish impl m clock k s l = Ok k' → handled k s k' (new_stack k').
Proof.
  intros Ht. unfold finish. intros ([k1 s1] & H1 & [= <-])%bind_Ok.
  assert (handled k s k1 s1) as Hh.
  { destruct l as [|p l]; [injection H1 as <- <-; apply handled_refl|].
    destruct (busy k); [injection H1 as <- <-; by apply handled_same|].
    apply bind_Ok in H1 as (k2 & H2%(push_contexts_handled _ s) & H1). apply bind_Ok in H1 as ([[k3 s3] pending] & H3%process_slave_handled & H1).
    assert (handled k s k3 s3) as Hk3.
    { eapply handled_trans; [by apply (set_slave_handled k s (fresh (dom (lk_slaves k))) (mkSlave [] []))|]. by eapply handled_trans. }
    destruct pending; [|by injection H1 as <- <-]. apply bind_Ok in H1 as (k4 & H4 & [= <- <-]).
    eapply handled_trans; [exact Hk3|]. eapply send_slave_handled; [|done]. by apply Hk3. }
  eapply handled_trans; [exact Hh|]. destruct (has_diffs _); [apply (handled_trans _ _ (emit k1 (SendChanges (a_root (sc_diffs s1)))) s1); [by apply handled_emit|]|]; by apply handled_same.
Qed.

(** Contexts that were delayed come with nothing else. *)
Lemma adjust_contexts_stack g : ∀ l k k', adjust_contexts g l k = Ok k' → new_stack k' = new_stack k.
Proof.
  induction l as [|p l IH]; intros k k' Ha; cbn [adjust_contexts] in Ha; [by injection Ha as <-|].
  apply bind_Ok in Ha as (c & _ & Ha%IH). rewrite Ha. by case_match.
Qed.

Lemma hand_over_delayed_stack k slave k' : hand_over_delayed k slave = Ok k' → new_stack k' = new_stack k.
Proof.
  unfold hand_over_delayed, push_contexts. destruct (lk_delayed k); [by intros [= <-]|]. intros (k1 & Hp & [= <-])%bind_Ok.
  apply bind_Ok in Hp as (sv & _ & Hp). apply bind_Ok in Hp as (g & _ & Hp). by apply bind_Ok in Hp as (k2 & Ha%adjust_contexts_stack & [= <-]).
Qed.

(** The end of both kinds of answers. *)
Lemma answer_ends l k s k1 s1 (b : bool) slave k' :
  tidy k → answered l k s k1 s1 → (let* k2 := if b then send_slave k1 slave else Ok k1 in finish impl m clock k2 s1 []) = Ok k' →
  trail l (core_of k s) (idle_core k') ∧ tidy k'.
Proof.
  intros Ht Ha (k2 & H2 & Hf)%bind_Ok. assert (handled k1 s1 k2 s1) as Hh.
  { destruct b; [|injection H2 as <-; apply handled_refl]. eapply send_slave_handled; [by apply Ha|done]. }
  eapply answered_r in Ha; [|exact Hh]. apply finish_handled in Hf; [|by apply Ha]. eapply answered_r in Ha; [|exact Hf].
  destruct Ha as [Hp Hk]. split; [exact Hp|auto].
Qed.

Lemma on_post_process_path k slave err ts k' :
  tidy k → on_post_process utf8_valid impl m clock k slave err ts = Ok k' →
  ∃ l, (l = failed ts ∨ l = []) ∧ trail l (idle_core k) (idle_core k') ∧ tidy k'.
Proof.
  intros Ht. unfold on_post_process. intros (u & _ & Hp)%bind_Ok.
  destruct (lk_operational _); [|injection Hp as <-; exists []; split_and!; [by right|apply trail_nil, rtc_refl|done]].
  apply bind_Ok in Hp as (k1 & H1 & Hp). rewrite (hand_over_delayed_stack _ _ _ H1) in Hp.
  apply (hand_over_delayed_handled _ (new_stack k)) in H1.
  apply bind_Ok in Hp as ([[k2 s2] pending] & (l & Hl & H2)%slave_post_process_answered & Hp).
  exists l. split; [done|]. eapply answered_l in H2; [|exact H1]. by eapply answer_ends in Hp; [..|exact H2].
Qed.

Lemma on_digest_path k hc index size result k' :
  tidy k → on_digest impl m clock k hc index size result = Ok k' →
  ∃ l, (l = [Digested (hc_file hc) index size result] ∨ l = []) ∧ trail l (idle_core k) (idle_core k') ∧ tidy k'.
Proof.
  intros Ht. unfold on_digest. destruct (lk_operational k); [|intros [= <-]; exists []; split_and!; [by right|apply trail_nil, rtc_refl|done]].
  intros (k1 & H1 & Hp)%bind_Ok. rewrite (hand_over_delayed_stack _ _ _ H1) in Hp. apply (hand_over_delayed_handled _ (new_stack k)) in H1.
  apply bind_Ok in Hp as ([[k2 s2] pending] & (l & Hl & H2)%slave_post_digest_answered & Hp).
  exists l. split; [done|]. eapply answered_l in H2; [|exact H1]. by eapply answer_ends in Hp; [..|exact H2].
Qed.

(** *** Events of the watcher *)

Lemma just_created_handled k s s' x : quiet s s' → handled k s (set_just_created k x) s'.
Proof. intros [Hp Hh _]. by apply handled_same. Qed.

Lemma quiet_handled k s s' : quiet s s' → handled k s k s'.
Proof. intros [Hp Hh _]. by apply handled_same. Qed.

Lemma rename_one_handled k x fo prev new ds p k' x' ds' l :
  rename_one m clock k x fo prev new ds p = Ok (k', x', ds', l) → handled k (lc_stack x) k' (lc_stack x').
Proof.
  unfold rename_one. intros (f & _ & Hr)%bind_Ok. apply bind_Ok in Hr as (u & _ & Hr). apply bind_Ok in Hr as (added & _ & Hr).
  apply bind_Ok in Hr as (removed & _ & Hr). apply bind_Ok in Hr as ([s1 d1] & H1%new_update_quiet & Hr).
  apply bind_Ok in Hr as (s2 & H2%push_diff_quiet & Hr). apply bind_Ok in Hr as ([s3 d3] & H3%new_update_quiet & Hr).
  apply bind_Ok in Hr as ([ds1 d4] & _ & Hr). assert (quiet (lc_stack x) s3) as Hq by (etrans; [exact H1|etrans; [exact H2|exact H3]]).
  destruct (is_dir f); [|injection Hr as <- <- _ _; by apply quiet_handled].
  apply bind_Ok in Hr as (q & _ & Hr). apply bind_Ok in Hr as ([s4 cs] & H4%children_of_quiet & Hr). apply bind_Ok in Hr as (files & _ & Hr).
  injection Hr as <- <- _ _. apply just_created_handled. by etrans.
Qed.

Lemma rename_loop_handled fo prev new fuel : ∀ k x ds queue k' x' ds',
  rename_loop m clock fuel k x fo prev new ds queue = Ok (k', x', ds') → handled k (lc_stack x) k' (lc_stack x').
Proof.
  induction fuel as [|fuel IH]; intros k x ds [|p queue] k' x' ds' Hr; cbn [rename_loop] in Hr; try done;
    try (injection Hr as <- <- _; apply handled_refl).
  apply bind_Ok in Hr as ([[[k1 x1] ds1] l] & H1%rename_one_handled & Hr%IH). by eapply handled_trans.
Qed.

Lemma handle_rename_handled k x fo fi prev new k' x' :
  handle_rename m clock k x fo fi prev new = Ok (k', x') → handled k (lc_stack x) k' (lc_stack x').
Proof.
  unfold handle_rename. destruct (find_renamed x fi prev); [|intros [= <- <-]; apply handled_refl].
  intros ([[k1 x1] ds] & H1%rename_loop_handled & Hr)%bind_Ok. destruct (has_diffs ds); [|by injection Hr as <- <-].
  apply bind_Ok in Hr as (s & Hs%push_diff_quiet & [= <- <-]). eapply handled_trans; [exact H1|]. by apply quiet_handled.
Qed.

Lemma immediate_update_handled k x fo fi c k' x' :
  immediate_update m clock k x fo fi c = Ok (k', x') → handled k (lc_stack x) k' (lc_stack x').
Proof.
  unfold immediate_update. intros (o & _ & Hu)%bind_Ok. apply bind_Ok in Hu as ([i update] & _ & Hu).
  destruct (negb update); [injection Hu as <- <-; apply handled_refl|].
  case_match; [by eapply handle_rename_handled|]. apply bind_Ok in Hu as (s & Hs%push_update_quiet & [= <- <-]).
  case_match; [by apply just_created_handled|by apply quiet_handled].
Qed.

Lemma handle_delete_handled k x fo fi c k' x' l :
  handle_delete m clock k x fo fi c = Ok (k', x', l) → handled k (lc_stack x) k' (lc_stack x') ∧ Forall plain l.
Proof.
  unfold handle_delete. intros (o & _ & Hd)%bind_Ok. destruct o as [[p f]|]; [|injection Hd as <- <- <-; split; [apply handled_refl|done]].
  destruct (is_deleted f); [injection Hd as <- <- <-; split; [apply handled_refl|done]|].
  destruct (_ && _).
  - apply bind_Ok in Hd as (q & _ & Hd). apply bind_Ok in Hd as (y & _ & Hd).
    destruct (pn_parent y); [|injection Hd as <- <- <-; split; [apply handled_refl|done]].
    apply bind_Ok in Hd as (z & _ & Hd). apply bind_Ok in Hd as (pe & _ & Hd). apply bind_Ok in Hd as (e & _ & Hd).
    injection Hd as <- <- <-. split; [apply handled_refl|by constructor].
  - apply bind_Ok in Hd as ([k1 x1] & H1%immediate_update_handled & [= <- <- <-]). by split.
Qed.

Lemma on_event_handled k x fo fi p c k' x' l :
  on_event utf8_valid m clock k x fo fi p c = Ok (k', x', l) → handled k (lc_stack x) k' (lc_stack x') ∧ Forall plain l.
Proof.
  unfold on_event. destruct (negb _); [intros [= <- <- <-]; split; [apply handled_refl|done]|].
  intros ([[self parent] ok] & _ & He)%bind_Ok. destruct (negb ok); [injection He as <- <- <-; split; [apply handled_refl|done]|].
  destruct (fc_reason c).
  - destruct (_ && _).
    + apply bind_Ok in He as ([k1 x1] & H1%immediate_update_handled & [= <- <- <-]). by split.
    + injection He as <- <- <-. split; [apply handled_refl|by constructor].
  - by eapply handle_delete_handled.
  - apply bind_Ok in He as ([k1 x1] & H1%immediate_update_handled & [= <- <- <-]). by split.
  - injection He as <- <- <-. split; [apply handled_refl|by constructor].
Qed.

Lemma on_events_handled fo fi p : ∀ cs k x k' x' l,
  on_events utf8_valid m clock k x fo fi p cs = Ok (k', x', l) → handled k (lc_stack x) k' (lc_stack x') ∧ Forall plain l.
Proof.
  induction cs as [|c cs IH]; intros k x k' x' l He; cbn [on_events] in He; [injection He as <- <- <-; split; [apply handled_refl|done]|].
  apply bind_Ok in He as ([[k1 x1] l1] & [H1 P1]%on_event_handled & He). apply bind_Ok in He as ([[k2 x2] l2] & [H2 P2]%IH & [= <- <- <-]).
  split; [by eapply handled_trans|by apply Forall_app].
Qed.

(** A new context. *)
Lemma add_context_handled k s c k' p : unused c → add_context k c = (k', p) → handled k s k' s.
Proof.
  intros Hc [= <- _]. split; [|done|exists []; by rewrite app_nil_r]. apply rtc_once. apply step_context; [|done].
  apply not_elem_of_dom, is_fresh.
Qed.

Lemma new_folder_context_unused id l path c : new_folder_context m id l path = Ok c → Forall plain l → unused c.
Proof. unfold new_folder_context. intros (fo & _ & [= <-])%bind_Ok Hl. by split. Qed.

Lemma on_changes_handled k x fo fi cs k' x' :
  on_changes utf8_valid m clock k x fo fi cs = Ok (k', x') → handled k (lc_stack x) k' (lc_stack x').
Proof.
  unfold on_changes. intros (p & _ & Hc)%bind_Ok. apply bind_Ok in Hc as ([[k1 x1] l] & [H1 P1]%on_events_handled & Hc).
  case_bool_decide; [by injection Hc as <- <-|]. apply bind_Ok in Hc as (c & Hn & Hc). destruct (add_context k1 c) as [k2 q] eqn:Ea.
  injection Hc as <- <-. eapply handled_trans; [exact H1|]. eapply add_context_handled; [|exact Ea]. by eapply new_folder_context_unused.
Qed.

Lemma on_folders_handled : ∀ l k x k' x',
  on_folders utf8_valid m clock k x l = Ok (k', x') → handled k (lc_stack x) k' (lc_stack x').
Proof.
  induction l as [|[id cs] l IH]; intros k x k' x' Hf; cbn [on_folders] in Hf; [injection Hf as <- <-; apply handled_refl|].
  destruct (folder_by_id _ _) as [fo|]; [|by apply IH]. apply bind_Ok in Hf as (fi & _ & Hf).
  apply bind_Ok in Hf as ([k1 x1] & H1%on_changes_handled & Hf%IH). by eapply handled_trans.
Qed.

Lemma on_change_handled k l k' : tidy k → on_change utf8_valid impl m clock k l = Ok k' → handled k (new_stack k) k' (new_stack k').
Proof.
  intros Ht. unfold on_change. intros ([k1 x] & H1%on_folders_handled & Hf)%bind_Ok. eapply handled_trans; [exact H1|].
  apply (finish_handled _ _ (lc_new_contexts x)); [by apply H1|done].
Qed.

(** *** The other messages *)

(** A message that brings no answers. *)
Definition attended (k k' : keeper) : Prop := handled k (new_stack k) k' (new_stack k').

Lemma attended_refl k : attended k k.
Proof. apply handled_refl. Qed.

Lemma attended_trans k1 k2 k3 : attended k1 k2 → attended k2 k3 → attended k1 k3.
Proof. apply handled_trans. Qed.

Lemma attended_emit k e : (∀ p ts, e ≠ SendSlave p ts) → attended k (emit k e).
Proof.
  intros He. apply (handled_trans _ _ (emit k e) (new_stack k)); [by apply handled_emit|by apply handled_same].
Qed.

Lemma attended_emit_all {A} (f : A → keeper_effect) l k :
  (∀ x p ts, f x ≠ SendSlave p ts) → attended k (foldl (λ k x, emit k (f x)) k l).
Proof.
  intros Hf. revert k. induction l as [|x l IH]; intros k; cbn; [apply attended_refl|].
  apply (attended_trans _ (emit k (f x))); [|apply IH]. apply attended_emit. auto.
Qed.

Lemma visit_scan_start_attended k id dir k' : tidy k → visit_scan_start impl m clock k id dir = Ok k' → attended k k'.
Proof.
  intros Ht. unfold visit_scan_start. intros (fo & _ & Hv)%bind_Ok. destruct (_ || _); [injection Hv as <-; apply attended_refl|].
  apply bind_Ok in Hv as ([v o] & Hm & Hv). set (k1 := take_back k (with_view (new_stack k) v)) in *.
  assert (attended k k1) as H1 by by apply handled_same. destruct o as [c|].
  - destruct (add_context k1 c) as [k2 p] eqn:Ea. eapply attended_trans; [exact H1|].
    assert (attended k1 k2) as H2.
    { injection Ea as <- <-. eapply handled_trans; [|by apply handled_same]. eapply (add_context_handled _ _ c); [|done].
      unfold make_context in Hm. apply bind_Ok in Hm as (fo' & _ & Hm). apply bind_Ok in Hm as (re & _ & Hm).
      apply bind_Ok in Hm as (o & _ & Hm). apply bind_Ok in Hm as (root & _ & Hm). apply bind_Ok in Hm as ([v' o'] & _ & Hm).
      destruct o' as [pr|]; [|done]. apply bind_Ok in Hm as ([[path child] pr'] & _ & Hm). apply bind_Ok in Hm as (c' & Hn & [= <- <-]).
      eapply new_folder_context_unused; [exact Hn|]. by repeat constructor. }
    eapply attended_trans; [exact H2|]. apply finish_handled in Hv; [done|]. apply H2. by apply H1.
  - injection Hv as <-. eapply attended_trans; [exact H1|]. by apply attended_emit.
Qed.

Lemma visit_op_attended o b k k' : tidy k → visit_op impl m clock o b k = Ok k' → attended k k'.
Proof.
  intros Ht. destruct o; cbn [visit_op]; try (intros [= <-]; apply attended_refl).
  all: try (by apply visit_scan_start_attended).
  - unfold visit_upsert_folder. intros (fo & _ & Hv)%bind_Ok. repeat case_match; injection Hv as <-; try apply attended_refl; by apply attended_emit.
  - intros [= <-]. unfold visit_remove_folder. case_match; [by apply attended_emit|apply attended_refl].
  - unfold visit_local_update. case_bool_decide; [intros [= <-]; apply attended_refl|]. intros (fo & _ & [= <-])%bind_Ok. by apply handled_same.
Qed.

Lemma visit_diff_attended d : ∀ k k', tidy k → visit_diff impl m clock d k = Ok k' → attended k k'.
Proof.
  induction d as [|o child IHc sibling IHs]; intros k k' Ht Hv; cbn [visit_diff] in Hv; [injection Hv as <-; apply attended_refl|].
  apply bind_Ok in Hv as (k1 & H1%visit_op_attended & Hv); [|done]. apply bind_Ok in Hv as (k2 & H2 & H3).
  apply IHc in H2; [|by apply H1]. apply IHs in H3; [|by apply H2, H1]. eapply attended_trans; [exact H1|]. by eapply attended_trans.
Qed.

(** The answers a message brings. *)
Definition answers (e : keeper_event) : list answer :=
  match e with
  | SlaveReturned _ _ ts => failed ts
  | Digest hc index size result => [Digested (hc_file hc) index size result]
  | _ => []
  end.

(** Whatever the actor is sent, it goes through steps, and takes the answers or forgets them. *)
Lemma keeper_handle_path k e k' :
  tidy k → keeper_handle utf8_valid impl m clock k e = Ok k' →
  tidy k' ∧ ∃ l, (l = answers e ∨ l = []) ∧ trail l (idle_core k) (idle_core k').
Proof.
  intros Ht. assert (∀ k', attended k k' → tidy k' ∧ ∃ l, (l = [] ∨ l = []) ∧ trail l (idle_core k) (idle_core k')) as Hattended.
  { intros k1 [Hs Hk]. split; [auto|]. exists []. split; [by left|]. by apply trail_nil. }
  destruct e; cbn [keeper_handle answers].
  - intros (l & Hl & Hp & Hk)%on_post_process_path; [eauto|done].
  - intros (l & Hl & Hp & Hk)%on_digest_path; [eauto|done].
  - intros [= <-]. apply Hattended. unfold on_create_dir. repeat case_match; try apply attended_refl; by apply attended_emit.
  - intros [= <-]. apply Hattended. unfold on_watch_dir. case_match; [apply attended_refl|by apply handled_same].
  - intros [= <-]. apply Hattended. by apply handled_same.
  - intros Hc%on_change_handled; auto.
  - intros [= <-]. apply Hattended. unfold on_local_ready, try_start_watching.
    set (k1 := set_flags k _ _ _). set (k2 := if lk_fs_addr k1 then _ else _). set (k3 := if lk_watcher_addr k2 then _ else _).
    assert (attended k k3) as H3.
    { eapply (attended_trans _ k1); [by apply handled_same|]. apply (attended_trans _ k2).
      - unfold k2. case_match; [by apply attended_emit|apply attended_refl].
      - unfold k3. case_match; [by apply attended_emit|apply attended_refl]. }
    eapply attended_trans; [exact H3|]. case_match; [|apply attended_refl]. eapply attended_trans; [|by apply attended_emit_all]. by apply handled_same.
  - intros [= <-]. apply Hattended. unfold on_thread_ready. case_match; [by apply handled_same|apply attended_refl].
  - intros Hv%visit_diff_attended; auto.
Qed.
End steps.
