(* ===== verification/KeeperLedger.v ===== *)
(** * KeeperLedger: the books of the hashing. The hashes that are left, the blocks that are asked for and those that have come back
    add up, whatever step the machine of [KeeperSteps] takes, and every block that is noted is that of its piece of the file. *)

From S2P Require Import Prelude Diff Version Proto DeviceId Device Path Blocks FileInfo FileStore FileMap GenericMap Folder.
From S2P Require Import Resolver BlockMap UpdateFolder FileIterator Advance Cluster Changes Trees ClusterUpdate Controller.
From S2P Require Import Watcher Disk FileIo FileActor Presence Tasks Segments FolderContext LocalKeeper KeeperFrame KeeperSteps.
From stdpp Require Import relations.
Open Scope Z_scope.

(** ** What is under way for a file *)

Definition indexes (q : positive) (ts : list task) : list Z :=
  ts ≫= λ t, match t with
             | Segment t => if decide (hc_file (sg_context t) = q) then seqZ (sg_block_index t) (sg_block_count t) else []
             | _ => []
             end.

Definition digest_indexes (q : positive) (ds : list digest_request) : list Z :=
  ds ≫= λ d, if decide (hc_file (dg_context d) = q) then [dg_index d] else [].

Definition open_tasks (M : gmap positive folder_context) : list task := map_to_list M ≫= λ x, fx_pending x.2.

Definition sent_tasks (l : list (positive * list task)) : list task := l ≫= snd.

(** The hashes that failed segments give back. *)
Definition given_back (F : list segment) : Z := foldr (λ t n, sg_block_count t - sg_current_block t + n) 0 F.

(** The failed segments among returned tasks. *)
Definition fails (ts : list task) : list segment :=
  ts ≫= λ t, match t with Segment t => match sg_ec t with Some _ => [t] | None => [] end | _ => [] end.

Lemma failed_fails ts : failed ts = Failed <$> fails ts.
Proof. induction ts as [|t ts IH]; [done|]. unfold failed, fails in *. cbn. rewrite IH. destruct t; try done. by destruct (sg_ec _). Qed.

Lemma open_tasks_update M p c :
  M !! p = Some c → ∃ rest, open_tasks M ≡ₚ fx_pending c ++ rest ∧ ∀ c', open_tasks (<[p := c']> M) ≡ₚ fx_pending c' ++ rest.
Proof.
  intros Hp. exists (open_tasks (delete p M)). assert (∀ c', open_tasks (<[p := c']> M) ≡ₚ fx_pending c' ++ open_tasks (delete p M)) as Hu.
  { intros c'. unfold open_tasks. rewrite <- insert_delete_eq, map_to_list_insert by apply lookup_delete_eq. done. }
  split; [|done]. rewrite <- (Hu c). by rewrite insert_id.
Qed.

Lemma open_tasks_new M p c : M !! p = None → open_tasks (<[p := c]> M) ≡ₚ fx_pending c ++ open_tasks M.
Proof. intros Hp. unfold open_tasks. by rewrite map_to_list_insert. Qed.

#[export] Instance claims_perm : Proper ((≡ₚ) ==> (=)) claims.
Proof. intros l l' Hl. unfold claims. induction Hl; cbn in *; lia. Qed.

#[export] Instance indexes_perm q : Proper ((≡ₚ) ==> (≡ₚ)) (indexes q).
Proof. intros l l' Hl. unfold indexes. by rewrite Hl. Qed.

Lemma indexes_app q l l' : indexes q (l ++ l') = indexes q l ++ indexes q l'.
Proof. apply bind_app. Qed.

Lemma indexes_cons q t T :
  indexes q (Segment t :: T) = (if decide (hc_file (sg_context t) = q) then seqZ (sg_block_index t) (sg_block_count t) else []) ++ indexes q T.
Proof. done. Qed.

Lemma digest_indexes_cons q d D : digest_indexes q (d :: D) = (if decide (hc_file (dg_context d) = q) then [dg_index d] else []) ++ digest_indexes q D.
Proof. done. Qed.

Lemma digest_indexes_app q l l' : digest_indexes q (l ++ l') = digest_indexes q l ++ digest_indexes q l'.
Proof. apply bind_app. Qed.

Lemma claims_cons t T : claims (t :: T) = task_blocks t + claims T.
Proof. done. Qed.

Lemma given_back_cons t F : given_back (t :: F) = sg_block_count t - sg_current_block t + given_back F.
Proof. done. Qed.

Lemma given_back_app l l' : given_back (l ++ l') = given_back l + given_back l'.
Proof. unfold given_back. induction l as [|t l IH]; cbn in *; lia. Qed.

#[export] Instance given_back_perm : Proper ((≡ₚ) ==> (=)) given_back.
Proof. intros l l' Hl. unfold given_back. induction Hl; cbn in *; lia. Qed.

Lemma Forall_submseteq {A} (P : A → Prop) l l' : l' ⊆+ l → Forall P l → Forall P l'.
Proof. intros Hl Hf. apply Forall_forall. intros x Hx. eapply (proj1 (Forall_forall P l) Hf). by eapply elem_of_submseteq. Qed.

Section hashing.
Context (sha : bytes → bytes) (content : contents) (limit : Z).

(** ** The invariant *)

(** A segment that is to be read. *)
Record good_segment (H : gmap positive hash_base) (t : segment) : Prop := {
  gs_ec : sg_ec t = None;
  gs_current : sg_current_block t = 0;
  gs_count : 0 < sg_block_count t;
  gs_file : ∃ h, H !! hc_file (sg_context t) = Some h ∧ sg_path t = ci_path (hb_info h) ∧ sg_time t = ci_time (hb_info h) ∧
      sg_block_size t = hb_block_size h ∧ sg_offset t = sg_block_index t * hb_block_size h ∧
      sg_block_index t + sg_block_count t <= hb_total h ∧
      sg_last_block_size t = piece_size (hb_info h) (hb_block_size h) (hb_total h) (sg_block_index t + sg_block_count t - 1);
}.

Definition good_task (H : gmap positive hash_base) (t : task) : Prop := match t with Segment t => good_segment H t | _ => True end.

(** A digest that is asked for is that of a piece of its file. *)
Definition good_digest (H : gmap positive hash_base) (d : digest_request) : Prop :=
  ∃ h, H !! hc_file (dg_context d) = Some h ∧
    (i64 (dg_index d * hb_block_size h) = dg_index d * hb_block_size h →
     dg_data d = piece content (hb_info h) (hb_block_size h) (hb_total h) (dg_index d)).

(** The block of a file being hashed. *)
Definition block_of (h : hash_base) (j : Z) : BlockInfo := piece_block sha content (hb_info h) (hb_block_size h) (hb_total h) j.

(** The blocks of a file are asked for one after the other, and each is under way once at most; [done] are those that have come back. *)
Record progress (T : list task) (D : list digest_request) (q : positive) (h : hash_base) (done : list Z) : Prop := {
  pg_unprocessed : 0 <= hb_unprocessed h <= hb_total h;
  pg_errored : 0 <= hb_errored h;
  pg_once : done ++ indexes q T ++ digest_indexes q D ⊆+ seqZ 0 (hb_total h - hb_unprocessed h);
  pg_done : Z.of_nat (length done) = hb_total h - hb_unhashed h;
  pg_blocks : hb_errored h = 0 → 0 < hb_unhashed h →
      Z.of_nat (length (hb_blocks h)) = hb_total h ∧ ∀ j, j ∈ done → hb_blocks h !! Z.to_nat j = Some (block_of h j);
}.

(** Blocks that were put together of the pieces of a file, in their order. *)
Definition hashed (i : child_info) (blocks : list BlockInfo) : Prop :=
  ∃ block_size, blocks = piece_block sha content i block_size (Z.of_nat (length blocks)) <$> seqZ 0 (Z.of_nat (length blocks)).

Definition good_item (i : stack_item) : Prop :=
  match i with
  | ChildReady i blocks => hashed i blocks
  | RehashedIncomplete r => hashed (rh_info r) (rh_blocks r)
  | _ => True
  end.

(** The books: what is kept about every file that is being hashed, and the hashes. [T] are the tasks that are to be carried out, [F] the
    segments that have failed, [D] the digests that are asked for. *)
Record ledger (H : gmap positive hash_base) (pool : Z) (T : list task) (D : list digest_request) (F : list segment) : Prop := {
  le_tasks : Forall (good_task H) T;
  le_digests : Forall (good_digest H) D;
  le_failed : Forall (λ t, 0 <= sg_current_block t <= sg_block_count t) F;
  le_hashes : map_Forall (λ q h, ∃ l, progress T D q h l) H;
  le_pool : 0 <= pool;
  le_limit : pool + claims T + given_back F + Z.of_nat (length D) <= limit;
}.

(** Everything that is to be carried out. *)
Definition under_way (C : core) (T : list task) : list task := open_tasks (co_contexts C) ++ sent_tasks (co_sent C) ++ T.

Record sound (C : core) (T : list task) (D : list digest_request) (F : list segment) : Prop := {
  so_ledger : ledger (co_hashes C) (co_pool C) (under_way C T) D F;
  so_stacks : map_Forall (λ _ c, Forall good_item (fx_stack c)) (co_contexts C);
  so_single : Forall (λ x, ∃ t, x.2 = [t]) (co_sent C);
}.

(** ** Keeping the books *)

Lemma claims_submseteq H T T' : Forall (good_task H) T → T' ⊆+ T → claims T' <= claims T.
Proof.
  intros Hg (rest & HT)%submseteq_Permutation. rewrite HT in *. rewrite claims_app. apply Forall_app in Hg as [_ Hg].
  enough (0 <= claims rest) by lia. clear -Hg. induction Hg as [|t rest Ht _ IH]; [done|]. change (0 <= task_blocks t + claims rest).
  destruct t; cbn [task_blocks good_task] in *; try lia. apply gs_count in Ht. lia.
Qed.

Lemma given_back_submseteq F F' : Forall (λ t, 0 <= sg_current_block t <= sg_block_count t) F → F' ⊆+ F → given_back F' <= given_back F.
Proof.
  intros Hg (rest & HF)%submseteq_Permutation. rewrite HF in *. rewrite given_back_app. apply Forall_app in Hg as [_ Hg].
  enough (0 <= given_back rest) by lia. clear -Hg. induction Hg as [|t rest Ht _ IH]; [done|].
  change (0 <= sg_block_count t - sg_current_block t + given_back rest). lia.
Qed.

Lemma indexes_submseteq q T T' : T' ⊆+ T → indexes q T' ⊆+ indexes q T.
Proof. intros (rest & ->)%submseteq_Permutation. rewrite indexes_app. apply submseteq_inserts_r. done. Qed.

Lemma digest_indexes_submseteq q D D' : D' ⊆+ D → digest_indexes q D' ⊆+ digest_indexes q D.
Proof. intros (rest & HD)%submseteq_Permutation. unfold digest_indexes. rewrite HD, bind_app. apply submseteq_inserts_r. done. Qed.

Lemma progress_weaken T D q h l T' D' :
  indexes q T' ⊆+ indexes q T → digest_indexes q D' ⊆+ digest_indexes q D → progress T D q h l → progress T' D' q h l.
Proof.
  intros HT HD [H1 H2 H3 H4 H5]. split; try done. etrans; [|exact H3]. apply submseteq_app; [done|]. by apply submseteq_app.
Qed.

(** What is under way may be lost. *)
Lemma ledger_weaken H n T D F T' D' F' : T' ⊆+ T → D' ⊆+ D → F' ⊆+ F → ledger H n T D F → ledger H n T' D' F'.
Proof.
  intros HT HD HF [H1 H2 H3 H4 H5 H6]. split.
  - by eapply Forall_submseteq.
  - by eapply Forall_submseteq.
  - by eapply Forall_submseteq.
  - intros q h Hq. destruct (H4 q h Hq) as [l Hl]. exists l. eapply progress_weaken; [by apply indexes_submseteq|by apply digest_indexes_submseteq|done].
  - done.
  - pose proof (claims_submseteq _ _ _ H1 HT). pose proof (given_back_submseteq _ _ H3 HF). pose proof (submseteq_length _ _ HD). lia.
Qed.

Lemma ledger_perm H n T T' D F : T ≡ₚ T' → ledger H n T D F → ledger H n T' D F.
Proof. intros HT. apply ledger_weaken; [by rewrite HT|done|done]. Qed.

Lemma light_claims ts : Forall light ts → claims ts = 0 ∧ ∀ q, indexes q ts = [].
Proof.
  induction 1 as [|t ts Ht _ [IH1 IH2]]; [done|]. destruct t; try done. all: split; [cbn; lia|intros q; apply IH2].
Qed.

(** Other tasks than segments. *)
Lemma ledger_light H n ts T D F : Forall light ts → ledger H n T D F → ledger H n (ts ++ T) D F.
Proof.
  intros Hts [H1 H2 H3 H4 H5 H6]. destruct (light_claims ts Hts) as [Hc Hi]. split; try done.
  - apply Forall_app. split; [|done]. eapply Forall_impl; [exact Hts|]. by intros [].
  - intros q h Hq. destruct (H4 q h Hq) as [l Hl]. exists l. eapply progress_weaken; [|done|exact Hl]. by rewrite indexes_app, Hi.
  - rewrite claims_app, Hc. lia.
Qed.

(** Nothing is under way for a file that is not known. *)
Lemma nothing_under_way H q T D :
  H !! q = None → Forall (good_task H) T → Forall (good_digest H) D → indexes q T = [] ∧ digest_indexes q D = [].
Proof.
  intros Hq HT HD. split.
  - induction HT as [|t T Ht _ IH]; [done|]. unfold indexes in *. cbn. rewrite IH. destruct t as [|t| | |]; try done.
    destruct (gs_file _ _ Ht) as (h & Hh & _). rewrite decide_False; [done|]. intros <-. by rewrite Hq in Hh.
  - induction HD as [|d D Hd _ IH]; [done|]. unfold digest_indexes in *. cbn. rewrite IH. destruct Hd as (h & Hh & _).
    rewrite decide_False; [done|]. intros <-. by rewrite Hq in Hh.
Qed.

(** What does not change about a file. *)
Definition same_shape (h h' : hash_base) : Prop := hb_info h' = hb_info h ∧ hb_block_size h' = hb_block_size h ∧ hb_total h' = hb_total h.

(** Files get known, and their shape stays. *)
Definition extends (H H' : gmap positive hash_base) : Prop := ∀ q h, H !! q = Some h → ∃ h', H' !! q = Some h' ∧ same_shape h h'.

Lemma good_task_extends H H' t : extends H H' → good_task H t → good_task H' t.
Proof.
  intros He. destruct t as [|t| | |]; try done. intros [H1 H2 H3 (h & Hh & H4)]. split; try done.
  destruct (He _ _ Hh) as (h' & Hh' & Hi & Hb & Ht). exists h'. by rewrite Hi, Hb, Ht.
Qed.

Lemma good_digest_extends H H' d : extends H H' → good_digest H d → good_digest H' d.
Proof.
  intros He (h & Hh & Hd). destruct (He _ _ Hh) as (h' & Hh' & Hi & Hb & Ht). exists h'. by rewrite Hi, Hb, Ht.
Qed.

Lemma insert_extends H q h h' : H !! q = Some h → same_shape h h' → extends H (<[q := h']> H).
Proof.
  intros Hq Hs q' h1 Hh1. destruct (decide (q' = q)) as [->|Hne].
  - simplify_eq. exists h'. by rewrite lookup_insert_eq.
  - exists h1. rewrite lookup_insert_ne by done. done.
Qed.

(** A file gets to be hashed. *)
Lemma ledger_hash H n T D F q h : H !! q = None → newly h → ledger H n T D F → ledger (<[q := h]> H) n T D F.
Proof.
  intros Hq [N1 N2 N3 N4 N5] [H1 H2 H3 H4 H5 H6]. destruct (nothing_under_way H q T D Hq H1 H2) as [HT HD].
  assert (extends H (<[q := h]> H)) as He.
  { intros q' h' Hq'. exists h'. rewrite lookup_insert_ne by (intros ->; by rewrite Hq in Hq'). done. }
  split; try done.
  - eapply Forall_impl; [exact H1|]. intros t. by apply good_task_extends.
  - eapply Forall_impl; [exact H2|]. intros d. by apply good_digest_extends.
  - apply map_Forall_insert_2; [|done]. exists []. split; rewrite ?HT, ?HD; cbn; try lia; [apply submseteq_nil_l|].
    intros _ _. split; [lia|]. by intros j ?%not_elem_of_nil.
Qed.

(** A file changes, but for its shape. *)
Lemma ledger_update H n T D F q h h' T' D' n' F' :
  H !! q = Some h → same_shape h h' → ledger H n T D F →
  Forall (good_task (<[q := h']> H)) T' → Forall (good_digest (<[q := h']> H)) D' →
  Forall (λ t, 0 <= sg_current_block t <= sg_block_count t) F' →
  (∀ q', q' ≠ q → indexes q' T' ⊆+ indexes q' T ∧ digest_indexes q' D' ⊆+ digest_indexes q' D) →
  (∀ l, progress T D q h l → ∃ l', progress T' D' q h' l') → 0 <= n' →
  n' + claims T' + given_back F' + Z.of_nat (length D') <= n + claims T + given_back F + Z.of_nat (length D) →
  ledger (<[q := h']> H) n' T' D' F'.
Proof.
  intros Hq Hs [H1 H2 H3 H4 H5 H6] HT HD HF Hother Hl Hn Hlim. split; try done; [|lia].
  intros q' h1. destruct (decide (q' = q)) as [->|Hne].
  - rewrite lookup_insert_eq. intros [= <-]. destruct (H4 q h Hq) as [l Hp]. eauto.
  - rewrite lookup_insert_ne by done. intros Hq'. destruct (H4 q' h1 Hq') as [l Hp]. exists l. destruct (Hother q' Hne). by eapply progress_weaken.
Qed.

Lemma insert_tasks H q h h' T : H !! q = Some h → same_shape h h' → Forall (good_task H) T → Forall (good_task (<[q := h']> H)) T.
Proof. intros Hq Hs HT. eapply Forall_impl; [exact HT|]. intros t. apply good_task_extends. by eapply insert_extends. Qed.

Lemma insert_digests H q h h' D : H !! q = Some h → same_shape h h' → Forall (good_digest H) D → Forall (good_digest (<[q := h']> H)) D.
Proof. intros Hq Hs HD. eapply Forall_impl; [exact HD|]. intros d. apply good_digest_extends. by eapply insert_extends. Qed.

(** The next blocks of a file are asked for. *)
Lemma ledger_schedule H n T D F p slave q h k :
  H !! q = Some h → k = Z.min n (hb_unprocessed h) → 0 < k → ledger H n T D F →
  ledger (<[q := with_unprocessed h (hb_unprocessed h - k)]> H) (n - k) (Segment (segment_of p slave q h k) :: T) D F.
Proof.
  intros Hq Hk H0 HL. destruct (HL) as [H1 H2 H3 H4 H5 H6]. destruct (H4 q h Hq) as [l0 [Hu _ _ _ _]].
  assert (same_shape h (with_unprocessed h (hb_unprocessed h - k))) as Hs by done. set (h' := with_unprocessed _ _) in *.
  eapply (ledger_update H n T D F q h); try done.
  - constructor; [|by eapply insert_tasks]. split; try done. exists h'. cbn. rewrite lookup_insert_eq.
    split_and!; try done; [lia|]. unfold piece_size.
    replace (hb_total h - hb_unprocessed h + k - 1 + 1 =? hb_total h) with (hb_unprocessed h =? k) by lia. done.
  - by eapply insert_digests.
  - intros q' Hne. split; [|done]. by rewrite indexes_cons, decide_False.
  - intros l [P1 P2 P3 P4 P5]. exists l. split; try done; [cbn; lia|].
    rewrite indexes_cons, decide_True by done. cbn [hb_total hb_unprocessed with_unprocessed sg_block_index sg_block_count segment_of h'].
    replace (hb_total h - (hb_unprocessed h - k)) with (hb_total h - hb_unprocessed h + k) by lia. rewrite seqZ_app by lia. rewrite Z.add_0_l.
    rewrite <- !app_assoc, (Permutation_app_swap_app l), (Permutation_app_comm (seqZ 0 _)). by apply submseteq_skips_l.
  - lia.
  - rewrite claims_cons. cbn. lia.
Qed.

(** A segment that failed is noted. *)
Lemma ledger_failed H n T D F t h :
  H !! hc_file (sg_context t) = Some h → ledger H n T D (t :: F) →
  let delta := sg_block_count t - sg_current_block t in
  ledger (<[hc_file (sg_context t) := (commit_error h delta).1]> H) (n + delta) T D F.
Proof.
  intros Hq HL delta. destruct (HL) as [H1 H2 H3 H4 H5 H6]. apply Forall_cons in H3 as [Ht HF].
  eapply (ledger_update H n T D (t :: F)); try done.
  - by eapply insert_tasks.
  - by eapply insert_digests.
  - intros l [P1 P2 P3 P4 P5]. exists l. split; try done; cbn; [lia|]. intros He. apply P5. lia.
  - lia.
  - rewrite given_back_cons. lia.
Qed.

Lemma i64_of_i32 z : i32 z = z → i64 z = z.
Proof.
  intros Hz. assert (- 2 ^ 31 <= z < 2 ^ 31) as Hb.
  { rewrite <- Hz. unfold i32, u32. pose proof (Z.mod_pos_bound z (2 ^ 32) ltac:(lia)). case_match; lia. }
  unfold i64, u64.
  destruct (decide (0 <= z)).
  - rewrite Z.mod_small by lia. case_match; lia.
  - rewrite <- (Z_mod_plus_full z 1), Z.mod_small by lia. case_match; lia.
Qed.

(** Every block has come back: they are all there. *)
Lemma all_done h l blocks :
  l ⊆+ seqZ 0 (hb_total h - hb_unprocessed h) → 0 <= hb_unprocessed h <= hb_total h → Z.of_nat (length l) = hb_total h →
  Z.of_nat (length blocks) = hb_total h → (∀ j, j ∈ l → blocks !! Z.to_nat j = Some (block_of h j)) →
  blocks = block_of h <$> seqZ 0 (hb_total h).
Proof.
  intros Hl Hu Hn Hb Hj. pose proof (submseteq_length _ _ Hl) as Hle. rewrite length_seqZ in Hle.
  assert (l ≡ₚ seqZ 0 (hb_total h)) as Hp.
  { replace (hb_total h - hb_unprocessed h) with (hb_total h) in Hl by lia. apply submseteq_length_Permutation; [done|]. rewrite length_seqZ. lia. }
  apply (list_eq_same_length _ _ (length blocks)); [rewrite length_fmap, length_seqZ; lia|done|].
  intros i x y Hi Hx. rewrite list_lookup_fmap. intros (j & Hjs & ->)%fmap_Some. pose proof Hjs as Hjs'. apply lookup_seqZ in Hjs' as [-> Hlt].
  specialize (Hj (0 + Z.of_nat i)). replace (Z.to_nat (0 + Z.of_nat i)) with i in Hj by lia. rewrite Hj in Hx.
  - by injection Hx as <-.
  - rewrite Hp. by eapply list_elem_of_lookup_2.
Qed.

(** The block of a digest is noted at its place. *)
Lemma noted_blocks H d h l result errored blocks :
  H !! hc_file (dg_context d) = Some h → good_digest H d → (result = None ∨ result = Some (sha (dg_data d))) →
  match result with
  | None => errored = hb_errored h + 1 ∧ blocks = hb_blocks h
  | Some hash => errored = hb_errored h ∧ note_digest h (dg_index d) (Z.of_nat (length (dg_data d))) hash = Ok blocks
  end →
  0 <= hb_errored h → Forall (λ j, 0 <= j) l → (hb_errored h = 0 → Z.of_nat (length (hb_blocks h)) = hb_total h ∧
    ∀ j, j ∈ l → hb_blocks h !! Z.to_nat j = Some (block_of h j)) →
  errored = 0 → Z.of_nat (length blocks) = hb_total h ∧ ∀ j, j ∈ dg_index d :: l → blocks !! Z.to_nat j = Some (block_of h j).
Proof.
  intros Hq (h0 & Hh0 & Hd) Hres Hr H0 Hpos P5 He. rewrite Hq in Hh0. injection Hh0 as <-.
  destruct result as [hash|]; [|lia]. destruct Hr as [-> Hn], Hres as [|[= ->]]; [done|]. destruct P5 as [Hb Hj]; [done|].
  unfold note_digest in Hn. apply bind_Ok in Hn as (u1 & Hoff%assert_Ok & Hn). apply bind_Ok in Hn as (u2 & Hin%assert_Ok & [= <-]).
  apply bool_decide_eq_true in Hoff. pose proof (i64_of_i32 _ Hoff) as Hoff'. apply andb_true_iff in Hin as [Hi1 Hi2].
  split; [by rewrite length_insert|]. intros j Hel. destruct (decide (j = dg_index d)) as [->|Hne].
  - rewrite list_lookup_insert_eq by lia. unfold block_of, piece_block. by rewrite <- (Hd Hoff').
  - apply elem_of_cons in Hel as [?|Hel]; [done|]. rewrite list_lookup_insert_ne; [by apply Hj|].
    pose proof (proj1 (Forall_forall _ _) Hpos _ Hel). cbn in *. lia.
Qed.

(** What a digest means for its file. *)
Lemma digest_arrives H n T D F d h result errored blocks :
  H !! hc_file (dg_context d) = Some h → ledger H n T (d :: D) F → (result = None ∨ result = Some (sha (dg_data d))) →
  match result with
  | None => errored = hb_errored h + 1 ∧ blocks = hb_blocks h
  | Some hash => errored = hb_errored h ∧ note_digest h (dg_index d) (Z.of_nat (length (dg_data d))) hash = Ok blocks
  end →
  ∃ l, dg_index d :: l ++ indexes (hc_file (dg_context d)) T ++ digest_indexes (hc_file (dg_context d)) D ⊆+ seqZ 0 (hb_total h - hb_unprocessed h) ∧
    0 <= hb_unprocessed h <= hb_total h ∧ 0 <= hb_errored h <= errored ∧ Z.of_nat (length l) = hb_total h - hb_unhashed h ∧
    (errored = 0 → Z.of_nat (length blocks) = hb_total h ∧ ∀ j, j ∈ dg_index d :: l → blocks !! Z.to_nat j = Some (block_of h j)).
Proof.
  intros Hq HL Hres Hr. destruct HL as [_ H2 _ H4 _ _]. set (q := hc_file (dg_context d)) in *. apply Forall_cons in H2 as [Hd _].
  destruct (H4 q h Hq) as [l [P1 P2 P3 P4 P5]]. rewrite digest_indexes_cons, decide_True in P3 by done. exists l.
  assert (dg_index d :: l ++ indexes q T ++ digest_indexes q D ⊆+ seqZ 0 (hb_total h - hb_unprocessed h)) as P3'.
  { etrans; [|exact P3]. apply Permutation_submseteq. cbn. rewrite (app_assoc l), (app_assoc l). apply Permutation_middle. }
  pose proof (submseteq_length _ _ P3') as Hlen. rewrite length_seqZ in Hlen. cbn [length] in Hlen. rewrite length_app in Hlen.
  split_and!; try done; try lia; [destruct result; lia|]. eapply noted_blocks; try done.
  - apply Forall_forall. intros j Hj. assert (j ∈ seqZ 0 (hb_total h - hb_unprocessed h)) as ?%elem_of_seqZ; [|lia].
    eapply elem_of_submseteq; [|exact P3']. right. by apply elem_of_app; left.
  - intros He. apply P5; [done|lia].
Qed.

(** The last block of a file. *)
Lemma last_digest H n T D F d h result errored blocks :
  H !! hc_file (dg_context d) = Some h → ledger H n T (d :: D) F → (result = None ∨ result = Some (sha (dg_data d))) →
  match result with
  | None => errored = hb_errored h + 1 ∧ blocks = hb_blocks h
  | Some hash => errored = hb_errored h ∧ note_digest h (dg_index d) (Z.of_nat (length (dg_data d))) hash = Ok blocks
  end →
  hb_unhashed h = 1 → errored = 0 → blocks = block_of h <$> seqZ 0 (hb_total h).
Proof.
  intros Hq HL Hres Hr Hu He. destruct (digest_arrives _ _ _ _ _ _ _ _ _ _ Hq HL Hres Hr) as (l & Hl & Hun & _ & Hlen & Hb).
  destruct (Hb He) as [Hb1 Hb2]. eapply (all_done h (dg_index d :: l)); try done; [|cbn; lia].
  etrans; [|exact Hl]. constructor. by apply submseteq_inserts_r.
Qed.

(** A block has come back. *)
Lemma ledger_digested H n T D F d h result h' pushed :
  H !! hc_file (dg_context d) = Some h → ledger H n T (d :: D) F → (result = None ∨ result = Some (sha (dg_data d))) →
  digested h (dg_index d) (Z.of_nat (length (dg_data d))) result h' pushed →
  ledger (<[hc_file (dg_context d) := h']> H) (n + 1) T D F ∧ Forall good_item pushed.
Proof.
  intros Hq HL Hres (errored & blocks & Hr & Hh' & Hpu). pose proof (last_digest _ _ _ _ _ _ _ _ _ _ Hq HL Hres Hr) as Hlast.
  destruct (digest_arrives _ _ _ _ _ _ _ _ _ _ Hq HL Hres Hr) as (l & Hl & Hun & Herr & Hlen & Hblocks).
  set (q := hc_file (dg_context d)) in *. destruct (HL) as [H1 H2 H3 H4 H5 H6]. apply Forall_cons in H2 as [_ HD].
  assert (same_shape h h') as Hs by by rewrite Hh'. split.
  - eapply (ledger_update H n T (d :: D)); try done.
    + by eapply insert_tasks.
    + by eapply insert_digests.
    + intros q' Hne. split; [done|]. by rewrite digest_indexes_cons, decide_False.
    + intros _ _. exists (dg_index d :: l). rewrite Hh'. split; cbn [hb_total hb_unprocessed hb_errored hb_unhashed hb_blocks length]; try done; try lia.
      intros He Hpos. replace (hb_unhashed h - 1 =? 0) with false by lia. by apply Hblocks.
    + lia.
    + cbn [length]. lia.
  - subst pushed. destruct (hb_unhashed h - 1 =? 0) eqn:Ef; [|done]. constructor; [|done]. destruct (errored =? 0) eqn:Ee; [|done].
    cbn [negb]. assert (hashed (hb_info h) blocks) as Hh.
    { exists (hb_block_size h). rewrite (Hlast ltac:(lia) ltac:(lia)). rewrite length_fmap, length_seqZ. rewrite Z2Nat.id by lia. done. }
    by destruct (hb_incomplete h).
Qed.

(** ** Steps keep the books *)

Lemma under_way_update p c c' M H H' n n' o T :
  M !! p = Some c →
  ∃ rest, under_way (mkCore M H n o) T ≡ₚ fx_pending c ++ rest ∧ under_way (mkCore (<[p := c']> M) H' n' o) T ≡ₚ fx_pending c' ++ rest.
Proof.
  intros Hp. destruct (open_tasks_update M p c Hp) as (rest & Hr & Hu). exists (rest ++ sent_tasks o ++ T). unfold under_way. cbn.
  split; [by rewrite Hr, <- !app_assoc|by rewrite (Hu c'), <- !app_assoc].
Qed.

Lemma stacks_update (M : gmap positive folder_context) p c c' :
  M !! p = Some c → map_Forall (λ _ c, Forall good_item (fx_stack c)) M →
  (∀ i, i ∈ fx_stack c' → plain i ∨ i ∈ fx_stack c ∨ ∃ q, hash_item q i) → map_Forall (λ _ c, Forall good_item (fx_stack c)) (<[p := c']> M).
Proof.
  intros Hp HM Hi. apply map_Forall_insert_2; [|done]. apply Forall_forall. intros i [Hpl|[Hin|(q & Hq)]]%Hi.
  - destruct i; try done. cbn in Hpl. subst. by exists 0.
  - by eapply (proj1 (Forall_forall _ _) (HM p c Hp)).
  - by destruct Hq as [->|[->| ->]].
Qed.

Lemma pop_task_spec c c' t : pop_task c = Ok (c', t) → fx_pending c = t :: fx_pending c' ∧ fx_stack c' = fx_stack c.
Proof. unfold pop_task. destruct (fx_pending c) as [|t0 rest]; [done|]. intros [= <- <-]. by destruct t0. Qed.

Lemma core_step_sound C C' T D F : core_step C C' → sound C T D F → sound C' T D F.
Proof.
  intros Hstep [HL HS Ho]. destruct Hstep as [p c c' ts M H n o Hp _ Hg Hts Hl|p c c' M H n o Hp _ Hs Hts|p c c' q h M H n o Hp _ Hq Hn Hts Hi
    |p c c' q h k slave M H n o Hp _ Hg Hq _ Hk H0 Hts|p c c' t slave M H n o Hp Ht|p c M H n o Hp Hu]; cbn [co_hashes co_pool co_contexts co_sent] in *.
  - destruct (under_way_update p c c' M H H n n o T Hp) as (rest & H1 & H2). split; [|eapply stacks_update; [done..|]|done].
    + cbn. eapply ledger_perm; [by rewrite H2, Hts, (Permutation_app_comm (fx_pending c)), <- app_assoc|].
      apply ledger_light; [done|]. by eapply ledger_perm.
    + intros i [?|?]%Hg; auto.
  - destruct (under_way_update p c c' M H H n n o T Hp) as (rest & H1 & H2). split; [|eapply stacks_update; [done..|]|done].
    + eapply ledger_weaken; [|done|done|exact HL]. rewrite H1, H2, Hts. cbn. by apply submseteq_inserts_l.
    + rewrite Hs. by intros i ?%not_elem_of_nil.
  - destruct (under_way_update p c c' M H (<[q := h]> H) n n o T Hp) as (rest & H1 & H2). split; [|eapply stacks_update; [done..|]|done].
    + cbn. apply ledger_hash; [done|done|]. eapply ledger_perm; [|exact HL]. by rewrite H1, H2, Hts.
    + intros i [?|[?|?]]%Hi; eauto.
  - set (H' := <[q := _]> H). destruct (under_way_update p c c' M H H' n (n - k) o T Hp) as (rest & H1 & H2).
    split; [|eapply stacks_update; [done..|]|done].
    + cbn. eapply ledger_perm; [by rewrite H2, Hts, <- app_assoc; cbn; rewrite <- Permutation_middle|].
      apply ledger_schedule; [done|done|done|]. by eapply ledger_perm.
    + intros i [?|?]%Hg; auto.
  - destruct (under_way_update p c c' M H H n n o T Hp) as (rest & H1 & H2). apply pop_task_spec in Ht as [Hpend Hst].
    split; [|eapply stacks_update; [done..|]|apply Forall_app; split; [done|constructor; [by eexists|done]]].
    + cbn. eapply ledger_perm; [|exact HL]. rewrite H1, Hpend. unfold under_way. cbn. unfold sent_tasks. rewrite bind_app. cbn.
      unfold under_way in H2. cbn in H2. unfold sent_tasks in H2. rewrite <- app_assoc. cbn. rewrite <- Permutation_middle, <- Permutation_middle. by rewrite H2.
    + rewrite Hst. auto.
  - split; [|apply map_Forall_insert_2; [|done]|done].
    + cbn. eapply ledger_perm; [|exact HL]. unfold under_way. cbn. by rewrite open_tasks_new, (un_pending _ Hu).
    + eapply Forall_impl; [exact (un_stack _ Hu)|]. intros i Hpl. destruct i; try done. cbn in Hpl. subst. by exists 0.
Qed.

Lemma steps_sound C C' T D F : steps C C' → sound C T D F → sound C' T D F.
Proof. induction 1; eauto using core_step_sound. Qed.

Lemma failed_sound t C C' T D F : answer_step (Failed t) C C' → sound C T D (t :: F) → sound C' T D F.
Proof.
  intros Ha [HL HS Ho]. inversion Ha as [p c c' h t' ts M H n o Hp Hh _ Hst Hts Hl|]; subst. cbn [co_hashes co_pool co_contexts co_sent] in *.
  set (H' := <[_ := _]> H). destruct (under_way_update p c c' M H H' n (n + (sg_block_count t - sg_current_block t)) o T Hp) as (rest & H1 & H2).
  split; [|eapply stacks_update; [done..|]|done].
  - cbn. eapply ledger_perm; [by rewrite H2, Hts, (Permutation_app_comm (fx_pending c)), <- app_assoc|].
    apply ledger_light; [done|]. apply ledger_failed; [done|]. by eapply ledger_perm.
  - rewrite Hst. auto.
Qed.

Lemma digested_sound d result C C' T D F :
  (result = None ∨ result = Some (sha (dg_data d))) →
  answer_step (Digested (hc_file (dg_context d)) (dg_index d) (Z.of_nat (length (dg_data d))) result) C C' → sound C T (d :: D) F → sound C' T D F.
Proof.
  intros Hr Ha [HL HS Ho]. inversion Ha as [|p c c' q h h' pushed i sz r M H n o Hp Hh Hd _ Hst Hts]; subst. cbn [co_hashes co_pool co_contexts co_sent] in *.
  set (H' := <[_ := _]> H). destruct (under_way_update p c c' M H H' n (n + 1) o T Hp) as (rest & H1 & H2).
  destruct (ledger_digested _ _ _ _ _ _ _ _ _ _ Hh HL Hr Hd) as [HL' Hpu]. split; [| |done].
  - cbn. eapply ledger_perm; [|exact HL']. by rewrite H1, H2, Hts.
  - cbn. apply map_Forall_insert_2; [|done]. rewrite Hst. apply Forall_app. split; [done|]. exact (HS p c Hp).
Qed.

Lemma failed_trail_sound l : ∀ C C' T D F, trail (Failed <$> l) C C' → sound C T D (l ++ F) → sound C' T D F.
Proof.
  induction l as [|t l IH]; intros C C' T D F Ht HS; cbn in Ht; inversion Ht; subst; [by eapply steps_sound|].
  eapply IH; [done|]. eapply failed_sound; [done|]. by eapply steps_sound.
Qed.

Lemma digest_trail_sound d result C C' T D F :
  (result = None ∨ result = Some (sha (dg_data d))) →
  trail [Digested (hc_file (dg_context d)) (dg_index d) (Z.of_nat (length (dg_data d))) result] C C' → sound C T (d :: D) F → sound C' T D F.
Proof.
  intros Hr Ht HS. inversion Ht as [|a l x y y' z H1 H2 H3]; subst. inversion H3; subst.
  eapply steps_sound; [done|]. eapply digested_sound; [done|done|]. by eapply steps_sound.
Qed.

Lemma quiet_trail_sound C C' T D F : trail [] C C' → sound C T D F → sound C' T D F.
Proof. intros Ht. inversion Ht; subst. by apply steps_sound. Qed.

(** What is under way may be lost. *)
Lemma sound_weaken C T D F T' D' F' : T' ⊆+ T → D' ⊆+ D → F' ⊆+ F → sound C T D F → sound C T' D' F'.
Proof.
  intros HT HD HF [HL HS Ho]. split; [|done|done]. eapply ledger_weaken; [|done|done|exact HL]. unfold under_way.
  by apply submseteq_skips_l, submseteq_skips_l.
Qed.

(** What a handler has sent is under way. *)
Lemma sound_sent M H n o T D F : sound (mkCore M H n o) T D F → sound (mkCore M H n []) (T ++ sent_tasks o) D F.
Proof.
  intros [HL HS Ho]. split; [|done|done]. eapply ledger_perm; [|exact HL]. unfold under_way. cbn. by rewrite (Permutation_app_comm (sent_tasks o)).
Qed.

(** ** The file system *)

Lemma good_segment_digests H t : good_segment H t →
  Forall (good_digest H) ((λ j, mkDigestRequest (chunk t (content (sg_path t) (sg_time t)) j) (sg_block_index t + j) (sg_context t)) <$> seqZ 0 (sg_block_count t)).
Proof.
  intros [_ _ _ (h & Hh & Hp & Ht & Hb & Ho & Hn & Hl)]. apply Forall_forall. intros d (j & -> & Hj%elem_of_seqZ)%list_elem_of_fmap.
  exists h. split; [done|]. cbn. intros Hi. unfold chunk, piece. rewrite Hp, Ht, Hb, Ho, Hl.
  replace (sg_block_index t * hb_block_size h + hb_block_size h * j) with ((sg_block_index t + j) * hb_block_size h) by lia. rewrite Hi. f_equal. f_equal.
  unfold piece_size. destruct (j + 1 =? sg_block_count t) eqn:Ej.
  - by replace (sg_block_index t + sg_block_count t - 1 + 1) with (sg_block_index t + j + 1) by lia.
  - replace (sg_block_index t + j + 1 =? hb_total h) with false by lia. done.
Qed.

Lemma digest_indexes_fmap q t g l :
  digest_indexes q ((λ j, mkDigestRequest (g j) (sg_block_index t + j) (sg_context t)) <$> l) =
  if decide (hc_file (sg_context t) = q) then (λ j, sg_block_index t + j) <$> l else [].
Proof.
  induction l as [|j l IH]; [by case_decide|]. rewrite fmap_cons, digest_indexes_cons, IH. cbn. by case_decide.
Qed.

(** A segment becomes the digests of its blocks. *)
Lemma ledger_read H n t T D F :
  ledger H n (Segment t :: T) D F →
  ledger H n T (((λ j, mkDigestRequest (chunk t (content (sg_path t) (sg_time t)) j) (sg_block_index t + j) (sg_context t)) <$> seqZ 0 (sg_block_count t)) ++ D) F.
Proof.
  intros [H1 H2 H3 H4 H5 H6]. apply Forall_cons in H1 as [Ht HT]. pose proof (gs_count _ _ Ht) as Hc. split; try done.
  - apply Forall_app. split; [by apply good_segment_digests|done].
  - intros q h Hq. destruct (H4 q h Hq) as (l & [P1 P2 P3 P4 P5]). exists l. split; try done. etrans; [|exact P3].
    apply submseteq_skips_l. rewrite indexes_cons, digest_indexes_app, digest_indexes_fmap, (app_assoc (indexes q T)).
    rewrite (Permutation_app_comm (indexes q T)), <- !app_assoc. apply submseteq_app; [|done].
    case_decide; [|done]. change (λ j, sg_block_index t + j) with (Z.add (sg_block_index t)). by rewrite fmap_add_seqZ, Z.add_0_r.
  - rewrite claims_cons in H6. cbn in H6. rewrite length_app, length_fmap, length_seqZ. lia.
Qed.

(** A segment fails. *)
Lemma ledger_unread H n t T D F e current :
  0 <= current <= sg_block_count t → ledger H n (Segment t :: T) D F → ledger H n T D (with_progress t (Some e) current :: F).
Proof.
  intros Hc HL. destruct (HL) as [H1 H2 H3 H4 H5 H6]. apply (ledger_weaken _ _ _ _ _ T D F) in HL as [L1 L2 L3 L4 L5 L6]; [|by constructor|done|done].
  rewrite claims_cons in H6. cbn in H6. split; try done; [by constructor|]. rewrite given_back_cons. cbn. lia.
Qed.

(** What the file system is sent comes back. *)
Lemma exec_ledger `{FD : Faults} H n t T D F px x :
  told content (px_disk px) → exec px [t] = Ok x → ledger H n (t :: T) D F → ledger H n T (D ++ ex_digests x) (F ++ fails (ex_tasks x)).
Proof.
  intros Ht. unfold exec. intros (u & _ & Hx)%bind_Ok HL. cbn [exec_loop] in Hx. apply bind_Ok in Hx as (y & Hy & [= <-]). cbn. rewrite !app_nil_r.
  assert (light t → ex_digests y = [] → fails (ex_tasks y) = [] → ledger H n T (D ++ ex_digests y) (F ++ fails (ex_tasks y))) as Hlight.
  { intros Hl -> ->. rewrite !app_nil_r. eapply ledger_weaken; [|done|done|exact HL]. by constructor. }
  destruct t as [s|t|path ec|path name mt item ec|]; cbn [process_task] in Hy.
  - destruct (process_scan px s) as [[px' s'] notify]. injection Hy as <-. by apply Hlight.
  - apply bind_Ok in Hy as ([[px' t'] ds] & Hp & [= <-]). cbn [ex_digests ex_tasks]. destruct (HL) as [H1 _ _ _ _ _].
    apply Forall_cons in H1 as [Hg _]. pose proof (gs_count _ _ Hg) as Hc.
    apply (process_segment_spec content) in Hp as (ec & current & -> & Hcur & ->); [|done|lia].
    rewrite (gs_current _ _ Hg) in Hcur. destruct ec as [e|]; cbn.
    + rewrite app_nil_r. eapply ledger_weaken; [done|done| |apply (ledger_unread H n t T D F e current); [lia|exact HL]].
      by rewrite (Permutation_app_comm F).
    + rewrite app_nil_r. eapply ledger_weaken; [done| |done|by apply ledger_read]. by rewrite (Permutation_app_comm D).
  - destruct (remove_file px path) as [px' []]; injection Hy as <-; by apply Hlight.
  - destruct (process_rename px path name mt) as [[px' ec'] b]. injection Hy as <-. by apply Hlight.
  - injection Hy as <-. by apply Hlight.
Qed.
End hashing.
