(* ===== verification/KeeperRun.v ===== *)
(** * KeeperRun: the [LocalKeeper] with the file system and the hashers. Slaves, what they come back with and digests are under way
    between the actors, in any order; the file system may fail whenever it likes, and the cluster changes meanwhile. *)

From S2P Require Import Prelude Diff Version Proto DeviceId Device Path Blocks FileInfo FileStore FileMap GenericMap Folder.
From S2P Require Import Resolver BlockMap UpdateFolder FileIterator Advance Cluster Changes Trees ClusterUpdate Controller.
From S2P Require Import Watcher Disk FileIo FileActor Presence Tasks Segments FolderContext LocalKeeper KeeperFrame KeeperSteps KeeperLedger ControllerSample KeeperSample.
From stdpp Require Import relations.
Open Scope Z_scope.

(** ** The system *)

(** The actor, slaves on their way to the file system, slaves on their way back (with the error of those that were not carried out),
    and blocks on their way to or from the hashers. *)
Record run := mkRun {
  rn_keeper : keeper;
  rn_sent : list (positive * list task);
  rn_returned : list (positive * bool * list task);
  rn_digests : list digest_request;
}.

(** What the actor has sent is taken. *)
Definition taken (k : keeper) : keeper :=
  mkKeeper (lk_cluster k) (lk_fs_addr k) (lk_watcher_addr k) (lk_operational k) (lk_hashes_left k) (lk_fs_tasks k) (lk_delayed k)
    (lk_just_created k) (lk_started_watching k) (lk_local_ready k) (lk_watched k) (lk_slaves k) (lk_contexts k) (lk_hashes k)
    (lk_view k) (lk_calls k) [].

(** Messages of others than the file system and the hashers. *)
Definition foreign (e : keeper_event) : Prop := match e with SlaveReturned _ _ _ | Digest _ _ _ _ => False | _ => True end.

(** The part of the actor that others have no hand in: the presentation follows the cluster, addresses are found, the actor is
    started and shut down. *)
Definition same_work (k k' : keeper) : Prop :=
  lk_hashes_left k' = lk_hashes_left k ∧ lk_slaves k' = lk_slaves k ∧ lk_contexts k' = lk_contexts k ∧ lk_hashes k' = lk_hashes k ∧
  lk_out k' = lk_out k.

(** The segments that have failed among what comes back. *)
Definition fails_of (R : list (positive * bool * list task)) : list segment := R ≫= λ x, fails x.2.

Lemma fails_of_app R R' : fails_of (R ++ R') = fails_of R ++ fails_of R'.
Proof. apply bind_app. Qed.

Lemma fails_of_cons x R : fails_of (x :: R) = fails x.2 ++ fails_of R.
Proof. done. Qed.

Lemma sent_tasks_app l l' : sent_tasks (l ++ l') = sent_tasks l ++ sent_tasks l'.
Proof. apply bind_app. Qed.

Lemma sent_tasks_cons x l : sent_tasks (x :: l) = x.2 ++ sent_tasks l.
Proof. done. Qed.

Section run.
Context `{Surroundings} (utf8_valid : bytes → bool) (impl : watcher_impl) (sha : bytes → bytes) (content : contents).

Inductive run_step : run → run → Prop :=
| run_message m clock e k k' S R D :
    foreign e → keeper_handle utf8_valid impl m clock k e = Ok k' →
    run_step (mkRun k S R D) (mkRun (taken k') (S ++ slaves_sent (lk_out k')) R D)
| run_outside k k' S R D : same_work k k' → run_step (mkRun k S R D) (mkRun k' S R D)
| run_exec (FD : Faults) px x k S1 slave ts S2 R D :
    told content (px_disk px) → exec px ts = Ok x →
    run_step (mkRun k (S1 ++ (slave, ts) :: S2) R D) (mkRun k (S1 ++ S2) (R ++ [(slave, false, ex_tasks x)]) (D ++ ex_digests x))
| run_refused k S1 slave ts S2 R D :
    run_step (mkRun k (S1 ++ (slave, ts) :: S2) R D) (mkRun k (S1 ++ S2) (R ++ [(slave, true, ts)]) D)
| run_returned m clock k k' S R1 slave err ts R2 D :
    keeper_handle utf8_valid impl m clock k (SlaveReturned slave err ts) = Ok k' →
    run_step (mkRun k S (R1 ++ (slave, err, ts) :: R2) D) (mkRun (taken k') (S ++ slaves_sent (lk_out k')) (R1 ++ R2) D)
| run_digest m clock k k' S R D1 d D2 result :
    result = None ∨ result = Some (sha (dg_data d)) →
    keeper_handle utf8_valid impl m clock k (Digest (dg_context d) (dg_index d) (Z.of_nat (length (dg_data d))) result) = Ok k' →
    run_step (mkRun k S R (D1 ++ d :: D2)) (mkRun (taken k') (S ++ slaves_sent (lk_out k')) R (D1 ++ D2)).

(** An actor that has done nothing yet. *)
Record fresh_run (limit : Z) (r : run) : Prop := {
  fr_limit : 0 <= limit;
  fr_left : lk_hashes_left (rn_keeper r) = limit;
  fr_slaves : lk_slaves (rn_keeper r) = ∅;
  fr_contexts : lk_contexts (rn_keeper r) = ∅;
  fr_hashes : lk_hashes (rn_keeper r) = ∅;
  fr_out : lk_out (rn_keeper r) = [];
  fr_sent : rn_sent r = [];
  fr_returned : rn_returned r = [];
  fr_digests : rn_digests r = [];
}.

(** ** The invariant *)

Record in_order (limit : Z) (r : run) : Prop := {
  io_tidy : tidy (rn_keeper r);
  io_out : lk_out (rn_keeper r) = [];
  io_single : Forall (λ x, ∃ t, x.2 = [t]) (rn_sent r);
  io_sound : sound sha content limit (idle_core (rn_keeper r)) (sent_tasks (rn_sent r)) (rn_digests r) (fails_of (rn_returned r));
}.

Lemma fresh_in_order limit r : fresh_run limit r → in_order limit r.
Proof.
  intros [H1 H2 H3 H4 H5 H6 H7 H8 H9]. split; rewrite ?H7; try done.
  - unfold tidy. by rewrite H3.
  - unfold idle_core. rewrite H2, H4, H5, H6, H8, H9. split; cbn; [|done|done]. split; cbn; try done. unfold under_way, open_tasks. cbn.
    rewrite map_to_list_empty. cbn. lia.
Qed.

(** A message that is handled. *)
Lemma handled_in_order limit m clock k e k' S R D :
  tidy k → lk_out k = [] → Forall (λ x : positive * list task, ∃ t, x.2 = [t]) S →
  keeper_handle utf8_valid impl m clock k e = Ok k' →
  (∀ l C', l = answers e ∨ l = [] → trail l (idle_core k) C' → sound sha content limit C' (sent_tasks S) D (fails_of R)) →
  in_order limit (mkRun (taken k') (S ++ slaves_sent (lk_out k')) R D).
Proof.
  intros Ht Ho HS Hk Hsound. apply keeper_handle_path in Hk as (Ht' & l & Hl & Hp); [|done].
  specialize (Hsound l _ Hl Hp). split; cbn; try done.
  - apply Forall_app. split; [done|]. exact (so_single _ _ _ _ _ _ _ Hsound).
  - rewrite sent_tasks_app. by apply sound_sent.
Qed.

(** The file system has carried out a task. *)
Lemma exec_in_order `{FD : Faults} limit k S1 slave ts S2 R D px x :
  told content (px_disk px) → exec px ts = Ok x → in_order limit (mkRun k (S1 ++ (slave, ts) :: S2) R D) →
  in_order limit (mkRun k (S1 ++ S2) (R ++ [(slave, false, ex_tasks x)]) (D ++ ex_digests x)).
Proof.
  intros Ht Hx [H1 H2 H3 [HL HS Ho]]. cbn [rn_keeper rn_sent rn_digests rn_returned] in *. apply Forall_app in H3 as [HS1 HS2]. apply Forall_cons in HS2 as [[t Hts] HS2]. cbn in Hts. subst ts.
  split; cbn [rn_keeper rn_sent rn_digests rn_returned]; try done; [by apply Forall_app|]. split; [|done|done]. rewrite fails_of_app, fails_of_cons. cbn [snd fails_of mbind list_bind]. rewrite app_nil_r.
  eapply exec_ledger; [done|exact Hx|]. eapply ledger_perm; [|exact HL]. unfold under_way. rewrite !sent_tasks_app, sent_tasks_cons. cbn [snd app].
  by rewrite <- !Permutation_middle.
Qed.

Lemma run_step_in_order limit r r' : run_step r r' → in_order limit r → in_order limit r'.
Proof.
  intros Hr. destruct Hr as [m clock e k k' S R D Hf Hk|k k' S R D Hs|FD px x k S1 slave ts S2 R D Ht Hx|k S1 slave ts S2 R D
    |m clock k k' S R1 slave err ts R2 D Hk|m clock k k' S R D1 d D2 result Hres Hk]; intros HI; pose proof HI as [H1 H2 H3 H4]; cbn [rn_keeper rn_sent rn_digests rn_returned] in *.
  - eapply handled_in_order; try done. intros l C' Hl Hp. assert (l = []) as -> by (destruct e, Hl; done). by eapply quiet_trail_sound.
  - destruct Hs as (E1 & E2 & E3 & E4 & E5). split; cbn; try done; [|by rewrite E5|].
    + unfold tidy. by rewrite E2.
    + unfold idle_core. by rewrite E1, E3, E4, E5.
  - by eapply exec_in_order.
  - apply Forall_app in H3 as [HS1 HS2]. apply Forall_cons in HS2 as [[t Hts] HS2]. cbn in Hts. subst ts.
    destruct (H4) as [HL _ _]. apply le_tasks in HL. unfold under_way in HL. rewrite sent_tasks_app, sent_tasks_cons in HL. cbn [snd app] in HL.
    assert (good_task (lk_hashes k) t) as Hg by (rewrite !Forall_app, Forall_cons in HL; tauto).
    split; cbn [rn_keeper rn_sent rn_digests rn_returned]; try done; [by apply Forall_app|]. rewrite fails_of_app, fails_of_cons. cbn [snd].
    assert (fails [t] = []) as ->. { destruct t as [|t| | |]; try done. unfold fails. cbn. by rewrite (gs_ec _ _ Hg). }
    cbn. rewrite app_nil_r. eapply sound_weaken; [|done|done|exact H4]. rewrite !sent_tasks_app, sent_tasks_cons. cbn.
    apply submseteq_skips_l. by constructor.
  - eapply handled_in_order; try done. rewrite fails_of_app, fails_of_cons in *. cbn [snd] in *. intros l C' [->| ->] Hp.
    + cbn [answers] in Hp. rewrite failed_fails in Hp. eapply failed_trail_sound; [exact Hp|].
      eapply sound_weaken; [done|done| |exact H4]. by rewrite Permutation_app_swap_app.
    + eapply quiet_trail_sound; [done|]. eapply sound_weaken; [done|done| |exact H4].
      apply submseteq_skips_l. by apply submseteq_inserts_l.
  - eapply handled_in_order; try done. intros l C' [->| ->] Hp.
    + cbn [answers] in Hp. eapply digest_trail_sound; [exact Hres|exact Hp|]. eapply sound_weaken; [done| |done|exact H4].
      by rewrite <- Permutation_middle.
    + eapply quiet_trail_sound; [done|]. eapply sound_weaken; [done| |done|exact H4]. apply submseteq_skips_l. by constructor.
Qed.

Lemma reachable_in_order limit r0 r : fresh_run limit r0 → rtc run_step r0 r → in_order limit r.
Proof. intros H0%fresh_in_order Hr. revert H0. induction Hr; eauto using run_step_in_order. Qed.

(** ** What holds *)

(** C13: however slaves, digests, events and failures are interleaved, never more blocks are asked for than the limit allows: the hashes
    that are left, the blocks of segments that wait or are at the file system and the blocks at the hashers are together no more. *)
Theorem hashes_bounded limit r0 r :
  fresh_run limit r0 → rtc run_step r0 r →
  let k := rn_keeper r in
  0 <= lk_hashes_left k ∧
  lk_hashes_left k + claims (open_tasks (lk_contexts k)) + claims (sent_tasks (rn_sent r)) + Z.of_nat (length (rn_digests r)) <= limit.
Proof.
  intros H0 Hr. destruct (reachable_in_order _ _ _ H0 Hr) as [H1 H2 H3 HS]. unfold idle_core in HS. rewrite H2 in HS.
  destruct HS as [[L1 L2 L3 L4 L5 L6] _ _]. cbn in L5. split; [done|].
  pose proof (given_back_submseteq _ _ L3 (submseteq_nil_l _)) as Hg. unfold under_way in L6. cbn in L6, Hg. rewrite claims_app in L6. lia.
Qed.

(** C12: the last digest of a file whose blocks were all read and hashed puts the file on the stack of its folder with blocks that are,
    one after the other, those of the pieces of what the file had in it at the time it was found, whatever order the digests came in. *)
Theorem last_digest_completes limit r0 r m c c' s' d h :
  fresh_run limit r0 → rtc run_step r0 r → d ∈ rn_digests r →
  lk_hashes (rn_keeper r) !! hc_file (dg_context d) = Some h → hb_unhashed h = 1 → hb_errored h = 0 → hb_incomplete h = false →
  folder_there m c = true →
  post_digest m c (new_stack (rn_keeper r)) (hc_file (dg_context d)) (dg_index d) (Z.of_nat (length (dg_data d))) (Some (sha (dg_data d))) = Ok (c', s') →
  fx_stack c' = ChildReady (hb_info h) (piece_block sha content (hb_info h) (hb_block_size h) (hb_total h) <$> seqZ 0 (hb_total h)) :: fx_stack c.
Proof.
  intros H0 Hr Hd Hh Hu He Hi Hf Hp. destruct (reachable_in_order _ _ _ H0 Hr) as [_ _ _ [HL _ _]].
  apply list_elem_of_split in Hd as (D1 & D2 & HD). rewrite HD in HL.
  eapply (ledger_weaken _ _ _ _ _ _ _ _ _ (d :: D1 ++ D2)) in HL; [|done|by rewrite <- Permutation_middle|done].
  unfold post_digest in Hp. rewrite ensure_spec, Hf in Hp. cbn [negb sc_hashes new_stack] in Hp. rewrite Hh in Hp. cbn [the res_bind] in Hp.
  apply bind_Ok in Hp as (u & _ & Hp). apply bind_Ok in Hp as (files & _ & Hp). apply bind_Ok in Hp as ([errored blocks] & Hn & [= <- _]).
  apply bind_Ok in Hn as (bl & Hn & [= <- <-]).
  assert (bl = block_of sha content h <$> seqZ 0 (hb_total h)) as ->.
  { eapply (last_digest sha content limit _ _ _ _ _ d h (Some (sha (dg_data d))) 0); try done; by (right || split). }
  replace (hb_unhashed h - 1 =? 0) with true by lia. cbn. by rewrite He, Hi.
Qed.
End run.

(** ** A run *)

#[local] Existing Instance c_surroundings.

(** A folder with one file is scanned, up to the digest of its only block. *)
Definition w_model : model := k_model [] [].
Definition w_disk : disk := k_disk [(chars "/s/a", mkInode (KFile [1; 2; 3]) 7 420)].
Definition w_content : contents := λ p _, match stat w_disk p with Some (mkInode (KFile data) _ _) => data | _ => [] end.
Definition w_ok (r : res keeper) : keeper := match r with Ok k => k | _ => k_keeper w_model 0 end.
Definition w_sent (k : keeper) : positive * list task := default (1%positive, []) (head (slaves_sent (lk_out k))).
Definition w_exec (ts : list task) : executed :=
  match exec (H := no_faults) (k_proxy w_disk) ts with Ok x => x | _ => mkExecuted (k_proxy w_disk) [] [] [] false end.

Definition w_start : keeper := k_keeper w_model 2.
Definition w_scanning : keeper := w_ok (k_handle w_model w_start k_scan).
Definition w_listed : executed := w_exec (w_sent w_scanning).2.
Definition w_reading : keeper := w_ok (k_handle w_model (taken w_scanning) (SlaveReturned (w_sent w_scanning).1 false (ex_tasks w_listed))).
Definition w_read : executed := w_exec (w_sent w_reading).2.
Definition w_run : run := mkRun (taken w_reading) [] [((w_sent w_reading).1, false, ex_tasks w_read)] (ex_digests w_read).

Lemma w_told : told w_content w_disk.
Proof. intros p [kd t pe] data Hs Hk. cbn in Hk. subst kd. unfold w_content. by rewrite Hs. Qed.

Lemma w_fresh : fresh_run 2 (mkRun w_start [] [] []).
Proof. split; try done. Qed.

Lemma w_reachable : rtc (run_step (λ _, true) no_watcher k_hash w_content) (mkRun w_start [] [] []) w_run.
Proof.
  eapply rtc_l. { apply (run_message _ _ _ _ w_model 1000 k_scan w_start w_scanning); [done|vm_compute; reflexivity]. }
  replace (slaves_sent (lk_out w_scanning)) with [((w_sent w_scanning).1, (w_sent w_scanning).2)] by (vm_compute; reflexivity).
  eapply rtc_l. { apply (run_exec _ _ _ _ no_faults (k_proxy w_disk) w_listed (taken w_scanning) [] (w_sent w_scanning).1 (w_sent w_scanning).2 [] [] []);
    [exact w_told|vm_compute; reflexivity]. }
  eapply rtc_l. { apply (run_returned _ _ _ _ w_model 1000 (taken w_scanning) w_reading [] [] (w_sent w_scanning).1 false (ex_tasks w_listed) []);
    vm_compute; reflexivity. }
  replace (slaves_sent (lk_out w_reading)) with [((w_sent w_reading).1, (w_sent w_reading).2)] by (vm_compute; reflexivity).
  replace (ex_digests w_listed) with (@nil digest_request) by (vm_compute; reflexivity).
  eapply rtc_l. { apply (run_exec _ _ _ _ no_faults (k_proxy w_disk) w_read (taken w_reading) [] (w_sent w_reading).1 (w_sent w_reading).2 [] [] []);
    [exact w_told|vm_compute; reflexivity]. }
  apply rtc_refl.
Qed.

Example hashes_bounded_witness :
  lk_hashes_left (rn_keeper w_run) = 1 ∧ 0 <= lk_hashes_left (rn_keeper w_run) ∧
  lk_hashes_left (rn_keeper w_run) + claims (open_tasks (lk_contexts (rn_keeper w_run))) + claims (sent_tasks (rn_sent w_run)) +
    Z.of_nat (length (rn_digests w_run)) <= 2.
Proof. split; [vm_compute; reflexivity|]. exact (hashes_bounded _ _ _ _ 2 _ _ w_fresh w_reachable). Defined.

Definition w_digest : digest_request := default (mkDigestRequest [] 0 (mkHashContext 1 1 1)) (head (rn_digests w_run)).
Definition w_context : folder_context :=
  match lk_contexts (rn_keeper w_run) !! hc_folder (dg_context w_digest) with Some c => c | None => mkFolderContext [] [] [] false 0 0 0 ∅ ∅ end.

Definition w_hash : hash_base :=
  match lk_hashes (rn_keeper w_run) !! hc_file (dg_context w_digest) with
  | Some h => h
  | None => mkHash (mkChild [] [] 0 0 FILE 0 None None 0) 0 0 0 0 0 [] ignore false
  end.

Lemma w_under_way : w_digest ∈ rn_digests w_run.
Proof. assert (rn_digests w_run = [w_digest]) as -> by (vm_compute; reflexivity). by apply list_elem_of_singleton. Qed.

Definition w_after : res (folder_context * stack_context) :=
  post_digest w_model w_context (new_stack (rn_keeper w_run)) (hc_file (dg_context w_digest)) (dg_index w_digest)
    (Z.of_nat (length (dg_data w_digest))) (Some (k_hash (dg_data w_digest))).

Example last_digest_completes_witness :
  match w_after with
  | Ok (c', _) =>
      fx_stack c' = ChildReady (hb_info w_hash) (piece_block k_hash w_content (hb_info w_hash) (hb_block_size w_hash) (hb_total w_hash) <$>
                                                   seqZ 0 (hb_total w_hash)) :: fx_stack w_context
  | _ => False
  end.
Proof.
  destruct w_after as [[c' s']| |] eqn:Ea.
  - apply (last_digest_completes _ _ _ _ 2 _ w_run w_model w_context c' s' w_digest w_hash w_fresh w_reachable w_under_way);
      [vm_compute; reflexivity..|exact Ea].
  - vm_compute in Ea. discriminate.
  - vm_compute in Ea. discriminate.
Defined.
