(* ===== verification/Dialer.v ===== *)
(** * Dialer: [src/net/dialer_actor.cpp], which peer is dialled or looked up when. The entries of its map hold pointers to
    devices, here their digests; the state and the addresses of a device are read from the cluster at every use. Timers
    belong to the actor framework: cancelling one calls its handler at once, as the supervisor of [src/tests] does. Times
    are those of the steady clock, in nanoseconds. *)

From S2P Require Import Prelude Diff Version Proto DeviceId Device Path GenericMap Folder Cluster Changes Trees Removal.

Definition millisecond : Z := 1000000.

(** [config::dialer_config_t]; the timeout is in milliseconds. *)
Record dialer_config := mkDialerConfig { dc_redial_timeout : Z; dc_skip_discovers : Z }.

(** [redial_info_t], with the key of the device it is kept for. *)
Record redial_info := mkRedial {
  ri_key : bytes;
  ri_last_attempt : Z;
  ri_timer_id : option Z;
  ri_skip_discovers : Z;
}.

(** The resources of kind [timer] that are acquired are counted; [da_next_timer] is the number of the next timer. *)
Record dialer := mkDialer {
  da_redial_map : gmap bytes redial_info;
  da_announced : bool;
  da_operational : bool;
  da_timers : Z;
  da_next_timer : Z;
}.

(** What goes out: a timer of so many milliseconds, and messages to the coordinator. [mine] says that the change carries this
    actor, by which it is recognised when it is visited. *)
Inductive dialing :=
| LocalUp
| StartRedial (id ms : Z)
| Dial (peer_id : bytes) (mine : bool)
| Update (changes : diff op) (mine : bool).

Definition set_entry (s : dialer) (sha : bytes) (info : redial_info) : dialer :=
  mkDialer (<[sha := info]> (da_redial_map s)) (da_announced s) (da_operational s) (da_timers s) (da_next_timer s).

Definition drop_entry (s : dialer) (sha : bytes) : dialer :=
  mkDialer (delete sha (da_redial_map s)) (da_announced s) (da_operational s) (da_timers s) (da_next_timer s).

Section dialer.
Context `{Environment}.
Variable cfg : dialer_config.

(** [operator<] of a URL. *)
Variable uri_lt : uri → uri → bool.

(** [std::set::insert]. *)
Fixpoint set_insert (u : uri) (l : list uri) : list uri :=
  match l with
  | [] => [u]
  | v :: l => if uri_lt u v then u :: v :: l else if uri_lt v u then v :: set_insert u l else v :: l
  end.

(** [update_contact_t::update_contact_t]. *)
Definition new_update_contact (m : model) (id : device_id) (uris : list uri) : diff op :=
  let known := match by_sha256 (mo_devices m) (get_sha256 id) with Some _ => true | None => false end in
  leaf (UpdateContact known id (fold_left (λ l u, set_insert u l) uris [])).

(** [redial_map[peer]]: an entry is made when there is none. *)
Definition redial_entry (s : dialer) (peer : device) : redial_info :=
  default (mkRedial (device_key local_id peer) 0 None 0) (da_redial_map s !! get_sha256 (d_id peer)).

(** [assert(diff)]. *)
Definition diff_made (d : diff op) : bool := match d with Null => false | Node _ _ _ => true end.

(** [discover_or_dial]. *)
Definition discover_or_dial (m : model) (now : Z) (s : dialer) (peer : device) : res (dialer * list dialing) :=
  let dynamic := is_dynamic peer in
  if (dynamic && negb (da_announced s)) || negb (da_operational s) then Ok (s, [])
  else
    let sha := get_sha256 (d_id peer) in
    let info := redial_entry s peer in
    let info := mkRedial (ri_key info) now (ri_timer_id info) (ri_skip_discovers info) in
    let has_uris := negb (bool_decide (d_uris peer = [])) in
    let try_discover := dynamic && (negb has_uris || (ri_skip_discovers info =? 0)) in
    let counted := dynamic && has_uris && negb (ri_skip_discovers info =? 0) in
    let do_dial := (negb dynamic && has_uris) || counted in
    let do_update := negb dynamic && negb has_uris in
    let info := if counted then mkRedial (ri_key info) (ri_last_attempt info) (ri_timer_id info) (ri_skip_discovers info - 1) else info in
    let s := set_entry s sha info in
    let* discovery :=
      if try_discover && bool_decide (st_connection (d_state peer) = offline) then
        let* state := to_unknown (d_state peer) in
        let* d := new_peer_state m sha state [] [] now in
        let* _ := assert (diff_made d) in
        Ok [Update d true]
      else Ok [] in
    let dialled := if do_dial then [Dial sha false] else [] in
    let updated := if do_update then [Update (new_update_contact m (d_id peer) (d_static_uris peer)) false] else [] in
    Ok (s, discovery ++ dialled ++ updated).

(** [schedule_redial]; [duration_cast] cuts the nanoseconds off. *)
Definition schedule_redial (m : model) (now : Z) (s : dialer) (peer : device) : res (dialer * list dialing) :=
  let sha := get_sha256 (d_id peer) in
  let info := redial_entry s peer in
  let s := set_entry s sha info in
  match ri_timer_id info with
  | Some _ => Ok (s, [])
  | None =>
      let deadline := ri_last_attempt info + dc_redial_timeout cfg * millisecond in
      if now <=? deadline then
        let diff_ms := Z.quot (deadline - now) millisecond in
        let id := da_next_timer s in
        let info := mkRedial (ri_key info) (ri_last_attempt info) (Some id) (ri_skip_discovers info) in
        let s := set_entry s sha info in
        Ok (mkDialer (da_redial_map s) (da_announced s) (da_operational s) (da_timers s + 1) (id + 1), [StartRedial id diff_ms])
      else discover_or_dial m now s peer
  end.

(** The loops of [on_start] and [on_announce] over the devices other than this one. *)
Fixpoint schedule_all (m : model) (now : Z) (s : dialer) (devices : list device) : res (dialer * list dialing) :=
  match devices with
  | [] => Ok (s, [])
  | d :: devices =>
      let* '(s, out) := if bool_decide (d_id d = d_id (mo_device m)) then Ok (s, []) else schedule_redial m now s d in
      let* '(s, rest) := schedule_all m now s devices in
      Ok (s, out ++ rest)
  end.

Definition on_dialer_start (m : model) (now : Z) (s : dialer) : res (dialer * list dialing) :=
  let s := mkDialer (da_redial_map s) (da_announced s) true (da_timers s) (da_next_timer s) in
  let* '(s, out) := schedule_all m now s (mo_devices m) in
  Ok (s, LocalUp :: out).

Definition on_announce (m : model) (now : Z) (s : dialer) : res (dialer * list dialing) :=
  schedule_all m now (mkDialer (da_redial_map s) true (da_operational s) (da_timers s) (da_next_timer s)) (mo_devices m).

(** [find_if] over the map. *)
Definition holder (s : dialer) (id : Z) : option (bytes * redial_info) :=
  head (filter (λ kv, ri_timer_id kv.2 = Some id) (map_to_list (da_redial_map s))).

(** [on_timer]. An entry is there as long as its device is in the cluster. *)
Definition on_redial_timer (m : model) (now : Z) (s : dialer) (id : Z) (cancelled : bool) : res (dialer * list dialing) :=
  let* _ := assert (0 <? da_timers s) in
  let s := mkDialer (da_redial_map s) (da_announced s) (da_operational s) (da_timers s - 1) (da_next_timer s) in
  match holder s id with
  | None => Ub
  | Some (sha, info) =>
      let s := set_entry s sha (mkRedial (ri_key info) (ri_last_attempt info) None (ri_skip_discovers info)) in
      if cancelled then Ok (s, [])
      else
        match by_sha256 (mo_devices m) sha with
        | None => Ub
        | Some peer => discover_or_dial m now s peer
        end
  end.

Definition cancel_redial (m : model) (now : Z) (s : dialer) (id : Z) : res dialer :=
  let* '(s, _) := on_redial_timer m now s id true in Ok s.

Definition cancel_held (m : model) (now : Z) (s : dialer) (info : redial_info) : res dialer :=
  match ri_timer_id info with Some id => cancel_redial m now s id | None => Ok s end.

(** The loop of [shutdown_start]. *)
Fixpoint shutdown_loop (fuel : nat) (m : model) (now : Z) (s : dialer) : res dialer :=
  match map_to_list (da_redial_map s) with
  | [] => Ok s
  | (sha, info) :: _ =>
      match fuel with
      | O => Ub
      | S fuel =>
          let* s :=
            match ri_timer_id info with
            | Some id => cancel_redial m now s id
            | None => Ok (drop_entry s sha)
            end in
          shutdown_loop fuel m now s
      end
  end.

Definition dialer_shutdown_start (m : model) (now : Z) (s : dialer) : res dialer :=
  let s := mkDialer (da_redial_map s) (da_announced s) false (da_timers s) (da_next_timer s) in
  shutdown_loop (2 * size (da_redial_map s)) m now s.

(** ** Changes that are visited *)

(** [operator()(peer_state_t)], after the change is applied. *)
Definition dialer_visit_peer_state (m : model) (now : Z) (s : dialer) (peer_id : bytes) (mine : bool)
    : res (dialer * list dialing) :=
  match by_sha256 (mo_devices m) peer_id with
  | None => Ok (s, [])
  | Some peer =>
      let state := d_state peer in
      match st_connection state with
      | offline => schedule_redial m now s peer
      | unknown =>
          if mine then
            let* state := to_offline state in
            let* d := new_peer_state m (get_sha256 (d_id peer)) state [] [] now in
            let* _ := assert (diff_made d) in
            Ok (s, [Update d false])
          else Ok (s, [])
      | online =>
          match da_redial_map s !! get_sha256 (d_id peer) with
          | Some info => let* s := cancel_held m now s info in Ok (s, [])
          | None => Ok (s, [])
          end
      | _ => Ok (s, [])
      end
  end.

(** [operator()(update_contact_t)]. *)
Definition dialer_visit_update_contact (m : model) (s : dialer) (id : device_id) : dialer * list dialing :=
  match by_sha256 (mo_devices m) (get_sha256 id) with
  | None => (s, [])
  | Some peer =>
      if bool_decide (d_id peer = d_id (mo_device m)) then (s, [])
      else
        let can_dial := negb (bool_decide (d_uris peer = [])) in
        let need_dial := rank (st_connection (d_state peer)) <=? rank discovering in
        if can_dial && need_dial then
          let sha := get_sha256 (d_id peer) in
          let s :=
            match da_redial_map s !! sha with
            | Some info => set_entry s sha (mkRedial (ri_key info) (ri_last_attempt info) (ri_timer_id info) (dc_skip_discovers cfg))
            | None => s
            end in
          (s, [Dial sha true])
        else (s, [])
  end.

(** [operator()(remove_peer_t)]: the first entry with the key. *)
Definition dialer_visit_remove_peer (m : model) (now : Z) (s : dialer) (peer_key : bytes) : res dialer :=
  match head (filter (λ kv, ri_key kv.2 = peer_key) (map_to_list (da_redial_map s))) with
  | None => Ok s
  | Some (sha, info) =>
      let* s := cancel_held m now s info in
      Ok (drop_entry s sha)
  end.

(** ** The events of the actor *)

Inductive dialer_event :=
| DStart
| DAnnounce
| DTimer (id : Z)
| DPeerState (peer_id : bytes) (mine : bool)
| DUpdateContact (id : device_id)
| DRemovePeer (peer_key : bytes)
| DShutdown.

Definition dialer_handle (m : model) (now : Z) (s : dialer) (ev : dialer_event) : res (dialer * list dialing) :=
  match ev with
  | DStart => on_dialer_start m now s
  | DAnnounce => on_announce m now s
  | DTimer id => on_redial_timer m now s id false
  | DPeerState peer_id mine => dialer_visit_peer_state m now s peer_id mine
  | DUpdateContact id => Ok (dialer_visit_update_contact m s id)
  | DRemovePeer peer_key => let* s := dialer_visit_remove_peer m now s peer_key in Ok (s, [])
  | DShutdown => let* s := dialer_shutdown_start m now s in Ok (s, [])
  end.
End dialer.

(** ** Which timers are under way *)

(** The timers of the entries. *)
Definition held (s : dialer) : gmap bytes Z := omap ri_timer_id (da_redial_map s).

Record dialer_ok (s : dialer) : Prop := {
  do_count : da_timers s = Z.of_nat (size (held s));
  do_distinct : ∀ sha sha' id, held s !! sha = Some id → held s !! sha' = Some id → sha = sha';
  do_fresh : ∀ sha id, held s !! sha = Some id → id < da_next_timer s;
}.

Lemma held_lookup s sha : held s !! sha = da_redial_map s !! sha ≫= ri_timer_id.
Proof. apply lookup_omap. Qed.

Lemma held_set s sha info :
  held (set_entry s sha info) = match ri_timer_id info with Some id => <[sha := id]> (held s) | None => delete sha (held s) end.
Proof.
  apply map_eq. intros k. unfold held, set_entry. cbn [da_redial_map]. rewrite lookup_omap.
  destruct (decide (sha = k)) as [->|Hk].
  - rewrite lookup_insert_eq. cbn. destruct (ri_timer_id info); [by rewrite lookup_insert_eq|by rewrite lookup_delete_eq].
  - rewrite lookup_insert_ne by done. rewrite <- lookup_omap.
    destruct (ri_timer_id info); [by rewrite lookup_insert_ne|by rewrite lookup_delete_ne].
Qed.

Lemma held_drop s sha : held (drop_entry s sha) = delete sha (held s).
Proof. unfold held, drop_entry. cbn [da_redial_map]. apply omap_delete. Qed.

(** The timer that is asked for is found. *)
Lemma holder_spec s id sha :
  dialer_ok s → held s !! sha = Some id →
  ∃ info, holder s id = Some (sha, info) ∧ da_redial_map s !! sha = Some info ∧ ri_timer_id info = Some id.
Proof.
  intros Hw Hh. rewrite held_lookup in Hh. destruct (da_redial_map s !! sha) as [info|] eqn:Hm; [|done]. cbn in Hh.
  unfold holder. destruct (filter _ _) as [|[sha' info'] l] eqn:Hf.
  - exfalso. assert ((sha, info) ∈ filter (λ kv : bytes * redial_info, ri_timer_id kv.2 = Some id) (map_to_list (da_redial_map s))) as Hin
      by (apply list_elem_of_filter; split; [done|by apply elem_of_map_to_list]).
    rewrite Hf in Hin. by apply elem_of_nil in Hin.
  - assert ((sha', info') ∈ filter (λ kv : bytes * redial_info, ri_timer_id kv.2 = Some id) (map_to_list (da_redial_map s))) as Hin
      by (rewrite Hf; left).
    apply list_elem_of_filter in Hin as [Hid Hin%elem_of_map_to_list]. cbn in Hid.
    assert (sha' = sha) as ->; [|exists info'; naive_solver].
    apply (do_distinct s Hw sha' sha id); by rewrite held_lookup, ?Hin, ?Hm.
Qed.

(** When the timers that were started are due. *)
Definition log (now : Z) (out : list dialing) (dues : gmap Z Z) : gmap Z Z :=
  fold_left (λ dues e, match e with StartRedial id ms => <[id := now + ms * millisecond]> dues | _ => dues end) out dues.

Definition no_timer (e : dialing) : Prop := match e with StartRedial _ _ => False | _ => True end.

Lemma log_app now out out' dues : log now (out ++ out') dues = log now out' (log now out dues).
Proof. apply fold_left_app. Qed.

Lemma log_same now out dues : Forall no_timer out → log now out dues = dues.
Proof. unfold log. intros Hf. revert dues. induction Hf as [|[] out He _ IH]; intros dues; cbn; [done|apply IH|done|apply IH|apply IH]. Qed.

Definition last_attempt (s : dialer) (sha : bytes) : Z :=
  match da_redial_map s !! sha with Some info => ri_last_attempt info | None => 0 end.

(** Every timer of an entry is under way, and not due (by more than a millisecond) before the timeout after its last attempt. *)
Record timed (cfg : dialer_config) (dues : gmap Z Z) (s : dialer) : Prop := {
  ti_ok : dialer_ok s;
  ti_due : ∀ sha id, held s !! sha = Some id →
    ∃ due, dues !! id = Some due ∧ last_attempt s sha + dc_redial_timeout cfg * millisecond < due + millisecond;
}.

(** Between two states of the same moment: an attempt comes not earlier than the timeout after the last one, up to a millisecond. *)
Definition spaced (cfg : dialer_config) (now : Z) (s s' : dialer) (sha : bytes) : Prop :=
  last_attempt s' sha = last_attempt s sha ∨
  (last_attempt s' sha = now ∧ last_attempt s sha + dc_redial_timeout cfg * millisecond < now + millisecond).

Lemma spaced_trans cfg now s1 s2 s3 sha : spaced cfg now s1 s2 sha → spaced cfg now s2 s3 sha → spaced cfg now s1 s3 sha.
Proof.
  unfold spaced. intros [H1|[H1 H1']] [H2|[H2 H2']]; [left; congruence|right; by rewrite <- H1|right; split; [congruence|done]|by right].
Qed.

(** ** Attempts *)

(** What the actor itself undertakes to reach a peer: it has it looked up, dials it, or tells its addresses anew. A dial that answers news about
    the addresses ([mine]) is not of this kind. *)
Definition attempt_of (e : dialing) : option bytes :=
  match e with
  | Dial sha false => Some sha
  | Update (Node (PeerState _ sha _ _ _ _) _ _) true => Some sha
  | Update (Node (UpdateContact _ id _) _ _) false => Some (get_sha256 id)
  | _ => None
  end.

Definition attempts (out : list dialing) : list bytes := omap attempt_of out.

(** When each peer was tried the last time. *)
Definition note (now : Z) (tried : gmap bytes Z) (l : list bytes) : gmap bytes Z := fold_left (λ tried sha, <[sha := now]> tried) l tried.

(** Every attempt comes at least the timeout after the one before, up to a millisecond. *)
Fixpoint far_apart (cfg : dialer_config) (now : Z) (tried : gmap bytes Z) (l : list bytes) : Prop :=
  match l with
  | [] => True
  | sha :: l =>
      (∀ t, tried !! sha = Some t → t + dc_redial_timeout cfg * millisecond < now + millisecond) ∧ far_apart cfg now (<[sha := now]> tried) l
  end.

Lemma attempts_app out out' : attempts (out ++ out') = attempts out ++ attempts out'.
Proof. apply omap_app. Qed.

Lemma note_app now tried l l' : note now tried (l ++ l') = note now (note now tried l) l'.
Proof. apply fold_left_app. Qed.

Lemma far_apart_app cfg now l l' : ∀ tried, far_apart cfg now tried l → far_apart cfg now (note now tried l) l' → far_apart cfg now tried (l ++ l').
Proof. induction l as [|sha l IH]; intros tried; cbn; [done|]. intros [Hs Hl] Hl'. split; [done|by apply IH]. Qed.

(** The entries know of the attempts that were made. *)
Definition tracked (tried : gmap bytes Z) (s : dialer) : Prop := ∀ sha t, tried !! sha = Some t → t <= last_attempt s sha.

(** States that differ in nothing the timers depend on. *)
Lemma timed_transfer cfg dues s s' :
  held s' = held s → da_timers s' = da_timers s → da_next_timer s' = da_next_timer s →
  (∀ sha, is_Some (held s !! sha) → last_attempt s' sha = last_attempt s sha) →
  timed cfg dues s → timed cfg dues s'.
Proof.
  intros Hh Ht Hn Hl [[Hc Hd Hf] Hdue]. split; [split|]; rewrite Hh.
  - congruence.
  - done.
  - intros sha id Hs. rewrite Hn. eauto.
  - intros sha id Hs. rewrite Hl by done. eauto.
Qed.

Section handlers.
Context `{Environment}.
Variable cfg : dialer_config.
Variable uri_lt : uri → uri → bool.
Hypothesis timeout_pos : 0 < dc_redial_timeout cfg.
Implicit Types (m : model) (s : dialer).

Lemma by_sha256_sha devices sha d : by_sha256 devices sha = Some d → d ∈ devices ∧ get_sha256 (d_id d) = sha.
Proof. unfold by_sha256. intros [? [=]]%gget_some. done. Qed.

Lemma by_sha256_elem devices d : wf_gmap devices → d ∈ devices → by_sha256 devices (get_sha256 (d_id d)) = Some d.
Proof. intros Hw Hd. apply gget_elem; [done|lia|done|done]. Qed.

Lemma entry_last s peer : ri_last_attempt (redial_entry s peer) = last_attempt s (get_sha256 (d_id peer)).
Proof. unfold redial_entry, last_attempt. by destruct (_ !! _). Qed.

Lemma entry_timer s peer : ri_timer_id (redial_entry s peer) = held s !! get_sha256 (d_id peer).
Proof. rewrite held_lookup. unfold redial_entry. by destruct (_ !! _). Qed.

Lemma last_set s sha info k : last_attempt (set_entry s sha info) k = if decide (k = sha) then ri_last_attempt info else last_attempt s k.
Proof.
  unfold last_attempt, set_entry. cbn [da_redial_map]. destruct (decide (k = sha)) as [->|Hk]; [by rewrite lookup_insert_eq|by rewrite lookup_insert_ne].
Qed.

(** An entry that is put back, whatever was noted in it but its timer. *)
Lemma held_set_same s peer info :
  ri_timer_id info = ri_timer_id (redial_entry s peer) → held (set_entry s (get_sha256 (d_id peer)) info) = held s.
Proof.
  intros Ht. rewrite held_set, Ht, entry_timer. destruct (held s !! _) eqn:Hh; [by apply insert_id|by apply delete_id].
Qed.

(** A peer that is offline and known can become unknown. *)
Lemma new_peer_state_unknown m peer now :
  by_sha256 (mo_devices m) (get_sha256 (d_id peer)) = Some peer → st_connection (d_state peer) = offline →
  ∃ state d, to_unknown (d_state peer) = Ok state ∧ new_peer_state m (get_sha256 (d_id peer)) state [] [] now = Ok d ∧ diff_made d = true ∧
    attempt_of (Update d true) = Some (get_sha256 (d_id peer)).
Proof.
  intros Hp Ho. unfold to_unknown. rewrite bool_decide_eq_true_2 by done. cbn [assert res_bind]. do 2 eexists. split; [done|].
  unfold new_peer_state. rewrite Hp. unfold state_lt. cbn [st_connection]. rewrite Ho. cbn. done.
Qed.

Lemma new_peer_state_offline m peer now :
  by_sha256 (mo_devices m) (get_sha256 (d_id peer)) = Some peer → st_connection (d_state peer) = unknown →
  ∃ state d, to_offline (d_state peer) = Ok state ∧ new_peer_state m (get_sha256 (d_id peer)) state [] [] now = Ok d ∧ diff_made d = true ∧
    attempt_of (Update d false) = None.
Proof.
  intros Hp Ho. do 2 eexists. split; [done|]. unfold new_peer_state. rewrite Hp. unfold state_lt. cbn [st_connection]. rewrite Ho. cbn.
  unfold can_roollback_to. cbn [st_token]. rewrite Z.eqb_refl. unfold state_lt. cbn [st_connection]. rewrite Ho. cbn. done.
Qed.

(** What [discover_or_dial] does: no timer changes, the attempt is noted, and somebody is told. *)
Lemma discover_or_dial_spec m now s peer :
  by_sha256 (mo_devices m) (get_sha256 (d_id peer)) = Some peer →
  ∃ s' out, discover_or_dial uri_lt m now s peer = Ok (s', out) ∧ Forall no_timer out ∧ held s' = held s ∧
    da_timers s' = da_timers s ∧ da_next_timer s' = da_next_timer s ∧ (attempts out = [] ∨ attempts out = [get_sha256 (d_id peer)]) ∧
    (∀ k, k ≠ get_sha256 (d_id peer) → last_attempt s' k = last_attempt s k) ∧
    ((s' = s ∧ out = [] ∧ ((is_dynamic peer = true ∧ da_announced s = false) ∨ da_operational s = false)) ∨
     (last_attempt s' (get_sha256 (d_id peer)) = now ∧
      (st_connection (d_state peer) = offline → out ≠ []))).
Proof.
  intros Hp. unfold discover_or_dial. set (sha := get_sha256 (d_id peer)) in *.
  destruct (is_dynamic peer && negb (da_announced s) || negb (da_operational s)) eqn:Hg.
  { exists s, []. split_and!; try done; [by left|]. left. split_and!; [done..|].
    apply orb_true_iff in Hg as [[-> ->%negb_true_iff]%andb_true_iff | ->%negb_true_iff]; auto. }
  cbn [ri_key ri_last_attempt ri_timer_id ri_skip_discovers].
  set (counted := is_dynamic peer && negb (bool_decide (d_uris peer = [])) && negb (ri_skip_discovers (redial_entry s peer) =? 0)).
  set (info' := if counted then mkRedial _ _ _ _ else mkRedial _ _ _ _).
  assert (ri_timer_id info' = ri_timer_id (redial_entry s peer)) as Ht by (unfold info'; by destruct counted).
  assert (ri_last_attempt info' = now) as Hl by (unfold info'; by destruct counted).
  assert (∀ k, k ≠ sha → last_attempt (set_entry s sha info') k = last_attempt s k) as Hk
    by (intros k Hk; rewrite last_set; by rewrite decide_False).
  assert (last_attempt (set_entry s sha info') sha = now) as Hn by (rewrite last_set; by rewrite decide_True).
  destruct (_ && bool_decide (st_connection (d_state peer) = offline)) eqn:Hd.
  - apply andb_true_iff in Hd as [Hd Ho%bool_decide_eq_true].
    destruct (new_peer_state_unknown m peer now Hp Ho) as (state & d & Hst & Hnew & Hm & Hatt). rewrite Hst. cbn [res_bind]. fold sha in Hnew. rewrite Hnew. cbn [res_bind].
    rewrite Hm. cbn [assert res_bind]. eexists _, _. split; [done|]. split_and!; try done; [|by apply held_set_same| |right; by split].
    + repeat apply Forall_app_2; repeat case_match; by repeat constructor.
    + right. rewrite attempts_app. unfold attempts at 1. cbn [omap list_omap]. rewrite Hatt. unfold counted.
      destruct (is_dynamic peer), (bool_decide (d_uris peer = [])), (ri_skip_discovers (redial_entry s peer) =? 0); done.
  - cbn [res_bind]. eexists _, _. split; [done|]. split_and!; try done; [|by apply held_set_same| |].
    { repeat apply Forall_app_2; repeat case_match; by repeat constructor. }
    { unfold counted. destruct (is_dynamic peer), (bool_decide (d_uris peer = [])), (ri_skip_discovers (redial_entry s peer) =? 0); cbn; auto. }
    right. split; [done|]. intros Ho. rewrite (bool_decide_eq_true_2 _ Ho), andb_true_r in Hd.
    unfold counted.
    destruct (is_dynamic peer), (bool_decide (d_uris peer = [])), (ri_skip_discovers (redial_entry s peer) =? 0); cbn in *; done.
Qed.

(** The contract of a handler: it goes through, the timers stay in step with what was started, and no attempt is made too early. *)
Definition fine (now : Z) (dues : gmap Z Z) (s : dialer) (r : res (dialer * list dialing)) : Prop :=
  ∃ s' out, r = Ok (s', out) ∧ timed cfg (log now out dues) s' ∧ (∀ sha, spaced cfg now s s' sha) ∧
    ∀ tried, tracked tried s → far_apart cfg now tried (attempts out) ∧ tracked (note now tried (attempts out)) s'.

Lemma fine_same now dues s : timed cfg dues s → fine now dues s (Ok (s, [])).
Proof. intros Ht. exists s, []. split_and!; [done|done| |done]. intros sha. by left. Qed.

(** Without attempts it is enough that the entries stay as they are. *)
Lemma quiet_fine now dues s s' out :
  timed cfg (log now out dues) s' → attempts out = [] → (∀ k, last_attempt s' k = last_attempt s k) → fine now dues s (Ok (s', out)).
Proof.
  intros Ht Ha Hl. exists s', out. split_and!; [done|done|intros k; left; apply Hl|]. rewrite Ha. intros tried Htr. split; [done|].
  intros sha t Hs. rewrite Hl. by apply Htr.
Qed.

Lemma discover_or_dial_fine m now dues s peer :
  timed cfg dues s → by_sha256 (mo_devices m) (get_sha256 (d_id peer)) = Some peer → held s !! get_sha256 (d_id peer) = None →
  last_attempt s (get_sha256 (d_id peer)) + dc_redial_timeout cfg * millisecond < now + millisecond →
  fine now dues s (discover_or_dial uri_lt m now s peer).
Proof.
  intros Ht Hp Hh Hl. destruct (discover_or_dial_spec m now s peer Hp) as (s' & out & -> & Hout & Hheld & Hti & Hne & Hatt & Hk & Hlast).
  exists s', out. split; [done|]. rewrite log_same by done. split_and!.
  - apply (timed_transfer cfg dues s); [done..| |done]. intros k [id Hid]. apply Hk. intros ->. congruence.
  - intros k. destruct (decide (k = get_sha256 (d_id peer))) as [->|Hne']; [|left; by apply Hk].
    destruct Hlast as [(-> & _)|[Hnow _]]; [by left|by right].
  - intros tried Htr. assert (∀ sha t, tried !! sha = Some t → t <= last_attempt s' sha) as Htr'.
    { intros k t Hkt. specialize (Htr k t Hkt). destruct (decide (k = get_sha256 (d_id peer))) as [->|Hne']; [|by rewrite Hk].
      destruct Hlast as [(-> & _)|[-> _]]; [done|]. unfold millisecond in *. lia. }
    destruct Hatt as [-> | Hatt]; [by split|]. rewrite Hatt. cbn [far_apart note fold_left]. destruct Hlast as [(_ & -> & _)|[Hnow _]]; [done|]. split; [split; [|done]|].
    + intros t Hkt. specialize (Htr _ t Hkt). lia.
    + intros k t [[<- <-]|[_ Hkt]]%lookup_insert_Some; [lia|by apply Htr'].
Qed.

(** A timer for an entry that has none. *)
Lemma arm_timed dues s sha info due :
  timed cfg dues s → held s !! sha = None → ri_timer_id info = Some (da_next_timer s) →
  ri_last_attempt info + dc_redial_timeout cfg * millisecond < due + millisecond →
  timed cfg (<[da_next_timer s := due]> dues)
    (mkDialer (da_redial_map (set_entry s sha info)) (da_announced s) (da_operational s) (da_timers s + 1) (da_next_timer s + 1)).
Proof.
  intros [[Hc Hd Hf] Hdue] Hh Hi Hlt. set (s' := mkDialer _ _ _ _ _).
  assert (held s' = <[sha := da_next_timer s]> (held s)) as Hh'.
  { change (held s') with (held (set_entry s sha info)). rewrite held_set. by rewrite Hi. }
  split; [split|]; rewrite Hh'.
  - rewrite map_size_insert_None by done. cbn. lia.
  - intros k k' i Hk Hk'. apply lookup_insert_Some in Hk as [[<- <-]|[Hk1 Hk]], Hk' as [[<- Heq]|[Hk2 Hk']]; [done| | |eauto].
    + apply Hf in Hk'. lia.
    + apply Hf in Hk. lia.
  - intros k i Hk. cbn [da_next_timer s']. apply lookup_insert_Some in Hk as [[<- <-]|[Hk1 Hk]]; [lia|]. apply Hf in Hk. lia.
  - intros k i Hk. change (last_attempt s' k) with (last_attempt (set_entry s sha info) k). rewrite last_set.
    apply lookup_insert_Some in Hk as [[<- <-]|[Hk1 Hk]].
    + rewrite decide_True by done. exists due. by rewrite lookup_insert_eq.
    + rewrite decide_False by done. destruct (Hdue k i Hk) as (due' & Hdu & Hlt'). exists due'.
      rewrite lookup_insert_ne; [done|]. apply Hf in Hk. lia.
Qed.

(** The timer for what is left until the deadline is due less than a millisecond before it. *)
Lemma cut_off deadline now : now <= deadline → deadline < now + Z.quot (deadline - now) millisecond * millisecond + millisecond.
Proof.
  intros Hle. assert (0 < millisecond) by (unfold millisecond; lia).
  pose proof (Z.quot_rem (deadline - now) millisecond ltac:(lia)).
  pose proof (Z.rem_bound_pos (deadline - now) millisecond ltac:(lia) ltac:(lia)). lia.
Qed.

(** An entry that is looked up is there afterwards, and nothing else changes. *)
Lemma entry_put_back dues s peer (s1 := set_entry s (get_sha256 (d_id peer)) (redial_entry s peer)) :
  timed cfg dues s → timed cfg dues s1 ∧ held s1 = held s ∧ ∀ k, last_attempt s1 k = last_attempt s k.
Proof.
  intros Ht. assert (held s1 = held s) as Hh by (by apply held_set_same).
  assert (∀ k, last_attempt s1 k = last_attempt s k) as Hl.
  { intros k. unfold s1. rewrite last_set. case_decide as Hk; [|done]. rewrite Hk. apply entry_last. }
  split_and!; [|done|done]. apply (timed_transfer cfg dues s); auto.
Qed.

Lemma schedule_redial_fine m now dues s peer :
  timed cfg dues s → by_sha256 (mo_devices m) (get_sha256 (d_id peer)) = Some peer →
  fine now dues s (schedule_redial cfg uri_lt m now s peer).
Proof.
  intros Ht Hp. unfold schedule_redial. destruct (entry_put_back dues s peer Ht) as (Ht1 & Hh & Hl).
  set (sha := get_sha256 (d_id peer)) in *. set (s1 := set_entry s sha (redial_entry s peer)) in *.
  rewrite entry_timer. fold sha. destruct (held s !! sha) as [id|] eqn:Hid.
  { by apply quiet_fine. }
  rewrite entry_last. fold sha. destruct (Z.leb_spec now (last_attempt s sha + dc_redial_timeout cfg * millisecond)) as [Hle|Hgt].
  - apply quiet_fine; [|done|].
    + apply (arm_timed dues s1); [done|by rewrite Hh|done|]. cbn [ri_last_attempt]. by apply cut_off.
    + intros k. change (last_attempt (set_entry s1 sha (mkRedial (ri_key (redial_entry s peer)) (last_attempt s sha)
        (Some (da_next_timer s1)) (ri_skip_discovers (redial_entry s peer)))) k = last_attempt s k).
      rewrite last_set. case_decide as Hk; [by rewrite Hk|apply Hl].
  - destruct (discover_or_dial_fine m now dues s1 peer Ht1 Hp) as (s' & out & -> & Ht' & Hs' & Htr').
    + by rewrite Hh.
    + rewrite Hl. fold sha. unfold millisecond in *. lia.
    + exists s', out. split_and!; [done|done|intros k; specialize (Hs' k); unfold spaced in *; by rewrite Hl in Hs'|].
      intros tried Htr. apply Htr'. intros k t Hkt. rewrite Hl. by apply Htr.
Qed.

Lemma schedule_all_fine m now devices : ∀ dues s,
  wf_gmap (mo_devices m) → (∀ d, d ∈ devices → d ∈ mo_devices m) → timed cfg dues s →
  fine now dues s (schedule_all cfg uri_lt m now s devices).
Proof.
  induction devices as [|d devices IH]; intros dues s Hw Hin Ht; [by apply fine_same|]. cbn [schedule_all].
  assert (fine now dues s (if bool_decide (d_id d = d_id (mo_device m)) then Ok (s, []) else schedule_redial cfg uri_lt m now s d))
    as (s1 & out & -> & Ht1 & Hs1 & Htr1).
  { case_bool_decide; [by apply fine_same|]. apply schedule_redial_fine; [done|]. apply by_sha256_elem; [done|]. apply Hin. left. }
  cbn [res_bind]. destruct (IH (log now out dues) s1) as (s2 & rest & -> & Ht2 & Hs2 & Htr2); [done|set_solver|done|].
  exists s2, (out ++ rest). rewrite log_app. split_and!; [done|done|intros k; by apply (spaced_trans cfg now s s1 s2)|].
  intros tried Htr. destruct (Htr1 tried Htr) as [Ha1 Ht1']. destruct (Htr2 _ Ht1') as [Ha2 Ht2']. rewrite attempts_app, note_app. split; [by apply far_apart_app|done].
Qed.

(** A timer that comes to its end, by itself or not, is no longer held, and nothing else changes. *)
Lemma timer_ends dues s sha id :
  timed cfg dues s → held s !! sha = Some id →
  ∃ info, da_redial_map s !! sha = Some info ∧ (0 <? da_timers s) = true ∧
    let s0 := mkDialer (da_redial_map s) (da_announced s) (da_operational s) (da_timers s - 1) (da_next_timer s) in
    let s' := set_entry s0 sha (mkRedial (ri_key info) (ri_last_attempt info) None (ri_skip_discovers info)) in
    holder s0 id = Some (sha, info) ∧ timed cfg dues s' ∧ held s' = delete sha (held s) ∧
    ∀ k, last_attempt s' k = last_attempt s k.
Proof.
  intros Ht Hh. pose proof (ti_ok _ _ _ Ht) as Hok. destruct (holder_spec s id sha Hok Hh) as (info & Hho & Hm & Hid).
  exists info. split; [done|]. destruct Ht as [[Hc Hd Hf] Hdue].
  assert (size (held s) = S (size (delete sha (held s)))) as Hsz.
  { rewrite <- (insert_delete_id _ _ _ Hh) at 1. apply map_size_insert_None, lookup_delete_eq. }
  split; [apply Z.ltb_lt; lia|]. intros s0 s'.
  assert (held s' = delete sha (held s)) as Hh' by (unfold s'; by rewrite held_set).
  assert (∀ k, last_attempt s' k = last_attempt s k) as Hl.
  { intros k. unfold s'. rewrite last_set. case_decide as Hk; [|done]. rewrite Hk. unfold last_attempt. by rewrite Hm. }
  split_and!; [done| |done|done]. split; [split|]; rewrite Hh'.
  - cbn. lia.
  - intros k k' i [_ Hk]%lookup_delete_Some [_ Hk']%lookup_delete_Some. eauto.
  - intros k i [_ Hk]%lookup_delete_Some. cbn. eauto.
  - intros k i [_ Hk]%lookup_delete_Some. rewrite Hl. eauto.
Qed.

Lemma cancel_redial_spec m now dues s sha id :
  timed cfg dues s → held s !! sha = Some id →
  ∃ s', cancel_redial uri_lt m now s id = Ok s' ∧ timed cfg dues s' ∧ held s' = delete sha (held s) ∧
    (∀ k, last_attempt s' k = last_attempt s k) ∧ dom (da_redial_map s') = dom (da_redial_map s).
Proof.
  intros Ht Hh. destruct (timer_ends dues s sha id Ht Hh) as (info & Hm & Hpos & Hho & Ht' & Hh' & Hl).
  unfold cancel_redial, on_redial_timer. rewrite Hpos. cbn [assert res_bind]. rewrite Hho. cbn [res_bind].
  eexists. split; [done|]. split_and!; [done|done|done|]. unfold set_entry. cbn [da_redial_map]. rewrite dom_insert_L.
  apply (elem_of_dom_2 (D := gset bytes)) in Hm. set_solver.
Qed.

Lemma on_redial_timer_fine m now dues s sha id due :
  timed cfg dues s → held s !! sha = Some id → dues !! id = Some due → due <= now → is_Some (by_sha256 (mo_devices m) sha) →
  fine now dues s (on_redial_timer uri_lt m now s id false).
Proof.
  intros Ht Hh Hdu Hle [peer Hp]. destruct (timer_ends dues s sha id Ht Hh) as (info & Hm & Hpos & Hho & Ht' & Hh' & Hl).
  unfold on_redial_timer. rewrite Hpos. cbn [assert res_bind]. rewrite Hho, Hp. set (s' := set_entry _ _ _) in *.
  pose proof (by_sha256_sha _ _ _ Hp) as [_ Hsha].
  destruct (discover_or_dial_fine m now dues s' peer) as (s'' & out & -> & Ht'' & Hs'' & Htr'').
  - done.
  - by rewrite Hsha.
  - rewrite Hsha, Hh'. apply lookup_delete_eq.
  - rewrite Hsha, Hl. destruct (ti_due _ _ _ Ht sha id Hh) as (due' & Hdu' & Hlt). simplify_eq. lia.
  - exists s'', out. split_and!; [done|done|intros k; specialize (Hs'' k); unfold spaced in *; by rewrite Hl in Hs''|].
    intros tried Htr. apply Htr''. intros k t Hkt. rewrite Hl. by apply Htr.
Qed.

(** An entry without a timer may go. *)
Lemma drop_entry_timed dues s sha :
  timed cfg dues s → held s !! sha = None →
  timed cfg dues (drop_entry s sha) ∧ held (drop_entry s sha) = held s ∧ ∀ k, k ≠ sha → last_attempt (drop_entry s sha) k = last_attempt s k.
Proof.
  intros Ht Hh. assert (held (drop_entry s sha) = held s) as Hh' by (rewrite held_drop; by apply delete_id).
  assert (∀ k, k ≠ sha → last_attempt (drop_entry s sha) k = last_attempt s k) as Hl.
  { intros k Hk. unfold last_attempt, drop_entry. cbn [da_redial_map]. by rewrite lookup_delete_ne. }
  split_and!; [|done|done]. apply (timed_transfer cfg dues s); [done..| |done]. intros k [i Hi]. apply Hl. intros ->. congruence.
Qed.

(** The loop of [shutdown_start] ends: every round ends a timer or drops an entry. *)
Lemma shutdown_loop_spec m now dues fuel : ∀ s,
  timed cfg dues s → (size (da_redial_map s) + size (held s) <= fuel)%nat →
  ∃ s', shutdown_loop uri_lt fuel m now s = Ok s' ∧ timed cfg dues s' ∧ da_redial_map s' = ∅.
Proof.
  induction fuel as [|fuel IH]; intros s Ht Hf; cbn [shutdown_loop]; destruct (map_to_list (da_redial_map s)) as [|[sha info] l] eqn:Hl.
  - apply map_to_list_empty_iff in Hl. eauto.
  - assert (size (da_redial_map s) = S (length l)) as Hsz by (rewrite <- length_map_to_list, Hl; done). lia.
  - apply map_to_list_empty_iff in Hl. eauto.
  - assert (da_redial_map s !! sha = Some info) as Hm by (apply elem_of_map_to_list; rewrite Hl; left).
    pose proof (held_lookup s sha) as Hh. rewrite Hm in Hh. cbn in Hh. rewrite <- Hh. destruct (held s !! sha) as [id|] eqn:Hid.
    + destruct (cancel_redial_spec m now dues s sha id Ht Hid) as (s' & -> & Ht' & Hh' & _ & Hdom). cbn [res_bind]. apply IH; [done|].
      rewrite Hh', <- size_dom, Hdom, size_dom. rewrite map_size_delete_Some by eauto.
      assert (held s ≠ ∅) as Hne by (intros He; rewrite He in Hid; by rewrite lookup_empty in Hid).
      apply map_size_non_empty_iff in Hne. lia.
    + cbn [res_bind]. destruct (drop_entry_timed dues s sha Ht Hid) as (Ht' & Hh' & _). apply IH; [done|]. rewrite Hh'.
      unfold drop_entry. cbn [da_redial_map]. rewrite map_size_delete_Some by eauto.
      assert (da_redial_map s ≠ ∅) as Hne by (intros He; rewrite He in Hm; by rewrite lookup_empty in Hm).
      apply map_size_non_empty_iff in Hne. lia.
Qed.

Lemma held_size s : (size (held s) <= size (da_redial_map s))%nat.
Proof. rewrite <- !size_dom. apply subseteq_size. unfold held. apply dom_omap_subseteq. Qed.

(** Flags have nothing to do with timers. *)
Lemma timed_flags dues s announced operational :
  timed cfg dues s → timed cfg dues (mkDialer (da_redial_map s) announced operational (da_timers s) (da_next_timer s)).
Proof. intros Ht. by apply (timed_transfer cfg dues s). Qed.

Lemma cancel_held_spec m now dues s sha info :
  timed cfg dues s → da_redial_map s !! sha = Some info →
  ∃ s', cancel_held uri_lt m now s info = Ok s' ∧ timed cfg dues s' ∧ held s' !! sha = None ∧
    (∀ k, last_attempt s' k = last_attempt s k) ∧ dom (da_redial_map s') = dom (da_redial_map s).
Proof.
  intros Ht Hm. pose proof (held_lookup s sha) as Hh. rewrite Hm in Hh. cbn in Hh. unfold cancel_held. rewrite <- Hh.
  destruct (held s !! sha) as [id|] eqn:Hid; [|by exists s].
  destruct (cancel_redial_spec m now dues s sha id Ht Hid) as (s' & -> & Ht' & Hh' & Hl & Hdom). exists s'. split_and!; try done.
  rewrite Hh'. apply lookup_delete_eq.
Qed.

Lemma visit_peer_state_fine m now dues s peer_id mine :
  timed cfg dues s → fine now dues s (dialer_visit_peer_state cfg uri_lt m now s peer_id mine).
Proof.
  intros Ht. unfold dialer_visit_peer_state. destruct (by_sha256 (mo_devices m) peer_id) as [peer|] eqn:Hp; [|by apply fine_same].
  pose proof (by_sha256_sha _ _ _ Hp) as [_ Hsha]. destruct (st_connection (d_state peer)) eqn:Hst; try by apply fine_same.
  - apply schedule_redial_fine; [done|congruence].
  - destruct mine; [|by apply fine_same].
    destruct (new_peer_state_offline m peer now) as (state & d & -> & Hnew & Hm & Hatt); [congruence|done|]. cbn [res_bind]. rewrite Hnew. cbn [res_bind].
    rewrite Hm. cbn [assert res_bind]. apply quiet_fine; [done| |done]. unfold attempts. cbn [omap list_omap]. by rewrite Hatt.
  - destruct (da_redial_map s !! get_sha256 (d_id peer)) as [info|] eqn:Hm; [|by apply fine_same].
    destruct (cancel_held_spec m now dues s _ info Ht Hm) as (s' & -> & Ht' & _ & Hl & _). cbn [res_bind].
    by apply quiet_fine.
Qed.

Lemma visit_update_contact_fine m now dues s id :
  timed cfg dues s → fine now dues s (Ok (dialer_visit_update_contact cfg m s id)).
Proof.
  intros Ht. unfold dialer_visit_update_contact. destruct (by_sha256 _ _) as [peer|] eqn:Hp; [|by apply fine_same].
  case_bool_decide; [by apply fine_same|]. destruct (_ && _); [|by apply fine_same].
  destruct (da_redial_map s !! get_sha256 (d_id peer)) as [info|] eqn:Hm.
  - set (s' := set_entry s (get_sha256 (d_id peer)) _).
    assert (∀ k, last_attempt s' k = last_attempt s k) as Hl.
    { intros k. unfold s'. rewrite last_set. case_decide as Hk; [|done]. rewrite Hk. unfold last_attempt. by rewrite Hm. }
    apply quiet_fine; [|done|done].
    apply (timed_transfer cfg dues s); [|done..|by intros|done]. apply held_set_same. cbn. unfold redial_entry. by rewrite Hm.
  - by apply quiet_fine.
Qed.

Lemma visit_remove_peer_spec m now dues s peer_key :
  timed cfg dues s →
  ∃ s', dialer_visit_remove_peer uri_lt m now s peer_key = Ok s' ∧ timed cfg dues s' ∧
    ∀ k, da_redial_map s' !! k = None ∨ last_attempt s' k = last_attempt s k.
Proof.
  intros Ht. unfold dialer_visit_remove_peer. destruct (filter _ _) as [|[sha info] l] eqn:Hf; cbn [head]; [eauto|].
  assert ((sha, info) ∈ filter (λ kv : bytes * redial_info, ri_key kv.2 = peer_key) (map_to_list (da_redial_map s))) as Hin by (rewrite Hf; left).
  apply list_elem_of_filter in Hin as [_ Hin%elem_of_map_to_list].
  destruct (cancel_held_spec m now dues s sha info Ht Hin) as (s' & -> & Ht' & Hh & Hl & _). cbn [res_bind].
  destruct (drop_entry_timed dues s' sha Ht' Hh) as (Ht'' & _ & Hl'). eexists. split; [done|]. split; [done|]. intros k.
  destruct (decide (k = sha)) as [->|Hk]; [left; cbn; apply lookup_delete_eq|right; by rewrite Hl', Hl].
Qed.

(** ** Runs *)

(** A timer goes off when it is due, for a device that is in the cluster. *)
Definition dialer_enabled (m : model) (now : Z) (dues : gmap Z Z) (s : dialer) (ev : dialer_event) : Prop :=
  wf_gmap (mo_devices m) ∧
  match ev with
  | DTimer id => ∃ sha due, held s !! sha = Some id ∧ dues !! id = Some due ∧ due <= now ∧ is_Some (by_sha256 (mo_devices m) sha)
  | _ => True
  end.

(** A peer that is removed, or all of them with the shutdown, are forgotten. *)
Definition forget (ev : dialer_event) (s' : dialer) (tried : gmap bytes Z) : gmap bytes Z :=
  match ev with
  | DRemovePeer _ | DShutdown => filter (λ kv, is_Some (da_redial_map s' !! kv.1)) tried
  | _ => tried
  end.

(** The states an actor comes through, beside the timers it has started and when it tried to reach which peer; the cluster and the clock are those
    of each event. *)
Inductive dialer_reaches : dialer → gmap Z Z → gmap bytes Z → Prop :=
| reaches_new next : dialer_reaches (mkDialer ∅ false false 0 next) ∅ ∅
| reaches_next s dues tried m now ev s' out :
    dialer_reaches s dues tried → dialer_enabled m now dues s ev → dialer_handle cfg uri_lt m now s ev = Ok (s', out) →
    dialer_reaches s' (log now out dues) (note now (forget ev s' tried) (attempts out)).

Lemma handle_fine m now dues s ev :
  timed cfg dues s → dialer_enabled m now dues s ev →
  ∃ s' out, dialer_handle cfg uri_lt m now s ev = Ok (s', out) ∧ timed cfg (log now out dues) s' ∧
    (∀ tried, tracked tried s → far_apart cfg now tried (attempts out) ∧ tracked (note now (forget ev s' tried) (attempts out)) s') ∧
    (ev = DShutdown → da_redial_map s' = ∅).
Proof.
  intros Ht [Hw Hev].
  assert (∀ r, match ev with DRemovePeer _ | DShutdown => False | _ => True end → fine now dues s r →
    ∃ s' out, r = Ok (s', out) ∧ timed cfg (log now out dues) s' ∧
    (∀ tried, tracked tried s → far_apart cfg now tried (attempts out) ∧ tracked (note now (forget ev s' tried) (attempts out)) s') ∧
    (ev = DShutdown → da_redial_map s' = ∅)) as Hfine.
  { intros r Hne (s' & out & -> & Ht' & Hs & Htr). exists s', out. split_and!; [done|done| |by destruct ev]. by destruct ev. }
  assert (∀ s', match ev with DRemovePeer _ | DShutdown => True | _ => False end →
    (∀ k, da_redial_map s' !! k = None ∨ last_attempt s' k = last_attempt s k) →
    ∀ tried, tracked tried s → far_apart cfg now tried (attempts []) ∧ tracked (note now (forget ev s' tried) (attempts [])) s') as Hgone.
  { intros s' He Hk tried Htr. split; [done|]. intros k t Hkt. cbn in Hkt.
    assert (tried !! k = Some t ∧ is_Some (da_redial_map s' !! k)) as [Hkt' [info Hinfo]].
    { unfold forget in Hkt. destruct ev; try done; by apply map_lookup_filter_Some in Hkt. }
    destruct (Hk k) as [Hn|Heq]; [congruence|]. rewrite Heq. by apply Htr. }
  destruct ev as [| |id|peer_id mine|id|key|]; cbn [dialer_handle].
  - unfold on_dialer_start. destruct (schedule_all_fine m now (mo_devices m) dues _ Hw (λ d Hd, Hd) (timed_flags dues s (da_announced s) true Ht))
      as (s' & out & -> & Ht' & Hs & Htr). apply Hfine; [done|]. cbn [res_bind]. exists s', (LocalUp :: out). split_and!; done.
  - apply Hfine; [done|]. destruct (schedule_all_fine m now (mo_devices m) dues _ Hw (λ d Hd, Hd) (timed_flags dues s true (da_operational s) Ht))
      as (s' & out & Heq & Ht' & Hs & Htr). exists s', out. split_and!; done.
  - apply Hfine; [done|]. destruct Hev as (sha & due & Hh & Hdu & Hle & Hp). by apply (on_redial_timer_fine m now dues s sha id due).
  - apply Hfine; [done|]. by apply visit_peer_state_fine.
  - apply Hfine; [done|]. by apply visit_update_contact_fine.
  - destruct (visit_remove_peer_spec m now dues s key Ht) as (s' & -> & Ht' & Hs). exists s', []. split_and!; [done|done|by apply Hgone|done].
  - unfold dialer_shutdown_start.
    destruct (shutdown_loop_spec m now dues (2 * size (da_redial_map s)) _ (timed_flags dues s (da_announced s) false Ht)) as (s' & Hs & Ht' & He).
    { pose proof (held_size s) as Hle. unfold held in *. cbn [da_redial_map]. lia. }
    cbn [da_redial_map]. rewrite Hs. exists s', []. split_and!; [done|done|apply Hgone; [done|]|done]. intros k. left. by rewrite He.
Qed.

Lemma reaches_timed s dues tried : dialer_reaches s dues tried → timed cfg dues s ∧ tracked tried s.
Proof.
  induction 1 as [next|s dues tried m now ev s' out _ [IH IHt] Hev Hh].
  - split; [|by intros sha t Hs; rewrite lookup_empty in Hs]. split; [split|].
    + done.
    + intros sha sha' id Hs. rewrite held_lookup in Hs. cbn in Hs. by rewrite lookup_empty in Hs.
    + intros sha id Hs. rewrite held_lookup in Hs. cbn in Hs. by rewrite lookup_empty in Hs.
    + intros sha id Hs. rewrite held_lookup in Hs. cbn in Hs. by rewrite lookup_empty in Hs.
  - destruct (handle_fine m now dues s ev IH Hev) as (s1 & out1 & Hh1 & Ht & Htr & _). rewrite Hh in Hh1. injection Hh1 as <- <-.
    split; [done|]. by apply Htr.
Qed.

(** C18: whatever happens to the dialer, in a cluster with no device twice and with timers that go off when they are due, for devices that are still
    there: no assertion trips, the timers it counts are exactly those its entries hold, each in one entry; as long as a
    peer is not removed, it is looked up, dialled or announced anew not earlier than the timeout after the last time (up to a
    millisecond, which is cut off), dials that answer news about its addresses apart; when the actor shuts down, nothing is left. *)
Theorem redial_spaced m now dues tried s ev :
  dialer_reaches s dues tried → dialer_enabled m now dues s ev →
  ∃ s' out, dialer_handle cfg uri_lt m now s ev = Ok (s', out) ∧
    da_timers s' = Z.of_nat (size (held s')) ∧
    (∀ sha sha' id, held s' !! sha = Some id → held s' !! sha' = Some id → sha = sha') ∧
    far_apart cfg now tried (attempts out) ∧
    (ev = DShutdown → da_redial_map s' = ∅ ∧ da_timers s' = 0).
Proof.
  intros [Hti Htr]%reaches_timed Hev. destruct (handle_fine m now dues s ev Hti Hev) as (s' & out & Hh & Ht & Hs & Hshut).
  exists s', out. pose proof (ti_ok _ _ _ Ht) as [Hc Hd _]. split_and!; [done|done|done|by apply Hs|].
  intros He. specialize (Hshut He). split; [done|]. rewrite Hc. unfold held. rewrite Hshut. done.
Qed.

(** A peer that goes offline is not forgotten: a timer runs for it or somebody is asked to connect or to look it up, unless the
    actor is not at work or waits for its announcement. *)
Lemma offline_peer_attended m now dues tried s peer mine :
  dialer_reaches s dues tried → by_sha256 (mo_devices m) (get_sha256 (d_id peer)) = Some peer → st_connection (d_state peer) = offline →
  ∃ s' out, dialer_handle cfg uri_lt m now s (DPeerState (get_sha256 (d_id peer)) mine) = Ok (s', out) ∧
    (is_Some (held s' !! get_sha256 (d_id peer)) ∨ out ≠ [] ∨
     (is_dynamic peer = true ∧ da_announced s = false) ∨ da_operational s = false).
Proof.
  intros [Hr _]%reaches_timed Hp Ho. cbn [dialer_handle]. unfold dialer_visit_peer_state. rewrite Hp, Ho. unfold schedule_redial.
  set (sha := get_sha256 (d_id peer)) in *. set (s1 := set_entry s sha (redial_entry s peer)).
  assert (held s1 = held s) as Hh by (by apply held_set_same).
  rewrite entry_timer. fold sha. destruct (held s !! sha) as [id|] eqn:Hid.
  { exists s1, []. split; [done|]. left. rewrite Hh, Hid. eauto. }
  destruct (now <=? _); [by eexists _, _; split; [done|]; right; left|].
  destruct (discover_or_dial_spec m now s1 peer Hp) as (s' & out & -> & _ & _ & _ & _ & _ & _ & [(-> & -> & Hn)|[_ Hout]]).
  - exists s1, []. split; [done|]. tauto.
  - exists s', out. split; [done|]. auto.
Qed.
End handlers.

(** ** A peer that is offline *)

#[local] Existing Instance r_environment.

Definition z_config : dialer_config := mkDialerConfig 5 3.
Definition z_handle := dialer_handle z_config (λ _ _, false) r_model.

(** A timer of five milliseconds is set when the actor starts; the announcement finds it running. *)
Definition z_started : dialer := mkDialer {[ repeat 9 32 := mkRedial (prefix_device :: repeat 9 32) 0 (Some 0) 0 ]} false true 1 1.
Definition z_waiting : dialer := mkDialer (da_redial_map z_started) true true 1 1.

Lemma z_start : z_handle 0 (mkDialer ∅ false false 0 0) DStart = Ok (z_started, [LocalUp; StartRedial 0 5]).
Proof. vm_compute. reflexivity. Qed.

Lemma z_announce : z_handle 1 z_started DAnnounce = Ok (z_waiting, []).
Proof. vm_compute. reflexivity. Qed.

Lemma z_enabled now dues s ev : match ev with DTimer _ => False | _ => True end → dialer_enabled r_model now dues s ev.
Proof. intros He. split; [apply r_model_wf|]. by destruct ev. Qed.

(** When it goes off, the peer is looked up, which the other actors learn of by its state; as the peer stays offline, the next timer is set. *)
Definition z_sha : bytes := repeat 9 32.
Definition z_lookup (now : Z) : dialing := Update (leaf (PeerState false z_sha (mkState 9 unknown None) [] [] now)) true.
Definition z_tried (timer : option Z) (timers next : Z) : dialer :=
  mkDialer {[ z_sha := mkRedial (prefix_device :: z_sha) 5000000 timer 0 ]} true true timers next.

Lemma z_timer : z_handle 5000000 z_waiting (DTimer 0) = Ok (z_tried None 0 1, [z_lookup 5000000]).
Proof. vm_compute. reflexivity. Qed.

Lemma z_again : z_handle 5000001 (z_tried None 0 1) (DPeerState z_sha false) = Ok (z_tried (Some 1) 1 2, [StartRedial 1 4]).
Proof. vm_compute. reflexivity. Qed.

Definition z_reaches := dialer_reaches z_config (λ _ _, false).

Lemma z_next s dues tried now ev s' out tried' :
  z_reaches s dues tried → dialer_enabled r_model now dues s ev → z_handle now s ev = Ok (s', out) → note now (forget ev s' tried) (attempts out) = tried' →
  z_reaches s' (log now out dues) tried'.
Proof. intros Hr He Hh <-. by eapply reaches_next. Qed.

Definition z_dues : gmap Z Z := log 1 [] (log 0 [LocalUp; StartRedial 0 5] ∅).

Lemma z_reaches_waiting : z_reaches z_waiting z_dues ∅.
Proof.
  apply (z_next z_started _ ∅ 1 DAnnounce); [|by apply z_enabled|apply z_announce|done].
  apply (z_next (mkDialer ∅ false false 0 0) ∅ ∅ 0 DStart); [apply reaches_new|by apply z_enabled|apply z_start|done].
Qed.

Lemma z_due now dues id s sha : held s !! sha = Some id → (∃ due, dues !! id = Some due ∧ due <= now) → is_Some (by_sha256 (mo_devices r_model) sha) →
  dialer_enabled r_model now dues s (DTimer id).
Proof. intros Hh (due & Hd & Hle) Hp. split; [apply r_model_wf|]. by exists sha, due. Qed.

Lemma z_reaches_tried : z_reaches (z_tried (Some 1) 1 2) (log 5000001 [StartRedial 1 4] (log 5000000 [z_lookup 5000000] z_dues)) {[ z_sha := 5000000 ]}.
Proof.
  apply (z_next (z_tried None 0 1) _ {[ z_sha := 5000000 ]} 5000001 (DPeerState z_sha false)); [|by apply z_enabled|apply z_again|by vm_compute].
  apply (z_next z_waiting _ ∅ 5000000 (DTimer 0)); [apply z_reaches_waiting| |apply z_timer|by vm_compute].
  apply (z_due _ _ _ _ z_sha); [by vm_compute|exists 5000000; by vm_compute|vm_compute; by eexists].
Qed.

(** The peer is looked up once more, five milliseconds after the first time, less what was cut off. *)
Example redial_spaced_witness :
  ∃ s', z_handle 9000001 (z_tried (Some 1) 1 2) (DTimer 1) = Ok (s', [z_lookup 9000001]) ∧ da_timers s' = 0 ∧
    far_apart z_config 9000001 {[ z_sha := 5000000 ]} [z_sha] ∧ 5000000 + 5 * millisecond < 9000001 + millisecond.
Proof.
  destruct (redial_spaced z_config (λ _ _, false) ltac:(done) r_model 9000001 (log 5000001 [StartRedial 1 4] (log 5000000 [z_lookup 5000000] z_dues)) {[ z_sha := 5000000 ]}
    (z_tried (Some 1) 1 2) (DTimer 1)) as (s' & out & Hh & Hc & _ & Hs & _).
  - apply z_reaches_tried.
  - apply (z_due _ _ _ _ z_sha); [by vm_compute|exists 9000001; by vm_compute|vm_compute; by eexists].
  - change (z_handle 9000001 (z_tried (Some 1) 1 2) (DTimer 1) = Ok (s', out)) in Hh.
    assert (z_handle 9000001 (z_tried (Some 1) 1 2) (DTimer 1) =
      Ok (mkDialer {[ z_sha := mkRedial (prefix_device :: z_sha) 9000001 None 0 ]} true true 0 2, [z_lookup 9000001])) as Hv by (vm_compute; reflexivity).
    rewrite Hv in Hh. injection Hh as <- <-. eexists. split_and!; [exact Hv|done|exact Hs|]. by apply Hs.
Defined.

(** The state the dialer made comes back to it, and it makes the peer offline again, for which the next timer is set. *)
Example dialer_turns :
  let m := with_devices r_model [r_device 1 true; update_state (r_device 9 false) (mkState 9 unknown None) 0] in
  dialer_handle z_config (λ _ _, false) m 5000001 z_waiting (DPeerState (repeat 9 32) true) =
    Ok (z_waiting, [Update (leaf (PeerState false (repeat 9 32) (mkState 9 offline None) [] [] 5000001)) false]) ∧
  dialer_handle z_config (λ _ _, false) m 5000001 z_waiting (DPeerState (repeat 9 32) false) = Ok (z_waiting, []).
Proof. vm_compute. done. Qed.
