(* ===== verification/PeerActor.v ===== *)
(** * PeerActor: [src/net/peer_actor.cpp], the actor that owns the connection with one peer: it cuts what it reads into messages, writes
    what others send one after another, and closes the connection. The transport, the timers and the counters of resources
    belong to libraries: a transport calls back once for every operation that was started, a timer that is cancelled calls
    its handler at once, and the shutdown that is asked for comes later, as an event of its own. *)

From S2P Require Import Prelude Diff Version Proto DeviceId Device Path GenericMap Folder Cluster Changes Trees Wire Bep.

(** What is read of a greeting, and the message [proto::Close] with a reason. *)
Class Greetings `{Codec} := {
  hello_device_name : hello → bytes;
  hello_client_name : hello → bytes;
  hello_client_version : hello → bytes;
  close_message : bytes → body;
}.

(** The parts of [config::bep_config_t] in use, the timeout of the framework, and the connection. *)
Record peer_config := mkPeerConfig {
  pc_rx_buff_size : Z;
  pc_ping_timeout : Z;
  pc_stats_interval : Z;
  pc_shutdown_timeout : Z;
  pc_peer : device_id;
  pc_url : uri;
  pc_authority : bytes;
}.

Definition MAX_TX_CHUNK : Z := 1024 * 1024.

(** ** Resources *)

Inductive resource := io_read | io_write | ping_timer | stats_timer | finalization.

#[export] Instance resource_eq_dec : EqDecision resource.
Proof. solve_decision. Defined.

Record resources := mkResources { rs_io_read : Z; rs_io_write : Z; rs_ping_timer : Z; rs_stats_timer : Z; rs_finalization : Z }.

Definition held_of (r : resources) (k : resource) : Z :=
  match k with
  | io_read => rs_io_read r | io_write => rs_io_write r | ping_timer => rs_ping_timer r
  | stats_timer => rs_stats_timer r | finalization => rs_finalization r
  end.

Definition with_held (r : resources) (k : resource) (n : Z) : resources :=
  match k with
  | io_read => mkResources n (rs_io_write r) (rs_ping_timer r) (rs_stats_timer r) (rs_finalization r)
  | io_write => mkResources (rs_io_read r) n (rs_ping_timer r) (rs_stats_timer r) (rs_finalization r)
  | ping_timer => mkResources (rs_io_read r) (rs_io_write r) n (rs_stats_timer r) (rs_finalization r)
  | stats_timer => mkResources (rs_io_read r) (rs_io_write r) (rs_ping_timer r) n (rs_finalization r)
  | finalization => mkResources (rs_io_read r) (rs_io_write r) (rs_ping_timer r) (rs_stats_timer r) n
  end.

(** ** The state *)

(** [tx_item_t]: bytes, and whether they are the last ones. *)
Record tx_item := mkTxItem { ti_buff : bytes; ti_final : bool }.

Inductive read_action := read_hello_next | read_controlled_next.

(** Why a shutdown is asked for. *)
Inductive down_reason :=
| Parsing (ec : error_code)
| RxLimitReached | UnexpectedMessage | AlreadyConnected | IoFailed | ClosedByPeer | ControllerGone | NothingLeft | NotKnown.

(** What the actor asks of its transport, its timers, the controller and the coordinator. *)
Inductive peer_effect `{Codec} :=
| AsyncSend (data : bytes)
| AsyncRecv (room : Z)
| CancelTransport
| StartPing (timeout : Z)
| StartStats (timeout : Z)
| AskShutdown (why : down_reason)
| ForwardMessages (messages : list body)
| TxSignal
| PeerDown
| PeerUpdate (changes : diff op).

(** The bytes received and not consumed are the first [rx_idx] of [rx_buff]; [pa_in_progress] is the counter shared with the
    controller; [pa_shutting]: the shutdown has started, and its reason is known. *)
Record peer_actor `{Codec} := mkPeer {
  pa_shutting : bool;
  pa_state : device_state;
  pa_resources : resources;
  pa_tx_queue : list tx_item;
  pa_tx_item : option tx_item;
  pa_finished : bool;
  pa_io_error : bool;
  pa_rx : bytes;
  pa_read_action : read_action;
  pa_received : list body;
  pa_controller : bool;
  pa_in_progress : Z;
  pa_rx_bytes : Z;
  pa_tx_bytes : Z;
  pa_had_writes : bool;
  pa_had_reads : bool;
  pa_had_ping : bool;
  pa_ping : bool;
  pa_stats : bool;
  pa_out : list peer_effect;
}.

Arguments mkPeer {_}.
Arguments AsyncSend {_}.
Arguments AsyncRecv {_}.
Arguments CancelTransport {_}.
Arguments StartPing {_}.
Arguments StartStats {_}.
Arguments AskShutdown {_}.
Arguments ForwardMessages {_}.
Arguments TxSignal {_}.
Arguments PeerDown {_}.
Arguments PeerUpdate {_}.

Section setters.
Context `{Codec}.
Implicit Types (a : peer_actor).

Definition say a (e : peer_effect) : peer_actor :=
  mkPeer (pa_shutting a) (pa_state a) (pa_resources a) (pa_tx_queue a) (pa_tx_item a) (pa_finished a) (pa_io_error a) (pa_rx a)
    (pa_read_action a) (pa_received a) (pa_controller a) (pa_in_progress a) (pa_rx_bytes a) (pa_tx_bytes a) (pa_had_writes a)
    (pa_had_reads a) (pa_had_ping a) (pa_ping a) (pa_stats a) (pa_out a ++ [e]).

Definition set_shutting a : peer_actor :=
  mkPeer true (pa_state a) (pa_resources a) (pa_tx_queue a) (pa_tx_item a) (pa_finished a) (pa_io_error a) (pa_rx a)
    (pa_read_action a) (pa_received a) (pa_controller a) (pa_in_progress a) (pa_rx_bytes a) (pa_tx_bytes a) (pa_had_writes a)
    (pa_had_reads a) (pa_had_ping a) (pa_ping a) (pa_stats a) (pa_out a).

Definition set_resources a (r : resources) : peer_actor :=
  mkPeer (pa_shutting a) (pa_state a) r (pa_tx_queue a) (pa_tx_item a) (pa_finished a) (pa_io_error a) (pa_rx a)
    (pa_read_action a) (pa_received a) (pa_controller a) (pa_in_progress a) (pa_rx_bytes a) (pa_tx_bytes a) (pa_had_writes a)
    (pa_had_reads a) (pa_had_ping a) (pa_ping a) (pa_stats a) (pa_out a).

Definition set_tx a (queue : list tx_item) (item : option tx_item) (finished io_error : bool) : peer_actor :=
  mkPeer (pa_shutting a) (pa_state a) (pa_resources a) queue item finished io_error (pa_rx a)
    (pa_read_action a) (pa_received a) (pa_controller a) (pa_in_progress a) (pa_rx_bytes a) (pa_tx_bytes a) (pa_had_writes a)
    (pa_had_reads a) (pa_had_ping a) (pa_ping a) (pa_stats a) (pa_out a).

Definition set_rx a (rx : bytes) (action : read_action) (received : list body) : peer_actor :=
  mkPeer (pa_shutting a) (pa_state a) (pa_resources a) (pa_tx_queue a) (pa_tx_item a) (pa_finished a) (pa_io_error a) rx
    action received (pa_controller a) (pa_in_progress a) (pa_rx_bytes a) (pa_tx_bytes a) (pa_had_writes a)
    (pa_had_reads a) (pa_had_ping a) (pa_ping a) (pa_stats a) (pa_out a).

Definition set_link a (controller : bool) (in_progress : Z) : peer_actor :=
  mkPeer (pa_shutting a) (pa_state a) (pa_resources a) (pa_tx_queue a) (pa_tx_item a) (pa_finished a) (pa_io_error a) (pa_rx a)
    (pa_read_action a) (pa_received a) controller in_progress (pa_rx_bytes a) (pa_tx_bytes a) (pa_had_writes a)
    (pa_had_reads a) (pa_had_ping a) (pa_ping a) (pa_stats a) (pa_out a).

Definition set_traffic a (rx_bytes tx_bytes : Z) : peer_actor :=
  mkPeer (pa_shutting a) (pa_state a) (pa_resources a) (pa_tx_queue a) (pa_tx_item a) (pa_finished a) (pa_io_error a) (pa_rx a)
    (pa_read_action a) (pa_received a) (pa_controller a) (pa_in_progress a) rx_bytes tx_bytes (pa_had_writes a)
    (pa_had_reads a) (pa_had_ping a) (pa_ping a) (pa_stats a) (pa_out a).

Definition set_had a (writes reads ping : bool) : peer_actor :=
  mkPeer (pa_shutting a) (pa_state a) (pa_resources a) (pa_tx_queue a) (pa_tx_item a) (pa_finished a) (pa_io_error a) (pa_rx a)
    (pa_read_action a) (pa_received a) (pa_controller a) (pa_in_progress a) (pa_rx_bytes a) (pa_tx_bytes a) writes
    reads ping (pa_ping a) (pa_stats a) (pa_out a).

Definition set_timers a (ping stats : bool) : peer_actor :=
  mkPeer (pa_shutting a) (pa_state a) (pa_resources a) (pa_tx_queue a) (pa_tx_item a) (pa_finished a) (pa_io_error a) (pa_rx a)
    (pa_read_action a) (pa_received a) (pa_controller a) (pa_in_progress a) (pa_rx_bytes a) (pa_tx_bytes a) (pa_had_writes a)
    (pa_had_reads a) (pa_had_ping a) ping stats (pa_out a).

(** [resources->acquire], [release] and [has]. *)
Definition acquire a (k : resource) : peer_actor := set_resources a (with_held (pa_resources a) k (held_of (pa_resources a) k + 1)).

Definition release_one a (k : resource) : res peer_actor :=
  let* _ := assert (0 <? held_of (pa_resources a) k) in
  Ok (set_resources a (with_held (pa_resources a) k (held_of (pa_resources a) k - 1))).

Definition has a (k : resource) : bool := 0 <? held_of (pa_resources a) k.

Definition release_if a (k : resource) : res peer_actor := if has a k then release_one a k else Ok a.
End setters.

Section actor.
Context `{Greetings} `{Environment} (cfg : peer_config).
Implicit Types (a : peer_actor).

Definition peer_sha256 : bytes := get_sha256 (pc_peer cfg).

(** ** Writing *)

(** [process_tx_queue]. *)
Definition process_tx_queue a : res peer_actor :=
  if pa_finished a then Ok a
  else
    let* _ := assert (negb (bool_decide (is_Some (pa_tx_item a)))) in
    match pa_tx_queue a with
    | [] => Ok a
    | item :: queue =>
        if bool_decide (ti_buff item ≠ []) then
          Ok (say (acquire (set_tx a queue (Some item) (pa_finished a) (pa_io_error a)) io_write) (AsyncSend (ti_buff item)))
        else
          let* _ := assert (ti_final item) in
          Ok (say (set_tx a queue (Some item) true (pa_io_error a)) (AskShutdown NothingLeft))
    end.

(** [push_write]: while something is being written, data is added to the last buffer that waits as long as that is not too long. *)
Definition push_write a (buff : bytes) (final : bool) : res peer_actor :=
  if pa_io_error a then Ok a
  else
    let busy := bool_decide (is_Some (pa_tx_item a)) in
    let mergeable :=
      match last (pa_tx_queue a) with
      | Some prev => negb final && busy && (Z.of_nat (length (ti_buff prev)) <? MAX_TX_CHUNK)
      | None => false
      end in
    if mergeable then
      match last (pa_tx_queue a) with
      | Some prev =>
          Ok (set_tx a (removelast (pa_tx_queue a) ++ [mkTxItem (ti_buff prev ++ buff) (ti_final prev)]) (pa_tx_item a) (pa_finished a) (pa_io_error a))
      | None => Ub
      end
    else
      let a := set_tx a (pa_tx_queue a ++ [mkTxItem buff final]) (pa_tx_item a) (pa_finished a) (pa_io_error a) in
      let* a := if busy then Ok a else process_tx_queue a in
      Ok (if final then acquire a finalization else a).

(** ** Timers *)

Definition reset_ping_timer a : res peer_actor :=
  if pa_shutting a then Ok a
  else
    let* _ := assert (negb (pa_ping a)) in
    Ok (acquire (say (set_timers a true (pa_stats a)) (StartPing (pc_ping_timeout cfg))) ping_timer).

Definition reset_stats_timer a : res peer_actor :=
  if pa_shutting a then Ok a
  else
    let* _ := assert (negb (pa_stats a)) in
    Ok (acquire (say (set_timers a (pa_ping a) true) (StartStats (pc_stats_interval cfg))) stats_timer).

Definition cancel_io a : peer_actor :=
  if has a io_read then say a CancelTransport else if has a io_write then say a CancelTransport else a.

(** [on_ping_timeout]. *)
Definition on_ping_timeout a (cancelled : bool) : res peer_actor :=
  let* a := release_one a ping_timer in
  let a := set_timers a false (pa_stats a) in
  if cancelled then Ok a
  else if has a finalization then Ok (cancel_io a)
  else if pa_had_writes a && pa_had_reads a then reset_ping_timer (set_had a true true true)
  else if negb (pa_had_ping a) then reset_ping_timer (set_had a (pa_had_writes a) (pa_had_reads a) true)
  else Ok (cancel_io a).

Definition cancel_ping a : res peer_actor := if pa_ping a then on_ping_timeout a true else Ok a.

(** [on_stats_timeout]. *)
Definition on_stats_timeout a (cancelled : bool) : res peer_actor :=
  let* a := release_one a stats_timer in
  let a := set_timers a (pa_ping a) false in
  if cancelled then Ok a
  else if pa_controller a then
    let* a := reset_stats_timer a in
    if (pa_rx_bytes a =? 0) && (pa_tx_bytes a =? 0) then Ok a
    else Ok (say (set_traffic a 0 0) (PeerUpdate (leaf (RxTx peer_sha256 (pa_rx_bytes a) (pa_tx_bytes a)))))
  else Ok a.

(** [on_write]; the size that is reported has 32 bits. *)
Definition on_write a (sz : Z) : res peer_actor :=
  let* a := release_one a io_write in
  let reported := Z.min (u32 sz) (pa_in_progress a) in
  let a :=
    if pa_controller a && negb (reported =? 0) then say (set_link a (pa_controller a) (pa_in_progress a - reported)) TxSignal
    else a in
  let a := set_had (set_traffic a (pa_rx_bytes a) (pa_tx_bytes a + sz)) true (pa_had_reads a) (pa_had_ping a) in
  match pa_tx_item a with
  | None => Ub
  | Some item =>
      if ti_final item then
        let* a := release_if a finalization in
        cancel_ping (cancel_io a)
      else process_tx_queue (set_tx a (pa_tx_queue a) None (pa_finished a) (pa_io_error a))
  end.

(** [on_io_error], of a read or a write. *)
Definition on_io_error a (k : resource) : res peer_actor :=
  let* a := release_one a k in
  let* a := release_if a finalization in
  let a := set_tx a (pa_tx_queue a) (pa_tx_item a) (pa_finished a) true in
  Ok (if pa_shutting a then a else say a (AskShutdown IoFailed)).

(** ** Reading *)

(** [read_more]. *)
Definition read_more a : res peer_actor :=
  let* _ := assert (negb (has a io_read)) in
  if pa_shutting a then Ok a
  else
    let rx_idx := Z.of_nat (length (pa_rx a)) in
    if pc_rx_buff_size cfg <=? rx_idx then Ok (say a (AskShutdown RxLimitReached))
    else Ok (say (acquire a io_read) (AsyncRecv (pc_rx_buff_size cfg - rx_idx))).

(** The record of a device that is not part of the cluster ([fill_db_and_shutdown]). *)
Definition visitor_record (now : Z) (h : hello) : DbSomeDevice :=
  mkDbSomeDevice (hello_device_name h) (hello_client_name h) (hello_client_version h)
    ((if is_tcp (pc_url cfg) then chars "tcp" else chars "relay") ++ chars "://" ++ pc_authority cfg) now.

(** [handle_hello]. *)
Definition handle_hello (m : model) (now : Z) a (h : hello) : res (peer_actor * bool) :=
  let go_on (a : peer_actor) (d : diff op) : peer_actor * bool :=
    match d with
    | Null => (a, false)
    | Node _ _ _ => (set_rx (say a (PeerUpdate d)) (pa_rx a) read_controlled_next (pa_received a), true)
    end in
  match by_sha256 (mo_devices m) peer_sha256 with
  | Some known_peer =>
      if bool_decide (st_connection (d_state known_peer) = online) then Ok (say a (AskShutdown AlreadyConnected), false)
      else
        let* state := to_online parse_uri (pa_state a) (u_text (pc_url cfg)) in
        let* d := new_peer_state m peer_sha256 state (hello_client_name h) (hello_client_version h) now in
        Ok (go_on a d)
  | None =>
      let db := visitor_record now h in
      let a := say a (AskShutdown NotKnown) in
      match some_by_sha256 (mo_ignored_devices m) peer_sha256 with
      | Some _ => Ok (go_on a (leaf (IgnoredConnected (pc_peer cfg) db)))
      | None =>
          let a :=
            match some_by_sha256 (mo_pending_devices m) peer_sha256 with
            | Some _ => a
            | None => say a (PeerUpdate (leaf (AddPendingDevice (pc_peer cfg) db)))
            end in
          Ok (go_on a (leaf (UnknownConnected (pc_peer cfg) db)))
      end
  end.

(** [read_controlled]: what the controller is to see, is gathered for it or kept until it is there. *)
Definition read_controlled a (msg : bep_message) (messages : list body) : peer_actor * list body * bool :=
  match msg with
  | MHello _ => (say a (AskShutdown UnexpectedMessage), messages, false)
  | MBody b =>
      match kind b with
      | PING | DOWNLOAD_PROGRESS => (a, messages, true)
      | CLOSE => (say a (AskShutdown ClosedByPeer), messages, false)
      | HELLO | UNKNOWN => (a, messages, false)
      | _ =>
          if pa_controller a then (a, messages ++ [b], true)
          else (set_rx a (pa_rx a) (pa_read_action a) (pa_received a ++ [b]), messages, true)
      end
  end.

(** [this->*read_action], with [read_hello]. *)
Definition read_message (m : model) (now : Z) a (msg : bep_message) (messages : list body) : res (peer_actor * list body * bool) :=
  match pa_read_action a with
  | read_hello_next =>
      match msg with
      | MHello h => let* '(a, go) := handle_hello m now a h in Ok (a, messages, go)
      | MBody _ => Ok (say a (AskShutdown UnexpectedMessage), messages, false)
      end
  | read_controlled_next => Ok (read_controlled a msg messages)
  end.

(** The loop of [on_read] over what was received: what is left, the messages and whether to read on; nothing after an error. *)
Fixpoint parse_loop (fuel : nat) (m : model) (now : Z) a (data : bytes) (messages : list body) (read_next : bool)
    : res (peer_actor * option (bytes * list body * bool)) :=
  match data with
  | [] => Ok (a, Some ([], messages, read_next))
  | _ :: _ =>
      match fuel with
      | O => Ub
      | S fuel =>
          match parse_bep data with
          | Ub => Ub
          | Err ec => Ok (say a (AskShutdown (Parsing ec)), None)
          | Ok (msg, consumed) =>
              if consumed =? 0 then Ok (a, Some (data, messages, read_next))
              else
                let data := drop (Z.to_nat consumed) data in
                let* '(a, messages, go) := read_message m now a msg messages in
                if go then parse_loop fuel m now a data messages true else Ok (a, Some (data, messages, false))
          end
      end
  end.

(** [std::memcpy] of the rest to the front of the buffer is undefined when the rest is longer than what is in front of it. *)
Definition move_rest (data rest : bytes) : res unit :=
  let consumed := (length data - length rest)%nat in
  assert ((consumed =? 0)%nat || (length rest <=? consumed)%nat).

(** [on_read]: the rest is moved to the front of the buffer. *)
Definition on_read (m : model) (now : Z) a (data : bytes) : res peer_actor :=
  let* a := release_one a io_read in
  let a := set_rx a (pa_rx a ++ data) (pa_read_action a) (pa_received a) in
  let a := set_traffic a (pa_rx_bytes a + Z.of_nat (length data)) (pa_tx_bytes a) in
  let* '(a, parsed) := parse_loop (length (pa_rx a)) m now a (pa_rx a) [] true in
  match parsed with
  | None => Ok a
  | Some (rest, messages, read_next) =>
      let* _ := move_rest (pa_rx a) rest in
      let a := set_rx a rest (pa_read_action a) (pa_received a) in
      let* a := if read_next && negb (has a finalization) then read_more a else Ok a in
      let a := set_had a (pa_had_writes a) true (pa_had_ping a) in
      Ok (if bool_decide (messages ≠ []) && pa_controller a then say a (ForwardMessages messages) else a)
  end.

(** ** The life of the actor *)

Definition new_peer (state : device_state) : peer_actor :=
  mkPeer false state (mkResources 0 0 0 0 0) [] None false false [] read_hello_next [] false 0 0 0 false false false false false [].

Definition on_peer_start a (greeting : hello) : res peer_actor :=
  let* a := push_write a (make_hello_message greeting) false in
  let* a := read_more a in
  let* a := reset_ping_timer a in
  let* a := reset_stats_timer a in
  Ok (set_rx a (pa_rx a) read_hello_next (pa_received a)).

(** [on_controller_up], of the controller for this connection or another; what came before is handed over, and the queue is
    moved from. *)
Definition peer_controller_up a (for_me : bool) (tx_size : Z) : peer_actor :=
  if for_me then
    let a := set_link a true tx_size in
    if bool_decide (pa_received a ≠ []) then say (set_rx a (pa_rx a) (pa_read_action a) []) (ForwardMessages (pa_received a)) else a
  else a.

Definition peer_controller_predown a (for_me : bool) : peer_actor :=
  if for_me && negb (pa_shutting a) then say a (AskShutdown ControllerGone) else a.

Definition on_transfer a (data : bytes) : res peer_actor := push_write a data false.

(** [shutdown_start]: what waits is dropped, the last message says why. *)
Definition peer_shutdown_start a (reason : bytes) : res peer_actor :=
  let a := set_shutting a in
  let a := if pa_controller a then say a PeerDown else a in
  let a := acquire a finalization in
  let* a :=
    if pa_ping a then
      let* a := on_ping_timeout a true in
      if pa_finished a then Ok a
      else Ok (acquire (say (set_timers a true (pa_stats a)) (StartPing (Z.quot (pc_shutdown_timeout cfg * 8) 9))) ping_timer)
    else Ok a in
  let* buff := serialize (close_message reason) NEVER in
  let a := set_tx a [] (pa_tx_item a) (pa_finished a) (pa_io_error a) in
  let* a := push_write a buff true in
  release_one a finalization.

(** [shutdown_finish]: the peer is offline now, and what was transferred is noted. *)
Definition peer_shutdown_finish (m : model) (now : Z) a : res peer_actor :=
  let a := if pa_controller a then say a PeerDown else a in
  let* state := to_offline (pa_state a) in
  let* d := new_peer_state m peer_sha256 state [] [] now in
  let stats := leaf (RxTx peer_sha256 (pa_rx_bytes a) (pa_tx_bytes a)) in
  let* d :=
    if (pa_rx_bytes a =? 0) && (pa_tx_bytes a =? 0) then Ok d
    else match d with Null => Ok stats | Node _ _ _ => assign_sibling d 0 stats end in
  Ok (match d with Null => a | Node _ _ _ => say a (PeerUpdate d) end).

(** ** Events *)

(** [PCounted] is the controller counting what it has handed over. *)
Inductive peer_event :=
| PStart (greeting : hello)
| PRead (data : bytes)
| PWritten (sz : Z)
| PFailed (k : resource)
| PPing
| PStats
| PTransfer (data : bytes)
| PControllerUp (for_me : bool) (tx_size : Z)
| PCounted (n : Z)
| PPredown (for_me : bool)
| PShutdown (reason : bytes)
| PFinish.

Definition peer_handle (m : model) (now : Z) a (ev : peer_event) : res peer_actor :=
  match ev with
  | PStart greeting => on_peer_start a greeting
  | PRead data => on_read m now a data
  | PWritten sz => on_write a sz
  | PFailed k => on_io_error a k
  | PPing => on_ping_timeout a false
  | PStats => on_stats_timeout a false
  | PTransfer data => on_transfer a data
  | PControllerUp for_me tx_size => Ok (peer_controller_up a for_me tx_size)
  | PCounted n => Ok (set_link a (pa_controller a) n)
  | PPredown for_me => Ok (peer_controller_predown a for_me)
  | PShutdown reason => peer_shutdown_start a reason
  | PFinish => peer_shutdown_finish m now a
  end.
End actor.
