(* ===== verification/PeerFrame.v ===== *)
(** * PeerFrame: what holds of a [PeerActor] whatever happens to its connection: every operation under way is counted, bytes are
    written in the order they were handed over, and none is forgotten. *)

From S2P Require Import Prelude Diff Version Proto DeviceId Device Path GenericMap Folder Cluster Changes Trees Wire Bep PeerActor.

Definition flag (b : bool) : Z := if b then 1 else 0.

Section frame.
Context `{Greetings} `{Environment} (cfg : peer_config).
Implicit Types (a : peer_actor).

(** The transport is asked for one read and one write at a time; while nothing is written, nothing waits; a write that came to
    an end without the next one was the last. Only the last message may be empty. *)
Record peer_ok a : Prop := {
  po_read : 0 <= rs_io_read (pa_resources a) <= 1;
  po_write : 0 <= rs_io_write (pa_resources a) <= 1;
  po_item : rs_io_write (pa_resources a) = 1 → is_Some (pa_tx_item a);
  po_last : ∀ item, pa_tx_item a = Some item → rs_io_write (pa_resources a) = 0 → pa_io_error a = true ∨ ti_final item = true;
  po_idle : pa_tx_item a = None → pa_tx_queue a = [];
  po_buffs : Forall (λ item, ti_buff item = [] → ti_final item = true) (pa_tx_queue a);
  po_finished : pa_finished a = true → rs_io_write (pa_resources a) = 0 ∧ is_Some (pa_tx_item a);
  po_ping : rs_ping_timer (pa_resources a) = flag (pa_ping a);
  po_stats : rs_stats_timer (pa_resources a) = flag (pa_stats a);
  po_final : 0 <= rs_finalization (pa_resources a);
}.

(** What may happen: an operation ends that was started, data that is handed over is not empty, the actor starts and shuts down once. *)
Definition peer_enabled a (ev : peer_event) : Prop :=
  match ev with
  | PStart _ => pa_tx_item a = None ∧ rs_io_read (pa_resources a) = 0 ∧ pa_ping a = false ∧ pa_stats a = false
  | PRead _ => rs_io_read (pa_resources a) = 1
  | PWritten _ => rs_io_write (pa_resources a) = 1
  | PFailed k => (k = io_read ∨ k = io_write) ∧ held_of (pa_resources a) k = 1
  | PPing => pa_ping a = true
  | PStats => pa_stats a = true
  | PTransfer data => data ≠ []
  | PShutdown _ => pa_shutting a = false
  | _ => True
  end.

(** Bytes that went to the transport, and that wait. *)
Definition sent_by (out : list peer_effect) : bytes := out ≫= λ e, match e with AsyncSend data => data | _ => [] end.
Definition waiting a : bytes := pa_tx_queue a ≫= ti_buff.

Lemma sent_by_app out out' : sent_by (out ++ out') = sent_by out ++ sent_by out'.
Proof. apply bind_app. Qed.

Ltac peer_cbn := cbn [pa_shutting pa_state pa_resources pa_tx_queue pa_tx_item pa_finished pa_io_error pa_rx pa_read_action pa_received
  pa_controller pa_in_progress pa_rx_bytes pa_tx_bytes pa_had_writes pa_had_reads pa_had_ping pa_ping pa_stats pa_out
  say set_shutting set_resources set_tx set_rx set_link set_traffic set_had set_timers acquire with_held held_of
  rs_io_read rs_io_write rs_ping_timer rs_stats_timer rs_finalization flag] in *.

Lemma release_Ok a k : 0 < held_of (pa_resources a) k → release_one a k = Ok (set_resources a (with_held (pa_resources a) k (held_of (pa_resources a) k - 1))).
Proof. intros Hp. unfold release_one. apply Z.ltb_lt in Hp. by rewrite Hp. Qed.

(** ** Writing *)

(** Nothing is written, and what waits may be started with. *)
Definition before_write a : Prop :=
  peer_ok (set_tx a [] None (pa_finished a) (pa_io_error a)) ∧ pa_tx_item a = None ∧ rs_io_write (pa_resources a) = 0 ∧
  Forall (λ item, ti_buff item = [] → ti_final item = true) (pa_tx_queue a).

Lemma process_tx_queue_ok a :
  before_write a →
  ∃ a', process_tx_queue a = Ok a' ∧ peer_ok a' ∧ sent_by (pa_out a') ++ waiting a' = sent_by (pa_out a) ++ waiting a ∧
    pa_shutting a' = pa_shutting a ∧ pa_io_error a' = pa_io_error a ∧ rs_finalization (pa_resources a') = rs_finalization (pa_resources a).
Proof.
  intros ([Hr Hw Hi Hl Hidle Hb Hfin Hp Hs Hf] & Hitem & Hzero & Hbuffs). destruct a as [sh st [r w pi stt f] q it fi io rx act rec c ip rxb txb hw hr hp ping stats out].
  peer_cbn. subst it w. unfold process_tx_queue. peer_cbn.
  destruct fi; [by destruct (Hfin eq_refl) as [_ [? ?]]|]. rewrite bool_decide_eq_false_2 by (by intros [? ?]).
  cbn [negb assert res_bind]. destruct q as [|item q].
  { eexists. split; [done|]. split_and!; done || by split. }
  apply Forall_cons in Hbuffs as [Hitem Hq]. case_bool_decide as Hne.
  - eexists. split; [done|]. split; [split; peer_cbn; first [done|lia|naive_solver]|]. split; [|done].
    + peer_cbn. rewrite sent_by_app. unfold waiting. cbn. by rewrite app_nil_r, <- app_assoc.
  - rewrite (Hitem Hne). cbn [assert res_bind]. eexists. split; [done|]. split; [split; peer_cbn; first [done|lia|naive_solver]|]. split; [|done].
    + peer_cbn. rewrite sent_by_app. unfold waiting. cbn. rewrite Hne. by rewrite app_nil_r.
Qed.

Lemma acquire_final a : peer_ok a → peer_ok (acquire a finalization).
Proof. intros []. split; peer_cbn; done || lia. Qed.

Lemma push_write_ok a buff final :
  peer_ok a → (buff = [] → final = true) →
  ∃ a', push_write a buff final = Ok a' ∧ peer_ok a' ∧
    sent_by (pa_out a') ++ waiting a' = sent_by (pa_out a) ++ waiting a ++ (if pa_io_error a then [] else buff) ∧
    pa_shutting a' = pa_shutting a ∧ pa_io_error a' = pa_io_error a ∧
    rs_finalization (pa_resources a) <= rs_finalization (pa_resources a').
Proof.
  intros Hok Hbuff. unfold push_write. destruct (pa_io_error a) eqn:Hio.
  { eexists. split; [done|]. rewrite app_nil_r. split_and!; done || lia. }
  destruct (bool_decide (is_Some (pa_tx_item a))) eqn:Hbusy.
  - apply bool_decide_eq_true in Hbusy as [item Hbusy].
    assert (∀ q, waiting (set_tx a q (pa_tx_item a) (pa_finished a) (pa_io_error a)) = waiting a ++ buff →
      Forall (λ item, ti_buff item = [] → ti_final item = true) q →
      let a' := set_tx a q (pa_tx_item a) (pa_finished a) (pa_io_error a) in
      peer_ok a' ∧ sent_by (pa_out a') ++ waiting a' = sent_by (pa_out a) ++ waiting a ++ buff) as Hput.
    { intros q Hq Hall a'. split; [|unfold a'; by rewrite Hq]. destruct Hok. unfold a'. split; peer_cbn; first [done|congruence]. }
    rewrite Hio in Hput. destruct (last (pa_tx_queue a)) as [prev|] eqn:Hlast.
    + assert (pa_tx_queue a = removelast (pa_tx_queue a) ++ [prev]) as Hq.
      { apply last_Some in Hlast as [l' ->]. by rewrite removelast_last. }
      pose proof (po_buffs _ Hok) as Hall. rewrite Hq in Hall. apply Forall_app in Hall as [Hall Hprev].
      destruct (negb final && true && _) eqn:Hm.
      * destruct (Hput (removelast (pa_tx_queue a) ++ [mkTxItem (ti_buff prev ++ buff) (ti_final prev)])) as [Hok' Hs].
        { unfold waiting. rewrite Hq at 2. peer_cbn. rewrite !bind_app. cbn. by rewrite !app_nil_r, <- app_assoc. }
        { apply Forall_app. split; [done|]. apply Forall_cons in Hprev as [Hprev _]. constructor; [|done]. cbn. intros [Hnil _]%app_eq_nil. by apply Hprev. }
        eexists. split; [done|]. split_and!; first [done|peer_cbn; congruence|peer_cbn; lia].
      * destruct (Hput (pa_tx_queue a ++ [mkTxItem buff final])) as [Hok' Hs].
        { unfold waiting. peer_cbn. rewrite bind_app. cbn. by rewrite app_nil_r. }
        { apply Forall_app. split; [apply Hok|]. by constructor. }
        cbn [res_bind]. eexists. split; [done|]. destruct final; [|split_and!; done || lia].
        split; [by apply acquire_final|]. split_and!; try done; peer_cbn; lia.
    + destruct (Hput (pa_tx_queue a ++ [mkTxItem buff final])) as [Hok' Hs].
      { unfold waiting. peer_cbn. rewrite bind_app. cbn. by rewrite app_nil_r. }
      { apply Forall_app. split; [apply Hok|]. by constructor. }
      cbn [res_bind]. eexists. split; [done|]. destruct final; [|split_and!; done || lia].
      split; [by apply acquire_final|]. split_and!; try done; peer_cbn; lia.
  - apply bool_decide_eq_false in Hbusy. assert (pa_tx_item a = None) as Hn by (destruct (pa_tx_item a); [by destruct Hbusy|done]).
    pose proof (po_idle _ Hok Hn) as Hq. rewrite Hq. cbn [last].
    destruct (process_tx_queue_ok (set_tx a ([] ++ [mkTxItem buff final]) (pa_tx_item a) (pa_finished a) false)) as (a' & -> & Hok' & Hs & Hsh & Hio' & Hfin).
    { split_and!; [|done| |by repeat constructor].
      - rewrite <- Hio. destruct Hok. rewrite Hn, Hq in *. split; try done.
      - pose proof (po_write _ Hok). peer_cbn. destruct (decide (rs_io_write (pa_resources a) = 1)) as [Hone|]; [|lia].
        destruct (po_item _ Hok Hone) as [? ?]. congruence. }
    cbn [res_bind]. assert (sent_by (pa_out a') ++ waiting a' = sent_by (pa_out a) ++ waiting a ++ buff) as Hs'.
    { rewrite Hs. unfold waiting. peer_cbn. rewrite Hq. cbn. by rewrite app_nil_r. }
    eexists. split; [done|]. destruct final; [|split_and!; try done; peer_cbn; congruence || lia].
    split; [by apply acquire_final|]. split_and!; try done; peer_cbn; lia.
Qed.
(** Reads and timers are left alone. *)
Lemma process_tx_queue_frame a a' :
  process_tx_queue a = Ok a' →
  rs_io_read (pa_resources a') = rs_io_read (pa_resources a) ∧ pa_ping a' = pa_ping a ∧ pa_stats a' = pa_stats a.
Proof.
  unfold process_tx_queue. destruct (pa_finished a); [intros Heq; by injection Heq as <-|]. intros (_ & _ & Heq)%bind_Ok.
  destruct (pa_tx_queue a) as [|item q]; [by injection Heq as <-|]. case_bool_decide; [by injection Heq as <-|].
  apply bind_Ok in Heq as (_ & _ & Heq). by injection Heq as <-.
Qed.

Lemma push_write_frame a buff final a' :
  push_write a buff final = Ok a' →
  rs_io_read (pa_resources a') = rs_io_read (pa_resources a) ∧ pa_ping a' = pa_ping a ∧ pa_stats a' = pa_stats a.
Proof.
  unfold push_write. destruct (pa_io_error a); [intros Heq; by injection Heq as <-|].
  assert (∀ q io, (let* b := if bool_decide (is_Some (pa_tx_item a)) then Ok (set_tx a q (pa_tx_item a) (pa_finished a) io)
      else process_tx_queue (set_tx a q (pa_tx_item a) (pa_finished a) io) in Ok (if final then acquire b finalization else b)) = Ok a' →
    rs_io_read (pa_resources a') = rs_io_read (pa_resources a) ∧ pa_ping a' = pa_ping a ∧ pa_stats a' = pa_stats a) as Hput.
  { intros q io (b & Hb & Heq)%bind_Ok.
    assert (rs_io_read (pa_resources b) = rs_io_read (pa_resources a) ∧ pa_ping b = pa_ping a ∧ pa_stats b = pa_stats a) as Hbf.
    { destruct (bool_decide _); [by injection Hb as <-|by apply process_tx_queue_frame in Hb]. }
    by destruct final; injection Heq as <-. }
  destruct (last (pa_tx_queue a)) as [prev|]; [|apply Hput]. destruct (_ && _); [|apply Hput]. intros Heq. by injection Heq as <-.
Qed.

(** ** Reading *)

(** Changes that have nothing to do with the operations under way. *)
Definition same_io a a' : Prop :=
  pa_resources a' = pa_resources a ∧ pa_tx_queue a' = pa_tx_queue a ∧ pa_tx_item a' = pa_tx_item a ∧ pa_finished a' = pa_finished a ∧
  pa_io_error a' = pa_io_error a ∧ pa_ping a' = pa_ping a ∧ pa_stats a' = pa_stats a ∧ pa_shutting a' = pa_shutting a ∧
  sent_by (pa_out a') = sent_by (pa_out a).

Lemma same_io_refl a : same_io a a.
Proof. done. Qed.

Lemma same_io_trans a1 a2 a3 : same_io a1 a2 → same_io a2 a3 → same_io a1 a3.
Proof. unfold same_io. intuition congruence. Qed.

Lemma same_io_ok a a' : same_io a a' → peer_ok a → peer_ok a'.
Proof. intros (E1 & E2 & E3 & E4 & E5 & E6 & E7 & E8 & E10) []. split; rewrite ?E1, ?E2, ?E3, ?E4, ?E5, ?E6, ?E7; done. Qed.

Lemma same_io_waiting a a' : same_io a a' → sent_by (pa_out a') ++ waiting a' = sent_by (pa_out a) ++ waiting a.
Proof. intros (_ & E2 & _ & _ & _ & _ & _ & _ & E10). unfold waiting. by rewrite E2, E10. Qed.

Definition silent (e : peer_effect) : Prop := match e with AsyncSend _ => False | _ => True end.

Lemma say_same a e : silent e → same_io a (say a e).
Proof. intros He. unfold same_io. peer_cbn. rewrite sent_by_app. split_and!; try done. destruct e; try done; by rewrite app_nil_r. Qed.

Lemma set_rx_same a rx action received : same_io a (set_rx a rx action received).
Proof. done. Qed.

Lemma handle_hello_same m now a h a' go : handle_hello cfg m now a h = Ok (a', go) → same_io a a'.
Proof.
  unfold handle_hello. destruct (by_sha256 _ _) as [peer|].
  - case_bool_decide; [by intros [= <- _]; apply say_same|].
    intros (st & _ & (d & _ & Hd)%bind_Ok)%bind_Ok. destruct d; injection Hd as <- _; [done|]. by apply (say_same a (PeerUpdate _)).
  - destruct (some_by_sha256 (mo_ignored_devices m) _); [|destruct (some_by_sha256 (mo_pending_devices m) _)]; intros [= <- _];
      repeat (eapply same_io_trans; [|by apply set_rx_same]); repeat (eapply same_io_trans; [|by apply say_same]); apply same_io_refl.
Qed.

Lemma read_message_same m now a msg messages a' messages' go :
  read_message cfg m now a msg messages = Ok (a', messages', go) → same_io a a'.
Proof.
  unfold read_message. destruct (pa_read_action a).
  - destruct msg as [h|b]; [|by intros [= <- _ _]; apply say_same].
    intros ([a1 go1] & Hh & Heq)%bind_Ok. injection Heq as <- _ _. by apply handle_hello_same in Hh.
  - intros [= Heq]. unfold read_controlled in Heq. destruct msg as [h|b]; [injection Heq as <- _ _; by apply say_same|].
    destruct (kind b); try (injection Heq as <- _ _; first [done | by apply say_same]);
      destruct (pa_controller a); injection Heq as <- _ _; done.
Qed.

Lemma parse_loop_same m now fuel : ∀ a data messages next a' parsed,
  parse_loop cfg fuel m now a data messages next = Ok (a', parsed) → same_io a a'.
Proof.
  induction fuel as [|fuel IH]; intros a [|x data] messages next a' parsed; cbn [parse_loop]; try (by intros [= <- _]); try done.
  destruct (parse_bep (x :: data)) as [[msg consumed]|ec|]; [|by intros [= <- _]; apply say_same|done].
  destruct (consumed =? 0); [by intros [= <- _]|]. intros ([[a1 ms1] go] & Hr & Hp)%bind_Ok. apply read_message_same in Hr.
  destruct go; [|by injection Hp as <- _]. apply IH in Hp. by apply (same_io_trans _ a1).
Qed.

(** A read that ended and one that is started. *)
Lemma read_more_ok a : peer_ok a → rs_io_read (pa_resources a) = 0 →
  ∃ a', read_more cfg a = Ok a' ∧ peer_ok a' ∧ sent_by (pa_out a') ++ waiting a' = sent_by (pa_out a) ++ waiting a ∧
    pa_io_error a' = pa_io_error a ∧ pa_shutting a' = pa_shutting a ∧ pa_ping a' = pa_ping a ∧ pa_stats a' = pa_stats a.
Proof.
  intros Hok Hz. unfold read_more, has. cbn [held_of]. rewrite Hz. cbn [negb Z.ltb Z.compare assert res_bind].
  destruct (pa_shutting a) eqn:Hsh; [by exists a|]. destruct (_ <=? _).
  - eexists. split; [done|]. split; [by apply (same_io_ok a); [apply say_same|]|]. split; [by apply same_io_waiting, say_same|]. split_and!; done.
  - eexists. split; [done|]. split.
    + apply (same_io_ok (acquire a io_read)); [by apply say_same|]. destruct Hok. split; peer_cbn; done || lia.
    + split; [|split_and!; done]. rewrite (same_io_waiting (acquire a io_read)) by (by apply say_same). done.
Qed.

Lemma on_read_keeps m now a data a' :
  peer_ok a → rs_io_read (pa_resources a) = 1 → on_read cfg m now a data = Ok a' →
  peer_ok a' ∧ sent_by (pa_out a') ++ waiting a' = sent_by (pa_out a) ++ waiting a ∧ pa_io_error a' = pa_io_error a.
Proof.
  intros Hok Hone. unfold on_read. rewrite release_Ok by (cbn; lia). cbn [res_bind]. set (a1 := set_traffic _ _ _).
  assert (peer_ok a1 ∧ rs_io_read (pa_resources a1) = 0) as [Hok1 Hz].
  { unfold a1. split; [|cbn; lia]. destruct Hok. split; peer_cbn; done || lia. }
  intros ([a2 parsed] & Hp & Hend)%bind_Ok. apply parse_loop_same in Hp. pose proof (same_io_ok _ _ Hp Hok1) as Hok2.
  pose proof (same_io_waiting _ _ Hp) as Hw2. assert (pa_io_error a2 = pa_io_error a) as Hio by (destruct Hp as (_ & _ & _ & _ & -> & _); done).
  change (sent_by (pa_out a1) ++ waiting a1) with (sent_by (pa_out a) ++ waiting a) in Hw2.
  destruct parsed as [[[rest messages] next]|]; [|by injection Hend as <-]. apply bind_Ok in Hend as (u & _ & Hend).
  set (a3 := set_rx a2 rest _ _) in Hend. assert (rs_io_read (pa_resources a3) = 0) as Hz3 by (destruct Hp as (E & _); change (pa_resources a3) with (pa_resources a2); by rewrite E).
  assert (∃ a4, (if next && negb (has a3 finalization) then read_more cfg a3 else Ok a3) = Ok a4 ∧ peer_ok a4 ∧
    sent_by (pa_out a4) ++ waiting a4 = sent_by (pa_out a) ++ waiting a ∧ pa_io_error a4 = pa_io_error a) as (a4 & Hr & Hok4 & Hw4 & Hio4).
  { destruct (next && _); [|exists a3; split; [done|]; split; [by apply (same_io_ok a2)|by split]].
    destruct (read_more_ok a3) as (a4 & -> & Hok4 & Hw4 & Hio4 & _); [by apply (same_io_ok a2)|done|]. exists a4. split_and!; [done|done|by rewrite Hw4|by rewrite Hio4]. }
  rewrite Hr in Hend. cbn [res_bind] in Hend. set (a5 := set_had a4 _ _ _) in Hend.
  assert (same_io a4 a5) as Hs5 by done.
  assert (same_io a4 a') as Hs.
  { destruct (bool_decide (messages ≠ []) && pa_controller a5); injection Hend as <-; [|exact Hs5].
    apply (same_io_trans _ a5); [exact Hs5|by apply say_same]. }
  split_and!; [by apply (same_io_ok a4)|by rewrite (same_io_waiting a4)|]. destruct Hs as (_ & _ & _ & _ & -> & _). done.
Qed.
(** ** Timers and the end of operations *)

(** The contract of a handler: it goes through, and the bytes are accounted for. *)
Definition keeps a (more : bytes) (r : res peer_actor) : Prop :=
  ∃ a', r = Ok a' ∧ peer_ok a' ∧ sent_by (pa_out a') ++ waiting a' = sent_by (pa_out a) ++ waiting a ++ more ∧ pa_io_error a' = pa_io_error a.

Lemma keeps_same a a' : same_io a a' → peer_ok a → keeps a [] (Ok a').
Proof. intros Hs Hok. exists a'. rewrite app_nil_r. split_and!; [done|by apply (same_io_ok a)|by apply same_io_waiting|by apply Hs]. Qed.

Lemma cancel_io_same a : same_io a (cancel_io a).
Proof. unfold cancel_io. repeat case_match; [by apply say_same..|done]. Qed.

Lemma reset_ping_ok a : peer_ok a → pa_ping a = false → keeps a [] (reset_ping_timer cfg a).
Proof.
  intros Hok Hp. unfold reset_ping_timer. destruct (pa_shutting a); [by apply keeps_same|]. rewrite Hp. cbn [negb assert res_bind].
  eexists. split; [done|]. split; [|split; [|done]].
  - destruct Hok. rewrite Hp in *. split; peer_cbn; done || lia.
  - rewrite app_nil_r. exact (same_io_waiting a (say a (StartPing (pc_ping_timeout cfg))) (say_same a (StartPing _) I)).
Qed.

Lemma reset_stats_ok a : peer_ok a → pa_stats a = false → keeps a [] (reset_stats_timer cfg a).
Proof.
  intros Hok Hp. unfold reset_stats_timer. destruct (pa_shutting a); [by apply keeps_same|]. rewrite Hp. cbn [negb assert res_bind].
  eexists. split; [done|]. split; [|split; [|done]].
  - destruct Hok. rewrite Hp in *. split; peer_cbn; done || lia.
  - rewrite app_nil_r. exact (same_io_waiting a (say a (StartStats (pc_stats_interval cfg))) (say_same a (StartStats _) I)).
Qed.

Lemma keeps_from a a1 more r :
  sent_by (pa_out a1) ++ waiting a1 = sent_by (pa_out a) ++ waiting a ∧ pa_io_error a1 = pa_io_error a → keeps a1 more r → keeps a more r.
Proof. intros [He Hio] (a' & -> & Hok & Hs & Hio'). exists a'. split_and!; [done|done| |congruence]. by rewrite Hs, app_assoc, He, <- app_assoc. Qed.

(** The timer that went off is no longer counted. *)
Lemma ping_released a : peer_ok a → pa_ping a = true →
  let a1 := set_timers (set_resources a (with_held (pa_resources a) ping_timer (held_of (pa_resources a) ping_timer - 1))) false (pa_stats a) in
  release_one a ping_timer = Ok (set_resources a (with_held (pa_resources a) ping_timer (held_of (pa_resources a) ping_timer - 1))) ∧ peer_ok a1.
Proof.
  intros Hok Hp. pose proof (po_ping _ Hok) as Hpi. rewrite Hp in Hpi. cbn in Hpi. split; [apply release_Ok; cbn; lia|].
  destruct Hok. split; peer_cbn; done || lia.
Qed.

Lemma on_ping_timeout_ok a cancelled : peer_ok a → pa_ping a = true → keeps a [] (on_ping_timeout cfg a cancelled).
Proof.
  intros Hok Hp. destruct (ping_released a Hok Hp) as [Hr Hok1]. unfold on_ping_timeout. rewrite Hr. cbn [res_bind].
  set (a1 := set_timers _ _ _). apply (keeps_from a a1); [done|]. destruct cancelled; [by apply keeps_same|].
  destruct (has a1 finalization); [apply keeps_same; [apply cancel_io_same|done]|].
  assert (∀ w r p, keeps a1 [] (reset_ping_timer cfg (set_had a1 w r p))) as Hset.
  { intros w r p. apply (keeps_from a1 (set_had a1 w r p)); [done|]. apply reset_ping_ok; [by apply (same_io_ok a1)|done]. }
  destruct (pa_had_writes a1 && pa_had_reads a1); [apply Hset|].
  destruct (negb (pa_had_ping a1)); [apply Hset|apply keeps_same; [apply cancel_io_same|done]].
Qed.

Lemma on_stats_timeout_ok a : peer_ok a → pa_stats a = true → keeps a [] (on_stats_timeout cfg a false).
Proof.
  intros Hok Hp. pose proof (po_stats _ Hok) as Hpi. rewrite Hp in Hpi. cbn in Hpi. unfold on_stats_timeout. rewrite release_Ok by (cbn; lia).
  cbn [res_bind]. set (a1 := set_timers _ _ _). apply (keeps_from a a1); [done|].
  assert (peer_ok a1) as Hok1 by (unfold a1; destruct Hok; split; peer_cbn; done || lia).
  destruct (pa_controller a1); [|by apply keeps_same]. destruct (reset_stats_ok a1 Hok1 eq_refl) as (a2 & -> & Hok2 & Hs2 & Hio2). cbn [res_bind].
  apply (keeps_from a1 a2); [by rewrite Hs2, app_nil_r|]. destruct (_ && _); [by apply keeps_same|].
  apply keeps_same; [|done]. by apply (say_same (set_traffic a2 0 0)).
Qed.

Lemma release_final_ok a : peer_ok a → ∃ a', release_if a finalization = Ok a' ∧ peer_ok a' ∧ pa_out a' = pa_out a ∧
  pa_tx_queue a' = pa_tx_queue a ∧ pa_io_error a' = pa_io_error a.
Proof.
  intros Hok. unfold release_if, has. destruct (Z.ltb_spec 0 (held_of (pa_resources a) finalization)) as [Hpos|]; [|by exists a].
  rewrite release_Ok by done. eexists. split; [done|]. split_and!; try done. cbn in Hpos. destruct Hok. split; peer_cbn; done || lia.
Qed.

Lemma on_write_ok a sz : peer_ok a → rs_io_write (pa_resources a) = 1 → keeps a [] (on_write cfg a sz).
Proof.
  intros Hok Hone. destruct (po_item _ Hok Hone) as [item Hitem]. unfold on_write. rewrite release_Ok by (cbn; lia). cbn [res_bind].
  set (a1 := set_resources a _). set (n := Z.min _ _).
  set (a2 := if pa_controller a1 && negb (n =? 0) then say (set_link a1 (pa_controller a1) (pa_in_progress a1 - n)) TxSignal else a1).
  set (a3 := set_had _ _ _ _).
  assert (same_io a1 a3) as Hs.
  { apply (same_io_trans _ a2); [|done]. unfold a2. destruct (_ && _); [|done].
    apply (same_io_trans _ (set_link a1 (pa_controller a1) (pa_in_progress a1 - n))); [done|by apply say_same]. }
  destruct Hs as (E1 & E2 & E3 & E4 & E5 & E6 & E7 & E8 & E10).
  assert (peer_ok (set_tx a1 [] None (pa_finished a1) (pa_io_error a1)) ∧ rs_io_write (pa_resources a1) = 0) as [Hbare Hz].
  { unfold a1. split; [|cbn; lia]. destruct Hok. split; peer_cbn; try (done || lia). intros Hf. destruct (po_finished0 Hf). lia. }
  assert (peer_ok a1 ∨ ti_final item = false) as Hok1.
  { destruct (ti_final item) eqn:Hfi; [|by right]. left. unfold a1. destruct Hok. split; peer_cbn; try (done || lia).
    all: try (intros i Hi _; right; congruence). all: intros Hf; destruct (po_finished0 Hf); lia. }
  apply (keeps_from a a3); [by unfold waiting; rewrite E2, E5, E10|]. rewrite E3. change (pa_tx_item a1) with (pa_tx_item a). rewrite Hitem.
  destruct (ti_final item) eqn:Hfi.
  - destruct Hok1 as [Hok1|?]; [|done]. assert (peer_ok a3) as Hok3 by (by apply (same_io_ok a1)).
    destruct (release_final_ok a3 Hok3) as (a4 & -> & Hok4 & Ho & Hq & Hio). cbn [res_bind].
    apply (keeps_from a3 (cancel_io a4)).
    { rewrite (same_io_waiting a4 _ (cancel_io_same a4)). unfold waiting. rewrite Ho, Hq. split; [done|]. rewrite <- Hio. apply cancel_io_same. }
    assert (peer_ok (cancel_io a4)) as Hok5 by (by apply (same_io_ok a4); [apply cancel_io_same|]).
    unfold cancel_ping. destruct (pa_ping (cancel_io a4)) eqn:Hp5; [by apply on_ping_timeout_ok|by apply keeps_same].
  - assert (before_write (set_tx a3 (pa_tx_queue a3) None (pa_finished a3) (pa_io_error a3))) as Hb.
    { unfold before_write. peer_cbn. rewrite E1, E2. split_and!; [|done|done|apply Hok].
      destruct Hbare. split; peer_cbn; rewrite ?E1, ?E2, ?E4, ?E5, ?E6, ?E7; done. }
    destruct (process_tx_queue_ok _ Hb) as (a4 & -> & Hok4 & Hs4 & _ & Hio4 & _). exists a4. split_and!; [done|done|by rewrite app_nil_r|done].
Qed.

Lemma on_io_error_ok a k : peer_ok a → (k = io_read ∨ k = io_write) → held_of (pa_resources a) k = 1 →
  ∃ a', on_io_error a k = Ok a' ∧ peer_ok a' ∧ sent_by (pa_out a') ++ waiting a' = sent_by (pa_out a) ++ waiting a ∧ pa_io_error a' = true.
Proof.
  intros Hok Hk Hone. unfold on_io_error. rewrite release_Ok by lia. cbn [res_bind]. set (a1 := set_resources a _).
  assert (∃ f, 0 <= f ∧ release_if a1 finalization = Ok (set_resources a (with_held (with_held (pa_resources a) k 0) finalization f))) as (f & Hf & ->).
  { pose proof (po_final _ Hok) as Hf. assert (a1 = set_resources a (with_held (pa_resources a) k 0)) as -> by (unfold a1; by rewrite Hone).
    unfold release_if, has, release_one. destruct (Z.ltb_spec 0 (held_of (pa_resources (set_resources a (with_held (pa_resources a) k 0))) finalization)) as [Hpos|Hneg].
    - exists (rs_finalization (pa_resources a) - 1). destruct Hk as [-> | ->]; cbn in *; (split; [lia|done]).
    - exists (rs_finalization (pa_resources a)). destruct Hk as [-> | ->]; cbn in *; (split; [lia|done]). }
  cbn [res_bind]. set (a3 := set_tx _ _ _ _ true). assert (peer_ok a3) as Hok3.
  { unfold a3. destruct Hok. destruct Hk as [-> | ->]; cbn in Hone; split; peer_cbn; try (done || lia); try (by left); try (by auto).
    all: try (intros Hfi; by destruct (po_finished0 Hfi)). }
  eexists. split; [done|]. destruct (pa_shutting a3); [done|].
  split_and!; [by apply (same_io_ok a3); [apply say_same|]|by rewrite (same_io_waiting a3) by (by apply say_same)|done].
Qed.
(** ** The whole actor *)

Lemma serialize_never b : ∃ frame, serialize b NEVER = Ok frame ∧ frame ≠ [].
Proof. unfold serialize, applied_compression. rewrite (bool_decide_eq_true_2 (NEVER = NEVER)) by done. cbn [negb]. rewrite andb_false_r. by eexists. Qed.

Lemma on_peer_start_ok a greeting :
  peer_ok a → peer_enabled a (PStart greeting) → keeps a (if pa_io_error a then [] else make_hello_message greeting) (on_peer_start cfg a greeting).
Proof.
  intros Hok (Hitem & Hr & Hp & Hst). unfold on_peer_start.
  destruct (push_write_ok a (make_hello_message greeting) false Hok ltac:(done)) as (a1 & Hpush & Hok1 & Hs1 & _ & Hio1 & _). rewrite Hpush. cbn [res_bind].
  assert (rs_io_read (pa_resources a1) = 0 ∧ pa_ping a1 = false ∧ pa_stats a1 = false) as (Hr1 & Hp1 & Hst1).
  { destruct (push_write_frame a _ _ a1 Hpush) as (-> & -> & ->). done. }
  destruct (read_more_ok a1 Hok1 Hr1) as (a2 & -> & Hok2 & Hs2 & Hio2 & _ & Hp2 & Hst2). cbn [res_bind].
  assert (∃ a3, reset_ping_timer cfg a2 = Ok a3 ∧ peer_ok a3 ∧ sent_by (pa_out a3) ++ waiting a3 = sent_by (pa_out a2) ++ waiting a2 ∧ pa_stats a3 = false ∧
    pa_io_error a3 = pa_io_error a2) as (a3 & -> & Hok3 & Hs3 & Hst3 & Hio3).
  { destruct (reset_ping_ok a2 Hok2) as (a3 & Hr3 & Hok3 & Hs3 & Hio3); [congruence|]. exists a3. rewrite app_nil_r in Hs3. split_and!; try done.
    revert Hr3. unfold reset_ping_timer. destruct (pa_shutting a2); [intros Heq; injection Heq as <-; congruence|]. rewrite Hp2, Hp1. cbn. intros Heq. injection Heq as <-. cbn. congruence. }
  cbn [res_bind]. destruct (reset_stats_ok a3 Hok3 Hst3) as (a4 & -> & Hok4 & Hs4 & Hio4). cbn [res_bind]. rewrite app_nil_r in Hs4.
  eexists. split; [done|]. split; [by apply (same_io_ok a4)|]. split; [|cbn; congruence]. change (sent_by (pa_out a4) ++ waiting a4 = sent_by (pa_out a) ++ waiting a ++ (if pa_io_error a then [] else make_hello_message greeting)).
  by rewrite Hs4, Hs3, Hs2, Hs1.
Qed.

(** What waits is dropped, the reason is the last that is written. *)
Lemma peer_shutdown_start_ok a reason :
  peer_ok a →
  ∃ a' frame, peer_shutdown_start cfg a reason = Ok a' ∧ serialize (close_message reason) NEVER = Ok frame ∧ peer_ok a' ∧
    sent_by (pa_out a') ++ waiting a' = sent_by (pa_out a) ++ (if pa_io_error a then [] else frame).
Proof.
  intros Hok. unfold peer_shutdown_start. set (a1 := set_shutting a). set (a2 := if pa_controller a1 then say a1 PeerDown else a1).
  assert (peer_ok a2 ∧ sent_by (pa_out a2) = sent_by (pa_out a) ∧ pa_io_error a2 = pa_io_error a) as (Hok2 & Hs2 & Hio2).
  { assert (peer_ok a1) by (destruct Hok; by split). unfold a2. destruct (pa_controller a1); [|done].
    split; [by apply (same_io_ok a1); [apply say_same|]|]. split; [|done]. by destruct (say_same a1 PeerDown I) as (_ & _ & _ & _ & _ & _ & _ & _ & ->). }
  pose proof (acquire_final a2 Hok2) as Hok3. set (a3 := acquire a2 finalization) in *.
  assert (0 < rs_finalization (pa_resources a3)) as Hf3 by (pose proof (po_final _ Hok2); unfold a3; cbn; lia).
  assert (∃ a4, (if pa_ping a3 then
      let* b := on_ping_timeout cfg a3 true in
      if pa_finished b then Ok b
      else Ok (acquire (say (set_timers b true (pa_stats b)) (StartPing (Z.quot (pc_shutdown_timeout cfg * 8) 9))) ping_timer)
    else Ok a3) = Ok a4 ∧ peer_ok a4 ∧ sent_by (pa_out a4) = sent_by (pa_out a) ∧ pa_io_error a4 = pa_io_error a ∧
    0 < rs_finalization (pa_resources a4)) as (a4 & -> & Hok4 & Hs4 & Hio4 & Hf4).
  { destruct (pa_ping a3) eqn:Hp; [|by exists a3]. destruct (ping_released a3 Hok3 Hp) as [Hr Hokb]. unfold on_ping_timeout. rewrite Hr. cbn [res_bind].
    set (b := set_timers _ _ _) in *. destruct (pa_finished b); [by exists b|]. eexists. split; [done|]. split_and!; [|by cbn; rewrite sent_by_app; cbn; rewrite app_nil_r|done|done].
    unfold b in *. pose proof (po_ping _ Hokb) as Hpi. cbn in Hpi. destruct Hokb. split; peer_cbn; done || lia. }
  cbn [res_bind]. destruct (serialize_never (close_message reason)) as (frame & -> & Hne). cbn [res_bind].
  set (a5 := set_tx a4 [] _ _ _). assert (peer_ok a5) as Hok5 by (unfold a5; destruct Hok4; split; peer_cbn; done || lia).
  destruct (push_write_ok a5 frame true Hok5) as (a6 & -> & Hok6 & Hs6 & _ & _ & Hf6); [done|]. cbn [res_bind].
  change (rs_finalization (pa_resources a5)) with (rs_finalization (pa_resources a4)) in Hf6.
  rewrite release_Ok by (cbn; lia). eexists _, frame. split; [done|]. split; [done|]. split.
  - destruct Hok6. split; peer_cbn; done || lia.
  - change (sent_by (pa_out a6) ++ waiting a6 = sent_by (pa_out a) ++ (if pa_io_error a then [] else frame)). rewrite Hs6.
    change (pa_out a5) with (pa_out a4). change (pa_io_error a5) with (pa_io_error a4). by rewrite Hs4, Hio4.
Qed.

Lemma peer_shutdown_finish_ok m now a : peer_ok a → keeps a [] (peer_shutdown_finish cfg m now a).
Proof.
  intros Hok. unfold peer_shutdown_finish. set (a1 := if pa_controller a then say a PeerDown else a).
  assert (same_io a a1) as Hs by (unfold a1; destruct (pa_controller a); [by apply say_same|done]). cbn [to_offline res_bind].
  assert (∃ d, new_peer_state m (peer_sha256 cfg) (mkState (st_token (pa_state a1)) offline None) [] [] now = Ok d ∧
    (d = Null ∨ ∃ o, d = leaf o)) as (d & -> & Hd).
  { unfold new_peer_state. destruct (by_sha256 _ _) as [peer|]; [|eauto]. unfold can_roollback_to, state_lt. cbn [st_connection st_token].
    rewrite (decide_False (P := offline = st_connection (d_state peer) ∧ st_connection (d_state peer) = online)) by (intros [<- ?]; done).
    rewrite (decide_False (P := st_connection (d_state peer) = offline ∧ offline = online)) by (by intros [_ ?]). cbn [res_bind].
    destruct (rank (st_connection (d_state peer)) <? rank offline); cbn [res_bind]; [eauto|].
    destruct (st_token (pa_state a1) =? st_token (d_state peer)); cbn [res_bind]; [|eauto]. destruct (_ <? _); eauto. }
  cbn [res_bind]. destruct ((pa_rx_bytes a1 =? 0) && (pa_tx_bytes a1 =? 0)).
  - cbn [res_bind]. destruct Hd as [-> | [o ->]]; (apply keeps_same; [|done]); [done|]. apply (same_io_trans _ a1); [done|by apply say_same].
  - destruct Hd as [-> | [o ->]]; cbn [leaf assign_sibling res_bind]; (apply keeps_same; [|done]); apply (same_io_trans _ a1); [done|by apply say_same|done|by apply say_same].
Qed.
End frame.
