(* ===== verification/PeerStream.v ===== *)
(** * PeerStream: a [PeerActor] finds the messages in the stream it receives, in whatever pieces that arrives, as long as no piece
    ends within the size field of a frame ([Bep.parse_bep_short]). *)

From S2P Require Import Prelude Diff Version Proto DeviceId Device Path GenericMap Folder Cluster Changes Trees Wire Bep Removal PeerActor PeerFrame.

(** The bytes of the size of the payload begin behind the header: positions at which the header has arrived, and the size not. *)
Definition in_size_field (frame : bytes) (n : nat) : bool :=
  match read16 frame with
  | Ok header_sz => (2 + header_sz <=? Z.of_nat n) && (Z.of_nat n <? 2 + header_sz + 4)
  | _ => false
  end.

(** A stream of frames is cut after [n] bytes, not within a size field. *)
Fixpoint clean_cut (frames : list bytes) (n : nat) : bool :=
  match frames with
  | [] => true
  | f :: frames => if (n <? length f)%nat then negb (in_size_field f n) else clean_cut frames (n - length f)
  end.

Lemma clean_cut_drop frames : ∀ k x, clean_cut frames (length (concat (take k frames)) + x) = clean_cut (drop k frames) x.
Proof.
  induction frames as [|f frames IH]; intros [|k] x; cbn [take concat drop length]; try done.
  cbn [clean_cut]. rewrite length_app. destruct (Nat.ltb_spec (length f + length (concat (take k frames)) + x) (length f)); [lia|].
  rewrite <- IH. f_equal. lia.
Qed.

(** The length of the whole frames among the first [n] bytes. *)
Fixpoint whole (frames : list bytes) (n : nat) : nat :=
  match frames with
  | [] => 0
  | f :: frames => if (n <? length f)%nat then 0 else length f + whole frames (n - length f)
  end.

Lemma whole_drop frames : ∀ k x, whole frames (length (concat (take k frames)) + x) = (length (concat (take k frames)) + whole (drop k frames) x)%nat.
Proof.
  induction frames as [|f frames IH]; intros [|k] x; cbn [take concat drop length]; try done.
  cbn [whole]. rewrite length_app. destruct (Nat.ltb_spec (length f + length (concat (take k frames)) + x) (length f)); [lia|].
  replace (length f + length (concat (take k frames)) + x - length f)%nat with (length (concat (take k frames)) + x)%nat by lia. rewrite IH. lia.
Qed.

(** The pieces of a stream are such that a rest never overlaps the place it is moved to: a piece that completes frames does not leave
    more than it completed. [n] bytes came before. *)
Fixpoint no_overlap (frames : list bytes) (n : nat) (chunks : list bytes) : bool :=
  match chunks with
  | [] => true
  | data :: chunks =>
      let before := whole frames n in
      let n := (n + length data)%nat in
      ((whole frames n =? before)%nat || (n - whole frames n <=? whole frames n - before)%nat) && no_overlap frames n chunks
  end.

Lemma no_overlap_drop frames k chunks : ∀ x,
  no_overlap frames (length (concat (take k frames)) + x) chunks = no_overlap (drop k frames) x chunks.
Proof.
  induction chunks as [|data chunks IH]; intros x; [done|]. cbn [no_overlap]. rewrite <- Nat.add_assoc, !whole_drop, IH. f_equal. f_equal.
  - apply eq_true_iff_eq. rewrite !Nat.eqb_eq. lia.
  - apply eq_true_iff_eq. rewrite !Nat.leb_le. lia.
Qed.

(** Whole frames, and the beginning of the next one. *)
Lemma cut_split frames : ∀ n,
  clean_cut frames n = true → (n <= length (concat frames))%nat →
  ∃ k part, take n (concat frames) = concat (take k frames) ++ part ∧ n = (length (concat (take k frames)) + length part)%nat ∧
    whole frames n = length (concat (take k frames)) ∧
    (part = [] ∨ ∃ f, frames !! k = Some f ∧ part = take (length part) f ∧ (length part < length f)%nat ∧ in_size_field f (length part) = false).
Proof.
  induction frames as [|f frames IH]; intros n Hc Hn; cbn [concat length clean_cut] in *.
  { exists 0%nat, []. rewrite take_nil. split_and!; [done|cbn; lia|done|by left]. }
  rewrite length_app in Hn. destruct (Nat.ltb_spec n (length f)) as [Hlt|Hge].
  - exists 0%nat, (take n f). rewrite take_app_le by lia. cbn [take concat app length]. rewrite length_take_le by lia.
    split_and!; [done|done|cbn [whole]; by destruct (Nat.ltb_spec n (length f)); [|lia]|]. right. exists f. split_and!; [done|done|done|by apply negb_true_iff].
  - destruct (IH (n - length f)%nat Hc ltac:(lia)) as (k & part & Ht & Hl & Hw & Hp). exists (S k), part. cbn [take concat].
    rewrite take_app_ge by done. rewrite Ht, length_app, <- app_assoc. split_and!; [done|lia| |done].
    cbn [whole]. destruct (Nat.ltb_spec n (length f)); [lia|]. by rewrite Hw.
Qed.

Section stream.
Context {CO : Codec} {CL : CodecLaws} {GR : Greetings} {EN : Environment} (cfg : peer_config).
Implicit Types (a : peer_actor) (x : body * Compression).

Definition frame_of x : bytes := match serialize x.1 x.2 with Ok frame => frame | _ => [] end.

(** Messages of a size that fits the format; [Close] ends a conversation. *)
Definition sendable x : Prop :=
  Z.of_nat (length (encode x.1)) < 2 ^ 31 ∧ Z.of_nat (length (LZ4_compress (encode x.1))) < 2 ^ 31 ∧ kind x.1 ≠ CLOSE.

(** What the controller is to see. *)
Definition for_controller (b : body) : bool :=
  match kind b with CLUSTER_CONFIG | INDEX | INDEX_UPDATE | REQUEST | RESPONSE => true | _ => false end.

Definition forwarded (xs : list (body * Compression)) : list body := filter (λ b, for_controller b = true) (fst <$> xs).

Definition forwarded_by (out : list peer_effect) : list body := out ≫= λ e, match e with ForwardMessages ms => ms | _ => [] end.

(** ** Frames *)

Lemma frame_parses_of x rest : sendable x → parse_bep (frame_of x ++ rest) = Ok (MBody x.1, Z.of_nat (length (frame_of x))).
Proof.
  intros (Hl & Hc & _). destruct (frame_parses x.1 x.2 rest Hl Hc) as (frame & Hs & Hp). unfold frame_of. by rewrite Hs.
Qed.

Lemma frame_shape x : sendable x →
  ∃ t c message_sz tail, frame_of x = be16 (Z.of_nat (length (encode_header t c))) ++ encode_header t c ++ be32 message_sz ++ tail ∧
    0 <= message_sz < 2 ^ 32 ∧ Z.of_nat (length tail) = message_sz.
Proof.
  intros (Hl & Hc & _). unfold frame_of, serialize. destruct x as [b compression]. cbn [fst snd] in *.
  set (applied := applied_compression _ _ _). pose proof (header_length (kind b) applied) as Hh.
  unfold u16, u32. rewrite (Z.mod_small (Z.of_nat (length (encode_header _ _)))) by lia. destruct applied.
  - eexists _, _, _, _. split; [done|]. rewrite Z.mod_small by lia. split; [lia|done].
  - rewrite bool_decide_eq_false_2 by apply compress_nonempty. cbn [negb assert res_bind].
    eexists _, _, _, _. split; [done|]. rewrite (Z.mod_small (_ + 4)) by lia. split; [lia|]. rewrite length_app, length_be32. lia.
Qed.

(** A frame whose payload has not arrived yet. *)
Lemma parse_bep_waits t c message_sz tail :
  0 <= message_sz < 2 ^ 32 → Z.of_nat (length tail) < message_sz →
  parse_bep (be16 (Z.of_nat (length (encode_header t c))) ++ encode_header t c ++ be32 message_sz ++ tail) = Ok nothing.
Proof.
  intros Hsz Hlen. pose proof (header_length t c) as Hh. set (hd := encode_header t c) in *. unfold parse_bep.
  rewrite !length_app, length_be16, length_be32.
  destruct (Z.ltb_spec (Z.of_nat (2 + (length hd + (4 + length tail)))) 4); [lia|].
  rewrite bool_decide_eq_false_2 by apply frame_not_magic. rewrite read16_be16 by lia. cbn [res_bind].
  destruct (Z.ltb_spec (Z.of_nat (2 + (length hd + (4 + length tail)))) (2 + Z.of_nat (length hd))); [lia|].
  change (drop 2 (be16 (Z.of_nat (length hd)) ++ hd ++ be32 message_sz ++ tail)) with (hd ++ be32 message_sz ++ tail).
  rewrite Nat2Z.id, take_app_length. unfold hd at 1. rewrite decode_encode_header. fold hd.
  replace (Z.to_nat (2 + Z.of_nat (length hd))) with (2 + length hd)%nat by lia. rewrite <- drop_drop.
  change (drop 2 (be16 (Z.of_nat (length hd)) ++ hd ++ be32 message_sz ++ tail)) with (hd ++ be32 message_sz ++ tail).
  rewrite drop_app_length, read32_be32 by done. cbn [res_bind].
  change (drop 4 (be32 message_sz ++ tail)) with tail. by destruct (Z.ltb_spec (Z.of_nat (length tail)) message_sz); [|lia].
Qed.

(** The beginning of a frame is waited on. *)
Lemma parse_partial x n : sendable x → (n < length (frame_of x))%nat → in_size_field (frame_of x) n = false → parse_bep (take n (frame_of x)) = Ok nothing.
Proof.
  intros Hx. destruct (frame_shape x Hx) as (t & c & sz & tail & -> & Hsz & Htail). pose proof (header_length t c) as Hh.
  unfold in_size_field. rewrite read16_be16 by lia. set (hd := encode_header t c) in *. rewrite !length_app, length_be16, length_be32. intros Hn Hgap.
  destruct (decide (n < 4)%nat) as [Hlt|Hge].
  { unfold parse_bep. rewrite length_take. destruct (Z.ltb_spec (Z.of_nat (n `min` length (be16 (Z.of_nat (length hd)) ++ hd ++ be32 sz ++ tail))) 4); [done|lia]. }
  rewrite take_app_ge by (rewrite length_be16; lia). rewrite length_be16.
  destruct (decide (n < 2 + length hd)%nat) as [Hlt|Hge'].
  - rewrite take_app_le by lia. unfold parse_bep. rewrite length_app, length_be16, length_take_le by lia.
    destruct (Z.ltb_spec (Z.of_nat (2 + (n - 2))) 4); [lia|]. rewrite bool_decide_eq_false_2 by apply frame_not_magic.
    rewrite read16_be16 by lia. cbn [res_bind]. by destruct (Z.ltb_spec (Z.of_nat (2 + (n - 2))) (2 + Z.of_nat (length hd))); [|lia].
  - apply andb_false_iff in Hgap as [Hgap%Z.leb_gt|Hgap%Z.ltb_ge]; [lia|].
    rewrite take_app_ge by lia. rewrite take_app_ge by (rewrite length_be32; lia). rewrite length_be32.
    apply parse_bep_waits; [done|]. rewrite length_take_le by lia. lia.
Qed.
(** ** Reading *)

(** The actor waits for data, and its controller for messages; nothing is left over. *)
Record listening a (rest : bytes) : Prop := {
  li_read : rs_io_read (pa_resources a) = 1;
  li_final : rs_finalization (pa_resources a) = 0;
  li_shutting : pa_shutting a = false;
  li_action : pa_read_action a = read_controlled_next;
  li_controller : pa_controller a = true;
  li_rx : pa_rx a = rest;
}.

Lemma forwarded_app xs ys : forwarded (xs ++ ys) = forwarded xs ++ forwarded ys.
Proof. unfold forwarded. by rewrite fmap_app, filter_app. Qed.

Lemma read_message_body m now a b messages :
  pa_read_action a = read_controlled_next → pa_controller a = true → kind b ≠ CLOSE →
  read_message cfg m now a (MBody b) messages = Ok (a, messages ++ (if for_controller b then [b] else []), true).
Proof.
  intros Ha Hc Hk. unfold read_message. rewrite Ha. cbn [read_controlled]. unfold for_controller. destruct (kind_framed b) as [Hh Hu].
  destruct (kind b); rewrite ?Hc, ?app_nil_r; done.
Qed.

Lemma frame_nonempty x : sendable x → frame_of x ≠ [].
Proof. intros Hx. destruct (frame_shape x Hx) as (t & c & sz & tail & -> & _). done. Qed.

(** The loop takes the whole frames, and leaves the beginning of the next one. *)
Lemma parse_loop_frames m now a part xs : ∀ fuel messages next,
  pa_read_action a = read_controlled_next → pa_controller a = true → Forall sendable xs →
  (part = [] ∨ parse_bep part = Ok nothing) → (length (concat (frame_of <$> xs)) + length part <= fuel)%nat →
  parse_loop cfg fuel m now a (concat (frame_of <$> xs) ++ part) messages next =
    Ok (a, Some (part, messages ++ forwarded xs, match xs with [] => next | _ => true end)).
Proof.
  induction xs as [|x xs IH]; intros fuel messages next Ha Hc Hxs Hpart Hf.
  - cbn [fmap list_fmap concat app]. rewrite app_nil_r. destruct part as [|y part]; [by destruct fuel|].
    destruct fuel as [|fuel]; [cbn in Hf; lia|]. cbn [parse_loop]. destruct Hpart as [|Hp]; [done|]. by rewrite Hp.
  - apply Forall_cons in Hxs as [Hx Hxs]. cbn [fmap list_fmap concat] in *. rewrite length_app in Hf. pose proof (frame_nonempty x Hx) as Hne.
    assert (0 < length (frame_of x))%nat as Hpos by (destruct (frame_of x); [done|cbn; lia]).
    destruct fuel as [|fuel]; [lia|]. rewrite <- app_assoc. set (rest := concat (frame_of <$> xs) ++ part).
    assert (∃ y l, frame_of x ++ rest = y :: l) as (y & l & Hyl) by (destruct (frame_of x); [done|by eexists _, _]).
    rewrite Hyl. cbn [parse_loop]. rewrite <- Hyl, (frame_parses_of x rest Hx).
    destruct (Z.eqb_spec (Z.of_nat (length (frame_of x))) 0); [lia|]. rewrite Nat2Z.id, drop_app_length.
    rewrite read_message_body by (done || apply Hx). cbn [res_bind]. unfold rest.
    rewrite IH by (done || lia). rewrite <- app_assoc. f_equal. f_equal. f_equal. f_equal; [f_equal|by destruct xs].
    unfold forwarded. cbn [fmap list_fmap]. rewrite filter_cons. destruct (for_controller x.1); by repeat case_decide.
Qed.

Lemma forwarded_by_app out out' : forwarded_by (out ++ out') = forwarded_by out ++ forwarded_by out'.
Proof. apply bind_app. Qed.

(** A piece that completes some frames. *)
Lemma on_read_frames m now a rest data xs part :
  listening a rest → rest ++ data = concat (frame_of <$> xs) ++ part → Forall sendable xs → (part = [] ∨ parse_bep part = Ok nothing) →
  Z.of_nat (length part) < pc_rx_buff_size cfg → xs = [] ∨ (length part <= length (concat (frame_of <$> xs)))%nat →
  ∃ a', on_read cfg m now a data = Ok a' ∧ listening a' part ∧ forwarded_by (pa_out a') = forwarded_by (pa_out a) ++ forwarded xs.
Proof.
  intros [Hr Hf Hsh Ha Hc Hrx] Hd Hxs Hpart Hroom Hmove. unfold on_read. rewrite release_Ok by (cbn; lia). cbn [res_bind].
  set (a1 := set_traffic _ _ _). assert (pa_rx a1 = concat (frame_of <$> xs) ++ part) as Hrx1 by (unfold a1; cbn; by rewrite Hrx).
  rewrite Hrx1. rewrite (parse_loop_frames m now a1 part xs) by (done || (rewrite length_app; lia)). cbn [res_bind app].
  replace (match xs with [] => true | _ => true end) with true by (by destruct xs).
  assert (move_rest (pa_rx a1) part = Ok ()) as ->.
  { unfold move_rest. rewrite Hrx1, length_app. replace (length (concat (frame_of <$> xs)) + length part - length part)%nat with (length (concat (frame_of <$> xs))) by lia.
    destruct Hmove as [->|Hle]; [done|]. destruct (Nat.leb_spec (length part) (length (concat (frame_of <$> xs)))); [|lia]. by rewrite orb_true_r. }
  cbn [res_bind].
  unfold has, a1. cbn. rewrite Hf. cbn. unfold read_more, has. cbn. rewrite Hr. cbn. rewrite Hsh. cbn.
  destruct (Z.leb_spec (pc_rx_buff_size cfg) (Z.of_nat (length part))); [lia|]. cbn [res_bind]. eexists. split; [done|].
  case_bool_decide as Hne; cbn; rewrite ?Hc; cbn; (split; [by split|]); rewrite !forwarded_by_app; cbn; rewrite ?app_nil_r; [done|].
  by rewrite Hne, app_nil_r.
Qed.

Lemma whole_empty xs k : Forall sendable (drop k xs) → whole (drop k (frame_of <$> xs)) 0 = 0%nat.
Proof.
  rewrite <- fmap_drop. intros Hx. destruct (drop k xs) as [|x l]; [done|]. apply Forall_cons in Hx as [Hx _]. cbn [fmap list_fmap whole].
  pose proof (frame_nonempty x Hx). by destruct (frame_of x).
Qed.

Fixpoint read_all (m : model) (now : Z) a (chunks : list bytes) : res peer_actor :=
  match chunks with
  | [] => Ok a
  | data :: chunks => let* a := on_read cfg m now a data in read_all m now a chunks
  end.

Lemma read_all_frames m now chunks : ∀ a rest xs,
  listening a rest → Forall sendable xs → rest ++ concat chunks = concat (frame_of <$> xs) →
  (∀ j, clean_cut (frame_of <$> xs) (length rest + length (concat (take j chunks))) = true) →
  Forall (λ x, Z.of_nat (length (frame_of x)) <= pc_rx_buff_size cfg) xs → 0 < pc_rx_buff_size cfg → (chunks = [] → rest = []) →
  whole (frame_of <$> xs) (length rest) = 0%nat → no_overlap (frame_of <$> xs) (length rest) chunks = true →
  ∃ a', read_all m now a chunks = Ok a' ∧ listening a' [] ∧ forwarded_by (pa_out a') = forwarded_by (pa_out a) ++ forwarded xs.
Proof.
  induction chunks as [|data chunks IH]; intros a rest xs Hli Hxs Hcat Hcut Hfit Hbuf Hend Hz Hno.
  - rewrite (Hend eq_refl) in *. exists a. split_and!; [done|done|]. destruct xs as [|x xs]; [by rewrite app_nil_r|].
    apply Forall_cons in Hxs as [Hx _]. exfalso. apply (frame_nonempty x Hx). cbn in Hcat. symmetry in Hcat. by apply app_eq_nil in Hcat as [? _].
  - cbn [read_all concat] in *.
    destruct (cut_split (frame_of <$> xs) (length rest + length data)) as (k & part & Ht & Hl & Hw & Hp).
    { specialize (Hcut 1%nat). cbn [take concat] in Hcut. by rewrite app_nil_r in Hcut. }
    { rewrite <- Hcat, !length_app. lia. }
    cbn [no_overlap] in Hno. apply andb_true_iff in Hno as [Hov Hno]. rewrite Hw, Hz, Nat.sub_0_r in Hov. rewrite Hl in Hno.
    rewrite <- fmap_take in Ht, Hl, Hov. rewrite <- Hcat, app_assoc, take_app_le, firstn_all2 in Ht by (rewrite length_app; lia).
    assert (Forall sendable (take k xs) ∧ Forall sendable (drop k xs)) as [Hx1 Hx2] by (by apply Forall_app; rewrite take_drop).
    assert (Forall (λ x, Z.of_nat (length (frame_of x)) <= pc_rx_buff_size cfg) (drop k xs)) as Hfit2 by (by apply Forall_drop).
    assert ((part = [] ∨ parse_bep part = Ok nothing) ∧ Z.of_nat (length part) < pc_rx_buff_size cfg) as [Hpart Hroom].
    { destruct Hp as [->|(f & Hf & Hpf & Hlt & Hgap)]; [split; [by left|done]|]. rewrite list_lookup_fmap in Hf.
      destruct (xs !! k) as [x|] eqn:Hx; [|done]. injection Hf as <-. pose proof (Forall_lookup_1 _ _ _ _ Hfit Hx) as Hfx.
      cbn in Hfx. split; [|lia]. right. rewrite Hpf. apply parse_partial; [by apply (Forall_lookup_1 _ _ _ _ Hxs Hx)|done|done]. }
    assert (take k xs = [] ∨ (length part <= length (concat (frame_of <$> take k xs)))%nat) as Hmove.
    { apply orb_true_iff in Hov as [Hov%Nat.eqb_eq|Hov%Nat.leb_le]; [left|right; lia]. destruct (take k xs) as [|x l]; [done|].
      apply Forall_cons in Hx1 as [Hx _]. cbn in Hov. rewrite length_app in Hov. pose proof (frame_nonempty x Hx). destruct (frame_of x); [done|]. cbn in Hov. lia. }
    destruct (on_read_frames m now a rest data (take k xs) part Hli Ht Hx1 Hpart Hroom Hmove) as (a1 & -> & Hli1 & Ho1). cbn [res_bind].
    assert (concat (frame_of <$> xs) = concat (frame_of <$> take k xs) ++ concat (frame_of <$> drop k xs)) as Hsplit
      by (rewrite <- concat_app, <- fmap_app; by rewrite take_drop).
    assert (part ++ concat chunks = concat (frame_of <$> drop k xs)) as Hcat'.
    { rewrite Hsplit in Hcat. rewrite app_assoc, Ht, <- app_assoc in Hcat. by apply app_inv_head in Hcat. }
    destruct (IH a1 part (drop k xs) Hli1 Hx2 Hcat') as (a2 & -> & Hli2 & Ho2); [|done|done| | | |].
    + intros j. specialize (Hcut (S j)). cbn [take concat] in Hcut. rewrite length_app in Hcut.
      rewrite fmap_drop, <- clean_cut_drop, <- fmap_take, <- Hcut. f_equal. lia.
    + intros ->. cbn in Hcat'. rewrite app_nil_r in Hcat'. destruct Hp as [|(f & Hf & Hpf & Hlt & _)]; [done|].
      rewrite list_lookup_fmap in Hf. destruct (xs !! k) as [x|] eqn:Hx; [|done]. injection Hf as <-.
      rewrite (drop_S _ _ _ Hx) in Hcat'. cbn in Hcat'. rewrite Hcat' in Hlt. rewrite length_app in Hlt. lia.
    + rewrite fmap_drop. destruct Hp as [->|(f & Hf & _ & Hlt & _)]; [apply (whole_empty xs k Hx2)|]. rewrite (drop_S _ _ _ Hf). cbn [whole].
      by destruct (Nat.ltb_spec (length part) (length f)); [|lia].
    + by rewrite fmap_drop, <- no_overlap_drop.
    + exists a2. split_and!; [done|done|]. rewrite Ho2, Ho1, <- app_assoc. f_equal. rewrite <- forwarded_app. by rewrite take_drop.
Qed.

(** C16: a stream of messages, none of them [Close] and each fitting the buffer, is understood in whatever pieces it arrives, as long as no piece
    ends within the size field of a frame, and none that completes frames leaves more than it completed (the rest would overlap the place it
    is copied to): the controller gets the messages, in their order and each once, without those that are not for it, and at the end nothing is
    left over and the actor reads on. *)
Theorem read_in_any_pieces m now a xs chunks :
  listening a [] → Forall sendable xs → concat chunks = concat (frame_of <$> xs) →
  (∀ j, clean_cut (frame_of <$> xs) (length (concat (take j chunks))) = true) →
  Forall (λ x, Z.of_nat (length (frame_of x)) <= pc_rx_buff_size cfg) xs → 0 < pc_rx_buff_size cfg → no_overlap (frame_of <$> xs) 0 chunks = true →
  ∃ a', read_all m now a chunks = Ok a' ∧ listening a' [] ∧ forwarded_by (pa_out a') = forwarded_by (pa_out a) ++ forwarded xs.
Proof. intros Hli Hxs Hcat Hcut Hfit Hbuf Hno. apply (read_all_frames m now chunks a [] xs); try done. by apply (whole_empty xs 0). Qed.
End stream.

(** ** Two messages in three pieces *)

#[local] Existing Instance sample_codec.
#[local] Existing Instance sample_laws.
#[local] Existing Instance r_environment.

#[local] Instance p_greetings : Greetings := {|
  hello_device_name := λ h, h; hello_client_name := λ _, []; hello_client_version := λ _, []; close_message := λ r, (true, r);
|}.

Definition p_config : peer_config :=
  mkPeerConfig 100 1000 1000 900 (DeviceId.DeviceId [9] (prefix_device :: repeat 9 32)) (mkUri (chars "tcp://h:7") (chars "tcp") 7) (chars "h:7").

Definition p_listening : peer_actor :=
  acquire (set_link (set_rx (new_peer (mkState 9 connected None)) [] read_controlled_next []) true 0) io_read.

Definition p_messages : list (body * Compression) := [((true, [1; 2]), NEVER); ((false, [3; 4; 5]), NEVER)].
Definition p_pieces : list bytes := [[0; 2; 4]; [0; 0; 0; 0; 2; 1; 2; 0; 2; 1; 0; 0; 0; 0; 3; 3]; [4; 5]].

Example read_in_any_pieces_witness :
  ∃ a', read_all p_config r_model 0 p_listening p_pieces = Ok a' ∧ listening a' [] ∧
    forwarded_by (pa_out a') = [(true, [1; 2]); (false, [3; 4; 5])].
Proof.
  apply (read_in_any_pieces (GR := p_greetings) p_config r_model 0 p_listening p_messages p_pieces).
  - by split.
  - repeat constructor; cbn; lia || done.
  - vm_compute. reflexivity.
  - intros [|[|[|[|j]]]]; vm_compute; try reflexivity.
  - repeat constructor; vm_compute; done.
  - cbn. lia.
  - vm_compute. reflexivity.
Defined.

(** A greeting that is followed by more in the same piece is not seen ([Bep.hello_only_alone]): nothing is consumed, and what comes then only
    fills the buffer, until it is full. *)
Example greeting_with_more :
  let a := acquire (new_peer (mkState 9 connected None)) io_read in
  ∃ a', on_read p_config r_model 0 a (make_hello_message (chars "me") ++ [0; 2]) = Ok a' ∧ pa_rx a' = make_hello_message (chars "me") ++ [0; 2] ∧
    pa_out a' = [AsyncRecv 90] ∧
    ∃ a'', on_read p_config r_model 0 a' (repeat 0 90) = Ok a'' ∧ pa_out a'' = [AsyncRecv 90; AskShutdown RxLimitReached].
Proof. eexists. split; [vm_compute; reflexivity|]. split_and!; [reflexivity|reflexivity|]. eexists. split; [vm_compute; reflexivity|reflexivity]. Qed.

(** A frame and most of the next one in a piece: what is left is longer than what was taken, and is copied over itself. *)
Example overlapping_rest :
  on_read p_config r_model 0 p_listening ([0; 2; 4; 0; 0; 0; 0; 2; 1; 2] ++ [0; 2; 1; 0; 0; 0; 0; 20] ++ repeat 3 10) = Ub.
Proof. vm_compute. reflexivity. Qed.
