(* ===== verification/PeerRun.v ===== *)
(** * PeerRun: whole connections of a [PeerActor]: what is written is what was handed over, in its order; what is read is cut into
    the messages that were sent, wherever the network cuts the stream; and when a connection counts as dead. *)

From S2P Require Import Prelude Diff Version Proto DeviceId Device Path GenericMap Folder Cluster Changes Trees Wire Bep Removal PeerActor PeerFrame PeerStream.

Section runs.
Context `{Greetings} `{Environment} (cfg : peer_config).
Implicit Types (a : peer_actor).

(** ** Writing *)

(** A run: events that may happen, each with the cluster and the time it meets. *)
Inductive peer_run : peer_actor → list (model * Z * peer_event) → peer_actor → Prop :=
| peer_run_nil a : peer_run a [] a
| peer_run_cons a m now ev a1 evs a2 :
    peer_enabled a ev → peer_handle cfg m now a ev = Ok a1 → peer_run a1 evs a2 → peer_run a ((m, now, ev) :: evs) a2.

(** What is handed over to be written, as long as the connection is not [broken]. *)
Fixpoint handed (broken : bool) (evs : list (model * Z * peer_event)) : bytes :=
  match evs with
  | [] => []
  | (_, _, ev) :: evs =>
      match ev with
      | PStart greeting => (if broken then [] else make_hello_message greeting) ++ handed broken evs
      | PTransfer data => (if broken then [] else data) ++ handed broken evs
      | PFailed _ => handed true evs
      | _ => handed broken evs
      end
  end.

Definition goes_on (ev : peer_event) : Prop := match ev with PShutdown _ => False | _ => True end.

Definition is_read (ev : peer_event) : bool := match ev with PRead _ => true | _ => false end.

(** Every event but a read goes through; what it adds to the bytes is what is handed over. *)
Lemma peer_handle_keeps m now a ev :
  peer_ok a → peer_enabled a ev → is_read ev = false → goes_on ev →
  ∃ a', peer_handle cfg m now a ev = Ok a' ∧ peer_ok a' ∧
    sent_by (pa_out a') ++ waiting a' = sent_by (pa_out a) ++ waiting a ++ handed (pa_io_error a) [(m, now, ev)] ∧
    pa_io_error a' = match ev with PFailed _ => true | _ => pa_io_error a end.
Proof.
  intros Hok Hev Hr Hgo. assert (∀ a', same_io a a' → keeps a [] (Ok a')) as Hsame by (intros a' Hs; by apply keeps_same).
  destruct ev as [g|data|sz|k| | |data|me n|n|me|r|]; cbn [peer_handle handed] in *; try done; rewrite ?app_nil_r.
  - by apply on_peer_start_ok.
  - destruct (on_write_ok cfg a sz Hok Hev) as (a' & He & Hok' & Hs & Hio). exists a'. by rewrite Hs, app_nil_r.
  - destruct Hev as [Hk Hone]. by apply on_io_error_ok.
  - destruct (on_ping_timeout_ok cfg a false Hok Hev) as (a' & He & Hok' & Hs & Hio). exists a'. by rewrite Hs, app_nil_r.
  - destruct (on_stats_timeout_ok cfg a Hok Hev) as (a' & He & Hok' & Hs & Hio). exists a'. by rewrite Hs, app_nil_r.
  - destruct (push_write_ok a data false Hok ltac:(done)) as (a' & He & Hok' & Hs & _ & Hio & _). exists a'. by rewrite Hs.
  - destruct (Hsame (peer_controller_up a me n)) as (a' & He & Hok' & Hs & Hio); [|exists a'; by rewrite Hs, app_nil_r].
    unfold peer_controller_up. destruct me; [|done]. case_bool_decide; [|done].
    apply (same_io_trans _ (set_rx (set_link a true n) (pa_rx a) (pa_read_action a) [])); [done|by apply say_same].
  - destruct (Hsame (set_link a (pa_controller a) n)) as (a' & He & Hok' & Hs & Hio); [done|]. exists a'. by rewrite Hs, app_nil_r.
  - destruct (Hsame (peer_controller_predown a me)) as (a' & He & Hok' & Hs & Hio); [|exists a'; by rewrite Hs, app_nil_r].
    unfold peer_controller_predown. destruct (_ && _); [by apply say_same|done].
  - destruct (peer_shutdown_finish_ok cfg m now a Hok) as (a' & He & Hok' & Hs & Hio). exists a'. by rewrite Hs, app_nil_r.
Qed.

Lemma handed_cons broken x evs :
  handed broken (x :: evs) = handed broken [x] ++ handed (match x.2 with PFailed _ => true | _ => broken end) evs.
Proof. destruct x as [[m now] []]; cbn [handed snd]; rewrite ?app_nil_r; done. Qed.

Lemma new_peer_ok st : peer_ok (new_peer st).
Proof. by split. Qed.

Lemma peer_run_keeps a evs a' :
  peer_run a evs a' → peer_ok a → Forall (λ x, goes_on x.2) evs →
  peer_ok a' ∧ sent_by (pa_out a') ++ waiting a' = sent_by (pa_out a) ++ waiting a ++ handed (pa_io_error a) evs.
Proof.
  induction 1 as [a|a m now ev a1 evs a2 Hen Hh _ IH]; intros Hok Hgo; [split; [done|by rewrite app_nil_r]|].
  apply Forall_cons in Hgo as [Hgo Hgos]. rewrite handed_cons. cbn [snd].
  assert (peer_ok a1 ∧ sent_by (pa_out a1) ++ waiting a1 = sent_by (pa_out a) ++ waiting a ++ handed (pa_io_error a) [(m, now, ev)] ∧
    pa_io_error a1 = match ev with PFailed _ => true | _ => pa_io_error a end) as (Hok1 & Hs1 & Hio1).
  { destruct (is_read ev) eqn:Hr.
    - destruct ev as [|data| | | | | | | | | |]; try done. destruct (on_read_keeps cfg m now a data a1 Hok Hen Hh) as (? & Hs & ?).
      cbn [handed]. rewrite app_nil_r. done.
    - destruct (peer_handle_keeps m now a ev Hok Hen Hr Hgo) as (b & Hb & Hrest). rewrite Hb in Hh. by injection Hh as <-. }
  destruct (IH Hok1 Hgos) as [Hok2 Hs2]. split; [done|]. rewrite Hs2, app_assoc, Hs1, Hio1. by rewrite <- !app_assoc.
Qed.

(** C17: over any run of events before the shutdown, the bytes that went to the transport, followed by those that wait, are those
    that were handed over until the connection failed, in their order, from the greeting on; there is at most one read and
    one write under way; while bytes wait, a write is under way or the connection has failed or sends its last
    message; and whatever happens next trips no assertion, the arrival of data apart, which a bad frame can make undefined. *)
Theorem written_in_order st evs a' :
  peer_run (new_peer st) evs a' → Forall (λ x, goes_on x.2) evs →
  sent_by (pa_out a') ++ waiting a' = handed false evs ∧
  rs_io_read (pa_resources a') <= 1 ∧ rs_io_write (pa_resources a') <= 1 ∧
  (waiting a' ≠ [] → rs_io_write (pa_resources a') = 1 ∨ pa_io_error a' = true ∨ ∃ item, pa_tx_item a' = Some item ∧ ti_final item = true) ∧
  ∀ m now ev, peer_enabled a' ev → is_read ev = false → goes_on ev → ∃ a2, peer_handle cfg m now a' ev = Ok a2.
Proof.
  intros Hrun Hgo. destruct (peer_run_keeps _ _ _ Hrun (new_peer_ok st) Hgo) as [Hok Hs]. split_and!.
  - done.
  - apply Hok.
  - apply Hok.
  - intros Hw. destruct (pa_tx_item a') as [item|] eqn:Hitem; [|unfold waiting in Hw; by rewrite (po_idle _ Hok Hitem) in Hw].
    pose proof (po_write _ Hok). destruct (decide (rs_io_write (pa_resources a') = 1)) as [|Hne]; [by left|].
    destruct (po_last _ Hok item Hitem ltac:(lia)); eauto.
  - intros m now ev Hev Hr Hg. destruct (peer_handle_keeps m now a' ev Hok Hev Hr Hg) as (a2 & Ha2 & _). eauto.
Qed.

(** ** Connections without traffic *)

(** Once both directions have been used, the timer that looks for inactivity finds them used for ever: it sets the marks it should clear.
    It is started again each time it goes off, and the connection is kept. *)
Lemma inactivity_unnoticed n : ∀ a,
  peer_ok a → pa_ping a = true → pa_shutting a = false → rs_finalization (pa_resources a) = 0 → pa_had_writes a = true → pa_had_reads a = true →
  ∃ a', Nat.iter n (λ r, let* a := r in on_ping_timeout cfg a false) (Ok a) = Ok a' ∧
    pa_out a' = pa_out a ++ repeat (StartPing (pc_ping_timeout cfg)) n ∧ pa_ping a' = true.
Proof.
  intros a Hok Hp Hsh Hf Hw Hr. cut (∃ a', Nat.iter n (λ r, let* a := r in on_ping_timeout cfg a false) (Ok a) = Ok a' ∧
    pa_out a' = pa_out a ++ repeat (StartPing (pc_ping_timeout cfg)) n ∧ pa_ping a' = true ∧ rs_ping_timer (pa_resources a') = 1 ∧
    pa_shutting a' = false ∧ rs_finalization (pa_resources a') = 0 ∧ pa_had_writes a' = true ∧ pa_had_reads a' = true).
  { intros (a' & ? & ? & ? & _). eauto. }
  induction n as [|n (a1 & IH & Ho & Hp1 & Hc1 & Hsh1 & Hf1 & Hw1 & Hr1)].
  - exists a. pose proof (po_ping _ Hok) as Hc. rewrite Hp in Hc. rewrite app_nil_r. by split_and!.
  - rewrite Nat.iter_succ, IH. cbn [res_bind]. unfold on_ping_timeout. rewrite release_Ok by (cbn; lia). cbn [res_bind]. unfold has. cbn.
    rewrite Hf1, Hw1, Hr1. cbn. unfold reset_ping_timer. cbn. rewrite Hsh1. cbn. eexists. split; [done|]. cbn. rewrite ?Ho, ?Hc1, ?Hsh1, ?Hf1.
    split_and!; try done. rewrite <- app_assoc. f_equal. clear. induction n as [|n IH]; [done|]. cbn. by rewrite IH.
Qed.
End runs.

(** ** A connection *)

#[local] Existing Instance sample_codec.
#[local] Existing Instance r_environment.
#[local] Existing Instance p_greetings.

Definition q_events : list (model * Z * peer_event) :=
  (λ ev, (r_model, 0, ev)) <$> [PStart (chars "me"); PTransfer [1]; PTransfer [2; 3]; PWritten 8; PTransfer [4]].

Fixpoint q_run (a : peer_actor) (evs : list (model * Z * peer_event)) : res peer_actor :=
  match evs with
  | [] => Ok a
  | (m, now, ev) :: evs => let* a := peer_handle p_config m now a ev in q_run a evs
  end.

Definition q_start : peer_actor := new_peer (mkState 9 connected None).
Definition q_end : peer_actor := match q_run q_start q_events with Ok a => a | _ => q_start end.

(** The greeting is being written while two pieces of data come, which are put together; then they are written, and the next one waits. *)
Example written_in_order_witness :
  sent_by (pa_out q_end) = make_hello_message (chars "me") ++ [1; 2; 3] ∧ waiting q_end = [4] ∧
  sent_by (pa_out q_end) ++ waiting q_end = handed false q_events.
Proof.
  split; [vm_compute; reflexivity|]. split; [vm_compute; reflexivity|].
  apply (written_in_order p_config (mkState 9 connected None) q_events q_end).
  - repeat (eapply peer_run_cons; [vm_compute; try done; by split_and!|vm_compute; reflexivity|]). vm_compute. apply peer_run_nil.
  - by repeat constructor.
Defined.

(** A peer that never answers is dropped the second time the timer goes off; one that answered once is not dropped any more. *)
Example silence :
  let quiet := q_run q_start ((λ ev, (r_model, 0, ev)) <$> [PStart (chars "me"); PWritten 8; PPing; PPing]) in
  let once := q_run q_start ((λ ev, (r_model, 0, ev)) <$> [PStart (chars "me"); PWritten 8; PRead (make_hello_message (chars "you")); PPing; PPing; PPing; PPing]) in
  (let* a := quiet in Ok (drop 4 (pa_out a))) = Ok [StartPing 1000; CancelTransport] ∧
  (let* a := once in Ok (drop 6 (pa_out a))) = Ok (repeat (StartPing 1000) 4).
Proof. vm_compute. done. Qed.
