(* ===== verification/Dns.v ===== *)
(** * Dns: [src/utils/dns.cpp] and [src/net/resolver_actor.cpp], names of hosts into addresses. Requests wait in a queue; one query is
    under way at a time, and its answer is for all requests with the same host. The library c-ares and the parser of
    addresses enter by the class [Ares]; the socket calls back once for each operation, a timer that is cancelled calls
    its handler at once. *)

From S2P Require Import Prelude Resolver.

(** What kind of data a record holds: an address, raw bytes or something else. *)
Inductive rr_data := rr_inaddr | rr_bin (data : bytes) | rr_other.

(** A reply as [ares_dns_parse] gives it: how many questions it repeats, the name in the first one (when it can be read), and
    the data of its answers. *)
Record dns_reply := mkReply { dr_query_count : Z; dr_queried_name : option bytes; dr_answers : list (list rr_data) }.

(** [make_address] of asio; the addresses of a host in the hosts file, as texts; whether a record with a query
    can be made, and the query ready to be sent; a reply; the address in four bytes. *)
Class Ares := {
  address : Type;
  make_address : bytes → option address;
  hosts_file : bytes → option (list bytes);
  make_record : bytes → bool;
  write_query : bytes → option bytes;
  dns_parse : bytes → option dns_reply;
  address_v4 : bytes → address;
}.

(** ** Servers: [parse_dns_servers] *)

Definition comma : Z := 44.
Definition colon : Z := 58.
Definition bracket_open : Z := 91.
Definition bracket_close : Z := 93.

(** The loop over the commas. *)
Fixpoint split_commas (acc s : bytes) : list bytes :=
  match s with
  | [] => [acc]
  | c :: s => if c =? comma then acc :: split_commas [] s else split_commas (acc ++ [c]) s
  end.

(** [std::from_chars] on the digits at the front, into 16 bits. *)
Fixpoint port_digits (s : bytes) : bytes :=
  match s with
  | c :: s => if (48 <=? c) && (c <=? 57) then c :: port_digits s else []
  | [] => []
  end.

Definition decimal_value (s : bytes) : Z := fold_left (λ n c, 10 * n + (c - 48)) s 0.

Definition parse_port (s : bytes) : Z :=
  let d := port_digits s in
  if bool_decide (d = []) || (65535 <? decimal_value d) then 53 else decimal_value d.

(** One entry of the list; without a valid address it is left out. A closing bracket moves the ends of the address. *)
Definition parse_dns_server `{Ares} (full_addr : bytes) : option (address * Z) :=
  let split := split_last colon full_addr in
  let ip_str :=
    match full_addr with
    | c :: inner =>
        if c =? bracket_open then
          match split_last bracket_close full_addr with
          | Some (before, _) => take (length before - 1) inner
          | None => match split with Some (before, _) => before | None => full_addr end
          end
        else match split with Some (before, _) => before | None => full_addr end
    | [] => full_addr
    end in
  match make_address ip_str with
  | None => None
  | Some ip => Some (ip, match split with Some (_, port) => parse_port port | None => 53 end)
  end.

Definition parse_dns_servers `{Ares} (str : bytes) : list (address * Z) := omap parse_dns_server (split_commas [] str).

(** ** The actor *)

(** A request, known by its number and its sender. *)
Record dns_request := mkDnsRequest { rq_id : Z; rq_origin : Z; rq_host : bytes }.

#[export] Instance dns_request_eq_dec : EqDecision dns_request.
Proof. solve_decision. Defined.

Inductive dns_error := cares_failure | request_timeout | request_cancelled | socket_error (code : Z).

Inductive dns_effect `{Ares} :=
| DnsReply (rq : dns_request) (results : list address)
| DnsError (rq : dns_request) (ec : dns_error)
| DnsReceive
| DnsSend (query : bytes)
| DnsStartTimer
| DnsCancelSocket.

(** [rv_tx_buff] says whether the query is still in memory; [rv_recv], [rv_send] and [rv_timer] are the resources, of which each is
    held at most once; [rv_timer_id] whether [timer_id] is set. *)
Record resolver `{Ares} := mkResolver {
  rv_queue : list dns_request;
  rv_cache : gmap bytes (list address);
  rv_current : option dns_request;
  rv_tx_buff : bool;
  rv_recv : bool;
  rv_send : bool;
  rv_timer : bool;
  rv_timer_id : bool;
  rv_out : list dns_effect;
}.

Arguments mkResolver {_}.
Arguments DnsReply {_}.
Arguments DnsError {_}.
Arguments DnsReceive {_}.
Arguments DnsSend {_}.
Arguments DnsStartTimer {_}.
Arguments DnsCancelSocket {_}.

Section actor.
Context `{Ares}.
Implicit Types (s : resolver).

Definition set_queue s (q : list dns_request) (out : list dns_effect) : resolver :=
  mkResolver q (rv_cache s) (rv_current s) (rv_tx_buff s) (rv_recv s) (rv_send s) (rv_timer s) (rv_timer_id s) (rv_out s ++ out).

Definition dns_say s (e : dns_effect) : resolver := set_queue s (rv_queue s) [e].

Definition set_cache s (cache : gmap bytes (list address)) (current : option dns_request) : resolver :=
  mkResolver (rv_queue s) cache current (rv_tx_buff s) (rv_recv s) (rv_send s) (rv_timer s) (rv_timer_id s) (rv_out s).

Definition set_held s (tx_buff recv send timer timer_id : bool) : resolver :=
  mkResolver (rv_queue s) (rv_cache s) (rv_current s) tx_buff recv send timer timer_id (rv_out s).

(** [reply]: to every request for the host, which leave the queue. *)
Definition asked_for (host : bytes) (q : list dns_request) : list dns_request := filter (λ rq, rq_host rq = host) q.
Definition others_than (host : bytes) (q : list dns_request) : list dns_request := filter (λ rq, rq_host rq ≠ host) q.

Definition reply_all s (host : bytes) (answer : dns_request → dns_effect) : resolver :=
  set_queue s (others_than host (rv_queue s)) (answer <$> asked_for host (rv_queue s)).

(** [mass_reply], of addresses and of an error. *)
Definition mass_reply s (host : bytes) (results : list address) : resolver :=
  let s := reply_all s host (λ rq, DnsReply rq results) in
  set_cache s (<[host := results]> (rv_cache s)) None.

Definition mass_error s (host : bytes) (ec : dns_error) : resolver := reply_all s host (λ rq, DnsError rq ec).

(** [resolve_as_ip]: an address in brackets or not. *)
Definition as_ip (host : bytes) : option address :=
  let inner :=
    match host with
    | c :: rest =>
        if c =? bracket_open then
          match split_last bracket_close host with Some (before, _) => take (length before - 1) rest | None => host end
        else host
    | [] => host
    end in
  make_address inner.

(** [resolve_locally]. An address of the hosts file that is not understood is looked at again and again: the pointer is not
    advanced. *)
Fixpoint local_addresses (texts : list bytes) : res (list address) :=
  match texts with
  | [] => Ok []
  | text :: texts =>
      match make_address text with
      | None => Ub
      | Some ip => let* ips := local_addresses texts in Ok (ip :: ips)
      end
  end.

Definition resolve_locally (host : bytes) : res (option (list address)) :=
  match hosts_file host with
  | None => Ok None
  | Some texts => let* results := local_addresses texts in Ok (if bool_decide (texts = []) then None else Some results)
  end.

(** The part of [resolve_start] that sends the query of the request at the front. *)
Definition send_query s (rq : dns_request) : res resolver :=
  let failed := set_queue s (tail (rv_queue s)) [DnsError rq cares_failure] in
  if negb (make_record (rq_host rq)) then Ok failed
  else
    let* _ := assert (negb (rv_tx_buff s)) in
    match write_query (rq_host rq) with
    | None => Ok failed
    | Some query =>
        let s := dns_say (set_held s true true true true true) DnsReceive in
        let s := dns_say (dns_say s (DnsSend query)) DnsStartTimer in
        Ok (set_cache s (rv_cache s) (Some rq))
    end.

Definition has_any s : bool := rv_recv s || rv_send s || rv_timer s.

(** [process] and [resolve_start]: every round answers a request. *)
Fixpoint dns_process (fuel : nat) s : res resolver :=
  if rv_recv s || rv_send s then Ok s
  else
    match rv_queue s with
    | [] => Ok s
    | rq :: _ =>
        match fuel with
        | O => Ub
        | S fuel =>
            let host := rq_host rq in
            match rv_cache s !! host with
            | Some results => dns_process fuel (mass_reply s host results)
            | None =>
                if has_any s then Ok s
                else
                  match as_ip host with
                  | Some ip => dns_process fuel (mass_reply s host [ip])
                  | None =>
                      let* local := resolve_locally host in
                      match local with
                      | Some results => dns_process fuel (mass_reply s host results)
                      | None => send_query s rq
                      end
                  end
            end
        end
    end.

Definition dns_process_all s : res resolver := dns_process (length (rv_queue s)) s.

(** [on_timer]. *)
Definition on_dns_timer s (cancelled : bool) : res resolver :=
  let* _ := assert (rv_timer s) in
  let s := set_held s (rv_tx_buff s) (rv_recv s) (rv_send s) false (rv_timer_id s) in
  let s :=
    if cancelled then if rv_recv s || rv_send s then dns_say s DnsCancelSocket else s
    else
      match rv_queue s, rv_current s with
      | _ :: _, Some rq => dns_say (mass_error s (rq_host rq) request_timeout) DnsCancelSocket
      | _, _ => s
      end in
  dns_process_all (set_held s (rv_tx_buff s) (rv_recv s) (rv_send s) (rv_timer s) false).

Definition cancel_dns_timer s : res resolver := if rv_timer_id s then on_dns_timer s true else Ok s.

Definition on_dns_request s (rq : dns_request) : res resolver := dns_process_all (set_queue s (rv_queue s ++ [rq]) []).

(** [on_cancel]: a request that waits is looked for by its number and its sender. *)
Definition same_request (id origin : Z) (rq : dns_request) : bool := (rq_id rq =? id) && (rq_origin rq =? origin).

Fixpoint erase_request (id origin : Z) (q : list dns_request) : option (dns_request * list dns_request) :=
  match q with
  | [] => None
  | rq :: q =>
      if same_request id origin rq then Some (rq, q)
      else match erase_request id origin q with Some (found, rest) => Some (found, rq :: rest) | None => None end
  end.

Definition on_cancel s (id origin : Z) : res resolver :=
  match erase_request id origin (rv_queue s) with
  | None => Ok s
  | Some (rq, rest) =>
      match rv_current s with
      | None => Ub
      | Some current =>
          if same_request id origin current then
            if rv_timer_id s then cancel_dns_timer s
            else Ok (set_queue s rest [DnsError rq request_cancelled])
          else cancel_dns_timer s
      end
  end.

(** [on_write] frees the query, [on_write_error] does not. *)
Definition on_dns_write s : res resolver :=
  let* _ := assert (rv_send s) in
  Ok (set_held s false (rv_recv s) false (rv_timer s) (rv_timer_id s)).

Definition fail_current s (ec : dns_error) : resolver :=
  match rv_current s with Some rq => mass_error s (rq_host rq) ec | None => s end.

Definition on_dns_write_error s (code : Z) : res resolver :=
  let* _ := assert (rv_send s) in
  dns_process_all (fail_current (set_held s (rv_tx_buff s) (rv_recv s) false (rv_timer s) (rv_timer_id s)) (socket_error code)).

Definition on_dns_read_error s (code : Z) : res resolver :=
  let* _ := assert (rv_recv s) in
  dns_process_all (fail_current (set_held s (rv_tx_buff s) false (rv_send s) (rv_timer s) (rv_timer_id s)) (socket_error code)).

(** The addresses of a reply: those that come as four bytes. *)
Definition v4_of (d : rr_data) : option address :=
  match d with rr_bin data => if bool_decide (length data = 4%nat) then Some (address_v4 data) else None | _ => None end.

Definition reply_addresses (r : dns_reply) : list address := omap v4_of (concat (dr_answers r)).

(** The checks of [on_read]: one question, for the host that was asked, and an answer. *)
Definition accepted (host : bytes) (data : bytes) : option (list address) :=
  match dns_parse data with
  | None => None
  | Some r =>
      if negb (dr_query_count r =? 1) then None
      else
        match dr_queried_name r with
        | None => None
        | Some name =>
            if bool_decide (name ≠ host) then None
            else if bool_decide (dr_answers r = []) then None
            else Some (reply_addresses r)
        end
  end.

(** [on_read]: only after a good reply the timer is cancelled. [mass_reply] is given a reference into the current request, lets go of this
    request and then uses the reference: that is undefined unless an answer to the request, made just now, keeps it; this is not so
    when the request was answered before, after a timeout. *)
Definition on_dns_read s (data : bytes) : res resolver :=
  let* _ := assert (rv_recv s) in
  let s := set_held s (rv_tx_buff s) false (rv_send s) (rv_timer s) (rv_timer_id s) in
  match rv_current s with
  | None => Ub
  | Some rq =>
      match accepted (rq_host rq) data with
      | None => dns_process_all (mass_error s (rq_host rq) cares_failure)
      | Some results =>
          let* _ := assert (bool_decide (rq ∈ rv_queue s)) in
          let* s := cancel_dns_timer (mass_reply s (rq_host rq) results) in
          dns_process_all s
      end
  end.

Inductive dns_event :=
| VRequest (rq : dns_request)
| VCancel (id origin : Z)
| VTimer
| VWritten
| VWriteFailed (code : Z)
| VRead (data : bytes)
| VReadFailed (code : Z).

Definition dns_handle s (ev : dns_event) : res resolver :=
  match ev with
  | VRequest rq => on_dns_request s rq
  | VCancel id origin => on_cancel s id origin
  | VTimer => on_dns_timer s false
  | VWritten => on_dns_write s
  | VWriteFailed code => on_dns_write_error s code
  | VRead data => on_dns_read s data
  | VReadFailed code => on_dns_read_error s code
  end.

Definition new_resolver : resolver := mkResolver [] ∅ None false false false false false [].
End actor.

(** ** Every request is answered once, with addresses of its host *)

Section answers.
Context `{Ares}.
Implicit Types (s : resolver).

Definition replied (out : list dns_effect) : list dns_request :=
  omap (λ e, match e with DnsReply rq _ | DnsError rq _ => Some rq | _ => None end) out.

Lemma replied_app out out' : replied (out ++ out') = replied out ++ replied out'.
Proof. apply omap_app. Qed.

(** Where addresses of a host may come from: it is an address itself, the hosts file, a reply to a query for it. *)
Definition legitimate (seen : list bytes) (host : bytes) (results : list address) : Prop :=
  (∃ ip, as_ip host = Some ip ∧ results = [ip]) ∨ resolve_locally host = Ok (Some results) ∨
  (∃ data r, data ∈ seen ∧ dns_parse data = Some r ∧ dr_query_count r = 1 ∧ dr_queried_name r = Some host ∧ dr_answers r ≠ [] ∧
    results = reply_addresses r).

Lemma accepted_spec host data results :
  accepted host data = Some results →
  ∃ r, dns_parse data = Some r ∧ dr_query_count r = 1 ∧ dr_queried_name r = Some host ∧ dr_answers r ≠ [] ∧ results = reply_addresses r.
Proof.
  unfold accepted. destruct (dns_parse data) as [r|]; [|done]. destruct (dr_query_count r =? 1) eqn:Hc; [|done]. cbn [negb].
  destruct (dr_queried_name r) as [name|] eqn:Hn; [|done]. case_bool_decide as Hh; [done|]. case_bool_decide as Ha; [done|].
  intros [= <-]. exists r. apply Z.eqb_eq in Hc. rewrite Hn. subst name. auto.
Qed.

Lemma legitimate_more seen seen' host results : seen ⊆ seen' → legitimate seen host results → legitimate seen' host results.
Proof. unfold legitimate. set_solver. Qed.

(** From one state to another: the requests that are gone from the queue were answered; what is answered and what is kept are
    addresses of their hosts. *)
Record answers (seen : list bytes) s s' : Prop := {
  an_all : replied (rv_out s') ++ rv_queue s' ≡ₚ replied (rv_out s) ++ rv_queue s;
  an_cache : (∀ host results, rv_cache s !! host = Some results → legitimate seen host results) →
    ∀ host results, rv_cache s' !! host = Some results → legitimate seen host results;
  an_reply : (∀ host results, rv_cache s !! host = Some results → legitimate seen host results) →
    (∀ rq results, DnsReply rq results ∈ rv_out s → legitimate seen (rq_host rq) results) →
    ∀ rq results, DnsReply rq results ∈ rv_out s' → legitimate seen (rq_host rq) results;
}.

Lemma answers_trans seen s1 s2 s3 : answers seen s1 s2 → answers seen s2 s3 → answers seen s1 s3.
Proof. intros [A1 B1 C1] [A2 B2 C2]. split; [by rewrite A2|auto|auto]. Qed.

(** Changes of what is under way. *)
Lemma answers_same seen s s' : rv_queue s' = rv_queue s → rv_cache s' = rv_cache s → rv_out s' = rv_out s → answers seen s s'.
Proof. intros Hq Hc Ho. split; rewrite ?Hq, ?Hc, ?Ho; auto. Qed.

Definition plain (e : dns_effect) : Prop := match e with DnsReply _ _ | DnsError _ _ => False | _ => True end.

Lemma answers_say seen s e : plain e → answers seen s (dns_say s e).
Proof.
  intros He. split; cbn; [|auto|].
  - rewrite replied_app. destruct e; cbn; by rewrite ?app_nil_r.
  - intros _ Ho rq results [|Heq%list_elem_of_singleton]%elem_of_app; [auto|by subst].
Qed.

Lemma replied_fmap (f : dns_request → dns_effect) l : (∀ rq, replied [f rq] = [rq]) → replied (f <$> l) = l.
Proof.
  intros Hf. induction l as [|x l IH]; [done|]. rewrite fmap_cons. change (f x :: (f <$> l)) with ([f x] ++ (f <$> l)).
  by rewrite replied_app, Hf, IH.
Qed.

Lemma reply_all_perm s host f : (∀ rq, replied [f rq] = [rq]) →
  replied (rv_out (reply_all s host f)) ++ rv_queue (reply_all s host f) ≡ₚ replied (rv_out s) ++ rv_queue s.
Proof.
  intros Hf. cbn. rewrite replied_app, (replied_fmap f) by done. rewrite <- app_assoc. apply Permutation_app_head.
  unfold asked_for, others_than. apply filter_app_complement.
Qed.

Lemma mass_error_answers seen s host ec : answers seen s (mass_error s host ec).
Proof.
  split; [by apply reply_all_perm|auto|]. intros _ Ho rq results. cbn. intros [Hin|(rq' & Heq & _)%list_elem_of_fmap]%elem_of_app; [auto|done].
Qed.

Lemma mass_reply_answers seen s host results :
  ((∀ h r, rv_cache s !! h = Some r → legitimate seen h r) → legitimate seen host results) → answers seen s (mass_reply s host results).
Proof.
  intros Hl. split.
  - cbn. apply (reply_all_perm s host (λ rq, DnsReply rq results)). done.
  - intros Hc h r. cbn. intros [[<- <-]|[_ Hin]]%lookup_insert_Some; auto.
  - intros Hc Ho rq r. cbn. intros [Hin|(rq' & Heq & Hin)%list_elem_of_fmap]%elem_of_app; [auto|].
    injection Heq as -> ->. unfold asked_for in Hin. apply list_elem_of_filter in Hin as [-> _]. auto.
Qed.

Lemma send_query_answers seen s rq s' : head (rv_queue s) = Some rq → send_query s rq = Ok s' → answers seen s s'.
Proof.
  intros Hq. unfold send_query.
  assert (answers seen s (set_queue s (tail (rv_queue s)) [DnsError rq cares_failure])) as Hfailed.
  { destruct (rv_queue s) as [|rq' q] eqn:Hs; [done|]. injection Hq as ->. split; cbn; [|auto|].
    - rewrite replied_app. cbn. rewrite <- app_assoc. cbn. by rewrite Hs.
    - intros _ Ho rq' r. rewrite elem_of_app, list_elem_of_singleton. naive_solver. }
  destruct (negb _); [by intros [= <-]|]. intros (_ & _ & Heq)%bind_Ok. destruct (write_query (rq_host rq)) as [query|]; injection Heq as <-; [|done].
  split; cbn; [|auto|].
  - rewrite !replied_app. cbn. by rewrite !app_nil_r.
  - intros _ Ho rq' r. rewrite !elem_of_app, !list_elem_of_singleton. naive_solver.
Qed.

Lemma process_answers seen fuel : ∀ s s', dns_process fuel s = Ok s' → answers seen s s'.
Proof.
  assert (∀ s, answers seen s s) as Hrefl by (intros s; by apply answers_same).
  induction fuel as [|fuel IH]; intros s s'; cbn [dns_process]; destruct (rv_recv s || rv_send s); try (by intros [= <-]);
    destruct (rv_queue s) as [|rq q] eqn:Hq; try (by intros [= <-]).
  destruct (rv_cache s !! rq_host rq) as [results|] eqn:Hc.
  { intros Hp%IH. eapply answers_trans; [|exact Hp]. apply mass_reply_answers. auto. }
  destruct (has_any s); [by intros [= <-]|]. destruct (as_ip (rq_host rq)) as [ip|] eqn:Hip.
  { intros Hp%IH. eapply answers_trans; [|exact Hp]. apply mass_reply_answers. intros _. left. eauto. }
  intros ([results|] & Hl & Hp)%bind_Ok.
  - apply IH in Hp. eapply answers_trans; [|exact Hp]. apply mass_reply_answers. intros _. right. by left.
  - apply (send_query_answers seen s rq); [by rewrite Hq|done].
Qed.

Lemma on_dns_timer_answers seen s cancelled s' : on_dns_timer s cancelled = Ok s' → answers seen s s'.
Proof.
  unfold on_dns_timer. intros (_ & _ & Hp)%bind_Ok. apply (process_answers seen) in Hp. eapply answers_trans; [|exact Hp]. clear Hp.
  set (s1 := set_held s _ _ _ false _). apply (answers_trans _ _ s1); [by apply answers_same|].
  match goal with |- answers _ _ (set_held ?x _ _ _ _ _) => apply (answers_trans _ _ x); [|by apply answers_same] end. destruct cancelled.
  - destruct (_ || _); [by apply answers_say|by apply answers_same].
  - destruct (rv_queue s1), (rv_current s1) as [rq|]; try by apply answers_same.
    eapply answers_trans; [apply mass_error_answers|by apply answers_say].
Qed.

Lemma cancel_dns_timer_answers seen s s' : cancel_dns_timer s = Ok s' → answers seen s s'.
Proof. unfold cancel_dns_timer. destruct (rv_timer_id s); [apply on_dns_timer_answers|intros [= <-]; by apply answers_same]. Qed.

Lemma erase_request_perm id origin q rq rest : erase_request id origin q = Some (rq, rest) → q ≡ₚ rq :: rest.
Proof.
  revert rest. induction q as [|x q IH]; intros rest; cbn [erase_request]; [done|]. destruct (same_request id origin x); [by intros [= -> ->]|].
  destruct (erase_request id origin q) as [[found l]|]; [|done]. intros [= -> <-]. rewrite (IH l) by done. apply Permutation_swap.
Qed.

Lemma fail_current_answers seen s ec : answers seen s (fail_current s ec).
Proof. unfold fail_current. destruct (rv_current s); [apply mass_error_answers|by apply answers_same]. Qed.

(** What arrives with an event: a request, data. *)
Definition asked_by (ev : dns_event) : list dns_request := match ev with VRequest rq => [rq] | _ => [] end.
Definition read_by (ev : dns_event) : list bytes := match ev with VRead data => [data] | _ => [] end.

Lemma dns_handle_answers seen s ev s' :
  dns_handle s ev = Ok s' → read_by ev ⊆ seen →
  answers seen (set_queue s (rv_queue s ++ asked_by ev) []) s'.
Proof.
  assert (∀ s s1 s2, answers seen s s1 → answers seen s1 s2 → answers seen s s2) as Htr by (intros ???; apply answers_trans).
  assert (∀ s, answers seen (set_queue s (rv_queue s ++ []) []) s) as Hnil
    by (intros s0; apply answers_same; cbn; by rewrite ?app_nil_r).
  destruct ev as [rq|id origin| | |code|data|code]; cbn [dns_handle asked_by]; intros Hh Hseen.
  - by apply (process_answers seen) in Hh.
  - apply (Htr _ s); [done|]. unfold on_cancel in Hh. destruct (erase_request id origin (rv_queue s)) as [[rq rest]|] eqn:He;
      [|injection Hh as <-; by apply answers_same].
    destruct (rv_current s) as [cur|]; [|done]. destruct (same_request id origin cur); [|by apply cancel_dns_timer_answers].
    destruct (rv_timer_id s); [by apply cancel_dns_timer_answers|]. injection Hh as <-. split; cbn; [|auto|].
    + rewrite replied_app. cbn. rewrite <- app_assoc, (erase_request_perm _ _ _ _ _ He). done.
    + intros _ Ho rq' r [|Heq%list_elem_of_singleton]%elem_of_app; [auto|by subst].
  - apply (Htr _ s); [done|]. by apply (on_dns_timer_answers seen) in Hh.
  - apply (Htr _ s); [done|]. apply bind_Ok in Hh as (_ & _ & Hh). injection Hh as <-. by apply answers_same.
  - apply (Htr _ s); [done|]. apply bind_Ok in Hh as (_ & _ & Hh). apply (process_answers seen) in Hh. eapply Htr; [|exact Hh].
    eapply Htr; [|apply fail_current_answers]. by apply answers_same.
  - apply (Htr _ s); [done|]. apply bind_Ok in Hh as (_ & _ & Hh). set (s1 := set_held s (rv_tx_buff s) false (rv_send s) (rv_timer s) (rv_timer_id s)) in Hh.
    apply (Htr _ s1); [by apply answers_same|]. cbv zeta in Hh. change (rv_current s1) with (rv_current s) in Hh. destruct (rv_current s) as [rq|]; [|done].
    destruct (accepted (rq_host rq) data) as [results|] eqn:Ha.
    + apply bind_Ok in Hh as (u & _ & Hh). apply bind_Ok in Hh as (s2 & Hc & Hp). apply (process_answers seen) in Hp. apply (cancel_dns_timer_answers seen) in Hc.
      eapply Htr; [|exact Hp]. eapply Htr; [|exact Hc]. apply mass_reply_answers. intros _. right. right.
      destruct (accepted_spec _ _ _ Ha) as (r & Hr). exists data, r. split; [set_solver|done].
    + apply (process_answers seen) in Hh. eapply Htr; [|exact Hh]. apply mass_error_answers.
  - apply (Htr _ s); [done|]. apply bind_Ok in Hh as (_ & _ & Hh). apply (process_answers seen) in Hh. eapply Htr; [|exact Hh].
    eapply Htr; [|apply fail_current_answers]. by apply answers_same.
Qed.
(** ** Runs *)

Inductive dns_run : resolver → list dns_event → resolver → Prop :=
| dns_run_nil s : dns_run s [] s
| dns_run_cons s ev s1 evs s2 : dns_handle s ev = Ok s1 → dns_run s1 evs s2 → dns_run s (ev :: evs) s2.

Lemma dns_run_answers seen s evs s' :
  dns_run s evs s' → evs ≫= read_by ⊆ seen →
  (∀ host results, rv_cache s !! host = Some results → legitimate seen host results) →
  (∀ rq results, DnsReply rq results ∈ rv_out s → legitimate seen (rq_host rq) results) →
  replied (rv_out s') ++ rv_queue s' ≡ₚ replied (rv_out s) ++ rv_queue s ++ (evs ≫= asked_by) ∧
  ∀ rq results, DnsReply rq results ∈ rv_out s' → legitimate seen (rq_host rq) results.
Proof.
  induction 1 as [s|s ev s1 evs s2 Hh _ IH]; intros Hseen Hc Ho; [cbn; by rewrite app_nil_r|]. cbn in Hseen.
  destruct (dns_handle_answers seen s ev s1 Hh) as [Hp Hc1 Ho1]; [set_solver|]. cbn in Hp, Hc1, Ho1. rewrite app_nil_r in Hp, Ho1.
  destruct IH as [Hp2 Ho2]; [set_solver|auto|auto|]. split; [|done]. rewrite Hp2, app_assoc, Hp. cbn. by rewrite !app_assoc.
Qed.

(** C19: over any run of the actor, every request was answered once or still waits, and none is made up; and the addresses in an
    answer are those of the host that was asked for: the host itself, when it is an address, those of the hosts file, or
    those of a reply that was received and that repeats the question for this host. *)
Theorem dns_answers evs s :
  dns_run new_resolver evs s →
  replied (rv_out s) ++ rv_queue s ≡ₚ evs ≫= asked_by ∧
  ∀ rq results, DnsReply rq results ∈ rv_out s → legitimate (evs ≫= read_by) (rq_host rq) results.
Proof.
  intros Hrun. destruct (dns_run_answers (evs ≫= read_by) new_resolver evs s Hrun) as [Hp Ho]; [done| | |by split].
  - intros host results Hc. cbn in Hc. by rewrite lookup_empty in Hc.
  - intros rq results Hin. by apply not_elem_of_nil in Hin.
Qed.
End answers.

(** ** No request is left lying *)

Section progress.
Context `{Ares}.
Hypothesis queries_written : ∀ host, make_record host = true ∧ is_Some (write_query host).
Hypothesis hosts_valid : ∀ host texts, hosts_file host = Some texts → Forall (λ text, is_Some (make_address text)) texts.
Implicit Types (s : resolver).

(** The timer is known while it runs; the query is in memory while it is sent, which the reply is awaited during; a reply is
    awaited for the current request, which waits until the timer is over; and while requests wait, something is under way. *)
Record attended s : Prop := {
  at_timer : rv_timer_id s = rv_timer s;
  at_send : rv_send s = true → rv_recv s = true;
  at_buff : rv_tx_buff s = rv_send s;
  at_recv : rv_recv s = true → is_Some (rv_current s);
  at_waits : rv_recv s = true → rv_timer s = true → ∀ rq, rv_current s = Some rq → rq ∈ rv_queue s;
  at_busy : rv_queue s ≠ [] → has_any s = true;
}.

(** What may happen: operations that were started come to an end, the query being written, without an error, before the rest, and data arrives before the timer is over
    (which cancels the socket); a request that waits is cancelled only while a reply is awaited. *)
Definition orderly s (ev : dns_event) : Prop :=
  match ev with
  | VRequest _ => True
  | VCancel id origin => rv_recv s = true ∨ erase_request id origin (rv_queue s) = None
  | VTimer => rv_timer s = true ∧ rv_send s = false
  | VWritten => rv_send s = true
  | VWriteFailed _ => False
  | VRead _ => rv_recv s = true ∧ rv_send s = false ∧ rv_timer s = true
  | VReadFailed _ => rv_recv s = true ∧ rv_send s = false
  end.

Lemma resolve_locally_total host : ∃ r, resolve_locally host = Ok r.
Proof.
  unfold resolve_locally. destruct (hosts_file host) as [texts|] eqn:Hh; [|eauto].
  assert (∃ l, local_addresses texts = Ok l) as (l & ->); [|cbn; eauto].
  pose proof (hosts_valid _ _ Hh) as Hv. clear Hh. induction Hv as [|text texts [ip Hip] _ (l & IH)]; cbn [local_addresses]; [eauto|].
  rewrite Hip, IH. cbn. eauto.
Qed.

Lemma others_shorter rq q : (length (others_than (rq_host rq) (rq :: q)) <= length q)%nat.
Proof. unfold others_than. rewrite filter_cons. rewrite decide_False by (intros Hn; by apply Hn). apply length_filter. Qed.

(** [dns_process], from a state in which all but the last clause hold. *)
Lemma process_attended fuel : ∀ s,
  rv_timer_id s = rv_timer s → (rv_send s = true → rv_recv s = true) → rv_tx_buff s = rv_send s → (rv_recv s = true → is_Some (rv_current s)) →
  (rv_recv s = true → rv_timer s = true → ∀ rq, rv_current s = Some rq → rq ∈ rv_queue s) →
  (length (rv_queue s) <= fuel)%nat → ∃ s', dns_process fuel s = Ok s' ∧ attended s'.
Proof.
  assert (∀ s, rv_timer_id s = rv_timer s → (rv_send s = true → rv_recv s = true) → rv_tx_buff s = rv_send s → (rv_recv s = true → is_Some (rv_current s)) →
    (rv_recv s = true → rv_timer s = true → ∀ rq, rv_current s = Some rq → rq ∈ rv_queue s) →
    (rv_queue s ≠ [] → has_any s = true) → ∃ s', Ok s = Ok s' ∧ attended s') as Hstay by (intros s ??????; by exists s).
  induction fuel as [|fuel IH]; intros s Ht Hs Hb Hr Hcq Hf; cbn [dns_process]; destruct (rv_recv s || rv_send s) eqn:Hio.
  - apply Hstay; try done. intros _. unfold has_any. by rewrite Hio.
  - destruct (rv_queue s) eqn:Hq; [|cbn in Hf; lia]. apply Hstay; rewrite ?Hq; done.
  - apply Hstay; try done. intros _. unfold has_any. by rewrite Hio.
  - destruct (rv_queue s) as [|rq q] eqn:Hq; [apply Hstay; rewrite ?Hq; done|].
    apply orb_false_iff in Hio as [Hrecv Hsend].
    assert (∀ results, ∃ s', dns_process fuel (mass_reply s (rq_host rq) results) = Ok s' ∧ attended s') as Hgo.
    { intros results. apply IH; cbn; rewrite ?Hrecv, ?Hb, ?Hsend; try done. rewrite Hq. pose proof (others_shorter rq q). cbn in Hf. lia. }
    destruct (rv_cache s !! rq_host rq); [apply Hgo|]. destruct (has_any s) eqn:Hany; [apply Hstay; rewrite ?Hq; done|].
    destruct (as_ip (rq_host rq)); [apply Hgo|]. destruct (resolve_locally_total (rq_host rq)) as [[results|] ->]; cbn [res_bind]; [apply Hgo|].
    unfold send_query. destruct (queries_written (rq_host rq)) as [-> [query ->]]. rewrite Hb, Hsend. cbn [negb assert res_bind].
    eexists. split; [done|]. split; try done. cbn. rewrite Hq. intros _ _ rq' [= <-]. by left.
Qed.

Lemma process_all_attended s :
  rv_timer_id s = rv_timer s → (rv_send s = true → rv_recv s = true) → rv_tx_buff s = rv_send s → (rv_recv s = true → is_Some (rv_current s)) →
  (rv_recv s = true → rv_timer s = true → ∀ rq, rv_current s = Some rq → rq ∈ rv_queue s) →
  ∃ s', dns_process_all s = Ok s' ∧ attended s'.
Proof. intros. by apply process_attended. Qed.

Lemma on_dns_timer_attended s cancelled : attended s → rv_timer s = true → ∃ s', on_dns_timer s cancelled = Ok s' ∧ attended s'.
Proof.
  intros [Ht Hs Hb Hr Hcq Hbusy] Htim. unfold on_dns_timer. rewrite Htim. cbn [assert res_bind].
  set (s1 := set_held s _ _ _ _ _). set (s2 := if cancelled then _ else _).
  assert (rv_recv s2 = rv_recv s ∧ rv_send s2 = rv_send s ∧ rv_tx_buff s2 = rv_tx_buff s ∧ rv_current s2 = rv_current s ∧ rv_timer s2 = false)
    as (E1 & E2 & E3 & E4 & E5) by (unfold s2; repeat case_match; done).
  apply process_all_attended; cbn; rewrite ?E1, ?E2, ?E3, ?E4, ?E5; done.
Qed.

Lemma cancel_dns_timer_attended s : attended s → ∃ s', cancel_dns_timer s = Ok s' ∧ attended s'.
Proof.
  intros Ha. unfold cancel_dns_timer. destruct (rv_timer_id s) eqn:Hid; [|eauto]. apply on_dns_timer_attended; [done|]. by rewrite <- (at_timer _ Ha).
Qed.

Lemma dns_handle_attended s ev : attended s → orderly s ev → ∃ s', dns_handle s ev = Ok s' ∧ attended s'.
Proof.
  intros Ha Hev. pose proof Ha as [Ht Hs Hb Hr Hcq Hbusy]. destruct ev as [rq|id origin| | |code|data|code]; cbn [dns_handle orderly] in *.
  - apply process_all_attended; cbn; try done. intros H1 H2 rq' H3. apply elem_of_app. left. auto.
  - unfold on_cancel. destruct (erase_request id origin (rv_queue s)) as [[rq rest]|] eqn:He; [|eauto]. destruct Hev as [Hev|]; [|done].
    destruct (Hr Hev) as [cur ->].
    destruct (same_request id origin cur); [|by apply cancel_dns_timer_attended]. destruct (rv_timer_id s) eqn:Hid; [by apply cancel_dns_timer_attended|].
    eexists. split; [done|]. split; cbn; try done; [congruence|congruence|]. intros _. apply Hbusy. intros Hq. by rewrite Hq in He.
  - destruct Hev. by apply on_dns_timer_attended.
  - unfold on_dns_write. rewrite Hev. cbn [assert res_bind]. eexists. split; [done|]. split; cbn; try done. unfold has_any. cbn. by rewrite Hs.
  - done.
  - destruct Hev as (Hrecv & Hsend & Htim). unfold on_dns_read. rewrite Hrecv. cbn [assert res_bind rv_current set_held].
    destruct (Hr Hrecv) as [rq Hcur]. rewrite Hcur. destruct (accepted (rq_host rq) data) as [results|].
    + cbn [rv_queue set_held]. rewrite (bool_decide_eq_true_2 _ (Hcq Hrecv Htim rq Hcur)). cbn [assert res_bind]. set (s1 := mass_reply _ _ _).
      destruct (cancel_dns_timer_attended s1) as (s2 & -> & [? ? ? ? ? _]); [|by apply process_all_attended].
      split; unfold s1, has_any; cbn; congruence || (by rewrite ?Htim, ?orb_true_r).
    + apply process_all_attended; cbn; congruence || done.
  - destruct Hev as [Hrecv Hsend]. unfold on_dns_read_error. rewrite Hrecv. cbn [assert res_bind].
    apply process_all_attended; unfold fail_current; cbn; destruct (rv_current s); cbn; congruence || done.
Qed.

Inductive orderly_run : resolver → list dns_event → resolver → Prop :=
| orderly_nil s : orderly_run s [] s
| orderly_cons s ev s1 evs s2 : orderly s ev → dns_handle s ev = Ok s1 → orderly_run s1 evs s2 → orderly_run s (ev :: evs) s2.

End progress.

(** ** A resolver *)

(** Texts that begin with a digit or a colon are addresses; a reply is the name, a zero and the address. *)
#[local] Instance v_ares : Ares := {|
  address := bytes;
  make_address := λ t, match t with c :: _ => if ((48 <=? c) && (c <=? 58)) then Some t else None | [] => None end;
  hosts_file := λ h, if bool_decide (h = chars "local") then Some [chars "127.0.0.1"] else None;
  make_record := λ _, true;
  write_query := λ h, Some h;
  dns_parse := λ d, match split_last 0 d with Some (name, ip) => Some (mkReply 1 (Some name) [[rr_bin ip]]) | None => None end;
  address_v4 := λ b, b;
|}.

Definition v_a : dns_request := mkDnsRequest 1 7 (chars "a").
Definition v_b : dns_request := mkDnsRequest 2 7 (chars "b").
Definition v_again : dns_request := mkDnsRequest 3 8 (chars "a").
Definition v_reply : bytes := chars "a" ++ [0; 9; 8; 7; 6].

Fixpoint v_run (s : resolver) (evs : list dns_event) : res resolver :=
  match evs with [] => Ok s | ev :: evs => let* s := dns_handle s ev in v_run s evs end.

Definition v_state (evs : list dns_event) : resolver := match v_run new_resolver evs with Ok s => s | _ => new_resolver end.

(** Two requests for a host are answered with one reply, one for the host of the hosts file at once; the next one is asked for. *)
Definition v_events : list dns_event :=
  [VRequest v_a; VRequest v_b; VRequest v_again; VWritten; VRead v_reply; VRequest (mkDnsRequest 4 8 (chars "local"))].

Example dns_answers_witness :
  rv_out (v_state v_events) =
    [DnsReceive; DnsSend (chars "a"); DnsStartTimer; DnsReply v_a [[9; 8; 7; 6]]; DnsReply v_again [[9; 8; 7; 6]];
     DnsReceive; DnsSend (chars "b"); DnsStartTimer] ∧
  replied (rv_out (v_state v_events)) ++ rv_queue (v_state v_events) ≡ₚ v_events ≫= asked_by.
Proof.
  split; [vm_compute; reflexivity|]. apply (dns_answers v_events (v_state v_events)).
  repeat (eapply dns_run_cons; [vm_compute; reflexivity|]). apply dns_run_nil.
Defined.


(** The reply is there before the end of the write is noticed: the next request is not started, and nothing is under way. *)
Example left_lying :
  let s := v_state [VRequest v_a; VRequest v_b; VRead v_reply; VWritten] in
  rv_queue s = [v_b] ∧ has_any s = false ∧ replied (rv_out s) = [v_a].
Proof. vm_compute. done. Qed.

(** A query that could not be written stays in memory, and the next one trips over it. *)
Example after_write_error :
  v_run new_resolver [VRequest v_a; VWriteFailed 5; VReadFailed 5; VTimer; VRequest v_b] = Ub.
Proof. vm_compute. reflexivity. Qed.

(** Who cancels a request that waits, cancels the query of another one: that one fails, and the cancelled one is asked for. *)
Example wrong_one_cancelled :
  rv_out (v_state [VRequest v_a; VWritten; VRequest v_b; VCancel 2 7; VReadFailed 125]) =
    [DnsReceive; DnsSend (chars "a"); DnsStartTimer; DnsCancelSocket; DnsError v_a (socket_error 125); DnsReceive; DnsSend (chars "b"); DnsStartTimer].
Proof. vm_compute. reflexivity. Qed.

(** After a bad reply the timer runs on; an answer from the cache forgets the current request; cancelling a request that waits reads it. *)
Example cancel_without_current :
  v_run new_resolver [VRequest v_a; VWritten; VRead v_reply; VRequest v_b; VWritten; VRead []; VRequest v_again; VRequest (mkDnsRequest 5 7 (chars "c")); VCancel 5 7] = Ub.
Proof. vm_compute. reflexivity. Qed.

(** A request for the host of a bad reply is not asked for again, and times out. *)
Example never_asked :
  rv_out (v_state [VRequest v_a; VWritten; VRead []; VRequest v_again; VTimer]) =
    [DnsReceive; DnsSend (chars "a"); DnsStartTimer; DnsError v_a cares_failure; DnsError v_again request_timeout; DnsCancelSocket].
Proof. vm_compute. reflexivity. Qed.

(** A reply that arrives although the timer is over: nobody but the actor itself holds the request any more. *)
Example reply_after_timeout : v_run new_resolver [VRequest v_a; VWritten; VTimer; VRead v_reply] = Ub.
Proof. vm_compute. reflexivity. Qed.

(** When no query can be made for two hosts in turn, their requests fail, and those behind them wait for nothing. *)
Example query_not_made :
  let ares := {| address := bytes; make_address := λ _, None; hosts_file := λ _, None; make_record := λ h, bool_decide (h ≠ chars "a" ∧ h ≠ chars "d");
    write_query := λ h, Some h; dns_parse := λ d, Some (mkReply 1 (Some d) [[rr_bin [9; 8; 7; 6]]]); address_v4 := λ b, b |} : Ares in
  let run := fold_left (λ r ev, let* s := r in dns_handle (H := ares) s ev) in
  ∃ s, run [VRequest v_b; VWritten; VRequest v_a; VRequest (mkDnsRequest 4 7 (chars "d")); VRequest (mkDnsRequest 5 7 (chars "c")); VRead (chars "b")] (Ok (new_resolver (H := ares))) = Ok s ∧
    rv_queue s = [mkDnsRequest 5 7 (chars "c")] ∧ has_any s = false.
Proof. eexists. split; [vm_compute; reflexivity|done]. Qed.

(** The list of [src/tests/018-dns.cpp]; and an address in brackets without a port takes its last group for the port. *)
Example dns_servers :
  parse_dns_servers (chars "192.168.1.100,192.168.1.101:53,[1:2:3::4]:53,[:80::1]:53%eth0") =
    [(chars "192.168.1.100", 53); (chars "192.168.1.101", 53); (chars "1:2:3::4", 53); (chars ":80::1", 53)] ∧
  parse_dns_servers (chars "[1:2::77]") = [(chars "1:2::77", 77)].
Proof. vm_compute. done. Qed.
