(* ===== verification/Initiator.v ===== *)
(** * Initiator: [src/net/initiator_actor.cpp], how a connection comes about: the addresses of a peer are tried one after another, directly
    or through a relay; the other side may also have come to this device. In the end the device is known by its certificate. The transport and the
    resolver call back once for everything they are asked for; a shutdown that is asked for comes before anything that
    happens later. *)

From S2P Require Import Wire Relay.
From S2P Require Import Prelude Diff Version Proto Base32 Luhn32 DeviceId Device Path GenericMap Folder Resolver FileIterator Cluster Changes Trees Removal.

(** What is asked of the URL library and of the system: the parameters and the host of a URL, an IPv4 address as a text. *)
Class Urls := { uri_params : uri → list (bytes * bytes); uri_host : uri → bytes; print_v4 : Z → bytes }.

Inductive role := role_active | role_passive | role_relay_passive.

#[export] Instance role_eq_dec : EqDecision role.
Proof. solve_decision. Defined.

Inductive init_resource := initializing | resolving | connect | handshake | relay_read | relay_write.

#[export] Instance init_resource_eq_dec : EqDecision init_resource.
Proof. solve_decision. Defined.

(** Why the actor wants to end. *)
Inductive init_end := ConnectionImpossible | ResolveFailed | InitIoFailed | MissingDeviceId | MissingCn | RelayFailure | Connected.

(** What is asked of the resolver, the transport and others. *)
Inductive init_effect :=
| NewTransport (expected : option device_id) (u : option uri)
| ResolveHost (u : uri)
| AsyncConnect
| AsyncHandshake
| RelayRecv
| RelaySend (m : Relay.message)
| UpgradeStream (expected : device_id) (active : bool)
| CancelStream
| InitUpdate (changes : diff op)
| PeerConnected (id : device_id) (state : device_state) (url : bytes)
| InitShutdown (why : init_end).

(** [in_asked]: a shutdown was asked for; [in_joining] says which handler the read under way has. *)
Record initiator := mkInitiator {
  in_asked : bool;
  in_shutting : bool;
  in_peer : device_id;
  in_state : device_state;
  in_uris : list uri;
  in_role : role;
  in_active_uri : option uri;
  in_connected : bool;
  in_relaying : bool;
  in_relay_key : bytes;
  in_remote : bytes;
  in_joining : bool;
  in_held : init_resource → Z;
  in_out : list init_effect;
}.

Implicit Types (i : initiator).

Definition out_i i (e : init_effect) : initiator :=
  mkInitiator (in_asked i) (in_shutting i) (in_peer i) (in_state i) (in_uris i) (in_role i) (in_active_uri i) (in_connected i) (in_relaying i)
    (in_relay_key i) (in_remote i) (in_joining i) (in_held i) (in_out i ++ [e]).

Definition end_i i (why : init_end) : initiator :=
  mkInitiator true (in_shutting i) (in_peer i) (in_state i) (in_uris i) (in_role i) (in_active_uri i) (in_connected i) (in_relaying i)
    (in_relay_key i) (in_remote i) (in_joining i) (in_held i) (in_out i ++ [InitShutdown why]).

Definition shutting_i i : initiator :=
  mkInitiator (in_asked i) true (in_peer i) (in_state i) (in_uris i) (in_role i) (in_active_uri i) (in_connected i) (in_relaying i)
    (in_relay_key i) (in_remote i) (in_joining i) (in_held i) (in_out i).

Definition peer_i i (peer : device_id) : initiator :=
  mkInitiator (in_asked i) (in_shutting i) peer (in_state i) (in_uris i) (in_role i) (in_active_uri i) (in_connected i) (in_relaying i)
    (in_relay_key i) (in_remote i) (in_joining i) (in_held i) (in_out i).

Definition state_i i (state : device_state) : initiator :=
  mkInitiator (in_asked i) (in_shutting i) (in_peer i) state (in_uris i) (in_role i) (in_active_uri i) (in_connected i) (in_relaying i)
    (in_relay_key i) (in_remote i) (in_joining i) (in_held i) (in_out i).

(** The addresses that are left are those from [uri_idx] on. *)
Definition try_i i (left : list uri) (active_uri : option uri) (relaying : bool) : initiator :=
  mkInitiator (in_asked i) (in_shutting i) (in_peer i) (in_state i) left (in_role i) active_uri (in_connected i) relaying
    (in_relay_key i) (in_remote i) (in_joining i) (in_held i) (in_out i).

Definition connected_i i (connected : bool) : initiator :=
  mkInitiator (in_asked i) (in_shutting i) (in_peer i) (in_state i) (in_uris i) (in_role i) (in_active_uri i) connected (in_relaying i)
    (in_relay_key i) (in_remote i) (in_joining i) (in_held i) (in_out i).

Definition relay_i i (key remote : bytes) (joining : bool) : initiator :=
  mkInitiator (in_asked i) (in_shutting i) (in_peer i) (in_state i) (in_uris i) (in_role i) (in_active_uri i) (in_connected i) (in_relaying i)
    key remote joining (in_held i) (in_out i).

Definition count_i i (k : init_resource) (n : Z) : initiator :=
  mkInitiator (in_asked i) (in_shutting i) (in_peer i) (in_state i) (in_uris i) (in_role i) (in_active_uri i) (in_connected i) (in_relaying i)
    (in_relay_key i) (in_remote i) (in_joining i) (λ k', if decide (k' = k) then n else in_held i k') (in_out i).

Definition take_i i (k : init_resource) : initiator := count_i i k (in_held i k + 1).

Definition give_i i (k : init_resource) : res initiator :=
  let* _ := assert (0 <? in_held i k) in Ok (count_i i k (in_held i k - 1)).

(** ** Making the actor *)

Definition is_scheme (scheme : bytes) (u : uri) : bool := bool_decide (u_scheme u = scheme).

(** The comparator: relays come first. *)
Definition uri_before (a b : uri) : bool :=
  if bool_decide (u_scheme a = u_scheme b) then lexicographical (u_text a) (u_text b)
  else is_scheme (chars "relay") a.

Fixpoint uri_insert (u : uri) (l : list uri) : list uri :=
  match l with
  | [] => [u]
  | v :: l => if uri_before u v then u :: v :: l else v :: uri_insert u l
  end.

(** [std::sort]. *)
Definition sort_uris (l : list uri) : list uri := foldr uri_insert [] l.

Definition supported (relay_enabled : bool) (u : uri) : bool :=
  is_scheme (chars "tcp") u || (is_scheme (chars "relay") u && relay_enabled).

Definition new_initiator (token : Z) (peer : device_id) (uris : list uri) (relay_enabled : bool) (relay_key : bytes) (has_sock : bool) : initiator :=
  mkInitiator false false peer (snd (make_offline token)) (sort_uris (filter (λ u, supported relay_enabled u = true) uris))
    (if has_sock then role_passive else if bool_decide (relay_key = []) then role_active else role_relay_passive)
    None false false relay_key [] false (λ _, 0) [].

Section initiator.
Context `{Environment} `{Urls}.

(** [proto::relay::parse_device]: the first parameter [id]. *)
Definition parse_device (u : uri) : res (option device_id) :=
  if negb (is_scheme (chars "relay") u) then Ok None
  else
    match head (filter (λ p : bytes * bytes, p.1 = chars "id") (uri_params u)) with
    | Some (_, value) => if bool_decide (value = []) then Ok None else from_string value
    | None => Ok None
    end.

(** ** Trying addresses *)

(** [resolve]. *)
Definition resolve_host i (u : uri) : initiator := take_i (out_i i (ResolveHost u)) resolving.

(** [initiate_active], with [initiate_active_tls] and [initiate_active_relay]; a relay without a device is passed over. *)
Fixpoint try_uris i (uris : list uri) : res initiator :=
  match uris with
  | [] => Ok (end_i (try_i i [] (in_active_uri i) (in_relaying i)) ConnectionImpossible)
  | u :: uris =>
      if is_scheme (chars "tcp") u then
        Ok (resolve_host (out_i (try_i i uris (Some u) false) (NewTransport (Some (in_peer i)) (Some u))) u)
      else if is_scheme (chars "relay") u then
        let* relay_device := parse_device u in
        match relay_device with
        | None => try_uris i uris
        | Some id => Ok (resolve_host (out_i (try_i i uris (Some u) true) (NewTransport (Some id) (Some u))) u)
        end
      else try_uris i uris
  end.

Definition initiate_active i : res initiator := if in_shutting i then Ok i else try_uris i (in_uris i).

Definition initiate_handshake i : initiator :=
  if in_shutting i then i else out_i (take_i (connected_i i true) handshake) AsyncHandshake.

Definition initiate_passive i : initiator :=
  if in_shutting i then i else initiate_handshake (out_i i (NewTransport None None)).

Definition initiate_relay_passive i : res initiator :=
  if in_shutting i then Ok i
  else match in_uris i with [] => Ub | u :: _ => Ok (resolve_host (out_i i (NewTransport None (Some u))) u) end.

(** [send_state]; [m] is the cluster, when the actor has one. *)
Definition send_state (m : option model) (now : Z) i : res initiator :=
  if bool_decide (st_connection (in_state i) = connecting) then Ok i
  else
    let* state := to_connecting (in_state i) in
    let i := state_i i state in
    match m with
    | None => Ok i
    | Some m =>
        let* d := new_peer_state m (get_sha256 (in_peer i)) state [] [] now in
        Ok (match d with Null => i | Node _ _ _ => out_i i (InitUpdate d) end)
    end.

(** The part of [configure] that starts it all. *)
Definition on_init (m : option model) (now : Z) i : res initiator :=
  let i := take_i i initializing in
  match in_role i with
  | role_active => let* i := send_state m now i in initiate_active i
  | role_passive => Ok (initiate_passive i)
  | role_relay_passive => initiate_relay_passive i
  end.

(** ** What comes back *)

(** [on_resolve], with addresses or an error. *)
Definition on_resolve i (found : bool) : res initiator :=
  let* i := give_i i resolving in
  if in_shutting i then Ok i
  else if found then Ok (take_i (out_i i AsyncConnect) connect)
  else if bool_decide (in_role i = role_active) then initiate_active i
  else Ok (end_i i ResolveFailed).

(** [on_io_error]. *)
Definition on_init_error i (k : init_resource) : res initiator :=
  let* i := give_i i k in
  if in_shutting i then Ok i
  else if negb (in_connected i) && bool_decide (in_role i = role_active) then initiate_active i
  else Ok (end_i (connected_i i false) InitIoFailed).

(** [join_session] and [request_relay_connection]: a request is written, and an answer awaited. *)
Definition ask_relay i (m : Relay.message) (joining : bool) : initiator :=
  if in_shutting i then i
  else
    let key := if joining then [] else in_relay_key i in
    let i := take_i (out_i (relay_i i key (in_remote i) joining) RelayRecv) relay_read in
    take_i (out_i i (RelaySend m)) relay_write.

Definition join_session i : initiator := ask_relay i (Relay.join_session_request (in_relay_key i)) true.

Definition request_relay_connection i : initiator := ask_relay i (Relay.connect_request (get_sha256 (in_peer i))) false.

(** [on_connect]. *)
Definition on_connect i : res initiator :=
  let* i := give_i i connect in
  let do_handshake :=
    bool_decide (in_role i = role_active) &&
    match in_active_uri i with
    | Some u => (is_scheme (chars "relay") u && in_relaying i) || is_scheme (chars "tcp") u
    | None => false
    end in
  Ok (if do_handshake then initiate_handshake i else join_session i).

(** [on_handshake], with the device of the certificate, whether that has a name, and the endpoint. *)
Definition on_handshake (m : option model) (now : Z) i (device : option device_id) (has_name : bool) (endpoint : bytes) : res initiator :=
  let* i := give_i i handshake in
  match device with
  | None => Ok (end_i i MissingDeviceId)
  | Some id =>
      if negb has_name then Ok (end_i i MissingCn)
      else
        let i := if in_relaying i then i else peer_i i id in
        let* i := send_state m now i in
        if in_relaying i then Ok (request_relay_connection i)
        else
          let i := relay_i i (in_relay_key i) endpoint (in_joining i) in
          if in_shutting i then Ok i else give_i i initializing
  end.

Definition on_relay_written i : res initiator := give_i i relay_write.

(** [on_read_relay]: the session is joined, and the stream becomes a secure one. *)
Definition on_read_relay i (data : bytes) : res initiator :=
  let* i := give_i i relay_read in
  if in_shutting i then Ok i
  else
    let* r := Relay.parse data in
    match r with
    | wrapped_message _ (response code _) =>
        if negb (code =? 0) then Ok (end_i i RelayFailure)
        else Ok (initiate_handshake (out_i i (UpgradeStream (in_peer i) (bool_decide (in_role i = role_active)))))
    | _ => Ok (end_i i RelayFailure)
    end.

(** [on_read_relay_active]: the relay invites to a session. *)
Definition on_read_relay_active i (data : bytes) : res initiator :=
  let* i := give_i i relay_read in
  let* r := Relay.parse data in
  match r with
  | wrapped_message _ (session_invitation from key address port _) =>
      if bool_decide (from ≠ get_sha256 (in_peer i)) then initiate_active i
      else
        let* ip := match address with
                   | Some a => Ok (print_v4 a)
                   | None => match in_active_uri i with Some u => Ok (uri_host u) | None => Ub end
                   end in
        match parse_uri (chars "tcp://" ++ ip ++ chars ":" ++ decimal 20 port []) with
        | None => Ub
        | Some u =>
            let i := relay_i (try_i i (in_uris i) (in_active_uri i) false) key (in_remote i) (in_joining i) in
            Ok (resolve_host (out_i i (NewTransport None (Some u))) u)
        end
  | wrapped_message _ _ => initiate_active i
  | _ => Ok (end_i i RelayFailure)
  end.

(** ** The end *)

(** [on_start], when nothing holds the initialization up: the connection is handed over; the URL is the text that is parsed. *)
Definition on_init_start i : res initiator :=
  let '(proto, sub) :=
    match in_active_uri i with
    | Some u => (u_scheme u, chars "active")
    | None =>
        (match in_role i with role_relay_passive => chars "relay" | role_passive => chars "tcp" | role_active => [] end, chars "passive")
    end in
  let* state := to_connected (in_state i) in
  let i := state_i i state in
  Ok (end_i (out_i i (PeerConnected (in_peer i) state (proto ++ chars "+" ++ sub ++ chars "://" ++ in_remote i))) Connected).

Definition init_shutdown_start i : res initiator :=
  let i := shutting_i i in
  let* i := if 0 <? in_held i initializing then give_i i initializing else Ok i in
  Ok (if (0 <? in_held i connect) || (0 <? in_held i handshake) || (0 <? in_held i relay_read) || (0 <? in_held i relay_write)
      then out_i i CancelStream else i).

Definition init_shutdown_finish (m : option model) (now : Z) i : res initiator :=
  if bool_decide (st_connection (in_state i) = connecting) then
    match m with
    | None => Ok i
    | Some m =>
        let* state := to_offline (in_state i) in
        let* d := new_peer_state m (get_sha256 (in_peer i)) state [] [] now in
        Ok (match d with Null => i | Node _ _ _ => out_i i (InitUpdate d) end)
    end
  else Ok i.

Inductive init_event :=
| IInit
| IResolved (found : bool)
| IConnected
| IHandshake (device : option device_id) (has_name : bool) (endpoint : bytes)
| IWritten
| IRead (data : bytes)
| IFailed (k : init_resource)
| IStart
| IShutdown
| IFinish.

Definition init_handle (m : option model) (now : Z) i (ev : init_event) : res initiator :=
  match ev with
  | IInit => on_init m now i
  | IResolved found => on_resolve i found
  | IConnected => on_connect i
  | IHandshake device has_name endpoint => on_handshake m now i device has_name endpoint
  | IWritten => on_relay_written i
  | IRead data => if in_joining i then on_read_relay i data else on_read_relay_active i data
  | IFailed k => on_init_error i k
  | IStart => on_init_start i
  | IShutdown => init_shutdown_start i
  | IFinish => init_shutdown_finish m now i
  end.

(** ** Runs *)

(** The operations that may be under way; the request to a relay is written beside the read of its answer. *)
Definition under_way i : Z := in_held i resolving + in_held i connect + in_held i handshake + in_held i relay_read.

(** What may happen: what was asked for comes to an end, a reply after its request was written; the actor starts when nothing holds the
    initialization up, unless it asked for its shutdown. *)
Definition init_enabled i (ev : init_event) : Prop :=
  match ev with
  | IInit => False
  | IResolved _ => 0 < in_held i resolving
  | IConnected => 0 < in_held i connect
  | IHandshake _ _ _ => 0 < in_held i handshake
  | IWritten => 0 < in_held i relay_write
  | IRead _ => 0 < in_held i relay_read ∧ in_held i relay_write = 0
  | IFailed k => k ∈ [connect; handshake; relay_read; relay_write] ∧ 0 < in_held i k
  | IStart => in_held i initializing = 0 ∧ in_asked i = false ∧ in_shutting i = false
  | IShutdown => in_shutting i = false
  | IFinish => in_shutting i = true
  end.

(** The device of the last handshake. *)
Definition shown (ev : init_event) (proved : option device_id) : option device_id :=
  match ev with IHandshake device _ _ => device | _ => proved end.

Inductive init_reaches : initiator → option device_id → Prop :=
| init_begins token peer uris relay_enabled relay_key has_sock m now i :
    on_init m now (new_initiator token peer uris relay_enabled relay_key has_sock) = Ok i → init_reaches i None
| init_goes_on i proved m now ev i' :
    init_reaches i proved → init_enabled i ev → init_handle m now i ev = Ok i' → init_reaches i' (shown ev proved).

(** While the actor has not given up: one operation is under way, or the peer has shown who it is. *)
Record initiating i (proved : option device_id) : Prop := {
  iv_held : ∀ k, 0 <= in_held i k;
  iv_init : in_held i initializing <= 1;
  iv_busy : in_held i initializing = 1 → under_way i = 1;
  iv_done : in_held i initializing = 0 → under_way i = 0 ∧ in_held i relay_write = 0 ∧ proved = Some (in_peer i) ∧ st_connection (in_state i) = connecting;
  iv_write : in_held i relay_write <= 1 ∧ (in_held i relay_write = 1 → in_held i relay_read = 1);
  iv_connected : in_role i = role_active → in_held i handshake = 1 ∨ in_held i relay_read = 1 → in_connected i = true;
  iv_second : in_role i = role_active → ∀ u, in_active_uri i = Some u → is_scheme (chars "tcp") u = false → in_relaying i = false → in_connected i = true;
  iv_role : in_role i ≠ role_active → in_relaying i = false;
  iv_joining : in_held i relay_read = 1 → in_relaying i = negb (in_joining i);
  iv_uri : in_role i = role_active → ∃ u, in_active_uri i = Some u ∧ (is_scheme (chars "tcp") u = false → is_scheme (chars "relay") u = true);
  iv_state : st_connection (in_state i) = offline ∨ st_connection (in_state i) = connecting;
}.

Definition given_up i : Prop := in_asked i = true ∨ in_shutting i = true.

Ltac init_cbn := cbn [in_asked in_shutting in_peer in_state in_uris in_role in_active_uri in_connected in_relaying in_relay_key in_remote in_joining in_held in_out
  out_i end_i shutting_i peer_i state_i try_i connected_i relay_i count_i take_i resolve_host] in *.

Lemma give_i_Ok i k i' : give_i i k = Ok i' → 0 < in_held i k ∧ i' = count_i i k (in_held i k - 1).
Proof. unfold give_i. intros (u & Hu%assert_Ok & Heq)%bind_Ok. injection Heq as <-. apply Z.ltb_lt in Hu. done. Qed.

Lemma same_scheme u : is_scheme (chars "relay") u = true → is_scheme (chars "tcp") u = false.
Proof. unfold is_scheme. intros Hr%bool_decide_eq_true. rewrite Hr. by apply bool_decide_eq_false. Qed.

(** The next address: given up, or resolving it is under way in addition to what was. *)
Lemma try_uris_spec uris : ∀ i i',
  try_uris i uris = Ok i' →
  in_asked i' = true ∨
  ∃ rest u relaying, in_held i' = in_held (take_i i resolving) ∧ in_active_uri i' = Some u ∧ in_relaying i' = relaying ∧
    (is_scheme (chars "tcp") u = false → is_scheme (chars "relay") u = true ∧ relaying = true) ∧ in_uris i' = rest ∧ in_connected i' = in_connected i ∧ in_role i' = in_role i ∧
    in_state i' = in_state i ∧ in_joining i' = in_joining i ∧ in_peer i' = in_peer i.
Proof.
  induction uris as [|u uris IH]; intros i i'; cbn [try_uris].
  - intros Heq. injection Heq as <-. by left.
  - destruct (is_scheme (chars "tcp") u) eqn:Ht.
    { intros Heq. injection Heq as <-. right. eexists _, u, false. split_and!; try done. congruence. }
    destruct (is_scheme (chars "relay") u) eqn:Hr; [|apply IH]. intros ([id|] & _ & Heq)%bind_Ok; [|by apply IH].
    injection Heq as <-. right. eexists _, u, true. by split_and!.
Qed.

(** An operation has ended, and the next address is tried. *)
Lemma next_uri_initiating i proved i' :
  in_role i = role_active → (∀ k, 0 <= in_held i k) → in_held i initializing = 1 → under_way i = 0 → in_held i relay_write = 0 →
  (st_connection (in_state i) = offline ∨ st_connection (in_state i) = connecting) →
  in_shutting i = false → initiate_active i = Ok i' → given_up i' ∨ initiating i' proved.
Proof.
  intros Hr Hh Hi Hu Hw Hst Hsh. unfold initiate_active. rewrite Hsh. intros [Ha|(rest & u & relaying & E1 & E2 & E3 & E4 & E5 & E6 & E7 & E8 & E9 & E10)]%try_uris_spec;
    [left; by left|right].
  pose proof (Hh resolving). pose proof (Hh connect). pose proof (Hh handshake). pose proof (Hh relay_read). unfold under_way in Hu.
  split; unfold under_way; rewrite ?E1, ?E2, ?E6, ?E7, ?E8; init_cbn.
  - intros k. destruct (decide (k = resolving)); [subst; lia|apply Hh].
  - rewrite decide_False by done. lia.
  - intros _. rewrite decide_True by done. rewrite !decide_False by done. lia.
  - rewrite decide_False by done. lia.
  - rewrite !decide_False by done. lia.
  - rewrite !decide_False by done. lia.
  - intros _ u' [= <-] Ht Hrel. rewrite E3 in Hrel. destruct (E4 Ht). congruence.
  - done.
  - rewrite decide_False by done. lia.
  - intros _. exists u. split; [done|]. intros Ht. by destruct (E4 Ht).
  - done.
Qed.

(** Nothing takes a shutdown back. *)
Definition keeps_end i i' : Prop := (in_asked i = true → in_asked i' = true) ∧ (in_shutting i = true → in_shutting i' = true).

Lemma try_uris_end uris : ∀ i i', try_uris i uris = Ok i' → keeps_end i i'.
Proof.
  induction uris as [|u uris IH]; intros i i'; cbn [try_uris]; [intros Heq; by injection Heq as <-|].
  destruct (is_scheme (chars "tcp") u); [intros Heq; by injection Heq as <-|]. destruct (is_scheme (chars "relay") u); [|apply IH].
  intros ([id|] & _ & Heq)%bind_Ok; [by injection Heq as <-|by apply IH].
Qed.

Lemma initiate_active_end i i' : initiate_active i = Ok i' → keeps_end i i'.
Proof. unfold initiate_active. destruct (in_shutting i); [intros Heq; by injection Heq as <-|apply try_uris_end]. Qed.

Lemma send_state_end m now i i' : send_state m now i = Ok i' → keeps_end i i'.
Proof.
  unfold send_state. case_bool_decide; [intros Heq; by injection Heq as <-|]. intros (st & _ & Heq)%bind_Ok.
  destruct m as [m|]; [|by injection Heq as <-]. apply bind_Ok in Heq as (d & _ & Heq). by destruct d; injection Heq as <-.
Qed.

Lemma keeps_end_trans i1 i2 i3 : keeps_end i1 i2 → keeps_end i2 i3 → keeps_end i1 i3.
Proof. unfold keeps_end. tauto. Qed.

Lemma ask_relay_end i msg joining : keeps_end i (ask_relay i msg joining).
Proof. unfold ask_relay. by destruct (in_shutting i) eqn:Hs; split; init_cbn; rewrite ?Hs. Qed.

Lemma initiate_handshake_end i : keeps_end i (initiate_handshake i).
Proof. unfold initiate_handshake. by destruct (in_shutting i) eqn:Hs; split; init_cbn; rewrite ?Hs. Qed.

Lemma init_handle_end m now i ev i' : init_enabled i ev → init_handle m now i ev = Ok i' → keeps_end i i'.
Proof.
  intros Hen. destruct ev as [|found| |device name ep| |data|k| | |]; cbn [init_handle init_enabled] in *; [done|..].
  - intros (i1 & [_ ->]%give_i_Ok & Heq)%bind_Ok. destruct (in_shutting _); [by injection Heq as <-|]. destruct found; [by injection Heq as <-|].
    case_bool_decide; [by apply initiate_active_end in Heq|by injection Heq as <-].
  - intros (i1 & [_ ->]%give_i_Ok & Heq)%bind_Ok. injection Heq as <-.
    destruct (_ && _); [eapply keeps_end_trans; [|apply initiate_handshake_end]|eapply keeps_end_trans; [|apply ask_relay_end]]; done.
  - intros (i1 & [_ ->]%give_i_Ok & Heq)%bind_Ok. destruct device as [id|]; [|by injection Heq as <-]. destruct (negb name); [by injection Heq as <-|].
    apply bind_Ok in Heq as (i2 & Hs%send_state_end & Heq). assert (keeps_end i i2) as Hi2 by (by destruct (in_relaying _)).
    destruct (in_relaying i2); [injection Heq as <-; eapply keeps_end_trans; [exact Hi2|apply ask_relay_end]|].
    cbv zeta in Heq. destruct (in_shutting (relay_i i2 _ _ _)); [by injection Heq as <-|]. by apply give_i_Ok in Heq as [_ ->].
  - intros [_ ->]%give_i_Ok. done.
  - destruct (in_joining i); intros (i1 & [_ ->]%give_i_Ok & Heq)%bind_Ok.
    + destruct (in_shutting _); [by injection Heq as <-|]. apply bind_Ok in Heq as (r & _ & Heq).
      destruct r as [| |l []]; try (by injection Heq as <-). destruct (negb _); [by injection Heq as <-|]. injection Heq as <-.
      by eapply keeps_end_trans; [|apply initiate_handshake_end].
    + apply bind_Ok in Heq as (r & _ & Heq). destruct r as [| |l []]; try (by injection Heq as <-); try (by apply initiate_active_end in Heq).
      case_bool_decide; [by apply initiate_active_end in Heq|]. apply bind_Ok in Heq as (ip & _ & Heq). destruct (parse_uri _); [|done]. by injection Heq as <-.
  - intros (i1 & [_ ->]%give_i_Ok & Heq)%bind_Ok. destruct (in_shutting _); [by injection Heq as <-|].
    destruct (_ && _); [by apply initiate_active_end in Heq|by injection Heq as <-].
  - unfold on_init_start. destruct (match in_active_uri i with Some u => _ | None => _ end) as [proto sub]. intros (st & _ & Heq)%bind_Ok. by injection Heq as <-.
  - unfold init_shutdown_start. intros (i1 & Hg & Heq)%bind_Ok. assert (keeps_end (shutting_i i) i1) as [H1 H2].
    { destruct (0 <? _); [by apply give_i_Ok in Hg as [_ ->]|by injection Hg as <-]. }
    destruct (_ || _); injection Heq as <-; split; init_cbn; auto.
  - unfold init_shutdown_finish. case_bool_decide; [|intros Heq; by injection Heq as <-]. destruct m as [m|]; [|intros Heq; by injection Heq as <-].
    intros (st & _ & (d & _ & Heq)%bind_Ok)%bind_Ok. by destruct d; injection Heq as <-.
Qed.

(** One operation ends and another one begins: what has to be checked anew. *)
Lemma replaced_initiating i k k' proved i' :
  initiating i proved → k ∈ [resolving; connect; handshake; relay_read] → k' ∈ [resolving; connect; handshake; relay_read] → 0 < in_held i k →
  (∀ x, in_held i' x = in_held i x - (if decide (x = k) then 1 else 0) + (if decide (x = k') then 1 else 0) +
    (if decide (x = relay_write ∧ k' = relay_read) then 1 else 0)) →
  in_held i relay_write = 0 →
  in_role i' = in_role i → in_active_uri i' = in_active_uri i → (st_connection (in_state i') = offline ∨ st_connection (in_state i') = connecting) →
  (in_role i = role_active → k' = handshake ∨ k' = relay_read → in_connected i' = true) →
  (in_role i = role_active → ∀ u, in_active_uri i = Some u → is_scheme (chars "tcp") u = false → in_relaying i' = false → in_connected i' = true) →
  (in_role i ≠ role_active → in_relaying i' = false) → (k' = relay_read → in_relaying i' = negb (in_joining i')) →
  ∀ proved', initiating i' proved'.
Proof.
  intros Hi Hk Hk' Hpos Hheld Hw Hrole Huri Hst Hc H2 Hr Hj proved'. pose proof Hi as [Hh Hinit Hbusy Hdone Hwr _ _ _ _ Hu _].
  assert (in_held i initializing = 1 ∧ under_way i = 1) as [Hone Hsum].
  { pose proof (Hh initializing). destruct (decide (in_held i initializing = 0)) as [Hz|]; [|split; [lia|apply Hbusy; lia]].
    destruct (Hdone Hz) as (Hs & _). exfalso. unfold under_way in Hs. pose proof (Hh resolving). pose proof (Hh connect). pose proof (Hh handshake).
    pose proof (Hh relay_read). set_unfold in Hk. destruct Hk as [->|[->|[->|[->|[]]]]]; lia. }
  unfold under_way in Hsum. pose proof (Hh resolving) as G1. pose proof (Hh connect) as G2. pose proof (Hh handshake) as G3. pose proof (Hh relay_read) as G4.
  set_unfold in Hk. set_unfold in Hk'.
  assert (∀ x, in_held i' x = match x with
    | initializing => 1 | relay_write => if decide (k' = relay_read) then 1 else 0
    | _ => if decide (x = k') then 1 else 0 end) as Hnew.
  { intros x. rewrite Hheld. destruct Hk as [->|[->|[->|[->|[]]]]], Hk' as [->|[->|[->|[->|[]]]]], x;
      clear - Hpos Hone Hsum Hw G1 G2 G3 G4; repeat case_decide; destruct_and?; try done; lia || naive_solver. }
  split; unfold under_way; rewrite ?Hnew, ?Hrole, ?Huri; try done.
  - intros x. rewrite Hnew. destruct x; repeat case_decide; lia.
  - intros _. destruct Hk' as [->|[->|[->|[->|[]]]]]; repeat case_decide; try done; lia.
  - case_decide as Hd; [|lia]. split; [lia|]. intros _. by rewrite decide_True.
  - intros Ha [Hx|Hx]; apply Hc; try done; repeat case_decide; try lia; auto.
  - intros Hx. apply Hj. case_decide; [done|lia].
Qed.

(** While one operation is under way, the others are not. *)
Lemma one_under_way i proved k :
  initiating i proved → k ∈ [resolving; connect; handshake; relay_read] → 0 < in_held i k →
  in_held i initializing = 1 ∧ in_held i k = 1 ∧ (∀ x, x ∈ [resolving; connect; handshake; relay_read] → x ≠ k → in_held i x = 0) ∧
  (k ≠ relay_read → in_held i relay_write = 0).
Proof.
  intros [Hh Hinit Hbusy Hdone [Hw1 Hw2] _ _ _ _ _ _] Hk Hpos. pose proof (Hh initializing). pose proof (Hh resolving) as G1. pose proof (Hh connect) as G2.
  pose proof (Hh handshake) as G3. pose proof (Hh relay_read) as G4. pose proof (Hh relay_write) as G5. set_unfold in Hk.
  assert (under_way i = 1 ∧ in_held i initializing = 1) as [Hs Hone].
  { destruct (decide (in_held i initializing = 0)) as [Hz|]; [|split; [apply Hbusy|]; lia].
    destruct (Hdone Hz) as (Hs & _). unfold under_way in Hs. destruct Hk as [->|[->|[->|[->|[]]]]]; lia. }
  unfold under_way in Hs. split_and!; [done|destruct Hk as [->|[->|[->|[->|[]]]]]; lia| |].
  - intros x Hx Hne. set_unfold in Hx. destruct Hk as [->|[->|[->|[->|[]]]]], Hx as [->|[->|[->|[->|[]]]]]; done || lia.
  - intros Hne. destruct (decide (in_held i relay_write = 1)) as [Hx|]; [|lia]. specialize (Hw2 Hx). destruct Hk as [->|[->|[->|[->|[]]]]]; done || lia.
Qed.

(** The end of an operation after which the next address is tried. *)
Lemma ended_next i proved k i' proved' :
  initiating i proved → in_shutting i = false → k ∈ [resolving; connect; handshake; relay_read] → 0 < in_held i k → in_held i relay_write = 0 →
  in_role i = role_active → initiate_active (count_i i k (in_held i k - 1)) = Ok i' → given_up i' ∨ initiating i' proved'.
Proof.
  intros Hi Hsh Hk Hpos Hw Hr. destruct (one_under_way i proved k Hi Hk Hpos) as (Hone & Hk1 & Hothers & _).
  apply next_uri_initiating; init_cbn; [done| |by rewrite decide_False by (intros <-; set_solver)| | |apply Hi|done].
  - intros x. case_decide; [lia|apply Hi].
  - unfold under_way. init_cbn.
    assert (∀ x, x ∈ [resolving; connect; handshake; relay_read] → (if decide (x = k) then in_held i k - 1 else in_held i x) = 0) as Hz.
    { intros x Hx. case_decide; [lia|by apply Hothers]. }
    rewrite !Hz by set_solver. done.
  - rewrite decide_False by (intros <-; set_solver). done.
Qed.

Lemma send_state_spec m now i i' :
  send_state m now i = Ok i' → (st_connection (in_state i) = offline ∨ st_connection (in_state i) = connecting) →
  st_connection (in_state i') = connecting ∧ in_held i' = in_held i ∧ in_role i' = in_role i ∧ in_active_uri i' = in_active_uri i ∧
  in_connected i' = in_connected i ∧ in_relaying i' = in_relaying i ∧ in_peer i' = in_peer i ∧ in_shutting i' = in_shutting i.
Proof.
  intros Hs Hst. unfold send_state in Hs. case_bool_decide as Hc; [by injection Hs as <-|]. destruct Hst as [Ho|]; [|done].
  unfold to_connecting in Hs. rewrite bool_decide_eq_true_2 in Hs by done. cbn [assert res_bind] in Hs.
  destruct m as [m|]; [|by injection Hs as <-]. apply bind_Ok in Hs as (d & _ & Hs). by destruct d; injection Hs as <-.
Qed.

(** How an event leaves what is held. *)
Ltac held_changes := intros x; init_cbn; repeat case_decide; subst; naive_solver lia.

Lemma resolved_initiating i found i' proved :
  initiating i proved → in_shutting i = false → on_resolve i found = Ok i' → given_up i' ∨ initiating i' proved.
Proof.
  intros Hi Hsh. unfold on_resolve. intros (i1 & [Hpos ->]%give_i_Ok & Heq)%bind_Ok. init_cbn. rewrite Hsh in Heq.
  destruct (one_under_way i proved resolving Hi ltac:(clear; set_solver) Hpos) as (Hone & Hk1 & Ho & Hw). specialize (Hw ltac:(done)). destruct found.
  - right. injection Heq as <-. apply (replaced_initiating i resolving connect proved); try (done || (clear; set_solver) || apply Hi). held_changes.
  - case_bool_decide as Hr; [|left; left; by injection Heq as <-].
    apply (ended_next i proved resolving i' proved) in Heq; done || (clear; set_solver).
Qed.

Lemma connected_initiating i i' proved :
  initiating i proved → in_shutting i = false → on_connect i = Ok i' → given_up i' ∨ initiating i' proved.
Proof.
  intros Hi Hsh. unfold on_connect. intros (i1 & [Hpos ->]%give_i_Ok & Heq)%bind_Ok.
  destruct (one_under_way i proved connect Hi ltac:(clear; set_solver) Hpos) as (Hone & Hk1 & Ho & Hw). specialize (Hw ltac:(done)).
  injection Heq as <-. right. init_cbn. destruct (bool_decide (in_role i = role_active) && _) eqn:Hd.
  - unfold initiate_handshake. init_cbn. rewrite Hsh. apply (replaced_initiating i connect handshake proved); try (done || (clear; set_solver) || apply Hi).
    held_changes.
  - assert (in_role i = role_active → in_connected i = true ∧ in_relaying i = false) as Hact.
    { intros Hr. rewrite bool_decide_eq_true_2 in Hd by done. destruct (iv_uri _ _ Hi Hr) as (u & Hu & Hsch). rewrite Hu in Hd. cbn [andb] in Hd.
      apply orb_false_iff in Hd as [Hd1 Ht]. rewrite (Hsch Ht) in Hd1. cbn [andb] in Hd1. split; [|done]. by apply (iv_second _ _ Hi Hr u). }
    assert (in_relaying i = false) as Hrel by (destruct (decide (in_role i = role_active)) as [Hr|Hr]; [by apply Hact|by apply (iv_role _ _ Hi)]).
    unfold join_session, ask_relay. init_cbn. rewrite Hsh. apply (replaced_initiating i connect relay_read proved); try (done || (clear; set_solver) || apply Hi).
    + held_changes.
    + intros Hr _. by apply Hact.
Qed.

(** The end of the last operation: nothing is under way, and the peer has shown who it is. *)
Lemma over_initiating i proved :
  (∀ k, in_held i k = 0) → proved = Some (in_peer i) → st_connection (in_state i) = connecting →
  (in_role i = role_active → ∀ u, in_active_uri i = Some u → is_scheme (chars "tcp") u = false → in_relaying i = false → in_connected i = true) →
  (in_role i ≠ role_active → in_relaying i = false) →
  (in_role i = role_active → ∃ u, in_active_uri i = Some u ∧ (is_scheme (chars "tcp") u = false → is_scheme (chars "relay") u = true)) →
  initiating i proved.
Proof.
  intros Hh Hp Hst H2 Hr Hu. split; unfold under_way; rewrite ?Hh; try done; [intros k; by rewrite Hh| |by right]. by intros _ [|].
Qed.

Lemma handshake_initiating m now i device name ep i' proved :
  initiating i proved → in_shutting i = false → on_handshake m now i device name ep = Ok i' → given_up i' ∨ initiating i' device.
Proof.
  intros Hi Hsh. unfold on_handshake. intros (i1 & [Hpos ->]%give_i_Ok & Heq)%bind_Ok.
  destruct (one_under_way i proved handshake Hi ltac:(clear; set_solver) Hpos) as (Hone & Hk1 & Ho & Hw). specialize (Hw ltac:(done)).
  destruct device as [id|]; [|left; left; by injection Heq as <-]. destruct (negb name); [left; left; by injection Heq as <-|].
  apply bind_Ok in Heq as (i2 & Hs & Heq). init_cbn. destruct (in_relaying i) eqn:Hrel;
    destruct (send_state_spec m now _ _ Hs) as (E1 & E2 & E3 & E4 & E5 & E6 & E7 & E8); try apply Hi; init_cbn; rewrite E6, Hrel in Heq; right.
  - injection Heq as <-. unfold request_relay_connection, ask_relay. rewrite E8, Hsh.
    apply (replaced_initiating i handshake relay_read proved); init_cbn; rewrite ?E2, ?E3, ?E4, ?E5, ?E6, ?E1, ?Hrel; try (done || (clear; set_solver) || apply Hi).
    + held_changes.
    + intros Hr _. apply Hi; auto.
    + rewrite <- Hrel. apply Hi.
  - cbv zeta in Heq. init_cbn. rewrite E8, Hsh in Heq. apply give_i_Ok in Heq as [Hp ->]. init_cbn. rewrite E2 in *. init_cbn.
    rewrite (decide_False (P := initializing = handshake)) in * by done.
    assert (∀ x, (if decide (x = initializing) then in_held i initializing - 1
      else if decide (x = handshake) then in_held i handshake - 1 else in_held i x) = 0) as Hz.
    { intros x. repeat case_decide; subst; try lia. destruct x; try done; apply Ho; set_solver. }
    apply over_initiating; init_cbn; rewrite ?E2, ?E3, ?E4, ?E5, ?E6, ?E7; init_cbn; try done; apply Hi.
Qed.

Lemma read_relay_initiating i data i' proved :
  initiating i proved → in_shutting i = false → in_held i relay_write = 0 → on_read_relay i data = Ok i' → in_joining i = true →
  given_up i' ∨ initiating i' proved.
Proof.
  intros Hi Hsh Hw. unfold on_read_relay. intros (i1 & [Hpos ->]%give_i_Ok & Heq)%bind_Ok Hjo. init_cbn. rewrite Hsh in Heq.
  destruct (one_under_way i proved relay_read Hi ltac:(clear; set_solver) Hpos) as (Hone & Hk1 & Ho & _).
  apply bind_Ok in Heq as (r & _ & Heq). destruct r as [| |l []]; try (left; left; by injection Heq as <-).
  destruct (negb _); [left; left; by injection Heq as <-|]. injection Heq as <-. right. unfold initiate_handshake. init_cbn. rewrite Hsh.
  apply (replaced_initiating i relay_read handshake proved); try (done || (clear; set_solver) || apply Hi).
  held_changes.
Qed.

Lemma read_invitation_initiating i data i' proved :
  initiating i proved → in_shutting i = false → in_held i relay_write = 0 → on_read_relay_active i data = Ok i' → in_joining i = false →
  given_up i' ∨ initiating i' proved.
Proof.
  intros Hi Hsh Hw. unfold on_read_relay_active. intros (i1 & [Hpos ->]%give_i_Ok & Heq)%bind_Ok Hjo.
  destruct (one_under_way i proved relay_read Hi ltac:(clear; set_solver) Hpos) as (Hone & Hk1 & Ho & _).
  pose proof (iv_joining _ _ Hi Hk1) as Hj. rewrite Hjo in Hj. cbn [negb] in Hj.
  assert (in_role i = role_active) as Hr by (apply dec_stable; intros Hn; rewrite (iv_role _ _ Hi Hn) in Hj; done).
  assert (∀ i', initiate_active (count_i i relay_read (in_held i relay_read - 1)) = Ok i' → given_up i' ∨ initiating i' proved) as Hnext.
  { intros i2 H2. apply (ended_next i proved relay_read i2 proved) in H2; done || (clear; set_solver). }
  apply bind_Ok in Heq as (r & _ & Heq). destruct r as [| |l []]; try (left; left; by injection Heq as <-); try by apply Hnext.
  case_bool_decide; [by apply Hnext|]. apply bind_Ok in Heq as (ip & _ & Heq).
  destruct (parse_uri _); [|done]. injection Heq as <-. right.
  apply (replaced_initiating i relay_read resolving proved); try (done || (clear; set_solver) || apply Hi).
  - held_changes.
  - intros _ url _ _ _. init_cbn. apply (iv_connected _ _ Hi Hr). by right.
Qed.

Lemma failed_initiating i k i' proved :
  initiating i proved → in_shutting i = false → k ∈ [connect; handshake; relay_read; relay_write] → on_init_error i k = Ok i' →
  given_up i' ∨ initiating i' proved.
Proof.
  intros Hi Hsh Hk. unfold on_init_error. intros (i1 & [Hpos ->]%give_i_Ok & Heq)%bind_Ok. init_cbn. rewrite Hsh in Heq.
  destruct (negb (in_connected i) && bool_decide (in_role i = role_active)) eqn:Hc; [|left; left; by injection Heq as <-].
  apply andb_true_iff in Hc as [Hc%negb_true_iff Hr%bool_decide_eq_true].
  assert (¬ (in_held i handshake = 1 ∨ in_held i relay_read = 1)) as Hno by (intros Hx; by rewrite (iv_connected _ _ Hi Hr Hx) in Hc).
  assert (k = connect) as ->.
  { set_unfold in Hk. destruct Hk as [->|[->|[->|[->|[]]]]]; [done|exfalso; apply Hno..].
    - left. by destruct (one_under_way i proved handshake Hi ltac:(clear; set_solver) Hpos) as (_ & Hx & _).
    - right. by destruct (one_under_way i proved relay_read Hi ltac:(clear; set_solver) Hpos) as (_ & Hx & _).
    - right. destruct (iv_write _ _ Hi) as [Hw1 Hw2]. apply Hw2. lia. }
  destruct (one_under_way i proved connect Hi ltac:(clear; set_solver) Hpos) as (_ & _ & _ & Hw). specialize (Hw ltac:(done)).
  apply (ended_next i proved connect i' proved) in Heq; done || (clear; set_solver).
Qed.

Lemma written_initiating i i' proved : initiating i proved → on_relay_written i = Ok i' → initiating i' proved.
Proof.
  intros [Hh Hinit Hbusy Hdone [Hw1 Hw2] ??????]. unfold on_relay_written. intros [Hpos ->]%give_i_Ok.
  split; unfold under_way in *; init_cbn; try done.
  - intros k. case_decide; [lia|apply Hh].
  - intros Hz. destruct (Hdone Hz) as (_ & Hno & _). lia.
  - rewrite decide_True by done. lia.
Qed.

Lemma init_handle_initiating m now i ev i' proved :
  initiating i proved → in_shutting i = false → init_enabled i ev → init_handle m now i ev = Ok i' →
  given_up i' ∨ initiating i' (shown ev proved).
Proof.
  intros Hi Hsh Hen. destruct ev as [|found| |device name ep| |data|k| | |]; cbn [init_handle init_enabled shown] in *; [done|..].
  - by apply resolved_initiating.
  - by apply connected_initiating.
  - by apply (handshake_initiating m now i device name ep i' proved).
  - intros Hw. right. by apply (written_initiating i).
  - destruct Hen as [_ Hw], (in_joining i) eqn:Hj; intros Hr; [by apply (read_relay_initiating i data)|by apply (read_invitation_initiating i data)].
  - destruct Hen as [Hk _]. by apply (failed_initiating i k).
  - unfold on_init_start. destruct (match in_active_uri i with Some u => _ | None => _ end) as [proto sub]. intros (st & _ & Heq)%bind_Ok.
    left. left. by injection Heq as <-.
  - unfold init_shutdown_start. intros (i1 & Hg & Heq)%bind_Ok. left. right.
    assert (in_shutting i1 = true) as Hs1 by (destruct (0 <? _); [by apply give_i_Ok in Hg as [_ ->]|by injection Hg as <-]).
    by destruct (_ || _); injection Heq as <-.
  - congruence.
Qed.

(** What the actor begins with when the peer, or the relay, called: one operation. *)
Lemma first_initiating i k proved :
  k ∈ [resolving; handshake] → (∀ x, in_held i x = if decide (x = k ∨ x = initializing) then 1 else 0) → in_role i ≠ role_active →
  in_relaying i = false → st_connection (in_state i) = offline → initiating i proved.
Proof.
  intros Hk Hh Hr Hrel Hst. set_unfold in Hk. destruct Hk as [->|[->|[]]]; split; unfold under_way; rewrite ?Hh, ?Hrel; try done; try (by left).
  all: intros x; rewrite Hh; by case_decide.
Qed.

Lemma on_init_initiating token peer uris relay_enabled relay_key has_sock m now i :
  on_init m now (new_initiator token peer uris relay_enabled relay_key has_sock) = Ok i → given_up i ∨ initiating i None.
Proof.
  unfold on_init. set (i0 := take_i _ initializing). change (in_role (new_initiator _ _ _ _ _ _)) with (in_role i0).
  destruct (in_role i0) eqn:Hr.
  - intros (i1 & Hs & Heq)%bind_Ok. destruct (send_state_spec m now _ _ Hs) as (E1 & E2 & E3 & E4 & E5 & E6 & E7 & E8); [by left|].
    apply (next_uri_initiating i1 None); try done; unfold under_way; rewrite ?E2, ?E3, ?E8; try done; [by intros []|by right].
  - intros Heq. injection Heq as <-. right. apply (first_initiating _ handshake); try done; [set_solver|by intros []|].
    change (in_role i0 ≠ role_active). by rewrite Hr.
  - unfold initiate_relay_passive. destruct (in_shutting i0) eqn:Hs; [done|]. destruct (in_uris i0) as [|u us]; [done|].
    intros Heq. injection Heq as <-. right. apply (first_initiating _ resolving); try done; [set_solver|by intros []|].
    change (in_role i0 ≠ role_active). by rewrite Hr.
Qed.

Lemma reaches_initiating i proved : init_reaches i proved → given_up i ∨ initiating i proved.
Proof.
  induction 1 as [????????? Hb|i proved m now ev i' _ IH Hen Hh]; [by eapply on_init_initiating|].
  pose proof (init_handle_end _ _ _ _ _ Hen Hh) as [Hk1 Hk2]. unfold given_up in *.
  destruct IH as [[Ha|Hs]|Hi]; [left; left; auto|left; right; auto|].
  destruct (in_shutting i) eqn:Hs; [left; right; auto|]. by apply (init_handle_initiating m now i ev).
Qed.

(** C21: as long as the actor has not given up, it either waits for the end of exactly one operation (beside the read of the answer of a relay, the request may still be written), or is free to start; then the
    last handshake showed a device, and the connection with this very device is handed over, in the state connected. *)
Theorem peer_shown i proved :
  init_reaches i proved → in_asked i = false → in_shutting i = false →
  (in_held i initializing = 1 ∧ under_way i = 1 ∧ in_held i relay_write <= in_held i relay_read) ∨
  (in_held i initializing = 0 ∧ under_way i = 0 ∧ in_held i relay_write = 0 ∧ proved = Some (in_peer i) ∧
   ∃ i' st url, on_init_start i = Ok i' ∧ st_connection st = connected ∧
     in_out i' = in_out i ++ [PeerConnected (in_peer i) st url; InitShutdown Connected]).
Proof.
  intros Hr Ha Hs. destruct (reaches_initiating i proved Hr) as [[?|?]|[Hh Hinit Hbusy Hdone [Hw1 Hw2] _ _ _ _ _ _]]; [congruence..|].
  pose proof (Hh initializing). pose proof (Hh relay_read). pose proof (Hh relay_write).
  destruct (decide (in_held i initializing = 0)) as [Hz|]; [right|left; split_and!; [lia|apply Hbusy; lia|]].
  2: { destruct (decide (in_held i relay_write = 1)) as [Hx|]; [specialize (Hw2 Hx)|]; lia. }
  destruct (Hdone Hz) as (Hu & Hw & Hp & Hst). split_and!; [done..|]. unfold on_init_start, to_connected.
  destruct (match in_active_uri i with Some u => _ | None => _ end) as [proto sub].
  rewrite bool_decide_eq_true_2 by done. cbn [assert res_bind].
  eexists _, (mkState (st_token (in_state i)) connected None), _. split_and!; [done..|]. init_cbn. by rewrite <- app_assoc.
Qed.
End initiator.

(** ** A peer with three addresses *)

#[local] Existing Instance r_environment.
#[local] Instance y_urls : Urls := {| uri_params := λ _, [(chars "id", sample_id)]; uri_host := λ _, chars "h"; print_v4 := λ _, chars "h" |}.

Definition y_relay : uri := mkUri (chars "relay://r:7") (chars "relay") 7.
Definition y_first : uri := mkUri (chars "tcp://a:7") (chars "tcp") 7.
Definition y_second : uri := mkUri (chars "tcp://b:7") (chars "tcp") 7.
Definition y_peer : device_id := DeviceId.DeviceId [9] (prefix_device :: repeat 9 32).

Definition y_step i (ev : init_event) : initiator := match init_handle None 0 i ev with Ok i' => i' | _ => i end.
Definition y_begin (uris : list uri) : initiator :=
  let i := new_initiator 0 y_peer uris true [] false in match on_init None 0 i with Ok i' => i' | _ => i end.

Lemma y_steps i proved ev :
  init_reaches i proved → init_enabled i ev → init_handle None 0 i ev = Ok (y_step i ev) → init_reaches (y_step i ev) (shown ev proved).
Proof. apply init_goes_on. Qed.

Definition y_resolved : initiator := y_step (y_begin [y_first]) (IResolved true).
Definition y_connected : initiator := y_step y_resolved IConnected.
Definition y_shown : initiator := y_step y_connected (IHandshake (Some y_peer) true (chars "a")).

Example peer_shown_witness :
  in_held y_shown initializing = 0 ∧
  ∃ i' st url, on_init_start y_shown = Ok i' ∧ st_connection st = connected ∧
    in_out i' = in_out y_shown ++ [PeerConnected y_peer st url; InitShutdown Connected].
Proof.
  destruct (peer_shown y_shown (Some y_peer)) as [[Hbad _]|(Hz & _ & _ & _ & Hstart)].
  - apply (y_steps y_connected None (IHandshake (Some y_peer) true (chars "a"))); [|by vm_compute|vm_compute; reflexivity].
    apply (y_steps y_resolved None IConnected); [|by vm_compute|vm_compute; reflexivity].
    apply (y_steps (y_begin [y_first]) None (IResolved true)); [|by vm_compute|vm_compute; reflexivity].
    apply (init_begins 0 y_peer [y_first] true [] false None 0). vm_compute. reflexivity.
  - by vm_compute.
  - by vm_compute.
  - by vm_compute in Hbad.
  - by split.
Defined.

(** That a relay was reached is remembered while the next address is tried: when that one cannot be connected to, the last one is
    not tried any more. *)
Example relay_reached_ends :
  let i := foldl y_step (y_begin [y_second; y_relay; y_first])
    [IResolved true; IConnected; IHandshake (Some y_peer) true []; IWritten; IRead (Relay.serialize (Relay.response 1 (chars "not found")));
     IResolved true; IFailed connect] in
  in_active_uri i = Some y_first ∧ in_uris i = [y_second] ∧ last (in_out i) = Some (InitShutdown InitIoFailed).
Proof. vm_compute. done. Qed.

(** Without the relay, it is. *)
Example next_address_tried :
  let i := foldl y_step (y_begin [y_second; y_first]) [IResolved true; IFailed connect] in
  in_active_uri i = Some y_second ∧ in_uris i = [] ∧ in_held i resolving = 1.
Proof. vm_compute. done. Qed.
