(* ===== verification/Database.v ===== *)
(** * Database: [src/db]: what the program stores under which keys, how it walks over the records of a kind, the version of
    the database and its migration. The engine (libmdbx) is the class [Engine], what is relied on is [EngineLaws]; the
    encoding of the records (protopuf) is [DbCodec] with [DbCodecLaws]. *)

From stdpp Require Import sorting.
From S2P Require Import Prelude Proto DeviceId Device Blocks FileInfo GenericMap Folder Wire Cluster Changes.

(** ** The engine *)

(** Calls answer a new state or a code; [mdbx_pairs] is what a cursor walks over, in its order. *)
Class Engine := {
  store : Type;
  MDBX_NOTFOUND : Z;
  mdbx_begin : store → store + Z;
  mdbx_get : store → bytes → bytes + Z;
  mdbx_put : store → bytes → bytes → store + Z;
  mdbx_del : store → bytes → store + Z;
  mdbx_pairs : store → list (bytes * bytes);
  mdbx_commit : store → store + Z;
}.

(** The order of keys. *)
Fixpoint bytes_le (a b : bytes) : Prop :=
  match a, b with
  | [], _ => True
  | _ :: _, [] => False
  | x :: a, y :: b => x < y ∨ (x = y ∧ bytes_le a b)
  end.

(** The engine as documented, in runs in which no call fails for want of memory or space: a transaction begins with what
    was committed, and reads what it wrote. A failure is an error that the definitions below pass on. *)
Class EngineLaws `{Engine} := {
  contents : store → gmap bytes bytes;
  begin_ok s : ∃ t, mdbx_begin s = inl t ∧ contents t = contents s;
  get_ok s k v : contents s !! k = Some v → mdbx_get s k = inl v;
  get_absent s k : contents s !! k = None → mdbx_get s k = inr MDBX_NOTFOUND;
  put_ok s k v : ∃ t, mdbx_put s k v = inl t ∧ contents t = <[k := v]> (contents s);
  del_ok s k : is_Some (contents s !! k) → ∃ t, mdbx_del s k = inl t ∧ contents t = delete k (contents s);
  del_absent s k : contents s !! k = None → mdbx_del s k = inr MDBX_NOTFOUND;
  pairs_ok s : mdbx_pairs s ≡ₚ map_to_list (contents s);
  pairs_sorted s : StronglySorted bytes_le (map fst (mdbx_pairs s));
  commit_ok s : ∃ t, mdbx_commit s = inl t ∧ contents t = contents s;
}.

(** ** The records *)

Class DbCodec := {
  db_environment :: Environment;
  encode_device : DbDevice → bytes;
  encode_folder : DbFolder → bytes;
  encode_folder_info : DbFolderInfo → bytes;
  decode_folder_info : bytes → option DbFolderInfo;
  encode_file : DbFileInfo → bytes;
  decode_file : bytes → option DbFileInfo;
  encode_block : DbBlockInfo → bytes;
  decode_block : bytes → option DbBlockInfo;
  decode_block_ex : bytes → option Z;
  encode_pending_folder : DbPendingFolder → bytes;
  encode_some_device : DbSomeDevice → bytes;
  encode_ignored_folder : DbIgnoredFolder → bytes;
}.

Class DbCodecLaws `{DbCodec} := {
  device_law db : decode_device (encode_device db) = Some db;
  folder_law db : decode_folder (encode_folder db) = Some db;
  folder_info_law db : decode_folder_info (encode_folder_info db) = Some db;
  file_law db : decode_file (encode_file db) = Some db;
  block_law db : decode_block (encode_block db) = Some db;
  pending_folder_law db : decode_pending_folder (encode_pending_folder db) = Some db;
  some_device_law db : decode_some_device (encode_some_device db) = Some db;
  ignored_folder_law db : decode_ignored_folder (encode_ignored_folder db) = Some db;
}.

Definition prefix_misc : Z := 1.

Section database.
Context `{Engine} `{DbCodec}.

(** [make_error_code] of a code of the engine. *)
Definition checked {A} (r : A + Z) : res A := match r with inl a => Ok a | inr code => Err (mdbx_error code) end.

(** [db::save], [db::remove]. *)
Definition save (s : store) (key value : bytes) : res store := checked (mdbx_put s key value).
Definition db_remove (s : store) (key : bytes) : res store := checked (mdbx_del s key).

(** [cursor_t::iterate], from the record after the anchor of the prefix; the first byte of a key is read. *)
Fixpoint iterate_next (prefix : Z) (pairs : list (bytes * bytes)) : res (list (bytes * bytes)) :=
  match pairs with
  | [] => Ok []
  | (k, v) :: pairs =>
      match k with
      | [] => Ub
      | front :: _ =>
          if prefix <? front then Ok []
          else let* rest := iterate_next prefix pairs in Ok ((k, v) :: rest)
      end
  end.

(** [MDBX_SET] moves the cursor to the anchor; without it there is nothing to walk over. *)
Fixpoint iterate (prefix : Z) (pairs : list (bytes * bytes)) : res (list (bytes * bytes)) :=
  match pairs with
  | [] => Ok []
  | (k, _) :: pairs => if bool_decide (k = [prefix]) then iterate_next prefix pairs else iterate prefix pairs
  end.

(** [db::load]. *)
Definition load (prefix : Z) (s : store) : res (list (bytes * bytes)) := iterate prefix (mdbx_pairs s).

(** ** The version *)

Definition db_version : Z := 3.

(** [prefixer_t<prefix::misc>::make("db_version")]. *)
Definition version_key : bytes := prefix_misc :: chars "db_version".

Definition get_version (s : store) : res Z :=
  match mdbx_get s version_key with
  | inr code => if code =? MDBX_NOTFOUND then Ok 0 else Err (mdbx_error code)
  | inl value => if negb (length value =? 4)%nat then Err db_version_size_mismatch else read32 value
  end.

Definition save_version (v : Z) (s : store) : res store := save s version_key (be32 v).

(** ** Migration *)

(** The prefixes of the records, in the order of [migrate_0]. *)
Definition record_prefixes : list Z :=
  [prefix_device; prefix_folder; prefix_folder_info; prefix_file_info; prefix_ignored_device; prefix_ignored_folder;
   prefix_pending_folder; prefix_block_info; prefix_pending_device].

(** The anchors. *)
Fixpoint save_anchors (prefixes : list Z) (s : store) : res store :=
  match prefixes with
  | [] => Ok s
  | prefix :: prefixes => let* s := save s [prefix] [0] in save_anchors prefixes s
  end.

Definition migrate_0 (self : device) (s : store) : res store :=
  let* s := save_version 1 s in
  let* s := save_anchors record_prefixes s in
  save s (device_key local_id self) (encode_device (serialize_device self)).

Fixpoint migrate_infos (self_key : bytes) (pairs : list (bytes * bytes)) (s : store) : res store :=
  match pairs with
  | [] => Ok s
  | (key, value) :: pairs =>
      match decode_folder_info value with
      | None => Err folder_info_deserialization_failure
      | Some db =>
          let* s := save s key (encode_folder_info (mkDbFolderInfo (di_index_id db) (di_max_sequence db) self_key)) in
          migrate_infos self_key pairs s
      end
  end.

(** Every folder info gets this device as its introducer. *)
Definition migrate_1 (self : device) (s : store) : res store :=
  let* pairs := load prefix_folder_info s in
  migrate_infos (get_key (d_id self)) pairs s.

Fixpoint migrate_blocks (pairs : list (bytes * bytes)) (s : store) : res store :=
  match pairs with
  | [] => Ok s
  | (key, value) :: pairs =>
      match decode_block_ex value with
      | None => migrate_blocks pairs s
      | Some size => let* s := save s key (encode_block (mkDbBlockInfo size)) in migrate_blocks pairs s
      end
  end.

(** Blocks lose their weak hash. *)
Definition migrate_2 (s : store) : res store :=
  let* pairs := load prefix_block_info s in
  let* s := migrate_blocks pairs s in
  save_version db_version s.

Definition do_migrate (from : Z) (self : device) (s : store) : res store :=
  if from =? 0 then migrate_0 self s
  else if from =? 1 then migrate_1 self s
  else if from =? 2 then migrate_2 s
  else Err cannot_downgrade_db.

(** [db::migrate]: at most three steps lead to the current version, and any other number stops at the first one. *)
Fixpoint migrate_loop (fuel : nat) (from : Z) (self : device) (s : store) : res store :=
  if from =? db_version then checked (mdbx_commit s)
  else
    match fuel with
    | O => Ub
    | S fuel => let* s := do_migrate from self s in migrate_loop fuel (from + 1) self s
    end.

Definition migrate (from : Z) (self : device) (s : store) : res store := migrate_loop 4 from self s.
End database.
