(* ===== verification/DbActor.v ===== *)
(** * DbActor: [src/net/db_actor.cpp]: after every change of the cluster the database follows it, record by record; at the
    start the cluster is read from the database in portions. *)

From S2P Require Import Prelude Diff Version Proto DeviceId Device Blocks FileInfo FileStore FileMap GenericMap Folder.
From S2P Require Import Resolver BlockMap UpdateFolder Streamer FileIterator Advance Cluster Changes Trees Wire Database.

Record db_config := mkDbConfig {
  dc_uncommitted_threshold : Z;
  dc_max_blocks_per_diff : nat;
  dc_max_files_per_diff : nat;
}.

Section actor.
Context `{Engine} `{DbCodec} (cfg : db_config).

(** [da_env] is what is committed, [da_txn] the open transaction. *)
Record db_actor := mkDbActor {
  da_env : store;
  da_txn : option store;
  da_uncommitted : Z;
  da_down : bool;
}.

Definition with_txn (a : db_actor) (t : store) : db_actor := mkDbActor (da_env a) (Some t) (da_uncommitted a) (da_down a).

(** The folder infos that are to be saved at the end of a visit ([folder_infos_set_t]), by folder and device. *)
Definition dirty : Type := list (bytes * bytes).

Definition visit_state : Type := db_actor * dirty.

(** Calls change the state also when they fail: what was written before stays in the transaction. *)
Definition M (A : Type) : Type := visit_state → visit_state * res A.

Definition ret {A} (x : A) : M A := λ s, (s, Ok x).
Definition lift {A} (r : res A) : M A := λ s, (s, r).
Definition bind {A B} (f : M A) (g : A → M B) : M B :=
  λ s, match f s with (s, Ok x) => g x s | (s, Err e) => (s, Err e) | (s, Ub) => (s, Ub) end.

#[local] Notation "'let!' x ':=' f 'in' g" := (bind f (λ x, g)) (at level 10, x binder, f at level 100, g at level 200).

(** ** Transactions *)

Definition get_txn : M store := λ s,
  let '(a, set) := s in
  match da_txn a with
  | Some t => (s, Ok t)
  | None =>
      match mdbx_begin (da_env a) with
      | inr code => (s, Err (mdbx_error code))
      | inl t => ((mkDbActor (da_env a) (Some t) 0 (da_down a), set), Ok t)
      end
  end.

(** [*get_txn().assume_value()]: an error is not looked at. *)
Definition must_txn : M store := λ s, match get_txn s with (s, Err _) => (s, Ub) | r => r end.

(** The holder is reset whether the commit succeeded or not. *)
Definition commit_on_demand (a : db_actor) : db_actor * res unit :=
  match da_txn a with
  | None => (a, Ok tt)
  | Some t =>
      let uncommitted := da_uncommitted a + 1 in
      if dc_uncommitted_threshold cfg <=? uncommitted then
        match mdbx_commit t with
        | inl env => (mkDbActor env None uncommitted (da_down a), Ok tt)
        | inr code => (mkDbActor (da_env a) None uncommitted (da_down a), Err (mdbx_error code))
        end
      else (mkDbActor (da_env a) (Some t) uncommitted (da_down a), Ok tt)
  end.

Definition force_commit : M unit := λ s,
  let '(a, set) := s in ((mkDbActor (da_env a) (da_txn a) (dc_uncommitted_threshold cfg) (da_down a), set), Ok tt).

(** Writing to the open transaction. *)
Definition in_txn (f : store → res store) : M unit := λ s,
  let '(a, set) := s in
  match da_txn a with
  | None => (s, Ub)
  | Some t => match f t with Ok t => ((with_txn a t, set), Ok tt) | Err e => (s, Err e) | Ub => (s, Ub) end
  end.

Definition put (key value : bytes) : M unit := in_txn (λ t, save t key value).
Definition del (key : bytes) : M unit := in_txn (λ t, db_remove t key).

(** ** The records of the cluster *)

Section visitor.
Context (m : model) (tainted : bool).

Definition put_device (dev : device) : M unit := put (device_key local_id dev) (encode_device (serialize_device dev)).

Definition put_some (sd : some_device) : M unit := put (sd_key sd) (encode_some_device (serialize_some sd)).

Definition put_pending (pf : pending_folder) : M unit := put (pn_key pf) (encode_pending_folder (serialize_pending pf)).

Definition put_folder (fo : folder) : M unit := put (fo_key fo) (encode_folder (serialize_folder (fo_data fo))).

Definition put_info (fi : folder_info) : M unit := put (fi_key fi) (encode_folder_info (serialize_folder_info fi)).

Definition put_file (f : file_info) : M unit :=
  let! db := lift (as_db f (cl_heap (mo_cluster m)) true) in
  put (prefix_file_info :: get_full_id f) (encode_file db).

Definition put_block (b : block_info) : M unit := put (prefix_block_info :: b_hash b) (encode_block (mkDbBlockInfo (b_size b))).

Definition erase_dirty (x : bytes * bytes) : M unit := λ s, ((s.1, filter (λ y, y ≠ x) s.2), Ok tt).

Definition add_dirty (x : bytes * bytes) : M unit := λ s, ((s.1, if bool_decide (x ∈ s.2) then s.2 else x :: s.2), Ok tt).

Definition save_folder_info (folder_id sha256 : bytes) : M unit :=
  let! _ := get_txn in
  let! fo := lift (the (folder_by_id (folders_of m) folder_id)) in
  let! fi := lift (the (by_device_id (fo_infos fo) sha256)) in
  let! _ := put_info fi in
  let! _ := erase_dirty (folder_id, sha256) in
  force_commit.

(** ** The visitor: one definition per kind of change *)

(** [remove]; a key gets the prefix in a buffer of 128 bytes. *)
Fixpoint remove_all (prefix : Z) (keys : list bytes) : M unit :=
  match keys with
  | [] => ret tt
  | key :: keys =>
      let! used_key :=
        if prefix =? 0 then ret key else let! _ := lift (assert (length key <? 128)%nat) in ret (prefix :: key) in
      let! _ := del used_key in
      remove_all prefix keys
  end.

Definition visit_remove (prefix : Z) (keys : list bytes) : M unit := let! _ := must_txn in remove_all prefix keys.

Fixpoint put_all_pending (pfs : list pending_folder) : M unit :=
  match pfs with [] => ret tt | pf :: pfs => let! _ := put_pending pf in put_all_pending pfs end.

Definition visit_cluster_update : M unit := let! _ := must_txn in put_all_pending (mo_pending_folders m).

Definition visit_upsert_folder (folder_id : bytes) : M unit :=
  let! _ := must_txn in
  let! fo := lift (the (folder_by_id (folders_of m) folder_id)) in
  put_folder fo.

Fixpoint put_blocks (blocks : list BlockInfo) : M unit :=
  match blocks with
  | [] => ret tt
  | it :: blocks =>
      let! p := lift (the (by_hash (cl_blocks (mo_cluster m)) (pb_hash it))) in
      let! b := lift (deref (cl_heap (mo_cluster m)) p) in
      let! _ := put_block b in
      put_blocks blocks
  end.

Definition visit_add_blocks (blocks : list BlockInfo) : M unit := let! _ := must_txn in put_blocks blocks.

(** The loop of [add_pending_folders_t] ends with the first folder that is saved. *)
Fixpoint put_first_pending (items : list pending_item) : M unit :=
  match items with
  | [] => ret tt
  | item :: items =>
      match gget (mo_pending_folders m) 1 (do_id (dp_folder (pi_db item))) with
      | Some uf => if bool_decide (get_sha256 (pn_device uf) = pi_peer_id item) then put_pending uf else put_first_pending items
      | None => put_first_pending items
      end
  end.

Definition visit_add_pending_folders (items : list pending_item) : M unit := let! _ := must_txn in put_first_pending items.

(** A device of a map of unknown or ignored ones. *)
Definition visit_some_device (ds : list some_device) (id : device_id) : M unit :=
  let! _ := must_txn in
  let! sd := lift (the (some_by_sha256 ds (get_sha256 id))) in
  put_some sd.

Definition visit_device (sha256 : bytes) : M unit :=
  let! dev := lift (the (by_sha256 (mo_devices m) sha256)) in
  let! _ := must_txn in
  put_device dev.

Definition visit_del (key : bytes) : M unit := let! _ := must_txn in del key.

Definition visit_upsert_folder_info (device_id folder_id : bytes) : M unit :=
  let! dev := lift (the (by_sha256 (mo_devices m) device_id)) in
  save_folder_info folder_id (get_sha256 (d_id dev)).

Definition visit_advance (d : advance) : M unit :=
  match folder_by_id (folders_of m) (av_folder_id d) with
  | None => ret tt
  | Some fo =>
      if fo_suspended fo then ret tt
      else
        match by_device_id (fo_infos fo) (self_sha m) with
        | None => ret tt
        | Some fi =>
            let! file := lift (file_by_name (mo_cluster m) fi (pf_name (av_local d))) in
            match file with
            | None => ret tt
            | Some (_, f) =>
                let! _ := must_txn in
                let! _ := put_file f in
                add_dirty (av_folder_id d, self_sha m)
            end
        end
  end.

Fixpoint put_files (fi : folder_info) (files : list FileInfo) : M unit :=
  match files with
  | [] => ret tt
  | f :: files =>
      let! file := lift (file_by_name (mo_cluster m) fi (pf_name f)) in
      let! file := lift (the file) in
      let! _ := put_file (snd file) in
      put_files fi files
  end.

Definition visit_update_folder (d : update_folder) : M unit :=
  let! _ := get_txn in
  let! fo := lift (the (folder_by_id (folders_of m) (uf_folder_id d))) in
  let! fi := lift (the (by_device_id (fo_infos fo) (uf_peer_id d))) in
  let! _ := put_info fi in
  put_files fi (uf_files d).

(** The changes of blocks that an advance or an index update has as children. *)
Definition visit_blocks (new_blocks : list BlockInfo) (removed_blocks : list bytes) : M unit :=
  let! _ := if bool_decide (new_blocks = []) then ret tt else let! _ := visit_add_blocks new_blocks in force_commit in
  if bool_decide (removed_blocks = []) then ret tt
  else let! _ := visit_remove prefix_block_info removed_blocks in force_commit.

Definition visit_advance_blocks (d : advance) : M unit :=
  let! _ := visit_advance d in visit_blocks (av_new_blocks d) (av_orphans d).

(** What is done before [visit_next]. *)
Definition visit_before (o : op) : M unit :=
  match o with
  | ClusterUpdate _ => visit_cluster_update
  | UpsertFolder _ db => visit_upsert_folder (do_id db)
  | AddBlocks blocks => visit_add_blocks blocks
  | AddPendingFolders items => visit_add_pending_folders items
  | AddIgnoredDevice _ _ | RemovePeer _ => let! _ := must_txn in ret tt
  | AddPendingDevice id _ | UnknownConnected id _ => visit_some_device (mo_pending_devices m) id
  | IgnoredConnected id _ => visit_some_device (mo_ignored_devices m) id
  | RemoveBlocks keys => visit_remove prefix_block_info keys
  | RemoveCorruptedFiles keys | RemoveFiles _ _ keys | RemoveFolderInfos keys | RemovePendingFolders keys => visit_remove 0 keys
  | RemoveFolder _ key | RemoveIgnoredDevice key | RemovePendingDevice key => visit_del key
  | UpdatePeer _ peer_id | PeerState _ peer_id _ _ _ _ => visit_device peer_id
  | UpsertFolderInfo _ device_id _ folder_id _ => visit_upsert_folder_info device_id folder_id
  | RemoteCopy d | LocalUpdate d => visit_advance_blocks d
  | RemoteWin d sibling => let! _ := visit_advance_blocks d in visit_advance_blocks sibling
  | UpdateFolder d => let! _ := visit_update_folder d in visit_blocks (uf_new_blocks d) (uf_removed_blocks d)
  | _ => ret tt
  end.

(** What is done after it. *)
Definition visit_after (o : op) : M unit :=
  match o with
  | AddIgnoredDevice id _ => let! _ := visit_some_device (mo_ignored_devices m) id in force_commit
  | RemovePeer key => let! _ := del key in force_commit
  | ClusterUpdate _ | UpsertFolder _ _ | AddBlocks _ | AddPendingFolders _ | AddPendingDevice _ _ | UnknownConnected _ _
  | IgnoredConnected _ _ | RemoveBlocks _ | RemoveCorruptedFiles _ | RemoveFiles _ _ _ | RemoveFolderInfos _
  | RemovePendingFolders _ | RemoveFolder _ _ | RemoveIgnoredDevice _ | RemovePendingDevice _ | UpdatePeer _ _
  | PeerState _ _ _ _ _ _ | RemoteCopy _ | LocalUpdate _ | RemoteWin _ _ | UpdateFolder _ => force_commit
  | _ => ret tt
  end.

(** Changes whose visitor looks at [is_tainted], and then leaves out its children and siblings. *)
Definition stops_tainted (o : op) : bool :=
  match o with
  | ClusterUpdate _ | UpsertFolder _ _ | AddBlocks _ | AddPendingFolders _ | AddIgnoredDevice _ _ | AddPendingDevice _ _
  | UnknownConnected _ _ | IgnoredConnected _ _ | RemoveBlocks _ | RemoveCorruptedFiles _ | RemoveFiles _ _ _
  | RemoveFolderInfos _ | RemovePendingFolders _ | RemovePeer _ | RemoveIgnoredDevice _ | RemovePendingDevice _
  | UpdatePeer _ _ | PeerState _ _ _ _ _ _ | UpsertFolderInfo _ _ _ _ _ | RemoteCopy _ | LocalUpdate _ | RemoteWin _ _
  | UpdateFolder _ => true
  | _ => false
  end.

(** Does the visitor go on at all? An interrupt ends the walk, and so does the state of a peer that was not online before. *)
Definition visit_stops (o : op) : bool :=
  match o with
  | Interrupt => true
  | PeerState has_been_online _ _ _ _ _ => negb has_been_online
  | _ => false
  end || (tainted && stops_tainted o).

(** [diff.visit] with the actor as visitor and the set of folder infos. *)
Fixpoint visit_diff (d : diff op) : M unit :=
  match d with
  | Null => ret tt
  | Node o c sib =>
      if visit_stops o then ret tt
      else
        let! _ := visit_before o in
        let! _ := visit_diff c in
        let! _ := visit_diff sib in
        visit_after o
  end.

(** The folder infos that are left at the end. *)
Fixpoint save_dirty (set : dirty) : M unit :=
  match set with
  | [] => ret tt
  | (folder_id, sha256) :: set => let! _ := save_folder_info folder_id sha256 in save_dirty set
  end.

(** [db_actor_t::visit]: an error shuts the actor down. *)
Definition visit (d : diff op) (a : db_actor) : res db_actor :=
  let '((a, _), r) := (let! _ := visit_diff d in λ s, save_dirty s.2 s) (a, []) in
  let '(a, r) := match r with Ok _ => commit_on_demand a | _ => (a, r) end in
  match r with
  | Ok _ => Ok a
  | Err _ => Ok (mkDbActor (da_env a) (da_txn a) (da_uncommitted a) true)
  | Ub => Ub
  end.
End visitor.

(** [shutdown_finish]: what is not committed yet, is; an error is only logged. *)
Definition shutdown_finish (a : db_actor) : db_actor :=
  match da_txn a with
  | Some t =>
      if negb (da_uncommitted a =? 0) then
        fst (commit_on_demand (mkDbActor (da_env a) (Some t) (dc_uncommitted_threshold cfg) (da_down a)))
      else a
  | None => a
  end.

(** ** Loading *)

(** [partial_load_t]: the chain of changes so far, what is left of blocks and files. *)
Record partial_load := mkPartialLoad {
  pl_chain : list op;
  pl_known_hashes : list bytes;
  pl_blocks : list (bytes * bytes);
  pl_files : list (bytes * bytes);
  pl_folder_infos_uuids : list bytes;
  pl_corrupted_files : list bytes;
}.

(** The folder infos of the database, with their uuids. *)
Fixpoint load_infos (pairs : list (bytes * bytes)) : res (list (bytes * DbFolderInfo) * list bytes) :=
  match pairs with
  | [] => Ok ([], [])
  | (key, value) :: pairs =>
      let* decomposed := fi_decompose_key key in
      match decode_folder_info value with
      | None => Err folder_info_deserialization_failure
      | Some db =>
          let* '(items, uuids) := load_infos pairs in
          Ok ((key, db) :: items, dk_folder_info_id decomposed :: uuids)
      end
  end.

(** [on_cluster_load_trigger]; an error is sent as [load_cluster_fail_t]. *)
Definition on_cluster_load_trigger (a : db_actor) : res partial_load :=
  let* txn := checked (mdbx_begin (da_env a)) in
  let* devices := load prefix_device txn in
  let* blocks := load prefix_block_info txn in
  let* ignored_devices := load prefix_ignored_device txn in
  let* ignored_folders := load prefix_ignored_folder txn in
  let* folders := load prefix_folder txn in
  let* infos := load prefix_folder_info txn in
  let* '(folder_infos, uuids) := load_infos infos in
  let* files := load prefix_file_info txn in
  let* pending_devices := load prefix_pending_device txn in
  let* pending_folders := load prefix_pending_folder txn in
  Ok (mkPartialLoad
        [LoadDevices devices; LoadIgnoredDevices ignored_devices; LoadIgnoredFolders ignored_folders; LoadFolders folders;
         LoadFolderInfos folder_infos; LoadPendingDevices pending_devices; LoadPendingFolders pending_folders]
        [] blocks files uuids []).

(** The blocks of a portion; one that can not be decoded is left out. *)
Fixpoint unpack_blocks (pairs : list (bytes * bytes)) : list (bytes * DbBlockInfo) :=
  match pairs with
  | [] => []
  | (key, value) :: pairs =>
      match decode_block value with
      | None => unpack_blocks pairs
      | Some db => (key, db) :: unpack_blocks pairs
      end
  end.

(** A file is whole when all its blocks are known and its folder info is there. *)
Definition whole_file (known_hashes uuids : list bytes) (key : bytes) (db : DbFileInfo) : bool :=
  forallb (λ h, bool_decide (h ∈ known_hashes)) (df_blocks db) && bool_decide (take uuid_length (drop 1 key) ∈ uuids).

Fixpoint unpack_files (known_hashes uuids : list bytes) (pairs : list (bytes * bytes)) : list (bytes * DbFileInfo) * list bytes :=
  match pairs with
  | [] => ([], [])
  | (key, value) :: pairs =>
      let '(items, corrupted) := unpack_files known_hashes uuids pairs in
      match decode_file value with
      | None => (items, corrupted)
      | Some db => if whole_file known_hashes uuids key db then ((key, db) :: items, corrupted) else (items, key :: corrupted)
      end
  end.

(** What a message leads to: it is sent again, or the tree is done. *)
Inductive load_reply :=
| Bounced (p : partial_load)
| Loaded (d : diff op).

Definition chain (ops : list op) : diff op := foldr (λ o d, Node o Null d) Null ops.

(** [on_patrial_load]. *)
Definition on_partial_load (p : partial_load) : load_reply :=
  match pl_blocks p with
  | _ :: _ =>
      let n := dc_max_blocks_per_diff cfg in
      let slice := unpack_blocks (take n (pl_blocks p)) in
      let rest := drop n (pl_blocks p) in
      Bounced (mkPartialLoad (pl_chain p ++ LoadBlocks slice :: (if bool_decide (rest = []) then [] else [Interrupt]))
                 (pl_known_hashes p ++ map (λ x, drop 1 (fst x)) slice) rest (pl_files p) (pl_folder_infos_uuids p) (pl_corrupted_files p))
  | [] =>
      match pl_files p with
      | _ :: _ =>
          let n := dc_max_files_per_diff cfg in
          let '(items, corrupted) := unpack_files (pl_known_hashes p) (pl_folder_infos_uuids p) (take n (pl_files p)) in
          let rest := drop n (pl_files p) in
          Bounced (mkPartialLoad (pl_chain p ++ LoadFileInfos items :: (if bool_decide (rest = []) then [] else [Interrupt]))
                     (pl_known_hashes p) [] rest (pl_folder_infos_uuids p) (pl_corrupted_files p ++ corrupted))
      | [] =>
          let corrupted := if bool_decide (pl_corrupted_files p = []) then [] else [RemoveCorruptedFiles (pl_corrupted_files p)] in
          Loaded (Node LoadCluster (chain (pl_chain p ++ corrupted ++ [Commit])) Null)
      end
  end.

(** The messages one after the other, at most [n]. *)
Fixpoint load_loop (n : nat) (p : partial_load) : option (diff op) :=
  match n with
  | O => None
  | S n => match on_partial_load p with Loaded d => Some d | Bounced p => load_loop n p end
  end.
End actor.
