(* ===== verification/Persist.v ===== *)
(** * Persist: which records the database has for a cluster, and that it has them: what the visitor of [DbActor] writes
    after a change keeps the database a mirror of the cluster. *)

From stdpp Require Import sorting.
From S2P Require Import Prelude Diff Version Proto DeviceId Device Blocks FileInfo FileStore FileMap GenericMap Folder.
From S2P Require Import Resolver BlockMap UpdateFolder ApplyUpdate Streamer FileIterator Advance Cluster Changes Trees Removal.
From S2P Require Import Wire Database DbActor.

(** ** The records of a cluster *)

(** The items of a list as keys and values. *)
Definition records {A} (key value : A → bytes) (l : list A) (k v : bytes) : Prop := ∃ x, x ∈ l ∧ k = key x ∧ v = value x.

Section records.
Context `{DbCodec}.

Definition device_value (dev : device) : bytes := encode_device (serialize_device dev).
Definition folder_value (fo : folder) : bytes := encode_folder (serialize_folder (fo_data fo)).
Definition info_value (fi : folder_info) : bytes := encode_folder_info (serialize_folder_info fi).
Definition some_value (sd : some_device) : bytes := encode_some_device (serialize_some sd).
Definition ignored_value (f : ignored_folder) : bytes := encode_ignored_folder (mkDbIgnoredFolder (if_label f)).
Definition pending_value (pf : pending_folder) : bytes := encode_pending_folder (serialize_pending pf).
Definition block_value (b : block_info) : bytes := encode_block (mkDbBlockInfo (b_size b)).
Definition file_value (h : heap) (f : file_info) : bytes :=
  match as_db f h true with Ok db => encode_file db | _ => [] end.

Definition file_key (f : file_info) : bytes := prefix_file_info :: get_full_id f.
Definition block_key (b : block_info) : bytes := prefix_block_info :: b_hash b.

(** What the folders lead to, and the blocks that are known. *)
Definition infos_of (m : model) : list folder_info := folders_of m ≫= fo_infos.
Definition files_of_cluster (c : cluster) : list file_info := omap (λ p, cl_files c !! p) (files_in (cl_folders c)).
Definition blocks_of (c : cluster) : list block_info := omap (λ x, cl_heap c !! x.2) (map_to_list (cl_blocks c)).

(** The records under a prefix. *)
Definition component (m : model) (prefix : Z) : bytes → bytes → Prop :=
  let c := mo_cluster m in
  if prefix =? prefix_device then records (device_key local_id) device_value (mo_devices m)
  else if prefix =? prefix_folder then records fo_key folder_value (folders_of m)
  else if prefix =? prefix_folder_info then records fi_key info_value (infos_of m)
  else if prefix =? prefix_file_info then records file_key (file_value (cl_heap c)) (files_of_cluster c)
  else if prefix =? prefix_ignored_device then records sd_key some_value (mo_ignored_devices m)
  else if prefix =? prefix_ignored_folder then records if_key ignored_value (mo_ignored_folders m)
  else if prefix =? prefix_pending_folder then records pn_key pending_value (mo_pending_folders m)
  else if prefix =? prefix_block_info then records block_key block_value (blocks_of c)
  else if prefix =? prefix_pending_device then records sd_key some_value (mo_pending_devices m)
  else λ _ _, False.

Inductive recorded (m : model) : bytes → bytes → Prop :=
| rec_version : recorded m version_key (be32 db_version)
| rec_anchor p : p ∈ record_prefixes → recorded m [p] [0]
| rec_item p x rest v : component m p (p :: x :: rest) v → recorded m (p :: x :: rest) v.

(** The database has the records of the cluster and no others. *)
Definition mirrors (g : gmap bytes bytes) (m : model) : Prop := ∀ k v, g !! k = Some v ↔ recorded m k v.

(** ** Walking over the records of a prefix *)

Lemma component_prefix m p k v : component m p k v → p ∈ record_prefixes.
Proof.
  unfold component, record_prefixes. rewrite !elem_of_cons.
  repeat (case_match eqn:E; [apply Z.eqb_eq in E; tauto|]; clear E). done.
Qed.

Lemma recorded_item m p x rest v : p ≠ prefix_misc → recorded m (p :: x :: rest) v ↔ component m p (p :: x :: rest) v.
Proof.
  intros Hp. split; [|apply rec_item]. intros Hr. inversion Hr; [congruence|done].
Qed.

Lemma misc_no_record : prefix_misc ∉ record_prefixes.
Proof. unfold record_prefixes. rewrite !elem_of_cons, elem_of_nil. unfold prefix_misc. by intros [?|[?|[?|[?|[?|[?|[?|[?|[?|[]]]]]]]]]]. Qed.

Lemma bytes_le_head x a y b : bytes_le (x :: a) (y :: b) → x <= y.
Proof. intros [?|[-> _]]; lia. Qed.

Lemma iterate_next_spec prefix pairs :
  StronglySorted bytes_le (map fst pairs) → (∀ kv, kv ∈ pairs → ∃ x rest, kv.1 = x :: rest ∧ prefix <= x) →
  iterate_next prefix pairs = Ok (filter (λ kv, head kv.1 = Some prefix) pairs).
Proof.
  induction pairs as [|[k v] pairs IH]; [done|]. cbn [map fst]. intros Hs Hh.
  inversion Hs as [|? ? Hs' Hall]; subst. destruct (Hh (k, v)) as (x & rest & Hk & Hx); [by left|]. cbn in Hk. subst k.
  cbn [iterate_next]. destruct (Z.ltb_spec prefix x) as [Hlt|Hge].
  - f_equal. symmetry. apply filter_none. intros kv Hkv Heq. apply elem_of_cons in Hkv as [->|Hkv]; [cbn in Heq; injection Heq as ->; lia|].
    rewrite Forall_forall in Hall. specialize (Hall kv.1). destruct (Hh kv) as (y & rest' & Hy & _); [by right|].
    rewrite Hy in Heq. cbn in Heq. assert (y = prefix) as -> by congruence.
    assert (bytes_le (x :: rest) kv.1) as Hle by (apply Hall, list_elem_of_fmap; by exists kv). rewrite Hy in Hle. apply bytes_le_head in Hle. lia.
  - assert (x = prefix) as -> by lia. rewrite IH; [|done|intros kv Hkv; apply Hh; by right]. cbn [res_bind].
    by rewrite filter_cons_True.
Qed.

Lemma iterate_spec prefix pairs v0 :
  StronglySorted bytes_le (map fst pairs) → NoDup (map fst pairs) → ([prefix], v0) ∈ pairs → (∀ kv, kv ∈ pairs → kv.1 ≠ []) →
  iterate prefix pairs = Ok (filter (λ kv, head kv.1 = Some prefix ∧ kv.1 ≠ [prefix]) pairs).
Proof.
  induction pairs as [|[k v] pairs IH]; [by intros _ _ ?%elem_of_nil|]. cbn [map fst]. intros Hs Hnd Hin Hne.
  inversion Hs as [|? ? Hs' Hall]; subst. apply NoDup_cons in Hnd as [Hk Hnd]. rewrite Forall_forall in Hall. cbn [iterate].
  case_bool_decide as Hkp.
  - subst k. rewrite filter_cons_False by (cbn; tauto). rewrite iterate_next_spec; [|done|].
    + f_equal. apply filter_ext, Forall_forall. intros kv Hkv. split; [|tauto]. intros Hh. split; [done|].
      intros Heq. apply Hk, list_elem_of_fmap. by exists kv.
    + intros kv Hkv. assert (bytes_le [prefix] kv.1) as Hle by (apply Hall, list_elem_of_fmap; by exists kv).
      destruct kv.1 as [|x rest] eqn:E; [done|]. exists x, rest. split; [done|]. by apply bytes_le_head in Hle.
  - apply elem_of_cons in Hin as [[=]|Hin]; [done|]. rewrite filter_cons_False.
    + apply IH; try done. intros kv Hkv. apply Hne. by right.
    + cbn. intros [Hh _]. assert (bytes_le k [prefix]) as Hle.
      { apply Hall. apply list_elem_of_fmap. by exists ([prefix], v0). }
      destruct k as [|x rest]; [done|]. cbn in Hh. injection Hh as ->. destruct Hle as [?|[_ Hr]]; [lia|].
      destruct rest; [done|by destruct Hr].
Qed.

Lemma load_spec `{EngineLaws} (s : store) m prefix :
  mirrors (contents s) m → prefix ∈ record_prefixes →
  ∃ pairs, load prefix s = Ok pairs ∧ NoDup pairs ∧
    ∀ k v, (k, v) ∈ pairs ↔ ∃ x rest, k = prefix :: x :: rest ∧ component m prefix k v.
Proof.
  intros Hm Hp. unfold load.
  assert (∀ kv, kv ∈ mdbx_pairs s ↔ contents s !! kv.1 = Some kv.2) as Hin.
  { intros [k v]. rewrite (pairs_ok s). apply elem_of_map_to_list. }
  assert (NoDup (map fst (mdbx_pairs s))) as Hnd.
  { change (@map (bytes * bytes) bytes) with (@fmap list _ (bytes * bytes) bytes). rewrite (pairs_ok s). apply NoDup_fst_map_to_list. }
  eexists. split; [eapply iterate_spec; [apply pairs_sorted|done| |]|].
  - apply Hin. cbn. apply Hm. by apply rec_anchor.
  - intros kv Hkv Hnil. apply Hin, Hm in Hkv. rewrite Hnil in Hkv. inversion Hkv.
  - split; [apply NoDup_filter; by eapply NoDup_fmap_1|]. intros k v. rewrite list_elem_of_filter, Hin. cbn [fst snd].
    split.
    + intros [[Hh Hne] Hr]. apply Hm in Hr. inversion Hr as [Hk Hv|q Hq Hk Hv|q x rest v' Hc Hk Hv]; subst.
      * injection Hh as <-. by destruct misc_no_record.
      * cbn in Hh. injection Hh as ->. done.
      * cbn in Hh. injection Hh as ->. by exists x, rest.
    + intros (x & rest & -> & Hc). split; [by split|]. apply Hm. by apply rec_item.
Qed.

(** The records that were read, as items. *)
Lemma pairs_items {A} (key value : A → bytes) (l : list A) (pairs : list (bytes * bytes)) :
  NoDup l → (∀ x y, x ∈ l → y ∈ l → key x = key y → x = y) → NoDup pairs →
  (∀ k v, (k, v) ∈ pairs ↔ records key value l k v) →
  ∃ xs, xs ≡ₚ l ∧ pairs = map (λ x, (key x, value x)) xs.
Proof.
  intros Hl Hinj Hp Hin.
  assert (pairs ≡ₚ map (λ x, (key x, value x)) l) as Hperm.
  { apply NoDup_Permutation; [done| |].
    - apply NoDup_fmap_2_strong; [|done]. intros x y Hx Hy [= Hk _]. by apply Hinj.
    - intros [k v]. rewrite Hin. unfold records. rewrite list_elem_of_fmap. naive_solver. }
  destruct (Permutation_map_inv _ _ Hperm) as (xs & -> & Hxs). by exists xs.
Qed.
End records.
