(* ===== verification/DbSample.v ===== *)
(** * DbSample: an engine and a codec that fulfil [EngineLaws] and [DbCodecLaws], so that the theorems about the database can
    be applied; the records of a cluster as a list. *)

From stdpp Require Import sorting.
From S2P Require Import Prelude Diff Version Proto DeviceId Device Blocks FileInfo FileStore FileMap GenericMap Folder.
From S2P Require Import Resolver BlockMap UpdateFolder ApplyUpdate Streamer FileIterator Advance Cluster Changes Trees Removal.
From S2P Require Import Wire Database DbActor Persist.

(** ** An engine in memory *)

#[local] Instance bytes_le_dec a b : Decision (bytes_le a b).
Proof. revert b. induction a as [|x a IH]; intros [|y b]; cbn; [left; done|left; done|right; tauto|]. specialize (IH b). apply _. Defined.

Definition pair_le (a b : bytes * bytes) : Prop := bytes_le a.1 b.1.

#[local] Instance pair_le_dec a b : Decision (pair_le a b).
Proof. unfold pair_le. apply _. Defined.

#[local] Instance pair_le_total : Total pair_le.
Proof.
  intros [a va] [b vb]. unfold pair_le. cbn [fst]. revert b. induction a as [|x a IH]; intros [|y b]; cbn; auto.
  destruct (Z.lt_trichotomy x y) as [?|[->|?]]; [by auto| |by auto]. destruct (IH b); auto.
Qed.

#[local] Instance pair_le_trans : Transitive pair_le.
Proof.
  intros [a va] [b vb] [c vc]. unfold pair_le. cbn [fst]. revert b c. induction a as [|x a IH]; intros [|y b] [|z c]; cbn; try done.
  intros [?|[-> ?]] [?|[-> ?]]; [left; lia|by left|by left|]. right. split; [done|]. by eapply IH.
Qed.

Definition mem_engine : Engine := {|
  store := gmap bytes bytes;
  MDBX_NOTFOUND := -30798;
  mdbx_begin s := inl s;
  mdbx_get s k := match s !! k with Some v => inl v | None => inr (-30798) end;
  mdbx_put s k v := inl (<[k := v]> s);
  mdbx_del s k := match s !! k with Some _ => inl (delete k s) | None => inr (-30798) end;
  mdbx_pairs s := merge_sort pair_le (map_to_list s);
  mdbx_commit s := inl s;
|}.

Lemma fst_sorted l : StronglySorted pair_le l → StronglySorted bytes_le (map fst l).
Proof.
  induction 1 as [|x l Hs IH Hall]; cbn [map]; constructor; [done|]. apply Forall_fmap. exact Hall.
Qed.

Definition mem_engine_laws : @EngineLaws mem_engine.
Proof.
  refine (@Build_EngineLaws mem_engine (λ s, s) _ _ _ _ _ _ _ _ _); cbn.
  - intros s. by exists s.
  - by intros s k v ->.
  - by intros s k ->.
  - intros s k v. by eexists.
  - intros s k [v ->]. by eexists.
  - by intros s k ->.
  - intros s. apply merge_sort_Permutation.
  - intros s. apply fst_sorted, (StronglySorted_merge_sort pair_le).
  - intros s. by exists s.
Defined.

(** ** A codec: the fields one after the other *)

Record coder (A : Type) := mkCoder {
  write : A → bytes → bytes;
  read : bytes → option (A * bytes);
  write_read : ∀ x l, read (write x l) = Some (x, l);
}.
Arguments write {A}.
Arguments read {A}.
Arguments write_read {A}.

Definition z_coder : coder Z.
Proof. refine (mkCoder Z cons (λ l, match l with z :: l => Some (z, l) | [] => None end) _). done. Defined.

Definition pair_coder {A B} (a : coder A) (b : coder B) : coder (A * B).
Proof.
  refine (mkCoder _ (λ x l, write a x.1 (write b x.2 l)) (λ l, '(x, l) ← read a l; '(y, l) ← read b l; Some ((x, y), l)) _).
  intros [x y] l. rewrite write_read. cbn. by rewrite write_read.
Defined.

Definition map_coder {A B} (a : coder A) (f : A → B) (g : B → A) (fg : ∀ y, f (g y) = y) : coder B.
Proof.
  refine (mkCoder _ (λ y l, write a (g y) l) (λ l, '(x, l) ← read a l; Some (f x, l)) _).
  intros y l. rewrite write_read. cbn. by rewrite fg.
Defined.

Fixpoint read_list {A} (a : coder A) (n : nat) (l : bytes) : option (list A * bytes) :=
  match n with
  | O => Some ([], l)
  | S n => '(x, l) ← read a l; '(xs, l) ← read_list a n l; Some (x :: xs, l)
  end.

Definition list_coder {A} (a : coder A) : coder (list A).
Proof.
  refine (mkCoder _ (λ xs l, Z.of_nat (length xs) :: foldr (write a) l xs)
    (λ l, match l with n :: l => read_list a (Z.to_nat n) l | [] => None end) _).
  intros xs l. rewrite Nat2Z.id. induction xs as [|x xs IH]; [done|]. cbn [length foldr read_list]. rewrite write_read. cbn. by rewrite IH.
Defined.

Definition bytes_coder : coder bytes := list_coder z_coder.

Definition bool_coder : coder bool.
Proof. refine (map_coder z_coder (λ z, z =? 1) (λ b, if b then 1 else 0) _). by intros []. Defined.

Definition type_coder : coder FileInfoType.
Proof.
  refine (map_coder z_coder (λ z, match z with 0 => FILE | 1 => DIRECTORY | 2 => SYMLINK_FILE | 3 => SYMLINK_DIRECTORY | _ => SYMLINK end)
    (λ t, match t with FILE => 0 | DIRECTORY => 1 | SYMLINK_FILE => 2 | SYMLINK_DIRECTORY => 3 | SYMLINK => 4 end) _). by intros [].
Defined.

Definition compression_coder : coder Compression.
Proof.
  refine (map_coder z_coder (λ z, match z with 0 => METADATA | 1 => NEVER | _ => ALWAYS end)
    (λ t, match t with METADATA => 0 | NEVER => 1 | ALWAYS => 2 end) _). by intros [].
Defined.

Definition folder_type_coder : coder FolderType.
Proof.
  refine (map_coder z_coder (λ z, match z with 0 => send | 1 => receive | _ => send_and_receive end)
    (λ t, match t with send => 0 | receive => 1 | send_and_receive => 2 end) _). by intros [].
Defined.

Definition pull_order_coder : coder PullOrder.
Proof.
  refine (map_coder z_coder (λ z, match z with 0 => random | 1 => alphabetic | 2 => smallest | 3 => largest | 4 => oldest | _ => newest end)
    (λ t, match t with random => 0 | alphabetic => 1 | smallest => 2 | largest => 3 | oldest => 4 | newest => 5 end) _). by intros [].
Defined.

(** ** The records *)

Definition vector_coder : coder vector.
Proof. refine (list_coder (map_coder (pair_coder z_coder z_coder) (λ x, Counter x.1 x.2) (λ c, (c_id c, c_value c)) _)). by intros []. Defined.

Definition device_coder : coder DbDevice.
Proof.
  refine (map_coder (pair_coder bytes_coder (pair_coder (list_coder bytes_coder) (pair_coder compression_coder (pair_coder bytes_coder
    (pair_coder bool_coder (pair_coder bool_coder (pair_coder bool_coder (pair_coder bool_coder z_coder))))))))
    (λ '(a, (b, (c, (d, (e, (f, (g, (h, i)))))))), mkDbDevice a b c d e f g h i)
    (λ x, (dd_name x, (dd_addresses x, (dd_compression x, (dd_cert_name x, (dd_introducer x, (dd_skip_introduction_removals x,
       (dd_auto_accept x, (dd_paused x, dd_last_seen x))))))))) _). by intros [].
Defined.

Definition folder_coder : coder DbFolder.
Proof.
  refine (map_coder (pair_coder bytes_coder (pair_coder bytes_coder (pair_coder bool_coder (pair_coder bool_coder (pair_coder bool_coder
    (pair_coder bool_coder (pair_coder bool_coder (pair_coder bytes_coder (pair_coder folder_type_coder (pair_coder pull_order_coder
    (pair_coder z_coder bool_coder)))))))))))
    (λ '(a, (b, (c, (d, (e, (f, (g, (h, (i, (j, (k, l))))))))))), mkDbFolder a b c d e f g h i j k l)
    (λ x, (do_id x, (do_label x, (do_ignore_permissions x, (do_ignore_delete x, (do_disable_temp_indexes x, (do_paused x, (do_scheduled x,
       (do_path x, (do_folder_type x, (do_pull_order x, (do_rescan_interval x, do_watched x)))))))))))) _). by intros [].
Defined.

Definition folder_info_coder : coder DbFolderInfo.
Proof.
  refine (map_coder (pair_coder z_coder (pair_coder z_coder bytes_coder)) (λ '(a, (b, c)), mkDbFolderInfo a b c)
    (λ x, (di_index_id x, (di_max_sequence x, di_introducer_device_key x))) _). by intros [].
Defined.

Definition file_coder : coder DbFileInfo.
Proof.
  refine (map_coder (pair_coder bytes_coder (pair_coder type_coder (pair_coder z_coder (pair_coder z_coder (pair_coder z_coder (pair_coder z_coder
    (pair_coder z_coder (pair_coder bool_coder (pair_coder bool_coder (pair_coder bool_coder (pair_coder vector_coder (pair_coder z_coder
    (pair_coder z_coder (pair_coder bytes_coder (list_coder bytes_coder)))))))))))))))
    (λ '(a, (b, (c, (d, (e, (f, (g, (h, (i, (j, (k, (l, (m, (n, o)))))))))))))), mkDbFileInfo a b c d e f g h i j k l m n o)
    (λ x, (df_name x, (df_type x, (df_size x, (df_permissions x, (df_modified_s x, (df_modified_ns x, (df_modified_by x, (df_deleted x,
       (df_invalid x, (df_no_permissions x, (df_version x, (df_sequence x, (df_block_size x, (df_symlink_target x, df_blocks x))))))))))))))) _).
  by intros [].
Defined.

Definition block_coder : coder DbBlockInfo.
Proof. refine (map_coder z_coder mkDbBlockInfo db_size _). by intros []. Defined.

Definition pending_folder_coder : coder DbPendingFolder.
Proof.
  refine (map_coder (pair_coder folder_coder folder_info_coder) (λ '(a, b), mkDbPendingFolder a b) (λ x, (dp_folder x, dp_folder_info x)) _). by intros [].
Defined.

Definition some_device_coder : coder DbSomeDevice.
Proof.
  refine (map_coder (pair_coder bytes_coder (pair_coder bytes_coder (pair_coder bytes_coder (pair_coder bytes_coder z_coder))))
    (λ '(a, (b, (c, (d, e)))), mkDbSomeDevice a b c d e)
    (λ x, (ds_name x, (ds_client_name x, (ds_client_version x, (ds_address x, ds_last_seen x))))) _). by intros [].
Defined.

Definition ignored_folder_coder : coder DbIgnoredFolder.
Proof. refine (map_coder bytes_coder mkDbIgnoredFolder dg_label _). by intros []. Defined.

Definition encode_with {A} (a : coder A) (x : A) : bytes := write a x [].
Definition decode_with {A} (a : coder A) (l : bytes) : option A := fst <$> read a l.

Lemma coder_roundtrip {A} (a : coder A) x : decode_with a (encode_with a x) = Some x.
Proof. unfold decode_with, encode_with. by rewrite write_read. Qed.

Definition mem_environment : Environment := {|
  env_platform := posix;
  local_id := DeviceId.DeviceId [] (prefix_device :: repeat 255 32);
  parse_uri := sample_parse;
  decode_device := decode_with device_coder;
  decode_folder := decode_with folder_coder;
  decode_pending_folder := decode_with pending_folder_coder;
  decode_some_device := decode_with some_device_coder;
  decode_ignored_folder := decode_with ignored_folder_coder;
  local_zone := λ _, mkLocalTime 0 0 0 0 0 0;
|}.

Definition mem_codec : DbCodec := {|
  db_environment := mem_environment;
  encode_device := encode_with device_coder;
  encode_folder := encode_with folder_coder;
  encode_folder_info := encode_with folder_info_coder;
  decode_folder_info := decode_with folder_info_coder;
  encode_file := encode_with file_coder;
  decode_file := decode_with file_coder;
  encode_block := encode_with block_coder;
  decode_block := decode_with block_coder;
  decode_block_ex := λ l, db_size <$> decode_with block_coder l;
  encode_pending_folder := encode_with pending_folder_coder;
  encode_some_device := encode_with some_device_coder;
  encode_ignored_folder := encode_with ignored_folder_coder;
|}.

Definition mem_codec_laws : @DbCodecLaws mem_codec.
Proof. split; intros; apply coder_roundtrip. Defined.

Lemma sample_parse_text s u : sample_parse s = Some u → u_text u = s.
Proof. unfold sample_parse. case_bool_decide; [|done]. by intros [= <-]. Qed.

(** ** The image of a cluster *)

Section image.
Context `{DbCodec}.

Definition pairs_with {A} (key value : A → bytes) (l : list A) : list (bytes * bytes) := map (λ x, (key x, value x)) l.

Definition items_of (m : model) : list (Z * list (bytes * bytes)) :=
  let c := mo_cluster m in
  [(prefix_device, pairs_with (device_key local_id) device_value (mo_devices m));
   (prefix_folder, pairs_with fo_key folder_value (folders_of m));
   (prefix_folder_info, pairs_with fi_key info_value (infos_of m));
   (prefix_file_info, pairs_with file_key (file_value (cl_heap c)) (files_of_cluster c));
   (prefix_ignored_device, pairs_with sd_key some_value (mo_ignored_devices m));
   (prefix_ignored_folder, pairs_with if_key ignored_value (mo_ignored_folders m));
   (prefix_pending_folder, pairs_with pn_key pending_value (mo_pending_folders m));
   (prefix_block_info, pairs_with block_key block_value (blocks_of c));
   (prefix_pending_device, pairs_with sd_key some_value (mo_pending_devices m))].

Definition db_image (m : model) : list (bytes * bytes) :=
  (version_key, be32 db_version) :: map (λ p, ([p], [0])) record_prefixes ++ (items_of m ≫= snd).

(** Every key has its prefix and more. *)
Definition well_keyed (x : Z * list (bytes * bytes)) : bool :=
  forallb (λ kv, match fst kv with p :: _ :: _ => p =? fst x | _ => false end) (snd x).

Lemma pairs_with_elem {A} (key value : A → bytes) l k v : (k, v) ∈ pairs_with key value l ↔ records key value l k v.
Proof. unfold pairs_with, records. rewrite list_elem_of_fmap. naive_solver. Qed.

Lemma component_items m p k v : component m p k v ↔ ∃ l, (p, l) ∈ items_of m ∧ (k, v) ∈ l.
Proof.
  unfold items_of. setoid_rewrite elem_of_cons. setoid_rewrite elem_of_cons. setoid_rewrite elem_of_cons. setoid_rewrite elem_of_cons.
  setoid_rewrite elem_of_cons. setoid_rewrite elem_of_cons. setoid_rewrite elem_of_cons. setoid_rewrite elem_of_cons.
  setoid_rewrite list_elem_of_singleton. split.
  - unfold component.
    repeat (case_match eqn:E; [apply Z.eqb_eq in E; subst p; intros Hr%pairs_with_elem; eexists; split; [|exact Hr]; tauto|]; clear E). done.
  - intros (l & Hl & Hin).
    repeat destruct Hl as [[= -> ->]|Hl]; [..|injection Hl as -> ->]; apply pairs_with_elem in Hin; exact Hin.
Qed.

Lemma image_recorded m k v : forallb well_keyed (items_of m) = true → recorded m k v ↔ (k, v) ∈ db_image m.
Proof.
  intros Hk. unfold db_image. rewrite elem_of_cons, elem_of_app, list_elem_of_fmap, list_elem_of_bind. split.
  - intros [|p Hp|p x rest v' (l & Hl & Hin)%component_items]; [by left|right; left; by exists p|]. right. right. by exists (p, l).
  - intros [[= -> ->]|[(p & [= -> ->] & Hp)|([p l] & Hin & Hl)]]; [constructor|by constructor|]. rewrite forallb_forall in Hk.
    specialize (Hk (p, l)). rewrite <- list_elem_of_In in Hk. specialize (Hk Hl). unfold well_keyed in Hk. rewrite forallb_forall in Hk.
    specialize (Hk (k, v)). rewrite <- list_elem_of_In in Hk. specialize (Hk Hin). cbn [fst snd] in Hk, Hin.
    destruct k as [|q [|x rest]]; [done|done|]. apply Z.eqb_eq in Hk. subst q. constructor. apply component_items. by exists l.
Qed.

Lemma image_mirrors m : forallb well_keyed (items_of m) = true → NoDup (db_image m).*1 → mirrors (list_to_map (db_image m)) m.
Proof. intros Hk Hnd k v. rewrite image_recorded by done. symmetry. by apply elem_of_list_to_map. Qed.
End image.
