(* ===== verification/RestoreFiles.v ===== *)
(** * RestoreFiles: a file that is read from the database: made of its record and the blocks that are known, it has the record
    it was read from, and it fits into the cluster again. *)

From S2P Require Import Prelude Diff Version Proto DeviceId Device Blocks FileInfo FileStore FileMap GenericMap Folder.
From S2P Require Import Resolver BlockMap UpdateFolder ApplyUpdate Streamer FileIterator Advance Cluster Changes.

(** ** Records as messages *)

(** A record of the database is loaded as a message of a peer would be. *)
Definition db_message (db : DbFileInfo) : FileInfo :=
  mkFileInfo (df_name db) (df_type db) (df_size db) (df_permissions db) (df_modified_s db) (df_modified_ns db) (df_modified_by db)
    (df_deleted db) (df_invalid db) (df_no_permissions db) (df_version db) (df_sequence db) (df_block_size db)
    (map (mkBlockInfo 0 0) (df_blocks db)) (df_symlink_target db).

Lemma create_file_db_eq this uuid fi_uuid db h :
  length fi_uuid = uuid_length → length uuid = uuid_length →
  create_file_db this (prefix_file_info :: create_key uuid fi_uuid) db fi_uuid h = create_file this uuid (db_message db) fi_uuid h.
Proof.
  intros Hf Hu. unfold create_file_db, create_key.
  assert ((length (prefix_file_info :: fi_uuid ++ uuid) =? data_length + 1)%nat = true) as ->.
  { cbn [length]. by rewrite length_app, Hf, Hu. }
  cbn [negb]. rewrite bool_decide_eq_false_2 by (cbn; naive_solver).
  change (drop 1 (prefix_file_info :: fi_uuid ++ uuid)) with (fi_uuid ++ uuid).
  rewrite take_app_length', bool_decide_eq_true_2 by done. cbn [assert res_bind].
  unfold create_file, fields_update, fields_update_db. cbn [db_message pf_type pf_deleted pf_invalid pf_no_permissions pf_name pf_version
    pf_modified_s pf_modified_by pf_sequence pf_permissions pf_modified_ns pf_size pf_blocks pf_symlink_target].
  by rewrite length_map.
Qed.

Lemma link_blocks_eq known this hashes : ∀ i f h,
  Forall (λ x, length x = Blocks.digest_length) hashes →
  link_blocks known this i hashes f h = load_blocks known this i (map (mkBlockInfo 0 0) hashes) f h.
Proof.
  induction hashes as [|x hashes IH]; intros i f h Hl; cbn [map link_blocks load_blocks]; [done|].
  apply Forall_cons in Hl as [Hx Hl]. unfold make_strict_hash. cbn [pb_hash]. rewrite bool_decide_eq_true_2 by lia.
  cbn [assert res_bind]. rewrite Hx, Nat.sub_diag, app_nil_r. unfold the. destruct (by_hash known x) as [p|]; cbn [res_bind]; [|done].
  destruct (assign_block this f h p i) as [[f' h']| |]; cbn [res_bind]; [|done..]. by apply IH.
Qed.

(** What a record must have to be loaded again. *)
Record whole_record (db : DbFileInfo) : Prop := {
  wr_name : df_name db ≠ [];
  wr_version : df_version db ≠ [] ∧ Forall plain (df_version db);
  wr_length : Z.of_nat (length (df_blocks db)) < 2 ^ 31;
  wr_hashes : Forall (λ x, length x = Blocks.digest_length) (df_blocks db);
  wr_blocks : loaded (db_message db) = true ∨ df_blocks db = [];
}.

Lemma load_file_eq known this uuid fi_uuid db h :
  whole_record db → length fi_uuid = uuid_length → length uuid = uuid_length →
  (let* '(f, h) := create_file_db this (prefix_file_info :: create_key uuid fi_uuid) db fi_uuid h in
   link_blocks known this 0 (df_blocks db) f h) = make_file known this uuid (db_message db) fi_uuid h.
Proof.
  intros [Hn [Hv _] _ Hh Hb] Hf Hu. rewrite create_file_db_eq by done. unfold make_file.
  destruct (version_of_proto_marks _ Hv) as (v & _ & Hv' & _).
  rewrite (create_file_eq _ _ _ _ v) by done. cbn [res_bind]. rewrite link_blocks_eq by done.
  change (map (mkBlockInfo 0 0) (df_blocks db)) with (pf_blocks (db_message db)).
  assert (is_file (created uuid fi_uuid (db_message db) v) && negb (is_deleted (created uuid fi_uuid (db_message db) v)) &&
    negb (pf_size (db_message db) =? 0) = loaded (db_message db)) as ->.
  { rewrite created_is_file. unfold loaded, is_deleted, created. cbn [f_flags].
    by destruct (wire_flags_facts (pf_type (db_message db)) (pf_deleted (db_message db)) (pf_invalid (db_message db)) (pf_no_permissions (db_message db))) as (_ & -> & _). }
  destruct (loaded (db_message db)) eqn:E; [done|]. destruct Hb as [|Hb]; [done|]. cbn [db_message pf_blocks]. by rewrite Hb.
Qed.

(** ** The record of a file that was loaded *)

(** Slots of two files, on two heaps, with the same content. *)
Definition twin (h h' : heap) (s s' : slot) : Prop :=
  ∃ p l p' l' b b', s = Some (p, l) ∧ s' = Some (p', l') ∧ h !! p = Some b ∧ h' !! p' = Some b' ∧ b_hash b' = b_hash b ∧ b_size b' = b_size b.

(** Two files with the same record, but for their content. *)
Definition same_head (f f' : file_info) : Prop :=
  f_name f' = f_name f ∧ f_modified_s f' = f_modified_s f ∧ f_modified_by f' = f_modified_by f ∧ f_sequence f' = f_sequence f ∧
  f_permissions f' = f_permissions f ∧ i32 (f_modified_ns f') = i32 (f_modified_ns f) ∧ as_proto (f_version f') = as_proto (f_version f) ∧
  as_type (f_flags f') = as_type (f_flags f) ∧ is_file f' = is_file f ∧ is_deleted f' = is_deleted f ∧ is_invalid f' = is_invalid f ∧
  has_no_permissions f' = has_no_permissions f.

Lemma twin_deref h h' s s' : twin h h' s s' → ∃ b b', deref_slot h s = Ok b ∧ deref_slot h' s' = Ok b' ∧ b_hash b' = b_hash b ∧ b_size b' = b_size b.
Proof.
  intros (p & l & p' & l' & b & b' & -> & -> & Hb & Hb' & Hh & Hs). exists b, b'. unfold deref_slot, deref. by rewrite Hb, Hb'.
Qed.

Lemma twin_hashes h h' bs bs' : Forall2 (twin h h') bs bs' → db_hashes h' bs' = db_hashes h bs.
Proof.
  induction 1 as [|s s' bs bs' (p & l & p' & l' & b & b' & -> & -> & Hb & Hb' & Hh & _) _ IH]; [done|]. cbn [db_hashes].
  unfold deref. rewrite Hb, Hb', IH. cbn [res_bind]. by rewrite Hh.
Qed.

Lemma as_db_twin f f' h h' :
  same_head f f' →
  (if is_file f then ∃ bs bs', f_content f = FileContent bs ∧ f_content f' = FileContent bs' ∧ Forall2 (twin h h') bs bs'
   else f_content f' = f_content f) →
  as_db f' h' true = as_db f h true.
Proof.
  intros (Hn & Hms & Hmb & Hs & Hp & Hns & Hv & Ht & Hif & Hd & Hi & Hnp) Hc.
  unfold as_db. rewrite Hif, Hd, Hi, Hnp, Hn, Ht, Hp, Hms, Hns, Hmb, Hv, Hs. destruct (is_file f) eqn:Ef.
  - destruct Hc as (bs & bs' & Hb & Hb' & HF). unfold get_size, get_block_size, file_blocks. rewrite Hif, Hd, Hi, Ef, Hb, Hb'. cbn [res_bind].
    rewrite (twin_hashes h h' bs bs' HF), <- (Forall2_length _ _ _ HF).
    assert ((match bs' with [] => Ok 0 | front :: _ => let* b := deref_slot h' front in Ok (i32 (u32 (b_size b))) end) =
      (match bs with [] => Ok 0 | front :: _ => let* b := deref_slot h front in Ok (i32 (u32 (b_size b))) end)) as ->.
    { destruct HF as [|s s' bs bs' Hss _]; [done|]. destruct (twin_deref _ _ _ _ Hss) as (b & b' & -> & -> & _ & Hsz). cbn [res_bind]. by rewrite Hsz. }
    destruct (negb (is_deleted f) && negb (is_invalid f)); [|done].
    destruct HF as [|s s' bs bs' Hss HF]; [done|].
    destruct (twin_deref _ _ _ _ Hss) as (b & b' & Hb1 & Hb1' & _ & Hsz). rewrite Hb1, Hb1'. cbn [res_bind].
    assert (∃ t t', last (s :: bs) = Some t ∧ last (s' :: bs') = Some t' ∧ twin h h' t t') as (t & t' & -> & -> & Htt).
    { clear -Hss HF. revert s s' Hss. induction HF as [|u u' bs bs' Hu HF IH]; intros s s' Hss; [by exists s, s'|]. by apply IH. }
    destruct (twin_deref _ _ _ _ Htt) as (c & c' & -> & -> & _ & Hsz'). cbn [res_bind]. by rewrite Hsz, Hsz'.
  - unfold symlink_target. by rewrite Hc.
Qed.

Lemma u32_i32 x : u32 (i32 x) = u32 x.
Proof.
  unfold i32. assert (u32 (u32 x) = u32 x) as Hm by (unfold u32; apply Z.mod_mod; lia). destruct (Z.ltb_spec (u32 x) (2 ^ 31)); [done|].
  rewrite <- Hm at 2. unfold u32 at 1. rewrite Zminus_mod, Z_mod_same_full, Z.sub_0_r. unfold u32. rewrite !Z.mod_mod by lia. done.
Qed.

Lemma i32_u32 x : i32 (u32 x) = i32 x.
Proof. unfold i32. by replace (u32 (u32 x)) with (u32 x) by (unfold u32; by rewrite Z.mod_mod by lia). Qed.

Lemma wire_flags_types flags d i np :
  let type := as_type flags in
  as_type (wire_flags 0 type d i np) = type ∧ has_flag (wire_flags 0 type d i np) f_invalid = i ∧
  has_flag (wire_flags 0 type d i np) f_no_permissions = np.
Proof. intros type. unfold type, as_type. repeat case_match; destruct d, i, np; done. Qed.

(** What the record of a file says. *)
Lemma as_db_fields f h db : as_db f h true = Ok db →
  df_name db = f_name f ∧ df_type db = as_type (f_flags f) ∧ df_permissions db = f_permissions f ∧ df_modified_s db = f_modified_s f ∧
  df_modified_ns db = i32 (f_modified_ns f) ∧ df_modified_by db = f_modified_by f ∧ df_deleted db = is_deleted f ∧
  df_invalid db = is_invalid f ∧ df_no_permissions db = has_no_permissions f ∧ df_version db = as_proto (f_version f) ∧
  df_sequence db = f_sequence f ∧
  (if is_file f then ∃ bs, f_content f = FileContent bs ∧ db_hashes h bs = Ok (df_blocks db)
   else f_content f = NonFile (df_symlink_target db) ∧ df_blocks db = []).
Proof.
  intros Hdb. unfold as_db in Hdb. destruct (is_file f).
  - apply bind_Ok in Hdb as (size & _ & Hdb). apply bind_Ok in Hdb as (bsize & _ & Hdb). apply bind_Ok in Hdb as (bs & Hbs & Hdb).
    apply bind_Ok in Hdb as (hs & Hhs & [= <-]). split_and!; try done. unfold file_blocks in Hbs. destruct (f_content f); [|done].
    injection Hbs as ->. by exists bs.
  - apply bind_Ok in Hdb as (link & Hl & [= <-]). split_and!; try done. unfold symlink_target in Hl. destruct (f_content f); [done|]. by injection Hl as ->.
Qed.

Lemma regular_type f : wf_file f → regular (as_type (f_flags f)) = is_file f.
Proof.
  intros H. unfold as_type, is_file, f_type_file, f_type_dir, f_type_link. rewrite !has_flag_bit by lia.
  rewrite <- !type_bit by lia. pose proof (file_type _ H) as Ht.
  rewrite !elem_of_cons, elem_of_nil in Ht. by destruct Ht as [-> | [-> | [-> | []]]].
Qed.

(** The slots of a file and those that its record is loaded to. *)
Lemma loaded_twins known h h' bs : ∀ hashes,
  db_hashes h bs = Ok hashes → Forall (λ x, length x = Blocks.digest_length) hashes →
  (∀ s, s ∈ bs → ∃ p l b p' b', s = Some (p, l) ∧ h !! p = Some b ∧ known !! b_hash b = Some p' ∧ h' !! p' = Some b' ∧
     b_hash b' = b_hash b ∧ b_size b' = b_size b) →
  Forall2 (twin h h') bs (map (slot_of known) (map (mkBlockInfo 0 0) hashes)).
Proof.
  induction bs as [|s bs IH]; intros hashes Hd Hl Hs; cbn [db_hashes] in Hd; [injection Hd as <-; constructor|].
  destruct (Hs s) as (p & l & b & p' & b' & -> & Hp & Hk & Hp' & Hh & Hz); [by left|]. unfold deref in Hd. rewrite Hp in Hd. cbn [res_bind] in Hd.
  apply bind_Ok in Hd as (hs & Hhs & [= <-]). apply Forall_cons in Hl as [Hlb Hl]. cbn [map]. constructor.
  - unfold slot_of, strict. cbn [pb_hash]. rewrite Hlb, Nat.sub_diag, app_nil_r, Hk. cbn. exists p, l, p', false, b, b'. by split_and!.
  - apply IH; [done|done|]. intros s Hin. apply Hs. by right.
Qed.

(** The file that is loaded from the record of [f] has that record. *)
Lemma made_record known uuid fi_uuid f h h' db v :
  wf_file f → as_db f h true = Ok db → whole_record db → version_of_proto (df_version db) = Ok v →
  (∀ s, s ∈ slots f → ∃ p l b p' b', s = Some (p, l) ∧ h !! p = Some b ∧ known !! b_hash b = Some p' ∧ h' !! p' = Some b' ∧
     b_hash b' = b_hash b ∧ b_size b' = b_size b) →
  as_db (made known uuid fi_uuid (db_message db) v) h' true = Ok db.
Proof.
  intros Hw Hdb [Hn [Hv Hpl] Hlen Hh Hb] Hver Hslots. rewrite <- Hdb.
  destruct (version_of_proto_marks _ Hv) as (v' & c & Hv' & Hm). assert (v' = v) as -> by congruence.
  pose proof (marked_as_proto _ _ _ Hpl Hm) as Has.
  destruct (as_db_fields f h db Hdb) as (H1 & H2 & H3 & H4 & H5 & H6 & H7 & H8 & H9 & H10 & H11 & Hc).
  pose proof (made_fields known uuid fi_uuid (db_message db) v) as Hmf. pose proof (regular_type f Hw) as Hreg.
  destruct (wire_flags_types (f_flags f) (df_deleted db) (df_invalid db) (df_no_permissions db)) as (Ht1 & Ht2 & Ht3).
  destruct (wire_flags_facts (df_type db) (df_deleted db) (df_invalid db) (df_no_permissions db)) as (_ & Hd & _).
  apply as_db_twin.
  - unfold is_deleted, is_invalid, has_no_permissions in H7, H8, H9. unfold same_head, is_deleted, is_invalid, has_no_permissions. rewrite made_is_file, Hmf. cbn. rewrite H2 in Hd |- *.
    rewrite H5, u32_i32, i32_u32. fold (as_proto v). split_and!; try done; congruence.
  - destruct (is_file f) eqn:Ef; rewrite ?Ef in Hreg.
    + destruct Hc as (bs & Hbs & Hhs). assert (slots f = bs) as Hsl by (unfold slots; by rewrite Hbs). rewrite Hsl in Hslots.
      unfold made. destruct (loaded (db_message db)) eqn:El; eexists bs, _; (split; [done|]).
      * cbn [with_content f_content]. split; [done|]. by apply loaded_twins.
      * destruct Hb as [|Hb]; [done|]. unfold created. cbn [f_content db_message pf_type pf_symlink_target]. rewrite H2, Hreg. split; [done|].
        rewrite Hb in Hhs. assert (message_slots (db_message db) = 0%nat) as ->.
        { unfold message_slots. cbn [db_message pf_size pf_blocks]. rewrite Hb. by destruct (df_size db =? 0). }
        cbn [replicate]. destruct bs as [|s bs]; [constructor|]. exfalso. destruct (Hslots s) as (p & l & b & _ & _ & -> & Hp & _); [by left|].
        cbn [db_hashes] in Hhs. unfold deref in Hhs. rewrite Hp in Hhs. cbn [res_bind] in Hhs. apply bind_Ok in Hhs as (? & _ & [=]).
    + destruct Hc as [-> _]. unfold made, loaded. cbn [db_message pf_type]. rewrite H2, Hreg. cbn [andb]. unfold created.
      cbn [f_content db_message pf_type pf_symlink_target]. by rewrite H2, Hreg.
Qed.

(** ** A file enters its folder *)

(** One round of [file_infos_t::apply_impl]. *)
Definition load_file (c : cluster) (fo : folder) (fi : folder_info) (key : bytes) (db : DbFileInfo) : res cluster :=
  let p := fresh (dom (cl_files c)) in
  let* '(f, h) := create_file_db p key db (fi_get_uuid fi) (cl_heap c) in
  let* '(f, h) := link_blocks (cl_blocks c) p 0 (df_blocks db) f h in
  let fi' := add_relaxed fi (entry_of p f) in
  let* '(files, h) := destroy_files (lost_files (fi_files fi) (fi_files fi') [p]) (<[p := f]> (cl_files c)) h in
  Ok (mkCluster (cl_blocks c) h files (set_info (fd_id (fo_data fo)) (fi_device_sha fi) fi' (cl_folders c))).

Lemma add_relaxed_new fi e :
  wf_folder_info fi → e_seq e <= fi_max_sequence fi → Forall (λ x, ¬ collides x e) (fi_files fi) →
  add_relaxed fi e = with_files fi (fi_max_sequence fi) (insert_entry e (fi_files fi)).
Proof.
  intros [Hm _] Hs Hc. unfold add_relaxed. rewrite put_fits; [|done|].
  - unfold put_in. rewrite (filter_all _ _ Hc). cbn [fst]. by rewrite Z.max_l.
  - intros a b Ha _ Hca. rewrite Forall_forall in Hc. by destruct (Hc a Ha).
Qed.

Section load_one.
Context (c : cluster) (fo : folder) (fi : folder_info) (uuid : bytes) (db : DbFileInfo) (v : version).
Context (Hwf : wf_cluster c) (Hfo : fo ∈ cl_folders c) (Hfi : fi ∈ fo_infos fo).
Context (Hdb : whole_record db) (Hv : version_of_proto (df_version db) = Ok v) (Hu : length uuid = uuid_length).
Context (Hk : Forall (λ x, is_Some (cl_blocks c !! x)) (df_blocks db)).
Context (Hs : df_sequence db <= fi_max_sequence fi) (Hsm : small (cl_files c) (length (df_blocks db))).

Let p := fresh (dom (cl_files c)).
Let f' := made (cl_blocks c) uuid (fi_get_uuid fi) (db_message db) v.
Let e := mkEntry p uuid (df_name db) (df_sequence db).
Let fi' := with_files fi (fi_max_sequence fi) (insert_entry e (fi_files fi)).

Context (Hc : Forall (λ x, ¬ collides x e) (fi_files fi)).

Lemma load_one_storable : storable (cl_blocks c) (db_message db).
Proof.
  destruct Hdb as [Hn [Hv0 _] Hl Hh _]. split; [done|done|by cbn; rewrite length_map|]. cbn. apply Forall_fmap, Forall_forall. intros x Hx.
  rewrite Forall_forall in Hh, Hk. specialize (Hh x Hx). split; [unfold compose, short_block; cbn; lia|].
  unfold compose, strict. cbn [pb_hash]. rewrite Hh, Nat.sub_diag, app_nil_r. by apply Hk.
Qed.

Lemma load_one_entry : entry_of p f' = e.
Proof.
  pose proof (made_stored (cl_blocks c) uuid (fi_get_uuid fi) (db_message db) v Hv) as Hst. unfold entry_of.
  fold f' in Hst. rewrite (ApplyUpdate.sd_name _ _ _ Hst), (ApplyUpdate.sd_sequence _ _ _ Hst). unfold f'. rewrite made_uuid; [done|].
  by apply (cl_wf_infos c Hwf fo fi).
Qed.

Lemma load_one_fresh : cl_files c !! p = None.
Proof. apply not_elem_of_dom, is_fresh. Qed.

Lemma load_one_rounds h' :
  wf_store (<[p := f']> (cl_files c)) (map_refs (cl_blocks c)) h' → shrinks (cl_heap c) h' →
  rounds (cl_blocks c) (mkApply fi (cl_files c) (cl_heap c)) [db_message db] (mkApply fi' (<[p := f']> (cl_files c)) h').
Proof.
  intros Hst Hsh. destruct (cl_wf_infos c Hwf fo fi Hfo Hfi) as (Hwi & Hul & Hen). pose proof load_one_fresh as Hp.
  assert (∀ x, x ∈ fi_files fi → e_file x ≠ p) as Hne.
  { intros x Hx Heq. destruct (Hen x Hx) as (g & Hg & _). congruence. }
  assert (wf_folder_info fi') as Hwi'.
  { split; [apply wf_map_insert; [apply Hwi|done]|]. cbn. intros x [->|Hx]%insert_entry_elem; [done|]. by apply (fi_bound _ Hwi). }
  assert (∀ x, x ∈ fi_files fi → e_name x ≠ df_name db) as Hname.
  { intros x Hx Heq. rewrite Forall_forall in Hc. apply (Hc x Hx). right. by left. }
  split; cbn [ap_info ap_files ap_heap].
  - split; try done. cbn [ap_info ap_files]. intros x [->|Hx]%insert_entry_elem.
    + exists f'. split; [apply lookup_insert_eq|]. symmetry. exact load_one_entry.
    + destruct (Hen x Hx) as (g & Hg & Hxe). exists g. split; [|done]. rewrite lookup_insert_ne by (intros Heq; by apply (Hne x)). done.
  - done.
  - done.
  - intros f ->%list_elem_of_singleton. exists p, f'. split_and!; [|apply lookup_insert_eq|by apply made_stored|by intros Hty _; apply made_link].
    apply by_name_iff; [apply Hwi'|]. exists e. split_and!; [apply insert_entry_elem; by left|done|done].
  - intros x Hx. cbn. rewrite insert_entry_elem. split; [|tauto]. intros [->|?]; [|done]. destruct Hx. by left.
  - intros x [->|Hx]%insert_entry_elem; [right; left; exact Hp|by left].
  - intros o g Ho. left. rewrite lookup_insert_ne; [done|]. intros <-. congruence.
  - intros o g [[<- <-]|[Hno Ho]]%lookup_insert_Some.
    + left. exists (db_message db). split; [by left|by apply made_stored].
    + right. split; [done|]. intros x Hx _ Hin. cbn in Hin. apply list_elem_of_singleton in Hin. by apply (Hname x).
Qed.

Lemma load_one_ok : ∃ h',
  load_file c fo fi (prefix_file_info :: create_key uuid (fi_get_uuid fi)) db =
    Ok (mkCluster (cl_blocks c) h' (<[p := f']> (cl_files c)) (set_info (fd_id (fo_data fo)) (fi_device_sha fi) fi' (cl_folders c))) ∧
  wf_cluster (mkCluster (cl_blocks c) h' (<[p := f']> (cl_files c)) (set_info (fd_id (fo_data fo)) (fi_device_sha fi) fi' (cl_folders c))) ∧
  shrinks (cl_heap c) h' ∧ (capacity (slots <$> <[p := f']> (cl_files c)) <= capacity (slots <$> cl_files c) + length (df_blocks db))%nat.
Proof.
  destruct (cl_wf_infos c Hwf fo fi Hfo Hfi) as (Hwi & Hul & Hen). pose proof load_one_fresh as Hp. unfold small in Hsm.
  destruct (make_file_wf (cl_files c) (cl_heap c) (cl_blocks c) p uuid (fi_get_uuid fi) (db_message db) v) as (h' & Hm & Hst & Hsh); try done.
  { split; [apply (cl_wf_blocks c Hwf)|apply (cl_wf_files c Hwf)]. } { apply load_one_storable. }
  { eapply wf_blocks_roomy; [apply (cl_wf_blocks c Hwf)|]. cbn. rewrite length_map. lia. }
  exists h'. split_and!; [| |done|].
  - unfold load_file. fold p. pose proof (load_file_eq (cl_blocks c) p uuid (fi_get_uuid fi) db (cl_heap c) Hdb Hul Hu) as He. rewrite Hm in He. revert He.
    destruct (create_file_db _ _ _ _ _) as [[f h1]| |]; cbn [res_bind]; try done. intros ->. cbn [res_bind]. fold f'.
    rewrite load_one_entry, add_relaxed_new by done. fold fi'.
    assert (lost_files (fi_files fi) (fi_files fi') [p] = []) as ->.
    { unfold lost_files. apply filter_none. intros x Hx. rewrite elem_of_app, list_elem_of_singleton in Hx.
      assert (x ∈ map e_file (insert_entry e (fi_files fi))) as Hin; [|tauto]. apply list_elem_of_fmap. setoid_rewrite insert_entry_elem.
      destruct Hx as [(y & -> & Hy)%list_elem_of_fmap| ->]; [by eauto|]. exists e. auto. }
    done.
  - refine (finish_wf c fo fi [db_message db] (cl_blocks c) (cl_heap c) (mkApply fi' (<[p := f']> (cl_files c)) h') Hwf Hfo Hfi (cl_wf_blocks c Hwf) _ _).
    + by left.
    + by apply load_one_rounds.
  - rewrite fmap_insert, capacity_new by (by rewrite lookup_fmap, Hp).
    pose proof (made_length (cl_blocks c) uuid (fi_get_uuid fi) (db_message db) v) as Hml. cbn [db_message pf_blocks] in Hml.
    rewrite length_map in Hml. fold f' in Hml. lia.
Qed.
End load_one.
