(* ===== verification/Restore.v ===== *)
(** * Restore: what the program reads from the database at its start is what it wrote: loading the mirror of a cluster gives
    a cluster with the same mirror. *)

From S2P Require Import Prelude Diff Version Proto DeviceId Device Blocks FileInfo FileStore FileMap GenericMap Folder.
From S2P Require Import Resolver BlockMap UpdateFolder ApplyUpdate Streamer FileIterator Advance Cluster Changes Trees Removal.
From S2P Require Import Wire Database DbActor Persist.

(** ** Containers that are filled again *)

(** The item [y] stands where [x] stood: the same indices, the same record. *)
Definition restores {A N} `{Keyed A N} (key value : A → bytes) (x y : A) : Prop :=
  keys_of y = keys_of x ∧ key y = key x ∧ value y = value x.

Section refill.
Context {A : Type} {N : nat} `{Keyed A N} (key value : A → bytes).

Lemma shares_keys (x y x' y' : A) : keys_of x' = keys_of x → keys_of y' = keys_of y → shares x' y' → shares x y.
Proof. rewrite !shares_alt. unfold get_index. intros -> ->. done. Qed.

Lemma wf_gmap_perm (l l' : list A) : l ≡ₚ l' → wf_gmap l → wf_gmap l'.
Proof. intros Hp [Hnd Hs]. split; [by rewrite <- Hp|]. intros a b. rewrite <- Hp. apply Hs. Qed.

(** The next item shares no index with those that are restored already. *)
Lemma next_is_new xs x rest ys y :
  wf_gmap (xs ++ x :: rest) → Forall2 (restores key value) xs ys → keys_of y = keys_of x → ∀ z, z ∈ ys → ¬ shares z y.
Proof.
  intros [Hnd Hs] HF Hk z Hz Hsh. apply list_elem_of_lookup in Hz as [i Hi].
  destruct (Forall2_lookup_r _ _ _ _ _ HF Hi) as (w & Hw & Hr & _). apply list_elem_of_lookup_2 in Hw.
  assert (w = x) as ->.
  { apply Hs; [apply elem_of_app; by left|apply elem_of_app; right; by left|]. by eapply shares_keys. }
  apply NoDup_app in Hnd as (_ & Hd & _). apply (Hd x Hw). by left.
Qed.

Lemma gput_next xs x rest ys y :
  wf_gmap (xs ++ x :: rest) → Forall2 (restores key value) xs ys → keys_of y = keys_of x → gput ys y true = Ok (ys ++ [y], true).
Proof.
  intros Hw HF Hk. unfold gput. rewrite emplace_free; [done|]. by eapply next_is_new.
Qed.

Lemma restored_wf xs ys : (0 < N)%nat → wf_gmap xs → Forall2 (restores key value) xs ys → wf_gmap ys.
Proof.
  intros HN [Hnd Hs] HF.
  assert (∀ i j a b, ys !! i = Some a → ys !! j = Some b → shares a b → i = j) as Hij.
  { intros i j a b Ha Hb Hsh. destruct (Forall2_lookup_r _ _ _ _ _ HF Ha) as (x & Hx & Hrx & _), (Forall2_lookup_r _ _ _ _ _ HF Hb) as (y & Hy & Hry & _).
    eapply NoDup_lookup; [done|done|]. rewrite (Hs x y); [done|by eapply list_elem_of_lookup_2..|]. by eapply shares_keys. }
  split.
  - apply NoDup_alt. intros i j a Ha Hb. eapply Hij; [done|done|]. apply shares_alt. by exists 0%nat.
  - intros a b [i Hi]%list_elem_of_lookup [j Hj]%list_elem_of_lookup Hsh. pose proof (Hij _ _ _ _ Hi Hj Hsh). naive_solver.
Qed.

Lemma restored_records xs ys k v : Forall2 (restores key value) xs ys → records key value ys k v ↔ records key value xs k v.
Proof.
  intros HF. unfold records. split.
  - intros (y & [i Hi]%list_elem_of_lookup & -> & ->). destruct (Forall2_lookup_r _ _ _ _ _ HF Hi) as (x & Hx & _ & -> & ->).
    exists x. split; [by eapply list_elem_of_lookup_2|done].
  - intros (x & [i Hi]%list_elem_of_lookup & -> & ->). destruct (Forall2_lookup_l _ _ _ _ _ HF Hi) as (y & Hy & _ & <- & <-).
    exists y. split; [by eapply list_elem_of_lookup_2|done].
Qed.

Lemma records_perm (l l' : list A) k v : l ≡ₚ l' → records key value l k v ↔ records key value l' k v.
Proof. intros Hp. unfold records. by setoid_rewrite Hp. Qed.
End refill.

Section restore.
Context `{DbCodecLaws} (parse_text : ∀ s u, parse_uri s = Some u → u_text u = s).

Definition is_sha256 (sha : bytes) : Prop := digits 256 sha ∧ length sha = DeviceId.digest_length.

Lemma from_sha256_ok sha : is_sha256 sha → ∃ id, from_sha256 sha = Ok (Some id) ∧ get_sha256 id = sha.
Proof.
  intros [Hd Hl]. destruct (from_sha256_spec sha Hd Hl) as (v & H1 & _). eexists. split; [done|].
  unfold get_sha256. cbn [id_hash skipn]. rewrite ?drop_0, <- Hl. apply firstn_all.
Qed.

(** ** Devices that are unknown or ignored *)

Definition whole_some (prefix : Z) (sd : some_device) : Prop :=
  is_sha256 (get_sha256 (sd_id sd)) ∧ sd_key sd = prefix :: get_sha256 (sd_id sd).

Lemma load_some_ok prefix xs : ∀ done ys,
  wf_gmap (done ++ xs) → Forall2 (restores sd_key some_value) done ys → Forall (whole_some prefix) xs →
  ∃ ys', load_some_devices prefix (map (λ x, (sd_key x, some_value x)) xs) ys = Ok (ys ++ ys') ∧
    Forall2 (restores sd_key some_value) xs ys'.
Proof.
  induction xs as [|x xs IH]; intros done ys Hw HF Hall; cbn [map load_some_devices].
  - exists []. by rewrite app_nil_r.
  - apply Forall_cons in Hall as [[Hs Hk] Hall]. destruct (from_sha256_ok _ Hs) as (id & Hid & Hsha).
    rewrite Hk. change (drop 1 (prefix :: get_sha256 (sd_id x))) with (get_sha256 (sd_id x)).
    destruct Hs as [_ Hl]. rewrite take_ge, Hid by lia. cbn [res_bind].
    unfold some_value at 1. rewrite some_device_law.
    set (y := create_some prefix id (serialize_some x)).
    assert (restores sd_key some_value x y) as Hr.
    { unfold y, create_some, assign_some. split_and!; cbn [keys_of some_device_keyed sd_id sd_key]; [by rewrite Hsha|by rewrite Hsha, Hk|done]. }
    erewrite (gput_next sd_key some_value done x xs) by (done || apply Hr). cbn [res_bind].
    destruct (IH (done ++ [x]) (ys ++ [y])) as (ys' & He & HF'); [by rewrite <- app_assoc|by apply Forall2_app; [|constructor]|done|].
    exists (y :: ys'). split; [|by constructor]. rewrite He. by rewrite <- app_assoc.
Qed.

(** ** Folders that are offered or ignored *)

Definition whole_pending (pf : pending_folder) : Prop :=
  is_sha256 (get_sha256 (pn_device pf)) ∧ ∃ uuid, length uuid = uuid_length ∧ pn_key pf = prefix_pending_folder :: uuid ++ get_sha256 (pn_device pf).

Lemma create_pending_ok x : whole_pending x →
  ∃ y, create_pending_db (pn_key x) (serialize_pending x) = Ok y ∧ restores pn_key pending_value x y.
Proof.
  intros (Hs & uuid & Hu & Hk). destruct (from_sha256_ok _ Hs) as (id & Hid & Hsha). unfold create_pending_db.
  assert ((length (pn_key x) =? pending_folder_data_length)%nat = true) as ->.
  { rewrite Hk. cbn [length]. by rewrite length_app, Hu, (proj2 Hs). }
  cbn [negb]. rewrite bool_decide_eq_false_2 by (rewrite Hk; cbn; naive_solver).
  assert (drop (uuid_length + 1) (pn_key x) = get_sha256 (pn_device x)) as ->.
  { rewrite Hk. change (drop (uuid_length + 1) (prefix_pending_folder :: uuid ++ get_sha256 (pn_device x)))
      with (drop uuid_length (uuid ++ get_sha256 (pn_device x))). by apply drop_app_length'. }
  rewrite Hid. cbn [res_bind]. eexists. split; [done|]. split_and!; [done|done|].
  unfold pending_value, serialize_pending. cbn. by destruct (pn_data x).
Qed.

Lemma load_pending_ok xs : ∀ done ys m,
  wf_gmap (done ++ xs) → Forall2 (restores pn_key pending_value) done ys → Forall whole_pending xs → mo_pending_folders m = ys →
  ∃ ys', load_pending_folders (map (λ x, (pn_key x, pending_value x)) xs) m = Ok (with_pending_folders m (ys ++ ys')) ∧
    Forall2 (restores pn_key pending_value) xs ys'.
Proof.
  induction xs as [|x xs IH]; intros done ys m Hw HF Hall Hm; cbn [map load_pending_folders].
  - exists []. rewrite app_nil_r, <- Hm. by destruct m.
  - apply Forall_cons in Hall as [Hx Hall]. destruct (create_pending_ok x Hx) as (y & Hy & Hr).
    unfold pending_value at 1. rewrite pending_folder_law, Hy. cbn [res_bind].
    rewrite Hm. erewrite (gput_next pn_key pending_value done x xs) by (done || apply Hr). cbn [res_bind].
    destruct (IH (done ++ [x]) (ys ++ [y]) (with_pending_folders m (ys ++ [y]))) as (ys' & He & HF');
      [by rewrite <- app_assoc|by apply Forall2_app; [|constructor]|done|done|].
    exists (y :: ys'). split; [|by constructor]. rewrite He. by rewrite <- app_assoc.
Qed.

Lemma load_ignored_ok xs : ∀ done ys m,
  wf_gmap (done ++ xs) → Forall2 (restores if_key ignored_value) done ys →
  Forall (λ x, ∃ id, if_key x = prefix_ignored_folder :: id) xs → mo_ignored_folders m = ys →
  ∃ ys', load_ignored_folders (map (λ x, (if_key x, ignored_value x)) xs) m = Ok (with_ignored_folders m (ys ++ ys')) ∧
    Forall2 (restores if_key ignored_value) xs ys'.
Proof.
  induction xs as [|x xs IH]; intros done ys m Hw HF Hall Hm; cbn [map load_ignored_folders].
  - exists []. rewrite app_nil_r, <- Hm. by destruct m.
  - apply Forall_cons in Hall as [(id & Hk) Hall]. unfold create_ignored_db. rewrite Hk, Z.eqb_refl. cbn [negb].
    unfold ignored_value at 1. rewrite ignored_folder_law. cbn [res_bind dg_label].
    set (y := mkIgnoredFolder _ _).
    assert (restores if_key ignored_value x y) as Hr by (split_and!; [cbn; by rewrite Hk|by rewrite Hk|done]).
    rewrite Hm. erewrite (gput_next if_key ignored_value done x xs) by (done || apply Hr). cbn [res_bind].
    destruct (IH (done ++ [x]) (ys ++ [y]) (with_ignored_folders m (ys ++ [y]))) as (ys' & He & HF');
      [by rewrite <- app_assoc|by apply Forall2_app; [|constructor]|done|done|].
    exists (y :: ys'). split; [|by constructor]. rewrite He. by rewrite <- app_assoc.
Qed.

(** ** Devices *)

Definition whole_device (dev : device) : Prop :=
  is_sha256 (get_sha256 (d_id dev)) ∧ device_key local_id dev = prefix_device :: get_sha256 (d_id dev) ∧
  Forall (λ u, is_Some (parse_uri (u_text u))) (d_static_uris dev).

Lemma create_device_ok token x : whole_device x →
  ∃ y, create_device_db parse_uri token (device_key local_id x) (serialize_device x) = Ok y ∧ restores (device_key local_id) device_value x y.
Proof.
  intros ([Hd Hl] & Hk & Hu). rewrite Hk.
  destruct (proj1 (device_db_roundtrip parse_uri token (get_sha256 (d_id x)) (serialize_device x) parse_text Hd)) as (y & Hy & Hs & Hkey & _).
  - done.
  - cbn. by apply Forall_fmap.
  - exists y. split; [done|]. pose proof (Hkey (DeviceId.DeviceId [] [])) as Hne. unfold device_key in Hne. destruct (d_is_local y) eqn:El; [done|].
    assert (get_sha256 (d_id y) = get_sha256 (d_id x)) as Hsha.
    { unfold get_sha256 at 1. unfold get_key in Hne. rewrite Hne. cbn [drop]. rewrite ?drop_0. apply take_ge. lia. }
    split_and!; [|by rewrite Hkey, Hk|unfold device_value; by rewrite Hs].
    cbn [keys_of device_keyed]. by rewrite Hkey, Hk, Hsha.
Qed.

Lemma restored_device xs ys dev : wf_gmap xs → Forall2 (restores (device_key local_id) device_value) xs ys → dev ∈ xs →
  ∃ y, y ∈ ys ∧ device_key local_id y = device_key local_id dev ∧ get_sha256 (d_id y) = get_sha256 (d_id dev) ∧
    device_by_key ys (device_key local_id dev) = Some y ∧ by_sha256 ys (get_sha256 (d_id dev)) = Some y.
Proof.
  intros Hw HF [i Hi]%list_elem_of_lookup. destruct (Forall2_lookup_l _ _ _ _ _ HF Hi) as (y & Hy & Hk & _).
  apply list_elem_of_lookup_2 in Hy. assert (wf_gmap ys) as Hw' by (eapply restored_wf; [|exact Hw|exact HF]; lia).
  assert (keys_of y = [device_key local_id dev; get_sha256 (d_id dev)]) as Hk' by done. injection Hk' as Hk1 Hk2.
  exists y. split_and!; [done|done|done|apply gget_elem; [done|lia|done|by rewrite <- Hk1]|apply gget_elem; [done|lia|done|by rewrite <- Hk2]].
Qed.

Lemma load_devices_ok xs : ∀ done ys m,
  wf_gmap (done ++ xs) → Forall2 (restores (device_key local_id) device_value) done ys →
  mo_device m ∈ done ++ xs → Forall (λ x, x = mo_device m ∨ whole_device x) xs → mo_devices m = ys →
  ∃ ys' token, load_devices (map (λ x, (device_key local_id x, device_value x)) xs) m = Ok (with_next_token (with_devices m (ys ++ ys')) token) ∧
    Forall2 (restores (device_key local_id) device_value) xs ys'.
Proof.
  induction xs as [|x xs IH]; intros done ys m Hw HF Hself Hall Hm; cbn [map load_devices].
  - rewrite app_nil_r in Hw, Hself. destruct (restored_device done ys (mo_device m) Hw HF Hself) as (y & _ & _ & _ & _ & Hy).
    rewrite Hm. unfold self_sha. rewrite Hy. cbn [the res_bind]. exists [], (mo_next_token m).
    rewrite app_nil_r, <- Hm. by destruct m.
  - apply Forall_cons in Hall as [Hx Hall].
    assert (∃ y token, (if bool_decide (device_key local_id x = device_key local_id (mo_device m)) then Ok (mo_device m, mo_next_token m)
      else match decode_device (device_value x) with
        | Some db => let* dev := create_device_db parse_uri (mo_next_token m) (device_key local_id x) db in Ok (dev, fst (make_offline (mo_next_token m)))
        | None => Err device_deserialization_failure end) = Ok (y, token) ∧ restores (device_key local_id) device_value x y) as (y & token & He & Hr).
    { case_bool_decide as Hkx.
      - assert (x = mo_device m) as ->.
        { destruct Hw as [_ Hs]. apply Hs; [apply elem_of_app; right; by left|done|]. apply shares_alt. exists 0%nat. split; [lia|]. cbn. by rewrite Hkx. }
        by eexists _, _.
      - destruct Hx as [->|Hx]; [done|]. destruct (create_device_ok (mo_next_token m) x Hx) as (y & Hy & Hr).
        unfold device_value at 1. rewrite device_law, Hy. cbn [res_bind]. by eexists _, _. }
    rewrite He. cbn [res_bind]. rewrite Hm. erewrite (gput_next (device_key local_id) device_value done x xs) by (done || apply Hr). cbn [res_bind].
    destruct (IH (done ++ [x]) (ys ++ [y]) (with_next_token (with_devices m (ys ++ [y])) token)) as (ys' & token' & He' & HF');
      [by rewrite <- app_assoc|by apply Forall2_app; [|constructor]|by rewrite <- app_assoc|done|done|].
    exists (y :: ys'), token'. split; [|by constructor]. rewrite He'. by rewrite <- app_assoc.
Qed.

(** ** Folders *)

(** A folder without what is not stored. *)
Definition bare (fo : folder) : folder := new_folder (fo_key fo) (serialize_folder (fo_data fo)).

Definition whole_folder (fo : folder) : Prop := ∃ uuid, length uuid = uuid_length ∧ fo_key fo = prefix_folder :: uuid.

Lemma bare_restores fo infos : restores fo_key folder_value fo (with_infos (bare fo) infos).
Proof. unfold bare, new_folder. split_and!; [cbn|done|unfold folder_value; cbn]; by destruct (fo_data fo). Qed.

Lemma set_folders_bare c folders : files_in (cl_folders c) = [] → set_folders c folders = Ok (mkCluster (cl_blocks c) (cl_heap c) (cl_files c) folders).
Proof. intros Hf. unfold set_folders. by rewrite Hf. Qed.

(** Folder infos without files. *)
Definition no_files (folders : list folder) : Prop := ∀ fo fi, fo ∈ folders → fi ∈ fo_infos fo → fi_files fi = [].

Lemma no_files_in folders : no_files folders → files_in folders = [].
Proof.
  intros Hn. destruct (files_in folders) as [|p l] eqn:E; [done|]. assert (p ∈ files_in folders) as Hp by (rewrite E; left).
  apply files_in_elem in Hp as (fo & fi & e & Hfo & Hfi & He & _). rewrite (Hn fo fi) in He by done. by apply elem_of_nil in He.
Qed.

Definition with_folders (m : model) (folders : list folder) : model :=
  let c := mo_cluster m in with_cluster m (mkCluster (cl_blocks c) (cl_heap c) (cl_files c) folders).

Lemma load_folders_ok xs : ∀ done m,
  wf_gmap (done ++ xs) → Forall whole_folder xs → folders_of m = map bare done →
  load_folders (map (λ x, (fo_key x, folder_value x)) xs) m = Ok (with_folders m (map bare (done ++ xs))).
Proof.
  induction xs as [|x xs IH]; intros done m Hw Hall Hm; cbn [map load_folders].
  - rewrite app_nil_r, <- Hm. by destruct m as [[]].
  - apply Forall_cons in Hall as [(uuid & Hu & Hk) Hall]. unfold folder_value at 1. rewrite folder_law.
    assert (create_folder_db (fo_key x) (serialize_folder (fo_data x)) = Ok (bare x)) as ->.
    { unfold create_folder_db. assert ((length (fo_key x) =? folder_data_length)%nat = true) as -> by (rewrite Hk; cbn [length]; by rewrite Hu).
      cbn [negb]. by rewrite bool_decide_eq_false_2 by (rewrite Hk; cbn; naive_solver). }
    cbn [res_bind]. rewrite Hm.
    assert (Forall2 (restores fo_key folder_value) done (map bare done)) as HF.
    { apply Forall2_fmap_r, Forall_Forall2_diag, Forall_forall. intros fo _. exact (bare_restores fo []). }
    erewrite (gput_next fo_key folder_value done x xs) by (done || apply (bare_restores x [])). cbn [res_bind].
    unfold update_folders. rewrite set_folders_bare.
    2:{ change (cl_folders (mo_cluster m)) with (folders_of m). rewrite Hm. apply no_files_in.
        intros fo fi (fo0 & -> & _)%list_elem_of_fmap Hfi. by apply elem_of_nil in Hfi. }
    cbn [res_bind]. rewrite (IH (done ++ [x])); [|by rewrite <- app_assoc|done|by rewrite map_app].
    by rewrite <- app_assoc.
Qed.

(** ** Folder infos *)

Lemma keyed_info_ok fo fi : keyed_info fo fi →
  ∃ uuid, fi_decompose_key (fi_key fi) = Ok (mkDecomposed uuid (fi_device_key fi) (fo_key fo)) ∧ fi_get_uuid fi = uuid ∧
    create_folder_info_db (fi_key fi) (serialize_folder_info fi) (fi_device_sha fi) (fi_device_key fi) (fo_key fo) = Ok (emptied fi).
Proof.
  intros (device & folder & uuid & Hd & Hf & Hu & Hfo & Hdk & Hk).
  destruct (folder_info_key_roundtrip uuid (serialize_folder_info fi) (fi_device_sha fi) device folder Hd Hf Hu) as (H1 & H2 & H3 & _).
  exists uuid. rewrite Hfo, Hdk, Hk. split_and!; [exact H1| |].
  - unfold fi_get_uuid in H2 |- *. rewrite Hk. exact H2.
  - etrans; [exact H3|]. f_equal. unfold create_folder_info, new_folder_info, emptied, with_files. cbn. by rewrite Hk, Hdk.
Qed.

Lemma keyed_info_folder fo fo' fi : keyed_info fo fi → keyed_info fo' fi → fo_key fo = fo_key fo'.
Proof.
  intros (d & f & u & Hd & Hf & Hu & -> & _ & Hk) (d' & f' & u' & Hd' & Hf' & Hu' & -> & _ & Hk').
  rewrite Hk in Hk'. injection Hk' as Hk'. apply app_inj_1 in Hk' as [_ Hk']; [|lia]. apply app_inj_1 in Hk' as [-> _]; [done|lia].
Qed.

Section infos.
Context (fs : list folder) (ds : list device).
Context (fs_wf : wf_gmap fs) (infos_wf : ∀ fo, fo ∈ fs → wf_gmap (fo_infos fo)).
Context (infos_keyed : ∀ fo fi, fo ∈ fs → fi ∈ fo_infos fo → keyed_info fo fi).
Context (infos_device : ∀ fo fi, fo ∈ fs → fi ∈ fo_infos fo →
  ∃ dev, device_by_key ds (fi_device_key fi) = Some dev ∧ device_key local_id dev = fi_device_key fi ∧ get_sha256 (d_id dev) = fi_device_sha fi).

(** A folder with the folder infos that were loaded so far. *)
Definition seat (done : list folder_info) (fo : folder) : folder :=
  with_infos (bare fo) (map emptied (filter (λ fi, fi ∈ fo_infos fo) done)).

Lemma info_owner fo fo' fi : fo ∈ fs → fo' ∈ fs → fi ∈ fo_infos fo → fi ∈ fo_infos fo' → fo = fo'.
Proof.
  intros Hfo Hfo' Hfi Hfi'. destruct fs_wf as [_ Hs]. apply Hs; [done|done|]. apply shares_alt. exists 0%nat. split; [lia|]. cbn.
  by rewrite (keyed_info_folder fo fo' fi) by auto.
Qed.

Lemma seat_wf done : wf_gmap (map (seat done) fs).
Proof.
  eapply (restored_wf fo_key folder_value fs); [lia|done|]. apply Forall2_fmap_r, Forall_Forall2_diag, Forall_forall. intros fo _. apply bare_restores.
Qed.

Lemma seat_by_key done fo : fo ∈ fs → folder_by_key (map (seat done) fs) (fo_key fo) = Some (seat done fo).
Proof.
  intros Hfo. apply gget_elem; [apply seat_wf|lia|by apply list_elem_of_fmap_2|done].
Qed.

Lemma seat_put done fo fi : fo ∈ fs → fi ∈ fo_infos fo → fi ∉ done →
  gput (fo_infos (seat done fo)) (emptied fi) true = Ok (fo_infos (seat done fo) ++ [emptied fi], true).
Proof.
  intros Hfo Hfi Hn. unfold gput. rewrite emplace_free; [done|]. cbn [seat with_infos fo_infos].
  intros z (w & -> & [Hw Hd]%list_elem_of_filter)%list_elem_of_fmap Hsh. destruct (infos_wf fo Hfo) as [_ Hs].
  assert (w = fi) as -> by (apply Hs; done). done.
Qed.

Lemma seat_id done fo : fd_id (fo_data (seat done fo)) = fd_id (fo_data fo).
Proof. unfold seat, bare. cbn. by destruct (fo_data fo). Qed.

Lemma seat_replace done fo fi : fo ∈ fs → fi ∈ fo_infos fo →
  replace_folder (map (seat done) fs) (fd_id (fo_data (seat done fo))) (with_infos (seat done fo) (fo_infos (seat done fo) ++ [emptied fi])) =
  map (seat (done ++ [fi])) fs.
Proof.
  intros Hfo Hfi. unfold replace_folder. rewrite map_map. apply map_ext_in. intros x Hx%list_elem_of_In. rewrite !seat_id.
  unfold seat at 4. rewrite filter_app. case_bool_decide as Hid.
  - assert (x = fo) as ->.
    { destruct fs_wf as [_ Hs]. apply Hs; [done|done|]. apply shares_alt. exists 1%nat. split; [lia|]. cbn. by rewrite Hid. }
    rewrite filter_cons_True, filter_nil, map_app by done. done.
  - rewrite filter_cons_False, filter_nil, app_nil_r; [done|]. intros Hfi'. apply Hid. by rewrite (info_owner fo x fi).
Qed.

Lemma seat_no_files done : no_files (map (seat done) fs).
Proof. intros fo fi (x & -> & _)%list_elem_of_fmap (y & -> & _)%list_elem_of_fmap. done. Qed.

Lemma load_folder_infos_ok xs : ∀ done m,
  NoDup (done ++ xs) → Forall (λ fi, ∃ fo, fo ∈ fs ∧ fi ∈ fo_infos fo) xs → folders_of m = map (seat done) fs → mo_devices m = ds →
  load_folder_infos (map (λ fi, (fi_key fi, serialize_folder_info fi)) xs) m = Ok (with_folders m (map (seat (done ++ xs)) fs)).
Proof.
  induction xs as [|fi xs IH]; intros done m Hnd Hall Hm Hds; cbn [map load_folder_infos].
  - rewrite app_nil_r, <- Hm. by destruct m as [[]].
  - apply Forall_cons in Hall as [(fo & Hfo & Hfi) Hall]. destruct (keyed_info_ok fo fi) as (uuid & -> & _ & Hc); [by auto|].
    cbn [res_bind dk_device_key dk_folder_key]. destruct (infos_device fo fi Hfo Hfi) as (dev & Hdev & Hk & Hs).
    rewrite Hds, Hdev, Hm, seat_by_key by done. change (fo_key (seat done fo)) with (fo_key fo). rewrite Hk, Hs, Hc. cbn [res_bind].
    rewrite seat_put; [|done|done|].
    2:{ apply NoDup_app in Hnd as (_ & Hd & _). intros Hin. apply (Hd fi Hin). by left. }
    cbn [res_bind]. unfold update_folders. rewrite seat_replace by done. rewrite set_folders_bare.
    2:{ change (cl_folders (mo_cluster m)) with (folders_of m). rewrite Hm. apply no_files_in, seat_no_files. }
    cbn [res_bind]. rewrite (IH (done ++ [fi])); [by rewrite <- app_assoc|by rewrite <- app_assoc|done|done|done].
Qed.
End infos.

(** ** Blocks *)

(** The blocks that were loaded so far. *)
Record stocked (done : list block_info) (known : block_map) (h : heap) : Prop := {
  sk_wf : wf_blocks ∅ known h;
  sk_roomy : roomy 2 h;
  sk_known : ∀ p blk, h !! p = Some blk → known !! b_hash blk = Some p;
  sk_block : ∀ hash p, known !! hash = Some p → ∃ blk b, h !! p = Some blk ∧ b ∈ done ∧ b_hash b = hash ∧ b_hash blk = hash ∧ b_size blk = b_size b;
  sk_all : ∀ b, b ∈ done → is_Some (known !! b_hash b);
}.

Definition block_item (b : block_info) : bytes * DbBlockInfo := (block_key b, mkDbBlockInfo (b_size b)).

Lemma stocked_nil : stocked [] ∅ ∅.
Proof.
  split; [split; [split|]|..]; try (by intros ? ? Hl; rewrite lookup_empty in Hl); [|by intros p|by intros x Hx%elem_of_nil].
  intros p _. split; [done|]. intros file i. by unfold slot_at; rewrite lookup_empty.
Qed.

Lemma strict_whole b : length (b_hash b) = Blocks.digest_length → strict (mkBlockInfo 0 (b_size b) (b_hash b)) = b_hash b.
Proof. intros Hl. unfold strict. cbn [pb_hash]. by rewrite Hl, Nat.sub_diag, app_nil_r. Qed.

Lemma stocked_step done known h b :
  stocked done known h → length (b_hash b) = Blocks.digest_length → (∀ x, x ∈ done → b_hash x ≠ b_hash b) →
  ∃ known' h', add_block known h (mkBlockInfo 0 (b_size b) (b_hash b)) = Ok (known', h') ∧ stocked (done ++ [b]) known' h'.
Proof.
  intros [Hw Hr Hk Hb Ha] Hl Hn. pose proof (strict_whole b Hl) as Hst. set (pb := mkBlockInfo 0 (b_size b) (b_hash b)) in *.
  destruct (add_block_wf ∅ known h pb 2 Hw Hr) as (known' & h' & He & Hw' & Hr' & _ & _ & _ & Hnew); [lia|lia|by cbn; rewrite Hl|].
  rewrite Hst in Hnew. destruct Hnew as (p & blk & Hp & -> & -> & Hh & Hs).
  { destruct (known !! b_hash b) as [q|] eqn:Hq; [|done]. destruct (Hb _ _ Hq) as (? & x & _ & Hx & Hxh & _). by destruct (Hn x). }
  exists (<[b_hash b := p]> known), (<[p := blk]> h). split; [done|]. split; [done|done|..].
  - intros q c [[<- <-]|[Hne Hc]]%lookup_insert_Some; [rewrite Hh; apply lookup_insert_eq|]. rewrite lookup_insert_ne; [by apply Hk|].
    intros Heq. apply Hk in Hc. rewrite <- Heq in Hc. destruct (Hb _ _ Hc) as (? & x & _ & Hx & Hxh & _). by apply (Hn x).
  - intros hash q [[<- <-]|[Hne Hq]]%lookup_insert_Some.
    + exists blk, b. rewrite lookup_insert_eq. split_and!; [done|apply elem_of_app; right; by left|done|done|done].
    + destruct (Hb _ _ Hq) as (c & x & Hc & Hx & Hxh & Hch & Hcs). exists c, x. split_and!; [|apply elem_of_app; by left|done|done|done].
      rewrite lookup_insert_ne; [done|]. intros <-. congruence.
  - intros x [Hx|Hx%list_elem_of_singleton]%elem_of_app; [|subst x; rewrite lookup_insert_eq; by eexists].
    rewrite lookup_insert_ne by (intros Heq; by apply (Hn x)). by apply Ha.
Qed.

Lemma load_blocks_ok bs : ∀ done known h,
  stocked done known h → Forall (λ b, length (b_hash b) = Blocks.digest_length) bs → NoDup (map b_hash (done ++ bs)) →
  ∃ known' h', load_blocks_db (map block_item bs) known h = Ok (known', h') ∧ stocked (done ++ bs) known' h'.
Proof.
  induction bs as [|b bs IH]; intros done known h Hs Hl Hnd; cbn [map load_blocks_db].
  - exists known, h. by rewrite app_nil_r.
  - apply Forall_cons in Hl as [Hb Hl]. destruct (stocked_step done known h b Hs Hb) as (known1 & h1 & He & Hs1).
    { intros x Hx Heq. rewrite map_app in Hnd. apply NoDup_app in Hnd as (_ & Hd & _). apply (Hd (b_hash x)); [by apply list_elem_of_fmap_2|].
      rewrite Heq. by left. }
    destruct (IH (done ++ [b]) known1 h1 Hs1 Hl) as (known' & h' & He' & Hs'); [by rewrite <- app_assoc|].
    exists known', h'. rewrite <- app_assoc in Hs'. split; [|done]. rewrite <- He'.
    unfold add_block, create_block in He. cbn [pb_hash] in He. rewrite bool_decide_eq_false_2 in He by lia.
    cbn [block_item]. unfold create_block_db, block_key. cbn [length head skipn]. rewrite Hb.
    rewrite bool_decide_eq_false_2, bool_decide_eq_false_2 by (congruence || lia). cbn [res_bind db_size] in He |- *.
    rewrite Hb, Nat.sub_diag, app_nil_r in He. rewrite ?drop_0. cbn [pb_size] in He. revert He.
    destruct (add_ref _ _) as [h2| |]; cbn [res_bind]; try done. destruct (block_put _ _ _) as [[[k2 h3] ?]| |]; cbn [res_bind]; try done.
    destruct (release _ _) as [h4| |]; cbn [res_bind]; try done. by intros [= <- <-].
Qed.
End restore.
