(* ===== verification/RestoreTree.v ===== *)
(** * RestoreTree: all files of a cluster are loaded again, each into its folder. *)

From S2P Require Import Prelude Diff Version Proto DeviceId Device Blocks FileInfo FileStore FileMap GenericMap Folder.
From S2P Require Import Resolver BlockMap UpdateFolder ApplyUpdate Streamer FileIterator Advance Cluster Changes Trees Removal.
From S2P Require Import Wire Database DbActor Persist RestoreFiles Restore.

(** An entry of a folder info. *)
Definition place : Type := folder_info * entry.

Definition places_of (folders : list folder) : list place :=
  fi ← folders ≫= fo_infos; map (pair fi) (fi_files fi).

Lemma places_elem folders fi e : (fi, e) ∈ places_of folders ↔ ∃ fo, fo ∈ folders ∧ fi ∈ fo_infos fo ∧ e ∈ fi_files fi.
Proof.
  unfold places_of. rewrite list_elem_of_bind. setoid_rewrite list_elem_of_bind. setoid_rewrite list_elem_of_fmap. naive_solver.
Qed.

Definition place_key (x : place) : bytes := prefix_file_info :: create_key (e_uuid (snd x)) (fi_get_uuid (fst x)).

(** A folder with the entries [F] in its folder infos, by their uuids. *)
Definition filled (F : bytes → file_map) (fi : folder_info) : folder_info := with_files fi (fi_max_sequence fi) (F (fi_get_uuid fi)).

Definition housed (F : bytes → file_map) (fo : folder) : folder := with_infos (bare fo) (map (filled F) (fo_infos fo)).

Lemma bare_id fo : fd_id (fo_data (bare fo)) = fd_id (fo_data fo).
Proof. unfold bare. cbn. by destruct (fo_data fo). Qed.

Section files.
Context (fs : list folder) (files0 : gmap file_ptr file_info) (h0 : heap) (known : block_map) (h1 : heap).
Context (fs_ids : NoDup (map (λ fo, fd_id (fo_data fo)) fs)).
Context (fs_devices : ∀ fo, fo ∈ fs → NoDup (map fi_device_sha (fo_infos fo))).
Context (fs_uuids : NoDup (map fi_get_uuid (fs ≫= fo_infos))).
Context (fs_infos : ∀ fo fi, fo ∈ fs → fi ∈ fo_infos fo → wf_folder_info fi).
Context (fs_owner : ∀ fo fo' fi, fo ∈ fs → fo' ∈ fs → fi ∈ fo_infos fo → fi ∈ fo_infos fo' → fo = fo').

(** What the database has for a file, and what is needed to read it again: its record, and the blocks of the file under
    their hashes. *)
Record kept (x : place) (f : file_info) (db : DbFileInfo) : Prop := {
  kp_file : files0 !! e_file (snd x) = Some f;
  kp_entry : snd x = entry_of (e_file (snd x)) f;
  kp_key : f_key f = create_key (e_uuid (snd x)) (fi_get_uuid (fst x));
  kp_uuid : length (e_uuid (snd x)) = uuid_length;
  kp_wf : wf_file f;
  kp_db : as_db f h0 true = Ok db;
  kp_whole : whole_record db;
  kp_slots : ∀ s, s ∈ slots f → ∃ p l b p' b', s = Some (p, l) ∧ h0 !! p = Some b ∧ known !! b_hash b = Some p' ∧ h1 !! p' = Some b' ∧
    b_hash b' = b_hash b ∧ b_size b' = b_size b;
}.

Lemma info_unique fo fi fo' fi' : fo ∈ fs → fi ∈ fo_infos fo → fo' ∈ fs → fi' ∈ fo_infos fo' → fi_get_uuid fi = fi_get_uuid fi' → fi = fi'.
Proof.
  intros Hfo Hfi Hfo' Hfi'. apply (NoDup_map_inj _ _ _ _ fs_uuids); apply list_elem_of_bind; eauto.
Qed.

(** ** The folders, as entries come in *)

Lemma last_only {A} (l : list A) x : x ∈ l → (∀ y, y ∈ l → y = x) → last l = Some x.
Proof.
  intros Hx Hall. destruct (last l) as [y|] eqn:E.
  - f_equal. apply Hall. by apply last_Some_elem_of.
  - apply last_None in E. subst l. by apply elem_of_nil in Hx.
Qed.

Lemma find_info F fo fi : fo ∈ fs → fi ∈ fo_infos fo → info_by_uuid (map (housed F) fs) (fi_get_uuid fi) = Some (housed F fo, filled F fi).
Proof.
  intros Hfo Hfi. apply last_only.
  - apply list_elem_of_bind. exists (housed F fo). split; [|by apply list_elem_of_fmap_2]. apply list_elem_of_fmap_2, list_elem_of_filter.
    split; [done|]. by apply list_elem_of_fmap_2.
  - intros y (fo' & (fi' & -> & [Hu Hx]%list_elem_of_filter)%list_elem_of_fmap & (fo0 & -> & Hfo0)%list_elem_of_fmap)%list_elem_of_bind.
    apply list_elem_of_fmap in Hx as (x & -> & Hx). assert (x = fi) as -> by (by apply (info_unique fo0 x fo fi)).
    by rewrite (fs_owner fo0 fo fi).
Qed.

(** One more entry under a uuid. *)
Definition more (F : bytes → file_map) (uuid : bytes) (e : entry) : bytes → file_map :=
  λ u, if bool_decide (u = uuid) then insert_entry e (F u) else F u.

Lemma house_more F fo fi e : fo ∈ fs → fi ∈ fo_infos fo →
  set_info (fd_id (fo_data (housed F fo))) (fi_device_sha (filled F fi))
    (with_files (filled F fi) (fi_max_sequence (filled F fi)) (insert_entry e (fi_files (filled F fi)))) (map (housed F) fs) =
  map (housed (more F (fi_get_uuid fi) e)) fs.
Proof.
  intros Hfo Hfi. unfold set_info. rewrite map_map. apply map_ext_in. intros x Hx%list_elem_of_In.
  change (fd_id (fo_data (housed F x))) with (fd_id (fo_data (bare x))). change (fd_id (fo_data (housed F fo))) with (fd_id (fo_data (bare fo))).
  rewrite !bare_id. unfold housed. case_bool_decide as Hid.
  - assert (x = fo) as -> by (by apply (NoDup_map_inj _ _ _ _ fs_ids)). cbn [fo_infos with_infos bare]. unfold with_infos. f_equal.
    rewrite map_map. apply map_ext_in. intros y Hy%list_elem_of_In. cbn [filled with_files fi_device_sha fi_files fi_max_sequence].
    unfold filled, more. case_bool_decide as Hs.
    + assert (y = fi) as -> by (by apply (NoDup_map_inj _ _ _ _ (fs_devices fo Hfo))). by rewrite bool_decide_eq_true_2.
    + rewrite bool_decide_eq_false_2; [done|]. intros Hu. apply Hs. by rewrite (info_unique fo y fo fi).
  - unfold with_infos. f_equal. apply map_ext_in. intros y Hy%list_elem_of_In. unfold filled, more. rewrite bool_decide_eq_false_2; [done|].
    intros Hu. assert (y = fi) as -> by (by apply (info_unique x y fo fi)). apply Hid. by rewrite (fs_owner x fo fi).
Qed.

(** ** The loop *)

(** [e] is the entry of a file that was loaded for [x]. *)
Definition reborn (c : cluster) (x : place) (e : entry) : Prop :=
  e_uuid e = e_uuid (snd x) ∧ e_name e = e_name (snd x) ∧ e_seq e = e_seq (snd x) ∧
  ∃ f db v, kept x f db ∧ version_of_proto (df_version db) = Ok v ∧
    cl_files c !! e_file e = Some (made known (e_uuid (snd x)) (fi_get_uuid (fst x)) (db_message db) v).

Definition weight (x : place) : nat := match files0 !! e_file (snd x) with Some f => length (slots f) | None => 0 end.

Record underway (past : list place) (c : cluster) (F : bytes → file_map) : Prop := {
  uw_wf : wf_cluster c;
  uw_blocks : cl_blocks c = known;
  uw_heap : shrinks h1 (cl_heap c);
  uw_folders : cl_folders c = map (housed F) fs;
  uw_from : ∀ fi e, fi ∈ fs ≫= fo_infos → e ∈ F (fi_get_uuid fi) → ∃ e0, (fi, e0) ∈ past ∧ reborn c (fi, e0) e;
  uw_all : ∀ x, x ∈ past → ∃ e, e ∈ F (fi_get_uuid (fst x)) ∧ reborn c x e;
  uw_files : ∀ p f, cl_files c !! p = Some f → length (f_key f) = data_length;
  uw_weight : (capacity (slots <$> cl_files c) <= sum_list (map weight past))%nat;
}.

Lemma kept_fields x f db : kept x f db →
  df_name db = e_name (snd x) ∧ df_sequence db = e_seq (snd x) ∧ (length (df_blocks db) <= weight x)%nat ∧
  Forall (λ y, is_Some (known !! y)) (df_blocks db).
Proof.
  intros [Hf He Hk Hu Hw Hdb Hwh Hs]. destruct (as_db_fields f h0 db Hdb) as (Hn & _ & _ & _ & _ & _ & _ & _ & _ & _ & Hq & Hc).
  assert (db_hashes h0 (slots f) = Ok (df_blocks db) ∨ df_blocks db = []) as Hhs.
  { destruct (is_file f); [|right; apply Hc]. destruct Hc as (bs & Hbs & Hh). left. unfold slots. by rewrite Hbs. }
  unfold weight. rewrite Hf, Hn, Hq. rewrite He. split_and!; [done|done|..].
  - destruct Hhs as [Hhs| ->]; [|cbn; lia]. clear -Hhs. revert Hhs. generalize (df_blocks db). induction (slots f) as [|s bs IH]; intros l Hl.
    + by injection Hl as <-.
    + destruct s as [[p lo]|]; cbn [db_hashes] in Hl; [|cbn; specialize (IH _ Hl); lia].
      apply bind_Ok in Hl as (blk & _ & Hl). apply bind_Ok in Hl as (hs & Hhs & [= <-]). cbn. specialize (IH _ Hhs). lia.
  - destruct Hhs as [Hhs| ->]; [|constructor]. clear -Hhs Hs. revert Hhs Hs. generalize (df_blocks db). induction (slots f) as [|s bs IH]; intros l Hl Hs.
    + by injection Hl as <-.
    + destruct (Hs s) as (p & lo & b & p' & b' & -> & Hb & Hk & _); [by left|]. cbn [db_hashes] in Hl. unfold deref in Hl. rewrite Hb in Hl.
      cbn [res_bind] in Hl. apply bind_Ok in Hl as (hs & Hhs & [= <-]). constructor; [by eexists|]. apply IH; [done|]. intros s Hin. apply Hs. by right.
Qed.

Lemma reborn_keep c h p f folders x e : cl_files c !! p = None → reborn c x e →
  reborn (mkCluster (cl_blocks c) h (<[p := f]> (cl_files c)) folders) x e.
Proof.
  intros Hp (H1 & H2 & H3 & g & db & v & Hk & Hv & Hg). split_and!; try done. exists g, db, v. split_and!; try done. cbn [cl_files].
  rewrite lookup_insert_ne; [done|]. intros Heq. congruence.
Qed.

(** A place that was not visited yet collides with nothing. *)
Lemma new_entry past c F fo fi e0 p : underway past c F → fo ∈ fs → fi ∈ fo_infos fo → e0 ∈ fi_files fi → (fi, e0) ∉ past →
  (∀ x, x ∈ past → snd x ∈ fi_files (fst x)) →
  Forall (λ x, ¬ collides x (mkEntry p (e_uuid e0) (e_name e0) (e_seq e0))) (F (fi_get_uuid fi)).
Proof.
  intros Hw Hfo Hfi He Hn Hpast. apply Forall_forall. intros x Hx Hc.
  destruct (uw_from past c F Hw fi x) as (e1 & Hin & H1 & H2 & H3 & _); [|done|]; [apply list_elem_of_bind; by exists fo|].
  assert (e1 = e0) as ->; [|done]. apply (wf_map_key (fi_files fi)); [apply (fs_infos fo fi Hfo Hfi)|by apply (Hpast (fi, e1))|done|].
  unfold collides in *. cbn in *. rewrite <- H1, <- H2, <- H3. exact Hc.
Qed.

Lemma underway_step past c F fo fi e0 f db :
  underway past c F → fo ∈ fs → fi ∈ fo_infos fo → e0 ∈ fi_files fi → kept (fi, e0) f db → (fi, e0) ∉ past →
  (∀ x, x ∈ past → snd x ∈ fi_files (fst x)) → 2 * Z.of_nat (sum_list (map weight past) + weight (fi, e0)) + 4 < 2 ^ 30 →
  ∃ c' F', load_file c (housed F fo) (filled F fi) (place_key (fi, e0)) db = Ok c' ∧ underway (past ++ [(fi, e0)]) c' F'.
Proof.
  intros Hw Hfo Hfi He Hk Hn Hpast Hsm. destruct (kept_fields _ _ _ Hk) as (Hname & Hseq & Hlen & Hkn). cbn [snd] in Hname, Hseq.
  pose proof (kp_whole _ _ _ Hk) as Hwh. destruct (wr_version _ Hwh) as [Hv0 _]. destruct (version_of_proto_marks _ Hv0) as (v & _ & Hv & _).
  pose proof (uw_folders _ _ _ Hw) as Hfs. set (p := fresh (dom (cl_files c))).
  assert (cl_files c !! p = None) as Hp by apply not_elem_of_dom, is_fresh.
  destruct (load_one_ok c (housed F fo) (filled F fi) (e_uuid e0) db v (uw_wf _ _ _ Hw)) as (h' & Hl & Hwf & Hsh & Hcap); try done.
  - rewrite Hfs. by apply list_elem_of_fmap_2.
  - by apply list_elem_of_fmap_2.
  - apply (kp_uuid _ _ _ Hk).
  - by rewrite (uw_blocks _ _ _ Hw).
  - rewrite Hseq. by apply (fi_bound _ (fs_infos fo fi Hfo Hfi)).
  - unfold small. pose proof (uw_weight _ _ _ Hw). lia.
  - rewrite Hname, Hseq. by eapply new_entry.
  - fold p in Hl, Hwf, Hcap. rewrite Hfs, house_more in Hl, Hwf by done. rewrite (uw_blocks _ _ _ Hw) in Hl, Hwf, Hcap.
    change (fi_get_uuid (filled F fi)) with (fi_get_uuid fi) in Hl, Hwf, Hcap.
    set (e := mkEntry p (e_uuid e0) (df_name db) (df_sequence db)) in *. set (f' := made _ _ _ _ v) in *.
    eexists _, (more F (fi_get_uuid fi) e). split; [exact Hl|].
    assert (reborn (mkCluster known h' (<[p := f']> (cl_files c)) (map (housed (more F (fi_get_uuid fi) e)) fs)) (fi, e0) e) as Hre.
    { split_and!; try done. exists f, db, v. split_and!; try done. cbn [cl_files]. apply lookup_insert_eq. }
    split; cbn [cl_blocks cl_heap cl_files cl_folders]; try done.
    + etrans; [apply (uw_heap _ _ _ Hw)|done].
    + intros fi1 e1 Hfi1. unfold more at 1. case_bool_decide as Hu; [intros [->|He1]%insert_entry_elem|intros He1].
      * exists e0. apply list_elem_of_bind in Hfi1 as (fo1 & Hfi1 & Hfo1). assert (fi1 = fi) as -> by (by apply (info_unique fo1 fi1 fo fi)).
        split; [apply elem_of_app; right; by left|done].
      * destruct (uw_from _ _ _ Hw fi1 e1 Hfi1 He1) as (e2 & H2 & H2'). exists e2. split; [apply elem_of_app; by left|].
        rewrite <- (uw_blocks _ _ _ Hw). by apply reborn_keep.
      * destruct (uw_from _ _ _ Hw fi1 e1 Hfi1 He1) as (e2 & H2 & H2'). exists e2. split; [apply elem_of_app; by left|].
        rewrite <- (uw_blocks _ _ _ Hw). by apply reborn_keep.
    + intros x [Hx|Hx%list_elem_of_singleton]%elem_of_app.
      * destruct (uw_all _ _ _ Hw x Hx) as (e1 & He1 & Hr1). exists e1. split; [|rewrite <- (uw_blocks _ _ _ Hw); by apply reborn_keep].
        unfold more. case_bool_decide; [apply insert_entry_elem; by right|done].
      * subst x. exists e. split; [|done]. unfold more. cbn [fst]. rewrite bool_decide_eq_true_2 by done. apply insert_entry_elem. by left.
    + intros q g [[<- <-]|[_ Hg]]%lookup_insert_Some; [|by apply (uw_files _ _ _ Hw q)]. unfold f'. rewrite made_fields.
      cbn [with_content f_key created]. unfold create_key. pose proof (kp_uuid _ _ _ Hk : length (e_uuid e0) = _) as Hue. rewrite length_app, Hue.
      destruct (cl_wf_infos c (uw_wf _ _ _ Hw) (housed F fo) (filled F fi)) as (_ & Hul & _); [rewrite Hfs|..]; [by apply list_elem_of_fmap_2..|].
      change (fi_get_uuid (filled F fi)) with (fi_get_uuid fi) in Hul. by rewrite Hul.
    + rewrite map_app, sum_list_with_app. pose proof (uw_weight _ _ _ Hw). cbn [map sum_list_with]. unfold id in *. lia.
Qed.

Lemma load_file_infos_cons key db items m :
  load_file_infos ((key, db) :: items) m =
    (let* '(fo, fi) := the (info_by_uuid (cl_folders (mo_cluster m)) (take uuid_length (drop 1 key))) in
     let* c := load_file (mo_cluster m) fo fi key db in
     load_file_infos items (with_cluster m c)).
Proof.
  cbn [load_file_infos]. destruct (the _) as [[fo fi]| |]; cbn [res_bind]; [|done..]. unfold load_file.
  destruct (create_file_db _ _ _ _ _) as [[f h]| |]; cbn [res_bind]; [|done..].
  destruct (link_blocks _ _ _ _ _ _) as [[f' h']| |]; cbn [res_bind]; [|done..].
  by destruct (destroy_files _ _ _) as [[fs' h2]| |].
Qed.

(** What the loop does to the files that are left, in any order. *)
Lemma load_files_ok rest : ∀ past c F (items : list (bytes * DbFileInfo)) m,
  underway past c F → mo_cluster m = c → NoDup (past ++ rest) → (∀ x, x ∈ past ++ rest → x ∈ places_of fs) →
  Forall2 (λ x it, ∃ f, fst it = place_key x ∧ kept x f (snd it)) rest items →
  2 * Z.of_nat (sum_list (map weight (past ++ rest))) + 4 < 2 ^ 30 →
  ∃ c' F', load_file_infos items m = Ok (with_cluster m c') ∧ underway (past ++ rest) c' F'.
Proof.
  induction rest as [|[fi e0] rest IH]; intros past c F items m Hw Hm Hnd Hin HF Hsm.
  - inversion HF; subst. exists (mo_cluster m), F. rewrite app_nil_r. split; [by destruct m|done].
  - inversion HF as [|x [key db] rest' items' (f & Hkey & Hk) HF']; subst. cbn [fst snd] in Hkey, Hk. subst key. rewrite load_file_infos_cons.
    destruct (proj1 (places_elem fs fi e0)) as (fo & Hfo & Hfi & He); [apply Hin, elem_of_app; right; by left|].
    assert (take uuid_length (drop 1 (place_key (fi, e0))) = fi_get_uuid fi) as Hu.
    { cbn [place_key fst snd drop]. unfold create_key. rewrite drop_0. apply take_app_length'.
      destruct (cl_wf_infos _ (uw_wf _ _ _ Hw) (housed F fo) (filled F fi)) as (_ & Hul & _);
        [rewrite (uw_folders _ _ _ Hw)|..]; [by apply list_elem_of_fmap_2..|]. symmetry. exact Hul. }
    rewrite Hu, (uw_folders _ _ _ Hw), (find_info F fo fi Hfo Hfi). cbn [the res_bind].
    destruct (underway_step past (mo_cluster m) F fo fi e0 f db) as (c' & F' & Hl & Hw'); try done.
    { apply NoDup_app in Hnd as (_ & Hd & _). intros Hp. apply (Hd _ Hp). by left. }
    { intros [x y] Hx. destruct (proj1 (places_elem fs x y)) as (? & _ & _ & ?); [apply Hin, elem_of_app; by left|done]. }
    { rewrite map_app, sum_list_with_app in Hsm. cbn [map sum_list_with] in Hsm. unfold id in *. lia. }
    destruct (IH (past ++ [(fi, e0)]) c' F' items' (with_cluster m c')) as (c2 & F2 & Hl2 & Hw2); try done; [by rewrite <- app_assoc..|].
    exists c2, F2. rewrite <- app_assoc in Hw2. split; [|done].
    by rewrite Hl.
Qed.

(** ** The records of the files *)

Lemma files_elem c f : f ∈ files_of_cluster c ↔ ∃ fi e, (fi, e) ∈ places_of (cl_folders c) ∧ cl_files c !! e_file e = Some f.
Proof.
  unfold files_of_cluster. rewrite list_elem_of_omap. setoid_rewrite files_in_elem. setoid_rewrite places_elem. naive_solver.
Qed.

(** The record under which a place is stored. *)
Definition place_record `{DbCodec} (k v : bytes) : Prop :=
  ∃ x f db, x ∈ places_of fs ∧ kept x f db ∧ k = place_key x ∧ v = encode_file db.

(** A file that was loaded has the record it was loaded from. *)
Lemma reborn_record `{DbCodec} c x e f db : wf_cluster c → cl_blocks c = known → shrinks h1 (cl_heap c) → kept x f db → reborn c x e →
  ∃ f', cl_files c !! e_file e = Some f' ∧ file_key f' = place_key x ∧ file_value (cl_heap c) f' = encode_file db.
Proof.
  intros Hw Hb Hsh Hk (_ & _ & _ & f0 & db0 & v & Hk0 & Hv & Hf').
  assert (f0 = f) as -> by (pose proof (kp_file _ _ _ Hk0); pose proof (kp_file _ _ _ Hk); congruence).
  assert (db0 = db) as -> by (pose proof (kp_db _ _ _ Hk0); pose proof (kp_db _ _ _ Hk); congruence).
  eexists. split; [done|]. split.
  - unfold file_key, get_full_id, place_key. by rewrite made_fields.
  - unfold file_value. rewrite (made_record known _ _ f h0 (cl_heap c) db v); [done|by destruct Hk..|].
    intros s Hs. destruct (kp_slots _ _ _ Hk s Hs) as (p & l & b & p' & b' & -> & Hp & Hkn & Hp' & Hh & Hz).
    destruct (bm_hash _ _ _ (cl_wf_blocks c Hw) (b_hash b) p') as (b2 & Hb2 & Hh2); [by rewrite Hb|].
    destruct (Hsh p' b2 Hb2) as (b3 & Hb3 & _ & Hz3). exists p, l, b, p', b2. split_and!; try done. congruence.
Qed.

Lemma restored_files `{DbCodec} past c F k v : underway past c F → past ≡ₚ places_of fs →
  records file_key (file_value (cl_heap c)) (files_of_cluster c) k v ↔ place_record k v.
Proof.
  intros Hw Hp. unfold records, place_record. setoid_rewrite files_elem. rewrite (uw_folders _ _ _ Hw).
  pose proof (λ x e f db, reborn_record c x e f db (uw_wf _ _ _ Hw) (uw_blocks _ _ _ Hw) (uw_heap _ _ _ Hw)) as Hrec. split.
  - intros (f & (fi & e & Hx & Hf) & -> & ->). apply places_elem in Hx as (fo & (fo0 & -> & Hfo)%list_elem_of_fmap & (fi0 & -> & Hfi)%list_elem_of_fmap & He).
    destruct (uw_from _ _ _ Hw fi0 e) as (e0 & Hin & Hre); [apply list_elem_of_bind; by exists fo0|done|].
    pose proof Hre as (_ & _ & _ & f0 & db & v & Hk & _ & _). destruct (Hrec _ _ _ _ Hk Hre) as (f' & Hf' & Hkey & Hval).
    assert (f' = f) as -> by congruence. exists (fi0, e0), f0, db. split_and!; [by rewrite <- Hp|done..].
  - intros (x & f & db & Hx & Hk & -> & ->). rewrite <- Hp in Hx. destruct (uw_all _ _ _ Hw x Hx) as (e & He & Hre).
    destruct (Hrec _ _ _ _ Hk Hre) as (f' & Hf' & Hkey & Hval). exists f'. split_and!; [|done..]. exists (filled F x.1), e. split; [|done].
    rewrite Hp in Hx. destruct x as [fi e0]. apply places_elem in Hx as (fo & Hfo & Hfi & _). apply places_elem.
    exists (housed F fo). split_and!; [by apply list_elem_of_fmap_2|by apply list_elem_of_fmap_2|done].
Qed.

(** The same for the cluster that was stored. *)
Lemma stored_files `{DbCodec} c k v : cl_files c = files0 → cl_heap c = h0 → (∀ x, x ∈ places_of (cl_folders c) ↔ x ∈ places_of fs) →
  (∀ x, x ∈ places_of fs → ∃ f db, kept x f db) →
  records file_key (file_value (cl_heap c)) (files_of_cluster c) k v ↔ place_record k v.
Proof.
  intros Hf Hh Hp Hall. unfold records, place_record. setoid_rewrite files_elem. rewrite Hf, Hh. setoid_rewrite Hp.
  assert (∀ x f db, kept x f db → file_key f = place_key x ∧ file_value h0 f = encode_file db) as Hrec.
  { intros x f db [Hfi He Hk _ _ Hdb _ _]. unfold file_key, get_full_id, place_key, file_value. by rewrite Hk, Hdb. }
  split.
  - intros (f & (fi & e & Hx & Hfe) & -> & ->). destruct (Hall _ Hx) as (f0 & db & Hk).
    assert (f0 = f) as -> by (pose proof (kp_file _ _ _ Hk) as Hf0; cbn in Hf0; congruence).
    destruct (Hrec _ _ _ Hk) as [-> ->]. by exists (fi, e), f, db.
  - intros ([fi e] & f & db & Hx & Hk & -> & ->). exists f. destruct (Hrec _ _ _ Hk) as [-> ->]. split; [|done].
    exists fi, e. split; [done|]. apply (kp_file _ _ _ Hk).
Qed.
End files.
