(* ===== verification/LoadLoop.v ===== *)
(** * LoadLoop: the portions in which the database actor loads blocks and files: they are all of them, in their order, after a
    bounded number of messages. *)

From S2P Require Import Prelude Diff Version Proto DeviceId Device Blocks FileInfo FileStore FileMap GenericMap Folder.
From S2P Require Import Resolver BlockMap UpdateFolder ApplyUpdate Streamer FileIterator Advance Cluster Changes Trees Wire Database DbActor.

Section loop.
Context `{DbCodec} (cfg : db_config).

(** ** A chain of changes that load *)

(** Changes that do nothing after their child. *)
Definition loads (o : op) : bool :=
  match o with
  | LoadDevices _ | LoadFolders _ | LoadFolderInfos _ | LoadBlocks _ | LoadFileInfos _ | LoadPendingDevices _ | LoadIgnoredDevices _
  | LoadPendingFolders _ | LoadIgnoredFolders _ | RemoveCorruptedFiles _ | Interrupt | Commit => true
  | _ => false
  end.

Fixpoint run (ops : list op) (m : model) : res model :=
  match ops with [] => Ok m | o :: ops => let* m := op_before o m in run ops m end.

Lemma res_bind_id {A} (r : res A) : (let* x := r in Ok x) = r.
Proof. by destruct r. Qed.

Lemma run_app ops ops' m : run (ops ++ ops') m = (let* m := run ops m in run ops' m).
Proof. revert m. induction ops as [|o ops IH]; intros m; [done|]. cbn [app run]. destruct (op_before o m); cbn [res_bind]; [apply IH|done..]. Qed.

Lemma apply_chain ops m : Forall (λ o, loads o = true) ops → apply (chain ops) m = run ops m.
Proof.
  revert m. induction ops as [|o ops IH]; intros m Hl; [done|]. apply Forall_cons in Hl as [Ho Hl]. unfold chain in *. cbn [foldr run].
  destruct o; try discriminate Ho; cbn [apply kind_of change_ops op_kind before after late enters op_enters op_before op_after op_late].
  all: repeat match goal with |- context [res_bind ?r _] => lazymatch r with Ok _ => cbn [res_bind] | _ => fail end end.
  all: try (rewrite IH by done); try rewrite res_bind_id; try done.
  all: match goal with |- res_bind ?r _ = res_bind ?r _ => destruct r; cbn [res_bind]; [|done..] end.
  all: by rewrite IH, res_bind_id by done.
Qed.

(** ** Portions *)

Fixpoint block_items (ops : list op) : list (bytes * DbBlockInfo) :=
  match ops with [] => [] | LoadBlocks items :: ops => items ++ block_items ops | _ :: ops => block_items ops end.

Fixpoint file_items (ops : list op) : list (bytes * DbFileInfo) :=
  match ops with [] => [] | LoadFileInfos items :: ops => items ++ file_items ops | _ :: ops => file_items ops end.

Definition block_portion (o : op) : Prop := match o with LoadBlocks _ | Interrupt => True | _ => False end.
Definition file_portion (o : op) : Prop := match o with LoadFileInfos _ | Interrupt => True | _ => False end.

Lemma load_blocks_db_app l l' known h :
  load_blocks_db (l ++ l') known h = (let* '(known, h) := load_blocks_db l known h in load_blocks_db l' known h).
Proof.
  revert known h. induction l as [|[key db] l IH]; intros known h; [done|]. cbn [app load_blocks_db].
  destruct (create_block_db key db) as [b| |]; cbn [res_bind]; [|done..]. destruct (add_ref _ _) as [h1| |]; cbn [res_bind]; [|done..].
  destruct (block_put _ _ _) as [[[known1 h2] ?]| |]; cbn [res_bind]; [|done..]. destruct (release _ _); cbn [res_bind]; [apply IH|done..].
Qed.

Lemma load_file_infos_app l l' m : load_file_infos (l ++ l') m = (let* m := load_file_infos l m in load_file_infos l' m).
Proof.
  revert m. induction l as [|[key db] l IH]; intros m; [done|]. cbn [app load_file_infos].
  destruct (the _) as [[fo fi]| |]; cbn [res_bind]; [|done..]. destruct (create_file_db _ _ _ _ _) as [[f h]| |]; cbn [res_bind]; [|done..].
  destruct (link_blocks _ _ _ _ _ _) as [[f' h']| |]; cbn [res_bind]; [|done..].
  destruct (destroy_files _ _ _) as [[fs' h2]| |]; cbn [res_bind]; [apply IH|done..].
Qed.

Lemma load_blocks_apply_app l l' m : load_blocks_apply (l ++ l') m = (let* m := load_blocks_apply l m in load_blocks_apply l' m).
Proof. unfold load_blocks_apply. rewrite load_blocks_db_app. by destruct (load_blocks_db l _ _) as [[known h]| |]. Qed.

Lemma run_blocks ops m : Forall block_portion ops → run ops m = load_blocks_apply (block_items ops) m.
Proof.
  revert m. induction ops as [|o ops IH]; intros m Hl; [by destruct m as [[]]|]. apply Forall_cons in Hl as [Ho Hl].
  destruct o; try done; cbn [run op_before block_items res_bind]; [|by apply IH]. rewrite load_blocks_apply_app.
  destruct (load_blocks_apply items m); cbn [res_bind]; [by apply IH|done..].
Qed.

Lemma run_files ops m : Forall file_portion ops → run ops m = load_file_infos (file_items ops) m.
Proof.
  revert m. induction ops as [|o ops IH]; intros m Hl; [done|]. apply Forall_cons in Hl as [Ho Hl].
  destruct o; try done; cbn [run op_before file_items res_bind]; [|by apply IH]. rewrite load_file_infos_app.
  destruct (load_file_infos items m); cbn [res_bind]; [by apply IH|done..].
Qed.

Lemma portions_load ops : Forall block_portion ops ∨ Forall file_portion ops → Forall (λ o, loads o = true) ops.
Proof. intros [Hp|Hp]; (eapply Forall_impl; [exact Hp|]); by intros []. Qed.

Lemma unpack_blocks_app l l' : unpack_blocks (l ++ l') = unpack_blocks l ++ unpack_blocks l'.
Proof. induction l as [|[k v] l IH]; [done|]. cbn [app unpack_blocks]. rewrite IH. by destruct (decode_block v). Qed.

Lemma unpack_files_app known uuids l l' :
  unpack_files known uuids (l ++ l') =
    ((unpack_files known uuids l).1 ++ (unpack_files known uuids l').1, (unpack_files known uuids l).2 ++ (unpack_files known uuids l').2).
Proof.
  induction l as [|[k v] l IH]; cbn [app unpack_files]; [by destruct (unpack_files known uuids l')|]. rewrite IH.
  destruct (unpack_files known uuids l) as [a b]. cbn [fst snd]. destruct (decode_file v) as [db|]; [|done]. by destruct (whole_file _ _ _ _).
Qed.

(** ** The messages *)

(** What is left out is removed at the end. *)
Definition clean_up (corrupted : list bytes) : list op := if bool_decide (corrupted = []) then [] else [RemoveCorruptedFiles corrupted].

Lemma load_files_loop n : ∀ p, (0 < dc_max_files_per_diff cfg)%nat → pl_blocks p = [] → (length (pl_files p) < n)%nat →
  let r := unpack_files (pl_known_hashes p) (pl_folder_infos_uuids p) (pl_files p) in
  ∃ ops, load_loop cfg n p = Some (Node LoadCluster (chain (pl_chain p ++ ops ++ clean_up (pl_corrupted_files p ++ r.2) ++ [Commit])) Null) ∧
    Forall file_portion ops ∧ file_items ops = r.1.
Proof.
  induction n as [|n IH]; intros p Hmax Hb Hn r; [lia|]. cbn [load_loop]. unfold on_partial_load. rewrite Hb. subst r.
  destruct (pl_files p) as [|x l] eqn:Ef.
  - exists []. cbn [unpack_files fst snd app]. rewrite app_nil_r. by split_and!.
  - set (k := dc_max_files_per_diff cfg) in *.
    set (known := pl_known_hashes p). set (uuids := pl_folder_infos_uuids p).
    pose proof (unpack_files_app known uuids (take k (x :: l)) (drop k (x :: l))) as Happ. rewrite take_drop in Happ. rewrite Happ.
    destruct (unpack_files known uuids (take k (x :: l))) as [items corrupted] eqn:Eu. cbn [fst snd].
    set (p' := mkPartialLoad _ _ _ _ _ _). destruct (IH p' Hmax eq_refl) as (ops & He & Hp & Hi).
    { cbn [p' pl_files]. rewrite length_drop. cbn [length] in *. lia. }
    cbn [p' pl_chain pl_known_hashes pl_files pl_folder_infos_uuids pl_corrupted_files] in He, Hi. rewrite He.
    exists (LoadFileInfos items :: (if bool_decide (drop k (x :: l) = []) then [] else [Interrupt]) ++ ops).
    rewrite <- !(app_assoc (pl_corrupted_files p)). rewrite <- app_assoc. split; [by repeat case_bool_decide|]. split.
    + constructor; [done|]. apply Forall_app. split; [|done]. case_bool_decide; repeat constructor.
    + cbn [file_items]. f_equal. rewrite <- Hi. by case_bool_decide.
Qed.

Lemma load_loop_ok n : ∀ p, (0 < dc_max_blocks_per_diff cfg)%nat → (0 < dc_max_files_per_diff cfg)%nat →
  (length (pl_blocks p) + length (pl_files p) < n)%nat →
  let blocks := unpack_blocks (pl_blocks p) in
  let r := unpack_files (pl_known_hashes p ++ map (λ x, drop 1 (fst x)) blocks) (pl_folder_infos_uuids p) (pl_files p) in
  ∃ ops ops', load_loop cfg n p =
      Some (Node LoadCluster (chain (pl_chain p ++ ops ++ ops' ++ clean_up (pl_corrupted_files p ++ r.2) ++ [Commit])) Null) ∧
    Forall block_portion ops ∧ block_items ops = blocks ∧ Forall file_portion ops' ∧ file_items ops' = r.1.
Proof.
  induction n as [|n IH]; intros p Hmax Hmax' Hn blocks r; [lia|]. subst r blocks.
  destruct (pl_blocks p) as [|x l] eqn:Eb.
  - cbn [length] in Hn. destruct (load_files_loop (S n) p Hmax' Eb) as (ops & He & Hp & Hi); [lia|]. exists [], ops.
    cbn [unpack_blocks map]. rewrite app_nil_r. by split_and!.
  - cbn [load_loop]. unfold on_partial_load. rewrite Eb. set (k := dc_max_blocks_per_diff cfg) in *.
    pose proof (unpack_blocks_app (take k (x :: l)) (drop k (x :: l))) as Happ. rewrite take_drop in Happ. rewrite Happ.
    set (p' := mkPartialLoad _ _ _ _ _ _). destruct (IH p' Hmax Hmax') as (ops & ops' & He & Hp & Hi & Hp' & Hi').
    { cbn [p' pl_files pl_blocks]. rewrite length_drop. cbn [length] in *. lia. }
    cbn [p' pl_chain pl_known_hashes pl_blocks pl_files pl_folder_infos_uuids pl_corrupted_files] in He, Hi, Hi'. rewrite He.
    exists (LoadBlocks (unpack_blocks (take k (x :: l))) :: (if bool_decide (drop k (x :: l) = []) then [] else [Interrupt]) ++ ops), ops'.
    rewrite map_app, <- !app_assoc in *. split; [by case_bool_decide|]. split_and!; [|cbn [block_items]; f_equal; rewrite <- Hi; by case_bool_decide|done|done].
    constructor; [done|]. apply Forall_app. split; [|done]. case_bool_decide; repeat constructor.
Qed.
End loop.
