(* ===== verification/Restart.v ===== *)
(** * Restart: the program reads at its start what it had stored: from a database that mirrors a cluster, a new cluster is
    loaded that the database mirrors, too. *)

From S2P Require Import Prelude Diff Version Proto DeviceId Device Blocks FileInfo FileStore FileMap GenericMap Folder.
From S2P Require Import Resolver BlockMap UpdateFolder ApplyUpdate Streamer FileIterator Advance Cluster Changes Trees Removal.
From S2P Require Import Wire Database DbActor Persist DbSample RestoreFiles Restore RestoreTree LoadLoop.

(** The cluster of a program that has just been started: its own device is known, and nothing else. *)
Definition new_cluster (self : device) (token : Z) : model :=
  mkModel (mkCluster ∅ ∅ ∅ []) self [] ∅ ∅ ∅ [] [] [] [] token.

Section restart.
Context `{EngineLaws} `{DbCodecLaws} (parse_text : ∀ s u, parse_uri s = Some u → u_text u = s).

(** A key has more than its prefix. *)
Definition long_key (prefix : Z) (key : bytes) : Prop := ∃ x rest, key = prefix :: x :: rest.

(** What the blocks of a file were asked for: its name, its version, a slot with a block for each of them, and the key that
    its folder info gives it. *)
Record durable_file (m : model) (fi : folder_info) (e : entry) (f : file_info) : Prop := {
  dr_key : f_key f = create_key (e_uuid e) (fi_get_uuid fi);
  dr_uuid : length (e_uuid e) = uuid_length;
  dr_slots : Forall (λ s, is_Some s) (slots f);
  dr_record : ∃ db, as_db f (cl_heap (mo_cluster m)) true = Ok db ∧ whole_record db;
}.

Definition slots_total (m : model) : nat :=
  sum_list (map (λ x : place, match cl_files (mo_cluster m) !! e_file (snd x) with Some f => length (slots f) | None => 0%nat end)
    (places_of (folders_of m))).

(** A cluster that can be loaded again. *)
Record durable (m : model) : Prop := {
  du_wf : wf_model m;
  du_self : mo_device m ∈ mo_devices m;
  du_self_key : long_key prefix_device (device_key local_id (mo_device m));
  du_devices : ∀ dev, dev ∈ mo_devices m → dev = mo_device m ∨ whole_device dev;
  du_pending_devices : wf_gmap (mo_pending_devices m) ∧ Forall (whole_some prefix_pending_device) (mo_pending_devices m);
  du_ignored_devices : wf_gmap (mo_ignored_devices m) ∧ Forall (whole_some prefix_ignored_device) (mo_ignored_devices m);
  du_pending_folders : Forall whole_pending (mo_pending_folders m);
  du_ignored_folders : wf_gmap (mo_ignored_folders m) ∧ Forall (λ x, long_key prefix_ignored_folder (if_key x)) (mo_ignored_folders m);
  du_folders : Forall whole_folder (folders_of m);
  du_uuids : NoDup (map fi_get_uuid (infos_of m));
  du_peers : ∀ fo fi, fo ∈ folders_of m → fi ∈ fo_infos fo →
    ∃ dev, dev ∈ mo_devices m ∧ device_key local_id dev = fi_device_key fi ∧ get_sha256 (d_id dev) = fi_device_sha fi;
  du_blocks : ∀ hash p, cl_blocks (mo_cluster m) !! hash = Some p → length hash = Blocks.digest_length;
  du_files : ∀ fo fi e f, fo ∈ folders_of m → fi ∈ fo_infos fo → e ∈ fi_files fi → cl_files (mo_cluster m) !! e_file e = Some f →
    durable_file m fi e f;
  du_small : 2 * Z.of_nat (slots_total m) + 4 < 2 ^ 30;
}.

(** ** Reading *)

Lemma read_ok {A} (s : store) m prefix (key value : A → bytes) (l : list A) :
  mirrors (contents s) m → prefix ∈ record_prefixes → (∀ k v, component m prefix k v ↔ records key value l k v) →
  (∀ x, x ∈ l → long_key prefix (key x)) → NoDup l → (∀ x y, x ∈ l → y ∈ l → key x = key y → x = y) →
  ∃ xs, xs ≡ₚ l ∧ load prefix s = Ok (map (λ x, (key x, value x)) xs).
Proof.
  intros Hm Hp Hc Hk Hnd Hinj. destruct (load_spec s m prefix Hm Hp) as (pairs & Hl & Hnp & Hin).
  destruct (pairs_items key value l pairs Hnd Hinj Hnp) as (xs & Hxs & ->).
  - intros k v. rewrite Hin. setoid_rewrite Hc. split; [by intros (? & ? & _ & ?)|]. intros (x & Hx & -> & ->). destruct (Hk x Hx) as (y & rest & Hy).
    exists y, rest. split; [done|]. by exists x.
  - by exists xs.
Qed.

Lemma gmap_keyed {A N} `{Keyed A N} (l : list A) (key : A → bytes) :
  (0 < N)%nat → wf_gmap l → (∀ x y, x ∈ l → y ∈ l → key x = key y → get_index 0 x = get_index 0 y) →
  ∀ x y, x ∈ l → y ∈ l → key x = key y → x = y.
Proof. intros HN [_ Hs] Hk x y Hx Hy Heq. apply Hs; [done|done|]. apply shares_alt. exists 0%nat. split; [done|]. by apply Hk. Qed.

(** ** The folders, in the order in which they and their folder infos are read *)

Section regroup.
Context (m : model) (Hd : durable m) (xf : list folder) (xi : list folder_info) (Hf : xf ≡ₚ folders_of m) (Hi : xi ≡ₚ infos_of m).

Definition regroup (fo : folder) : folder := with_infos fo (filter (λ fi, fi ∈ fo_infos fo) xi).

Lemma infos_NoDup : NoDup (infos_of m).
Proof. eapply NoDup_fmap_1, (du_uuids m Hd). Qed.

Lemma regroup_perm fo : fo ∈ folders_of m → fo_infos (regroup fo) ≡ₚ fo_infos fo.
Proof.
  intros Hfo. cbn [regroup with_infos fo_infos]. apply NoDup_Permutation.
  - apply NoDup_filter. rewrite Hi. apply infos_NoDup.
  - apply (mw_infos m (du_wf m Hd) fo Hfo).
  - intros fi. rewrite list_elem_of_filter, Hi. unfold infos_of. rewrite list_elem_of_bind. naive_solver.
Qed.

Lemma regroup_infos : map regroup xf ≫= fo_infos ≡ₚ infos_of m.
Proof.
  unfold infos_of. rewrite <- Hf. assert (∀ fo, fo ∈ xf → fo ∈ folders_of m) as Hin by (intros fo; by rewrite Hf).
  revert Hin. clear Hf. induction xf as [|fo l IH]; intros Hin; [done|]. cbn [map mbind list_bind].
  rewrite IH by (intros; apply Hin; by right). by rewrite regroup_perm by (apply Hin; by left).
Qed.

Lemma regroup_elem fo fi : fo ∈ map regroup xf → fi ∈ fo_infos fo →
  ∃ fo0, fo0 ∈ folders_of m ∧ fo = regroup fo0 ∧ fi ∈ fo_infos fo0.
Proof.
  intros (fo0 & -> & Hin)%list_elem_of_fmap Hfi. rewrite Hf in Hin. exists fo0. split_and!; [done|done|]. by rewrite <- (regroup_perm fo0).
Qed.

Lemma regroup_places : places_of (map regroup xf) ≡ₚ places_of (folders_of m).
Proof. unfold places_of. by rewrite regroup_infos. Qed.

Lemma regroup_owner fo fo' fi : fo ∈ map regroup xf → fo' ∈ map regroup xf → fi ∈ fo_infos fo → fi ∈ fo_infos fo' → fo = fo'.
Proof.
  intros Hfo Hfo' Hfi Hfi'. destruct (regroup_elem fo fi Hfo Hfi) as (x & Hx & -> & Hxi), (regroup_elem fo' fi Hfo' Hfi') as (y & Hy & -> & Hyi).
  f_equal. eapply (info_owner (folders_of m)); try done; apply (du_wf m Hd).
Qed.

Lemma regroup_ids : NoDup (map (λ fo, fd_id (fo_data fo)) (map regroup xf)).
Proof. rewrite map_map. change (NoDup ((λ fo, fd_id (fo_data fo)) <$> xf)). rewrite Hf. apply (cl_wf_ids _ (mw_cluster m (du_wf m Hd))). Qed.

Lemma regroup_devices fo : fo ∈ map regroup xf → NoDup (map fi_device_sha (fo_infos fo)).
Proof.
  intros (fo0 & -> & Hin)%list_elem_of_fmap. rewrite Hf in Hin. change (NoDup (fi_device_sha <$> fo_infos (regroup fo0))).
  rewrite regroup_perm by done. by apply (cl_wf_devices _ (mw_cluster m (du_wf m Hd))).
Qed.

Lemma regroup_uuids : NoDup (map fi_get_uuid (map regroup xf ≫= fo_infos)).
Proof. change (NoDup (fi_get_uuid <$> (map regroup xf ≫= fo_infos))). rewrite regroup_infos. apply (du_uuids m Hd). Qed.

Lemma regroup_wf fo fi : fo ∈ map regroup xf → fi ∈ fo_infos fo → wf_folder_info fi ∧ length (fi_get_uuid fi) = uuid_length.
Proof.
  intros Hfo Hfi. destruct (regroup_elem fo fi Hfo Hfi) as (x & Hx & -> & Hxi).
  by destruct (cl_wf_infos _ (mw_cluster m (du_wf m Hd)) x fi Hx Hxi) as (? & ? & _).
Qed.
End regroup.

(** ** The blocks *)

Lemma blocks_elem c b : b ∈ blocks_of c ↔ ∃ hash p, cl_blocks c !! hash = Some p ∧ cl_heap c !! p = Some b.
Proof.
  unfold blocks_of. rewrite list_elem_of_omap. split.
  - intros ([hash p] & Hin%elem_of_map_to_list & Hb). by exists hash, p.
  - intros (hash & p & Hin & Hb). exists (hash, p). split; [by apply elem_of_map_to_list|done].
Qed.

Lemma blocks_hashes c : wf_cluster c → map b_hash (blocks_of c) = (map_to_list (cl_blocks c)).*1.
Proof.
  intros Hw. unfold blocks_of. assert (∀ x, x ∈ map_to_list (cl_blocks c) → cl_blocks c !! x.1 = Some x.2) as Hin
    by (intros [hash p]; apply elem_of_map_to_list).
  revert Hin. induction (map_to_list (cl_blocks c)) as [|[hash p] l IH]; intros Hin; [done|].
  destruct (bm_hash _ _ _ (cl_wf_blocks c Hw) hash p) as (b & Hb & Hh); [by apply (Hin (hash, p)); left|].
  cbn [omap list_omap snd fmap list_fmap fst]. rewrite Hb. cbn [map]. rewrite Hh, IH; [done|]. intros x Hx. apply Hin. by right.
Qed.

Lemma blocks_NoDup c : wf_cluster c → NoDup (map b_hash (blocks_of c)).
Proof. intros Hw. rewrite blocks_hashes by done. apply NoDup_fst_map_to_list. Qed.

Lemma blocks_length c b : wf_cluster c → (∀ hash p, cl_blocks c !! hash = Some p → length hash = Blocks.digest_length) →
  b ∈ blocks_of c → length (b_hash b) = Blocks.digest_length.
Proof.
  intros Hw Hl (hash & p & Hp & Hb)%blocks_elem. destruct (bm_hash _ _ _ (cl_wf_blocks c Hw) hash p Hp) as (b' & Hb' & <-).
  assert (b' = b) as -> by congruence. by eapply Hl.
Qed.

(** Every file finds its blocks. *)
Lemma kept_place m xb known h1 x : durable m → xb ≡ₚ blocks_of (mo_cluster m) → stocked xb known h1 → x ∈ places_of (folders_of m) →
  ∃ f db, kept (cl_files (mo_cluster m)) (cl_heap (mo_cluster m)) known h1 x f db.
Proof.
  intros Hd Hxb Hst Hx. destruct x as [fi e]. apply places_elem in Hx as (fo & Hfo & Hfi & He).
  pose proof (mw_cluster m (du_wf m Hd)) as Hw. destruct (cl_wf_infos _ Hw fo fi Hfo Hfi) as (_ & _ & Hen). destruct (Hen e He) as (f & Hf & Hef).
  destruct (du_files m Hd fo fi e f Hfo Hfi He Hf) as [Hkey Huuid Hslots (db & Hdb & Hwh)].
  exists f, db. split; try done; [by apply (cl_wf_files _ Hw (e_file e))|]. intros s Hs. rewrite Forall_forall in Hslots.
  destruct (Hslots s Hs) as [[p l] ->]. apply list_elem_of_lookup in Hs as [i Hi].
  destruct (cl_heap (mo_cluster m) !! p) as [b|] eqn:Hb.
  2: { destruct (heap_dead _ _ _ (bm_heap _ _ _ (cl_wf_blocks _ Hw)) p Hb) as [_ Hno]. destruct (Hno (e_file e) i).
       unfold slot_at. by rewrite lookup_fmap, Hf; cbn; rewrite Hi. }
  assert (b ∈ xb) as Hin by (rewrite Hxb; apply blocks_elem; eexists _, _; split; [by apply (cl_wf_known _ Hw)|done]).
  destruct (sk_all _ _ _ Hst b Hin) as [p' Hp']. destruct (sk_block _ _ _ Hst _ _ Hp') as (b' & b2 & Hb' & Hb2 & Hh2 & Hh' & Hs').
  assert (b2 = b) as ->.
  { rewrite Hxb in Hin, Hb2. by apply (NoDup_map_inj _ _ _ _ (blocks_NoDup _ Hw)). }
  by exists p, l, b, p', b'.
Qed.

(** The cluster before its first file. *)
Lemma before_files m xf xi xb known h1 : durable m → xf ≡ₚ folders_of m → xi ≡ₚ infos_of m → stocked xb known h1 →
  underway (map (regroup xi) xf) (cl_files (mo_cluster m)) (cl_heap (mo_cluster m)) known h1 []
    (mkCluster known h1 ∅ (map (housed (λ _, [])) (map (regroup xi) xf))) (λ _, []).
Proof.
  intros Hd Hf Hi [Hsw Hr Hk Hb Ha].
  assert (∀ fo fi e, fo ∈ map (housed (λ _, [])) (map (regroup xi) xf) → fi ∈ fo_infos fo → e ∉ fi_files fi) as Hno.
  { intros fo fi e (x & -> & _)%list_elem_of_fmap (y & -> & _)%list_elem_of_fmap. apply not_elem_of_nil. }
  assert (∀ fo, fo_infos (housed (λ _, []) fo) = filled (λ _, []) <$> fo_infos fo) as Hhi by done.
  split; cbn [cl_blocks cl_heap cl_files cl_folders]; try done.
  - split; cbn [cl_blocks cl_heap cl_files cl_folders]; try done.
    + intros fo fi Hfo Hfi. split_and!; [..|intros e He; by destruct (Hno fo fi e)].
      * split; [|intros e He; by destruct (Hno fo fi e)]. destruct (fi_files fi) as [|e l] eqn:E.
        -- split; constructor.
        -- destruct (Hno fo fi e); [done|done|rewrite E; left].
      * apply list_elem_of_fmap in Hfo as (x & -> & Hx). apply list_elem_of_fmap in Hfi as (y & -> & Hy).
        by apply (regroup_wf m Hd xf xi Hf Hi x y).
    + rewrite map_map. erewrite map_ext; [by apply (regroup_ids m Hd xf xi)|]. intros fo. apply (bare_id fo).
    + intros fo (x & -> & Hx)%list_elem_of_fmap. cbn [housed with_infos fo_infos]. rewrite map_map. by apply (regroup_devices m Hd xf xi Hf Hi).
    + intros fo fi e fo' fi' e' Hfo Hfi He. by destruct (Hno fo fi e).
  - intros fi e _ He. by apply elem_of_nil in He.
  - intros x Hx. by apply elem_of_nil in Hx.
Qed.

(** ** The tree *)

Definition place_value (m : model) (x : place) : bytes :=
  match cl_files (mo_cluster m) !! e_file (snd x) with Some f => file_value (cl_heap (mo_cluster m)) f | None => [] end.

(** What the database has of a cluster, in the order in which it is read. *)
Record reading := mkReading {
  rd_devices : list device;
  rd_blocks : list block_info;
  rd_ignored_devices : list some_device;
  rd_ignored_folders : list ignored_folder;
  rd_folders : list folder;
  rd_infos : list folder_info;
  rd_places : list place;
  rd_pending_devices : list some_device;
  rd_pending_folders : list pending_folder;
}.

Record reads (m : model) (r : reading) : Prop := {
  re_devices : rd_devices r ≡ₚ mo_devices m;
  re_blocks : rd_blocks r ≡ₚ blocks_of (mo_cluster m);
  re_ignored_devices : rd_ignored_devices r ≡ₚ mo_ignored_devices m;
  re_ignored_folders : rd_ignored_folders r ≡ₚ mo_ignored_folders m;
  re_folders : rd_folders r ≡ₚ folders_of m;
  re_infos : rd_infos r ≡ₚ infos_of m;
  re_places : rd_places r ≡ₚ places_of (folders_of m);
  re_pending_devices : rd_pending_devices r ≡ₚ mo_pending_devices m;
  re_pending_folders : rd_pending_folders r ≡ₚ mo_pending_folders m;
}.

Definition pairs_of {A} (key value : A → bytes) (l : list A) : list (bytes * bytes) := map (λ x, (key x, value x)) l.

Definition first_changes (r : reading) : list op :=
  [LoadDevices (pairs_of (device_key local_id) device_value (rd_devices r)); LoadIgnoredDevices (pairs_of sd_key some_value (rd_ignored_devices r));
   LoadIgnoredFolders (pairs_of if_key ignored_value (rd_ignored_folders r)); LoadFolders (pairs_of fo_key folder_value (rd_folders r));
   LoadFolderInfos (map (λ fi, (fi_key fi, serialize_folder_info fi)) (rd_infos r));
   LoadPendingDevices (pairs_of sd_key some_value (rd_pending_devices r)); LoadPendingFolders (pairs_of pn_key pending_value (rd_pending_folders r))].

Lemma load_infos_ok xi : (∀ fi, fi ∈ xi → ∃ fo, keyed_info fo fi) →
  load_infos (pairs_of fi_key info_value xi) = Ok (map (λ fi, (fi_key fi, serialize_folder_info fi)) xi, map fi_get_uuid xi).
Proof.
  induction xi as [|fi xi IH]; intros Hk; [done|]. unfold pairs_of in *. cbn [map load_infos]. destruct (Hk fi) as (fo & Hfi); [by left|].
  destruct (keyed_info_ok fo fi Hfi) as (uuid & -> & <- & _). cbn [res_bind]. unfold info_value at 1. rewrite folder_info_law, IH; [done|].
  intros x Hx. apply Hk. by right.
Qed.

Lemma infos_elem m fi : fi ∈ infos_of m ↔ ∃ fo, fo ∈ folders_of m ∧ fi ∈ fo_infos fo.
Proof. unfold infos_of. rewrite list_elem_of_bind. naive_solver. Qed.

Lemma places_NoDup m : durable m → NoDup (places_of (folders_of m)).
Proof.
  intros Hd. unfold places_of. apply NoDup_bind; [exact (infos_NoDup m Hd)|intros fi Hfi|].
  - apply (NoDup_fmap_2 _), (NoDup_fmap_1 e_uuid). apply list_elem_of_bind in Hfi as (fo & Hfi & Hfo).
    by apply (cl_wf_infos _ (mw_cluster m (du_wf m Hd)) fo fi).
  - intros fi fi' x _ _ (? & -> & _)%list_elem_of_fmap (? & [= <- _] & _)%list_elem_of_fmap. done.
Qed.

Lemma place_key_inj m x y : durable m → x ∈ places_of (folders_of m) → y ∈ places_of (folders_of m) → place_key x = place_key y → x = y.
Proof.
  intros Hd. destruct x as [fi e], y as [fi' e']. rewrite !places_elem. intros (fo & Hfo & Hfi & He) (fo' & Hfo' & Hfi' & He').
  unfold place_key, create_key. cbn [fst snd]. intros [= Heq]. pose proof (mw_cluster m (du_wf m Hd)) as Hw.
  destruct (cl_wf_infos _ Hw fo fi Hfo Hfi) as (Hwi & Hl & _), (cl_wf_infos _ Hw fo' fi' Hfo' Hfi') as (_ & Hl' & _).
  apply app_inj_1 in Heq as [Hu Heu]; [|congruence]. assert (fi = fi') as ->.
  { apply (NoDup_map_inj _ _ _ _ (du_uuids m Hd)); [apply infos_elem; eauto..|done]. }
  f_equal. apply (wf_map_key (fi_files fi')); [apply Hwi|done|done|]. by left.
Qed.

Lemma component_places m k v : durable m → component m prefix_file_info k v ↔ records place_key (place_value m) (places_of (folders_of m)) k v.
Proof.
  intros Hd. change (component m prefix_file_info) with (records file_key (file_value (cl_heap (mo_cluster m))) (files_of_cluster (mo_cluster m))).
  unfold records. setoid_rewrite files_elem. pose proof (mw_cluster m (du_wf m Hd)) as Hw. split.
  - intros (f & (fi & e & Hx & Hf) & -> & ->). exists (fi, e). split; [done|]. unfold place_value. cbn [snd]. rewrite Hf. split; [|done].
    apply places_elem in Hx as (fo & Hfo & Hfi & He). unfold file_key, get_full_id. by rewrite (dr_key _ _ _ _ (du_files m Hd fo fi e f Hfo Hfi He Hf)).
  - intros ([fi e] & Hx & -> & ->). pose proof Hx as Hx'. apply places_elem in Hx' as (fo & Hfo & Hfi & He).
    destruct (cl_wf_infos _ Hw fo fi Hfo Hfi) as (_ & _ & Hen). destruct (Hen e He) as (f & Hf & _). exists f. unfold place_value. cbn [snd].
    rewrite Hf. split_and!; [by exists fi, e| |done]. unfold file_key, get_full_id.
    by rewrite (dr_key _ _ _ _ (du_files m Hd fo fi e f Hfo Hfi He Hf)).
Qed.

Lemma sha_long prefix sha : is_sha256 sha → long_key prefix (prefix :: sha).
Proof. intros [_ Hl]. destruct sha as [|x rest]; [done|]. by exists x, rest. Qed.

Lemma some_key_inj prefix (l : list some_device) : wf_gmap l → Forall (whole_some prefix) l →
  ∀ x y, x ∈ l → y ∈ l → sd_key x = sd_key y → x = y.
Proof.
  intros Hw Hall. rewrite Forall_forall in Hall. apply gmap_keyed; [lia|done|]. intros x y Hx Hy Heq.
  destruct (Hall x Hx) as [_ Hkx], (Hall y Hy) as [_ Hky]. change (Some (get_sha256 (sd_id x)) = Some (get_sha256 (sd_id y))). congruence.
Qed.

Lemma read_some (s : store) m prefix (l : list some_device) :
  mirrors (contents s) m → prefix ∈ record_prefixes → (∀ k v, component m prefix k v ↔ records sd_key some_value l k v) →
  wf_gmap l → Forall (whole_some prefix) l → ∃ xs, xs ≡ₚ l ∧ load prefix s = Ok (pairs_of sd_key some_value xs).
Proof.
  intros Hm Hp Hc Hw Hall. apply (read_ok s m prefix sd_key some_value l); try done; [|apply Hw|by apply (some_key_inj prefix)].
  intros x Hx. rewrite Forall_forall in Hall. destruct (Hall x Hx) as [Hs ->]. by apply sha_long.
Qed.

Lemma trigger_ok a m : mirrors (contents (da_env a)) m → durable m →
  ∃ r, reads m r ∧ on_cluster_load_trigger a =
    Ok (mkPartialLoad (first_changes r) [] (pairs_of block_key block_value (rd_blocks r)) (pairs_of place_key (place_value m) (rd_places r))
          (map fi_get_uuid (rd_infos r)) []).
Proof.
  intros Hm Hd. destruct (begin_ok (da_env a)) as (t & Ht & Hct). rewrite <- Hct in Hm. pose proof (du_wf m Hd) as Hw.
  pose proof (mw_cluster m Hw) as Hcw.
  destruct (read_ok t m prefix_device (device_key local_id) device_value (mo_devices m)) as (xd & Hxd & Ld);
    [done|set_solver|done| |apply (mw_devices m Hw)|apply gmap_keyed; [lia|apply (mw_devices m Hw)|intros x y _ _ Heq; cbn; by rewrite Heq]|].
  { intros x Hx. destruct (du_devices m Hd x Hx) as [->|(Hs & -> & _)]; [apply (du_self_key m Hd)|by apply sha_long]. }
  destruct (read_ok t m prefix_block_info block_key block_value (blocks_of (mo_cluster m))) as (xb & Hxb & Lb);
    [done|set_solver|done| |eapply NoDup_fmap_1, blocks_NoDup, Hcw| |].
  { intros x Hx. unfold block_key. pose proof (blocks_length _ _ Hcw (du_blocks m Hd) Hx) as Hl. destruct (b_hash x) as [|y rest]; [done|]. by exists y, rest. }
  { intros x y Hx Hy [= Heq]. by apply (NoDup_map_inj _ _ _ _ (blocks_NoDup _ Hcw)). }
  destruct (du_ignored_devices m Hd) as [Hwi Hali], (du_pending_devices m Hd) as [Hwp Halp], (du_ignored_folders m Hd) as [Hwf Half].
  destruct (read_some t m prefix_ignored_device (mo_ignored_devices m)) as (xid & Hxid & Lid); [done|set_solver|done|done|done|].
  destruct (read_ok t m prefix_ignored_folder if_key ignored_value (mo_ignored_folders m)) as (xif & Hxif & Lif);
    [done|set_solver|done|by apply Forall_forall|apply Hwf|apply gmap_keyed; [lia|done|intros x y _ _ Heq; cbn; by rewrite Heq]|].
  destruct (read_ok t m prefix_folder fo_key folder_value (folders_of m)) as (xf & Hxf & Lf);
    [done|set_solver|done| |apply (mw_folders m Hw)|apply gmap_keyed; [lia|apply (mw_folders m Hw)|intros x y _ _ Heq; cbn; by rewrite Heq]|].
  { intros x Hx. pose proof (du_folders m Hd) as Hall. rewrite Forall_forall in Hall. destruct (Hall x Hx) as (uuid & Hu & ->).
    destruct uuid as [|y rest]; [done|]. by exists y, rest. }
  destruct (read_ok t m prefix_folder_info fi_key info_value (infos_of m)) as (xi & Hxi & Li);
    [done|set_solver|done| |by apply infos_NoDup| |].
  { intros fi (fo & Hfo & Hfi)%infos_elem. destruct (mw_keys m Hw fo fi Hfo Hfi) as (d & f & u & Hl & _ & _ & _ & _ & ->).
    destruct d as [|y rest]; [done|]. by eexists y, _. }
  { intros fi fi' Hfi Hfi' Heq. apply (NoDup_map_inj _ _ _ _ (du_uuids m Hd)); try done. unfold fi_get_uuid. by rewrite Heq. }
  destruct (read_ok t m prefix_file_info place_key (place_value m) (places_of (folders_of m))) as (xx & Hxx & Lx);
    [done|set_solver|intros; by apply component_places| |by apply places_NoDup|intros x y ? ?; by apply (place_key_inj m)|].
  { intros [fi e] (fo & Hfo & Hfi & He)%places_elem. destruct (cl_wf_infos _ Hcw fo fi Hfo Hfi) as (_ & Hl & _). unfold place_key, create_key. cbn [fst snd].
    destruct (fi_get_uuid fi) as [|y rest]; [done|]. by eexists y, _. }
  destruct (read_some t m prefix_pending_device (mo_pending_devices m)) as (xpd & Hxpd & Lpd); [done|set_solver|done|done|done|].
  destruct (read_ok t m prefix_pending_folder pn_key pending_value (mo_pending_folders m)) as (xpf & Hxpf & Lpf);
    [done|set_solver|done| |apply (mw_pending m Hw)|apply gmap_keyed; [lia|apply (mw_pending m Hw)|intros x y _ _ Heq; cbn; by rewrite Heq]|].
  { intros x Hx. pose proof (du_pending_folders m Hd) as Hall. rewrite Forall_forall in Hall. destruct (Hall x Hx) as (_ & uuid & Hu & ->).
    destruct uuid as [|y rest]; [done|]. by eexists y, _. }
  exists (mkReading xd xb xid xif xf xi xx xpd xpf). split; [by split|]. unfold on_cluster_load_trigger. rewrite Ht. cbn [checked res_bind].
  rewrite Ld, Lb, Lid, Lif, Lf, Li, Lx, Lpd, Lpf. cbn [res_bind]. fold (pairs_of fi_key info_value xi). rewrite load_infos_ok; [done|].
  intros fi Hfi. rewrite Hxi in Hfi. apply infos_elem in Hfi as (fo & Hfo & Hfi). exists fo. by apply (mw_keys m Hw).
Qed.

(** ** Applying it *)

(** The containers that were filled, beside the folders. *)
Record refilled (r : reading) (ds : list device) (pds ids : list some_device) (pfs : list pending_folder) (ifs : list ignored_folder) : Prop := {
  rf_devices : Forall2 (restores (device_key local_id) device_value) (rd_devices r) ds;
  rf_pending_devices : Forall2 (restores sd_key some_value) (rd_pending_devices r) pds;
  rf_ignored_devices : Forall2 (restores sd_key some_value) (rd_ignored_devices r) ids;
  rf_pending_folders : Forall2 (restores pn_key pending_value) (rd_pending_folders r) pfs;
  rf_ignored_folders : Forall2 (restores if_key ignored_value) (rd_ignored_folders r) ifs;
}.

Lemma reads_wf m r : durable m → reads m r →
  wf_gmap (rd_devices r) ∧ wf_gmap (rd_pending_devices r) ∧ wf_gmap (rd_ignored_devices r) ∧ wf_gmap (rd_pending_folders r) ∧
  wf_gmap (rd_ignored_folders r) ∧ wf_gmap (rd_folders r).
Proof.
  intros Hd Hr. pose proof (du_wf m Hd) as Hw. split_and!; eapply wf_gmap_perm;
    [symmetry; apply Hr|apply Hw|symmetry; apply Hr|apply (du_pending_devices m Hd)|symmetry; apply Hr|apply (du_ignored_devices m Hd)
    |symmetry; apply Hr|apply Hw|symmetry; apply Hr|apply (du_ignored_folders m Hd)|symmetry; apply Hr|apply Hw].
Qed.

Lemma first_ok m r token0 : durable m → reads m r → ∃ ds pds ids pfs ifs token,
  run (first_changes r) (new_cluster (mo_device m) token0) =
    Ok (mkModel (mkCluster ∅ ∅ ∅ (map (seat (rd_infos r)) (rd_folders r))) (mo_device m) ds ∅ ∅ ∅ pds ids pfs ifs token) ∧
  refilled r ds pds ids pfs ifs.
Proof.
  intros Hd Hr. destruct (reads_wf m r Hd Hr) as (Wd & Wpd & Wid & Wpf & Wif & Wf). pose proof (du_wf m Hd) as Hw.
  destruct (load_devices_ok parse_text (rd_devices r) [] [] (new_cluster (mo_device m) token0)) as (ds & token & Ld & Fd); try done.
  { cbn [app]. rewrite (re_devices m r Hr). apply (du_self m Hd). }
  { apply Forall_forall. intros x. rewrite (re_devices m r Hr). apply (du_devices m Hd). }
  destruct (load_some_ok prefix_ignored_device (rd_ignored_devices r) [] []) as (ids & Lid & Fid); try done.
  { rewrite (re_ignored_devices m r Hr). apply (du_ignored_devices m Hd). }
  set (m1 := with_next_token (with_devices (new_cluster (mo_device m) token0) ([] ++ ds)) token) in *.
  destruct (load_ignored_ok (rd_ignored_folders r) [] [] (with_ignored_devices m1 ids)) as (ifs & Lif & Fif); try done.
  { rewrite (re_ignored_folders m r Hr). eapply Forall_impl; [apply (du_ignored_folders m Hd)|]. intros x (y & rest & ->). by eexists. }
  set (m2 := with_ignored_folders (with_ignored_devices m1 ids) ([] ++ ifs)) in *.
  pose proof (load_folders_ok (rd_folders r) [] m2) as Lf. specialize (Lf Wf).
  specialize (Lf ltac:(rewrite (re_folders m r Hr); apply (du_folders m Hd)) eq_refl).
  set (m3 := with_folders m2 (map bare ([] ++ rd_folders r))) in *.
  assert (∀ fo, fo ∈ rd_folders r → fo ∈ folders_of m) as Hin by (intros fo; by rewrite (re_folders m r Hr)).
  assert (load_folder_infos (map (λ fi, (fi_key fi, serialize_folder_info fi)) (rd_infos r)) m3 =
    Ok (with_folders m3 (map (seat ([] ++ rd_infos r)) (rd_folders r)))) as Li.
  { apply (load_folder_infos_ok (rd_folders r) ds); try done.
    - intros fo Hfo. by apply (mw_infos m Hw), Hin.
    - intros fo fi Hfo Hfi. by apply (mw_keys m Hw), Hfi; apply Hin.
    - intros fo fi Hfo Hfi. destruct (du_peers m Hd fo fi (Hin fo Hfo) Hfi) as (dev & Hdev & Hk & Hs). rewrite <- (re_devices m r Hr) in Hdev.
      destruct (restored_device (rd_devices r) ds dev Wd Fd Hdev) as (y & Hy & Hky & Hsy & Hgk & _). exists y. split_and!; congruence.
    - cbn [app]. rewrite (re_infos m r Hr). by apply infos_NoDup.
    - apply Forall_forall. intros fi. rewrite (re_infos m r Hr), infos_elem. setoid_rewrite (re_folders m r Hr). done. }
  set (m4 := with_folders m3 (map (seat ([] ++ rd_infos r)) (rd_folders r))) in *.
  destruct (load_some_ok prefix_pending_device (rd_pending_devices r) [] []) as (pds & Lpd & Fpd); try done.
  { rewrite (re_pending_devices m r Hr). apply (du_pending_devices m Hd). }
  destruct (load_pending_ok (rd_pending_folders r) [] [] (with_pending_devices m4 pds)) as (pfs & Lpf & Fpf); try done.
  { rewrite (re_pending_folders m r Hr). apply (du_pending_folders m Hd). }
  exists ds, pds, ids, pfs, ifs, token. split; [|by split]. unfold first_changes, pairs_of. cbn [run op_before]. rewrite Ld. cbn [res_bind].
  unfold load_ignored_devices. change (mo_ignored_devices m1) with (@nil some_device). rewrite Lid. cbn [res_bind app]. rewrite Lif. cbn [res_bind].
  rewrite Lf. cbn [res_bind]. rewrite Li. cbn [res_bind]. unfold load_pending_devices. change (mo_pending_devices m4) with (@nil some_device).
  rewrite Lpd. cbn [res_bind app]. rewrite Lpf. cbn [res_bind]. done.
Qed.

Lemma unpack_blocks_ok xb : unpack_blocks (pairs_of block_key block_value xb) = map block_item xb.
Proof. induction xb as [|b xb IH]; [done|]. unfold pairs_of in *. cbn [map unpack_blocks]. unfold block_value at 1. by rewrite block_law, IH. Qed.

(** All files are whole. *)
Lemma unpack_files_ok m xb known h1 uuids xx : durable m → xb ≡ₚ blocks_of (mo_cluster m) → stocked xb known h1 →
  (∀ x, x ∈ xx → x ∈ places_of (folders_of m) ∧ fi_get_uuid (fst x) ∈ uuids) →
  ∃ items, unpack_files (map b_hash xb) uuids (pairs_of place_key (place_value m) xx) = (items, []) ∧
    Forall2 (λ x it, ∃ f, fst it = place_key x ∧ kept (cl_files (mo_cluster m)) (cl_heap (mo_cluster m)) known h1 x f (snd it)) xx items.
Proof.
  intros Hd Hxb Hst. induction xx as [|[fi e] xx IH]; intros Hin; [by exists []|].
  destruct IH as (items & Hu & HF); [intros x Hx; apply Hin; by right|]. destruct (Hin (fi, e)) as [Hx Huu]; [by left|].
  destruct (kept_place m xb known h1 (fi, e) Hd Hxb Hst Hx) as (f & db & Hk). unfold pairs_of in *. cbn [map unpack_files]. rewrite Hu.
  unfold place_value at 1. rewrite (kp_file _ _ _ _ _ _ _ Hk). unfold file_value. rewrite (kp_db _ _ _ _ _ _ _ Hk), file_law.
  assert (whole_file (map b_hash xb) uuids (place_key (fi, e)) db = true) as ->.
  { destruct (kept_fields _ _ _ _ _ _ _ Hk) as (_ & _ & _ & Hkn). unfold whole_file. apply andb_true_iff. split.
    - apply forallb_forall. intros hash Hh%list_elem_of_In. rewrite Forall_forall in Hkn. destruct (Hkn hash Hh) as [p Hp].
      destruct (sk_block _ _ _ Hst _ _ Hp) as (_ & b & _ & Hb & <- & _). by apply bool_decide_eq_true_2, list_elem_of_fmap_2.
    - apply bool_decide_eq_true_2. apply places_elem in Hx as (fo & Hfo & Hfi & _).
      destruct (cl_wf_infos _ (mw_cluster m (du_wf m Hd)) fo fi Hfo Hfi) as (_ & Hl & _).
      cbn [place_key fst snd drop]. unfold create_key. by rewrite drop_0, take_app_length'. }
  exists ((place_key (fi, e), db) :: items). split; [done|]. constructor; [by exists f|done].
Qed.

Lemma sum_perm {A} (g : A → nat) (l l' : list A) : l ≡ₚ l' → sum_list (map g l) = sum_list (map g l').
Proof. induction 1; cbn [map sum_list_with]; unfold id in *; lia. Qed.

(** What the loaded cluster is. *)
Record restored (m : model) (r : reading) (m' : model) : Prop := {
  rs_self : mo_device m' = mo_device m;
  rs_refilled : refilled r (mo_devices m') (mo_pending_devices m') (mo_ignored_devices m') (mo_pending_folders m') (mo_ignored_folders m');
  rs_cluster : ∃ known h1 F, stocked (rd_blocks r) known h1 ∧
    underway (map (regroup (rd_infos r)) (rd_folders r)) (cl_files (mo_cluster m)) (cl_heap (mo_cluster m)) known h1 (rd_places r) (mo_cluster m') F;
}.

Lemma load_ok a m cfg n token : mirrors (contents (da_env a)) m → durable m →
  (0 < dc_max_blocks_per_diff cfg)%nat → (0 < dc_max_files_per_diff cfg)%nat →
  (length (blocks_of (mo_cluster m)) + length (places_of (folders_of m)) < n)%nat →
  ∃ p d r m', on_cluster_load_trigger a = Ok p ∧ load_loop cfg n p = Some d ∧ apply d (new_cluster (mo_device m) token) = Ok m' ∧
    reads m r ∧ restored m r m'.
Proof.
  intros Hm Hd Hmax Hmax' Hn. destruct (trigger_ok a m Hm Hd) as (r & Hr & Ht). pose proof (mw_cluster m (du_wf m Hd)) as Hw.
  destruct (load_blocks_ok (rd_blocks r) [] ∅ ∅) as (known & h1 & Lb & Hst); [apply stocked_nil|..].
  { apply Forall_forall. intros b. rewrite (re_blocks m r Hr). apply blocks_length; [done|apply (du_blocks m Hd)]. }
  { cbn [app]. change (NoDup (b_hash <$> rd_blocks r)). rewrite (re_blocks m r Hr). by apply blocks_NoDup. }
  cbn [app] in Hst. destruct (unpack_files_ok m (rd_blocks r) known h1 (map fi_get_uuid (rd_infos r)) (rd_places r)) as (items & Hu & HF);
    [done|apply Hr|done| |].
  { intros x. rewrite (re_places m r Hr). intros Hx. split; [done|]. destruct x as [fi e]. apply places_elem in Hx as (fo & Hfo & Hfi & _).
    apply list_elem_of_fmap_2. rewrite (re_infos m r Hr). apply infos_elem. eauto. }
  match type of Ht with _ = Ok ?p => destruct (load_loop_ok cfg n p Hmax Hmax') as (bops & fops & Hl & Hbp & Hbi & Hfp & Hfi) end.
  { cbn [pl_blocks pl_files]. unfold pairs_of. rewrite !length_map. by rewrite (re_blocks m r Hr), (re_places m r Hr). }
  cbn [pl_blocks pl_files pl_known_hashes pl_folder_infos_uuids pl_corrupted_files pl_chain app] in Hl, Hbi, Hfi.
  rewrite unpack_blocks_ok in Hbi, Hl, Hfi. rewrite map_map in Hl, Hfi. cbn [block_item fst] in Hl, Hfi.
  change (map (λ x, drop 1 (block_key x)) (rd_blocks r)) with (map b_hash (rd_blocks r)) in Hl, Hfi. rewrite Hu in Hl, Hfi. cbn [fst snd] in Hl, Hfi.
  destruct (first_ok m r token Hd Hr) as (ds & pds & ids & pfs & ifs & token' & Hrun & Hrf). set (m1 := mkModel _ _ _ _ _ _ _ _ _ _ _) in Hrun.
  set (m2 := with_cluster m1 (mkCluster known h1 ∅ (cl_folders (mo_cluster m1)))).
  destruct (load_files_ok (map (regroup (rd_infos r)) (rd_folders r)) (cl_files (mo_cluster m)) (cl_heap (mo_cluster m)) known h1
    ltac:(by apply (regroup_ids m Hd); apply Hr) ltac:(by apply (regroup_devices m Hd); apply Hr) ltac:(by apply (regroup_uuids m Hd); apply Hr)
    ltac:(by apply (regroup_wf m Hd); apply Hr) ltac:(by apply (regroup_owner m Hd); apply Hr)
    (rd_places r) [] (mo_cluster m2) (λ _, []) items m2) as (c' & F & Lf & Hc'); try done.
  - unfold m2, m1. cbn [with_cluster mo_cluster cl_folders]. pose proof (before_files m (rd_folders r) (rd_infos r) (rd_blocks r) known h1 Hd
      (re_folders m r Hr) (re_infos m r Hr) Hst) as Hb. rewrite map_map in Hb. exact Hb.
  - cbn [app]. rewrite (re_places m r Hr). by apply places_NoDup.
  - intros x. cbn [app]. rewrite (re_places m r Hr), (regroup_places m Hd (rd_folders r)); [done|apply Hr..].
  - cbn [app]. pose proof (du_small m Hd) as Hs. unfold slots_total in Hs. rewrite (sum_perm _ _ _ (re_places m r Hr)). exact Hs.
  - eexists _, _, r, (with_cluster m2 c'). split_and!; [exact Ht|exact Hl| |done|].
    + cbn [apply kind_of change_ops op_kind before after late enters op_enters op_before op_after op_late res_bind]. rewrite apply_chain.
      2: { unfold clean_up. rewrite bool_decide_eq_true_2 by done. rewrite !Forall_app. split_and!; [by repeat constructor|apply portions_load; auto..|constructor|by repeat constructor]. }
      rewrite run_app, Hrun. cbn [res_bind]. rewrite run_app, (run_blocks bops), Hbi by done. unfold load_blocks_apply.
      change (cl_blocks (mo_cluster m1)) with (∅ : block_map). change (cl_heap (mo_cluster m1)) with (∅ : heap). rewrite Lb. cbn [res_bind].
      change (with_cluster m1 _) with m2. rewrite run_app, (run_files fops), Hfi by done. rewrite Lf. done.
    + split; [done|done|]. by exists known, h1, F.
Qed.

(** ** What was loaded *)

Section restored.
Context (m : model) (r : reading) (m' : model) (Hd : durable m) (Hr : reads m r) (Hrs : restored m r m').

Lemma restored_folders : ∃ F, folders_of m' = map (λ fo, housed F (regroup (rd_infos r) fo)) (rd_folders r).
Proof.
  destruct (rs_cluster _ _ _ Hrs) as (known & h1 & F & _ & Hu). exists F. unfold folders_of. by rewrite (uw_folders _ _ _ _ _ _ _ _ Hu), map_map.
Qed.

Lemma housed_restores F : Forall2 (restores fo_key folder_value) (rd_folders r) (map (λ fo, housed F (regroup (rd_infos r) fo)) (rd_folders r)).
Proof. apply Forall2_fmap_r, Forall_Forall2_diag, Forall_forall. intros fo _. apply (bare_restores fo). Qed.

Lemma filled_restores F l : Forall2 (restores fi_key info_value) l (map (filled F) l).
Proof. apply Forall2_fmap_r, Forall_Forall2_diag, Forall_forall. intros fi _. done. Qed.

Lemma restored_model : wf_model m'.
Proof.
  pose proof (du_wf m Hd) as Hw. destruct (reads_wf m r Hd Hr) as (Wd & Wpd & Wid & Wpf & Wif & Wf).
  destruct (rs_cluster _ _ _ Hrs) as (known & h1 & F0 & _ & Hu). destruct (rs_refilled _ _ _ Hrs) as [Fd _ _ Fpf _].
  destruct restored_folders as [F HF].
  assert (∀ fo, fo ∈ rd_folders r → fo ∈ folders_of m) as Hin by (intros fo; by rewrite (re_folders m r Hr)). split.
  - apply (uw_wf _ _ _ _ _ _ _ _ Hu).
  - rewrite HF. eapply (restored_wf fo_key folder_value (rd_folders r)); [lia|done|apply housed_restores].
  - rewrite HF. intros fo (x & -> & Hx)%list_elem_of_fmap. cbn [housed with_infos fo_infos].
    eapply (restored_wf fi_key info_value); [lia| |apply filled_restores]. eapply wf_gmap_perm; [|apply (mw_infos m Hw x); by apply Hin].
    symmetry. apply (regroup_perm m Hd _ (re_infos m r Hr)). by apply Hin.
  - rewrite HF. intros fo fi (x & -> & Hx)%list_elem_of_fmap (y & -> & Hy)%list_elem_of_fmap.
    rewrite (regroup_perm m Hd _ (re_infos m r Hr)) in Hy by (by apply Hin). apply (mw_keys m Hw x y); [by apply Hin|done].
  - apply (uw_files _ _ _ _ _ _ _ _ Hu).
  - by eapply (restored_wf (device_key local_id) device_value (rd_devices r)); [lia| |].
  - by eapply (restored_wf pn_key pending_value (rd_pending_folders r)); [lia| |].
Qed.

Lemma restored_blocks k v :
  records block_key block_value (blocks_of (mo_cluster m')) k v ↔ records block_key block_value (blocks_of (mo_cluster m)) k v.
Proof.
  rewrite <- (records_perm block_key block_value _ _ k v (re_blocks m r Hr)). destruct (rs_cluster _ _ _ Hrs) as (known & h1 & F & Hst & Hu).
  pose proof (uw_blocks _ _ _ _ _ _ _ _ Hu) as Hb. pose proof (bm_hash _ _ _ (cl_wf_blocks _ (uw_wf _ _ _ _ _ _ _ _ Hu))) as Hh. rewrite Hb in Hh.
  pose proof (uw_heap _ _ _ _ _ _ _ _ Hu) as Hsh. unfold records. setoid_rewrite blocks_elem. rewrite Hb.
  assert (∀ hash p b', known !! hash = Some p → cl_heap (mo_cluster m') !! p = Some b' →
    ∃ b, b ∈ rd_blocks r ∧ b_hash b = hash ∧ b_hash b' = hash ∧ b_size b' = b_size b) as Hblk.
  { intros hash p b' Hp Hb'. destruct (sk_block _ _ _ Hst hash p Hp) as (b1 & b & Hb1 & Hin & Hhb & Hh1 & Hs1).
    destruct (Hsh p b' Hb') as (b2 & Hb2 & Hh2 & Hs2). assert (b2 = b1) as -> by congruence. exists b. split_and!; congruence. }
  unfold block_key, block_value. split.
  - intros (b' & (hash & p & Hp & Hb') & -> & ->). destruct (Hblk hash p b' Hp Hb') as (b & Hin & Hhb & -> & ->). exists b. by rewrite Hhb.
  - intros (b & Hin & -> & ->). destruct (sk_all _ _ _ Hst b Hin) as [p Hp]. destruct (Hh _ _ Hp) as (b' & Hb' & Hhb').
    destruct (Hblk _ p b' Hp Hb') as (b2 & Hin2 & Hhb2 & _ & Hs2). exists b'. split; [by exists (b_hash b), p|]. rewrite Hhb', Hs2.
    assert (b2 = b) as ->; [|done]. pose proof (blocks_NoDup _ (mw_cluster m (du_wf m Hd))) as Hnd. rewrite (re_blocks m r Hr) in Hin, Hin2.
    by apply (NoDup_map_inj _ _ _ _ Hnd).
Qed.

Lemma restored_infos k v : records fi_key info_value (infos_of m') k v ↔ records fi_key info_value (infos_of m) k v.
Proof.
  destruct restored_folders as [F HF]. rewrite <- (records_perm fi_key info_value _ _ k v (re_infos m r Hr)).
  assert (infos_of m' = map (filled F) (map (regroup (rd_infos r)) (rd_folders r) ≫= fo_infos)) as ->.
  { unfold infos_of. rewrite HF. clear. induction (rd_folders r) as [|fo l IH]; [done|]. cbn [map mbind list_bind]. rewrite map_app, <- IH by done. done. }
  rewrite (restored_records fi_key info_value _ _ k v (filled_restores F _)).
  apply records_perm. etrans; [apply (regroup_infos m Hd); apply Hr|]. symmetry. apply Hr.
Qed.

Lemma restored_places k v : component m' prefix_file_info k v ↔ component m prefix_file_info k v.
Proof.
  destruct (rs_cluster _ _ _ Hrs) as (known & h1 & F & Hst & Hu).
  assert (rd_places r ≡ₚ places_of (map (regroup (rd_infos r)) (rd_folders r))) as Hp.
  { rewrite (re_places m r Hr). symmetry. apply (regroup_places m Hd); apply Hr. }
  etrans; [exact (restored_files _ _ _ _ _ _ _ _ k v Hu Hp)|]. symmetry. apply stored_files; try done.
  - intros x. rewrite <- Hp. by rewrite (re_places m r Hr).
  - intros x Hx. rewrite <- Hp, (re_places m r Hr) in Hx. apply (kept_place m (rd_blocks r)); [done|apply Hr|done|done].
Qed.

Lemma restored_component p k v : component m' p k v ↔ component m p k v.
Proof.
  destruct (decide (p = prefix_file_info)) as [->|Hp]; [apply restored_places|].
  destruct (rs_refilled _ _ _ Hrs) as [Fd Fpd Fid Fpf Fif]. destruct restored_folders as [F HF].
  unfold component. repeat (case_match; [|]); try done; [..|by apply restored_blocks|]; try (by apply restored_infos); try lia.
  - by rewrite (restored_records _ _ _ _ k v Fd), (records_perm _ _ _ _ k v (re_devices m r Hr)).
  - by rewrite HF, (restored_records _ _ _ _ k v (housed_restores F)), (records_perm _ _ _ _ k v (re_folders m r Hr)).
  - by rewrite (restored_records _ _ _ _ k v Fid), (records_perm _ _ _ _ k v (re_ignored_devices m r Hr)).
  - by rewrite (restored_records _ _ _ _ k v Fif), (records_perm _ _ _ _ k v (re_ignored_folders m r Hr)).
  - by rewrite (restored_records _ _ _ _ k v Fpf), (records_perm _ _ _ _ k v (re_pending_folders m r Hr)).
  - by rewrite (restored_records _ _ _ _ k v Fpd), (records_perm _ _ _ _ k v (re_pending_devices m r Hr)).
Qed.
End restored.

Lemma recorded_ext m m' k v : (∀ p k v, component m' p k v ↔ component m p k v) → recorded m' k v → recorded m k v.
Proof. intros Hc [|p Hp|p x rest v' Hi]; [constructor|by constructor|]. constructor. by apply Hc. Qed.

(** C4: what the database has of a cluster is loaded again: the actor's messages end, after at most one for each stored block
    and file, with a tree of changes that applies to a new cluster; the cluster it makes is well formed, has the same own
    device, and the database mirrors it as it mirrored the old one: no record is lost, added or changed. *)
Theorem restart_roundtrip a m cfg n token :
  mirrors (contents (da_env a)) m → durable m →
  (0 < dc_max_blocks_per_diff cfg)%nat → (0 < dc_max_files_per_diff cfg)%nat →
  (length (blocks_of (mo_cluster m)) + length (places_of (folders_of m)) < n)%nat →
  ∃ p d m', on_cluster_load_trigger a = Ok p ∧ load_loop cfg n p = Some d ∧
    apply d (new_cluster (mo_device m) token) = Ok m' ∧
    wf_model m' ∧ mo_device m' = mo_device m ∧ mirrors (contents (da_env a)) m'.
Proof.
  intros Hm Hd Hmax Hmax' Hn. destruct (load_ok a m cfg n token Hm Hd Hmax Hmax' Hn) as (p & d & r & m' & Ht & Hl & Ha & Hr & Hrs).
  exists p, d, m'. split_and!; try done; [by eapply restored_model|apply Hrs|]. pose proof (restored_component m r m' Hd Hr Hrs) as Hc.
  intros k v. rewrite (Hm k v). split; apply recorded_ext; intros q k' v'; by rewrite Hc.
Qed.
End restart.

(** ** A concrete cluster *)

#[local] Existing Instance mem_engine.
#[local] Existing Instance mem_engine_laws.
#[local] Existing Instance mem_codec.
#[local] Existing Instance mem_codec_laws.
#[local] Existing Instance posix.

Definition s_id (d : Z) : device_id := DeviceId.DeviceId [d] (prefix_device :: repeat d 32).

(** The cluster of [Removal], but the files of the peer have keys that start with the uuid of its folder info. *)
Definition s_peer_info : folder_info :=
  mkFolderInfo (prefix_folder_info :: repeat 9 32 ++ repeat 4 16 ++ repeat 2 16) 5 2 [] (repeat 9 32) (prefix_device :: repeat 9 32)
    [entry_of 2 (sample_file 2 [Some (5%positive, false); Some (6%positive, false)])].

Definition s_folder : folder := with_infos sample_folder [r_self_info; s_peer_info].

Definition s_some : DbSomeDevice := mkDbSomeDevice (chars "x") [] [] [] 12.

Definition s_model : model :=
  mkModel (mkCluster sample_block_map sample_heap sample_files [s_folder]) (r_device 1 true) [r_device 1 true; r_device 9 false] ∅ ∅ ∅
    [create_some prefix_pending_device (s_id 6) s_some] [create_some prefix_ignored_device (s_id 7) s_some] (mo_pending_folders r_model)
    [mkIgnoredFolder (prefix_ignored_folder :: chars "h") (chars "H")] 2.

Lemma s_infos fi : fi ∈ fo_infos s_folder → fi = r_self_info ∨ fi = s_peer_info.
Proof. cbn. rewrite elem_of_cons, list_elem_of_singleton. tauto. Qed.

Lemma s_cluster_wf : wf_cluster (mo_cluster s_model).
Proof.
  destruct sample_cluster_wf as [H1 H2 H3 _ _ _ _]. split; try done.
  - intros fo fi ->%list_elem_of_singleton [->| ->]%s_infos.
    + split_and!; [split; [repeat constructor|by intros e He%not_elem_of_nil]|done|by intros e He%not_elem_of_nil].
    + split_and!; [split|done|].
      * repeat constructor; by intros ?%not_elem_of_nil.
      * by intros e ->%list_elem_of_singleton.
      * intros e ->%list_elem_of_singleton. by eexists.
  - apply NoDup_singleton.
  - intros fo ->%list_elem_of_singleton. cbn. apply NoDup_cons. split; [|apply NoDup_singleton]. by rewrite list_elem_of_singleton.
  - intros fo fi e fo' fi' e' ->%list_elem_of_singleton Hfi He ->%list_elem_of_singleton Hfi' He' _. split; [done|].
    apply s_infos in Hfi as [->| ->]; [by apply not_elem_of_nil in He|]. by apply s_infos in Hfi' as [->| ->]; [apply not_elem_of_nil in He'|].
Qed.

Lemma s_model_wf : wf_model s_model.
Proof.
  split.
  - apply s_cluster_wf.
  - apply wf_gmap_one.
  - intros fo ->%list_elem_of_singleton. apply wf_gmap_two; [|done]. intros (I & HI & Heq)%shares_alt. destruct I as [|[|[|I]]]; [by vm_compute in Heq..|lia].
  - intros fo fi ->%list_elem_of_singleton [->| ->]%s_infos; [exists (repeat 255 32), (repeat 4 16), (repeat 7 16)|exists (repeat 9 32), (repeat 4 16), (repeat 2 16)]; by split_and!.
  - intros p f Hp. apply (bool_decide_unpack (map_Forall (λ _ f, length (f_key f) = data_length) sample_files) ltac:(vm_compute; exact I) p f Hp).
  - apply wf_gmap_two; [|done]. intros (I & HI & Heq)%shares_alt. destruct I as [|[|I]]; [by vm_compute in Heq..|lia].
  - apply wf_gmap_one.
Qed.

Lemma s_sha d : 0 <= d < 256 → is_sha256 (repeat d 32).
Proof. intros Hd. split; [apply Forall_forall; by intros x ->%list_elem_of_In%repeat_spec|apply repeat_length]. Qed.

Lemma s_durable : durable s_model.
Proof.
  split.
  - apply s_model_wf.
  - by left.
  - by eexists _, _.
  - intros dev [->|Hdev]%elem_of_cons; [|apply list_elem_of_singleton in Hdev; subst dev]; [by left|right]. split_and!; [apply (s_sha 9); lia|done|constructor].
  - split; [apply wf_gmap_one|]. apply Forall_singleton. split; [apply (s_sha 6); lia|done].
  - split; [apply wf_gmap_one|]. apply Forall_singleton. split; [apply (s_sha 7); lia|done].
  - apply Forall_singleton. split; [apply (s_sha 9); lia|]. by exists (repeat 3 16).
  - split; [apply wf_gmap_one|]. apply Forall_singleton. by eexists _, _.
  - apply Forall_singleton. by exists (repeat 4 16).
  - apply (bool_decide_unpack (NoDup _)). vm_compute. exact I.
  - intros fo fi ->%list_elem_of_singleton [->| ->]%s_infos; [exists (r_device 1 true)|exists (r_device 9 false)]; (split; [|done]); [by left|right; by left].
  - intros hash p Hp. apply (bool_decide_unpack (map_Forall (λ h _, length h = Blocks.digest_length) sample_block_map) ltac:(vm_compute; exact I) hash p Hp).
  - intros fo fi e f ->%list_elem_of_singleton [->| ->]%s_infos He Hf; [by apply elem_of_nil in He|]. apply list_elem_of_singleton in He. subst e.
    assert (f = sample_file 2 [Some (5%positive, false); Some (6%positive, false)]) as -> by (vm_compute in Hf; injection Hf as <-; reflexivity).
    split; [done|done|repeat constructor; by eexists|]. eexists. split; [vm_compute; reflexivity|].
    split; cbn; [done|split; [done|]|done|by repeat constructor|by left].
    repeat constructor; cbn; lia.
  - vm_compute. done.
Qed.

Definition s_store : store := list_to_map (M := gmap bytes bytes) (db_image s_model).

Definition s_actor : db_actor := mkDbActor s_store None 0 false.

(** The records of that cluster, read in portions of one block and one file. *)
Example restart_roundtrip_witness :
  ∃ p d m', on_cluster_load_trigger s_actor = Ok p ∧ load_loop (mkDbConfig 150 1 1) 5 p = Some d ∧
    apply d (new_cluster (r_device 1 true) 0) = Ok m' ∧ wf_model m' ∧ mo_device m' = r_device 1 true ∧ mirrors s_store m'.
Proof.
  apply (@restart_roundtrip mem_engine mem_engine_laws mem_codec mem_codec_laws sample_parse_text s_actor s_model (mkDbConfig 150 1 1) 5 0).
  - apply image_mirrors; [vm_compute; reflexivity|]. apply (bool_decide_unpack (NoDup _)). vm_compute. exact I.
  - apply s_durable.
  - cbn. lia.
  - cbn. lia.
  - vm_compute. lia.
Defined.

(** ** Portions *)

Section portions.
Context `{DbCodec}.

(** Everything in one change: all blocks, then all files. *)
Definition load_at_once (p : partial_load) : diff op :=
  let blocks := unpack_blocks (pl_blocks p) in
  let '(files, corrupted) := unpack_files (pl_known_hashes p ++ map (λ x, drop 1 (fst x)) blocks) (pl_folder_infos_uuids p) (pl_files p) in
  Node LoadCluster (chain (pl_chain p ++ [LoadBlocks blocks; LoadFileInfos files] ++ clean_up (pl_corrupted_files p ++ corrupted) ++ [Commit])) Null.

Lemma apply_cluster ops m : Forall (λ o, loads o = true) ops → apply (Node LoadCluster (chain ops) Null) m = run ops m.
Proof.
  intros Hl. cbn [apply kind_of change_ops op_kind before after late enters op_enters op_before op_after op_late res_bind]. rewrite apply_chain by done.
  by destruct (run ops m).
Qed.

Lemma clean_up_loads corrupted : Forall (λ o, loads o = true) (clean_up corrupted).
Proof. unfold clean_up. case_bool_decide; by repeat constructor. Qed.

(** C22: the portions in which the database is loaded make no difference. Whatever the (positive) numbers of blocks and files per
    portion are, the partial loads end after at most one message per record, and applying what they gathered to any cluster has
    the outcome, errors included, of loading all blocks and all files at once. *)
Theorem portions_equivalent (cfg : db_config) (p : partial_load) (n : nat) (m : model) :
  (0 < dc_max_blocks_per_diff cfg)%nat → (0 < dc_max_files_per_diff cfg)%nat → Forall (λ o, loads o = true) (pl_chain p) →
  (length (pl_blocks p) + length (pl_files p) < n)%nat →
  ∃ d, load_loop cfg n p = Some d ∧ apply d m = apply (load_at_once p) m.
Proof.
  intros Hmax Hmax' Hc Hn. destruct (load_loop_ok cfg n p Hmax Hmax' Hn) as (bops & fops & Hl & Hbp & Hbi & Hfp & Hfi). eexists. split; [exact Hl|].
  unfold load_at_once. destruct (unpack_files _ _ _) as [files corrupted]. cbn [fst snd] in *.
  rewrite !apply_cluster by (rewrite !Forall_app; split_and!; auto using portions_load, clean_up_loads; by repeat constructor).
  rewrite !(run_app (pl_chain p)). destruct (run (pl_chain p) m) as [m1| |]; cbn [res_bind]; [|done..].
  rewrite (run_app bops), (run_blocks bops), Hbi by done. cbn [app run op_before]. destruct (load_blocks_apply _ m1) as [m2| |]; cbn [res_bind]; [|done..].
  by rewrite (run_app fops), (run_files fops), Hfi by done.
Qed.
End portions.

(** What the actor of the sample reads first. *)
Definition s_load : partial_load := match on_cluster_load_trigger s_actor with Ok p => p | _ => mkPartialLoad [] [] [] [] [] [] end.

Example portions_equivalent_witness :
  length (pl_blocks s_load) = 2%nat ∧ length (pl_files s_load) = 1%nat ∧
  ∃ d, load_loop (mkDbConfig 150 1 1) 5 s_load = Some d ∧
    apply d (new_cluster (r_device 1 true) 0) = apply (load_at_once s_load) (new_cluster (r_device 1 true) 0).
Proof.
  split; [by vm_compute|]. split; [by vm_compute|]. apply (portions_equivalent (mkDbConfig 150 1 1) s_load 5 (new_cluster (r_device 1 true) 0)).
  - cbn. lia.
  - cbn. lia.
  - by apply (bool_decide_unpack (Forall (λ o, loads o = true) (pl_chain s_load))); vm_compute.
  - vm_compute. lia.
Defined.
